(* ===== verification/_CoqProject ===== *)
-Q . S2P
Prelude.v
Num.v
Floats.v
MemoryKinds.v
FifoKinds.v
DisplayKinds.v
DeviceKinds.v
FirstFit.v
GuestPtr.v
Cursor.v
GuestRecords.v
SuspendBlob.v
Features.v
Runs.v
RunBlock.v
RangeTracker.v
MemoryMap.v
PageTable.v
Stamps.v
Ring.v
Wire.v
Waits.v
RootTask.v
Device.v
DisplayPage.v
GuestDisplay.v
GuestCursor.v
Presents.v
Efi.v
Displays.v
DisplayCores.v
Mmio.v
Fifo.v
Commands.v
Walk.v
Info.v
Collections.v
SurfaceDescriptor.v
SurfaceWalk.v
Surfaces.v
SurfaceFacts.v
DeviceInfo.v
TaskTable.v
TaskKinds.v
ObjectLists.v
Lifecycle.v
