(* ===== verification/Prelude.v ===== *)
(** * Verification of reims-vgpu-core

    reims-vgpu is a virtual GPU: a guest driver writes commands into rings in
    its own memory, and the host device reads them, runs them and publishes
    stamps back. This library models the core of src/crates/reims-vgpu-core/src
    around the GPU itself: how guest memory is found, mapped, read, written and
    tracked; how the FIFO reads commands, waits for the stamps they depend on and
    publishes their completion in order; the device with its registers, FIFOs,
    tasks, displays and life cycle; and the IOSurface host device beside it.

    ** The parts and the files

    The base:
    - [Prelude] (this file): machine words as [Z] with their wrap-around, bytes,
      the outcome monad, the state monad [Run] over it with its preconditions
      ([wp] says nothing of a death, [twp] allows none, [xwp] allows those it
      names; the tactics [wp_go], [twp_go], [xwp_go]), slot lemmas, the hint
      database [words], the tactics [word_lia], [inv_bind], [case_if].
    - [Num], [Floats] (num.rs): the guest's integer rules, the forward copy, and
      the one use of floating point.
    - [MemoryKinds] (memory.rs, raise/death.rs, raise/on_fault.rs), [FifoKinds]
      (fifo.rs), [DisplayKinds] (device/displays.rs, display.rs,
      display/guest_display.rs), [DeviceKinds] (device.rs) and [TaskKinds]
      (tasks.rs): what is raised and how the process ends.
    - [FirstFit], [Collections] (collections/): the address allocator's free list
      and the maps named by the order they give.

    Guest memory:
    - [GuestPtr] (guest/ptr.rs, guest/page.rs): accesses to host memory as loads
      and stores of a byte map, with the deaths of faulting ones.
    - [Cursor] (memory/cursor.rs): reads and writes across scattered ranges.
    - [GuestRecords] (guest/records.rs): the guest ABI's records; the class
      [Target] is the architecture the crate is built for.
    - [Runs], [RunBlock], [RangeTracker] (memory/tracker.rs): page runs, blocks
      of 256 runs, and the 128 slots of blocks that record which pages of a task
      are mapped. [RangeTracker] calls [RunBlock], which calls [Runs].
    - [MemoryMap] (memory/map.rs, descriptor.rs, mapping.rs): the host's map of
      guest memory, translation, and the mappings made of it.
    - [PageTable] (memory/page_table.rs): the walk of a guest page table of any
      depth; the block that reads a table and the visitor are parameters.

    The FIFO:
    - [Stamps] (fifo/stamps.rs): the queue of pending stamps; [Stamps.Spec] is
      its abstract specification, a list.
    - [Ring] (fifo/ring.rs): the root and child rings; it reads guest memory
      through [GuestPtr] and maps a child's pages through the interface class
      [DeviceMappings].
    - [Wire] (fifo/wire.rs): the command header, the barriers, payload reads and
      the record arrays; the class [WireRecord] is a record's decoding.
    - [Waits] (device/waits.rs, device.rs): the table of waiting FIFOs, a wait's
      registration with its walk of the chain of waits, and the barriers of a
      command.
    - [Fifo] (fifo.rs, fifo/thread.rs): the FIFO over its [Ring] and its [Stamps],
      and one turn of its thread's loop: [turn] frames a command with [Wire],
      reads it, waits, advances and pushes its stamp, and calls the interface
      class [FifoClients], the device's barrier wait and the command's handler.
    - [Commands] (fifo/commands.rs, fifo/commands/): the opcode table and every
      handler, each as the trace of what it asks its clients and how it settles
      the command's stamp; its answers are a parameter.
    - [Walk] (deserializer/walk.rs, decoder.rs): the segments of an exec over
      [Cursor], the decoder carried from one to the next, and the record loop the
      decoders share; the class [DecoderOps] is a decoder. [Info]
      (deserializer/info.rs, records.rs) is the one that answers the guest's
      queries; the class [InfoPlatform] is the host's objects.

    The device:
    - [RootTask] (device/root.rs, device.rs): the address space of the root task
      over [FirstFit] and [MemoryMap], and the physical read; the host's blocks
      are an argument.
    - [Device] (device/root.rs, device/fifos.rs, device.rs): the root node, the
      root and child FIFOs, stamps, faults and interrupts, over [RootTask] and
      [Waits]; its FIFOs, tasks and displays are the class [Clients].
    - [Features], [DeviceInfo], [SuspendBlob] (guest/abi/, platform/caps.rs): the
      negotiation of a binary version, the info a guest and its host exchange, and
      the saved state of a suspended device as bytes.
    - [Mmio] (device/mmio.rs): the register window, over [Device] and [Displays].
    - [TaskTable] (device/tasks.rs): the tasks by id, over [Device]; what a task is
      is the class [Tasks], and the table is the [clients] of the device.
    - [ObjectLists] (tasks/object_lists.rs): where a task's object list and
      placement list are; the task and the mappings are the class [Host].
    - [Lifecycle] (device/lifecycle.rs): suspend, resume, pause, stop and reset,
      over [Mmio], [TaskTable], [SuspendBlob] and [DeviceInfo].

    The displays:
    - [DisplayPage] (display/page.rs): the fields of the page shared with the guest.
    - [GuestDisplay], [GuestCursor], [Presents] (display/guest_display.rs and
      display/guest_display/): the guest's side of a port: the connect and ack
      machine and the settings, the cursor, the frames; the kernel task, the images
      and the textures are the classes [Kernel], [Images], [Frames].
    - [Efi] (display/efi.rs): the framebuffer of the firmware, over the class [Host].
    - [Displays] (device/displays.rs): the ports of the device over the class
      [Parts] and its laws; [DisplayCores] (display.rs) is the instance of that
      class by the guest displays, the cores and the EFI displays, with its laws.

    The IOSurface host device (iosurface/):
    - [SurfaceDescriptor], [SurfaceWalk]: the descriptors of a surface and the walk
      of its pages.
    - [Surfaces]: the registers, the ring and its commands, the descriptor table and
      the slots, over [MemoryMap]; [SurfaceFacts] is what holds of it.

    ** How the code is modelled

    A struct is a [Record], an enum an [Inductive], a method a [Definition] of
    the same name that takes the state and returns the state it leaves. A
    [u8..u64] is a [Z] in range and every wrapping operation is written out. An
    operation ends in one of the source's three channels ([outcome]): a result,
    a raise (with the state it leaves, where it mutates), or a death of the
    process. A loop is a [Fixpoint] with fuel; the fuel each caller passes is at
    least the number of turns the loop can take (the length of the array it
    walks, the bytes left to copy, the pending stamps, the commands between the
    counters of a ring; [Lifecycle.WALK_FUEL] is past the last word of a page),
    running out is a death of the model's own ([OutOfFuel]) or the result [Spins],
    and the theorems state that the operation returns, so that it is never
    reached. Guest memory is a total map from host addresses to bytes;
    [ObjectLists], where one page can be mapped twice, takes it through the byte of
    the guest's that an address shows. What the platform or the host answers is a
    function of the calls before it, or a class whose laws say what is counted on;
    each class with laws has an instance, and the theorems over it a run of one.

    ** What the theorems show

    - [Stamps]: each operation of the ring of slots is a step of the list
      specification ([stamp_queue_refines]); over whole runs the stamps are
      published in the order pushed, one signal per completed prefix
      ([published_in_order]) and a fault is reported once per latch
      ([fault_reported_once]); the branches and deaths of a signal and a fault,
      and when a drain returns.
    - [Ring]: a read takes the ring's next bytes across the wrap, a child's never
      past what the guest wrote; an advance publishes exactly what was read, a
      rewind makes the same bytes be read again; the mapping of a child's ring.
    - [Fifo], [Wire]: how a header is framed; a whole command whose barriers are
      met is read, published as read, pushed and run on exactly the bytes the
      guest wrote ([turn_runs_command]); one whose wait fails is faulted or left
      in the ring ([turn_unmet_barrier]); a fault latches its offset and a resume
      clears it; a record array is read back whole.
    - [Commands]: every command run to its end settles its stamp exactly once,
      a whole delay excepted, and no raise leaves it, a task call that raises after it
      handed its completion on included ([dispatch_settles]); an exec
      command hands on the lists its header declares, within the payload; the
      properties of a display are all set in order.
    - [Runs], [RunBlock], [RangeTracker]: the comparison decides how runs lie;
      add, remove and split keep a block sorted, disjoint and within its hull and
      change the covered pages as they should; a yes from a test is sound at both
      levels; the unmapped runs of a visit cover every unmapped page.
    - [MemoryMap]: which maps are accepted, that translation is unambiguous, that
      a range mapping aliases the bytes requested in order, that a refused one
      frees its allocation once, and that writes read back.
    - [FirstFit]: allocation is first fit, freeing gives back exactly the block
      and keeps the list sorted and coalesced, and the two are inverse.
    - [PageTable]: the walk makes exactly the visits of a separate lookup of each
      page of the range, in order, and ends where that does ([walk_is_lookup]).
    - [Waits]: below 33 FIFOs the walk of a registration ends, refuses exactly the
      waits that close a cycle ([add_wait_finds_cycles]), and over every run of
      registrations, releases and pushes in which the FIFOs keep the stamps they promised
      no wait closes a cycle ([waits_never_cycle]); a FIFO that pushes a lower stamp, which
      the code does not test for, makes one, and the walk into it is endless
      ([taken_back_stamp_cycles]), as it can be with 64 FIFOs ([walk_without_end]); a
      release clears exactly its bit; a wait answers as its slices say.
    - [Walk], [Info]: the record loop dispatches the records of a segment in order
      and ends as its bytes say; the walk over segments is the decoding of chains,
      one decoder each ([decode_segments_chains]); a query replies exactly its
      layout at its offset; the list queries map each element, and a short reply
      buffer raises after what fits.
    - [Cursor], [GuestPtr], [GuestRecords], [Num]: reads and writes move exactly
      the bytes addressed and round trip; the features survive the shared words
      and a torn load of the FIFO count is one of the two counts; bounds of the
      rounding and page arithmetic.
    - [RootTask], [Device]: the free list and the live mappings partition the root
      task ([root_task_partitioned]); the device stays well formed over every run
      ([device_well_formed]), and a new root page undoes the old one
      ([set_root_page_resets]).
    - [Mmio], [Features]: a register reads back what was written to it, and the
      version stored is the one negotiated; the features of the valid versions only
      grow.
    - [Lifecycle], [SuspendBlob], [DeviceInfo]: what parses is exactly what a
      serializer writes ([parse_exact]); a state saved and restored is the state
      ([suspend_then_resume]); each operation is the step of the run state it should
      be ([life_cycle_refines]); what a suspend leaves, and each refusal of a resume;
      the pairs the host writes and how a guest's are judged.
    - [TaskTable], [ObjectLists]: the kernel task is never isolated; a task created
      and deleted leaves the table; teardown is in key order. Setting a task's lists
      refuses exactly what the one test names and leaves root and members in step
      ([set_object_list_ends]); no mapping leaks ([mappings_balanced]); an entry is
      read where its list is mapped, and where the code does not hold it to that
      ([entries_within_lists], [placement_past_the_list]); the copy of the entries is
      libc's ([placement_copy_is_memcpy]).
    - [Displays], [DisplayCores], [GuestDisplay], [GuestCursor], [Presents], [Efi]:
      every operation on the ports is a step of their specification
      ([display_ports_refine]), and the parts behind them keep its laws
      ([world_is_lawful]); the machine of a guest display that runs refines its own
      and dies only of a guest's mode count above 128 ([state_machine_refines]), and a
      connect is acked ([connect_then_ack]); a glyph is taken whole or not at all; a
      present hands the display the frame of its backing's surface; the presents of the
      EFI display are scheduled and cancelled in pairs ([efi_presents_safe]).
    - [SurfaceDescriptor], [SurfaceWalk], [SurfaceFacts]: the fields put at the offsets
      of a descriptor's layout are read back ([descriptors_read_back]) and the refusals of
      a surface exact; the walk is a lookup of each page
      ([surface_walk_is_lookup]); the device stays well formed, its ring runs to its
      end ([ring_runs]), a map is undone by its unmap, and host-only memory is
      bounded.

    ** What is not modelled

    Locks and threads: an operation runs alone from its lock to its release, and
    a wait is a result. Concurrent guest writes within one operation. Log lines,
    traces, pools and holders. [Fifo] models a turn of the thread's loop and its
    end, not the loop over turns. [Waits] models a registration as one step on the
    table; the report of a wait that times out is log lines. A raise out of a host
    block of [RootTask] has no model.

    Of the core: what a task is beyond its lists (its memory, its execs, the
    isolated service), the render, blit and compute decoders, resources and the
    resource manager, the GPU task service, and the creation of a device. They turn
    the guest's records into calls of the platform: what they compute is in those
    calls, which the library would take as parameters. The host side of a display
    (pipelines, encodes, EDID, gamma textures) is platform calls as well. The back
    ends (metal, vulkan), the front ends, the bindings and the build are outside the
    library. *)

From Stdlib Require Export ZArith Lia.
From Stdlib Require Export Strings.Byte.
From stdpp Require Export base list option numbers.

#[export] Set Default Goal Selector "!".

Declare Scope word_scope.
Delimit Scope word_scope with word.

Open Scope Z_scope.

(** ** Unsigned machine words

    A [u8], [u16], [u32], [u64] of the source is a [Z] in its range; every
    operation of the source that wraps is one of the definitions below. *)

Definition M32 : Z := 2 ^ 32.
Definition M64 : Z := 2 ^ 64.

Definition w32 (x : Z) : Z := x mod M32.
Definition w64 (x : Z) : Z := x mod M64.

(** [wrapping_add], [wrapping_sub], [wrapping_mul] at both widths. *)
Definition add32 (a b : Z) : Z := w32 (a + b).
Definition sub32 (a b : Z) : Z := w32 (a - b).
Definition mul32 (a b : Z) : Z := w32 (a * b).
Definition add64 (a b : Z) : Z := w64 (a + b).
Definition sub64 (a b : Z) : Z := w64 (a - b).
Definition mul64 (a b : Z) : Z := w64 (a * b).

(** [wrapping_shl] and [wrapping_shr]: the count is taken modulo the width. *)
Definition shl32 (x n : Z) : Z := w32 (Z.shiftl x (n mod 32)).
Definition shr32 (x n : Z) : Z := Z.shiftr x (n mod 32).
Definition shl64 (x n : Z) : Z := w64 (Z.shiftl x (n mod 64)).
Definition shr64 (x n : Z) : Z := Z.shiftr x (n mod 64).

(** [!x] at 64 and 32 bits. *)
Definition not64 (x : Z) : Z := M64 - 1 - x.
Definition not32 (x : Z) : Z := M32 - 1 - x.

(** [checked_add] and the [overflowing_*] pairs. *)
Definition checked_add64 (a b : Z) : option Z :=
  if a + b <? M64 then Some (a + b) else None.
Definition overflowing_add64 (a b : Z) : Z * bool := (add64 a b, M64 <=? a + b).
Definition overflowing_sub64 (a b : Z) : Z * bool := (sub64 a b, a <? b).
Definition overflowing_mul64 (a b : Z) : Z * bool := (mul64 a b, M64 <=? a * b).

(** [cast_signed] of a [u32]. *)
Definition i32_of_u32 (x : Z) : Z := if x <? 2 ^ 31 then x else x - M32.
(** [cast_unsigned] of an [i32]. *)
Definition u32_of_i32 (x : Z) : Z := w32 x.

Notation u8 x := (0 <= x < 256).
Notation u16 x := (0 <= x < 65536).
Notation u32 x := (0 <= x < M32).
Notation u64 x := (0 <= x < M64).

Infix "+w32" := add32 (at level 50, left associativity) : word_scope.
Infix "-w32" := sub32 (at level 50, left associativity) : word_scope.
Infix "+w64" := add64 (at level 50, left associativity) : word_scope.
Infix "-w64" := sub64 (at level 50, left associativity) : word_scope.
Infix "*w64" := mul64 (at level 40, left associativity) : word_scope.

Lemma M32_val : M32 = 4294967296. Proof. reflexivity. Qed.
Lemma M64_val : M64 = 18446744073709551616. Proof. reflexivity. Qed.

(** [word_lia] proves linear facts that mention the moduli and the wrapping
    operations, by unfolding them and giving [lia] the division equations. *)
Ltac word_unfold :=
  unfold add32, sub32, mul32, add64, sub64, mul64, w32, w64, not64, not32,
    checked_add64, overflowing_add64, overflowing_sub64, overflowing_mul64 in *;
  rewrite ?M32_val, ?M64_val in *.
Ltac word_lia := word_unfold; Z.to_euclidean_division_equations; lia.

Create HintDb words discriminated.

Lemma w32_small x : u32 x -> w32 x = x.
Proof. apply Z.mod_small. Qed.
Lemma w64_small x : u64 x -> w64 x = x.
Proof. apply Z.mod_small. Qed.
Lemma w32_range x : u32 (w32 x).
Proof. apply Z.mod_pos_bound. reflexivity. Qed.
Lemma w64_range x : u64 (w64 x).
Proof. apply Z.mod_pos_bound. reflexivity. Qed.
Lemma add32_small a b : 0 <= a + b < M32 -> add32 a b = a + b.
Proof. apply Z.mod_small. Qed.
Lemma sub32_small a b : 0 <= a - b < M32 -> sub32 a b = a - b.
Proof. apply Z.mod_small. Qed.
Lemma add64_small a b : 0 <= a + b < M64 -> add64 a b = a + b.
Proof. apply Z.mod_small. Qed.
Lemma sub64_small a b : 0 <= a - b < M64 -> sub64 a b = a - b.
Proof. apply Z.mod_small. Qed.
Lemma mul64_small a b : 0 <= a * b < M64 -> mul64 a b = a * b.
Proof. apply Z.mod_small. Qed.
Lemma add32_range a b : u32 (add32 a b).
Proof. apply w32_range. Qed.
Lemma sub32_range a b : u32 (sub32 a b).
Proof. apply w32_range. Qed.
Lemma add64_range a b : u64 (add64 a b).
Proof. apply w64_range. Qed.
Lemma sub64_range a b : u64 (sub64 a b).
Proof. apply w64_range. Qed.
Lemma mul64_range a b : u64 (mul64 a b).
Proof. apply w64_range. Qed.
Lemma add32_add a b c : add32 (add32 a b) c = add32 a (b + c).
Proof. unfold add32, w32. rewrite Zplus_mod_idemp_l. f_equal. lia. Qed.
Lemma sub32_add w c k : 0 <= k <= sub32 w c -> sub32 w (add32 c k) = sub32 w c - k.
Proof.
  intros Hk. pose proof (sub32_range w c).
  rewrite <- (w32_small (sub32 w c - k)) by lia.
  unfold sub32, add32, w32. rewrite Zminus_mod_idemp_l, Zminus_mod_idemp_r.
  f_equal. lia.
Qed.
#[export] Hint Resolve w32_range w64_range add32_range sub32_range add64_range
  sub64_range mul64_range : words.
#[export] Hint Rewrite w32_small w64_small add32_small sub32_small add64_small
  sub64_small mul64_small using (first [assumption | lia]) : words.

(** Masks of [2 ^ k - 1]: rounding down and up to a power of two. *)
Lemma land_mask x k : 0 <= k -> Z.land x (2 ^ k - 1) = x mod 2 ^ k.
Proof.
  intros Hk. rewrite <- Z.land_ones by done. f_equal. rewrite Z.ones_equiv. lia.
Qed.

Lemma land_not64_mask x k :
  0 <= k <= 64 -> u64 x -> Z.land x (not64 (2 ^ k - 1)) = x - x mod 2 ^ k.
Proof.
  intros Hk Hx. unfold not64, M64.
  replace (2 ^ 64 - 1 - (2 ^ k - 1)) with (Z.ldiff (Z.ones 64) (Z.ones k)).
  2: { rewrite <- Z.sub_nocarry_ldiff, !Z.ones_equiv; [lia|].
       apply Z.bits_inj'. intros i Hi. rewrite Z.ldiff_spec, Z.bits_0.
       destruct (Z.lt_ge_cases i k).
       - rewrite (Z.ones_spec_low 64) by lia. apply andb_false_r.
       - by rewrite (Z.ones_spec_high k) by lia. }
  rewrite <- Z.land_ones by lia.
  transitivity (Z.ldiff x (Z.ones k)).
  - apply Z.bits_inj'. intros i Hi. rewrite Z.land_spec, !Z.ldiff_spec.
    destruct (Z.lt_ge_cases i 64).
    + rewrite (Z.ones_spec_low 64) by lia. by rewrite andb_true_l.
    + rewrite (Z.bits_above_log2 x); [done|lia|].
      destruct (Z.eq_dec x 0) as [->|]; [simpl; lia|].
      apply Z.log2_lt_pow2; [lia|]. eapply Z.lt_le_trans; [apply Hx|].
      apply Z.pow_le_mono_r; lia.
  - rewrite Z.sub_nocarry_ldiff.
    + apply Z.bits_inj'. intros i Hi. rewrite !Z.ldiff_spec, Z.land_spec.
      by destruct (Z.testbit x i), (Z.testbit (Z.ones k) i).
    + apply Z.bits_inj'. intros i Hi. rewrite Z.ldiff_spec, Z.land_spec, Z.bits_0.
      by destruct (Z.testbit x i), (Z.testbit (Z.ones k) i).
Qed.

(** ** Bytes, little endian *)

Definition Z_of_byte (b : byte) : Z := Z.of_N (Byte.to_N b).
Definition byte_of_Z (z : Z) : byte :=
  default x00 (Byte.of_N (Z.to_N (z mod 256))).

#[export] Instance byte_eq_dec : EqDecision byte := Byte.byte_eq_dec.

Lemma Z_of_byte_range b : u8 (Z_of_byte b).
Proof. unfold Z_of_byte. pose proof (Byte.to_N_bounded b). lia. Qed.

Lemma Z_of_byte_of_Z z : Z_of_byte (byte_of_Z z) = z mod 256.
Proof.
  unfold Z_of_byte, byte_of_Z.
  pose proof (Z.mod_pos_bound z 256 ltac:(lia)).
  destruct (Byte.of_N (Z.to_N (z mod 256))) as [b|] eqn:E; simpl.
  - apply Byte.to_of_N in E. rewrite E. lia.
  - apply Byte.of_N_None_iff in E. lia.
Qed.

Lemma byte_of_Z_of_byte b : byte_of_Z (Z_of_byte b) = b.
Proof.
  unfold Z_of_byte, byte_of_Z. pose proof (Byte.to_N_bounded b).
  rewrite Z.mod_small, N2Z.id, Byte.of_to_N by lia. done.
Qed.

(** The bits of a word. *)
Lemma u32_bits x :
  0 <= x -> (forall i, 32 <= i -> Z.testbit x i = false) -> u32 x.
Proof.
  intros Hx Hb. assert (x = x mod 2 ^ 32) as ->; [|by apply Z.mod_pos_bound].
  apply Z.bits_inj'. intros i Hi. destruct (Z.lt_ge_cases i 32).
  - by rewrite Z.mod_pow2_bits_low by lia.
  - rewrite Z.mod_pow2_bits_high by lia. by apply Hb.
Qed.

Lemma u32_high x i : u32 x -> 32 <= i -> Z.testbit x i = false.
Proof.
  intros Hx Hi. rewrite <- (Z.mod_small x (2 ^ 32)) by apply Hx.
  apply Z.mod_pow2_bits_high. lia.
Qed.

Lemma lor_u32 a b : u32 a -> u32 b -> u32 (Z.lor a b).
Proof.
  intros Ha Hb. apply u32_bits; [apply Z.lor_nonneg; lia|]. intros i Hi.
  by rewrite Z.lor_spec, !u32_high.
Qed.

Lemma land_u32 a b : u32 a -> u32 (Z.land a b).
Proof.
  intros Ha. apply u32_bits; [apply Z.land_nonneg; lia|]. intros i Hi.
  by rewrite Z.land_spec, u32_high.
Qed.

(** [to_le_bytes] of an [n]-byte word and [from_le_bytes]. *)
Fixpoint le_bytes (n : nat) (z : Z) : list byte :=
  match n with
  | O => []
  | S n => byte_of_Z z :: le_bytes n (z / 256)
  end.

Fixpoint of_le_bytes (bs : list byte) : Z :=
  match bs with
  | [] => 0
  | b :: bs => Z_of_byte b + 256 * of_le_bytes bs
  end.

Lemma length_le_bytes n z : length (le_bytes n z) = n.
Proof. revert z. induction n as [|n IH]; intros z; simpl; [done|by rewrite IH]. Qed.

Lemma of_le_bytes_range bs : 0 <= of_le_bytes bs < 256 ^ Z.of_nat (length bs).
Proof.
  induction bs as [|b bs IH]; [simpl; lia|].
  cbn [of_le_bytes length]. rewrite Nat2Z.inj_succ, Z.pow_succ_r by lia.
  pose proof (Z_of_byte_range b). lia.
Qed.

Lemma of_le_bytes_le_bytes n z :
  of_le_bytes (le_bytes n z) = z mod 256 ^ Z.of_nat n.
Proof.
  revert z. induction n as [|n IH]; intros z; [by rewrite Z.mod_1_r|].
  cbn [le_bytes of_le_bytes]. rewrite IH, Z_of_byte_of_Z.
  rewrite Nat2Z.inj_succ, Z.pow_succ_r by lia.
  rewrite Z.rem_mul_r by (try apply Z.pow_nonzero; lia). lia.
Qed.

Lemma le_bytes_of_le_bytes bs : le_bytes (length bs) (of_le_bytes bs) = bs.
Proof.
  induction bs as [|b bs IH]; [done|]. cbn [length of_le_bytes le_bytes].
  pose proof (Z_of_byte_range b) as Hb.
  f_equal.
  - rewrite <- (byte_of_Z_of_byte b) at 2. unfold byte_of_Z. do 3 f_equal.
    rewrite (Z.mul_comm 256), Z.mod_add by lia. done.
  - rewrite (Z.mul_comm 256), Z.div_add, Z.div_small, Z.add_0_l by lia. done.
Qed.

Lemma of_le_bytes_u32 bs : length bs = 4%nat -> u32 (of_le_bytes bs).
Proof. intros H. pose proof (of_le_bytes_range bs). by rewrite H in *. Qed.

Lemma of_le_bytes_4 z : u32 z -> of_le_bytes (le_bytes 4 z) = z.
Proof. intros H. rewrite of_le_bytes_le_bytes. by apply Z.mod_small. Qed.
#[export] Hint Rewrite length_le_bytes : words.

(** ** Outcomes

    A fallible operation of the source ends in one of three channels
    (src/docs/architecture.md section 6): a result, a raise ([Err] of a
    [RaiseResult]) or a death of the process. [R] is what a raise carries, [D]
    what a death does. A mutating operation that can raise carries the state the
    raise leaves in [R]. *)

Inductive outcome (R D A : Type) : Type :=
| Ret (a : A)
| Raised (r : R)
| Died (d : D).
Arguments Ret {R D A} a.
Arguments Raised {R D A} r.
Arguments Died {R D A} d.

Section Outcome.
Context {R D : Type}.

#[global] Instance outcome_ret : MRet (outcome R D) := fun A a => Ret a.
#[global] Instance outcome_bind : MBind (outcome R D) := fun A B f m =>
  match m with Ret a => f a | Raised r => Raised r | Died d => Died d end.

(** [fatal_unless!(c, d)]. *)
Definition fatal_unless (c : bool) (d : D) : outcome R D unit :=
  if c then Ret tt else Died d.

(** A raise of [R] as a raise carrying the state [s] it leaves. *)
Definition leaving {S A} (s : S) (m : outcome R D A) : outcome (R * S) D A :=
  match m with Ret a => Ret a | Raised r => Raised (r, s) | Died d => Died d end.
End Outcome.

Definition is_ret {R D A} (m : outcome R D A) : Prop := exists a, m = Ret a.

Section OutcomeLaws.
Context {R D A B : Type}.
Implicit Types (m : outcome R D A) (f : A -> outcome R D B).

Lemma bind_ret_l a f : (Ret a ≫= f) = f a.
Proof. done. Qed.

Lemma bind_Ret_inv m f b : (m ≫= f) = Ret b -> exists a, m = Ret a /\ f a = Ret b.
Proof. destruct m; simpl; intros H; [eauto|done|done]. Qed.

Lemma fatal_unless_Ret (c : bool) (d : D) u :
  fatal_unless (R:=R) c d = Ret u -> c = true.
Proof. by destruct c. Qed.
End OutcomeLaws.

(** A step over a state [S]: a result with the state after it, a raise with the state
    it leaves, or a death. *)
Definition Run (S E D A : Type) : Type := S -> outcome (E * S) D (A * S).

Section Run.
Context {S E D : Type}.
#[global] Instance run_ret : MRet (Run S E D) := fun A a s => Ret (a, s).
#[global] Instance run_bind : MBind (Run S E D) := fun A B f m s =>
  match m s with
  | Ret (a, s) => f a s
  | Raised e => Raised e
  | Died d => Died d
  end.
Definition raise {A} (e : E) : Run S E D A := fun s => Raised (e, s).
Definition die {A} (d : D) : Run S E D A := fun _ => Died d.
Definition asks {A} (f : S -> A) : Run S E D A := fun s => Ret (f s, s).
Definition modify (f : S -> S) : Run S E D unit := fun s => Ret (tt, f s).

Lemma run_step {A B} (m : Run S E D A) (f : A -> Run S E D B) s :
  (a ← m; f a) s
  = match m s with Ret (a, s) => f a s | Raised e => Raised e | Died d => Died d end.
Proof. reflexivity. Qed.

(** What holds after [m] from [s]: [Q] of an answer and the state it leaves, [X] of the
    state a raise leaves; nothing is said of a death. *)
Definition wp {A} (m : Run S E D A) (Q : A -> S -> Prop) (X : S -> Prop) (s : S) : Prop :=
  match m s with
  | Ret (a, s) => Q a s
  | Raised (_, s) => X s
  | Died _ => True
  end.

Lemma wp_bind {A B} (m : Run S E D A) (f : A -> Run S E D B) Q X s :
  wp (m ≫= f) Q X s = wp m (fun a => wp (f a) Q X) X s.
Proof. unfold wp. rewrite run_step. by destruct (m s) as [[a s']|[]|]. Qed.

Lemma wp_mono {A} (m : Run S E D A) (Q Q' : A -> S -> Prop) (X X' : S -> Prop) s :
  (forall a s, Q a s -> Q' a s) -> (forall s, X s -> X' s) -> wp m Q X s -> wp m Q' X' s.
Proof. unfold wp. intros HQ HX. destruct (m s) as [[a s']|[]|]; eauto. Qed.

Lemma wp_ret {A} (a : A) (Q : A -> S -> Prop) X s : Q a s -> wp (mret a : Run S E D A) Q X s.
Proof. done. Qed.
Lemma wp_asks {A} (f : S -> A) Q X s : wp (asks f) Q X s = Q (f s) s.
Proof. done. Qed.
Lemma wp_modify f Q X s : wp (modify f) Q X s = Q tt (f s).
Proof. done. Qed.
Lemma wp_die {A} (d : D) Q X s : wp (die d : Run S E D A) Q X s = True.
Proof. done. Qed.
Lemma wp_raise {A} (e : E) Q X s : wp (raise e : Run S E D A) Q X s = X s.
Proof. done. Qed.
Lemma wp_Ret {A} (m : Run S E D A) Q X s a s' : wp m Q X s -> m s = Ret (a, s') -> Q a s'.
Proof. unfold wp. intros H Hm. by rewrite Hm in H. Qed.

(** The same, with no death: [X] also sees the raise. *)
Definition twp {A} (m : Run S E D A) (Q : A -> S -> Prop) (X : E -> S -> Prop) (s : S) : Prop :=
  match m s with
  | Ret (a, s) => Q a s
  | Raised (e, s) => X e s
  | Died _ => False
  end.

Lemma twp_bind {A B} (m : Run S E D A) (f : A -> Run S E D B) Q X s :
  twp (m ≫= f) Q X s = twp m (fun a => twp (f a) Q X) X s.
Proof. unfold twp. rewrite run_step. by destruct (m s) as [[a s']|[]|]. Qed.
Lemma twp_mono {A} (m : Run S E D A) (Q Q' : A -> S -> Prop) (X X' : E -> S -> Prop) s :
  (forall a s, Q a s -> Q' a s) -> (forall e s, X e s -> X' e s) -> twp m Q X s -> twp m Q' X' s.
Proof. unfold twp. intros HQ HX. destruct (m s) as [[a s']|[]|]; eauto. Qed.
Lemma twp_ret {A} (a : A) (Q : A -> S -> Prop) X s : twp (mret a : Run S E D A) Q X s = Q a s.
Proof. done. Qed.
Lemma twp_asks {A} (f : S -> A) Q X s : twp (asks f) Q X s = Q (f s) s.
Proof. done. Qed.
Lemma twp_modify f Q X s : twp (modify f) Q X s = Q tt (f s).
Proof. done. Qed.
Lemma twp_raise {A} (e : E) Q X s : twp (raise e : Run S E D A) Q X s = X e s.
Proof. done. Qed.

(** The same, with the deaths [K] allows. *)
Definition xwp {A} (m : Run S E D A) (Q : A -> S -> Prop) (X : E -> S -> Prop) (K : D -> Prop)
    (s : S) : Prop :=
  match m s with
  | Ret (a, s) => Q a s
  | Raised (e, s) => X e s
  | Died d => K d
  end.

Lemma xwp_bind {A B} (m : Run S E D A) (f : A -> Run S E D B) Q X K s :
  xwp (m ≫= f) Q X K s = xwp m (fun a => xwp (f a) Q X K) X K s.
Proof. unfold xwp. rewrite run_step. by destruct (m s) as [[a s']|[]|]. Qed.
Lemma xwp_mono {A} (m : Run S E D A) (Q Q' : A -> S -> Prop) (X X' : E -> S -> Prop)
    (K K' : D -> Prop) s :
  (forall a s, Q a s -> Q' a s) -> (forall e s, X e s -> X' e s) -> (forall d, K d -> K' d) ->
  xwp m Q X K s -> xwp m Q' X' K' s.
Proof. unfold xwp. intros HQ HX HK. destruct (m s) as [[a s']|[]|]; eauto. Qed.
Lemma xwp_ret {A} (a : A) Q X K s : xwp (mret a : Run S E D A) Q X K s = Q a s.
Proof. done. Qed.
Lemma xwp_asks {A} (f : S -> A) Q X K s : xwp (asks f) Q X K s = Q (f s) s.
Proof. done. Qed.
Lemma xwp_modify f Q X K s : xwp (modify f) Q X K s = Q tt (f s).
Proof. done. Qed.
Lemma xwp_raise {A} (e : E) Q X K s : xwp (raise e : Run S E D A) Q X K s = X e s.
Proof. done. Qed.
Lemma xwp_die {A} (d : D) Q X K s : xwp (die d : Run S E D A) Q X K s = K d.
Proof. done. Qed.
End Run.

(** Runs through the steps of an operation. *)
Ltac twp_go := repeat first
  [ progress (rewrite ?twp_bind, ?twp_asks, ?twp_modify, ?twp_raise, ?twp_ret)
  | progress cbn beta iota zeta ].
Ltac xwp_go := repeat first
  [ progress (rewrite ?xwp_bind, ?xwp_asks, ?xwp_modify, ?xwp_raise, ?xwp_die, ?xwp_ret)
  | progress cbn beta iota zeta ].
Ltac wp_go := repeat first
  [ progress rewrite ?wp_bind, ?wp_asks, ?wp_modify, ?wp_die, ?wp_raise | apply wp_ret ]; cbv beta.

(** [inv_bind H] opens every bind of an equation [m = Ret b]. *)
Ltac inv_bind H :=
  repeat match type of H with
    | (mbind _ _ = Ret _) =>
        let a := fresh "a" in let H1 := fresh "Hm" in
        apply bind_Ret_inv in H as (a & H1 & H)
    end.

(** [case_if] splits on the first boolean test of the goal, keeping it as a
    proposition. *)
Ltac to_props :=
  repeat match goal with
    | H : (_ <? _) = true |- _ => apply Z.ltb_lt in H
    | H : (_ <? _) = false |- _ => apply Z.ltb_ge in H
    | H : (_ <=? _) = true |- _ => apply Z.leb_le in H
    | H : (_ <=? _) = false |- _ => apply Z.leb_gt in H
    | H : (_ =? _) = true |- _ => apply Z.eqb_eq in H
    | H : (_ =? _) = false |- _ => apply Z.eqb_neq in H
    | H : (_ <? _)%nat = true |- _ => apply Nat.ltb_lt in H
    | H : (_ <? _)%nat = false |- _ => apply Nat.ltb_ge in H
    | H : (_ <=? _)%nat = true |- _ => apply Nat.leb_le in H
    | H : (_ <=? _)%nat = false |- _ => apply Nat.leb_gt in H
    | H : (_ =? _)%nat = true |- _ => apply Nat.eqb_eq in H
    | H : (_ =? _)%nat = false |- _ => apply Nat.eqb_neq in H
    | H : _ && _ = true |- _ => apply andb_prop in H as [? ?]
    | H : _ || _ = false |- _ => apply orb_false_elim in H as [? ?]
    | H : negb _ = true |- _ => apply negb_true_iff in H
    | H : negb _ = false |- _ => apply negb_false_iff in H
    end.
Ltac case_if :=
  let E := fresh "Hif" in
  match goal with
  | |- context [if ?c then _ else _] => destruct c eqn:E
  | H : context [if ?c then _ else _] |- _ => destruct c eqn:E
  end; to_props.

(** ** Slots updated in place *)

Section Slots.
Context {A : Type}.
Implicit Types (l : list A) (x y : A).

Lemma lookup_at l1 x l2 : (l1 ++ x :: l2) !! length l1 = Some x.
Proof. rewrite lookup_app_r by lia. by rewrite Nat.sub_diag. Qed.

Lemma insert_at l1 x y l2 :
  <[length l1 := y]> (l1 ++ x :: l2) = l1 ++ y :: l2.
Proof. rewrite insert_app_r_alt by lia. by rewrite Nat.sub_diag. Qed.

Lemma lookup_at' i l1 x l2 : i = length l1 -> (l1 ++ x :: l2) !! i = Some x.
Proof. intros ->. apply lookup_at. Qed.

Lemma insert_at' i l1 x y l2 :
  i = length l1 -> <[i := y]> (l1 ++ x :: l2) = l1 ++ y :: l2.
Proof. intros ->. apply insert_at. Qed.

Lemma alter_at i f l1 x l2 :
  i = length l1 -> alter f i (l1 ++ x :: l2) = l1 ++ f x :: l2.
Proof. intros ->. by rewrite alter_app_r_alt, Nat.sub_diag by lia. Qed.

Lemma delete_at i l1 x l2 : i = length l1 -> delete i (l1 ++ x :: l2) = l1 ++ l2.
Proof. intros ->. by rewrite delete_middle. Qed.

Lemma lookup_Some_split l i x :
  l !! i = Some x -> l = take i l ++ x :: drop (S i) l.
Proof. intros H. symmetry. by apply take_drop_middle. Qed.
End Slots.

(** A check of every index below a bound. *)
Lemma forallb_upto (P : nat -> bool) n :
  forallb P (seq 0 n) = true -> forall i, (i < n)%nat -> P i = true.
Proof. intros H i Hi. apply (proj1 (List.forallb_forall _ _) H). apply in_seq. lia. Qed.
Fixpoint holds_from (P : Z -> bool) (n : nat) (a : Z) : bool :=
  match n with
  | O => true
  | S n => P a && holds_from P n (a + 1)
  end.
Lemma holds_from_all P n a : holds_from P n a = true -> forall z, a <= z < a + Z.of_nat n -> P z = true.
Proof.
  revert a. induction n as [|n IH]; intros a H z Hz; [lia|].
  apply andb_prop in H as [Ha H]. destruct (Z.eq_dec z a) as [->|]; [done|].
  apply (IH _ H). lia.
Qed.
