(* ===== verification/Num.v ===== *)
(** * Num: the guest's integer rules (src/crates/reims-vgpu-core/src/num.rs)

    Division by a guest's zero, shifts taken modulo the width, sign and zero
    extension, truncation, rounding up, the sum stored into 32 bits, and the
    forward copy through two mappings of the same pages. [refresh_16_16] (an
    [f64] computation) is not modelled. *)

From S2P Require Import Prelude.

Module Num.

(** ** Division whose divisor may be zero *)

Definition div0 (a d : Z) : Z := if d =? 0 then 0 else a / d.
Definition rem0 (a d : Z) : Z := if d =? 0 then a else a mod d.

(** ** Mask bits *)

Definition bit32 (n : Z) : Z := shl32 1 n.
Definition bit64 (n : Z) : Z := shl64 1 n.
Definition bit64_set (word n : Z) : bool := negb (Z.land (shr64 word n) 1 =? 0).

(** ** Widening: [zero_extend_16] takes the [u16], [sign_extend_16] the [i16],
    both widen to an [i64]; [sign_extend_32] stores bit 31 into bits 32-63. *)

Definition zero_extend_16 (x : Z) : Z := x.
Definition sign_extend_16 (x : Z) : Z := x.
Definition sign_extend_32 (x : Z) : Z := w64 (i32_of_u32 x).

(** ** Rounding up and the narrow sum *)

Definition align_up_wrapping (x align : Z) : Z :=
  let mask := sub64 align 1 in
  Z.land (add64 x mask) (not64 mask).

Definition add_u64_into_u32 (a b : Z) : Z * bool :=
  let '(sum, carry) := overflowing_add64 a b in
  (w32 sum, carry || (0xffffffff <? sum)).

(** ** Truncation and the lossless [usize] conversions of the 64-bit target *)

Definition low_u32 (x : Z) : Z := w32 x.
Definition low_u16 (x : Z) : Z := x mod 65536.
Definition low_u8 (x : Z) : Z := x mod 256.
Definition to_usize (x : Z) : Z := x.
Definition to_u64 (x : Z) : Z := x.

(** ** The forward copy

    [read at len s] is what the read closure fills a buffer of [len] bytes with,
    [write at bytes s] what the write closure does to the state [s]. *)

Section ForwardCopy.
Context {S : Type} (read : Z -> Z -> S -> list byte) (write : Z -> list byte -> S -> S).

Fixpoint forward_copy_loop (fuel : nat) (n size done : Z) (s : S) : S :=
  match fuel with
  | O => s
  | Datatypes.S fuel =>
      if done <? n then
        let len := Z.min (sub64 n done) size in
        let bytes := read done len s in
        forward_copy_loop fuel n size (add64 done len) (write done bytes s)
      else s
  end.

Definition forward_copy (n size : Z) (s : S) : S :=
  if size =? 0 then s else forward_copy_loop (Z.to_nat n) n size 0 s.
End ForwardCopy.

(** ** Facts *)

Lemma align_up_pow2 x k :
  0 <= k <= 63 -> u64 x ->
  align_up_wrapping x (2 ^ k) = w64 (x + (2 ^ k - 1)) - w64 (x + (2 ^ k - 1)) mod 2 ^ k.
Proof.
  intros Hk Hx. unfold align_up_wrapping.
  assert (0 < 2 ^ k <= 2 ^ 63) by (split; [lia|apply Z.pow_le_mono_r; lia]).
  rewrite sub64_small by (rewrite M64_val; lia).
  apply land_not64_mask; [lia|apply w64_range].
Qed.

Lemma rem0_lt a d : 0 < d -> 0 <= rem0 a d < d.
Proof. intros Hd. unfold rem0. case_if; [lia|]. by apply Z.mod_pos_bound. Qed.

Lemma rem0_u32 a d : u32 a -> u32 d -> u32 (rem0 a d).
Proof.
  intros Ha Hd. unfold rem0. case_if; [done|].
  pose proof (Z.mod_pos_bound a d). lia.
Qed.
#[export] Hint Resolve rem0_lt rem0_u32 : words.

(** *** The copy, byte by byte *)

Section Bytewise.
(** Two mappings of one memory: byte [i] of the source is at [sa i], byte [j]
    of the destination at [da j]. *)
Context (sa da : Z -> Z).

Definition upd (m : Z -> byte) (a : Z) (b : byte) : Z -> byte :=
  fun x => if x =? a then b else m x.

(** What the two closures do on a memory. *)
Definition mem_read (at_ len : Z) (m : Z -> byte) : list byte :=
  map (fun k => m (sa (at_ + Z.of_nat k))) (seq 0 (Z.to_nat len)).

Fixpoint mem_write (at_ : Z) (bs : list byte) (m : Z -> byte) : Z -> byte :=
  match bs with
  | [] => m
  | b :: bs => mem_write (at_ + 1) bs (upd m (da at_) b)
  end.

(** libc's forward [memcpy], a byte at a time. *)
Fixpoint bytewise (k : nat) (i : Z) (m : Z -> byte) : Z -> byte :=
  match k with
  | O => m
  | S k => bytewise k (i + 1) (upd m (da i) (m (sa i)))
  end.

Lemma bytewise_app k1 k2 i m :
  bytewise (k1 + k2) i m = bytewise k2 (i + Z.of_nat k1) (bytewise k1 i m).
Proof.
  revert i m. induction k1 as [|k1 IH]; intros i m.
  - simpl. by rewrite Z.add_0_r.
  - cbn [Nat.add bytewise]. rewrite IH. f_equal. lia.
Qed.

Lemma mem_write_read at_ k (m0 m : Z -> byte) j :
  (forall i, j <= i < j + Z.of_nat k -> m (sa (at_ + i)) = m0 (sa (at_ + i))) ->
  (forall i i', j <= i < j + Z.of_nat k -> i < i' < j + Z.of_nat k ->
     sa (at_ + i') <> da (at_ + i)) ->
  0 <= j ->
  mem_write (at_ + j) (map (fun i => m0 (sa (at_ + Z.of_nat i))) (seq (Z.to_nat j) k)) m
  = bytewise k (at_ + j) m.
Proof.
  revert j m. induction k as [|k IH]; intros j m Hm Hna Hj; [done|].
  cbn [seq map mem_write bytewise].
  rewrite (Z2Nat.id j), <- (Hm j) by lia.
  replace (at_ + j + 1) with (at_ + (j + 1)) by lia.
  replace (Datatypes.S (Z.to_nat j)) with (Z.to_nat (j + 1)) by lia.
  apply IH; [|intros; apply Hna; lia|lia].
  intros i Hi. unfold upd. destruct (Z.eqb_spec (sa (at_ + i)) (da (at_ + j))) as [E|E].
  - exfalso. apply (Hna j i); [lia..|done].
  - apply Hm. lia.
Qed.
End Bytewise.

Section ForwardCopyBytewise.
Context (sa da : Z -> Z) (n G : Z).
Hypothesis HG : 0 < G.
Hypothesis Hn : 0 <= n < M64.
(** The alias granule: a byte of one side is a byte of the other only at the
    same offset modulo [G]. *)
Hypothesis Halias : forall i j, 0 <= i < n -> 0 <= j < n -> sa i = da j ->
  i mod G = j mod G.

Lemma forward_copy_loop_bytewise fuel c m :
  0 <= c -> c * G <= n \/ c = 0 -> n - c * G <= Z.of_nat fuel ->
  forward_copy_loop (mem_read sa) (mem_write da) fuel n G (c * G) m
  = bytewise sa da (Z.to_nat (n - c * G)) (c * G) m.
Proof.
  revert c m. induction fuel as [|fuel IH]; intros c m Hc Hcn Hf.
  - cbn [forward_copy_loop]. by replace (Z.to_nat (n - c * G)) with 0%nat by lia.
  - cbn [forward_copy_loop]. case_if.
    2: { by replace (Z.to_nat (n - c * G)) with 0%nat by lia. }
    assert (0 <= c * G) by nia.
    rewrite sub64_small by lia.
    set (len := Z.min (n - c * G) G). rewrite add64_small by (subst len; lia).
    replace (Z.to_nat (n - c * G))
      with (Z.to_nat len + Z.to_nat (n - c * G - len))%nat by (subst len; lia).
    rewrite bytewise_app.
    assert (mem_write da (c * G) (mem_read sa (c * G) len m) m
            = bytewise sa da (Z.to_nat len) (c * G) m) as Hchunk.
    { rewrite <- (Z.add_0_r (c * G)) at 1 3. apply mem_write_read; [done| |done].
      intros i i' Hi Hi' E. apply Halias in E; [|subst len; lia..].
      rewrite !(Z.add_comm (c * G)), !Z.mod_add, !Z.mod_small in E by (subst len; lia).
      lia. }
    unfold mem_read in Hchunk |- *. rewrite Hchunk.
    destruct (Z.le_gt_cases G (n - c * G)).
    + assert (len = G) as -> by (subst len; lia).
      replace (c * G + G) with ((c + 1) * G) by lia.
      unfold mem_read in IH. rewrite IH by lia.
      f_equal; [|lia]. f_equal. lia.
    + assert (len = n - c * G) as -> by (subst len; lia).
      replace (c * G + (n - c * G)) with n by lia.
      replace (n - c * G - (n - c * G)) with 0 by lia. cbn [bytewise Z.to_nat].
      destruct fuel; cbn [forward_copy_loop]; [done|].
      by rewrite Z.ltb_irrefl.
Qed.
End ForwardCopyBytewise.

(** The narrow sum's flag says exactly whether the sum fits in 32 bits. *)
Lemma add_u64_into_u32_exact a b :
  u64 a -> u64 b -> add_u64_into_u32 a b = ((a + b) mod M32, M32 <=? a + b).
Proof.
  intros Ha Hb. unfold add_u64_into_u32, overflowing_add64. f_equal.
  - unfold add64, w64, w32. rewrite M32_val, M64_val. word_lia.
  - destruct (Z.leb_spec M64 (a + b)), (Z.leb_spec M32 (a + b)); simpl; try done; try word_lia;
      rewrite add64_small by lia; destruct (Z.ltb_spec 0xffffffff (a + b)); (done || word_lia).
Qed.

(** ** The properties *)

(** The chunked copy between two mappings of one memory. Where an alias maps a byte
    only to the same offset of another granule, reading and writing whole granules gives
    exactly the bytes of libc's forward byte-by-byte copy, overlapping or not. *)
Theorem forward_copy_bytewise sa da n G m :
  0 < G -> 0 <= n < M64 ->
  (forall i j, 0 <= i < n -> 0 <= j < n -> sa i = da j -> i mod G = j mod G) ->
  forward_copy (mem_read sa) (mem_write da) n G m = bytewise sa da (Z.to_nat n) 0 m.
Proof.
  intros HG Hn Ha. unfold forward_copy. case_if; [lia|].
  pose proof (forward_copy_loop_bytewise sa da n G HG Hn Ha (Z.to_nat n) 0 m) as H.
  rewrite Z.mul_0_l, Z.sub_0_r in H. apply H; lia.
Qed.

(** Rounding up to a power of two. While the sum fits in 64 bits the result is the
    least multiple of the alignment at or above the operand. *)
Theorem align_up_wrapping_least x k :
  0 <= k <= 63 -> u64 x -> x + (2 ^ k - 1) < M64 ->
  let r := align_up_wrapping x (2 ^ k) in
  r mod 2 ^ k = 0 /\ x <= r /\ forall y, x <= y -> y mod 2 ^ k = 0 -> r <= y.
Proof.
  intros Hk Hx Hs. cbv zeta. rewrite align_up_pow2 by done.
  assert (Hp : 0 < 2 ^ k) by lia. rewrite w64_small by lia.
  pose proof (Z.mod_pos_bound (x + (2 ^ k - 1)) (2 ^ k) Hp) as Hm.
  pose proof (Z.div_mod (x + (2 ^ k - 1)) (2 ^ k) ltac:(lia)) as Hd.
  set (q := (x + (2 ^ k - 1)) / 2 ^ k) in *. set (r := (x + (2 ^ k - 1)) mod 2 ^ k) in *.
  replace (x + (2 ^ k - 1) - r) with (q * 2 ^ k) by lia.
  split; [apply Z.mod_mul; lia|]. split; [lia|].
  intros y Hy Hy0. apply Z.div_exact in Hy0; [|lia]. 
  set (t := y / 2 ^ k) in *. clearbody t q r. subst y. assert (q <= t) by nia. nia.
Qed.

Lemma forward_copy_bytewise_witness :
  forward_copy (mem_read (fun i => i)) (mem_write (fun i => i + 4)) 12 4 byte_of_Z
  = bytewise (fun i => i) (fun i => i + 4) (Z.to_nat 12) 0 byte_of_Z.
Proof.
  apply (forward_copy_bytewise (fun i => i) (fun i => i + 4) 12 4 byte_of_Z).
  - lia.
  - by vm_compute.
  - intros i j _ _ ->. by rewrite <- (Z.mul_1_l 4) at 1; rewrite Z.mod_add.
Defined.

Lemma align_up_wrapping_least_witness :
  let r := align_up_wrapping 0x1001 (2 ^ 12) in
  r mod 2 ^ 12 = 0 /\ 0x1001 <= r /\ forall y, 0x1001 <= y -> y mod 2 ^ 12 = 0 -> r <= y.
Proof. apply (align_up_wrapping_least 0x1001 12); [lia|by vm_compute|by vm_compute]. Defined.

End Num.
