(* ===== verification/Floats.v ===== *)
(** * Floats: the floating-point values the displays hand the guest
    (src/crates/reims-vgpu-core/src/num.rs, display/guest_display/settings.rs)

    An [f32] or [f64] is its bits, and an operation on one goes through the Standard
    Library's specification of IEEE 754 arithmetic. A NaN that an operation makes is the
    canonical quiet one: its payload is not modelled. *)

From S2P Require Import Prelude Num.
From Stdlib Require Import SpecFloat.
Open Scope Z_scope.

Module Floats.

(** ** The two formats *)

(** The value of the bits of a format with [mw] stored bits of mantissa and [ew] of
    exponent. *)
Definition of_bits (mw ew b : Z) : spec_float :=
  let s := Z.testbit b (mw + ew) in
  let m := Z.land b (2 ^ mw - 1) in
  let e := Z.land (Z.shiftr b mw) (2 ^ ew - 1) in
  let emin := 3 - 2 ^ (ew - 1) - (mw + 1) in
  if e =? 0 then
    match m with Z.pos p => S754_finite s p emin | _ => S754_zero s end
  else if e =? 2 ^ ew - 1 then
    if m =? 0 then S754_infinity s else S754_nan
  else match m + 2 ^ mw with Z.pos p => S754_finite s p (emin + e - 1) | _ => S754_nan end.

(** The bits of a value of the format. *)
Definition to_bits (mw ew : Z) (x : spec_float) : Z :=
  let sign (s : bool) := Z.shiftl (Z.b2z s) (mw + ew) in
  let emin := 3 - 2 ^ (ew - 1) - (mw + 1) in
  match x with
  | S754_zero s => sign s
  | S754_infinity s => sign s + Z.shiftl (2 ^ ew - 1) mw
  | S754_nan => Z.shiftl (2 ^ ew - 1) mw + 2 ^ (mw - 1)
  | S754_finite s p e =>
      if Z.pos p <? 2 ^ mw then sign s + Z.pos p
      else sign s + Z.shiftl (e - emin + 1) mw + (Z.pos p - 2 ^ mw)
  end.

Definition f32 (b : Z) : spec_float := of_bits 23 8 b.
Definition f64 (b : Z) : spec_float := of_bits 52 11 b.

(** [==] of two [f32]s. *)
Definition eq_f32 (a b : Z) : bool := SFeqb (f32 a) (f32 b).
Definition is_nan_f32 (b : Z) : bool := match f32 b with S754_nan => true | _ => false end.

(** [d as f32], and [f64::from]: to the nearest, ties to even. *)
Definition round_to (prec emax : Z) (x : spec_float) : spec_float :=
  match x with
  | S754_finite s p e => binary_normalize prec emax (if s then Z.neg p else Z.pos p) e s
  | x => x
  end.
Definition to_f32 (d : Z) : Z := to_bits 23 8 (round_to 24 128 (f64 d)).
Definition f64_from (f : Z) : spec_float := round_to 53 1024 (f32 f).

(** ** Integers *)

Definition signed (s : bool) (p : positive) : Z := if s then Z.neg p else Z.pos p.
(** [x.floor()] and the truncation toward zero, as integers. *)
Definition floor_finite (s : bool) (p : positive) (e : Z) : Z := Z.shiftl (signed s p) e.
Definition trunc_finite (s : bool) (p : positive) (e : Z) : Z :=
  (if s then -1 else 1) * Z.shiftl (Z.pos p) e.

(** A float-to-integer [as]: saturating, 0 for a NaN. *)
Definition saturate (lo hi v : Z) : Z := Z.max lo (Z.min hi v).
Definition floor_u32 (x : spec_float) : Z :=
  match x with
  | S754_finite s p e => saturate 0 (M32 - 1) (floor_finite s p e)
  | S754_infinity false => M32 - 1
  | _ => 0
  end.
Definition as_i32 (x : spec_float) : Z :=
  match x with
  | S754_finite s p e => saturate (- 2 ^ 31) (2 ^ 31 - 1) (trunc_finite s p e)
  | S754_infinity s => if s then - 2 ^ 31 else 2 ^ 31 - 1
  | _ => 0
  end.

Definition F64_65536 : spec_float := f64 0x40F0000000000000.
Definition F64_HALF : spec_float := f64 0x3FE0000000000000.

(** A refresh rate in hertz as 16.16 fixed point. *)
Definition refresh_16_16 (hz : Z) : Z :=
  floor_u32 (SFadd 53 1024 (SFmul 53 1024 (f64 hz) F64_65536) F64_HALF).

(** A size in millimetres rounded to the guest's [u16]: half added, truncated, the low
    bits. *)
Definition round_u16 (f : Z) : Z :=
  Num.low_u16 (u32_of_i32 (as_i32 (SFadd 53 1024 (f64_from f) F64_HALF))).

(** ** Facts *)

Lemma compare_cont_refl p : Pos.compare_cont Eq p p = Eq.
Proof. apply Pos.compare_refl. Qed.
Lemma SFeqb_refl x : SFeqb x x = match x with S754_nan => false | _ => true end.
Proof.
  unfold SFeqb, SFcompare. destruct x as [|[]| |[] p e]; try done;
    by rewrite Z.compare_refl, compare_cont_refl.
Qed.
(** A NaN alone differs from itself. *)
Lemma eq_f32_refl b : eq_f32 b b = negb (is_nan_f32 b).
Proof. unfold eq_f32, is_nan_f32. rewrite SFeqb_refl. by destruct (f32 b). Qed.

Lemma saturate_range lo hi v : lo <= hi -> lo <= saturate lo hi v <= hi.
Proof. unfold saturate. lia. Qed.
Lemma refresh_16_16_range hz : u32 (refresh_16_16 hz).
Proof.
  unfold refresh_16_16, floor_u32. rewrite M32_val.
  destruct (SFadd _ _ _ _) as [|[]| |s p e]; try lia. pose proof (saturate_range 0 (4294967296 - 1)
    (floor_finite s p e)). lia.
Qed.

(** The fields of the bits of a format. *)
Lemma bits_fields mw ew b :
  0 < mw -> 0 < ew -> 0 <= b < 2 ^ (mw + ew + 1) ->
  let s := Z.b2z (Z.testbit b (mw + ew)) in
  let e := Z.land (Z.shiftr b mw) (2 ^ ew - 1) in
  let m := Z.land b (2 ^ mw - 1) in
  b = s * 2 ^ (mw + ew) + e * 2 ^ mw + m /\ 0 <= e < 2 ^ ew /\ 0 <= m < 2 ^ mw.
Proof.
  intros Hm He Hb. cbn zeta. rewrite !land_mask by lia. rewrite Z.shiftr_div_pow2 by lia.
  rewrite Z.testbit_spec' by lia.
  assert (0 < 2 ^ mw /\ 0 < 2 ^ ew) as [H1 H2] by (split; apply Z.pow_pos_nonneg; lia).
  rewrite !Z.pow_add_r in * by lia. change (2 ^ 1) with 2 in Hb.
  set (B := 2 ^ mw) in *. set (E := 2 ^ ew) in *. rewrite <- Z.div_div by lia.
  pose proof (Z.div_mod b B ltac:(lia)). pose proof (Z.div_mod (b / B) E ltac:(lia)).
  pose proof (Z.mod_pos_bound b B ltac:(lia)). pose proof (Z.mod_pos_bound (b / B) E ltac:(lia)).
  assert (0 <= b / B < E * 2) by (split; [apply Z.div_pos; lia|apply Z.div_lt_upper_bound; lia]).
  assert (0 <= b / B / E < 2) by (split; [apply Z.div_pos; lia|apply Z.div_lt_upper_bound; lia]).
  rewrite (Z.mod_small (b / B / E)) by lia. split_and!; [nia|lia..].
Qed.

(** A value that is no NaN has the bits it was read from. *)
Lemma to_bits_of_bits mw ew b :
  0 < mw -> 1 < ew -> 0 <= b < 2 ^ (mw + ew + 1) -> of_bits mw ew b <> S754_nan ->
  to_bits mw ew (of_bits mw ew b) = b.
Proof.
  intros Hm He Hb. pose proof (bits_fields mw ew b Hm ltac:(lia) Hb) as (Eb&Re&Rm). cbn zeta in Eb.
  unfold of_bits. set (s := Z.testbit b (mw + ew)) in *.
  set (e := Z.land (Z.shiftr b mw) (2 ^ ew - 1)) in *. set (m := Z.land b (2 ^ mw - 1)) in *.
  assert (Z.shiftl (Z.b2z s) (mw + ew) = Z.b2z s * 2 ^ (mw + ew)) as Es
    by (by rewrite Z.shiftl_mul_pow2 by lia).
  destruct (Z.eqb_spec e 0) as [E0|E0].
  - intros _. destruct m as [|p|p] eqn:Em; [cbn; lia| |lia]. cbn [to_bits].
    destruct (Z.ltb_spec (Z.pos p) (2 ^ mw)); lia.
  - destruct (Z.eqb_spec e (2 ^ ew - 1)) as [E1|E1].
    + destruct (Z.eqb_spec m 0); [|done]. intros _. cbn [to_bits].
      rewrite <- E1, Es, Z.shiftl_mul_pow2 by lia. lia.
    + destruct (m + 2 ^ mw) as [|p|p] eqn:Em; [done| |done]. intros _. cbn [to_bits].
      destruct (Z.ltb_spec (Z.pos p) (2 ^ mw)); [lia|].
      rewrite (Z.shiftl_mul_pow2 _ mw) by lia.
      replace (3 - 2 ^ (ew - 1) - (mw + 1) + e - 1 - (3 - 2 ^ (ew - 1) - (mw + 1)) + 1) with e by lia.
      lia.
Qed.

(** The [f32] and the [f64] nearest an integer. *)
Definition f64_of_Z (n : Z) : Z := to_bits 52 11 (binary_normalize 53 1024 n 0 false).
Definition f32_of_Z (n : Z) : Z := to_bits 23 8 (binary_normalize 24 128 n 0 false).

(** A whole rate below 1024 Hz is itself in 16.16; a whole size below 4096 is itself. *)
Lemma refresh_16_16_whole n : 0 <= n < 1024 -> refresh_16_16 (f64_of_Z n) = n * 65536.
Proof.
  intros Hn. apply Z.eqb_eq.
  apply (holds_from_all (fun n => refresh_16_16 (f64_of_Z n) =? n * 65536) 1024 0);
    [by vm_compute|lia].
Qed.
Lemma round_u16_whole n : 0 <= n < 4096 -> round_u16 (f32_of_Z n) = n.
Proof.
  intros Hn. apply Z.eqb_eq.
  apply (holds_from_all (fun n => round_u16 (f32_of_Z n) =? n) 4096 0);
    [by vm_compute|lia].
Qed.

Example refresh_16_16_tests :
  refresh_16_16 0x404E000000000000 = 3932160 /\
  refresh_16_16 0x404DF851EB851EB8 = 3928228 /\
  refresh_16_16 0x7FF8000000000000 = 0 /\
  refresh_16_16 0xBFF0000000000000 = 0 /\
  refresh_16_16 0x426D1A94A2000000 = M32 - 1.
Proof. by vm_compute. Qed.

End Floats.
