(* ===== verification/MemoryKinds.v ===== *)
(** * MemoryKinds: what memory raises and where it ends the process
    (src/crates/reims-vgpu-core/src/memory.rs, raise/death.rs, raise/on_fault.rs) *)

From S2P Require Import Prelude.
From Stdlib Require Import Strings.String.
Open Scope string_scope.
Open Scope Z_scope.

Module Death.
(** The kinds of death, as the test capture classes them. *)
Inductive DeathKind : Type :=
| Assert
| Abort
| NilBlock
| NullDeref
| OutOfBounds
| UnhandledRaise
| UncaughtObjc
| DispatchMisuse
| DoubleCompletion
| HostRaised.

(** A death as the test capture names it: its kind, the dotted id and a line. *)
Record DeathSite := MkDeathSite { kind : DeathKind; file : string; line : Z }.
End Death.

Module Memory.

(** What memory raises. *)
Inductive RaiseKind : Type :=
| CursorReadFailed
| WalkMisalignedStart
| WalkMisalignedLength
| WalkZeroLength
| WalkEndOverflow
| WalkRootUnread
| WalkHole
| RunSubtractInside
| TrackerAlignedLength
| TrackerAlignedOffset
| TrackerZeroLength
| TrackerTooComplex
| TrackerUnmappedTooComplex
| TrackerUnmappedTooComplexTail.

(** The dotted id of a raise. *)
Definition raise_name (k : RaiseKind) : string :=
  match k with
  | CursorReadFailed => "memory.cursor.read_failed"
  | WalkMisalignedStart => "memory.walk.misaligned_start"
  | WalkMisalignedLength => "memory.walk.misaligned_length"
  | WalkZeroLength => "memory.walk.zero_length"
  | WalkEndOverflow => "memory.walk.end_overflow"
  | WalkRootUnread => "memory.walk.root_unread"
  | WalkHole => "memory.walk.hole"
  | RunSubtractInside => "memory.tracker.subtract_inside"
  | TrackerAlignedLength => "memory.tracker.aligned_length"
  | TrackerAlignedOffset => "memory.tracker.aligned_offset"
  | TrackerZeroLength => "memory.tracker.zero_length"
  | TrackerTooComplex => "memory.tracker.too_complex"
  | TrackerUnmappedTooComplex => "memory.tracker.unmapped_too_complex"
  | TrackerUnmappedTooComplexTail => "memory.tracker.unmapped_too_complex_tail"
  end.

(** Where memory ends the process. *)
Inductive DeathKind : Type :=
| CursorRangeIndex
| CursorBufferEnd
| CursorReadNull
| CursorWriteNull
| MapReadFault
| MapWriteNull
| MappingLengthUnaligned
| RootMappingNullAddress
| RootMappingZeroLength
| RootMappingNoDevice
| WalkZeroTable
| WalkReadPastTable
| WalkNoLevels
| WalkEntryPastTable
| RunCompareUnordered
| BlockAddFull
| BlockAddUnordered
| BlockRemoveFull
| BlockRemoveEqualAfterMark
| BlockRemovePastCount
| BlockInsertFull
| BlockSplitCount
| BlockSplitOverlap
| TrackerSlotEmpty
| TrackerTargetMoved
| TrackerAddUnordered
| TrackerRemoveEmptySlot
| TrackerRemoveNoBlocks
| TrackerCompactPastBlocks
| TrackerCompactEmptyNext
| TrackerTestLeftover
| TrackerVisitEmptyRun.

(** The dotted id of a death. *)
Definition death_name (k : DeathKind) : string :=
  match k with
  | CursorRangeIndex => "memory.cursor.range_index"
  | CursorBufferEnd => "memory.cursor.buffer_end"
  | CursorReadNull => "memory.cursor.read_null"
  | CursorWriteNull => "memory.cursor.write_null"
  | MapReadFault => "memory.map.read_fault"
  | MapWriteNull => "memory.map.write_null"
  | MappingLengthUnaligned => "memory.map.mapping_length_unaligned"
  | RootMappingNullAddress => "memory.mapping.root_null_address"
  | RootMappingZeroLength => "memory.mapping.root_zero_length"
  | RootMappingNoDevice => "memory.mapping.root_no_device"
  | WalkZeroTable => "memory.walk.zero_table"
  | WalkReadPastTable => "memory.walk.read_past_table"
  | WalkNoLevels => "memory.walk.no_levels"
  | WalkEntryPastTable => "memory.walk.entry_past_table"
  | RunCompareUnordered => "memory.tracker.compare_unordered"
  | BlockAddFull => "memory.tracker.block_add_full"
  | BlockAddUnordered => "memory.tracker.block_add_unordered"
  | BlockRemoveFull => "memory.tracker.block_remove_full"
  | BlockRemoveEqualAfterMark => "memory.tracker.block_remove_equal_after_mark"
  | BlockRemovePastCount => "memory.tracker.block_remove_past_count"
  | BlockInsertFull => "memory.tracker.block_insert_full"
  | BlockSplitCount => "memory.tracker.block_split_count"
  | BlockSplitOverlap => "memory.tracker.block_split_overlap"
  | TrackerSlotEmpty => "memory.tracker.slot_empty"
  | TrackerTargetMoved => "memory.tracker.target_moved"
  | TrackerAddUnordered => "memory.tracker.add_unordered"
  | TrackerRemoveEmptySlot => "memory.tracker.remove_empty_slot"
  | TrackerRemoveNoBlocks => "memory.tracker.remove_no_blocks"
  | TrackerCompactPastBlocks => "memory.tracker.compact_past_blocks"
  | TrackerCompactEmptyNext => "memory.tracker.compact_empty_next"
  | TrackerTestLeftover => "memory.tracker.test_leftover"
  | TrackerVisitEmptyRun => "memory.tracker.visit_empty_run"
  end.

(** The kind of death there. *)
Definition fault (k : DeathKind) : Death.DeathKind :=
  match k with
  | CursorRangeIndex | CursorBufferEnd | WalkReadPastTable | WalkNoLevels |
  WalkEntryPastTable => Death.OutOfBounds
  | CursorReadNull | CursorWriteNull | MapReadFault | MapWriteNull |
  TrackerSlotEmpty => Death.NullDeref
  | BlockAddUnordered | TrackerAddUnordered => Death.Abort
  | MappingLengthUnaligned | RootMappingNullAddress | RootMappingZeroLength |
  RootMappingNoDevice | WalkZeroTable | RunCompareUnordered | BlockAddFull |
  BlockRemoveFull | BlockRemoveEqualAfterMark | BlockRemovePastCount |
  BlockInsertFull | BlockSplitCount | BlockSplitOverlap | TrackerTargetMoved |
  TrackerRemoveEmptySlot | TrackerRemoveNoBlocks | TrackerCompactPastBlocks |
  TrackerCompactEmptyNext | TrackerTestLeftover | TrackerVisitEmptyRun =>
  Death.Assert
  end.

(** The site a death records: the dotted id, at line 0. *)
Definition site (k : DeathKind) : Death.DeathSite :=
  Death.MkDeathSite (fault k) (death_name k) 0.

#[export] Instance RaiseKind_eq_dec : EqDecision RaiseKind.
Proof. solve_decision. Defined.
#[export] Instance DeathKind_eq_dec : EqDecision DeathKind.
Proof. solve_decision. Defined.

(** What a raise does in a function reached both under a handler and with none. *)
Inductive OnFault : Type :=
| Die
| Return.

(** How a memory operation ends the process: a death of its own, a raise no
    handler takes, or a panic of the host language (an index out of its array).
    [OutOfFuel] is the model's own: a loop
    that ran out of its fuel, which the termination theorems show unreachable. *)
Inductive mdeath : Type :=
| Fatal (k : DeathKind)
| Unhandled (k : RaiseKind)
| Panic
| OutOfFuel.

Abbreviation mres := (outcome RaiseKind mdeath).

(** [OnFault::throw] of the raise [k] ([RaiseKind::raise]). *)
Definition throw {A} (on : OnFault) (k : RaiseKind) : mres A :=
  match on with
  | Die => Died (Unhandled k)
  | Return => Raised k
  end.

End Memory.
