(* ===== verification/FifoKinds.v ===== *)
(** * FifoKinds: what a FIFO raises and where it ends the process
    (src/crates/reims-vgpu-core/src/fifo.rs) *)

From S2P Require Import Prelude MemoryKinds.
From Stdlib Require Import Strings.String.
Open Scope string_scope.
Open Scope Z_scope.

Module FifoDeath.

(** What a FIFO command raises. *)
Inductive FifoRaiseKind : Type :=
| CommandLength
| Unsupported
| KernelOnly
| NotKernel
| Overflow
| DeleteTask
| NotRoot
| CreateChild
| DeleteChild.

(** The dotted id of a raise. *)
Definition fifo_raise_name (k : FifoRaiseKind) : string :=
  match k with
  | CommandLength => "fifo.command.length"
  | Unsupported => "fifo.command.unsupported"
  | KernelOnly => "fifo.command.kernel-only"
  | NotKernel => "fifo.command.not-kernel"
  | Overflow => "fifo.command.overflow"
  | DeleteTask => "fifo.task.delete-failed"
  | NotRoot => "fifo.child.not-root"
  | CreateChild => "fifo.child.create-failed"
  | DeleteChild => "fifo.child.delete-failed"
  end.

(** How a FIFO ends the process. *)
Inductive FifoDeathKind : Type :=
| DeviceGone
| NodeNull
| RingNull
| PageListNull
| DrainUnquiesced
| SignalNothingPending
| SignalTwice
| SignalFaulted
| FaultNothingPending
| FaultOffsetRange
| FaultSignalled
| FaultTwice
| QueueDrainUnquiesced.

(** The dotted id of a death. *)
Definition fifo_death_name (k : FifoDeathKind) : string :=
  match k with
  | DeviceGone => "fifo.device.gone"
  | NodeNull => "fifo.node.null"
  | RingNull => "fifo.ring.null"
  | PageListNull => "fifo.page-list.null"
  | DrainUnquiesced => "fifo.drain.unquiesced"
  | SignalNothingPending => "fifo.stamps.signal-nothing-pending"
  | SignalTwice => "fifo.stamps.signal-twice"
  | SignalFaulted => "fifo.stamps.signal-faulted"
  | FaultNothingPending => "fifo.stamps.fault-nothing-pending"
  | FaultOffsetRange => "fifo.stamps.fault-offset-range"
  | FaultSignalled => "fifo.stamps.fault-signalled"
  | FaultTwice => "fifo.stamps.fault-twice"
  | QueueDrainUnquiesced => "fifo.stamps.drain-unquiesced"
  end.

(** The kind of death: a NULL access or an assertion. *)
Definition class (k : FifoDeathKind) : Death.DeathKind :=
  match k with
  | DeviceGone | NodeNull | RingNull | PageListNull => Death.NullDeref
  | DrainUnquiesced | SignalNothingPending | SignalTwice | SignalFaulted |
  FaultNothingPending | FaultOffsetRange | FaultSignalled | FaultTwice |
  QueueDrainUnquiesced => Death.Assert
  end.

(** The site the death reports. *)
Definition fifo_site (k : FifoDeathKind) : Death.DeathSite :=
  Death.MkDeathSite (class k) (fifo_death_name k) 0.

#[export] Instance FifoDeathKind_eq_dec : EqDecision FifoDeathKind.
Proof. solve_decision. Defined.

End FifoDeath.
