(* ===== verification/DisplayKinds.v ===== *)
(** * DisplayKinds: what the displays raise and where they end the process
    (src/crates/reims-vgpu-core/src/device/displays.rs, display.rs, display/guest_display.rs) *)

From S2P Require Import Prelude MemoryKinds.
From Stdlib Require Import Strings.String.
Open Scope string_scope.
Open Scope Z_scope.

Module DisplayKinds.

(** What the display ports raise. *)
Inductive PortsRaise : Type :=
| PortOutOfRange
| PortInUse
| PortNotInUse
| NoRootNode.

(** The dotted id. *)
Definition ports_raise_id (k : PortsRaise) : string :=
  match k with
  | PortOutOfRange => "device.displays.out_of_range"
  | PortInUse => "device.displays.in_use"
  | PortNotInUse => "device.displays.not_in_use"
  | NoRootNode => "device.displays.no_root_node"
  end.

(** Where the display ports end the process. *)
Inductive PortsDeath : Type :=
| RootWordNull
| ParkedOnFreePort
| DetachOutOfRange
| DetachNotClaimed
| DetachOtherGuestDisplayClient
| DetachOtherParkedClient
| DetachParkedWithGuestDisplay
| ParkedBesideGuestDisplay
| EfiBindDeallocating.

(** The dotted id. *)
Definition ports_death_id (k : PortsDeath) : string :=
  match k with
  | RootWordNull => "device.displays.root_word_null"
  | ParkedOnFreePort => "device.displays.parked_on_free_port"
  | DetachOutOfRange => "device.displays.detach_out_of_range"
  | DetachNotClaimed => "device.displays.detach_not_claimed"
  | DetachOtherGuestDisplayClient => "device.displays.detach_other_guest_display_client"
  | DetachOtherParkedClient => "device.displays.detach_other_parked_client"
  | DetachParkedWithGuestDisplay => "device.displays.detach_parked_with_guest_display"
  | ParkedBesideGuestDisplay => "device.displays.parked_beside_guest_display"
  | EfiBindDeallocating => "device.displays.efi_bind_deallocating"
  end.

(** What a guest display raises. *)
Inductive GuestDisplayRaise : Type :=
| MapPage
| AckNothingPending
| AckUnexpected
| GammaTable
| NotABacking
| BackingWithoutTexture
| PixelFormat
| ProtectionRequirements
| NoKernelTask
| MappingId
| BytesPerPixel
| PropertyWordCount
| UnknownProperty
| CursorBuffer
| CursorCorrupt
| CursorParameters
| CursorImage.

(** The dotted id. *)
Definition guest_display_raise_id (k : GuestDisplayRaise) : string :=
  match k with
  | MapPage => "guest_display.init.map_page"
  | AckNothingPending => "guest_display.ack.nothing_pending"
  | AckUnexpected => "guest_display.ack.unexpected"
  | GammaTable => "guest_display.gamma.invalid"
  | NotABacking => "guest_display.present.not_a_backing"
  | BackingWithoutTexture => "guest_display.present.no_texture"
  | PixelFormat => "guest_display.present.pixel_format"
  | ProtectionRequirements => "guest_display.present.protection"
  | NoKernelTask => "guest_display.present.no_kernel_task"
  | MappingId => "guest_display.present.mapping_id"
  | BytesPerPixel => "guest_display.present.bytes_per_pixel"
  | PropertyWordCount => "guest_display.property.word_count"
  | UnknownProperty => "guest_display.property.unknown"
  | CursorBuffer => "guest_display.cursor.buffer"
  | CursorCorrupt => "guest_display.cursor.corrupt"
  | CursorParameters => "guest_display.cursor.parameters"
  | CursorImage => "guest_display.cursor.image"
  end.

(** Where a guest display ends the process. *)
Inductive GuestDisplayDeath : Type :=
| NullPage
| PageWhilePaused
| CommandWhilePaused
| ClientAlreadySet
| ProtectionWithoutDevice
| PresentWithoutKernelTask
| PresentWithoutSurface
| MappedTextureRefused
| RghaWithoutDevice
| QueueGone
| ShowHandlerGone
| MoveHandlerGone
| GlyphHandlerGone
| GlyphBufferNull
| GlyphHandlerRaced
| NoModeList
| ModeCountTooLarge
| SettingsWithoutClient
| PauseTwice
| UnpauseRunning
| WillRestoreTwice
| FinishRestoreUnexpected
| ColorMatrixOutsidePage.

(** The dotted id. *)
Definition guest_display_death_id (k : GuestDisplayDeath) : string :=
  match k with
  | NullPage => "guest_display.page.null"
  | PageWhilePaused => "guest_display.page.paused"
  | CommandWhilePaused => "guest_display.command.paused"
  | ClientAlreadySet => "guest_display.client.already_set"
  | ProtectionWithoutDevice => "guest_display.protection.no_device"
  | PresentWithoutKernelTask => "guest_display.present.no_kernel_task"
  | PresentWithoutSurface => "guest_display.present.no_surface"
  | MappedTextureRefused => "guest_display.present.texture_refused"
  | RghaWithoutDevice => "guest_display.present.rgha_no_device"
  | QueueGone => "guest_display.dispatch.queue_gone"
  | ShowHandlerGone => "guest_display.cursor.show_handler_gone"
  | MoveHandlerGone => "guest_display.cursor.move_handler_gone"
  | GlyphHandlerGone => "guest_display.cursor.glyph_handler_gone"
  | GlyphBufferNull => "guest_display.cursor.glyph_buffer_null"
  | GlyphHandlerRaced => "guest_display.cursor.glyph_handler_raced"
  | NoModeList => "guest_display.modes.no_list"
  | ModeCountTooLarge => "guest_display.modes.count_too_large"
  | SettingsWithoutClient => "guest_display.settings.no_client"
  | PauseTwice => "guest_display.pause.twice"
  | UnpauseRunning => "guest_display.unpause.running"
  | WillRestoreTwice => "guest_display.restore.twice"
  | FinishRestoreUnexpected => "guest_display.restore.unexpected"
  | ColorMatrixOutsidePage => "guest_display.color_matrix.outside_page"
  end.

(** What a display raises. *)
Inductive DisplayRaise : Type :=
| GammaLength
| GammaCorrupt.

(** The dotted id. *)
Definition display_raise_id (k : DisplayRaise) : string :=
  match k with
  | GammaLength => "display.gamma.length"
  | GammaCorrupt => "display.gamma.corrupt"
  end.

(** Where a display ends the process. *)
Inductive DisplayDeath : Type :=
| NoLibrary
| NoVertexFunction
| NoFragmentFunction
| NoGammaFragmentFunction
| PositionBufferRefused
| TexCoordBufferRefused
| PropertyBufferRefused
| NullContents
| PresentWithoutNewFrameHandler
| ModeChangeWithoutQueue
| ModeChangeHandlerGone
| GuestDisplaySwapUnbalanced
| NoNewFrameSource
| GammaNoEntries
| GammaTextureRefused
| GammaOneEntry
| GammaTableRead
| EfiOffPresentQueue.

(** The dotted id. *)
Definition display_death_id (k : DisplayDeath) : string :=
  match k with
  | NoLibrary => "display.pipeline.no_library"
  | NoVertexFunction => "display.pipeline.no_vertex_function"
  | NoFragmentFunction => "display.pipeline.no_fragment_function"
  | NoGammaFragmentFunction => "display.pipeline.no_gamma_fragment_function"
  | PositionBufferRefused => "display.init.position_buffer"
  | TexCoordBufferRefused => "display.init.tex_coord_buffer"
  | PropertyBufferRefused => "display.init.property_buffer"
  | NullContents => "display.buffer.null_contents"
  | PresentWithoutNewFrameHandler => "display.present.no_new_frame_handler"
  | ModeChangeWithoutQueue => "display.mode_change.no_queue"
  | ModeChangeHandlerGone => "display.mode_change.handler_gone"
  | GuestDisplaySwapUnbalanced => "display.guest_display.swap_unbalanced"
  | NoNewFrameSource => "display.frame.no_source"
  | GammaNoEntries => "display.gamma.no_entries"
  | GammaTextureRefused => "display.gamma.texture_refused"
  | GammaOneEntry => "display.gamma.one_entry"
  | GammaTableRead => "display.gamma.table_read"
  | EfiOffPresentQueue => "display.efi.off_present_queue"
  end.

(** The kinds of death. *)
Definition ports_class (k : PortsDeath) : Death.DeathKind :=
  match k with
  | RootWordNull => Death.NullDeref
  | EfiBindDeallocating => Death.Abort
  | _ => Death.Assert
  end.
Definition guest_display_class (k : GuestDisplayDeath) : Death.DeathKind :=
  match k with
  | NullPage | PresentWithoutSurface | RghaWithoutDevice | QueueGone => Death.NullDeref
  | ShowHandlerGone | MoveHandlerGone | GlyphHandlerGone => Death.NilBlock
  | ColorMatrixOutsidePage => Death.OutOfBounds
  | _ => Death.Assert
  end.
Definition display_class (k : DisplayDeath) : Death.DeathKind :=
  match k with
  | NullContents | ModeChangeWithoutQueue | NoNewFrameSource => Death.NullDeref
  | ModeChangeHandlerGone => Death.NilBlock
  | GammaOneEntry | GammaTableRead => Death.OutOfBounds
  | EfiOffPresentQueue => Death.DispatchMisuse
  | _ => Death.Assert
  end.

#[export] Instance PortsRaise_eq_dec : EqDecision PortsRaise.
Proof. solve_decision. Defined.
#[export] Instance PortsDeath_eq_dec : EqDecision PortsDeath.
Proof. solve_decision. Defined.
#[export] Instance GuestDisplayRaise_eq_dec : EqDecision GuestDisplayRaise.
Proof. solve_decision. Defined.
#[export] Instance GuestDisplayDeath_eq_dec : EqDecision GuestDisplayDeath.
Proof. solve_decision. Defined.
#[export] Instance DisplayRaise_eq_dec : EqDecision DisplayRaise.
Proof. solve_decision. Defined.
#[export] Instance DisplayDeath_eq_dec : EqDecision DisplayDeath.
Proof. solve_decision. Defined.

End DisplayKinds.
