(* ===== verification/DeviceKinds.v ===== *)
(** * DeviceKinds: what the device raises and where it ends the process
    (src/crates/reims-vgpu-core/src/device.rs, device/mmio.rs) *)

From S2P Require Import Prelude MemoryKinds FifoKinds DisplayKinds.
From stdpp Require Import strings.
Open Scope string_scope.
Open Scope Z_scope.

Module DeviceKinds.

(** What the device raises. *)
Inductive DeviceRaise : Type :=
| InvalidFifoId
| InvalidStampIndex
| CircularWait
| ReadPastPage
| InvalidTask
| UserTaskZero
| KernelTaskNotLocal
| InvalidTaskId
| TaskExists
| TaskTooLarge
| TaskNotCreated
| DeviceInfoNotMapped.

(** The dotted name of a raise. *)
Definition raise_name (k : DeviceRaise) : string :=
  match k with
  | InvalidFifoId => "device.fifo.invalid_id"
  | InvalidStampIndex => "device.wait.invalid_stamp_index"
  | CircularWait => "device.wait.circular"
  | ReadPastPage => "device.read.past_page"
  | InvalidTask => "device.task.invalid"
  | UserTaskZero => "device.task.user_zero"
  | KernelTaskNotLocal => "device.task.kernel_not_local"
  | InvalidTaskId => "device.task.invalid_id"
  | TaskExists => "device.task.exists"
  | TaskTooLarge => "device.task.too_large"
  | TaskNotCreated => "device.task.not_created"
  | DeviceInfoNotMapped => "device.info.not_mapped"
  end.

(** Where the device ends the process. *)
Inductive DeviceDeath : Type :=
| NilBlock (block : string)
| MappingWhileLeavingSuspend
| ChildFifoInSlotZero
| SuspendNotBegun
| ResumedRootFifoMissing
| ResumeWalkLeftRootPage
| RootNodeFault
| DeviceInfoWrite
| TaskRootWord
| FifoAlreadyEnabled
| ChildInSlotZero
| TeardownWithoutRootNode
| TeardownWithoutDestroyTask
| UnalignedRangeMapping
| UnmapOutsideRootTask
| PhysicalReadCopy
| PastChildFifos
| PastWaitingInfo
| CreateWhileWaiting
| StampWriteWithoutMemory
| StampReadWithoutMemory
| ReportWithoutStampMemory
| DeletedNodeWithoutRoot
| WaiterPastMax
| WaiterBitTaken
| WaiterBusy
| ReportStampPastFifos
| ReportRootWithoutFifo
| ReportStampMismatch
| ReportOffQueue.

(** The kind of a register-path death. *)
Definition register_kind (k : DeviceDeath) : Death.DeathKind :=
  match k with
  | PhysicalReadCopy | StampWriteWithoutMemory | StampReadWithoutMemory |
  ReportWithoutStampMemory | DeletedNodeWithoutRoot => Death.NullDeref
  | PastChildFifos | PastWaitingInfo => Death.OutOfBounds
  | ReportOffQueue => Death.DispatchMisuse
  | NilBlock _ => Death.NilBlock
  | _ => Death.Assert
  end.

(** The dotted name of a register-path death. *)
Definition register_name (k : DeviceDeath) : string :=
  match k with
  | FifoAlreadyEnabled => "device.fifo.already_enabled"
  | ChildInSlotZero => "device.fifo.child_in_slot_zero"
  | TeardownWithoutRootNode => "device.root.teardown_without_node"
  | TeardownWithoutDestroyTask => "device.root.teardown_without_destroy"
  | UnalignedRangeMapping => "device.mapping.unaligned"
  | UnmapOutsideRootTask => "device.mapping.outside_root_task"
  | PhysicalReadCopy => "device.read.copy"
  | PastChildFifos => "device.fifo.past_slots"
  | PastWaitingInfo => "device.wait.past_entries"
  | CreateWhileWaiting => "device.fifo.create_while_waiting"
  | StampWriteWithoutMemory => "device.stamp.write_without_memory"
  | StampReadWithoutMemory => "device.stamp.read_without_memory"
  | ReportWithoutStampMemory => "device.report.without_stamp_memory"
  | DeletedNodeWithoutRoot => "device.fifo.deleted_node_without_root"
  | WaiterPastMax => "device.wait.waiter_past_max"
  | WaiterBitTaken => "device.wait.waiter_bit_taken"
  | WaiterBusy => "device.wait.waiter_busy"
  | ReportStampPastFifos => "device.report.stamp_past_fifos"
  | ReportRootWithoutFifo => "device.report.root_without_fifo"
  | ReportStampMismatch => "device.report.stamp_mismatch"
  | ReportOffQueue => "device.report.off_queue"
  | NilBlock block => block
  | MappingWhileLeavingSuspend => "device.mapping_while_leaving_suspend"
  | ChildFifoInSlotZero => "device.child_fifo_in_slot_zero"
  | SuspendNotBegun => "device.suspend_not_begun"
  | ResumedRootFifoMissing => "device.resumed_root_fifo_missing"
  | ResumeWalkLeftRootPage => "device.resume_walk_left_root_page"
  | RootNodeFault => "device.root_node_fault"
  | DeviceInfoWrite => "device.device_info_write"
  | TaskRootWord => "device.task_root_word"
  end.

(** The site a death records. *)
Definition site (k : DeviceDeath) : Death.DeathSite :=
  let '(kind, file) :=
    match k with
    | NilBlock block => (Death.NilBlock, block)
    | MappingWhileLeavingSuspend => (Death.Assert, "device.mapping_while_leaving_suspend")
    | ChildFifoInSlotZero => (Death.Assert, "device.child_fifo_in_slot_zero")
    | SuspendNotBegun => (Death.Assert, "device.suspend_not_begun")
    | ResumedRootFifoMissing => (Death.Assert, "device.resumed_root_fifo_missing")
    | ResumeWalkLeftRootPage => (Death.OutOfBounds, "device.resume_walk_left_root_page")
    | RootNodeFault => (Death.NullDeref, "device.root_node_fault")
    | DeviceInfoWrite => (Death.NullDeref, "device.device_info_write")
    | TaskRootWord => (Death.NullDeref, "device.task_root_word")
    | other => (register_kind other, register_name other)
    end in
  Death.MkDeathSite kind file 0.

#[export] Instance DeviceRaise_eq_dec : EqDecision DeviceRaise.
Proof. solve_decision. Defined.
#[export] Instance DeviceDeath_eq_dec : EqDecision DeviceDeath.
Proof. solve_decision. Defined.

(** How a device operation ends the process: a death of its own, a death of the memory,
    a FIFO, the display ports, a guest display or a display it calls, a raise no handler
    takes (its own, a task's or a display's), or, the model's own, a loop that ran out of
    its fuel. *)
Inductive ddeath : Type :=
| Fatal (k : DeviceDeath)
| OfMemory (k : Memory.mdeath)
| Unhandled (k : DeviceRaise)
| UnhandledTask
| UnhandledDisplay
| OfFifo (k : FifoDeath.FifoDeathKind)
| OfPorts (k : DisplayKinds.PortsDeath)
| OfGuestDisplay (k : DisplayKinds.GuestDisplayDeath)
| OfDisplay (k : DisplayKinds.DisplayDeath)
| OutOfFuel.

End DeviceKinds.
