(* ===== verification/FirstFit.v ===== *)
(** * FirstFit: first fit over a sorted free list
    (src/crates/reims-vgpu-core/src/collections/first_fit.rs)

    The root task's virtual address space. [allocate] and [deallocate] are the
    two operations of [FirstFitVa]; [gaps] is the invariant of the free list
    (sorted, maximal ranges), [free_at] the set of free bytes it denotes. *)

From S2P Require Import Prelude Num.

Module FirstFit.

(** One free range, [start..=last]. *)
Record FreeRange := MkRange { start : Z; last : Z }.

(** The free ranges and [granule - 1]. *)
Record FirstFitVa := MkVa { free : list FreeRange; mask : Z }.

#[export] Instance FreeRange_eq_dec : EqDecision FreeRange.
Proof. solve_decision. Defined.

(** [FirstFitVa::new]: [granule.saturating_sub(1)]. *)
Definition new (last granule : Z) : FirstFitVa :=
  MkVa [MkRange 0 last] (Z.max 0 (granule - 1)).

(** [size] rounded up to the granule, wrapping. *)
Definition round (mask size : Z) : Z := Z.land (add64 size mask) (not64 mask).

(** [Vec::insert]. *)
Definition vec_insert {A} (i : nat) (x : A) (l : list A) : list A :=
  take i l ++ x :: drop i l.

(** The first range whose aligned start leaves room: its index, the range, the
    aligned start and the block's last byte. *)
Fixpoint find_fit (mask asz : Z) (i : nat) (l : list FreeRange)
    : option (nat * FreeRange * Z * Z) :=
  match l with
  | [] => None
  | r :: l =>
      let al := Z.land (add64 (start r) mask) (not64 mask) in
      let end_ := sub64 (add64 al asz) 1 in
      if end_ <=? last r then Some (i, r, al, end_) else find_fit mask asz (S i) l
  end.

Definition allocate (a : FirstFitVa) (size : Z) : FirstFitVa * option Z :=
  if size =? 0 then (a, None) else
  let m := mask a in
  let asz := round m size in
  match find_fit m asz 0 (free a) with
  | None => (a, None)
  | Some (i, range, al, end_) =>
      let after := add64 al asz in
      let free' :=
        match al =? start range, end_ =? last range with
        | true, true => delete i (free a)
        | true, false => alter (fun r => MkRange after (last r)) i (free a)
        | false, true => alter (fun r => MkRange (start r) (sub64 al 1)) i (free a)
        | false, false =>
            vec_insert (i + 1) (MkRange after (last range))
              (alter (fun r => MkRange (start r) (sub64 al 1)) i (free a))
        end in
      (MkVa free' m, Some al)
  end.

(** [iter().position(p)]. *)
Fixpoint position {A} (p : A -> bool) (l : list A) : option nat :=
  match l with
  | [] => None
  | x :: l => if p x then Some 0%nat else S <$> position p l
  end.

Definition deallocate_free (m : Z) (l : list FreeRange) (st size : Z) : list FreeRange :=
  let end_ := add64 st (round m size) in
  let la := sub64 end_ 1 in
  let freed := MkRange st la in
  match l with
  | [] => [freed]
  | first :: rest =>
      let i := if st <=? start first then Some 0%nat
               else S <$> position (fun r => st <=? start r) rest in
      match i with
      | None =>
          (* Every range starts below [st]: extend or append after the last one. *)
          match list.last l with
          | None => l
          | Some tail =>
              if add64 (last tail) 1 <? st then l ++ [freed]
              else if last tail <? la
                   then alter (fun r => MkRange (start r) la) (length l - 1)%nat l
                   else l
          end
      | Some i =>
          let prev := if decide (i = 0%nat) then None else Some (i - 1)%nat in
          let touches_prev :=
            match prev ≫= (fun p => l !! p) with
            | Some p => st <=? add64 (last p) 1
            | None => false
            end in
          match l !! i with
          | None => l
          | Some next =>
              let touches_next := start next <=? end_ in
              match touches_prev, prev with
              | true, Some p =>
                  if touches_next
                  then delete i (alter (fun r => MkRange (start r) (last next)) p l)
                  else alter (fun r => if last r <? la then MkRange (start r) la else r) p l
              | _, _ =>
                  if negb touches_next then vec_insert i freed l
                  else alter (fun r => if st <? start r then MkRange st (last r) else r) i l
              end
          end
      end
  end.

Definition deallocate (a : FirstFitVa) (st size : Z) : FirstFitVa :=
  MkVa (deallocate_free (mask a) (free a) st size) (mask a).

(** ** The free list's invariant and the set it denotes *)

(** Sorted, nonempty, maximal ranges at or after [lo]; [limit] bounds them. *)
Fixpoint gaps (lo limit : Z) (l : list FreeRange) : Prop :=
  match l with
  | [] => True
  | r :: l => lo <= start r <= last r /\ last r < limit /\ gaps (last r + 2) limit l
  end.

(** Where a range may start after [l]. *)
Fixpoint after (lo : Z) (l : list FreeRange) : Z :=
  match l with
  | [] => lo
  | r :: l => after (last r + 2) l
  end.

Definition free_at (l : list FreeRange) (p : Z) : Prop :=
  Exists (fun r => start r <= p <= last r) l.

Lemma gaps_app lo lim l1 l2 :
  gaps lo lim (l1 ++ l2) <-> gaps lo lim l1 /\ gaps (after lo l1) lim l2.
Proof.
  revert lo. induction l1 as [|r l1 IH]; intros lo; simpl; [tauto|].
  rewrite IH. tauto.
Qed.

Lemma gaps_lower lo lo' lim l : lo' <= lo -> gaps lo lim l -> gaps lo' lim l.
Proof. destruct l; simpl; [done|]. intros ? (?&?&?). repeat split; (done || lia). Qed.

Lemma gaps_limit lo lim lim' l : lim <= lim' -> gaps lo lim l -> gaps lo lim' l.
Proof.
  intros Hle. revert lo. induction l as [|r l IH]; simpl; [done|].
  intros lo (?&?&?). repeat split; [lia..|]. by apply IH.
Qed.

Lemma gaps_after lo lim l : gaps lo lim l -> lo <= after lo l.
Proof.
  revert lo. induction l as [|r l IH]; intros lo; simpl; [lia|].
  intros (?&?&H). apply IH in H. lia.
Qed.

Lemma gaps_snoc lo lim l r : gaps lo lim (l ++ [r]) -> lo <= start r <= last r /\ last r < lim.
Proof.
  intros [Hl (?&?&_)]%gaps_app. apply gaps_after in Hl. lia.
Qed.

Lemma gaps_free_ge lo lim l p : gaps lo lim l -> free_at l p -> lo <= p < lim.
Proof.
  revert lo. induction l as [|r l IH]; intros lo; simpl.
  - intros _ H. by apply Exists_nil in H.
  - intros (?&?&H) [?|H2]%Exists_cons; [lia|]. apply (IH _ H) in H2. lia.
Qed.

(** The bytes of [l1] end two before the bytes that may follow. *)
Lemma gaps_free_lt lo lim l p : gaps lo lim l -> free_at l p -> p + 1 < after lo l.
Proof.
  revert lo. induction l as [|r l IH]; intros lo; simpl.
  - intros _ H. by apply Exists_nil in H.
  - intros (?&?&H) [?|H2]%Exists_cons; [|by apply IH].
    apply gaps_after in H. lia.
Qed.

(** Two invariant lists of the same bytes are one list. *)
Lemma gaps_ext lo lim l l' :
  gaps lo lim l -> gaps lo lim l' -> (forall p, free_at l p <-> free_at l' p) -> l = l'.
Proof.
  revert lo l'. induction l as [|[s e] l IH]; intros lo [|[s' e'] l'] H H' Hp; [done|..];
    simpl in *.
  - assert (free_at [] s') as Hn by (apply Hp, Exists_cons; simpl; lia).
    by apply Exists_nil in Hn.
  - assert (free_at [] s) as Hn by (apply Hp, Exists_cons; simpl; lia).
    by apply Exists_nil in Hn.
  - destruct H as (?&?&H), H' as (?&?&H').
    assert (Hin : forall p, e + 2 <= p -> e' + 2 <= p -> free_at l p <-> free_at l' p).
    { intros p ? ?. specialize (Hp p). unfold free_at in Hp.
      rewrite !Exists_cons in Hp. simpl in Hp. unfold free_at. intuition lia. }
    assert (Ha : forall p, s <= p <= e -> s' <= p <= e' \/ free_at l' p).
    { intros p ?. specialize (proj1 (Hp p)). unfold free_at.
      rewrite !Exists_cons. simpl. tauto. }
    assert (Hb : forall p, s' <= p <= e' -> s <= p <= e \/ free_at l p).
    { intros p ?. specialize (proj2 (Hp p)). unfold free_at.
      rewrite !Exists_cons. simpl. tauto. }
    assert (s = s') as ->.
    { destruct (Ha s) as [?|Hx]; [lia| |apply (gaps_free_ge _ _ _ _ H') in Hx];
        (destruct (Hb s') as [?|Hy]; [lia| |apply (gaps_free_ge _ _ _ _ H) in Hy]); lia. }
    assert (e = e') as ->.
    { destruct (Z.lt_trichotomy e e') as [?|[?|?]]; [|done|].
      - destruct (Hb (e + 1)) as [?|Hy]; [lia..|]. apply (gaps_free_ge _ _ _ _ H) in Hy. lia.
      - destruct (Ha (e' + 1)) as [?|Hy]; [lia..|]. apply (gaps_free_ge _ _ _ _ H') in Hy. lia. }
    f_equal. eapply IH; [done..|]. intros p. split; intros Hf.
    + apply Hin; [apply (gaps_free_ge _ _ _ _ H Hf)..|done].
    + apply Hin; [apply (gaps_free_ge _ _ _ _ H' Hf)..|done].
Qed.

Lemma after_snoc lo l r : after lo (l ++ [r]) = last r + 2.
Proof. revert lo. induction l as [|r' l IH]; intros lo; simpl; [done|apply IH]. Qed.

(** A contiguous free block lies in one range. *)
Lemma gaps_block lo lim l q n :
  gaps lo lim l -> 0 < n -> (forall p, q <= p < q + n -> free_at l p) ->
  Exists (fun r => start r <= q /\ q + n - 1 <= last r) l.
Proof.
  revert lo. induction l as [|r l IH]; intros lo; simpl.
  - intros _ Hn Hf. specialize (Hf q ltac:(lia)). by apply Exists_nil in Hf.
  - intros (?&?&H) Hn Hf. apply Exists_cons.
    destruct (Z.le_gt_cases (last r + 1) q) as [Hq|Hq].
    + right. apply (IH _ H Hn). intros p Hp. specialize (Hf p Hp).
      apply Exists_cons in Hf as [?|?]; [lia|done].
    + left.
      assert (start r <= q).
      { pose proof (Hf q ltac:(lia)) as [?|Hx]%Exists_cons; [lia|].
        apply (gaps_free_ge _ _ _ _ H) in Hx. lia. }
      destruct (Z.le_gt_cases (q + n - 1) (last r)); [lia|].
      pose proof (Hf (last r + 1) ltac:(lia)) as [?|Hx]%Exists_cons; [lia|].
      apply (gaps_free_ge _ _ _ _ H) in Hx. lia.
Qed.

(** ** Rounding to the granule *)

(** The first multiple of [2 ^ k] at or above [x]. *)
Definition up (k x : Z) : Z := x + (2 ^ k - 1) - (x + (2 ^ k - 1)) mod 2 ^ k.

Lemma up_bounds k x : 0 <= k -> x <= up k x < x + 2 ^ k.
Proof.
  intros Hk. unfold up. assert (0 < 2 ^ k) by lia.
  pose proof (Z.mod_pos_bound (x + (2 ^ k - 1)) (2 ^ k)). lia.
Qed.

Lemma up_aligned k x : 0 <= k -> up k x mod 2 ^ k = 0.
Proof.
  intros Hk. unfold up. assert (0 < 2 ^ k) by lia.
  set (y := x + (2 ^ k - 1)). rewrite Zminus_mod_idemp_r, Z.sub_diag. by apply Z.mod_0_l; lia.
Qed.

Lemma up_least k x q : 0 <= k -> x <= q -> q mod 2 ^ k = 0 -> up k x <= q.
Proof.
  intros Hk Hq Hm. pose proof (up_bounds k x Hk). pose proof (up_aligned k x Hk) as Ha.
  assert (0 < 2 ^ k) by lia.
  apply Z.mod_divide in Hm as [b Hb]; [|lia]. apply Z.mod_divide in Ha as [a Ha]; [|lia].
  destruct (Z.le_gt_cases a b) as [Hab|Hab]; [nia|].
  assert ((b + 1) * 2 ^ k <= a * 2 ^ k) by (apply Z.mul_le_mono_nonneg_r; lia). lia.
Qed.

Lemma up_id k x : 0 <= k -> x mod 2 ^ k = 0 -> up k x = x.
Proof.
  intros Hk Hm. pose proof (up_least k x x Hk ltac:(lia) Hm). pose proof (up_bounds k x Hk). lia.
Qed.

Lemma round_up k size :
  0 <= k <= 62 -> 0 <= size -> size + 2 ^ k <= M64 ->
  round (2 ^ k - 1) size = up k size.
Proof.
  intros Hk Hs Hb. unfold round, up. rewrite add64_small by (rewrite M64_val in *; lia).
  apply land_not64_mask; lia.
Qed.
#[export] Hint Resolve up_bounds up_aligned : words.

(** ** Finding the block *)

Definition fits (k asz : Z) (r : FreeRange) : Prop := up k (start r) + asz - 1 <= last r.

Lemma find_fit_Some k asz i0 lo lim l i r al e :
  0 <= k <= 62 -> 0 < asz -> 0 <= lo -> lim + asz + 2 ^ k <= M64 -> gaps lo lim l ->
  find_fit (2 ^ k - 1) asz i0 l = Some (i, r, al, e) ->
  exists l1 l2, l = l1 ++ r :: l2 /\ i = (i0 + length l1)%nat /\
    al = up k (start r) /\ e = al + asz - 1 /\ fits k asz r /\
    Forall (fun r => ~ fits k asz r) l1.
Proof.
  intros Hk Ha Hlo Hlim. revert i0 lo Hlo.
  induction l as [|r0 l IH]; intros i0 lo Hlo Hg Hf; [done|].
  destruct Hg as (?&?&Hg). cbn [find_fit] in Hf.
  pose proof (up_bounds k (start r0) ltac:(lia)).
  change (Z.land (add64 (start r0) (2 ^ k - 1)) (not64 (2 ^ k - 1)))
    with (round (2 ^ k - 1) (start r0)) in Hf.
  rewrite round_up in Hf by lia.
  rewrite add64_small, sub64_small in Hf by lia.
  case_if.
  - simplify_eq. exists [], l. by rewrite Nat.add_0_r.
  - apply (IH (S i0) (last r0 + 2)) in Hf as (l1&l2&->&->&->&->&?&?); [|lia|done].
    exists (r0 :: l1), l2. split_and!; try done.
    + simpl. lia.
    + constructor; [|done]. unfold fits. lia.
Qed.

Lemma find_fit_None k asz i0 lo lim l :
  0 <= k <= 62 -> 0 < asz -> 0 <= lo -> lim + asz + 2 ^ k <= M64 -> gaps lo lim l ->
  find_fit (2 ^ k - 1) asz i0 l = None -> Forall (fun r => ~ fits k asz r) l.
Proof.
  intros Hk Ha Hlo Hlim. revert i0 lo Hlo.
  induction l as [|r0 l IH]; intros i0 lo Hlo Hg Hf; [done|].
  destruct Hg as (?&?&Hg). cbn [find_fit] in Hf.
  pose proof (up_bounds k (start r0) ltac:(lia)).
  change (Z.land (add64 (start r0) (2 ^ k - 1)) (not64 (2 ^ k - 1)))
    with (round (2 ^ k - 1) (start r0)) in Hf.
  rewrite round_up in Hf by lia.
  rewrite add64_small, sub64_small in Hf by lia.
  case_if; [done|]. constructor; [unfold fits; lia|].
  eapply (IH _ (last r0 + 2)); [lia|done..].
Qed.

(** A free aligned block lies in a range that fits it, so no block lies below the
    ranges that do not. *)
Lemma no_fit_no_block k asz lo lim l q :
  0 <= k -> 0 < asz -> gaps lo lim l -> Forall (fun r => ~ fits k asz r) l ->
  q mod 2 ^ k = 0 -> ~ (forall p, q <= p < q + asz -> free_at l p).
Proof.
  intros Hk Ha Hg Hf Hq Hb. apply (gaps_block _ _ _ _ _ Hg Ha) in Hb.
  apply Exists_exists in Hb as (r & Hr & ? & ?).
  rewrite Forall_forall in Hf. apply (Hf r Hr). unfold fits.
  pose proof (up_least k (start r) q Hk ltac:(lia) Hq). lia.
Qed.

(** ** The block cut out of its range *)

(** The four cases of the cut are one: what is left of the range before and after
    the block. *)
Definition cut (r : FreeRange) (al e : Z) : list FreeRange :=
  (if al =? start r then [] else [MkRange (start r) (al - 1)]) ++
  (if e =? last r then [] else [MkRange (e + 1) (last r)]).

Lemma allocate_cut a size k lim i r al e l1 l2 :
  mask a = 2 ^ k - 1 -> 0 <= k <= 62 -> size <> 0 ->
  let asz := round (mask a) size in
  find_fit (mask a) asz 0 (free a) = Some (i, r, al, e) ->
  free a = l1 ++ r :: l2 -> i = length l1 ->
  e = al + asz - 1 -> start r <= al -> e <= last r -> last r < lim -> lim < M64 ->
  0 <= start r -> 0 < asz ->
  allocate a size = (MkVa (l1 ++ cut r al e ++ l2) (mask a), Some al).
Proof.
  intros Hm Hk Hs asz Hf Hl -> He ?? ? ? ??. unfold allocate.
  destruct (Z.eqb_spec size 0); [done|]. fold asz. rewrite Hf. unfold cut.
  assert (add64 al asz = e + 1) as -> by (rewrite add64_small; lia).
  assert (al <> start r -> sub64 al 1 = al - 1) as Hal by (intros; apply sub64_small; lia).
  do 3 f_equal. rewrite Hl. destruct (Z.eqb_spec al (start r)), (Z.eqb_spec e (last r)).
  - by rewrite delete_middle.
  - by rewrite alter_at by done.
  - rewrite Hal by done. by rewrite alter_at by done.
  - rewrite Hal by done. rewrite alter_at by done.
    unfold vec_insert. simpl.
    rewrite (cons_middle _ l1 l2), app_assoc.
    rewrite take_app_length', drop_app_length' by (rewrite length_app; simpl; lia).
    by rewrite <- app_assoc.
Qed.

Lemma gaps_cut lo lim r al e l2 :
  lo <= start r <= last r -> last r < lim -> gaps (last r + 2) lim l2 ->
  start r <= al -> al <= e <= last r -> gaps lo lim (cut r al e ++ l2).
Proof.
  intros ?? Hg ??. unfold cut.
  destruct (Z.eqb_spec al (start r)), (Z.eqb_spec e (last r)); simpl;
    repeat split; try lia; (eapply gaps_lower; [|done]; lia).
Qed.

Lemma free_at_cut r al e p :
  start r <= al -> al <= e <= last r ->
  free_at (cut r al e) p <-> start r <= p <= last r /\ ~ (al <= p <= e).
Proof.
  intros ??. unfold cut, free_at. rewrite Exists_app.
  destruct (Z.eqb_spec al (start r)), (Z.eqb_spec e (last r));
    rewrite ?Exists_cons, ?Exists_nil; simpl; lia.
Qed.

(** What [allocate] promises of its answer, on the free list [l]. *)
Definition allocated (k asz : Z) (l l' : list FreeRange) (al : Z) : Prop :=
  al mod 2 ^ k = 0 /\
  (forall p, al <= p < al + asz -> free_at l p) /\
  (forall p, free_at l' p <-> free_at l p /\ ~ (al <= p < al + asz)) /\
  (forall q, q mod 2 ^ k = 0 -> (forall p, q <= p < q + asz -> free_at l p) -> al <= q).

Lemma allocated_cut k asz lo lim l1 r l2 :
  0 <= k -> 0 < asz -> gaps lo lim (l1 ++ r :: l2) -> fits k asz r ->
  Forall (fun r => ~ fits k asz r) l1 ->
  let al := up k (start r) in
  allocated k asz (l1 ++ r :: l2) (l1 ++ cut r al (al + asz - 1) ++ l2) al.
Proof.
  intros Hk Ha Hg Hf Hn al. pose proof (up_bounds k (start r) Hk) as Hb.
  fold al in Hb. unfold fits in Hf. fold al in Hf.
  apply gaps_app in Hg as [Hg1 Hg2]. destruct Hg2 as (?&?&Hg2).
  split_and!; [by apply up_aligned| | |].
  - intros p Hp. unfold free_at. rewrite Exists_app, Exists_cons. right; left. lia.
  - intros p. unfold free_at. rewrite !Exists_app, Exists_cons.
    pose proof (free_at_cut r al (al + asz - 1) p ltac:(lia) ltac:(lia)) as Hc.
    unfold free_at in Hc. rewrite Hc.
    assert (free_at l1 p -> p + 1 < start r).
    { intros Hx. pose proof (gaps_free_lt _ _ _ _ Hg1 Hx). lia. }
    assert (free_at l2 p -> last r + 2 <= p).
    { intros Hx. pose proof (gaps_free_ge _ _ _ _ Hg2 Hx). lia. }
    unfold free_at in *. intuition lia.
  - intros q Hq Hfree.
    assert (gaps lo lim (l1 ++ r :: l2)) as Hg by (apply gaps_app; simpl; auto).
    apply (gaps_block _ _ _ _ _ Hg Ha) in Hfree. apply Exists_app in Hfree as [Hx|Hx].
    + exfalso. apply Exists_exists in Hx as (r' & Hr & ? & ?).
      rewrite Forall_forall in Hn. apply (Hn r' Hr). unfold fits.
      pose proof (up_least k (start r') q Hk ltac:(lia) Hq). lia.
    + apply Exists_cons in Hx as [Hx|Hx].
      * apply up_least; [done|lia|done].
      * apply Exists_exists in Hx as (r' & Hr & ? & ?).
        assert (last r + 2 <= start r').
        { assert (free_at l2 (start r')) as Hfr.
          { apply Exists_exists. exists r'. split; [done|lia]. }
          apply (gaps_free_ge _ _ _ _ Hg2) in Hfr. lia. }
        lia.
Qed.

(** ** Freeing *)

Lemma position_spec {A} (p : A -> bool) l :
  match position p l with
  | Some i => exists l1 x l2, l = l1 ++ x :: l2 /\ i = length l1 /\ p x = true /\
                Forall (fun y => p y = false) l1
  | None => Forall (fun y => p y = false) l
  end.
Proof.
  induction l as [|x l IH]; simpl; [done|]. destruct (p x) eqn:E; [by exists [], x, l|].
  destruct (position p l) as [i|]; simpl; [|by constructor].
  destruct IH as (l1&y&l2&->&->&Hy&?). exists (x :: l1), y, l2.
  split_and!; [done..|by constructor].
Qed.

Lemma start_index st (first : FreeRange) rest :
  let l := first :: rest in
  match (if st <=? start first then Some 0%nat
         else S <$> position (fun r => st <=? start r) rest) with
  | Some i => exists l1 x l2, l = l1 ++ x :: l2 /\ i = length l1 /\ st <= start x /\
                Forall (fun r => start r < st) l1
  | None => Forall (fun r => start r < st) l
  end.
Proof.
  simpl. case_if; [by exists [], first, rest|].
  pose proof (position_spec (fun r => st <=? start r) rest) as H.
  destruct (position _ rest) as [i|]; simpl.
  - destruct H as (l1&x&l2&->&->&Hx&Hl). to_props. exists (first :: l1), x, l2.
    split_and!; [done..|]. constructor; [done|]. eapply Forall_impl; [|exact Hl].
    simpl. intros r Hr. by to_props.
  - constructor; [done|]. eapply Forall_impl; [|exact H]. simpl. intros r Hr. by to_props.
Qed.

(** A block no byte of [l] touches: where it starts, against a range before it and
    a range after it. *)
Definition clear_of (l : list FreeRange) (st asz : Z) : Prop :=
  forall p, st <= p < st + asz -> ~ free_at l p.

Lemma clear_before l1 r l2 st asz :
  clear_of (l1 ++ r :: l2) st asz -> 0 < asz -> start r < st -> last r < st.
Proof.
  intros Hc Ha Hs. destruct (Z.lt_ge_cases (last r) st); [done|]. exfalso.
  apply (Hc st ltac:(lia)). unfold free_at. rewrite Exists_app, Exists_cons. right; left. lia.
Qed.

Lemma clear_after l1 r l2 st asz :
  clear_of (l1 ++ r :: l2) st asz -> st <= start r <= last r -> st + asz <= start r.
Proof.
  intros Hc Hs. destruct (Z.le_gt_cases (st + asz) (start r)); [done|]. exfalso.
  apply (Hc (start r) ltac:(lia)). unfold free_at. rewrite Exists_app, Exists_cons.
  right; left. lia.
Qed.

(** The freed block and its neighbours, coalesced: the range before it when the
    two touch, the range after it when the two touch. *)
Definition coalesced (l1 : list FreeRange) (st e : Z) (l2 : list FreeRange) : list FreeRange :=
  let '(l1, s) := match list.last l1 with
                  | Some p => if last p + 1 =? st then (take (length l1 - 1)%nat l1, start p) else (l1, st)
                  | None => (l1, st)
                  end in
  match l2 with
  | n :: l2 => if start n =? e then l1 ++ MkRange s (last n) :: l2
               else l1 ++ MkRange s (e - 1) :: n :: l2
  | [] => l1 ++ [MkRange s (e - 1)]
  end.

Lemma last_snoc_cases {A} (l : list A) :
  l = [] \/ exists l' x, l = l' ++ [x] /\ list.last l = Some x /\ take (length l - 1)%nat l = l'.
Proof.
  destruct l as [|x l' _] using rev_ind; [by left|]. right. exists l', x.
  rewrite last_snoc, length_app, Nat.add_sub, take_app_length. done.
Qed.

Lemma deallocate_coalesced k lo lim l st size :
  0 <= k <= 62 -> 0 <= lo -> gaps lo lim l -> lim < M64 -> 0 <= st -> 0 < size ->
  st + size + 2 ^ k <= M64 -> clear_of l st (up k size) ->
  exists l1 l2, l = l1 ++ l2 /\ Forall (fun r => last r < st) l1 /\
    Forall (fun r => st + up k size <= start r) l2 /\
    deallocate_free (2 ^ k - 1) l st size = coalesced l1 st (st + up k size) l2.
Proof.
  intros Hk Hlo Hg Hlim Hst Hsz Hb Hc. pose proof (up_bounds k size ltac:(lia)).
  unfold deallocate_free. rewrite round_up by lia. set (asz := up k size) in *.
  rewrite add64_small by lia. rewrite (sub64_small (st + asz)) by lia.
  destruct l as [|first rest]; [by exists [], []|].
  pose proof (start_index st first rest) as Hi. cbv zeta in Hi.
  revert Hi. generalize (if st <=? start first then Some 0%nat
    else S <$> position (fun r => st <=? start r) rest).
  set (l := first :: rest) in *. intros [i|] Hi.
  - destruct Hi as (l1&n&l2&El&->&Hn&Hl1). rewrite El in *. exists l1, (n :: l2).
    assert (Hn' : start n <= last n) by (apply gaps_app in Hg as [? (?&?&?)]; lia).
    pose proof (clear_after l1 n l2 st asz Hc ltac:(lia)).
    assert (Forall (fun r => last r < st) l1) as Hl1'.
    { apply Forall_forall. intros r (a&b&->)%in_split.
      rewrite Forall_app, Forall_cons_iff in Hl1. rewrite <- app_assoc in Hc.
      eapply clear_before; [exact Hc|lia|tauto]. }
    split_and!; [done..| |].
    { constructor; [done|]. apply Forall_forall. intros r (a&b&->)%in_split.
      apply gaps_app in Hg as [_ (?&?&Hg)].
      assert (free_at (a ++ r :: b) (start r)) as Hf.
      { unfold free_at. rewrite Exists_app, Exists_cons. right; left.
        apply gaps_app in Hg as [_ (?&?&?)]. lia. }
      apply (gaps_free_ge _ _ _ _ Hg) in Hf. lia. }
    rewrite lookup_at. unfold coalesced.
    destruct (last_snoc_cases l1) as [->|(l1'&p&->&Hlast&Htake)].
    + simpl. case_if; destruct (Z.eqb_spec (start n) (st + asz)); try lia; [done|].
      by destruct (Z.ltb_spec st (start n)); [|lia].
    + rewrite Hlast, Htake, length_app, Nat.add_sub. simpl length.
      rewrite decide_False by lia. simpl.
      rewrite <- !app_assoc. cbn [app]. rewrite lookup_at.
      assert (last p < st) by (rewrite Forall_app, Forall_cons_iff in Hl1'; tauto).
      apply gaps_app in Hg as [Hg1 _]. pose proof (gaps_snoc _ _ _ _ Hg1).
      rewrite add64_small by lia.
      assert (Hlen : (length l1' + 1)%nat = length (l1' ++ [p])) by (by rewrite length_app).
      assert (Hcons : forall r l, l1' ++ r :: l = (l1' ++ [r]) ++ l) by (intros; by rewrite <- app_assoc).
      destruct (Z.leb_spec st (last p + 1)), (Z.eqb_spec (last p + 1) st); try lia.
      * destruct (Z.leb_spec (start n) (st + asz)), (Z.eqb_spec (start n) (st + asz)); try lia.
        -- rewrite alter_at by done. rewrite (Hcons (MkRange _ _)).
           by rewrite delete_at, <- app_assoc by (by rewrite length_app).
        -- rewrite alter_at by done.
           by destruct (Z.ltb_spec (last p) (st + asz - 1)); [|lia].
      * destruct (Z.leb_spec (start n) (st + asz)), (Z.eqb_spec (start n) (st + asz)); try lia.
        -- simpl. rewrite (Hcons p), alter_at by done.
           by destruct (Z.ltb_spec st (start n)); [|lia].
        -- simpl. unfold vec_insert.
           rewrite (Hcons p), Hlen, take_app_length, drop_app_length. done.
  - exists l, []. assert (Forall (fun r => last r < st) l) as Hl1'.
    { apply Forall_forall. intros r (a&b&El)%in_split. rewrite El in *.
      rewrite Forall_app, Forall_cons_iff in Hi. eapply clear_before; [exact Hc|lia|tauto]. }
    rewrite app_nil_r. split_and!; [done..|]. unfold coalesced.
    destruct (last_snoc_cases l) as [El|(l1'&p&El&Hlast&Htake)]; [done|].
    rewrite Hlast, Htake. rewrite El in *.
    assert (last p < st) by (rewrite Forall_app, Forall_cons_iff in Hl1'; tauto).
    pose proof (gaps_snoc _ _ _ _ Hg). rewrite add64_small by lia.
    destruct (Z.ltb_spec (last p + 1) st), (Z.eqb_spec (last p + 1) st); try lia; [done|].
    destruct (Z.ltb_spec (last p) (st + asz - 1)); [|lia].
    by rewrite length_app, Nat.add_sub, alter_at by done.
Qed.

Lemma coalesced_spec lo lim l1 st e l2 :
  lo <= st < e -> gaps lo lim (l1 ++ l2) ->
  Forall (fun r => last r < st) l1 -> Forall (fun r => e <= start r) l2 ->
  gaps lo (Z.max lim e) (coalesced l1 st e l2) /\
  forall p, free_at (coalesced l1 st e l2) p <-> free_at (l1 ++ l2) p \/ st <= p < e.
Proof.
  intros Hst Hg H1 H2.
  assert (Hs : exists l1' s, coalesced l1 st e l2 =
      l1' ++ (match l2 with
              | n :: l2 => if start n =? e then MkRange s (last n) :: l2
                           else MkRange s (e - 1) :: n :: l2
              | [] => [MkRange s (e - 1)] end) /\
      lo <= s <= st /\ gaps lo lim l1' /\ after lo l1' <= s /\
      (forall p, free_at l1' p \/ s <= p < st <-> free_at l1 p)).
  { unfold coalesced. apply gaps_app in Hg as [Hg _].
    destruct (last_snoc_cases l1) as [->|(l'&p&->&->&->)].
    - exists [], st. split; [by destruct l2; [|simpl; case_match]|].
      split; [lia|]. split; [done|]. split; [simpl; lia|].
      intros p. split; [intros [?|?]; [done|lia]|by left].
    - apply gaps_app in Hg as [Hg (?&?&_)].
      assert (last p < st) by (rewrite Forall_app, Forall_cons_iff in H1; tauto).
      destruct (Z.eqb_spec (last p + 1) st).
      + exists l', (start p). pose proof (gaps_after _ _ _ Hg).
        split; [by destruct l2; [|case_match]|].
        split; [lia|]. split; [done|]. split; [lia|].
        intros q. unfold free_at. rewrite Exists_app, Exists_cons, Exists_nil.
        intuition lia.
      + exists (l' ++ [p]), st. pose proof (gaps_after _ _ _ Hg).
        split; [by destruct l2; [|case_match]|].
        split; [lia|]. split; [apply gaps_app; simpl; auto|].
        split; [rewrite after_snoc; lia|].
        intros q. split; [intros [?|?]; [done|lia]|by left]. }
  destruct Hs as (l1'&s&->&Hs&Hg1&Haft&Hfree).
  assert (Hg2 : gaps st lim l2).
  { destruct l2 as [|n l2]; [done|]. apply gaps_app in Hg as [_ (?&?&?)].
    rewrite Forall_cons_iff in H2. simpl. repeat split; [lia..|done]. }
  destruct l2 as [|n l2].
  - rewrite gaps_app. simpl. split.
    + split_and!; try lia; (eapply gaps_limit; [|done]; lia).
    + intros p. rewrite app_nil_r. unfold free_at in *.
      rewrite Exists_app, Exists_cons, Exists_nil. simpl. rewrite <- Hfree. intuition lia.
  - destruct Hg2 as (?&?&Hg2). rewrite Forall_cons_iff in H2. destruct H2 as [Hn H2].
    destruct (Z.eqb_spec (start n) e); rewrite gaps_app; simpl; split.
    + split_and!; try lia; (eapply gaps_limit; [|done]; lia).
    + intros p. unfold free_at in *. rewrite !Exists_app, !Exists_cons. simpl.
      rewrite <- Hfree. intuition lia.
    + split_and!; try lia; (eapply gaps_limit; [|done]; lia).
    + intros p. unfold free_at in *. rewrite !Exists_app, !Exists_cons. simpl.
      rewrite <- Hfree. intuition lia.
Qed.

(** ** The properties *)

Section Properties.
Context (k lim : Z) (a : FirstFitVa).
Hypothesis Hk : 0 <= k <= 62.
Hypothesis Hmask : mask a = 2 ^ k - 1.
Hypothesis Hlim : 0 <= lim.
Hypothesis Hgaps : gaps 0 lim (free a).

Lemma allocate_spec size :
  0 < size -> lim + size + 2 * 2 ^ k <= M64 ->
  match allocate a size with
  | (a', Some al) =>
      allocated k (up k size) (free a) (free a') al /\
      gaps 0 lim (free a') /\ mask a' = mask a
  | (a', None) =>
      a' = a /\ forall q, q mod 2 ^ k = 0 ->
        ~ (forall p, q <= p < q + up k size -> free_at (free a) p)
  end.
Proof.
  intros Hs Hb. pose proof (up_bounds k size ltac:(lia)) as Hup.
  assert (0 < 2 ^ k) by lia.
  assert (Hround : round (mask a) size = up k size).
  { rewrite Hmask. apply round_up; lia. }
  destruct (find_fit (mask a) (up k size) 0 (free a)) as [[[[i r] al] e]|] eqn:Hf.
  - pose proof Hf as Hf'. rewrite Hmask in Hf'.
    eapply (find_fit_Some _ _ _ 0 lim) in Hf' as (l1&l2&El&Hi&Hal&He&Hfit&Hno); [|lia..|done].
    pose proof (up_bounds k (start r) ltac:(lia)). unfold fits in Hfit.
    rewrite El in Hgaps. pose proof (proj1 (gaps_app _ _ _ _) Hgaps) as [Hg1 (?&?&Hg2)].
    pose proof (gaps_after _ _ _ Hg1).
    erewrite (allocate_cut a size k lim i r al e l1 l2); rewrite ?Hround; try done; try lia.
    cbn [free mask]. rewrite El, He, Hal. split_and!; [|apply gaps_app; split; [done|]|done].
    + eapply allocated_cut; [lia|lia|done|done|done].
    + apply gaps_cut; try done; lia.
  - unfold allocate. destruct (Z.eqb_spec size 0); [lia|]. rewrite Hround, Hf.
    split; [done|]. intros q Hq. rewrite Hmask in Hf.
    apply (no_fit_no_block k (up k size) 0 lim); [lia|lia|exact Hgaps| |done].
    eapply (find_fit_None k _ 0 0 lim); try done; lia.
Qed.

(** Allocation is first fit. Over a well-formed free list, [allocate] answers
    the lowest granule-aligned start of a wholly free block of the rounded size, the
    free bytes lose exactly that block and the list stays well formed; it answers
    nothing, and changes nothing, exactly when no aligned block is free. *)
Theorem allocate_first_fit size :
  0 < size -> lim + size + 2 * 2 ^ k <= M64 ->
  match allocate a size with
  | (a', Some al) =>
      allocated k (up k size) (free a) (free a') al /\
      gaps 0 lim (free a') /\ mask a' = mask a
  | (a', None) =>
      a' = a /\ forall q, q mod 2 ^ k = 0 ->
        ~ (forall p, q <= p < q + up k size -> free_at (free a) p)
  end.
Proof. apply allocate_spec. Qed.

Lemma deallocate_spec st size :
  0 <= st -> 0 < size -> lim < M64 -> st + size + 2 ^ k <= M64 ->
  clear_of (free a) st (up k size) ->
  gaps 0 (Z.max lim (st + up k size)) (free (deallocate a st size)) /\
  forall p, free_at (free (deallocate a st size)) p <->
    free_at (free a) p \/ st <= p < st + up k size.
Proof.
  intros Hst Hs Hl Hb Hc. pose proof (up_bounds k size ltac:(lia)).
  unfold deallocate. cbn [free]. rewrite Hmask.
  edestruct (deallocate_coalesced k 0 lim) as (l1&l2&El&H1&H2&->); try done.
  rewrite El in *. apply coalesced_spec; [lia|done..].
Qed.

(** Freeing gives the bytes back. When no byte of the rounded block is free,
    [deallocate] adds exactly that block to the free bytes and coalesces, so the
    list is again sorted ranges with a byte taken between any two. *)
Theorem deallocate_frees st size :
  0 <= st -> 0 < size -> lim < M64 -> st + size + 2 ^ k <= M64 ->
  clear_of (free a) st (up k size) ->
  gaps 0 (Z.max lim (st + up k size)) (free (deallocate a st size)) /\
  forall p, free_at (free (deallocate a st size)) p <->
    free_at (free a) p \/ st <= p < st + up k size.
Proof. exact (deallocate_spec st size). Qed.

(** A freed block restores the allocator. [deallocate] of the block the last
    [allocate] answered gives back the very free list it was cut from. *)
Theorem allocate_deallocate size a' al :
  0 < size -> lim + size + 2 * 2 ^ k <= M64 -> allocate a size = (a', Some al) ->
  deallocate a' al size = a.
Proof.
  intros Hs Hb Ha. pose proof (up_bounds k size ltac:(lia)).
  pose proof (allocate_spec size Hs Hb) as Hspec. rewrite Ha in Hspec.
  destruct Hspec as ((_&Hin&Hout&_)&Hg&Hm).
  assert (Hal : 0 <= al /\ al + up k size <= lim).
  { pose proof (gaps_free_ge _ _ _ _ Hgaps (Hin al ltac:(lia))).
    pose proof (gaps_free_ge _ _ _ _ Hgaps (Hin (al + up k size - 1) ltac:(lia))). lia. }
  edestruct (deallocate_coalesced k 0 lim (free a') al size)
    as (l1&l2&El&H1&H2&Heq); try done; try lia.
  { intros p Hp [_ Hn]%Hout. lia. }
  rewrite El in Hg, Hout.
  destruct (coalesced_spec 0 lim l1 al (al + up k size) l2) as [Hc1 Hc2]; [lia|done..|].
  destruct a as [fr m], a' as [fr' m']. cbn [free mask] in *. unfold deallocate.
  cbn [free mask]. rewrite Hm, Hmask, Heq. f_equal.
  apply (gaps_ext 0 lim); [|done|].
  - eapply gaps_limit; [|exact Hc1]. lia.
  - intros p. rewrite Hc2, Hout. split; [intros [[? _]|?]; [done|by apply Hin]|].
    intros Hp. destruct (decide (al <= p < al + up k size)); [by right|by left].
Qed.
End Properties.

(** The root task's allocator, after two blocks were taken and the first freed. *)
Definition root_after : FirstFitVa :=
  let a := new 0xffffff 0x4000 in
  let a := fst (allocate a 0x8000) in
  let a := fst (allocate a 0x4000) in
  deallocate a 0 0x8000.

Example root_after_free :
  free root_after = [MkRange 0 0x7fff; MkRange 0xc000 0xffffff].
Proof. reflexivity. Qed.

(** A size the hole holds takes the hole; a larger one goes past it. *)
Lemma allocate_first_fit_witness :
  match allocate root_after 0x8001 with
  | (a', Some al) => allocated 14 (up 14 0x8001) (free root_after) (free a') al /\
        gaps 0 0x1000000 (free a') /\ mask a' = mask root_after
  | (a', None) => a' = root_after /\ forall q, q mod 2 ^ 14 = 0 ->
          ~ (forall p, q <= p < q + up 14 0x8001 -> free_at (free root_after) p)
  end.
Proof.
  apply (allocate_first_fit 14 0x1000000 root_after);
    try (vm_compute; repeat split; done).
Defined.

Lemma deallocate_frees_witness :
  gaps 0 (Z.max 0x1000000 (0x8000 + up 14 0x4000))
    (free (deallocate root_after 0x8000 0x4000)) /\
  forall p, free_at (free (deallocate root_after 0x8000 0x4000)) p <->
    free_at (free root_after) p \/ 0x8000 <= p < 0x8000 + up 14 0x4000.
Proof.
  apply (deallocate_frees 14 0x1000000 root_after);
    [lia|reflexivity|vm_compute; repeat split; discriminate|lia|lia|reflexivity
    |vm_compute; discriminate|].
  intros p Hp H. change (up 14 16384) with 16384 in Hp. unfold free_at in H.
  rewrite root_after_free in H.
  apply Exists_cons in H as [H|H]; [cbn in H; lia|].
  apply Exists_cons in H as [H|H]; [cbn in H; lia|]. by apply Exists_nil in H.
Defined.

Lemma allocate_deallocate_witness :
  deallocate (fst (allocate root_after 0x8001)) 0xc000 0x8001 = root_after.
Proof.
  apply (allocate_deallocate 14 0x1000000 root_after);
    try (vm_compute; repeat split; done).
Defined.

End FirstFit.
