(* ===== verification/GuestPtr.v ===== *)
(** * GuestPtr: the raw accesses to guest RAM
    (src/crates/reims-vgpu-core/src/guest/ptr.rs, guest/page.rs)

    The host's memory is a total map from addresses to bytes; each access is one
    load or store of the width it names at the moment the operation reaches it.
    Other threads' and the guest's own concurrent accesses are not modelled. *)

From S2P Require Import Prelude.

Module GuestPtr.

(** Where the zero region ends. *)
Definition ZERO_REGION_END : Z := 0x100000000.

Definition memory : Type := Z -> byte.

(** [n] bytes from address [a], and the memory with [bs] stored from [a]. *)
Definition bytes_at (m : memory) (a : Z) (n : nat) : list byte :=
  map (fun i => m (a + Z.of_nat i)) (seq 0 n).

Definition store_at (m : memory) (a : Z) (bs : list byte) : memory :=
  fun x => if (a <=? x) && (x <? a + Z.of_nat (length bs))
           then default x00 (bs !! Z.to_nat (x - a)) else m x.

(** [aligned] to a power of two, and [within_granule] of 16 bytes. *)
Definition aligned (a n : Z) : bool := Z.land a (sub64 n 1) =? 0.
Definition within_granule (a : Z) : bool := Z.land a 0xf <=? 0xc.

Section Access.
Context {R D : Type}.
(** How a write on the thread of an isolated task that has ended stops it
    ([tasks::isolation::life::stop_if_task_ended]), and whether it has. *)
Context (stopped : D) (task_ended : bool).

Definition stop_if_task_ended : outcome R D unit :=
  if task_ended then Died stopped else Ret tt.

(** The address [base + off], or the death where the access would fault. *)
Definition check (base off len : Z) (death : D) : outcome R D Z :=
  let a := add64 base off in
  if (a <? ZERO_REGION_END) || (M64 <=? a + len) then Died death else Ret a.

(** [GuestPtr::offset]: pointer arithmetic, never checked. *)
Definition offset (self off : Z) : Z := add64 self off.
Definition is_null (self : Z) : bool := self =? 0.

(** The volatile loads of 1, 2, 4 and 8 bytes: the aligned and the unaligned
    instruction load the same bytes. *)
Definition read_n (n : nat) (m : memory) (self off : Z) (death : D) : outcome R D Z :=
  a ← check self off (Z.of_nat n) death; Ret (of_le_bytes (bytes_at m a n)).
Definition read_u8 := read_n 1.
Definition read_u16 := read_n 2.
Definition read_u32 := read_n 4.
Definition read_u64 := read_n 8.

(** The volatile stores. *)
Definition write_n (n : nat) (m : memory) (self off v : Z) (death : D)
    : outcome R D memory :=
  _ ← stop_if_task_ended;
  a ← check self off (Z.of_nat n) death; Ret (store_at m a (le_bytes n v)).
Definition write_u8 := write_n 1.
Definition write_u16 := write_n 2.
Definition write_u32 := write_n 4.
Definition write_u64 := write_n 8.

(** One [stp], one [ldp] and one [stp xzr, xzr]. *)
Definition write_u32_pair (m : memory) (self off lo hi : Z) (death : D)
    : outcome R D memory :=
  _ ← stop_if_task_ended;
  a ← check self off 8 death; Ret (store_at m a (le_bytes 4 lo ++ le_bytes 4 hi)).
Definition read_u32_pair (m : memory) (self off : Z) (death : D) : outcome R D (Z * Z) :=
  a ← check self off 8 death;
  Ret (of_le_bytes (bytes_at m a 4), of_le_bytes (bytes_at m (a + 4) 4)).
Definition write_zero_16 (m : memory) (self off : Z) (death : D) : outcome R D memory :=
  _ ← stop_if_task_ended;
  a ← check self off 16 death; Ret (store_at m a (replicate 16 x00)).

(** The address of an atomic access: misaligned across a granule, it faults. *)
Definition atomic_address (self off : Z) (death : D) : outcome R D Z :=
  a ← check self off 4 death;
  if aligned a 4 then Ret a
  else if negb (within_granule a) then Died death else Ret a.

(** [load_acquire_u32] and [load_seqcst_u32] load alike; so do the two stores. *)
Definition load_acquire_u32 (m : memory) (self off : Z) (death : D) : outcome R D Z :=
  a ← atomic_address self off death; Ret (of_le_bytes (bytes_at m a 4)).
Definition load_seqcst_u32 (m : memory) (self off : Z) (death : D) : outcome R D Z :=
  a ← atomic_address self off death; Ret (of_le_bytes (bytes_at m a 4)).
Definition store_release_u32 (m : memory) (self off v : Z) (death : D)
    : outcome R D memory :=
  _ ← stop_if_task_ended;
  a ← atomic_address self off death; Ret (store_at m a (le_bytes 4 v)).
Definition store_seqcst_u32 (m : memory) (self off v : Z) (death : D)
    : outcome R D memory :=
  _ ← stop_if_task_ended;
  a ← atomic_address self off death; Ret (store_at m a (le_bytes 4 v)).

(** The old value, and the memory with the word or-ed. *)
Definition fetch_or_u32 (m : memory) (self off v : Z) (death : D)
    : outcome R D (Z * memory) :=
  _ ← stop_if_task_ended;
  a ← atomic_address self off death;
  let old := of_le_bytes (bytes_at m a 4) in
  Ret (old, store_at m a (le_bytes 4 (Z.lor old v))).

(** Bytes up to an 8-byte boundary, then words, then the tail. [rest] bytes are
    left to fill from address [a + i]. *)
Fixpoint copy_to_loop (fuel : nat) (m : memory) (a i rest : Z) : list byte :=
  match fuel with
  | O => []
  | S fuel =>
      if rest =? 0 then [] else
      let at_ := add64 a i in
      if aligned at_ 8 && (8 <=? rest)
      then le_bytes 8 (of_le_bytes (bytes_at m at_ 8))
             ++ copy_to_loop fuel m a (add64 i 8) (rest - 8)
      else m at_ :: copy_to_loop fuel m a (add64 i 1) (rest - 1)
  end.

(** The [len] bytes a bulk copy out of guest memory fills its buffer with. *)
Definition copy_to (m : memory) (self off len : Z) (death : D) : outcome R D (list byte) :=
  if len =? 0 then Ret [] else
  a ← check self off len death;
  Ret (copy_to_loop (Z.to_nat len) m a 0 len).

Fixpoint copy_from_loop (fuel : nat) (m : memory) (a i : Z) (rest : list byte) : memory :=
  match fuel with
  | O => m
  | S fuel =>
      match rest with
      | [] => m
      | b :: tail =>
          let at_ := add64 a i in
          if aligned at_ 8 && (8 <=? Z.of_nat (length rest))
          then copy_from_loop fuel
                 (store_at m at_ (le_bytes 8 (of_le_bytes (take 8 rest))))
                 a (add64 i 8) (drop 8 rest)
          else copy_from_loop fuel (store_at m at_ [b]) a (add64 i 1) tail
      end
  end.

Definition copy_from (m : memory) (self off : Z) (src : list byte) (death : D)
    : outcome R D memory :=
  _ ← stop_if_task_ended;
  match src with
  | [] => Ret m
  | _ =>
      a ← check self off (Z.of_nat (length src)) death;
      Ret (copy_from_loop (length src) m a 0 src)
  end.

(** [GuestPage::at] of the page at [base]. *)
Definition page_at (base off : Z) : Z := offset base off.
End Access.

(** ** Facts *)

Lemma length_bytes_at m a n : length (bytes_at m a n) = n.
Proof. unfold bytes_at. by rewrite length_map, length_seq. Qed.

Lemma bytes_at_S m a n : bytes_at m a (S n) = m a :: bytes_at m (a + 1) n.
Proof.
  unfold bytes_at. cbn [seq map]. f_equal; [f_equal; lia|].
  rewrite <- seq_shift, map_map. apply map_ext. intros i. f_equal. lia.
Qed.

Lemma bytes_at_app m a n1 n2 :
  bytes_at m a (n1 + n2) = bytes_at m a n1 ++ bytes_at m (a + Z.of_nat n1) n2.
Proof.
  revert a. induction n1 as [|n1 IH]; intros a; [by rewrite Z.add_0_r|].
  cbn [Nat.add]. rewrite !bytes_at_S, IH. simpl. do 3 f_equal. lia.
Qed.

Lemma bytes_at_ext m m' a n :
  (forall x, a <= x < a + Z.of_nat n -> m x = m' x) -> bytes_at m a n = bytes_at m' a n.
Proof.
  revert a. induction n as [|n IH]; intros a H; [done|].
  rewrite !bytes_at_S. f_equal; [apply H; lia|]. apply IH. intros. apply H. lia.
Qed.

Lemma store_at_out m a bs x :
  x < a \/ a + Z.of_nat (length bs) <= x -> store_at m a bs x = m x.
Proof.
  intros H. unfold store_at.
  destruct (Z.leb_spec a x), (Z.ltb_spec x (a + Z.of_nat (length bs))); done || lia.
Qed.

Lemma bytes_at_store m a bs : bytes_at (store_at m a bs) a (length bs) = bs.
Proof.
  apply list_eq. intros i. unfold bytes_at. rewrite list_lookup_fmap.
  destruct (decide (i < length bs)%nat) as [Hi|Hi].
  - rewrite lookup_seq_lt by done. simpl. unfold store_at.
    destruct (Z.leb_spec a (a + Z.of_nat i)), (Z.ltb_spec (a + Z.of_nat i)
      (a + Z.of_nat (length bs))); try lia. simpl.
    replace (Z.to_nat (a + Z.of_nat i - a)) with i by lia.
    destruct (bs !! i) eqn:E; [done|]. apply lookup_ge_None in E. lia.
  - rewrite lookup_seq_ge, (lookup_ge_None_2 bs) by lia. done.
Qed.

Lemma store_at_app m a bs1 bs2 x :
  store_at (store_at m a bs1) (a + Z.of_nat (length bs1)) bs2 x
  = store_at m a (bs1 ++ bs2) x.
Proof.
  unfold store_at. rewrite length_app, Nat2Z.inj_add.
  destruct (Z.leb_spec a x), (Z.ltb_spec x (a + Z.of_nat (length bs1))),
    (Z.leb_spec (a + Z.of_nat (length bs1)) x),
    (Z.ltb_spec x (a + Z.of_nat (length bs1) + Z.of_nat (length bs2))),
    (Z.ltb_spec x (a + (Z.of_nat (length bs1) + Z.of_nat (length bs2)))); try lia; simpl;
    try done.
  - by rewrite lookup_app_l by lia.
  - rewrite lookup_app_r by lia. do 2 f_equal. lia.
Qed.

Lemma check_Ret {R D} base off len (death : D) a :
  check (R:=R) base off len death = Ret a ->
  a = add64 base off /\ ZERO_REGION_END <= a /\ a + len < M64.
Proof. unfold check. case_if; [done|]. intros [= <-]. auto. Qed.

Lemma check_ok {R D} base off len (death : D) :
  0 <= base + off < M64 -> ZERO_REGION_END <= base + off -> base + off + len < M64 ->
  check (R:=R) base off len death = Ret (base + off).
Proof.
  intros. unfold check. rewrite add64_small by done.
  destruct (Z.ltb_spec (base + off) ZERO_REGION_END), (Z.leb_spec M64 (base + off + len)); done || lia.
Qed.

(** The two loops move the same bytes a byte-by-byte [memcpy] does. *)
(** A word stored reads back. *)
Lemma read_u32_written {R1 R2 D1 D2} (stopped death : D1) (death2 : D2) ended m m' self off v :
  u32 v -> write_u32 (R:=R1) stopped ended m self off v death = Ret m' ->
  read_u32 (R:=R2) m' self off death2 = Ret v.
Proof.
  intros Hv. unfold write_u32, read_u32, write_n, read_n, stop_if_task_ended, check.
  destruct ended; [done|]. rewrite bind_ret_l. destruct (_ || _); [done|]. rewrite !bind_ret_l.
  intros [= <-]. f_equal. rewrite (bytes_at_store _ _ (le_bytes 4 v)). by apply of_le_bytes_4.
Qed.

Lemma copy_to_loop_bytes fuel m a i rest :
  0 <= a -> 0 <= i -> 0 <= rest <= Z.of_nat fuel -> a + i + rest < M64 ->
  copy_to_loop fuel m a i rest = bytes_at m (a + i) (Z.to_nat rest).
Proof.
  revert i rest. induction fuel as [|fuel IH]; intros i rest Ha Hi Hr Hb.
  - by replace rest with 0 by lia.
  - cbn [copy_to_loop]. case_if; [by subst|]. rewrite add64_small by lia.
    destruct (aligned (a + i) 8 && (8 <=? rest)) eqn:E8; to_props.
    + rewrite add64_small, IH by lia.
      pose proof (le_bytes_of_le_bytes (bytes_at m (a + i) 8)) as Hle.
      rewrite length_bytes_at in Hle. rewrite Hle.
      replace (Z.to_nat rest) with (8 + Z.to_nat (rest - 8))%nat by lia.
      rewrite bytes_at_app. do 2 f_equal. lia.
    + rewrite add64_small, IH by lia.
      replace (Z.to_nat rest) with (S (Z.to_nat (rest - 1))) by lia.
      rewrite bytes_at_S. do 2 f_equal. lia.
Qed.

Lemma copy_from_loop_store fuel m a i rest :
  0 <= a -> 0 <= i -> (length rest <= fuel)%nat -> a + i + Z.of_nat (length rest) < M64 ->
  forall x, copy_from_loop fuel m a i rest x = store_at m (a + i) rest x.
Proof.
  revert m i rest. induction fuel as [|fuel IH]; intros m i rest Ha Hi Hr Hb x.
  - destruct rest; [|simpl in Hr; lia]. by rewrite store_at_out by (simpl; lia).
  - destruct rest as [|b tail]; [by rewrite store_at_out by (simpl; lia)|].
    cbn [copy_from_loop]. rewrite add64_small by lia.
    destruct (aligned (a + i) 8 && (8 <=? Z.of_nat (length (b :: tail)))) eqn:E8; to_props.
    + rewrite add64_small by lia.
      assert (Ht : length (take 8 (b :: tail)) = 8%nat) by (rewrite length_take; lia).
      pose proof (le_bytes_of_le_bytes (take 8 (b :: tail))) as Hle. rewrite Ht in Hle.
      rewrite Hle, IH by (rewrite ?length_drop; lia).
      rewrite <- (take_drop 8 (b :: tail)) at 3. rewrite <- store_at_app, Ht.
      f_equal. lia.
    + simpl length in *. rewrite add64_small, IH by lia.
      change (b :: tail) with ([b] ++ tail). rewrite <- store_at_app.
      f_equal. simpl. lia.
Qed.

Lemma copy_to_Ret {R D} m self off len (death : D) :
  u64 (self + off) -> 0 <= len ->
  ZERO_REGION_END <= self + off -> self + off + len < M64 ->
  copy_to (R:=R) m self off len death = Ret (bytes_at m (self + off) (Z.to_nat len)).
Proof.
  intros Ha Hl Hz Hb. unfold copy_to. case_if; [by subst|].
  rewrite check_ok by done. cbn. f_equal.
  rewrite copy_to_loop_bytes by lia. f_equal. lia.
Qed.

(** ** The properties *)

(** A bulk copy out of guest memory. The word-at-a-time loop of [copy_to] fills
    the buffer with the bytes at the address in order, and it dies exactly when the
    first byte is inside the zero region or the bytes reach past the address space; a
    copy of nothing never faults. *)
Theorem copy_to_spec {R D} m self off len (death : D) :
  u64 self -> u64 off -> 0 <= len ->
  copy_to (R:=R) m self off len death =
    if len =? 0 then Ret []
    else if (add64 self off <? ZERO_REGION_END) || (M64 <=? add64 self off + len)
    then Died death
    else Ret (bytes_at m (add64 self off) (Z.to_nat len)).
Proof.
  intros Hs Ho Hl. unfold copy_to, check. case_if; [done|].
  pose proof (add64_range self off). case_if; [done|]. cbn. f_equal.
  rewrite copy_to_loop_bytes by lia. f_equal. lia.
Qed.

(** What a bulk copy stores is what a later one reads. After [copy_from] of
    [src], every byte outside the range is as it was and [copy_to] of the same range
    answers [src]. *)
Theorem copy_from_copy_to {R D} stopped ended m m' self off src (death : D) :
  u64 self -> u64 off ->
  copy_from (R:=R) stopped ended m self off src death = Ret m' ->
  copy_to (R:=R) m' self off (Z.of_nat (length src)) death = Ret src /\
  forall x, x < add64 self off \/ add64 self off + Z.of_nat (length src) <= x -> m' x = m x.
Proof.
  intros Hs Ho Hc. unfold copy_from, stop_if_task_ended in Hc.
  destruct ended; [done|]. cbn in Hc. destruct src as [|b src].
  - simplify_eq. auto.
  - inv_bind Hc. simplify_eq. pose proof (check_Ret _ _ _ _ _ Hm) as (->&Hz&Hb).
    pose proof (add64_range self off).
    assert (Hst := copy_from_loop_store (length (b :: src)) m (add64 self off) 0 (b :: src)
      ltac:(lia) ltac:(lia) ltac:(lia) ltac:(lia)).
    rewrite Z.add_0_r in Hst. split.
    + unfold copy_to. case_if; [simpl in *; lia|]. rewrite Hm. cbn [mbind outcome_bind].
      f_equal. rewrite copy_to_loop_bytes, Z.add_0_r by lia.
      rewrite Nat2Z.id.
      transitivity (bytes_at (store_at m (add64 self off) (b :: src)) (add64 self off)
        (length (b :: src))); [apply bytes_at_ext; intros; apply Hst|apply bytes_at_store].
    + intros x Hx. rewrite Hst. by apply store_at_out.
Qed.

Definition sample : memory := fun a => byte_of_Z a.

Lemma copy_to_spec_witness :
  copy_to (R:=unit) sample 0x100000000 6 12 tt =
    if 12 =? 0 then Ret []
    else if (add64 0x100000000 6 <? ZERO_REGION_END) || (M64 <=? add64 0x100000000 6 + 12)
    then Died tt
    else Ret (bytes_at sample (add64 0x100000000 6) (Z.to_nat 12)).
Proof. apply (copy_to_spec sample); vm_compute; repeat split; discriminate. Defined.

Lemma copy_from_copy_to_witness :
  exists m', copy_from (R:=unit) tt false sample 0x100000000 6 [x01; x02; x03] tt = Ret m' /\
  copy_to (R:=unit) m' 0x100000000 6 3 tt = Ret [x01; x02; x03] /\
  forall x, x < add64 0x100000000 6 \/ add64 0x100000000 6 + 3 <= x -> m' x = sample x.
Proof.
  eexists. split; [reflexivity|].
  apply (copy_from_copy_to tt false sample _ 0x100000000 6 [x01; x02; x03] tt);
    [vm_compute; repeat split; discriminate..|reflexivity].
Defined.

End GuestPtr.
