(* ===== verification/Cursor.v ===== *)
(** * Cursor: a read and write position over a list of host ranges
    (src/crates/reims-vgpu-core/src/memory/cursor.rs)

    [Cursor] is the record of the source without its keep-alive reference; the
    ranges it shares are never changed. [WritableCursor] wraps a cursor and adds
    the writes, so the writes are operations on [Cursor] here. [view] is the list
    of addresses from the cursor's position on, and [rest] those it may still
    read: the operations are proved against them. *)

From S2P Require Import Prelude Num MemoryKinds GuestPtr.
Import Memory GuestPtr.

Module Cursor.

(** A host range. *)
Record CursorRange := MkRange { address : Z; rlength : Z }.

Record Cursor := MkCursor {
  ranges : list CursorRange;
  range_index : Z;
  range_offset : Z;
  clength : Z;
  coffset : Z;
}.

(** Why an operation is refused; the source's text is diagnostics. *)
Inductive CursorError : Type :=
| OpPastEnd
| SubPastEnd
| SubOverflow
| TruncatePastEnd
| TruncateBeforeOffset.

Abbreviation cres := (outcome CursorError mdeath).

(** Whether [length] bytes fit from [offset], and from [offset + at]. *)
Definition validate_operation_size (offset cursor_length length : Z) : cres unit :=
  let '(end_, overflow) := overflowing_add64 offset length in
  if overflow || (cursor_length <? length) || (cursor_length <? end_)
  then Raised OpPastEnd else Ret tt.

Definition validate_operation_size_at (offset cursor_length length at_ : Z) : cres unit :=
  let '(start, overflow) := overflowing_add64 offset at_ in
  let failed := overflow ||
    (let '(end_, overflow) := overflowing_add64 start length in
     overflow || (cursor_length <? length) || (cursor_length <? end_)) in
  if failed then Raised OpPastEnd else Ret tt.

(** The checked sum of the ranges' lengths, 0 on overflow. *)
Fixpoint sum_lengths (acc : Z) (rs : list CursorRange) : Z :=
  match rs with
  | [] => acc
  | r :: rs =>
      let '(sum, overflow) := overflowing_add64 acc (rlength r) in
      if overflow then 0 else sum_lengths sum rs
  end.

Definition from_ranges (rs : list CursorRange) : Cursor :=
  MkCursor rs 0 0 (sum_lengths 0 rs) 0.
Definition with_ranges (rs : list CursorRange) : Cursor := from_ranges rs.

(** Behind one empty [{NULL, 0}] range. *)
Definition from_pointer (pointer length : Z) : Cursor :=
  MkCursor [MkRange 0 0; MkRange pointer length] 0 0 length 0.
Definition with_pointer (pointer length : Z) : Cursor := from_pointer pointer length.

(** Range [index]; past the list the cursor dies. *)
Definition range_at (c : Cursor) (index : Z) : cres CursorRange :=
  match ranges c !! Z.to_nat index with
  | Some r => Ret r
  | None => Died (Fatal CursorRangeIndex)
  end.

(** The position [step] bytes on in the current range [range]: past its last byte,
    the next range's first. *)
Definition moved (c : Cursor) (range : CursorRange) (step : Z) : Cursor :=
  let ro := add64 (range_offset c) step in
  if rlength range =? ro
  then MkCursor (ranges c) (add64 (range_index c) 1) 0 (clength c) (coffset c)
  else MkCursor (ranges c) (range_index c) ro (clength c) (coffset c).

Definition with_offset (c : Cursor) (o : Z) : Cursor :=
  MkCursor (ranges c) (range_index c) (range_offset c) (clength c) o.

(** A loop's fuel: every iteration but the last finishes a range. *)
Definition fuel_of (c : Cursor) : nat := S (S (length (ranges c))).

Fixpoint advance_loop (fuel : nat) (c : Cursor) (bytes : Z) : cres Cursor :=
  match fuel with
  | O => Died OutOfFuel
  | S fuel =>
      if bytes =? 0 then Ret c else
      range ← range_at c (range_index c);
      let step := Z.min bytes (sub64 (rlength range) (range_offset c)) in
      advance_loop fuel (moved c range step) (sub64 bytes step)
  end.

(** Moves [bytes] on, clamping at the end without walking the ranges. *)
Definition advance (c : Cursor) (bytes : Z) : cres Cursor :=
  let '(new_offset, overflow) := overflowing_add64 (coffset c) bytes in
  if overflow || (clength c <=? new_offset) then Ret (with_offset c (clength c))
  else c' ← advance_loop (fuel_of c) c bytes; Ret (with_offset c' new_offset).

(** [take_mut] and [take] die when the buffer holds fewer than [step] bytes. *)
Definition take_room (room step : Z) : cres Z :=
  if step <=? room then Ret (room - step) else Died (Fatal CursorBufferEnd).

Definition take_bytes (from : list byte) (step : Z) : cres (list byte * list byte) :=
  if step <=? Z.of_nat (length from)
  then Ret (take (Z.to_nat step) from, drop (Z.to_nat step) from)
  else Died (Fatal CursorBufferEnd).

(** Fills a buffer of [room] bytes, [bytes] of them still to read. *)
Fixpoint read_loop (fuel : nat) (m : memory) (c : Cursor) (bytes room : Z)
    : cres (Cursor * list byte) :=
  match fuel with
  | O => Died OutOfFuel
  | S fuel =>
      if bytes =? 0 then Ret (c, []) else
      range ← range_at c (range_index c);
      let step := Z.min bytes (sub64 (rlength range) (range_offset c)) in
      room ← take_room room step;
      dst ← (if step =? 0 then Ret []
             else copy_to m (add64 (address range) (range_offset c)) 0 step
                    (Fatal CursorReadNull));
      let c := moved c range step in
      let c := with_offset c (add64 (coffset c) step) in
      '(c, tail) ← read_loop fuel m c (sub64 bytes step) room;
      Ret (c, dst ++ tail)
  end.

(** Reads [n] bytes and moves past them. *)
Definition read_bytes (m : memory) (c : Cursor) (n : Z) : cres (Cursor * list byte) :=
  _ ← validate_operation_size (coffset c) (clength c) n;
  read_loop (fuel_of c) m c n n.

Fixpoint read_at_loop (fuel : nat) (m : memory) (c : Cursor) (bytes room at_ index position : Z)
    : cres (list byte) :=
  match fuel with
  | O => Died OutOfFuel
  | S fuel =>
      if bytes =? 0 then Ret [] else
      range ← range_at c index;
      let position := add64 position at_ in
      if rlength range <? position then
        read_at_loop fuel m c bytes room (sub64 position (rlength range)) (add64 index 1) 0
      else
        let step := Z.min bytes (sub64 (rlength range) position) in
        room ← take_room room step;
        dst ← (if step =? 0 then Ret []
               else copy_to m (add64 (address range) position) 0 step (Fatal CursorReadNull));
        tail ← read_at_loop fuel m c (sub64 bytes step) room 0 (add64 index 1) 0;
        Ret (dst ++ tail)
  end.

(** Reads [n] bytes [at_] bytes on; the cursor does not move. *)
Definition read_bytes_at (m : memory) (c : Cursor) (at_ n : Z) : cres (list byte) :=
  _ ← validate_operation_size_at (coffset c) (clength c) n at_;
  read_at_loop (fuel_of c) m c n n at_ (range_index c) (range_offset c).

(** [read] and [read_at] of a [T] of [size] bytes: the value's bytes.
    [read_or_raise] turns a refused read into the raise the caller's [OnFault]
    decides. *)
Definition read (m : memory) (c : Cursor) (size : Z) : cres (Cursor * list byte) :=
  read_bytes m c size.
Definition read_at (m : memory) (c : Cursor) (at_ size : Z) : cres (list byte) :=
  read_bytes_at m c at_ size.
Definition read_or_raise (m : memory) (c : Cursor) (on : OnFault) (size : Z)
    : mres (Cursor * list byte) :=
  match read_bytes m c size with
  | Ret v => Ret v
  | Raised _ => throw on CursorReadFailed
  | Died d => Died d
  end.

(** [length - offset], wrapping. *)
Definition remaining (c : Cursor) : Z := sub64 (clength c) (coffset c).

(** The child covers the parent's next [sub_length] bytes, which the parent
    advances past: the parent, then the child. *)
Definition child_of (parent : Cursor) (sub_length : Z) : cres (Cursor * Cursor) :=
  let child := MkCursor (ranges parent) (range_index parent) (range_offset parent)
                 sub_length 0 in
  parent ← advance parent sub_length; Ret (parent, child).

Definition child_at (other : Cursor) (at_ sub_length : Z) : cres Cursor :=
  let child := MkCursor (ranges other) (range_index other) (range_offset other)
                 (add64 at_ sub_length) 0 in
  advance child at_.

Definition sub_cursor (c : Cursor) (sub_length : Z) : cres (Cursor * Cursor) :=
  if remaining c <? sub_length then Raised SubPastEnd
  else if (overflowing_add64 (coffset c) sub_length).2 then Raised SubOverflow
  else child_of c sub_length.

Definition sub_cursor_at (c : Cursor) (at_ sub_length : Z) : cres Cursor :=
  let '(start, overflow) := overflowing_add64 at_ (coffset c) in
  let '(end_, overflow) :=
    if overflow then (0, true) else overflowing_add64 start sub_length in
  if overflow then Raised SubOverflow
  else if clength c <? end_ then Raised SubPastEnd
  else child_at c at_ sub_length.

Definition truncate_to (c : Cursor) (new_length : Z) : cres Cursor :=
  if clength c <? new_length then Raised TruncatePastEnd
  else if new_length <? coffset c then Raised TruncateBeforeOffset
  else Ret (MkCursor (ranges c) (range_index c) (range_offset c) new_length (coffset c)).

(** ** The writes *)

Section Writes.
Context (stopped : mdeath) (task_ended : bool).

Fixpoint write_loop (fuel : nat) (m : memory) (c : Cursor) (bytes : Z) (from : list byte)
    : cres (Cursor * memory) :=
  match fuel with
  | O => Died OutOfFuel
  | S fuel =>
      if bytes =? 0 then Ret (c, m) else
      range ← range_at c (range_index c);
      let step := Z.min bytes (sub64 (rlength range) (range_offset c)) in
      '(src, from) ← take_bytes from step;
      m ← (if step =? 0 then Ret m
           else copy_from stopped task_ended m
                  (add64 (address range) (range_offset c)) 0 src (Fatal CursorWriteNull));
      let c := moved c range step in
      let c := with_offset c (add64 (coffset c) step) in
      write_loop fuel m c (sub64 bytes step) from
  end.

(** Writes [from] and moves past it. *)
Definition write_bytes (m : memory) (c : Cursor) (from : list byte)
    : cres (Cursor * memory) :=
  let bytes := Z.of_nat (length from) in
  _ ← validate_operation_size (coffset c) (clength c) bytes;
  write_loop (fuel_of c) m c bytes from.

Fixpoint write_at_loop (fuel : nat) (m : memory) (c : Cursor) (bytes : Z)
    (from : list byte) (at_ index position : Z) : cres memory :=
  match fuel with
  | O => Died OutOfFuel
  | S fuel =>
      if bytes =? 0 then Ret m else
      range ← range_at c index;
      let position := add64 position at_ in
      if rlength range <? position then
        write_at_loop fuel m c bytes from (sub64 position (rlength range))
          (add64 index 1) 0
      else
        let step := Z.min bytes (sub64 (rlength range) position) in
        '(src, from) ← take_bytes from step;
        m ← (if step =? 0 then Ret m
             else copy_from stopped task_ended m (add64 (address range) position) 0 src
                    (Fatal CursorWriteNull));
        write_at_loop fuel m c (sub64 bytes step) from 0 (add64 index 1) 0
  end.

(** Writes [from] [at_] bytes on; the cursor does not move. *)
Definition write_bytes_at (m : memory) (c : Cursor) (at_ : Z) (from : list byte)
    : cres memory :=
  let bytes := Z.of_nat (length from) in
  _ ← validate_operation_size_at (coffset c) (clength c) bytes at_;
  write_at_loop (fuel_of c) m c bytes from at_ (range_index c) (range_offset c).

(** A value's bytes, written by [write] and [write_at]. *)
Definition write (m : memory) (c : Cursor) (value : list byte) : cres (Cursor * memory) :=
  write_bytes m c value.
Definition write_at (m : memory) (c : Cursor) (at_ : Z) (value : list byte)
    : cres memory := write_bytes_at m c at_ value.
End Writes.

Definition writable_sub_cursor (c : Cursor) (sub_length : Z) : cres (Cursor * Cursor) :=
  sub_cursor c sub_length.
Definition writable_sub_cursor_at (c : Cursor) (at_ sub_length : Z) : cres Cursor :=
  sub_cursor_at c at_ sub_length.

(** ** The bytes a cursor stands for *)

(** The addresses of a range, in order. *)
Definition span (r : CursorRange) : list Z := seqZ (address r) (rlength r).

(** The ranges from the cursor's current one on. *)
Definition left (c : Cursor) : list CursorRange :=
  drop (Z.to_nat (range_index c)) (ranges c).

(** The addresses from the cursor's position on, and those it may still read. *)
Definition view (c : Cursor) : list Z :=
  match left c with
  | [] => []
  | r :: rs =>
      seqZ (address r + range_offset c) (rlength r - range_offset c)
        ++ concat (map span rs)
  end.
Definition rest (c : Cursor) : list Z :=
  take (Z.to_nat (clength c - coffset c)) (view c).

(** A range of host memory a copy does not fault on. *)
Definition range_ok (r : CursorRange) : Prop :=
  0 <= rlength r /\ 0 <= address r /\
  (rlength r = 0 \/ ZERO_REGION_END <= address r /\ address r + rlength r < M64).

Definition total (rs : list CursorRange) : Z :=
  fold_right (fun r acc => rlength r + acc) 0 rs.

(** The ranges are accessible and few enough for 64 bits. *)
Record ranges_ok (rs : list CursorRange) : Prop := {
  ro_each : Forall range_ok rs;
  ro_total : total rs < M64;
  ro_count : Z.of_nat (length rs) < M64;
}.

(** The position is inside the current range, or at its end. *)
Record pos_ok (c : Cursor) : Prop := {
  po_index : 0 <= range_index c <= Z.of_nat (length (ranges c));
  po_offset : 0 <= range_offset c;
  po_current : match left c with [] => range_offset c = 0
               | r :: _ => range_offset c <= rlength r end;
}.

Record wf (c : Cursor) : Prop := {
  wf_ranges : ranges_ok (ranges c);
  wf_pos : pos_ok c;
  wf_offset : 0 <= coffset c <= clength c;
  wf_length : clength c < M64;
  wf_view : clength c - coffset c <= Z.of_nat (length (view c));
}.

(** [bs] stored byte by byte at the addresses [xs]. *)
Fixpoint scatter (m : memory) (xs : list Z) (bs : list byte) : memory :=
  match xs, bs with
  | x :: xs, b :: bs => scatter (store_at m x [b]) xs bs
  | _, _ => m
  end.

(** ** Facts *)

Lemma total_app rs1 rs2 : total (rs1 ++ rs2) = total rs1 + total rs2.
Proof. induction rs1 as [|r rs1 IH]; simpl; [done|]. rewrite IH. lia. Qed.

Lemma total_nonneg rs : Forall range_ok rs -> 0 <= total rs.
Proof. induction 1 as [|r rs [H _] _ IH]; simpl; lia. Qed.

Lemma length_concat_span rs :
  Forall range_ok rs -> Z.of_nat (length (concat (map span rs))) = total rs.
Proof.
  induction 1 as [|r rs [H _] _ IH]; [done|].
  cbn [map concat total fold_right]. fold (total rs). unfold span at 1.
  rewrite length_app, length_seqZ. lia.
Qed.

Lemma seqZ_take_drop a n k :
  0 <= k <= n -> seqZ a n = seqZ a k ++ seqZ (a + k) (n - k).
Proof. intros H. rewrite <- seqZ_app by lia. f_equal. lia. Qed.

Lemma bytes_at_seqZ m a n : bytes_at m a n = map m (seqZ a (Z.of_nat n)).
Proof.
  revert a. induction n as [|n IH]; intros a; [done|].
  rewrite bytes_at_S, IH, (seqZ_cons a) by lia. simpl. do 3 f_equal; lia.
Qed.

Lemma take_seqZ_app a n xs k :
  0 <= n <= k ->
  take (Z.to_nat k) (seqZ a n ++ xs) = seqZ a n ++ take (Z.to_nat (k - n)) xs.
Proof.
  intros H. rewrite take_app, take_ge by (rewrite length_seqZ; lia).
  do 2 f_equal. rewrite length_seqZ. lia.
Qed.

Lemma drop_seqZ_app a n xs k :
  0 <= n <= k -> drop (Z.to_nat k) (seqZ a n ++ xs) = drop (Z.to_nat (k - n)) xs.
Proof.
  intros H. rewrite drop_app, drop_ge by (rewrite length_seqZ; lia).
  simpl. f_equal. rewrite length_seqZ. lia.
Qed.

Lemma length_rest c :
  wf c -> Z.of_nat (length (rest c)) = clength c - coffset c.
Proof. intros [_ _ ? _ ?]. unfold rest. rewrite length_take. lia. Qed.

Lemma left_ok c : ranges_ok (ranges c) -> Forall range_ok (left c) /\ total (left c) < M64.
Proof.
  intros [He Ht _]. unfold left.
  rewrite <- (take_drop (Z.to_nat (range_index c)) (ranges c)) in He, Ht.
  apply list.Forall_app in He as [H1 H2]. split; [done|].
  rewrite total_app in Ht. pose proof (total_nonneg _ H1). lia.
Qed.

(** With bytes left there is a current range, and the step stays inside it. *)
Lemma current c :
  pos_ok c -> 0 < Z.of_nat (length (view c)) ->
  exists r rs, left c = r :: rs /\ range_at c (range_index c) = Ret r /\
    0 <= range_offset c <= rlength r.
Proof.
  intros [Hi Ho Hc] Hv. unfold view in Hv.
  destruct (left c) as [|r rs] eqn:E; [simpl in Hv; lia|].
  exists r, rs. split; [done|]. split; [|lia].
  unfold range_at, left in *. apply (f_equal (lookup 0%nat)) in E.
  rewrite lookup_drop, Nat.add_0_r in E. by rewrite E.
Qed.

(** At range [i], [o] bytes in. *)
Definition place (c : Cursor) (i o : Z) : Cursor :=
  MkCursor (ranges c) i o (clength c) (coffset c).

(** Leaving the current range behind. *)
Lemma next_view c r rs :
  ranges_ok (ranges c) -> pos_ok c -> left c = r :: rs ->
  let c' := place c (add64 (range_index c) 1) 0 in
  view c = seqZ (address r + range_offset c) (rlength r - range_offset c) ++ view c' /\
  pos_ok c' /\ left c' = rs.
Proof.
  intros Hr [Hi Ho Hc] Hl c'. pose proof (left_ok _ Hr) as [He _].
  rewrite Hl in He. apply list.Forall_cons in He as [_ He].
  pose proof (ro_count _ Hr) as Hn.
  assert (Hlt : range_index c < Z.of_nat (length (ranges c))).
  { apply (f_equal length) in Hl. unfold left in Hl. rewrite length_drop in Hl. simpl in Hl. lia. }
  assert (Hl' : left c' = rs).
  { unfold left, c' in *. cbn [ranges range_index place]. rewrite add64_small by lia.
    replace (Z.to_nat (range_index c + 1)) with (Z.to_nat (range_index c) + 1)%nat by lia.
    by rewrite <- drop_drop, Hl. }
  split; [|split; [|done]].
  - unfold view. rewrite Hl, Hl'. f_equal. destruct rs as [|r' rs']; [done|]. simpl.
    unfold span at 1. f_equal. f_equal; lia.
  - split; [unfold c'; simpl; rewrite add64_small by lia; lia|done|].
    rewrite Hl'. destruct rs as [|r' rs']; [done|].
    apply list.Forall_cons in He as [[? _] _]. done.
Qed.

(** What is in view is inside the ranges. *)
Lemma view_bound c r rs :
  ranges_ok (ranges c) -> pos_ok c -> left c = r :: rs ->
  range_ok r /\ range_offset c <= rlength r /\ rlength r < M64 /\
  range_offset c + Z.of_nat (length (view c)) < M64.
Proof.
  intros Hr [_ Ho Hc] Hl. pose proof (left_ok _ Hr) as [He Ht].
  rewrite Hl in *. apply list.Forall_cons in He as [Hok He].
  split; [done|]. split; [done|]. simpl in Ht. fold (total rs) in Ht. unfold view. rewrite Hl.
  pose proof (length_concat_span _ He). pose proof (total_nonneg _ He). split; [lia|]. rewrite length_app, length_seqZ. lia.
Qed.

(** One step of any of the loops: [step] addresses leave the view, and the loop is
    done or has left a range behind. *)
Lemma step_view c r rs bytes :
  ranges_ok (ranges c) -> pos_ok c -> left c = r :: rs ->
  0 < bytes <= Z.of_nat (length (view c)) ->
  let step := Z.min bytes (sub64 (rlength r) (range_offset c)) in
  0 <= step <= bytes /\ step <= rlength r - range_offset c /\
  view c = seqZ (address r + range_offset c) step ++ view (moved c r step) /\
  pos_ok (moved c r step) /\
  sub64 bytes step = bytes - step /\
  (bytes - step = 0 \/ (length (left (moved c r step)) < length (left c))%nat).
Proof.
  intros Hr Hp Hl Hb. pose proof (view_bound _ _ _ Hr Hp Hl) as ((?&?&_)&Hc&?&Hv).
  destruct (next_view _ _ _ Hr Hp Hl) as (Hnv&Hnp&Hnl).
  pose proof Hp as [Hi Ho _]. cbv zeta. rewrite (sub64_small (rlength r)) by lia.
  set (step := Z.min bytes (rlength r - range_offset c)).
  assert (Hs : 0 <= step <= bytes /\ step <= rlength r - range_offset c) by lia.
  split; [lia|]. split; [lia|].
  rewrite (sub64_small bytes) by lia.
  unfold moved. rewrite (add64_small (range_offset c)) by lia. case_if.
  - fold (place c (add64 (range_index c) 1) 0).
    replace step with (rlength r - range_offset c) by lia.
    split; [done|]. split; [done|]. split; [done|]. right. rewrite Hnl, Hl. simpl. lia.
  - fold (place c (range_index c) (range_offset c + step)).
    split.
    { unfold view. change (left (place _ _ _)) with (left c). rewrite Hl, app_assoc. f_equal.
      rewrite (seqZ_take_drop _ (rlength r - range_offset c) step) by lia.
      cbn [place range_offset]. do 2 f_equal; lia. }
    split; [|split; [done|left; lia]].
    split; [done|cbn; lia|]. change (left (place _ _ _)) with (left c). rewrite Hl. cbn. lia.
Qed.

Lemma moved_same c r step :
  ranges (moved c r step) = ranges c /\ clength (moved c r step) = clength c /\
  coffset (moved c r step) = coffset c.
Proof. unfold moved. by case_if. Qed.

(** ** The loops *)

(** What a loop that moves the cursor [bytes] on leaves: [c'] is [c] moved. *)
Definition moved_on (c c' : Cursor) (bytes : Z) : Prop :=
  ranges c' = ranges c /\ clength c' = clength c /\ pos_ok c' /\
  view c' = drop (Z.to_nat bytes) (view c).

Lemma moved_on_step c r c' bytes step :
  0 <= step <= bytes ->
  view c = seqZ (address r + range_offset c) step ++ view (moved c r step) ->
  moved_on (moved c r step) c' (bytes - step) -> moved_on c c' bytes.
Proof.
  intros Hs Hv (Hr&Hl&Hp&Hd). destruct (moved_same c r step) as (Hmr&Hml&_).
  split; [congruence|]. split; [congruence|]. split; [done|].
  by rewrite Hv, drop_seqZ_app.
Qed.

(** Fuel enough for the [bytes] still to go. *)
Definition fuel_ok (fuel : nat) (c : Cursor) (bytes : Z) : Prop :=
  (0 < fuel)%nat /\ (bytes = 0 \/ (length (left c) < fuel)%nat).

(** Where a loop copies [step] bytes from, the copy does not fault. *)
Definition copy_ok (a o step : Z) : Prop :=
  step = 0 \/
  0 < step /\ add64 a o = a + o /\ ZERO_REGION_END <= a + o /\ a + o + step < M64.

Record ready (fuel : nat) (c : Cursor) (bytes : Z) : Prop := {
  rd_ranges : ranges_ok (ranges c);
  rd_pos : pos_ok c;
  rd_bytes : 0 <= bytes <= Z.of_nat (length (view c));
  rd_fuel : fuel_ok fuel c bytes;
}.

Lemma pos_ok_with_offset c o : pos_ok c -> pos_ok (with_offset c o).
Proof. intros [? ? ?]. by split. Qed.

Lemma ready_with_offset fuel c o bytes :
  ready fuel c bytes -> ready fuel (with_offset c o) bytes.
Proof. intros [? ? ? ?]. split; [done|by apply pos_ok_with_offset|done|done]. Qed.

(** What every iteration does: the step it takes, the addresses it covers, and that
    the loop is ready for the bytes left. *)
Lemma iteration fuel c bytes :
  ready (S fuel) c bytes -> bytes <> 0 ->
  exists r, range_at c (range_index c) = Ret r /\
    let step := Z.min bytes (sub64 (rlength r) (range_offset c)) in
    let c' := moved c r step in
    0 <= step <= bytes /\ sub64 bytes step = bytes - step /\
    copy_ok (address r) (range_offset c) step /\
    view c = seqZ (address r + range_offset c) step ++ view c' /\
    ready fuel c' (bytes - step).
Proof.
  intros [Hr Hp Hb [Hf0 Hf]] Hne.
  destruct (current c Hp ltac:(lia)) as (r&rs&Hl&Hat&Ho).
  exists r. split; [done|]. intros step c'.
  destruct (step_view _ _ _ bytes Hr Hp Hl ltac:(lia)) as (Hs&Hsr&Hv&Hp'&Hsub&Hd).
  destruct (view_bound _ _ _ Hr Hp Hl) as ((?&?&Hacc)&_&Hrl&Hvl).
  destruct (moved_same c r step) as (Hmr&_&_). fold step in Hs, Hsr, Hv, Hp', Hsub, Hd.
  fold c' in Hv, Hp', Hd, Hmr.
  split; [done|]. split; [done|]. split; [|split; [done|split; [congruence|done| |]]].
  - unfold copy_ok. destruct (Z.eq_dec step 0); [by left|right].
    rewrite add64_small by (unfold ZERO_REGION_END in *; lia). lia.
  - rewrite Hv, length_app, length_seqZ in Hb. lia.
  - unfold fuel_ok. rewrite Hl in *. simpl in *. lia.
Qed.

Lemma advance_loop_spec fuel c bytes :
  ready fuel c bytes ->
  exists c', advance_loop fuel c bytes = Ret c' /\ moved_on c c' bytes.
Proof.
  revert c bytes. induction fuel as [|fuel IH]; intros c bytes Hrd.
  { destruct Hrd as [_ _ _ [? _]]. lia. }
  cbn [advance_loop]. case_if; [subst; exists c; split; [done|]; by destruct Hrd|].
  destruct (iteration _ _ _ Hrd Hif) as (r&->&Hs&Hsub&_&Hv&Hrd'). cbn [mbind outcome_bind].
  rewrite Hsub. destruct (IH _ _ Hrd') as (c'&->&Hm).
  exists c'. split; [done|]. by apply (moved_on_step _ r _ _ _ Hs Hv).
Qed.

(** One iteration's copy out of guest memory. *)
Lemma copy_out m a o step :
  0 <= step -> copy_ok a o step ->
  (if step =? 0 then Ret [] else copy_to m (add64 a o) 0 step (Fatal CursorReadNull))
  = (Ret (map m (seqZ (a + o) step)) : cres (list byte)).
Proof.
  intros Hs Hok. case_if; [by subst|]. destruct Hok as [|(?&->&?&?)]; [done|].
  rewrite copy_to_Ret by (unfold ZERO_REGION_END in *; lia).
  rewrite Z.add_0_r, bytes_at_seqZ. do 3 f_equal. lia.
Qed.

Lemma read_loop_spec fuel m c bytes :
  ready fuel c bytes -> 0 <= coffset c -> coffset c + bytes < M64 ->
  exists c', read_loop fuel m c bytes bytes
      = Ret (c', map m (take (Z.to_nat bytes) (view c))) /\
    moved_on c c' bytes /\ coffset c' = coffset c + bytes.
Proof.
  revert c bytes. induction fuel as [|fuel IH]; intros c bytes Hrd Ho Hob.
  { destruct Hrd as [_ _ _ [? _]]. lia. }
  cbn [read_loop]. case_if; [subst; exists c; split; [done|]; destruct Hrd; split; [done|lia]|].
  destruct (iteration _ _ _ Hrd Hif) as (r&->&Hs&Hsub&Hok&Hv&Hrd').
  cbn [mbind outcome_bind]. set (step := Z.min _ _) in *.
  unfold take_room. rewrite (proj2 (Z.leb_le step bytes)) by lia. cbn [mbind outcome_bind].
  rewrite copy_out by (done || lia). cbn [mbind outcome_bind]. rewrite Hsub.
  destruct (moved_same c r step) as (_&_&->). rewrite add64_small by lia.
  destruct (IH (with_offset (moved c r step) (coffset c + step)) (bytes - step))
    as (c'&->&Hm&Hc'); [by apply ready_with_offset|cbn; lia|cbn; lia|].
  exists c'. cbn [mbind outcome_bind]. split; [|split; [|rewrite Hc'; cbn; lia]].
  - rewrite Hv, take_seqZ_app, map_app by done. done.
  - by apply (moved_on_step _ r _ _ _ Hs Hv).
Qed.

(** What every iteration of the loops that do not move the cursor does: the current
    range is skipped, or [step] of its bytes are the next ones. *)
Lemma at_iteration fuel c i o at_ bytes :
  ready (S fuel) (place c i o) (at_ + bytes) -> 0 <= at_ -> 0 < bytes ->
  let c' := place c (add64 i 1) 0 in
  exists r, range_at c i = Ret r /\ add64 o at_ = o + at_ /\
    if rlength r <? o + at_
    then let skip := sub64 (o + at_) (rlength r) in
      0 <= skip /\ ready fuel c' (skip + bytes) /\
      drop (Z.to_nat at_) (view (place c i o)) = drop (Z.to_nat skip) (view c')
    else let step := Z.min bytes (sub64 (rlength r) (o + at_)) in
      0 <= step <= bytes /\ sub64 bytes step = bytes - step /\
      copy_ok (address r) (o + at_) step /\ ready fuel c' (0 + (bytes - step)) /\
      take (Z.to_nat bytes) (drop (Z.to_nat at_) (view (place c i o)))
      = seqZ (address r + (o + at_)) step ++ take (Z.to_nat (bytes - step)) (view c').
Proof.
  intros [Hr Hp Hb [Hf0 Hf]] Ha Hne c'.
  destruct (current _ Hp ltac:(lia)) as (r&rs&Hl&Hat&Ho).
  destruct (view_bound _ _ _ Hr Hp Hl) as ((?&?&Hacc)&_&Hrl&Hvl).
  destruct (next_view _ _ _ Hr Hp Hl) as (Hv&Hp'&Hl'). rewrite Hl in Hf. simpl in Hf.
  change (place (place c i o) _ _) with c' in *. cbn [place range_offset] in *.
  exists r. split; [done|]. split; [apply add64_small; lia|].
  pose proof Hv as Hlen. apply (f_equal length) in Hlen.
  rewrite length_app, length_seqZ in Hlen.
  case_if; cbv zeta.
  - rewrite sub64_small by lia. split; [lia|]. split.
    + split; [done|done|lia|]. unfold fuel_ok. rewrite Hl'. lia.
    + rewrite Hv, drop_seqZ_app by lia. do 2 f_equal. lia.
  - rewrite (sub64_small (rlength r)) by lia.
    set (step := Z.min bytes (rlength r - (o + at_))).
    assert (Hs : 0 <= step <= bytes /\ step <= rlength r - (o + at_)) by lia.
    split; [lia|]. split; [apply sub64_small; lia|]. split; [|split].
    + unfold copy_ok. destruct (Z.eq_dec step 0); [by left|right].
      rewrite add64_small by (unfold ZERO_REGION_END in *; lia). lia.
    + split; [done|done|lia|]. unfold fuel_ok. rewrite Hl'. lia.
    + rewrite Hv, (seqZ_take_drop _ (rlength r - o) at_), <- app_assoc by lia.
      rewrite drop_app_length' by (rewrite length_seqZ; lia).
      rewrite <- Z.add_assoc. replace (rlength r - o - at_) with (rlength r - (o + at_)) by lia.
      destruct (Z.le_gt_cases bytes (rlength r - (o + at_))).
      * replace step with bytes by lia. rewrite Z.sub_diag, app_nil_r.
        rewrite (seqZ_take_drop _ (rlength r - (o + at_)) bytes), <- app_assoc by lia.
        by rewrite take_seqZ_app, Z.sub_diag, app_nil_r by lia.
      * replace step with (rlength r - (o + at_)) by lia. by rewrite take_seqZ_app by lia.
Qed.

Lemma read_at_loop_spec fuel m c bytes at_ i o :
  ready fuel (place c i o) (at_ + bytes) -> 0 <= at_ -> 0 <= bytes ->
  read_at_loop fuel m c bytes bytes at_ i o
  = Ret (map m (take (Z.to_nat bytes) (drop (Z.to_nat at_) (view (place c i o))))).
Proof.
  revert bytes at_ i o. induction fuel as [|fuel IH]; intros bytes at_ i o Hrd Ha Hb.
  { destruct Hrd as [_ _ _ [? _]]. lia. }
  cbn [read_at_loop]. case_if; [by subst|].
  destruct (at_iteration _ _ _ _ _ _ Hrd Ha ltac:(lia)) as (r&->&->&Hit).
  cbn [mbind outcome_bind]. destruct (rlength r <? o + at_).
  - destruct Hit as (Hk&Hrd'&->). by rewrite IH.
  - destruct Hit as (Hs&Hsub&Hok&Hrd'&->). set (step := Z.min _ _) in *.
    unfold take_room. rewrite (proj2 (Z.leb_le step bytes)) by lia. cbn [mbind outcome_bind].
    rewrite copy_out by (done || lia). cbn [mbind outcome_bind]. rewrite Hsub, IH by (done || lia).
    cbn [mbind outcome_bind]. by rewrite map_app, drop_0.
Qed.

(** ** What the writes store *)

Lemma scatter_ext m m' xs bs x :
  (forall y, m y = m' y) -> scatter m xs bs x = scatter m' xs bs x.
Proof.
  revert m m' bs. induction xs as [|y xs IH]; intros m m' [|b bs] H; [done..|].
  apply IH. intros z. unfold store_at. by rewrite H.
Qed.

Lemma scatter_app m xs1 xs2 bs1 bs2 :
  length xs1 = length bs1 ->
  scatter m (xs1 ++ xs2) (bs1 ++ bs2) = scatter (scatter m xs1 bs1) xs2 bs2.
Proof.
  revert m bs1. induction xs1 as [|y xs1 IH]; intros m [|b bs1] H; try done.
  simpl. apply IH. simpl in H. lia.
Qed.

Lemma scatter_seqZ m a bs x :
  scatter m (seqZ a (Z.of_nat (length bs))) bs x = store_at m a bs x.
Proof.
  revert m a. induction bs as [|b bs IH]; intros m a; [by rewrite store_at_out by (simpl; lia)|].
  simpl length. rewrite seqZ_cons by lia. cbn [scatter].
  replace (Z.pred (Z.of_nat (S (length bs)))) with (Z.of_nat (length bs)) by lia.
  rewrite IH. apply (store_at_app m a [b] bs).
Qed.

Lemma scatter_out m xs bs x : x ∉ xs -> scatter m xs bs x = m x.
Proof.
  revert m bs. induction xs as [|y xs IH]; intros m [|b bs] H; [done..|].
  apply not_elem_of_cons in H as [Hy H]. cbn [scatter]. rewrite IH by done.
  apply store_at_out. simpl. lia.
Qed.

Lemma scatter_in m xs bs :
  NoDup xs -> length xs = length bs -> map (scatter m xs bs) xs = bs.
Proof.
  revert m bs. induction xs as [|y xs IH]; intros m [|b bs] Hn Hl; try done.
  apply list.NoDup_cons in Hn as [Hy Hn]. cbn [map scatter]. f_equal.
  - rewrite scatter_out by done. unfold store_at. cbn [length].
    destruct (Z.leb_spec y y), (Z.ltb_spec y (y + Z.of_nat 1)); try lia.
    simpl. by rewrite Z.sub_diag.
  - apply IH; [done|]. simpl in Hl. lia.
Qed.

(** One iteration's copy into guest memory, on a thread of a task that has not
    ended. *)
Lemma copy_in stopped m a o step src :
  Z.of_nat (length src) = step -> copy_ok a o step ->
  exists m', (if step =? 0 then Ret m
    else copy_from stopped false m (add64 a o) 0 src (Fatal CursorWriteNull))
    = (Ret m' : cres memory) /\
    forall x, m' x = scatter m (seqZ (a + o) step) src x.
Proof.
  intros Hl Hok. subst step. case_if.
  { exists m. split; [done|]. by destruct src. }
  destruct Hok as [|(?&->&?&?)]; [done|]. unfold copy_from, stop_if_task_ended.
  destruct src as [|b src']; [done|]. set (src := b :: src') in *.
  cbn [mbind outcome_bind]. rewrite check_ok by (unfold ZERO_REGION_END in *; lia).
  eexists. split; [done|]. intros x.
  rewrite copy_from_loop_store, scatter_seqZ by (unfold ZERO_REGION_END in *; lia).
  by rewrite !Z.add_0_r.
Qed.

Lemma write_loop_spec stopped fuel m c from :
  let bytes := Z.of_nat (length from) in
  ready fuel c bytes -> 0 <= coffset c -> coffset c + bytes < M64 ->
  exists c' m', write_loop stopped false fuel m c bytes from = Ret (c', m') /\
    (forall x, m' x = scatter m (take (Z.to_nat bytes) (view c)) from x) /\
    moved_on c c' bytes /\ coffset c' = coffset c + bytes.
Proof.
  cbv zeta. revert m c from. induction fuel as [|fuel IH]; intros m c from Hrd Ho Hob.
  { destruct Hrd as [_ _ _ [? _]]. lia. }
  cbn [write_loop]. case_if.
  { exists c, m. split; [done|]. destruct from; [|done]. destruct Hrd.
    split; [done|]. split; [done|cbn; lia]. }
  destruct (iteration _ _ _ Hrd Hif) as (r&->&Hs&Hsub&Hok&Hv&Hrd').
  cbn [mbind outcome_bind]. set (step := Z.min _ _) in *.
  unfold take_bytes. rewrite (proj2 (Z.leb_le step _)) by lia. cbn [mbind outcome_bind].
  set (src := take (Z.to_nat step) from) in *. set (tl := drop (Z.to_nat step) from) in *.
  assert (Hsrc : Z.of_nat (length src) = step) by (unfold src; rewrite length_take; lia).
  assert (Htl : Z.of_nat (length tl) = Z.of_nat (length from) - step)
    by (unfold tl; rewrite length_drop; lia).
  destruct (copy_in stopped m _ _ _ src Hsrc Hok) as (m1&->&Hm1).
  cbn [mbind outcome_bind]. rewrite Hsub, <- Htl.
  destruct (moved_same c r step) as (_&_&->). rewrite add64_small by lia.
  destruct (IH m1 (with_offset (moved c r step) (coffset c + step)) tl)
    as (c'&m'&->&Hm'&Hm&Hc'); [rewrite Htl; by apply ready_with_offset|cbn; lia|cbn; lia|].
  exists c', m'. split; [done|]. split; [|split; [|rewrite Hc'; cbn; lia]].
  - intros x. rewrite Hm', Hv, take_seqZ_app, <- Htl by done.
    rewrite <- (take_drop (Z.to_nat step) from). fold src tl. rewrite scatter_app by (rewrite length_seqZ; lia).
    by apply scatter_ext.
  - rewrite Htl in Hm. by apply (moved_on_step _ r _ _ _ Hs Hv).
Qed.

Lemma write_at_loop_spec stopped fuel m c from at_ i o :
  let bytes := Z.of_nat (length from) in
  ready fuel (place c i o) (at_ + bytes) -> 0 <= at_ ->
  exists m', write_at_loop stopped false fuel m c bytes from at_ i o = Ret m' /\
    forall x, m' x = scatter m
      (take (Z.to_nat bytes) (drop (Z.to_nat at_) (view (place c i o)))) from x.
Proof.
  cbv zeta. revert m from at_ i o. induction fuel as [|fuel IH]; intros m from at_ i o Hrd Ha.
  { destruct Hrd as [_ _ _ [? _]]. lia. }
  cbn [write_at_loop]. case_if; [by destruct from; [exists m|]|].
  destruct (at_iteration _ _ _ _ _ _ Hrd Ha ltac:(lia)) as (r&->&->&Hit).
  cbn [mbind outcome_bind]. destruct (rlength r <? o + at_).
  - destruct Hit as (Hk&Hrd'&->). by apply IH.
  - destruct Hit as (Hs&Hsub&Hok&Hrd'&->). set (step := Z.min _ _) in *.
    unfold take_bytes. rewrite (proj2 (Z.leb_le step _)) by lia. cbn [mbind outcome_bind].
    set (src := take (Z.to_nat step) from) in *. set (tl := drop (Z.to_nat step) from) in *.
    assert (Hsrc : Z.of_nat (length src) = step) by (unfold src; rewrite length_take; lia).
    assert (Htl : Z.of_nat (length tl) = Z.of_nat (length from) - step)
      by (unfold tl; rewrite length_drop; lia).
    destruct (copy_in stopped m _ _ _ src Hsrc Hok) as (m1&->&Hm1).
    cbn [mbind outcome_bind]. rewrite Hsub, <- Htl in *.
    destruct (IH m1 tl 0 (add64 i 1) 0 Hrd' ltac:(lia)) as (m'&->&Hm').
    exists m'. split; [done|]. intros x. rewrite Hm', drop_0.
    rewrite <- (take_drop (Z.to_nat step) from). fold src tl.
    rewrite scatter_app by (rewrite length_seqZ; lia). by apply scatter_ext.
Qed.

(** ** The operations against [rest] *)

Lemma ready_wf c n :
  wf c -> 0 <= n <= Z.of_nat (length (rest c)) -> ready (fuel_of c) c n.
Proof.
  intros Hw Hn. rewrite length_rest in Hn by done. destruct Hw as [? ? ? ? ?].
  split; [done|done|lia|]. unfold fuel_ok, fuel_of, left. rewrite length_drop. lia.
Qed.

Lemma take_rest c n :
  wf c -> 0 <= n <= Z.of_nat (length (rest c)) ->
  take (Z.to_nat n) (rest c) = take (Z.to_nat n) (view c).
Proof.
  intros Hw Hn. rewrite length_rest in Hn by done. unfold rest.
  rewrite take_take. f_equal. lia.
Qed.

Lemma rest_moved c c' n :
  wf c -> 0 <= n <= Z.of_nat (length (rest c)) ->
  moved_on c c' n -> coffset c' = coffset c + n ->
  wf c' /\ rest c' = drop (Z.to_nat n) (rest c).
Proof.
  intros Hw Hn (Hr&Hl&Hp&Hv) Ho. rewrite length_rest in Hn by done.
  destruct Hw as [Hwr Hwp Hwo Hwl Hwv]. split.
  - split; [congruence|done|lia|congruence|].
    rewrite Hv, Hl, Ho, length_drop. lia.
  - unfold rest. rewrite Hv, Hl, Ho, take_drop_commute. do 2 f_equal. lia.
Qed.

Lemma validate_size c n :
  wf c -> u64 n ->
  validate_operation_size (coffset c) (clength c) n =
    if n <=? Z.of_nat (length (rest c)) then Ret tt else Raised OpPastEnd.
Proof.
  intros Hw Hn. rewrite length_rest by done. destruct Hw as [_ _ ? ? _].
  unfold validate_operation_size, overflowing_add64.
  destruct (Z.leb_spec n (clength c - coffset c)).
  - rewrite add64_small by lia.
    destruct (Z.leb_spec M64 (coffset c + n)), (Z.ltb_spec (clength c) n),
      (Z.ltb_spec (clength c) (coffset c + n)); done || lia.
  - destruct (Z.leb_spec M64 (coffset c + n)); [done|]. rewrite add64_small by lia.
    destruct (Z.ltb_spec (clength c) n), (Z.ltb_spec (clength c) (coffset c + n)); done || lia.
Qed.

Lemma validate_size_at c n at_ :
  wf c -> u64 n -> u64 at_ ->
  validate_operation_size_at (coffset c) (clength c) n at_ =
    if at_ + n <=? Z.of_nat (length (rest c)) then Ret tt else Raised OpPastEnd.
Proof.
  intros Hw Hn Ha. rewrite length_rest by done. destruct Hw as [_ _ ? ? _].
  unfold validate_operation_size_at, overflowing_add64.
  destruct (Z.leb_spec (at_ + n) (clength c - coffset c)).
  - rewrite !add64_small by (rewrite ?add64_small; lia).
    destruct (Z.leb_spec M64 (coffset c + at_)), (Z.leb_spec M64 (coffset c + at_ + n)),
      (Z.ltb_spec (clength c) n), (Z.ltb_spec (clength c) (coffset c + at_ + n)); done || lia.
  - destruct (Z.leb_spec M64 (coffset c + at_)); [done|]. rewrite (add64_small (coffset c)) by lia.
    destruct (Z.leb_spec M64 (coffset c + at_ + n)); [done|]. rewrite add64_small by lia.
    destruct (Z.ltb_spec (clength c) n), (Z.ltb_spec (clength c) (coffset c + at_ + n)); done || lia.
Qed.

Lemma at_rest c n at_ :
  wf c -> 0 <= n -> 0 <= at_ -> at_ + n <= Z.of_nat (length (rest c)) ->
  take (Z.to_nat n) (drop (Z.to_nat at_) (rest c))
  = take (Z.to_nat n) (drop (Z.to_nat at_) (view c)).
Proof.
  intros Hw Hn Ha Hb. rewrite length_rest in Hb by done. unfold rest.
  rewrite !take_drop_commute, take_take. do 2 f_equal. lia.
Qed.

Lemma advance_rest c n :
  wf c -> u64 n ->
  exists c', advance c n = Ret c' /\ wf c' /\ rest c' = drop (Z.to_nat n) (rest c) /\
    ranges c' = ranges c /\ clength c' = clength c.
Proof.
  intros Hw Hn. pose proof (length_rest _ Hw) as Hlr. pose proof Hw as [Hr Hp Ho Hl Hv].
  unfold advance, overflowing_add64.
  destruct ((M64 <=? coffset c + n) || (clength c <=? add64 (coffset c) n)) eqn:E.
  - assert (Hpast : clength c - coffset c <= n).
    { apply orb_true_iff in E as [E|E]; to_props; [lia|].
      destruct (Z.lt_ge_cases (coffset c + n) M64); [|lia]. rewrite add64_small in E by lia. lia. }
    exists (with_offset c (clength c)). split; [done|].
    split; [split; try done; [by apply pos_ok_with_offset|cbn; lia|cbn; lia]|].
    split; [|done]. rewrite drop_ge by lia. unfold rest. cbn. by rewrite Z.sub_diag.
  - to_props. rewrite add64_small in * by lia.
    destruct (advance_loop_spec (fuel_of c) c n) as (c'&->&Hm); [apply ready_wf; [done|lia]|].
    exists (with_offset c' (coffset c + n)). split; [done|].
    destruct Hm as (Hmr&Hml&Hmp&Hmv).
    destruct (rest_moved c (with_offset c' (coffset c + n)) n) as [Hw' Hr'];
      [done|lia| |done|by rewrite Hr'].
    split; [done|]. split; [done|]. split; [by apply pos_ok_with_offset|done].
Qed.

Lemma from_ranges_rest rs :
  ranges_ok rs -> wf (from_ranges rs) /\ rest (from_ranges rs) = concat (map span rs).
Proof.
  intros Hr. pose proof Hr as [He Ht Hc].
  assert (Hsum : forall l acc, Forall range_ok l -> 0 <= acc -> acc + total l < M64 ->
    sum_lengths acc l = acc + total l).
  { induction l as [|r l IH]; intros acc Hl Ha Hb; [by rewrite Z.add_0_r|].
    apply list.Forall_cons in Hl as [[Hr0 _] Hl]. pose proof (total_nonneg _ Hl).
    cbn [sum_lengths total fold_right] in *. fold (total l) in *. unfold overflowing_add64.
    destruct (Z.leb_spec M64 (acc + rlength r)); [lia|].
    rewrite add64_small, IH by (done || lia). lia. }
  pose proof (Hsum rs 0 He ltac:(lia) ltac:(lia)) as Hs.
  pose proof (length_concat_span _ He) as Hlc. pose proof (total_nonneg _ He).
  assert (Hv : view (from_ranges rs) = concat (map span rs)).
  { unfold view, left. cbn. rewrite drop_0. destruct rs as [|r rs']; [done|]. cbn.
    unfold span at 2. do 2 f_equal; lia. }
  split.
  - split; [done| |cbn; lia|cbn; lia|rewrite Hv; cbn; lia].
    split; [cbn; lia|done|]. unfold left. cbn. rewrite drop_0.
    destruct rs; [done|]. by apply list.Forall_cons in He as [[? _] _].
  - unfold rest. rewrite Hv. cbn. rewrite Hs. apply take_ge. lia.
Qed.

Lemma child_rest c i n :
  wf c -> 0 <= i -> 0 <= n -> i + n <= Z.of_nat (length (rest c)) ->
  let child := MkCursor (ranges c) (range_index c) (range_offset c) (i + n) 0 in
  wf child /\ rest child = take (Z.to_nat (i + n)) (rest c).
Proof.
  intros Hw Hi Hn Hb child. rewrite take_rest by (done || lia).
  rewrite length_rest in Hb by done. destruct Hw as [? [? ? ?] ? ? ?]. split.
  - split; [done|by split|cbn; lia|cbn; lia|]. change (view child) with (view c). cbn. lia.
  - unfold rest. change (view child) with (view c). cbn. by rewrite Z.sub_0_r.
Qed.

Lemma read_bytes_at_rest m c at_ n :
  wf c -> u64 at_ -> u64 n -> at_ + n <= Z.of_nat (length (rest c)) ->
  read_bytes_at m c at_ n
  = Ret (map m (take (Z.to_nat n) (drop (Z.to_nat at_) (rest c)))).
Proof.
  intros Hw Ha Hn Hb. unfold read_bytes_at. rewrite validate_size_at by done.
  rewrite (proj2 (Z.leb_le _ _) Hb). cbn [mbind outcome_bind].
  rewrite at_rest by (done || lia).
  assert (Hrd : ready (fuel_of c) (place c (range_index c) (range_offset c)) (at_ + n)).
  { destruct (ready_wf c (at_ + n) Hw ltac:(lia)) as [? [? ? ?] ? ?]. by split. }
  rewrite (read_at_loop_spec _ _ _ _ _ _ _ Hrd) by lia. done.
Qed.

(** Where a read leaves the cursor does not depend on what it read. *)
Lemma read_loop_moves m m' fuel : forall c bytes room c1 c2 bs1 bs2,
  read_loop fuel m c bytes room = Ret (c1, bs1) ->
  read_loop fuel m' c bytes room = Ret (c2, bs2) -> c1 = c2.
Proof.
  induction fuel as [|fuel IH]; intros c bytes room c1 c2 bs1 bs2; cbn [read_loop]; [done|].
  destruct (bytes =? 0); [congruence|]. destruct (range_at c _) as [r| |]; [|done..].
  cbn [mbind outcome_bind]. destruct (take_room _ _) as [room'| |]; [|done..].
  cbn [mbind outcome_bind]. destruct (if _ =? 0 then _ else copy_to m _ _ _ _) as [d1| |]; [|done..].
  destruct (if _ =? 0 then _ else copy_to m' _ _ _ _) as [d2| |]; [|done..].
  cbn [mbind outcome_bind].
  destruct (read_loop fuel m _ _ _) as [[e1 t1]| |] eqn:E1; [|done..].
  destruct (read_loop fuel m' _ _ _) as [[e2 t2]| |] eqn:E2; [|done..].
  cbn [mbind outcome_bind]. intros [= <- _] [= <- _]. by eapply IH.
Qed.

Lemma read_bytes_moves m m' c n c1 c2 bs1 bs2 :
  read_bytes m c n = Ret (c1, bs1) -> read_bytes m' c n = Ret (c2, bs2) -> c1 = c2.
Proof.
  unfold read_bytes. destruct (validate_operation_size _ _ _); [|done..]. cbn [mbind outcome_bind].
  apply read_loop_moves.
Qed.

Lemma read_bytes_rest m c n :
  wf c -> 0 <= n <= Z.of_nat (length (rest c)) ->
  exists c', read_bytes m c n = Ret (c', map m (take (Z.to_nat n) (rest c))) /\
    wf c' /\ rest c' = drop (Z.to_nat n) (rest c).
Proof.
  intros Hw Hn. pose proof (length_rest _ Hw). pose proof Hw as [_ _ ? ? _].
  unfold read_bytes. rewrite validate_size by (done || lia).
  rewrite (proj2 (Z.leb_le _ _)) by lia. cbn [mbind outcome_bind].
  destruct (read_loop_spec (fuel_of c) m c n) as (c'&->&Hm&Ho);
    [apply ready_wf; [done|lia]|lia|lia|].
  exists c'. rewrite take_rest by (done || lia). split; [done|]. apply rest_moved; (done || lia).
Qed.

Lemma read_bytes_short m c n :
  wf c -> u64 n -> Z.of_nat (length (rest c)) < n -> read_bytes m c n = Raised OpPastEnd.
Proof.
  intros Hw Hn Hs. unfold read_bytes. rewrite validate_size by done.
  by rewrite (proj2 (Z.leb_gt _ _) Hs).
Qed.

Lemma write_bytes_rest stopped m c from :
  wf c -> (length from <= length (rest c))%nat ->
  exists c' m', write_bytes stopped false m c from = Ret (c', m') /\ wf c' /\
    rest c' = drop (length from) (rest c) /\
    forall x, m' x = scatter m (take (length from) (rest c)) from x.
Proof.
  intros Hw Hle. pose proof (length_rest _ Hw). pose proof Hw as [_ _ ? ? _].
  unfold write_bytes. rewrite validate_size by (done || lia).
  rewrite (proj2 (Z.leb_le _ _)) by lia. cbn [mbind outcome_bind].
  destruct (write_loop_spec stopped (fuel_of c) m c from) as (c'&m'&->&Hm'&Hm&Ho);
    [by apply ready_wf; [|lia]|lia|lia|].
  destruct (rest_moved c c' (Z.of_nat (length from)) Hw ltac:(lia) Hm Ho) as [Hw' Hr']. rewrite Nat2Z.id in *.
  exists c', m'. split; [done|]. split; [done|]. split; [done|].
  rewrite <- (Nat2Z.id (length from)) in Hm'. by rewrite <- take_rest, Nat2Z.id in Hm' by (done || lia).
Qed.

Lemma write_bytes_short stopped ended m c from :
  wf c -> Z.of_nat (length from) < M64 -> (length (rest c) < length from)%nat ->
  write_bytes stopped ended m c from = Raised OpPastEnd.
Proof.
  intros Hw Hn Hs. unfold write_bytes. rewrite validate_size by (done || lia).
  by rewrite (proj2 (Z.leb_gt _ _)) by lia.
Qed.

(** ** The properties *)

(** A read over scattered ranges. [read_bytes] of [n] bytes answers the bytes at
    the cursor's next [n] addresses, in order across the ranges, and moves past exactly
    them; when fewer are left it is refused. The loop always ends, and none of its
    deaths is reachable from a well-formed cursor. *)
Theorem read_bytes_spec m c n :
  wf c -> u64 n ->
  if n <=? Z.of_nat (length (rest c))
  then exists c', read_bytes m c n = Ret (c', map m (take (Z.to_nat n) (rest c))) /\
         wf c' /\ rest c' = drop (Z.to_nat n) (rest c)
  else read_bytes m c n = Raised OpPastEnd.
Proof.
  intros Hw Hn. case_if.
  - apply read_bytes_rest; [done|lia].
  - apply read_bytes_short; (done || lia).
Qed.

(** A read ahead of the cursor. [read_bytes_at] of [n] bytes answers the bytes
    [at_] addresses on, whole ranges skipped and split ones crossed, and is refused when
    [at_ + n] reaches past the end, sums past 64 bits included. *)
Theorem read_bytes_at_spec m c at_ n :
  wf c -> u64 at_ -> u64 n ->
  read_bytes_at m c at_ n =
    if at_ + n <=? Z.of_nat (length (rest c))
    then Ret (map m (take (Z.to_nat n) (drop (Z.to_nat at_) (rest c))))
    else Raised OpPastEnd.
Proof.
  intros Hw Ha Hn. case_if; [by apply read_bytes_at_rest|].
  unfold read_bytes_at. rewrite validate_size_at by done.
  by rewrite (proj2 (Z.leb_gt _ _) Hif).
Qed.

(** [sub_cursor] splits the bytes left. The child reads the next [n] of them and
    the parent goes on after them, or both are untouched and the error says so. *)
Theorem sub_cursor_spec c n :
  wf c -> u64 n ->
  if n <=? Z.of_nat (length (rest c))
  then exists parent child, sub_cursor c n = Ret (parent, child) /\
         wf parent /\ wf child /\
         rest child = take (Z.to_nat n) (rest c) /\
         rest parent = drop (Z.to_nat n) (rest c)
  else sub_cursor c n = Raised SubPastEnd.
Proof.
  intros Hw Hn. pose proof (length_rest _ Hw) as Hlr. pose proof Hw as [_ _ ? ? _].
  unfold sub_cursor, remaining. rewrite sub64_small by lia.
  destruct (Z.leb_spec n (Z.of_nat (length (rest c)))) as [Hle|Hle].
  - destruct (Z.ltb_spec (clength c - coffset c) n); [lia|]. simpl.
    destruct (Z.leb_spec M64 (coffset c + n)); [lia|]. unfold child_of.
    destruct (advance_rest c n Hw Hn) as (p&->&Hwp&Hrp&_). cbn [mbind outcome_bind].
    destruct (child_rest c 0 n Hw ltac:(lia) ltac:(lia) ltac:(lia)) as [Hwc Hrc].
    eexists _, _. split; [done|]. split; [done|]. split; [done|]. split; [exact Hrc|done].
  - destruct (Z.ltb_spec (clength c - coffset c) n); [done|lia].
Qed.

(** [sub_cursor_at] covers [n] bytes [at_] bytes on, whatever the two lengths, an
    empty child past a whole one included; sums past 64 bits are refused as such. *)
Theorem sub_cursor_at_spec c at_ n :
  wf c -> u64 at_ -> u64 n ->
  if at_ + n <=? Z.of_nat (length (rest c))
  then exists child, sub_cursor_at c at_ n = Ret child /\ wf child /\
         rest child = take (Z.to_nat n) (drop (Z.to_nat at_) (rest c))
  else sub_cursor_at c at_ n =
    Raised (if M64 <=? at_ + coffset c + n then SubOverflow else SubPastEnd).
Proof.
  intros Hw Ha Hn. pose proof (length_rest _ Hw) as Hlr. pose proof Hw as [_ _ ? ? _].
  unfold sub_cursor_at, overflowing_add64.
  destruct (Z.leb_spec (at_ + n) (Z.of_nat (length (rest c)))).
  - rewrite !add64_small by (rewrite ?add64_small; lia).
    destruct (Z.leb_spec M64 (at_ + coffset c)), (Z.leb_spec M64 (at_ + coffset c + n)),
      (Z.ltb_spec (clength c) (at_ + coffset c + n)); try lia.
    unfold child_at. rewrite add64_small by lia.
    destruct (child_rest c at_ n Hw ltac:(lia) ltac:(lia) ltac:(lia)) as [Hwc Hrc].
    destruct (advance_rest _ at_ Hwc Ha) as (c'&->&Hw'&Hr'&_). exists c'.
    split; [done|]. split; [done|]. rewrite Hr', Hrc, take_drop_commute.
    do 2 f_equal. lia.
  - destruct (Z.leb_spec M64 (at_ + coffset c)).
    { destruct (Z.leb_spec M64 (at_ + coffset c + n)); [done|lia]. }
    rewrite add64_small by lia. destruct (Z.leb_spec M64 (at_ + coffset c + n)); [done|].
    rewrite add64_small by lia. destruct (Z.ltb_spec (clength c) (at_ + coffset c + n)); [done|lia].
Qed.

(** What a writable cursor writes is what a clone taken before reads. The bytes
    land at the cursor's next addresses and no other byte of memory changes; ranges that
    do not overlap give the bytes back unchanged, at an offset too. *)
Theorem write_bytes_read_back stopped m c from :
  wf c -> NoDup (rest c) ->
  let n := Z.of_nat (length from) in
  n <= Z.of_nat (length (rest c)) ->
  exists c' m', write_bytes stopped false m c from = Ret (c', m') /\ wf c' /\
    rest c' = drop (length from) (rest c) /\
    read_bytes_at m' c 0 n = Ret from /\
    forall x, x ∉ take (length from) (rest c) -> m' x = m x.
Proof.
  cbv zeta. intros Hw Hnd Hle. pose proof (length_rest _ Hw). pose proof Hw as [_ _ ? ? _].
  destruct (write_bytes_rest stopped m c from Hw ltac:(lia)) as (c' & m' & Hwr & Hw' & Hr' & Hm').
  exists c', m'. split; [done|]. split; [done|]. split; [done|]. split.
  - rewrite read_bytes_at_rest by (done || lia).
    rewrite drop_0, Nat2Z.id. f_equal.
    etransitivity; [apply map_ext; intros a; apply Hm'|].
    apply scatter_in; [|rewrite length_take; lia].
    rewrite <- (take_drop (length from) (rest c)) in Hnd. by apply list.NoDup_app in Hnd as [? _].
  - intros x Hx. rewrite Hm'. by apply scatter_out.
Qed.

(** A cursor over three ranges, the middle one empty. *)
Definition sample_cursor : Cursor :=
  from_ranges [MkRange 0x200000000 3; MkRange 0 0; MkRange 0x100000000 4].

Lemma sample_wf : wf sample_cursor /\ NoDup (rest sample_cursor) /\ length (rest sample_cursor) = 7%nat.
Proof.
  assert (ranges_ok (ranges sample_cursor)) as Hr.
  { split; [|done|done]. repeat constructor; cbn; unfold ZERO_REGION_END, M64; lia. }
  destruct (from_ranges_rest _ Hr) as [Hw Hrest]. split; [exact Hw|].
  change (NoDup (rest (from_ranges (ranges sample_cursor))) /\
    length (rest (from_ranges (ranges sample_cursor))) = 7%nat).
  rewrite Hrest. split; [|done]. vm_compute concat.
  apply (bool_decide_unpack _). vm_compute. exact I.
Qed.

Lemma read_bytes_spec_witness :
  if 5 <=? Z.of_nat (length (rest sample_cursor))
  then exists c', read_bytes sample sample_cursor 5
           = Ret (c', map sample (take (Z.to_nat 5) (rest sample_cursor))) /\
         wf c' /\ rest c' = drop (Z.to_nat 5) (rest sample_cursor)
  else read_bytes sample sample_cursor 5 = Raised OpPastEnd.
Proof. apply (read_bytes_spec sample sample_cursor 5); [apply sample_wf|by vm_compute]. Defined.

Lemma read_bytes_at_spec_witness :
  read_bytes_at sample sample_cursor 2 3 =
    if 2 + 3 <=? Z.of_nat (length (rest sample_cursor))
    then Ret (map sample (take (Z.to_nat 3) (drop (Z.to_nat 2) (rest sample_cursor))))
    else Raised OpPastEnd.
Proof. apply (read_bytes_at_spec sample sample_cursor 2 3); [apply sample_wf|by vm_compute..]. Defined.

Lemma sub_cursor_spec_witness :
  if 4 <=? Z.of_nat (length (rest sample_cursor))
  then exists parent child, sub_cursor sample_cursor 4 = Ret (parent, child) /\
         wf parent /\ wf child /\
         rest child = take (Z.to_nat 4) (rest sample_cursor) /\
         rest parent = drop (Z.to_nat 4) (rest sample_cursor)
  else sub_cursor sample_cursor 4 = Raised SubPastEnd.
Proof. apply (sub_cursor_spec sample_cursor 4); [apply sample_wf|by vm_compute]. Defined.

Lemma sub_cursor_at_spec_witness :
  if 7 + 0 <=? Z.of_nat (length (rest sample_cursor))
  then exists child, sub_cursor_at sample_cursor 7 0 = Ret child /\ wf child /\
         rest child = take (Z.to_nat 0) (drop (Z.to_nat 7) (rest sample_cursor))
  else sub_cursor_at sample_cursor 7 0 =
    Raised (if M64 <=? 7 + coffset sample_cursor + 0 then SubOverflow else SubPastEnd).
Proof. apply (sub_cursor_at_spec sample_cursor 7 0); [apply sample_wf|by vm_compute..]. Defined.

Lemma write_bytes_read_back_witness :
  exists c' m', write_bytes (Fatal CursorWriteNull) false sample sample_cursor
      [x01; x02; x03; x04] = Ret (c', m') /\ wf c' /\
    rest c' = drop 4 (rest sample_cursor) /\
    read_bytes_at m' sample_cursor 0 4 = Ret [x01; x02; x03; x04] /\
    forall x, x ∉ take 4 (rest sample_cursor) -> m' x = sample x.
Proof.
  apply (write_bytes_read_back (Fatal CursorWriteNull) sample sample_cursor [x01; x02; x03; x04]);
    [apply sample_wf|apply sample_wf|].
  destruct sample_wf as (_&_&->). cbn. lia.
Defined.

End Cursor.
