(* ===== verification/GuestRecords.v ===== *)
(** * GuestRecords: the guest ABI's page size, features and command records
    (src/crates/reims-vgpu-core/src/guest/records.rs)

    The target's architecture chooses the page shift; it is the parameter [arch] of
    every definition below that counts pages. *)

From S2P Require Import Prelude.

Module GuestRecords.

(** ** Pages *)

(** [cfg!(target_arch = "x86_64")], or the arm64 build. *)
Inductive Arch : Type := X86_64 | AArch64.
Class Target := arch : Arch.

Section Pages.
Context {target : Target}.
Definition APV_PAGE_SHIFT : Z := match arch with X86_64 => 12 | AArch64 => 14 end.
Definition APV_PAGE_SIZE : Z := shl64 1 APV_PAGE_SHIFT.
Definition APV_PAGE_MASK : Z := sub64 APV_PAGE_SIZE 1.
End Pages.

Definition APV_MAX_FIFOS : Z := 64.

(** ** [APVFeatures] *)

Record GuestFeatures := MkGuestFeatures {
  valid : bool;
  unsupported : bool;
  object_tables : bool;
  efi_display : bool;
  display_doorbell : bool;
  mapper_io_surfaces : bool;
  synchronize_and_discard_resources : bool;
  display_mapper_surface : bool;
  discard_resources : bool;
  display_sleep : bool;
  supports_rgha_presents : bool;
  synchronize_discard_child_resources : bool;
  dual_plane_textures : bool;
  display_set_properties : bool;
  display_dimension_floats : bool;
  metal_heaps : bool;
  buffer_from_io_surface : bool;
  max_fifo_count : Z;
  s8_byte_count_for_d32s8 : Z;
  supports_shared_textures : bool;
  supports_info_encoder : bool;
  supports_default_raster_sample_count : bool;
  supports_vertex_amplification : bool;
  supports_sunburst_display : bool;
  supports_programmable_sample_positions : bool;
  supports_variable_rasterization_rate_maps : bool;
  supports_tile_shaders_image_blocks : bool;
  supports_display_compositor_parameters : bool;
  supports_cmd_exec_indirect3 : bool;
  supports_swizzled_textures : bool;
  supports_dynamic_attribute_stride : bool;
  supports_blit_encoder_spi : bool;
  supports_multiplane_mipped_blit_textures : bool;
  supports_compute_pass_descriptor_dispatch_type : bool;
  supports_object_unique_identifier : bool;
  supports_command_buffer_jump : bool;
  supports_shared_storage_heaps : bool;
  supports_heap_hazard_tracking : bool;
  supports_protection_options_envelope : bool;
  supports_insert_compressed_texture_reinterpretation_flush : bool;
  supports_argument_buffers : bool;
  supports_display_set_guest_icc_profile : bool;
  supports_correct_2p_xr10_a8 : bool;
  supports_cpu_buffers : bool;
  supports_indirect_command_buffers : bool;
  supports_protected_texture_options : bool;
  supports_dispatch_threads_indirect : bool;
  supports_info_indirect : bool;
  supports_display_port_connection_type : bool;
  supports_texture_descriptor2 : bool;
  supports_multiple_displays : bool;
}.

(** The ABI's layout: a byte per flag, three bytes of padding, two words. *)
Record RawFeatures := MkRawFeatures {
  raw_valid : Z;
  raw_unsupported : Z;
  raw_object_tables : Z;
  raw_efi_display : Z;
  raw_display_doorbell : Z;
  raw_mapper_io_surfaces : Z;
  raw_synchronize_and_discard_resources : Z;
  raw_display_mapper_surface : Z;
  raw_discard_resources : Z;
  raw_display_sleep : Z;
  raw_supports_rgha_presents : Z;
  raw_synchronize_discard_child_resources : Z;
  raw_dual_plane_textures : Z;
  raw_display_set_properties : Z;
  raw_display_dimension_floats : Z;
  raw_metal_heaps : Z;
  raw_buffer_from_io_surface : Z;
  padding : list byte;
  raw_max_fifo_count : Z;
  raw_s8_byte_count_for_d32s8 : Z;
  raw_supports_shared_textures : Z;
  raw_supports_info_encoder : Z;
  raw_supports_default_raster_sample_count : Z;
  raw_supports_vertex_amplification : Z;
  raw_supports_sunburst_display : Z;
  raw_supports_programmable_sample_positions : Z;
  raw_supports_variable_rasterization_rate_maps : Z;
  raw_supports_tile_shaders_image_blocks : Z;
  raw_supports_display_compositor_parameters : Z;
  raw_supports_cmd_exec_indirect3 : Z;
  raw_supports_swizzled_textures : Z;
  raw_supports_dynamic_attribute_stride : Z;
  raw_supports_blit_encoder_spi : Z;
  raw_supports_multiplane_mipped_blit_textures : Z;
  raw_supports_compute_pass_descriptor_dispatch_type : Z;
  raw_supports_object_unique_identifier : Z;
  raw_supports_command_buffer_jump : Z;
  raw_supports_shared_storage_heaps : Z;
  raw_supports_heap_hazard_tracking : Z;
  raw_supports_protection_options_envelope : Z;
  raw_supports_insert_compressed_texture_reinterpretation_flush : Z;
  raw_supports_argument_buffers : Z;
  raw_supports_display_set_guest_icc_profile : Z;
  raw_supports_correct_2p_xr10_a8 : Z;
  raw_supports_cpu_buffers : Z;
  raw_supports_indirect_command_buffers : Z;
  raw_supports_protected_texture_options : Z;
  raw_supports_dispatch_threads_indirect : Z;
  raw_supports_info_indirect : Z;
  raw_supports_display_port_connection_type : Z;
  raw_supports_texture_descriptor2 : Z;
  raw_supports_multiple_displays : Z;
}.

(** [RawFeatures::of] and [RawFeatures::features]. *)
Definition raw_of (f : GuestFeatures) : RawFeatures := MkRawFeatures
  (Z.b2z (valid f)) (Z.b2z (unsupported f)) (Z.b2z (object_tables f))
  (Z.b2z (efi_display f)) (Z.b2z (display_doorbell f)) (Z.b2z (mapper_io_surfaces f))
  (Z.b2z (synchronize_and_discard_resources f)) (Z.b2z (display_mapper_surface f))
  (Z.b2z (discard_resources f)) (Z.b2z (display_sleep f))
  (Z.b2z (supports_rgha_presents f)) (Z.b2z (synchronize_discard_child_resources f))
  (Z.b2z (dual_plane_textures f)) (Z.b2z (display_set_properties f))
  (Z.b2z (display_dimension_floats f)) (Z.b2z (metal_heaps f))
  (Z.b2z (buffer_from_io_surface f))
  [x00; x00; x00] (max_fifo_count f) (s8_byte_count_for_d32s8 f)
  (Z.b2z (supports_shared_textures f)) (Z.b2z (supports_info_encoder f))
  (Z.b2z (supports_default_raster_sample_count f))
  (Z.b2z (supports_vertex_amplification f)) (Z.b2z (supports_sunburst_display f))
  (Z.b2z (supports_programmable_sample_positions f))
  (Z.b2z (supports_variable_rasterization_rate_maps f))
  (Z.b2z (supports_tile_shaders_image_blocks f))
  (Z.b2z (supports_display_compositor_parameters f))
  (Z.b2z (supports_cmd_exec_indirect3 f)) (Z.b2z (supports_swizzled_textures f))
  (Z.b2z (supports_dynamic_attribute_stride f)) (Z.b2z (supports_blit_encoder_spi f))
  (Z.b2z (supports_multiplane_mipped_blit_textures f))
  (Z.b2z (supports_compute_pass_descriptor_dispatch_type f))
  (Z.b2z (supports_object_unique_identifier f)) (Z.b2z (supports_command_buffer_jump f))
  (Z.b2z (supports_shared_storage_heaps f)) (Z.b2z (supports_heap_hazard_tracking f))
  (Z.b2z (supports_protection_options_envelope f))
  (Z.b2z (supports_insert_compressed_texture_reinterpretation_flush f))
  (Z.b2z (supports_argument_buffers f)) (Z.b2z (supports_display_set_guest_icc_profile f))
  (Z.b2z (supports_correct_2p_xr10_a8 f)) (Z.b2z (supports_cpu_buffers f))
  (Z.b2z (supports_indirect_command_buffers f))
  (Z.b2z (supports_protected_texture_options f))
  (Z.b2z (supports_dispatch_threads_indirect f)) (Z.b2z (supports_info_indirect f))
  (Z.b2z (supports_display_port_connection_type f))
  (Z.b2z (supports_texture_descriptor2 f)) (Z.b2z (supports_multiple_displays f)).

Definition features (r : RawFeatures) : GuestFeatures := MkGuestFeatures
  (negb (raw_valid r =? 0)) (negb (raw_unsupported r =? 0))
  (negb (raw_object_tables r =? 0)) (negb (raw_efi_display r =? 0))
  (negb (raw_display_doorbell r =? 0)) (negb (raw_mapper_io_surfaces r =? 0))
  (negb (raw_synchronize_and_discard_resources r =? 0))
  (negb (raw_display_mapper_surface r =? 0)) (negb (raw_discard_resources r =? 0))
  (negb (raw_display_sleep r =? 0)) (negb (raw_supports_rgha_presents r =? 0))
  (negb (raw_synchronize_discard_child_resources r =? 0))
  (negb (raw_dual_plane_textures r =? 0)) (negb (raw_display_set_properties r =? 0))
  (negb (raw_display_dimension_floats r =? 0)) (negb (raw_metal_heaps r =? 0))
  (negb (raw_buffer_from_io_surface r =? 0))
  (raw_max_fifo_count r) (raw_s8_byte_count_for_d32s8 r)
  (negb (raw_supports_shared_textures r =? 0)) (negb (raw_supports_info_encoder r =? 0))
  (negb (raw_supports_default_raster_sample_count r =? 0))
  (negb (raw_supports_vertex_amplification r =? 0))
  (negb (raw_supports_sunburst_display r =? 0))
  (negb (raw_supports_programmable_sample_positions r =? 0))
  (negb (raw_supports_variable_rasterization_rate_maps r =? 0))
  (negb (raw_supports_tile_shaders_image_blocks r =? 0))
  (negb (raw_supports_display_compositor_parameters r =? 0))
  (negb (raw_supports_cmd_exec_indirect3 r =? 0))
  (negb (raw_supports_swizzled_textures r =? 0))
  (negb (raw_supports_dynamic_attribute_stride r =? 0))
  (negb (raw_supports_blit_encoder_spi r =? 0))
  (negb (raw_supports_multiplane_mipped_blit_textures r =? 0))
  (negb (raw_supports_compute_pass_descriptor_dispatch_type r =? 0))
  (negb (raw_supports_object_unique_identifier r =? 0))
  (negb (raw_supports_command_buffer_jump r =? 0))
  (negb (raw_supports_shared_storage_heaps r =? 0))
  (negb (raw_supports_heap_hazard_tracking r =? 0))
  (negb (raw_supports_protection_options_envelope r =? 0))
  (negb (raw_supports_insert_compressed_texture_reinterpretation_flush r =? 0))
  (negb (raw_supports_argument_buffers r =? 0))
  (negb (raw_supports_display_set_guest_icc_profile r =? 0))
  (negb (raw_supports_correct_2p_xr10_a8 r =? 0)) (negb (raw_supports_cpu_buffers r =? 0))
  (negb (raw_supports_indirect_command_buffers r =? 0))
  (negb (raw_supports_protected_texture_options r =? 0))
  (negb (raw_supports_dispatch_threads_indirect r =? 0))
  (negb (raw_supports_info_indirect r =? 0))
  (negb (raw_supports_display_port_connection_type r =? 0))
  (negb (raw_supports_texture_descriptor2 r =? 0))
  (negb (raw_supports_multiple_displays r =? 0)).

(** [transmute] of the raw record to its 60 bytes and back. *)
Definition raw_bytes (r : RawFeatures) : list byte :=
  map byte_of_Z
    [raw_valid r; raw_unsupported r; raw_object_tables r; raw_efi_display r;
     raw_display_doorbell r; raw_mapper_io_surfaces r;
     raw_synchronize_and_discard_resources r; raw_display_mapper_surface r;
     raw_discard_resources r; raw_display_sleep r; raw_supports_rgha_presents r;
     raw_synchronize_discard_child_resources r; raw_dual_plane_textures r;
     raw_display_set_properties r; raw_display_dimension_floats r; raw_metal_heaps r;
     raw_buffer_from_io_surface r]
  ++ padding r ++ le_bytes 4 (raw_max_fifo_count r)
  ++ le_bytes 4 (raw_s8_byte_count_for_d32s8 r)
  ++ map byte_of_Z
    [raw_supports_shared_textures r; raw_supports_info_encoder r;
     raw_supports_default_raster_sample_count r; raw_supports_vertex_amplification r;
     raw_supports_sunburst_display r; raw_supports_programmable_sample_positions r;
     raw_supports_variable_rasterization_rate_maps r;
     raw_supports_tile_shaders_image_blocks r;
     raw_supports_display_compositor_parameters r; raw_supports_cmd_exec_indirect3 r;
     raw_supports_swizzled_textures r; raw_supports_dynamic_attribute_stride r;
     raw_supports_blit_encoder_spi r; raw_supports_multiplane_mipped_blit_textures r;
     raw_supports_compute_pass_descriptor_dispatch_type r;
     raw_supports_object_unique_identifier r; raw_supports_command_buffer_jump r;
     raw_supports_shared_storage_heaps r; raw_supports_heap_hazard_tracking r;
     raw_supports_protection_options_envelope r;
     raw_supports_insert_compressed_texture_reinterpretation_flush r;
     raw_supports_argument_buffers r; raw_supports_display_set_guest_icc_profile r;
     raw_supports_correct_2p_xr10_a8 r; raw_supports_cpu_buffers r;
     raw_supports_indirect_command_buffers r; raw_supports_protected_texture_options r;
     raw_supports_dispatch_threads_indirect r; raw_supports_info_indirect r;
     raw_supports_display_port_connection_type r; raw_supports_texture_descriptor2 r;
     raw_supports_multiple_displays r].

Definition raw_of_bytes (bs : list byte) : RawFeatures :=
  let at_ i := Z_of_byte (nth i bs x00) in MkRawFeatures
  (at_ 0%nat) (at_ 1%nat) (at_ 2%nat) (at_ 3%nat) (at_ 4%nat) (at_ 5%nat) (at_ 6%nat)
  (at_ 7%nat) (at_ 8%nat) (at_ 9%nat) (at_ 10%nat) (at_ 11%nat) (at_ 12%nat) (at_ 13%nat)
  (at_ 14%nat) (at_ 15%nat) (at_ 16%nat)
  (take 3 (drop 17 bs)) (of_le_bytes (take 4 (drop 20 bs))) (of_le_bytes (take 4 (drop 24 bs)))
  (at_ 28%nat) (at_ 29%nat) (at_ 30%nat) (at_ 31%nat) (at_ 32%nat) (at_ 33%nat)
  (at_ 34%nat) (at_ 35%nat) (at_ 36%nat) (at_ 37%nat) (at_ 38%nat) (at_ 39%nat)
  (at_ 40%nat) (at_ 41%nat) (at_ 42%nat) (at_ 43%nat) (at_ 44%nat) (at_ 45%nat)
  (at_ 46%nat) (at_ 47%nat) (at_ 48%nat) (at_ 49%nat) (at_ 50%nat) (at_ 51%nat)
  (at_ 52%nat) (at_ 53%nat) (at_ 54%nat) (at_ 55%nat) (at_ 56%nat) (at_ 57%nat)
  (at_ 58%nat) (at_ 59%nat).

Definition to_bytes (f : GuestFeatures) : list byte := raw_bytes (raw_of f).
Definition from_bytes (bs : list byte) : GuestFeatures := features (raw_of_bytes bs).

(** ** The live features, 15 words read and written one at a time *)

Definition SharedFeatures : Type := list Z.
Definition new : SharedFeatures := replicate 15 0.

(** [transmute] between 60 bytes and 15 words. *)
Fixpoint words_of (n : nat) (bs : list byte) : list Z :=
  match n with
  | O => []
  | S n => of_le_bytes (take 4 bs) :: words_of n (drop 4 bs)
  end.
Definition bytes_of_words (ws : list Z) : list byte := concat (map (le_bytes 4) ws).

(** A load whose word [i] reads the value [words i] holds at that moment: a store
    racing it may tear it between words. *)
Definition load_words (words : nat -> Z) : GuestFeatures :=
  from_bytes (bytes_of_words (map words (seq 0 15))).
Definition load (s : SharedFeatures) : GuestFeatures :=
  load_words (fun i => default 0 (s !! i)).

(** [store] writes the words in order: after [k] of them, the first [k] are new. *)
Definition store_words (k : nat) (s : SharedFeatures) (f : GuestFeatures) : SharedFeatures :=
  take k (words_of 15 (to_bytes f)) ++ drop k s.
Definition store (s : SharedFeatures) (f : GuestFeatures) : SharedFeatures :=
  store_words 15 s f.

(** ** Command records *)

Record ObjectEntry := MkObjectEntry { type_and_length : Z; oe_offset : Z }.
Definition object_type (e : ObjectEntry) : Z := type_and_length e mod 256.
Definition oe_length (e : ObjectEntry) : Z := shr32 (type_and_length e) 8.

Record ObjectPlacement := MkObjectPlacement { field0 : Z; resource_id : Z }.

Record CmdExecIndirectResource := MkCmdExecIndirectResource {
  reference : Z;
  r_invalidate_host : Z;
  r_invalidate_guest : Z;
  r_synchronize : Z;
  field7 : Z;
  field8 : Z;
  field10 : Z;
}.

Record CmdExecIndirectResource3 := MkCmdExecIndirectResource3 {
  reference3 : Z;
  flags : Z;
}.
Definition flag (r : CmdExecIndirectResource3) (n : Z) : bool :=
  negb (Z.land (flags r) (shl32 1 n) =? 0).
Definition invalidate_host (r : CmdExecIndirectResource3) : bool := flag r 0.
Definition invalidate_guest (r : CmdExecIndirectResource3) : bool := flag r 1.
Definition synchronize (r : CmdExecIndirectResource3) : bool := flag r 2.

Record CmdExecIndirectCmdBuffer := MkCmdExecIndirectCmdBuffer {
  cb_offset : Z;
  cb_length : Z;
}.

Record TaskRoot2 := MkTaskRoot2 {
  page_table_root : Z;
  page_table_depth : Z;
  object_list_offset : Z;
  object_list_length : Z;
  task_length : Z;
  placement_list_offset : Z;
  placement_list_length : Z;
}.

(** ** Facts *)

(** ** Page arithmetic *)

Section PageArithmetic.
Context {target : Target}.

(** Both page sizes are powers of two between a kilobyte and a megabyte. *)
Lemma page_shift : 12 <= APV_PAGE_SHIFT <= 14.
Proof. unfold APV_PAGE_SHIFT. destruct arch; lia. Qed.

Lemma page_size : APV_PAGE_SIZE = 2 ^ APV_PAGE_SHIFT /\ 4096 <= APV_PAGE_SIZE <= 16384.
Proof. unfold APV_PAGE_SIZE, APV_PAGE_SHIFT. destruct arch; by vm_compute. Qed.

Lemma page_mask : APV_PAGE_MASK = 2 ^ APV_PAGE_SHIFT - 1.
Proof. unfold APV_PAGE_MASK, APV_PAGE_SIZE, APV_PAGE_SHIFT. by destruct arch. Qed.

Lemma shr64_page x : shr64 x APV_PAGE_SHIFT = x / APV_PAGE_SIZE.
Proof.
  unfold shr64. rewrite (proj1 page_size), Z.mod_small by (pose proof page_shift; lia).
  apply Z.shiftr_div_pow2. pose proof page_shift. lia.
Qed.

Lemma land_page_mask x : Z.land x APV_PAGE_MASK = x mod APV_PAGE_SIZE.
Proof. rewrite page_mask, (proj1 page_size). apply land_mask. pose proof page_shift. lia. Qed.

Lemma land_page_start x :
  u64 x -> Z.land x (not64 APV_PAGE_MASK) = x - x mod APV_PAGE_SIZE.
Proof.
  intros Hx. rewrite page_mask, (proj1 page_size). apply land_not64_mask; [|done].
  pose proof page_shift. lia.
Qed.
End PageArithmetic.

Lemma byte_flag b : negb (Z_of_byte (byte_of_Z (Z.b2z b)) =? 0) = b.
Proof. by destruct b. Qed.

Definition words_ok (f : GuestFeatures) : Prop :=
  u32 (max_fifo_count f) /\ u32 (s8_byte_count_for_d32s8 f).

Lemma length_to_bytes f : length (to_bytes f) = 60%nat.
Proof. reflexivity. Qed.

#[local] Opaque byte_of_Z Z_of_byte of_le_bytes Z.div Z.eqb.

Lemma from_to_bytes f : words_ok f -> from_bytes (to_bytes f) = f.
Proof.
  intros [Hm Hs]. destruct f. cbn in Hm, Hs.
  lazy -[byte_of_Z Z_of_byte Z.b2z of_le_bytes Z.div Z.eqb negb].
  rewrite !byte_flag. f_equal; by apply of_le_bytes_4.
Qed.

Lemma bytes_of_words_of n bs : length bs = (4 * n)%nat -> bytes_of_words (words_of n bs) = bs.
Proof.
  revert bs. induction n as [|n IH]; intros bs Hl; [by destruct bs|].
  cbn [words_of bytes_of_words map concat]. fold (bytes_of_words (words_of n (drop 4 bs))).
  rewrite IH by (rewrite length_drop; lia).
  rewrite <- (take_drop 4 bs) at 3. f_equal.
  assert (length (take 4 bs) = 4%nat) as Hl4 by (rewrite length_take; lia).
  rewrite <- Hl4 at 1. apply le_bytes_of_le_bytes.
Qed.

Lemma words_of_range n bs i w : length bs = (4 * n)%nat -> words_of n bs !! i = Some w -> u32 w.
Proof.
  revert bs i. induction n as [|n IH]; intros bs i Hl; [by destruct i|].
  destruct i as [|i]; cbn [words_of].
  - intros [= <-]. apply of_le_bytes_u32. rewrite length_take. lia.
  - apply IH. rewrite length_drop. lia.
Qed.

Lemma length_words_of n bs : length (words_of n bs) = n.
Proof. revert bs. induction n as [|n IH]; intros bs; cbn; [done|by rewrite IH]. Qed.

Lemma load_words_of f words :
  words_ok f -> (forall i, (i < 15)%nat -> words_of 15 (to_bytes f) !! i = Some (words i)) ->
  load_words words = f.
Proof.
  intros Hf Hw. unfold load_words.
  replace (map words (seq 0 15)) with (words_of 15 (to_bytes f)).
  { rewrite bytes_of_words_of by done. by apply from_to_bytes. }
  apply list_eq. intros i. rewrite list_lookup_fmap.
  destruct (decide (i < 15)%nat).
  - rewrite lookup_seq_lt by done. simpl. by apply Hw.
  - rewrite lookup_seq_ge, lookup_ge_None_2 by (rewrite ?length_words_of; lia). done.
Qed.

Lemma fifo_count_word words :
  max_fifo_count (load_words words) = w32 (words 5%nat).
Proof.
  transitivity (of_le_bytes (le_bytes 4 (words 5%nat))).
  - lazy -[byte_of_Z Z_of_byte of_le_bytes Z.div Z.eqb negb]. done.
  - apply (of_le_bytes_le_bytes 4).
Qed.

(** ** The properties *)

(** The live features survive the trip through the shared words. Whatever 15 words
    were there, a load after a store gives back exactly the features stored, every flag
    and both counts, through the 60-byte ABI layout with its padding. *)
Theorem load_store s f : length s = 15%nat -> words_ok f -> load (store s f) = f.
Proof.
  intros Hs Hf. apply load_words_of; [done|]. intros i Hi.
  unfold store, store_words, SharedFeatures. rewrite take_ge, (drop_ge s), app_nil_r
    by (rewrite ?length_words_of; lia).
  destruct (lookup_lt_is_Some_2 (words_of 15 (to_bytes f)) i) as [w Hw];
    [by rewrite length_words_of|]. by rewrite !Hw.
Qed.

(** A load that races a store. Whatever number of words the store had written when
    each word was read, the FIFO count read is the old one or the new one, never a mix of
    the two. *)
Theorem load_torn_fifo_count f0 f1 s (k : nat -> nat) :
  words_ok f0 -> words_ok f1 -> length s = 15%nat ->
  let s0 := store s f0 in
  let seen := load_words (fun i => default 0 (store_words (k i) s0 f1 !! i)) in
  max_fifo_count seen = max_fifo_count f0 \/ max_fifo_count seen = max_fifo_count f1.
Proof.
  intros [Hf0 _] [Hf1 _] Hs. cbv zeta. rewrite fifo_count_word.
  assert (Hw : forall f, words_of 15 (to_bytes f) !! 5%nat
      = Some (of_le_bytes (le_bytes 4 (max_fifo_count f)))).
  { intros f. lazy -[byte_of_Z Z_of_byte of_le_bytes Z.div Z.eqb negb Z.b2z]. done. }
  unfold store, store_words, SharedFeatures. rewrite (take_ge _ 15), (drop_ge s), app_nil_r
    by (rewrite ?length_words_of; lia).
  destruct (decide (5 < k 5%nat)%nat).
  - right. rewrite lookup_app_l by (rewrite length_take, length_words_of; lia).
    rewrite lookup_take_lt, Hw by done. cbn [default]. rewrite of_le_bytes_4 by done.
    by apply w32_small.
  - left. rewrite lookup_app_r by (rewrite length_take, length_words_of; lia).
    rewrite lookup_drop, length_take, length_words_of.
    replace (k 5%nat + (5 - k 5%nat `min` 15))%nat with 5%nat by lia.
    rewrite Hw. cbn [default]. rewrite of_le_bytes_4 by done. by apply w32_small.
Qed.

Definition sample_features : GuestFeatures :=
  from_bytes (map byte_of_Z (seqZ 0 60)).

Lemma sample_words_ok f : words_ok (from_bytes f).
Proof.
  assert (Hr : forall i, u32 (of_le_bytes (take 4 (drop i f)))).
  { intros i. pose proof (of_le_bytes_range (take 4 (drop i f))).
    assert (256 ^ Z.of_nat (length (take 4 (drop i f))) <= M32).
    { change M32 with (256 ^ 4). apply Z.pow_le_mono_r; [lia|]. rewrite length_take. lia. }
    lia. }
  split; apply Hr.
Qed.

Lemma load_store_witness : load (store new sample_features) = sample_features.
Proof. apply (load_store new sample_features); [reflexivity|apply sample_words_ok]. Defined.

Lemma load_torn_fifo_count_witness :
  let s0 := store new sample_features in
  let f1 := from_bytes (replicate 60 x07) in
  let seen := load_words (fun i => default 0 (store_words 7 s0 f1 !! i)) in
  max_fifo_count seen = max_fifo_count sample_features \/
  max_fifo_count seen = max_fifo_count f1.
Proof.
  apply (load_torn_fifo_count sample_features (from_bytes (replicate 60 x07)) new
    (fun _ => 7%nat)); [apply sample_words_ok|apply sample_words_ok|reflexivity].
Defined.

End GuestRecords.
