(* ===== verification/SuspendBlob.v ===== *)
(** * SuspendBlob: the state a suspend hands the host
    (src/crates/reims-vgpu-core/src/guest/abi/suspend_blob.rs)

    The blob's header and its two tagged sections, written by [serialize] and read
    back by [parse], which answers the state or the code of the refusal. A slice's
    length is below [2 ^ 63]. The loop over the sections has the blob's length as
    fuel: each section takes at least its own header's 8 bytes. *)

From S2P Require Import Prelude.

Module SuspendBlob.

Definition RESUME_ERROR_INVALID_SUSPEND_STATE_VERSION : Z := 1.
Definition RESUME_ERROR_INVALID_CONTENT : Z := 2.

Record KeyValuePair := MkKeyValuePair { key : Z; value : Z }.

Record SuspendDeviceState := MkSuspendDeviceState {
  root_page_number : Z;
  binary_version : Z;
  fifo_base_page : Z;
  fifo_enabled : Z;
  fifo_length : Z;
  fifo_written : Z;
  fifo_read : Z;
  fifo_start : Z;
  interrupt_display : Z;
  interrupt_stamp : Z;
  interrupt_fault : Z;
  efi_enabled : Z;
  efi_start : Z;
  efi_length : Z;
  efi_depth : Z;
  efi_mode : Z;
  efi_stride : Z;
  display_port_count : Z;
  fifo_fault_offset : Z;
  display_port_connection_types : Z;
}.

Definition REGISTER_WORDS : nat := 20.

Definition to_words (s : SuspendDeviceState) : list Z :=
  [root_page_number s; binary_version s; fifo_base_page s; fifo_enabled s; fifo_length s;
   fifo_written s; fifo_read s; fifo_start s; interrupt_display s; interrupt_stamp s;
   interrupt_fault s; efi_enabled s; efi_start s; efi_length s; efi_depth s; efi_mode s;
   efi_stride s; display_port_count s; fifo_fault_offset s; display_port_connection_types s].

(** The words are an array of [REGISTER_WORDS]. *)
Definition from_words (w : list Z) : SuspendDeviceState :=
  let at_ i := nth i w 0 in
  MkSuspendDeviceState (at_ 0%nat) (at_ 1%nat) (at_ 2%nat) (at_ 3%nat) (at_ 4%nat) (at_ 5%nat)
    (at_ 6%nat) (at_ 7%nat) (at_ 8%nat) (at_ 9%nat) (at_ 10%nat) (at_ 11%nat) (at_ 12%nat)
    (at_ 13%nat) (at_ 14%nat) (at_ 15%nat) (at_ 16%nat) (at_ 17%nat) (at_ 18%nat) (at_ 19%nat).

(** The bytes [RVGS], little endian. *)
Definition SUSPEND_STATE_MAGIC : Z := of_le_bytes [x52; x56; x47; x53].
Definition SUSPEND_STATE_VERSION : Z := 1.
Definition SERIALIZED_INFO_PAIRS : Z := 46.
Definition MAX_INFO_PAIRS : nat := 45.
Definition HEADER_SIZE : Z := 8.
Definition SECTION_HEADER_SIZE : Z := 8.

Inductive Section_ : Type := Registers | DeviceInfo.
Definition section_of (tag : Z) : option Section_ :=
  if tag =? 1 then Some Registers else if tag =? 2 then Some DeviceInfo else None.
Definition tag (s : Section_) : Z := match s with Registers => 1 | DeviceInfo => 2 end.

Definition readable_info_key (key : Z) : bool :=
  ((1 <=? key) && (key <=? 42)) || (key =? 44).

(** ** Bytes and slices *)

Definition saturating_add (a b : Z) : Z := Z.min (a + b) (M64 - 1).
Definition saturating_mul (a b : Z) : Z := Z.min (a * b) (M64 - 1).
Definition u32_or_max (x : Z) : Z := if x <? M32 then x else M32 - 1.
(** [bytes.get(from..to)]. *)
Definition slice (bytes : list byte) (from to : Z) : option (list byte) :=
  if (from <=? to) && (to <=? Z.of_nat (length bytes))
  then Some (take (Z.to_nat (to - from)) (drop (Z.to_nat from) bytes)) else None.
(** [as_chunks]: the whole chunks of [n] bytes, and the rest. *)
Definition as_chunks (n : nat) (bytes : list byte) : list (list byte) * list byte :=
  let k := (length bytes / n)%nat in (reshape (replicate k n) bytes, drop (k * n) bytes).

Definition word (bytes : list byte) (offset : Z) : option Z :=
  end_ ← checked_add64 offset 4;
  b ← slice bytes offset end_;
  Some (of_le_bytes b).

(** ** The state *)

Record SuspendState := MkSuspendState {
  registers : SuspendDeviceState;
  device_info_max_key : Z;
  device_info : list KeyValuePair;
}.

Fixpoint take_while {A} (f : A -> bool) (l : list A) : list A :=
  match l with
  | [] => []
  | x :: l => if f x then x :: take_while f l else []
  end.

Definition new (registers : SuspendDeviceState) (device_info_max_key : Z)
    (written : list KeyValuePair) : SuspendState :=
  MkSuspendState registers device_info_max_key
    (take MAX_INFO_PAIRS (take_while (fun p => negb (key p =? 0)) written)).

(** The words' bytes, one after the other. *)
Definition words_bytes (ws : list Z) : list byte := concat (map (le_bytes 4) ws).

Definition serialize (s : SuspendState) : list byte :=
  let pairs := if (MAX_INFO_PAIRS <=? length (device_info s))%nat
               then take MAX_INFO_PAIRS (device_info s) else device_info s in
  let registers_ := to_words (registers s) in
  let registers_len := 4 * Z.of_nat (length registers_) in
  let info_len := saturating_add 4 (saturating_mul (Z.of_nat (length pairs)) 8) in
  let header := [SUSPEND_STATE_MAGIC; SUSPEND_STATE_VERSION; tag Registers;
                 u32_or_max registers_len] in
  let info_header := [tag DeviceInfo; u32_or_max info_len;
                      u32_of_i32 (device_info_max_key s)] in
  words_bytes (header ++ registers_ ++ info_header ++ flat_map (fun p => [key p; value p]) pairs).

(** ** Parsing *)

Definition parse_registers (payload : list byte) : option SuspendDeviceState :=
  let '(words, rest) := as_chunks 4 payload in
  if negb (length rest =? 0)%nat then None
  else if negb (length words =? REGISTER_WORDS)%nat then None
  else Some (from_words (map of_le_bytes words)).

Definition parse_pair (p : list byte) : KeyValuePair :=
  MkKeyValuePair (default 0 (word (take 4 p) 0)) (default 0 (word (drop 4 p) 0)).

Definition parse_device_info (payload : list byte) : option (Z * list KeyValuePair) :=
  max_key ← word payload 0;
  after ← slice payload 4 (Z.of_nat (length payload));
  let '(pairs, rest) := as_chunks 8 after in
  if negb (length rest =? 0)%nat || (MAX_INFO_PAIRS <? length pairs)%nat then None
  else Some (i32_of_u32 max_key, map parse_pair pairs).

(** A refusal's code, or the state. *)
Definition Parsed : Type := Z + SuspendState.
Definition invalid : option Parsed := Some (inl RESUME_ERROR_INVALID_CONTENT).

(** The end of the loop. *)
Definition assembled (registers : option SuspendDeviceState)
    (info : option (Z * list KeyValuePair)) : option Parsed :=
  match registers, info with
  | Some r, Some (k, ps) => Some (inr (MkSuspendState r k ps))
  | _, _ => invalid
  end.

(** [None] only out of fuel. *)
Fixpoint parse_loop (fuel : nat) (bytes : list byte) (registers : option SuspendDeviceState)
    (info : option (Z * list KeyValuePair)) (at_ : Z) : option Parsed :=
  match fuel with
  | O => None
  | S fuel =>
      if Z.of_nat (length bytes) <=? at_ then assembled registers info
      else
        match word bytes at_, word bytes (saturating_add at_ 4) with
        | Some tag, Some length =>
            let start := saturating_add at_ SECTION_HEADER_SIZE in
            match (end_ ← checked_add64 start length;
                   payload ← slice bytes start end_; Some (payload, end_)) with
            | None => invalid
            | Some (payload, end_) =>
                match section_of tag with
                | None => invalid
                | Some Registers =>
                    if registers then invalid
                    else match parse_registers payload with
                         | None => invalid
                         | Some r => parse_loop fuel bytes (Some r) info end_
                         end
                | Some DeviceInfo =>
                    if info then invalid
                    else match parse_device_info payload with
                         | None => invalid
                         | Some (max_key, pairs) =>
                             if forallb (fun p => readable_info_key (key p)) pairs
                             then parse_loop fuel bytes registers (Some (max_key, pairs)) end_
                             else invalid
                         end
                end
            end
        | _, _ => invalid
        end
  end.

Definition parse (bytes : list byte) : option Parsed :=
  match word bytes 0, word bytes 4 with
  | Some magic, Some version =>
      if negb (magic =? SUSPEND_STATE_MAGIC) then invalid
      else if negb (version =? SUSPEND_STATE_VERSION)
      then Some (inl RESUME_ERROR_INVALID_SUSPEND_STATE_VERSION)
      else parse_loop (S (length bytes)) bytes None None HEADER_SIZE
  | _, _ => invalid
  end.

(** ** Words, slices and chunks *)

Definition max_slice : Z := 2 ^ 63.

Lemma saturating_add_small a b : a + b < M64 -> saturating_add a b = a + b.
Proof. unfold saturating_add. lia. Qed.
Lemma checked_add64_small a b : a + b < M64 -> checked_add64 a b = Some (a + b).
Proof. intros H. unfold checked_add64. by rewrite (proj2 (Z.ltb_lt _ _) H). Qed.

Lemma slice_app a b c from to :
  from = Z.of_nat (length a) -> to = from + Z.of_nat (length b) ->
  slice (a ++ b ++ c) from to = Some b.
Proof.
  intros -> ->. unfold slice. rewrite !length_app.
  rewrite !(proj2 (Z.leb_le _ _)) by lia. cbn [andb].
  rewrite Nat2Z.id, drop_app_length, Z.add_simpl_l, Nat2Z.id. by rewrite take_app_length.
Qed.

Lemma slice_inv bs from to b :
  0 <= from -> slice bs from to = Some b ->
  to = from + Z.of_nat (length b) /\ to <= Z.of_nat (length bs) /\
  drop (Z.to_nat from) bs = b ++ drop (Z.to_nat to) bs.
Proof.
  intros Hf H. unfold slice in H. destruct (_ && _) eqn:E; [|done].
  injection H as <-. to_props. rewrite length_take, length_drop. split_and!; [lia..|].
  rewrite <- (take_drop (Z.to_nat (to - from)) (drop (Z.to_nat from) bs)) at 1.
  f_equal. rewrite drop_drop. f_equal. lia.
Qed.

Lemma word_at a v tl off :
  off = Z.of_nat (length a) -> off < max_slice -> u32 v ->
  word (a ++ le_bytes 4 v ++ tl) off = Some v.
Proof.
  intros Ha Hoff Hv. unfold word.
  rewrite checked_add64_small by (unfold max_slice, M64 in *; lia). cbn [mbind option_bind].
  rewrite (slice_app a (le_bytes 4 v) tl); [|done|by rewrite length_le_bytes].
  cbn [mbind option_bind]. by rewrite of_le_bytes_4.
Qed.

Lemma word_inv bs off w :
  0 <= off -> word bs off = Some w ->
  u32 w /\ off + 4 <= Z.of_nat (length bs) /\
  drop (Z.to_nat off) bs = le_bytes 4 w ++ drop (Z.to_nat (off + 4)) bs.
Proof.
  intros Hoff H. unfold word, checked_add64 in H. destruct (off + 4 <? M64); [|done].
  cbn [mbind option_bind] in H. destruct (slice bs off (off + 4)) as [b|] eqn:E; [|done].
  injection H as <-. apply slice_inv in E as (Hto & Hle & Hd); [|done].
  assert (length b = 4%nat) as Hl by lia.
  split; [by apply of_le_bytes_u32|]. split; [done|].
  by rewrite Hd, <- Hl, le_bytes_of_le_bytes.
Qed.

Lemma concat_mjoin {A} (l : list (list A)) : concat l = mjoin l.
Proof. induction l as [|x l IH]; [done|]. cbn [concat]. by rewrite IH. Qed.

Lemma as_chunks_concat n (l : list (list byte)) :
  (0 < n)%nat -> Forall (fun c => length c = n) l -> as_chunks n (concat l) = (l, []).
Proof.
  intros Hn Hl.
  assert (length (concat l) = length l * n)%nat as Hlen.
  { induction Hl as [|c l Hc Hl IH]; [done|]. cbn [concat length]. rewrite length_app. lia. }
  unfold as_chunks. rewrite Hlen, Nat.div_mul by lia. f_equal.
  - clear Hlen. induction Hl as [|c l Hc Hl IH]; [done|]. cbn [length replicate reshape concat].
    by rewrite <- Hc, take_app_length, drop_app_length, Hc, IH.
  - apply drop_ge. lia.
Qed.

Lemma as_chunks_inv n bs l rest :
  (0 < n)%nat -> as_chunks n bs = (l, rest) -> length rest = 0%nat ->
  bs = concat l /\ Forall (fun c => length c = n) l.
Proof.
  intros Hn H Hr. unfold as_chunks in H. injection H as <- <-.
  rewrite length_drop in Hr.
  pose proof (Nat.div_mod_eq (length bs) n). pose proof (Nat.mod_upper_bound (length bs) n).
  assert (length bs = length bs / n * n)%nat as Hlen by lia.
  assert (sum_list (replicate (length bs / n) n) = length bs) as Hs.
  { rewrite Hlen at 2. generalize (length bs / n)%nat as k. clear.
    induction k as [|k IH]; cbn [replicate sum_list_with]; [done|]. rewrite IH. cbn. lia. }
  split; [rewrite concat_mjoin; symmetry; by apply join_reshape|].
  revert Hs. generalize (length bs / n)%nat as k. clear. intros k. revert bs.
  induction k as [|k IH]; intros bs Hs; [constructor|]. cbn in *.
  constructor; [rewrite length_take; lia|]. apply IH. rewrite length_drop. lia.
Qed.

Lemma length_words_bytes ws : length (words_bytes ws) = (4 * length ws)%nat.
Proof.
  induction ws as [|w ws IH]; [done|]. unfold words_bytes in *. cbn [map concat length].
  rewrite length_app, IH, length_le_bytes. lia.
Qed.
Lemma words_bytes_app ws1 ws2 : words_bytes (ws1 ++ ws2) = words_bytes ws1 ++ words_bytes ws2.
Proof. unfold words_bytes. by rewrite map_app, concat_app. Qed.
Lemma words_bytes_cons w ws : words_bytes (w :: ws) = le_bytes 4 w ++ words_bytes ws.
Proof. done. Qed.

Lemma words_of_bytes ws :
  Forall (fun c => length c = 4%nat) ws -> words_bytes (map of_le_bytes ws) = concat ws.
Proof.
  induction 1 as [|c ws Hc Hws IH]; [done|]. cbn [map concat]. rewrite words_bytes_cons, IH.
  f_equal. rewrite <- Hc. apply le_bytes_of_le_bytes.
Qed.
Lemma bytes_of_words ws :
  Forall (fun w => u32 w) ws -> map of_le_bytes (map (le_bytes 4) ws) = ws.
Proof.
  induction 1 as [|w ws Hw Hws IH]; [done|]. cbn [map]. by rewrite IH, of_le_bytes_4.
Qed.

(** ** The payloads *)

Definition registers_ok (r : SuspendDeviceState) : Prop := Forall (fun w => u32 w) (to_words r).
Definition pair_ok (p : KeyValuePair) : Prop :=
  readable_info_key (key p) = true /\ u32 (key p) /\ u32 (value p).
Definition info_ok (k : Z) (ps : list KeyValuePair) : Prop :=
  - 2 ^ 31 <= k < 2 ^ 31 /\ (length ps <= MAX_INFO_PAIRS)%nat /\ Forall pair_ok ps.
Definition state_ok (s : SuspendState) : Prop :=
  registers_ok (registers s) /\ info_ok (device_info_max_key s) (device_info s).

Definition registers_payload (r : SuspendDeviceState) : list byte := words_bytes (to_words r).
Definition pair_bytes (p : KeyValuePair) : list byte := le_bytes 4 (key p) ++ le_bytes 4 (value p).
Definition info_payload (k : Z) (ps : list KeyValuePair) : list byte :=
  le_bytes 4 (u32_of_i32 k) ++ concat (map pair_bytes ps).

Lemma to_from_words ws : length ws = REGISTER_WORDS -> to_words (from_words ws) = ws.
Proof. intros H. do 20 (destruct ws as [|? ws]; [done|]). by destruct ws. Qed.

Lemma parse_registers_exact payload r :
  parse_registers payload = Some r <-> registers_ok r /\ payload = registers_payload r.
Proof.
  unfold parse_registers, registers_payload, registers_ok. split.
  - destruct (as_chunks 4 payload) as [ws rest] eqn:E.
    destruct (length rest =? 0)%nat eqn:Hr; [|done].
    destruct (length ws =? REGISTER_WORDS)%nat eqn:Hw; [|done]. cbn [negb]. intros [= <-].
    to_props. apply as_chunks_inv in E as [-> Hws]; [|lia|done].
    rewrite to_from_words by (by rewrite length_map). rewrite words_of_bytes by done.
    split; [|done]. apply Forall_map. apply (list.Forall_impl _ _ _ Hws).
    intros c Hc. by apply of_le_bytes_u32.
  - intros [Hr ->]. unfold words_bytes.
    rewrite as_chunks_concat; [|lia|apply Forall_map, list.Forall_true; intros; apply length_le_bytes].
    cbn [length Nat.eqb negb]. rewrite bytes_of_words by done. rewrite length_map.
    cbn [to_words length Nat.eqb negb REGISTER_WORDS]. by destruct r.
Qed.

Lemma i32_u32 k : - 2 ^ 31 <= k < 2 ^ 31 -> i32_of_u32 (u32_of_i32 k) = k.
Proof.
  intros Hk. unfold i32_of_u32, u32_of_i32, w32. rewrite M32_val.
  destruct (Z.ltb_spec (k mod 4294967296) (2 ^ 31));
    Z.to_euclidean_division_equations; lia.
Qed.
Lemma u32_i32 w : u32 w -> u32_of_i32 (i32_of_u32 w) = w /\ - 2 ^ 31 <= i32_of_u32 w < 2 ^ 31.
Proof.
  intros Hw. unfold i32_of_u32, u32_of_i32, w32. rewrite M32_val in *.
  destruct (Z.ltb_spec w (2 ^ 31)); Z.to_euclidean_division_equations; lia.
Qed.

Lemma parse_pair_bytes p : u32 (key p) -> u32 (value p) -> parse_pair (pair_bytes p) = p.
Proof.
  intros Hk Hv. unfold parse_pair, pair_bytes.
  rewrite take_app_length', drop_app_length' by (by rewrite length_le_bytes).
  rewrite <- (app_nil_r (le_bytes 4 (key p))), <- (app_nil_r (le_bytes 4 (value p))).
  rewrite (word_at [] (key p) []), (word_at [] (value p) []) by done. by destruct p.
Qed.

Lemma le_bytes_4 c : length c = 4%nat -> le_bytes 4 (of_le_bytes c) = c.
Proof. intros Hc. rewrite <- Hc. apply le_bytes_of_le_bytes. Qed.

Lemma pair_bytes_parse c :
  length c = 8%nat -> pair_bytes (parse_pair c) = c /\ u32 (key (parse_pair c)) /\ u32 (value (parse_pair c)).
Proof.
  intros Hc. rewrite <- (take_drop 4 c).
  assert (length (take 4 c) = 4%nat) as H1 by (rewrite length_take; lia).
  assert (length (drop 4 c) = 4%nat) as H2 by (rewrite length_drop; lia).
  revert H1 H2. generalize (take 4 c) (drop 4 c). clear. intros a b Ha Hb.
  assert (a ++ b = pair_bytes (MkKeyValuePair (of_le_bytes a) (of_le_bytes b))) as ->.
  { unfold pair_bytes. cbn [key value]. by rewrite !le_bytes_4. }
  pose proof (of_le_bytes_u32 a Ha). pose proof (of_le_bytes_u32 b Hb).
  by rewrite parse_pair_bytes.
Qed.

Lemma length_info_payload k ps : length (info_payload k ps) = (4 + 8 * length ps)%nat.
Proof.
  unfold info_payload. rewrite length_app, length_le_bytes. f_equal.
  induction ps as [|p ps IH]; [done|]. cbn [map concat length]. rewrite length_app, IH.
  unfold pair_bytes. rewrite length_app, !length_le_bytes. lia.
Qed.

Lemma parse_device_info_exact payload k ps :
  Z.of_nat (length payload) < max_slice ->
  parse_device_info payload = Some (k, ps) /\ forallb (fun p => readable_info_key (key p)) ps = true <->
  info_ok k ps /\ payload = info_payload k ps.
Proof.
  intros Hlen. unfold info_ok. split.
  - intros [H Hread]. unfold parse_device_info in H.
    destruct (word payload 0) as [w|] eqn:Hw; [|done]. cbn [mbind option_bind] in H.
    destruct (slice payload 4 _) as [after|] eqn:Hs; [|done]. cbn [mbind option_bind] in H.
    destruct (as_chunks 8 after) as [cs rest] eqn:E.
    destruct (length rest =? 0)%nat eqn:Hr; [|done]. cbn [negb orb] in H.
    destruct (MAX_INFO_PAIRS <? length cs)%nat eqn:Hn; [done|]. injection H as <- <-. to_props.
    apply as_chunks_inv in E as [-> Hcs]; [|lia|done].
    apply word_inv in Hw as (Hw & _ & Hd); [|done].
    apply slice_inv in Hs as (_ & _ & Hs); [|done].
    destruct (u32_i32 w Hw) as [Hu Hk].
    split; [split_and!; [lia..|by rewrite length_map|]|].
    + apply Forall_map. apply list.Forall_forall. intros c Hc.
      apply forallb_forall with (x := parse_pair c) in Hread; [|by apply in_map, list_elem_of_In].
      destruct (pair_bytes_parse c) as (_ & ? & ?); [by apply (proj1 (list.Forall_forall _ _) Hcs)|].
      done.
    + unfold info_payload. rewrite Hu, map_map. change (drop (Z.to_nat 0) payload) with payload in Hd.
      rewrite Hd. f_equal. change (drop (Z.to_nat 4) payload) with (drop (Z.to_nat (0 + 4)) payload) in Hs.
      rewrite Hs, (drop_ge payload), app_nil_r by lia. f_equal.
      rewrite <- (map_id cs) at 1. apply map_ext_Forall.
      apply (list.Forall_impl _ _ _ Hcs). intros c Hc. symmetry. by apply pair_bytes_parse.
  - intros [(Hk & Hn & Hps) ->]. unfold parse_device_info.
    assert (word (info_payload k ps) 0 = Some (u32_of_i32 k)) as ->
      by (apply (word_at []); [done..|apply w32_range]). cbn [mbind option_bind].
    pose proof (length_info_payload k ps) as Hl. unfold info_payload at 1.
    rewrite <- (app_nil_r (concat _)).
    rewrite slice_app; [|by rewrite length_le_bytes|].
    2: { rewrite Hl. unfold info_payload in Hl. rewrite length_app, length_le_bytes in Hl. lia. }
    cbn [mbind option_bind].
    rewrite as_chunks_concat; [|lia|].
    2: { apply Forall_map, list.Forall_true. intros p. unfold pair_bytes.
         by rewrite length_app, !length_le_bytes. }
    rewrite length_map, (proj2 (Nat.ltb_ge _ _)) by done. cbn [length Nat.eqb negb orb].
    rewrite i32_u32, map_map by done.
    assert (map (fun x => parse_pair (pair_bytes x)) ps = ps) as ->.
    { rewrite <- (map_id ps) at 2. apply map_ext_Forall. apply (list.Forall_impl _ _ _ Hps).
      intros p (_ & ? & ?). by apply parse_pair_bytes. }
    split; [done|]. apply forallb_forall. intros p Hp.
    apply list_elem_of_In in Hp. by apply (proj1 (list.Forall_forall _ _) Hps).
Qed.

(** ** The sections *)

Definition section_bytes (s : Section_) (payload : list byte) : list byte :=
  le_bytes 4 (tag s) ++ le_bytes 4 (Z.of_nat (length payload)) ++ payload.

Lemma length_section s payload : length (section_bytes s payload) = (8 + length payload)%nat.
Proof. unfold section_bytes. rewrite !length_app, !length_le_bytes. lia. Qed.

Lemma section_of_tag s : section_of (tag s) = Some s.
Proof. by destruct s. Qed.
Lemma tag_of_section w s : section_of w = Some s -> w = tag s.
Proof.
  unfold section_of. destruct (Z.eqb_spec w 1); [by intros [= <-]|].
  destruct (Z.eqb_spec w 2); [by intros [= <-]|done].
Qed.

(** What a section at the cursor does to the loop. *)
Definition after_section (fuel : nat) (bytes : list byte) (registers : option SuspendDeviceState)
    (info : option (Z * list KeyValuePair)) (sec : Section_) (payload : list byte) (at_ : Z)
    : option Parsed :=
  match sec with
  | Registers =>
      if registers then invalid
      else match parse_registers payload with
           | None => invalid
           | Some r => parse_loop fuel bytes (Some r) info at_
           end
  | DeviceInfo =>
      if info then invalid
      else match parse_device_info payload with
           | None => invalid
           | Some (max_key, pairs) =>
               if forallb (fun p => readable_info_key (key p)) pairs
               then parse_loop fuel bytes registers (Some (max_key, pairs)) at_
               else invalid
           end
  end.

Lemma loop_section fuel pre sec payload rest regs info :
  let bytes := pre ++ section_bytes sec payload ++ rest in
  Z.of_nat (length bytes) < max_slice -> Z.of_nat (length payload) < M32 ->
  parse_loop (S fuel) bytes regs info (Z.of_nat (length pre)) =
  after_section fuel bytes regs info sec payload
    (Z.of_nat (length (pre ++ section_bytes sec payload))).
Proof.
  intros bytes Hlen Hp. assert (max_slice + 8 < M64) as Hm by done.
  assert (bytes = pre ++ le_bytes 4 (tag sec) ++ le_bytes 4 (Z.of_nat (length payload)) ++
    payload ++ rest) as Hb.
  { subst bytes. unfold section_bytes. by rewrite <- !app_assoc. }
  assert (length bytes = length pre + (8 + length payload) + length rest)%nat as Hl
    by (subst bytes; rewrite !length_app, length_section; lia).
  cbn [parse_loop]. rewrite (proj2 (Z.leb_gt _ _)) by lia.
  rewrite !saturating_add_small by (unfold SECTION_HEADER_SIZE; lia).
  unfold SECTION_HEADER_SIZE.
  assert (word bytes (Z.of_nat (length pre)) = Some (tag sec)) as ->.
  { rewrite Hb. apply word_at; [done|lia|by destruct sec]. }
  assert (word bytes (Z.of_nat (length pre) + 4) = Some (Z.of_nat (length payload))) as ->.
  { rewrite Hb, app_assoc. apply word_at; [rewrite length_app, length_le_bytes|..]; lia. }
  rewrite checked_add64_small by lia. cbn [mbind option_bind].
  assert (slice bytes (Z.of_nat (length pre) + 8)
    (Z.of_nat (length pre) + 8 + Z.of_nat (length payload)) = Some payload) as ->.
  { rewrite Hb, !app_assoc, <- (app_assoc _ payload). apply slice_app; [|done].
    rewrite !length_app, !length_le_bytes. lia. }
  cbn [mbind option_bind]. rewrite section_of_tag.
  assert (Z.of_nat (length pre) + 8 + Z.of_nat (length payload)
    = Z.of_nat (length (pre ++ section_bytes sec payload))) as ->
    by (rewrite length_app, length_section; lia).
  done.
Qed.

(** A loop that answers a state has a section at the cursor, or has ended. *)
Lemma loop_inv fuel pre rest regs info s :
  let bytes := pre ++ rest in
  Z.of_nat (length bytes) < max_slice -> rest <> [] ->
  parse_loop (S fuel) bytes regs info (Z.of_nat (length pre)) = Some (inr s) ->
  exists sec payload rest', rest = section_bytes sec payload ++ rest' /\
    Z.of_nat (length payload) < M32.
Proof.
  intros bytes Hlen Hne H. assert (max_slice + 8 < M64) as Hm by done.
  assert (length bytes = length pre + length rest)%nat as Hl by apply length_app.
  assert (0 < length rest)%nat by (destruct rest; [done|cbn; lia]).
  cbn [parse_loop] in H. rewrite (proj2 (Z.leb_gt _ _)) in H by lia.
  rewrite !saturating_add_small in H by (unfold SECTION_HEADER_SIZE; lia).
  destruct (word bytes (Z.of_nat (length pre))) as [w|] eqn:Hw; [|done].
  destruct (word bytes (Z.of_nat (length pre) + 4)) as [n|] eqn:Hn; [|done].
  destruct (checked_add64 _ n) as [e|] eqn:He; [|done]. cbn [mbind option_bind] in H.
  destruct (slice bytes _ e) as [payload|] eqn:Hs; [|done]. cbn [mbind option_bind] in H.
  destruct (section_of w) as [sec|] eqn:Hsec; [|done].
  apply tag_of_section in Hsec as ->. unfold SECTION_HEADER_SIZE in *.
  apply word_inv in Hw as (_ & _ & Hd1); [|lia].
  apply word_inv in Hn as (Hn & _ & Hd2); [|lia].
  apply slice_inv in Hs as (Hto & _ & Hd3); [|lia].
  unfold checked_add64 in He. destruct (_ <? M64); [|done]. injection He as <-.
  exists sec, payload, (drop (Z.to_nat (Z.of_nat (length pre) + 8 + n)) bytes).
  split; [|lia]. unfold section_bytes.
  replace (Z.of_nat (length payload)) with n by lia. rewrite <- !app_assoc.
  rewrite <- Hd3. replace (Z.of_nat (length pre) + 8) with (Z.of_nat (length pre) + 4 + 4) by lia.
  rewrite <- Hd2, <- Hd1, Nat2Z.id. subst bytes. by rewrite drop_app_length.
Qed.

Definition header_bytes : list byte := words_bytes [SUSPEND_STATE_MAGIC; SUSPEND_STATE_VERSION].
Definition registers_section (s : SuspendState) : list byte :=
  section_bytes Registers (registers_payload (registers s)).
Definition info_section (s : SuspendState) : list byte :=
  section_bytes DeviceInfo (info_payload (device_info_max_key s) (device_info s)).

Lemma words_of_pairs ps :
  words_bytes (flat_map (fun p => [key p; value p]) ps) = concat (map pair_bytes ps).
Proof.
  induction ps as [|p ps IH]; [done|]. cbn [flat_map map app concat].
  rewrite !words_bytes_cons, IH. unfold pair_bytes. by rewrite <- app_assoc.
Qed.

Lemma serialize_sections s :
  (length (device_info s) <= MAX_INFO_PAIRS)%nat ->
  serialize s = header_bytes ++ registers_section s ++ info_section s.
Proof.
  intros Hn. unfold serialize, registers_section, info_section, section_bytes.
  assert ((if (MAX_INFO_PAIRS <=? length (device_info s))%nat
           then take MAX_INFO_PAIRS (device_info s) else device_info s) = device_info s) as ->.
  { destruct (Nat.leb_spec MAX_INFO_PAIRS (length (device_info s))); [|done].
    by rewrite take_ge by lia. }
  unfold saturating_add, saturating_mul, u32_or_max. pose proof M32_val. pose proof M64_val.
  unfold MAX_INFO_PAIRS in Hn. cbn [length to_words].
  rewrite !Z.min_l by lia. rewrite !(proj2 (Z.ltb_lt _ _)) by lia.
  rewrite !words_bytes_app. unfold header_bytes. rewrite !words_bytes_cons, <- !app_assoc.
  rewrite length_info_payload. unfold registers_payload. rewrite length_words_bytes.
  replace (4 + Z.of_nat (length (device_info s)) * 8)
    with (Z.of_nat (4 + 8 * length (device_info s))) by lia.
  rewrite words_of_pairs. reflexivity.
Qed.

Lemma loop_end fuel bytes regs info :
  parse_loop (S fuel) bytes regs info (Z.of_nat (length bytes)) = assembled regs info.
Proof. cbn [parse_loop]. by rewrite (proj2 (Z.leb_le _ _)) by lia. Qed.

Lemma magic_at tl : word (le_bytes 4 SUSPEND_STATE_MAGIC ++ tl) 0 = Some SUSPEND_STATE_MAGIC.
Proof. by apply (word_at []). Qed.

Lemma parse_header rest :
  Z.of_nat (length (header_bytes ++ rest)) < max_slice ->
  parse (header_bytes ++ rest) =
  parse_loop (S (length (header_bytes ++ rest))) (header_bytes ++ rest) None None
    (Z.of_nat (length header_bytes)).
Proof.
  intros H. unfold parse, header_bytes. rewrite !words_bytes_cons, <- !app_assoc.
  rewrite magic_at. by rewrite (word_at (le_bytes 4 SUSPEND_STATE_MAGIC) SUSPEND_STATE_VERSION) by done.
Qed.

Lemma parse_header_inv bytes s :
  parse bytes = Some (inr s) -> exists rest, bytes = header_bytes ++ rest.
Proof.
  unfold parse. destruct (word bytes 0) as [m|] eqn:Hm; [|done].
  destruct (word bytes 4) as [v|] eqn:Hv; [|done].
  destruct (Z.eqb_spec m SUSPEND_STATE_MAGIC) as [->|]; [|done].
  destruct (Z.eqb_spec v SUSPEND_STATE_VERSION) as [->|]; [|done]. intros _.
  apply word_inv in Hm as (_ & _ & Hm); [|done]. apply word_inv in Hv as (_ & _ & Hv); [|done].
  exists (drop 8 bytes). unfold header_bytes. rewrite !words_bytes_cons, <- !app_assoc.
  change (drop (Z.to_nat 0) bytes) with bytes in Hm. rewrite Hm at 1. f_equal. exact Hv.
Qed.

(** The registers and the device info of [s], in either order. *)
Lemma parse_two s A B :
  state_ok s ->
  (A = registers_section s /\ B = info_section s \/ A = info_section s /\ B = registers_section s) ->
  parse (header_bytes ++ A ++ B) = Some (inr s).
Proof.
  intros [Hr Hi] HAB.
  destruct s as [r k ps]. cbn [registers device_info device_info_max_key] in *.
  assert (parse_registers (registers_payload r) = Some r) as Hpr
    by (by apply parse_registers_exact).
  assert (length (registers_payload r) = 80)%nat as Hlr
    by (unfold registers_payload; by rewrite length_words_bytes).
  pose proof (length_info_payload k ps) as Hli. pose proof Hi as (_ & Hn & _).
  unfold MAX_INFO_PAIRS in Hn.
  assert (Z.of_nat (length (info_payload k ps)) < 1000) as Hsmall by lia.
  destruct (parse_device_info_exact (info_payload k ps) k ps) as [_ [Hpi Hread]];
    [unfold max_slice; lia|done|].
  set (bytes := header_bytes ++ A ++ B).
  assert (Z.of_nat (length bytes) < 2000) as Hlen.
  { subst bytes. rewrite !length_app. change (length header_bytes) with 8%nat.
    unfold registers_section, info_section in HAB.
    cbn [registers device_info device_info_max_key] in HAB.
    destruct HAB as [[-> ->]|[-> ->]]; rewrite !length_section; lia. }
  assert (max_slice = 2 ^ 63) by done. pose proof M32_val.
  subst bytes. rewrite parse_header by lia.
  destruct (length (header_bytes ++ A ++ B)) as [|[|f]] eqn:Hf.
  1,2: rewrite !length_app in Hf; discriminate Hf.
  destruct HAB as [[-> ->]|[-> ->]]; unfold registers_section, info_section in *;
    cbn [registers device_info device_info_max_key] in *.
  - rewrite (loop_section _ header_bytes Registers) by lia. cbn [after_section]. rewrite Hpr.
    pose proof (loop_section (S f) (header_bytes ++ section_bytes Registers (registers_payload r))
      DeviceInfo (info_payload k ps) [] (Some r) None) as H2.
    cbv zeta in H2. rewrite app_nil_r, <- !app_assoc in H2. rewrite H2 by lia.
    cbn [after_section]. rewrite Hpi, Hread. apply loop_end.
  - rewrite (loop_section _ header_bytes DeviceInfo) by lia. cbn [after_section].
    rewrite Hpi, Hread.
    pose proof (loop_section (S f) (header_bytes ++ section_bytes DeviceInfo (info_payload k ps))
      Registers (registers_payload r) [] None (Some (k, ps))) as H2.
    cbv zeta in H2. rewrite app_nil_r, <- !app_assoc in H2. rewrite H2 by lia.
    cbn [after_section]. rewrite Hpr. apply loop_end.
Qed.

Lemma loop_done pre rest fuel regs info s :
  Z.of_nat (length (pre ++ rest)) < max_slice ->
  parse_loop (S fuel) (pre ++ rest) regs info (Z.of_nat (length pre)) = Some (inr s) ->
  (rest = [] /\ regs = Some (registers s) /\ info = Some (device_info_max_key s, device_info s)) \/
  exists sec payload rest', rest = section_bytes sec payload ++ rest' /\
    after_section fuel (pre ++ rest) regs info sec payload
      (Z.of_nat (length (pre ++ section_bytes sec payload))) = Some (inr s).
Proof.
  intros Hlen H. destruct rest as [|b rest].
  - left. rewrite app_nil_r, loop_end in H. unfold assembled in H.
    destruct regs as [r|]; [|done]. destruct info as [[k ps]|]; [|done]. by injection H as <-.
  - right. destruct (loop_inv fuel pre (b :: rest) regs info s) as (sec & payload & rest' & Hr & Hp);
      [done..|].
    exists sec, payload, rest'. split; [done|]. rewrite Hr in *.
    by rewrite loop_section in H.
Qed.

Lemma after_section_inv fuel pre sec payload rest regs info s :
  let bytes := pre ++ section_bytes sec payload ++ rest in
  Z.of_nat (length bytes) < max_slice ->
  after_section fuel bytes regs info sec payload
    (Z.of_nat (length (pre ++ section_bytes sec payload))) = Some (inr s) ->
  match sec with
  | Registers => regs = None /\ exists r, registers_ok r /\ payload = registers_payload r /\
      parse_loop fuel ((pre ++ section_bytes sec payload) ++ rest) (Some r) info
        (Z.of_nat (length (pre ++ section_bytes sec payload))) = Some (inr s)
  | DeviceInfo => info = None /\ exists k ps, info_ok k ps /\ payload = info_payload k ps /\
      parse_loop fuel ((pre ++ section_bytes sec payload) ++ rest) regs (Some (k, ps))
        (Z.of_nat (length (pre ++ section_bytes sec payload))) = Some (inr s)
  end.
Proof.
  intros bytes Hlen H. subst bytes. destruct sec; cbn [after_section] in H.
  - destruct regs; [done|]. split; [done|].
    destruct (parse_registers payload) as [r|] eqn:Hr; [|done].
    apply parse_registers_exact in Hr as [Hr ->]. exists r. by rewrite <- app_assoc.
  - destruct info; [done|]. split; [done|].
    destruct (parse_device_info payload) as [[k ps]|] eqn:Hi; [|done].
    destruct (forallb _ ps) eqn:Hread; [|done].
    destruct (proj1 (parse_device_info_exact payload k ps ltac:(rewrite !length_app, length_section in Hlen; lia)) (conj Hi Hread)) as [Hok ->].
    exists k, ps. by rewrite <- app_assoc.
Qed.

Lemma parse_two_inv bytes s :
  Z.of_nat (length bytes) < max_slice -> parse bytes = Some (inr s) ->
  state_ok s /\ exists A B, bytes = header_bytes ++ A ++ B /\
    (A = registers_section s /\ B = info_section s \/ A = info_section s /\ B = registers_section s).
Proof.
  intros Hlen H. destruct (parse_header_inv bytes s H) as [rest ->].
  rewrite parse_header in H by done.
  destruct (length (header_bytes ++ rest)) as [|[|f]] eqn:Hf.
  1,2: rewrite !length_app in Hf; discriminate Hf.
  rewrite <- Hf in Hlen. clear Hf.
  apply loop_done in H as [(_ & ? & _)|(sec & p & rest1 & -> & H)]; [done| |done].
  apply after_section_inv in H; [|done]. rewrite app_assoc in Hlen.
  destruct sec; destruct H as [_ H].
  - destruct H as (r & Hr & -> & H).
    apply loop_done in H as [(_ & _ & ?)|(sec & p & rest2 & -> & H)]; [done| |done].
    apply after_section_inv in H; [|done]. destruct sec; destruct H as [? H]; [done|].
    destruct H as (k & ps & Hi & -> & H). rewrite app_assoc in Hlen.
    apply loop_done in H as [(-> & [= ->] & [= -> ->])|(sec & p & rest3 & -> & H)]; [| |done].
    + split; [done|]. exists (registers_section s), (info_section s).
      split; [|by left]. by rewrite app_nil_r.
    + apply after_section_inv in H; [|done]. by destruct sec, H.
  - destruct H as (k & ps & Hi & -> & H).
    apply loop_done in H as [(_ & ? & _)|(sec & p & rest2 & -> & H)]; [done| |done].
    apply after_section_inv in H; [|done]. destruct sec; destruct H as [? H]; [|done].
    destruct H as (r & Hr & -> & H). rewrite app_assoc in Hlen.
    apply loop_done in H as [(-> & [= ->] & [= -> ->])|(sec & p & rest3 & -> & H)]; [| |done].
    + split; [done|]. exists (info_section s), (registers_section s).
      split; [|by right]. by rewrite app_nil_r.
    + apply after_section_inv in H; [|done]. by destruct sec, H.
Qed.

(** ** Properties *)

(** C38: a resume reads back what a suspend wrote, and nothing else. The blobs
    [parse] takes a state from are the state's own [serialize] and the same blob
    with its two sections swapped, and the state is within the format's bounds:
    at most 45 pairs, each with a key a resume reads. *)
Theorem parse_exact bytes s :
  Z.of_nat (length bytes) < max_slice ->
  parse bytes = Some (inr s) <->
  state_ok s /\ (bytes = serialize s \/ bytes = header_bytes ++ info_section s ++ registers_section s).
Proof.
  intros Hlen. split.
  - intros H. destruct (parse_two_inv bytes s Hlen H) as (Hok & A & B & -> & HAB).
    split; [done|]. rewrite serialize_sections by apply Hok.
    destruct HAB as [[-> ->]|[-> ->]]; auto.
  - intros [Hok [->| ->]].
    + rewrite serialize_sections by apply Hok. apply parse_two; auto.
    + apply parse_two; auto.
Qed.

Definition sample_state : SuspendState :=
  new (from_words (seqZ 1 20)) (-7) [MkKeyValuePair 42 9; MkKeyValuePair 44 8; MkKeyValuePair 0 0].

Lemma parse_exact_witness :
  length (serialize sample_state) = 124%nat /\ parse (serialize sample_state) = Some (inr sample_state).
Proof.
  split; [reflexivity|]. apply (parse_exact (serialize sample_state)); [reflexivity|].
  split; [|left; reflexivity]. split; [|split; [|split]].
  - repeat constructor; vm_compute; congruence.
  - vm_compute. split; congruence.
  - vm_compute. lia.
  - repeat constructor; vm_compute; congruence.
Defined.

Lemma loop_answers fuel bytes : forall regs info at_,
  Z.of_nat (length bytes) < max_slice -> 0 <= at_ <= Z.of_nat (length bytes) ->
  Z.of_nat (length bytes) - at_ < Z.of_nat fuel ->
  exists r, parse_loop fuel bytes regs info at_ = Some r /\
    forall c, r = inl c -> c = RESUME_ERROR_INVALID_CONTENT.
Proof.
  assert (forall P : Parsed -> Prop, P (inl RESUME_ERROR_INVALID_CONTENT) ->
    exists r, invalid = Some r /\ P r) as Hinv by (intros P HP; by eexists).
  assert (max_slice + 8 < M64) by done.
  induction fuel as [|fuel IH]; intros regs info at_ Hlen Hat Hf; cbn [parse_loop].
  { exfalso. lia. }
  destruct (Z.leb_spec (Z.of_nat (length bytes)) at_).
  { unfold assembled. destruct regs; [|apply Hinv; congruence].
    destruct info as [[? ?]|]; [|apply Hinv; congruence]. eexists. split; [done|congruence]. }
  rewrite !saturating_add_small by (unfold SECTION_HEADER_SIZE; lia).
  destruct (word bytes at_); [|apply Hinv; congruence].
  destruct (word bytes (at_ + 4)); [|apply Hinv; congruence].
  unfold SECTION_HEADER_SIZE.
  destruct (checked_add64 (at_ + 8) z0) as [e|]; cbn [mbind option_bind]; [|apply Hinv; congruence].
  destruct (slice bytes (at_ + 8) e) as [payload|] eqn:Hs; cbn [mbind option_bind];
    [|apply Hinv; congruence].
  apply slice_inv in Hs as (He & Hel & _); [|lia].
  assert (0 <= e <= Z.of_nat (length bytes) /\ Z.of_nat (length bytes) - e < Z.of_nat fuel) as [Hae Hle] by lia.
  destruct (section_of z) as [[]|]; [| |apply Hinv; congruence].
  - destruct regs; [apply Hinv; congruence|].
    destruct (parse_registers payload); [|apply Hinv; congruence]. by apply IH.
  - destruct info; [apply Hinv; congruence|].
    destruct (parse_device_info payload) as [[k ps]|]; [|apply Hinv; congruence].
    destruct (forallb _ ps); [|apply Hinv; congruence]. by apply IH.
Qed.

(** Every blob is answered: the walk over the sections ends, with a state or
    with one of the two codes, and the version code is the answer exactly to a blob
    with this library's magic and another version. *)
Theorem parse_answers bytes :
  Z.of_nat (length bytes) < max_slice ->
  exists r, parse bytes = Some r /\
    (forall c, r = inl c ->
      c = RESUME_ERROR_INVALID_CONTENT \/ c = RESUME_ERROR_INVALID_SUSPEND_STATE_VERSION) /\
    (r = inl RESUME_ERROR_INVALID_SUSPEND_STATE_VERSION <->
     exists version rest, u32 version /\ version <> SUSPEND_STATE_VERSION /\
       bytes = le_bytes 4 SUSPEND_STATE_MAGIC ++ le_bytes 4 version ++ rest).
Proof.
  intros Hlen.
  assert (forall r, parse bytes = Some r ->
    (forall version rest, u32 version -> version <> SUSPEND_STATE_VERSION ->
      bytes = le_bytes 4 SUSPEND_STATE_MAGIC ++ le_bytes 4 version ++ rest ->
      r = inl RESUME_ERROR_INVALID_SUSPEND_STATE_VERSION)) as Hback.
  { intros r Hr v rest Hv Hne ->. unfold parse in Hr.
    rewrite magic_at in Hr.
    rewrite (word_at (le_bytes 4 SUSPEND_STATE_MAGIC) v) in Hr by done.
    rewrite Z.eqb_refl, (proj2 (Z.eqb_neq _ _) Hne) in Hr. by injection Hr as <-. }
  assert (forall r, parse bytes = Some r ->
    (forall c, r = inl c -> c = RESUME_ERROR_INVALID_CONTENT) ->
    exists r, parse bytes = Some r /\
    (forall c, r = inl c ->
      c = RESUME_ERROR_INVALID_CONTENT \/ c = RESUME_ERROR_INVALID_SUSPEND_STATE_VERSION) /\
    (r = inl RESUME_ERROR_INVALID_SUSPEND_STATE_VERSION <->
     exists version rest, u32 version /\ version <> SUSPEND_STATE_VERSION /\
       bytes = le_bytes 4 SUSPEND_STATE_MAGIC ++ le_bytes 4 version ++ rest)) as Hcontent.
  { intros r Hr Hc. exists r. split_and!; [done|auto|]. split.
    - intros ->. discriminate (Hc _ eq_refl).
    - intros (v & rest & ? & ? & ?). by apply (Hback r Hr v rest). }
  destruct (word bytes 0) as [m|] eqn:Hm.
  2: { apply (Hcontent (inl RESUME_ERROR_INVALID_CONTENT)); [|congruence]. unfold parse. by rewrite Hm. }
  destruct (word bytes 4) as [v|] eqn:Hv.
  2: { apply (Hcontent (inl RESUME_ERROR_INVALID_CONTENT)); [|congruence]. unfold parse. by rewrite Hm, Hv. }
  destruct (Z.eqb_spec m SUSPEND_STATE_MAGIC) as [->|Hne].
  2: { apply (Hcontent (inl RESUME_ERROR_INVALID_CONTENT)); [|congruence]. unfold parse.
       by rewrite Hm, Hv, (proj2 (Z.eqb_neq _ _) Hne). }
  apply word_inv in Hm as Hm'; [|done]. apply word_inv in Hv as Hv'; [|done].
  destruct (Z.eqb_spec v SUSPEND_STATE_VERSION) as [->|Hne].
  - destruct (loop_answers (S (length bytes)) bytes None None HEADER_SIZE) as (r & Hr & Hc);
      [done|unfold HEADER_SIZE; lia..|].
    apply (Hcontent r); [|done]. unfold parse. by rewrite Hm, Hv, !Z.eqb_refl.
  - exists (inl RESUME_ERROR_INVALID_SUSPEND_STATE_VERSION). split_and!.
    + unfold parse. by rewrite Hm, Hv, Z.eqb_refl, (proj2 (Z.eqb_neq _ _) Hne).
    + intros c [= <-]. by right.
    + split; [intros _|done]. exists v, (drop 8 bytes). split; [apply Hv'|]. split; [done|].
      change bytes with (drop (Z.to_nat 0) bytes) at 1. rewrite (proj2 (proj2 Hm')). f_equal.
      exact (proj2 (proj2 Hv')).
Qed.

Lemma parse_answers_witness :
  exists r, parse (le_bytes 4 SUSPEND_STATE_MAGIC ++ le_bytes 4 7) = Some r /\
    r = inl RESUME_ERROR_INVALID_SUSPEND_STATE_VERSION.
Proof.
  destruct (parse_answers (le_bytes 4 SUSPEND_STATE_MAGIC ++ le_bytes 4 7)) as (r & Hr & _ & Hv);
    [reflexivity|].
  exists r. split; [exact Hr|]. apply Hv. exists 7, []. split; [by vm_compute|]. by split.
Defined.

End SuspendBlob.
