(* ===== verification/Features.v ===== *)
(** * Features: the binary versions and the features each gives
    (src/crates/reims-vgpu-core/src/guest/abi/features.rs)

    The cumulative switch from a version to its features, and the negotiation of
    a guest's version request against the host's highest version and the device's
    feature level. A version is an [i32], here a signed [Z]. Log lines are not
    modelled. *)

From S2P Require Import Prelude GuestRecords.

Module Features.
Import GuestRecords.

Definition DEVICE_FEATURE_LEVEL_MAX : Z := 5.
Definition HIGHEST_BINARY_VERSION : Z := 0xf5.

(** Where the guest ABI's codecs end the process. *)
Inductive GuestDeath : Type := UnknownInfoKey | FeatureLevelTooHigh.

(** [f] with the field [p] set to [v]. *)
Ltac set_field f p v :=
  let r := constr:(MkGuestFeatures
    (valid f) (unsupported f) (object_tables f) (efi_display f) (display_doorbell f)
    (mapper_io_surfaces f) (synchronize_and_discard_resources f) (display_mapper_surface f)
    (discard_resources f) (display_sleep f) (supports_rgha_presents f)
    (synchronize_discard_child_resources f) (dual_plane_textures f) (display_set_properties f)
    (display_dimension_floats f) (metal_heaps f) (buffer_from_io_surface f) (max_fifo_count f)
    (s8_byte_count_for_d32s8 f) (supports_shared_textures f) (supports_info_encoder f)
    (supports_default_raster_sample_count f) (supports_vertex_amplification f)
    (supports_sunburst_display f) (supports_programmable_sample_positions f)
    (supports_variable_rasterization_rate_maps f) (supports_tile_shaders_image_blocks f)
    (supports_display_compositor_parameters f) (supports_cmd_exec_indirect3 f)
    (supports_swizzled_textures f) (supports_dynamic_attribute_stride f)
    (supports_blit_encoder_spi f) (supports_multiplane_mipped_blit_textures f)
    (supports_compute_pass_descriptor_dispatch_type f) (supports_object_unique_identifier f)
    (supports_command_buffer_jump f) (supports_shared_storage_heaps f)
    (supports_heap_hazard_tracking f) (supports_protection_options_envelope f)
    (supports_insert_compressed_texture_reinterpretation_flush f) (supports_argument_buffers f)
    (supports_display_set_guest_icc_profile f) (supports_correct_2p_xr10_a8 f)
    (supports_cpu_buffers f) (supports_indirect_command_buffers f)
    (supports_protected_texture_options f) (supports_dispatch_threads_indirect f)
    (supports_info_indirect f) (supports_display_port_connection_type f)
    (supports_texture_descriptor2 f) (supports_multiple_displays f)) in
  lazymatch r with
  | context C [p f] => let r := context C [v] in exact r
  end.
Notation setting p v := (fun f : GuestFeatures => ltac:(set_field f p v)) (only parsing).

(** One step of the cumulative switch: the labels that enter at it, what it sets. *)
Definition Step : Type := list Z * (GuestFeatures -> GuestFeatures).

Definition STEPS : list Step := [
  ([245], setting supports_multiple_displays true);
  ([238], setting supports_display_port_connection_type true);
  ([237], setting supports_texture_descriptor2 true);
  ([235], setting supports_info_indirect true);
  ([233], setting supports_dispatch_threads_indirect true);
  ([232], setting supports_protected_texture_options true);
  ([231], setting supports_indirect_command_buffers true);
  ([230], setting supports_cpu_buffers true);
  ([209], setting supports_correct_2p_xr10_a8 true);
  ([208], setting supports_display_set_guest_icc_profile true);
  ([207], setting supports_argument_buffers true);
  ([206], setting supports_insert_compressed_texture_reinterpretation_flush true);
  ([205], setting supports_protection_options_envelope true);
  ([204], setting supports_heap_hazard_tracking true);
  ([203], setting supports_shared_storage_heaps true);
  ([202], setting supports_command_buffer_jump true);
  ([201], setting supports_object_unique_identifier true);
  ([200], setting supports_compute_pass_descriptor_dispatch_type true);
  ([113], setting supports_multiplane_mipped_blit_textures true);
  ([112], setting supports_blit_encoder_spi true);
  ([111], setting supports_dynamic_attribute_stride true);
  ([110], setting supports_swizzled_textures true);
  ([109], setting supports_cmd_exec_indirect3 true);
  ([108], setting supports_display_compositor_parameters true);
  ([107], setting supports_tile_shaders_image_blocks true);
  ([106], setting supports_variable_rasterization_rate_maps true);
  ([105], setting supports_programmable_sample_positions true);
  ([104], setting supports_sunburst_display true);
  ([103], setting supports_vertex_amplification true);
  ([102], setting supports_default_raster_sample_count true);
  ([101], setting supports_info_encoder true);
  ([100], setting supports_shared_textures true);
  ([62], setting s8_byte_count_for_d32s8 1);
  ([61], setting max_fifo_count 64);
  ([60], setting buffer_from_io_surface true);
  ([43], setting metal_heaps true);
  ([42], setting display_dimension_floats true);
  ([41; 40], setting display_set_properties true);
  ([31], setting dual_plane_textures true);
  ([30], setting synchronize_discard_child_resources true);
  ([22], setting supports_rgha_presents true);
  ([21], setting display_sleep true);
  ([20; 11], setting discard_resources true);
  ([10], fun f => setting display_mapper_surface true
           (setting synchronize_and_discard_resources true (setting mapper_io_surfaces true f)));
  ([6], setting supports_sunburst_display true);
  ([5], setting supports_shared_textures true);
  ([4], setting display_doorbell true);
  ([3], setting efi_display true);
  ([2], setting object_tables true)
].

(** Every flag clear, both counts zero. *)
Definition default_features : GuestFeatures := from_bytes (replicate 60 x00).

(** [contains], [position] and [skip] of the source's slices. *)
Definition contains (labels : list Z) (version : Z) : bool := existsb (Z.eqb version) labels.
Fixpoint entry_at (steps : list Step) (version : Z) : option (list Step) :=
  match steps with
  | [] => None
  | s :: steps' => if contains s.1 version then Some steps else entry_at steps' version
  end.

(** [if b { g }]. *)
Definition when (b : bool) (g : GuestFeatures -> GuestFeatures) (f : GuestFeatures)
    : GuestFeatures := if b then g f else f.

Definition initial_features : GuestFeatures :=
  setting s8_byte_count_for_d32s8 4
    (setting max_fifo_count 32 (setting valid true default_features)).

Definition mark_unsupported : GuestFeatures -> GuestFeatures := setting unsupported true.
Definition mark_invalid : GuestFeatures -> GuestFeatures := setting valid false.

Definition features_for_version (version : Z) : GuestFeatures :=
  let f :=
    match entry_at STEPS version with
    | Some steps => fold_left (fun f s => s.2 f) steps initial_features
    | None =>
        let f := when ((version =? 1) || (version =? 236)) mark_unsupported initial_features in
        mark_invalid f
    end in
  let f := when (version =? 40) (setting dual_plane_textures false) f in
  let f := when ((7 <=? version) && (version <? 100)) (setting supports_shared_textures false) f in
  when ((7 <=? version) && (version <? 104)) (setting supports_sunburst_display false) f.

(** ** Negotiation *)

(** A level of [DEVICE_FEATURE_LEVEL_MAX] or more ends the process. *)
Definition binary_version_from_feature_level (feature_level version : Z)
    : outcome Empty_set GuestDeath Z :=
  _ ← fatal_unless (feature_level <? DEVICE_FEATURE_LEVEL_MAX) FeatureLevelTooHigh;
  Ret (match feature_level with
       | 1 => Z.min version 62
       | 2 => Z.min version 113
       | 3 => Z.min version 209
       | _ => Z.min version 245
       end).

Record NegotiatedVersion := MkNegotiatedVersion { version : Z; unknown : bool }.

(** The step down from [version] to a valid version or to 0; out of fuel it is the
    version reached. *)
Fixpoint step_down (fuel : nat) (version : Z) : Z :=
  match fuel with
  | O => version
  | S fuel =>
      let version := version - 1 in
      if (version =? 0) || valid (features_for_version version) then version
      else step_down fuel version
  end.

Definition I32_MIN : Z := - 2 ^ 31.

Definition step_binary_version (requested : Z) : option NegotiatedVersion :=
  let version := i32_of_u32 requested in
  if version <? 0 then None
  else
    let features := features_for_version version in
    if unsupported features then Some (MkNegotiatedVersion (Z.lor version I32_MIN) true)
    else if negb (valid features) then
      let version :=
        if HIGHEST_BINARY_VERSION <? version then HIGHEST_BINARY_VERSION
        else if negb (version =? 0) then step_down (Z.to_nat version) version
        else version in
      Some (MkNegotiatedVersion version true)
    else Some (MkNegotiatedVersion version false).

Definition clamp_binary_version (version feature_level : Z) : outcome Empty_set GuestDeath Z :=
  version ← (if 0 <=? version then binary_version_from_feature_level feature_level version
             else Ret version);
  Ret (if version =? 1 then i32_of_u32 0x80000001 else version).

(** The version stored, [None] for a refused request. *)
Definition set_binary_version (requested feature_level : Z)
    : outcome Empty_set GuestDeath (option Z) :=
  match step_binary_version requested with
  | None => Ret None
  | Some stepped =>
      v ← clamp_binary_version (version stepped) feature_level;
      Ret (Some v)
  end.

(** ** The valid versions *)

Definition valid_versions : list Z := concat (map fst STEPS).

Lemma contains_elem labels v : contains labels v = true <-> v ∈ labels.
Proof.
  unfold contains. rewrite existsb_exists. split.
  - intros (x & Hx & ->%Z.eqb_eq). by apply list_elem_of_In.
  - intros Hv. exists v. split; [by apply list_elem_of_In|apply Z.eqb_refl].
Qed.

Lemma entry_at_None steps v : entry_at steps v = None <-> v ∉ concat (map fst steps).
Proof.
  induction steps as [|s steps IH]; [split; [intros _; apply not_elem_of_nil|done]|].
  cbn [entry_at map concat]. rewrite elem_of_app. destruct (contains s.1 v) eqn:E.
  - apply contains_elem in E. split; [done|]. intros H. destruct H. by left.
  - rewrite IH. split; [intros H [Hs|Hs]|auto]; [|done].
    apply contains_elem in Hs. by rewrite E in Hs.
Qed.

Lemma when_keeps {A} (p : GuestFeatures -> A) b g f :
  (forall f, p (g f) = p f) -> p (when b g f) = p f.
Proof. intros H. unfold when. by destruct b. Qed.

Lemma unknown_features v :
  v ∉ valid_versions ->
  valid (features_for_version v) = false /\
  unsupported (features_for_version v) = ((v =? 1) || (v =? 236)).
Proof.
  intros Hv. apply entry_at_None in Hv. unfold features_for_version. rewrite Hv.
  rewrite 3!(when_keeps valid), 3!(when_keeps unsupported) by done. split; [done|].
  change (unsupported (mark_invalid ?f)) with (unsupported f).
  unfold when. by destruct (_ || _).
Qed.

Lemma valid_range v : v ∈ valid_versions -> 2 <= v <= 245.
Proof.
  revert v. apply list.Forall_forall. apply (bool_decide_unpack _). vm_compute. exact I.
Qed.

Lemma known_features v :
  v ∈ valid_versions ->
  valid (features_for_version v) = true /\ unsupported (features_for_version v) = false.
Proof.
  revert v. apply list.Forall_forall. apply (bool_decide_unpack _). vm_compute. exact I.
Qed.

(** ** What a request stores *)

(** The highest version a level allows. *)
Definition cap (feature_level : Z) : Z :=
  match feature_level with 1 => 62 | 2 => 113 | 3 => 209 | _ => 245 end.

(** [v] is the highest valid version up to [n]. *)
Definition highest_valid (n v : Z) : Prop :=
  v ∈ valid_versions /\ v <= n /\ Forall (fun w => w <= n -> w <= v) valid_versions.
#[export] Instance highest_valid_dec n v : Decision (highest_valid n v) := _.

(** What a write of [requested] below [2 ^ 31] stores. *)
Definition stores (requested feature_level v : Z) : Prop :=
  if (requested =? 1) || (requested =? 236) then v = requested - 2 ^ 31
  else if requested =? 0 then v = 0
  else highest_valid (Z.min requested (cap feature_level)) v.
#[export] Instance stores_dec r l v : Decision (stores r l v).
Proof. unfold stores. destruct (_ || _), (r =? 0); apply _. Defined.

Definition stores_checked (requested feature_level : Z) : bool :=
  match set_binary_version requested feature_level with
  | Ret (Some v) => bool_decide (stores requested feature_level v)
  | _ => false
  end.

Lemma known_requests :
  forallb (fun l => forallb (fun r => stores_checked r l) (seqZ 0 246)) (seqZ 0 5) = true.
Proof. vm_compute. reflexivity. Qed.

Lemma high_request r :
  245 < r < 2 ^ 31 -> step_binary_version r = Some (MkNegotiatedVersion 245 true).
Proof.
  intros Hr. assert (r ∉ valid_versions) as Hn by (intros H%valid_range; lia).
  destruct (unknown_features r Hn) as [Hv Hu].
  unfold step_binary_version, i32_of_u32. rewrite (proj2 (Z.ltb_lt r (2 ^ 31))) by lia.
  rewrite (proj2 (Z.ltb_ge r 0)) by lia. cbv zeta. rewrite Hu, Hv.
  rewrite (proj2 (Z.eqb_neq r 1)), (proj2 (Z.eqb_neq r 236)) by lia. cbn [orb negb].
  unfold HIGHEST_BINARY_VERSION. by rewrite (proj2 (Z.ltb_lt 0xf5 r)) by lia.
Qed.

(** What a guest's version write stores. A request with bit 31 set is refused
    and nothing is stored; 0 is stored as it is; the unsupported 1 and 236 are stored
    with bit 31; any other request stores the highest valid version that neither the
    request nor the device's feature level forbids. *)
Theorem set_binary_version_stores requested feature_level :
  u32 requested -> 0 <= feature_level < DEVICE_FEATURE_LEVEL_MAX ->
  (2 ^ 31 <= requested /\ set_binary_version requested feature_level = Ret None) \/
  (requested < 2 ^ 31 /\ exists v, set_binary_version requested feature_level = Ret (Some v) /\
     stores requested feature_level v).
Proof.
  intros Hr Hl. pose proof M32_val. unfold DEVICE_FEATURE_LEVEL_MAX in Hl.
  destruct (Z.le_gt_cases (2 ^ 31) requested) as [Hhi|Hlo]; [left|right]; (split; [done|]).
  { unfold set_binary_version, step_binary_version, i32_of_u32.
    rewrite (proj2 (Z.ltb_ge requested (2 ^ 31))) by lia. cbv zeta.
    by rewrite (proj2 (Z.ltb_lt (requested - M32) 0)) by lia. }
  assert (feature_level ∈ seqZ 0 5) as Hls by (apply elem_of_seqZ; lia).
  destruct (Z.le_gt_cases requested 245) as [Hk|Hk].
  - pose proof known_requests as Hall. rewrite forallb_forall in Hall.
    specialize (Hall feature_level (proj1 (list_elem_of_In _ _) Hls)).
    rewrite forallb_forall in Hall.
    assert (stores_checked requested feature_level = true) as Hc
      by (apply Hall, list_elem_of_In, elem_of_seqZ; lia).
    unfold stores_checked in Hc.
    destruct (set_binary_version requested feature_level) as [[v|]| |]; [|done..].
    exists v. split; [done|]. by apply bool_decide_eq_true_1 in Hc.
  - unfold set_binary_version. rewrite high_request by lia. unfold stores.
    rewrite (proj2 (Z.eqb_neq requested 1)), (proj2 (Z.eqb_neq requested 236)),
      (proj2 (Z.eqb_neq requested 0)) by lia. cbn [orb version].
    assert (forall l, cap l <= 245) as Hcap by (intros l; unfold cap; repeat case_match; lia).
    rewrite Z.min_r by (specialize (Hcap feature_level); lia).
    exists (cap feature_level).
    assert (feature_level = 0 \/ feature_level = 1 \/ feature_level = 2 \/ feature_level = 3 \/
      feature_level = 4) as Hcases by lia.
    destruct Hcases as [->|[->|[->|[->| ->]]]];
      (split; [reflexivity|]; apply (bool_decide_unpack _); vm_compute; exact I).
Qed.

Lemma set_binary_version_stores_witness :
  set_binary_version 234 2 = Ret (Some 113) \/
  (exists v, set_binary_version 234 2 = Ret (Some v) /\ stores 234 2 v).
Proof.
  right. destruct (set_binary_version_stores 234 2) as [[H _]|[_ H]].
  - split; [discriminate|reflexivity].
  - split; [discriminate|reflexivity].
  - exfalso. apply H. reflexivity.
  - exact H.
Defined.


(** The flags a later version never loses: every one but [dual_plane_textures],
    [supports_shared_textures] and [supports_sunburst_display]. *)
Definition lasting (f : GuestFeatures) : list bool := [
  object_tables f; efi_display f; display_doorbell f; mapper_io_surfaces f;
  synchronize_and_discard_resources f; display_mapper_surface f; discard_resources f;
  display_sleep f; supports_rgha_presents f; synchronize_discard_child_resources f;
  display_set_properties f; display_dimension_floats f; metal_heaps f; buffer_from_io_surface f;
  supports_info_encoder f; supports_default_raster_sample_count f; supports_vertex_amplification f;
  supports_programmable_sample_positions f; supports_variable_rasterization_rate_maps f;
  supports_tile_shaders_image_blocks f; supports_display_compositor_parameters f;
  supports_cmd_exec_indirect3 f; supports_swizzled_textures f; supports_dynamic_attribute_stride f;
  supports_blit_encoder_spi f; supports_multiplane_mipped_blit_textures f;
  supports_compute_pass_descriptor_dispatch_type f; supports_object_unique_identifier f;
  supports_command_buffer_jump f; supports_shared_storage_heaps f; supports_heap_hazard_tracking f;
  supports_protection_options_envelope f;
  supports_insert_compressed_texture_reinterpretation_flush f; supports_argument_buffers f;
  supports_display_set_guest_icc_profile f; supports_correct_2p_xr10_a8 f; supports_cpu_buffers f;
  supports_indirect_command_buffers f; supports_protected_texture_options f;
  supports_dispatch_threads_indirect f; supports_info_indirect f;
  supports_display_port_connection_type f; supports_texture_descriptor2 f;
  supports_multiple_displays f].

Definition grows (f g : GuestFeatures) : bool :=
  forallb (fun ab => implb ab.1 ab.2) (combine (lasting f) (lasting g)) &&
  (max_fifo_count f <=? max_fifo_count g).

(** The pairs of valid versions in order. *)
Lemma valid_versions_grow :
  forallb (fun v => forallb (fun w => (w <? v) ||
      grows (features_for_version v) (features_for_version w)) valid_versions)
    valid_versions = true.
Proof. vm_compute. reflexivity. Qed.

(** a later version keeps what an earlier one had. Between two valid versions,
    every feature of the lower is one of the higher, and it has at least as many
    FIFOs; the three features a later version may drop are left out. *)
Theorem features_grow v w :
  v ∈ valid_versions -> w ∈ valid_versions -> v <= w ->
  let f := features_for_version v in
  let g := features_for_version w in
  (forall i, nth i (lasting f) false = true -> nth i (lasting g) false = true) /\
  max_fifo_count f <= max_fifo_count g.
Proof.
  intros Hv Hw Hle f g. pose proof valid_versions_grow as H. rewrite forallb_forall in H.
  specialize (H v (proj1 (list_elem_of_In _ _) Hv)). rewrite forallb_forall in H.
  specialize (H w (proj1 (list_elem_of_In _ _) Hw)). fold f g in H.
  rewrite (proj2 (Z.ltb_ge w v)) in H by done. cbn [orb] in H. unfold grows in H.
  apply andb_prop in H as [H Hm%Z.leb_le]. split; [|done].
  assert (length (lasting f) = length (lasting g)) as Hl by done.
  revert H Hl. generalize (lasting f) (lasting g). clear. intros l.
  induction l as [|a l IH]; intros [|b l'] H Hl [|i] Hi; try done.
  - cbn in *. destruct a; [|done]. by destruct b.
  - cbn [combine forallb fst snd] in H. apply andb_prop in H as [_ H].
    injection Hl as Hl. cbn in *. by apply (IH l').
Qed.

Lemma features_grow_witness :
  let f := features_for_version 61 in
  let g := features_for_version 245 in
  nth 0 (lasting f) false = true /\ nth 0 (lasting g) false = true /\
  max_fifo_count f <= max_fifo_count g.
Proof.
  assert (61 ∈ valid_versions) as H1 by (apply (bool_decide_unpack _); vm_compute; exact I).
  assert (245 ∈ valid_versions) as H2 by (apply (bool_decide_unpack _); vm_compute; exact I).
  destruct (features_grow 61 245 H1 H2) as [Hf Hm]; [discriminate|].
  assert (nth 0 (lasting (features_for_version 61)) false = true) as H0
    by (vm_compute; reflexivity).
  split; [exact H0|]. split; [exact (Hf 0%nat H0)|exact Hm].
Defined.

(** A device of a level no device has ends at the first write of a version it
    clamps; an unsupported request is stored and a refused one changes nothing. *)
Lemma high_level requested feature_level :
  u32 requested -> DEVICE_FEATURE_LEVEL_MAX <= feature_level ->
  set_binary_version requested feature_level =
  if 2 ^ 31 <=? requested then Ret None
  else if (requested =? 1) || (requested =? 236) then Ret (Some (requested - 2 ^ 31))
  else Died FeatureLevelTooHigh.
Proof.
  intros Hr Hl.
  assert (forallb (fun r => match step_binary_version r with
    | Some n => if (r =? 1) || (r =? 236) then version n =? r - 2 ^ 31 else 0 <=? version n
    | None => false end) (seqZ 0 246) = true) as Hall by (vm_compute; reflexivity).
  rewrite forallb_forall in Hall. pose proof M32_val.
  assert (forall v, 0 <= v -> clamp_binary_version v feature_level = Died FeatureLevelTooHigh) as Hd.
  { intros v Hv. unfold clamp_binary_version, binary_version_from_feature_level.
    rewrite (proj2 (Z.leb_le 0 v)) by lia. by rewrite (proj2 (Z.ltb_ge feature_level DEVICE_FEATURE_LEVEL_MAX)) by lia. }
  unfold set_binary_version. destruct (Z.leb_spec (2 ^ 31) requested) as [Hhi|Hlo].
  { unfold step_binary_version, i32_of_u32. rewrite (proj2 (Z.ltb_ge requested (2 ^ 31))) by lia.
    cbv zeta. by rewrite (proj2 (Z.ltb_lt (requested - M32) 0)) by lia. }
  destruct (Z.le_gt_cases requested 245) as [Hk|Hk].
  2: { rewrite high_request by lia. cbn [version]. rewrite Hd by lia.
       by rewrite (proj2 (Z.eqb_neq requested 1)), (proj2 (Z.eqb_neq requested 236)) by lia. }
  assert (requested ∈ seqZ 0 246) as Hin by (apply elem_of_seqZ; lia).
  specialize (Hall requested (proj1 (list_elem_of_In _ _) Hin)).
  destruct (step_binary_version requested) as [n|]; [|done].
  destruct ((requested =? 1) || (requested =? 236)) eqn:E.
  - apply Z.eqb_eq in Hall. rewrite Hall. unfold clamp_binary_version.
    apply orb_prop in E as [->%Z.eqb_eq| ->%Z.eqb_eq]; reflexivity.
  - apply Z.leb_le in Hall. by rewrite Hd.
Qed.

End Features.
