(* ===== verification/Runs.v ===== *)
(** * Runs: page runs and how they lie against each other
    (src/crates/reims-vgpu-core/src/memory/tracker.rs, [Cmp] and [Run])

    A run's sums wrap at 32 bits, as in the source. [run_ok] is a run of a real page
    range: not empty, its end inside 32 bits. [covers l p] is "page [p] is in a run of
    [l]", and [sorted lo l] says the runs are in order, disjoint and at or after [lo]. *)

From S2P Require Import Prelude MemoryKinds GuestRecords.
Import Memory GuestRecords.

Module Runs.

Inductive Cmp : Type :=
| Less
| LessAdjacent
| LessOverlap
| Equal
| Inside
| InsideEdge
| Contains
| GreaterOverlap
| GreaterAdjacent
| Greater.

#[export] Instance Cmp_eq_dec : EqDecision Cmp.
Proof. solve_decision. Defined.

(** [Cmp::value]. *)
Definition value (c : Cmp) : Z :=
  match c with
  | Less => -3
  | LessAdjacent => -2
  | LessOverlap => -1
  | Equal => 0
  | Inside => 1
  | InsideEdge => 2
  | Contains => 3
  | GreaterOverlap => 4
  | GreaterAdjacent => 5
  | Greater => 6
  end.

Record Run := MkRun { page_offset : Z; page_length : Z }.

#[export] Instance Run_eq_dec : EqDecision Run.
Proof. solve_decision. Defined.

(** [Run::default()]. *)
Definition no_run : Run := MkRun 0 0.

Definition is_empty (r : Run) : bool := page_length r =? 0.
Definition run_end (r : Run) : Z := add32 (page_offset r) (page_length r).

(** [Run::compare]: the order of the tests decides. *)
Definition compare {R} (self other : Run) : outcome R mdeath Cmp :=
  if (page_offset self =? page_offset other) && (page_length self =? page_length other)
  then Ret Equal
  else if (page_offset self =? 0) && (page_length self =? 0) then Ret Greater
  else
    let end_ := run_end self in
    if end_ <? page_offset other then Ret Less
    else if end_ =? page_offset other then Ret LessAdjacent
    else
      let other_end := run_end other in
      if (page_offset other <=? page_offset self) && (end_ <=? other_end) then
        if (page_offset self =? page_offset other) || (end_ =? other_end)
        then Ret InsideEdge else Ret Inside
      else if (page_offset self <? page_offset other) && (other_end <? end_)
      then Ret Contains
      else if (page_offset self <=? page_offset other) && (end_ <=? other_end)
      then Ret LessOverlap
      else if page_offset other <=? page_offset self then
        if page_offset self =? other_end then Ret GreaterAdjacent
        else if other_end <? page_offset self then Ret Greater
        else if other_end <=? end_ then Ret GreaterOverlap
        else Died (Fatal RunCompareUnordered)
      else Died (Fatal RunCompareUnordered).

(** Takes [other] off the start or the end of [self]; the raise leaves [self] as it
    was. *)
Definition subtract_overlap (self other : Run) : mres Run :=
  let start := page_offset self in
  let other_start := page_offset other in
  let difference := sub32 other_start start in
  if other_start <=? start then
    let end_ := add32 start (page_length self) in
    let other_end := add32 other_start (page_length other) in
    let remaining := sub32 end_ other_end in
    if end_ <=? other_end then Ret no_run else Ret (MkRun other_end remaining)
  else
    let other_end := add32 other_start (page_length other) in
    let end_ := add32 start (page_length self) in
    if other_end <? end_ then Raised RunSubtractInside
    else Ret (MkRun start difference).

(** The part of [self] before [other], and the part after it. *)
Definition subtract_inside (self other : Run) : Run * Run :=
  let end_ := run_end self in
  let before := MkRun (page_offset self) (sub32 (page_offset other) (page_offset self)) in
  let remainder_offset := run_end other in
  (before, MkRun remainder_offset (sub32 end_ remainder_offset)).

(** In bytes. *)
Definition get_range {target : Target} (r : Run) : Z * Z :=
  (shl64 (page_offset r) APV_PAGE_SHIFT, shl64 (page_length r) APV_PAGE_SHIFT).

(** The hull of both. *)
Definition merge (self other : Run) : Run :=
  let end_ := run_end self in
  let other_end := run_end other in
  if page_length self =? 0 then other
  else
    let off := if page_offset other <? page_offset self
               then page_offset other else page_offset self in
    if other_end <? end_ then MkRun off (sub32 end_ off)
    else MkRun off (sub32 other_end off).

Definition merged_run (first last : Run) : Run := merge first last.

(** ** Pages *)

Definition in_run (r : Run) (p : Z) : Prop :=
  page_offset r <= p < page_offset r + page_length r.

Definition covers (l : list Run) (p : Z) : Prop := Exists (fun r => in_run r p) l.

Definition run_ok (r : Run) : Prop :=
  0 <= page_offset r /\ 0 < page_length r /\ page_offset r + page_length r < M32.

(** Where a run ends, without wrapping. *)
Definition after (r : Run) : Z := page_offset r + page_length r.

Fixpoint sorted (lo : Z) (l : list Run) : Prop :=
  match l with
  | [] => True
  | r :: l => lo <= page_offset r /\ run_ok r /\ sorted (after r) l
  end.

(** What each answer of [compare] says of two real runs. *)
Definition lies (self other : Run) (c : Cmp) : Prop :=
  let s := page_offset self in let e := after self in
  let s' := page_offset other in let e' := after other in
  match c with
  | Less => e < s'
  | LessAdjacent => e = s'
  | LessOverlap => s < s' /\ s' < e <= e'
  | Equal => self = other
  | Inside => s' < s /\ e < e'
  | InsideEdge => (s = s' /\ e < e') \/ (s' < s /\ e = e')
  | Contains => s < s' /\ e' < e
  | GreaterOverlap => s' <= s < e' /\ e' < e
  | GreaterAdjacent => s = e'
  | Greater => e' < s
  end.

(** ** Facts *)

Lemma Run_eq r r' :
  page_offset r = page_offset r' -> page_length r = page_length r' -> r = r'.
Proof. destruct r, r'; simpl; congruence. Qed.

Lemma run_end_ok r : run_ok r -> run_end r = after r.
Proof. intros (?&?&?). apply add32_small. lia. Qed.

Lemma compare_lies {R} self other :
  run_ok self -> run_ok other ->
  exists c, compare (R:=R) self other = Ret c /\ lies self other c.
Proof.
  intros Hs Ho. unfold compare. rewrite !run_end_ok by done. unfold lies, after.
  destruct Hs as (?&?&?), Ho as (?&?&?).
  repeat case_if; to_props; try (eexists; split; [reflexivity|]; cbn beta iota);
    try lia.
  apply Run_eq; lia.
Qed.

Lemma compare_ret {R} self other c :
  run_ok self -> run_ok other -> compare (R:=R) self other = Ret c -> lies self other c.
Proof.
  intros Hs Ho Hc. destruct (compare_lies (R:=R) self other Hs Ho) as (c'&Hc'&Hl).
  rewrite Hc' in Hc. by simplify_eq.
Qed.

(** The comparison never dies, whatever the sums wrap to. *)
Lemma compare_total {R} self other : is_ret (compare (R:=R) self other).
Proof.
  unfold is_ret, compare. repeat case_if; eauto.
  all: exfalso; lia.
Qed.

Lemma subtract_overlap_eq self other :
  run_ok self -> run_ok other -> page_offset other < after self ->
  page_offset self < after other ->
  subtract_overlap self other =
    if page_offset other <=? page_offset self then
      if after self <=? after other then Ret no_run
      else Ret (MkRun (after other) (after self - after other))
    else if after other <? after self then Raised RunSubtractInside
    else Ret (MkRun (page_offset self) (page_offset other - page_offset self)).
Proof.
  unfold after. intros (?&?&?) (?&?&?) ? ?. unfold subtract_overlap. rewrite !add32_small by lia.
  repeat case_if; try done; try lia; do 2 f_equal; apply sub32_small; lia.
Qed.

(** Against no run at all, every run comes after. *)
Lemma compare_none {R} r :
  run_ok r -> exists c, compare (R:=R) r no_run = Ret c /\ (c = GreaterAdjacent \/ c = Greater).
Proof.
  intros Hr. unfold compare. rewrite run_end_ok by done. unfold after.
  change (run_end no_run) with 0. destruct Hr as (?&?&?). cbn [page_offset page_length no_run].
  repeat case_if; try lia; eauto.
Qed.

Lemma merge_eq self other :
  run_ok self -> run_ok other ->
  merge self other =
    MkRun (Z.min (page_offset self) (page_offset other))
      (Z.max (after self) (after other) - Z.min (page_offset self) (page_offset other)).
Proof.
  intros Hs Ho. unfold merge. rewrite !run_end_ok by done. unfold after in *.
  destruct Hs as (?&?&?), Ho as (?&?&?).
  repeat case_if; try lia; apply Run_eq; cbn; rewrite ?sub32_small by lia; lia.
Qed.

Lemma merge_none other : merge no_run other = other.
Proof. done. Qed.

Lemma subtract_inside_eq self other :
  run_ok self -> run_ok other -> lies self other Contains ->
  subtract_inside self other =
    (MkRun (page_offset self) (page_offset other - page_offset self),
     MkRun (after other) (after self - after other)).
Proof.
  intros Hs Ho Hl. unfold subtract_inside. rewrite !run_end_ok by done.
  unfold lies, after in *. destruct Hs as (?&?&?), Ho as (?&?&?).
  by rewrite !sub32_small by lia.
Qed.

(** *** Sorted runs *)

Lemma sorted_weaken lo lo' l : lo' <= lo -> sorted lo l -> sorted lo' l.
Proof. destruct l; simpl; [done|]. intros ? (?&?&?). split; [lia|done]. Qed.

Lemma sorted_app lo l1 l2 :
  sorted lo (l1 ++ l2) <->
  sorted lo l1 /\ sorted (match list.last l1 with Some r => after r | None => lo end) l2.
Proof.
  revert lo. induction l1 as [|r l1 IH]; intros lo; [cbn; tauto|].
  cbn [app sorted]. rewrite IH. destruct l1 as [|r' l1]; [cbn; tauto|].
  rewrite last_cons_cons. destruct (list.last (r' :: l1)) eqn:E; [tauto|].
  by apply last_None in E.
Qed.

Lemma sorted_Forall lo l : sorted lo l -> Forall run_ok l.
Proof. revert lo. induction l; intros lo; [by constructor|]. intros (?&?&?). constructor; eauto. Qed.

Lemma sorted_lower lo l : sorted lo l -> Forall (fun r => lo <= page_offset r) l.
Proof.
  revert lo. induction l as [|r l IH]; intros lo; [constructor|]. intros (?&(?&?&?)&Hl).
  constructor; [done|]. eapply Forall_impl; [|exact (IH _ Hl)]. cbn. unfold after. lia.
Qed.

(** Every run of the first part ends before any of the second starts. *)
Lemma sorted_app_after lo l1 r l2 :
  sorted lo (l1 ++ r :: l2) -> Forall (fun r' => after r' <= page_offset r) l1.
Proof.
  revert lo. induction l1 as [|r' l1 IH]; intros lo; [constructor|]. cbn [app sorted].
  intros (?&(?&?&?)&Hl). constructor; [|by eapply IH].
  apply sorted_lower in Hl. apply Forall_app in Hl as [_ Hl]. by apply list.Forall_cons in Hl as [? _].
Qed.

Lemma sorted_app_start lo l1 l2 : sorted lo (l1 ++ l2) -> sorted lo l2.
Proof.
  revert lo. induction l1 as [|r l1 IH]; intros lo; [done|]. cbn [app sorted].
  intros (?&(?&?&?)&Hl). apply IH in Hl. eapply sorted_weaken; [|done]. unfold after. lia.
Qed.

Lemma sorted_app_left lo l1 l2 : sorted lo (l1 ++ l2) -> sorted lo l1.
Proof. by intros [? _]%sorted_app. Qed.

Lemma sorted_app_join lo l1 l2 :
  sorted lo l1 -> sorted lo l2 ->
  (forall r1 r2, r1 ∈ l1 -> r2 ∈ l2 -> after r1 <= page_offset r2) -> sorted lo (l1 ++ l2).
Proof.
  revert lo. induction l1 as [|r l1 IH]; intros lo; [done|]. cbn [app sorted].
  intros (?&Hr&Hl1) Hl2 Hx. split; [done|]. split; [done|]. apply IH; [done| |].
  - destruct l2 as [|r2 l2]; [done|]. cbn in *. split; [|tauto]. apply Hx; left.
  - intros r1 r2 H1 H2. apply Hx; [by right|done].
Qed.

(** *** Coverage *)

Lemma covers_nil p : ~ covers [] p.
Proof. intros H. inversion H. Qed.

Lemma covers_cons r l p : covers (r :: l) p <-> in_run r p \/ covers l p.
Proof. unfold covers. by rewrite Exists_cons. Qed.

Lemma covers_app l1 l2 p : covers (l1 ++ l2) p <-> covers l1 p \/ covers l2 p.
Proof. unfold covers. by rewrite list.Exists_app. Qed.

Lemma covers_lower lo l p : sorted lo l -> covers l p -> lo <= p.
Proof.
  revert lo. induction l as [|r l IH]; intros lo; [intros _ H; by apply covers_nil in H|].
  intros (?&(?&?&?)&Hl) [Hr|Hr]%covers_cons; [unfold in_run in Hr; lia|].
  apply IH in Hl; [|done]. unfold after in Hl. lia.
Qed.

(** The hull of sorted runs. *)
Definition hull (l : list Run) : Run :=
  match l, list.last l with
  | r :: _, Some r' => MkRun (page_offset r) (after r' - page_offset r)
  | _, _ => no_run
  end.

(** ** The properties *)

(** [Run::compare] decides how two real runs lie. It always answers, the answer's
    description holds of the two runs, and no other answer's does: the order of its tests
    leaves no gap and no overlap between the ten cases. *)
Theorem compare_decides {R} self other :
  run_ok self -> run_ok other ->
  exists c, compare (R:=R) self other = Ret c /\ forall c', lies self other c' <-> c' = c.
Proof.
  intros Hs Ho. destruct (compare_lies (R:=R) self other Hs Ho) as (c&Hc&Hl).
  exists c. split; [done|]. intros c'. split; [|by intros ->]. intros Hl'.
  assert (Hpos : forall r, run_ok r -> page_offset r < after r)
    by (unfold after; intros ? (?&?&?); lia).
  pose proof (Hpos _ Hs). pose proof (Hpos _ Ho).
  destruct (decide (self = other)) as [->|Hne].
  - destruct c, c'; cbn in Hl, Hl'; (done || lia).
  - assert (page_offset self <> page_offset other \/ after self <> after other).
    { destruct (Z.eq_dec (page_offset self) (page_offset other)); [|by left].
      right. intros E. apply Hne, Run_eq; [done|]. unfold after in E. lia. }
    destruct c, c'; cbn in Hl, Hl'; (done || lia).
Qed.

(** [subtract_overlap] of overlapping runs takes off exactly the other run's pages.
    What is left is a run, an empty one when nothing is; it raises, and only then, when
    the other run is strictly inside and two runs would be left. *)
Theorem subtract_overlap_pages self other :
  run_ok self -> run_ok other -> page_offset other < after self ->
  page_offset self < after other ->
  if (page_offset self <? page_offset other) && (after other <? after self)
  then subtract_overlap self other = Raised RunSubtractInside
  else exists r, subtract_overlap self other = Ret r /\
         (run_ok r \/ r = no_run) /\
         forall p, in_run r p <-> in_run self p /\ ~ in_run other p.
Proof.
  intros Hs Ho H1 H2. rewrite subtract_overlap_eq by done.
  unfold run_ok, in_run, after in *. destruct Hs as (?&?&?), Ho as (?&?&?).
  destruct (Z.ltb_spec (page_offset self) (page_offset other)); cbn [andb].
  - rewrite (proj2 (Z.leb_gt _ _)) by lia.
    case_if; [done|]. eexists. split; [done|]. cbn. split; [left|]; lia.
  - rewrite (proj2 (Z.leb_le _ _)) by lia.
    case_if; eexists; (split; [done|]); cbn; (split; [|lia]); [by right|left; lia].
Qed.

Lemma compare_decides_witness :
  exists c, compare (R:=RaiseKind) (MkRun 4 8) (MkRun 6 6) = Ret c /\
    forall c', lies (MkRun 4 8) (MkRun 6 6) c' <-> c' = c.
Proof. apply (compare_decides (MkRun 4 8) (MkRun 6 6)); by vm_compute. Defined.

Lemma subtract_overlap_pages_witness :
  if (page_offset (MkRun 4 8) <? page_offset (MkRun 2 5)) &&
     (after (MkRun 2 5) <? after (MkRun 4 8))
  then subtract_overlap (MkRun 4 8) (MkRun 2 5) = Raised RunSubtractInside
  else exists r, subtract_overlap (MkRun 4 8) (MkRun 2 5) = Ret r /\
         (run_ok r \/ r = no_run) /\
         forall p, in_run r p <-> in_run (MkRun 4 8) p /\ ~ in_run (MkRun 2 5) p.
Proof. apply (subtract_overlap_pages (MkRun 4 8) (MkRun 2 5)); by vm_compute. Defined.

End Runs.
