(* ===== verification/RunBlock.v ===== *)
(** * RunBlock: up to 256 sorted runs and their hull
    (src/crates/reims-vgpu-core/src/memory/tracker.rs, [RunBlock])

    Indices and counts are [u32]s that wrap, as in the source; an index past the array
    is a panic. An operation that can raise leaves the block as the raise found it
    ([leaving]). [live b] is the runs in use, [block_ok] the invariant: they are real
    runs, sorted and disjoint, and the hull is exactly theirs. *)

From S2P Require Import Prelude MemoryKinds GuestRecords Runs.
Import Memory Runs.

Module RunBlock.

Definition RUNS_PER_BLOCK : Z := 256.
Definition FULL_BLOCK : Z := 240.

Record RunBlock := MkBlock {
  runs : list Run;
  block_run : Run;
  run_count : Z;
}.

Definition new_block : RunBlock := MkBlock (replicate 256 no_run) no_run 0.

(** What a raise of a block's operation carries, and what only dies. *)
Abbreviation bres := (outcome (RaiseKind * RunBlock) mdeath).

Definition with_runs (b : RunBlock) (l : list Run) : RunBlock :=
  MkBlock l (block_run b) (run_count b).
Definition with_hull (b : RunBlock) (r : Run) : RunBlock :=
  MkBlock (runs b) r (run_count b).
Definition with_count (b : RunBlock) (n : Z) : RunBlock :=
  MkBlock (runs b) (block_run b) n.

Section Ops.
Context {R : Type}.
Local Abbreviation dres := (outcome R mdeath).

(** [at] and a store through [at_mut]. *)
Definition at_ (b : RunBlock) (i : Z) : dres Run :=
  match runs b !! Z.to_nat i with Some r => Ret r | None => Died Panic end.
Definition set_at (b : RunBlock) (i : Z) (r : Run) : dres RunBlock :=
  if (Z.to_nat i <? length (runs b))%nat
  then Ret (with_runs b (<[Z.to_nat i := r]> (runs b))) else Died Panic.

(** [RunBlock::compare]. *)
Definition block_compare (b : RunBlock) (run : Run) : dres Cmp :=
  compare (block_run b) run.

Definition add_i32 (a b : Z) : Z := i32_of_u32 (w32 (a + b)).

(** The last probed index, 0 for an empty block. *)
Fixpoint probe_loop (fuel : nat) (b : RunBlock) (run : Run) (lower upper mid : Z) : dres Z :=
  match fuel with
  | O => Died OutOfFuel
  | S fuel =>
      if lower <? upper then
        let mid := Z.quot (add_i32 lower upper) 2 in
        r ← at_ b (u32_of_i32 mid);
        let probe := page_offset r in
        if page_offset run <? probe then probe_loop fuel b run lower mid mid
        else if page_offset run <=? probe then Ret mid
        else probe_loop fuel b run (add_i32 mid 1) upper mid
      else Ret mid
  end.
Definition probe (b : RunBlock) (run : Run) : dres Z :=
  probe_loop (S (length (runs b))) b run 0 (i32_of_u32 (run_count b)) 0.

Fixpoint shift_down (fuel : nat) (b : RunBlock) (j count : Z) : dres RunBlock :=
  match fuel with
  | O => Died OutOfFuel
  | S fuel =>
      if j <? run_count b then
        r ← at_ b (add32 j count);
        b ← set_at b j r;
        shift_down fuel b (add32 j 1) count
      else Ret b
  end.

Definition remove_at_index (b : RunBlock) (i count : Z) : dres RunBlock :=
  _ ← fatal_unless (add32 i count <=? run_count b) (Fatal BlockRemovePastCount);
  let b := with_count b (sub32 (run_count b) count) in
  shift_down (S (length (runs b))) b i count.

Fixpoint shift_up (fuel : nat) (b : RunBlock) (j i : Z) : dres RunBlock :=
  match fuel with
  | O => Died OutOfFuel
  | S fuel =>
      if i <? j then
        r ← at_ b (sub32 j 1);
        b ← set_at b j r;
        shift_up fuel b (sub32 j 1) i
      else Ret b
  end.

Definition insert_at_index (b : RunBlock) (i : Z) (run : Run) : dres RunBlock :=
  _ ← fatal_unless (run_count b <? RUNS_PER_BLOCK) (Fatal BlockInsertFull);
  b ← shift_up (S (length (runs b))) b (run_count b) i;
  b ← set_at b i run;
  Ret (with_count b (add32 (run_count b) 1)).

(** The new block's half: its runs, hull and count, from run [i] on. *)
Fixpoint split_loop (fuel : nat) (b new : RunBlock) (i half old_count : Z) : dres RunBlock :=
  match fuel with
  | O => Died OutOfFuel
  | S fuel =>
      if i <? old_count then
        run ← at_ b i;
        new ← set_at new (sub32 i half) run;
        let new := with_hull new (merge (block_run new) run) in
        let new := with_count new (add32 (run_count new) 1) in
        split_loop fuel b new (add32 i 1) half old_count
      else Ret new
  end.

(** The block and the block split off its end. *)
Definition split (b : RunBlock) : dres (RunBlock * RunBlock) :=
  let old_count := run_count b in
  let half := old_count / 2 in
  new ← split_loop (S (length (runs b))) b new_block half half old_count;
  let b := with_count b (sub32 old_count half) in
  _ ← fatal_unless (add32 (run_count b) (run_count new) =? old_count)
        (Fatal BlockSplitCount);
  last ← at_ b (sub32 (run_count b) 1);
  let b := with_hull b (MkRun (page_offset (block_run b))
             (sub32 (run_end last) (page_offset (block_run b)))) in
  cmp ← compare (block_run b) (block_run new);
  _ ← fatal_unless (value cmp <=? value LessAdjacent) (Fatal BlockSplitOverlap);
  Ret (b, new).
End Ops.

(** *** add *)

(** The runs after a new or grown run at [index]: how many of them it swallowed, the
    one it ends inside trimmed. *)
Fixpoint cleanup (fuel : nat) (b : RunBlock) (index i remove_count : Z) : bres (RunBlock * Z) :=
  match fuel with
  | O => Died OutOfFuel
  | S fuel =>
      if i <? run_count b then
        current ← at_ b index;
        next ← at_ b i;
        cmp ← compare current next;
        match cmp with
        | Less | LessAdjacent => Ret (b, remove_count)
        | LessOverlap =>
            next ← leaving b (subtract_overlap next current);
            b ← set_at b i next;
            Ret (b, if is_empty next then add32 remove_count 1 else remove_count)
        | Equal => Ret (b, add32 remove_count 1)
        | InsideEdge =>
            b ← set_at b index (merge current next);
            Ret (b, add32 remove_count 1)
        | Contains => cleanup fuel b index (add32 i 1) (add32 remove_count 1)
        | GreaterOverlap =>
            b ← set_at b index (merge current next);
            cleanup fuel b index (add32 i 1) (add32 remove_count 1)
        | Inside | GreaterAdjacent | Greater => Died (Fatal BlockAddUnordered)
        end
      else Ret (b, remove_count)
  end.

(** What the run before the insertion point decides: the run merges into it, is in it
    already, or is inserted. *)
Inductive Before : Type :=
| Merged (index : Z)
| Already
| Insert (index : Z).

Definition add_before (b : RunBlock) (index : Z) (run : Run) : bres (RunBlock * Before) :=
  if 0 <? index then
    let before := sub32 index 1 in
    r ← at_ b before;
    cmp ← compare run r;
    match cmp with
    | GreaterOverlap => b ← set_at b before (merge r run); Ret (b, Merged before)
    | Equal | Inside | InsideEdge => Ret (b, Already)
    | _ => Ret (b, Insert index)
    end
  else Ret (b, Insert index).

(** The end of [add]: the runs after [index] cleaned up, the hull grown. *)
Definition add_finish (b : RunBlock) (index : Z) (run : Run) : bres RunBlock :=
  '(b, remove_count) ← cleanup (S (length (runs b))) b index (add32 index 1) 0;
  b ← (if remove_count =? 0 then Ret b
       else remove_at_index b (add32 index 1) remove_count);
  Ret (with_hull b (merge (block_run b) run)).

Definition add (b : RunBlock) (run : Run) : bres RunBlock :=
  _ ← fatal_unless (run_count b <? RUNS_PER_BLOCK) (Fatal BlockAddFull);
  if run_count b =? 0 then
    b ← set_at b 0 run;
    Ret (with_count (with_hull b run) 1)
  else
    mid ← probe b run;
    let index := u32_of_i32 mid in
    r ← at_ b index;
    let index := if page_offset r <? page_offset run then add32 index 1 else index in
    '(b, before) ← add_before b index run;
    match before with
    | Already => Ret b
    | Merged index => add_finish b index run
    | Insert index =>
        index ← (if index <? run_count b then
                   r ← at_ b index;
                   Ret (if page_offset r <? page_offset run then add32 index 1 else index)
                 else Ret index);
        b ← insert_at_index b index run;
        add_finish b index run
    end.

(** *** remove *)

Definition NO_START : Z := M32 - 1.

(** The mark of the first run to remove, and one more run marked. *)
Definition mark (i remove_start : Z) : Z :=
  if remove_start =? NO_START then i else remove_start.

(** The scan from run [i]: the runs trimmed and the range of runs to remove, or [None]
    when a run was split and the operation is over. *)
Fixpoint remove_scan (fuel : nat) (b : RunBlock) (run : Run) (i remove_start remove_count : Z)
    : bres (RunBlock * option (Z * Z)) :=
  match fuel with
  | O => Died OutOfFuel
  | S fuel =>
      if i <? run_count b then
        current ← at_ b i;
        cmp ← compare current run;
        match cmp with
        | LessOverlap =>
            r ← leaving b (subtract_overlap current run);
            b ← set_at b i r;
            let '(start, count) := if is_empty r
              then (mark i remove_start, add32 remove_count 1)
              else (remove_start, remove_count) in
            remove_scan fuel b run (add32 i 1) start count
        | Equal =>
            _ ← fatal_unless (remove_start =? NO_START) (Fatal BlockRemoveEqualAfterMark);
            Ret (b, Some (i, 1))
        | Inside | InsideEdge =>
            remove_scan fuel b run (add32 i 1) (mark i remove_start) (add32 remove_count 1)
        | Contains =>
            let '(first, remainder) := subtract_inside current run in
            b ← set_at b i first;
            b ← insert_at_index b (add32 i 1) remainder;
            Ret (b, None)
        | GreaterOverlap =>
            r ← leaving b (subtract_overlap current run);
            b ← set_at b i r;
            Ret (b, Some (if is_empty r
                          then (mark i remove_start, add32 remove_count 1)
                          else (remove_start, remove_count)))
        | Less | LessAdjacent | GreaterAdjacent | Greater =>
            remove_scan fuel b run (add32 i 1) remove_start remove_count
        end
      else Ret (b, Some (remove_start, remove_count))
  end.

(** The hull of what is left. *)
Definition remove_hull (b : RunBlock) : bres RunBlock :=
  if run_count b =? 0 then Ret (with_hull b no_run)
  else
    first ← at_ b 0;
    last ← at_ b (sub32 (run_count b) 1);
    Ret (with_hull b (merged_run first last)).

Definition remove (b : RunBlock) (run : Run) : bres RunBlock :=
  _ ← fatal_unless (run_count b <? RUNS_PER_BLOCK) (Fatal BlockRemoveFull);
  mid ← probe b run;
  '(b, marked) ← remove_scan (S (length (runs b))) b run (u32_of_i32 mid) NO_START 0;
  match marked with
  | None => Ret b
  | Some (start, count) =>
      b ← (if count =? 0 then Ret b else remove_at_index b start count);
      remove_hull b
  end.

(** *** test *)

(** From run [i] on: the answer, and the pages of [run] not seen mapped. *)
Fixpoint test_loop (fuel : nat) (b : RunBlock) (i : Z) (run : Run) : mres (bool * Run) :=
  match fuel with
  | O => Died OutOfFuel
  | S fuel =>
      if i <? run_count b then
        current ← at_ b i;
        cmp ← compare current run;
        match cmp with
        | Less | LessAdjacent => test_loop fuel b (add32 i 1) run
        | LessOverlap | InsideEdge =>
            run ← subtract_overlap run current;
            test_loop fuel b (add32 i 1) run
        | Inside => Ret (false, run)
        | Equal | Contains | GreaterOverlap =>
            run ← subtract_overlap run current;
            Ret (is_empty run, run)
        | GreaterAdjacent | Greater => Ret (is_empty run, run)
        end
      else Ret (is_empty run, run)
  end.

Definition test (b : RunBlock) (run : Run) : mres (bool * Run) :=
  if run_count b =? 0 then Ret (false, run)
  else if (run_end run <? page_offset (block_run b)) ||
          (run_end (block_run b) <? page_offset run) then Ret (false, run)
  else
    i ← probe b run;
    test_loop (S (length (runs b))) b (u32_of_i32 i) run.

(** ** The runs in use *)

(** The array holds [l], then slots no decision reads. *)
Definition reps (b : RunBlock) (l : list Run) : Prop :=
  length (runs b) = 256%nat /\ run_count b = Z.of_nat (length l) /\
  exists junk, runs b = l ++ junk.

Definition live (b : RunBlock) : list Run := take (Z.to_nat (run_count b)) (runs b).

(** The exact hull: it holds every page, and both its ends are pages. *)
Definition tight (h : Run) (l : list Run) : Prop :=
  run_ok h /\ (forall p, covers l p -> in_run h p) /\
  covers l (page_offset h) /\ covers l (after h - 1).

Definition hull_ok (h : Run) (l : list Run) : Prop := (l = [] /\ h = no_run) \/ tight h l.

Record block_ok (b : RunBlock) : Prop := {
  bo_reps : reps b (live b);
  bo_sorted : sorted 0 (live b);
  bo_hull : hull_ok (block_run b) (live b);
}.

Lemma reps_length b l : reps b l -> (length l <= 256)%nat.
Proof. intros (Hl&_&junk&E). rewrite E, length_app in Hl. lia. Qed.

Lemma reps_live b l : reps b l -> live b = l.
Proof.
  intros (_&Hc&junk&E). unfold live. rewrite Hc, E, Nat2Z.id. by rewrite take_app_length.
Qed.

Lemma reps_hull b l h : reps b l -> reps (with_hull b h) l.
Proof. done. Qed.

Lemma at_reps {R} b l1 r l2 i :
  reps b (l1 ++ r :: l2) -> i = Z.of_nat (length l1) -> at_ (R:=R) b i = Ret r.
Proof.
  intros (_&_&junk&E) ->. unfold at_. rewrite E, <- app_assoc, Nat2Z.id. cbn [app].
  by rewrite lookup_at.
Qed.

Lemma set_reps {R} b l1 r l2 i r' :
  reps b (l1 ++ r :: l2) -> i = Z.of_nat (length l1) ->
  exists b', set_at (R:=R) b i r' = Ret b' /\ reps b' (l1 ++ r' :: l2) /\
    block_run b' = block_run b.
Proof.
  intros (Hl&Hc&junk&E) ->. unfold set_at. rewrite Nat2Z.id.
  rewrite (proj2 (Nat.ltb_lt _ _)) by (rewrite E, !length_app; cbn; lia).
  eexists. split; [done|]. split; [|done].
  split; [by cbn; rewrite length_insert|]. split; [cbn; rewrite Hc, !length_app; done|].
  exists junk. cbn. rewrite E, <- !app_assoc. cbn [app]. by apply insert_at.
Qed.

(** *** The shifts *)

Lemma shift_up_spec {R} fuel b l1 l2 x junk :
  runs b = l1 ++ l2 ++ x :: junk -> (length (runs b) <= 256)%nat ->
  (length l2 < fuel)%nat ->
  exists b' y, shift_up (R:=R) fuel b (Z.of_nat (length l1 + length l2)) (Z.of_nat (length l1))
      = Ret b' /\
    runs b' = l1 ++ y :: l2 ++ junk /\ block_run b' = block_run b /\
    run_count b' = run_count b.
Proof.
  revert fuel b x junk. induction l2 as [|z l2 IH] using rev_ind; intros fuel b x junk E Hn Hf.
  - destruct fuel as [|fuel]; [simpl in Hf; lia|]. cbn [shift_up].
    destruct (Z.ltb_spec (Z.of_nat (length l1)) (Z.of_nat (length l1 + length (@nil Run))));
      [simpl in *; lia|]. by exists b, x.
  - assert (Hlen := f_equal length E). rewrite !length_app in Hlen. cbn in Hlen.
    rewrite length_app in *. cbn [length] in *.
    destruct fuel as [|fuel]; [lia|]. cbn [shift_up].
    destruct (Z.ltb_spec (Z.of_nat (length l1))
      (Z.of_nat (length l1 + (length l2 + 1)))); [|lia].
    rewrite sub32_small by (unfold M32; lia).
    unfold at_. rewrite E, <- app_assoc. cbn [app]. rewrite app_assoc.
    rewrite lookup_at' by (rewrite length_app; lia). cbn [mbind outcome_bind].
    unfold set_at. rewrite Nat2Z.id, (proj2 (Nat.ltb_lt _ _)) by lia.
    cbn [mbind outcome_bind].
    destruct (IH fuel (with_runs b (<[(length l1 + (length l2 + 1))%nat:=z]> (runs b))) z (z :: junk))
      as (b'&y&Hs&Hr&Hh&Hc); [| |lia|].
    + cbn. rewrite E, <- app_assoc. cbn [app].
      replace (l1 ++ l2 ++ z :: x :: junk) with ((l1 ++ l2 ++ [z]) ++ x :: junk)
        by (rewrite <- !app_assoc; done).
      rewrite insert_at' by (rewrite !length_app; cbn; lia).
      by rewrite <- !app_assoc.
    + cbn. by rewrite length_insert.
    + exists b', y. split; [|split; [|done]].
      * rewrite <- Hs. f_equal. lia.
      * rewrite Hr. by rewrite <- !app_assoc.
Qed.

Lemma shift_down_spec {R} fuel b l1 g gap l2 junk count :
  runs b = l1 ++ (g :: gap) ++ l2 ++ junk -> (length (runs b) <= 256)%nat ->
  count = Z.of_nat (length (g :: gap)) ->
  run_count b = Z.of_nat (length l1 + length l2) -> (length l2 < fuel)%nat ->
  exists b' junk', shift_down (R:=R) fuel b (Z.of_nat (length l1)) count = Ret b' /\
    runs b' = l1 ++ l2 ++ junk' /\ length (runs b') = length (runs b) /\
    block_run b' = block_run b /\ run_count b' = run_count b.
Proof.
  intros E Hn ->. revert fuel b l1 g gap E Hn.
  induction l2 as [|z l2 IH]; intros fuel b l1 g gap E Hn Hc Hf;
    (destruct fuel as [|fuel]; [simpl in Hf; lia|]); cbn [shift_down]; rewrite Hc.
  - destruct (Z.ltb_spec (Z.of_nat (length l1)) (Z.of_nat (length l1 + length (@nil Run))));
      [simpl in *; lia|]. exists b, ((g :: gap) ++ junk). by rewrite E.
  - assert (Hlen := f_equal length E). rewrite !length_app in Hlen. cbn [length] in *.
    destruct (Z.ltb_spec (Z.of_nat (length l1)) (Z.of_nat (length l1 + S (length l2)))); [|lia].
    rewrite !add32_small by (unfold M32; lia).
    assert (Hat : at_ (R:=R) b (Z.of_nat (length l1) + Z.of_nat (S (length gap))) = Ret z).
    { unfold at_. rewrite E. replace (l1 ++ (g :: gap) ++ (z :: l2) ++ junk)
        with ((l1 ++ g :: gap) ++ z :: l2 ++ junk) by (rewrite <- app_assoc; done).
      by rewrite lookup_at' by (rewrite length_app; cbn; lia). }
    rewrite Hat. cbn [mbind outcome_bind].
    unfold set_at. rewrite (proj2 (Nat.ltb_lt _ _)) by lia. cbn [mbind outcome_bind].
    set (b1 := with_runs b _).
    assert (Hr1 : exists g' gap', g' :: gap' = gap ++ [z] /\
      runs b1 = (l1 ++ [z]) ++ (g' :: gap') ++ l2 ++ junk).
    { destruct gap as [|g' gap]; [exists z, []|exists g', (gap ++ [z])]; (split; [done|]);
        unfold b1; cbn [with_runs runs]; rewrite E; cbn [app];
        rewrite insert_at' by lia; by rewrite <- !app_assoc. }
    destruct Hr1 as (g'&gap'&Eg&Hr1).
    destruct (IH fuel b1 (l1 ++ [z]) g' gap' Hr1) as (b'&junk'&Hs&Hr&Hl'&Hh&Hc').
    + unfold b1. cbn. by rewrite length_insert.
    + unfold b1. cbn. rewrite Hc, length_app. cbn. f_equal. lia.
    + lia.
    + exists b', junk'.
      split; [|split; [by rewrite Hr, <- app_assoc|split; [|by rewrite Hc', <- Hc]]].
      * apply (f_equal length) in Eg. rewrite !length_app in *. cbn [length] in *.
        rewrite <- Hs. f_equal; lia.
      * rewrite Hl'. unfold b1. cbn. by rewrite length_insert.
Qed.

Lemma insert_reps {R} b l1 l2 run i :
  reps b (l1 ++ l2) -> (length (l1 ++ l2) < 256)%nat -> i = Z.of_nat (length l1) ->
  exists b', insert_at_index (R:=R) b i run = Ret b' /\ reps b' (l1 ++ run :: l2) /\
    block_run b' = block_run b.
Proof.
  intros (Hl&Hc&junk&E) Hn ->. unfold insert_at_index, RUNS_PER_BLOCK. rewrite Hc.
  rewrite (proj2 (Z.ltb_lt _ _)) by lia. cbn [fatal_unless mbind outcome_bind].
  destruct junk as [|x junk]; [rewrite E, app_nil_r in Hl; lia|].
  rewrite <- app_assoc in E. rewrite length_app in *.
  destruct (shift_up_spec (R:=R) (S (length (runs b))) b l1 l2 x junk E) as (b'&y&->&Hr&Hh&Hc');
    [lia|lia|]. cbn [mbind outcome_bind].
  assert (Hl' : length (runs b') = 256%nat).
  { rewrite Hr, <- Hl, E, !length_app. cbn. rewrite !length_app. cbn. lia. }
  unfold set_at. rewrite Nat2Z.id, (proj2 (Nat.ltb_lt _ _)) by lia. cbn [mbind outcome_bind].
  eexists. split; [done|]. split; [|done]. cbn.
  split; [by cbn; rewrite length_insert|]. split.
  - cbn. rewrite Hc', Hc, add32_small by (unfold M32; lia). rewrite length_app. cbn. lia.
  - exists junk. cbn. rewrite Hr, insert_at by done. by rewrite <- app_assoc.
Qed.

Lemma remove_reps {R} b l1 g gap l2 i count :
  reps b (l1 ++ (g :: gap) ++ l2) -> i = Z.of_nat (length l1) ->
  count = Z.of_nat (length (g :: gap)) ->
  exists b', remove_at_index (R:=R) b i count = Ret b' /\ reps b' (l1 ++ l2) /\
    block_run b' = block_run b.
Proof.
  intros Hreps -> ->. pose proof (reps_length _ _ Hreps) as Hn.
  destruct Hreps as (Hl&Hc&junk&E). rewrite !length_app in *.
  unfold remove_at_index. rewrite Hc, add32_small by (unfold M32; lia).
  rewrite (proj2 (Z.leb_le _ _)) by lia. cbn [fatal_unless mbind outcome_bind].
  set (b1 := with_count b _).
  destruct (shift_down_spec (R:=R) (S (length (runs b))) b1 l1 g gap l2 junk
    (Z.of_nat (length (g :: gap)))) as (b'&junk'&Hs&Hr&Hl'&Hh&Hc').
  - unfold b1. cbn [runs with_count]. rewrite E. by rewrite <- !app_assoc.
  - unfold b1. cbn. lia.
  - done.
  - unfold b1. cbn [run_count with_count]. rewrite sub32_small by (unfold M32; lia). lia.
  - lia.
  - exists b'. split; [exact Hs|]. split; [|done]. split; [rewrite Hl'; done|].
    split; [|exists junk'; by rewrite Hr, <- app_assoc].
    rewrite Hc'. unfold b1. cbn [run_count with_count].
    rewrite sub32_small by (unfold M32; lia). rewrite length_app. lia.
Qed.

(** *** The probe *)

Lemma add_i32_small a b : 0 <= a + b < 2 ^ 31 -> add_i32 a b = a + b.
Proof.
  intros H. unfold add_i32, i32_of_u32. rewrite w32_small by (unfold M32; lia).
  by rewrite (proj2 (Z.ltb_lt _ _)) by lia.
Qed.

Lemma u32_of_i32_small a : 0 <= a < 2 ^ 31 -> u32_of_i32 a = a.
Proof. intros H. apply w32_small. unfold M32. lia. Qed.

(** The runs before [k] start before [run], those from [k] on start after it. *)
Definition starts_before (l : list Run) (run : Run) (k : Z) : Prop :=
  forall i r, l !! i = Some r -> Z.of_nat i < k -> page_offset r < page_offset run.
Definition starts_after (l : list Run) (run : Run) (k : Z) : Prop :=
  forall i r, l !! i = Some r -> k <= Z.of_nat i -> page_offset run < page_offset r.

Lemma sorted_lookup lo l i j r r' :
  sorted lo l -> l !! i = Some r -> l !! j = Some r' -> (i < j)%nat ->
  after r <= page_offset r'.
Proof.
  revert lo i j. induction l as [|x l IH]; intros lo i j; [done|].
  intros (?&Hx&Hl) Hi Hj Hij. destruct j as [|j]; [lia|]. cbn in Hj.
  destruct i as [|i]; cbn in Hi.
  - simplify_eq. apply sorted_lower in Hl.
    by eapply list.Forall_lookup_1 in Hl.
  - by apply (IH (after x) i j); [|..|lia].
Qed.

Lemma probe_loop_spec {R} fuel b l run lower upper mid :
  reps b l -> sorted 0 l ->
  0 <= lower <= upper -> upper <= Z.of_nat (length l) ->
  0 <= mid < Z.max 1 (Z.of_nat (length l)) ->
  starts_before l run lower -> starts_after l run upper ->
  (lower = upper -> mid = lower \/ mid + 1 = lower) ->
  upper - lower < Z.of_nat fuel ->
  exists m, probe_loop (R:=R) fuel b run lower upper mid = Ret m /\
    0 <= m < Z.max 1 (Z.of_nat (length l)) /\
    starts_before l run m /\ starts_after l run (m + 1).
Proof.
  intros Hreps Hsort. pose proof (reps_length _ _ Hreps) as Hn.
  revert lower upper mid.
  induction fuel as [|fuel IH]; intros lower upper mid Hlu Hu Hm Hb Ha Hx Hf; [lia|].
  cbn [probe_loop]. case_if.
  - rewrite (add_i32_small lower upper), Z.quot_div_nonneg by lia.
    pose proof (Z.div_lt_upper_bound (lower + upper) 2 upper ltac:(lia) ltac:(lia)).
    pose proof (Z.div_le_lower_bound (lower + upper) 2 lower ltac:(lia) ltac:(lia)).
    set (k := (lower + upper) / 2) in *. rewrite u32_of_i32_small by lia.
    destruct (lookup_lt_is_Some_2 l (Z.to_nat k)) as [r Hr]; [lia|].
    pose proof Hr as Hsplit. apply lookup_Some_split in Hsplit.
    rewrite Hsplit in Hreps.
    rewrite (at_reps _ _ _ _ _ Hreps) by (rewrite length_take; lia).
    rewrite <- Hsplit in Hreps. cbn [mbind outcome_bind].
    assert (Hlow : forall v, page_offset r <= v -> forall i r', l !! i = Some r' ->
      Z.of_nat i < k -> page_offset r' < v).
    { intros v Hv i r' Hi Hik. pose proof (sorted_lookup _ _ _ _ _ _ Hsort Hi Hr ltac:(lia)).
      apply sorted_Forall in Hsort.
      destruct (list.Forall_lookup_1 _ _ _ _ Hsort Hi) as (?&?&?). unfold after in *. lia. }
    assert (Hhigh : forall v, v <= page_offset r -> forall i r', l !! i = Some r' ->
      k < Z.of_nat i -> v < page_offset r').
    { intros v Hv i r' Hi Hik. pose proof (sorted_lookup _ _ _ _ _ _ Hsort Hr Hi ltac:(lia)).
      apply sorted_Forall in Hsort.
      destruct (list.Forall_lookup_1 _ _ _ _ Hsort Hr) as (?&?&?). unfold after in *. lia. }
    case_if; [|case_if].
    + apply IH; try lia; [done|].
      intros i r' Hi Hk. destruct (Z.eq_dec (Z.of_nat i) k) as [E|].
      * rewrite <- E, Nat2Z.id, Hi in Hr. by simplify_eq.
      * apply (Hhigh (page_offset run) ltac:(lia) _ _ Hi). lia.
    + exists k. split; [done|]. split; [lia|]. split.
      * intros i r' Hi Hk. by apply (Hlow (page_offset run) ltac:(lia) _ _ Hi).
      * intros i r' Hi Hk. apply (Hhigh (page_offset run) ltac:(lia) _ _ Hi). lia.
    + rewrite add_i32_small by lia. apply IH; try lia; [|done].
      intros i r' Hi Hk. destruct (Z.eq_dec (Z.of_nat i) k) as [E|].
      * rewrite <- E, Nat2Z.id, Hi in Hr. by simplify_eq.
      * apply (Hlow (page_offset run) ltac:(lia) _ _ Hi). lia.
  - exists mid. split; [done|]. split; [done|].
    assert (lower = upper) as -> by lia.
    split; intros i r Hi Hk; [apply (Hb _ _ Hi)|apply (Ha _ _ Hi)]; lia.
Qed.

Lemma probe_spec {R} b l run :
  reps b l -> sorted 0 l ->
  exists m, probe (R:=R) b run = Ret m /\ 0 <= m < Z.max 1 (Z.of_nat (length l)) /\
    starts_before l run m /\ starts_after l run (m + 1).
Proof.
  intros Hreps Hsort. pose proof (reps_length _ _ Hreps) as Hn.
  destruct (Hreps) as (Hl&Hc&_). unfold probe. rewrite Hc, Hl.
  unfold i32_of_u32. rewrite (proj2 (Z.ltb_lt _ _)) by lia.
  apply probe_loop_spec; (done || lia || idtac).
  - intros i r Hi Hk. lia.
  - intros i r Hi Hk. apply lookup_lt_Some in Hi. lia.
Qed.

(** ** add *)

(** Coverage facts: runs' pages by arithmetic, the rest by propositional reasoning. *)
Ltac cov :=
  intros; rewrite ?covers_app, ?covers_cons in *;
  unfold in_run, after, run_ok in *; cbn [page_offset page_length no_run] in *;
  intuition lia.

Lemma cleanup_spec fuel b l1 cur dead l2 i count :
  reps b (l1 ++ cur :: dead ++ l2) -> run_ok cur -> sorted (page_offset cur) l2 ->
  i = Z.of_nat (length l1 + S (length dead)) -> count = Z.of_nat (length dead) ->
  (length l2 < fuel)%nat ->
  exists b' cur' dead' l2', cleanup fuel b (Z.of_nat (length l1)) i count
      = Ret (b', Z.of_nat (length dead')) /\
    reps b' (l1 ++ cur' :: dead' ++ l2') /\ block_run b' = block_run b /\
    run_ok cur' /\ page_offset cur' = page_offset cur /\ after cur <= after cur' /\
    sorted (after cur') l2' /\
    forall p, in_run cur' p \/ covers l2' p <-> in_run cur p \/ covers l2 p.
Proof.
  revert fuel b cur dead i count.
  induction l2 as [|n l2 IH]; intros fuel b cur dead i count Hreps Hcur Hl2 -> -> Hf;
    (destruct fuel as [|fuel]; [simpl in Hf; lia|]); cbn [cleanup];
    pose proof (reps_length _ _ Hreps) as Hn; destruct (Hreps) as (_&Hc&_);
    rewrite Hc; rewrite !length_app in *; cbn [length] in *; rewrite length_app in *;
    cbn [length] in *.
  { rewrite (proj2 (Z.ltb_ge _ _)) by lia. exists b, cur, dead, []. cbn. by auto 10. }
  rewrite (proj2 (Z.ltb_lt _ _)) by lia.
  destruct Hl2 as (Hoff&Hnok&Hl2).
  rewrite (at_reps _ _ _ _ (Z.of_nat (length l1)) Hreps) by done. cbn [mbind outcome_bind].
  assert (Hreps2 : reps b ((l1 ++ cur :: dead) ++ n :: l2)) by (rewrite <- app_assoc; exact Hreps).
  rewrite (at_reps _ _ _ _ _ Hreps2) by (rewrite length_app; cbn; lia).
  cbn [mbind outcome_bind].
  assert (Hmore : forall b1 cur1, reps b1 (l1 ++ cur1 :: dead ++ n :: l2) ->
    reps b1 (l1 ++ cur1 :: (dead ++ [n]) ++ l2)) by (intros; by rewrite <- app_assoc).
  assert (Hdead : Z.of_nat (length (dead ++ [n])) = add32 (Z.of_nat (length dead)) 1).
  { rewrite length_app, add32_small by (unfold M32; lia). cbn. lia. }
  destruct (compare_lies (R:=RaiseKind * RunBlock) cur n Hcur Hnok) as (c&->&Hlies).
  cbn [mbind outcome_bind].
  destruct c; cbn in Hlies.
  - exists b, cur, dead, (n :: l2). split; [done|]. split; [done|]. split; [done|].
    split; [done|]. split; [done|]. split; [lia|]. split; [|done].
    split; [lia|done].
  - exists b, cur, dead, (n :: l2). split; [done|]. split; [done|]. split; [done|].
    split; [done|]. split; [done|]. split; [lia|]. split; [|done].
    split; [lia|done].
  - (* the next run loses its start *)
    rewrite subtract_overlap_eq by (done || lia).
    rewrite (proj2 (Z.leb_le _ _)) by lia.
    destruct (Z.leb_spec (after n) (after cur)); cbn [leaving mbind outcome_bind].
    + destruct (set_reps (R:=RaiseKind * RunBlock) _ _ _ _ (Z.of_nat (length l1 + S (length dead)))
        no_run Hreps2) as (b'&->&Hb'&Hh); [rewrite length_app; cbn; lia|].
      cbn [mbind outcome_bind is_empty no_run page_length Z.eqb].
      exists b', cur, (dead ++ [no_run]), l2. rewrite length_app in *. cbn [length] in *.
      rewrite Hdead. split; [done|]. split; [by rewrite <- !app_assoc in *|]. split; [done|].
      split; [done|]. split; [done|]. split; [lia|].
      split; [by eapply sorted_weaken; [|done]; lia|]. cov.
    + set (n' := MkRun (after cur) (after n - after cur)).
      destruct (set_reps (R:=RaiseKind * RunBlock) _ _ _ _ (Z.of_nat (length l1 + S (length dead)))
        n' Hreps2) as (b'&->&Hb'&Hh); [rewrite length_app; cbn; lia|].
      assert (Hn' : run_ok n' /\ after n' = after n)
        by (unfold n', run_ok, after in *; cbn; lia).
      cbn [mbind outcome_bind]. unfold is_empty. change (page_length n') with (after n - after cur).
      rewrite (proj2 (Z.eqb_neq _ _)) by lia.
      exists b', cur, dead, (n' :: l2). split; [done|]. split; [by rewrite <- app_assoc in Hb'|].
      split; [done|]. split; [done|]. split; [done|]. split; [lia|].
      split; [|unfold n'; cov].
      split; [cbn; lia|]. split; [tauto|]. destruct Hn' as [_ ->]. done.
  - (* the next run is this one *)
    subst n. exists b, cur, (dead ++ [cur]), l2. rewrite Hdead. split; [done|].
    split; [by apply Hmore|]. split; [done|]. split; [done|]. split; [done|]. split; [lia|].
    split; [done|]. cov.
  - unfold run_ok, after in *. lia.
  - (* this run is the next one's start *)
    assert (Hm : merge cur n = n).
    { rewrite merge_eq by done. apply Run_eq; cbn; unfold run_ok, after in *; lia. }
    destruct (set_reps (R:=RaiseKind * RunBlock) _ _ _ _ (Z.of_nat (length l1)) (merge cur n) Hreps)
      as (b'&->&Hb'&Hh); [done|]. rewrite Hm in Hb'. cbn [mbind outcome_bind].
    exists b', n, (dead ++ [n]), l2. rewrite Hdead. split; [done|].
    split; [by apply Hmore|]. split; [done|]. split; [done|]. split; [lia|]. split; [lia|].
    split; [done|]. cov.
  - (* the next run is inside this one *)
    rewrite <- Hdead, add32_small by (unfold M32; lia).
    destruct (IH fuel b cur (dead ++ [n]) (Z.of_nat (length l1 + S (length dead)) + 1)
      (Z.of_nat (length (dead ++ [n])))) as (b'&cur'&dead'&l2'&->&Hb'&Hh&Hok&Ho&Ha&Hs&Hcov).
    { by apply Hmore. } { done. } { eapply sorted_weaken; [|done]. unfold run_ok, after in *. lia. }
    { rewrite length_app. cbn. lia. } { done. } { lia. }
    exists b', cur', dead', l2'. repeat (split; [done|]). intros p. rewrite Hcov. cov.
  - (* the next run starts with this one *)
    assert (Hm : merge cur n = cur).
    { rewrite merge_eq by done. apply Run_eq; cbn; unfold run_ok, after in *; lia. }
    destruct (set_reps (R:=RaiseKind * RunBlock) _ _ _ _ (Z.of_nat (length l1)) (merge cur n) Hreps)
      as (b1&->&Hb1&Hh1); [done|]. rewrite Hm in Hb1. cbn [mbind outcome_bind].
    rewrite <- Hdead, add32_small by (unfold M32; lia).
    destruct (IH fuel b1 cur (dead ++ [n]) (Z.of_nat (length l1 + S (length dead)) + 1)
      (Z.of_nat (length (dead ++ [n])))) as (b'&cur'&dead'&l2'&->&Hb'&Hh&Hok&Ho&Ha&Hs&Hcov).
    { by apply Hmore. } { done. } { eapply sorted_weaken; [|done]. unfold run_ok, after in *. lia. }
    { rewrite length_app. cbn. lia. } { done. } { lia. }
    exists b', cur', dead', l2'. rewrite Hh. repeat (split; [done|]). intros p. rewrite Hcov. cov.
  - unfold run_ok, after in *. lia.
  - unfold run_ok, after in *. lia.
Qed.

Lemma set_at_count {R} b i r b' :
  set_at (R:=R) b i r = Ret b' -> run_count b' = run_count b.
Proof. unfold set_at. case_if; [|done]. by intros [= <-]. Qed.

Lemma cleanup_count fuel b index i count b' count' :
  cleanup fuel b index i count = Ret (b', count') -> run_count b' = run_count b.
Proof.
  revert b i count. induction fuel as [|fuel IH]; intros b i count; [done|].
  cbn [cleanup]. case_if; [|by intros [= <- _]]. intros H. inv_bind H.
  destruct a1; try done; try (by simplify_eq); try inv_bind H.
  - apply set_at_count in Hm3. by simplify_eq.
  - apply set_at_count in Hm2. by simplify_eq.
  - by apply IH in H.
  - apply set_at_count in Hm2. apply IH in H. congruence.
Qed.

Lemma tight_merge h l run l' :
  tight h l -> run_ok run ->
  (forall p, covers l' p <-> covers l p \/ in_run run p) -> tight (merge h run) l'.
Proof.
  intros (Hh&Hall&Hlo&Hhi) Hr Hc. rewrite merge_eq by done. unfold tight, after, run_ok in *.
  cbn [page_offset page_length]. rewrite !Hc.
  split; [lia|]. split.
  - intros p Hp. apply Hc in Hp as [Hp|Hp]; [apply Hall in Hp|]; unfold in_run in *;
      cbn [page_offset page_length]; lia.
  - split.
    + destruct (Z.min_spec (page_offset h) (page_offset run)) as [[_ ->]|[_ ->]];
        [by left|right; unfold in_run; lia].
    + destruct (Z.le_gt_cases (page_offset h + page_length h) (page_offset run + page_length run)).
      * right. unfold in_run. lia.
      * left. replace (_ - 1) with (page_offset h + page_length h - 1) by lia. done.
Qed.

Lemma tight_single r : run_ok r -> tight r [r].
Proof.
  intros Hr. split; [done|]. split; [|split].
  - intros p [H|H]%covers_cons; [done|by apply covers_nil in H].
  - cov.
  - cov.
Qed.

Lemma add_finish_spec b l1 cur l2 run :
  reps b (l1 ++ cur :: l2) -> sorted 0 (l1 ++ [cur]) -> sorted (page_offset cur) l2 ->
  exists b' l', add_finish b (Z.of_nat (length l1)) run = Ret b' /\
    reps b' l' /\ sorted 0 l' /\ block_run b' = merge (block_run b) run /\
    (length l' <= length (l1 ++ cur :: l2))%nat /\
    forall p, covers l' p <-> covers (l1 ++ cur :: l2) p.
Proof.
  intros Hreps Hs1 Hs2. unfold add_finish.
  assert (Hcur : run_ok cur). { apply sorted_app_start in Hs1. by destruct Hs1 as (_&?&_). }
  pose proof (reps_length _ _ Hreps) as Hn. rewrite length_app in Hn. cbn [length] in Hn.
  rewrite add32_small by (unfold M32; lia).
  destruct (cleanup_spec (S (length (runs b))) b l1 cur [] l2 (Z.of_nat (length l1) + 1) 0
    Hreps Hcur Hs2) as (b1&cur'&dead&l2'&Hcl&Hb1&Hh1&Hcok&Hco&Hca&Hs2'&Hcov);
    [cbn; lia|done|destruct Hreps as (->&_); lia|].
  rewrite Hcl. cbn [mbind outcome_bind].
  assert (Hend : exists b2, (if Z.of_nat (length dead) =? 0 then Ret b1
      else remove_at_index b1 (Z.of_nat (length l1) + 1) (Z.of_nat (length dead)))
      = (Ret b2 : bres RunBlock) /\ reps b2 (l1 ++ cur' :: l2') /\ block_run b2 = block_run b1).
  { destruct dead as [|d dead]; [by exists b1|].
    destruct (remove_reps (R:=RaiseKind * RunBlock) b1 (l1 ++ [cur']) d dead l2'
      (Z.of_nat (length l1) + 1) (Z.of_nat (length (d :: dead)))) as (b2&Hr&Hb2&Hh2);
      [by rewrite <- app_assoc|rewrite length_app; cbn; lia|done|].
    exists b2. split; [exact Hr|]. by rewrite <- app_assoc in Hb2. }
  destruct Hend as (b2&->&Hb2&Hh2). cbn [mbind outcome_bind].
  exists (with_hull b2 (merge (block_run b2) run)), (l1 ++ cur' :: l2').
  split; [done|]. split; [done|]. split; [|split; [cbn; by rewrite Hh2, Hh1|split]].
  - apply sorted_app in Hs1 as [Hl1 Hc1]. apply sorted_app. split; [done|].
    destruct (list.last l1); cbn [sorted] in *; (split; [lia|done]).
  - apply cleanup_count in Hcl. destruct Hb1 as (_&Hc1&_), Hreps as (_&Hc&_).
    rewrite !length_app in *. cbn [length] in *. rewrite length_app in *. lia.
  - intros p. rewrite !covers_app, !covers_cons. specialize (Hcov p). tauto.
Qed.

(** Where the probe and the one step after it say a run goes. *)
Lemma insertion_point l run m r :
  l !! Z.to_nat m = Some r -> 0 <= m -> starts_before l run m -> starts_after l run (m + 1) ->
  exists l1 l2, l = l1 ++ l2 /\
    (if page_offset r <? page_offset run then m + 1 else m) = Z.of_nat (length l1) /\
    Forall (fun r' => page_offset r' < page_offset run) l1 /\
    Forall (fun r' => page_offset run <= page_offset r') l2.
Proof.
  intros Hr Hm Hb Ha. pose proof (lookup_lt_Some _ _ _ Hr) as Hlt.
  set (k := if page_offset r <? page_offset run then m + 1 else m).
  assert (Hk : 0 <= k <= Z.of_nat (length l)) by (unfold k; case_if; lia).
  exists (take (Z.to_nat k) l), (drop (Z.to_nat k) l).
  split; [by rewrite take_drop|]. split; [rewrite length_take; lia|].
  split; apply Forall_lookup_2; intros i x Hx.
  - pose proof (lookup_lt_Some _ _ _ Hx) as Hi. rewrite length_take in Hi.
    rewrite lookup_take_lt in Hx by lia. unfold k in *.
    destruct (Z.ltb_spec (page_offset r) (page_offset run)).
    + destruct (Z.eq_dec (Z.of_nat i) m) as [E|]; [|apply (Hb _ _ Hx); lia].
      rewrite <- E, Nat2Z.id, Hx in Hr. by simplify_eq.
    + apply (Hb _ _ Hx). lia.
  - rewrite lookup_drop in Hx. unfold k in *.
    destruct (Z.ltb_spec (page_offset r) (page_offset run)).
    + apply Z.lt_le_incl, (Ha _ _ Hx). lia.
    + destruct (Z.eq_dec (Z.of_nat (Z.to_nat m + i)) m) as [E|];
        [|apply Z.lt_le_incl, (Ha _ _ Hx); lia].
      replace (Z.to_nat m + i)%nat with (Z.to_nat m) in Hx by lia. rewrite Hx in Hr.
      by simplify_eq.
Qed.

Lemma sorted_from lo v l :
  sorted lo l -> Forall (fun r => v <= page_offset r) l -> sorted v l.
Proof. destruct l as [|r l]; [done|]. intros (?&?&?) [? ?]%list.Forall_cons. by split. Qed.

(** What [add_before] answers between the runs before the insertion point and the rest. *)
Lemma add_before_spec b l1 l2 run :
  reps b (l1 ++ l2) -> sorted 0 (l1 ++ l2) -> run_ok run ->
  Forall (fun r => page_offset r < page_offset run) l1 ->
  (add_before b (Z.of_nat (length l1)) run = Ret (b, Insert (Z.of_nat (length l1))) /\
   sorted 0 (l1 ++ [run])) \/
  (add_before b (Z.of_nat (length l1)) run = Ret (b, Already) /\
   forall p, in_run run p -> covers l1 p) \/
  (exists l1' r b', l1 = l1' ++ [r] /\ let m := merge r run in
   add_before b (Z.of_nat (length l1)) run = Ret (b', Merged (Z.of_nat (length l1'))) /\
   reps b' (l1' ++ m :: l2) /\ block_run b' = block_run b /\ run_ok m /\
   page_offset m = page_offset r /\ forall p, in_run m p <-> in_run r p \/ in_run run p).
Proof.
  intros Hreps Hs Hrun Hlt. unfold add_before.
  pose proof (reps_length _ _ Hreps) as Hn. rewrite length_app in Hn.
  destruct l1 as [|r l1 _] using rev_ind.
  { left. split; [done|]. split; [unfold run_ok in Hrun; lia|done]. }
  rewrite length_app in *. cbn [length] in *.
  rewrite (proj2 (Z.ltb_lt _ _)) by lia. rewrite sub32_small by (unfold M32; lia).
  apply sorted_app_left in Hs as Hs1. apply sorted_app_start in Hs1 as Hsr.
  destruct Hsr as (_&Hrok&_). apply Forall_app in Hlt as [_ [Hlt _]%list.Forall_cons].
  rewrite <- app_assoc in Hreps. cbn [app] in Hreps.
  rewrite (at_reps _ _ _ _ (Z.of_nat (length l1 + 1) - 1) Hreps) by lia.
  cbn [mbind outcome_bind].
  destruct (compare_lies (R:=RaiseKind * RunBlock) run r Hrun Hrok) as (c&->&Hlies).
  cbn [mbind outcome_bind].
  assert (Hins : after r <= page_offset run -> sorted 0 ((l1 ++ [r]) ++ [run])).
  { intros Ha. apply sorted_app. rewrite last_snoc. by split. }
  assert (Hin : (forall p, in_run run p -> in_run r p) ->
    forall p, in_run run p -> covers (l1 ++ [r]) p) by (intros H p Hp; apply H in Hp; cov).
  assert (Hpos : page_offset r < after r /\ page_offset run < after run)
    by (unfold run_ok, after in *; lia).
  destruct c; cbn in Hlies; try lia.
  - subst. lia.
  - right; left. split; [done|]. apply Hin. cov.
  - right; left. split; [done|]. apply Hin. cov.
  - right; right.
    destruct (set_reps (R:=RaiseKind * RunBlock) _ _ _ _ (Z.of_nat (length l1 + 1) - 1)
      (merge r run) Hreps) as (b'&->&Hb'&Hh); [lia|].
    exists l1, r, b'. cbn [mbind outcome_bind].
    replace (Z.of_nat (length l1 + 1) - 1) with (Z.of_nat (length l1)) by lia.
    rewrite merge_eq in Hb' |- * by done. unfold run_ok, after in *.
    repeat (split; [done|]). cbn [page_offset page_length].
    split; [lia|]. split; [lia|]. unfold in_run. cbn. lia.
  - left. split; [done|]. apply Hins. lia.
  - left. split; [done|]. apply Hins. lia.
Qed.

(** An add into a block with room. *)
Definition added (b b' : RunBlock) (run : Run) : Prop :=
  block_ok b' /\ run_count b' <= run_count b + 1 /\
  forall p, covers (live b') p <-> covers (live b) p \/ in_run run p.

Lemma added_intro b b' l run :
  block_ok b -> live b <> [] -> run_ok run -> reps b' l -> sorted 0 l ->
  block_run b' = merge (block_run b) run -> (length l <= S (length (live b)))%nat ->
  (forall p, covers l p <-> covers (live b) p \/ in_run run p) -> added b b' run.
Proof.
  intros [Hr Hs [[? _]|Ht]] Hne Hrun Hr' Hs' Hh' Hl Hc; [done|].
  pose proof (reps_live _ _ Hr') as El. unfold added. split; [|split].
  - split; rewrite ?El; [done|done|]. right. rewrite Hh'. by eapply tight_merge.
  - destruct Hr as (_&->&_), Hr' as (_&->&_). lia.
  - by rewrite El.
Qed.

Lemma add_into b run :
  block_ok b -> run_ok run -> run_count b < 256 ->
  exists b', add b run = Ret b' /\ added b b' run.
Proof.
  intros Hb Hrun Hn. pose proof Hb as [Hreps Hs Hh]. pose proof Hreps as (Hl&Hc&_).
  unfold add, RUNS_PER_BLOCK. rewrite (proj2 (Z.ltb_lt _ _)) by lia.
  cbn [fatal_unless mbind outcome_bind].
  destruct (live b) as [|r0 l0] eqn:El.
  { (* the first run *)
    rewrite Hc. cbn [length Z.of_nat Z.eqb]. unfold set_at.
    rewrite (proj2 (Nat.ltb_lt _ _)) by lia. cbn [mbind outcome_bind].
    eexists. split; [done|]. set (b' := with_count _ _).
    assert (Hr' : reps b' [run]).
    { split; [cbn; by rewrite length_insert|]. split; [done|].
      destruct (runs b) as [|x junk] eqn:Er; [done|]. exists junk. unfold b'. cbn. by rewrite ?Er. }
    pose proof (reps_live _ _ Hr') as El'. unfold added. rewrite El, El'. split; [|split].
    - split; rewrite ?El'; [done|split; [apply Hrun|by split]|]. right. by apply tight_single.
    - cbn. lia.
    - intros p. cov. }
  rewrite <- El in *. assert (Hne : live b <> []) by (rewrite El; done).
  assert (Hpos : (0 < length (live b))%nat) by (rewrite El; cbn; lia). clear El r0 l0.
  rewrite Hc, (proj2 (Z.eqb_neq _ _)) by lia.
  destruct (probe_spec (R:=RaiseKind * RunBlock) b _ run Hreps Hs) as (m&->&Hm&Hbef&Haft).
  cbn [mbind outcome_bind]. rewrite u32_of_i32_small by lia.
  destruct (lookup_lt_is_Some_2 (live b) (Z.to_nat m)) as [r Hr]; [lia|].
  pose proof (lookup_Some_split _ _ _ Hr) as Hsp. rewrite Hsp in Hreps.
  rewrite (at_reps _ _ _ _ m Hreps) by (rewrite length_take; lia). rewrite <- Hsp in Hreps.
  cbn [mbind outcome_bind]. rewrite add32_small by (unfold M32; lia).
  destruct (insertion_point _ run m r Hr ltac:(lia) Hbef Haft) as (l1&l2&E&->&Hl1&Hl2).
  assert (Hlen := f_equal length E). rewrite length_app in Hlen.
  rewrite E in Hreps, Hs.
  pose proof (sorted_from _ _ _ (sorted_app_start _ _ _ Hs) Hl2) as Hs2.
  destruct (add_before_spec _ _ _ _ Hreps Hs Hrun Hl1)
    as [[-> Hs1]|[[-> Hin]|(l1'&r'&b1&->&->&Hb1&Hh1&Hmok&Hmo&Hmc)]]; cbn [mbind outcome_bind].
  - (* inserted *)
    assert (Hi : (if Z.of_nat (length l1) <? run_count b
      then r ← at_ b (Z.of_nat (length l1));
           Ret (if page_offset r <? page_offset run then add32 (Z.of_nat (length l1)) 1
                else Z.of_nat (length l1))
      else Ret (Z.of_nat (length l1))) = (Ret (Z.of_nat (length l1)) : bres Z)).
    { destruct (Z.ltb_spec (Z.of_nat (length l1)) (run_count b)); [|done].
      destruct l2 as [|x l2]; [cbn [length] in *; lia|].
      rewrite (at_reps _ _ _ _ _ Hreps) by done. cbn [mbind outcome_bind].
      apply list.Forall_cons in Hl2 as [? _]. by rewrite (proj2 (Z.ltb_ge _ _)) by lia. }
    rewrite Hi. cbn [mbind outcome_bind].
    destruct (insert_reps (R:=RaiseKind * RunBlock) b l1 l2 run (Z.of_nat (length l1)) Hreps)
      as (b1&->&Hb1&Hh1); [rewrite length_app; lia|done|]. cbn [mbind outcome_bind].
    destruct (add_finish_spec b1 l1 run l2 run Hb1 Hs1 Hs2) as (b'&l'&->&Hb'&Hs'&Hh'&Hl'&Hc').
    exists b'. split; [done|]. rewrite Hh1 in Hh'. rewrite length_app in Hl'. cbn [length] in Hl'.
    apply (added_intro b b' l'); try done; [lia|]. intros p. rewrite Hc', E. cov.
  - (* already mapped *)
    exists b. split; [done|]. split; [done|]. split; [lia|]. intros p. specialize (Hin p).
    rewrite E, covers_app. tauto.
  - (* merged into the run before *)
    rewrite <- app_assoc in Hs. cbn [app] in Hs.
    destruct (add_finish_spec b1 l1' (merge r' run) l2 run Hb1) as (b'&l'&->&Hb'&Hs'&Hh'&Hl'&Hc').
    + apply sorted_app in Hs as [Hl1' Hr']. apply sorted_app. split; [done|].
      split; [|by split]. rewrite Hmo. apply Hr'.
    + rewrite Hmo. apply sorted_app_start in Hs. destruct Hs as (_&Hr'&Hs).
      eapply sorted_weaken; [|exact Hs]. unfold run_ok, after in *. lia.
    + exists b'. split; [done|]. rewrite Hh1 in Hh'. rewrite !length_app in *. cbn [length] in *.
      apply (added_intro b b' l'); try done; [lia|]. intros p. rewrite Hc', E.
      rewrite !covers_app, !covers_cons, Hmc. pose proof (covers_nil p). tauto.
Qed.

(** ** remove *)

(** Past the range, the scan changes nothing. *)
Lemma remove_scan_after fuel b l1 l2 run i start count :
  reps b (l1 ++ l2) -> run_ok run ->
  Forall (fun r => run_ok r /\ after run <= page_offset r) l2 ->
  i = Z.of_nat (length l1) -> (length l2 < fuel)%nat ->
  remove_scan fuel b run i start count = Ret (b, Some (start, count)).
Proof.
  intros Hreps Hrun. revert fuel l1 i Hreps.
  induction l2 as [|n l2 IH]; intros fuel l1 i Hreps Hl2 -> Hf;
    (destruct fuel as [|fuel]; [simpl in Hf; lia|]); cbn [remove_scan];
    pose proof (reps_length _ _ Hreps) as Hn; destruct (Hreps) as (_&Hc&_);
    rewrite Hc; rewrite !length_app in *; cbn [length] in *.
  { by rewrite (proj2 (Z.ltb_ge _ _)) by lia. }
  rewrite (proj2 (Z.ltb_lt _ _)) by lia.
  apply list.Forall_cons in Hl2 as [[Hnok Hoff] Hl2].
  rewrite (at_reps _ _ _ _ _ Hreps) by done. cbn [mbind outcome_bind].
  destruct (compare_lies (R:=RaiseKind * RunBlock) n run Hnok Hrun) as (c&->&Hlies).
  cbn [mbind outcome_bind].
  assert (Hnext : remove_scan fuel b run (add32 (Z.of_nat (length l1)) 1) start count
    = Ret (b, Some (start, count))).
  { apply (IH fuel (l1 ++ [n])); [by rewrite <- app_assoc|done| |lia].
    rewrite add32_small, length_app by (unfold M32; lia). cbn. lia. }
  destruct c; try done; cbn in Hlies; unfold run_ok, after in *; subst; lia.
Qed.

(** The mark of [dead] runs to remove after [l1]. *)
Definition start_of (l1 dead : list Run) : Z :=
  match dead with [] => NO_START | _ => Z.of_nat (length l1) end.

(** What the scan leaves: the runs kept with the marked ones between, or a split, with
    pages of the split run on both sides of the range. *)
Definition scanned (b b' : RunBlock) (l1 l2 : list Run) (run : Run)
    (marked : option (Z * Z)) : Prop :=
  exists a dead c, reps b' (a ++ dead ++ c) /\ block_run b' = block_run b /\
    sorted 0 (a ++ c) /\
    (forall p, covers (a ++ c) p <-> covers l1 p \/ covers l2 p /\ ~ in_run run p) /\
    match marked with
    | Some (start, count) => start = start_of a dead /\ count = Z.of_nat (length dead)
    | None => dead = [] /\ exists lo hi, covers l2 lo /\ covers l2 hi /\
        lo < page_offset run /\ after run <= hi
    end.

Lemma start_of_mark l1 dead :
  Z.of_nat (length l1 + length dead) < NO_START ->
  mark (Z.of_nat (length l1 + length dead)) (start_of l1 dead) = Z.of_nat (length l1).
Proof.
  unfold mark, start_of. intros H. destruct dead; [rewrite Z.eqb_refl; cbn; lia|].
  by rewrite (proj2 (Z.eqb_neq _ _)) by lia.
Qed.

Lemma sorted_delete lo l1 n l2 : sorted lo (l1 ++ n :: l2) -> sorted lo (l1 ++ l2).
Proof.
  revert lo. induction l1 as [|x l1 IH]; intros lo; cbn [app sorted].
  - intros (?&(?&?&?)&Hl). eapply sorted_weaken; [|exact Hl]. unfold after. lia.
  - intros (?&?&Hl). auto.
Qed.

Lemma sorted_replace lo l1 n n' l2 :
  sorted lo (l1 ++ n :: l2) -> run_ok n' -> page_offset n <= page_offset n' ->
  after n' <= after n -> sorted lo (l1 ++ n' :: l2).
Proof.
  revert lo. induction l1 as [|x l1 IH]; intros lo; cbn [app sorted].
  - intros (?&?&Hl) ? ? ?. split; [lia|]. split; [done|]. by eapply sorted_weaken.
  - intros (?&?&Hl) ? ? ?. auto.
Qed.

Lemma sorted_cut lo l1 n n1 n2 l2 :
  sorted lo (l1 ++ n :: l2) -> run_ok n1 -> run_ok n2 -> page_offset n <= page_offset n1 ->
  after n1 <= page_offset n2 -> after n2 <= after n -> sorted lo (l1 ++ n1 :: n2 :: l2).
Proof.
  revert lo. induction l1 as [|x l1 IH]; intros lo; cbn [app sorted].
  - intros (?&?&Hl) ? ? ? ? ?. split; [lia|]. split; [done|]. split; [done|]. split; [done|].
    by eapply sorted_weaken.
  - intros (?&?&Hl) ? ? ? ? ?. auto 10.
Qed.

Lemma sorted_head_after lo l1 n l2 :
  sorted lo (l1 ++ n :: l2) -> run_ok n /\ Forall (fun r => run_ok r /\ after n <= page_offset r) l2.
Proof.
  intros Hs. apply sorted_app_start in Hs as (_&Hn&Hl). split; [done|].
  pose proof (sorted_Forall _ _ Hl) as H1. pose proof (sorted_lower _ _ Hl) as H2.
  by apply Forall_and.
Qed.

Lemma covers_after v l p :
  Forall (fun r => run_ok r /\ v <= page_offset r) l -> covers l p -> v <= p.
Proof.
  intros Hl Hp. unfold covers in Hp. apply list.Exists_exists in Hp as (r&Hr&Hp).
  eapply list.Forall_forall in Hl as [_ ?]; [|done]. unfold in_run in Hp. lia.
Qed.

(** A run of the scan that keeps its place: skipped or trimmed to [n']. *)
Lemma scanned_keep b b1 b' l1 n n' l2 run marked :
  block_run b1 = block_run b ->
  (forall p, in_run n' p <-> in_run n p /\ ~ in_run run p) ->
  scanned b1 b' (l1 ++ [n']) l2 run marked -> scanned b b' l1 (n :: l2) run marked.
Proof.
  intros Hh Hn (a&dead&c&Hr&Hh'&Hs&Hc&Hm). exists a, dead, c.
  split; [done|]. split; [congruence|]. split; [done|]. split.
  - intros p. rewrite Hc, covers_app, !covers_cons, Hn. pose proof (covers_nil p). tauto.
  - destruct marked as [[start count]|]; [done|].
    destruct Hm as (->&lo&hi&H1&H2&?&?). split; [done|]. exists lo, hi.
    rewrite !covers_cons. auto.
Qed.

(** A run of the scan that is marked. *)
Lemma scanned_mark b b' l1 n l2 run marked :
  (forall p, in_run n p -> in_run run p) ->
  scanned b b' l1 l2 run marked -> scanned b b' l1 (n :: l2) run marked.
Proof.
  intros Hn (a&dead&c&Hr&Hh'&Hs&Hc&Hm). exists a, dead, c.
  split; [done|]. split; [done|]. split; [done|]. split.
  - intros p. rewrite Hc, covers_cons. specialize (Hn p). tauto.
  - destruct marked as [[start count]|]; [done|].
    destruct Hm as (->&lo&hi&H1&H2&?&?). split; [done|]. exists lo, hi.
    rewrite !covers_cons. auto.
Qed.

Lemma remove_scan_spec fuel b l1 dead l2 run :
  reps b (l1 ++ dead ++ l2) -> (length (l1 ++ dead ++ l2) < 256)%nat -> run_ok run ->
  sorted 0 (l1 ++ l2) -> (dead <> [] -> Forall (fun r => page_offset run < page_offset r) l2) ->
  (length l2 < fuel)%nat ->
  exists b' marked,
    remove_scan fuel b run (Z.of_nat (length l1 + length dead)) (start_of l1 dead)
      (Z.of_nat (length dead)) = Ret (b', marked) /\ scanned b b' l1 l2 run marked.
Proof.
  intros Hreps Hn Hrun. revert fuel b l1 dead Hreps Hn.
  induction l2 as [|n l2 IH]; intros fuel b l1 dead Hreps Hn Hs Hd Hf;
    (destruct fuel as [|fuel]; [simpl in Hf; lia|]); cbn [remove_scan];
    destruct (Hreps) as (_&Hc&_); rewrite Hc; rewrite !length_app in *; cbn [length] in *.
  { rewrite (proj2 (Z.ltb_ge _ _)) by lia. eexists _, _. split; [done|].
    exists l1, dead, []. rewrite !app_nil_r in *. repeat (split; [done|]). split; [|done].
    intros p. pose proof (covers_nil p). tauto. }
  rewrite (proj2 (Z.ltb_lt _ _)) by lia.
  assert (Hreps2 : reps b ((l1 ++ dead) ++ n :: l2)) by (rewrite <- app_assoc; exact Hreps).
  assert (Hat : Z.of_nat (length l1 + length dead) = Z.of_nat (length (l1 ++ dead)))
    by (by rewrite length_app).
  rewrite (at_reps _ _ _ _ _ Hreps2) by done. cbn [mbind outcome_bind].
  destruct (sorted_head_after _ _ _ _ Hs) as [Hnok Hafter].
  destruct (compare_lies (R:=RaiseKind * RunBlock) n run Hnok Hrun) as (c&->&Hlies).
  cbn [mbind outcome_bind].
  rewrite add32_small, (add32_small (Z.of_nat (length dead))) by (unfold M32; lia).
  assert (Hpos : page_offset n < after n /\ page_offset run < after run)
    by (unfold run_ok, after in *; lia).
  assert (Hd' : page_offset n <= page_offset run -> dead = []).
  { intros H. destruct dead; [done|]. pose proof (Hd ltac:(done)) as Hx.
    apply list.Forall_cons in Hx as [Hx _]. lia. }
  assert (Hskip : (forall p, in_run n p -> ~ in_run run p) -> after n <= page_offset run ->
    exists b' marked, remove_scan fuel b run (Z.of_nat (length l1 + length dead) + 1)
      (start_of l1 dead) (Z.of_nat (length dead)) = Ret (b', marked) /\
      scanned b b' l1 (n :: l2) run marked).
  { intros Hin Ha. rewrite (Hd' ltac:(lia)) in *. cbn [app length start_of] in *.
    destruct (IH fuel b (l1 ++ [n]) []) as (b'&marked&Hscan&Hsc).
    - by rewrite <- app_assoc.
    - rewrite <- app_assoc, length_app. cbn [length app]. lia.
    - by rewrite <- app_assoc.
    - done.
    - lia.
    - exists b', marked. split.
      + rewrite <- Hscan. rewrite length_app. cbn [length]. f_equal. lia.
      + eapply (scanned_keep b b b' l1 n n); [done| |done]. intros p. specialize (Hin p). tauto. }
  assert (Hmark : (forall p, in_run n p -> in_run run p) -> page_offset run <= page_offset n ->
    exists b' marked, remove_scan fuel b run (Z.of_nat (length l1 + length dead) + 1)
      (mark (Z.of_nat (length l1 + length dead)) (start_of l1 dead))
      (Z.of_nat (length dead) + 1) = Ret (b', marked) /\
      scanned b b' l1 (n :: l2) run marked).
  { intros Hin Ho. rewrite start_of_mark by (unfold NO_START, M32; lia).
    destruct (IH fuel b l1 (dead ++ [n])) as (b'&marked&Hscan&Hsc).
    - by rewrite <- app_assoc.
    - rewrite !length_app. cbn [length]. lia.
    - by eapply sorted_delete.
    - intros _. eapply Forall_impl; [|exact Hafter]. cbn. intros r [_ ?]. lia.
    - lia.
    - exists b', marked. rewrite !length_app in Hscan. cbn [length] in Hscan. split.
      + rewrite <- Hscan. f_equal; [lia| |lia].
        unfold start_of. by destruct dead.
      + by apply scanned_mark. }
  destruct c; cbn in Hlies.
  - apply Hskip; [cov|lia].
  - apply Hskip; [cov|lia].
  - (* the run loses its end *)
    rewrite (Hd' ltac:(lia)) in *. cbn [app length start_of] in *.
    rewrite subtract_overlap_eq, (proj2 (Z.leb_gt _ _)), (proj2 (Z.ltb_ge _ _)) by (done || lia).
    cbn [leaving mbind outcome_bind]. set (n' := MkRun _ _).
    assert (Hn' : run_ok n' /\ page_offset n' = page_offset n /\ after n' = page_offset run)
      by (unfold n', run_ok, after in *; cbn; lia).
    destruct (set_reps (R:=RaiseKind * RunBlock) _ _ _ _ (Z.of_nat (length l1 + 0)) n' Hreps)
      as (b1&->&Hb1&Hh1); [lia|]. cbn [mbind outcome_bind]. unfold is_empty.
    rewrite (proj2 (Z.eqb_neq _ _)) by (unfold n'; cbn; lia).
    destruct (IH fuel b1 (l1 ++ [n']) []) as (b'&marked&Hscan&Hsc).
    + by rewrite <- app_assoc.
    + rewrite <- app_assoc, length_app. cbn [length app]. lia.
    + rewrite <- app_assoc. apply (sorted_replace _ _ n); [done|tauto|lia|lia].
    + done.
    + lia.
    + exists b', marked. split.
      * rewrite <- Hscan, length_app. cbn [length]. f_equal. lia.
      * eapply (scanned_keep b b1 b' l1 n n'); [done| |done]. unfold n'. cov.
  - (* the run is the range *)
    subst n. rewrite (Hd' ltac:(lia)) in *. cbn [app length start_of] in *.
    unfold fatal_unless. rewrite Z.eqb_refl. cbn [mbind outcome_bind].
    eexists _, _. split; [done|]. exists l1, [run], l2. split; [done|]. split; [done|].
    split; [by eapply sorted_delete|]. split; [|cbn; split; [lia|done]].
    intros p. rewrite covers_app, covers_cons. split; [|tauto].
    intros [H|H]; [by left|right]. split; [by right|]. intros Hp.
    pose proof (covers_after _ _ _ Hafter H). cov.
  - apply Hmark; [cov|lia].
  - apply Hmark; [cov|lia].
  - (* the run is split *)
    rewrite (Hd' ltac:(lia)) in *. cbn [app length start_of] in *.
    rewrite subtract_inside_eq by done. set (n1 := MkRun (page_offset n) _).
    set (n2 := MkRun (after run) _).
    assert (Hn1 : run_ok n1 /\ page_offset n1 = page_offset n /\ after n1 = page_offset run)
      by (unfold n1, run_ok, after in *; cbn; lia).
    assert (Hn2 : run_ok n2 /\ page_offset n2 = after run /\ after n2 = after n)
      by (unfold n2, run_ok, after in *; cbn; lia).
    destruct (set_reps (R:=RaiseKind * RunBlock) _ _ _ _ (Z.of_nat (length l1 + 0)) n1 Hreps)
      as (b1&->&Hb1&Hh1); [lia|]. cbn [mbind outcome_bind].
    destruct (insert_reps (R:=RaiseKind * RunBlock) b1 (l1 ++ [n1]) l2 n2
      (Z.of_nat (length l1 + 0) + 1)) as (b2&->&Hb2&Hh2).
    + by rewrite <- app_assoc.
    + rewrite <- app_assoc, length_app. cbn [length app]. lia.
    + rewrite length_app. cbn [length]. lia.
    + cbn [mbind outcome_bind]. eexists _, _. split; [done|].
      exists (l1 ++ [n1]), [], (n2 :: l2). split; [done|]. split; [congruence|].
      split; [rewrite <- app_assoc; apply (sorted_cut _ _ n); (done || tauto || lia)|].
      split; [|split; [done|]].
      * intros p. rewrite covers_app, covers_app, !covers_cons.
        pose proof (covers_nil p). pose proof (covers_after _ _ p Hafter).
        unfold n1, n2. cov.
      * exists (page_offset n), (after n - 1). rewrite !covers_cons.
        split; [left; cov|]. split; [left; cov|]. lia.
  - (* the run loses its start *)
    rewrite subtract_overlap_eq, (proj2 (Z.leb_le _ _)), (proj2 (Z.leb_gt _ _)) by (done || lia).
    cbn [leaving mbind outcome_bind]. set (n' := MkRun _ _).
    assert (Hn' : run_ok n' /\ page_offset n' = after run /\ after n' = after n)
      by (unfold n', run_ok, after in *; cbn; lia).
    destruct (set_reps (R:=RaiseKind * RunBlock) _ _ _ _ (Z.of_nat (length l1 + length dead))
      n' Hreps2) as (b1&->&Hb1&Hh1); [lia|]. cbn [mbind outcome_bind]. unfold is_empty.
    rewrite (proj2 (Z.eqb_neq _ _)) by (unfold n'; cbn; lia).
    eexists _, _. split; [done|]. exists l1, dead, (n' :: l2).
    split; [by rewrite <- app_assoc in Hb1|]. split; [done|].
    split; [apply (sorted_replace _ _ n); (done || tauto || lia)|]. split; [|done].
    intros p. rewrite covers_app, !covers_cons. pose proof (covers_after _ _ p Hafter).
    unfold n'. cov.
  - (* past the range *)
    eexists _, _. split.
    + apply (remove_scan_after _ _ ((l1 ++ dead) ++ [n]) l2); [by rewrite <- app_assoc|done| | |lia].
      * eapply Forall_impl; [|exact Hafter]. cbn. intros r [? ?]. split; [done|lia].
      * rewrite !length_app. cbn [length]. lia.
    + exists l1, dead, (n :: l2). split; [done|]. split; [done|]. split; [done|].
      split; [|done]. intros p. rewrite covers_app, !covers_cons.
      pose proof (covers_after _ _ p Hafter). cov.
  - eexists _, _. split.
    + apply (remove_scan_after _ _ ((l1 ++ dead) ++ [n]) l2); [by rewrite <- app_assoc|done| | |lia].
      * eapply Forall_impl; [|exact Hafter]. cbn. intros r [? ?]. split; [done|lia].
      * rewrite !length_app. cbn [length]. lia.
    + exists l1, dead, (n :: l2). split; [done|]. split; [done|]. split; [done|].
      split; [|done]. intros p. rewrite covers_app, !covers_cons.
      pose proof (covers_after _ _ p Hafter). cov.
Qed.

(** The hull of the first and last runs is exact. *)
Lemma tight_merged lo x l y l' :
  sorted lo (x :: l) -> x :: l = l' ++ [y] -> tight (merged_run x y) (x :: l).
Proof.
  intros Hs E. unfold merged_run. pose proof (sorted_Forall _ _ Hs) as Hok.
  assert (Hx : run_ok x) by (by apply list.Forall_cons in Hok as [? _]).
  assert (Hy : run_ok y).
  { rewrite E in Hok. apply Forall_app in Hok as [_ Hok]. by apply list.Forall_cons in Hok as [? _]. }
  pose proof (sorted_lower _ _ (proj2 (proj2 Hs))) as Hlow.
  assert (Hup : Forall (fun r => after r <= after y) (x :: l)).
  { rewrite E in *. pose proof (sorted_app_after _ _ _ _ Hs) as Ha. apply Forall_app.
    split; [|by repeat constructor]. eapply Forall_impl; [|exact Ha]. cbn. unfold run_ok, after in *. lia. }
  assert (Hxy : page_offset x <= page_offset y).
  { assert (Hin : In y (x :: l)) by (rewrite E; apply in_or_app; right; by left).
    destruct Hin as [->|Hin]; [lia|].
    pose proof (proj1 (List.Forall_forall _ _) Hlow y Hin). cbn in *. unfold run_ok, after in *. lia. }
  assert (Hxa : after x <= after y) by (by apply list.Forall_cons in Hup as [? _]).
  rewrite merge_eq by done. unfold tight. replace (Z.min _ _) with (page_offset x) by lia.
  unfold after at 2. cbn [page_offset page_length].
  split; [unfold run_ok, after in *; cbn; lia|]. split; [|split].
  - intros p Hp. unfold in_run. cbn [page_offset page_length]. unfold covers in Hp.
    apply list.Exists_exists in Hp as (r&Hr&Hp).
    eapply list.Forall_forall in Hup; [|exact Hr]. cbn in Hup.
    apply elem_of_cons in Hr as [->|Hr].
    + unfold in_run, after in *. lia.
    + eapply list.Forall_forall in Hlow; [|exact Hr]. cbn in Hlow.
      unfold in_run, run_ok, after in *. lia.
  - apply covers_cons. left. unfold in_run, run_ok in *. lia.
  - rewrite E, covers_app, covers_cons. right. left. unfold in_run, run_ok, after in *. cbn [page_offset page_length] in *. lia.
Qed.

Lemma remove_hull_spec b l :
  reps b l -> sorted 0 l ->
  exists b', remove_hull b = Ret b' /\ reps b' l /\ hull_ok (block_run b') l.
Proof.
  intros Hreps Hs. pose proof (reps_length _ _ Hreps) as Hn. pose proof Hreps as (_&Hc&_).
  unfold remove_hull. rewrite Hc. destruct l as [|x l].
  { cbn. eexists. split; [done|]. split; [done|]. by left. }
  rewrite (proj2 (Z.eqb_neq _ _)) by (cbn; lia).
  destruct (exists_last (l := x :: l)) as (l'&y&E); [done|].
  rewrite (at_reps b [] x l 0 Hreps) by done. cbn [mbind outcome_bind].
  pose proof Hreps as Hreps2. rewrite E in Hreps2.
  rewrite (at_reps _ _ _ _ _ Hreps2).
  2: { rewrite E, length_app in *. cbn [length] in *. rewrite sub32_small by (unfold M32; lia). lia. }
  cbn [mbind outcome_bind]. eexists. split; [done|]. split; [done|]. right.
  by eapply tight_merged.
Qed.

Lemma tight_less h l l' run lo hi :
  tight h l -> (forall p, covers l' p -> covers l p) ->
  (forall p, covers l p -> ~ in_run run p -> covers l' p) ->
  covers l lo -> covers l hi -> lo < page_offset run -> after run <= hi -> tight h l'.
Proof.
  intros (Hh&Hall&Hlo&Hhi) Hc1 Hc2 Hl Hr Hlo' Hhi'. apply Hall in Hl, Hr.
  split; [done|]. split; [intros p Hp; by apply Hall, Hc1|].
  unfold in_run, after in *. split; apply Hc2; (done || unfold in_run, after; lia).
Qed.

(** A removal: the pages before the probe stay, the range's pages from it on go. *)
Lemma remove_from b run :
  block_ok b -> run_ok run -> run_count b < 256 ->
  exists b' l1 l2, remove b run = Ret b' /\ block_ok b' /\ live b = l1 ++ l2 /\
    Forall (fun r => page_offset r < page_offset run) l1 /\
    forall p, covers (live b') p <-> covers l1 p \/ covers l2 p /\ ~ in_run run p.
Proof.
  intros [Hreps Hs Hh] Hrun Hn. pose proof Hreps as (Hl&Hc&_).
  unfold remove, RUNS_PER_BLOCK. rewrite (proj2 (Z.ltb_lt _ _)) by lia.
  cbn [fatal_unless mbind outcome_bind].
  destruct (probe_spec (R:=RaiseKind * RunBlock) b _ run Hreps Hs) as (m&->&Hm&Hbef&_).
  cbn [mbind outcome_bind]. pose proof (reps_length _ _ Hreps) as Hlen.
  rewrite u32_of_i32_small by lia.
  set (l1 := take (Z.to_nat m) (live b)). set (l2 := drop (Z.to_nat m) (live b)).
  assert (E : live b = l1 ++ l2) by (unfold l1, l2; by rewrite take_drop).
  assert (Hl1 : Forall (fun r => page_offset r < page_offset run) l1).
  { apply Forall_lookup_2. intros i r Hi. pose proof (lookup_lt_Some _ _ _ Hi) as Hlt.
    unfold l1 in Hi, Hlt. rewrite length_take in Hlt. rewrite lookup_take_lt in Hi by lia.
    apply (Hbef _ _ Hi). lia. }
  assert (Hml : length l1 = Z.to_nat m \/ l1 = []).
  { unfold l1. rewrite length_take. destruct (live b); [right; by rewrite take_nil|left; cbn in *; lia]. }
  assert (Hmz : m = Z.of_nat (length l1)).
  { destruct Hml as [->| El]; [lia|]. rewrite El. destruct (live b) eqn:Eb; [cbn in *; lia|].
    unfold l1 in El. destruct (Z.to_nat m) eqn:Em; [cbn; lia|done]. }
  assert (Hll : length (live b) = (length l1 + length l2)%nat) by (by rewrite E, length_app).
  rewrite E in Hreps, Hs.
  destruct (remove_scan_spec (S (length (runs b))) b l1 [] l2 run) as (b1&marked&Hscan&Hsc);
    [done|cbn [app]; rewrite length_app; lia|done|done|done|lia|].
  cbn [length start_of] in Hscan. rewrite Nat.add_0_r, <- Hmz in Hscan. change (Z.of_nat 0) with 0 in Hscan.
  rewrite Hscan. cbn [mbind outcome_bind].
  destruct Hsc as (a&dead&c&Hb1&Hh1&Hs1&Hc1&Hmk).
  destruct marked as [[start count]|].
  - destruct Hmk as [-> ->].
    assert (Hrem : exists b2, (if Z.of_nat (length dead) =? 0 then Ret b1
        else remove_at_index b1 (start_of a dead) (Z.of_nat (length dead)))
        = (Ret b2 : bres RunBlock) /\ reps b2 (a ++ c)).
    { destruct dead as [|d dead]; [by exists b1|].
      destruct (remove_reps (R:=RaiseKind * RunBlock) b1 a d dead c (Z.of_nat (length a))
        (Z.of_nat (length (d :: dead))) Hb1) as (b2&Hr&Hb2&_); [done|done|].
      by exists b2. }
    destruct Hrem as (b2&->&Hb2). cbn [mbind outcome_bind].
    destruct (remove_hull_spec b2 (a ++ c) Hb2 Hs1) as (b3&->&Hb3&Hh3).
    pose proof (reps_live _ _ Hb3) as El3.
    exists b3, l1, l2. split; [done|]. split; [by split; rewrite ?El3|].
    split; [done|]. split; [done|]. by rewrite El3.
  - destruct Hmk as [-> (lo&hi&H1&H2&H3&H4)]. cbn [app] in Hb1.
    pose proof (reps_live _ _ Hb1) as El1.
    exists b1, l1, l2. split; [done|]. split.
    + split; rewrite ?El1; [done|done|]. rewrite Hh1.
      destruct Hh as [[En _]|Ht].
      { rewrite E in En. apply app_eq_nil in En as [_ En]. rewrite En in H1.
        by apply covers_nil in H1. }
      right. rewrite E in Ht. eapply (tight_less _ _ _ run lo hi Ht); try done;
        [..|by rewrite covers_app; right|by rewrite covers_app; right];
        intros p; rewrite Hc1, covers_app; tauto.
    + split; [done|]. split; [done|]. by rewrite El1.
Qed.

(** ** test *)

(** A real run, or none left. *)
Definition run_or_none (q : Run) : Prop := run_ok q \/ q = no_run.

(** What a test from some run on answers: it dies or raises never, [true] only with no
    page left, and every page gone from the run is in a run of [l]. *)
Definition tested (m : mres (bool * Run)) (l : list Run) (q : Run) : Prop :=
  exists a q', m = Ret (a, q') /\ (a = true -> q' = no_run) /\ run_or_none q' /\
    forall p, in_run q p -> covers l p \/ in_run q' p.

Lemma is_empty_none q : run_or_none q -> is_empty q = true -> q = no_run.
Proof.
  intros [Hq|Hq]; [|done]. unfold is_empty. intros E. to_props. unfold run_ok in Hq. lia.
Qed.

Lemma tested_now l q : run_or_none q -> tested (Ret (is_empty q, q)) l q.
Proof.
  intros Hq. exists (is_empty q), q. split; [done|]. split; [by apply is_empty_none|].
  split; [done|]. by right.
Qed.

(** Taking [n] off [q] loses only pages of [n]. *)
Lemma test_trim n q c :
  run_ok n -> run_ok q -> lies n q c ->
  c = LessOverlap \/ c = InsideEdge \/ c = Equal \/ c = Contains \/ c = GreaterOverlap ->
  exists q', subtract_overlap q n = Ret q' /\ run_or_none q' /\
    forall p, in_run q p -> in_run n p \/ in_run q' p.
Proof.
  intros Hn Hq Hl Hc.
  assert (Hpos : page_offset n < after n /\ page_offset q < after q)
    by (unfold run_ok, after in *; lia).
  assert (Hov : page_offset n < after q /\ page_offset q < after n /\
    (page_offset q < page_offset n -> after q <= after n)).
  { destruct Hc as [->|[->|[->|[->| ->]]]]; cbn in Hl; try subst; lia. }
  rewrite subtract_overlap_eq by (done || lia). destruct Hov as (?&?&Hov).
  destruct (Z.leb_spec (page_offset n) (page_offset q)).
  - destruct (Z.leb_spec (after q) (after n)); eexists; (split; [done|]).
    + split; [by right|]. cov.
    + split; [left; unfold run_ok, after in *; cbn; lia|]. cov.
  - rewrite (proj2 (Z.ltb_ge _ _)) by auto with lia. eexists. split; [done|].
    split; [left; unfold run_ok, after in *; cbn; lia|]. cov.
Qed.

Lemma tested_trim l n q q' m :
  (forall p, in_run q p -> in_run n p \/ in_run q' p) -> tested m l q' -> tested m (n :: l) q.
Proof.
  intros Hq (a&q''&->&Ha&Hok&Hc). exists a, q''. split; [done|]. split; [done|].
  split; [done|]. intros p Hp. rewrite covers_cons. apply Hq in Hp as [Hp|Hp]; [tauto|].
  apply Hc in Hp. tauto.
Qed.

Lemma test_loop_spec fuel b l1 l2 q :
  reps b (l1 ++ l2) -> Forall run_ok l2 -> run_or_none q -> (length l2 < fuel)%nat ->
  tested (test_loop fuel b (Z.of_nat (length l1)) q) l2 q.
Proof.
  intros Hreps. revert fuel l1 q Hreps.
  induction l2 as [|n l2 IH]; intros fuel l1 q Hreps Hok Hq Hf;
    (destruct fuel as [|fuel]; [simpl in Hf; lia|]); cbn [test_loop];
    pose proof (reps_length _ _ Hreps) as Hn; destruct (Hreps) as (_&Hc&_);
    rewrite Hc; rewrite !length_app in *; cbn [length] in *.
  { rewrite (proj2 (Z.ltb_ge _ _)) by lia. by apply tested_now. }
  rewrite (proj2 (Z.ltb_lt _ _)) by lia.
  apply list.Forall_cons in Hok as [Hnok Hok].
  rewrite (at_reps _ _ _ _ _ Hreps) by done. cbn [mbind outcome_bind].
  assert (Hnext : forall q', run_or_none q' ->
    tested (test_loop fuel b (add32 (Z.of_nat (length l1)) 1) q') l2 q').
  { intros q' Hq'. rewrite add32_small by (unfold M32; lia).
    replace (Z.of_nat (length l1) + 1) with (Z.of_nat (length (l1 ++ [n])))
      by (rewrite length_app; cbn; lia).
    apply IH; [by rewrite <- app_assoc|done|done|lia]. }
  assert (Hskip : forall q', run_or_none q' ->
    tested (test_loop fuel b (add32 (Z.of_nat (length l1)) 1) q') (n :: l2) q').
  { intros q' Hq'. eapply (tested_trim l2 n q' q'); [by right|by apply Hnext]. }
  destruct Hq as [Hq| ->].
  2: { destruct (compare_none (R:=RaiseKind) n Hnok) as (c&->&[->| ->]); cbn [mbind outcome_bind];
       apply tested_now; by right. }
  destruct (compare_lies (R:=RaiseKind) n q Hnok Hq) as (c&->&Hlies).
  cbn [mbind outcome_bind].
  pose proof (test_trim n q c Hnok Hq Hlies) as Htrim.
  destruct c; try (apply Hskip; by left); try (apply tested_now; by left);
    try (destruct Htrim as (q'&->&Hq'&Hin); [tauto|]; cbn [mbind outcome_bind];
         apply (tested_trim _ _ _ q' _ Hin); (by apply Hnext || by apply tested_now)).
  - exists false, q. split; [done|]. split; [done|]. split; [by left|]. by right.
Qed.

(** The runs in use are real runs in order, whatever the hull. *)
Definition runs_ok (b : RunBlock) : Prop := reps b (live b) /\ sorted 0 (live b).

Lemma test_spec b q :
  runs_ok b -> run_or_none q -> tested (test b q) (live b) q.
Proof.
  intros [Hreps Hs] Hq. pose proof Hreps as (Hl&Hc&_).
  pose proof (reps_length _ _ Hreps) as Hlen.
  assert (Hno : tested (Ret (false, q)) (live b) q).
  { exists false, q. split; [done|]. split; [done|]. split; [done|]. by right. }
  unfold test. case_if; [done|]. case_if; [done|].
  destruct (probe_spec (R:=RaiseKind) b _ q Hreps Hs) as (m&->&Hm&_&_).
  cbn [mbind outcome_bind]. rewrite u32_of_i32_small by lia.
  set (l1 := take (Z.to_nat m) (live b)). set (l2 := drop (Z.to_nat m) (live b)).
  assert (E : live b = l1 ++ l2) by (unfold l1, l2; by rewrite take_drop).
  assert (Hm1 : m = Z.of_nat (length l1)) by (unfold l1; rewrite length_take; lia).
  assert (Hll := f_equal length E). rewrite length_app in Hll.
  rewrite E in Hreps. apply sorted_Forall in Hs. rewrite E in Hs.
  apply Forall_app in Hs as [_ Hs].
  destruct (test_loop_spec (S (length (runs b))) b l1 l2 q Hreps Hs Hq ltac:(lia))
    as (a&q'&Ht&Ha&Hq'&Hcov).
  rewrite Hm1. exists a, q'. split; [exact Ht|]. split; [done|]. split; [done|]. rewrite E.
  intros p Hp. rewrite covers_app. apply Hcov in Hp. tauto.
Qed.

(** ** split *)

Lemma hull_ok_snoc h l r :
  hull_ok h l -> run_ok r -> hull_ok (merge h r) (l ++ [r]).
Proof.
  intros [[-> ->]|Ht] Hr; right.
  - by apply tight_single.
  - eapply tight_merge; [done|done|]. intros p. rewrite covers_app, covers_cons.
    pose proof (covers_nil p). tauto.
Qed.

Lemma lies_before r r' c :
  run_ok r -> run_ok r' -> lies r r' c -> after r <= page_offset r' -> value c <= value LessAdjacent.
Proof.
  unfold run_ok, after. intros ? ? Hl ?. destruct c; cbn in *; unfold after in *; try lia.
  subst. lia.
Qed.

Lemma split_hull h l1 x l2 :
  tight h ((l1 ++ [x]) ++ l2) -> sorted 0 (l1 ++ [x]) -> sorted (after x) l2 ->
  let h1 := MkRun (page_offset h) (sub32 (run_end x) (page_offset h)) in
  run_ok h1 /\ tight h1 (l1 ++ [x]) /\ after h1 = after x.
Proof.
  intros (Hh&Hall&Hlo&_) Hs1 Hs2. cbv zeta.
  assert (Hx : run_ok x) by (by apply sorted_app_start in Hs1 as (_&?&_)).
  rewrite run_end_ok by done.
  assert (Hxh : page_offset h <= page_offset x).
  { assert (in_run h (page_offset x)) as []; [|done]. apply Hall.
    rewrite !covers_app, covers_cons. left; right; left. unfold in_run, run_ok in *. lia. }
  rewrite sub32_small by (unfold run_ok, after, in_run in *; lia).
  set (h1 := MkRun _ _).
  assert (Hh1 : run_ok h1 /\ after h1 = after x)
    by (unfold h1, run_ok, after in *; cbn; lia).
  assert (Hbef : forall p, covers (l1 ++ [x]) p -> p < after x).
  { intros p [Hp|[Hp|Hp]%covers_cons]%covers_app.
    - apply sorted_app_after in Hs1. unfold covers in Hp.
      apply list.Exists_exists in Hp as (r&Hr&Hp).
      eapply list.Forall_forall in Hs1; [|exact Hr]. cbn in Hs1.
      unfold in_run, run_ok, after in *. lia.
    - unfold in_run, after in *. lia.
    - by apply covers_nil in Hp. }
  split; [tauto|]. split; [|tauto]. split; [tauto|]. split; [|split].
  - intros p Hp. pose proof (Hbef _ Hp). assert (in_run h p) as []
      by (apply Hall; rewrite covers_app; by left).
    destruct Hh1 as [_ Ha]. unfold in_run. fold (after h1). rewrite Ha. cbn. lia.
  - apply covers_app in Hlo as [Hlo|Hlo]; [done|]. apply (covers_lower _ _ _ Hs2) in Hlo.
    unfold run_ok, after in *. lia.
  - destruct Hh1 as [_ ->]. rewrite covers_app, covers_cons. right; left.
    unfold in_run, run_ok, after in *. lia.
Qed.

(** One more run stored past those in use. *)
Lemma set_reps_snoc {R} b l r :
  reps b l -> (length l < 256)%nat ->
  exists b', set_at (R:=R) b (Z.of_nat (length l)) r = Ret b' /\
    reps (with_count b' (Z.of_nat (length l) + 1)) (l ++ [r]) /\
    block_run b' = block_run b /\ run_count b' = run_count b.
Proof.
  intros (Hl&Hc&junk&E) Hn. unfold set_at. rewrite Nat2Z.id, (proj2 (Nat.ltb_lt _ _)) by lia.
  eexists. split; [done|]. split; [|done].
  destruct junk as [|x junk]; [rewrite E, app_nil_r in Hl; lia|].
  split; [cbn; by rewrite length_insert|]. split; [cbn; rewrite length_app; cbn; lia|].
  exists junk. cbn. rewrite E, insert_at by done. by rewrite <- app_assoc.
Qed.

Lemma split_loop_spec {R} fuel b new l1 done_ l2 :
  reps b (l1 ++ done_ ++ l2) -> sorted 0 (l1 ++ done_ ++ l2) ->
  reps new done_ -> hull_ok (block_run new) done_ -> (length l2 < fuel)%nat ->
  exists new', split_loop (R:=R) fuel b new (Z.of_nat (length l1 + length done_))
      (Z.of_nat (length l1)) (Z.of_nat (length (l1 ++ done_ ++ l2))) = Ret new' /\
    reps new' (done_ ++ l2) /\ hull_ok (block_run new') (done_ ++ l2).
Proof.
  intros Hreps Hs. revert fuel new done_ Hreps Hs.
  induction l2 as [|n l2 IH]; intros fuel new done_ Hreps Hs Hnew Hh Hf;
    (destruct fuel as [|fuel]; [simpl in Hf; lia|]); cbn [split_loop];
    pose proof (reps_length _ _ Hreps) as Hn; rewrite !length_app in *; cbn [length] in *.
  { rewrite (proj2 (Z.ltb_ge _ _)) by lia. exists new. by rewrite app_nil_r. }
  rewrite (proj2 (Z.ltb_lt _ _)) by lia.
  assert (Hreps2 : reps b ((l1 ++ done_) ++ n :: l2)) by (rewrite <- app_assoc; exact Hreps).
  rewrite (at_reps _ _ _ _ _ Hreps2) by (rewrite length_app; lia). cbn [mbind outcome_bind].
  rewrite sub32_small by (unfold M32; lia).
  replace (Z.of_nat (length l1 + length done_) - Z.of_nat (length l1))
    with (Z.of_nat (length done_)) by lia.
  destruct (set_reps_snoc (R:=R) new done_ n Hnew) as (b'&->&Hb'&Hh'&Hc'); [lia|].
  cbn [mbind outcome_bind]. pose proof Hnew as (_&Hcn&_).
  assert (Hnok : run_ok n).
  { rewrite app_assoc in Hs. by apply sorted_app_start in Hs as (_&?&_). }
  destruct (IH fuel (with_count (with_hull b' (merge (block_run b') n))
    (add32 (run_count (with_hull b' (merge (block_run b') n))) 1)) (done_ ++ [n]))
    as (new'&Hsp&Hr'&Hhh).
  - by rewrite <- app_assoc.
  - by rewrite <- app_assoc.
  - cbn [run_count with_hull]. rewrite Hc', Hcn, add32_small by (unfold M32; lia).
    destruct Hb' as (H1&H2&H3). by split.
  - cbn. rewrite Hh'. by apply hull_ok_snoc.
  - lia.
  - exists new'. rewrite <- app_assoc in Hr', Hhh. split; [|done]. rewrite <- Hsp.
    rewrite !length_app. cbn [length]. rewrite (add32_small (Z.of_nat (length l1 + length done_))) by (unfold M32; lia). f_equal; lia.
Qed.

(** ** The properties *)

(** An add into a block with room. It returns with the block in order: the runs in
    use sorted, disjoint and inside 32 bits, the hull exactly theirs, at most one run
    more; and the block's pages are those it had and the added run's. No raise, abort or
    panic of the operation is reachable. A block of 256 runs dies. *)
Theorem add_pages b run :
  block_ok b -> run_ok run ->
  if run_count b <? RUNS_PER_BLOCK
  then exists b', add b run = Ret b' /\ block_ok b' /\ run_count b' <= run_count b + 1 /\
         forall p, covers (live b') p <-> covers (live b) p \/ in_run run p
  else add b run = Died (Fatal BlockAddFull).
Proof.
  intros Hb Hrun. unfold RUNS_PER_BLOCK. case_if.
  - by apply add_into.
  - unfold add, RUNS_PER_BLOCK. by rewrite (proj2 (Z.ltb_ge _ _)) by done.
Qed.

(** A removal from a block. It returns with the block in order and loses no page
    outside the range; when no run that starts before the range reaches into it, every
    page of the range is gone. (The scan starts at the probe's last run and goes forward,
    so a run that starts before the range may be missed.) A block of 256 runs dies. *)
Theorem remove_pages b run :
  block_ok b -> run_ok run ->
  if run_count b <? RUNS_PER_BLOCK
  then exists b', remove b run = Ret b' /\ block_ok b' /\
         (forall p, covers (live b') p -> covers (live b) p) /\
         (forall p, covers (live b) p -> ~ in_run run p -> covers (live b') p) /\
         (Forall (fun r => page_offset r < page_offset run -> after r <= page_offset run) (live b) ->
          forall p, in_run run p -> ~ covers (live b') p)
  else remove b run = Died (Fatal BlockRemoveFull).
Proof.
  intros Hb Hrun. unfold RUNS_PER_BLOCK. case_if.
  - destruct (remove_from b run Hb Hrun Hif) as (b'&l1&l2&Hr&Hb'&E&Hl1&Hc).
    exists b'. split; [done|]. split; [done|]. rewrite E.
    split; [intros p; rewrite Hc, covers_app; tauto|].
    split; [intros p; rewrite Hc, covers_app; tauto|].
    intros Hall p Hp Hcov. apply Hc in Hcov as [Hcov|[_ Hcov]]; [|done].
    unfold covers in Hcov. apply list.Exists_exists in Hcov as (r&Hr1&Hpr).
    apply Forall_app in Hall as [Hall _].
    eapply list.Forall_forall in Hall, Hl1; [|exact Hr1..].
    specialize (Hall Hl1). unfold in_run, after in *. lia.
  - unfold remove, RUNS_PER_BLOCK. by rewrite (proj2 (Z.ltb_ge _ _)) by done.
Qed.

(** A test of a block. It returns, and it answers that a run is mapped only when
    every page of the run is in a run of the block; the pages it takes off a run it
    answers no for are mapped too. *)
Theorem test_sound b q :
  block_ok b -> run_ok q ->
  exists a q', test b q = Ret (a, q') /\
    (a = true -> forall p, in_run q p -> covers (live b) p) /\
    (forall p, in_run q p -> covers (live b) p \/ in_run q' p).
Proof.
  intros [Hreps Hs _] Hq. destruct (test_spec b q) as (a&q'&Ht&Ha&_&Hc); [by split|by left|].
  exists a, q'. split; [done|]. split; [|done]. intros Htrue p Hp.
  destruct (Hc p Hp) as [|Hn]; [done|]. rewrite (Ha Htrue) in Hn.
  unfold in_run in Hn. cbn in Hn. lia.
Qed.

(** A full block's split. An even count of two runs or more splits into two blocks
    in order, each with half the runs and the exact hull of its own, the first's pages
    before the second's; an odd count dies. *)
Theorem split_halves {R} b :
  block_ok b -> 2 <= run_count b ->
  if Z.even (run_count b)
  then exists b1 b2, split (R:=R) b = Ret (b1, b2) /\ block_ok b1 /\ block_ok b2 /\
         live b = live b1 ++ live b2 /\ run_count b1 = run_count b2
  else split (R:=R) b = Died (Fatal BlockSplitCount).
Proof.
  intros [Hreps Hs Hh] Hge. pose proof Hreps as (Hl&Hc&junk&Ej).
  pose proof (reps_length _ _ Hreps) as Hlen.
  unfold split. set (half := run_count b / 2).
  assert (Hhalf : 1 <= half <= run_count b /\ run_count b = 2 * half + run_count b mod 2).
  { pose proof (Z.div_mod (run_count b) 2 ltac:(lia)) as Hd. fold half in Hd.
    pose proof (Z.mod_pos_bound (run_count b) 2 ltac:(lia)). lia. }
  set (l1 := take (Z.to_nat half) (live b)). set (l2 := drop (Z.to_nat half) (live b)).
  assert (E : live b = l1 ++ l2) by (unfold l1, l2; by rewrite take_drop).
  assert (Hl1 : Z.of_nat (length l1) = half) by (unfold l1; rewrite length_take; lia).
  assert (Hll : Z.of_nat (length (l1 ++ l2)) = run_count b) by (rewrite <- E; lia).
  pose proof Hll as Hll2. rewrite length_app in Hll2. rewrite E in Hreps, Hs.
  destruct (split_loop_spec (R:=R) (S (length (runs b))) b new_block l1 [] l2)
    as (new&Hsp&Hrn&Hhn); [done|done| |by left|lia|].
  { split; [done|]. split; [done|]. by exists (replicate 256 no_run). }
  cbn [length app] in Hsp. rewrite Nat.add_0_r, Hll, Hl1 in Hsp. rewrite Hsp.
  cbn [mbind outcome_bind with_count run_count app] in *. pose proof Hrn as (_&Hcn&_).
  rewrite sub32_small, Hcn by (unfold M32; lia). rewrite add32_small by (unfold M32; lia).
  rewrite (Zmod_even (run_count b)) in Hhalf. destruct (Z.even (run_count b)).
  2: { by rewrite (proj2 (Z.eqb_neq _ _)) by lia. }
  rewrite (proj2 (Z.eqb_eq _ _)) by lia. cbn [fatal_unless mbind outcome_bind].
  rewrite sub32_small by (unfold M32; lia).
  destruct (exists_last (l := l1)) as (l1'&x&Ex); [by destruct l1; [cbn in *; lia|]|].
  assert (Hx : run_ok x /\ sorted (after x) l2 /\ sorted 0 l1).
  { apply sorted_app in Hs as [Hs1 Hs2]. rewrite Ex, last_snoc in Hs2.
    pose proof Hs1 as Hsx. rewrite Ex in Hsx. apply sorted_app_start in Hsx as (_&?&_). done. }
  destruct Hx as (Hxok&Hs2&Hs1). assert (Hx1 := f_equal length Ex). rewrite length_app in Hx1.
  cbn [length] in Hx1. pose proof Hreps as Hrx. rewrite Ex, <- app_assoc in Hrx. cbn [app] in Hrx.
  assert (Hat : at_ (R:=R) (with_count b (run_count b - half)) (run_count b - half - 1) = Ret x).
  { exact (at_reps b l1' x l2 (run_count b - half - 1) Hrx ltac:(lia)). }
  rewrite Hat. cbn [mbind outcome_bind with_hull with_count block_run].
  set (h1 := MkRun _ _).
  assert (Hll12 : length l2 = length l1) by lia.
  destruct Hh as [[El _]|Ht]; [rewrite E in El; destruct l1; [cbn in *; lia|done]|].
  rewrite E, Ex in Ht. destruct (split_hull _ l1' x l2 Ht) as (Hh1&Ht1&Hend);
    [by rewrite <- Ex|done|]. fold h1 in Hh1, Ht1, Hend. rewrite <- Ex in Ht1.
  destruct Hhn as [[En _]|Htn]; [rewrite En in Hll12; cbn in Hll12; lia|].
  destruct (compare_lies (R:=R) h1 (block_run new) Hh1 (proj1 Htn)) as (c&->&Hlies).
  cbn [mbind outcome_bind].
  pose proof (covers_lower _ _ _ Hs2 (proj1 (proj2 (proj2 Htn)))) as Hlow.
  assert (Hc2 : value c <=? value LessAdjacent = true).
  { apply Z.leb_le, (lies_before h1 (block_run new)); [done|apply Htn|done|lia]. }
  rewrite Hc2. cbn [fatal_unless mbind outcome_bind].
  set (b1 := with_hull _ _).
  assert (Hb1 : reps b1 l1).
  { split; [done|]. split; [cbn; lia|]. exists (l2 ++ junk). cbn. by rewrite Ej, E, app_assoc. }
  pose proof (reps_live _ _ Hb1) as E1. pose proof (reps_live _ _ Hrn) as E2.
  exists b1, new. split; [done|]. split; [|split; [|split]].
  - split; rewrite ?E1; [done|done|by right].
  - split; rewrite ?E2; [done| |by right]. eapply sorted_weaken; [|done].
    unfold run_ok, after in *. lia.
  - by rewrite E1, E2.
  - cbn. lia.
Qed.

(** Four runs, two of them adjacent. *)
Definition sample_runs : list Run := [MkRun 2 3; MkRun 5 1; MkRun 10 10; MkRun 30 1].
Definition sample_block : RunBlock :=
  MkBlock (sample_runs ++ replicate 252 no_run) (MkRun 2 29) 4.

Lemma sample_block_ok : block_ok sample_block.
Proof.
  assert (Hl : live sample_block = sample_runs) by reflexivity.
  split; rewrite Hl.
  - split; [done|]. split; [done|]. by exists (replicate 252 no_run).
  - repeat (split; [by vm_compute|]). done.
  - right. split; [by vm_compute|]. split; [|split].
    + intros p Hp. unfold covers in Hp. apply list.Exists_exists in Hp as (r&Hr&Hp).
      unfold sample_runs in Hr. repeat (apply elem_of_cons in Hr as [->|Hr];
        [unfold in_run in *; cbn in *; lia|]). by apply not_elem_of_nil in Hr.
    + apply covers_cons. left. by vm_compute.
    + do 3 (apply covers_cons; right). apply covers_cons. left. by vm_compute.
Qed.

Lemma add_pages_witness :
  if run_count sample_block <? RUNS_PER_BLOCK
  then exists b', add sample_block (MkRun 4 8) = Ret b' /\ block_ok b' /\
         run_count b' <= run_count sample_block + 1 /\
         forall p, covers (live b') p <-> covers (live sample_block) p \/ in_run (MkRun 4 8) p
  else add sample_block (MkRun 4 8) = Died (Fatal BlockAddFull).
Proof. apply (add_pages sample_block (MkRun 4 8)); [apply sample_block_ok|by vm_compute]. Defined.

Lemma remove_pages_witness :
  if run_count sample_block <? RUNS_PER_BLOCK
  then exists b', remove sample_block (MkRun 12 4) = Ret b' /\ block_ok b' /\
         (forall p, covers (live b') p -> covers (live sample_block) p) /\
         (forall p, covers (live sample_block) p -> ~ in_run (MkRun 12 4) p -> covers (live b') p) /\
         (Forall (fun r => page_offset r < page_offset (MkRun 12 4) ->
                    after r <= page_offset (MkRun 12 4)) (live sample_block) ->
          forall p, in_run (MkRun 12 4) p -> ~ covers (live b') p)
  else remove sample_block (MkRun 12 4) = Died (Fatal BlockRemoveFull).
Proof. apply (remove_pages sample_block (MkRun 12 4)); [apply sample_block_ok|by vm_compute]. Defined.

Lemma test_sound_witness :
  exists a q', test sample_block (MkRun 3 3) = Ret (a, q') /\
    (a = true -> forall p, in_run (MkRun 3 3) p -> covers (live sample_block) p) /\
    (forall p, in_run (MkRun 3 3) p -> covers (live sample_block) p \/ in_run q' p).
Proof. apply (test_sound sample_block (MkRun 3 3)); [apply sample_block_ok|by vm_compute]. Defined.

Lemma split_halves_witness :
  if Z.even (run_count sample_block)
  then exists b1 b2, split (R:=RaiseKind) sample_block = Ret (b1, b2) /\
         block_ok b1 /\ block_ok b2 /\ live sample_block = live b1 ++ live b2 /\
         run_count b1 = run_count b2
  else split (R:=RaiseKind) sample_block = Died (Fatal BlockSplitCount).
Proof. apply (split_halves sample_block); [apply sample_block_ok|by vm_compute]. Defined.

(** A mapped page the forward scan from the probe does not see: the block's middle run
    holds page 25, and the test of it starts at the run after. *)
Example test_misses :
  let b := MkBlock ([MkRun 0 10; MkRun 20 10; MkRun 40 10] ++ replicate 253 no_run)
             (MkRun 0 50) 3 in
  covers (live b) 25 /\ test b (MkRun 25 1) = Ret (false, MkRun 25 1).
Proof.
  split; [|by vm_compute]. apply covers_cons; right. apply covers_cons; left. by vm_compute.
Qed.

End RunBlock.
