(* ===== verification/RangeTracker.v ===== *)
(** * RangeTracker: which pages of a task the host has mapped
    (src/crates/reims-vgpu-core/src/memory/tracker.rs, [Blocks] and [RangeTracker])

    Up to 128 blocks in slots; an empty slot read is the source's NULL read. The lock
    around the blocks is not modelled: an operation is the body it runs under. A raise
    leaves the blocks as it found them. *)

From S2P Require Import Prelude MemoryKinds GuestRecords Runs RunBlock.
Import Memory GuestRecords Runs RunBlock.

Module RangeTracker.

Definition MAX_BLOCKS : Z := 128.
Definition UNMAPPED_RUNS : nat := 16.

Record Blocks := MkBlocks {
  count : Z;
  blocks : list (option RunBlock);
}.

Definition no_blocks : Blocks := MkBlocks 0 (replicate 128 None).

Abbreviation tres := (outcome (RaiseKind * Blocks) mdeath).

Section Slots.
Context {R : Type}.
Local Abbreviation dres := (outcome R mdeath).

(** [slot], read and written. *)
Definition slot (t : Blocks) (i : Z) : dres (option RunBlock) :=
  match blocks t !! Z.to_nat i with Some s => Ret s | None => Died Panic end.
Definition set_slot (t : Blocks) (i : Z) (s : option RunBlock) : dres Blocks :=
  if (Z.to_nat i <? length (blocks t))%nat
  then Ret (MkBlocks (count t) (<[Z.to_nat i := s]> (blocks t))) else Died Panic.
Definition with_blocks_count (t : Blocks) (n : Z) : Blocks := MkBlocks n (blocks t).

(** [block] and [block_mut]: an empty slot there is a NULL read. *)
Definition block (t : Blocks) (i : Z) : dres RunBlock :=
  s ← slot t i;
  match s with Some b => Ret b | None => Died (Fatal TrackerSlotEmpty) end.

Fixpoint move_up (fuel : nat) (t : Blocks) (i index : Z) : dres Blocks :=
  match fuel with
  | O => Died OutOfFuel
  | S fuel =>
      if add32 index 1 <? i then
        moved ← slot t (sub32 i 1);
        t ← set_slot t (sub32 i 1) None;
        t ← set_slot t i moved;
        move_up fuel t (sub32 i 1) index
      else Ret t
  end.

Definition split_at_index (t : Blocks) (index : Z) : dres Blocks :=
  t ← move_up (S (length (blocks t))) t (count t) index;
  b ← block t index;
  '(b, new_block) ← split b;
  t ← set_slot t index (Some b);
  t ← set_slot t (add32 index 1) (Some new_block);
  Ret (with_blocks_count t (add32 (count t) 1)).

Fixpoint move_down (fuel : nat) (t : Blocks) (i : Z) : dres Blocks :=
  match fuel with
  | O => Died OutOfFuel
  | S fuel =>
      if i <? count t then
        moved ← slot t i;
        t ← set_slot t i None;
        t ← set_slot t (sub32 i 1) moved;
        move_down fuel t (add32 i 1)
      else Ret t
  end.

Definition remove_slot (t : Blocks) (index : Z) : dres Blocks :=
  s ← slot t index;
  _ ← fatal_unless (match s with Some _ => true | None => false end)
        (Fatal TrackerRemoveEmptySlot);
  _ ← fatal_unless (negb (count t =? 0)) (Fatal TrackerRemoveNoBlocks);
  t ← set_slot t index None;
  t ← move_down (S (length (blocks t))) t (add32 index 1);
  let t := with_blocks_count t (sub32 (count t) 1) in
  set_slot t (count t) None.

(** The [to_steal] first runs of a block, read, and stored from run [k] of another. *)
Fixpoint steal (fuel : nat) (b : RunBlock) (j to_steal : Z) : dres (list Run) :=
  match fuel with
  | O => Died OutOfFuel
  | S fuel =>
      if j <? to_steal then
        r ← at_ b j; rs ← steal fuel b (add32 j 1) to_steal; Ret (r :: rs)
      else Ret []
  end.
Fixpoint put (b : RunBlock) (k : Z) (rs : list Run) : dres RunBlock :=
  match rs with
  | [] => Ret b
  | r :: rs => b ← set_at b k r; put b (add32 k 1) rs
  end.
(** The runs of a block moved down by [to_steal]. *)
Fixpoint close_up (fuel : nat) (b : RunBlock) (j to_steal : Z) : dres RunBlock :=
  match fuel with
  | O => Died OutOfFuel
  | S fuel =>
      if j <? sub32 (run_count b) to_steal then
        r ← at_ b (add32 to_steal j);
        b ← set_at b j r;
        close_up fuel b (add32 j 1) to_steal
      else Ret b
  end.

(** One round of the inner loop of [compact] at block [i]. *)
Definition compact_step (t : Blocks) (i : Z) : dres Blocks :=
  _ ← fatal_unless (add32 i 1 <? MAX_BLOCKS) (Fatal TrackerCompactPastBlocks);
  let next_index := add32 i 1 in
  b ← block t i;
  next ← block t next_index;
  let run_count_i := run_count b in
  let next_count := run_count next in
  let to_steal := Z.min next_count (sub32 FULL_BLOCK run_count_i) in
  _ ← fatal_unless (negb (to_steal =? 0)) (Fatal TrackerCompactEmptyNext);
  stolen ← steal (S (length (runs next))) next 0 to_steal;
  b ← put b run_count_i stolen;
  let b := with_count b (add32 (run_count b) to_steal) in
  last ← at_ b (sub32 (run_count b) 1);
  let b := with_hull b (MkRun (page_offset (block_run b))
             (sub32 (run_end last) (page_offset (block_run b)))) in
  t ← set_slot t i (Some b);
  if to_steal <? next_count then
    next ← close_up (S (length (runs next))) next 0 to_steal;
    let next := with_count next (sub32 (run_count next) to_steal) in
    first ← at_ next 0;
    next_last ← at_ next (sub32 (run_count next) 1);
    let next := with_hull next (MkRun (page_offset first)
      (add32 (sub32 (page_offset next_last) (page_offset first)) (page_length next_last))) in
    set_slot t next_index (Some next)
  else remove_slot t next_index.

Fixpoint compact_inner (fuel : nat) (t : Blocks) (i : Z) : dres Blocks :=
  match fuel with
  | O => Died OutOfFuel
  | S fuel =>
      b ← block t i;
      if (run_count b <? FULL_BLOCK) && (i <? sub32 (count t) 1)
      then t ← compact_step t i; compact_inner fuel t i
      else Ret t
  end.

Fixpoint compact_outer (fuel : nat) (t : Blocks) (i : Z) : dres Blocks :=
  match fuel with
  | O => Died OutOfFuel
  | S fuel =>
      if i <? sub32 (count t) 1
      then t ← compact_inner (S (S (length (blocks t)))) t i; compact_outer fuel t (add32 i 1)
      else Ret t
  end.

Definition compact (t : Blocks) : dres Blocks :=
  compact_outer (S (length (blocks t))) t 0.
End Slots.

(** *** add_to_range *)

(** The scan for the target: its index, the block it was, and the last comparison. *)
Fixpoint find_target {R} (fuel : nat) (t : Blocks) (run : Run) (i target_index : Z)
    (target : option Z) (cmp : Cmp) : outcome R mdeath (Z * option Z * Cmp) :=
  match fuel with
  | O => Died OutOfFuel
  | S fuel =>
      if i <? count t then
        b ← block t i;
        cmp ← block_compare b run;
        match cmp, target with
        | Less, _ | GreaterOverlap, _ => find_target fuel t run (add32 i 1) i (Some i) cmp
        | GreaterAdjacent, Some _ | Greater, Some _ =>
            find_target fuel t run (add32 i 1) target_index target cmp
        | _, _ => Ret (i, Some i, cmp)
        end
      else Ret (target_index, target, cmp)
  end.

(** The loop that finds a block with room, splitting and compacting: the block's index,
    or [None] where the source returns at once. *)
Fixpoint place (fuel : nat) (t : Blocks) (run : Run) (compacted : bool) (cmp : Cmp)
    : tres (Blocks * option Z) :=
  match fuel with
  | O => Died OutOfFuel
  | S fuel =>
      '(target_index, target, cmp) ← find_target (S (length (blocks t))) t run 0 0 None cmp;
      b ← block t target_index;
      if run_count b <? FULL_BLOCK then Ret (t, Some target_index)
      else
        _ ← fatal_unless (match target with Some i => i =? target_index | None => false end)
              (Fatal TrackerTargetMoved);
        if count t =? MAX_BLOCKS then
          if compacted then Raised (TrackerTooComplex, t)
          else
            t ← compact t;
            if count t =? 0 then Ret (t, None) else place fuel t run true cmp
        else if (match cmp with Less | LessAdjacent => true | _ => false end)
                && (target_index =? sub32 (count t) 1) then
          let target_index := add32 target_index 1 in
          t ← set_slot t target_index (Some new_block);
          Ret (with_blocks_count t (add32 (count t) 1), Some target_index)
        else
          t ← split_at_index t target_index;
          if count t =? 0 then Ret (t, None) else place fuel t run true cmp
  end.

(** An operation of block [i]; its raise leaves the block as the raise found it. *)
Definition on_block (t : Blocks) (i : Z) (f : RunBlock -> bres RunBlock) : tres Blocks :=
  b ← block t i;
  match f b with
  | Ret b => set_slot t i (Some b)
  | Raised (k, b) => t ← set_slot t i (Some b); Raised (k, t)
  | Died d => Died d
  end.

(** The blocks after the target's: the run's pages taken out of them. *)
Fixpoint clear_after (fuel : nat) (t : Blocks) (run : Run) (i : Z) : tres Blocks :=
  match fuel with
  | O => Died OutOfFuel
  | S fuel =>
      if i <? count t then
        b ← block t i;
        cmp ← block_compare b run;
        match cmp with
        | InsideEdge | GreaterOverlap => on_block t i (fun b => remove b run)
        | Equal | Inside => t ← remove_slot t i; clear_after fuel t run (add32 i 1)
        | Contains | GreaterAdjacent | Greater => Ret t
        | Less | LessAdjacent | LessOverlap => Died (Fatal TrackerAddUnordered)
        end
      else Ret t
  end.

(** Rounds of [place] that are enough: each but the first and the last adds a block. *)
Definition PLACE_FUEL : nat := 132.

Definition blocks_add (t : Blocks) (run : Run) : tres Blocks :=
  if count t =? 0 then
    t ← set_slot t 0 (Some new_block);
    on_block (with_blocks_count t 1) 0 (fun b => add b run)
  else
    '(t, target) ← place PLACE_FUEL t run false Equal;
    match target with
    | None => Ret t
    | Some target_index =>
        t ← on_block t target_index (fun b => add b run);
        clear_after (S (length (blocks t))) t run (add32 target_index 1)
    end.

(** *** remove_from_range *)

Fixpoint blocks_remove_loop (fuel : nat) (t : Blocks) (run : Run) (i : Z) : tres Blocks :=
  match fuel with
  | O => Died OutOfFuel
  | S fuel =>
      if i <? count t then
        b ← block t i;
        cmp ← block_compare b run;
        match cmp with
        | Less | LessAdjacent => blocks_remove_loop fuel t run (add32 i 1)
        | LessOverlap | GreaterOverlap =>
            t ← on_block t i (fun b => remove b run);
            blocks_remove_loop fuel t run (add32 i 1)
        | Equal | Inside | InsideEdge => remove_slot t i
        | Contains => on_block t i (fun b => remove b run)
        | GreaterAdjacent | Greater => Ret t
        end
      else Ret t
  end.
Definition blocks_remove (t : Blocks) (run : Run) : tres Blocks :=
  blocks_remove_loop (S (length (blocks t))) t run 0.

(** ** The tracker *)

Section Tracker.
Context {target : Target}.

Definition calculate_page_run_aligned (offset length : Z) : mres Run :=
  if (length =? 0) || negb (Z.land length APV_PAGE_MASK =? 0) then Raised TrackerAlignedLength
  else if negb (Z.land offset APV_PAGE_MASK =? 0) then Raised TrackerAlignedOffset
  else Ret (MkRun (w32 (shr64 offset APV_PAGE_SHIFT)) (w32 (shr64 length APV_PAGE_SHIFT))).

Definition calculate_page_run_unaligned (offset length : Z) : mres Run :=
  if length =? 0 then Raised TrackerZeroLength
  else
    let sum := sub64 (add64 (add64 offset length) (sub64 APV_PAGE_SIZE 2))
                 (Z.land offset (not64 APV_PAGE_MASK)) in
    Ret (MkRun (w32 (shr64 offset APV_PAGE_SHIFT)) (w32 (shr64 sum APV_PAGE_SHIFT))).

Definition add_to_range (t : Blocks) (offset length : Z) : tres Blocks :=
  run ← leaving t (calculate_page_run_aligned offset length);
  blocks_add t run.

Definition remove_from_range (t : Blocks) (offset length : Z) : tres Blocks :=
  run ← leaving t (calculate_page_run_aligned offset length);
  blocks_remove t run.

Fixpoint test_range_loop (fuel : nat) (t : Blocks) (new_run : Run) (i : Z) : mres bool :=
  match fuel with
  | O => Died OutOfFuel
  | S fuel =>
      if i <? count t then
        b ← block t i;
        cmp ← block_compare b new_run;
        match cmp with
        | Less | LessAdjacent => test_range_loop fuel t new_run (add32 i 1)
        | LessOverlap | InsideEdge =>
            '(a, new_run) ← test b new_run;
            match a with
            | true => test_range_loop fuel t new_run (add32 i 1)
            | false => Ret false
            end
        | Inside => Ret false
        | Equal | Contains =>
            '(a, new_run) ← test b new_run;
            match a with
            | true =>
                _ ← fatal_unless (is_empty new_run) (Fatal TrackerTestLeftover); Ret true
            | false => Ret false
            end
        | GreaterOverlap => '(a, new_run) ← test b new_run; Ret (a && is_empty new_run)
        | GreaterAdjacent | Greater => Ret (is_empty new_run)
        end
      else Ret (is_empty new_run)
  end.

Definition test_range (t : Blocks) (offset length : Z) : mres bool :=
  new_run ← calculate_page_run_unaligned offset length;
  test_range_loop (S (List.length (blocks t))) t new_run 0.

(** One more unmapped run; the array holds 16. *)
Definition push_unmapped (unmapped : list Run) (r : Run) (k : RaiseKind) : mres (list Run) :=
  if (List.length unmapped <? UNMAPPED_RUNS)%nat then Ret (unmapped ++ [r]) else Raised k.

(** A block's runs from [j] on, while [more]: what is left of the range, and the
    unmapped runs found. *)
Fixpoint scan_block (fuel : nat) (b : RunBlock) (j : Z) (current : Run) (unmapped : list Run)
    : mres (Run * list Run) :=
  match fuel with
  | O => Died OutOfFuel
  | S fuel =>
      if j <? run_count b then
        run ← at_ b j;
        cmp ← compare run current;
        match cmp with
        | Less | LessAdjacent => scan_block fuel b (add32 j 1) current unmapped
        | LessOverlap | InsideEdge =>
            current ← subtract_overlap current run;
            scan_block fuel b (add32 j 1) current unmapped
        | Equal | Contains => Ret (no_run, unmapped)
        | Inside =>
            let '(current, remainder) := subtract_inside current run in
            _ ← fatal_unless (negb (is_empty current)) (Fatal TrackerVisitEmptyRun);
            unmapped ← push_unmapped unmapped current TrackerUnmappedTooComplex;
            scan_block fuel b (add32 j 1) remainder unmapped
        | GreaterOverlap =>
            current ← subtract_overlap current run; Ret (current, unmapped)
        | GreaterAdjacent | Greater => Ret (current, unmapped)
        end
      else Ret (current, unmapped)
  end.

Fixpoint scan_blocks (fuel : nat) (t : Blocks) (i : Z) (current : Run) (unmapped : list Run)
    : mres (Run * list Run) :=
  match fuel with
  | O => Died OutOfFuel
  | S fuel =>
      if i <? count t then
        b ← block t i;
        cmp ← block_compare b current;
        let '(keep_going, scan) := match cmp with
          | Less | LessAdjacent => (true, false)
          | GreaterAdjacent | Greater => (false, false)
          | Equal | Contains | GreaterOverlap => (false, true)
          | LessOverlap | Inside | InsideEdge => (true, true)
          end in
        '(current, unmapped) ← (if scan
          then scan_block (S (List.length (runs b))) b 0 current unmapped
          else Ret (current, unmapped));
        if keep_going then scan_blocks fuel t (add32 i 1) current unmapped
        else Ret (current, unmapped)
      else Ret (current, unmapped)
  end.

Definition unmapped_runs (t : Blocks) (offset length : Z) : mres (list Run) :=
  current ← calculate_page_run_unaligned offset length;
  '(current, unmapped) ← scan_blocks (S (List.length (blocks t))) t 0 current [];
  if negb (is_empty current)
  then push_unmapped unmapped current TrackerUnmappedTooComplexTail
  else Ret unmapped.

(** The visits, in order, on the visitor's own state, which may hold the tracker. *)
Fixpoint visit_runs {St : Type} (visitor : Z -> Z -> St -> mres (bool * St)) (rs : list Run)
    (s : St) : mres St :=
  match rs with
  | [] => Ret s
  | r :: rs =>
      let '(range_offset, range_length) := get_range r in
      '(go, s) ← visitor range_offset range_length s;
      match go with true => visit_runs visitor rs s | false => Ret s end
  end.

Definition visit_unmapped_ranges {St : Type} (t : Blocks) (offset length : Z)
    (visitor : Z -> Z -> St -> mres (bool * St)) (s : St) : mres St :=
  unmapped ← unmapped_runs t offset length;
  visit_runs visitor unmapped s.
End Tracker.

(** ** The blocks in use *)

(** The slots in use hold [bs], the rest are empty. *)
Definition holds (t : Blocks) (bs : list RunBlock) : Prop :=
  blocks t = map Some bs ++ replicate (128 - length bs) None /\
  count t = Z.of_nat (length bs) /\ (length bs <= 128)%nat.

Definition covered (bs : list RunBlock) (p : Z) : Prop :=
  Exists (fun b => covers (live b) p) bs.

(** The blocks in slot order, and the pages mapped. *)
Definition in_use (t : Blocks) : list RunBlock :=
  omap id (take (Z.to_nat (count t)) (blocks t)).
Definition mapped (t : Blocks) (p : Z) : Prop := covered (in_use t) p.

(** Every slot in use holds a block of sorted real runs. *)
Definition tracker_ok (t : Blocks) : Prop := holds t (in_use t) /\ Forall runs_ok (in_use t).

Lemma holds_in_use t bs : holds t bs -> in_use t = bs.
Proof.
  intros (Hb&Hc&_). unfold in_use. rewrite Hb, Hc, Nat2Z.id.
  rewrite take_app_length' by (by rewrite length_map).
  clear. induction bs as [|b bs IH]; [done|]. cbn. by f_equal.
Qed.

Lemma block_at {R} t l1 b l2 i :
  holds t (l1 ++ b :: l2) -> i = Z.of_nat (length l1) -> block (R:=R) t i = Ret b.
Proof.
  intros (Hb&_) ->. unfold block, slot. rewrite Nat2Z.id, Hb, map_app, <- app_assoc.
  cbn [map app]. by rewrite lookup_at' by (by rewrite length_map).
Qed.

Lemma covered_cons b bs p : covered (b :: bs) p <-> covers (live b) p \/ covered bs p.
Proof. unfold covered. by rewrite Exists_cons. Qed.

(** *** The test *)

Lemma test_range_loop_spec fuel t l1 l2 q :
  holds t (l1 ++ l2) -> Forall runs_ok l2 -> run_or_none q -> (length l2 < fuel)%nat ->
  exists a, test_range_loop fuel t q (Z.of_nat (length l1)) = Ret a /\
    (a = true -> forall p, in_run q p -> covered l2 p).
Proof.
  intros Ht. revert fuel l1 q Ht.
  induction l2 as [|b l2 IH]; intros fuel l1 q Ht Hok Hq Hf;
    (destruct fuel as [|fuel]; [simpl in Hf; lia|]); cbn [test_range_loop];
    destruct (Ht) as (_&Hc&Hn); rewrite Hc; rewrite !length_app in *; cbn [length] in *.
  { rewrite (proj2 (Z.ltb_ge _ _)) by lia. exists (is_empty q). split; [done|].
    intros E p Hp. rewrite (is_empty_none _ Hq E) in Hp. unfold in_run in Hp. cbn in Hp. lia. }
  rewrite (proj2 (Z.ltb_lt _ _)) by lia. apply list.Forall_cons in Hok as [Hb Hok].
  rewrite (block_at _ _ _ _ _ Ht) by done. cbn [mbind outcome_bind].
  assert (Hnext : forall q', run_or_none q' ->
    exists a, test_range_loop fuel t q' (add32 (Z.of_nat (length l1)) 1) = Ret a /\
      (a = true -> forall p, in_run q' p -> covered l2 p)).
  { intros q' Hq'. rewrite add32_small by (unfold M32; lia).
    replace (Z.of_nat (length l1) + 1) with (Z.of_nat (length (l1 ++ [b])))
      by (rewrite length_app; cbn; lia).
    apply IH; [by rewrite <- app_assoc|done|done|lia]. }
  assert (Hnow : exists a, (Ret (is_empty q) : mres bool) = Ret a /\
    (a = true -> forall p, in_run q p -> covered (b :: l2) p)).
  { exists (is_empty q). split; [done|]. intros E p Hp.
    rewrite (is_empty_none _ Hq E) in Hp. unfold in_run in Hp. cbn in Hp. lia. }
  destruct (test_spec b q Hb Hq) as (a&q'&Ha&Hae&Hq'&Hcov).
  unfold block_compare. destruct (compare_total (R:=RaiseKind) (block_run b) q) as [c ->].
  cbn [mbind outcome_bind]. rewrite ?Ha.
  assert (Hwhole : a = true -> forall p, in_run q p -> covered (b :: l2) p).
  { intros E p Hp. rewrite covered_cons. destruct (Hcov p Hp) as [|Hn']; [by left|].
    rewrite (Hae E) in Hn'. unfold in_run in Hn'. cbn in Hn'. lia. }
  destruct c; cbn [mbind outcome_bind]; try done.
  - destruct (Hnext q Hq) as (a'&->&Ha'). exists a'. split; [done|]. intros E p Hp.
    rewrite covered_cons. right. by apply Ha'.
  - destruct (Hnext q Hq) as (a'&->&Ha'). exists a'. split; [done|]. intros E p Hp.
    rewrite covered_cons. right. by apply Ha'.
  - destruct a; [|by exists false].
    destruct (Hnext q' Hq') as (a'&->&Ha'). exists a'. split; [done|]. by intros _; apply Hwhole.
  - destruct a; [|by exists false]. rewrite (Hae eq_refl). exists true. split; [done|]. by apply Hwhole.
  - by exists false.
  - destruct a; [|by exists false].
    destruct (Hnext q' Hq') as (a'&->&Ha'). exists a'. split; [done|]. by intros _; apply Hwhole.
  - destruct a; [|by exists false]. rewrite (Hae eq_refl). exists true. split; [done|]. by apply Hwhole.
  - exists (a && is_empty q'). split; [done|]. intros [E _]%andb_prop. by apply Hwhole.
Qed.

(** *** The unmapped runs *)

(** What a scan over pages [P] leaves of the range [q]: every page of it is in [P], among
    the runs found, or left; nothing outside it is; or there are too many runs. *)
Definition swept (m : mres (Run * list Run)) (P : Z -> Prop) (q : Run) (found : list Run) : Prop :=
  (exists q' more, m = Ret (q', found ++ more) /\ run_or_none q' /\ Forall run_ok more /\
     (length (found ++ more) <= 16)%nat /\
     (forall p, in_run q p -> P p \/ covers more p \/ in_run q' p) /\
     (forall p, covers more p \/ in_run q' p -> in_run q p)) \/
  m = Raised TrackerUnmappedTooComplex.

Lemma swept_now P q found :
  run_or_none q -> (length found <= 16)%nat -> swept (Ret (q, found)) P q found.
Proof.
  intros Hq Hn. left. exists q, []. rewrite app_nil_r. split; [done|]. split; [done|].
  split; [constructor|]. split; [done|]. split; [auto|].
  intros p [H|H]; [by apply covers_nil in H|done].
Qed.

Lemma swept_trim m (P P' : Z -> Prop) q q' found :
  (forall p, in_run q p -> P' p \/ in_run q' p) -> (forall p, in_run q' p -> in_run q p) ->
  (forall p, P p \/ P' p -> P' p) ->
  swept m P q' found -> swept m P' q found.
Proof.
  intros Hq Hq' HP [(q''&more&->&?&?&?&Hc&Hb)| ->]; [left|by right].
  exists q'', more. do 4 (split; [done|]). split.
  - intros p Hp. apply Hq in Hp as [Hp|Hp]; [by left|]. apply Hc in Hp as [Hp|Hp]; [|by right].
    left. apply HP. by left.
  - intros p Hp. by apply Hq', Hb.
Qed.

(** A run found splits the range. *)
Lemma swept_more m (P P' : Z -> Prop) q q1 q2 found :
  (forall p, in_run q p -> in_run q1 p \/ P' p \/ in_run q2 p) ->
  (forall p, in_run q1 p \/ in_run q2 p -> in_run q p) ->
  (forall p, P p \/ P' p -> P' p) -> run_ok q1 ->
  swept m P q2 (found ++ [q1]) -> swept m P' q found.
Proof.
  intros Hq Hq' HP Hok [(q''&more&->&?&?&Hl&Hc&Hb)| ->]; [left|by right].
  exists q'', (q1 :: more). rewrite <- app_assoc in *. split; [done|]. split; [done|].
  split; [by constructor|]. split; [done|]. split.
  - intros p Hp. rewrite covers_cons. apply Hq in Hp as [Hp|[Hp|Hp]]; [tauto|tauto|].
    apply Hc in Hp as [Hp|Hp]; [|tauto]. left. apply HP. by left.
  - intros p. rewrite covers_cons. intros [[Hp|Hp]|Hp]; apply Hq'; [tauto|right; apply Hb; tauto..].
Qed.

(** As [test_trim], and nothing is gained. *)
Lemma trim_less n q c :
  run_ok n -> run_ok q -> lies n q c ->
  c = LessOverlap \/ c = InsideEdge \/ c = GreaterOverlap ->
  exists q', subtract_overlap q n = Ret q' /\ run_or_none q' /\
    (forall p, in_run q p -> in_run n p \/ in_run q' p) /\
    (forall p, in_run q' p -> in_run q p).
Proof.
  intros Hn Hq Hl Hc. destruct (test_trim n q c Hn Hq Hl) as (q'&Hs&Hq'&Hp); [tauto|].
  exists q'. split; [done|]. split; [done|]. split; [done|]. revert Hs.
  assert (Hpos : page_offset n < after n /\ page_offset q < after q)
    by (unfold run_ok, after in *; lia).
  assert (Hov : page_offset n < after q /\ page_offset q < after n)
    by (destruct Hc as [->|[->| ->]]; cbn in Hl; lia).
  rewrite subtract_overlap_eq by (done || lia). clear Hl Hc Hp Hq'.
  repeat case_if; intros [= <-]; cov.
Qed.

Lemma scan_block_spec fuel b l1 l2 q found :
  reps b (l1 ++ l2) -> Forall run_ok l2 -> run_or_none q -> (length found <= 16)%nat ->
  (length l2 < fuel)%nat ->
  swept (scan_block fuel b (Z.of_nat (length l1)) q found) (covers l2) q found.
Proof.
  intros Hreps. revert fuel l1 q found Hreps.
  induction l2 as [|n l2 IH]; intros fuel l1 q found Hreps Hok Hq Hfn Hf;
    (destruct fuel as [|fuel]; [simpl in Hf; lia|]); cbn [scan_block];
    pose proof (reps_length _ _ Hreps) as Hn; destruct (Hreps) as (_&Hc&_);
    rewrite Hc; rewrite !length_app in *; cbn [length] in *.
  { rewrite (proj2 (Z.ltb_ge _ _)) by lia. by apply swept_now. }
  rewrite (proj2 (Z.ltb_lt _ _)) by lia.
  apply list.Forall_cons in Hok as [Hnok Hok].
  rewrite (at_reps _ _ _ _ _ Hreps) by done. cbn [mbind outcome_bind].
  assert (Hnext : forall q' found', run_or_none q' -> (length found' <= 16)%nat ->
    swept (scan_block fuel b (add32 (Z.of_nat (length l1)) 1) q' found') (covers l2) q' found').
  { intros q' found' Hq' Hl'. rewrite add32_small by (unfold M32; lia).
    replace (Z.of_nat (length l1) + 1) with (Z.of_nat (length (l1 ++ [n])))
      by (rewrite length_app; cbn; lia).
    apply IH; [by rewrite <- app_assoc|done|done|done|lia]. }
  assert (Hmono : forall p, covers l2 p \/ covers (n :: l2) p -> covers (n :: l2) p)
    by (intros p; rewrite covers_cons; tauto).
  destruct Hq as [Hq| ->].
  2: { destruct (compare_none (R:=RaiseKind) n Hnok) as (c&->&[->| ->]); cbn [mbind outcome_bind];
       (apply swept_now; [by right|done]). }
  destruct (compare_lies (R:=RaiseKind) n q Hnok Hq) as (c&->&Hlies).
  cbn [mbind outcome_bind].
  pose proof (trim_less n q c Hnok Hq Hlies) as Htrim.
  assert (Hgone : (forall p, in_run q p -> in_run n p) ->
    swept (Ret (no_run, found)) (covers (n :: l2)) q found).
  { intros Hin. left. exists no_run, []. rewrite app_nil_r. split; [done|]. split; [by right|].
    split; [constructor|]. split; [done|]. split; [intros p Hp; left; apply covers_cons; auto|].
    intros p [H|H]; [by apply covers_nil in H|unfold in_run in H; cbn in H; lia]. }
  destruct c; try (apply swept_now; [by left|done]).
  - eapply (swept_trim _ (covers l2)); [by right|done|done|apply Hnext; [by left|done]].
  - eapply (swept_trim _ (covers l2)); [by right|done|done|apply Hnext; [by left|done]].
  - destruct Htrim as (q'&->&Hq'&Hin&Hout); [tauto|]. cbn [mbind outcome_bind].
    eapply (swept_trim _ (covers l2) _ q q'); [|done|done|by apply Hnext].
    intros p Hp. rewrite covers_cons. apply Hin in Hp. tauto.
  - apply Hgone. cbn in Hlies. by subst.
  - (* the run is strictly inside the range *)
    rewrite subtract_inside_eq by (done || (cbn; tauto)). cbv beta iota.
    set (q1 := MkRun (page_offset q) _). set (q2 := MkRun (after n) _).
    assert (Hq12 : run_ok q1 /\ run_ok q2 /\ is_empty q1 = false /\
      forall p, in_run q p <-> in_run q1 p \/ in_run n p \/ in_run q2 p).
    { cbn in Hlies. unfold is_empty, q1, q2, run_ok, in_run, after in *. cbn.
      split; [lia|]. split; [lia|]. split; [lia|]. intros p. lia. }
    destruct Hq12 as (Hq1&Hq2&->&Hsplit). cbn [negb fatal_unless mbind outcome_bind].
    unfold push_unmapped, UNMAPPED_RUNS. case_if; [|by right]. cbn [mbind outcome_bind].
    apply (swept_more _ (covers l2) _ q q1 q2); [intros p; rewrite Hsplit, covers_cons; tauto|
      intros p; rewrite Hsplit; tauto|done|done|].
    apply Hnext; [by left|rewrite length_app; cbn; lia].
  - destruct Htrim as (q'&->&Hq'&Hin&Hout); [tauto|]. cbn [mbind outcome_bind].
    eapply (swept_trim _ (covers l2) _ q q'); [|done|done|by apply Hnext].
    intros p Hp. rewrite covers_cons. apply Hin in Hp. tauto.
  - apply Hgone. cbn in Hlies. cov.
  - destruct Htrim as (q'&->&Hq'&Hin&Hout); [tauto|]. cbn [mbind outcome_bind].
    eapply (swept_trim _ (covers l2) _ q q'); [|done|done|by apply swept_now].
    intros p Hp. rewrite covers_cons. apply Hin in Hp. tauto.
Qed.

Lemma swept_then m (P P' : Z -> Prop) q found k :
  swept m P q found ->
  (forall q' found', run_or_none q' -> (length found' <= 16)%nat ->
     swept (k q' found') P' q' found') ->
  swept ('(q', found') ← m; k q' found') (fun p => P p \/ P' p) q found.
Proof.
  intros [(q'&more&->&Hq'&Hm&Hl&Hc&Hb)| ->] Hk; [|by right]. cbn [mbind outcome_bind].
  destruct (Hk q' (found ++ more) Hq' Hl) as [(q''&more'&->&Hq''&Hm'&Hl'&Hc'&Hb')| ->];
    [left|by right].
  exists q'', (more ++ more'). rewrite app_assoc. split; [done|]. split; [done|].
  split; [by apply Forall_app|]. split; [done|]. split.
  - intros p Hp. rewrite covers_app. apply Hc in Hp as [Hp|[Hp|Hp]]; [tauto|tauto|].
    apply Hc' in Hp. tauto.
  - intros p. rewrite covers_app. intros Hp. apply Hb.
    destruct Hp as [[Hp|Hp]|Hp]; [by left|right; apply Hb'..]; tauto.
Qed.

Lemma swept_weaken m (P P' : Z -> Prop) q found :
  (forall p, P p -> P' p) -> swept m P q found -> swept m P' q found.
Proof.
  intros HP [(q'&more&->&?&?&?&Hc&Hb)| ->]; [left|by right].
  exists q', more. do 4 (split; [done|]). split; [|done]. intros p Hp.
  apply Hc in Hp as [Hp|Hp]; [left; by apply HP|by right].
Qed.

Lemma scan_blocks_spec fuel t l1 l2 q found :
  holds t (l1 ++ l2) -> Forall runs_ok l2 -> run_or_none q -> (length found <= 16)%nat ->
  (length l2 < fuel)%nat ->
  swept (scan_blocks fuel t (Z.of_nat (length l1)) q found) (covered l2) q found.
Proof.
  intros Ht. revert fuel l1 q found Ht.
  induction l2 as [|b l2 IH]; intros fuel l1 q found Ht Hok Hq Hfn Hf;
    (destruct fuel as [|fuel]; [simpl in Hf; lia|]); cbn [scan_blocks];
    destruct (Ht) as (_&Hc&Hn); rewrite Hc; rewrite !length_app in *; cbn [length] in *.
  { rewrite (proj2 (Z.ltb_ge _ _)) by lia. by apply swept_now. }
  rewrite (proj2 (Z.ltb_lt _ _)) by lia. apply list.Forall_cons in Hok as [Hb Hok].
  rewrite (block_at _ _ _ _ _ Ht) by done. cbn [mbind outcome_bind].
  unfold block_compare. destruct (compare_total (R:=RaiseKind) (block_run b) q) as [c ->].
  cbn [mbind outcome_bind].
  assert (Hscan : swept (scan_block (S (length (runs b))) b 0 q found) (covers (live b)) q found).
  { destruct Hb as [Hr Hs]. apply (scan_block_spec _ _ []); try done; [by eapply sorted_Forall|].
    pose proof (reps_length _ _ Hr). destruct Hr as (->&_). lia. }
  assert (Hnext : forall q' found', run_or_none q' -> (length found' <= 16)%nat ->
    swept (scan_blocks fuel t (add32 (Z.of_nat (length l1)) 1) q' found') (covered l2) q' found').
  { intros q' found' Hq' Hl'. rewrite add32_small by (unfold M32; lia).
    replace (Z.of_nat (length l1) + 1) with (Z.of_nat (length (l1 ++ [b])))
      by (rewrite length_app; cbn; lia).
    apply IH; [by rewrite <- app_assoc|done|done|done|lia]. }
  assert (Hstop : forall q' found', run_or_none q' -> (length found' <= 16)%nat ->
    swept (Ret (q', found')) (covered l2) q' found') by (intros; by apply swept_now).
  assert (Hskip : swept (Ret (q, found)) (covers (live b)) q found) by (by apply swept_now).
  assert (Hcons : forall p, covers (live b) p \/ covered l2 p -> covered (b :: l2) p)
    by (intros p; by rewrite covered_cons).
  destruct c; cbv beta iota;
    (eapply swept_weaken; [exact Hcons|]); apply swept_then; done.
Qed.

(** *** Page arithmetic *)

Section PageArithmetic.
Context {target : Target}.

(** The pages [offset, offset + length) touches: the first, and how many. *)
Definition pages_touched (offset length : Z) : Z :=
  (offset + length - 1) / APV_PAGE_SIZE - offset / APV_PAGE_SIZE + 1.

Lemma unaligned_count P offset length :
  0 < P -> 0 <= offset -> 0 < length -> 2 <= P ->
  (offset + length + (P - 2) - (offset - offset mod P)) / P
  = (offset + length - 1) / P - offset / P + 1 - (if (offset + length) mod P =? 1 then 1 else 0).
Proof.
  intros HP Ho Hl HP2.
  pose proof (Z.div_mod offset P ltac:(lia)) as Hd. pose proof (Z.mod_pos_bound offset P HP) as Hm.
  set (q := offset / P) in *. set (r := offset mod P) in *.
  pose proof (Z.div_mod (offset + length - 1) P ltac:(lia)) as Hd1.
  pose proof (Z.mod_pos_bound (offset + length - 1) P HP) as Hm1.
  set (q1 := (offset + length - 1) / P) in *. set (r1 := (offset + length - 1) mod P) in *.
  assert (Hmod : (offset + length) mod P = if r1 =? P - 1 then 0 else r1 + 1).
  { case_if.
    - symmetry. apply (Z.mod_unique_pos _ _ (q1 + 1)); nia.
    - symmetry. apply (Z.mod_unique_pos _ _ q1); nia. }
  rewrite Hmod. symmetry.
  destruct (Z.eqb_spec r1 (P - 1)).
  - rewrite (proj2 (Z.eqb_neq 0 1)) by lia.
    apply (Z.div_unique_pos _ _ _ (r1 - 1)); nia.
  - destruct (Z.eqb_spec (r1 + 1) 1).
    + apply (Z.div_unique_pos _ _ _ (P - 1)); nia.
    + apply (Z.div_unique_pos _ _ _ (r1 - 1)); nia.
Qed.
End PageArithmetic.

(** ** The properties *)

(** The pages of a byte range. While the sums fit, [calculate_page_run_unaligned]
    gives the pages the range touches, from the first; but one page short, and exactly
    then, when the range ends one byte into a page. Only a length of 0 raises. *)
Theorem calculate_page_run_unaligned_pages {target : Target} offset length :
  0 <= offset -> 0 <= length -> offset + length + APV_PAGE_SIZE < M64 ->
  (offset + length) / APV_PAGE_SIZE + 2 < M32 ->
  calculate_page_run_unaligned offset length =
    if length =? 0 then Raised TrackerZeroLength
    else Ret (MkRun (offset / APV_PAGE_SIZE)
      (pages_touched offset length
       - (if (offset + length) mod APV_PAGE_SIZE =? 1 then 1 else 0))).
Proof.
  intros Ho Hl Hs Hp. unfold calculate_page_run_unaligned. case_if; [done|].
  pose proof page_size as [_ HP].
  assert (HP0 : 0 < APV_PAGE_SIZE) by lia. pose proof (Z.mod_pos_bound offset _ HP0).
  pose proof (Z.mod_le offset _ Ho HP0).
  rewrite !shr64_page, land_page_start by lia.
  rewrite (sub64_small APV_PAGE_SIZE 2) by (unfold M64; lia).
  rewrite (add64_small offset length), add64_small by lia.
  rewrite sub64_small by lia.
  pose proof (unaligned_count APV_PAGE_SIZE offset length) as Hc.
  rewrite Hc by lia. unfold pages_touched.
  assert (Hb : 0 <= offset / APV_PAGE_SIZE <= (offset + length - 1) / APV_PAGE_SIZE /\
    (offset + length - 1) / APV_PAGE_SIZE <= (offset + length) / APV_PAGE_SIZE).
  { split; [split; [apply Z.div_pos; lia|]|]; apply Z.div_le_mono; lia. }
  rewrite !w32_small by (case_if; lia). done.
Qed.

(** a tracker's answer that a range is mapped. Whatever the blocks' hulls hold, a
    test of real pages returns, and yes means every page of the run is in a run of a
    block. *)
Theorem test_range_sound {target : Target} t offset length run :
  tracker_ok t -> calculate_page_run_unaligned offset length = Ret run -> run_ok run ->
  exists a, test_range t offset length = Ret a /\
    (a = true -> forall p, in_run run p -> mapped t p).
Proof.
  intros [Ht Hok] Hc Hrun. unfold test_range. rewrite Hc. cbn [mbind outcome_bind].
  pose proof Ht as (Hb&_&Hn).
  apply (test_range_loop_spec _ t [] (in_use t)); [done|done|by left|].
  rewrite Hb, length_app, length_map. lia.
Qed.

(** The unmapped runs a visit walks. They are at most 16 real runs inside the range,
    and each page of the range is mapped already or in one of them: mapping what the
    visit names leaves nothing of the range unmapped. More than 16 raise, before any
    visit. *)
Theorem unmapped_runs_complete {target : Target} t offset length run :
  tracker_ok t -> calculate_page_run_unaligned offset length = Ret run -> run_ok run ->
  (exists rs, unmapped_runs t offset length = Ret rs /\ (List.length rs <= 16)%nat /\
     Forall run_ok rs /\
     (forall p, in_run run p -> mapped t p \/ covers rs p) /\
     (forall p, covers rs p -> in_run run p)) \/
  unmapped_runs t offset length = Raised TrackerUnmappedTooComplex \/
  unmapped_runs t offset length = Raised TrackerUnmappedTooComplexTail.
Proof.
  intros [Ht Hok] Hc Hrun. unfold unmapped_runs. rewrite Hc. cbn [mbind outcome_bind].
  pose proof Ht as (Hb&_&Hn).
  destruct (scan_blocks_spec (S (List.length (blocks t))) t [] (in_use t) run [] Ht Hok
    ltac:(by left) ltac:(cbn; lia)) as [(q&rs&Hs&Hq&Hrs&Hl&Hcov&Hout)|Hr].
  - rewrite Hb, length_app, length_map. lia.
  - change (Z.of_nat (List.length [])) with 0 in Hs. rewrite Hs. cbn [mbind outcome_bind app] in *.
    unfold push_unmapped, UNMAPPED_RUNS. destruct Hq as [Hq| ->].
    + assert (He : is_empty q = false).
      { unfold is_empty. apply Z.eqb_neq. unfold run_ok in Hq. lia. }
      rewrite He. cbn [negb]. case_if; [left|by right; right].
      exists (rs ++ [q]). split; [done|]. split; [rewrite length_app; cbn; lia|].
      split; [apply Forall_app; split; [done|by apply Forall_singleton]|]. split.
      * intros p Hp. rewrite covers_app, covers_cons. apply Hcov in Hp. unfold mapped. tauto.
      * intros p Hp. rewrite covers_app, covers_cons in Hp. pose proof (covers_nil p).
        apply Hout. tauto.
    + cbn. left. exists rs. split; [done|]. split; [done|]. split; [done|]. split.
      * intros p Hp. apply Hcov in Hp as [Hp|[Hp|Hp]]; [by left|by right|].
        unfold in_run in Hp. cbn in Hp. lia.
      * intros p Hp. apply Hout. by left.
  - change (Z.of_nat (List.length [])) with 0 in Hr. rewrite Hr. right; by left.
Qed.

(** One block of four runs, on an arm64 guest's pages. *)
Definition sample_tracker : Blocks := MkBlocks 1 (Some sample_block :: replicate 127 None).

Lemma sample_tracker_ok : tracker_ok sample_tracker.
Proof.
  change (holds sample_tracker [sample_block] /\ Forall runs_ok [sample_block]).
  split; [split; [done|split; [done|cbn; lia]]|].
  repeat constructor; apply sample_block_ok.
Qed.

Lemma calculate_page_run_unaligned_pages_witness :
  calculate_page_run_unaligned (target := AArch64) 0x8000 0x4001 =
    if 0x4001 =? 0 then Raised TrackerZeroLength
    else Ret (MkRun (0x8000 / APV_PAGE_SIZE (target := AArch64))
      (pages_touched (target := AArch64) 0x8000 0x4001
       - (if (0x8000 + 0x4001) mod APV_PAGE_SIZE (target := AArch64) =? 1 then 1 else 0))).
Proof.
  apply (calculate_page_run_unaligned_pages (target := AArch64) 0x8000 0x4001);
    by vm_compute.
Defined.

Lemma test_range_sound_witness :
  exists a, test_range (target := AArch64) sample_tracker 0x8000 0x8000 = Ret a /\
    (a = true -> forall p, in_run (MkRun 2 2) p -> mapped sample_tracker p).
Proof.
  apply (test_range_sound (target := AArch64) sample_tracker 0x8000 0x8000 (MkRun 2 2));
    [apply sample_tracker_ok|reflexivity|by vm_compute].
Defined.

Lemma unmapped_runs_complete_witness :
  (exists rs, unmapped_runs (target := AArch64) sample_tracker 0x8000 0x40000 = Ret rs /\
     (List.length rs <= 16)%nat /\ Forall run_ok rs /\
     (forall p, in_run (MkRun 2 16) p -> mapped sample_tracker p \/ covers rs p) /\
     (forall p, covers rs p -> in_run (MkRun 2 16) p)) \/
  unmapped_runs (target := AArch64) sample_tracker 0x8000 0x40000
    = Raised TrackerUnmappedTooComplex \/
  unmapped_runs (target := AArch64) sample_tracker 0x8000 0x40000
    = Raised TrackerUnmappedTooComplexTail.
Proof.
  apply (unmapped_runs_complete (target := AArch64) sample_tracker 0x8000 0x40000 (MkRun 2 16));
    [apply sample_tracker_ok|reflexivity|by vm_compute].
Defined.

(** One byte at a page's start is one page touched, a run of none, and so "mapped" on a
    tracker with nothing mapped. *)
Example test_range_one_byte :
  test_range (target := AArch64) no_blocks 0x4000 1 = Ret true.
Proof. reflexivity. Qed.

End RangeTracker.
