(* ===== verification/MemoryMap.v ===== *)
(** * MemoryMap: the guest's physical ranges and what is mapped from them
    (src/crates/reims-vgpu-core/src/memory/map.rs, memory/mapping.rs,
    memory/descriptor.rs)

    The platform's [HostVm] is the environment: an operation appends its calls to a
    trace, and what the platform answers is a function of the calls so far and the call
    ([answers], [allocates]), about which nothing is assumed. The descriptor is the list
    of ranges in the order the host added them. Logs are not modelled. *)

From S2P Require Import Prelude MemoryKinds GuestRecords GuestPtr.
Import Memory GuestRecords GuestPtr.

Module MemoryMap.

Record GuestPhysicalRange := MkGuestRange {
  physicalAddress : Z;
  physicalLength : Z;
  hostAddress : Z;
}.

(** [MemoryMapDescriptor]: [new], [add_range] and [ranges]. *)
Definition MemoryMapDescriptor : Type := list GuestPhysicalRange.
Definition descriptor_new : MemoryMapDescriptor := [].
Definition add_range (d : MemoryMapDescriptor) (r : GuestPhysicalRange)
    : MemoryMapDescriptor := d ++ [r].

Record MemoryMapRange := MkMapRange {
  physical_address : Z;
  physical_end : Z;
  physical_length : Z;
  virtual_address : Z;
}.

Record PhysRange := MkPhysRange { pr_address : Z; pr_length : Z }.

(** ** The map *)

(** The checked adds: [None] at the first range whose end overflows. *)
Fixpoint map_ranges (d : MemoryMapDescriptor) : option (list MemoryMapRange) :=
  match d with
  | [] => Some []
  | r :: d =>
      match checked_add64 (physicalAddress r) (physicalLength r) with
      | None => None
      | Some end_ =>
          match map_ranges d with
          | None => None
          | Some l => Some (MkMapRange (physicalAddress r) end_ (physicalLength r)
                              (hostAddress r) :: l)
          end
      end
  end.

(** [sort_by_key] of the pair of start and length: a stable sort. *)
Definition key_le (a b : MemoryMapRange) : bool :=
  (physical_address a <? physical_address b) ||
  ((physical_address a =? physical_address b) && (physical_length a <=? physical_length b)).
Fixpoint insert_range (r : MemoryMapRange) (l : list MemoryMapRange) : list MemoryMapRange :=
  match l with
  | [] => [r]
  | x :: l' => if key_le r x then r :: l else x :: insert_range r l'
  end.
Definition sort_ranges (l : list MemoryMapRange) : list MemoryMapRange :=
  fold_right insert_range [] l.

(** Each range starts at or after the previous one's end. *)
Fixpoint validate (end_ : Z) (l : list MemoryMapRange) : bool :=
  match l with
  | [] => true
  | r :: l =>
      if physical_address r <? end_ then false
      else match checked_add64 (physical_address r) (physical_length r) with
           | Some e => validate e l
           | None => false
           end
  end.

Definition MemoryMap : Type := list MemoryMapRange.

Definition map_new (d : MemoryMapDescriptor) : option MemoryMap :=
  match map_ranges d with
  | None => None
  | Some l => let l := sort_ranges l in if validate 0 l then Some l else None
  end.
Definition map_copy (m : MemoryMap) : MemoryMap := m.
Definition ranges (m : MemoryMap) : list MemoryMapRange := m.

(** The first range that holds [physical], if any. *)
Fixpoint first_holding (m : MemoryMap) (physical : Z) : option MemoryMapRange :=
  match m with
  | [] => None
  | r :: m =>
      if (physical_address r <=? physical) && (physical <? physical_end r) then Some r
      else first_holding m physical
  end.

(** NULL is 0. *)
Definition virtual_address_for_physical (m : MemoryMap) (physical length : Z) : Z :=
  match checked_add64 physical length with
  | None => 0
  | Some end_ =>
      match first_holding m physical with
      | None => 0
      | Some r =>
          if physical_end r <? end_ then 0
          else add64 (sub64 physical (physical_address r)) (virtual_address r)
      end
  end.

(** The answer, and the bytes the buffer of [n] is filled with ([None]: untouched). *)
Definition map_read (mem : memory) (m : MemoryMap) (physical n : Z)
    : mres (bool * option (list byte)) :=
  let source := virtual_address_for_physical m physical n in
  if negb (source =? 0) && negb (n =? 0) then
    bytes ← copy_to mem source 0 n (Fatal MapReadFault);
    Ret (true, Some bytes)
  else Ret (negb (source =? 0), None).

Definition map_write (stopped : mdeath) (task_ended : bool) (mem : memory) (m : MemoryMap)
    (physical : Z) (src : list byte) : mres (bool * memory) :=
  let destination := virtual_address_for_physical m physical (Z.of_nat (List.length src)) in
  match src with
  | [] => Ret (true, mem)
  | _ =>
      mem ← copy_from stopped task_ended mem destination 0 src (Fatal MapWriteNull);
      Ret (true, mem)
  end.

(** ** Mappings *)

Inductive Teardown : Type :=
| TNone
| TVm
| TRootTask
| TTask (virtual_offset task : Z).

Record Mapping := MkMapping {
  m_address : Z;
  m_length : Z;
  m_writable : bool;
  m_teardown : Teardown;
}.

(** [Mapping::new]; [device_lives] is whether the link's device still has an owner. *)
Definition mapping_new (device_lives : bool) (address length : Z) (writable : bool)
    (teardown : Teardown) : mres Mapping :=
  writable ← match teardown with
    | TRootTask =>
        _ ← fatal_unless (negb (address =? 0)) (Fatal RootMappingNullAddress);
        _ ← fatal_unless (negb (length =? 0)) (Fatal RootMappingZeroLength);
        _ ← fatal_unless device_lives (Fatal RootMappingNoDevice);
        Ret true
    | TTask _ _ => Ret true
    | TNone | TVm => Ret writable
    end;
  Ret (MkMapping address length writable teardown).

(** What the last release calls. *)
Inductive Release : Type :=
| ReleaseVm (address length : Z)
| ReleaseRange (address length : Z)
| ReleaseTask (task offset length : Z).

Definition mapping_drop (device_lives : bool) (m : Mapping) : list Release :=
  match m_teardown m with
  | TNone => []
  | TVm => [ReleaseVm (m_address m) (m_length m)]
  | TRootTask => if device_lives then [ReleaseRange (m_address m) (m_length m)] else []
  | TTask offset task =>
      if device_lives then [ReleaseTask task offset (m_length m)] else []
  end.

(** ** Mapping guest memory *)

Inductive VmCall : Type :=
| VmAllocate (length : Z)
| VmDeallocate (address length : Z)
| VmRemap (target source length : Z)
| VmProtect (address length prot : Z).

(** [VmProt]. *)
Definition PROT_READ : Z := 1.
Definition PROT_WRITE : Z := 2.

Section Platform.
Context {target : Target}.
(** Whether a call succeeds, and what an allocation gives, after the calls before. *)
Context (answers : list VmCall -> VmCall -> bool)
        (allocates : list VmCall -> Z -> option Z).

Definition map_physical_range (calls : list VmCall) (r : MemoryMapRange)
    (piece_address piece_length target : Z) : list VmCall * bool :=
  let source := sub64 (add64 (virtual_address r) piece_address) (physical_address r) in
  let call := VmRemap target source piece_length in
  (calls ++ [call], answers calls call).

(** The pieces of one request across the map's ranges, in stored order: what is left
    of it and the next target, or [None] at a failed remap. [end_] stays the request's
    end. *)
Fixpoint map_pieces (m : MemoryMap) (calls : list VmCall) (address length end_ target : Z)
    : list VmCall * option (Z * Z) :=
  match m with
  | [] => (calls, Some (length, target))
  | r :: m =>
      if (address <? physical_address r) || (physical_end r <=? address)
      then map_pieces m calls address length end_ target
      else
        let piece := sub64 (physical_end r) address in
        if physical_end r <? end_ then
          let '(calls, good) := map_physical_range calls r address piece target in
          if good : bool
          then map_pieces m calls (physical_end r) (sub64 length piece) end_
                 (add64 target piece)
          else (calls, None)
        else
          let '(calls, good) := map_physical_range calls r address length target in
          if good : bool then (calls, Some (0, add64 target length)) else (calls, None)
  end.

(** The requests in order: their total length, or [None] at a refusal. [limit] is the
    total [new_range_mapping] holds the running sum to. *)
Fixpoint map_requests (m : MemoryMap) (limit : option Z) (calls : list VmCall)
    (requests : list PhysRange) (mapped target : Z) : list VmCall * option Z :=
  match requests with
  | [] => (calls, Some mapped)
  | q :: requests =>
      if pr_address q =? 0 then (calls, None) else
      match checked_add64 mapped (pr_length q) with
      | None => (calls, None)
      | Some mapped =>
          if match limit with Some n => n <? mapped | None => false end
          then (calls, None)
          else if pr_length q =? 0 then map_requests m limit calls requests mapped target
          else
            match checked_add64 (pr_address q) (pr_length q) with
            | None => (calls, None)
            | Some end_ =>
                match map_pieces m calls (pr_address q) (pr_length q) end_ target with
                | (calls, None) => (calls, None)
                | (calls, Some (left_, target)) =>
                    if negb (left_ =? 0) then (calls, None)
                    else map_requests m limit calls requests mapped target
                end
            end
      end
  end.

Definition map_memory_at_virtual_address (m : MemoryMap) (calls : list VmCall)
    (address : Z) (requests : list PhysRange) (read_only : bool) : list VmCall * bool :=
  match map_requests m None calls requests 0 address with
  | (calls, None) => (calls, false)
  | (calls, Some mapped) =>
      let prot := if read_only then PROT_READ else Z.lor PROT_READ PROT_WRITE in
      let call := VmProtect address mapped prot in
      (calls ++ [call], answers calls call)
  end.

Definition new_range_mapping (m : MemoryMap) (calls : list VmCall)
    (requests : list PhysRange) (total_length read_only : Z)
    : mres (list VmCall * option Mapping) :=
  _ ← fatal_unless (total_length mod APV_PAGE_SIZE =? 0) (Fatal MappingLengthUnaligned);
  let before := calls in
  let calls := calls ++ [VmAllocate total_length] in
  match allocates before total_length with
  | None => Ret (calls, None)
  | Some address =>
      let free_all calls := calls ++ [VmDeallocate address total_length] in
      match map_requests m (Some total_length) calls requests 0 address with
      | (calls, None) => Ret (free_all calls, None)
      | (calls, Some mapped) =>
          if negb (mapped =? total_length) then Ret (free_all calls, None)
          else
            let prot := if negb (read_only =? 0) then PROT_READ
                        else Z.lor PROT_READ PROT_WRITE in
            let call := VmProtect address total_length prot in
            let protected := answers calls call in
            let calls := calls ++ [call] in
            let calls := if protected then calls else free_all calls in
            mapping ← mapping_new true address total_length (read_only =? 0) TVm;
            Ret (calls, Some mapping)
      end
  end.

Definition new_contiguous_mapping (m : MemoryMap) (calls : list VmCall)
    (physical length read_only : Z) : mres (list VmCall * option Mapping) :=
  new_range_mapping m calls [MkPhysRange physical length] length read_only.
End Platform.

(** ** The accepted maps *)

(** In order from [lo], each range's end where its length says, none overlapping. *)
Fixpoint ordered (lo : Z) (m : MemoryMap) : Prop :=
  match m with
  | [] => True
  | r :: m =>
      lo <= physical_address r /\ 0 <= physical_length r /\
      physical_end r = physical_address r + physical_length r /\ physical_end r < M64 /\
      ordered (physical_end r) m
  end.

(** A range as the host may describe it, and two of them not overlapping. *)
Definition range_u64 (r : GuestPhysicalRange) : Prop :=
  0 <= physicalAddress r /\ 0 <= physicalLength r.
Definition fits (r : GuestPhysicalRange) : Prop :=
  physicalAddress r + physicalLength r < M64.
Definition apart (a b : GuestPhysicalRange) : Prop :=
  physicalAddress a + physicalLength a <= physicalAddress b \/
  physicalAddress b + physicalLength b <= physicalAddress a.

(** The map's range of a host's. *)
Definition map_range (r : GuestPhysicalRange) : MemoryMapRange :=
  MkMapRange (physicalAddress r) (physicalAddress r + physicalLength r) (physicalLength r)
    (hostAddress r).

Definition key (a b : MemoryMapRange) : Prop :=
  physical_address a < physical_address b \/
  (physical_address a = physical_address b /\ physical_length a <= physical_length b).
Definition well_ended (r : MemoryMapRange) : Prop :=
  0 <= physical_address r /\ 0 <= physical_length r /\
  physical_end r = physical_address r + physical_length r /\ physical_end r < M64.
Definition clear (a b : MemoryMapRange) : Prop :=
  physical_end a <= physical_address b \/ physical_end b <= physical_address a.

Lemma map_ranges_spec d :
  Forall range_u64 d ->
  (Forall fits d /\ map_ranges d = Some (map map_range d)) \/
  (~ Forall fits d /\ map_ranges d = None).
Proof.
  induction 1 as [|r d [? ?] _ IH]; [by left|]. cbn [map_ranges map]. unfold checked_add64.
  case_if.
  - destruct IH as [[Hf ->]|[Hf ->]]; [left|right].
    + split; [by constructor|done].
    + split; [|done]. intros Hx. by apply list.Forall_cons in Hx as [_ ?].
  - right. split; [|done]. intros Hx. apply list.Forall_cons in Hx as [Hr _]. unfold fits in Hr. lia.
Qed.

Lemma key_le_spec a b : reflect (key a b) (key_le a b).
Proof.
  apply iff_reflect. unfold key, key_le. lia.
Qed.

Fixpoint sorted_keys (l : list MemoryMapRange) : Prop :=
  match l with [] => True | r :: l => Forall (key r) l /\ sorted_keys l end.

Lemma insert_range_perm r l : insert_range r l ≡ₚ r :: l.
Proof.
  induction l as [|x l IH]; [done|]. cbn. case_if; [done|].
  rewrite IH. apply Permutation_swap.
Qed.

Lemma insert_range_sorted r l : sorted_keys l -> sorted_keys (insert_range r l).
Proof.
  induction l as [|x l IH]; cbn [insert_range sorted_keys]; [by repeat split|]. intros [Hx Hl].
  destruct (key_le_spec r x) as [Hk|Hk]; cbn [sorted_keys].
  - split; [|by split]. constructor; [done|]. eapply Forall_impl; [|exact Hx]. unfold key in *.
    cbn. intros y. lia.
  - split; [|by apply IH]. rewrite insert_range_perm. constructor; [|done].
    unfold key in *. lia.
Qed.

Lemma sort_ranges_perm l : sort_ranges l ≡ₚ l.
Proof.
  unfold sort_ranges. induction l as [|r l IH]; [done|]. cbn [fold_right].
  by rewrite insert_range_perm, IH.
Qed.

Lemma sort_ranges_sorted l : sorted_keys (sort_ranges l).
Proof.
  unfold sort_ranges. induction l as [|r l IH]; [done|]. by apply insert_range_sorted.
Qed.

Lemma ForallOrdPairs_perm {A} (R : A -> A -> Prop) l l' :
  (forall a b, R a b -> R b a) -> l ≡ₚ l' -> ForallOrdPairs R l -> ForallOrdPairs R l'.
Proof.
  intros Hsym Hp. induction Hp as [|x l l' Hp IH|x y l|l1 l2 l3 _ IH1 _ IH2]; [done|..].
  - inversion 1; subst. constructor; [by rewrite <- Hp|by apply IH].
  - inversion 1 as [|? ? Hy Hl]; subst. inversion Hl as [|? ? Hx Hl']; subst.
    apply list.Forall_cons in Hy as [Hyx Hy].
    constructor; [constructor; [by apply Hsym|done]|by constructor].
  - auto.
Qed.

Lemma validate_ordered lo l :
  Forall well_ended l -> validate lo l = true <-> ordered lo l.
Proof.
  intros Hl. revert lo. induction Hl as [|r l (?&?&He&?) _ IH]; intros lo; [done|].
  cbn [validate ordered]. unfold checked_add64. case_if; [split; [done|lia]|].
  rewrite (proj2 (Z.ltb_lt _ _)) by lia. rewrite IH, He. intuition lia.
Qed.

Lemma ordered_clear lo l : ordered lo l -> ForallOrdPairs clear l.
Proof.
  assert (Hlow : forall l lo, ordered lo l -> Forall (fun r => lo <= physical_address r) l).
  { clear. induction l as [|r l IH]; intros lo; [constructor|]. intros (?&?&?&?&Hl).
    constructor; [done|]. eapply Forall_impl; [|exact (IH _ Hl)]. cbn. lia. }
  revert lo. induction l as [|r l IH]; intros lo; [constructor|]. intros (?&?&?&?&Hl).
  constructor; [|by eapply IH]. eapply Forall_impl; [|exact (Hlow _ _ Hl)].
  unfold clear. cbn. lia.
Qed.

Lemma clear_ordered l :
  Forall well_ended l -> sorted_keys l -> ForallOrdPairs clear l -> ordered 0 l.
Proof.
  assert (H : forall l lo, Forall well_ended l -> sorted_keys l -> ForallOrdPairs clear l ->
    Forall (fun r => lo <= physical_address r) l -> ordered lo l).
  { clear. induction l as [|r l IH]; intros lo Hw Hs Hc Hlo; [done|].
    apply list.Forall_cons in Hw as [(?&?&He&?) Hw]. apply list.Forall_cons in Hlo as [? _].
    destruct Hs as [Hk Hs]. inversion Hc as [|? ? Hcr Hc']; subst.
    split; [done|]. split; [done|]. split; [done|]. split; [done|]. apply IH; try done.
    apply list.Forall_forall. intros x Hx.
    eapply list.Forall_forall in Hk, Hcr, Hw; [|exact Hx..].
    destruct Hw as (?&?&?&?). unfold key, clear in *. lia. }
  intros Hw Hs Hc. apply H; try done. eapply Forall_impl; [|exact Hw]. by intros r (?&_).
Qed.

Lemma apart_clear d : ForallOrdPairs apart d <-> ForallOrdPairs clear (map map_range d).
Proof.
  induction d as [|r d IH]; [split; constructor|]. cbn [map].
  split; inversion 1 as [|? ? Hx Hd]; subst; (constructor; [|by apply IH]).
  - apply Forall_map. exact Hx.
  - by apply (proj1 (Forall_map map_range (clear (map_range r)) d)) in Hx.
Qed.

(** ** Translation *)

Definition holds (r : MemoryMapRange) (x : Z) : Prop :=
  physical_address r <= x < physical_end r.

Lemma ordered_lower lo m r : ordered lo m -> r ∈ m -> lo <= physical_address r.
Proof.
  revert lo. induction m as [|r' m IH]; intros lo; [by intros _ ?%not_elem_of_nil|].
  intros (?&?&?&?&Hm) [->|Hr]%elem_of_cons; [done|]. pose proof (IH _ Hm Hr). lia.
Qed.

Lemma ordered_member lo m r : ordered lo m -> 0 <= lo -> r ∈ m -> well_ended r.
Proof.
  revert lo. induction m as [|r' m IH]; intros lo; [by intros _ _ ?%not_elem_of_nil|].
  intros (?&?&?&?&Hm) Hlo [->|Hr]%elem_of_cons; [unfold well_ended; lia|].
  apply (IH (physical_end r')); [done|lia|done].
Qed.

Lemma first_holding_unique lo m r x :
  ordered lo m -> r ∈ m -> holds r x -> first_holding m x = Some r.
Proof.
  unfold holds. revert lo. induction m as [|r' m IH]; intros lo; [by intros _ ?%not_elem_of_nil|].
  cbn [first_holding]. intros (?&?&?&?&Hm) Hr Hx.
  apply elem_of_cons in Hr as [->|Hr].
  - by rewrite (proj2 (Z.leb_le _ _)), (proj2 (Z.ltb_lt _ _)) by lia.
  - pose proof (ordered_lower _ _ _ Hm Hr).
    destruct (Z.ltb_spec x (physical_end r')); [lia|]. rewrite andb_false_r. by eapply IH.
Qed.

Lemma first_holding_Some m x r : first_holding m x = Some r -> r ∈ m /\ holds r x.
Proof.
  induction m as [|r' m IH]; [done|]. cbn [first_holding]. case_if.
  - intros [= <-]. split; [by left|]. by split.
  - intros H. apply IH in H as [? ?]. split; [by right|done].
Qed.

(** The host's address of a guest byte. *)
Definition host_of (m : MemoryMap) (x : Z) : option Z :=
  r ← first_holding m x; Some (virtual_address r + (x - physical_address r)).

(** The host's regions do not wrap. *)
Definition regions_ok (m : MemoryMap) : Prop :=
  Forall (fun r => 0 <= virtual_address r /\ virtual_address r + physical_length r < M64) m.

Definition host (m : MemoryMap) (x : Z) : Z := default 0 (host_of m x).

Lemma host_in lo m r x :
  ordered lo m -> r ∈ m -> holds r x ->
  host_of m x = Some (virtual_address r + (x - physical_address r)).
Proof. intros. unfold host_of. by erewrite first_holding_unique. Qed.

Lemma host_piece lo m r a n :
  ordered lo m -> r ∈ m -> physical_address r <= a -> a + n <= physical_end r ->
  map (host m) (seqZ a n) = seqZ (virtual_address r + (a - physical_address r)) n.
Proof.
  intros Ho Hr Ha Hn. apply list_eq. intros i. rewrite list_lookup_fmap.
  destruct (decide (Z.of_nat i < n)).
  - rewrite !lookup_seqZ_lt by lia. cbn. f_equal. unfold host.
    rewrite (host_in _ _ r) by (done || (unfold holds; lia)). cbn. lia.
  - by rewrite !lookup_seqZ_ge by lia.
Qed.

(** The bytes a call aliases: each target byte with its source. *)
Definition call_bytes (c : VmCall) : list (Z * Z) :=
  match c with VmRemap t s n => zip (seqZ t n) (seqZ s n) | _ => [] end.
Definition image (calls : list VmCall) : list (Z * Z) := concat (map call_bytes calls).
Definition is_remap (c : VmCall) : Prop := match c with VmRemap _ _ _ => True | _ => False end.

Lemma image_app c1 c2 : image (c1 ++ c2) = image c1 ++ image c2.
Proof. unfold image. by rewrite map_app, concat_app. Qed.

(** What a run of remaps maps: the [n] guest bytes from [a] at the target, in order. *)
Definition maps (M : MemoryMap) (es : list VmCall) (a n target : Z) : Prop :=
  Forall is_remap es /\ image es = zip (seqZ target n) (map (host M) (seqZ a n)) /\
  forall x, a <= x < a + n -> is_Some (host_of M x).

Lemma maps_app M es1 es2 a n1 n2 target :
  0 <= n1 -> 0 <= n2 -> maps M es1 a n1 target -> maps M es2 (a + n1) n2 (target + n1) ->
  maps M (es1 ++ es2) a (n1 + n2) target.
Proof.
  intros Hn1 Hn2 (Hr1&Hi1&Hx1) (Hr2&Hi2&Hx2). split; [by apply Forall_app|]. split.
  - rewrite image_app, Hi1, Hi2, !seqZ_app, map_app by lia.
    symmetry. apply zip_with_app. by rewrite length_map, !length_seqZ.
  - intros x Hx. destruct (Z.lt_ge_cases x (a + n1)); [apply Hx1|apply Hx2]; lia.
Qed.

Section PiecesSpec.
Context (answers : list VmCall -> VmCall -> bool).

Lemma map_physical_range_maps lo M r calls a n target calls' good :
  ordered lo M -> 0 <= lo -> regions_ok M -> r ∈ M -> physical_address r <= a -> 0 <= n ->
  a + n <= physical_end r ->
  map_physical_range answers calls r a n target = (calls', good) ->
  exists es, calls' = calls ++ es /\ maps M es a n target.
Proof.
  intros Ho Hlo Hreg Hr Ha Hn He. unfold map_physical_range. intros [= <- _].
  eexists. split; [done|].
  assert (Hrm : 0 <= virtual_address r /\ virtual_address r + physical_length r < M64).
  { by eapply list.Forall_forall in Hreg. }
  destruct (ordered_member _ _ _ Ho Hlo Hr) as (?&?&?&?).
  split; [by repeat constructor|]. split.
  - unfold image. cbn [map concat call_bytes]. rewrite app_nil_r.
    rewrite (host_piece _ _ r) by done. do 2 f_equal. word_lia.
  - intros x Hx. rewrite (host_in _ _ r) by (done || (unfold holds; lia)). by eexists.
Qed.

Lemma map_pieces_spec lo lo' M m calls a n target calls' left_ target' :
  ordered lo M -> 0 <= lo -> regions_ok M -> (forall r, r ∈ m -> r ∈ M) -> ordered lo' m ->
  0 <= n -> 0 <= a -> a + n < M64 -> 0 <= target -> target + n < M64 ->
  map_pieces answers m calls a n (a + n) target = (calls', Some (left_, target')) ->
  exists es, calls' = calls ++ es /\ 0 <= left_ <= n /\ target' = target + (n - left_) /\
    maps M es a (n - left_) target.
Proof.
  intros Ho Hlo Hreg. revert lo' calls a n target.
  induction m as [|r m IH]; intros lo' calls a n target Hin Hm Hn Ha Hb Ht Htb.
  { cbn. intros [= <- <- <-]. exists []. rewrite app_nil_r. split; [done|]. split; [lia|].
    split; [lia|]. rewrite Z.sub_diag. split; [constructor|]. split; [done|]. intros; lia. }
  destruct Hm as (Hl&?&?&?&Hm). cbn [map_pieces].
  assert (Hr : r ∈ M) by (apply Hin; left).
  assert (Hin' : forall r, r ∈ m -> r ∈ M) by (intros; apply Hin; by right).
  destruct ((a <? physical_address r) || (physical_end r <=? a)) eqn:E; [by eapply IH|].
  to_props. case_if.
  - destruct (map_physical_range answers calls r a (sub64 (physical_end r) a) target)
      as [calls1 good] eqn:Ep.
    destruct good; [|done]. rewrite sub64_small in * by lia.
    destruct (map_physical_range_maps lo M r calls a (physical_end r - a) target _ _ Ho Hlo Hreg Hr ltac:(lia)
      ltac:(lia) ltac:(lia) Ep) as (es1&->&Hmaps).
    rewrite (sub64_small (physical_end r)), (sub64_small n), add64_small by lia. intros Hp.
    replace (a + n) with (physical_end r + (n - (physical_end r - a))) in Hp by lia.
    destruct (IH (physical_end r) (calls ++ es1) (physical_end r) (n - (physical_end r - a))
      (target + (physical_end r - a)) Hin' Hm ltac:(lia) ltac:(lia) ltac:(lia) ltac:(lia) ltac:(lia) Hp)
      as (es2&->&Hl2&->&Hmaps2).
    exists (es1 ++ es2). rewrite app_assoc. split; [done|]. split; [lia|]. split; [lia|].
    replace (n - left_) with ((physical_end r - a) + (n - (physical_end r - a) - left_)) by lia.
    apply maps_app; [lia|lia|done|].
    by replace (a + (physical_end r - a)) with (physical_end r) by lia.
  - destruct (map_physical_range answers calls r a n target) as [calls1 good] eqn:Ep.
    destruct good; [|done]. rewrite add64_small by lia. intros [= <- <- <-].
    destruct (map_physical_range_maps lo M r calls a n target _ _ Ho Hlo Hreg Hr ltac:(lia)
      ltac:(lia) ltac:(lia) Ep) as (es1&->&Hmaps).
    exists es1. rewrite Z.sub_0_r. split; [done|]. split; [lia|]. by split.
Qed.
(** Whatever happens, only remaps are appended. *)
Lemma map_pieces_appends m calls a n end_ target calls' res :
  map_pieces answers m calls a n end_ target = (calls', res) ->
  exists es, calls' = calls ++ es /\ Forall is_remap es.
Proof.
  revert calls a n target. induction m as [|r m IH]; intros calls a n target; cbn [map_pieces].
  { intros [= <- _]. exists []. by rewrite app_nil_r. }
  case_if; [by apply IH|]. unfold map_physical_range. case_if.
  - case_if; [|intros [= <- _]; eexists; split; [done|by repeat constructor]].
    intros (es&->&Hes)%IH. eexists. rewrite <- app_assoc. split; [done|].
    apply Forall_app. by split; [repeat constructor|].
  - case_if; intros [= <- _]; eexists; (split; [done|by repeat constructor]).
Qed.

Lemma map_requests_appends m limit calls reqs mapped target calls' res :
  map_requests answers m limit calls reqs mapped target = (calls', res) ->
  exists es, calls' = calls ++ es /\ Forall is_remap es.
Proof.
  assert (Hnone : forall c, c = calls' -> exists es, calls' = c ++ es /\ Forall is_remap es).
  { intros c ->. exists []. by rewrite app_nil_r. }
  revert calls mapped target.
  induction reqs as [|q reqs IH]; intros calls mapped target; cbn [map_requests].
  { intros [= ? _]. auto. }
  case_if; [intros [= ? _]; auto|]. destruct (checked_add64 mapped (pr_length q)) as [mp|];
    [|intros [= ? _]; auto].
  case_if; [intros [= ? _]; auto|]. case_if; [by apply IH|].
  destruct (checked_add64 (pr_address q) (pr_length q)) as [e|]; [|intros [= ? _]; auto].
  destruct (map_pieces answers m calls (pr_address q) (pr_length q) e target) as [c1 r1] eqn:Ep.
  apply map_pieces_appends in Ep as (es1&->&Hes1).
  destruct r1 as [[l t]|]; [|intros [= <- _]; by exists es1].
  case_if; [intros [= <- _]; by exists es1|].
  intros (es2&->&Hes2)%IH. exists (es1 ++ es2). rewrite app_assoc. split; [done|].
  by apply Forall_app.
Qed.

Definition total_of (reqs : list PhysRange) : Z :=
  fold_right (fun q acc => pr_length q + acc) 0 reqs.
Definition host_bytes (M : MemoryMap) (reqs : list PhysRange) : list Z :=
  concat (map (fun q => map (host M) (seqZ (pr_address q) (pr_length q))) reqs).
Definition request_ok (q : PhysRange) : Prop := 0 <= pr_address q /\ 0 <= pr_length q.

Lemma map_requests_spec M total calls reqs mapped target calls' mapped' :
  ordered 0 M -> regions_ok M -> Forall request_ok reqs ->
  0 <= mapped -> 0 <= target -> target + (total - mapped) < M64 ->
  map_requests answers M (Some total) calls reqs mapped target = (calls', Some mapped') ->
  exists es, calls' = calls ++ es /\ mapped' = mapped + total_of reqs /\
    Forall is_remap es /\
    image es = zip (seqZ target (total_of reqs)) (host_bytes M reqs) /\
    forall q x, q ∈ reqs -> pr_address q <= x < pr_address q + pr_length q ->
      is_Some (host_of M x).
Proof.
  intros Ho Hreg Hok. revert calls mapped target.
  induction Hok as [|q reqs [Hqa Hql] Hok IH]; intros calls mapped target Hm Ht Hb;
    cbn [map_requests total_of fold_right host_bytes map concat].
  { intros [= <- <-]. exists []. rewrite app_nil_r. split; [done|]. split; [lia|].
    split; [constructor|]. split; [done|]. by intros q x ?%not_elem_of_nil. }
  fold (total_of reqs) (host_bytes M reqs). unfold checked_add64.
  case_if; [done|]. case_if; [|done]. case_if; [done|].
  case_if.
  - intros (es&->&->&Hr&Hi&Hx)%IH; [|lia..]. exists es. rewrite Hif2 in *.
    split; [done|]. split; [lia|]. split; [done|]. rewrite Z.add_0_l. split; [done|].
    intros q' x [->|Hq']%elem_of_cons Hin; [lia|by eapply Hx].
  - case_if; [|done].
    destruct (map_pieces answers M calls (pr_address q) (pr_length q)
      (pr_address q + pr_length q) target) as [c1 [[l t]|]] eqn:Ep; [|done].
    destruct (map_pieces_spec 0 0 M M calls (pr_address q) (pr_length q) target c1 l t)
      as (es1&->&Hl&->&Hr1&Hi1&Hx1); [done|lia|done|done|done|lia..|done|].
    case_if; [done|]. subst l. rewrite Z.sub_0_r in *. intros Hrec.
    apply IH in Hrec as (es2&->&->&Hr2&Hi2&Hx2); [|lia..].
    exists (es1 ++ es2). rewrite app_assoc. split; [done|]. split; [lia|].
    split; [by apply Forall_app|]. split.
    + assert (Ht0 : 0 <= total_of reqs).
      { clear -Hok. induction Hok as [|q' reqs' [_ ?] _ IH]; cbn; [lia|]. unfold total_of in IH. lia. }
      rewrite image_app, Hi1, Hi2, seqZ_app by lia. symmetry. apply zip_with_app.
      by rewrite length_map, !length_seqZ.
    + intros q' x [->|Hq']%elem_of_cons Hin; [by apply Hx1|by eapply Hx2].
Qed.
End PiecesSpec.

(** ** The properties *)

(** Which maps are accepted. The host's ranges are taken, in whatever order it added
    them, exactly when each one's end fits in 64 bits and no two of them overlap; the map
    then holds them all in order, each range's end at or before the next one's start. *)
Theorem map_new_accepts d :
  Forall range_u64 d ->
  (is_Some (map_new d) <-> Forall fits d /\ ForallOrdPairs apart d) /\
  forall m, map_new d = Some m -> m ≡ₚ map map_range d /\ ordered 0 m.
Proof.
  intros Hd. unfold map_new.
  destruct (map_ranges_spec d Hd) as [[Hf ->]|[Hf ->]].
  2: { split; [split; [by intros [? ?]|tauto]|done]. }
  set (l := sort_ranges _).
  assert (Hp : l ≡ₚ map map_range d) by apply sort_ranges_perm.
  assert (Hw : Forall well_ended l).
  { rewrite Hp. apply Forall_map, list.Forall_forall. intros r Hr.
    eapply list.Forall_forall in Hd, Hf; [|exact Hr..]. unfold range_u64, fits in *.
    unfold well_ended, map_range. cbn. lia. }
  assert (Hsym : forall a b, clear a b -> clear b a) by (unfold clear; tauto).
  assert (Hv : validate 0 l = true <-> ForallOrdPairs apart d).
  { rewrite validate_ordered, apart_clear by done. split; intros H.
    - eapply ForallOrdPairs_perm; [done|exact Hp|]. by eapply ordered_clear.
    - apply clear_ordered; [done|apply sort_ranges_sorted|].
      by eapply ForallOrdPairs_perm; [|symmetry; exact Hp|]. }
  destruct (validate 0 l) eqn:Ev.
  - split; [split; [|by eexists]|].
    + intros _. split; [done|by apply Hv].
    + intros m [= <-]. split; [done|]. by apply validate_ordered.
  - split; [|done]. split; [by intros [? ?]|]. intros [_ H]. by apply Hv in H.
Qed.

(** Where guest memory is. In an accepted map the first range that holds an address
    is the only one, so bytes inside one range translate to its host memory at the same
    offset, and bytes that run past its end, or start in no range, to NULL. *)
Theorem virtual_address_spec m r physical length :
  ordered 0 m -> regions_ok m -> 0 <= length ->
  (r ∈ m -> holds r physical ->
   virtual_address_for_physical m physical length =
     if physical + length <=? physical_end r
     then virtual_address r + (physical - physical_address r) else 0) /\
  ((forall r', r' ∈ m -> ~ holds r' physical) ->
   virtual_address_for_physical m physical length = 0).
Proof.
  intros Ho Hreg Hl. unfold virtual_address_for_physical, checked_add64. split.
  - intros Hr Hh. rewrite (first_holding_unique _ _ _ _ Ho Hr Hh).
    destruct (ordered_member _ _ _ Ho ltac:(lia) Hr) as (?&?&?&?).
    eapply list.Forall_forall in Hreg as [? ?]; [|exact Hr]. unfold holds in Hh.
    case_if; [|rewrite (proj2 (Z.leb_gt _ _)) by lia; done].
    destruct (Z.leb_spec (physical + length) (physical_end r));
      destruct (Z.ltb_spec (physical_end r) (physical + length)); try lia; word_lia.
  - intros Hn. case_if; [|done]. destruct (first_holding m physical) as [r'|] eqn:E; [|done].
    apply first_holding_Some in E as [Hr' Hh]. by apply Hn in Hr'.
Qed.

(** What a range mapping maps. When [new_range_mapping] gives a mapping, it covers
    the whole allocation: byte [i] of it aliases the [i]th byte of the requests'
    concatenated host memory, pieces across adjacent map ranges included, and every
    requested byte is guest memory. Between the allocation and the protection nothing but
    remaps happens; the allocation is freed only when the protection failed. *)
Theorem new_range_mapping_maps {target : Target} answers allocates m calls reqs total
    read_only calls' mapping :
  ordered 0 m -> regions_ok m -> Forall request_ok reqs ->
  (forall a, allocates calls total = Some a -> 0 <= a /\ a + total < M64) ->
  new_range_mapping answers allocates m calls reqs total read_only = Ret (calls', Some mapping) ->
  exists es tail, calls' = calls ++ [VmAllocate total] ++ es ++ tail /\
    allocates calls total = Some (m_address mapping) /\ m_length mapping = total /\
    m_writable mapping = (read_only =? 0) /\ Forall is_remap es /\
    total_of reqs = total /\
    image es = zip (seqZ (m_address mapping) total) (host_bytes m reqs) /\
    (forall q x, q ∈ reqs -> pr_address q <= x < pr_address q + pr_length q ->
       is_Some (host_of m x)) /\
    let protect := VmProtect (m_address mapping) total
      (if negb (read_only =? 0) then PROT_READ else Z.lor PROT_READ PROT_WRITE) in
    tail = protect ::
      if answers (calls ++ [VmAllocate total] ++ es) protect then []
      else [VmDeallocate (m_address mapping) total].
Proof.
  intros Ho Hreg Hok Hal. unfold new_range_mapping. destruct (total mod _ =? 0); [|done].
  cbn [fatal_unless mbind outcome_bind].
  destruct (allocates calls total) as [a|] eqn:Ea; [|done].
  destruct (Hal a eq_refl) as [Ha0 Ha1].
  destruct (map_requests answers m (Some total) (calls ++ [VmAllocate total]) reqs 0 a)
    as [c1 [mapped|]] eqn:Er; [|done].
  apply map_requests_spec in Er as (es&->&->&Hr&Hi&Hx); [|done|done|done|lia|lia|lia].
  rewrite Z.add_0_l in *. case_if; [done|].
  set (prot := if negb (read_only =? 0) then PROT_READ else Z.lor PROT_READ PROT_WRITE).
  cbn [mapping_new mbind outcome_bind]. rewrite <- !app_assoc.
  intros [= <- <-]. cbn [m_address m_length m_writable]. rewrite Hif in Hi.
  exists es. eexists. split; [|done]. destruct (answers _ _); by rewrite <- ?app_assoc.
Qed.

(** A refused range mapping leaks nothing. When the allocation fails nothing follows
    it; a refusal after it frees the whole allocation, once, as the last call; no refusal
    happens any other way. *)
Theorem new_range_mapping_refused {target : Target} answers allocates m calls reqs total
    read_only calls' :
  new_range_mapping answers allocates m calls reqs total read_only = Ret (calls', None) ->
  exists es, Forall is_remap es /\
    calls' = calls ++ [VmAllocate total] ++
      match allocates calls total with
      | None => []
      | Some a => es ++ [VmDeallocate a total]
      end.
Proof.
  unfold new_range_mapping. destruct (total mod _ =? 0); [|done].
  cbn [fatal_unless mbind outcome_bind].
  destruct (allocates calls total) as [a|]; [|intros [= <-]; by exists []].
  destruct (map_requests answers m (Some total) (calls ++ [VmAllocate total]) reqs 0 a)
    as [c1 r] eqn:Er.
  apply map_requests_appends in Er as (es&->&Hes). exists es. split; [done|]. revert H.
  destruct r as [mapped|]; [case_if; [|done]|]; intros [= <-]; by rewrite <- !app_assoc.
Qed.

(** Guest memory reads back what was written. A write to bytes inside one range of an
    accepted map answers true, a read of the same bytes gives them back, and no other
    host byte changes. *)
Theorem map_write_read stopped mem m r physical src :
  ordered 0 m -> regions_ok m -> r ∈ m -> physical_address r <= physical ->
  src <> [] -> physical + Z.of_nat (List.length src) <= physical_end r ->
  ZERO_REGION_END <= virtual_address r ->
  let host := virtual_address r + (physical - physical_address r) in
  exists mem', map_write stopped false mem m physical src = Ret (true, mem') /\
    map_read mem' m physical (Z.of_nat (List.length src)) = Ret (true, Some src) /\
    forall x, x < host \/ host + Z.of_nat (List.length src) <= x -> mem' x = mem x.
Proof.
  intros Ho Hreg Hr Hp Hne Hend Hz. cbv zeta.
  assert (Hlen : 0 < Z.of_nat (List.length src)) by (destruct src; [done|cbn; lia]).
  destruct (ordered_member _ _ _ Ho ltac:(lia) Hr) as (?&?&?&?).
  pose proof Hreg as Hreg'. eapply list.Forall_forall in Hreg' as [? ?]; [|exact Hr].
  set (host := virtual_address r + (physical - physical_address r)).
  assert (Hva : virtual_address_for_physical m physical (Z.of_nat (List.length src)) = host).
  { unfold virtual_address_for_physical, checked_add64.
    rewrite (proj2 (Z.ltb_lt _ _)) by lia.
    rewrite (first_holding_unique _ _ _ _ Ho Hr) by (unfold holds; lia).
    rewrite (proj2 (Z.ltb_ge _ _)) by lia. unfold host. word_lia. }
  unfold map_write, map_read. rewrite Hva.
  assert (Hh : ZERO_REGION_END <= host /\ host + Z.of_nat (List.length src) < M64)
    by (unfold host, ZERO_REGION_END in *; lia).
  destruct src as [|b src']; [done|]. set (src := b :: src') in *.
  assert (Hck : check (R:=RaiseKind) host 0 (Z.of_nat (List.length src)) (Fatal MapWriteNull)
    = Ret (host + 0)) by (apply check_ok; unfold ZERO_REGION_END in *; lia).
  unfold copy_from, stop_if_task_ended. cbn [mbind outcome_bind].
  rewrite Hck. cbn [mbind outcome_bind]. eexists. split; [done|].
  assert (Hst : forall x, copy_from_loop (List.length src) mem (host + 0) 0 src x
    = store_at mem host src x).
  { intros x. rewrite copy_from_loop_store by (unfold ZERO_REGION_END in *; lia).
    by rewrite !Z.add_0_r. }
  split.
  - rewrite (proj2 (Z.eqb_neq host 0)) by (unfold ZERO_REGION_END in *; lia).
    rewrite (proj2 (Z.eqb_neq _ 0)) by lia. cbn [negb andb].
    rewrite copy_to_Ret by (unfold ZERO_REGION_END in *; lia). cbn [mbind outcome_bind].
    do 3 f_equal. rewrite Z.add_0_r, Nat2Z.id.
    rewrite Z.add_0_r in Hst.
    transitivity (bytes_at (store_at mem host src) host (List.length src));
      [apply bytes_at_ext; intros; apply Hst|apply bytes_at_store].
  - intros x Hx. rewrite Hst. by apply store_at_out.
Qed.

(** *** The properties at work *)

(** Two adjacent ranges, the second listed first, and an empty one. *)
Definition sample_descriptor : MemoryMapDescriptor :=
  [MkGuestRange 0x8000 0x4000 0x300000000; MkGuestRange 0x4000 0 0x1;
   MkGuestRange 0x4000 0x4000 0x200000000].
Definition sample_map : MemoryMap :=
  [MkMapRange 0x4000 0x4000 0 0x1; MkMapRange 0x4000 0x8000 0x4000 0x200000000;
   MkMapRange 0x8000 0xc000 0x4000 0x300000000].

Lemma sample_map_ok :
  map_new sample_descriptor = Some sample_map /\ ordered 0 sample_map /\ regions_ok sample_map.
Proof.
  split; [by vm_compute|]. split.
  - repeat (split; [by vm_compute|]). done.
  - repeat constructor; by vm_compute.
Qed.

Lemma map_new_accepts_witness :
  (is_Some (map_new sample_descriptor) <->
   Forall fits sample_descriptor /\ ForallOrdPairs apart sample_descriptor) /\
  forall m, map_new sample_descriptor = Some m ->
    m ≡ₚ map map_range sample_descriptor /\ ordered 0 m.
Proof. apply (map_new_accepts sample_descriptor). repeat constructor; by vm_compute. Defined.

Lemma virtual_address_spec_witness :
  let r := MkMapRange 0x8000 0xc000 0x4000 0x300000000 in
  (r ∈ sample_map -> holds r 0x8010 ->
   virtual_address_for_physical sample_map 0x8010 0x20 =
     if 0x8010 + 0x20 <=? physical_end r
     then virtual_address r + (0x8010 - physical_address r) else 0) /\
  ((forall r', r' ∈ sample_map -> ~ holds r' 0x8010) ->
   virtual_address_for_physical sample_map 0x8010 0x20 = 0).
Proof.
  apply (virtual_address_spec sample_map (MkMapRange 0x8000 0xc000 0x4000 0x300000000)
    0x8010 0x20); [apply sample_map_ok|apply sample_map_ok|lia].
Defined.

(** A platform that answers yes to all and allocates at one address. *)
Definition yes (_ : list VmCall) (_ : VmCall) : bool := true.
Definition at_one_place (_ : list VmCall) (_ : Z) : option Z := Some 0x500000000.

Lemma new_range_mapping_maps_witness :
  exists calls' mapping,
    new_range_mapping (target := AArch64) yes at_one_place sample_map []
      [MkPhysRange 0x6000 0x4000] 0x4000 0 = Ret (calls', Some mapping) /\
  exists es tail, calls' = [] ++ [VmAllocate 0x4000] ++ es ++ tail /\
    at_one_place [] 0x4000 = Some (m_address mapping) /\ m_length mapping = 0x4000 /\
    m_writable mapping = (0 =? 0) /\ Forall is_remap es /\
    total_of [MkPhysRange 0x6000 0x4000] = 0x4000 /\
    image es = zip (seqZ (m_address mapping) 0x4000)
      (host_bytes sample_map [MkPhysRange 0x6000 0x4000]) /\
    (forall q x, q ∈ [MkPhysRange 0x6000 0x4000] ->
       pr_address q <= x < pr_address q + pr_length q -> is_Some (host_of sample_map x)) /\
    let protect := VmProtect (m_address mapping) 0x4000
      (if negb (0 =? 0) then PROT_READ else Z.lor PROT_READ PROT_WRITE) in
    tail = protect ::
      if yes ([] ++ [VmAllocate 0x4000] ++ es) protect then []
      else [VmDeallocate (m_address mapping) 0x4000].
Proof.
  eexists _, _. split; [vm_compute; reflexivity|].
  eapply (new_range_mapping_maps (target := AArch64) yes at_one_place sample_map []
    [MkPhysRange 0x6000 0x4000] 0x4000 0);
    [apply sample_map_ok|apply sample_map_ok|repeat constructor; by vm_compute
    |by intros a [= <-]; vm_compute|vm_compute; reflexivity].
Defined.

Lemma new_range_mapping_refused_witness :
  exists calls',
    new_range_mapping (target := AArch64) yes at_one_place sample_map []
      [MkPhysRange 0xa000 0x4000] 0x4000 0 = Ret (calls', None) /\
  exists es, Forall is_remap es /\
    calls' = [] ++ [VmAllocate 0x4000] ++
      match at_one_place [] 0x4000 with
      | None => []
      | Some a => es ++ [VmDeallocate a 0x4000]
      end.
Proof.
  eexists. split; [vm_compute; reflexivity|].
  eapply (new_range_mapping_refused (target := AArch64) yes at_one_place sample_map []
    [MkPhysRange 0xa000 0x4000] 0x4000 0). vm_compute. reflexivity.
Defined.

Lemma map_write_read_witness :
  let r := MkMapRange 0x8000 0xc000 0x4000 0x300000000 in
  let host := virtual_address r + (0x8010 - physical_address r) in
  exists mem', map_write (Fatal MapWriteNull) false sample sample_map 0x8010 [x01; x02]
      = Ret (true, mem') /\
    map_read mem' sample_map 0x8010 2 = Ret (true, Some [x01; x02]) /\
    forall x, x < host \/ host + 2 <= x -> mem' x = sample x.
Proof.
  apply (map_write_read (Fatal MapWriteNull) sample sample_map
    (MkMapRange 0x8000 0xc000 0x4000 0x300000000) 0x8010 [x01; x02]);
    [apply sample_map_ok|apply sample_map_ok|do 2 right; left|by vm_compute|done
    |by vm_compute|by vm_compute].
Defined.

(** A protection that fails frees the allocation, and the mapping made anyway frees it
    again at its last release. *)
Example failed_protect_frees_twice :
  let refuse_protect (_ : list VmCall) c := match c with VmProtect _ _ _ => false | _ => true end in
  exists calls' mapping,
    new_range_mapping (target := AArch64) refuse_protect at_one_place sample_map []
      [MkPhysRange 0x8000 0x4000] 0x4000 0 = Ret (calls', Some mapping) /\
    last calls' (VmAllocate 0) = VmDeallocate 0x500000000 0x4000 /\
    mapping_drop true mapping = [ReleaseVm 0x500000000 0x4000].
Proof. eexists _, _. split; [vm_compute; reflexivity|]. by vm_compute. Qed.

End MemoryMap.
