(* ===== verification/PageTable.v ===== *)
(** * PageTable: the walk of a task's page table
    (src/crates/reims-vgpu-core/src/memory/page_table.rs)

    The walker over the levels' tables, read at use time through the read block, and
    its visits. The read block and the visitor are parameters: a read gives the bytes
    it fills, a visit runs on the caller's state; a raise of either carries the state
    the visits made so far left. The log sink is not modelled. The loop's fuel is one
    turn per page and level of the range. *)

From S2P Require Import Prelude Num MemoryKinds GuestRecords GuestPtr.
Import Memory GuestRecords.

Module PageTable.

Record Level := MkLevel {
  entries : list byte;
  index : Z;
  end_ : Z;
  base : Z;
}.
Definition with_index (l : Level) (i : Z) : Level := MkLevel (entries l) i (end_ l) (base l).
Definition with_entries (l : Level) (bs : list byte) : Level :=
  MkLevel bs (index l) (end_ l) (base l).

Section Walker.
Context {target : Target} {S R : Type}.

Definition INDEX_BITS : Z := sub32 APV_PAGE_SHIFT 2.
Definition ENTRIES : Z := shl64 1 INDEX_BITS.

Record PageTableWalker := MkWalker { root : Z; depth : Z; allow_holes : bool }.
Definition new (root depth : Z) (allow_holes : bool) : PageTableWalker :=
  MkWalker (shl64 root APV_PAGE_SHIFT) depth allow_holes.

(** A walk's result, its raises carrying the visitor's state. *)
Local Abbreviation res := (outcome (R * S) mdeath).

(** How the walk raises, the walk's own kinds among the raises, the read block and
    the visitor. *)
Context (on : OnFault) (own : RaiseKind -> R)
  (read : Z -> list byte -> outcome R mdeath (list byte))
  (visitor : Z -> Z -> Z -> S -> res S).

Definition raise {A} (k : RaiseKind) (s : S) : res A :=
  match on with Die => Died (Unhandled k) | Return => Raised (own k, s) end.

(** The entry at [offset]; past the table the walk ends the process. *)
Definition entry (l : Level) (offset : Z) : res Z :=
  let bs := take 4 (drop (Z.to_nat (mul64 offset 4)) (entries l)) in
  if (length bs =? 4)%nat && (offset <? ENTRIES) then Ret (of_le_bytes bs)
  else Died (Fatal WalkEntryPastTable).

Definition level_mut (levels : list Level) (level : nat) : res Level :=
  match levels !! level with Some l => Ret l | None => Died (Fatal WalkEntryPastTable) end.

(** [entries.get_mut(from..to)] filled by the read block. *)
Definition read_range (pa : Z) (level : Level) (start count : Z) (s : S) : res (Level * bool) :=
  _ ← fatal_unless (negb (pa =? 0)) (Fatal WalkZeroTable);
  let address := shl64 pa APV_PAGE_SHIFT in
  if ENTRIES <=? start then Ret (level, false)
  else if ENTRIES <? add64 start count then Ret (level, false)
  else
    let from := Z.to_nat (shl64 start 2) in
    let to := Z.to_nat (shl64 (add64 start count) 2) in
    if (from <=? to)%nat && (to <=? length (entries level))%nat then
      bs ← leaving s (read (add64 address (shl64 start 2)) (take (to - from) (drop from (entries level))));
      Ret (with_entries level (take from (entries level) ++ bs ++ drop to (entries level)), true)
    else Died (Fatal WalkReadPastTable).

(** The way up from a table's end: [None] past the root's. *)
Fixpoint pop (levels : list Level) (level : nat) (index_ : Z)
    : res (option (list Level * nat * Z * Z)) :=
  match level with
  | O => Ret None
  | Datatypes.S up =>
      l ← level_mut levels level;
      let levels := <[level := with_index l index_]> levels in
      parent ← level_mut levels up;
      let index_ := add64 (index parent) 1 in
      if sub64 index_ (base parent) <? ENTRIES
      then Ret (Some (levels, up, index_, base parent))
      else pop levels up index_
  end.

Section Loop.
Context (w : PageTableWalker).

(** On to the next entry, [continue] being the loop's next turn. *)
Definition next_entry (continue : list Level -> nat -> Z -> Z -> S -> res S)
    (levels : list Level) (level : nat) (index_ base_ : Z) (s : S) : res S :=
  let offset := sub64 index_ base_ in
  let index_ := add64 index_ 1 in
  l ← level_mut levels level;
  if end_ l <? index_ then Ret s
  else if ENTRIES <=? add64 offset 1 then
    popped ← pop levels level index_;
    match popped with
    | None => Ret s
    | Some (levels, level, index_, base_) => continue levels level index_ base_ s
    end
  else continue levels level index_ base_ s.

Fixpoint walk_loop (fuel : nat) (levels : list Level) (level : nat) (index_ base_ : Z) (s : S)
    : res S :=
  match fuel with
  | O => Died OutOfFuel
  | Datatypes.S fuel =>
      let offset := sub64 index_ base_ in
      l ← level_mut levels level;
      e ← entry l offset;
      let pa := Z.land e 0x7fffffff in
      if pa =? 0 then
        if negb (allow_holes w) then raise WalkHole s
        else next_entry (walk_loop fuel) levels level index_ base_ s
      else if Z.of_nat level <? sub32 (depth w) 1 then
        current ← level_mut levels level;
        let levels := <[level := MkLevel (entries current) index_ (end_ current) base_]> levels in
        child ← level_mut levels (Datatypes.S level);
        '(child', _) ← read_range pa child 0 ENTRIES s;
        walk_loop fuel (<[Datatypes.S level := child']> levels) (Datatypes.S level)
          (index child) (shl64 index_ INDEX_BITS) s
      else
        s ← visitor (shl64 index_ APV_PAGE_SHIFT) pa (shr32 e 31) s;
        next_entry (walk_loop fuel) levels level index_ base_ s
  end.

(** The levels of a walk from [start_page] to [end_page]. *)
Definition make_levels (start_page end_page : Z) : list Level :=
  map (fun i =>
    let shift := mul32 INDEX_BITS (sub32 (sub32 (depth w) 1) (Z.of_nat i)) in
    MkLevel (replicate (Z.to_nat APV_PAGE_SIZE) x00)
      (Num.low_u32 (shr64 start_page shift)) (Num.low_u32 (shr64 end_page shift)) 0)
    (seq 0 (Z.to_nat (depth w))).

Definition visit_pages_in_range (start length : Z) (s : S) : res S :=
  if negb (Z.land start APV_PAGE_MASK =? 0) then raise WalkMisalignedStart s
  else if negb (Z.land length APV_PAGE_MASK =? 0) then raise WalkMisalignedLength s
  else if length =? 0 then raise WalkZeroLength s
  else
    let '(end_, overflow) := overflowing_add64 start (sub64 length 1) in
    if overflow : bool then raise WalkEndOverflow s
    else
      let start_page := shr64 start APV_PAGE_SHIFT in
      let end_page := shr64 end_ APV_PAGE_SHIFT in
      let levels := make_levels start_page end_page in
      match levels with
      | [] => Died (Fatal WalkNoLevels)
      | root_level :: rest =>
          let first := index root_level in
          let last := PageTable.end_ root_level in
          '(root_level, ok) ← read_range (Num.low_u32 (shr64 (root w) APV_PAGE_SHIFT)) root_level
            first (add64 (sub64 last first) 1) s;
          if negb ok then raise WalkRootUnread s
          else walk_loop (Z.to_nat ((end_page - start_page + 1) * depth w))
                 (root_level :: rest) 0 first 0 s
      end.
End Loop.
End Walker.

(** ** The reference: a page looked up level by level *)

Section Reference.
Context {target : Target} (mem : GuestPtr.memory).

(** Entry [o] of the table at guest page [pa]. *)
Definition entry_at (pa o : Z) : Z :=
  of_le_bytes (GuestPtr.bytes_at mem (pa * APV_PAGE_SIZE + 4 * o) 4).

(** From the table at [pa], [k] levels above the last: the page mapped and its
    writable bit, or [None] at a hole. *)
Fixpoint lookup_from (k : nat) (pa page : Z) : option (Z * Z) :=
  let e := entry_at pa (page / ENTRIES ^ Z.of_nat k mod ENTRIES) in
  let pa := Z.land e 0x7fffffff in
  if pa =? 0 then None
  else match k with O => Some (pa, shr32 e 31) | Datatypes.S k => lookup_from k pa page end.

Context {S R : Type} (on : OnFault) (own : RaiseKind -> R)
  (visitor : Z -> Z -> Z -> S -> outcome (R * S) mdeath S).

(** The [n] pages from [page] on, each looked up from the root and visited. *)
Fixpoint visit_each (depth : nat) (root_page : Z) (n : nat) (page : Z) (s : S)
    : outcome (R * S) mdeath S :=
  match n with
  | O => Ret s
  | Datatypes.S n =>
      match lookup_from (pred depth) root_page page with
      | None => raise on own WalkHole s
      | Some (pa, writable) =>
          s ← visitor (page * APV_PAGE_SIZE) pa writable s;
          visit_each depth root_page n (page + 1) s
      end
  end.
End Reference.

(** ** Table sizes *)

Section Sizes.
Context {target : Target}.

Lemma index_bits : INDEX_BITS = APV_PAGE_SHIFT - 2 /\ 10 <= INDEX_BITS <= 12.
Proof. unfold INDEX_BITS, APV_PAGE_SHIFT. destruct arch; by vm_compute. Qed.
Lemma entries_pow : ENTRIES = 2 ^ INDEX_BITS.
Proof. unfold ENTRIES, INDEX_BITS, APV_PAGE_SHIFT. by destruct arch. Qed.
Lemma entries_range : 1024 <= ENTRIES <= 4096.
Proof. unfold ENTRIES, INDEX_BITS, APV_PAGE_SHIFT. destruct arch; by vm_compute. Qed.
Lemma entries_pos : 0 < ENTRIES.
Proof. pose proof entries_range. lia. Qed.
Lemma page_entries : APV_PAGE_SIZE = 4 * ENTRIES.
Proof. unfold ENTRIES, INDEX_BITS, APV_PAGE_SIZE, APV_PAGE_SHIFT. by destruct arch. Qed.

Lemma shl64_page x : 0 <= x -> x * APV_PAGE_SIZE < M64 -> shl64 x APV_PAGE_SHIFT = x * APV_PAGE_SIZE.
Proof.
  intros Hx H. pose proof page_shift. pose proof page_size as [Hs _].
  unfold shl64. rewrite Z.mod_small, Z.shiftl_mul_pow2, <- Hs by lia. apply w64_small. nia.
Qed.
Lemma shl64_index x : 0 <= x -> x * ENTRIES < M64 -> shl64 x INDEX_BITS = x * ENTRIES.
Proof.
  intros Hx H. pose proof index_bits. pose proof entries_range.
  unfold shl64. rewrite Z.mod_small, Z.shiftl_mul_pow2, <- entries_pow by lia. apply w64_small. nia.
Qed.
Lemma shl64_2 x : 0 <= x -> 4 * x < M64 -> shl64 x 2 = 4 * x.
Proof.
  intros Hx H. unfold shl64. rewrite Z.mod_small, Z.shiftl_mul_pow2 by lia. rewrite w64_small; lia.
Qed.
End Sizes.

(** ** A page's index at each level *)

Section Digits.
Context {target : Target} (d : nat).

Definition idx (j : nat) (p : Z) : Z := p / ENTRIES ^ Z.of_nat (d - 1 - j).
Definition base_of (j : nat) (p : Z) : Z :=
  match j with O => 0 | Datatypes.S i => idx i p * ENTRIES end.
(** The levels below [j] are at their tables' last entries. *)
Definition carry (j : nat) (p : Z) : Prop := (p + 1) mod ENTRIES ^ Z.of_nat (d - 1 - j) = 0.

Lemma pow_pos k : 0 < ENTRIES ^ Z.of_nat k.
Proof. apply Z.pow_pos_nonneg; [pose proof entries_range; lia|lia]. Qed.

Lemma pow_up j :
  (Datatypes.S j < d)%nat ->
  ENTRIES ^ Z.of_nat (d - 1 - j) = ENTRIES ^ Z.of_nat (d - 1 - Datatypes.S j) * ENTRIES.
Proof.
  intros Hj. replace (Z.of_nat (d - 1 - j)) with (Z.succ (Z.of_nat (d - 1 - Datatypes.S j))) by lia.
  rewrite Z.pow_succ_r by lia. lia.
Qed.

Lemma idx_up j p : (Datatypes.S j < d)%nat -> 0 <= p -> idx j p = idx (Datatypes.S j) p / ENTRIES.
Proof.
  intros Hj Hp. pose proof entries_range. unfold idx. rewrite pow_up by done.
  by rewrite Z.div_div by (pose proof (pow_pos (d - 1 - Datatypes.S j)); lia).
Qed.

Lemma idx_last p : (0 < d)%nat -> idx (d - 1) p = p.
Proof. intros Hd. unfold idx. rewrite Nat.sub_diag. by rewrite Z.div_1_r. Qed.

Lemma idx_range j p : 0 <= p -> 0 <= idx j p <= p.
Proof.
  intros Hp. pose proof (pow_pos (d - 1 - j)). unfold idx. split; [by apply Z.div_pos|].
  apply Z.div_le_upper_bound; [done|]. nia.
Qed.

Lemma idx_0_small p : (0 < d)%nat -> 0 <= p < ENTRIES ^ Z.of_nat d -> idx 0 p < ENTRIES.
Proof.
  intros Hd Hp. unfold idx. apply Z.div_lt_upper_bound; [apply pow_pos|].
  replace (Z.of_nat d) with (Z.succ (Z.of_nat (d - 1 - 0))) in Hp by lia.
  rewrite Z.pow_succ_r in Hp by lia. lia.
Qed.

Lemma offset_digit j p :
  (j < d)%nat -> 0 <= p < ENTRIES ^ Z.of_nat d -> idx j p - base_of j p = idx j p mod ENTRIES.
Proof.
  intros Hj Hp. pose proof entries_range. destruct j as [|j]; cbn [base_of].
  - rewrite Z.mod_small; [lia|]. split; [apply idx_range; lia|]. apply idx_0_small; [lia|done].
  - rewrite (idx_up j p) by lia. rewrite Z.mod_eq by lia. lia.
Qed.

Lemma base_range j p : (j < d)%nat -> 0 <= p -> 0 <= base_of j p <= idx j p.
Proof.
  intros Hj Hp. pose proof entries_range. destruct j as [|j]; cbn [base_of].
  - pose proof (idx_range 0 p Hp). lia.
  - rewrite (idx_up j p) by lia. pose proof (idx_range (Datatypes.S j) p Hp).
    pose proof (Z.mul_div_le (idx (Datatypes.S j) p) ENTRIES). 
    pose proof (Z.div_pos (idx (Datatypes.S j) p) ENTRIES). lia.
Qed.

Lemma carry_last p : (0 < d)%nat -> carry (d - 1) p.
Proof. intros Hd. unfold carry. rewrite Nat.sub_diag. apply Z.mod_1_r. Qed.

Lemma carry_idx j p : 0 <= p -> carry j p -> idx j (p + 1) = idx j p + 1.
Proof.
  intros Hp Hc. unfold carry, idx in *. set (m := ENTRIES ^ _) in *.
  assert (0 < m) as Hm by apply pow_pos.
  pose proof (Z.div_mod (p + 1) m ltac:(lia)) as Hd. rewrite Hc in Hd.
  set (q := (p + 1) / m) in *.
  rewrite <- (Z.div_unique_pos p m (q - 1) (m - 1)); nia.
Qed.

Lemma carry_up j p :
  (Datatypes.S j < d)%nat -> 0 <= p -> carry (Datatypes.S j) p ->
  ENTRIES <= idx (Datatypes.S j) p mod ENTRIES + 1 -> carry j p.
Proof.
  intros Hj Hp Hc Hd. pose proof (carry_idx _ _ Hp Hc) as Hi. unfold carry in *.
  pose proof entries_range. pose proof (pow_pos (d - 1 - Datatypes.S j)) as Hpos.
  rewrite pow_up by done. rewrite Z.rem_mul_r by lia. rewrite Hc.
  fold (idx (Datatypes.S j) (p + 1)). rewrite Hi.
  pose proof (Z.mod_pos_bound (idx (Datatypes.S j) p) ENTRIES).
  rewrite <- Z.add_mod_idemp_l by lia.
  replace (idx (Datatypes.S j) p mod ENTRIES) with (ENTRIES - 1) by lia.
  replace (ENTRIES - 1 + 1) with ENTRIES by lia. rewrite Z.mod_same by lia. lia.
Qed.

Lemma same_up j p :
  (j < d)%nat -> 0 <= p -> carry j p -> idx j p mod ENTRIES + 1 < ENTRIES ->
  forall i, (i < j)%nat -> idx i (p + 1) = idx i p.
Proof.
  intros Hj Hp Hc Hd. pose proof entries_range.
  induction j as [|j IH]; intros i Hi; [lia|].
  assert (idx j (p + 1) = idx j p) as Hsame.
  { rewrite (idx_up j p), (idx_up j (p + 1)) by lia. rewrite carry_idx by done.
    assert (ENTRIES <> 0) as Hne0 by lia.
    pose proof (Z.div_mod (idx (Datatypes.S j) p) ENTRIES Hne0).
    pose proof (Z.mod_pos_bound (idx (Datatypes.S j) p) ENTRIES).
    symmetry. apply (Z.div_unique_pos _ _ _ (idx (Datatypes.S j) p mod ENTRIES + 1)); lia. }
  destruct (decide (i = j)) as [->|Hne]; [done|].
  clear IH. revert i Hi Hne.
  assert (forall k i, (i + k = j)%nat -> idx i (p + 1) = idx i p) as Hall.
  { induction k as [|k IHk]; intros i Hk; [by replace i with j by lia|].
    rewrite (idx_up i p), (idx_up i (p + 1)) by lia. f_equal. apply IHk. lia. }
  intros i Hi _. apply (Hall (j - i)%nat). lia.
Qed.
End Digits.

(** ** The walk's reads *)

Section Reads.
Context {target : Target} {S R : Type} (on : OnFault) (own : RaiseKind -> R)
  (read : Z -> list byte -> outcome R mdeath (list byte)) (mem : GuestPtr.memory).
Hypothesis Hread : forall a dst, read a dst = Ret (GuestPtr.bytes_at mem a (length dst)).

Lemma bytes_at_mid a n k :
  (k + 4 <= n)%nat ->
  take 4 (drop k (GuestPtr.bytes_at mem a n)) = GuestPtr.bytes_at mem (a + Z.of_nat k) 4.
Proof.
  intros Hk. replace n with (k + (4 + (n - k - 4)))%nat by lia.
  rewrite GuestPtr.bytes_at_app, drop_app_length' by (by rewrite GuestPtr.length_bytes_at).
  by rewrite GuestPtr.bytes_at_app, take_app_length' by (by rewrite GuestPtr.length_bytes_at).
Qed.

(** A level whose entries in [lo, hi] are the table's at [pa]. *)
Definition holds (l : Level) (pa lo hi : Z) : Prop :=
  forall o, lo <= o <= hi -> 0 <= o < ENTRIES ->
    entry (S:=S) (R:=R) l o = Ret (entry_at mem pa o).

Lemma read_range_spec pa l start count (s : S) :
  0 < pa < M32 -> 0 <= start -> 0 < count -> start + count <= ENTRIES ->
  length (entries l) = Z.to_nat APV_PAGE_SIZE ->
  exists bs, read_range read pa l start count s = Ret (with_entries l bs, true) /\
    length bs = Z.to_nat APV_PAGE_SIZE /\ holds (with_entries l bs) pa start (start + count - 1).
Proof.
  intros Hpa Hs Hc Hsc Hl. pose proof entries_range. pose proof page_entries.
  pose proof M32_val. pose proof M64_val.
  unfold read_range. rewrite (proj2 (Z.eqb_neq pa 0)) by lia. cbn [negb fatal_unless mbind outcome_bind].
  rewrite (proj2 (Z.leb_gt ENTRIES start)) by lia.
  rewrite add64_small by lia. rewrite (proj2 (Z.ltb_ge ENTRIES (start + count))) by lia.
  rewrite shl64_page, !shl64_2 by nia. rewrite add64_small by nia.
  set (from := Z.to_nat (4 * start)). set (to := Z.to_nat (4 * (start + count))).
  assert (from <= to /\ to <= length (entries l))%nat as [Hft Hte] by lia.
  rewrite (proj2 (Nat.leb_le _ _) Hft), (proj2 (Nat.leb_le _ _) Hte). cbn [andb].
  rewrite Hread. cbn [leaving mbind outcome_bind].
  assert (length (take (to - from) (drop from (entries l))) = to - from)%nat as ->
    by (rewrite length_take, length_drop; lia).
  eexists. split; [reflexivity|]. split.
  { rewrite !length_app, length_take, length_drop, GuestPtr.length_bytes_at. lia. }
  intros o Ho HoE. unfold entry. cbn [entries with_entries].
  rewrite mul64_small by lia. replace (o * 4) with (4 * o) by lia.
  assert (take 4 (drop (Z.to_nat (4 * o)) (take from (entries l) ++
      GuestPtr.bytes_at mem (pa * APV_PAGE_SIZE + 4 * start) (to - from) ++ drop to (entries l)))
    = GuestPtr.bytes_at mem (pa * APV_PAGE_SIZE + 4 * o) 4) as ->.
  { rewrite drop_app_ge by (rewrite length_take; lia).
    rewrite length_take, Nat.min_l by lia.
    rewrite drop_app_le, take_app_le; rewrite ?length_drop, ?GuestPtr.length_bytes_at; try lia.
    rewrite bytes_at_mid by lia. f_equal. lia. }
  rewrite GuestPtr.length_bytes_at, (proj2 (Z.ltb_lt o ENTRIES)) by lia. done.
Qed.

Lemma entry_at_range pa o : 0 <= entry_at mem pa o < M32.
Proof. apply of_le_bytes_u32, GuestPtr.length_bytes_at. Qed.
Lemma masked_range e : 0 <= e < M32 -> 0 <= Z.land e 0x7fffffff < M32.
Proof.
  intros He. change 0x7fffffff with (2 ^ 31 - 1). rewrite land_mask by lia.
  pose proof (Z.mod_pos_bound e (2 ^ 31)). rewrite M32_val. lia.
Qed.
End Reads.

(** ** The walk follows the lookups *)

Section Follow.
Context {target : Target} {S R : Type} (on : OnFault) (own : RaiseKind -> R)
  (read : Z -> list byte -> outcome R mdeath (list byte)) (mem : GuestPtr.memory).
Hypothesis Hread : forall a dst, read a dst = Ret (GuestPtr.bytes_at mem a (length dst)).
Context (visitor : Z -> Z -> Z -> S -> outcome (R * S) mdeath S).
Context (w : PageTableWalker) (d : nat) (root_page sp ep : Z).
Hypothesis (Hdepth : depth w = Z.of_nat d) (Hd : (1 <= d <= 5)%nat)
  (Hholes : allow_holes w = false) (Hroot : 0 < root_page < M32)
  (Hsp : 0 <= sp) (Hep : ep < M32) (Hfit : ep < ENTRIES ^ Z.of_nat d).

(** The table of level [j] on the way to page [p]. *)
Fixpoint table_pa (j : nat) (p : Z) : Z :=
  match j with
  | O => root_page
  | Datatypes.S i =>
      Z.land (entry_at mem (table_pa i p) (idx d i p mod ENTRIES)) 0x7fffffff
  end.

(** The root's entries are read only for the indices of the range. *)
Definition lo (i : nat) : Z := match i with O => idx d 0 sp | _ => 0 end.
Definition hi (i : nat) : Z := match i with O => idx d 0 ep | _ => ENTRIES - 1 end.

(** The walk at level [j] on its way to page [p], the levels below it set for [q]. *)
Record following (levels : list Level) (j : nat) (p q : Z) : Prop := {
  f_len : length levels = d;
  f_lt : (j < d)%nat;
  f_mapped i : (i <= j)%nat -> table_pa i p <> 0;
  f_level i l : levels !! i = Some l ->
    length (entries l) = Z.to_nat APV_PAGE_SIZE /\ end_ l = idx d i ep /\
    ((i < j)%nat -> index l = idx d i p /\ base l = base_of d i p) /\
    ((i <= j)%nat -> holds (S:=S) (R:=R) mem l (table_pa i p) (lo i) (hi i)) /\
    ((j < i)%nat -> index l = idx d i q);
}.

Lemma following_lookup levels j p q i :
  following levels j p q -> (i < d)%nat -> exists l, levels !! i = Some l.
Proof. intros [Hl _ _ _] Hi. apply lookup_lt_is_Some. lia. Qed.

Lemma idx_mono i p1 p2 : p1 <= p2 -> idx d i p1 <= idx d i p2.
Proof. intros H. apply Z.div_le_mono; [apply pow_pos|done]. Qed.

Lemma small_page p : 0 <= p <= ep -> 0 <= p < M32 /\ 0 <= p < ENTRIES ^ Z.of_nat d.
Proof. lia. Qed.

Lemma offset_at j p :
  (j < d)%nat -> 0 <= p <= ep -> sub64 (idx d j p) (base_of d j p) = idx d j p mod ENTRIES.
Proof.
  intros Hj Hp. pose proof (base_range d j p Hj). pose proof (idx_range d j p).
  rewrite sub64_small by (rewrite M64_val, M32_val in *; lia). apply offset_digit; [done|lia].
Qed.

Lemma current_entry levels j p q l :
  following levels j p q -> sp <= p <= ep -> levels !! j = Some l ->
  entry (S:=S) (R:=R) l (sub64 (idx d j p) (base_of d j p))
  = Ret (entry_at mem (table_pa j p) (idx d j p mod ENTRIES)).
Proof.
  intros Hf Hp Hl. pose proof (f_lt _ _ _ _ Hf) as Hj. rewrite offset_at by lia.
  destruct (f_level _ _ _ _ Hf j l Hl) as (_ & _ & _ & Hh & _).
  pose proof entries_range. apply (Hh (Nat.le_refl _)); [|apply Z.mod_pos_bound; lia].
  pose proof (Z.mod_pos_bound (idx d j p) ENTRIES entries_pos).
  unfold lo, hi. destruct j as [|j]; [|lia].
  rewrite Z.mod_small; [split; apply idx_mono; lia|].
  split; [apply idx_range; lia|apply idx_0_small; [done|lia]].
Qed.

Lemma table_pa_ext j p q :
  (forall i, (i < j)%nat -> idx d i p = idx d i q) -> table_pa j p = table_pa j q.
Proof.
  induction j as [|j IH]; intros H; [done|]. cbn [table_pa].
  rewrite IH, (H j); [done|lia|]. intros i Hi. apply H. lia.
Qed.

Lemma base_of_ext j p q :
  (forall i, (i < j)%nat -> idx d i p = idx d i q) -> base_of d j p = base_of d j q.
Proof. intros H. destruct j as [|j]; [done|]. cbn [base_of]. rewrite H; [done|lia]. Qed.

(** Going back up from a table's last entry. *)
Lemma pop_spec p : 0 <= p -> sp <= p -> p < ep -> forall j levels,
  following levels j p (p + 1) -> carry d j p -> ENTRIES <= idx d j p mod ENTRIES + 1 ->
  exists levels' j',
    pop (S:=S) (R:=R) levels j (idx d j p + 1)
      = Ret (Some (levels', j', idx d j' (p + 1), base_of d j' (p + 1))) /\
    following levels' j' (p + 1) (p + 1).
Proof.
  intros Hp0 Hsp' Hpe. pose proof entries_range as HE. pose proof M32_val. pose proof M64_val.
  induction j as [|j IH]; intros levels Hf Hc Hfull.
  { exfalso. pose proof (carry_idx d 0 p Hp0 Hc). pose proof (idx_mono 0 (p + 1) ep).
    pose proof (idx_0_small d ep). pose proof (idx_range d 0 p Hp0).
    rewrite Z.mod_small in Hfull by lia. lia. }
  pose proof (f_lt _ _ _ _ Hf) as Hj.
  destruct (following_lookup _ _ _ _ (Datatypes.S j) Hf Hj) as [l Hl].
  destruct (following_lookup _ _ _ _ j Hf ltac:(lia)) as [parent Hparent].
  cbn [pop]. unfold level_mut. rewrite Hl. cbn [mbind outcome_bind].
  rewrite list_lookup_insert_ne, Hparent by lia. cbn [mbind outcome_bind].
  destruct (f_level _ _ _ _ Hf j parent Hparent) as (_ & _ & Hsaved & _ & _).
  destruct (Hsaved ltac:(lia)) as [-> ->].
  pose proof (idx_range d j p Hp0). pose proof (base_range d j p ltac:(lia) Hp0).
  assert (carry d j p) as Hc' by (by apply carry_up).
  rewrite add64_small, sub64_small by lia.
  replace (idx d j p + 1 - base_of d j p) with (idx d j p mod ENTRIES + 1)
    by (rewrite <- offset_digit by lia; lia).
  set (levels' := <[Datatypes.S j := with_index l (idx d (Datatypes.S j) p + 1)]> levels).
  assert (idx d (Datatypes.S j) p + 1 = idx d (Datatypes.S j) (p + 1)) as Hnext
    by (by rewrite carry_idx).
  assert (following levels' j p (p + 1)) as Hf'.
  { split; [by unfold levels'; rewrite length_insert, (f_len _ _ _ _ Hf)|lia
      |intros; apply (f_mapped _ _ _ _ Hf); lia|].
    intros i l' Hl'. unfold levels' in Hl'.
    destruct (decide (i = Datatypes.S j)) as [->|Hne].
    - rewrite list_lookup_insert_eq in Hl' by (by eapply lookup_lt_Some). injection Hl' as <-.
      destruct (f_level _ _ _ _ Hf _ l Hl) as (? & ? & _ & _ & _).
      split_and!; [done|done|lia|lia|]. intros _. cbn [index with_index]. done.
    - rewrite list_lookup_insert_ne in Hl' by done.
      destruct (f_level _ _ _ _ Hf i l' Hl') as (? & ? & ? & Hh & Hdeep).
      split_and!; [done|done| | |].
      + intros Hi. auto.
      + intros Hi. apply Hh. lia.
      + intros Hi. apply Hdeep. lia. }
  destruct (Z.ltb_spec (idx d j p mod ENTRIES + 1) ENTRIES) as [Hlt|Hge].
  - exists levels', j.
    assert (forall i, (i < j)%nat -> idx d i (p + 1) = idx d i p) as Hsame
      by (apply same_up; [lia|done..]).
    rewrite carry_idx, (base_of_ext j (p + 1) p) by done. split; [done|].
    split; [apply Hf'|lia| |].
    { intros i Hi. rewrite (table_pa_ext i (p + 1) p) by (intros; apply Hsame; lia).
      by apply (f_mapped _ _ _ _ Hf'). } intros i l' Hl'.
    destruct (f_level _ _ _ _ Hf' i l' Hl') as (? & ? & Hup & Hh & Hdeep).
    split_and!; [done|done| | |done].
    + intros Hi. rewrite (base_of_ext i (p + 1) p), Hsame by (intros; auto with lia). auto.
    + intros Hi. rewrite (table_pa_ext i (p + 1) p) by (intros; apply Hsame; lia). auto.
  - apply IH; [done|done|lia].
Qed.

Local Abbreviation loop := (walk_loop on own read visitor w).

(** From a page visited to the next one. *)
Lemma next_page (continue : list Level -> nat -> Z -> Z -> S -> outcome (R * S) mdeath S)
    levels p (s : S) :
  following levels (d - 1) p p -> sp <= p <= ep ->
  if p =? ep then next_entry continue levels (d - 1) p (base_of d (d - 1) p) s = Ret s
  else exists levels' j', following levels' j' (p + 1) (p + 1) /\
    next_entry continue levels (d - 1) p (base_of d (d - 1) p) s
    = continue levels' j' (idx d j' (p + 1)) (base_of d j' (p + 1)) s.
Proof.
  intros Hf Hp. pose proof M32_val. pose proof M64_val. pose proof entries_range.
  pose proof (idx_last d p ltac:(lia)) as Hlast.
  assert (sub64 p (base_of d (d - 1) p) = idx d (d - 1) p mod ENTRIES) as Hoff.
  { rewrite <- Hlast at 1. apply offset_at; [apply Hf|lia]. }
  pose proof (Z.mod_pos_bound (idx d (d - 1) p) ENTRIES entries_pos).
  unfold next_entry, level_mut. destruct (following_lookup _ _ _ _ (d - 1) Hf) as [l Hl]; [lia|].
  rewrite Hl, Hoff. cbn [mbind outcome_bind]. rewrite !add64_small by lia.
  destruct (f_level _ _ _ _ Hf _ l Hl) as (_ & -> & _ & _ & _). rewrite idx_last by lia.
  destruct (Z.eqb_spec p ep) as [->|Hne].
  { by rewrite (proj2 (Z.ltb_lt _ _)) by lia. }
  rewrite (proj2 (Z.ltb_ge ep (p + 1))) by lia.
  assert (following levels (d - 1) p (p + 1)) as Hf1.
  { split; [apply Hf|lia|apply Hf|]. intros i l' Hl'.
    destruct (f_level _ _ _ _ Hf i l' Hl') as (? & ? & ? & ? & _). split_and!; try done.
    pose proof (lookup_lt_Some _ _ _ Hl') as Hlt. rewrite (f_len _ _ _ _ Hf) in Hlt. lia. }
  assert (carry d (d - 1) p) as Hc by (apply carry_last; lia).
  destruct (Z.leb_spec ENTRIES (idx d (d - 1) p mod ENTRIES + 1)) as [Hfull|Hroom].
  - destruct (pop_spec p ltac:(lia) ltac:(lia) ltac:(lia) (d - 1) levels Hf1 Hc Hfull)
      as (levels' & j' & Hpop & Hf').
    rewrite Hlast in Hpop. rewrite Hpop. cbn [mbind outcome_bind]. by exists levels', j'.
  - assert (forall i, (i < d - 1)%nat -> idx d i (p + 1) = idx d i p) as Hsame
      by (apply same_up; [lia..|done|done]).
    exists levels, (d - 1)%nat. rewrite carry_idx, Hlast by (done || lia).
    rewrite (base_of_ext (d - 1) (p + 1) p) by done. split; [|done].
    split; [apply Hf|lia| |].
    { intros i Hi. rewrite (table_pa_ext i (p + 1) p) by (intros; apply Hsame; lia).
      by apply (f_mapped _ _ _ _ Hf). } intros i l' Hl'.
    destruct (f_level _ _ _ _ Hf1 i l' Hl') as (? & ? & Hup & Hh & Hdeep).
    split_and!; [done|done| | |done].
    + intros Hi. rewrite (base_of_ext i (p + 1) p), Hsame by (intros; auto with lia). auto.
    + intros Hi. rewrite (table_pa_ext i (p + 1) p) by (intros; apply Hsame; lia). auto.
Qed.

Lemma level_mut_at levels i l :
  levels !! i = Some l -> level_mut (S:=S) (R:=R) levels i = Ret l.
Proof. intros Hl. unfold level_mut. by rewrite Hl. Qed.

(** Down from a table to the page's last-level entry. *)
Lemma descend p fuel s : sp <= p <= ep -> forall k j levels,
  (j + k = d - 1)%nat -> following levels j p p ->
  match lookup_from mem k (table_pa j p) p with
  | None => loop (k + Datatypes.S fuel) levels j (idx d j p) (base_of d j p) s
            = raise on own WalkHole s
  | Some (pa, writable) => exists levels', following levels' (d - 1) p p /\
      loop (k + Datatypes.S fuel) levels j (idx d j p) (base_of d j p) s
      = (s ← visitor (p * APV_PAGE_SIZE) pa writable s;
         next_entry (loop fuel) levels' (d - 1) p (base_of d (d - 1) p) s)
  end.
Proof.
  intros Hp. pose proof M32_val. pose proof M64_val. pose proof entries_range.
  induction k as [|k IH]; intros j levels Hjk Hf; pose proof (f_lt _ _ _ _ Hf) as Hj;
    destruct (following_lookup _ _ _ _ j Hf Hj) as [l Hl];
    cbn [Nat.add walk_loop lookup_from]; rewrite (level_mut_at _ _ _ Hl); cbn [mbind outcome_bind];
    rewrite (current_entry _ _ _ _ _ Hf Hp Hl); cbn [mbind outcome_bind];
    [replace (Z.of_nat 0) with (Z.of_nat (d - 1 - j)) by lia
    |replace (Z.of_nat (Datatypes.S k)) with (Z.of_nat (d - 1 - j)) by lia];
    change (p / ENTRIES ^ Z.of_nat (d - 1 - j)) with (idx d j p);
    set (e := entry_at mem (table_pa j p) (idx d j p mod ENTRIES));
    pose proof (masked_range e (entry_at_range mem _ _)) as Hpa;
    rewrite Hdepth, (sub32_small (Z.of_nat d) 1) by lia;
    (destruct (Z.eqb_spec (Z.land e 0x7fffffff) 0) as [Hz|Hnz]; [by rewrite Hholes|]).
  - replace j with (d - 1)%nat in * by lia.
    rewrite (proj2 (Z.ltb_ge _ _)) by lia.
    rewrite idx_last, shl64_page by (lia || (pose proof page_entries; nia)). by exists levels.
  - rewrite (proj2 (Z.ltb_lt _ _)) by lia.
    set (levels1 := <[j := _]> levels).
    destruct (following_lookup _ _ _ _ (Datatypes.S j) Hf) as [child Hchild]; [lia|].
    assert (levels1 !! Datatypes.S j = Some child) as Hchild1
      by (unfold levels1; by rewrite list_lookup_insert_ne by lia).
    rewrite (level_mut_at _ _ _ Hchild1). cbn [mbind outcome_bind].
    destruct (f_level _ _ _ _ Hf _ child Hchild) as (Hlen & Hend & _ & _ & Hindex).
    rewrite (Hindex ltac:(lia)).
    destruct (read_range_spec (R:=R) read mem Hread (Z.land e 0x7fffffff) child 0 ENTRIES s)
      as (bs & Hread' & Hbs & Hholds); [lia..|done|].
    rewrite Hread'. cbn [mbind outcome_bind].
    pose proof (idx_range d j p).
    rewrite shl64_index by nia.
    change (idx d j p * ENTRIES) with (base_of d (Datatypes.S j) p).
    change (Z.land e 0x7fffffff) with (table_pa (Datatypes.S j) p) in *.
    apply IH; [lia|].
    split; [unfold levels1; by rewrite !length_insert, (f_len _ _ _ _ Hf)|lia| |].
    { intros i Hi. destruct (decide (i = Datatypes.S j)) as [->|Hne]; [done|].
      apply (f_mapped _ _ _ _ Hf). lia. }
    intros i l' Hl'.
    destruct (decide (i = Datatypes.S j)) as [->|Hne].
    { rewrite list_lookup_insert_eq in Hl' by (by eapply lookup_lt_Some). injection Hl' as <-.
      split_and!; [done|done|lia| |lia]. intros _. unfold lo, hi.
      replace (ENTRIES - 1) with (0 + ENTRIES - 1) by lia. done. }
    rewrite list_lookup_insert_ne in Hl' by done. unfold levels1 in Hl'.
    destruct (decide (i = j)) as [->|Hne'].
    { rewrite list_lookup_insert_eq in Hl' by (by eapply lookup_lt_Some). injection Hl' as <-.
      destruct (f_level _ _ _ _ Hf _ l Hl) as (Hlenj & Hendj & _ & Hh & _).
      split_and!; [done|done|done| |lia]. intros _. exact (Hh (Nat.le_refl j)). }
    rewrite list_lookup_insert_ne in Hl' by done.
    destruct (f_level _ _ _ _ Hf i l' Hl') as (? & ? & Hup & Hh & Hdeep).
    split_and!; [done|done| | |]; intros Hi; [apply Hup|apply Hh|apply Hdeep]; lia.
Qed.

(** A page looked up from the root, or from a table on the way to it. *)
Lemma lookup_on_way p levels q j :
  following levels j p q ->
  lookup_from mem (d - 1) root_page p = lookup_from mem (d - 1 - j) (table_pa j p) p.
Proof.
  intros Hf. pose proof (f_lt _ _ _ _ Hf) as Hj. pose proof (f_mapped _ _ _ _ Hf) as Hm. clear Hf.
  induction j as [|j IH]; [by rewrite Nat.sub_0_r|].
  rewrite IH by (lia || (intros; apply Hm; lia)).
  replace (d - 1 - j)%nat with (Datatypes.S (d - 1 - Datatypes.S j)) by lia. cbn [lookup_from].
  replace (Z.of_nat (Datatypes.S (d - 1 - Datatypes.S j))) with (Z.of_nat (d - 1 - j)) by lia.
  change (p / ENTRIES ^ Z.of_nat (d - 1 - j)) with (idx d j p).
  change (Z.land (entry_at mem (table_pa j p) (idx d j p mod ENTRIES)) 0x7fffffff)
    with (table_pa (Datatypes.S j) p).
  by rewrite (proj2 (Z.eqb_neq _ 0)) by (apply Hm; lia).
Qed.

(** The loop, from any level on the way to a page. *)
Lemma loop_visits n : forall fuel levels j p s,
  following levels j p p -> sp <= p -> p + Z.of_nat n = ep + 1 -> (0 < n)%nat ->
  (n * d <= fuel)%nat ->
  loop fuel levels j (idx d j p) (base_of d j p) s
  = visit_each mem on own visitor d root_page n p s.
Proof.
  induction n as [|n IH]; intros fuel levels j p s Hf Hp Hn Hn0 Hfuel; [lia|].
  pose proof (f_lt _ _ _ _ Hf) as Hj. cbn [visit_each].
  replace (pred d) with (d - 1)%nat by lia. rewrite (lookup_on_way _ _ _ _ Hf).
  pose proof (descend p (fuel - (d - 1 - j) - 1) s ltac:(lia) (d - 1 - j) j levels ltac:(lia) Hf)
    as Hdown.
  replace (d - 1 - j + Datatypes.S (fuel - (d - 1 - j) - 1))%nat with fuel in Hdown by nia.
  destruct (lookup_from mem (d - 1 - j) (table_pa j p) p) as [[pa writable]|]; [|done].
  destruct Hdown as (levels' & Hf' & ->). destruct (visitor _ _ _ s) as [s'|e|e]; [|done..].
  cbn [mbind outcome_bind].
  pose proof (next_page (loop (fuel - (d - 1 - j) - 1)) levels' p s' Hf' ltac:(lia)) as Hnext.
  destruct (Z.eqb_spec p ep) as [->|Hne].
  { rewrite Hnext. by replace n with 0%nat by lia. }
  destruct Hnext as (levels2 & j2 & Hf2 & ->). apply IH; [done|lia|lia|lia|nia].
Qed.

(** The levels made for the range, the root's entries for it read. *)
Lemma make_levels_following :
  sp <= ep -> exists root_level rest,
    make_levels w sp ep = root_level :: rest /\ length (entries root_level) = Z.to_nat APV_PAGE_SIZE /\
    index root_level = idx d 0 sp /\ end_ root_level = idx d 0 ep /\
    (forall bs, length bs = Z.to_nat APV_PAGE_SIZE ->
      holds (S:=S) (R:=R) mem (with_entries root_level bs) root_page (idx d 0 sp) (idx d 0 ep) ->
      following (with_entries root_level bs :: rest) 0 sp sp).
Proof.
  intros Hse. pose proof M32_val. pose proof index_bits as [_ Hb].
  set (mk i := MkLevel (replicate (Z.to_nat APV_PAGE_SIZE) x00) (idx d i sp) (idx d i ep) 0).
  assert (make_levels w sp ep = map mk (seq 0 d)) as ->.
  { unfold make_levels. rewrite Hdepth, Nat2Z.id. apply map_ext_in. intros i Hi. apply in_seq in Hi.
    assert (forall p, 0 <= p < M32 ->
      Num.low_u32 (shr64 p (mul32 INDEX_BITS (sub32 (sub32 (Z.of_nat d) 1) (Z.of_nat i)))) = idx d i p)
      as Hidx; [|unfold mk; by rewrite !Hidx by lia].
    intros p Hp. rewrite (sub32_small (Z.of_nat d) 1), (sub32_small (Z.of_nat d - 1)) by lia.
    assert (0 <= INDEX_BITS * (Z.of_nat d - 1 - Z.of_nat i) <= 12 * 4) as Hk
      by (split; [apply Z.mul_nonneg_nonneg|apply Z.mul_le_mono_nonneg]; lia).
    unfold mul32. rewrite (w32_small (INDEX_BITS * _)) by lia.
    unfold shr64. rewrite (Z.mod_small _ 64) by lia.
    rewrite Z.shiftr_div_pow2 by lia. rewrite Z.pow_mul_r, <- entries_pow by lia.
    replace (Z.of_nat d - 1 - Z.of_nat i) with (Z.of_nat (d - 1 - i)) by lia.
    change (p / ENTRIES ^ Z.of_nat (d - 1 - i)) with (idx d i p).
    unfold Num.low_u32. apply w32_small. pose proof (idx_range d i p). lia. }
  assert (seq 0 d = 0%nat :: seq 1 (d - 1)) as ->
    by (destruct d as [|d']; [lia|cbn [seq]; by rewrite Nat.sub_succ, Nat.sub_0_r]).
  cbn [map].
  exists (mk 0%nat), (map mk (seq 1 (d - 1))). split; [done|].
  split; [apply length_replicate|]. split; [done|]. split; [done|].
  intros bs Hbs Hh. split; [cbn [length]; rewrite length_map, length_seq; lia|lia| |].
  { intros i Hi. replace i with 0%nat by lia. cbn [table_pa]. lia. }
  intros [|i] l Hl.
  { injection Hl as <-. split_and!; [done|done|lia|done|lia]. }
  change ((mk <$> seq 1 (d - 1)) !! i = Some l) in Hl. rewrite list_lookup_fmap in Hl.
  apply fmap_Some in Hl as (k & Hk & ->). apply lookup_seq in Hk as [-> _].
  split_and!; [apply length_replicate|done|lia|lia|done].
Qed.
End Follow.

(** ** The walk of a range *)

(** C6: over tables that do not change under it, a walk of a page-aligned range of up to five
    levels' worth of pages visits each page once and in address order, with the page
    number and writable bit an independent look-up from the root finds, and raises at
    the first hole; the root read, the re-reads of the child tables, the way up and
    down the levels and the stale indices amount to the look-ups. *)
Theorem walk_is_lookup {target : Target} {S R : Type} (on : OnFault) (own : RaiseKind -> R)
    (read : Z -> list byte -> outcome R mdeath (list byte)) (mem : GuestPtr.memory)
    (visitor : Z -> Z -> Z -> S -> outcome (R * S) mdeath S)
    (depth : nat) (root start pages : Z) (s : S) :
  (forall a dst, read a dst = Ret (GuestPtr.bytes_at mem a (length dst))) ->
  (1 <= depth <= 5)%nat -> 0 < root < M32 -> 0 <= start -> start mod APV_PAGE_SIZE = 0 ->
  0 < pages -> start / APV_PAGE_SIZE + pages <= M32 ->
  start / APV_PAGE_SIZE + pages <= ENTRIES ^ Z.of_nat depth ->
  visit_pages_in_range on own read visitor (new root (Z.of_nat depth) false)
    start (pages * APV_PAGE_SIZE) s
  = visit_each mem on own visitor depth root (Z.to_nat pages) (start / APV_PAGE_SIZE) s.
Proof.
  intros Hread Hd Hroot Hstart Halign Hpages Hmax Hfit.
  pose proof M32_val. pose proof M64_val. pose proof page_entries. pose proof entries_range.
  set (sp := start / APV_PAGE_SIZE) in *. set (ep := sp + pages - 1).
  assert (start = sp * APV_PAGE_SIZE) as Hs by (unfold sp; rewrite Z.mod_eq in Halign by lia; lia).
  assert (0 <= sp) as Hsp by nia.
  unfold visit_pages_in_range. rewrite !land_page_mask by nia. rewrite Halign.
  rewrite Z.mod_mul by lia. rewrite (proj2 (Z.eqb_neq (pages * APV_PAGE_SIZE) 0)) by nia.
  cbn [Z.eqb negb]. unfold overflowing_add64.
  rewrite sub64_small by nia. rewrite (proj2 (Z.leb_gt M64 _)) by nia. rewrite add64_small by nia.
  rewrite !shr64_page. fold sp.
  assert ((start + (pages * APV_PAGE_SIZE - 1)) / APV_PAGE_SIZE = ep) as ->.
  { symmetry. apply (Z.div_unique_pos _ _ _ (APV_PAGE_SIZE - 1)); [lia|]. rewrite Hs.
    unfold ep. ring. }
  set (w := new root (Z.of_nat depth) false).
  destruct (make_levels_following (S:=S) (R:=R) mem w depth root sp ep) as
    (root_level & rest & -> & Hlen & -> & -> & Hfollow); try done; try (unfold ep; lia).
  assert (Num.low_u32 (PageTable.root w / APV_PAGE_SIZE) = root) as ->.
  { cbn [PageTable.root w new]. rewrite shl64_page by nia.
    rewrite Z.div_mul by lia. unfold Num.low_u32. apply w32_small. lia. }
  pose proof (idx_mono depth 0 sp ep). pose proof (idx_range depth 0 sp).
  pose proof (idx_0_small depth ep). pose proof (idx_range depth 0 ep).
  rewrite sub64_small, add64_small by (rewrite ?sub64_small; unfold ep in *; lia).
  destruct (read_range_spec (R:=R) read mem Hread root root_level (idx depth 0 sp)
    (idx depth 0 ep - idx depth 0 sp + 1) s) as (bs & -> & Hbs & Hh); [unfold ep in *; lia..|done|].
  cbn [mbind outcome_bind negb].
  replace (idx depth 0 sp + (idx depth 0 ep - idx depth 0 sp + 1) - 1) with (idx depth 0 ep) in Hh by lia.
  apply (loop_visits on own read mem Hread visitor w depth root sp ep) with (j := 0%nat);
    try done; unfold ep in *; try lia; [by apply Hfollow|cbn; nia].
Qed.

(** Two pages through two levels of tables whose every entry is page 0x01010101. *)
Lemma walk_is_lookup_witness :
  let mem : GuestPtr.memory := fun _ => x01 in
  visit_pages_in_range (target := AArch64) (R := RaiseKind) Return (fun k => k)
    (fun a dst => Ret (GuestPtr.bytes_at mem a (length dst)))
    (fun a pa writable visits => Ret (visits ++ [(a, pa, writable)]))
    (new (target := AArch64) 5 2 false) 0x4000 (2 * 0x4000) []
  = Ret [(0x4000, 0x01010101, 0); (0x8000, 0x01010101, 0)].
Proof.
  intros mem. etransitivity.
  - exact (walk_is_lookup (target := AArch64) Return (fun k => k) _ mem _ 2 5 0x4000 2 []
      (fun a dst => eq_refl) ltac:(lia) ltac:(done) ltac:(done) eq_refl ltac:(done)
      ltac:(done) ltac:(done)).
  - reflexivity.
Defined.
End PageTable.
