(* ===== verification/Stamps.v ===== *)
(** * Stamps: the stamp queue (src/crates/reims-vgpu-core/src/fifo/stamps.rs)

    The FIFO's in-order record of the commands it has started and not yet
    published: 128 slots, two wrapping counts, the pump and the fault latch. The
    sink's calls and the two condition variables' wakes are the events an
    operation emits, in order; a push that waits for room is [None], a drain that
    waits says so. [Spec] is the queue without the ring: a list of pending
    stamps; [step_refines] shows the ring implements it. The diagnostic
    [describe_pending] is not modelled. *)

From S2P Require Import Prelude Num FifoKinds.

Module Stamps.
Import FifoDeath.

Definition STAMP_QUEUE_CAPACITY : Z := 128.
Definition NO_FAULT : Z := M32 - 1.

(** ** One slot *)

Record PendingStamp := MkPendingStamp {
  stamp_value : Z;
  command_id : Z;
  flags : Z;
}.

Definition default_stamp : PendingStamp := MkPendingStamp 0 0 0.

Definition signaled (p : PendingStamp) : bool := negb (Z.land (flags p) 1 =? 0).
Definition faulted (p : PendingStamp) : bool := negb (Z.land (flags p) 2 =? 0).
Definition offset (p : PendingStamp) : Z := shr32 (flags p) 2.

Definition with_flags (p : PendingStamp) (f : Z) : PendingStamp :=
  MkPendingStamp (stamp_value p) (command_id p) f.
Definition set_signaled (p : PendingStamp) (v : bool) : PendingStamp :=
  with_flags p (Z.lor (Z.land (flags p) (not32 1)) (Z.b2z v)).
Definition set_faulted (p : PendingStamp) (v : bool) : PendingStamp :=
  with_flags p (Z.lor (Z.land (flags p) (not32 2)) (shl32 (Z.b2z v) 1)).
Definition set_offset (p : PendingStamp) (v : Z) : PendingStamp :=
  with_flags p (Z.lor (Z.land (flags p) 3) (shl32 v 2)).

(** ** The queue's state, under its lock *)

Record QueueState := MkQueueState {
  slots : list PendingStamp;
  write_count : Z;
  complete_count : Z;
  latched : bool;
  quiesced : bool;
}.

(** What an operation does outside the state: the sink's three calls and the
    wakes of [room] and [drained]. *)
Inductive Event : Type :=
| Signal (value : Z)
| Fault (fault_offset : Z)
| HeadNotFaulted
| WakeRoom
| WakeDrained.

Definition new : QueueState :=
  MkQueueState (repeat default_stamp 128) 0 0 false false.

Definition pending_count (st : QueueState) : Z :=
  sub32 (write_count st) (complete_count st).

Definition slot (st : QueueState) (index : Z) : PendingStamp :=
  default default_stamp
    (slots st !! Z.to_nat (Num.rem0 index STAMP_QUEUE_CAPACITY)).

(** A write through [slot]. *)
Definition set_slot (st : QueueState) (index : Z) (p : PendingStamp) : QueueState :=
  MkQueueState (<[Z.to_nat (Num.rem0 index STAMP_QUEUE_CAPACITY) := p]> (slots st))
    (write_count st) (complete_count st) (latched st) (quiesced st).

Definition set_write (st : QueueState) (w : Z) : QueueState :=
  MkQueueState (slots st) w (complete_count st) (latched st) (quiesced st).
Definition set_complete (st : QueueState) (c : Z) : QueueState :=
  MkQueueState (slots st) (write_count st) c (latched st) (quiesced st).
Definition set_latched (st : QueueState) (b : bool) : QueueState :=
  MkQueueState (slots st) (write_count st) (complete_count st) b (quiesced st).
Definition set_quiesced (st : QueueState) (b : bool) : QueueState :=
  MkQueueState (slots st) (write_count st) (complete_count st) (latched st) b.

(** ** Push: [None] while 128 are pending; the second component is what
    [last_pending] then holds. *)

Definition push_stamp (st : QueueState) (value command : Z) : option (QueueState * Z) :=
  if pending_count st =? STAMP_QUEUE_CAPACITY then None
  else
    let write := write_count st in
    let st := set_slot st write (MkPendingStamp value command 0) in
    Some (set_write st (add32 write 1), value).

(** ** The scan of a signal or a fault *)

Inductive Found : Type :=
| Nowhere
| At (index : Z).

Fixpoint scan_loop (fuel : nat) (st : QueueState) (value : Z) (at_head : bool)
    (index : Z) : Found * bool :=
  match fuel with
  | O => (Nowhere, at_head)
  | S fuel =>
      if index =? write_count st then (Nowhere, at_head)
      else
        let s := slot st index in
        if negb (stamp_value s =? value) then
          scan_loop fuel st value (if signaled s then at_head else false) (add32 index 1)
        else (At index, at_head)
  end.

Definition scan (st : QueueState) (value : Z) : Found * bool :=
  scan_loop (Z.to_nat (pending_count st)) st value true (complete_count st).

(** ** The pump *)

Fixpoint pump_loop (fuel : nat) (st : QueueState) (pending_count signaled_count value
    fault_offset index : Z) : Z * Z * Z :=
  match fuel with
  | O => (signaled_count, value, fault_offset)
  | S fuel =>
      if signaled_count <? pending_count then
        let pending := slot st index in
        let index := add32 index 1 in
        if negb (signaled pending) && negb (faulted pending) then
          (signaled_count, value, fault_offset)
        else if negb (signaled pending) && negb (quiesced st) then
          (signaled_count, value,
           if latched st then fault_offset else offset pending)
        else
          pump_loop fuel st pending_count (add32 signaled_count 1)
            (stamp_value pending) fault_offset index
      else (signaled_count, value, fault_offset)
  end.

Definition pump (st : QueueState) : QueueState * list Event :=
  let n := pending_count st in
  let '(signaled_count, value, fault_offset) :=
    pump_loop (Z.to_nat n) st n 0 0 NO_FAULT (complete_count st) in
  let '(st, published) :=
    if negb (signaled_count =? 0)
    then (set_complete st (add32 (complete_count st) signaled_count), [Signal value; WakeRoom])
    else (st, []) in
  let '(st, reported) :=
    if negb (fault_offset =? NO_FAULT)
    then (set_latched st true, [Fault fault_offset])
    else (st, []) in
  (st, published ++ reported ++
     (if write_count st =? complete_count st then [WakeDrained] else [])).

(** ** Signal, fault, resume *)

Definition queue_result : Type := outcome Empty_set FifoDeathKind (QueueState * list Event).

Definition signal_stamp (st : QueueState) (value : Z) : queue_result :=
  _ ← fatal_unless (negb (pending_count st =? 0)) SignalNothingPending;
  let '(found, at_head) := scan st value in
  st ← match found with
       | At index =>
           let s := slot st index in
           _ ← fatal_unless (negb (signaled s)) SignalTwice;
           _ ← fatal_unless (negb (faulted s)) SignalFaulted;
           Ret (set_slot st index (set_signaled s true))
       | Nowhere => Ret st
       end;
  Ret (if (at_head : bool) then pump st else (st, [])).

Definition fault_stamp (st : QueueState) (value off : Z) : queue_result :=
  _ ← fatal_unless (negb (pending_count st =? 0)) FaultNothingPending;
  _ ← fatal_unless (off <? 0x80000000) FaultOffsetRange;
  let '(found, at_head) := scan st value in
  st ← match found with
       | At index =>
           let s := slot st index in
           _ ← fatal_unless (negb (signaled s)) FaultSignalled;
           _ ← fatal_unless (negb (faulted s)) FaultTwice;
           Ret (set_slot st index (set_offset (set_faulted s true) off))
       | Nowhere => Ret st
       end;
  Ret (if (at_head : bool) then pump st else (st, [])).

Definition resume_from_fault (st : QueueState) : QueueState * list Event :=
  let complete := complete_count st in
  let s := slot st complete in
  let '(st, logged) :=
    if faulted s
    then (set_latched (set_slot st complete (set_signaled (set_faulted s false) true)) false, [])
    else (st, [HeadNotFaulted]) in
  let '(st, evs) := pump st in
  (st, logged ++ evs).

(** ** Quiescing and draining *)

Definition quiesce (st : QueueState) : QueueState * list Event :=
  pump (set_quiesced st true).

Definition clear_quiesced (st : QueueState) : QueueState := set_quiesced st false.

(** The last component says whether the drain returns now or waits. *)
Definition drain (st : QueueState) : outcome Empty_set FifoDeathKind (QueueState * list Event * bool) :=
  _ ← fatal_unless (quiesced st) QueueDrainUnquiesced;
  let '(st, evs) := pump st in
  Ret (st, evs, write_count st =? complete_count st).

(** ** Steps: the operations the FIFO and its clients run, one under the lock at
    a time *)

Inductive Op : Type :=
| OpPush (value command : Z)
| OpSignal (value : Z)
| OpFault (value off : Z)
| OpResume
| OpQuiesce
| OpClearQuiesced
| OpDrain.

Inductive step : QueueState -> Op -> list Event -> QueueState -> Prop :=
| step_push st v c st' last :
    push_stamp st v c = Some (st', last) -> step st (OpPush v c) [] st'
| step_signal st v st' evs :
    signal_stamp st v = Ret (st', evs) -> step st (OpSignal v) evs st'
| step_fault st v off st' evs :
    fault_stamp st v off = Ret (st', evs) -> step st (OpFault v off) evs st'
| step_resume st st' evs :
    resume_from_fault st = (st', evs) -> step st OpResume evs st'
| step_quiesce st st' evs :
    quiesce st = (st', evs) -> step st OpQuiesce evs st'
| step_clear st :
    step st OpClearQuiesced [] (clear_quiesced st)
| step_drain st st' evs returned :
    drain st = Ret (st', evs, returned) -> step st OpDrain evs st'.

Inductive run : QueueState -> list Op -> list Event -> QueueState -> Prop :=
| run_nil st : run st [] [] st
| run_snoc st ops evs st1 o evs' st2 :
    run st ops evs st1 -> step st1 o evs' st2 -> run st (ops ++ [o]) (evs ++ evs') st2.

(** The step an operation makes, when it makes one. *)
Definition exec (st : QueueState) (o : Op) : option (QueueState * list Event) :=
  let of_result (r : queue_result) := match r with Ret x => Some x | _ => None end in
  match o with
  | OpPush v c => option_map (fun r => (fst r, [])) (push_stamp st v c)
  | OpSignal v => of_result (signal_stamp st v)
  | OpFault v off => of_result (fault_stamp st v off)
  | OpResume => Some (resume_from_fault st)
  | OpQuiesce => Some (quiesce st)
  | OpClearQuiesced => Some (clear_quiesced st, [])
  | OpDrain => match drain st with Ret (st, evs, _) => Some (st, evs) | _ => None end
  end.

Definition exec_all (ops : list Op) (st : QueueState) : option (QueueState * list Event) :=
  foldl (fun acc o =>
    '(st, evs) ← acc; '(st', evs') ← exec st o; Some (st', evs ++ evs')) (Some (st, [])) ops.

(** ** The pending window and the invariant *)

Fixpoint window (st : QueueState) (c : Z) (n : nat) : list PendingStamp :=
  match n with
  | O => []
  | S n => slot st c :: window st (add32 c 1) n
  end.

Definition pending (st : QueueState) : list PendingStamp :=
  window st (complete_count st) (Z.to_nat (pending_count st)).

(** A slot's flags are a word, and it is not both signalled and faulted. *)
Definition slot_ok (p : PendingStamp) : Prop :=
  u32 (flags p) /\ signaled p && faulted p = false.

Record wf (st : QueueState) : Prop := {
  wf_slots : length (slots st) = 128%nat;
  wf_slot : Forall slot_ok (slots st);
  wf_write : u32 (write_count st);
  wf_complete : u32 (complete_count st);
  wf_pending : pending_count st <= STAMP_QUEUE_CAPACITY;
}.

(** ** The specification: a queue of pending stamps *)

Module Spec.

Record Queue := MkQueue { items : list PendingStamp; latch : bool; quiet : bool }.

(** A slot the pump passes: signalled, or faulted while quiesced. *)
Definition done (quiet : bool) (p : PendingStamp) : bool :=
  signaled p || (faulted p && quiet).

(** The contiguous completed prefix and the rest. *)
Fixpoint split_done (quiet : bool) (l : list PendingStamp)
    : list PendingStamp * list PendingStamp :=
  match l with
  | [] => ([], [])
  | p :: l =>
      if done quiet p then let '(a, b) := split_done quiet l in (p :: a, b)
      else ([], p :: l)
  end.

(** The fault a pump reports: that of a faulted, uncompleted head, unless the
    latch is set. *)
Definition report (latch : bool) (rest : list PendingStamp) : option Z :=
  match rest with
  | p :: _ => if faulted p && negb latch then Some (offset p) else None
  | [] => None
  end.

Definition published (l : list PendingStamp) : list Event :=
  match list.last l with
  | Some p => [Signal (stamp_value p); WakeRoom]
  | None => []
  end.

Definition spec_pump (q : Queue) : Queue * list Event :=
  let '(finished, rest) := split_done (quiet q) (items q) in
  let r := report (latch q) rest in
  (MkQueue rest (match r with Some _ => true | None => latch q end) (quiet q),
   published finished ++
   match r with Some off => [Fault off] | None => [] end ++
   match rest with [] => [WakeDrained] | _ => [] end).

(** Marking the first stamp of a value; the flag says whether every stamp
    before it (every stamp, when none has the value) is signalled. *)
Fixpoint mark (value : Z) (f : PendingStamp -> PendingStamp) (l : list PendingStamp)
    : list PendingStamp * bool :=
  match l with
  | [] => ([], true)
  | p :: l =>
      if stamp_value p =? value then (f p :: l, true)
      else let '(l', b) := mark value f l in (p :: l', signaled p && b)
  end.

Definition mark_and_pump (value : Z) (f : PendingStamp -> PendingStamp) (q : Queue)
    : Queue * list Event :=
  let '(l, at_head) := mark value f (items q) in
  let q := MkQueue l (latch q) (quiet q) in
  if at_head then spec_pump q else (q, []).

(** A resume: the head counts as signalled and the latch clears. With nothing
    pending, [stale] says whether the slot the head would use holds a fault. *)
Definition resume (stale : bool) (q : Queue) : Queue * list Event :=
  match items q with
  | p :: l =>
      if faulted p then
        spec_pump (MkQueue (set_signaled (set_faulted p false) true :: l) false (quiet q))
      else let '(q, evs) := spec_pump q in (q, HeadNotFaulted :: evs)
  | [] =>
      if stale then spec_pump (MkQueue [] false (quiet q))
      else let '(q, evs) := spec_pump q in (q, HeadNotFaulted :: evs)
  end.

Inductive spec_step : Queue -> Op -> list Event -> Queue -> Prop :=
| spec_push l b q v c :
    (length l < 128)%nat ->
    spec_step (MkQueue l b q) (OpPush v c) [] (MkQueue (l ++ [MkPendingStamp v c 0]) b q)
| spec_signal q v q' evs :
    items q <> [] ->
    mark_and_pump v (fun p => set_signaled p true) q = (q', evs) ->
    spec_step q (OpSignal v) evs q'
| spec_fault q v off q' evs :
    items q <> [] -> off < 2 ^ 31 ->
    mark_and_pump v (fun p => set_offset (set_faulted p true) off) q = (q', evs) ->
    spec_step q (OpFault v off) evs q'
| spec_resume stale q q' evs :
    resume stale q = (q', evs) -> spec_step q OpResume evs q'
| spec_quiesce l b q q' evs :
    spec_pump (MkQueue l b true) = (q', evs) -> spec_step (MkQueue l b q) OpQuiesce evs q'
| spec_clear l b q :
    spec_step (MkQueue l b q) OpClearQuiesced [] (MkQueue l b false)
| spec_drain l b q' evs :
    spec_pump (MkQueue l b true) = (q', evs) -> spec_step (MkQueue l b true) OpDrain evs q'.

End Spec.

(** The queue a state implements. *)
Definition abs (st : QueueState) : Spec.Queue :=
  Spec.MkQueue (pending st) (latched st) (quiesced st).

(** ** The flags word *)

Lemma land_bit x k : 0 <= k -> negb (Z.land x (2 ^ k) =? 0) = Z.testbit x k.
Proof.
  intros Hk. destruct (Z.testbit x k) eqn:Hb.
  - apply negb_true_iff, Z.eqb_neq. intros H0.
    assert (Z.testbit (Z.land x (2 ^ k)) k = false) as Hf by (by rewrite H0, Z.bits_0).
    by rewrite Z.land_spec, Hb, Z.pow2_bits_true in Hf.
  - apply negb_false_iff, Z.eqb_eq, Z.bits_inj'. intros i Hi.
    rewrite Z.land_spec, Z.pow2_bits_eqb, Z.bits_0 by done.
    destruct (Z.eqb_spec k i) as [->|]; [by rewrite Hb|apply andb_false_r].
Qed.

Lemma signaled_bit p : signaled p = Z.testbit (flags p) 0.
Proof. exact (land_bit (flags p) 0 ltac:(lia)). Qed.
Lemma faulted_bit p : faulted p = Z.testbit (flags p) 1.
Proof. exact (land_bit (flags p) 1 ltac:(lia)). Qed.

Lemma b2z_u32 b : u32 (Z.b2z b).
Proof. by destruct b. Qed.

Lemma shl32_bit_low x n i : 0 <= i < n -> n < 32 -> Z.testbit (shl32 x n) i = false.
Proof.
  intros Hi Hn. unfold shl32, w32, M32. rewrite Z.mod_pow2_bits_low by lia.
  rewrite (Z.mod_small n 32) by lia. apply Z.shiftl_spec_low. lia.
Qed.

Section Flags.
Variable p : PendingStamp.

Lemma signaled_set_signaled v : signaled (set_signaled p v) = v.
Proof.
  rewrite signaled_bit. cbn [set_signaled with_flags flags].
  rewrite Z.lor_spec, Z.land_spec. change (Z.testbit (not32 1) 0) with false.
  rewrite andb_false_r. by destruct v.
Qed.

Lemma faulted_set_signaled v : faulted (set_signaled p v) = faulted p.
Proof.
  rewrite !faulted_bit. cbn [set_signaled with_flags flags].
  rewrite Z.lor_spec, Z.land_spec. change (Z.testbit (not32 1) 1) with true.
  destruct v; cbn; by rewrite andb_true_r, orb_false_r.
Qed.

Lemma faulted_set_faulted v : faulted (set_faulted p v) = v.
Proof.
  rewrite faulted_bit. cbn [set_faulted with_flags flags].
  rewrite Z.lor_spec, Z.land_spec. change (Z.testbit (not32 2) 1) with false.
  rewrite andb_false_r. by destruct v.
Qed.

Lemma signaled_set_faulted v : signaled (set_faulted p v) = signaled p.
Proof.
  rewrite !signaled_bit. cbn [set_faulted with_flags flags].
  rewrite Z.lor_spec, Z.land_spec. change (Z.testbit (not32 2) 0) with true.
  destruct v; cbn; by rewrite andb_true_r, orb_false_r.
Qed.

Lemma signaled_set_offset v : signaled (set_offset p v) = signaled p.
Proof.
  rewrite !signaled_bit. cbn [set_offset with_flags flags].
  rewrite Z.lor_spec, Z.land_spec, shl32_bit_low by lia.
  change (Z.testbit 3 0) with true. by rewrite andb_true_r, orb_false_r.
Qed.

Lemma faulted_set_offset v : faulted (set_offset p v) = faulted p.
Proof.
  rewrite !faulted_bit. cbn [set_offset with_flags flags].
  rewrite Z.lor_spec, Z.land_spec, shl32_bit_low by lia.
  change (Z.testbit 3 1) with true. by rewrite andb_true_r, orb_false_r.
Qed.

(** The offset field keeps the low 30 bits. *)
Lemma offset_set_offset v : offset (set_offset p v) = v mod 2 ^ 30.
Proof.
  unfold offset, shr32. cbn [set_offset with_flags flags].
  change (2 mod 32) with 2. rewrite Z.shiftr_lor.
  assert (Z.shiftr (Z.land (flags p) 3) 2 = 0) as ->.
  { change 3 with (2 ^ 2 - 1). rewrite land_mask by lia.
    rewrite Z.shiftr_div_pow2 by lia. by apply Z.div_small, Z.mod_pos_bound. }
  rewrite Z.lor_0_l. unfold shl32, w32, M32. change (2 mod 32) with 2.
  apply Z.bits_inj'. intros i Hi. rewrite Z.shiftr_spec by done.
  destruct (Z.lt_ge_cases i 30).
  - rewrite !Z.mod_pow2_bits_low by lia. rewrite Z.shiftl_spec by lia. f_equal. lia.
  - by rewrite !Z.mod_pow2_bits_high by lia.
Qed.

Lemma flags_set_signaled v : u32 (flags p) -> u32 (flags (set_signaled p v)).
Proof. intros. apply lor_u32; [(by apply land_u32)|apply b2z_u32]. Qed.
Lemma flags_set_faulted v : u32 (flags p) -> u32 (flags (set_faulted p v)).
Proof. intros. apply lor_u32; [(by apply land_u32)|apply w32_range]. Qed.
Lemma flags_set_offset v : u32 (flags p) -> u32 (flags (set_offset p v)).
Proof. intros. apply lor_u32; [(by apply land_u32)|apply w32_range]. Qed.

Lemma offset_bound : u32 (flags p) -> 0 <= offset p < 2 ^ 30.
Proof.
  intros H. unfold offset, shr32. change (2 mod 32) with 2.
  rewrite Z.shiftr_div_pow2 by lia. rewrite M32_val in H.
  Z.to_euclidean_division_equations. lia.
Qed.
End Flags.

#[export] Hint Rewrite signaled_set_signaled faulted_set_signaled faulted_set_faulted
  signaled_set_faulted signaled_set_offset faulted_set_offset : stamps.
#[export] Hint Resolve flags_set_signaled flags_set_faulted flags_set_offset : stamps.

Lemma slot_ok_signaled p :
  slot_ok p -> signaled p = false -> faulted p = false -> slot_ok (set_signaled p true).
Proof.
  intros [Hf _] _ Hn. split; [(auto with stamps)|]. autorewrite with stamps. by rewrite Hn.
Qed.

Lemma slot_ok_resumed p : slot_ok p -> slot_ok (set_signaled (set_faulted p false) true).
Proof. intros [Hf _]. split; [(auto with stamps)|]. by autorewrite with stamps. Qed.

Lemma slot_ok_faulted off p :
  slot_ok p -> signaled p = false -> faulted p = false ->
  slot_ok (set_offset (set_faulted p true) off).
Proof.
  intros [Hf _] Hn _. split; [(auto with stamps)|]. autorewrite with stamps. by rewrite Hn.
Qed.

(** ** The ring: indices are slots modulo 128 *)

Definition cell (index : Z) : nat := Z.to_nat (Num.rem0 index STAMP_QUEUE_CAPACITY).

Lemma cell_lt index : (cell index < 128)%nat.
Proof.
  unfold cell, Num.rem0, STAMP_QUEUE_CAPACITY. cbn [Z.eqb].
  pose proof (Z.mod_pos_bound index 128 ltac:(lia)). lia.
Qed.

Lemma cell_inj c i j :
  0 <= i < 128 -> 0 <= j < 128 -> cell (add32 c i) = cell (add32 c j) -> i = j.
Proof.
  intros Hi Hj. unfold cell, Num.rem0, STAMP_QUEUE_CAPACITY. cbn [Z.eqb]. intros H.
  apply Z2Nat.inj in H; [|apply Z.mod_pos_bound; lia..].
  word_unfold. Z.to_euclidean_division_equations. lia.
Qed.

Lemma add32_0 c : u32 c -> add32 c 0 = c.
Proof. intros. rewrite add32_small; lia. Qed.

Lemma slot_set_slot_same st a p :
  length (slots st) = 128%nat -> slot (set_slot st a p) a = p.
Proof.
  intros Hl. unfold slot, set_slot. cbn [slots].
  rewrite list_lookup_insert_eq; [done|]. rewrite Hl. apply cell_lt.
Qed.

Lemma slot_set_slot_other st a b p :
  cell a <> cell b -> slot (set_slot st a p) b = slot st b.
Proof.
  intros Hn. unfold slot, set_slot. cbn [slots]. by rewrite list_lookup_insert_ne.
Qed.

Lemma slot_in_slots st a :
  length (slots st) = 128%nat -> Forall slot_ok (slots st) -> slot_ok (slot st a).
Proof.
  intros Hl Ha. destruct (lookup_lt_is_Some_2 (slots st) (cell a)) as [p Hp];
    [rewrite Hl; apply cell_lt|].
  unfold slot. fold (cell a). rewrite Hp. cbn.
  by apply (proj1 (list.Forall_lookup _ _) Ha (cell a)).
Qed.

(** Windows depend on the slots alone. *)
Lemma window_ext st st' c n : slots st = slots st' -> window st c n = window st' c n.
Proof.
  intros Hs. revert c. induction n as [|n IH]; intros c; [done|]. cbn [window].
  rewrite IH. unfold slot. by rewrite Hs.
Qed.

Lemma length_window st c n : length (window st c n) = n.
Proof. revert c. induction n as [|n IH]; intros c; cbn; [done|by rewrite IH]. Qed.

Lemma window_lookup st c n i :
  u32 c -> (i < n)%nat -> window st c n !! i = Some (slot st (add32 c (Z.of_nat i))).
Proof.
  revert c i. induction n as [|n IH]; intros c i Hc Hi; [lia|].
  destruct i as [|i]; cbn [window].
  - change (Z.of_nat 0) with 0. by rewrite add32_0.
  - cbn [lookup list_lookup]. fold (lookup (M:=list PendingStamp) i).
    etransitivity; [apply IH; [auto with words|lia]|].
    rewrite add32_add. by replace (1 + Z.of_nat i) with (Z.of_nat (S i)) by lia.
Qed.

(** A write to the slot after a window extends it; one inside it replaces. *)
Lemma window_snoc st c n :
  u32 c -> window st c (S n) = window st c n ++ [slot st (add32 c (Z.of_nat n))].
Proof.
  revert c. induction n as [|n IH]; intros c Hc.
  - cbn. by rewrite add32_0.
  - change (window st c (S (S n))) with (slot st c :: window st (add32 c 1) (S n)).
    rewrite IH by auto with words. cbn [window app]. rewrite add32_add.
    by replace (1 + Z.of_nat n) with (Z.of_nat (S n)) by lia.
Qed.

Lemma window_drop st c n k :
  u32 c -> drop k (window st c n) = window st (add32 c (Z.of_nat k)) (n - k).
Proof.
  revert c n. induction k as [|k IH]; intros c n Hc.
  - cbn. by rewrite drop_0, add32_0, Nat.sub_0_r.
  - destruct n as [|n]; [done|]. cbn [window]. rewrite skipn_cons.
    rewrite IH by auto with words. rewrite add32_add.
    by replace (1 + Z.of_nat k) with (Z.of_nat (S k)) by lia.
Qed.

Lemma window_set_other st c n j p :
  u32 c -> (n <= Z.to_nat j)%nat -> 0 <= j < 128 ->
  window (set_slot st (add32 c j) p) c n = window st c n.
Proof.
  intros Hc Hn Hj. apply list_eq. intros i.
  destruct (Nat.lt_ge_cases i n).
  - rewrite !window_lookup by done. f_equal. apply slot_set_slot_other.
    intros He. apply cell_inj in He; lia.
  - rewrite !lookup_ge_None_2; rewrite ?length_window; done.
Qed.

Lemma window_set st c n i p :
  length (slots st) = 128%nat -> u32 c -> (i < n)%nat -> (n <= 128)%nat ->
  window (set_slot st (add32 c (Z.of_nat i)) p) c n = <[i := p]> (window st c n).
Proof.
  intros Hl Hc Hi Hn. apply list_eq. intros j.
  destruct (Nat.lt_ge_cases j n).
  - rewrite window_lookup by done. destruct (decide (i = j)) as [->|Hne].
    + rewrite list_lookup_insert_eq by (rewrite length_window; lia).
      by rewrite slot_set_slot_same.
    + rewrite list_lookup_insert_ne, window_lookup by done. f_equal.
      apply slot_set_slot_other. intros He. apply cell_inj in He; lia.
  - rewrite !lookup_ge_None_2; rewrite ?length_insert, ?length_window; done.
Qed.

Lemma window_slot_ok st c n :
  length (slots st) = 128%nat -> Forall slot_ok (slots st) -> Forall slot_ok (window st c n).
Proof.
  intros Hl Ha. revert c. induction n as [|n IH]; intros c; constructor; [|apply IH].
  by apply slot_in_slots.
Qed.

(** ** Facts of a well-formed queue *)

Section WellFormed.
Variable st : QueueState.
Hypothesis Hwf : wf st.

Lemma pending_range : 0 <= pending_count st <= 128.
Proof.
  pose proof (wf_pending _ Hwf). unfold STAMP_QUEUE_CAPACITY in *.
  pose proof (sub32_range (write_count st) (complete_count st)).
  fold (pending_count st) in *. lia.
Qed.

Lemma length_pending : Z.of_nat (length (pending st)) = pending_count st.
Proof. unfold pending. rewrite length_window. pose proof pending_range. lia. Qed.

Lemma write_of_complete : write_count st = add32 (complete_count st) (pending_count st).
Proof.
  destruct Hwf. unfold pending_count. word_unfold.
  Z.to_euclidean_division_equations. lia.
Qed.

Lemma pending_slot_ok : Forall slot_ok (pending st).
Proof. apply window_slot_ok; apply Hwf. Qed.

Lemma wf_set_slot a p : slot_ok p -> wf (set_slot st a p).
Proof.
  intros Hp. destruct Hwf. split; try done; unfold set_slot; cbn [slots].
  - by rewrite length_insert.
  - by apply Forall_insert.
Qed.

Lemma wf_set_latched b : wf (set_latched st b).
Proof. by destruct Hwf. Qed.
Lemma wf_set_quiesced b : wf (set_quiesced st b).
Proof. by destruct Hwf. Qed.
End WellFormed.
#[export] Hint Resolve wf_set_slot wf_set_latched wf_set_quiesced : stamps.

(** ** The scan finds the first stamp of the value *)

Lemma scan_loop_mark st v f n c ah :
  u32 c -> (n <= 128)%nat -> write_count st = add32 c (Z.of_nat n) ->
  let l := window st c n in
  let '(l', b) := Spec.mark v f l in
  match scan_loop n st v ah c with
  | (At index, h) =>
      h = ah && b /\
      exists i, (i < n)%nat /\ index = add32 c (Z.of_nat i) /\
        l !! i = Some (slot st index) /\ l' = <[i := f (slot st index)]> l /\
        List.find (fun p => stamp_value p =? v) l = Some (slot st index)
  | (Nowhere, h) =>
      h = ah && b /\ l' = l /\ List.find (fun p => stamp_value p =? v) l = None
  end.
Proof.
  revert c ah. induction n as [|n IH]; intros c ah Hc Hn Hw; cbn -[Z.of_nat].
  - by rewrite andb_true_r.
  - destruct (Z.eqb_spec c (write_count st)) as [He|_].
    { rewrite Hw in He. word_unfold. Z.to_euclidean_division_equations. lia. }
    destruct (Z.eqb_spec (stamp_value (slot st c)) v) as [He|He]; cbn [negb].
    + rewrite andb_true_r. split; [done|]. exists O. cbn -[Z.of_nat].
      change (Z.of_nat 0) with 0. rewrite add32_0 by done.
      repeat split; (done || lia).
    + specialize (IH (add32 c 1) (if signaled (slot st c) then ah else false)).
      cbn zeta in IH.
      destruct (Spec.mark v f (window st (add32 c 1) n)) as [l' b].
      rewrite add32_add in IH.
      replace (1 + Z.of_nat n) with (Z.of_nat (S n)) in IH by lia.
      specialize (IH ltac:(auto with words) ltac:(lia) Hw).
      assert (forall b0 : bool, (if b0 then ah else false) && b = ah && (b0 && b)) as Hb
        by (intros []; cbn; by rewrite ?andb_false_r).
      destruct (scan_loop n st v _ (add32 c 1)) as [[|index] h]; rewrite Hb in IH.
      * destruct IH as (-> & -> & ->). done.
      * destruct IH as (-> & i & Hi & Hx & Hv & -> & ->). split; [done|].
        exists (S i). rewrite add32_add in Hx.
        replace (1 + Z.of_nat i) with (Z.of_nat (S i)) in Hx by lia.
        repeat split; (done || lia).
Qed.

(** ** The pump passes the contiguous completed prefix *)

Definition last_value (v : Z) (l : list PendingStamp) : Z :=
  match list.last l with Some p => stamp_value p | None => v end.

Lemma last_value_cons v p l : last_value v (p :: l) = last_value (stamp_value p) l.
Proof.
  unfold last_value. revert p. induction l as [|q l IH]; intros p; [done|].
  change (list.last (p :: q :: l)) with (list.last (q :: l)).
  destruct (list.last (q :: l)) eqn:E; [done|].
  by apply last_None in E.
Qed.

Lemma split_done_app q l : let '(a, b) := Spec.split_done q l in l = a ++ b.
Proof.
  induction l as [|p l IH]; [done|]. cbn [Spec.split_done].
  destruct (Spec.done q p); [|done].
  destruct (Spec.split_done q l) as [a b]. cbn. by rewrite IH.
Qed.

Lemma split_done_prefix q l : Forall (fun p => Spec.done q p = true) (fst (Spec.split_done q l)).
Proof.
  induction l as [|p l IH]; [constructor|]. cbn [Spec.split_done].
  destruct (Spec.done q p) eqn:E; [|constructor].
  destruct (Spec.split_done q l). by constructor.
Qed.

Lemma pump_loop_split st n k c v :
  u32 c -> (n <= 128)%nat -> 0 <= k -> k + Z.of_nat n <= 128 ->
  let '(a, b) := Spec.split_done (quiesced st) (window st c n) in
  pump_loop n st (k + Z.of_nat n) k v NO_FAULT c =
  (k + Z.of_nat (length a), last_value v a,
   match Spec.report (latched st) b with Some off => off | None => NO_FAULT end).
Proof.
  revert c k v. induction n as [|n IH]; intros c k v Hc Hn Hk Hkn; cbn -[Z.of_nat].
  - by rewrite Z.add_0_r.
  - destruct (Z.ltb_spec k (k + Z.of_nat (S n))); [|lia].
    unfold Spec.done.
    specialize (IH (add32 c 1) (k + 1) (stamp_value (slot st c))
      ltac:(auto with words) ltac:(lia) ltac:(lia) ltac:(lia)).
    replace (k + 1 + Z.of_nat n) with (k + Z.of_nat (S n)) in IH by lia.
    rewrite <- (add32_small k 1) in IH by (rewrite M32_val; lia).
    destruct (Spec.split_done (quiesced st) (window st (add32 c 1) n)) as [a b].
    assert ((add32 k 1 + Z.of_nat (length a), last_value (stamp_value (slot st c)) a,
             match Spec.report (latched st) b with Some off => off | None => NO_FAULT end) =
            (k + Z.of_nat (length (slot st c :: a)), last_value v (slot st c :: a),
             match Spec.report (latched st) b with Some off => off | None => NO_FAULT end)) as Hr.
    { rewrite last_value_cons, add32_small by (rewrite M32_val; lia). do 2 f_equal.
      cbn [length]. lia. }
    rewrite Hr in IH.
    destruct (signaled (slot st c)), (faulted (slot st c)) eqn:Ef, (quiesced st),
      (latched st); cbn [negb andb orb Spec.report] in *; try exact IH;
      by rewrite Z.add_0_r, ?Ef.
Qed.

(** Publishing the first [k] pending stamps drops them from the window. *)
Lemma complete_drop st (k : nat) :
  wf st -> (k <= length (pending st))%nat ->
  let st' := set_complete st (add32 (complete_count st) (Z.of_nat k)) in
  wf st' /\ pending st' = drop k (pending st) /\
  pending_count st' = pending_count st - Z.of_nat k.
Proof.
  intros Hwf Hk st'. pose proof (pending_range _ Hwf). pose proof (length_pending _ Hwf).
  assert (pending_count st' = pending_count st - Z.of_nat k) as Hn.
  { unfold pending_count, st'. cbn [set_complete write_count complete_count].
    apply sub32_add. fold (pending_count st). lia. }
  split_and!; [|unfold pending; rewrite Hn|done].
  - destruct Hwf. split; try done; [apply add32_range|].
    rewrite Hn. unfold STAMP_QUEUE_CAPACITY in *. lia.
  - rewrite window_drop by apply Hwf. rewrite (window_ext st' st) by done.
    f_equal. lia.
Qed.

Lemma write_eq_complete st : wf st -> (write_count st =? complete_count st) =
  match pending st with [] => true | _ => false end.
Proof.
  intros Hwf. pose proof (length_pending _ Hwf). pose proof (write_of_complete _ Hwf) as Hw.
  destruct Hwf. destruct (pending st); cbn in *.
  - apply Z.eqb_eq. rewrite Hw, <- H. by apply add32_0.
  - apply Z.eqb_neq. intros He. unfold pending_count in *. rewrite He in H.
    assert (sub32 (complete_count st) (complete_count st) = 0) by
      (unfold sub32; by rewrite Z.sub_diag).
    lia.
Qed.

Lemma pump_refines st :
  wf st -> let '(st', evs) := pump st in wf st' /\ Spec.spec_pump (abs st) = (abs st', evs).
Proof.
  intros Hwf. pose proof (pending_range _ Hwf). pose proof (pending_slot_ok _ Hwf) as Hok.
  unfold pump, Spec.spec_pump. cbn [abs Spec.items Spec.quiet Spec.latch].
  pose proof (pump_loop_split st (Z.to_nat (pending_count st)) 0 (complete_count st) 0
    ltac:(apply Hwf) ltac:(lia) ltac:(lia) ltac:(lia)) as Hloop.
  fold (pending st) in Hloop.
  pose proof (split_done_app (quiesced st) (pending st)) as Happ.
  destruct (Spec.split_done (quiesced st) (pending st)) as [a b].
  rewrite !Z.add_0_l, Z2Nat.id in Hloop by lia. rewrite Hloop.
  rewrite Happ in Hok. apply list.Forall_app in Hok as [_ Hokb].
  assert (match Spec.report (latched st) b with Some off => negb (off =? NO_FAULT) | None => true end
          = true) as Hrep.
  { destruct b as [|p b]; [done|]. cbn [Spec.report].
    apply list.Forall_cons in Hokb as [[Hf _] _].
    destruct (faulted p && negb (latched st)); [|done].
    pose proof (offset_bound p Hf). apply negb_true_iff, Z.eqb_neq.
    unfold NO_FAULT. rewrite M32_val. lia. }
  assert (exists st1, wf st1 /\ pending st1 = b /\ latched st1 = latched st /\
    quiesced st1 = quiesced st /\
    (if negb (Z.of_nat (length a) =? 0)
     then (set_complete st (add32 (complete_count st) (Z.of_nat (length a))),
           [Signal (last_value 0 a); WakeRoom])
     else (st, [])) = (st1, Spec.published a)) as (st1 & Hwf1 & Hp1 & Hl1 & Hq1 & ->).
  { destruct a as [|p a].
    - exists st. by rewrite Happ.
    - destruct (complete_drop st (length (p :: a)) Hwf) as (Hwf1 & Hp & _).
      { rewrite Happ, length_app. lia. }
      eexists. split_and!; [exact Hwf1| |done|done|].
      + rewrite Hp, Happ. by apply drop_app_length'.
      + unfold Spec.published. destruct (list.last (p :: a)) as [q|] eqn:E;
          [|by apply last_None in E].
        unfold last_value. by rewrite E. }
  destruct (Spec.report (latched st) b) as [off|]; cbn [negb].
  - rewrite Hrep. split; [by apply wf_set_latched|].
    rewrite (write_eq_complete (set_latched st1 true)) by by apply wf_set_latched.
    unfold abs. cbn [latched quiesced set_latched].
    assert (pending (set_latched st1 true) = b) as -> by (rewrite <- Hp1; by apply window_ext).
    rewrite Hq1. by destruct b.
  - rewrite Z.eqb_refl. split; [done|].
    rewrite (write_eq_complete st1) by done. unfold abs. rewrite Hp1, Hl1, Hq1. by destruct b.
Qed.

(** ** Marking the first stamp of a value *)

Lemma set_slot_pending st i p :
  wf st -> (i < length (pending st))%nat ->
  pending (set_slot st (add32 (complete_count st) (Z.of_nat i)) p) = <[i := p]> (pending st).
Proof.
  intros Hwf Hi. pose proof (pending_range _ Hwf). pose proof (length_pending _ Hwf).
  unfold pending at 1. apply window_set; [apply Hwf|apply Hwf| |].
  - change (pending_count (set_slot _ _ _)) with (pending_count st). lia.
  - change (pending_count (set_slot _ _ _)) with (pending_count st). lia.
Qed.

(** The tail the signal and the fault share: the mark, with its two deaths,
    then the pump when everything before the mark is signalled. *)
Definition mark_tail (st : QueueState) (value : Z) (f : PendingStamp -> PendingStamp)
    (twice other : FifoDeathKind) : queue_result :=
  let '(found, at_head) := scan st value in
  st ← match found with
       | At index =>
           let s := slot st index in
           _ ← fatal_unless (negb (signaled s)) twice;
           _ ← fatal_unless (negb (faulted s)) other;
           Ret (set_slot st index (f s))
       | Nowhere => Ret st
       end;
  Ret (if (at_head : bool) then pump st else (st, [])).

Lemma mark_tail_spec st v f twice other :
  wf st ->
  (forall p, slot_ok p -> signaled p = false -> faulted p = false -> slot_ok (f p)) ->
  match List.find (fun p => stamp_value p =? v) (pending st) with
  | Some p =>
      if signaled p then mark_tail st v f twice other = Died twice
      else if faulted p then mark_tail st v f twice other = Died other
      else exists st' evs, mark_tail st v f twice other = Ret (st', evs) /\ wf st' /\
             Spec.mark_and_pump v f (abs st) = (abs st', evs)
  | None => exists st' evs, mark_tail st v f twice other = Ret (st', evs) /\ wf st' /\
             Spec.mark_and_pump v f (abs st) = (abs st', evs)
  end.
Proof.
  intros Hwf Hf. pose proof (pending_range _ Hwf). pose proof (length_pending _ Hwf) as Hlen.
  assert (forall st1 (at_head : bool), wf st1 ->
    Spec.mark v f (pending st) = (pending st1, at_head) -> latched st1 = latched st ->
    quiesced st1 = quiesced st ->
    exists st' evs, Ret (if at_head then pump st1 else (st1, [])) = (Ret (st', evs) : queue_result) /\
      wf st' /\ Spec.mark_and_pump v f (abs st) = (abs st', evs)) as Hend.
  { intros st1 h Hwf1 Hm Hl Hq. unfold Spec.mark_and_pump.
    cbn [abs Spec.items Spec.latch Spec.quiet]. rewrite Hm, <- Hl, <- Hq.
    destruct h; [|by exists st1, []]. pose proof (pump_refines st1 Hwf1) as Hp.
    destruct (pump st1) as [st' evs]. destruct Hp as [? ?]. by exists st', evs. }
  unfold mark_tail, scan.
  pose proof (scan_loop_mark st v f (Z.to_nat (pending_count st)) (complete_count st) true
    ltac:(apply Hwf) ltac:(lia)) as Hscan.
  rewrite Z2Nat.id in Hscan by lia. specialize (Hscan (write_of_complete _ Hwf)).
  cbn zeta in Hscan. fold (pending st) in Hscan.
  destruct (Spec.mark v f (pending st)) as [l' b].
  destruct (scan_loop _ _ _ _ _) as [[|index] h].
  - destruct Hscan as (-> & -> & ->). by apply Hend.
  - destruct Hscan as (-> & i & Hi & -> & Hlk & -> & ->).
    set (s := slot st _) in *. cbv zeta.
    destruct (signaled s) eqn:Es; [done|]. destruct (faulted s) eqn:Ef; [done|].
    cbn [negb fatal_unless mbind outcome_bind]. apply Hend; try done.
    + apply wf_set_slot; [done|]. apply Hf; try done. by apply slot_in_slots; apply Hwf.
    + rewrite set_slot_pending by (done || lia). done.
Qed.

Lemma pending_count_0 st : wf st -> (pending_count st =? 0) =
  match pending st with [] => true | _ => false end.
Proof.
  intros Hwf. pose proof (length_pending _ Hwf). destruct (pending st); cbn in *;
    [apply Z.eqb_eq|apply Z.eqb_neq]; lia.
Qed.

(** ** The ring implements the specification *)

Lemma abs_set_quiesced st b :
  abs (set_quiesced st b) = Spec.MkQueue (pending st) (latched st) b.
Proof. unfold abs. f_equal. by apply window_ext. Qed.

Lemma push_refines st v c st' lp :
  wf st -> push_stamp st v c = Some (st', lp) ->
  (length (pending st) < 128)%nat /\ wf st' /\ lp = v /\
  abs st' = Spec.MkQueue (pending st ++ [MkPendingStamp v c 0]) (latched st) (quiesced st).
Proof.
  intros Hwf. pose proof (pending_range _ Hwf). pose proof (length_pending _ Hwf) as Hlen.
  unfold push_stamp. destruct (Z.eqb_spec (pending_count st) STAMP_QUEUE_CAPACITY) as [|Hne];
    [done|]. unfold STAMP_QUEUE_CAPACITY in Hne. intros [= <- <-].
  set (p := MkPendingStamp v c 0). set (st1 := set_write _ _).
  assert (pending_count st1 = pending_count st + 1) as Hn.
  { destruct Hwf. unfold st1, pending_count in *.
    cbn [set_write set_slot write_count complete_count]. word_unfold.
    Z.to_euclidean_division_equations. lia. }
  assert (wf (set_slot st (write_count st) p)) as Hwf1 by by apply wf_set_slot.
  split_and!; [lia| |done|].
  - destruct Hwf1. split; try done; [apply add32_range|].
    rewrite Hn. unfold STAMP_QUEUE_CAPACITY. lia.
  - unfold abs. f_equal. unfold pending at 1. rewrite Hn.
    replace (Z.to_nat (pending_count st + 1)) with (S (Z.to_nat (pending_count st))) by lia.
    rewrite window_snoc by apply Hwf. cbn [complete_count st1 set_write set_slot].
    rewrite !(window_ext st1 (set_slot st (write_count st) p)) by done.
    rewrite Z2Nat.id by lia. rewrite <- write_of_complete by done. f_equal.
    + rewrite (write_of_complete st) at 1 by done.
      by rewrite window_set_other by (lia || apply Hwf).
    + unfold slot at 1. cbn [st1 set_write slots]. fold (slot (set_slot st (write_count st) p) (write_count st)).
      by rewrite slot_set_slot_same by apply Hwf.
Qed.

Lemma resume_refines st :
  wf st -> let '(st', evs) := resume_from_fault st in
  wf st' /\ Spec.resume (faulted (slot st (complete_count st))) (abs st) = (abs st', evs).
Proof.
  intros Hwf. unfold resume_from_fault, Spec.resume. cbn [abs Spec.items Spec.quiet].
  set (p := slot st (complete_count st)).
  assert (pending st = [] \/ exists l, pending st = p :: l) as Hhead.
  { unfold pending. destruct (Z.to_nat (pending_count st)); [by left|right; by eexists]. }
  assert (faulted p = false ->
    let '(st', evs) := let '(st, evs) := pump st in (st, HeadNotFaulted :: evs) in
    wf st' /\ (let '(q, evs) := Spec.spec_pump (abs st) in (q, HeadNotFaulted :: evs)) = (abs st', evs))
    as Hlog.
  { intros _. pose proof (pump_refines st Hwf) as Hp.
    destruct (pump st) as [st' evs]. destruct Hp as [? ->]. done. }
  destruct (faulted p) eqn:Ef.
  - set (p' := set_signaled (set_faulted p false) true).
    set (st1 := set_latched _ _).
    assert (wf st1) as Hwf1.
    { apply wf_set_latched, wf_set_slot; [done|]. apply slot_ok_resumed.
      apply slot_in_slots; apply Hwf. }
    assert (abs st1 = Spec.MkQueue (match pending st with [] => [] | _ :: l => p' :: l end)
      false (quiesced st)) as Habs.
    { unfold abs. f_equal. unfold pending. change (pending_count st1) with (pending_count st).
      pose proof (pending_range _ Hwf).
      destruct (Z.to_nat (pending_count st)) as [|n] eqn:En; [done|].
      change (complete_count st1) with (complete_count st). cbn [window].
      unfold st1. rewrite (window_ext (set_latched _ _) (set_slot st (complete_count st) p')) by done.
      f_equal.
      - change (slot (set_slot st (complete_count st) p') (complete_count st) = p').
        apply slot_set_slot_same, Hwf.
      - apply list_eq. intros i. destruct (Nat.lt_ge_cases i n).
        + rewrite !window_lookup by (auto with words). f_equal.
          apply slot_set_slot_other. rewrite add32_add.
          rewrite <- (add32_0 (complete_count st)) at 1 by apply Hwf.
          intros Hc. apply cell_inj in Hc; lia.
        + rewrite !lookup_ge_None_2; rewrite ?length_window; done. }
    pose proof (pump_refines st1 Hwf1) as Hp. rewrite Habs in Hp.
    destruct (pump st1) as [st' evs].
    destruct Hhead as [Hh|[l Hh]]; rewrite Hh in *; rewrite ?Ef; exact Hp.
  - specialize (Hlog eq_refl). destruct (pump st) as [st' evs].
    destruct Hhead as [Hh|[l Hh]]; rewrite Hh; rewrite ?Ef; exact Hlog.
Qed.

Lemma step_refines st o evs st' :
  step st o evs st' -> wf st -> wf st' /\ Spec.spec_step (abs st) o evs (abs st').
Proof.
  intros Hstep Hwf. destruct Hstep as [st v c st' lp Hs|st v st' evs Hs|st v off st' evs Hs
    |st st' evs Hs|st st' evs Hs|st|st st' evs ret Hs].
  - apply push_refines in Hs as (Hl & ? & -> & ->); [|done]. split; [done|]. by constructor.
  - unfold signal_stamp in Hs. rewrite (pending_count_0 _ Hwf) in Hs.
    destruct (pending st) as [|p l] eqn:El; [done|].
    pose proof (mark_tail_spec st v (fun p => set_signaled p true) SignalTwice SignalFaulted
      Hwf slot_ok_signaled) as Hspec.
    change (mark_tail st v (fun p => set_signaled p true) SignalTwice SignalFaulted = Ret (st', evs)) in Hs.
    rewrite Hs in Hspec.
    destruct (List.find _ _) as [q|]; [destruct (signaled q); [done|];
      destruct (faulted q); [done|]|]; destruct Hspec as (? & ? & [= <- <-] & ? & ?);
      (split; [done|]; constructor; [|done]; cbn [abs Spec.items]; by rewrite El).
  - unfold fault_stamp in Hs. rewrite (pending_count_0 _ Hwf) in Hs.
    destruct (pending st) as [|p l] eqn:El; [done|].
    destruct (Z.ltb_spec off 0x80000000) as [Ho|]; [|done].
    pose proof (mark_tail_spec st v (fun p => set_offset (set_faulted p true) off) FaultSignalled
      FaultTwice Hwf (slot_ok_faulted off)) as Hspec.
    change (mark_tail st v (fun p => set_offset (set_faulted p true) off) FaultSignalled FaultTwice
      = Ret (st', evs)) in Hs.
    rewrite Hs in Hspec.
    destruct (List.find _ _) as [q|]; [destruct (signaled q); [done|];
      destruct (faulted q); [done|]|]; destruct Hspec as (? & ? & [= <- <-] & ? & ?);
      (split; [done|]; constructor; [|done|done]; cbn [abs Spec.items]; by rewrite El).
  - pose proof (resume_refines st Hwf) as Hr. rewrite Hs in Hr. destruct Hr as [? ?].
    split; [done|]. by econstructor.
  - pose proof (pump_refines (set_quiesced st true) (wf_set_quiesced _ Hwf _)) as Hp.
    unfold quiesce in Hs. rewrite Hs in Hp. destruct Hp as [? Hp]. split; [done|].
    rewrite abs_set_quiesced in Hp. by constructor.
  - split; [by apply wf_set_quiesced|]. unfold clear_quiesced. rewrite abs_set_quiesced.
    constructor.
  - unfold drain in Hs. destruct (quiesced st) eqn:Eq; [|done].
    pose proof (pump_refines st Hwf) as Hp. cbn in Hs. destruct (pump st) as [st1 evs1].
    injection Hs as -> -> _. destruct Hp as [? Hp]. split; [done|].
    unfold abs in *. rewrite Eq in *. by constructor.
Qed.

(** ** Runs *)

(** The values of the pushes, of the signals, and the reported faults. *)
Definition pushed (ops : list Op) : list Z :=
  omap (fun o => match o with OpPush v _ => Some v | _ => None end) ops.
Definition signals (evs : list Event) : list Z :=
  omap (fun e => match e with Signal v => Some v | _ => None end) evs.
Definition faults (evs : list Event) : list Z :=
  omap (fun e => match e with Fault off => Some off | _ => None end) evs.
Definition is_resume (o : Op) : bool := match o with OpResume => true | _ => false end.
Definition resumes (ops : list Op) : nat := length (List.filter is_resume ops).

Lemma exec_step st o st' evs : exec st o = Some (st', evs) -> step st o evs st'.
Proof.
  destruct o as [v c|v|v off| | | |]; cbn [exec].
  - destruct (push_stamp st v c) as [[st1 l]|] eqn:E; [|done]. intros [= <- <-].
    by econstructor.
  - destruct (signal_stamp st v) as [[st1 l]| |] eqn:E; [|done..]. intros [= <- <-].
    by constructor.
  - destruct (fault_stamp st v off) as [[st1 l]| |] eqn:E; [|done..]. intros [= <- <-].
    by constructor.
  - intros [= E]. by constructor.
  - intros [= E]. by constructor.
  - intros [= <- <-]. constructor.
  - destruct (drain st) as [[[st1 l] b]| |] eqn:E; [|done..]. intros [= <- <-].
    by econstructor.
Qed.

Lemma exec_all_run ops st st' evs : exec_all ops st = Some (st', evs) -> run st ops evs st'.
Proof.
  revert st' evs. induction ops as [|o ops IH] using rev_ind; intros st' evs.
  - intros [= <- <-]. constructor.
  - unfold exec_all in *. rewrite foldl_snoc.
    destruct (foldl _ _ ops) as [[st1 evs1]|]; [|done]. cbn.
    destruct (exec st1 o) as [[st2 evs2]|] eqn:E; [|done]. intros [= <- <-].
    eapply run_snoc; [by apply IH|by apply exec_step].
Qed.

Lemma run_wf st ops evs st' : run st ops evs st' -> wf st -> wf st'.
Proof.
  induction 1 as [|st ops evs st1 o evs' st2 _ IH Hs]; [done|]. intros Hwf.
  by apply (step_refines _ _ _ _ Hs), IH.
Qed.

(** A pump's events: at most the signal of the last value it passes and one
    fault. *)
Lemma spec_pump_trace q q' evs :
  Spec.spec_pump q = (q', evs) ->
  exists block, map stamp_value (Spec.items q) = block ++ map stamp_value (Spec.items q') /\
    signals evs = option_list (list.last block) /\
    (length (faults evs) + Nat.b2n (Spec.latch q) = Nat.b2n (Spec.latch q'))%nat.
Proof.
  unfold Spec.spec_pump. pose proof (split_done_app (Spec.quiet q) (Spec.items q)) as Happ.
  destruct (Spec.split_done _ _) as [a b]. intros [= <- <-]. exists (map stamp_value a).
  cbn [Spec.items Spec.latch]. split_and!.
  - by rewrite Happ, map_app.
  - unfold signals, Spec.published. rewrite !omap_app.
    replace (list.last (map stamp_value a)) with (stamp_value <$> list.last a)
      by (symmetry; apply fmap_last).
    destruct (list.last a), (Spec.report (Spec.latch q) b), b; done.
  - unfold faults, Spec.published. rewrite !omap_app, !length_app.
    assert (Spec.report (Spec.latch q) b = None \/ Spec.latch q = false) as Hr.
    { destruct b as [|p b]; [by left|]. cbn. destruct (Spec.latch q); [left|by right].
      by rewrite andb_false_r. }
    destruct (list.last a), (Spec.report (Spec.latch q) b), (Spec.latch q), b;
      cbn; try done; by destruct Hr.
Qed.

Lemma mark_values v f l :
  (forall p, stamp_value (f p) = stamp_value p) ->
  map stamp_value (fst (Spec.mark v f l)) = map stamp_value l.
Proof.
  intros Hf. induction l as [|p l IH]; [done|]. cbn [Spec.mark].
  destruct (_ =? _); [cbn; by rewrite Hf|].
  destruct (Spec.mark v f l) as [l' b]. cbn in *. by rewrite IH.
Qed.

Lemma mark_and_pump_trace v f q q' evs :
  (forall p, stamp_value (f p) = stamp_value p) ->
  Spec.mark_and_pump v f q = (q', evs) ->
  exists block, map stamp_value (Spec.items q) = block ++ map stamp_value (Spec.items q') /\
    signals evs = option_list (list.last block) /\
    (length (faults evs) + Nat.b2n (Spec.latch q) = Nat.b2n (Spec.latch q'))%nat.
Proof.
  intros Hf. unfold Spec.mark_and_pump. pose proof (mark_values v f (Spec.items q) Hf) as Hm.
  destruct (Spec.mark v f (Spec.items q)) as [l b]. cbn in Hm. rewrite <- Hm. destruct b.
  - apply (spec_pump_trace (Spec.MkQueue l (Spec.latch q) (Spec.quiet q))).
  - intros [= <- <-]. by exists [].
Qed.

(** One step: the values it takes from the front, the one signal it publishes
    for them, the faults it reports. *)
Lemma spec_step_trace q o evs q' :
  Spec.spec_step q o evs q' ->
  exists block,
    map stamp_value (Spec.items q) ++ pushed [o] = block ++ map stamp_value (Spec.items q') /\
    signals evs = option_list (list.last block) /\
    (length (faults evs) + Nat.b2n (Spec.latch q) <=
     Nat.b2n (is_resume o) + Nat.b2n (Spec.latch q'))%nat.
Proof.
  assert (forall q1 q2 evs1,
    (exists block, map stamp_value (Spec.items q1) = block ++ map stamp_value (Spec.items q2) /\
      signals evs1 = option_list (list.last block) /\
      (length (faults evs1) + Nat.b2n (Spec.latch q1) = Nat.b2n (Spec.latch q2))%nat) ->
    exists block, map stamp_value (Spec.items q1) ++ [] = block ++ map stamp_value (Spec.items q2) /\
      signals evs1 = option_list (list.last block) /\
      (length (faults evs1) + Nat.b2n (Spec.latch q1) <= Nat.b2n (Spec.latch q2))%nat) as Hweak.
  { intros q1 q2 evs1 (bl & H1 & H2 & H3). exists bl. rewrite app_nil_r. split_and!; (done || lia). }
  destruct 1 as [l b q v c Hl|q v q' evs Hne Hm|q v off q' evs Hne Ho Hm|stale q q' evs Hr
    |l b q q' evs Hp|l b q|l b q' evs Hp].
  - exists []. cbn. rewrite map_app. split_and!; (done || lia).
  - apply Hweak. by eapply mark_and_pump_trace; [|exact Hm].
  - apply Hweak. by eapply mark_and_pump_trace; [|exact Hm].
  - assert (forall q1 q2 evs1 b0, Spec.spec_pump q1 = (q2, evs1) ->
      map stamp_value (Spec.items q1) = map stamp_value (Spec.items q) ->
      signals (b0 ++ evs1) = signals evs1 -> faults (b0 ++ evs1) = faults evs1 ->
      exists block, map stamp_value (Spec.items q) ++ [] = block ++ map stamp_value (Spec.items q2) /\
        signals (b0 ++ evs1) = option_list (list.last block) /\
        (length (faults (b0 ++ evs1)) + Nat.b2n (Spec.latch q) <= 1 + Nat.b2n (Spec.latch q2))%nat) as Hany.
    { intros q1 q2 evs1 b0 (bl & H1 & H2 & H3)%spec_pump_trace Hi Hs Hf. exists bl.
      rewrite app_nil_r, <- Hi, Hs, Hf. split_and!; [done|done|].
      pose proof (Nat.b2n_le_1 (Spec.latch q)). lia. }
    unfold Spec.resume in Hr. destruct (Spec.items q) as [|p l] eqn:Ei.
    + destruct stale; [by apply (Hany _ _ _ [] Hr)|].
      destruct (Spec.spec_pump q) as [q1 evs1] eqn:Ep. injection Hr as <- <-.
      apply (Hany _ _ _ [HeadNotFaulted] Ep); [by rewrite Ei|done|done].
    + destruct (faulted p); [by apply (Hany _ _ _ [] Hr)|].
      destruct (Spec.spec_pump q) as [q1 evs1] eqn:Ep. injection Hr as <- <-.
      apply (Hany _ _ _ [HeadNotFaulted] Ep); [by rewrite Ei|done|done].
  - apply Hweak. apply (spec_pump_trace _ _ _ Hp).
  - exists []. cbn. rewrite app_nil_r. split_and!; (done || lia).
  - apply Hweak. apply (spec_pump_trace _ _ _ Hp).
Qed.

Lemma wf_new : wf new.
Proof.
  split; try done; cbn [new slots].
  apply list.Forall_forall. intros p Hp%list_elem_of_In%repeat_spec. subst p.
  split; [done|reflexivity].
Qed.

Lemma run_trace st ops evs st' :
  run st ops evs st' -> wf st ->
  wf st' /\
  (exists blocks, map stamp_value (pending st) ++ pushed ops =
     concat blocks ++ map stamp_value (pending st') /\
     signals evs = omap list.last blocks) /\
  (length (faults evs) + Nat.b2n (latched st) <= resumes ops + Nat.b2n (latched st'))%nat.
Proof.
  induction 1 as [st|st ops evs st1 o evs' st2 _ IH Hs]; intros Hwf.
  - split_and!; [done| |cbn; lia]. exists []. cbn. by rewrite app_nil_r.
  - destruct (IH Hwf) as (Hwf1 & (bls & Hb & Hsig) & Hf).
    destruct (step_refines _ _ _ _ Hs Hwf1) as [Hwf2 Hstep].
    destruct (spec_step_trace _ _ _ _ Hstep) as (bl & H1 & H2 & H3).
    cbn [abs Spec.items Spec.latch] in *. split_and!; [done| |].
    + exists (bls ++ [bl]). unfold pushed, signals in *.
      rewrite !omap_app, concat_app. cbn [concat]. rewrite app_nil_r. split.
      * by rewrite (assoc (++)), Hb, <- !(assoc (++)), H1.
      * rewrite Hsig, H2. cbn. by destruct (list.last bl).
    + unfold faults, resumes in *. rewrite omap_app, List.filter_app, !length_app.
      assert (length (List.filter is_resume [o]) = Nat.b2n (is_resume o)) as Hr by by destruct o.
      lia.
Qed.

(** ** The queue's contract *)

(** C1: every operation of the ring of slots (a push that finds room, a signal
    or a fault that does not die, a resume, a quiesce, a clear, a drain's pump)
    keeps the queue well formed, with at most 128 pending, and is a step of the
    queue of pending stamps with the same signals, faults and wakes. *)
Theorem stamp_queue_refines st o evs st' :
  step st o evs st' -> wf st -> wf st' /\ Spec.spec_step (abs st) o evs (abs st').
Proof. apply step_refines. Qed.

(** C39: from a new queue, in any sequence of operations, the stamps are
    published in push order: the values pushed are, in order, the blocks the
    signals published, each signal being the last value of its block, followed
    by the values still pending, of which there are at most 128. *)
Theorem published_in_order ops evs st :
  run new ops evs st ->
  exists blocks : list (list Z),
    pushed ops = concat blocks ++ map stamp_value (pending st) /\
    signals evs = omap list.last blocks /\
    (length (pending st) <= 128)%nat.
Proof.
  intros Hrun. destruct (run_trace _ _ _ _ Hrun wf_new) as (Hwf & (bls & Hb & Hs) & _).
  exists bls. split_and!; [exact Hb|done|].
  pose proof (pending_range _ Hwf). pose proof (length_pending _ Hwf). lia.
Qed.

(** a faulted head is reported once per latch: over any run, the faults
    reported are at most the resumes, one more when the latch ends up set, one
    less when it was set at the start; without a resume at most one. *)
Theorem fault_reported_once st ops evs st' :
  run st ops evs st' -> wf st ->
  (length (faults evs) + Nat.b2n (latched st) <= resumes ops + Nat.b2n (latched st'))%nat.
Proof. intros Hrun Hwf. by destruct (run_trace _ _ _ _ Hrun Hwf) as (_ & _ & ?). Qed.

(** A signal, and a fault, of a pending window: with nothing pending it
    dies; a fault's offset of 2^31 or more dies; the first pending stamp of the
    value decides the rest: already signalled or faulted, it dies (a duplicate
    completion), otherwise it alone is marked and the queue pumps when every
    stamp before it is signalled; a value that is not pending marks nothing. *)
Theorem signal_and_fault_branches st v off :
  wf st ->
  let first := List.find (fun p => stamp_value p =? v) (pending st) in
  (pending st = [] ->
     signal_stamp st v = Died SignalNothingPending /\
     fault_stamp st v off = Died FaultNothingPending) /\
  (pending st <> [] -> 2 ^ 31 <= off -> fault_stamp st v off = Died FaultOffsetRange) /\
  (forall p, first = Some p -> signaled p = true ->
     signal_stamp st v = Died SignalTwice /\
     (off < 2 ^ 31 -> fault_stamp st v off = Died FaultSignalled)) /\
  (forall p, first = Some p -> faulted p = true ->
     signal_stamp st v = Died SignalFaulted /\
     (off < 2 ^ 31 -> fault_stamp st v off = Died FaultTwice)) /\
  (pending st <> [] ->
   match first with Some p => signaled p || faulted p = false | None => True end ->
     (exists st' evs, signal_stamp st v = Ret (st', evs) /\ wf st' /\
        Spec.mark_and_pump v (fun p => set_signaled p true) (abs st) = (abs st', evs)) /\
     (off < 2 ^ 31 -> exists st' evs, fault_stamp st v off = Ret (st', evs) /\ wf st' /\
        Spec.mark_and_pump v (fun p => set_offset (set_faulted p true) off) (abs st)
          = (abs st', evs))).
Proof.
  intros Hwf first. pose proof (pending_slot_ok _ Hwf) as Hok.
  pose proof (mark_tail_spec st v (fun p => set_signaled p true) SignalTwice SignalFaulted
    Hwf slot_ok_signaled) as Hsig.
  pose proof (mark_tail_spec st v (fun p => set_offset (set_faulted p true) off) FaultSignalled
    FaultTwice Hwf (slot_ok_faulted off)) as Hflt.
  fold first in Hsig, Hflt.
  assert (pending st <> [] -> signal_stamp st v =
    mark_tail st v (fun p => set_signaled p true) SignalTwice SignalFaulted) as Es.
  { intros Hne. unfold signal_stamp. rewrite pending_count_0 by done. by destruct (pending st). }
  assert (pending st <> [] -> off < 2 ^ 31 -> fault_stamp st v off =
    mark_tail st v (fun p => set_offset (set_faulted p true) off) FaultSignalled FaultTwice) as Ef.
  { intros Hne Ho. unfold fault_stamp. rewrite pending_count_0 by done.
    rewrite (proj2 (Z.ltb_lt off 0x80000000)) by exact Ho. by destruct (pending st). }
  assert (forall p, first = Some p -> pending st <> [] /\ signaled p && faulted p = false) as Hin.
  { intros p Hp%List.find_some. destruct Hp as [Hp _].
    split; [by intros Hn; rewrite Hn in Hp|].
    by apply (proj1 (List.Forall_forall _ _) Hok p Hp). }
  split_and!.
  - intros Hn. unfold signal_stamp, fault_stamp. by rewrite pending_count_0, Hn.
  - intros Hne Ho. unfold fault_stamp. rewrite pending_count_0 by done.
    rewrite (proj2 (Z.ltb_ge off 0x80000000)) by exact Ho. by destruct (pending st).
  - intros p Hp Hs. destruct (Hin p Hp) as [Hne _]. rewrite Hp, Hs in *.
    rewrite Es by done. split; [done|]. intros Ho. by rewrite Ef.
  - intros p Hp Hf. destruct (Hin p Hp) as [Hne Hx]. rewrite Hf, andb_true_r in Hx.
    rewrite Hp, Hx, Hf in *. rewrite Es by done. split; [done|]. intros Ho. by rewrite Ef.
  - intros Hne Hfirst. rewrite Es by done.
    destruct first as [p|]; [apply orb_false_elim in Hfirst as [H1 H2]; rewrite H1, H2 in *|];
      (split; [done|]; intros Ho; by rewrite Ef).
Qed.

(** A drain of a quiesced queue returns at once exactly when every pending
    stamp is signalled or faulted; it then has published every one of them and
    leaves nothing pending. Otherwise it waits, and on a queue that is not
    quiesced it dies. *)
Theorem drain_returns st :
  wf st ->
  (quiesced st = false -> drain st = Died QueueDrainUnquiesced) /\
  (quiesced st = true -> exists st' evs,
     drain st = Ret (st', evs, forallb (fun p => signaled p || faulted p) (pending st)) /\
     wf st' /\
     (forallb (fun p => signaled p || faulted p) (pending st) = true ->
      pending st' = [] /\ signals evs = option_list (stamp_value <$> list.last (pending st)))).
Proof.
  intros Hwf. unfold drain. split; [by intros ->|]. intros Hq. rewrite Hq.
  pose proof (pump_refines st Hwf) as Hp. cbn [fatal_unless mbind outcome_bind].
  destruct (pump st) as [st' evs]. destruct Hp as [Hwf' Hp]. exists st', evs.
  destruct (spec_pump_trace _ _ _ Hp) as (bl & Hbl & Hsig & _). cbn [abs Spec.items] in Hbl.
  unfold Spec.spec_pump in Hp. cbn [abs Spec.items Spec.quiet Spec.latch] in Hp. rewrite Hq in Hp.
  assert (forall l, let '(a, b) := Spec.split_done true l in
    forallb (fun p => signaled p || faulted p) l = match b with [] => true | _ => false end) as Hall.
  { induction l as [|p l IH]; [done|]. cbn [Spec.split_done forallb]. unfold Spec.done.
    rewrite andb_true_r. destruct (signaled p || faulted p); [|done].
    by destruct (Spec.split_done true l) as [a b]. }
  specialize (Hall (pending st)). destruct (Spec.split_done true (pending st)) as [a b].
  injection Hp as Hb _ _ _.
  rewrite write_eq_complete by done. rewrite Hall, <- Hb. split_and!; [done|done|].
  destruct b; [|done]. intros _. rewrite <- Hb, app_nil_r in *. split; [done|].
  rewrite Hsig, <- Hbl. f_equal. apply fmap_last.
Qed.

(** ** Witnesses: two stamps, the first faulted at 2^30 + 5 (reported as 5), the
    second signalled behind it, the fault resumed. *)

Definition sample_ops : list Op :=
  [OpPush 7 1; OpPush 8 2; OpFault 7 (2 ^ 30 + 5); OpSignal 8; OpResume].

Definition sample_state (ops : list Op) : QueueState :=
  match exec_all ops new with Some (st, _) => st | None => new end.

Lemma sample_run :
  run new sample_ops [Fault 5; Signal 8; WakeRoom; WakeDrained] (sample_state sample_ops).
Proof. apply exec_all_run. vm_compute. reflexivity. Qed.

Lemma stamps_sample_wf n : wf (sample_state (take n sample_ops)).
Proof.
  unfold sample_state.
  destruct (exec_all (take n sample_ops) new) as [[st evs]|] eqn:E; [|apply wf_new].
  eapply run_wf; [by apply exec_all_run|apply wf_new].
Qed.

Lemma stamp_queue_refines_witness :
  let st := sample_state (take 2 sample_ops) in
  let st' := sample_state (take 3 sample_ops) in
  step st (OpFault 7 (2 ^ 30 + 5)) [Fault 5] st' /\
  wf st' /\ Spec.spec_step (abs st) (OpFault 7 (2 ^ 30 + 5)) [Fault 5] (abs st').
Proof.
  assert (step (sample_state (take 2 sample_ops)) (OpFault 7 (2 ^ 30 + 5)) [Fault 5]
    (sample_state (take 3 sample_ops))) as Hs by (apply exec_step; vm_compute; reflexivity).
  split; [exact Hs|]. apply (stamp_queue_refines _ _ _ _ Hs). apply stamps_sample_wf.
Defined.

Lemma published_in_order_witness :
  let st := sample_state sample_ops in
  run new sample_ops [Fault 5; Signal 8; WakeRoom; WakeDrained] st /\
  exists blocks : list (list Z),
    pushed sample_ops = concat blocks ++ map stamp_value (pending st) /\
    signals [Fault 5; Signal 8; WakeRoom; WakeDrained] = omap list.last blocks /\
    (length (pending st) <= 128)%nat.
Proof. split; [exact sample_run|]. apply (published_in_order _ _ _ sample_run). Defined.

Lemma fault_reported_once_witness :
  run new sample_ops [Fault 5; Signal 8; WakeRoom; WakeDrained] (sample_state sample_ops) /\
  (length (faults [Fault 5; Signal 8; WakeRoom; WakeDrained]) + Nat.b2n (latched new) <=
   resumes sample_ops + Nat.b2n (latched (sample_state sample_ops)))%nat.
Proof.
  split; [exact sample_run|]. apply (fault_reported_once _ _ _ _ sample_run). exact wf_new.
Defined.

Lemma signal_and_fault_branches_witness :
  let st := sample_state (take 3 sample_ops) in
  wf st /\ map stamp_value (pending st) = [7; 8] /\
  signal_stamp st 7 = Died SignalFaulted.
Proof.
  split; [apply stamps_sample_wf|]. split; [vm_compute; reflexivity|].
  pose proof (signal_and_fault_branches _ 7 0 (stamps_sample_wf 3)) as H. cbv zeta in H.
  destruct H as (_ & _ & _ & H & _).
  edestruct H as [Hd _]; [vm_compute; reflexivity|vm_compute; reflexivity|exact Hd].
Defined.

Lemma drain_returns_witness :
  let st := fst (quiesce (sample_state (take 4 sample_ops))) in
  let st1 := fst (quiesce (sample_state (take 2 sample_ops))) in
  pending st = [] /\ map stamp_value (pending st1) = [7; 8] /\
  exists st' evs, drain st1 = Ret (st', evs, false) /\ wf st'.
Proof.
  split; [vm_compute; reflexivity|]. split; [vm_compute; reflexivity|].
  assert (wf (fst (quiesce (sample_state (take 2 sample_ops))))) as Hwf.
  { pose proof (pump_refines (set_quiesced (sample_state (take 2 sample_ops)) true)
      (wf_set_quiesced _ (stamps_sample_wf 2) true)) as Hp.
    unfold quiesce. destruct (pump _) as [st' evs]. apply Hp. }
  destruct (drain_returns _ Hwf) as [_ H].
  destruct (H ltac:(vm_compute; reflexivity)) as (st' & evs & Hd & Hw & _).
  exists st', evs. split; [|exact Hw]. rewrite Hd. vm_compute. reflexivity.
Defined.

End Stamps.
