(* ===== verification/Ring.v ===== *)
(** * Ring: the FIFO's ring cursors (src/crates/reims-vgpu-core/src/fifo/ring.rs)

    Where the FIFO's thread reads the next command, what it has published back
    to the guest and where a rejected command rewinds to. A ring's atomics are
    the fields of its record. A read is one attempt: it ends where the source's
    loop returns, where it waits for bytes ([Waits], with the bytes copied so
    far; the thread's loop runs again from the state the attempt leaves), or, on
    a ring of length 0, where it spins. Between the waits of one attempt nothing
    else writes the ring's fields or the node. *)

From S2P Require Import Prelude Num MemoryKinds FifoKinds GuestPtr GuestRecords MemoryMap.
Import GuestPtr.

Module Ring.
Import FifoDeath.

Abbreviation fres := (outcome Empty_set FifoDeathKind).

Definition NO_FAULT_OFFSET : Z := M32 - 1.

(** The child node's fields. *)
Definition NODE_WRITTEN : Z := 0x0.
Definition NODE_READ_COUNT : Z := 0x4.
Definition NODE_FAULT_OFFSET : Z := 0x8.
Definition NODE_STAMP_INDEX : Z := 0xc.
Definition NODE_RUNNING : Z := 0xe.
Definition NODE_PAGE_LIST_PAGE : Z := 0x10.

(** The root's ring: a range of the root page, and the two registers. *)
Record RootRing := MkRootRing {
  start_offset : Z;
  r_base : Z;
  r_read_offset : Z;
  r_last_read_offset : Z;
  r_written : Z;
  r_read : Z;
  r_pending_advance : Z;
  r_fault_offset : Z;
}.

(** A child's ring: its node, and its pages while its thread runs. *)
Record ChildRing := MkChildRing {
  node : Z;
  c_stamp_index : Z;
  c_base : Z;
  c_read_offset : Z;
  c_last_read_offset : Z;
  c_read_count : Z;
  c_last_read_count : Z;
  c_cache_written : Z;
  c_fault_offset : Z;
}.

Inductive Ring : Type :=
| Root (r : RootRing)
| Child (c : ChildRing).

(** ** The root's registers *)

Definition root_new (start base fault_offset : Z) : RootRing :=
  MkRootRing start base 0 0 0 0 0 fault_offset.

Definition written (r : RootRing) : Z := r_written r.
Definition set_written (r : RootRing) (w : Z) : RootRing :=
  MkRootRing (start_offset r) (r_base r) (r_read_offset r) (r_last_read_offset r) w
    (r_read r) (r_pending_advance r) (r_fault_offset r).
Definition read (r : RootRing) : Z := r_read r.
Definition set_read (r : RootRing) (read ring_length : Z) : RootRing :=
  let offset := Num.rem0 read ring_length in
  MkRootRing (start_offset r) (r_base r) offset offset (r_written r) read
    (r_pending_advance r) (r_fault_offset r).

(** ** The child's node *)

Section Node.
(** How a store on the thread of an isolated task that has ended stops it, and
    whether it has. *)
Context (stopped : FifoDeathKind) (task_ended : bool).

Definition child_new (node stamp_index : Z) : ChildRing :=
  MkChildRing node stamp_index 0 0 0 0 0 0 NO_FAULT_OFFSET.

Definition stamp_index (c : ChildRing) : Z := c_stamp_index c.

Definition init_from_node (m : memory) (c : ChildRing) (restoring : bool)
    : fres (memory * ChildRing) :=
  let at_ := NodeNull in
  if negb restoring then
    m ← store_seqcst_u32 stopped task_ended m (node c) NODE_READ_COUNT 0 at_;
    m ← store_seqcst_u32 stopped task_ended m (node c) NODE_FAULT_OFFSET NO_FAULT_OFFSET at_;
    Ret (m, c)
  else
    read_count ← load_seqcst_u32 m (node c) NODE_READ_COUNT at_;
    w ← load_seqcst_u32 m (node c) NODE_WRITTEN at_;
    fault ← load_seqcst_u32 m (node c) NODE_FAULT_OFFSET at_;
    Ret (m, MkChildRing (node c) (c_stamp_index c) (c_base c) (c_read_offset c)
              (c_last_read_offset c) read_count read_count w fault).

Definition set_running (m : memory) (c : ChildRing) (running : bool) : fres memory :=
  write_u16 stopped task_ended m (node c) NODE_RUNNING (Z.b2z running) NodeNull.

(** ** The fault offset: a child's is stored in its node too *)

Definition fault_offset (g : Ring) : Z :=
  match g with Root r => r_fault_offset r | Child c => c_fault_offset c end.

Definition set_fault_offset (m : memory) (g : Ring) (off : Z) : fres (memory * Ring) :=
  match g with
  | Root r =>
      Ret (m, Root (MkRootRing (start_offset r) (r_base r) (r_read_offset r)
                      (r_last_read_offset r) (r_written r) (r_read r)
                      (r_pending_advance r) off))
  | Child c =>
      let c := MkChildRing (node c) (c_stamp_index c) (c_base c) (c_read_offset c)
                 (c_last_read_offset c) (c_read_count c) (c_last_read_count c)
                 (c_cache_written c) off in
      m ← store_seqcst_u32 stopped task_ended m (node c) NODE_FAULT_OFFSET off NodeNull;
      Ret (m, Child c)
  end.

(** ** Reading *)

Definition copy_count (available wanted until_wrap : Z) : Z :=
  Z.min available (Num.low_u32 (Z.min wanted until_wrap)).

(** What the command latches for its faults. *)
Definition latch_offset (g : Ring) : Z :=
  match g with Root r => r_read_offset r | Child c => c_read_offset c end.

(** How an attempt ends: the buffer is full ([true] to the caller), the FIFO
    is quiesced ([false]), it waits for bytes, or it ran out of fuel. *)
Inductive Filled : Type := Full | Quiesced | Waits | Spins.

Definition root_at (r : RootRing) (offset pending : Z) : RootRing :=
  MkRootRing (start_offset r) (r_base r) offset (r_last_read_offset r) (r_written r)
    (r_read r) pending (r_fault_offset r).

Fixpoint read_root_loop (fuel : nat) (m : memory) (ring_length : Z) (quiesced : bool)
    (r : RootRing) (n : Z) : fres (RootRing * list byte * Filled) :=
  match fuel with
  | O => Ret (r, [], Spins)
  | S fuel =>
      if quiesced then Ret (r, [], Quiesced) else
      let until_wrap := sub32 ring_length (r_read_offset r) in
      if until_wrap =? 0 then
        read_root_loop fuel m ring_length quiesced (root_at r 0 (r_pending_advance r)) n
      else if n =? 0 then Ret (r, [], Full)
      else
        let available := sub32 (r_written r) (r_read r) in
        if available =? 0 then Ret (r, [], Waits)
        else
          let count := copy_count available n until_wrap in
          let offset := r_read_offset r in
          head ← copy_to m (r_base r) offset count RingNull;
          let r := root_at r (add32 offset count) (add32 (r_pending_advance r) count) in
          '(r, tail, e) ← read_root_loop fuel m ring_length quiesced r (n - count);
          Ret (r, head ++ tail, e)
  end.

Definition child_at (c : ChildRing) (offset count cache : Z) : ChildRing :=
  MkChildRing (node c) (c_stamp_index c) (c_base c) offset (c_last_read_offset c) count
    (c_last_read_count c) cache (c_fault_offset c).

(** What the node says is written past the read count, and the cache after:
    the node is loaded only when the cached value falls short. *)
Definition available (m : memory) (c : ChildRing) (wanted : Z) : fres (ChildRing * Z) :=
  let count := sub32 (c_cache_written c) (c_read_count c) in
  if count <? wanted then
    w ← load_acquire_u32 m (node c) NODE_WRITTEN NodeNull;
    Ret (child_at c (c_read_offset c) (c_read_count c) w, sub32 w (c_read_count c))
  else Ret (c, count).

Fixpoint read_child_loop (fuel : nat) (m : memory) (ring_length : Z) (quiesced : bool)
    (c : ChildRing) (n : Z) : fres (ChildRing * list byte * Filled) :=
  match fuel with
  | O => Ret (c, [], Spins)
  | S fuel =>
      if quiesced then Ret (c, [], Quiesced) else
      let until_wrap := sub32 ring_length (c_read_offset c) in
      if until_wrap =? 0 then
        read_child_loop fuel m ring_length quiesced
          (child_at c 0 (c_read_count c) (c_cache_written c)) n
      else if n =? 0 then Ret (c, [], Full)
      else
        '(c, count) ← available m c n;
        if count =? 0 then
          '(c, count) ← available m c n;
          Ret (c, [], Waits)
        else
          let count := copy_count count n until_wrap in
          let offset := c_read_offset c in
          head ← copy_to m (c_base c) offset count RingNull;
          let c := child_at c (add32 offset count) (add32 (c_read_count c) count)
                     (c_cache_written c) in
          '(c, tail, e) ← read_child_loop fuel m ring_length quiesced c (n - count);
          Ret (c, head ++ tail, e)
  end.

(** Two turns per copied byte and one wrap are enough on a ring that is not
    empty. *)
Definition read_fuel (n : Z) : nat := 2 + 2 * Z.to_nat n.

Definition read_root (m : memory) (ring_length : Z) (quiesced : bool) (r : RootRing) (n : Z)
    : fres (RootRing * list byte * Filled) :=
  read_root_loop (read_fuel n) m ring_length quiesced r n.
Definition read_child (m : memory) (ring_length : Z) (quiesced : bool) (c : ChildRing) (n : Z)
    : fres (ChildRing * list byte * Filled) :=
  read_child_loop (read_fuel n) m ring_length quiesced c n.

Definition read_bytes (m : memory) (ring_length : Z) (quiesced : bool) (g : Ring) (n : Z)
    : fres (Ring * list byte * Filled) :=
  match g with
  | Root r => '(r, bs, e) ← read_root m ring_length quiesced r n; Ret (Root r, bs, e)
  | Child c => '(c, bs, e) ← read_child m ring_length quiesced c n; Ret (Child c, bs, e)
  end.

(** ** Publishing and rewinding *)

Definition advance (m : memory) (g : Ring) : fres (memory * Ring) :=
  match g with
  | Root r =>
      Ret (m, Root (MkRootRing (start_offset r) (r_base r) (r_read_offset r)
                      (r_read_offset r) (r_written r)
                      (add32 (r_read r) (r_pending_advance r)) 0 (r_fault_offset r)))
  | Child c =>
      let read_count := c_read_count c in
      m ← store_seqcst_u32 stopped task_ended m (node c) NODE_READ_COUNT read_count NodeNull;
      Ret (m, Child (MkChildRing (node c) (c_stamp_index c) (c_base c) (c_read_offset c)
                       (c_read_offset c) read_count read_count (c_cache_written c)
                       (c_fault_offset c)))
  end.

Definition rewind (g : Ring) : Ring :=
  match g with
  | Root r => Root (root_at r (r_last_read_offset r) 0)
  | Child c => Child (child_at c (c_last_read_offset c) (c_last_read_count c) (c_cache_written c))
  end.
End Node.
#[global] Arguments rewind g : simpl nomatch.

(** ** Mapping a child's ring *)

(** The device's mapping methods, as the FIFO calls them: each gives the host's
    address space after the call. *)
Class DeviceMappings := {
  new_contiguous_mapping : memory -> Z -> Z -> memory * option MemoryMap.Mapping;
  new_range_mapping :
    memory -> list MemoryMap.PhysRange -> Z -> bool -> memory * option MemoryMap.Mapping;
  release : memory -> MemoryMap.Mapping -> memory;
}.

(** A child's ring with its mapping; [kept] are the mappings kept for good. *)
Record ChildState := MkChildState {
  ring : ChildRing;
  ring_length : Z;
  mapping : option MemoryMap.Mapping;
  kept : list MemoryMap.Mapping;
}.

Section Mapping.
Context {target : GuestRecords.Target} {device : DeviceMappings}.

(** The page list's entries: one guest page of [u32] page numbers. *)
Definition PAGE_LIST_ENTRIES : Z := shr64 GuestRecords.APV_PAGE_SIZE 2.

Definition entry (m : memory) (list_address index : Z) : fres Z :=
  read_u32 m list_address (mul64 index 4) PageListNull.

Fixpoint count_pages (fuel : nat) (m : memory) (list_address page_count : Z) : fres Z :=
  match fuel with
  | O => Ret page_count
  | S fuel =>
      if page_count <? PAGE_LIST_ENTRIES then
        e ← entry m list_address page_count;
        if e =? 0 then Ret page_count
        else count_pages fuel m list_address (Num.low_u16 (page_count + 1))
      else Ret page_count
  end.

Fixpoint page_ranges (m : memory) (list_address index : Z) (n : nat)
    : fres (list MemoryMap.PhysRange) :=
  match n with
  | O => Ret []
  | S n =>
      e ← entry m list_address index;
      rest ← page_ranges m list_address (index + 1) n;
      Ret (MemoryMap.MkPhysRange (mul64 e GuestRecords.APV_PAGE_SIZE)
             GuestRecords.APV_PAGE_SIZE :: rest)
  end.

(** [device_lives]: the FIFO's device still has an owner. *)
Definition map_child_ring (device_lives : bool) (m : memory) (s : ChildState)
    : fres (memory * ChildState * bool) :=
  let c := ring s in
  list_page ← read_u32 m (node c) NODE_PAGE_LIST_PAGE NodeNull;
  match (if device_lives then new_contiguous_mapping m list_page GuestRecords.APV_PAGE_SIZE
         else (m, None)) with
  | (m, None) => Ret (m, s, false)
  | (m, Some list_mapping) =>
      let list_address := MemoryMap.m_address list_mapping in
      page_count ← count_pages (Z.to_nat PAGE_LIST_ENTRIES) m list_address 0;
      if page_count =? 0 then Ret (release m list_mapping, s, false)
      else
        ranges ← page_ranges m list_address 0 (Z.to_nat page_count);
        let m := release m list_mapping in
        let length := Num.low_u32 (mul64 page_count GuestRecords.APV_PAGE_SIZE) in
        let '(m, new) := new_range_mapping m ranges length false in
        let base := match new with Some p => MemoryMap.m_address p | None => 0 end in
        let kept := kept s ++ match mapping s with Some old => [old] | None => [] end in
        node_read_count ← load_seqcst_u32 m (node c) NODE_READ_COUNT NodeNull;
        let read_offset := Num.rem0 node_read_count length in
        let c := MkChildRing (node c) (c_stamp_index c) base read_offset read_offset
                   (c_read_count c) (c_last_read_count c) (c_cache_written c)
                   (c_fault_offset c) in
        Ret (m, MkChildState c length new kept, match new with Some _ => true | None => false end)
  end.

Definition unmap_ring (m : memory) (s : ChildState) : memory * ChildState :=
  let c := ring s in
  (match mapping s with Some old => release m old | None => m end,
   MkChildState (MkChildRing (node c) (c_stamp_index c) 0 (c_read_offset c)
     (c_last_read_offset c) (c_read_count c) (c_last_read_count c) (c_cache_written c)
     (c_fault_offset c)) 0 None (kept s)).
End Mapping.

(** ** The bytes of a ring *)

(** The [n] bytes from offset [o] of the ring of [len] bytes at [base], and where
    the next one is. *)
Definition ring_bytes (m : memory) (base len o : Z) (n : nat) : list byte :=
  map (fun i => m (base + (o + Z.of_nat i) mod len)) (seq 0 n).

(** The ring's bytes are addressable, its length is not zero, and the cursor is
    in it or at its end (where the next read wraps). *)
Record ring_ok (base len o : Z) : Prop := {
  ok_len : 0 < len < M32;
  ok_base : ZERO_REGION_END <= base /\ base + len < M64;
  ok_offset : 0 <= o <= len;
}.

Lemma length_ring_bytes m base len o n : length (ring_bytes m base len o n) = n.
Proof. unfold ring_bytes. by rewrite length_map, length_seq. Qed.

Lemma ring_bytes_app m base len o a b :
  ring_bytes m base len o (a + b) =
  ring_bytes m base len o a ++ ring_bytes m base len (o + Z.of_nat a) b.
Proof.
  unfold ring_bytes. rewrite seq_app, map_app. f_equal.
  rewrite Nat.add_0_l, <- (Nat.add_0_r a) at 1. rewrite <- fmap_add_seq, map_map.
  apply map_ext. intros i. do 2 f_equal. f_equal. lia.
Qed.

Lemma ring_bytes_mod m base len o o' n :
  o mod len = o' mod len -> ring_bytes m base len o n = ring_bytes m base len o' n.
Proof.
  intros Ho. unfold ring_bytes. apply map_ext. intros i. do 2 f_equal.
  by rewrite <- Zplus_mod_idemp_l, Ho, Zplus_mod_idemp_l.
Qed.

(** Up to the wrap, the ring's bytes are those at its base. *)
Lemma ring_bytes_straight m base len o n :
  0 <= o -> o + Z.of_nat n <= len -> ring_bytes m base len o n = bytes_at m (base + o) n.
Proof.
  intros Ho Hn. unfold ring_bytes, bytes_at. apply map_ext_in. intros i Hi%in_seq.
  f_equal. rewrite Z.mod_small by lia. lia.
Qed.

Lemma copy_count_spec avail n wrap :
  0 < n -> 0 < wrap < M32 -> 0 <= avail ->
  copy_count avail n wrap = Z.min avail (Z.min n wrap).
Proof.
  intros Hn Hw Ha. unfold copy_count, Num.low_u32. rewrite w32_small; [done|lia].
Qed.

(** One copy before the wrap takes the ring's next bytes. *)
Lemma copy_to_ring {D} m base len o k (death : D) :
  ring_ok base len o -> 0 < k -> o + k <= len ->
  copy_to (R:=Empty_set) m base o k death = Ret (ring_bytes m base len o (Z.to_nat k)).
Proof.
  intros [Hl Hb Ho] Hk Hok. pose proof M32_val. pose proof M64_val.
  rewrite copy_to_Ret by (unfold ZERO_REGION_END in *; lia).
  rewrite ring_bytes_straight by lia. done.
Qed.

(** Where a cursor at [o] is after [n] bytes. *)
Definition ring_next (len o n : Z) : Z := (o + n) mod len.

Lemma until_wrap_val base len o : ring_ok base len o -> sub32 len o = len - o.
Proof. intros [Hl _ Ho]. apply sub32_small. lia. Qed.

Lemma ring_ok_wrap base len : ring_ok base len len -> ring_ok base len 0.
Proof. intros [? ? ?]. split; lia || done. Qed.

(** One chunk: what a copy takes and the ring after it. *)
Lemma chunk_spec base len o n avail :
  ring_ok base len o -> o < len -> 0 < n -> 0 < avail -> forall k,
  k = copy_count avail n (len - o) ->
  0 < k <= n /\ k <= avail /\ o + k <= len /\ add32 o k = o + k /\ ring_ok base len (o + k).
Proof.
  intros [Hl Hb Ho] Hlt Hn Ha k ->. rewrite copy_count_spec by lia.
  split_and!; try lia.
  - apply add32_small. lia.
  - split; lia || done.
Qed.

Lemma ring_bytes_split m base len o k n :
  0 <= k <= n ->
  ring_bytes m base len o (Z.to_nat n) =
  ring_bytes m base len o (Z.to_nat k) ++ ring_bytes m base len (o + k) (Z.to_nat (n - k)).
Proof.
  intros Hk. replace (Z.to_nat n) with (Z.to_nat k + Z.to_nat (n - k))%nat by lia.
  rewrite ring_bytes_app, Z2Nat.id by lia. done.
Qed.

Lemma ring_bytes_wrap m base len n :
  0 < len -> ring_bytes m base len len n = ring_bytes m base len 0 n.
Proof. intros Hl. apply ring_bytes_mod. by rewrite Z.mod_same, Z.mod_0_l by lia. Qed.

Lemma ring_next_wrap len n : 0 < len -> ring_next len len n = ring_next len 0 n.
Proof.
  intros Hl. unfold ring_next. replace (len + n) with (0 + n + 1 * len) by lia.
  apply Z.mod_add. lia.
Qed.

Lemma ring_next_add len o k n : ring_next len (o + k) (n - k) = ring_next len o n.
Proof. unfold ring_next. f_equal. lia. Qed.

Section RootRead.
Context (m : memory) (len : Z).

(** The turns a read needs. *)
Definition turns (o n : Z) : Z := 2 * n + 1 + Z.b2z (o =? len).

Lemma turns_copied o k n : 0 < k <= n -> turns (o + k) (n - k) <= turns o n - 1.
Proof. unfold turns. destruct (_ =? len), (_ =? len); cbn; lia. Qed.

Lemma read_root_loop_full fuel r n :
  ring_ok (r_base r) len (r_read_offset r) -> 0 <= n -> u32 (r_pending_advance r) ->
  0 < sub32 (r_written r) (r_read r) -> turns (r_read_offset r) n <= Z.of_nat fuel ->
  read_root_loop fuel m len false r n =
  Ret (root_at r (ring_next len (r_read_offset r) n) (add32 (r_pending_advance r) n),
       ring_bytes m (r_base r) len (r_read_offset r) (Z.to_nat n), Full).
Proof.
  revert r n. induction fuel as [|fuel IH]; intros r n Hok Hn Hp Ha Hf.
  { unfold turns in Hf. destruct (_ =? len); cbn in Hf; lia. }
  cbn [read_root_loop]. rewrite (until_wrap_val (r_base r)) by done.
  pose proof (ok_len _ _ _ Hok). pose proof (ok_offset _ _ _ Hok).
  destruct (Z.eqb_spec (len - r_read_offset r) 0) as [Hw|Hw].
  { assert (r_read_offset r = len) as Ho by lia. rewrite Ho in Hok |- *.
    rewrite IH; cbn [root_at r_read_offset r_pending_advance r_base]; try done.
    - by rewrite ring_next_wrap, ring_bytes_wrap by lia.
    - by apply ring_ok_wrap.
    - unfold turns in *. rewrite Ho, Z.eqb_refl in Hf. cbn in Hf.
      rewrite (proj2 (Z.eqb_neq 0 len)) by lia. cbn. lia. }
  destruct (Z.eqb_spec n 0) as [->|Hn0].
  { unfold ring_next. rewrite add32_small, !Z.add_0_r, Z.mod_small by lia. by destruct r. }
  rewrite (proj2 (Z.eqb_neq _ 0)) by lia.
  remember (copy_count _ n _) as k eqn:Hk.
  destruct (chunk_spec (r_base r) len (r_read_offset r) n (sub32 (r_written r) (r_read r)) Hok
    ltac:(lia) ltac:(lia) Ha k Hk) as (Hk1 & _ & Hk2 & Hadd & Hok').
  rewrite (copy_to_ring m (r_base r) len) by (done || lia).
  cbn [mbind outcome_bind]. rewrite Hadd, IH;
    cbn [root_at r_read_offset r_pending_advance r_base r_written r_read]; try done; try lia.
  - cbn [mbind outcome_bind].
    rewrite ring_next_add, add32_add, (ring_bytes_split _ _ _ _ k n) by lia.
    by replace (k + (n - k)) with n by lia.
  - apply add32_range.
  - pose proof (turns_copied (r_read_offset r) k n Hk1). lia.
Qed.
End RootRead.

Section ChildRead.
Context (m : memory) (len w : Z).

(** The node's [written] is [w]. *)
Definition node_written (c : ChildRing) : Prop :=
  load_acquire_u32 (R:=Empty_set) m (node c) NODE_WRITTEN NodeNull = Ret w.

(** What a read of [n] bytes finds available, the node's [written] being [w],
    and what it leaves cached. *)
Definition child_available (c : ChildRing) (n : Z) : Z :=
  let cached := sub32 (c_cache_written c) (c_read_count c) in
  if cached <? n then sub32 w (c_read_count c) else cached.
Definition child_cache (c : ChildRing) (n : Z) : Z :=
  if sub32 (c_cache_written c) (c_read_count c) <? n then w else c_cache_written c.

Lemma available_spec c n :
  node_written c ->
  available m c n = Ret (child_at c (c_read_offset c) (c_read_count c) (child_cache c n),
                         child_available c n).
Proof.
  intros Hw. unfold available, child_cache, child_available.
  destruct (_ <? n); [by rewrite Hw|by destruct c].
Qed.

Lemma child_available_sub c n :
  child_available c n = sub32 (child_cache c n) (c_read_count c).
Proof. unfold child_available, child_cache. by destruct (_ <? n). Qed.

(** Asking again for no more finds the same, and leaves the cache. *)
Lemma child_again c o n k :
  0 <= k <= n -> k <= child_available c n ->
  let c' := child_at c o (add32 (c_read_count c) k) (child_cache c n) in
  child_available c' (n - k) = child_available c n - k /\
  child_cache c' (n - k) = child_cache c n.
Proof.
  intros Hk Hka c'. pose proof (child_available_sub c n) as Hs.
  assert (sub32 (child_cache c n) (add32 (c_read_count c) k) = child_available c n - k) as Ha.
  { rewrite Hs in *. apply sub32_add. lia. }
  clear Hs. unfold c', child_available, child_cache in *.
  cbn [child_at c_cache_written c_read_count].
  destruct (sub32 (c_cache_written c) (c_read_count c) <? n) eqn:E; to_props; rewrite Ha.
  - by case_if.
  - by rewrite (proj2 (Z.ltb_ge _ _)) by lia.
Qed.

Lemma read_child_loop_spec fuel c n :
  node_written c ->
  ring_ok (c_base c) len (c_read_offset c) -> 0 <= n -> u32 (c_read_count c) ->
  turns len (c_read_offset c) n <= Z.of_nat fuel ->
  let k := Z.min n (child_available c n) in
  read_child_loop fuel m len false c n =
  Ret (child_at c (ring_next len (c_read_offset c) k) (add32 (c_read_count c) k)
         (child_cache c n),
       ring_bytes m (c_base c) len (c_read_offset c) (Z.to_nat k),
       if n <=? child_available c n then Full else Waits).
Proof.
  revert c n. induction fuel as [|fuel IH]; intros c n Hload Hok Hn Hrc Hf k.
  { unfold turns in Hf. destruct (_ =? len); cbn in Hf; lia. }
  assert (0 <= child_available c n) as Hav0
    by (rewrite child_available_sub; apply sub32_range).
  cbn [read_child_loop]. rewrite (until_wrap_val (c_base c)) by done.
  pose proof (ok_len _ _ _ Hok). pose proof (ok_offset _ _ _ Hok).
  destruct (Z.eqb_spec (len - c_read_offset c) 0) as [Hw|Hw].
  { assert (c_read_offset c = len) as Ho by lia. rewrite Ho in Hok |- *.
    rewrite IH; cbn [child_at c_read_offset c_read_count c_base node]; try done.
    - change (child_available (child_at c 0 (c_read_count c) (c_cache_written c)) n)
        with (child_available c n).
      change (child_cache (child_at c 0 (c_read_count c) (c_cache_written c)) n)
        with (child_cache c n).
      by rewrite ring_next_wrap, ring_bytes_wrap by lia.
    - by apply ring_ok_wrap.
    - unfold turns in *. rewrite Ho, Z.eqb_refl in Hf. cbn in Hf.
      rewrite (proj2 (Z.eqb_neq 0 len)) by lia. cbn. lia. }
  destruct (Z.eqb_spec n 0) as [->|Hn0].
  { unfold k, ring_next, child_cache in *. rewrite (proj2 (Z.leb_le 0 _)) by done.
    rewrite (proj2 (Z.ltb_ge _ 0)) by apply sub32_range.
    rewrite Z.min_l by done. rewrite add32_small, !Z.add_0_r, Z.mod_small by lia.
    by destruct c. }
  rewrite (available_spec c n) by done. cbn [mbind outcome_bind].
  destruct (Z.eqb_spec (child_available c n) 0) as [Ha|Ha].
  { destruct (child_again c (c_read_offset c) n 0 ltac:(lia) ltac:(lia)) as [_ Hc].
    rewrite add32_small, Z.add_0_r in Hc by lia. rewrite Z.sub_0_r in Hc.
    rewrite available_spec by done. rewrite Hc. cbn [mbind outcome_bind].
    unfold k. rewrite Ha, Z.min_r, (proj2 (Z.leb_gt n 0)) by lia.
    unfold ring_next. rewrite add32_small, !Z.add_0_r, Z.mod_small by lia. done. }
  remember (copy_count _ n _) as j eqn:Hj.
  destruct (chunk_spec (c_base c) len (c_read_offset c) n (child_available c n) Hok
    ltac:(lia) ltac:(lia) ltac:(lia) j Hj) as (Hj1 & Hj2 & Hj3 & Hadd & Hok').
  cbn [child_at c_base c_read_offset c_read_count c_cache_written].
  rewrite (copy_to_ring m (c_base c) len) by (done || lia).
  cbn [mbind outcome_bind]. rewrite Hadd.
  change (child_at (child_at c (c_read_offset c) (c_read_count c) (child_cache c n)) ?x ?y ?z)
    with (child_at c x y z).
  destruct (child_again c (c_read_offset c + j) n j ltac:(lia) Hj2) as [Ha' Hc'].
  rewrite IH; cbn [child_at c_read_offset c_read_count c_base node]; try done; try lia.
  - fold (child_at c (c_read_offset c + j) (add32 (c_read_count c) j) (child_cache c n)).
    rewrite Ha', Hc'. cbn [mbind outcome_bind].
    replace (Z.min (n - j) (child_available c n - j)) with (k - j) by lia.
    rewrite ring_next_add, add32_add, (ring_bytes_split _ _ _ _ j k) by lia.
    replace (j + (k - j)) with k by lia.
    replace (n - j <=? child_available c n - j) with (n <=? child_available c n)
      by (destruct (Z.leb_spec n (child_available c n)), (Z.leb_spec (n - j) (child_available c n - j)); done || lia).
    done.
  - apply add32_range.
  - pose proof (turns_copied len (c_read_offset c) j n Hj1). lia.
Qed.
End ChildRead.

(** ** The reads, whole *)

Lemma turns_fuel len o n : 0 <= n -> turns len o n <= Z.of_nat (read_fuel n).
Proof. intros Hn. unfold turns, read_fuel. destruct (_ =? len); cbn [Z.b2z]; lia. Qed.

Definition readable (g : Ring) (len : Z) : Prop :=
  match g with
  | Root r =>
      ring_ok (r_base r) len (r_read_offset r) /\ u32 (r_pending_advance r) /\
      u32 (r_written r) /\ u32 (r_read r)
  | Child c => ring_ok (c_base c) len (c_read_offset c) /\ u32 (c_read_count c)
  end.

(** Nothing read since the last advance. *)
Definition committed (g : Ring) : Prop :=
  match g with
  | Root r => r_last_read_offset r = r_read_offset r /\ r_pending_advance r = 0
  | Child c => c_last_read_offset c = c_read_offset c /\ c_last_read_count c = c_read_count c
  end.

Lemma read_root_full m len r n :
  readable (Root r) len -> 0 <= n -> r_written r <> r_read r ->
  read_root m len false r n =
  Ret (root_at r (ring_next len (r_read_offset r) n) (add32 (r_pending_advance r) n),
       ring_bytes m (r_base r) len (r_read_offset r) (Z.to_nat n), Full).
Proof.
  intros (Hok & Hp & Hw & Hr) Hn Hne. apply read_root_loop_full; try done.
  - pose proof (sub32_range (r_written r) (r_read r)).
    assert (sub32 (r_written r) (r_read r) <> 0); [|lia].
    word_unfold. Z.to_euclidean_division_equations. lia.
  - by apply turns_fuel.
Qed.

Lemma read_child_any m len w c n :
  readable (Child c) len -> 0 <= n -> node_written m w c ->
  let k := Z.min n (child_available w c n) in
  read_child m len false c n =
  Ret (child_at c (ring_next len (c_read_offset c) k) (add32 (c_read_count c) k)
         (child_cache w c n),
       ring_bytes m (c_base c) len (c_read_offset c) (Z.to_nat k),
       if n <=? child_available w c n then Full else Waits).
Proof.
  intros (Hok & Hrc) Hn Hw. apply read_child_loop_spec; try done. by apply turns_fuel.
Qed.

(** A read of the root's ring while the guest's [written] differs from the
    published [read] fills the whole buffer with the ring's next bytes, wrapping
    where the ring ends, counts them as pending and leaves the cursor at the
    next byte; it never waits, whatever the distance. With the two equal it waits
    with nothing copied, unless nothing is asked for. *)
Theorem read_root_spec m len r n :
  readable (Root r) len -> 0 <= n ->
  let o := r_read_offset r in
  (r_written r <> r_read r ->
   read_root m len false r n =
   Ret (root_at r ((o + n) mod len) (add32 (r_pending_advance r) n),
        ring_bytes m (r_base r) len o (Z.to_nat n), Full)) /\
  (r_written r = r_read r ->
   read_root m len false r n =
   Ret (root_at r (o mod len) (r_pending_advance r), [], if n =? 0 then Full else Waits)).
Proof.
  intros Hr Hn o. split; [by apply read_root_full|]. intros He.
  destruct Hr as (Hok & Hp & Hw & Hr). unfold read_root, read_fuel.
  cbn [Nat.add read_root_loop]. rewrite (until_wrap_val (r_base r)) by done.
  pose proof (ok_len _ _ _ Hok). pose proof (ok_offset _ _ _ Hok).
  assert (sub32 (r_written r) (r_read r) = 0) as Hz by (rewrite He; unfold sub32; by rewrite Z.sub_diag).
  destruct (Z.eqb_spec (len - r_read_offset r) 0).
  - unfold o. replace (r_read_offset r) with len by lia. rewrite Z.mod_same by lia.
    cbn [root_at r_read_offset r_written r_read].
    rewrite sub32_small, Z.sub_0_r, (proj2 (Z.eqb_neq len 0)), Hz by lia. by case_if.
  - unfold o. rewrite Z.mod_small, Hz by lia.
    assert (root_at r (r_read_offset r) (r_pending_advance r) = r) as -> by by destruct r.
    by case_if.
Qed.

(** A read of a child's ring takes the ring's next bytes, wrapping where the
    ring ends, and never more than the node's [written] (the cached one while it
    suffices) says: all of them when enough are written, and otherwise what is
    written, waiting for the rest. The read count counts every byte copied. *)
Theorem read_child_spec m len w c n :
  readable (Child c) len -> 0 <= n -> node_written m w c ->
  let cached := sub32 (c_cache_written c) (c_read_count c) in
  let available := if cached <? n then sub32 w (c_read_count c) else cached in
  let k := Z.min n available in
  read_child m len false c n =
  Ret (child_at c ((c_read_offset c + k) mod len) (add32 (c_read_count c) k)
         (if cached <? n then w else c_cache_written c),
       ring_bytes m (c_base c) len (c_read_offset c) (Z.to_nat k),
       if n <=? available then Full else Waits).
Proof. intros Hr Hn Hw. by apply (read_child_any m len w c n). Qed.

Lemma readable_wrap base len o : ring_ok base len o -> forall k,
  ring_ok base len (ring_next len o k).
Proof.
  intros [Hl Hb Ho] k. split; [done|done|]. unfold ring_next.
  pose proof (Z.mod_pos_bound (o + k) len). lia.
Qed.

(** a rejected command is read again. From a ring with nothing read since the
    last advance, a full read then a rewind returns the cursor to where it was,
    and the same read gives the same bytes and the same cursor. *)
Theorem rewind_rereads m len g n g1 bs w :
  readable g len -> committed g -> 0 <= n ->
  match g with Root r => r_written r <> r_read r | Child c => node_written m w c end ->
  read_bytes m len false g n = Ret (g1, bs, Full) ->
  latch_offset (rewind g1) = latch_offset g /\ committed (rewind g1) /\
  exists g2, read_bytes m len false (rewind g1) n = Ret (g2, bs, Full) /\
    latch_offset g2 = latch_offset g1.
Proof.
  intros Hr Hc Hn Hw. destruct g as [r|c]; cbn [read_bytes].
  - destruct Hc as [Hl Hp]. rewrite read_root_full by done. cbn [mbind outcome_bind].
    intros [= <- <-].
    assert (forall x y, rewind (Root (root_at r x y)) = Root r) as Hre
      by (intros; destruct r; cbn in *; by subst).
    rewrite Hre. split_and!; [done|done|]. cbn [read_bytes]. rewrite read_root_full by done.
    eexists. split; [reflexivity|]. done.
  - destruct Hc as [Hl Hp]. rewrite (read_child_any m len w c n) by done.
    cbn [mbind outcome_bind]. intros [= <- <- Hfull].
    destruct (Z.leb_spec n (child_available w c n)) as [Hle|]; [|done].
    rewrite Z.min_l by lia.
    set (c1 := child_at c (c_last_read_offset c) (c_last_read_count c) (child_cache w c n)).
    change (rewind (Child (child_at c (ring_next len (c_read_offset c) n)
      (add32 (c_read_count c) n) (child_cache w c n)))) with (Child c1).
    cbn [latch_offset]. split_and!; [done|done|]. destruct Hr as [Hok Hrc].
    assert (child_available w c1 n = child_available w c n) as Ha.
    { unfold child_available, c1, child_cache in *.
      cbn [child_at c_cache_written c_read_count]. rewrite Hp.
      destruct (sub32 (c_cache_written c) (c_read_count c) <? n) eqn:E; [by case_if|].
      by rewrite E. }
    cbn [read_bytes]. rewrite (read_child_any m len w c1 n); [| |done|exact Hw].
    + rewrite Ha. rewrite (proj2 (Z.leb_le n (child_available w c n)) Hle), Z.min_l by lia.
      cbn [mbind outcome_bind]. unfold c1.
      cbn [child_at c_read_offset c_read_count c_base]. rewrite Hl.
      eexists. split; [reflexivity|]. done.
    + unfold c1. cbn [readable child_at c_base c_read_offset c_read_count]. by rewrite Hl, Hp.
Qed.

Lemma store_load_seqcst stopped ended m m' self off v (death : FifoDeathKind) :
  u32 v -> store_seqcst_u32 (R:=Empty_set) stopped ended m self off v death = Ret m' ->
  load_seqcst_u32 (R:=Empty_set) m' self off death = Ret v /\
  forall x, (x < add64 self off \/ add64 self off + 4 <= x) -> m' x = m x.
Proof.
  intros Hv. unfold store_seqcst_u32, load_seqcst_u32. intros H. inv_bind H.
  injection H as <-. rewrite Hm0. cbn [mbind outcome_bind].
  assert (a0 = add64 self off) as ->.
  { unfold atomic_address, check in Hm0. repeat case_if; try done; cbn in Hm0;
      repeat case_if; congruence. }
  match goal with |- context [store_at m _ ?l] => change l with (le_bytes 4 v) end.
  split.
  - pose proof (bytes_at_store m (add64 self off) (le_bytes 4 v)) as Hb.
    rewrite length_le_bytes in Hb. by rewrite Hb, of_le_bytes_4.
  - intros x Hx. apply store_at_out. by rewrite length_le_bytes.
Qed.

(** An advance publishes exactly the bytes read since the last one. After a
    full read of [n] bytes from a ring with nothing pending, the root's [read]
    register, or the read count in the child's node (and nothing else of the
    guest's memory), has moved by [n], the cursor stays, and a rewind would return
    to it. *)
Theorem advance_publishes stopped ended m m' len g n g1 g2 bs w :
  readable g len -> committed g -> 0 <= n ->
  match g with Root r => r_written r <> r_read r | Child c => node_written m w c end ->
  read_bytes m len false g n = Ret (g1, bs, Full) ->
  advance stopped ended m g1 = Ret (m', g2) ->
  committed g2 /\ readable g2 len /\ latch_offset g2 = latch_offset g1 /\
  match g, g2 with
  | Root r, Root r2 => r_read r2 = add32 (r_read r) n /\ m' = m
  | Child c, Child c2 =>
      c_read_count c2 = add32 (c_read_count c) n /\
      load_seqcst_u32 (R:=Empty_set) m' (node c) NODE_READ_COUNT NodeNull
        = Ret (add32 (c_read_count c) n) /\
      forall x, (x < add64 (node c) NODE_READ_COUNT \/
        add64 (node c) NODE_READ_COUNT + 4 <= x) -> m' x = m x
  | _, _ => False
  end.
Proof.
  intros Hr Hc Hn Hw. destruct g as [r|c]; cbn [read_bytes].
  - destruct Hc as [Hl Hp]. rewrite read_root_full by done. cbn [mbind outcome_bind].
    intros [= <- <-] [= <- <-]. destruct Hr as (Hok & _ & Hwr & Hrd).
    split_and!; try done.
    + cbn [readable]. cbn [r_base r_read_offset r_pending_advance r_written r_read].
      split; [by apply readable_wrap|]. split; [done|]. split; [done|apply add32_range].
    + cbn [r_read root_at r_pending_advance]. rewrite Hp. unfold add32, w32. by rewrite Zplus_mod_idemp_r.
  - destruct Hc as [Hl Hp]. rewrite (read_child_any m len w c n) by done.
    cbn [mbind outcome_bind]. intros [= <- <- Hfull].
    destruct (Z.leb_spec n (child_available w c n)) as [Hle|]; [|done].
    rewrite Z.min_l by lia. cbn [advance child_at node c_read_count c_read_offset].
    intros H. inv_bind H. injection H as <- <-.
    apply store_load_seqcst in Hm as [Hld Hout]; [|apply add32_range].
    destruct Hr as [Hok Hrc]. split_and!; try done.
    split; [by apply readable_wrap|apply add32_range].
Qed.

(** ** The page list *)

Section PageList.
Context {target : GuestRecords.Target}.

Definition listed_page (m : memory) (address index : Z) : Z :=
  of_le_bytes (bytes_at m (address + 4 * index) 4).

(** The list's pages from [index], up to the first zero entry. *)
Fixpoint listed (m : memory) (address index : Z) (n : nat) : list Z :=
  match n with
  | O => []
  | S n =>
      let page := listed_page m address index in
      if page =? 0 then [] else page :: listed m address (index + 1) n
  end.

Definition list_ok (address : Z) : Prop :=
  ZERO_REGION_END <= address /\ address + GuestRecords.APV_PAGE_SIZE < M64.

Lemma page_sizes : GuestRecords.APV_PAGE_SIZE = 4 * PAGE_LIST_ENTRIES /\
  1024 <= PAGE_LIST_ENTRIES <= 4096.
Proof.
  unfold PAGE_LIST_ENTRIES, GuestRecords.APV_PAGE_SIZE, GuestRecords.APV_PAGE_SHIFT.
  destruct GuestRecords.arch; vm_compute; intuition congruence.
Qed.

Lemma entry_spec m address index :
  list_ok address -> 0 <= index < PAGE_LIST_ENTRIES ->
  entry m address index = Ret (listed_page m address index).
Proof.
  intros [Hz Hm] Hi. pose proof page_sizes. pose proof M64_val.
  unfold ZERO_REGION_END in *. unfold entry, read_u32, read_n.
  rewrite mul64_small by lia. rewrite check_ok; [|lia|unfold ZERO_REGION_END; lia|lia].
  cbn [mbind outcome_bind]. unfold listed_page. do 4 f_equal. lia.
Qed.

Lemma count_pages_spec m address n index :
  list_ok address -> 0 <= index -> index + Z.of_nat n = PAGE_LIST_ENTRIES ->
  count_pages n m address index = Ret (index + Z.of_nat (length (listed m address index n))).
Proof.
  intros Hok. pose proof page_sizes. revert index. induction n as [|n IH]; intros index Hi Hn.
  - cbn. by rewrite Z.add_0_r.
  - cbn [count_pages listed]. rewrite (proj2 (Z.ltb_lt index PAGE_LIST_ENTRIES)) by lia.
    rewrite entry_spec by (done || lia). cbn [mbind outcome_bind].
    destruct (listed_page m address index =? 0); [cbn; by rewrite Z.add_0_r|].
    unfold Num.low_u16. rewrite Z.mod_small, IH by lia. f_equal. cbn [length]. lia.
Qed.

Lemma listed_range m address index n : Forall (fun p => 0 < p < M32) (listed m address index n).
Proof.
  revert index. induction n as [|n IH]; intros index; [constructor|]. cbn [listed].
  case_if; [constructor|]. constructor; [|apply IH].
  pose proof (of_le_bytes_u32 (bytes_at m (address + 4 * index) 4) ltac:(done)).
  unfold listed_page in *. lia.
Qed.

Lemma page_ranges_spec m address n index :
  list_ok address -> 0 <= index -> index + Z.of_nat n <= PAGE_LIST_ENTRIES ->
  page_ranges m address index (length (listed m address index n)) =
  Ret (map (fun p => MemoryMap.MkPhysRange (mul64 p GuestRecords.APV_PAGE_SIZE)
                       GuestRecords.APV_PAGE_SIZE) (listed m address index n)).
Proof.
  intros Hok. revert index. induction n as [|n IH]; intros index Hi Hn; [done|].
  cbn [listed]. destruct (listed_page m address index =? 0); [done|].
  cbn [length page_ranges map]. rewrite entry_spec by (done || lia).
  cbn [mbind outcome_bind]. rewrite IH by lia. done.
Qed.

(** A child's start maps the pages its node's page list names, in order, up
    to the first zero entry: none named, nothing changes; otherwise the ring is
    as long as the pages named whether or not the device could map them, it is
    at the mapping (NULL without one), and the cursor is at the node's read
    count modulo that length. *)
Theorem map_child_ring_spec {device : DeviceMappings} m s page m1 lm count :
  let c := ring s in
  read_u32 (R:=Empty_set) m (node c) NODE_PAGE_LIST_PAGE NodeNull = Ret page ->
  new_contiguous_mapping m page GuestRecords.APV_PAGE_SIZE = (m1, Some lm) ->
  list_ok (MemoryMap.m_address lm) ->
  let pages := listed m1 (MemoryMap.m_address lm) 0 (Z.to_nat PAGE_LIST_ENTRIES) in
  let length_ := Z.of_nat (length pages) * GuestRecords.APV_PAGE_SIZE in
  let '(m2, new) := new_range_mapping (release m1 lm)
    (map (fun p => MemoryMap.MkPhysRange (p * GuestRecords.APV_PAGE_SIZE)
            GuestRecords.APV_PAGE_SIZE) pages) length_ false in
  load_seqcst_u32 (R:=Empty_set) m2 (node c) NODE_READ_COUNT NodeNull = Ret count ->
  (pages = [] -> map_child_ring true m s = Ret (release m1 lm, s, false)) /\
  (pages <> [] -> exists s', map_child_ring true m s = Ret (m2, s', bool_decide (is_Some new)) /\
     ring_length s' = length_ /\ mapping s' = new /\
     kept s' = kept s ++ option_list (mapping s) /\
     c_base (ring s') = default 0 (MemoryMap.m_address <$> new) /\
     c_read_offset (ring s') = count mod length_ /\
     c_last_read_offset (ring s') = count mod length_ /\
     c_read_count (ring s') = c_read_count c).
Proof.
  intros c Hpage Hlm Hok pages len. pose proof page_sizes as [Hsz Hn].
  assert (map (fun p => MemoryMap.MkPhysRange (p * GuestRecords.APV_PAGE_SIZE)
      GuestRecords.APV_PAGE_SIZE) pages =
    map (fun p => MemoryMap.MkPhysRange (mul64 p GuestRecords.APV_PAGE_SIZE)
      GuestRecords.APV_PAGE_SIZE) pages) as Hranges.
  { apply map_ext_in. intros p Hp. f_equal. symmetry. apply mul64_small.
    pose proof (listed_range m1 (MemoryMap.m_address lm) 0 (Z.to_nat PAGE_LIST_ENTRIES)) as Hr.
    apply (proj1 (List.Forall_forall _ _) Hr) in Hp. rewrite M32_val in Hp.
    rewrite M64_val. nia. }
  destruct (new_range_mapping _ _ len false) as [m2 new] eqn:Hnew. intros Hcount.
  assert (length pages <= Z.to_nat PAGE_LIST_ENTRIES)%nat as Hlen.
  { unfold pages. generalize 0 (Z.to_nat PAGE_LIST_ENTRIES).
    intros i k. revert i. induction k as [|k IH]; intros i; cbn [listed]; [done|].
    destruct (_ =? 0); cbn [length]; [lia|]. specialize (IH (i + 1)). lia. }
  assert (Num.low_u32 (mul64 (Z.of_nat (length pages)) GuestRecords.APV_PAGE_SIZE) = len) as Hl.
  { unfold Num.low_u32, len. rewrite mul64_small, w32_small; rewrite ?M64_val, ?M32_val; nia. }
  unfold map_child_ring. fold c. rewrite Hpage. cbn [mbind outcome_bind]. rewrite Hlm.
  rewrite count_pages_spec by (done || lia). cbn [mbind outcome_bind].
  rewrite Z.add_0_l. fold pages. split; intros Hp.
  - rewrite Hp. done.
  - rewrite (proj2 (Z.eqb_neq _ 0)) by (destruct pages; [done|cbn [length]; lia]).
    rewrite Nat2Z.id.
    pose proof (page_ranges_spec m1 (MemoryMap.m_address lm) (Z.to_nat PAGE_LIST_ENTRIES) 0
      Hok ltac:(lia) ltac:(lia)) as Hpr.
    fold pages in Hpr. rewrite Hpr. cbn [mbind outcome_bind]. rewrite Hl, <- Hranges, Hnew, Hcount.
    cbn [mbind outcome_bind]. eexists. split.
    + do 3 f_equal. by destruct new.
    + cbn. assert (0 < len) as Hpos by (destruct pages; [done|]; unfold len; cbn [length]; nia).
      unfold Num.rem0. rewrite (proj2 (Z.eqb_neq len 0)) by lia.
      split_and!; try done; by destruct new.
Qed.
End PageList.

(** ** Witnesses: rings of 16 bytes with the cursor at 12, so that a read of six
    bytes wraps. *)

Definition sample_root : RootRing := MkRootRing 0 0x200000000 12 12 10 4 0 NO_FAULT_OFFSET.
Definition sample_child : ChildRing :=
  MkChildRing 0x100000100 1 0x200000000 12 12 4 4 7 NO_FAULT_OFFSET.

Definition sample_bytes : list byte := map byte_of_Z [12; 13; 14; 15; 0; 1].

Lemma sample_root_readable : readable (Root sample_root) 16.
Proof. repeat split; vm_compute; congruence. Qed.

Lemma sample_child_readable : readable (Child sample_child) 16.
Proof. repeat split; vm_compute; congruence. Qed.

Lemma sample_node_written : node_written sample 0x03020100 sample_child.
Proof. vm_compute. reflexivity. Qed.

Lemma read_root_spec_witness :
  readable (Root sample_root) 16 /\
  read_root sample 16 false sample_root 6 = Ret (root_at sample_root 2 6, sample_bytes, Full).
Proof.
  split; [exact sample_root_readable|].
  destruct (read_root_spec sample 16 sample_root 6 sample_root_readable ltac:(lia)) as [H _].
  rewrite H by (cbn; lia). vm_compute. reflexivity.
Defined.

Lemma read_child_spec_witness :
  readable (Child sample_child) 16 /\
  read_child sample 16 false sample_child 6 =
    Ret (child_at sample_child 2 10 0x03020100, sample_bytes, Full).
Proof.
  split; [exact sample_child_readable|].
  pose proof (read_child_spec sample 16 0x03020100 sample_child 6 sample_child_readable
    ltac:(lia) sample_node_written) as H. cbv zeta in H. rewrite H. vm_compute. reflexivity.
Defined.

Lemma rewind_rereads_witness :
  let g1 := Child (child_at sample_child 2 10 0x03020100) in
  committed (Child sample_child) /\
  latch_offset (rewind g1) = 12 /\
  exists g2, read_bytes sample 16 false (rewind g1) 6 = Ret (g2, sample_bytes, Full) /\
    latch_offset g2 = latch_offset g1.
Proof.
  split; [done|].
  destruct (rewind_rereads sample 16 (Child sample_child) 6
    (Child (child_at sample_child 2 10 0x03020100)) sample_bytes 0x03020100) as (H1 & _ & H2).
  - exact sample_child_readable.
  - done.
  - lia.
  - exact sample_node_written.
  - vm_compute. reflexivity.
  - split; [exact H1|exact H2].
Defined.

Lemma advance_publishes_witness :
  let g1 := Root (root_at sample_root 2 6) in
  let g2 := Root (MkRootRing 0 0x200000000 2 2 10 10 0 NO_FAULT_OFFSET) in
  read_bytes sample 16 false (Root sample_root) 6 = Ret (g1, sample_bytes, Full) /\
  advance NodeNull false sample g1 = Ret (sample, g2) /\
  committed g2.
Proof.
  split; [vm_compute; reflexivity|]. split; [reflexivity|].
  destruct (advance_publishes NodeNull false sample sample 16 (Root sample_root) 6
    (Root (root_at sample_root 2 6))
    (Root (MkRootRing 0 0x200000000 2 2 10 10 0 NO_FAULT_OFFSET)) sample_bytes 0) as [H _].
  - exact sample_root_readable.
  - done.
  - lia.
  - cbn. lia.
  - vm_compute. reflexivity.
  - reflexivity.
  - exact H.
Defined.

(** A device that shows the list page with the pages 5 and 7. *)
Definition sample_device : DeviceMappings := {|
  new_contiguous_mapping m page length :=
    (store_at m 0x300000000 (le_bytes 4 5 ++ le_bytes 4 7 ++ le_bytes 4 0),
     Some (MemoryMap.MkMapping 0x300000000 length true MemoryMap.TVm));
  new_range_mapping m ranges length read_only :=
    (m, Some (MemoryMap.MkMapping 0x400000000 length true MemoryMap.TVm));
  release m mapping := m;
|}.

Definition sample_child_state : ChildState := MkChildState sample_child 0 None [].

Lemma map_child_ring_spec_witness :
  exists s', map_child_ring (target:=GuestRecords.X86_64) (device:=sample_device) true sample
      sample_child_state
    = Ret (store_at sample 0x300000000 (le_bytes 4 5 ++ le_bytes 4 7 ++ le_bytes 4 0), s', true) /\
    ring_length s' = 0x2000.
Proof.
  pose proof (map_child_ring_spec (target:=GuestRecords.X86_64) (device:=sample_device) sample
    sample_child_state 0x13121110 (store_at sample 0x300000000 (le_bytes 4 5 ++ le_bytes 4 7 ++ le_bytes 4 0))
    (MemoryMap.MkMapping 0x300000000 0x1000 true MemoryMap.TVm) 0x07060504) as H.
  cbv zeta in H.
  specialize (H ltac:(vm_compute; reflexivity) eq_refl
    ltac:(split; vm_compute; congruence)).
  set (mem1 := store_at sample _ _) in *.
  assert (listed mem1 0x300000000 0
    (Z.to_nat (PAGE_LIST_ENTRIES (target:=GuestRecords.X86_64))) = [5; 7]) as Hl
    by (vm_compute; reflexivity).
  cbn [MemoryMap.m_address] in H. rewrite Hl in H.
  cbn [new_range_mapping release sample_device] in H.
  destruct H as [_ H]; [vm_compute; reflexivity|].
  destruct H as (s' & Hs & Hlen & _); [done|]. exists s'. split; [exact Hs|].
  rewrite Hlen. vm_compute. reflexivity.
Defined.

End Ring.
