(* ===== verification/Wire.v ===== *)
(** * Wire: what the guest writes into a ring (src/crates/reims-vgpu-core/src/fifo/wire.rs)

    The command header, the barrier records, the reads of a command's payload
    and the record arrays handed on to a task or a guest display. The decoding of
    one record ([FromBytes]) is the class [WireRecord]; its law is what the
    derived decoding of a packed little-endian struct documents. *)

From S2P Require Import Prelude.

Module Wire.

(** ** The header and the barriers *)

Record FifoCommand := MkFifoCommand {
  command_id : Z;
  barrier_count : Z;
  clength : Z;
  cstamp : Z;
}.

Record StampWait := MkStampWait { index : Z; wvalue : Z }.

Definition COMMAND_HEADER_SIZE : Z := 12.
Definition HEADER_LEN : Z := 12.
Definition STAMP_WAIT_LEN : Z := 8.
Definition MAX_BARRIERS : Z := 64.
Definition BARRIER_BYTES_MAX : Z := 64 * 8.

(** The 12 bytes of a header, and the header of 12 bytes. *)
Definition command_bytes (c : FifoCommand) : list byte :=
  le_bytes 2 (command_id c) ++ le_bytes 2 (barrier_count c) ++
  le_bytes 4 (clength c) ++ le_bytes 4 (cstamp c).
Definition command_of_bytes (bs : list byte) : FifoCommand :=
  MkFifoCommand (of_le_bytes (take 2 bs)) (of_le_bytes (take 2 (drop 2 bs)))
    (of_le_bytes (take 4 (drop 4 bs))) (of_le_bytes (take 4 (drop 8 bs))).

(** ** A payload's fields: a read past the end reads zeros *)

Definition tail (p : list byte) (off : Z) : list byte :=
  if off <=? Z.of_nat (length p) then drop (Z.to_nat off) p else [].

Definition at_n (n : nat) (p : list byte) (off : Z) : list byte :=
  if (off + Z.of_nat n <? M64) && (off + Z.of_nat n <=? Z.of_nat (length p))
  then take n (drop (Z.to_nat off) p) else replicate n x00.

Definition p_u8 (p : list byte) (off : Z) : Z :=
  match p !! Z.to_nat off with Some b => Z_of_byte b | None => 0 end.
Definition p_u16 (p : list byte) (off : Z) : Z := of_le_bytes (at_n 2 p off).
Definition p_u32 (p : list byte) (off : Z) : Z := of_le_bytes (at_n 4 p off).
Definition p_u64 (p : list byte) (off : Z) : Z := of_le_bytes (at_n 8 p off).

(** ** Record arrays *)

Class WireRecord (T : Type) := {
  stride_nat : nat;
  encode : T -> list byte;
  decode : list byte -> T;
}.
Class WireRecordLaws (T : Type) `{WireRecord T} := {
  wire_stride : 0 < Z.of_nat stride_nat < M32;
  wire_length x : length (encode x) = stride_nat;
}.

#[global] Instance stamp_wait_record : WireRecord StampWait := {|
  stride_nat := 8;
  encode w := le_bytes 4 (index w) ++ le_bytes 4 (wvalue w);
  decode bs := MkStampWait (of_le_bytes (take 4 bs)) (of_le_bytes (take 4 (drop 4 bs)));
|}.
#[global] Instance stamp_wait_laws : WireRecordLaws StampWait.
Proof. split; [done|]. intros x. cbn [encode stamp_wait_record]. by rewrite length_app, !length_le_bytes. Qed.

Record Records (T : Type) := MkRecords { bytes : list byte; count : Z }.
Arguments MkRecords {T} bytes count.
Arguments bytes {T} r.
Arguments count {T} r.

Section Records.
Context {T : Type} `{WireRecord T}.

Definition stride : Z := Z.of_nat stride_nat.

Definition records_new (bs : list byte) (n : Z) : option (Records T) :=
  let need := mul64 n stride in
  if Z.of_nat (length bs) <? need then None else Some (MkRecords bs n).

Definition empty : Records T := MkRecords [] 0.

(** [None] past the count, and where the bytes left are short of a record. *)
Definition get (r : Records T) (i : Z) : option T :=
  if count r <=? i then None
  else
    let at_ := mul64 i stride in
    if Z.of_nat (length (bytes r)) <? at_ then None
    else
      let rest := drop (Z.to_nat at_) (bytes r) in
      if (length rest <? stride_nat)%nat then None
      else Some (decode (take stride_nat rest)).

Definition iter (r : Records T) : list T :=
  omap (fun i => get r (Z.of_nat i)) (seq 0 (Z.to_nat (count r))).
Definition to_vec (r : Records T) : list T := iter r.

Definition as_bytes (r : Records T) : list byte :=
  let n := mul64 (count r) stride in
  if n <=? Z.of_nat (length (bytes r)) then take (Z.to_nat n) (bytes r) else bytes r.

Definition payload_records (p : list byte) (off n : Z) : Records T :=
  default empty (records_new (tail p off) n).
End Records.

(** ** Properties *)

Lemma take_app_le {A} n (l1 l2 : list A) : length l1 = n -> take n (l1 ++ l2) = l1.
Proof. intros <-. apply take_app_length. Qed.
Lemma drop_app_le {A} n (l1 l2 : list A) : length l1 = n -> drop n (l1 ++ l2) = l2.
Proof. intros <-. apply drop_app_length. Qed.

Definition command_ok (c : FifoCommand) : Prop :=
  u16 (command_id c) /\ u16 (barrier_count c) /\ u32 (clength c) /\ u32 (cstamp c).

Lemma of_le_bytes_2 z : u16 z -> of_le_bytes (le_bytes 2 z) = z.
Proof. intros Hz. rewrite of_le_bytes_le_bytes. by apply Z.mod_small. Qed.

Lemma header_fields (a b d e : list byte) :
  length a = 2%nat -> length b = 2%nat -> length d = 4%nat -> length e = 4%nat ->
  command_of_bytes (a ++ b ++ d ++ e) =
  MkFifoCommand (of_le_bytes a) (of_le_bytes b) (of_le_bytes d) (of_le_bytes e).
Proof.
  intros Ha Hb Hd He.
  destruct a as [|a0 [|a1 [|? ?]]]; try done. destruct b as [|b0 [|b1 [|? ?]]]; try done.
  destruct d as [|d0 [|d1 [|d2 [|d3 [|? ?]]]]]; try done.
  by destruct e as [|e0 [|e1 [|e2 [|e3 [|? ?]]]]].
Qed.

Lemma command_roundtrip c : command_ok c -> command_of_bytes (command_bytes c) = c.
Proof.
  intros (H1 & H2 & H3 & H4). unfold command_bytes.
  rewrite header_fields by apply length_le_bytes.
  rewrite !of_le_bytes_2, !of_le_bytes_4 by assumption. by destruct c.
Qed.

Section RecordLaws.
Context {T : Type} `{WireRecordLaws T}.

Lemma length_encoded (l : list T) :
  length (concat (map encode l)) = (length l * stride_nat)%nat.
Proof.
  induction l as [|x l IH]; [done|]. cbn [map concat length Nat.mul].
  rewrite length_app, IH, wire_length. lia.
Qed.

Lemma encoded_at (l1 : list T) x l2 rest :
  take stride_nat (drop (length l1 * stride_nat) (concat (map encode (l1 ++ x :: l2)) ++ rest))
    = encode x.
Proof.
  rewrite map_app, concat_app, <- app_assoc, drop_app_le by apply length_encoded.
  cbn [map concat]. rewrite <- app_assoc. apply take_app_le, wire_length.
Qed.

(** A record array read back. An array of [n] records and whatever follows
    it is accepted, the record at each index below [n] is the one written there,
    none is past it, the copy is the list of records and the bytes sent on are
    the array's and nothing more. *)
Theorem records_read_back (l : list T) rest :
  let n := Z.of_nat (length l) in
  u32 n -> Forall (fun x => decode (encode x) = x) l ->
  exists r, records_new (concat (map encode l) ++ rest) n = Some r /\
    (forall i x, get r (Z.of_nat i) = Some x <-> l !! i = Some x) /\
    to_vec r = l /\ as_bytes r = concat (map encode l).
Proof.
  intros n Hn Hlaw. pose proof wire_stride as Hs.
  set (bs := concat (map encode l)) in *.
  assert (Z.of_nat (length bs) = n * stride) as Hlen.
  { unfold bs, n, stride. rewrite length_encoded. lia. }
  assert (forall k, 0 <= k <= n -> mul64 k stride = k * stride) as Hmul.
  { intros k Hk. apply mul64_small. unfold stride. rewrite M32_val in *. rewrite M64_val. nia. }
  exists (MkRecords (bs ++ rest) n).
  assert (forall i, get (MkRecords (bs ++ rest) n) (Z.of_nat i) = l !! i) as Hget.
  { intros i. unfold get. cbn [count bytes].
    destruct (l !! i) as [x|] eqn:Ei.
    - pose proof (lookup_lt_Some _ _ _ Ei).
      rewrite (proj2 (Z.leb_gt n (Z.of_nat i))), Hmul by lia.
      rewrite length_app, (proj2 (Z.ltb_ge _ _)) by (unfold stride in *; nia).
      assert (drop (Z.to_nat (Z.of_nat i * stride)) (bs ++ rest)
        = drop (i * stride_nat) (bs ++ rest)) as -> by (f_equal; unfold stride; lia).
      pose proof (take_drop_middle _ _ _ Ei) as Hl.
      assert (length (take i l) = i) as Hti by (rewrite length_take; lia).
      assert (take stride_nat (drop (i * stride_nat) (bs ++ rest)) = encode x) as Ht.
      { unfold bs. rewrite <- Hl. rewrite <- Hti at 1. apply encoded_at. }
      assert (stride_nat <= length (drop (i * stride_nat) (bs ++ rest)))%nat.
      { pose proof (f_equal length Ht) as Hlt. rewrite length_take, wire_length in Hlt. lia. }
      rewrite (proj2 (Nat.ltb_ge _ _)) by done. rewrite Ht.
      by rewrite (proj1 (list.Forall_lookup _ _) Hlaw i x Ei).
    - apply lookup_ge_None in Ei. by rewrite (proj2 (Z.leb_le n (Z.of_nat i))) by lia. }
  split_and!.
  - unfold records_new. rewrite Hmul by lia. rewrite length_app.
    by rewrite (proj2 (Z.ltb_ge _ _)) by lia.
  - intros i x. by rewrite Hget.
  - unfold to_vec, iter. cbn [count]. unfold n. rewrite Nat2Z.id.
    assert (forall k j, (j + k = length l)%nat ->
      omap (fun i => get (MkRecords (bs ++ rest) (Z.of_nat (length l))) (Z.of_nat i)) (seq j k)
        = drop j l) as Hom.
    { induction k as [|k IH]; intros j Hj.
      - cbn. by rewrite drop_ge by lia.
      - cbn [seq]. destruct (lookup_lt_is_Some_2 l j) as [x Hx]; [lia|].
        cbn [omap list_omap]. fold n. rewrite Hget, Hx.
        rewrite (drop_S l x j) by done. f_equal. apply IH. lia. }
    rewrite (Hom (length l) 0%nat) by lia. by rewrite drop_0.
  - unfold as_bytes. cbn [count bytes]. rewrite Hmul by lia.
    rewrite length_app, (proj2 (Z.leb_le _ _)) by lia. apply take_app_le. lia.
Qed.
End RecordLaws.

Lemma records_read_back_witness :
  let l := [MkStampWait 1 2; MkStampWait 3 4] in
  exists r, records_new (concat (map encode l) ++ [x00]) 2 = Some r /\ to_vec r = l.
Proof.
  destruct (records_read_back [MkStampWait 1 2; MkStampWait 3 4] [x00]) as (r & H1 & _ & H2 & _).
  - vm_compute. split; congruence.
  - repeat constructor.
  - exists r. split; [exact H1|exact H2].
Defined.

End Wire.
