(* ===== verification/Waits.v ===== *)
(** * Waits: the stamp waits of the device
    (src/crates/reims-vgpu-core/src/device/waits.rs, device.rs)

    The waiters' table and the waiting word, a wait's registration with the walk of the
    chain of waits it closes, its release, the wait itself, and the barriers of a
    command. Each operation is one step on the table: the registration's walk, which
    the source makes with no lock, reads the table as the registration left it. A
    wait's surroundings are given as its slices, one per turn of its loop: the memory
    its slot is read from, whether the FIFO is quiesced, whether the timed wait timed
    out, and the memory then. The report's log lines are not modelled. *)

From S2P Require Import Prelude Num GuestPtr Wire DeviceKinds.
From stdpp Require Import relations.
Open Scope Z_scope.

Module Waits.
Import DeviceKinds.

Definition NOT_WAITING : Z := M32 - 1.
Definition WAITING_INFO_COUNT : nat := 64.

Record WaitingInfo := MkInfo {
  next_waiting_index : Z;
  next_waiting_value : Z;
  last_pending_stamp : Z;
}.
Definition set_next (n : Z) (i : WaitingInfo) : WaitingInfo :=
  MkInfo n (next_waiting_value i) (last_pending_stamp i).
Definition set_value (v : Z) (i : WaitingInfo) : WaitingInfo :=
  MkInfo (next_waiting_index i) v (last_pending_stamp i).
Definition set_pending (p : Z) (i : WaitingInfo) : WaitingInfo :=
  MkInfo (next_waiting_index i) (next_waiting_value i) p.

(** The device's part: the table, the waiting word and [maxFIFOCount]. *)
Record Device := MkDevice {
  waiting_info : list WaitingInfo;
  waiting_stamps : Z;
  max_fifo_count : Z;
}.
Definition with_info (d : Device) (l : list WaitingInfo) : Device :=
  MkDevice l (waiting_stamps d) (max_fifo_count d).
Definition with_stamps (d : Device) (w : Z) : Device :=
  MkDevice (waiting_info d) w (max_fifo_count d).
Definition update (d : Device) (w : Z) (f : WaitingInfo -> WaitingInfo) : Device :=
  with_info d (alter f (Z.to_nat w) (waiting_info d)).

Definition new_waiting_info : list WaitingInfo :=
  replicate WAITING_INFO_COUNT (MkInfo NOT_WAITING 0 0).

Definition reached (slot value : Z) : bool := 0 <=? i32_of_u32 (sub32 slot value).

Definition finish_wait_mask (waiter : Z) : Z :=
  Num.sign_extend_32 (not32 (Num.bit32 waiter)).

Definition init_waiting_info (d : Device) : Device :=
  with_info d (map (fun i => MkInfo NOT_WAITING (next_waiting_value i) 0) (waiting_info d)).

(** The walk's outcome: the chain ends, or it is back at the waiter. *)
Inductive Chain : Type := Ends | Circular.

Local Abbreviation res := (outcome (DeviceRaise * Device) ddeath).

Definition finish_wait (fifo_index : Z) (d : Device) : res Device :=
  let d := with_stamps d (Z.land (waiting_stamps d) (finish_wait_mask fifo_index)) in
  match waiting_info d !! Z.to_nat fifo_index with
  | None => Died (Fatal PastWaitingInfo)
  | Some _ => Ret (update d fifo_index (set_next NOT_WAITING))
  end.

(** The unbounded loop of the registration, from the entry [curr]. *)
Fixpoint walk (fuel : nat) (d : Device) (waiter : Z) (curr : WaitingInfo) : res Chain :=
  match fuel with
  | O => Died OutOfFuel
  | S fuel =>
      let next := next_waiting_index curr in
      match waiting_info d !! Z.to_nat next with
      | None => Ret Ends
      | Some next_info =>
          if negb (Num.bit64_set (waiting_stamps d) next) then Ret Ends
          else if reached (last_pending_stamp next_info) (next_waiting_value curr) then Ret Ends
          else if next =? waiter then Ret Circular
          else walk fuel d waiter next_info
      end
  end.

Definition register (fifo_index stamp_index value : Z) (d : Device) : Device :=
  let d := update d fifo_index (set_next stamp_index) in
  let d := update d fifo_index (set_value value) in
  with_stamps d (Z.lor (waiting_stamps d) (Num.bit32 fifo_index)).

Definition add_wait (fuel : nat) (fifo_index stamp_index value : Z) (d : Device) : res Device :=
  let waiter := fifo_index in
  _ ← fatal_unless (waiter <? max_fifo_count d) (Fatal WaiterPastMax);
  let mask := Num.bit32 waiter in
  _ ← fatal_unless (Z.land mask (waiting_stamps d) =? 0) (Fatal WaiterBitTaken);
  match waiting_info d !! Z.to_nat waiter with
  | None => Died (Fatal PastWaitingInfo)
  | Some curr =>
      _ ← fatal_unless (next_waiting_index curr =? NOT_WAITING) (Fatal WaiterBusy);
      let d := register waiter stamp_index value d in
      let curr := set_value value (set_next stamp_index curr) in
      chain ← walk fuel d waiter curr;
      match chain with
      | Ends => Ret d
      | Circular => d ← finish_wait waiter d; Raised (CircularWait, d)
      end
  end.

(** ** The wait *)

(** A turn of the wait's loop as its surroundings make it. *)
Record Slice := MkSlice {
  before : GuestPtr.memory;
  is_quiesced : bool;
  timed_out : bool;
  after : GuestPtr.memory;
}.

(** A wait's loop: [quiesced] and the reports asked for, or [None] while it still waits. *)
Definition slot (stamp_memory index : Z) (m : GuestPtr.memory) : res Z :=
  GuestPtr.read_u32 m stamp_memory (mul64 index 4) (Fatal StampReadWithoutMemory).

Fixpoint wait_loop (stamp_memory : Z) (stamp : Wire.StampWait) (slices : list Slice)
    (reports : nat) : res (option (bool * nat)) :=
  match slices with
  | [] => Ret None
  | s :: slices =>
      v ← slot stamp_memory (Wire.index stamp) (before s);
      if reached v (Wire.wvalue stamp) then Ret (Some (false, reports))
      else if is_quiesced s then Ret (Some (true, reports))
      else if timed_out s then
        v ← slot stamp_memory (Wire.index stamp) (after s);
        if reached v (Wire.wvalue stamp) then Ret (Some (false, reports))
        else wait_loop stamp_memory stamp slices (S reports)
      else wait_loop stamp_memory stamp slices reports
  end.

(** [stamp_memory.lock().unwrap_or_default()]: no memory is the null pointer. *)
Definition wait_stamp (fuel : nat) (stamp_memory : option Z) (stamp : Wire.StampWait) (waiter : Z)
    (first : GuestPtr.memory) (slices : list Slice) (d : Device)
    : res (option (bool * nat) * Device) :=
  let stamp_memory := default 0 stamp_memory in
  v ← slot stamp_memory (Wire.index stamp) first;
  if reached v (Wire.wvalue stamp) then Ret (Some (true, 0%nat), d)
  else
    d ← add_wait fuel waiter (Wire.index stamp) (Wire.wvalue stamp) d;
    waited ← wait_loop stamp_memory stamp slices 0;
    match waited with
    | None => Ret (None, d)
    | Some (quiesced, reports) =>
        d ← finish_wait waiter d;
        Ret (Some (negb quiesced, reports), d)
    end.

(** The barriers in turn, each with its own surroundings; [None]: asleep in a wait. *)
Fixpoint wait_stamps_as (fuel : nat) (stamp_memory : option Z)
    (barriers : list (Wire.StampWait * (GuestPtr.memory * list Slice))) (waiter : Z) (d : Device)
    : res (option bool * Device) :=
  match barriers with
  | [] => Ret (Some true, d)
  | (barrier, (first, slices)) :: barriers =>
      if max_fifo_count d <=? Wire.index barrier then Raised (InvalidStampIndex, d)
      else
        '(waited, d) ← wait_stamp fuel stamp_memory barrier waiter first slices d;
        match waited with
        | None => Ret (None, d)
        | Some (false, _) => Ret (Some false, d)
        | Some (true, _) => wait_stamps_as fuel stamp_memory barriers waiter d
        end
  end.

(** ** Chains of a partial function *)

Section Chains.
Implicit Types (f g : nat -> option nat) (i j w n : nat) (l : list nat).

Definition follows f j i : Prop := f i = Some j.
(** No chain of [f] is endless. *)
Definition ends_everywhere f : Prop := forall i, Acc (follows f) i.
Definition links f i j : Prop := f i = Some j.

(** The chain from [i] until it ends or comes to [w]. *)
Fixpoint chase f w (fuel : nat) i : option Chain :=
  match fuel with
  | O => None
  | S fuel =>
      match f i with
      | None => Some Ends
      | Some j => if decide (j = w) then Some Circular else chase f w fuel j
      end
  end.

Fixpoint is_path f i l : Prop :=
  match l with [] => f i = None | j :: l => f i = Some j /\ is_path f j l end.

Lemma ended_path f i : Acc (follows f) i -> exists l, is_path f i l.
Proof.
  induction 1 as [i _ IH]. destruct (f i) as [j|] eqn:E; [|by exists []].
  destruct (IH j E) as [l Hl]. by exists (j :: l).
Qed.

Lemma is_path_unique f l1 : forall l2 i, is_path f i l1 -> is_path f i l2 -> l1 = l2.
Proof.
  induction l1 as [|j l1 IH]; intros [|k l2] i H1 H2; cbn in *; try done; try (destruct_and!; congruence).
  destruct H1 as [E1 H1], H2 as [E2 H2]. rewrite E1 in E2. injection E2 as <-. f_equal. by eapply IH.
Qed.

Lemma is_path_suffix f j l : forall i, is_path f i l -> j ∈ l ->
  exists l', is_path f j l' /\ (length l' < length l)%nat.
Proof.
  induction l as [|k l IH]; intros i Hl Hj; [by apply not_elem_of_nil in Hj|].
  destruct Hl as [_ Hl]. apply elem_of_cons in Hj as [->|Hj]; [exists l; cbn; auto with lia|].
  destruct (IH k Hl Hj) as (l' & ? & ?). exists l'. cbn. auto with lia.
Qed.

Lemma is_path_NoDup f l : forall i, is_path f i l -> NoDup (i :: l).
Proof.
  induction l as [|k l IH]; intros i Hl; [apply NoDup_singleton|].
  apply NoDup_cons. split; [|destruct Hl; eauto]. intros Hi.
  destruct (is_path_suffix _ _ _ _ Hl Hi) as (l' & Hl' & Hlt).
  rewrite (is_path_unique _ _ _ _ Hl Hl') in Hlt. lia.
Qed.

Lemma is_path_short f N l i :
  (forall i j, f i = Some j -> (j < N)%nat) -> (i < N)%nat -> is_path f i l ->
  (length l < N)%nat.
Proof.
  intros Hf Hi Hl.
  assert (forall l i, is_path f i l -> Forall (fun j => (j < N)%nat) l) as Hall.
  { clear -Hf. induction l as [|j l IH]; intros i Hl; constructor; destruct Hl; eauto. }
  pose proof (is_path_NoDup _ _ _ Hl) as Hnd. apply NoDup_ListNoDup in Hnd.
  pose proof (NoDup_incl_length Hnd (l' := seq 0 N)) as H. rewrite length_seq in H.
  apply H. clear H. intros k Hk. apply in_seq.
  destruct Hk as [<-|Hk]; [lia|].
  assert (k < N)%nat by exact (proj1 (List.Forall_forall _ _) (Hall _ _ Hl) k Hk). lia.
Qed.

Lemma ended_no_cycle f i : Acc (follows f) i -> ~ tc (links f) i i.
Proof.
  induction 1 as [i _ IH]. intros Hc.
  assert (exists j, f i = Some j /\ tc (links f) j j) as (j & Hj & Hcj); [|by eapply IH].
  inversion Hc as [? j Hij|? j ? Hij Hji]; subst; [by exists i|].
  exists j. split; [done|]. by eapply tc_r.
Qed.

(** [f] is [g] but for its link out of [w]. *)
Context (f g : nat -> option nat) (w : nat).
Hypothesis (Hout : forall i, i <> w -> f i = g i) (Hg : ends_everywhere g).

Lemma chase_from l : forall fuel i, is_path g i l -> i <> w -> (length l < fuel)%nat ->
  (chase f w fuel i = Some Circular /\ tc (links f) i w) \/
  (chase f w fuel i = Some Ends /\ Acc (follows f) i).
Proof.
  induction l as [|k l IH]; intros [|fuel] i Hl Hi Hf; cbn in Hf; try lia; cbn [chase].
  - rewrite (Hout i Hi). cbn in Hl. rewrite Hl. right. split; [done|].
    constructor. intros j Hj. unfold follows in Hj. rewrite (Hout i Hi), Hl in Hj. discriminate.
  - destruct Hl as [E Hl]. assert (f i = Some k) as E' by (by rewrite Hout). rewrite E'.
    destruct (decide (k = w)) as [->|Hk]; [left; split; [done|by apply tc_once]|].
    destruct (IH fuel k Hl Hk ltac:(lia)) as [[-> Hc]|[-> Ha]]; [left|right];
      (split; [reflexivity|]).
    + by eapply tc_l.
    + constructor. intros j Hj. unfold follows in Hj. rewrite E' in Hj. injection Hj as <-. done.
Qed.

(** The chain from [w] closes back on it exactly when it lies on a cycle; otherwise it ends. *)
Lemma chase_decides N :
  (forall i j, g i = Some j -> (j < N)%nat) -> (forall j, f w = Some j -> (j < N)%nat) ->
  (chase f w (S N) w = Some Circular /\ tc (links f) w w) \/
  (chase f w (S N) w = Some Ends /\ ends_everywhere f).
Proof.
  intros HN HNw.
  assert (Acc (follows f) w -> ends_everywhere f) as Hall.
  { intros Ha i. induction (Hg i) as [i _ IH]. destruct (decide (i = w)) as [->|Hi]; [done|].
    constructor. intros j Hj. apply IH. unfold follows in *. by rewrite <- Hout. }
  cbn [chase]. destruct (f w) as [j|] eqn:E.
  - destruct (decide (j = w)) as [->|Hj]; [left; split; [done|by apply tc_once]|].
    destruct (ended_path g j (Hg j)) as [l Hl].
    pose proof (is_path_short g N l j HN (HNw j eq_refl) Hl).
    destruct (chase_from l N j Hl Hj ltac:(lia)) as [[-> Hc]|[-> Ha]]; [left|right].
    + split; [done|by eapply tc_l].
    + split; [done|]. apply Hall. constructor. intros k Hk. unfold follows in Hk. rewrite E in Hk. by injection Hk as <-.
  - right. split; [done|]. apply Hall. constructor. intros k Hk. unfold follows in Hk. rewrite E in Hk. discriminate.
Qed.
End Chains.

(** ** Bits *)

Lemma mask_bits w i :
  0 <= i < 64 ->
  Z.testbit (finish_wait_mask w) i
  = if w mod 32 =? 31 then i <? 31 else negb (i =? w mod 32).
Proof.
  intros Hi.
  assert (finish_wait_mask w = finish_wait_mask (w mod 32)) as ->
    by (unfold finish_wait_mask, Num.bit32, shl32; by rewrite Z.mod_mod).
  pose proof (Z.mod_pos_bound w 32 ltac:(lia)) as Hw. set (m := w mod 32) in *. clearbody m.
  pose proof (forallb_upto (fun m => forallb (fun i =>
    Bool.eqb (Z.testbit (finish_wait_mask (Z.of_nat m)) (Z.of_nat i))
      (if Z.of_nat m =? 31 then Z.of_nat i <? 31 else negb (Z.of_nat i =? Z.of_nat m)))
    (seq 0 64)) 32) as H. specialize (H ltac:(by vm_compute) (Z.to_nat m) ltac:(lia)).
  pose proof (forallb_upto _ 64 H (Z.to_nat i) ltac:(lia)) as H'.
  apply Bool.eqb_prop in H'. by rewrite !Z2Nat.id in H' by lia.
Qed.

Lemma bit32_pow w : 0 <= w < 32 -> Num.bit32 w = 2 ^ w.
Proof.
  intros Hw. unfold Num.bit32, shl32. rewrite (Z.mod_small w) by lia. rewrite Z.shiftl_1_l.
  apply w32_small. split; [by apply Z.pow_nonneg|]. apply Z.pow_lt_mono_r; lia.
Qed.

Lemma bit64_set_testbit x n : 0 <= n < 64 -> Num.bit64_set x n = Z.testbit x n.
Proof.
  intros Hn. unfold Num.bit64_set, shr64. rewrite (Z.mod_small n) by lia.
  change 1 with (Z.ones 1). rewrite Z.land_ones by lia. change (2 ^ 1) with 2.
  rewrite <- Z.bit0_mod, Z.shiftr_spec by lia. rewrite Z.add_0_l. by destruct (Z.testbit x n).
Qed.

(** ** The graph of the waits *)

(** Whom the waiter [i] waits on: the waiter of the stamp it waits for, when that waiter's
    bit is set and its FIFO has not pushed the value. *)
Definition next_of (d : Device) (i : nat) : option nat :=
  a ← waiting_info d !! i;
  b ← waiting_info d !! Z.to_nat (next_waiting_index a);
  if negb (Num.bit64_set (waiting_stamps d) (next_waiting_index a)) then None
  else if reached (last_pending_stamp b) (next_waiting_value a) then None
  else Some (Z.to_nat (next_waiting_index a)).
Definition waits_on (d : Device) : nat -> nat -> Prop := links (next_of d).

(** A table of the source's size, its fields in range, whose chains of waits all end. *)
Record ok (d : Device) : Prop := {
  ok_length : length (waiting_info d) = WAITING_INFO_COUNT;
  ok_next : Forall (fun a => 0 <= next_waiting_index a) (waiting_info d);
  ok_max : max_fifo_count d <= 32;
  ok_word : u32 (waiting_stamps d);
  ok_ends : ends_everywhere (next_of d);
}.

Lemma next_of_range d i j :
  length (waiting_info d) = WAITING_INFO_COUNT -> next_of d i = Some j -> (j < 64)%nat.
Proof.
  intros Hl H. unfold next_of in H. destruct (waiting_info d !! i) as [a|]; [|done]. cbn in H.
  destruct (waiting_info d !! Z.to_nat (next_waiting_index a)) as [b|] eqn:E; [|done]. cbn in H.
  apply lookup_lt_Some in E. rewrite Hl in E. unfold WAITING_INFO_COUNT in E.
  destruct (negb _); [done|]. destruct (reached _ _); [done|]. by injection H as <-.
Qed.

Lemma walk_chase d w fuel : 0 <= w -> Forall (fun a => 0 <= next_waiting_index a) (waiting_info d) ->
  forall i a, waiting_info d !! i = Some a ->
  walk fuel d w a
  = match chase (next_of d) (Z.to_nat w) fuel i with Some c => Ret c | None => Died OutOfFuel end.
Proof.
  intros Hw Hn. induction fuel as [|fuel IH]; intros i a Ha; [done|]. cbn [walk chase].
  assert (0 <= next_waiting_index a) as Hna by (by eapply (Forall_lookup_1 _ _ _ _ Hn)).
  unfold next_of at 1. rewrite Ha. cbn [mbind option_bind].
  destruct (waiting_info d !! Z.to_nat (next_waiting_index a)) as [b|] eqn:E; [|done].
  cbn [mbind option_bind]. destruct (negb _); [done|]. destruct (reached _ _); [done|].
  destruct (Z.eqb_spec (next_waiting_index a) w) as [->|Hne]; destruct (decide _); try lia; auto.
Qed.

Lemma fewer_links f g :
  (forall i j, f i = Some j -> g i = Some j) -> ends_everywhere g -> ends_everywhere f.
Proof.
  intros Hfg Hg i. induction (Hg i) as [i _ IH]. constructor. intros j Hj. apply IH.
  unfold follows in *. auto.
Qed.

Lemma update_lookup d w f i :
  waiting_info (update d w f) !! i
  = (if decide (i = Z.to_nat w) then f else id) <$> waiting_info d !! i.
Proof.
  unfold update. cbn [waiting_info with_info]. destruct (decide _) as [->|Hi].
  - by rewrite list_lookup_alter_eq.
  - rewrite list_lookup_alter_ne by done. by destruct (_ !! i).
Qed.

(** ** What the operations do to the graph *)

Lemma next_of_Some d i j :
  next_of d i = Some j <-> exists a b, waiting_info d !! i = Some a /\
    waiting_info d !! Z.to_nat (next_waiting_index a) = Some b /\
    Num.bit64_set (waiting_stamps d) (next_waiting_index a) = true /\
    reached (last_pending_stamp b) (next_waiting_value a) = false /\
    j = Z.to_nat (next_waiting_index a).
Proof.
  unfold next_of. split.
  - destruct (_ !! i) as [a|]; [|done]. cbn. destruct (_ !! Z.to_nat _) as [b|] eqn:E; [|done]. cbn.
    destruct (Num.bit64_set _ _) eqn:E2; [|done]. destruct (reached _ _) eqn:E3; [done|]. cbn.
    injection 1 as <-. by exists a, b.
  - intros (a & b & -> & H1 & H2 & H3 & ->). cbn [mbind option_bind]. rewrite H1.
    cbn [mbind option_bind]. by rewrite H2, H3.
Qed.

(** A table whose links all were links. *)
Lemma ok_fewer d d' :
  ok d -> length (waiting_info d') = length (waiting_info d) ->
  Forall (fun a => 0 <= next_waiting_index a) (waiting_info d') ->
  max_fifo_count d' = max_fifo_count d -> u32 (waiting_stamps d') ->
  (forall i j, next_of d' i = Some j -> next_of d i = Some j) -> ok d'.
Proof.
  intros [Hl Hn Hm Hw He] Hl' Hn' Hm' Hw' Hlinks. split; [by rewrite Hl'|done|by rewrite Hm'|done|].
  by eapply fewer_links.
Qed.

Definition finished (w : Z) (d : Device) : Device :=
  update (with_stamps d (Z.land (waiting_stamps d) (finish_wait_mask w))) w (set_next NOT_WAITING).

Lemma finish_wait_ret w d :
  length (waiting_info d) = WAITING_INFO_COUNT -> 0 <= w < 64 -> finish_wait w d = Ret (finished w d).
Proof.
  intros Hl Hw. unfold finish_wait. cbn [waiting_info with_stamps].
  assert (is_Some (waiting_info d !! Z.to_nat w)) as [a Ha]
    by (apply lookup_lt_is_Some; rewrite Hl; unfold WAITING_INFO_COUNT; lia).
  by rewrite Ha.
Qed.

Lemma next_update d w f :
  (forall a, 0 <= next_waiting_index a -> 0 <= next_waiting_index (f a)) ->
  Forall (fun a => 0 <= next_waiting_index a) (waiting_info d) ->
  Forall (fun a => 0 <= next_waiting_index a) (waiting_info (update d w f)).
Proof.
  intros Hf Hd. apply list.Forall_lookup. intros i a Ha. rewrite update_lookup in Ha.
  apply fmap_Some in Ha as (b & Hb & ->). pose proof (Forall_lookup_1 _ _ _ _ Hd Hb) as H.
  cbn in H. destruct (decide _); cbn; auto.
Qed.

Lemma set_next_keeps n i d w b :
  waiting_info (update d w (set_next n)) !! i = Some b ->
  exists a, waiting_info d !! i = Some a /\ last_pending_stamp b = last_pending_stamp a /\
    next_waiting_value b = next_waiting_value a /\
    next_waiting_index b = (if decide (i = Z.to_nat w) then n else next_waiting_index a).
Proof.
  rewrite update_lookup. intros Hb. apply fmap_Some in Hb as (a & Ha & ->). exists a.
  by destruct (decide _).
Qed.

(** A wait finished leaves no link out of the waiter, none into it below 32, and adds none. *)
Lemma finished_links d w i j :
  length (waiting_info d) = WAITING_INFO_COUNT ->
  Forall (fun a => 0 <= next_waiting_index a) (waiting_info d) -> 0 <= w < 64 ->
  next_of (finished w d) i = Some j ->
  next_of d i = Some j /\ i <> Z.to_nat w /\ (w < 32 -> j <> Z.to_nat w).
Proof.
  intros Hl Hn Hw Hij. pose proof Hij as Hj. apply next_of_range in Hj.
  2: { unfold finished. cbn [waiting_info update with_info with_stamps]. by rewrite length_alter. }
  apply next_of_Some in Hij as (a' & b' & Ha & Hb & Hbit & Hr & ->).
  unfold finished in Ha, Hb, Hbit. cbn [waiting_stamps update with_info with_stamps] in Hbit.
  apply set_next_keeps in Ha as (a & Ha & _ & Hva & Hna), Hb as (b & Hb & Hpb & _ & _).
  cbn [waiting_info with_stamps] in Ha, Hb.
  pose proof (Forall_lookup_1 _ _ _ _ Hn Ha) as H0. cbn in H0.
  destruct (decide (i = Z.to_nat w)) as [->|Hi].
  { rewrite Hna in Hj. unfold NOT_WAITING in Hj. rewrite M32_val in Hj. lia. }
  rewrite Hna in *. rewrite bit64_set_testbit, Z.land_spec, mask_bits in Hbit by lia.
  apply andb_prop in Hbit as [Hbit Hmask]. split; [|split; [done|]].
  - apply next_of_Some. exists a, b. rewrite bit64_set_testbit by lia.
    rewrite Hpb, Hva in Hr. by split_and!.
  - intros H32 Hw'. rewrite (Z.mod_small w) in Hmask by lia.
    destruct (Z.eqb_spec w 31) as [->|]; [lia|].
    destruct (Z.eqb_spec (next_waiting_index a) w); [done|lia].
Qed.

Lemma ok_finished d w : ok d -> 0 <= w < 64 -> ok (finished w d).
Proof.
  intros Hok Hw. pose proof Hok as [Hl Hn _ Hword _].
  apply (ok_fewer d); [done| | |done|by apply land_u32|].
  - unfold finished. cbn [waiting_info update with_info with_stamps]. by rewrite length_alter.
  - apply next_update; [done|]. done.
  - intros i j Hij. by apply finished_links in Hij as [? _].
Qed.

(** A registration adds links out of the waiter and into it alone. *)
Lemma register_links d w s v i j :
  0 <= w < 32 -> length (waiting_info d) = WAITING_INFO_COUNT ->
  Forall (fun a => 0 <= next_waiting_index a) (waiting_info d) ->
  next_of (register w s v d) i = Some j -> i <> Z.to_nat w ->
  j = Z.to_nat w \/ next_of d i = Some j.
Proof.
  intros Hw Hl Hn Hij Hi. pose proof Hij as Hj. apply next_of_range in Hj.
  2: { cbn [waiting_info register update with_info with_stamps]. by rewrite !length_alter. }
  apply next_of_Some in Hij as (a & b' & Ha & Hb & Hbit & Hr & ->).
  unfold register in Ha, Hb, Hbit. cbn [waiting_stamps waiting_info update with_info with_stamps] in *.
  rewrite !list_lookup_alter_ne in Ha by done.
  pose proof (Forall_lookup_1 _ _ _ _ Hn Ha) as H0. cbn in H0.
  destruct (decide (Z.to_nat (next_waiting_index a) = Z.to_nat w)) as [->|Hne]; [by left|right].
  rewrite !list_lookup_alter_ne in Hb by done.
  apply next_of_Some. exists a, b'. rewrite bit64_set_testbit in * by lia.
  rewrite bit32_pow, Z.lor_spec, Z.pow2_bits_eqb in Hbit by lia.
  destruct (Z.eqb_spec w (next_waiting_index a)) as [->|]; [done|].
  rewrite orb_false_r in Hbit. by split_and!.
Qed.

(** The chain a registration closes: back at the waiter, or every chain ends. *)
Lemma register_chase d w s v :
  ok d -> 0 <= w < 32 -> 0 <= s ->
  let d1 := register w s v d in
  (chase (next_of d1) (Z.to_nat w) 65 (Z.to_nat w) = Some Circular /\
   tc (waits_on d1) (Z.to_nat w) (Z.to_nat w)) \/
  (chase (next_of d1) (Z.to_nat w) 65 (Z.to_nat w) = Some Ends /\ ok d1).
Proof.
  intros Hok Hw Hs d1. pose proof Hok as [Hl Hn Hm Hword He].
  assert (length (waiting_info d1) = WAITING_INFO_COUNT) as Hl1.
  { cbn [d1 waiting_info register update with_info with_stamps]. by rewrite !length_alter. }
  set (g i := if decide (i = Z.to_nat w) then None else next_of d1 i).
  assert (ends_everywhere g) as Hg.
  { intros i. induction (He i) as [i _ IH]. constructor. intros j Hj. unfold follows, g in Hj.
    destruct (decide (i = Z.to_nat w)); [done|].
    destruct (register_links _ _ _ _ _ _ Hw Hl Hn Hj) as [->|Hold]; [done| |by apply IH].
    constructor. intros k Hk. unfold follows, g in Hk. by rewrite decide_True in Hk by done. }
  destruct (chase_decides (next_of d1) g (Z.to_nat w)) with (N := 64%nat) as [[Hc Ht]|[Hc Ha]].
  - intros i Hi. unfold g. by rewrite decide_False.
  - done.
  - intros i j Hij. unfold g in Hij. destruct (decide _); [done|]. by eapply next_of_range.
  - intros j Hj. by eapply next_of_range.
  - by left.
  - right. split; [done|]. split; [done| |done| |done].
    2: { cbn [d1 waiting_stamps register with_stamps]. rewrite bit32_pow by done.
         apply lor_u32; [done|]. split; [by apply Z.pow_nonneg|]. apply Z.pow_lt_mono_r; lia. }
    cbn [d1 waiting_info register with_stamps]. by repeat apply next_update.
Qed.

(** ** Registrations *)

(** The waiter is idle and its bit clear. *)
Definition idle (d : Device) (w : Z) : Prop :=
  Z.testbit (waiting_stamps d) w = false /\
  exists a, waiting_info d !! Z.to_nat w = Some a /\ next_waiting_index a = NOT_WAITING.

Lemma add_wait_idle fuel d w s v :
  0 <= w < 32 -> w < max_fifo_count d -> idle d w -> exists a,
  waiting_info (register w s v d) !! Z.to_nat w = Some a /\
  add_wait fuel w s v d
  = (chain ← walk fuel (register w s v d) w a;
     match chain with
     | Ends => Ret (register w s v d)
     | Circular => d ← finish_wait w (register w s v d); Raised (CircularWait, d)
     end).
Proof.
  intros Hw Hmax (Hbit & a & Ha & Hidle). exists (set_value v (set_next s a)).
  split.
  { cbn [register waiting_info with_stamps]. rewrite !update_lookup, Ha, !decide_True by done. done. }
  unfold add_wait. rewrite (proj2 (Z.ltb_lt _ _) Hmax). cbn [fatal_unless mbind outcome_bind].
  assert (Z.land (Num.bit32 w) (waiting_stamps d) = 0) as ->.
  { rewrite bit32_pow by done. apply Z.bits_inj_0. intros i. rewrite Z.land_spec, Z.pow2_bits_eqb by lia.
    destruct (Z.eqb_spec w i) as [<-|]; [by rewrite Hbit|done]. }
  cbn [Z.eqb fatal_unless mbind outcome_bind]. by rewrite Ha, Hidle, Z.eqb_refl.
Qed.

Lemma ok_registered_finished d w s v :
  ok d -> 0 <= w < 32 -> 0 <= s -> ok (finished w (register w s v d)).
Proof.
  intros Hok Hw Hs. pose proof Hok as [Hl Hn Hm Hword He].
  assert (length (waiting_info (register w s v d)) = WAITING_INFO_COUNT) as Hl1.
  { cbn [waiting_info register update with_info with_stamps]. by rewrite !length_alter. }
  assert (Forall (fun a => 0 <= next_waiting_index a) (waiting_info (register w s v d))) as Hn1.
  { cbn [waiting_info register with_stamps]. by repeat apply next_update. }
  apply (ok_fewer d); [done| | |done| |].
  - unfold finished. cbn [waiting_info update with_info with_stamps]. by rewrite length_alter, Hl, Hl1.
  - unfold finished. by apply next_update.
  - unfold finished. cbn [waiting_stamps update with_info with_stamps register].
    apply land_u32, lor_u32; [done|]. rewrite bit32_pow by done.
    split; [by apply Z.pow_nonneg|]. apply Z.pow_lt_mono_r; lia.
  - intros i j Hij. apply finished_links in Hij as (Hij & Hi & Hj); [|done|done|lia].
    apply register_links in Hij as [->|?]; try done. by destruct (Hj ltac:(lia)).
Qed.

(** Every outcome of an idle waiter's registration. *)
Lemma add_wait_outcome d w s v :
  ok d -> 0 <= w < 32 -> w < max_fifo_count d -> 0 <= s -> idle d w ->
  let d1 := register w s v d in
  (tc (waits_on d1) (Z.to_nat w) (Z.to_nat w) /\
   add_wait 65 w s v d = Raised (CircularWait, finished w d1) /\ ok (finished w d1)) \/
  (ends_everywhere (next_of d1) /\ add_wait 65 w s v d = Ret d1 /\ ok d1).
Proof.
  intros Hok Hw Hmax Hs Hidle d1.
  destruct (add_wait_idle 65 d w s v Hw Hmax Hidle) as (a & Ha & ->).
  pose proof (ok_length _ Hok) as Hl.
  rewrite (walk_chase _ w 65 ltac:(lia)) with (i := Z.to_nat w); [|  |done].
  2: { cbn [waiting_info register with_stamps]. repeat apply next_update; [done..|]. apply Hok. }
  fold d1. destruct (register_chase d w s v Hok Hw Hs) as [[Hc Ht]|[Hc Hok1]];
    fold d1 in Hc |- *; rewrite Hc; cbn [mbind outcome_bind].
  - left. split; [done|]. rewrite finish_wait_ret.
    + split; [done|]. by apply ok_registered_finished.
    + cbn [d1 waiting_info register update with_info with_stamps]. by rewrite !length_alter.
    + lia.
  - right. split; [apply Hok1|done].
Qed.

(** Below 32, the registration of an idle waiter walks to an answer whatever the table's
    waits are: the walk, which the source leaves unbounded, ends within one turn per
    waiter. It raises exactly when the waits closed a cycle through the waiter, its own
    wait then finished, and otherwise leaves the waiter registered; either way no chain
    of waits is endless after it. *)
Theorem add_wait_finds_cycles d w s v :
  ok d -> 0 <= w < 32 -> w < max_fifo_count d -> 0 <= s -> idle d w ->
  let d1 := register w s v d in
  (tc (waits_on d1) (Z.to_nat w) (Z.to_nat w) /\
   add_wait 65 w s v d = Raised (CircularWait, finished w d1) /\ ok (finished w d1)) \/
  (~ tc (waits_on d1) (Z.to_nat w) (Z.to_nat w) /\ add_wait 65 w s v d = Ret d1 /\ ok d1).
Proof.
  intros Hok Hw Hmax Hs Hidle d1.
  destruct (add_wait_outcome d w s v Hok Hw Hmax Hs Hidle) as [?|(He & ? & ?)]; [by left|right].
  split; [|done]. apply ended_no_cycle, He.
Qed.

Definition fresh (max : Z) : Device := MkDevice new_waiting_info 0 max.

Lemma no_links d :
  Forall (fun a => next_waiting_index a = NOT_WAITING) (waiting_info d) ->
  length (waiting_info d) = WAITING_INFO_COUNT -> ends_everywhere (next_of d).
Proof.
  intros Hall Hl i. constructor. intros j Hj. exfalso.
  apply next_of_Some in Hj as (a & b & Ha & Hb & _).
  pose proof (Forall_lookup_1 _ _ _ _ Hall Ha) as E. cbn in E. rewrite E in Hb.
  apply lookup_lt_Some in Hb. rewrite Hl in Hb. unfold NOT_WAITING, WAITING_INFO_COUNT in Hb.
  rewrite M32_val in Hb. lia.
Qed.

Lemma ok_fresh max : max <= 32 -> ok (fresh max).
Proof.
  intros Hm. split; [done| |done|done|].
  - unfold fresh, new_waiting_info. cbn [waiting_info]. apply list.Forall_replicate. done.
  - apply no_links; [|done]. unfold fresh, new_waiting_info. cbn [waiting_info].
    by apply list.Forall_replicate.
Qed.

Lemma add_wait_finds_cycles_witness :
  exists d, ok d /\ idle d 0 /\
    add_wait 65 0 1 7 d = Raised (CircularWait, finished 0 (register 0 1 7 d)) /\
    tc (waits_on (register 0 1 7 d)) 0%nat 0%nat.
Proof.
  exists (register 1 0 5 (fresh 32)).
  assert (ok (register 1 0 5 (fresh 32))) as Hok.
  { destruct (add_wait_outcome (fresh 32) 1 0 5) as [(_ & H & _)|(_ & _ & H)];
      [by apply ok_fresh|lia|done|lia| |vm_compute in H; discriminate|exact H].
    split; [done|]. eexists. done. }
  assert (idle (register 1 0 5 (fresh 32)) 0) as Hidle by (split; [done|]; eexists; done).
  split; [exact Hok|]. split; [exact Hidle|].
  destruct (add_wait_finds_cycles (register 1 0 5 (fresh 32)) 0 1 7 Hok ltac:(lia) ltac:(done)
    ltac:(lia) Hidle) as [(Ht & H & _)|(_ & H & _)]; [exact (conj H Ht)|].
  exfalso. vm_compute in H. discriminate.
Defined.

(** ** Every state the waits reach *)

(** The operations that touch the table, on waiters below 32: a registration, accepted or
    refused for a cycle, a wait finished (by its waiter or by a child's delete), the
    root page set, and a stamp pushed. A push stores in the entry of the FIFO's id, while a
    FIFO waits at the entry of its stamp index, which the guest chooses: the entry pushed
    to may belong to a wait of another FIFO, and the stamp is any word. *)
Inductive step : Device -> Device -> Prop :=
| step_registered w s v d d' :
    0 <= w < 32 -> 0 <= s -> add_wait 65 w s v d = Ret d' -> step d d'
| step_circular w s v d d' k :
    0 <= w < 32 -> 0 <= s -> add_wait 65 w s v d = Raised (k, d') -> step d d'
| step_finished w d d' : 0 <= w < 32 -> finish_wait w d = Ret d' -> step d d'
| step_root_page_set d : step d (init_waiting_info d)
| step_pushed w p d : step d (update d w (set_pending p)).

(** A wait whose stamp its target has pushed already, the target itself waiting: the step
    from [d] to [d'] does not take the stamp back while the wait lasts. Only a push can. *)
Definition keeps_promises (d d' : Device) : Prop := forall i a b a' b',
  waiting_info d !! i = Some a -> waiting_info d !! Z.to_nat (next_waiting_index a) = Some b ->
  next_waiting_index b <> NOT_WAITING ->
  reached (last_pending_stamp b) (next_waiting_value a) = true ->
  waiting_info d' !! i = Some a' -> next_waiting_index a' = next_waiting_index a ->
  next_waiting_value a' = next_waiting_value a ->
  waiting_info d' !! Z.to_nat (next_waiting_index a) = Some b' ->
  reached (last_pending_stamp b') (next_waiting_value a) = true.

(** A step that keeps what was promised. *)
Definition kept_step (d d' : Device) : Prop := step d d' /\ keeps_promises d d'.

(** What an accepted or refused registration needed. *)
Lemma add_wait_checks fuel d w s v :
  ok d -> 0 <= w < 32 ->
  (add_wait fuel w s v d = Died (Fatal WaiterPastMax) \/ add_wait fuel w s v d = Died (Fatal WaiterBitTaken) \/
   add_wait fuel w s v d = Died (Fatal WaiterBusy)) \/
  w < max_fifo_count d /\ idle d w.
Proof.
  intros Hok Hw. pose proof (ok_length _ Hok) as Hl. unfold add_wait.
  destruct (Z.ltb_spec w (max_fifo_count d)) as [Hmax|]; [|by left; left].
  cbn [fatal_unless mbind outcome_bind].
  destruct (Z.land (Num.bit32 w) (waiting_stamps d) =? 0) eqn:Hz; [|by left; right; left].
  cbn [fatal_unless mbind outcome_bind].
  assert (is_Some (waiting_info d !! Z.to_nat w)) as [a Ha]
    by (apply lookup_lt_is_Some; rewrite Hl; unfold WAITING_INFO_COUNT; lia).
  rewrite Ha. destruct (Z.eqb_spec (next_waiting_index a) NOT_WAITING) as [Hn|]; [|by left; right; right].
  right. split; [done|]. split; [|by exists a].
  apply Z.eqb_eq in Hz. rewrite bit32_pow in Hz by done.
  apply (f_equal (fun x => Z.testbit x w)) in Hz.
  rewrite Z.bits_0, Z.land_spec, Z.pow2_bits_true in Hz by lia. done.
Qed.

(** A stamp pushed by a FIFO that is not waiting leads nowhere new: nothing leads out of it. *)
Lemma ok_pushed d w p a :
  ok d -> waiting_info d !! Z.to_nat w = Some a -> next_waiting_index a = NOT_WAITING ->
  ok (update d w (set_pending p)).
Proof.
  intros [Hl Hn Hm Hword He] Ha Hidle.
  assert (length (waiting_info (update d w (set_pending p))) = WAITING_INFO_COUNT) as Hl'
    by (cbn [waiting_info update with_info]; by rewrite length_alter).
  split; [done|by apply next_update|done|done|].
  intros i. induction (He i) as [i _ IH]. constructor. intros j Hj. unfold follows in Hj.
  destruct (decide (j = Z.to_nat w)) as [->|Hne].
  { constructor. intros k Hk. exfalso. pose proof (next_of_range _ _ _ Hl' Hk) as Hr.
    apply next_of_Some in Hk as (a' & _ & Ha' & _ & _ & _ & ->).
    rewrite update_lookup, Ha, decide_True in Ha' by done. injection Ha' as <-.
    cbn [next_waiting_index set_pending] in Hr. rewrite Hidle in Hr. unfold NOT_WAITING in Hr.
    rewrite M32_val in Hr. lia. }
  apply IH. unfold follows. apply next_of_Some in Hj as (a' & b' & Ha' & Hb' & Hbit & Hr & ->).
  rewrite update_lookup in Ha', Hb'. rewrite decide_False in Hb' by done.
  apply fmap_Some in Ha' as (a1 & Ha1 & ->).
  apply fmap_Some in Hb' as (b1 & Hb1 & ->).
  apply next_of_Some. exists a1, b1.
  destruct (decide (i = Z.to_nat w)); cbn [set_pending next_waiting_index next_waiting_value id] in *;
    by split_and!.
Qed.

(** A stamp pushed that keeps every promise adds no link into a waiting entry. *)
Lemma ok_kept_push d w p :
  ok d -> keeps_promises d (update d w (set_pending p)) -> ok (update d w (set_pending p)).
Proof.
  intros Hok Hkeep. destruct (waiting_info d !! Z.to_nat w) as [a|] eqn:Ha.
  - destruct (decide (next_waiting_index a = NOT_WAITING)) as [Hi|Hbusy]; [by eapply ok_pushed|].
    pose proof Hok as [Hl Hn _ Hword _]. apply (ok_fewer d); [done| | |done|done|].
    + cbn [waiting_info update with_info]. by rewrite length_alter.
    + by apply next_update.
    + intros i j Hij. pose proof Hij as (x' & y' & Hx & Hy & Hbit & Hr & ->)%next_of_Some.
      pose proof Hx as Hx1. rewrite update_lookup in Hx1. apply fmap_Some in Hx1 as (x & Hx1 & Ex).
      assert (next_waiting_index x' = next_waiting_index x) as En by (rewrite Ex; by destruct (decide _)).
      assert (next_waiting_value x' = next_waiting_value x) as Ev by (rewrite Ex; by destruct (decide _)).
      rewrite En, ?Ev in *. pose proof Hy as Hy1. rewrite update_lookup in Hy1.
      apply fmap_Some in Hy1 as (y & Hy1 & Ey).
      apply next_of_Some. exists x, y. split_and!; try done.
      destruct (decide (Z.to_nat (next_waiting_index x) = Z.to_nat w)) as [Hw|Hw]; [|by rewrite <- Hr, Ey].
      rewrite Hw, Ha in Hy1. injection Hy1 as <-.
      destruct (reached (last_pending_stamp a) (next_waiting_value x)) eqn:E; [|done].
      rewrite <- Hr. symmetry. eapply (Hkeep i x a x' y'); try done. by rewrite Hw.
  - assert (update d w (set_pending p) = d) as ->; [|done].
    destruct d as [l ws m]. unfold update, with_info. cbn [waiting_info waiting_stamps max_fifo_count] in *.
    f_equal. apply list_eq. intros i. destruct (decide (i = Z.to_nat w)) as [->|Hi].
    + by rewrite list_lookup_alter_eq, Ha.
    + by rewrite list_lookup_alter_ne.
Qed.

Lemma kept_step_ok d d' : ok d -> kept_step d d' -> ok d'.
Proof.
  intros Hok [Hs Hkeep]. pose proof Hok as [Hl Hn Hm Hword He].
  destruct Hs as [w s v d d' Hw H0 H|w s v d d' k Hw H0 H|w d d' Hw H|d|w p d].
  - destruct (add_wait_checks 65 d w s v Hok Hw) as [[E|[E|E]]|[Hmax Hidle]]; try congruence.
    destruct (add_wait_outcome d w s v Hok Hw Hmax H0 Hidle) as [(_ & E & _)|(_ & E & ?)]; congruence.
  - destruct (add_wait_checks 65 d w s v Hok Hw) as [[E|[E|E]]|[Hmax Hidle]]; try congruence.
    destruct (add_wait_outcome d w s v Hok Hw Hmax H0 Hidle) as [(_ & E & ?)|(_ & E & ?)]; congruence.
  - rewrite finish_wait_ret in H by (done || lia). injection H as <-. apply ok_finished; [done|lia].
  - assert (Forall (fun a => next_waiting_index a = NOT_WAITING)
      (waiting_info (init_waiting_info d))) as Hall.
    { apply list.Forall_lookup. intros i a Hia. cbn [waiting_info init_waiting_info with_info] in Hia.
      change ((fun i => MkInfo NOT_WAITING (next_waiting_value i) 0) <$> waiting_info d) with
        (map (fun i => MkInfo NOT_WAITING (next_waiting_value i) 0) (waiting_info d)) in Hia.
      apply list_lookup_fmap_Some in Hia as (b & -> & _). done. }
    assert (length (waiting_info (init_waiting_info d)) = WAITING_INFO_COUNT) as Hl'
      by (cbn [waiting_info init_waiting_info with_info]; by rewrite length_map).
    split; [done| |done|done|by apply no_links].
    eapply list.Forall_impl; [exact Hall|]. intros a Ha. cbn in Ha. by rewrite Ha.
  - by apply ok_kept_push.
Qed.

(** C2: however registrations, refusals, finished waits, root pages and stamps pushed follow
    each other from a fresh device of up to 32 FIFOs, as long as no push takes back a stamp
    already pushed that some wait is for while the entry pushed to is itself waiting (which
    needs a FIFO whose stamp index is not its id): no waiter ever waits on itself through
    others, and every further registration's walk ends. *)
Theorem waits_never_cycle max d :
  max <= 32 -> rtc kept_step (fresh max) d ->
  (forall i, ~ tc (waits_on d) i i) /\
  (forall w s v, 0 <= w < 32 -> 0 <= s -> add_wait 65 w s v d <> Died OutOfFuel).
Proof.
  intros Hmax Hd. assert (ok d) as Hok.
  { pose proof (ok_fresh _ Hmax) as Hf. revert Hf. induction Hd as [|x y z Hxy _ IH]; [done|].
    intros Hx. apply IH. by eapply kept_step_ok. }
  split; [intros i; apply ended_no_cycle, Hok|].
  intros w s v Hw Hs.
  destruct (add_wait_checks 65 d w s v Hok Hw) as [[->|[->| ->]]|[Hm Hidle]]; [done..|].
  by destruct (add_wait_outcome d w s v Hok Hw Hm Hs Hidle) as [(_ & -> & _)|(_ & -> & _)].
Qed.

(** An accepted registration keeps every promise. *)
Lemma kept_registered w s v d :
  0 <= w < 32 -> 0 <= s -> add_wait 65 w s v d = Ret (register w s v d) ->
  kept_step d (register w s v d).
Proof.
  intros Hw Hs Hret. split; [by eapply step_registered|].
  intros i a b a' b' Ha Hb _ Hr _ _ _ Hb'.
  cbn [register waiting_info with_stamps] in Hb'. rewrite !update_lookup, Hb in Hb'.
  injection Hb' as <-. by destruct (decide _).
Qed.

Lemma fresh_idle max i a :
  waiting_info (fresh max) !! i = Some a -> next_waiting_index a = NOT_WAITING.
Proof. cbn [fresh waiting_info]. intros Ha. by apply lookup_replicate in Ha as [-> _]. Qed.

Lemma register_other d w s v i :
  i <> Z.to_nat w -> waiting_info (register w s v d) !! i = waiting_info d !! i.
Proof.
  intros Hi. cbn [register waiting_info with_stamps]. rewrite !update_lookup, !decide_False by done.
  by destruct (_ !! i).
Qed.

Lemma waits_never_cycle_witness :
  let d := register 2 1 6 (update (register 1 0 5 (fresh 32)) 1 (set_pending 4)) in
  (forall i, ~ tc (waits_on d) i i) /\
  (forall w s v, 0 <= w < 32 -> 0 <= s -> add_wait 65 w s v d <> Died OutOfFuel).
Proof.
  intros d. apply (waits_never_cycle 32); [lia|].
  eapply rtc_l; [apply (kept_registered 1 0 5); [lia|lia|vm_compute; reflexivity]|].
  eapply rtc_l; [split; [apply (step_pushed 1 4)|]|].
  2: apply rtc_once, (kept_registered 2 1 6); [lia|lia|vm_compute; reflexivity].
  intros i a b a' b' Ha Hb Hbusy _ _ _ _ _. exfalso. apply Hbusy.
  destruct (decide (i = 1%nat)) as [->|Hi].
  { vm_compute in Ha. injection Ha as <-. vm_compute in Hb. injection Hb as <-. by vm_compute. }
  assert (next_waiting_index a = NOT_WAITING) as Hn.
  { rewrite register_other in Ha by exact Hi. exact (fresh_idle _ _ _ Ha). }
  exfalso. rewrite Hn in Hb. apply lookup_lt_Some in Hb.
  change (length (waiting_info (register 1 0 5 (fresh 32)))) with 64%nat in Hb.
  unfold NOT_WAITING in Hb. rewrite M32_val in Hb. lia.
Defined.

(** The promise kept is needed: FIFO 1, of stamp index 2, pushes 5, then 4, and so takes back
    the stamp waiter 0 was not held by, while FIFO 2, of stamp index 1, waits at entry 1 for
    waiter 0. The two waits then close a cycle nobody raised, and the walk of a third waiter's
    registration behind them never ends. *)
Theorem taken_back_stamp_cycles :
  exists d, rtc step (fresh 32) d /\ tc (waits_on d) 0%nat 0%nat /\
    (forall fuel, add_wait fuel 2 0 9 d = Died OutOfFuel).
Proof.
  set (d0 := update (fresh 32) 1 (set_pending 5)).
  set (d := update (register 1 0 5 (register 0 1 5 d0)) 1 (set_pending 4)).
  exists d. split_and!.
  - eapply rtc_l; [apply (step_pushed 1 5)|]. fold d0.
    eapply rtc_l; [eapply (step_registered 0 1 5); [lia|lia|vm_compute; reflexivity]|].
    eapply rtc_l; [eapply (step_registered 1 0 5); [lia|lia|vm_compute; reflexivity]|].
    eapply rtc_l; [apply (step_pushed 1 4)|]. apply rtc_refl.
  - apply tc_l with 1%nat; [by vm_compute|]. apply tc_once. by vm_compute.
  - assert (forall fuel, walk fuel (register 2 0 9 d) 2 (MkInfo 1 5 0) = Died OutOfFuel /\
      walk fuel (register 2 0 9 d) 2 (MkInfo 0 5 4) = Died OutOfFuel) as Hloop.
    { induction fuel as [|fuel [IH1 IH2]]; [done|]. split.
      - transitivity (walk fuel (register 2 0 9 d) 2 (MkInfo 0 5 4)); [reflexivity|exact IH2].
      - transitivity (walk fuel (register 2 0 9 d) 2 (MkInfo 1 5 0)); [reflexivity|exact IH1]. }
    intros [|fuel]; [reflexivity|].
    transitivity (chain ← walk fuel (register 2 0 9 d) 2 (MkInfo 1 5 0);
      match chain with
      | Ends => Ret (register 2 0 9 d)
      | Circular => d ← finish_wait 2 (register 2 0 9 d); Raised (CircularWait, d)
      end); [reflexivity|]. by rewrite (proj1 (Hloop fuel)).
Qed.

(** ** A wait finished *)

(** A finished wait clears its waiter's bit modulo 32 of the waiting word, for a waiter 31
    modulo 32 with every bit from 31 up, and no other bit; the waiter is idle. *)
Theorem finish_wait_clears d w :
  length (waiting_info d) = WAITING_INFO_COUNT -> 0 <= w < 64 ->
  exists d', finish_wait w d = Ret d' /\
    (forall i, 0 <= i < 64 -> Z.testbit (waiting_stamps d') i
      = Z.testbit (waiting_stamps d) i &&
        (if w mod 32 =? 31 then i <? 31 else negb (i =? w mod 32))) /\
    next_waiting_index <$> (waiting_info d' !! Z.to_nat w) = Some NOT_WAITING /\
    (forall i, i <> Z.to_nat w -> waiting_info d' !! i = waiting_info d !! i).
Proof.
  intros Hl Hw. exists (finished w d). rewrite finish_wait_ret by done. split; [done|].
  assert (is_Some (waiting_info d !! Z.to_nat w)) as [a Ha]
    by (apply lookup_lt_is_Some; rewrite Hl; unfold WAITING_INFO_COUNT; lia).
  unfold finished. split_and!.
  - intros i Hi. cbn [waiting_stamps update with_info with_stamps].
    by rewrite Z.land_spec, mask_bits.
  - rewrite update_lookup. cbn [waiting_info with_stamps]. by rewrite Ha, decide_True.
  - intros i Hi. rewrite update_lookup, decide_False by done. cbn [waiting_info with_stamps].
    by destruct (_ !! i).
Qed.

Lemma finish_wait_clears_witness :
  exists d', finish_wait 31 (MkDevice new_waiting_info (M64 - 1) 64) = Ret d' /\
    Z.testbit (waiting_stamps d') 40 = false /\ Z.testbit (waiting_stamps d') 30 = true.
Proof.
  destruct (finish_wait_clears (MkDevice new_waiting_info (M64 - 1) 64) 31)
    as (d' & H & Hbits & _); [reflexivity|lia|].
  exists d'. split; [exact H|]. rewrite !Hbits by lia. split; reflexivity.
Defined.

(** A wait registered and finished leaves only its value behind. *)
Lemma finished_register d w s v :
  u32 (waiting_stamps d) -> 0 <= w < 32 -> idle d w ->
  finished w (register w s v d) = update d w (set_value v).
Proof.
  intros Hword Hw (Hbit & a & Ha & Hidle). destruct d as [l ws m].
  unfold finished, register, update, with_stamps, with_info. cbn [waiting_info waiting_stamps max_fifo_count] in *.
  f_equal.
  - apply list_eq. intros i. destruct (decide (i = Z.to_nat w)) as [->|Hi].
    + rewrite !list_lookup_alter_eq, Ha. destruct a. cbn in *. by rewrite Hidle.
    + by rewrite !list_lookup_alter_ne.
  - apply Z.bits_inj'. intros i Hi. rewrite Z.land_spec, Z.lor_spec, bit32_pow, Z.pow2_bits_eqb by lia.
    destruct (Z.lt_ge_cases i 64) as [Hlt|Hge].
    + rewrite mask_bits, (Z.mod_small w) by lia. destruct (Z.eqb_spec w i) as [->|Hne].
      * rewrite Hbit, Z.eqb_refl. destruct (Z.eqb_spec i 31) as [->|]; done.
      * rewrite orb_false_r, (proj2 (Z.eqb_neq i w)) by lia. cbn [negb].
        destruct (Z.eqb_spec w 31) as [->|]; [|by rewrite andb_true_r].
        destruct (Z.ltb_spec i 31); [by rewrite andb_true_r|]. by rewrite u32_high by (done || lia).
    + rewrite u32_high, (proj2 (Z.eqb_neq w i)) by (done || lia). done.
Qed.

(** ** The wait's answer *)

Section Wait.
Context (stamp_memory : Z) (stamp : Wire.StampWait).
Hypothesis (Hindex : u32 (Wire.index stamp))
  (Hlow : GuestPtr.ZERO_REGION_END <= stamp_memory)
  (Hhigh : stamp_memory + 4 * M32 <= M64 - 8).

(** Whether the stamp's slot of [m] has reached the value. *)
Definition slot_reached (m : GuestPtr.memory) : bool :=
  reached (of_le_bytes (GuestPtr.bytes_at m (stamp_memory + 4 * Wire.index stamp) 4))
    (Wire.wvalue stamp).

(** A slice after which the wait goes on. *)
Definition goes_on (s : Slice) : bool :=
  negb (slot_reached (before s)) && negb (is_quiesced s)
    && negb (timed_out s && slot_reached (after s)).

Lemma slot_valid (m : GuestPtr.memory) :
  slot stamp_memory (Wire.index stamp) m
  = Ret (of_le_bytes (GuestPtr.bytes_at m (stamp_memory + 4 * Wire.index stamp) 4)).
Proof.
  pose proof M32_val. pose proof M64_val. unfold GuestPtr.ZERO_REGION_END in Hlow.
  unfold slot, GuestPtr.read_u32, GuestPtr.read_n, GuestPtr.check.
  rewrite mul64_small, add64_small by lia. unfold GuestPtr.ZERO_REGION_END.
  rewrite (proj2 (Z.ltb_ge _ _)), (proj2 (Z.leb_gt _ _)) by lia. cbn [orb mbind outcome_bind].
  by replace (Wire.index stamp * 4) with (4 * Wire.index stamp) by lia.
Qed.

Lemma wait_loop_decides slices : forall reports,
  wait_loop stamp_memory stamp slices reports
  = Ret (match list_find (fun s => goes_on s = false) slices with
         | None => None
         | Some (k, s) =>
             Some (is_quiesced s && negb (slot_reached (before s)),
                   (reports + length (filter (fun s => timed_out s = true) (take k slices)))%nat)
         end).
Proof.
  induction slices as [|s slices IH]; intros reports; [done|].
  cbn [wait_loop list_find]. rewrite !slot_valid. cbn [mbind outcome_bind].
  fold (slot_reached (before s)) (slot_reached (after s)).
  destruct (decide (goes_on s = false)) as [Hg|Hg].
  - unfold goes_on in Hg. cbn [take filter list_filter length]. rewrite Nat.add_0_r.
    destruct (slot_reached (before s)); [by rewrite andb_false_r|].
    destruct (is_quiesced s); [done|]. destruct (timed_out s); [|done].
    by destruct (slot_reached (after s)).
  - apply not_false_is_true in Hg. unfold goes_on in Hg.
    destruct (slot_reached (before s)); [done|]. destruct (is_quiesced s); [done|].
    destruct (timed_out s) eqn:Ht; [destruct (slot_reached (after s)); [done|]|]; rewrite IH;
      destruct (list_find _ slices) as [[k t]|]; try done; cbn [fmap option_fmap option_map prod_map fst snd];
      cbn [take]; rewrite filter_cons, Ht; [rewrite decide_True by done|by rewrite decide_False].
    by cbn [length]; rewrite Nat.add_succ_r.
Qed.
End Wait.

(** A stamp wait with its slot in mapped memory. When the first read has reached the value it
    answers [true] at once, registering nothing. Otherwise, unless its registration
    closes a cycle of waits and raises, it sleeps exactly until the first slice whose
    slot has reached the value or whose FIFO is quiesced, answers [false] only for a
    quiesced FIFO whose slot had not reached the value, and has asked for one report per
    timed-out slice before; ended or refused, the wait has left the table as it was but
    for the waiter's value. *)
Theorem wait_stamp_answers stamp_memory stamp w first slices d :
  u32 (Wire.index stamp) -> GuestPtr.ZERO_REGION_END <= stamp_memory ->
  stamp_memory + 4 * M32 <= M64 - 8 ->
  ok d -> 0 <= w < 32 -> w < max_fifo_count d -> idle d w ->
  let d1 := register w (Wire.index stamp) (Wire.wvalue stamp) d in
  let left := update d w (set_value (Wire.wvalue stamp)) in
  let reached_in := slot_reached stamp_memory stamp in
  let result := wait_stamp 65 (Some stamp_memory) stamp w first slices d in
  if reached_in first then result = Ret (Some (true, 0%nat), d)
  else
    (tc (waits_on d1) (Z.to_nat w) (Z.to_nat w) /\ result = Raised (CircularWait, left)) \/
    (~ tc (waits_on d1) (Z.to_nat w) (Z.to_nat w) /\
     result = Ret (match list_find (fun s => goes_on stamp_memory stamp s = false) slices with
                   | None => (None, d1)
                   | Some (k, s) =>
                       (Some (negb (is_quiesced s && negb (reached_in (before s))),
                              length (filter (fun s => timed_out s = true) (take k slices))), left)
                   end)).
Proof.
  intros Hindex Hlow Hhigh Hok Hw Hmax Hidle d1 left reached_in result.
  assert (forall m, slot stamp_memory (Wire.index stamp) m
    = Ret (of_le_bytes (GuestPtr.bytes_at m (stamp_memory + 4 * Wire.index stamp) 4))) as Hslot
    by (intros m; by apply slot_valid).
  assert (finished w d1 = left) as Hleft
    by (apply finished_register; [apply (ok_word _ Hok)|done|done]).
  unfold result, wait_stamp. cbn [default from_option id]. rewrite Hslot. cbn [mbind outcome_bind].
  fold (slot_reached stamp_memory stamp first). fold reached_in.
  destruct (reached_in first); [done|].
  destruct (add_wait_outcome d w (Wire.index stamp) (Wire.wvalue stamp) Hok Hw Hmax ltac:(lia) Hidle)
    as [(Ht & -> & _)|(He & -> & Hok1)]; fold d1; [left; by rewrite Hleft|right].
  split; [apply ended_no_cycle, He|]. cbn [mbind outcome_bind].
  rewrite wait_loop_decides by done. cbn [mbind outcome_bind].
  destruct (list_find _ slices) as [[k t]|]; [|done].
  rewrite finish_wait_ret by (apply Hok1 || lia). cbn [mbind outcome_bind]. fold d1. by rewrite Hleft.
Qed.

(** Waiter 1 waits past one timed-out slice, then its FIFO is quiesced. *)
Lemma wait_stamp_answers_witness :
  let m : GuestPtr.memory := fun _ => x00 in
  exists d', wait_stamp 65 (Some 0x200000000) (Wire.MkStampWait 0 7) 1 m
    [MkSlice m false true m; MkSlice m true false m] (fresh 32) = Ret (Some (false, 1%nat), d').
Proof.
  intros m. exists (update (fresh 32) 1 (set_value 7)).
  pose proof (wait_stamp_answers 0x200000000 (Wire.MkStampWait 0 7) 1 m
    [MkSlice m false true m; MkSlice m true false m] (fresh 32) ltac:(done) ltac:(done) ltac:(done)
    (ok_fresh 32 ltac:(done)) ltac:(done) ltac:(done)
    (conj eq_refl (ex_intro _ (MkInfo NOT_WAITING 0 0) (conj eq_refl eq_refl)))) as H.
  cbn zeta in H.
  assert (slot_reached 0x200000000 (Wire.MkStampWait 0 7) m = false) as E by reflexivity.
  rewrite E in H. destruct H as [[_ H]|[_ H]].
  - exfalso. revert H. vm_compute. discriminate.
  - rewrite H. reflexivity.
Defined.

(** ** With 64 FIFOs

    Waiters 32 apart share a bit of the waiting word. A child's delete finishes the
    wait of its id and so clears the bit of a waiter 32 below it that still waits; a
    cycle closed meanwhile goes unseen, and the walk of the next waiter that leads into
    it has no end. *)
Theorem walk_without_end :
  exists d1 d2 d3,
    add_wait 65 1 2 5 (fresh 64) = Ret d1 /\ finish_wait 33 d1 = Ret d2 /\
    add_wait 65 2 1 5 d2 = Ret d3 /\
    (forall fuel, add_wait fuel 33 1 5 d3 = Died OutOfFuel).
Proof.
  exists (register 1 2 5 (fresh 64)), (finished 33 (register 1 2 5 (fresh 64))),
    (register 2 1 5 (finished 33 (register 1 2 5 (fresh 64)))).
  split; [by vm_compute|]. split; [by vm_compute|]. split; [by vm_compute|].
  set (d := register 33 1 5 (register 2 1 5 (finished 33 (register 1 2 5 (fresh 64))))).
  assert (forall fuel, walk fuel d 33 (MkInfo 2 5 0) = Died OutOfFuel /\
    walk fuel d 33 (MkInfo 1 5 0) = Died OutOfFuel) as H.
  { induction fuel as [|fuel [IH1 IH2]]; [done|]. split; cbn [walk]; [exact IH2|exact IH1]. }
  intros fuel. exact (f_equal (fun r => chain ← r; match chain with
    | Ends => Ret d
    | Circular => d ← finish_wait 33 d; Raised (CircularWait, d) end) (proj2 (H fuel))).
Qed.

End Waits.
