(* ===== verification/RootTask.v ===== *)
(** * RootTask: the root task's address space and the device's mappings
    (src/crates/reims-vgpu-core/src/device/root.rs, device.rs)

    Without a memory map a mapping of the device is a range of the host's root task:
    the range comes from [FirstFit], the host's [mapMemory] maps it, and the mapping's
    last release unmaps and frees it. With a memory map the mapping is [MemoryMap]'s.
    The host's blocks are an argument: which of them the host gave, and what each
    answers after the calls before. A raise out of a block is not modelled. *)

From S2P Require Import Prelude Num MemoryKinds DeviceKinds GuestRecords GuestPtr.
From S2P Require Import FirstFit MemoryMap.
From stdpp Require Import relations strings.
Open Scope Z_scope.

Module RootTask.
Import DeviceKinds GuestRecords.

Definition ROOT_TASK_SIZE : Z := 0x1000000.
Definition ROOT_TASK_VA_LAST : Z := 0xffffff.
Definition ROOT_TASK_VA_GRANULE : Z := 0x4000.

Inductive RunState : Type :=
| Running
| EnteringSuspend
| Suspended
| LeavingSuspendEarly
| Resuming
| Paused.
#[export] Instance RunState_eq_dec : EqDecision RunState.
Proof. solve_decision. Defined.

(** The value the guest reads. *)
Definition code (r : RunState) : Z :=
  match r with
  | Running => 0
  | EnteringSuspend => 1
  | Suspended => 2
  | LeavingSuspendEarly => 3
  | Resuming => 4
  | Paused => 5
  end.
Definition from_raw (raw : Z) : RunState :=
  if raw =? 1 then EnteringSuspend
  else if raw =? 2 then Suspended
  else if raw =? 3 then LeavingSuspendEarly
  else if raw =? 4 then Resuming
  else if raw =? 5 then Paused
  else Running.

(** ** The host's blocks *)

Inductive HostCall : Type :=
| CreateTask (size : Z)
| DestroyTask (task : Z)
| MapMemory (task count offset : Z) (read_only : bool) (ranges : list MemoryMap.PhysRange)
| UnmapMemory (task offset length : Z)
| ReadMemory (address length : Z)
| RaiseInterrupt (vector : Z).

(** Each block the host gave, as its answer after the calls before: [createTask] from
    the size and the old base to the task and its base, [readMemory] to its answer and
    what it wrote. The others' answers are not used. *)
Record HostBlocks := MkBlocks {
  create_task : option (list HostCall -> Z -> Z -> Z * Z);
  destroy_task : bool;
  map_memory : option (list HostCall -> HostCall -> bool);
  unmap_memory : bool;
  read_memory : option (list HostCall -> Z -> Z -> bool * option (list byte));
  raise_interrupt : bool;
}.

(** ** The state *)

Record State := MkState {
  root_task : Z;
  root_task_base : Z;
  root_page_number : Z;
  read_page : Z;
  root_task_allocator : option FirstFit.FirstFitVa;
  memory_map : option MemoryMap.MemoryMap;
  run_state : RunState;
  calls : list HostCall;
  vm_calls : list MemoryMap.VmCall;
}.
Definition with_task (task base : Z) (s : State) : State :=
  MkState task base (root_page_number s) (read_page s) (root_task_allocator s) (memory_map s)
    (run_state s) (calls s) (vm_calls s).
Definition with_page (page : Z) (s : State) : State :=
  MkState (root_task s) (root_task_base s) page (read_page s) (root_task_allocator s)
    (memory_map s) (run_state s) (calls s) (vm_calls s).
Definition with_read_page (page : Z) (s : State) : State :=
  MkState (root_task s) (root_task_base s) (root_page_number s) page (root_task_allocator s)
    (memory_map s) (run_state s) (calls s) (vm_calls s).
Definition with_allocator (a : option FirstFit.FirstFitVa) (s : State) : State :=
  MkState (root_task s) (root_task_base s) (root_page_number s) (read_page s) a (memory_map s)
    (run_state s) (calls s) (vm_calls s).
Definition with_calls (cs : list HostCall) (s : State) : State :=
  MkState (root_task s) (root_task_base s) (root_page_number s) (read_page s)
    (root_task_allocator s) (memory_map s) (run_state s) cs (vm_calls s).
Definition with_vm_calls (cs : list MemoryMap.VmCall) (s : State) : State :=
  MkState (root_task s) (root_task_base s) (root_page_number s) (read_page s)
    (root_task_allocator s) (memory_map s) (run_state s) (calls s) cs.

Local Abbreviation M := (Run State DeviceRaise ddeath).

Definition fatal {A} (k : DeviceDeath) : M A := die (Fatal k).
Definition require_that (b : bool) (k : DeviceDeath) : M unit := if b then mret tt else fatal k.
(** A call of the memory map or of a mapping: it has no handler. *)
Definition of_memory {A} (m : Memory.mres A) : M A := fun s =>
  match m with
  | Ret a => Ret (a, s)
  | Raised k => Died (OfMemory (Memory.Unhandled k))
  | Died d => Died (OfMemory d)
  end.
(** A raise where it is thrown, as [on] says. *)
Definition throw {A} (on : Memory.OnFault) (k : DeviceRaise) : M A :=
  match on with Memory.Die => die (Unhandled k) | Memory.Return => raise k end.

Section Device.
Context {target : Target} (blocks : HostBlocks).
(** The platform's answers to the memory map's calls. *)
Context (answers : list MemoryMap.VmCall -> MemoryMap.VmCall -> bool)
        (allocates : list MemoryMap.VmCall -> Z -> option Z).

Definition page_address (page : Z) : Z := mul64 page APV_PAGE_SIZE.

Definition tell (c : HostCall) : M unit := modify (fun s => with_calls (calls s ++ [c]) s).
(** A block's call, whose answer is used. *)
Definition ask {A} (c : HostCall) (answer : list HostCall -> A) : M A :=
  before ← asks calls; _ ← tell c; mret (answer before).

Definition not_leaving_suspend_early : M unit :=
  r ← asks run_state;
  require_that (negb (bool_decide (r = LeavingSuspendEarly))) MappingWhileLeavingSuspend.

(** ** The root task's ranges *)

Definition allocate_range (length : Z) : M (option Z) := fun s =>
  match root_task_allocator s with
  | None => Ret (None, s)
  | Some a =>
      let '(a, offset) := FirstFit.allocate a length in
      Ret (offset, with_allocator (Some a) s)
  end.
Definition deallocate_range (offset length : Z) : M unit :=
  modify (fun s => with_allocator
    (option_map (fun a => FirstFit.deallocate a offset length) (root_task_allocator s)) s).

Definition root_task_mapping (ranges : list MemoryMap.PhysRange) (length : Z)
    : M (option MemoryMap.Mapping) :=
  task ← asks root_task;
  base ← asks root_task_base;
  if task =? 0 then mret None else
  allocated ← allocate_range length;
  match allocated with
  | None => mret None
  | Some offset =>
      let virtual_address := add64 base offset in
      match map_memory blocks with
      | None => fatal (NilBlock "mapMemory")
      | Some map =>
          let c := MapMemory task (Num.low_u32 (Z.of_nat (List.length ranges))) offset false
            ranges in
          mapped ← ask c (fun before => map before c);
          if negb mapped then _ ← deallocate_range offset length; mret None
          else
            mapping ← of_memory
              (MemoryMap.mapping_new true virtual_address length true MemoryMap.TRootTask);
            mret (Some mapping)
      end
  end.

(** A mapping made by the memory map. *)
Definition map_range_mapping (m : MemoryMap.MemoryMap) (ranges : list MemoryMap.PhysRange)
    (length : Z) : M (option MemoryMap.Mapping) :=
  vm ← asks vm_calls;
  '(vm, mapping) ← of_memory
    (MemoryMap.new_range_mapping answers allocates m vm ranges length 0);
  _ ← modify (with_vm_calls vm);
  mret mapping.

Definition new_contiguous_mapping (page length : Z) : M (option MemoryMap.Mapping) :=
  _ ← not_leaving_suspend_early;
  let range := MemoryMap.MkPhysRange (page_address page) length in
  map ← asks memory_map;
  match map with
  | Some m => map_range_mapping m [range] length
  | None => root_task_mapping [range] length
  end.

Definition new_range_mapping (ranges : list MemoryMap.PhysRange) (total_length : Z)
    (read_only : bool) : M (option MemoryMap.Mapping) :=
  _ ← not_leaving_suspend_early;
  _ ← require_that (total_length mod APV_PAGE_SIZE =? 0) UnalignedRangeMapping;
  map ← asks memory_map;
  match map with
  | Some m => map_range_mapping m ranges total_length
  | None => root_task_mapping ranges total_length
  end.

(** [MappingSink::unmap_range]. *)
Definition unmap_range (virtual_address length : Z) : M unit :=
  map ← asks memory_map;
  match map with
  | Some _ => mret tt
  | None =>
      _ ← not_leaving_suspend_early;
      base ← asks root_task_base;
      let offset := sub64 virtual_address base in
      _ ← require_that (offset <? ROOT_TASK_SIZE) UnmapOutsideRootTask;
      task ← asks root_task;
      if task =? 0 then mret tt
      else if negb (unmap_memory blocks) then fatal (NilBlock "unmapMemory")
      else
        _ ← tell (UnmapMemory task offset length);
        deallocate_range offset length
  end.

(** A mapping's last release. The device's own mappings are the memory map's or the
    root task's, never a task's. *)
Definition release (r : MemoryMap.Release) : M unit :=
  match r with
  | MemoryMap.ReleaseVm address length =>
      modify (fun s => with_vm_calls (vm_calls s ++ [MemoryMap.VmDeallocate address length]) s)
  | MemoryMap.ReleaseRange address length => unmap_range address length
  | MemoryMap.ReleaseTask _ _ _ => mret tt
  end.
Fixpoint release_all (rs : list MemoryMap.Release) : M unit :=
  match rs with
  | [] => mret tt
  | r :: rs => _ ← release r; release_all rs
  end.
Definition drop_mapping (m : MemoryMap.Mapping) : M unit :=
  release_all (MemoryMap.mapping_drop true m).

(** ** Physical reads *)

(** [mem] is the host memory the copy reads; the answer and the bytes the buffer of
    [n] is filled with ([None]: untouched). *)
Definition read_from_physical_address (mem : GuestPtr.memory) (on : Memory.OnFault)
    (address n : Z) : M (bool * option (list byte)) :=
  let length := Num.low_u32 n in
  if (APV_PAGE_SIZE <? length) ||
     (APV_PAGE_SIZE <? add64 (Z.land address APV_PAGE_MASK) length)
  then throw on ReadPastPage
  else
    map ← asks memory_map;
    match map with
    | Some m => of_memory (MemoryMap.map_read mem m address n)
    | None =>
        match read_memory blocks with
        | Some read => ask (ReadMemory address length) (fun before => read before address length)
        | None =>
            let page := Num.low_u32 (shr64 address APV_PAGE_SHIFT) in
            mapping ← new_contiguous_mapping page APV_PAGE_SIZE;
            match mapping with
            | None => mret (false, None)
            | Some mapping =>
                bytes ← (fun s => leaving s (GuestPtr.copy_to mem (MemoryMap.m_address mapping)
                  (Z.land address APV_PAGE_MASK) n (Fatal PhysicalReadCopy))
                    ≫= fun bytes => Ret (bytes, s));
                _ ← drop_mapping mapping;
                mret (true, Some bytes)
            end
        end
    end.

(** ** Operations that raise nothing and leave the run state *)

Definition silent {A} (m : M A) : Prop :=
  forall s, wp m (fun _ s' => run_state s' = run_state s) (fun _ => False) s.

Lemma silent_bind {A B} (m : M A) (f : A -> M B) : silent m -> (forall a, silent (f a)) -> silent (m ≫= f).
Proof.
  intros Hm Hf s. rewrite wp_bind. eapply wp_mono; [| |apply Hm]; [|done]. intros a s' <-. apply Hf.
Qed.
Lemma silent_of_memory {A} (m : Memory.mres A) : silent (of_memory m).
Proof. intros s. by destruct m. Qed.
Lemma silent_require b k : silent (require_that b k).
Proof. by destruct b. Qed.
Lemma silent_allocate n : silent (allocate_range n).
Proof.
  intros s. unfold wp, allocate_range. destruct (root_task_allocator s); [|done].
  by destruct (FirstFit.allocate _ _).
Qed.
Ltac silent_go :=
  repeat match goal with
    | |- silent (mbind _ _) => apply silent_bind; [|intros ?]
    | |- silent (of_memory _) => apply silent_of_memory
    | |- silent (require_that _ _) => apply silent_require
    | |- silent (allocate_range _) => apply silent_allocate
    | |- silent (match _ with _ => _ end) => case_match
    | |- silent (mret _) => done
    | |- silent (asks _) => done
    | |- silent (modify _) => done
    | |- silent (fatal _) => done
    | |- silent (tell _) => done
    | |- silent (deallocate_range _ _) => done
    | |- silent (ask _ _) => unfold ask
    | |- silent not_leaving_suspend_early => unfold not_leaving_suspend_early
    | |- _ => progress cbv zeta
    end.

Lemma silent_ask {A} c (answer : list HostCall -> A) : silent (ask c answer).
Proof. silent_go. Qed.
Lemma silent_contiguous page length : silent (new_contiguous_mapping page length).
Proof. unfold new_contiguous_mapping, map_range_mapping, root_task_mapping. silent_go. Qed.
Lemma silent_drop m : silent (drop_mapping m).
Proof.
  unfold drop_mapping. induction (MemoryMap.mapping_drop true m) as [|r rs IH]; [done|].
  cbn [release_all]. silent_go; [|done]. unfold release, unmap_range. silent_go.
Qed.

(** ** The ranges of the live mappings

    [live] are the root-task mappings not yet released, over a root task at [base]. *)

Definition offset_of (base : Z) (m : MemoryMap.Mapping) : Z := MemoryMap.m_address m - base.
Definition granules (m : MemoryMap.Mapping) : Z := FirstFit.up 14 (MemoryMap.m_length m).
Definition in_range (base p : Z) (m : MemoryMap.Mapping) : Prop :=
  offset_of base m <= p < offset_of base m + granules m.
Definition apart (base : Z) (m m' : MemoryMap.Mapping) : Prop :=
  forall p, in_range base p m -> ~ in_range base p m'.

(** A mapping's range within the root task. *)
Definition within (base : Z) (m : MemoryMap.Mapping) : Prop :=
  MemoryMap.m_teardown m = MemoryMap.TRootTask /\ 0 <= offset_of base m /\
  0 < MemoryMap.m_length m /\ offset_of base m + granules m <= ROOT_TASK_SIZE.

(** The free list is well formed and holds the bytes of the root task no live mapping
    has. *)
Definition partitioned (base : Z) (a : FirstFit.FirstFitVa) (live : list MemoryMap.Mapping)
    : Prop :=
  FirstFit.mask a = 2 ^ 14 - 1 /\ FirstFit.gaps 0 ROOT_TASK_SIZE (FirstFit.free a) /\
  forall p, FirstFit.free_at (FirstFit.free a) p <->
    0 <= p < ROOT_TASK_SIZE /\ Forall (fun m => ~ in_range base p m) live.

Record ok (base : Z) (s : State) (live : list MemoryMap.Mapping) : Prop := {
  ok_map : memory_map s = None;
  ok_task : root_task s <> 0;
  ok_base : root_task_base s = base;
  ok_base_range : 0 < base /\ base + ROOT_TASK_SIZE < M64;
  ok_within : Forall (within base) live;
  ok_apart : ForallOrdPairs (apart base) live;
  ok_allocator : exists a, root_task_allocator s = Some a /\ partitioned base a live;
}.

(** What an operation on the ranges leaves as it was. *)
Definition same_task (s s' : State) : Prop :=
  memory_map s' = memory_map s /\ root_task s' = root_task s /\
  root_task_base s' = root_task_base s.

Lemma granules_pos base m : within base m -> 0 < granules m /\ in_range base (offset_of base m) m.
Proof.
  intros (_&Ho&Hl&_). unfold in_range, granules.
  pose proof (FirstFit.up_bounds 14 (MemoryMap.m_length m) ltac:(lia)). lia.
Qed.

Lemma within_lt base m : within base m -> 0 <= offset_of base m < ROOT_TASK_SIZE.
Proof. intros Hw. pose proof (granules_pos base m Hw). destruct Hw as (_&?&_&?). lia. Qed.

Lemma ok_same base s s' live :
  ok base s live -> same_task s s' -> root_task_allocator s' = root_task_allocator s ->
  ok base s' live.
Proof.
  intros [] (Hm&Ht&Hb) Ha. split; rewrite ?Hm, ?Ht, ?Hb, ?Ha; done.
Qed.

(** A new block taken from the free list. *)
Lemma partitioned_add base a a' live m offset :
  partitioned base a live -> offset_of base m = offset ->
  FirstFit.mask a' = FirstFit.mask a -> FirstFit.gaps 0 ROOT_TASK_SIZE (FirstFit.free a') ->
  FirstFit.allocated 14 (granules m) (FirstFit.free a) (FirstFit.free a') offset ->
  partitioned base a' (m :: live) /\ Forall (apart base m) live.
Proof.
  intros (Hmask&Hg&Hp) Ho Hm' Hg' (_&Hin&Hout&_). split.
  - split_and!; [by rewrite Hm'|done|]. intros p. rewrite Hout, Hp, Forall_cons. unfold in_range.
    rewrite Ho. tauto.
  - apply list.Forall_forall. intros m' Hm'' p [Hp1 Hp2] Hp'. rewrite Ho in *.
    pose proof (proj1 (Hp p) (Hin p ltac:(lia))) as [_ Hn].
    rewrite list.Forall_forall in Hn. exact (Hn m' Hm'' Hp').
Qed.

Lemma apart_sym base m m' : apart base m m' -> apart base m' m.
Proof. intros H p H' Hm. by apply (H p). Qed.

Lemma apart_middle base l1 m l2 :
  ForallOrdPairs (apart base) (l1 ++ m :: l2) ->
  Forall (apart base m) (l1 ++ l2) /\ ForallOrdPairs (apart base) (l1 ++ l2).
Proof.
  intros H. eapply (MemoryMap.ForallOrdPairs_perm _ _ (m :: l1 ++ l2)) in H;
    [by inversion H|apply apart_sym|]. by rewrite Permutation_middle.
Qed.

(** A block given back. *)
Lemma partitioned_drop base a l1 m l2 :
  partitioned base a (l1 ++ m :: l2) -> within base m ->
  ForallOrdPairs (apart base) (l1 ++ m :: l2) ->
  partitioned base (FirstFit.deallocate a (offset_of base m) (MemoryMap.m_length m)) (l1 ++ l2).
Proof.
  intros (Hmask&Hg&Hp) (_&Ho&Hl&Hs) [Hap _]%apart_middle.
  pose proof (FirstFit.up_bounds 14 (MemoryMap.m_length m) ltac:(lia)) as Hup.
  assert (forall p, in_range base p m -> 0 <= p < ROOT_TASK_SIZE) as Hr
    by (unfold in_range; intros; lia).
  assert (forall p, ~ in_range base p m \/ Forall (fun m => ~ in_range base p m) (l1 ++ l2)) as Hd.
  { intros p. destruct (decide (offset_of base m <= p < offset_of base m + granules m)) as [Hin|];
      [right|by left]. apply (list.Forall_impl _ _ _ Hap). intros m' H. by apply H. }
  unfold granules, ROOT_TASK_SIZE in *.
  pose proof (FirstFit.deallocate_spec 14 0x1000000 a ltac:(lia) Hmask Hg
    (offset_of base m) (MemoryMap.m_length m) Ho Hl ltac:(done) ltac:(rewrite M64_val; lia)) as Hspec.
  destruct Hspec as [Hg' Hf'].
  { intros p Hin [_ Hn]%Hp. rewrite Forall_app, Forall_cons in Hn.
    by apply (proj1 (proj2 Hn)). }
  rewrite Z.max_l in Hg' by lia. split_and!; [done..|].
  intros p. rewrite Hf', Hp. specialize (Hr p). specialize (Hd p).
  rewrite Forall_app, Forall_cons, Forall_app in *.
  change (offset_of base m <= p < offset_of base m + FirstFit.up 14 (MemoryMap.m_length m))
    with (in_range base p m).
  assert (in_range base p m \/ ~ in_range base p m) by (unfold in_range; lia). tauto.
Qed.

(** ** One mapping *)

Definition map_call (s : State) (offset : Z) (ranges : list MemoryMap.PhysRange) : HostCall :=
  MapMemory (root_task s) (Num.low_u32 (Z.of_nat (List.length ranges))) offset false ranges.
Definition mapping_at (base offset length : Z) : MemoryMap.Mapping :=
  MemoryMap.MkMapping (base + offset) length true MemoryMap.TRootTask.

Lemma offset_mapping_at base offset length :
  offset_of base (mapping_at base offset length) = offset.
Proof. unfold offset_of. cbn. lia. Qed.

(** A block the allocator answers lies in the root task, and the mapping over it joins
    the live ones. *)
Lemma allocate_live base a a' live offset length :
  partitioned base a live -> 0 < length <= 2 ^ 63 ->
  FirstFit.allocate a length = (a', Some offset) ->
  let m := mapping_at base offset length in
  within base m /\ partitioned base a' (m :: live) /\ Forall (apart base m) live.
Proof.
  intros Hp Hl Ha m. pose proof Hp as (Hmask&Hg&Hf).
  pose proof (FirstFit.up_bounds 14 length ltac:(lia)) as Hup.
  pose proof (FirstFit.allocate_spec 14 0x1000000 a ltac:(lia) Hmask ltac:(lia) Hg length
    ltac:(lia) ltac:(rewrite M64_val; lia)) as Hspec.
  rewrite Ha in Hspec. destruct Hspec as (Hal&Hg'&Hm'). pose proof Hal as (_&Hin&_&_).
  split.
  - pose proof (Hin offset ltac:(lia)) as H1%Hf.
    pose proof (Hin (offset + FirstFit.up 14 length - 1) ltac:(lia)) as H2%Hf.
    unfold within, granules, m. rewrite offset_mapping_at. cbn. split_and!; [done|lia..].
  - apply (partitioned_add _ a _ _ _ offset); [done|apply offset_mapping_at|done|done|done].
Qed.

Lemma root_task_mapping_cases base s live ranges length :
  ok base s live -> 0 <= length <= 2 ^ 63 ->
  root_task_mapping ranges length s = Ret (None, s) \/
  exists offset, let m := mapping_at base offset length in let c := map_call s offset ranges in
    within base m /\
    match map_memory blocks with
    | None => root_task_mapping ranges length s = Died (Fatal (NilBlock "mapMemory"))
    | Some map =>
        if map (calls s) c then
          exists a', let s' := with_allocator (Some a') (with_calls (calls s ++ [c]) s) in
            root_task_mapping ranges length s = Ret (Some m, s') /\ ok base s' (m :: live) /\
            root_task_allocator s = Some (FirstFit.deallocate a' offset length)
        else root_task_mapping ranges length s = Ret (None, with_calls (calls s ++ [c]) s)
    end.
Proof.
  intros Hok Hl. pose proof Hok as [Hmap Htask Hbase [Hb0 Hb1] Hw Hap (a&Ea&Hp)].
  unfold root_task_mapping. rewrite run_step. cbn [asks mbind outcome_bind]. rewrite run_step.
  cbn [asks mbind outcome_bind]. rewrite (proj2 (Z.eqb_neq (root_task s) 0) Htask), run_step.
  unfold allocate_range. rewrite Ea.
  destruct (FirstFit.allocate a length) as [a' [offset|]] eqn:Eal.
  2: { left. cbn [mbind outcome_bind]. unfold FirstFit.allocate in Eal.
       assert (a' = a) as -> by (destruct (length =? 0); [by simplify_eq|];
         destruct (FirstFit.find_fit _ _ _ _) as [[[[??]?]?]|]; by simplify_eq).
       destruct s. cbn in *. by subst. }
  assert (length <> 0) as Hne by (intros ->; by simplify_eq).
  assert (0 < length <= 2 ^ 63) as Hl' by lia.
  pose proof (allocate_live _ _ _ _ _ _ Hp Hl' Eal) as (Hwm&Hpm&Hapm).
  assert (FirstFit.deallocate a' offset length = a) as Hde.
  { apply (FirstFit.allocate_deallocate 14 0x1000000); [lia|apply Hp|lia|apply Hp|lia| |done].
    rewrite M64_val. lia. }
  right. exists offset. split; [done|]. cbn [mbind outcome_bind].
  destruct (map_memory blocks) as [map|]; [|done].
  unfold ask. rewrite !run_step. cbn [asks tell modify mbind outcome_bind mret run_ret].
  change (MapMemory _ _ _ _ _) with (map_call s offset ranges).
  change (calls (with_allocator _ s)) with (calls s).
  destruct (map (calls s) (map_call s offset ranges)); cbn [negb].
  - unfold of_memory, MemoryMap.mapping_new.
    pose proof (within_lt _ _ Hwm) as Ho. rewrite offset_mapping_at in Ho.
    rewrite Hbase, add64_small by lia.
    rewrite (proj2 (Z.eqb_neq (base + offset) 0)), (proj2 (Z.eqb_neq length 0)) by lia.
    exists a'. split; [reflexivity|]. split; [|by rewrite Hde].
    split; cbn; try done; [by constructor|by constructor|by exists a'].
  - rewrite run_step. cbn [deallocate_range modify mbind outcome_bind mret run_ret].
    destruct s. cbn in Ea |- *. subst. unfold with_allocator. cbn [option_map root_task_allocator].
    done.
Qed.

(** ** The last release *)

Lemma drop_mapping_cases base s l1 m l2 :
  ok base s (l1 ++ m :: l2) ->
  drop_mapping m s =
    if bool_decide (run_state s = LeavingSuspendEarly)
    then Died (Fatal MappingWhileLeavingSuspend)
    else if unmap_memory blocks then
      Ret (tt, with_allocator
        (option_map (fun a => FirstFit.deallocate a (offset_of base m) (MemoryMap.m_length m))
           (root_task_allocator s))
        (with_calls (calls s ++ [UnmapMemory (root_task s) (offset_of base m)
          (MemoryMap.m_length m)]) s))
    else Died (Fatal (NilBlock "unmapMemory")).
Proof.
  intros [Hmap Htask Hbase [Hb0 Hb1] Hw _ _]. rewrite Forall_app, Forall_cons in Hw.
  destruct Hw as (_&Hw&_). pose proof (within_lt _ _ Hw) as Ho. destruct Hw as (Ht&_).
  unfold drop_mapping, MemoryMap.mapping_drop. rewrite Ht. cbn [release_all release].
  rewrite run_step. unfold unmap_range, not_leaving_suspend_early, require_that. rewrite run_step.
  cbn [asks mbind outcome_bind]. rewrite Hmap, !run_step. cbn [asks mbind outcome_bind].
  destruct (bool_decide (run_state s = LeavingSuspendEarly)); cbn [negb]; [done|].
  cbn [mret run_ret mbind outcome_bind]. rewrite run_step. cbn [asks mbind outcome_bind].
  unfold offset_of in *. rewrite Hbase, sub64_small by (unfold ROOT_TASK_SIZE in *; lia).
  rewrite (proj2 (Z.ltb_lt _ _)) by lia. rewrite run_step. cbn [mret run_ret mbind outcome_bind].
  rewrite run_step. cbn [asks mbind outcome_bind].
  rewrite (proj2 (Z.eqb_neq (root_task s) 0) Htask).
  destruct (unmap_memory blocks); [|done]. cbn [negb]. by rewrite run_step.
Qed.

Lemma drop_ok base s l1 m l2 s' :
  ok base s (l1 ++ m :: l2) -> drop_mapping m s = Ret (tt, s') -> ok base s' (l1 ++ l2).
Proof.
  intros Hok Hd. rewrite (drop_mapping_cases _ _ _ _ _ Hok) in Hd.
  case_bool_decide; [done|]. destruct (unmap_memory blocks); [|done]. injection Hd as <-.
  destruct Hok as [Hmap Htask Hbase Hb Hw Hap (a&Ea&Hp)].
  rewrite Ea. pose proof Hw as Hw'. rewrite Forall_app, Forall_cons in Hw'.
  destruct Hw' as (Hw1&Hwm&Hw2). split; cbn -[FirstFit.deallocate]; try done.
  - by rewrite Forall_app.
  - by apply (apart_middle _ _ m).
  - eexists. split; [done|]. by apply partitioned_drop.
Qed.

(** ** Mapping in a live root task *)

Lemma contiguous_eq base s live page length :
  ok base s live ->
  new_contiguous_mapping page length s =
    if bool_decide (run_state s = LeavingSuspendEarly)
    then Died (Fatal MappingWhileLeavingSuspend)
    else root_task_mapping [MemoryMap.MkPhysRange (page_address page) length] length s.
Proof.
  intros [Hmap _ _ _ _ _ _]. unfold new_contiguous_mapping, not_leaving_suspend_early, require_that.
  rewrite !run_step. cbn [asks mbind outcome_bind].
  destruct (bool_decide _); [done|]. cbn [negb mret run_ret mbind outcome_bind].
  rewrite run_step. cbn [asks mbind outcome_bind]. by rewrite Hmap.
Qed.

Lemma range_eq base s live ranges total read_only :
  ok base s live ->
  new_range_mapping ranges total read_only s =
    if bool_decide (run_state s = LeavingSuspendEarly)
    then Died (Fatal MappingWhileLeavingSuspend)
    else if total mod APV_PAGE_SIZE =? 0 then root_task_mapping ranges total s
    else Died (Fatal UnalignedRangeMapping).
Proof.
  intros [Hmap _ _ _ _ _ _]. unfold new_range_mapping, not_leaving_suspend_early, require_that.
  rewrite !run_step. cbn [asks mbind outcome_bind].
  destruct (bool_decide _); [done|]. cbn [negb mret run_ret mbind outcome_bind]. rewrite run_step.
  destruct (_ =? 0); [|done]. cbn [mret run_ret mbind outcome_bind].
  rewrite run_step. cbn [asks mbind outcome_bind]. by rewrite Hmap.
Qed.

Definition joined (r : option MemoryMap.Mapping) (live : list MemoryMap.Mapping)
    : list MemoryMap.Mapping := match r with Some m => m :: live | None => live end.

Lemma mapping_ok base s live ranges length r s' :
  ok base s live -> 0 <= length <= 2 ^ 63 -> root_task_mapping ranges length s = Ret (r, s') ->
  ok base s' (joined r live).
Proof.
  intros Hok Hl Hm.
  destruct (root_task_mapping_cases base s live ranges length Hok Hl) as [E|(offset&_&Hc)].
  { rewrite E in Hm. by injection Hm as <- <-. }
  destruct (map_memory blocks) as [map|]; [|by rewrite Hm in Hc].
  destruct (map _ _).
  - destruct Hc as (a'&E&Hok'&_). rewrite E in Hm. by injection Hm as <- <-.
  - rewrite Hm in Hc. injection Hc as -> ->. by apply (ok_same base s).
Qed.

(** The bytes of a page read through the root task. *)
Definition page_of (address : Z) : MemoryMap.PhysRange :=
  MemoryMap.MkPhysRange (address - address mod APV_PAGE_SIZE) APV_PAGE_SIZE.

Lemma read_crosses address n :
  u64 address -> u32 n ->
  (APV_PAGE_SIZE <? Num.low_u32 n) ||
    (APV_PAGE_SIZE <? add64 (Z.land address APV_PAGE_MASK) (Num.low_u32 n)) =
  (APV_PAGE_SIZE <? address mod APV_PAGE_SIZE + n).
Proof.
  intros Ha Hn. rewrite land_page_mask. unfold Num.low_u32. rewrite w32_small by done.
  destruct page_size as [_ Hp].
  assert (0 < APV_PAGE_SIZE) as Hpos by lia. pose proof (Z.mod_pos_bound address _ Hpos).
  rewrite add64_small by (unfold M64; unfold M32 in Hn; lia).
  destruct (Z.ltb_spec APV_PAGE_SIZE n); [|done].
  by rewrite (proj2 (Z.ltb_lt _ _)) by lia.
Qed.

(** What a whole-page read through a fresh mapping leaves. *)
Lemma read_mapped base s live mem on address n :
  ok base s live -> u64 address -> address < M32 * APV_PAGE_SIZE -> u32 n ->
  GuestPtr.ZERO_REGION_END <= base -> read_memory blocks = None ->
  run_state s <> LeavingSuspendEarly -> unmap_memory blocks = true ->
  address mod APV_PAGE_SIZE + n <= APV_PAGE_SIZE ->
  read_from_physical_address mem on address n s = Ret (false, None, s) \/
  exists offset, let c := map_call s offset [page_of address] in
    match map_memory blocks with
    | None => read_from_physical_address mem on address n s = Died (Fatal (NilBlock "mapMemory"))
    | Some map =>
        if map (calls s) c then
          read_from_physical_address mem on address n s =
            Ret (true, Some (GuestPtr.bytes_at mem
              (base + offset + address mod APV_PAGE_SIZE) (Z.to_nat n)),
              with_calls ((calls s ++ [c]) ++ [UnmapMemory (root_task s) offset APV_PAGE_SIZE]) s)
        else read_from_physical_address mem on address n s =
            Ret (false, None, with_calls (calls s ++ [c]) s)
    end.
Proof.
  intros Hok Ha Hat Hn Hz Hread Hrun Hunmap Hfit. destruct page_size as [Hps Hp].
  assert (0 < APV_PAGE_SIZE) as Hpos by lia. pose proof (Z.mod_pos_bound address _ Hpos) as Hmod.
  assert (read_from_physical_address mem on address n s = 
    (mapping ← root_task_mapping [page_of address] APV_PAGE_SIZE;
     match mapping with
     | None => mret (false, None)
     | Some mapping =>
         bytes ← (fun s => leaving s (GuestPtr.copy_to mem (MemoryMap.m_address mapping)
           (address mod APV_PAGE_SIZE) n (Fatal PhysicalReadCopy))
             ≫= fun bytes => Ret (bytes, s));
         _ ← drop_mapping mapping;
         mret (true, Some bytes)
     end) s) as ->.
  { unfold read_from_physical_address. rewrite read_crosses by done.
    rewrite (proj2 (Z.ltb_ge _ _)) by lia. rewrite run_step. cbn [asks mbind outcome_bind].
    rewrite (ok_map _ _ _ Hok), Hread, run_step, (contiguous_eq _ _ _ _ _ Hok).
    rewrite bool_decide_eq_false_2 by done. rewrite land_page_mask.
    assert (MemoryMap.MkPhysRange
      (page_address (Num.low_u32 (shr64 address APV_PAGE_SHIFT))) APV_PAGE_SIZE = page_of address) as ->.
    { rewrite shr64_page. unfold Num.low_u32, page_of, page_address. f_equal.
      assert (address / APV_PAGE_SIZE < M32) by (apply Z.div_lt_upper_bound; lia).
      assert (0 <= address / APV_PAGE_SIZE) by (apply Z.div_pos; lia).
      pose proof (Z_div_mod_eq_full address APV_PAGE_SIZE).
      rewrite w32_small, mul64_small by lia. lia. }
    by rewrite run_step. }
  assert (0 <= APV_PAGE_SIZE <= 2 ^ 63) as Hsz by lia.
  destruct (root_task_mapping_cases base s live [page_of address] _ Hok Hsz)
    as [E|(offset&Hw&Hc)]; [left; by rewrite run_step, E|].
  right. exists offset. cbn zeta in *. rewrite run_step.
  destruct (map_memory blocks) as [map|]; [|by rewrite Hc].
  destruct (map _ _); [|by rewrite Hc].
  destruct Hc as (a&E&Hok'&Ea). rewrite E. cbn [mbind outcome_bind]. rewrite run_step.
  pose proof (within_lt _ _ Hw) as Ho. rewrite offset_mapping_at in Ho.
  destruct (ok_base_range _ _ _ Hok) as [Hb0 Hb1]. destruct Hw as (_&_&_&Hend).
  rewrite offset_mapping_at in Hend. unfold granules in Hend. cbn [MemoryMap.m_length mapping_at] in Hend.
  assert (0 <= 14) as H14 by lia. pose proof (FirstFit.up_bounds 14 APV_PAGE_SIZE H14).
  cbn [MemoryMap.m_address mapping_at]. rewrite GuestPtr.copy_to_Ret by lia.
  cbn [leaving mbind outcome_bind]. rewrite run_step.
  rewrite (drop_mapping_cases base _ [] _ live Hok').
  cbn [run_state with_allocator with_calls root_task calls root_task_allocator option_map
    MemoryMap.m_length mapping_at].
  rewrite bool_decide_eq_false_2, Hunmap, offset_mapping_at, <- Ea by done.
  cbn [mbind outcome_bind mret run_ret]. by destruct s.
Qed.

Lemma read_ok base s live mem on address n r s' :
  ok base s live -> read_from_physical_address mem on address n s = Ret (r, s') -> ok base s' live.
Proof.
  intros Hok. unfold read_from_physical_address. destruct (_ || _); [by destruct on|].
  rewrite run_step. cbn [asks mbind outcome_bind]. rewrite (ok_map _ _ _ Hok).
  destruct (read_memory blocks) as [read|].
  { unfold ask. rewrite run_step. cbn [asks mbind outcome_bind]. rewrite run_step. cbn.
    intros E. injection E as _ <-. by apply (ok_same base s). }
  rewrite run_step, (contiguous_eq _ _ _ _ _ Hok). case_bool_decide; [done|].
  destruct (root_task_mapping _ _ s) as [[m s1]|[]|] eqn:Em; [|done..]. cbn [mbind outcome_bind].
  assert (0 <= APV_PAGE_SIZE <= 2 ^ 63) as Hsz by (destruct page_size as [_ ?]; lia).
  pose proof (mapping_ok base s live _ _ _ _ Hok Hsz Em) as Hok1.
  destruct m as [m|]; [|intros E; injection E as _ <-; exact Hok1].
  rewrite run_step. destruct (GuestPtr.copy_to _ _ _ _ _) as [bytes| |]; [|done..].
  cbn [leaving mbind outcome_bind]. rewrite run_step.
  destruct (drop_mapping m s1) as [[[] s2]|[]|] eqn:Ed; [|done..]. cbn [mbind outcome_bind].
  intros E. injection E as _ <-. exact (drop_ok base s1 [] m live s2 Hok1 Ed).
Qed.

(** ** The life of a root task *)

Definition with_run_state (r : RunState) (s : State) : State :=
  MkState (root_task s) (root_task_base s) (root_page_number s) (read_page s)
    (root_task_allocator s) (memory_map s) r (calls s) (vm_calls s).

(** What the device does while its root task lives: a mapping made (of at most half the
    address space) or refused, a physical read, a mapping's last release, and a change
    of its run state. *)
Inductive step : State * list MemoryMap.Mapping -> State * list MemoryMap.Mapping -> Prop :=
| StepContiguous page length s live r s' :
    0 <= length <= 2 ^ 63 -> new_contiguous_mapping page length s = Ret (r, s') ->
    step (s, live) (s', joined r live)
| StepRange ranges total read_only s live r s' :
    0 <= total <= 2 ^ 63 -> new_range_mapping ranges total read_only s = Ret (r, s') ->
    step (s, live) (s', joined r live)
| StepRead mem on address n s live r s' :
    read_from_physical_address mem on address n s = Ret (r, s') -> step (s, live) (s', live)
| StepDrop l1 m l2 s s' :
    drop_mapping m s = Ret (tt, s') -> step (s, l1 ++ m :: l2) (s', l1 ++ l2)
| StepRunState r s live : step (s, live) (with_run_state r s, live).

Lemma root_step_ok base x y : step x y -> ok base x.1 x.2 -> ok base y.1 y.2.
Proof.
  intros [page length s live r s' Hl E|ranges total ro s live r s' Hl E|mem on address n s live r s' E
    |l1 m l2 s s' E|r s live] Hok; cbn in *.
  - rewrite (contiguous_eq _ _ _ _ _ Hok) in E. case_bool_decide; [done|]. by eapply mapping_ok.
  - rewrite (range_eq _ _ _ _ _ _ Hok) in E. case_bool_decide; [done|].
    destruct (_ =? _); [|done]. by eapply mapping_ok.
  - by eapply read_ok.
  - by eapply drop_ok.
  - by apply (ok_same base s).
Qed.

(** A fresh address space, as the device is made with. *)
Definition fresh : FirstFit.FirstFitVa := FirstFit.new ROOT_TASK_VA_LAST ROOT_TASK_VA_GRANULE.

Definition starts (base : Z) (s : State) : Prop :=
  memory_map s = None /\ root_task s <> 0 /\ root_task_base s = base /\ 0 < base /\
  base + ROOT_TASK_SIZE < M64 /\ root_task_allocator s = Some fresh.

Lemma fresh_partitioned base : partitioned base fresh [].
Proof.
  split_and!; [done|by vm_compute|]. intros p. unfold FirstFit.free_at, ROOT_TASK_SIZE. cbn.
  rewrite Exists_cons, Exists_nil, Forall_nil. cbn. unfold ROOT_TASK_VA_LAST.
  split; [intros [?|[]]; split; [lia|done]|intros [? _]; left; lia].
Qed.

Lemma starts_ok base s : starts base s -> ok base s [].
Proof.
  intros (?&?&?&?&?&?). split; try done; [constructor|].
  exists fresh. split; [done|apply fresh_partitioned].
Qed.

Lemma partitioned_ext base a a' live :
  partitioned base a live -> partitioned base a' live -> a = a'.
Proof.
  intros (Hm&Hg&Hp) (Hm'&Hg'&Hp'). destruct a as [l m], a' as [l' m']. cbn in *. f_equal; [|congruence].
  apply (FirstFit.gaps_ext 0 ROOT_TASK_SIZE); [done..|]. intros p. by rewrite Hp, Hp'.
Qed.

(** C7: the root task's address space is never handed out twice and never leaks. In every
    state reached from a fresh root task by mappings made or refused by the host,
    physical reads, releases of live mappings and changes of the run state, the ranges
    of the live mappings lie within the 16 MiB, no two share a byte, and the allocator
    holds exactly the bytes no live mapping has: with no mapping left it is again the
    fresh one. Every live mapping's release then returns, where the host gave its
    unmap and no resume is restoring state. *)
Theorem root_task_partitioned base s0 s live :
  starts base s0 -> rtc step (s0, []) (s, live) ->
  Forall (within base) live /\ ForallOrdPairs (apart base) live /\
  (exists a, root_task_allocator s = Some a /\ partitioned base a live /\
    (live = [] -> a = fresh)) /\
  (unmap_memory blocks = true -> run_state s <> LeavingSuspendEarly ->
   forall l1 m l2, live = l1 ++ m :: l2 -> exists s', drop_mapping m s = Ret (tt, s')).
Proof.
  intros Hs Hr.
  assert (ok base s live) as Hok.
  { change (ok base (s, live).1 (s, live).2). revert Hr.
    apply (rtc_ind_r (fun y => ok base y.1 y.2)); [by apply starts_ok|].
    intros x y _ Hxy. by apply root_step_ok. }
  pose proof Hok as [_ _ _ _ Hw Hap (a&Ea&Hp)]. split_and!; [done..| |].
  - exists a. split_and!; [done..|]. intros ->. by eapply partitioned_ext, fresh_partitioned.
  - intros Hu Hrun l1 m l2 ->. rewrite (drop_mapping_cases _ _ _ _ _ Hok), Hu.
    rewrite bool_decide_eq_false_2 by done. by eexists.
Qed.

(** A physical read without a memory map and without the host's own read is one
    page's, through a mapping that does not outlive it. A read past its page's end is
    refused before anything is asked; any other maps the page of its address, answers
    the bytes at the address in that mapping and unmaps it, or answers no with the
    range given back; the address space is left as it was. *)
Theorem read_physical_through_root_task base s live map mem on address n :
  ok base s live -> u64 address -> address < M32 * APV_PAGE_SIZE -> u32 n ->
  GuestPtr.ZERO_REGION_END <= base -> read_memory blocks = None ->
  map_memory blocks = Some map -> unmap_memory blocks = true ->
  run_state s <> LeavingSuspendEarly ->
  if APV_PAGE_SIZE <? address mod APV_PAGE_SIZE + n then
    read_from_physical_address mem on address n s = throw on ReadPastPage s
  else
    exists s', root_task_allocator s' = root_task_allocator s /\
      (read_from_physical_address mem on address n s = Ret (false, None, s') \/
       exists offset, map (calls s) (map_call s offset [page_of address]) = true /\
         read_from_physical_address mem on address n s =
           Ret (true, Some (GuestPtr.bytes_at mem (base + offset + address mod APV_PAGE_SIZE)
             (Z.to_nat n)), s') /\
         calls s' = calls s ++ [map_call s offset [page_of address];
           UnmapMemory (root_task s) offset APV_PAGE_SIZE]).
Proof.
  intros Hok Ha Hat Hn Hz Hread Hmap Hunmap Hrun.
  destruct (Z.ltb_spec APV_PAGE_SIZE (address mod APV_PAGE_SIZE + n)) as [Hc|Hc].
  { unfold read_from_physical_address. rewrite read_crosses by done.
    by rewrite (proj2 (Z.ltb_lt _ _)). }
  destruct (read_mapped base s live mem on address n) as [E|(offset&E)]; try done.
  { exists s. split; [done|by left]. }
  cbn zeta in E. rewrite Hmap in E. destruct (map _ _) eqn:Em.
  - eexists. split; [|right; exists offset; split_and!; [done|exact E|]]; [done|].
    cbn. by rewrite <- app_assoc.
  - eexists. split; [|left; exact E]. done.
Qed.
End Device.

(** ** Witnesses *)

(** A host that makes its task at 4 GiB and maps everything. *)
Definition sample_blocks : HostBlocks :=
  MkBlocks (Some (fun _ _ _ => (7, 0x100000000))) true (Some (fun _ _ => true)) true None true.
Definition sample_state : State :=
  MkState 7 0x100000000 1 0 (Some fresh) None Running [] [].
#[local] Instance sample_target : Target := AArch64.

Lemma sample_starts : starts 0x100000000 sample_state.
Proof. by vm_compute. Qed.

Local Abbreviation yes := (fun _ _ => true).
Local Abbreviation none := (fun _ _ => None).
Local Abbreviation sample_step := (step sample_blocks yes none).
Definition left_by {A} (r : outcome (DeviceRaise * State) ddeath (A * State)) : State :=
  match r with Ret (_, s) => s | _ => sample_state end.
Definition first_mapping : MemoryMap.Mapping := mapping_at 0x100000000 0 0x4000.
Definition second_mapping : MemoryMap.Mapping := mapping_at 0x100000000 0x4000 0x20000.
Definition mapped_once : State :=
  left_by (new_contiguous_mapping sample_blocks yes none 5 0x4000 sample_state).
Definition mapped_twice : State :=
  left_by (new_contiguous_mapping sample_blocks yes none 9 0x20000 mapped_once).
Definition dropped_first : State := left_by (drop_mapping sample_blocks first_mapping mapped_twice).

(** Two mappings, the first released: one range is taken, the second one's. *)
Lemma root_task_partitioned_witness :
  rtc sample_step (sample_state, []) (dropped_first, [second_mapping]) /\
  exists a, root_task_allocator dropped_first = Some a /\
    partitioned 0x100000000 a [second_mapping].
Proof.
  assert (rtc sample_step (sample_state, []) (dropped_first, [second_mapping])) as Hr.
  { apply (rtc_l _ _ (mapped_once, joined (Some first_mapping) []));
      [by apply (StepContiguous _ _ _ 5 0x4000); [lia|vm_compute]|].
    apply (rtc_l _ _ (mapped_twice, joined (Some second_mapping) [first_mapping]));
      [by apply (StepContiguous _ _ _ 9 0x20000); [lia|vm_compute]|].
    apply rtc_once. by apply (StepDrop _ _ _ [second_mapping] first_mapping []); vm_compute. }
  split; [exact Hr|].
  destruct (root_task_partitioned sample_blocks yes none
    0x100000000 sample_state _ _ sample_starts Hr) as (_&_&(a&Ea&Hp&_)&_).
  by exists a.
Defined.

(** A read of 16 bytes in a page, over memory of zeros. *)
Lemma read_physical_through_root_task_witness :
  exists s' r, read_from_physical_address sample_blocks yes none
    (fun _ => x00) Memory.Return 0x8010 16 sample_state = Ret (r, s') /\
    root_task_allocator s' = Some fresh.
Proof.
  pose proof (read_physical_through_root_task sample_blocks yes none
    0x100000000 sample_state [] (fun _ _ => true) (fun _ => x00) Memory.Return 0x8010 16
    (starts_ok _ _ sample_starts) ltac:(by vm_compute) ltac:(by vm_compute) ltac:(by vm_compute)
    ltac:(by vm_compute) eq_refl eq_refl eq_refl ltac:(by vm_compute)) as H.
  assert ((APV_PAGE_SIZE <? 0x8010 mod APV_PAGE_SIZE + 16) = false) as Ec by reflexivity.
  rewrite Ec in H.
  destruct H as (s'&Ha&[E|(offset&_&E&_)]); exists s'; eexists; (split; [exact E|exact Ha]).
Defined.

End RootTask.
