(* ===== verification/Device.v ===== *)
(** * Device: the device's root node and FIFOs, its stamps, faults and interrupts
    (src/crates/reims-vgpu-core/src/device/root.rs, device/fifos.rs, device.rs)

    The device over its parts: the root task and its mappings are [RootTask]'s, the
    waiters [Waits]'s. The FIFOs, the tasks, the displays and the timeout report are the
    interface class [Clients], over a world of their own that holds the guest's memory.
    An operation runs alone: the FIFO queue runs a block at once on the caller's
    thread. A FIFO stopped, drained or resumed publishes the stamps its queue then has
    completed, through [signal_stamp]; what its own thread or the fault it queues does at
    another time is a separate operation ([signal_stamp], [fault_block]). Locks, traces
    and log lines are not modelled. *)

From S2P Require Import Prelude Num MemoryKinds DeviceKinds GuestRecords GuestPtr.
From S2P Require Import FirstFit MemoryMap Waits RootTask.
From stdpp Require Import relations strings.
Open Scope Z_scope.

Module Device.
Import DeviceKinds.

Definition ROOT_FIFO_MAX_LENGTH : Z := 0x20000.
Definition ROOT_FIFO_START_ALIGN_MASK : Z := 0x3ff.
Definition NOT_FAULTED : Z := M32 - 1.
Definition CHILD_FIFO_SLOTS : Z := 64.
Definition CHILD_NODES : Z := 0x400.
Definition CHILD_NODE_SIZE : Z := 0x14.
Definition DELETED_NODE_WORD : Z := 0x410.

(** ** The other parts *)

(** What the device asks of its FIFOs ([F]), its tasks ([T]) and the rest, over their
    world [W]; [P] is what a task raises. A stop, a drain and a resume answer the stamp
    values their pumps published, in order. *)
Class Clients (W F T P : Type) := {
  memory_of : W -> GuestPtr.memory;
  store_memory : GuestPtr.memory -> W -> W;
  try_new_root_on : Z -> Z -> Z -> W -> outcome Empty_set ddeath (option F * W);
  new_child_on : Z -> Z -> bool -> W -> outcome Empty_set ddeath (option F * W);
  fifo_start : F -> W -> outcome Empty_set ddeath W;
  fifo_stop : F -> W -> outcome Empty_set ddeath (list Z * W);
  fifo_drain : F -> W -> outcome Empty_set ddeath (list Z * W);
  fifo_resume : F -> W -> outcome Empty_set ddeath (list Z * W);
  fifo_poke : F -> W -> outcome Empty_set ddeath W;
  set_root_written : F -> Z -> W -> outcome Empty_set ddeath W;
  stamp_index : F -> W -> Z;
  fault_offset : F -> W -> Z;
  root_read : F -> W -> option Z;
  tasks : W -> list T;
  fifo_deleted : T -> Z -> W -> outcome P ddeath W;
  teardown_tasks : W -> outcome Empty_set ddeath W;
  (** Under the device's root node, while it runs or not. *)
  teardown_displays : option Z -> bool -> W -> outcome Empty_set ddeath W;
  take_report_budget : W -> bool * W;
  report_stamp_wait_timeout : W -> outcome Empty_set ddeath W;
}.

(** ** The state *)

(** The staged registers of the root FIFO ([FifoRegisters]), it and its mapping. *)
Record RootFifo (F : Type) := MkRootFifo {
  enabled : Z;
  base_page : Z;
  flength : Z;
  fstart : Z;
  root_fifo : option F;
  root_fifo_mapping : option MemoryMap.Mapping;
  stamp_memory : option Z;
}.
Arguments MkRootFifo {F}.
Arguments enabled {F}. Arguments base_page {F}. Arguments flength {F}. Arguments fstart {F}.
Arguments root_fifo {F}. Arguments root_fifo_mapping {F}. Arguments stamp_memory {F}.

Record RootNode := MkRootNode {
  root_node : option Z;
  root_node_mapping : option MemoryMap.Mapping;
}.

Record Interrupts := MkInterrupts {
  interrupt_display : Z;
  interrupt_stamp : Z;
  interrupt_fault_mask : Z;
}.

Record State (W F : Type) := MkState {
  rt : RootTask.State;
  node : RootNode;
  root : RootFifo F;
  child_fifos : list (option F);
  waiting_info : list Waits.WaitingInfo;
  waiting_stamps : Z;
  irqs : Interrupts;
  tearing_down_root : bool;
  features : GuestRecords.GuestFeatures;
  world : W;
}.
Arguments MkState {W F}.
Arguments rt {W F}. Arguments node {W F}. Arguments root {W F}. Arguments child_fifos {W F}.
Arguments waiting_info {W F}. Arguments waiting_stamps {W F}. Arguments irqs {W F}.
Arguments tearing_down_root {W F}. Arguments features {W F}. Arguments world {W F}.

Section State.
Context {W F : Type}.
Implicit Types (s : State W F).
Definition with_rt (r : RootTask.State) s : State W F :=
  MkState r (node s) (root s) (child_fifos s) (waiting_info s) (waiting_stamps s) (irqs s)
    (tearing_down_root s) (features s) (world s).
Definition with_node (n : RootNode) s : State W F :=
  MkState (rt s) n (root s) (child_fifos s) (waiting_info s) (waiting_stamps s) (irqs s)
    (tearing_down_root s) (features s) (world s).
Definition with_root (r : RootFifo F) s : State W F :=
  MkState (rt s) (node s) r (child_fifos s) (waiting_info s) (waiting_stamps s) (irqs s)
    (tearing_down_root s) (features s) (world s).
Definition with_children (c : list (option F)) s : State W F :=
  MkState (rt s) (node s) (root s) c (waiting_info s) (waiting_stamps s) (irqs s)
    (tearing_down_root s) (features s) (world s).
Definition with_waits (d : Waits.Device) s : State W F :=
  MkState (rt s) (node s) (root s) (child_fifos s) (Waits.waiting_info d) (Waits.waiting_stamps d)
    (irqs s) (tearing_down_root s) (features s) (world s).
Definition with_irqs (i : Interrupts) s : State W F :=
  MkState (rt s) (node s) (root s) (child_fifos s) (waiting_info s) (waiting_stamps s) i
    (tearing_down_root s) (features s) (world s).
Definition with_tearing_down (b : bool) s : State W F :=
  MkState (rt s) (node s) (root s) (child_fifos s) (waiting_info s) (waiting_stamps s) (irqs s)
    b (features s) (world s).
Definition with_features (f : GuestRecords.GuestFeatures) s : State W F :=
  MkState (rt s) (node s) (root s) (child_fifos s) (waiting_info s) (waiting_stamps s) (irqs s)
    (tearing_down_root s) f (world s).
Definition with_world (w : W) s : State W F :=
  MkState (rt s) (node s) (root s) (child_fifos s) (waiting_info s) (waiting_stamps s) (irqs s)
    (tearing_down_root s) (features s) w.

(** The part of the state [Waits] models. *)
Definition waits s : Waits.Device :=
  Waits.MkDevice (waiting_info s) (waiting_stamps s) (GuestRecords.max_fifo_count (features s)).
Definition max_fifo_count s : Z := GuestRecords.max_fifo_count (features s).
End State.

Definition with_display (v : Z) (i : Interrupts) : Interrupts :=
  MkInterrupts v (interrupt_stamp i) (interrupt_fault_mask i).
Definition with_stamp (v : Z) (i : Interrupts) : Interrupts :=
  MkInterrupts (interrupt_display i) v (interrupt_fault_mask i).
Definition with_fault (v : Z) (i : Interrupts) : Interrupts :=
  MkInterrupts (interrupt_display i) (interrupt_stamp i) v.

(** ** The operations *)

(** A raise of the device's own, or a task's. *)
Inductive Raise (P : Type) : Type := Own (k : DeviceRaise) | OfTask (p : P).
Arguments Own {P} k.
Arguments OfTask {P} p.

Section Device.
Context {W F T P : Type} `{Clients W F T P}.
Context {target : GuestRecords.Target} (blocks : RootTask.HostBlocks).
Context (answers : list MemoryMap.VmCall -> MemoryMap.VmCall -> bool)
        (allocates : list MemoryMap.VmCall -> Z -> option Z).
Local Abbreviation M := (Run (State W F) (Raise P) ddeath).

Definition fatal {A} (k : DeviceDeath) : M A := die (Fatal k).
Definition require_that (b : bool) (k : DeviceDeath) : M unit := if b then mret tt else fatal k.

(** A part's operation in the device's state. *)
Definition client {A} (m : W -> outcome Empty_set ddeath (A * W)) : M A := fun s =>
  match m (world s) with
  | Ret (a, w) => Ret (a, with_world w s)
  | Raised e => match e with end
  | Died d => Died d
  end.
Definition client_ (m : W -> outcome Empty_set ddeath W) : M unit :=
  client (fun w => w ← m w; Ret (tt, w)).
Definition in_task {A} (m : Run RootTask.State DeviceRaise ddeath A) : M A := fun s =>
  match m (rt s) with
  | Ret (a, r) => Ret (a, with_rt r s)
  | Raised (k, r) => Raised (Own k, with_rt r s)
  | Died d => Died d
  end.
Definition in_waits (m : Waits.Device -> outcome (DeviceRaise * Waits.Device) ddeath Waits.Device)
    : M unit := fun s =>
  match m (waits s) with
  | Ret d => Ret (tt, with_waits d s)
  | Raised (k, d) => Raised (Own k, with_waits d s)
  | Died d => Died d
  end.
(** A store in the guest's memory; no isolated task's stop reaches the device. *)
Definition store_u32 (base off v : Z) (k : DeviceDeath) : M unit := client_ (fun w =>
  m ← GuestPtr.write_u32 (Fatal k) false (memory_of w) base off v (Fatal k);
  Ret (store_memory m w)).

Definition update_irqs (f : Interrupts -> Interrupts) : M unit :=
  modify (fun s => with_irqs (f (irqs s)) s).
Definition update_root (f : RootFifo F -> RootFifo F) : M unit :=
  modify (fun s => with_root (f (root s)) s).

(** *** Interrupts, stamps and faults *)

Definition interrupt : M unit :=
  r ← asks (fun s => RootTask.run_state (rt s));
  match r with
  | RootTask.Running =>
      if RootTask.raise_interrupt blocks then in_task (RootTask.tell (RootTask.RaiseInterrupt 0))
      else fatal (NilBlock "raiseInterrupt")
  | _ => mret tt
  end.

Definition read_interrupt_fault (s : State W F) : Z :=
  Z.b2z (negb (interrupt_fault_mask (irqs s) =? 0)).

Definition display_poke_port (port : Z) : M unit :=
  _ ← update_irqs (fun i =>
    with_display (Z.lor (interrupt_display i) (Num.bit32 (Num.low_u32 port))) i);
  interrupt.

Definition signal_stamp (stamp stamp_value : Z) : M unit :=
  max ← asks max_fifo_count;
  if max <? stamp then mret tt
  else
    memory ← asks (fun s => default 0 (stamp_memory (root s)));
    _ ← store_u32 memory (mul64 stamp 4) stamp_value StampWriteWithoutMemory;
    _ ← update_irqs (fun i => with_stamp (Z.lor (interrupt_stamp i) (Num.bit32 stamp)) i);
    interrupt.

Fixpoint signal_all (stamp : Z) (values : list Z) : M unit :=
  match values with
  | [] => mret tt
  | v :: values => _ ← signal_stamp stamp v; signal_all stamp values
  end.

(** A FIFO's operation, and the stamps it published under the FIFO's index. *)
Definition publishing (op : F -> W -> outcome Empty_set ddeath (list Z * W)) (fifo : F) : M unit :=
  values ← client (op fifo);
  stamp ← asks (fun s => stamp_index fifo (world s));
  signal_all stamp values.

(** The block a fault queues ([signal_fault_in_fifo]). *)
Definition fault_block (fifo : F) : M unit :=
  index ← asks (fun s => stamp_index fifo (world s));
  _ ← update_irqs (fun i =>
    with_fault (Z.lor (interrupt_fault_mask i) (Num.bit64 index)) i);
  interrupt.

(** *** Child FIFOs *)

(** The child in slot [fifo_id]; an id past the slots dies. *)
Definition child_slot (fifo_id : Z) : M (option F) :=
  children ← asks child_fifos;
  match children !! Z.to_nat fifo_id with
  | None => fatal PastChildFifos
  | Some slot => mret slot
  end.
Definition set_slot (fifo_id : Z) (slot : option F) : M unit :=
  modify (fun s => with_children (<[Z.to_nat fifo_id := slot]> (child_fifos s)) s).

Definition create_fifo_internal (fifo_id : Z) (restoring : bool) : M bool :=
  max ← asks max_fifo_count;
  if (fifo_id =? 0) || (max <=? fifo_id) then mret false
  else
    root_node ← asks (fun s => root_node (node s));
    match root_node with
    | None => mret false
    | Some root_node =>
        slot ← child_slot fifo_id;
        match slot with
        | Some _ => mret false
        | None =>
            let node_offset := add64 CHILD_NODES (mul64 (sub32 fifo_id 1) CHILD_NODE_SIZE) in
            let base_node := GuestPtr.offset root_node node_offset in
            info ← asks waiting_info;
            match info !! Z.to_nat fifo_id with
            | None => fatal PastWaitingInfo
            | Some _ =>
                made ← client (new_child_on base_node fifo_id restoring);
                match made with
                | None => mret false
                | Some fifo => _ ← set_slot fifo_id (Some fifo); mret true
                end
            end
        end
    end.

Definition create_fifo (fifo_id : Z) : M bool :=
  max ← asks max_fifo_count;
  if (fifo_id =? 0) || (max <=? fifo_id) then raise (Own InvalidFifoId)
  else
    tearing_down ← asks tearing_down_root;
    if tearing_down : bool then mret false
    else
      info ← asks waiting_info;
      match info !! Z.to_nat fifo_id with
      | None => fatal PastWaitingInfo
      | Some info =>
          _ ← require_that (Waits.next_waiting_index info =? Waits.NOT_WAITING) CreateWhileWaiting;
          made ← create_fifo_internal fifo_id false;
          if made : bool then
            child ← child_slot fifo_id;
            match child with
            | Some child => _ ← client_ (fifo_start child); mret true
            | None => mret true
            end
          else mret false
      end.

Fixpoint tell_tasks (ts : list T) (stamp : Z) : M unit :=
  match ts with
  | [] => mret tt
  | t :: ts =>
      _ ← (fun s => match fifo_deleted t stamp (world s) with
        | Ret w => Ret (tt, with_world w s)
        | Raised p => Raised (OfTask p, s)
        | Died d => Died d
        end);
      tell_tasks ts stamp
  end.

Definition delete_fifo (fifo_id : Z) : M bool :=
  max ← asks max_fifo_count;
  if (fifo_id =? 0) || (max <=? fifo_id) then mret false
  else
    taken ← child_slot fifo_id;
    match taken with
    | None => mret false
    | Some child =>
        _ ← set_slot fifo_id None;
        _ ← update_irqs (fun i =>
          with_fault (Z.land (interrupt_fault_mask i) (not64 (Num.bit64 fifo_id))) i);
        _ ← in_waits (Waits.finish_wait fifo_id);
        stamp ← asks (fun s => stamp_index child (world s));
        _ ← publishing fifo_stop child;
        _ ← publishing fifo_drain child;
        root_node ← asks (fun s => default 0 (root_node (node s)));
        let word := add64 DELETED_NODE_WORD (mul64 fifo_id CHILD_NODE_SIZE) in
        _ ← store_u32 root_node word 0 DeletedNodeWithoutRoot;
        all ← asks (fun s => tasks (world s));
        _ ← tell_tasks all stamp;
        mret true
    end.

Definition resume_child_fifo (fifo : Z) : M unit :=
  let mask := Num.bit64 fifo in
  fault_mask ← asks (fun s => interrupt_fault_mask (irqs s));
  _ ← update_irqs (with_fault (Z.land fault_mask (not64 mask)));
  report_timeout ←
    (if negb (Z.land fault_mask mask =? 0) then mret false
     else client (fun w => Ret (take_report_budget w)));
  left_ ← asks (fun s => interrupt_fault_mask (irqs s));
  _ ← (if negb (left_ =? 0) then interrupt else mret tt);
  _ ← (if report_timeout : bool then client_ report_stamp_wait_timeout else mret tt);
  if fifo <? CHILD_FIFO_SLOTS then
    child ← child_slot fifo;
    match child with Some child => publishing fifo_resume child | None => mret tt end
  else mret tt.

Definition wake_fifo (fifo : Z) : M unit :=
  if (fifo =? 0) || (CHILD_FIFO_SLOTS <=? fifo) then mret tt
  else
    child ← child_slot fifo;
    match child with Some child => client_ (fifo_poke child) | None => mret tt end.

(** *** The root FIFO *)

Definition with_enabled (v : Z) (r : RootFifo F) : RootFifo F :=
  MkRootFifo v (base_page r) (flength r) (fstart r) (root_fifo r) (root_fifo_mapping r)
    (stamp_memory r).
Definition with_base_page (v : Z) (r : RootFifo F) : RootFifo F :=
  MkRootFifo (enabled r) v (flength r) (fstart r) (root_fifo r) (root_fifo_mapping r)
    (stamp_memory r).
Definition with_length (v : Z) (r : RootFifo F) : RootFifo F :=
  MkRootFifo (enabled r) (base_page r) v (fstart r) (root_fifo r) (root_fifo_mapping r)
    (stamp_memory r).
Definition with_start (v : Z) (r : RootFifo F) : RootFifo F :=
  MkRootFifo (enabled r) (base_page r) (flength r) v (root_fifo r) (root_fifo_mapping r)
    (stamp_memory r).
Definition with_fifo (f : option F) (r : RootFifo F) : RootFifo F :=
  MkRootFifo (enabled r) (base_page r) (flength r) (fstart r) f (root_fifo_mapping r)
    (stamp_memory r).
Definition with_mapping (m : option MemoryMap.Mapping) (r : RootFifo F) : RootFifo F :=
  MkRootFifo (enabled r) (base_page r) (flength r) (fstart r) (root_fifo r) m (stamp_memory r).
Definition with_stamp_memory (m : option Z) (r : RootFifo F) : RootFifo F :=
  MkRootFifo (enabled r) (base_page r) (flength r) (fstart r) (root_fifo r) (root_fifo_mapping r)
    m.

Definition new_contiguous_mapping (page length : Z) : M (option MemoryMap.Mapping) :=
  in_task (RootTask.new_contiguous_mapping blocks answers allocates page length).
Definition drop_mapping (m : option MemoryMap.Mapping) : M unit :=
  match m with
  | Some m => in_task (RootTask.drop_mapping blocks m)
  | None => mret tt
  end.

(** A new mapping stored over an old one, which goes. *)
Definition store_root_mapping (m : option MemoryMap.Mapping) : M unit :=
  old ← asks (fun s => root_fifo_mapping (root s));
  _ ← update_root (with_mapping m);
  drop_mapping old.

Definition create_root_fifo : M unit :=
  root_node ← asks (fun s => root_node (node s));
  match root_node with
  | None => mret tt
  | Some _ =>
      length ← asks (fun s => flength (root s));
      if ROOT_FIFO_MAX_LENGTH <? length then mret tt
      else if negb (length mod GuestRecords.APV_PAGE_SIZE =? 0) then mret tt
      else
        start ← asks (fun s => fstart (root s));
        if (start =? 0) || negb (Z.land start ROOT_FIFO_START_ALIGN_MASK =? 0) then mret tt
        else
          page ← asks (fun s => base_page (root s));
          mapping ← new_contiguous_mapping page length;
          _ ← store_root_mapping mapping;
          match mapping with
          | None => mret tt
          | Some mapping =>
              let base := MemoryMap.m_address mapping in
              made ← client (try_new_root_on length base start);
              match made with
              | None => store_root_mapping None
              | Some fifo =>
                  _ ← update_root (with_fifo (Some fifo));
                  _ ← update_root (with_stamp_memory (Some base));
                  update_root (with_enabled 1)
              end
          end
  end.

Definition enable_fifo : M unit :=
  was ← asks (fun s => enabled (root s));
  _ ← require_that (was =? 0) FifoAlreadyEnabled;
  _ ← create_root_fifo;
  now ← asks (fun s => enabled (root s));
  fifo ← asks (fun s => root_fifo (root s));
  match fifo with
  | Some fifo => if negb (now =? 0) then client_ (fifo_start fifo) else mret tt
  | None => mret tt
  end.

(** The children in the slots from [id], [n] of them. A raise of a task's goes to no
    handler. *)
Fixpoint delete_children (n : nat) (id : Z) : M unit :=
  match n with
  | O => mret tt
  | S n =>
      children ← asks child_fifos;
      _ ← (match children !! Z.to_nat id with
           | Some (Some _) => _ ← delete_fifo id; mret tt
           | _ => mret tt
           end);
      delete_children n (id + 1)
  end.
Definition or_die {A} (m : M A) : M A := fun s =>
  match m s with
  | Raised (Own k, _) => Died (Unhandled k)
  | Raised (OfTask _, _) => Died UnhandledTask
  | r => r
  end.

Definition teardown_fifos : M unit :=
  was ← asks (fun s => enabled (root s));
  if was =? 0 then mret tt
  else
    fifo ← asks (fun s => root_fifo (root s));
    _ ← (match fifo with Some fifo => publishing fifo_stop fifo | None => mret tt end);
    _ ← (match fifo with Some fifo => publishing fifo_drain fifo | None => mret tt end);
    children ← asks child_fifos;
    _ ← require_that (match children with Some _ :: _ => false | _ => true end) ChildInSlotZero;
    _ ← or_die (delete_children 63 1);
    _ ← update_root (with_stamp_memory None);
    _ ← update_root (with_fifo None);
    _ ← update_root (with_enabled 0);
    _ ← store_root_mapping None;
    update_irqs (with_fault 0).

Definition set_fifo_written (written : Z) : M unit :=
  fifo ← asks (fun s => root_fifo (root s));
  match fifo with Some fifo => client_ (set_root_written fifo written) | None => mret tt end.

(** A staged register's write, dropped while the root FIFO is enabled. *)
Definition stage (set : RootFifo F -> RootFifo F) : M unit :=
  was ← asks (fun s => enabled (root s));
  if negb (was =? 0) then mret tt else update_root set.
Definition set_fifo_length (length : Z) : M unit := stage (with_length length).
Definition set_fifo_start (start : Z) : M unit := stage (with_start start).
Definition set_fifo_base_page (page : Z) : M unit := stage (with_base_page page).

Definition fifo_fault_offset (s : State W F) : Z :=
  match root_fifo (root s) with Some fifo => fault_offset fifo (world s) | None => 0 end.

Definition resume_fifo : M unit :=
  offset ← asks fifo_fault_offset;
  _ ← (if negb (offset =? NOT_FAULTED) then
         _ ← update_irqs (fun i => with_fault (Z.land (interrupt_fault_mask i) (not64 1)) i);
         left_ ← asks (fun s => interrupt_fault_mask (irqs s));
         if negb (left_ =? 0) then interrupt else mret tt
       else mret tt);
  fifo ← asks (fun s => root_fifo (root s));
  match fifo with Some fifo => publishing fifo_resume fifo | None => mret tt end.

(** *** The root page *)

Definition destroy_root_task (k : DeviceDeath) : M unit :=
  task ← asks (fun s => RootTask.root_task (rt s));
  if RootTask.destroy_task blocks then in_task (RootTask.tell (RootTask.DestroyTask task))
  else fatal k.

Definition teardown_root : M unit :=
  root_node_ ← asks (fun s => root_node (node s));
  _ ← require_that (match root_node_ with Some _ => true | None => false end)
    TeardownWithoutRootNode;
  _ ← modify (with_tearing_down true);
  _ ← teardown_fifos;
  _ ← client_ teardown_tasks;
  root_node_ ← asks (fun s => root_node (node s));
  running ← asks (fun s =>
    match RootTask.run_state (rt s) with RootTask.Running => true | _ => false end);
  _ ← client_ (teardown_displays root_node_ running);
  _ ← in_task (modify (RootTask.with_read_page 0));
  root_node_ ← asks (fun s => root_node (node s));
  _ ← (match root_node_ with
       | Some _ =>
           mapping ← asks (fun s => root_node_mapping (node s));
           _ ← modify (with_node (MkRootNode None None));
           drop_mapping mapping
       | None => mret tt
       end);
  _ ← update_irqs (fun _ => MkInterrupts 0 0 0);
  task ← asks (fun s => RootTask.root_task (rt s));
  _ ← (if task =? 0 then mret tt
       else
         _ ← destroy_root_task TeardownWithoutDestroyTask;
         in_task (modify (fun r => RootTask.with_task 0 (RootTask.root_task_base r) r)));
  modify (with_tearing_down false).

(** The root task made, with its base. *)
Definition make_root_task : M unit :=
  match RootTask.create_task blocks with
  | None => fatal (NilBlock "createTask")
  | Some create =>
      base ← asks (fun s => RootTask.root_task_base (rt s));
      '(task, base) ← in_task (RootTask.ask (RootTask.CreateTask RootTask.ROOT_TASK_SIZE)
        (fun before => create before RootTask.ROOT_TASK_SIZE base));
      in_task (modify (RootTask.with_task task base))
  end.

(** The root node at [base]: it is read back as an address, and 0 is none. *)
Definition node_at (base : Z) : option Z := if base =? 0 then None else Some base.
Definition map_root_node (root_page : Z) : M unit :=
  map ← asks (fun s => RootTask.memory_map (rt s));
  let has_memory_map := match map with Some _ => true | None => false end in
  _ ← (if negb has_memory_map then make_root_task else mret tt);
  mapping ← new_contiguous_mapping root_page GuestRecords.APV_PAGE_SIZE;
  old ← asks (fun s => root_node_mapping (node s));
  match mapping with
  | Some mapping =>
      _ ← modify (with_node (MkRootNode (node_at (MemoryMap.m_address mapping)) (Some mapping)));
      drop_mapping old
  | None =>
      _ ← modify (fun s => with_node (MkRootNode (root_node (node s)) None) s);
      _ ← drop_mapping old;
      _ ← (if negb has_memory_map then destroy_root_task (NilBlock "destroyTask") else mret tt);
      _ ← modify (fun s => with_node (MkRootNode None (root_node_mapping (node s))) s);
      in_task (modify (fun r => RootTask.with_task (RootTask.root_task r) 0 r))
  end.

Definition set_root_page (root_page : Z) : M unit :=
  root_node_ ← asks (fun s => root_node (node s));
  _ ← (match root_node_ with Some _ => teardown_root | None => mret tt end);
  _ ← modify (fun s => with_waits (Waits.init_waiting_info (waits s)) s);
  _ ← (if negb (root_page =? 0) then map_root_node root_page else mret tt);
  in_task (modify (RootTask.with_page root_page)).

Create HintDb quiet.

(** ** What an operation leaves alone *)

(** The root node, the root FIFO and its registers, the children, the features and the
    number of waiters. *)
Record quiet (s s' : State W F) : Prop := {
  quiet_node : node s' = node s;
  quiet_root : root s' = root s;
  quiet_children : child_fifos s' = child_fifos s;
  quiet_tearing : tearing_down_root s' = tearing_down_root s;
  quiet_features : features s' = features s;
  quiet_infos : length (waiting_info s') = length (waiting_info s);
}.
#[export] Instance quiet_refl : Reflexive quiet.
Proof. by split. Qed.
#[export] Instance quiet_trans : Transitive quiet.
Proof. intros a b c [] []. split; congruence. Qed.

(** It leaves these alone and raises nothing. *)
Definition Quiet {A} (m : M A) : Prop :=
  forall s, wp m (fun _ => quiet s) (fun _ => False) s.

Lemma wp_quiet {A} (m : M A) Q X s :
  Quiet m -> (forall a s', quiet s s' -> Q a s') -> wp m Q X s.
Proof. intros Hm HQ. by apply (wp_mono m _ Q _ X s HQ) in Hm. Qed.

Lemma Quiet_ret {A} (a : A) : Quiet (mret a).
Proof. by intros s. Qed.
Lemma Quiet_asks {A} (f : State W F -> A) : Quiet (asks f).
Proof. by intros s. Qed.
Lemma Quiet_fatal {A} k : Quiet (fatal k : M A).
Proof. by intros s. Qed.
Lemma Quiet_bind {A B} (m : M A) (f : A -> M B) : Quiet m -> (forall a, Quiet (f a)) -> Quiet (m ≫= f).
Proof.
  intros Hm Hf s. rewrite wp_bind. apply (wp_quiet m); [done|]. intros a s' Hs.
  apply (wp_quiet (f a)); [done|]. intros. by etrans.
Qed.
Lemma Quiet_client {A} (m : W -> outcome Empty_set ddeath (A * W)) : Quiet (client m).
Proof. intros s. unfold wp, client. destruct (m (world s)) as [[? ?]|[]|]; by split. Qed.
Lemma Quiet_in_task {A} (m : Run RootTask.State DeviceRaise ddeath A) :
  RootTask.silent m -> Quiet (in_task m).
Proof.
  intros Hm s. specialize (Hm (rt s)). unfold wp, in_task in *.
  destruct (m (rt s)) as [[? ?]|[? ?]|]; first [done|by split].
Qed.
Lemma Quiet_irqs f : Quiet (update_irqs f).
Proof. by intros s. Qed.
Lemma Quiet_finish_wait w : Quiet (in_waits (Waits.finish_wait w)).
Proof.
  intros s. unfold wp, in_waits, Waits.finish_wait. cbn.
  destruct (waiting_info s !! Z.to_nat w); [|done]. split; try done. cbn. by rewrite length_alter.
Qed.
Lemma Quiet_child_slot i : Quiet (child_slot i).
Proof. apply Quiet_bind; [apply Quiet_asks|]. intros c. case_match; [apply Quiet_ret|apply Quiet_fatal]. Qed.

Ltac quiet_go :=
  repeat match goal with
    | |- Quiet (mbind _ _) => apply Quiet_bind; [|intros ?]
    | |- Quiet (mret _) => apply Quiet_ret
    | |- Quiet (asks _) => apply Quiet_asks
    | |- Quiet (fatal _) => apply Quiet_fatal
    | |- Quiet (client _) => apply Quiet_client
    | |- Quiet (client_ _) => apply Quiet_client
    | |- Quiet (in_task _) => apply Quiet_in_task
    | |- Quiet (update_irqs _) => apply Quiet_irqs
    | |- Quiet (in_waits (Waits.finish_wait _)) => apply Quiet_finish_wait
    | |- Quiet (child_slot _) => apply Quiet_child_slot
    | |- Quiet (store_u32 _ _ _ _) => apply Quiet_client
    | |- Quiet (match _ with _ => _ end) => case_match
    | |- Quiet (require_that _ _) => unfold require_that
    | |- RootTask.silent (RootTask.ask _ _) => apply RootTask.silent_ask
    | |- RootTask.silent (RootTask.new_contiguous_mapping _ _ _ _ _) =>
        apply RootTask.silent_contiguous
    | |- RootTask.silent (RootTask.drop_mapping _ _) => apply RootTask.silent_drop
    | |- RootTask.silent _ => done
    | |- _ => progress cbv zeta
    end.

Lemma Quiet_interrupt : Quiet interrupt.
Proof. unfold interrupt. quiet_go. Qed.
Lemma Quiet_poke port : Quiet (display_poke_port port).
Proof. unfold display_poke_port. quiet_go. apply Quiet_interrupt. Qed.
Lemma Quiet_stamp i v : Quiet (signal_stamp i v).
Proof. unfold signal_stamp. quiet_go. apply Quiet_interrupt. Qed.
Lemma Quiet_all stamp values : Quiet (signal_all stamp values).
Proof.
  induction values as [|v values IH]; cbn [signal_all]; [apply Quiet_ret|].
  apply Quiet_bind; [apply Quiet_stamp|done].
Qed.
Lemma Quiet_publishing op f : Quiet (publishing op f).
Proof. unfold publishing. quiet_go. apply Quiet_all. Qed.
Lemma Quiet_fault f : Quiet (fault_block f).
Proof. unfold fault_block. quiet_go. apply Quiet_interrupt. Qed.
Lemma Quiet_resume_child i : Quiet (resume_child_fifo i).
Proof. unfold resume_child_fifo. quiet_go; apply Quiet_interrupt || apply Quiet_publishing. Qed.
Lemma Quiet_wake i : Quiet (wake_fifo i).
Proof. unfold wake_fifo. quiet_go. Qed.
Lemma Quiet_written v : Quiet (set_fifo_written v).
Proof. unfold set_fifo_written. quiet_go. Qed.
Lemma Quiet_resume : Quiet resume_fifo.
Proof. unfold resume_fifo. quiet_go; apply Quiet_interrupt || apply Quiet_publishing. Qed.
Lemma Quiet_drop m : Quiet (drop_mapping m).
Proof. unfold drop_mapping. quiet_go. Qed.
Lemma Quiet_contiguous page n : Quiet (new_contiguous_mapping page n).
Proof. unfold new_contiguous_mapping. quiet_go. Qed.
Lemma Quiet_destroy k : Quiet (destroy_root_task k).
Proof. unfold destroy_root_task. quiet_go. Qed.
Lemma Quiet_make_task : Quiet make_root_task.
Proof. unfold make_root_task. quiet_go. Qed.

Lemma Quiet_publishing_on op o :
  Quiet (match o with Some fifo => publishing op fifo | None => mret tt end).
Proof. destruct o; [apply Quiet_publishing|apply Quiet_ret]. Qed.

#[local] Hint Resolve Quiet_publishing Quiet_publishing_on Quiet_interrupt Quiet_drop Quiet_contiguous Quiet_destroy Quiet_make_task
  : quiet.
Ltac quiet_step :=
  apply wp_quiet; [solve [quiet_go|eauto with quiet]|intros ? ? ?]; wp_go.

(** What the steps taken left alone. *)
Ltac quiet_eq :=
  repeat match goal with Hq : quiet _ _ |- _ => destruct Hq end; split;
  unfold with_mapping, with_fifo, with_stamp_memory, with_enabled in *; cbn in *; congruence.

(** The tasks' part of a delete: a task's raise leaves the rest alone too. *)
Lemma tell_tasks_wp ts i s : wp (tell_tasks ts i) (fun _ => quiet s) (quiet s) s.
Proof.
  revert s. induction ts as [|t ts IH]; intros s; cbn [tell_tasks]; [done|]. rewrite wp_bind.
  unfold wp at 1. destruct (fifo_deleted t i (world s)) as [w| |]; [|done..].
  eapply wp_mono; [| |apply IH]; cbn; intros; (etrans; [|eassumption]); by split.
Qed.

(** ** Children made and deleted *)

(** The state with the child slot [id] emptied, where a delete accepts the id. *)
Definition accepts (id : Z) (s : State W F) : bool := (0 <? id) && (id <? max_fifo_count s).
Definition emptied (id : Z) (s : State W F) : State W F :=
  if accepts id s then with_children (<[Z.to_nat id := None]> (child_fifos s)) s else s.

Lemma child_slot_eq id s :
  child_slot id s = match child_fifos s !! Z.to_nat id with
    | Some slot => Ret (slot, s)
    | None => Died (Fatal PastChildFifos)
    end.
Proof. unfold child_slot. rewrite run_step. cbn. by destruct (_ !! _). Qed.

Lemma wp_child_slot id Q X s :
  (forall slot, child_fifos s !! Z.to_nat id = Some slot -> Q slot s) -> wp (child_slot id) Q X s.
Proof. intros HQ. unfold wp. rewrite child_slot_eq. destruct (_ !! _); [by apply HQ|done]. Qed.

Lemma delete_fifo_wp id s :
  0 <= id -> wp (delete_fifo id) (fun _ => quiet (emptied id s)) (quiet (emptied id s)) s.
Proof.
  intros Hid. unfold delete_fifo, emptied, accepts. rewrite wp_bind, wp_asks.
  destruct (Z.eqb_spec id 0) as [->|Hne]; [by apply wp_ret|]. cbn [orb].
  rewrite (proj2 (Z.ltb_lt 0 id)) by lia. cbn [andb].
  rewrite (Z.ltb_antisym (max_fifo_count s) id).
  destruct (max_fifo_count s <=? id); cbn [negb]; [by apply wp_ret|].
  rewrite wp_bind. apply wp_child_slot. intros slot Hslot.
  destruct slot as [child|]; [|apply wp_ret; by rewrite list_insert_id].
  unfold set_slot, update_irqs. wp_go. do 4 quiet_step.
  eapply wp_mono; [| |apply tell_tasks_wp]; cbn; intros; try apply wp_ret; quiet_eq.
Qed.

Definition made_child (id : Z) (s s' : State W F) : Prop :=
  quiet s s' \/
  0 < id < max_fifo_count s /\
  exists f, quiet (with_children (<[Z.to_nat id := Some f]> (child_fifos s)) s) s'.

Lemma create_internal_wp id restoring s :
  0 <= id -> wp (create_fifo_internal id restoring) (fun _ => made_child id s) (fun _ => False) s.
Proof.
  intros Hid. unfold create_fifo_internal. wp_go.
  destruct (Z.eqb_spec id 0) as [->|Hne]; cbn [orb]; [by apply wp_ret; left|].
  destruct (Z.leb_spec (max_fifo_count s) id); [by apply wp_ret; left|]. wp_go.
  destruct (root_node (node s)); [|by apply wp_ret; left]. wp_go. apply wp_child_slot. intros slot _.
  destruct slot; [by apply wp_ret; left|]. cbv zeta. wp_go. destruct (waiting_info s !! Z.to_nat id); [|done].
  wp_go. quiet_step. destruct a as [f|]; [|by apply wp_ret; left]. unfold set_slot. wp_go.
  right. split; [lia|]. exists f. quiet_eq.
Qed.

Lemma create_fifo_wp id s :
  0 <= id -> wp (create_fifo id) (fun _ => made_child id s) (quiet s) s.
Proof.
  intros Hid. unfold create_fifo. wp_go. destruct (_ || _); [by rewrite wp_raise|].
  wp_go. destruct (tearing_down_root s); [by apply wp_ret; left|]. wp_go.
  destruct (waiting_info s !! Z.to_nat id) as [info|]; [|done]. wp_go. unfold require_that.
  destruct (_ =? _); [|done]. apply wp_ret. wp_go.
  eapply wp_mono; [| |apply create_internal_wp; done]; cbn; [|done]. intros made s1 H1.
  destruct made; [|by apply wp_ret]. wp_go. apply wp_child_slot. intros child _.
  destruct child as [child|]; [|by apply wp_ret]. wp_go. quiet_step.
  destruct H1 as [H1|[Hr [f H1]]]; [left|right; split; [done|]; exists f]; quiet_eq.
Qed.

(** The slots of [id] and the [n - 1] after it emptied, below the FIFO count. *)
Definition cleared (n : nat) (id max : Z) (c c' : list (option F)) : Prop :=
  forall j, c' !! j = if decide (id <= Z.of_nat j < id + Z.of_nat n /\ 0 < Z.of_nat j < max)
    then (fun _ => None) <$> c !! j else c !! j.

Lemma cleared_length n id max c c' : cleared n id max c c' -> length c' = length c.
Proof.
  intros Hc. apply Nat.le_antisymm.
  - apply lookup_ge_None. rewrite Hc. case_decide; by rewrite ?fmap_None, lookup_ge_None.
  - apply lookup_ge_None. specialize (Hc (length c')). rewrite lookup_ge_None_2 in Hc by done.
    case_decide; [|done]. symmetry in Hc. by apply fmap_None in Hc.
Qed.

Lemma insert_none (c : list (option F)) i : <[i := None]> c !! i = (fun _ => None) <$> c !! i.
Proof.
  destruct (c !! i) as [x|] eqn:E; cbn.
  - apply list_lookup_insert_eq. by eapply lookup_lt_Some.
  - rewrite list_insert_ge; [done|]. by apply lookup_ge_None.
Qed.

Lemma cleared_step n id max c0 c1 c :
  1 <= id ->
  (c1 = (if (0 <? id) && (id <? max) then <[Z.to_nat id := None]> c0 else c0) \/
   (c1 = c0 /\ forall f, c0 !! Z.to_nat id <> Some (Some f))) ->
  cleared n (id + 1) max c1 c -> cleared (S n) id max c0 c.
Proof.
  intros Hid Hc1 Hc j. rewrite Hc. destruct (decide (Z.of_nat j = id)) as [Hj|Hj].
  - assert (Z.to_nat id = j) as Hto by lia. rewrite Hto in Hc1. rewrite decide_False by lia.
    destruct Hc1 as [->|[-> Hn]].
    + destruct (Z.ltb_spec 0 id); [|lia]. cbn [andb]. destruct (Z.ltb_spec id max).
      * rewrite decide_True by lia. apply insert_none.
      * by rewrite decide_False by lia.
    + case_decide; [|done]. destruct (c0 !! j) as [[f|]|] eqn:E; try done. by destruct (Hn f).
  - assert (c1 !! j = c0 !! j) as ->.
    { destruct Hc1 as [->|[-> _]]; [|done]. destruct (_ && _); [|done].
      apply list_lookup_insert_ne. lia. }
    repeat case_decide; try done; lia.
Qed.

Lemma delete_children_wp n id s :
  1 <= id ->
  wp (delete_children n id) (fun _ s' => exists c, cleared n id (max_fifo_count s) (child_fifos s) c /\
    quiet (with_children c s) s') (fun _ => True) s.
Proof.
  revert id s. induction n as [|n IH]; intros id s Hid; cbn [delete_children].
  { apply wp_ret. exists (child_fifos s). split; [|done].
    intros j. rewrite decide_False; [done|lia]. }
  wp_go.
  assert (forall s1, quiet (emptied id s) s1 \/ (s1 = s /\ forall f, child_fifos s !! Z.to_nat id <> Some (Some f)) ->
    wp (delete_children n (id + 1)) (fun _ s' => exists c,
      cleared (S n) id (max_fifo_count s) (child_fifos s) c /\ quiet (with_children c s) s')
      (fun _ => True) s1) as Hrest.
  { intros s1 Hs1. eapply wp_mono; [| |apply IH; lia]; [|done]. cbn. intros _ s' (c & Hc & Hq).
    exists c. split.
    - destruct Hs1 as [[_ _ Hch _ Hf _]|[-> Hn]].
      + assert (max_fifo_count s1 = max_fifo_count s) as Em
          by (unfold max_fifo_count, emptied in *; rewrite Hf; by destruct (accepts id s)).
        rewrite Em in Hc. eapply cleared_step; [done| |exact Hc]. left. rewrite Hch.
        unfold emptied, accepts. by destruct (_ && _).
      + eapply cleared_step; [done| |exact Hc]. by right.
    - destruct Hs1 as [Hs1|[-> _]]; [|done]. unfold emptied in Hs1.
      destruct (accepts id s); quiet_eq. }
  destruct (child_fifos s !! Z.to_nat id) as [[f|]|] eqn:Ef.
  - wp_go. eapply wp_mono; [| |apply delete_fifo_wp; lia]; [|done]. intros b s1 Hs1.
    apply wp_ret. apply Hrest. by left.
  - apply wp_ret. apply Hrest. right. split; [done|]. intros f. congruence.
  - apply wp_ret. apply Hrest. right. split; [done|]. intros f. congruence.
Qed.

(** ** The root FIFO made and torn down *)

Lemma or_die_wp {A} (m : M A) Q X s : wp m Q (fun _ => True) s -> wp (or_die m) Q X s.
Proof. unfold wp, or_die. by destruct (m s) as [[? ?]|[[?|?] ?]|]. Qed.

Lemma store_root_mapping_wp m s :
  wp (store_root_mapping m) (fun _ => quiet (with_root (with_mapping m (root s)) s))
    (fun _ => False) s.
Proof. unfold store_root_mapping, update_root. wp_go. quiet_step. done. Qed.

(** The root FIFO's record with no FIFO, its staged registers kept. *)
Definition torn (r : RootFifo F) : RootFifo F :=
  MkRootFifo 0 (base_page r) (flength r) (fstart r) None None None.

Lemma teardown_fifos_wp s :
  wp teardown_fifos (fun _ s' =>
    if enabled (root s) =? 0 then s' = s
    else interrupt_fault_mask (irqs s') = 0 /\
      exists c, cleared 63 1 (max_fifo_count s) (child_fifos s) c /\
        quiet (with_root (torn (root s)) (with_children c s)) s') (fun _ => False) s.
Proof.
  unfold teardown_fifos. wp_go. destruct (enabled (root s) =? 0); [by apply wp_ret|]. wp_go.
  quiet_step. quiet_step. unfold require_that.
  destruct (match child_fifos s'0 with Some _ :: _ => false | _ => true end); [|done]. wp_go.
  apply or_die_wp. eapply wp_mono; [| |apply delete_children_wp; lia]; [|done].
  cbn -[delete_children]. intros _ s1 (c & Hc & Hs1). unfold update_root. wp_go.
  eapply wp_mono; [| |apply store_root_mapping_wp]; [|done]. intros ? s2 Hs2. cbn in Hs2.
  unfold update_irqs. wp_go. split; [done|]. exists c.
  assert (max_fifo_count s'0 = max_fifo_count s /\ child_fifos s'0 = child_fifos s /\
    root s1 = root s /\ quiet (with_children c s) s1) as (Em & Ec & Er & Hs).
  { repeat match goal with Hq : quiet _ _ |- _ => destruct Hq end. cbn in *.
    unfold max_fifo_count. split_and!; [congruence..|split; cbn; congruence]. }
  rewrite Em, Ec in Hc. split; [done|]. unfold torn. rewrite <- Er.
  repeat match goal with Hq : quiet s _ |- _ => clear Hq | Hq : quiet s' _ |- _ => clear Hq end.
  quiet_eq.
Qed.

(** The staged registers are as they were. *)
Definition staged (r r' : RootFifo F) : Prop :=
  base_page r' = base_page r /\ flength r' = flength r /\ fstart r' = fstart r.

(** A root FIFO that is wholly there, its stamps at its mapping, or wholly absent. *)
Definition root_ok (n : RootNode) (r : RootFifo F) : Prop :=
  match root_fifo r, root_fifo_mapping r, stamp_memory r with
  | None, None, None => enabled r = 0
  | Some _, Some m, Some a =>
      enabled r = 1 /\ a = MemoryMap.m_address m /\ is_Some (root_node n)
  | _, _, _ => False
  end.

Lemma root_disabled n r : root_ok n r -> enabled r = 0 -> r = torn r.
Proof.
  unfold root_ok, torn. destruct r as [e bp l st f m a]; cbn. intros Hr ->.
  destruct f, m, a; try done. by destruct Hr as [? _].
Qed.
Lemma root_enabled n r : root_ok n r -> enabled r <> 0 -> is_Some (root_node n).
Proof.
  unfold root_ok. destruct (root_fifo r), (root_fifo_mapping r), (stamp_memory r); try done.
  by intros (_&_&?) _.
Qed.

Lemma create_root_wp s :
  root_ok (node s) (root s) -> enabled (root s) = 0 ->
  wp create_root_fifo (fun _ s' => exists r, root_ok (node s) r /\ staged (root s) r /\
    quiet (with_root r s) s') (fun _ => False) s.
Proof.
  intros Hok He. pose proof (root_disabled _ _ Hok He) as Hr.
  assert (forall s', quiet s s' -> exists r, root_ok (node s) r /\ staged (root s) r /\
    quiet (with_root r s) s') as Hsame.
  { intros s' Hq. exists (root s). split_and!; [done..|]. quiet_eq. }
  assert (with_mapping None (root s) = root s) as Hnone by (rewrite Hr; done).
  unfold create_root_fifo. wp_go. destruct (root_node (node s)) as [n|] eqn:En; [|by apply wp_ret, Hsame].
  wp_go. destruct (_ <? _); [by apply wp_ret, Hsame|]. destruct (negb _); [by apply wp_ret, Hsame|]. wp_go.
  destruct (_ || _); [by apply wp_ret, Hsame|]. wp_go.
  apply wp_quiet; [auto with quiet|]. intros mapping s0 Hs0. wp_go.
  eapply wp_mono; [| |apply store_root_mapping_wp]; [|done]. intros ? s1 Hs1. cbn in Hs1.
  assert (quiet (with_root (with_mapping mapping (root s)) s) s1) as Hq
    by (rewrite <- (quiet_root _ _ Hs0); clear -Hs0 Hs1; quiet_eq).
  clear Hs0 Hs1. destruct mapping as [m|].
  2: { apply wp_ret, Hsame. rewrite Hnone in Hq. quiet_eq. }
  wp_go. apply wp_quiet; [quiet_go|]. intros made s2 Hs2. destruct made as [fifo|].
  - unfold update_root. wp_go.
    exists (MkRootFifo 1 (base_page (root s)) (flength (root s)) (fstart (root s)) (Some fifo)
      (Some m) (Some (MemoryMap.m_address m))).
    split_and!; [cbn; split_and!; [done..|by rewrite En]|done|].
    assert (root s2 = with_mapping (Some m) (root s)) as Er
      by (rewrite (quiet_root _ _ Hs2); apply (quiet_root _ _ Hq)).
    rewrite Er. clear Er. quiet_eq.
  - eapply wp_mono; [| |apply store_root_mapping_wp]; [|done]. intros ? s3 Hs3. cbn in Hs3.
    apply Hsame. 
    assert (with_mapping None (root s2) = root s) as Er.
    { rewrite (quiet_root _ _ Hs2), (quiet_root _ _ Hq). exact Hnone. }
    rewrite Er in Hs3. clear Er. quiet_eq.
Qed.

(** ** The device's invariant *)

(** A root node at its mapping, or neither; a mapping at address 0 is no node. *)
Definition node_ok (n : RootNode) : Prop :=
  match root_node n, root_node_mapping n with
  | None, None => True
  | Some a, Some m => a = MemoryMap.m_address m /\ a <> 0
  | None, Some m => MemoryMap.m_address m = 0
  | _, _ => False
  end.

Record wf (s : State W F) : Prop := {
  wf_children : length (child_fifos s) = 64%nat;
  wf_slot0 : child_fifos s !! 0%nat = Some None;
  wf_infos : length (waiting_info s) = Waits.WAITING_INFO_COUNT;
  wf_root : root_ok (node s) (root s);
  wf_node : node_ok (node s);
}.

Lemma wf_quiet s s' : quiet s s' -> wf s -> wf s'.
Proof. intros [Hn Hr Hc _ _ Hi] []. split; congruence. Qed.
Lemma wf_emptied id s : 0 <= id -> wf s -> wf (emptied id s).
Proof.
  intros Hid []. unfold emptied, accepts. destruct (Z.ltb_spec 0 id); [|by split]. cbn [andb].
  destruct (_ <? _); [|by split]. split; cbn; try done; [by rewrite length_insert|].
  rewrite list_lookup_insert_ne; [done|lia].
Qed.
Lemma wf_made id s s' : made_child id s s' -> wf s -> wf s'.
Proof.
  intros [Hq|[Hid [f Hq]]] Hwf; [by eapply wf_quiet|]. apply (wf_quiet _ _ Hq).
  destruct Hwf. split; cbn; try done; [by rewrite length_insert|].
  rewrite list_lookup_insert_ne; [done|lia].
Qed.
Lemma cleared_slot0 n id max c c' : 1 <= id -> cleared n id max c c' -> c' !! 0%nat = c !! 0%nat.
Proof. intros Hid Hc. rewrite Hc. by rewrite decide_False by lia. Qed.
Lemma torn_ok n r : root_ok n (torn r).
Proof. done. Qed.

(** What a teardown of the FIFOs leaves of the children. *)
Definition left_children (s : State W F) (c : list (option F)) : Prop :=
  if enabled (root s) =? 0 then c = child_fifos s
  else cleared 63 1 (max_fifo_count s) (child_fifos s) c.

Lemma left_children_wf s c : wf s -> left_children s c -> length c = 64%nat /\ c !! 0%nat = Some None.
Proof.
  intros [Hl H0 _ _ _]. unfold left_children. case_match; [by intros ->|]. intros Hc.
  rewrite (cleared_length _ _ _ _ _ Hc), (cleared_slot0 _ _ _ _ _ ltac:(done) Hc). done.
Qed.

Lemma teardown_fifos_ok s :
  wf s -> wp teardown_fifos (fun _ s' => exists c, left_children s c /\
    quiet (with_root (torn (root s)) (with_children c s)) s') (fun _ => False) s.
Proof.
  intros Hwf. eapply wp_mono; [| |apply teardown_fifos_wp]; [|done]. cbn. intros _ s'.
  unfold left_children. destruct (enabled (root s) =? 0) eqn:Ee.
  - intros ->. exists (child_fifos s). split; [done|].
    rewrite <- (root_disabled _ _ (wf_root _ Hwf)) by (by apply Z.eqb_eq). by split.
  - intros (_&c&Hc&Hq). by exists c.
Qed.

Lemma enable_fifo_ok s :
  wf s -> wp enable_fifo (fun _ s' => wf s' /\ node s' = node s /\ staged (root s) (root s') /\
    tearing_down_root s' = tearing_down_root s /\ child_fifos s' = child_fifos s) (fun _ => False) s.
Proof.
  intros Hwf. unfold enable_fifo. wp_go. unfold require_that.
  destruct (Z.eqb_spec (enabled (root s)) 0) as [He|]; [|done]. wp_go.
  eapply wp_mono; [| |apply create_root_wp; [apply Hwf|done]]; [|done].
  cbn. intros _ s1 (r & Hr & Hst & Hq). wp_go.
  apply (wp_quiet (match root_fifo (root s1) with
    | Some fifo => if negb (enabled (root s1) =? 0) then client_ (fifo_start fifo) else mret tt
    | None => mret tt end)); [quiet_go|].
  intros _ s2 Hs2. assert (quiet (with_root r s) s2) as Hq2 by (by etrans).
  split; [|destruct Hq2 as [-> -> Hc Ht _ _]; by split_and!].
  apply (wf_quiet _ _ Hq2). destruct Hwf. by split.
Qed.

(** A root's teardown: no node, no root FIFO, the children it deletes gone, no
    interrupt pending and no root task. *)
Definition torn_down (s s' : State W F) : Prop :=
  node s' = MkRootNode None None /\ root s' = torn (root s) /\ left_children s (child_fifos s') /\
  irqs s' = MkInterrupts 0 0 0 /\ RootTask.root_task (rt s') = 0 /\ features s' = features s.

Lemma clear_root_task s :
  wp (if RootTask.root_task (rt s) =? 0 then mret tt
      else
        _ ← destroy_root_task TeardownWithoutDestroyTask;
        in_task (modify (fun r => RootTask.with_task 0 (RootTask.root_task_base r) r)))
    (fun _ s' => quiet s s' /\ irqs s' = irqs s /\ RootTask.root_task (rt s') = 0)
    (fun _ => False) s.
Proof.
  destruct (Z.eqb_spec (RootTask.root_task (rt s)) 0); [by apply wp_ret|].
  unfold destroy_root_task. wp_go. by destruct (RootTask.destroy_task blocks).
Qed.

Lemma teardown_root_ok s :
  wf s -> wp teardown_root (fun _ s' => wf s' /\ torn_down s s' /\ tearing_down_root s' = false)
    (fun _ => False) s.
Proof.
  intros Hwf. unfold teardown_root. wp_go. unfold require_that.
  destruct (root_node (node s)) as [n|] eqn:En; [|done]. wp_go.
  assert (wf (with_tearing_down true s)) as Hwt by (by destruct Hwf).
  eapply wp_mono; [| |apply (teardown_fifos_ok _ Hwt)]; [|done].
  cbn. intros _ s1 (c & Hc & Hs1). wp_go.
  quiet_step. quiet_step.
  assert (node s'0 = node s /\ root s'0 = torn (root s) /\ child_fifos s'0 = c /\
    features s'0 = features s /\ length (waiting_info s'0) = length (waiting_info s))
    as (En' & Er & Ec & Ef & Ei).
  { repeat match goal with Hq : quiet _ _ |- _ => destruct Hq end. cbn in *.
    split_and!; congruence. }
  cbn [with_rt node]. rewrite En', En. wp_go. cbn [with_rt node].
  apply wp_quiet; [auto with quiet|]. intros _ s2 Hs2. unfold update_irqs. wp_go.
  eapply wp_mono; [| |apply clear_root_task]; [|done]. cbn. intros _ s3 (Hs3 & Hi & Ht). wp_go.
  destruct Hs3, Hs2. cbn in *. destruct (left_children_wf s c Hwf Hc) as [Hl H0'].
  split_and!; [|split_and!|done]; cbn; try congruence.
  - split; cbn; try congruence.
    + rewrite quiet_infos0, quiet_infos1, Ei. apply Hwf.
    + by rewrite quiet_root0, quiet_root1, Er.
    + by rewrite quiet_node0, quiet_node1.
  - by rewrite quiet_children0, quiet_children1, Ec.
Qed.

Lemma map_root_node_ok root_page s :
  wp (map_root_node root_page) (fun _ s' => exists n, node_ok n /\ quiet (with_node n s) s')
    (fun _ => False) s.
Proof.
  unfold map_root_node. wp_go.
  apply wp_quiet; [destruct (RootTask.memory_map (rt s)); cbn; [quiet_go|auto with quiet]|].
  intros _ s1 Hs1. wp_go. apply wp_quiet; [auto with quiet|]. intros mapping s2 Hs2. wp_go.
  destruct mapping as [m|]; wp_go.
  - apply wp_quiet; [auto with quiet|]. intros _ s3 Hs3. exists (MkRootNode (node_at (MemoryMap.m_address m)) (Some m)).
    split; [unfold node_ok, node_at; cbn; by destruct (Z.eqb_spec (MemoryMap.m_address m) 0)|]. quiet_eq.
  - apply wp_quiet; [auto with quiet|]. intros _ s3 Hs3. wp_go.
    apply wp_quiet; [destruct (RootTask.memory_map (rt s)); cbn; [quiet_go|auto with quiet]|].
    intros _ s4 Hs4. wp_go. exists (MkRootNode None None). split; [done|].
    assert (root_node_mapping (node s4) = None) as ->
      by (rewrite (quiet_node _ _ Hs4), (quiet_node _ _ Hs3); done).
    quiet_eq.
Qed.

Lemma set_root_page_ok page s :
  wf s -> tearing_down_root s = false ->
  wp (set_root_page page) (fun _ s' => wf s' /\ tearing_down_root s' = false /\
    features s' = features s /\ root s' = torn (root s) /\ left_children s (child_fifos s') /\
    RootTask.root_page_number (rt s') = page /\ (page = 0 -> root_node (node s') = None) /\
    (is_Some (root_node (node s)) -> page = 0 -> irqs s' = MkInterrupts 0 0 0))
    (fun _ => False) s.
Proof.
  intros Hwf Ht. unfold set_root_page. wp_go.
  assert (wp (match root_node (node s) with Some _ => teardown_root | None => mret tt end)
    (fun _ s1 => wf s1 /\ tearing_down_root s1 = false /\ features s1 = features s /\
      root_node (node s1) = None /\ root s1 = torn (root s) /\
      left_children s (child_fifos s1) /\
      (is_Some (root_node (node s)) -> irqs s1 = MkInterrupts 0 0 0)) (fun _ => False) s) as H1.
  { destruct (root_node (node s)) as [n|] eqn:En.
    - eapply wp_mono; [| |apply (teardown_root_ok _ Hwf)]; [|done]. cbn.
      intros _ s1 (Hwf1 & (Hn & Hr & Hc & Hi & _ & Hf) & Ht1). rewrite Hn. by split_and!.
    - apply wp_ret.
      assert (enabled (root s) = 0) as He.
      { destruct (Z.eq_dec (enabled (root s)) 0); [done|].
        destruct (root_enabled _ _ (wf_root _ Hwf)) as [? ?]; [done|congruence]. }
      split_and!; try done.
      + by apply (root_disabled (node s)), He; apply Hwf.
      + unfold left_children. by rewrite He. }
  eapply wp_mono; [| |exact H1]; [|done]. cbn.
  intros _ s1 (Hwf1 & Ht1 & Hf1 & Hn1 & Hr1 & Hc1 & Hi1). wp_go.
  assert (wf (with_waits (Waits.init_waiting_info (waits s1)) s1)) as Hwf2.
  { destruct Hwf1. split; cbn; try done. by rewrite length_map. }
  destruct (Z.eqb_spec page 0) as [->|Hp]; cbn [negb].
  { apply wp_ret. unfold in_task, modify, wp. cbn.
    split_and!; try done; [by destruct Hwf2|by intros ? _; apply Hi1]. }
  eapply wp_mono; [| |apply map_root_node_ok]; [|done]. intros ? s2 (n & Hn & Hq).
  unfold in_task, modify, wp. destruct Hq. cbn in *. split_and!; try done; try congruence.
  destruct Hwf2. split; cbn in *; rewrite ?quiet_children0, ?quiet_infos0, ?quiet_root0, ?quiet_node0;
      try done. by rewrite Hr1.
Qed.

(** ** The device's steps *)

(** An operation the guest's registers, its commands, a FIFO or the host asks for. *)
Inductive Op : Type :=
| DisplayPoke (port : Z)
| SignalStamp (stamp stamp_value : Z)
| SignalFault (fifo : F)
| CreateFifo (fifo_id : Z)
| DeleteFifo (fifo_id : Z)
| ResumeChild (fifo_id : Z)
| WakeFifo (fifo_id : Z)
| EnableFifo
| TeardownFifos
| FifoWritten (written : Z)
| FifoLength (length : Z)
| FifoStart (start : Z)
| FifoBasePage (page : Z)
| ResumeFifo
| SetRootPage (page : Z)
| SetFeatures (f : GuestRecords.GuestFeatures).

Definition perform (o : Op) : M unit :=
  match o with
  | DisplayPoke port => display_poke_port port
  | SignalStamp stamp v => signal_stamp stamp v
  | SignalFault fifo => fault_block fifo
  | CreateFifo id => _ ← create_fifo id; mret tt
  | DeleteFifo id => _ ← delete_fifo id; mret tt
  | ResumeChild id => resume_child_fifo id
  | WakeFifo id => wake_fifo id
  | EnableFifo => enable_fifo
  | TeardownFifos => teardown_fifos
  | FifoWritten v => set_fifo_written v
  | FifoLength v => set_fifo_length v
  | FifoStart v => set_fifo_start v
  | FifoBasePage v => set_fifo_base_page v
  | ResumeFifo => resume_fifo
  | SetRootPage page => set_root_page page
  | SetFeatures f => modify (with_features f)
  end.

(** The ids are words. *)
Definition op_ok (o : Op) : Prop :=
  match o with
  | CreateFifo id | DeleteFifo id => 0 <= id
  | _ => True
  end.

(** An operation that returns, or that leaves by a raise. *)
Inductive step (s : State W F) : State W F -> Prop :=
| Returns o s' : op_ok o -> perform o s = Ret (tt, s') -> step s s'
| Raises o e s' : op_ok o -> perform o s = Raised (e, s') -> step s s'.

Definition stable (s : State W F) : Prop := wf s /\ tearing_down_root s = false.

Lemma stable_quiet s s' : quiet s s' -> stable s -> stable s'.
Proof. intros Hq [Hwf Ht]. split; [by eapply wf_quiet|]. by rewrite (quiet_tearing _ _ Hq). Qed.

Lemma Quiet_stable m s :
  Quiet m -> stable s -> wp (m : M unit) (fun _ => stable) stable s.
Proof. intros Hm Hs. apply wp_quiet; [done|]. intros _ s' Hq. by eapply stable_quiet. Qed.

Lemma stage_stable set s :
  (forall r, root_ok (node s) r -> enabled r = 0 -> root_ok (node s) (set r)) ->
  stable s -> wp (stage set) (fun _ => stable) stable s.
Proof.
  intros Hset [Hwf Ht]. unfold stage. wp_go. destruct (Z.eqb_spec (enabled (root s)) 0); cbn [negb].
  - unfold update_root. wp_go. split; [|done]. destruct Hwf. split; cbn; auto.
  - by apply wp_ret.
Qed.

Lemma staged_root_ok n r bp l st :
  root_ok n r -> enabled r = 0 ->
  root_ok n (MkRootFifo (enabled r) bp l st (root_fifo r) (root_fifo_mapping r) (stamp_memory r)).
Proof. done. Qed.

Lemma perform_stable o s : op_ok o -> stable s -> wp (perform o) (fun _ => stable) stable s.
Proof.
  intros Ho Hs. pose proof Hs as [Hwf Ht]. destruct o; cbn [perform] in *.
  - apply Quiet_stable; [apply Quiet_poke|done].
  - apply Quiet_stable; [apply Quiet_stamp|done].
  - apply Quiet_stable; [apply Quiet_fault|done].
  - wp_go. eapply wp_mono; [| |by apply create_fifo_wp]; cbn.
    + intros b s' Hm. enough (stable s') by done. split; [by eapply wf_made|].
      destruct Hm as [Hq|[_ [f Hq]]]; by rewrite (quiet_tearing _ _ Hq).
    + intros s' Hq. by eapply stable_quiet.
  - wp_go. assert (stable (emptied fifo_id s)) as He.
    { split; [by apply wf_emptied|]. unfold emptied. by destruct (accepts _ _). }
    eapply wp_mono; [| |by apply delete_fifo_wp]; cbn.
    + intros b s' Hq. enough (stable s') by done. by eapply stable_quiet.
    + intros s' Hq. by eapply stable_quiet.
  - apply Quiet_stable; [apply Quiet_resume_child|done].
  - apply Quiet_stable; [apply Quiet_wake|done].
  - eapply wp_mono; [| |by apply enable_fifo_ok]; [|done]. cbn. intros _ s' (?&_&_&Ht'&_).
    split; [done|]. by rewrite Ht'.
  - eapply wp_mono; [| |by apply teardown_fifos_ok]; [|done]. cbn. intros _ s' (c&Hc&Hq).
    apply (stable_quiet _ _ Hq). destruct (left_children_wf _ _ Hwf Hc). destruct Hwf. by split.
  - apply Quiet_stable; [apply Quiet_written|done].
  - apply stage_stable; [|done]. intros. by apply staged_root_ok.
  - apply stage_stable; [|done]. intros. by apply staged_root_ok.
  - apply stage_stable; [|done]. intros. by apply staged_root_ok.
  - apply Quiet_stable; [apply Quiet_resume|done].
  - eapply wp_mono; [| |by apply set_root_page_ok]; [|done]. by intros _ s' (?&?&_).
  - wp_go. split; [by destruct Hwf|done].
Qed.

Lemma step_stable s s' : step s s' -> stable s -> stable s'.
Proof.
  intros [o s1 Ho E|o e s1 Ho E] Hs; pose proof (perform_stable o s Ho Hs) as H1; unfold wp in H1;
    by rewrite E in H1.
Qed.

Lemma reached_stable s0 s : rtc step s0 s -> stable s0 -> stable s.
Proof. induction 1 as [|x y z Hxy _ IH]; [done|]. intros Hx. by apply IH, (step_stable x). Qed.

(** C8: the device keeps its parts together. From a well-formed device, after any
    sequence of the guest's, the FIFOs' and the host's operations that return or leave
    by a raise: the 64 child slots are there and slot 0 is never filled, the root FIFO,
    its mapping, the stamp memory at that mapping's base and a set enable are all there
    or all absent, a FIFO that is there has a root node under it, the root node is the
    base of its mapping, there is neither without the other but for a mapping at address
    0, and no teardown is left half done. *)
Theorem device_well_formed s0 s :
  stable s0 -> rtc step s0 s ->
  length (child_fifos s) = 64%nat /\ child_fifos s !! 0%nat = Some None /\
  root_ok (node s) (root s) /\ node_ok (node s) /\ tearing_down_root s = false.
Proof.
  intros Hs Hr. destruct (reached_stable _ _ Hr Hs) as [[] Ht]. by split_and!.
Qed.

(** C16: a root page's write resets the device. From a well-formed device, a write that
    returns has the page stored, the root FIFO gone with its staged registers kept and
    its enable clear, and, where it was enabled, every child below the FIFO count
    deleted and the others left; page 0 leaves no root node and, where there was one, no
    interrupt pending. No write of it leaves by a raise. *)
Theorem set_root_page_resets page s :
  wf s -> tearing_down_root s = false ->
  match set_root_page page s with
  | Ret (_, s') =>
      RootTask.root_page_number (rt s') = page /\ root s' = torn (root s) /\
      features s' = features s /\
      (forall id, enabled (root s) <> 0 -> 0 < Z.of_nat id < 64 ->
        child_fifos s' !! id =
          if Z.of_nat id <? max_fifo_count s then Some None else child_fifos s !! id) /\
      (enabled (root s) = 0 -> child_fifos s' = child_fifos s) /\
      (page = 0 -> root_node (node s') = None /\
        (is_Some (root_node (node s)) -> irqs s' = MkInterrupts 0 0 0))
  | Raised _ => False
  | Died _ => True
  end.
Proof.
  intros Hwf Ht. pose proof (set_root_page_ok page s Hwf Ht) as Hp. unfold wp in Hp.
  destruct (set_root_page page s) as [[[] s']|[]|]; [|done..].
  destruct Hp as (_&_&Hf&Hr&Hc&Hpage&Hn&Hi). unfold left_children in Hc.
  split_and!; [done..| | |by intros H0; split; [apply Hn|intros; apply Hi]].
  - intros id He Hid. destruct (Z.eqb_spec (enabled (root s)) 0); [done|]. rewrite Hc.
    destruct (Z.ltb_spec (Z.of_nat id) (max_fifo_count s)).
    + rewrite decide_True by lia.
      assert (is_Some (child_fifos s !! id)) as [x ->]; [|done].
      apply lookup_lt_is_Some. rewrite (wf_children _ Hwf). lia.
    + by rewrite decide_False by lia.
  - intros He. by rewrite He in Hc.
Qed.

(** ** Faults *)

Lemma wp_client {A} (m : W -> outcome Empty_set ddeath (A * W)) Q X s :
  (forall a w, Q a (with_world w s)) -> wp (client m) Q X s.
Proof. intros HQ. unfold wp, client. by destruct (m (world s)) as [[? ?]|[]|]. Qed.

(** The interrupt a running device raises, if [b]. *)
Definition raised (b : bool) (s : State W F) : list RootTask.HostCall :=
  match RootTask.run_state (rt s) with
  | RootTask.Running => if b then [RootTask.RaiseInterrupt 0] else []
  | _ => []
  end.
Definition tells (cs : list RootTask.HostCall) (s : State W F) : State W F :=
  with_rt (RootTask.with_calls (RootTask.calls (rt s) ++ cs) (rt s)) s.

Lemma interrupt_wp Q X s : Q tt (tells (raised true s) s) -> wp interrupt Q X s.
Proof.
  unfold interrupt, raised, tells. wp_go.
  assert (with_rt (RootTask.with_calls (RootTask.calls (rt s) ++ []) (rt s)) s = s) as E
    by (rewrite app_nil_r; destruct s as [[]]; done).
  destruct (RootTask.run_state (rt s)); rewrite ?E; try (by intros HQ; apply wp_ret).
  by destruct (RootTask.raise_interrupt blocks).
Qed.
Lemma interrupt_if_wp (b : bool) Q X s :
  Q tt (tells (raised b s) s) -> wp (if b then interrupt else mret tt) Q X s.
Proof.
  destruct b; [apply interrupt_wp|]. unfold tells.
  assert (raised false s = []) as -> by (unfold raised; by destruct (RootTask.run_state (rt s))).
  assert (with_rt (RootTask.with_calls (RootTask.calls (rt s) ++ []) (rt s)) s = s) as ->
    by (rewrite app_nil_r; destruct s as [[]]; done).
  intros HQ. by apply wp_ret.
Qed.

(** [s] after stamps published: their bits gained, the host interrupted [n] times. *)
Definition gained (w : W) (k : Z) (n : nat) (s : State W F) : State W F :=
  with_world w (with_irqs (with_stamp (Z.lor (interrupt_stamp (irqs s)) k) (irqs s))
    (tells (replicate n (RootTask.RaiseInterrupt 0)) s)).
Definition published (s s' : State W F) : Prop := exists w k n,
  s' = gained w k n s /\ (RootTask.run_state (rt s) = RootTask.Running \/ n = 0%nat).

Lemma gained_world s w : with_world w s = gained w 0 0 s.
Proof. unfold gained, tells. rewrite Z.lor_0_r, app_nil_r. by destruct s as [[] ? ? ? ? ? [] ? ? ?]. Qed.
Lemma gained_gained w k n w' k' n' s :
  gained w' k' n' (gained w k n s) = gained w' (Z.lor k k') (n + n') s.
Proof.
  unfold gained, tells. cbn. by rewrite Z.lor_assoc, <- app_assoc, <- replicate_add.
Qed.
Lemma published_trans s s1 s2 : published s s1 -> published s1 s2 -> published s s2.
Proof.
  intros (w & k & n & -> & Hn) (w' & k' & n' & -> & Hn'). exists w', (Z.lor k k'), (n + n')%nat.
  rewrite gained_gained. split; [done|]. cbn in Hn'. destruct Hn; [by left|].
  destruct Hn'; [by left|right; lia].
Qed.
Lemma published_refl s : published s s.
Proof.
  exists (world s), 0, 0%nat. split; [|by right]. rewrite <- gained_world. by destruct s.
Qed.

Lemma published_stamp stamp v s : wp (signal_stamp stamp v) (fun _ => published s) (fun _ => False) s.
Proof.
  unfold signal_stamp. wp_go. destruct (_ <? _); [apply wp_ret, published_refl|]. wp_go.
  unfold store_u32, client_. unfold wp at 1, client. unfold update_irqs.
  match goal with |- match (match ?m with _ => _ end) with _ => _ end => destruct m as [[[] w]|[]|] end;
    [|done].
  wp_go. apply interrupt_wp.
  exists w, (Num.bit32 stamp), (length (raised true s)). split.
  - by destruct s as [[? ? ? ? ? ? [] ? ?] ? ? ? ? ? ? ? ? ?].
  - unfold raised. destruct (RootTask.run_state (rt s)); auto.
Qed.

Lemma published_all stamp values : forall s,
  wp (signal_all stamp values) (fun _ => published s) (fun _ => False) s.
Proof.
  induction values as [|v values IH]; intros s; cbn [signal_all]; [apply wp_ret, published_refl|].
  rewrite wp_bind. eapply wp_mono; [| |apply published_stamp]; [|done]. cbv beta. intros _ s1 H1.
  eapply wp_mono; [| |apply IH]; [|done]. cbv beta. intros _ s2 H2. by eapply published_trans.
Qed.

(** A FIFO's operation changes its parts and publishes stamps, and nothing more. *)
Lemma publishing_wp op f s : wp (publishing op f) (fun _ => published s) (fun _ => False) s.
Proof.
  unfold publishing. rewrite wp_bind. apply wp_client. intros values w. rewrite wp_bind, wp_asks.
  eapply wp_mono; [| |apply published_all]; [|done]. cbv beta. intros _ s' H'. eapply published_trans; [|exact H'].
  exists w, 0, 0%nat. rewrite <- gained_world. split; [done|by right].
Qed.

Lemma bit64_bits n j :
  0 <= j < 64 -> Z.testbit (Num.bit64 n) j = (j =? n mod 64) /\
  Z.testbit (not64 (Num.bit64 n)) j = negb (j =? n mod 64).
Proof.
  intros Hj. assert (Num.bit64 n = Num.bit64 (n mod 64)) as ->
    by (unfold Num.bit64, shl64; by rewrite Z.mod_mod).
  pose proof (Z.mod_pos_bound n 64 ltac:(lia)) as Hn. set (m := n mod 64) in *. clearbody m.
  pose proof (forallb_upto (fun m => forallb (fun j =>
    Bool.eqb (Z.testbit (Num.bit64 (Z.of_nat m)) (Z.of_nat j)) (Z.of_nat j =? Z.of_nat m) &&
    Bool.eqb (Z.testbit (not64 (Num.bit64 (Z.of_nat m))) (Z.of_nat j))
      (negb (Z.of_nat j =? Z.of_nat m))) (seq 0 64)) 64) as Hall.
  specialize (Hall ltac:(by vm_compute) (Z.to_nat m) ltac:(lia)).
  pose proof (forallb_upto _ 64 Hall (Z.to_nat j) ltac:(lia)) as Hb.
  apply andb_prop in Hb as [H1%Bool.eqb_prop H2%Bool.eqb_prop].
  by rewrite !Z2Nat.id in H1, H2 by lia.
Qed.

Lemma fault_block_wp fifo s :
  wp (fault_block fifo) (fun _ s' =>
    irqs s' = with_fault (Z.lor (interrupt_fault_mask (irqs s))
      (Num.bit64 (stamp_index fifo (world s)))) (irqs s) /\
    rt s' = RootTask.with_calls (RootTask.calls (rt s) ++ raised true s) (rt s))
    (fun _ => False) s.
Proof. unfold fault_block, update_irqs. wp_go. by apply interrupt_wp. Qed.

(** A child's resume: its bit cleared, the host told where a fault is left, and the stamps
    the FIFO then publishes. *)
Lemma resume_child_wp id s :
  let left_ := Z.land (interrupt_fault_mask (irqs s)) (not64 (Num.bit64 id)) in
  wp (resume_child_fifo id) (fun _ s' => interrupt_fault_mask (irqs s') = left_ /\
    interrupt_display (irqs s') = interrupt_display (irqs s) /\
    exists n, RootTask.calls (rt s') =
      RootTask.calls (rt s) ++ raised (negb (left_ =? 0)) s ++ replicate n (RootTask.RaiseInterrupt 0))
    (fun _ => False) s.
Proof.
  intros left_. unfold resume_child_fifo, update_irqs. wp_go.
  assert (forall b s1, irqs s1 = with_fault left_ (irqs s) -> rt s1 = rt s ->
    wp (left_0 ← asks (fun s => interrupt_fault_mask (irqs s));
        _ ← (if negb (left_0 =? 0) then interrupt else mret tt);
        _ ← (if b : bool then client_ report_stamp_wait_timeout else mret tt);
        if id <? CHILD_FIFO_SLOTS then
          child ← child_slot id;
          match child with Some child => publishing fifo_resume child | None => mret tt end
        else mret tt) (fun _ s' => interrupt_fault_mask (irqs s') = left_ /\
          interrupt_display (irqs s') = interrupt_display (irqs s) /\
          exists n, RootTask.calls (rt s') = RootTask.calls (rt s) ++ raised (negb (left_ =? 0)) s
            ++ replicate n (RootTask.RaiseInterrupt 0)) (fun _ => False) s1)
    as Hrest.
  { intros b s1 Hi Hr. wp_go. apply interrupt_if_wp. rewrite Hi. cbn [interrupt_fault_mask with_fault].
    wp_go.
    assert (forall w s', published (with_world w (tells (raised (negb (left_ =? 0)) s1) s1)) s' ->
      interrupt_fault_mask (irqs s') = left_ /\
      interrupt_display (irqs s') = interrupt_display (irqs s) /\
      exists n, RootTask.calls (rt s') = RootTask.calls (rt s) ++ raised (negb (left_ =? 0)) s
        ++ replicate n (RootTask.RaiseInterrupt 0)) as Hend.
    { intros w s' (w' & k & n & -> & _). unfold gained, tells, raised. cbn. rewrite Hi, Hr.
      split_and!; [done..|]. exists n. by rewrite <- app_assoc. }
    assert (forall w, wp (if id <? CHILD_FIFO_SLOTS then
          child ← child_slot id;
          match child with Some child => publishing fifo_resume child | None => mret tt end
        else mret tt) (fun _ s' => interrupt_fault_mask (irqs s') = left_ /\
          interrupt_display (irqs s') = interrupt_display (irqs s) /\
          exists n, RootTask.calls (rt s') = RootTask.calls (rt s) ++ raised (negb (left_ =? 0)) s
            ++ replicate n (RootTask.RaiseInterrupt 0)) (fun _ => False)
      (with_world w (tells (raised (negb (left_ =? 0)) s1) s1))) as Hlast.
    { intros w. destruct (_ <? _); [|apply wp_ret, (Hend w), published_refl]. wp_go.
      apply wp_child_slot. intros child _.
      destruct child; [|apply wp_ret, (Hend w), published_refl].
      eapply wp_mono; [| |apply publishing_wp]; [|done]. cbv beta. intros _ s'. apply Hend. }
    destruct b; [apply wp_client; intros; apply Hlast|]. apply wp_ret.
    specialize (Hlast (world s1)). 
    replace (with_world (world s1) (tells (raised (negb (left_ =? 0)) s1) s1))
      with (tells (raised (negb (left_ =? 0)) s1) s1) in Hlast by (by destruct s1). exact Hlast. }
  match goal with |- wp (if ?c then _ else _) _ _ _ =>
    destruct c; [exact (Hrest false (with_irqs _ s) eq_refl eq_refl)|apply wp_client; intros b w; by apply (Hrest b)] end.
Qed.

(** A fault is the stamp index's, a resume the child's. A fault sets the bit of its
    FIFO's stamp index and a resume clears the bit of the child's id, both modulo 64, and
    nothing else of the mask: a child whose stamp index is not its id stays faulted.
    A running device's host is interrupted once for the fault, and once more by the
    resume exactly when a fault is left; then only for the stamps the FIFO publishes. *)
Theorem fault_then_resume_child fifo id s s1 s2 :
  fault_block fifo s = Ret (tt, s1) -> resume_child_fifo id s1 = Ret (tt, s2) ->
  (forall j, 0 <= j < 64 ->
    Z.testbit (interrupt_fault_mask (irqs s2)) j =
      (Z.testbit (interrupt_fault_mask (irqs s)) j || (j =? stamp_index fifo (world s) mod 64)) &&
      negb (j =? id mod 64)) /\
  interrupt_display (irqs s2) = interrupt_display (irqs s) /\
  exists n, RootTask.calls (rt s2) = RootTask.calls (rt s) ++ raised true s ++
    raised (negb (interrupt_fault_mask (irqs s2) =? 0)) s ++ replicate n (RootTask.RaiseInterrupt 0).
Proof.
  intros E1 E2. pose proof (wp_Ret _ _ _ _ _ _ (fault_block_wp fifo s) E1) as [Hi1 Hr1].
  pose proof (wp_Ret _ _ _ _ _ _ (resume_child_wp id s1) E2) as (Hf2 & Hd2 & n & Hr2).
  cbn zeta in Hf2, Hr2. rewrite Hf2, Hd2, Hr2, Hi1, Hr1.
  cbn [interrupt_fault_mask interrupt_display with_fault RootTask.calls RootTask.with_calls].
  split_and!; [|done|].
  - intros j Hj. rewrite Z.land_spec, Z.lor_spec.
    by rewrite (proj1 (bit64_bits _ j Hj)), (proj2 (bit64_bits _ j Hj)).
  - exists n. rewrite <- app_assoc. do 2 f_equal. unfold raised. by rewrite Hr1.
Qed.
End Device.

(** ** Witnesses *)

(** FIFOs as their stamp indices, over a memory of zeros: a child is made with its id
    plus 4, nothing a FIFO does is seen. *)
#[local] Instance sample_clients : Clients GuestPtr.memory Z Empty_set Empty_set := {|
  memory_of w := w;
  store_memory m _ := m;
  try_new_root_on _ _ _ w := Ret (Some 0, w);
  new_child_on _ id _ w := Ret (Some (id + 4), w);
  fifo_start _ w := Ret w;
  fifo_stop _ w := Ret ([], w);
  fifo_drain _ w := Ret ([], w);
  fifo_resume _ w := Ret ([], w);
  fifo_poke _ w := Ret w;
  set_root_written _ _ w := Ret w;
  stamp_index f _ := f;
  fault_offset _ _ := NOT_FAULTED;
  root_read _ _ := None;
  tasks _ := [];
  fifo_deleted t _ _ := Empty_set_rect _ t;
  teardown_tasks w := Ret w;
  teardown_displays _ _ w := Ret w;
  take_report_budget w := (false, w);
  report_stamp_wait_timeout w := Ret w;
|}.
#[local] Instance sample_target : GuestRecords.Target := GuestRecords.AArch64.
Definition Sample : Type := State GuestPtr.memory Z.

(** A device whose guest has written nothing yet. *)
Definition fresh : Sample :=
  MkState (RootTask.MkState 0 0 0 0 (Some RootTask.fresh) None RootTask.Running [] [])
    (MkRootNode None None) (MkRootFifo 0 0 0 0 None None None) (replicate 64 None)
    Waits.new_waiting_info 0 (MkInterrupts 0 0 0) false GuestRecords.sample_features
    (fun _ => x00).
Lemma fresh_stable : stable fresh.
Proof. repeat split. Qed.

Local Abbreviation yes := (fun _ _ => true).
Local Abbreviation none := (fun _ _ => None).
Definition sample_perform (o : Op (F := Z)) (s : Sample) : Sample :=
  match perform RootTask.sample_blocks yes none o s with Ret (_, s) => s | _ => fresh end.
(** A root page, an enabled root FIFO of a page, child 3 made and faulted. *)
Definition sample_ops : list (Op (F := Z)) :=
  [SetRootPage 5; FifoLength 0x4000; FifoStart 0x400; FifoBasePage 9; EnableFifo; CreateFifo 3;
   SignalFault 7].
Definition sample_state : Sample := fold_left (fun s o => sample_perform o s) sample_ops fresh.

Definition returns (o : Op (F := Z)) (s : Sample) : bool :=
  match perform RootTask.sample_blocks yes none o s with Ret _ => true | _ => false end.
Lemma sample_step o s s0 :
  rtc (step RootTask.sample_blocks yes none) s0 s -> op_ok o -> returns o s = true ->
  rtc (step RootTask.sample_blocks yes none) s0 (sample_perform o s).
Proof.
  intros Hr Ho Hs. eapply rtc_r; [exact Hr|]. unfold returns in Hs. unfold sample_perform.
  destruct (perform _ _ _ o s) as [[[] s']|[]|] eqn:E; [|done..]. by apply (Returns _ _ _ _ o).
Qed.
Lemma sample_reached : rtc (step RootTask.sample_blocks yes none) fresh sample_state.
Proof.
  unfold sample_state, sample_ops. cbn [fold_left].
  do 7 (apply sample_step; [|by vm_compute|by vm_compute]). constructor.
Qed.

Lemma sample_stable : stable sample_state.
Proof. exact (reached_stable _ _ _ _ _ sample_reached fresh_stable). Qed.
Lemma sample_returned o s :
  returns o s = true ->
  perform RootTask.sample_blocks yes none o s = Ret (tt, sample_perform o s).
Proof. unfold returns, sample_perform. by destruct (perform _ _ _ o s) as [[[] ?]|[]|]. Qed.

Lemma device_well_formed_witness :
  rtc (step RootTask.sample_blocks yes none) fresh sample_state /\
  enabled (root sample_state) = 1 /\ child_fifos sample_state !! 3%nat = Some (Some 7) /\
  root_ok (node sample_state) (root sample_state).
Proof.
  pose proof (device_well_formed RootTask.sample_blocks yes none fresh sample_state
    fresh_stable sample_reached) as (_&_&H&_).
  split; [exact sample_reached|]. split; [by vm_compute|]. split; [by vm_compute|exact H].
Defined.
#[local] Opaque sample_state sample_perform.

(** The root page cleared: child 3 is deleted and no root node is left. *)
Lemma set_root_page_resets_witness :
  exists s', set_root_page RootTask.sample_blocks yes none 0 sample_state = Ret (tt, s') /\
    child_fifos s' !! 3%nat = Some None /\ root_node (node s') = None /\
    irqs s' = MkInterrupts 0 0 0.
Proof.
  pose proof (set_root_page_resets RootTask.sample_blocks yes none 0 sample_state
    (proj1 sample_stable) (proj2 sample_stable)) as H.
  pose proof (sample_returned (SetRootPage 0) sample_state ltac:(by vm_compute)) as E.
  cbn [perform] in E. rewrite E in H.
  destruct H as (_&_&_&Hc&_&H0). destruct (H0 eq_refl) as [Hn Hi].
  eexists. split; [exact E|]. split; [|split; [exact Hn|apply Hi; eexists; by vm_compute]].
  pose proof (Hc 3%nat ltac:(by vm_compute) ltac:(lia)) as H3.
  assert ((Z.of_nat 3 <? max_fifo_count sample_state) = true) as Em by (by vm_compute).
  rewrite Em in H3. exact H3.
Defined.

(** Child 3, whose stamp index is 7, faults twice and is resumed in between: the bit of
    the index stays. *)
Lemma fault_then_resume_child_witness :
  let s1 := sample_perform (SignalFault 7) sample_state in
  let s2 := sample_perform (ResumeChild 3) s1 in
  fault_block RootTask.sample_blocks 7 sample_state = Ret (tt, s1) /\
  resume_child_fifo RootTask.sample_blocks 3 s1 = Ret (tt, s2) /\
  Z.testbit (interrupt_fault_mask (irqs s2)) 7 = true /\
  Z.testbit (interrupt_fault_mask (irqs s2)) 3 = false.
Proof.
  intros s1 s2.
  pose proof (sample_returned (SignalFault 7) sample_state ltac:(by vm_compute)) as E1.
  pose proof (sample_returned (ResumeChild 3) s1 ltac:(by vm_compute)) as E2.
  cbn [perform] in E1, E2.
  destruct (fault_then_resume_child RootTask.sample_blocks 7 3 sample_state s1 s2 E1 E2) as (Hb&_).
  split; [exact E1|]. split; [exact E2|].
  rewrite (Hb 7), (Hb 3) by lia. split; [|by vm_compute].
  change (stamp_index 7 (world sample_state) mod 64) with 7. by rewrite Z.eqb_refl, orb_true_r.
Defined.
End Device.
