(* ===== verification/DisplayPage.v ===== *)
(** * DisplayPage: the display state page a guest display shares with the guest
    (src/crates/reims-vgpu-core/src/display/page.rs)

    The offsets and widths of the fields, and how a field is read and written in a byte
    memory: what a store to one field does to another is one of two lemmas, [get_put]
    and [get_put_ne]. *)

From S2P Require Import Prelude GuestRecords GuestPtr.
Open Scope Z_scope.

Module DisplayPage.

Definition MAX_MODES : Z := 128.
Definition SERIAL_NUM : Z := 0x000.
Definition NAME : Z := 0x004.
Definition NAME_LEN : Z := 14.
Definition PORT : Z := 0x012.
Definition ROUNDED_WIDTH_IN_MILLIMETERS : Z := 0x014.
Definition ROUNDED_HEIGHT_IN_MILLIMETERS : Z := 0x016.
Definition CURSOR_GLYPH_MAX_WIDTH : Z := 0x018.
Definition CURSOR_GLYPH_MAX_HEIGHT : Z := 0x01a.
Definition FIELD_1C : Z := 0x01c.
Definition CURSOR_HANDLERS : Z := 0x020.
Definition WIDTH_IN_MILLIMETERS : Z := 0x024.
Definition HEIGHT_IN_MILLIMETERS : Z := 0x028.
Definition COLOR_SPACE : Z := 0x02c.
Definition ORIGIN : Z := 0x04c.
Definition SCALE_FACTOR : Z := 0x050.
Definition COMPOSITOR_SUPPORTS_LIVE_RESIZE : Z := 0x051.
Definition CONFIG_EPOCH : Z := 0x058.
Definition CONNECTION_TYPE : Z := 0x060.
Definition PROTECTION_OPTIONS : Z := 0x068.
Definition MIN_NITS : Z := 0x070.
Definition MAX_NITS : Z := 0x074.
Definition MAX_SDR_NITS : Z := 0x078.
Definition RAISED_INTERRUPTS : Z := 0x100.
Definition ENABLED_INTERRUPTS : Z := 0x104.
Definition EXPECTED_ACK : Z := 0x200.
Definition MODE_LIST_COUNT : Z := 0x208.
Definition MODE_LIST_MODES : Z := 0x210.
Definition COLOR_MATRICES : Z := 0xa10.
Definition COLOR_MATRIX_READ_INDEX : Z := 0xa70.
Definition COLOR_MATRIX_FORCE_READ : Z := 0xa71.
Definition COLOR_MATRIX_WRITE_INDEX : Z := 0xa72.
Definition COLOR_MATRIX_DIRTY : Z := 0xa73.
Definition DISPLAY_UUID : Z := 0xa74.
Definition DISPLAY_UUID_LEN : Z := 39.
Definition CURSOR_POSITION : Z := 0xe00.
Definition GUEST_CURSOR_SHOW : Z := 0xe04.
Definition CURSOR_GLYPH_VIRTUAL_OFFSET : Z := 0xf00.
Definition CURSOR_GLYPH_MAPPED_LENGTH : Z := 0xf08.
Definition CURSOR_GLYPH_STRIDE : Z := 0xf10.
Definition FIELD_F18 : Z := 0xf18.
Definition CURSOR_GLYPH_SUM : Z := 0xf1c.
Definition CURSOR_SHOW : Z := 0xf20.
Definition CURSOR_GLYPH_WIDTH : Z := 0xf22.
Definition CURSOR_GLYPH_HEIGHT : Z := 0xf24.
Definition CURSOR_GLYPH_HOT_SPOT_X : Z := 0xf26.
Definition CURSOR_GLYPH_HOT_SPOT_Y : Z := 0xf28.
Definition GAMMA_TABLE_VIRTUAL_OFFSET : Z := 0xf80.
Definition GAMMA_TABLE_MAPPED_LENGTH : Z := 0xf88.
Definition GAMMA_TABLE_ENTRY_COUNT : Z := 0xf90.
Definition GAMMA_TABLE_SUM : Z := 0xf94.
Definition PRESENT_COUNT : Z := 0xf98.
Definition PRESENTED_SURFACE : Z := 0xfa0.
Definition FIELD_FA4 : Z := 0xfa4.
Definition ACK_PENDING : Z := 0xfa9.
Definition PRESENTED_MAPPING_ID : Z := 0xfb0.
Definition ASLEEP : Z := 0xfb8.
Definition LAST_ACK : Z := 0xfbc.
Definition STATE : Z := 0xfc0.
Definition GUEST_ICC_PROFILE_VIRTUAL_OFFSET : Z := 0xfc8.
Definition GUEST_ICC_PROFILE_LENGTH : Z := 0xfd0.
Definition MODE_ENTRY_SIZE : Z := 16.
Definition MODE_WIDTH : Z := 0.
Definition MODE_HEIGHT : Z := 2.
Definition MODE_REFRESH_RATE : Z := 4.
Definition MODE_FLAGS : Z := 8.
Definition MODE_FLAG_SUPPORTS_EDR : Z := 1.
Definition MODE_FLAG_SUPPORTS_10BPC : Z := 2.
Definition COLOR_MATRIX_SIZE : Z := 48.

(** The page offset of [modeList.modes[index]]. *)
Definition mode_entry (index : Z) : Z := add64 MODE_LIST_MODES (mul64 index MODE_ENTRY_SIZE).

(** The page offset of [colorMatrices[matrix][row][col]]. *)
Definition color_matrix (matrix row col : Z) : Z :=
  let m := mul64 matrix COLOR_MATRIX_SIZE in
  let r := mul64 row 16 in
  let c := mul64 col 4 in
  add64 (add64 COLOR_MATRICES m) (add64 r c).

Section Target.
Context {target : GuestRecords.Target}.
Definition PAGE_LENGTH : Z := GuestRecords.APV_PAGE_SIZE.

Definition color_matrix_in_page (matrix row col width : Z) : bool :=
  match checked_add64 (color_matrix matrix row col) width with
  | Some end_ => end_ <=? PAGE_LENGTH
  | None => false
  end.
End Target.

(** ** Fields in a memory *)

(** [n] bytes from [a] as a little-endian integer, and [v] stored there. *)
Definition get (n : nat) (m : GuestPtr.memory) (a : Z) : Z :=
  of_le_bytes (GuestPtr.bytes_at m a n).
Definition put (n : nat) (m : GuestPtr.memory) (a v : Z) : GuestPtr.memory :=
  GuestPtr.store_at m a (le_bytes n v).

(** What two memories share outside the [len] bytes from [a]. *)
Definition same_outside (a len : Z) (m m' : GuestPtr.memory) : Prop :=
  forall x, x < a \/ a + len <= x -> m' x = m x.

Lemma get_put n m a v : 0 <= v < 256 ^ Z.of_nat n -> get n (put n m a v) a = v.
Proof.
  intros Hv. unfold get, put. rewrite <- (length_le_bytes n v) at 2.
  rewrite GuestPtr.bytes_at_store, of_le_bytes_le_bytes. by apply Z.mod_small.
Qed.
Lemma get_range n m a : 0 <= get n m a < 256 ^ Z.of_nat n.
Proof.
  unfold get. pose proof (of_le_bytes_range (GuestPtr.bytes_at m a n)) as H.
  by rewrite GuestPtr.length_bytes_at in H.
Qed.
Lemma get_same_outside n m m' a len b :
  same_outside a len m m' -> b + Z.of_nat n <= a \/ a + len <= b -> get n m' b = get n m b.
Proof.
  intros Hs Hb. unfold get. f_equal. apply GuestPtr.bytes_at_ext. intros x Hx. apply Hs. lia.
Qed.
Lemma put_same_outside n m a v : same_outside a (Z.of_nat n) m (put n m a v).
Proof.
  intros x Hx. unfold put. apply GuestPtr.store_at_out. by rewrite length_le_bytes.
Qed.
Lemma get_put_ne n n' m a b v :
  b + Z.of_nat n' <= a \/ a + Z.of_nat n <= b -> get n' (put n m a v) b = get n' m b.
Proof. apply get_same_outside, put_same_outside. Qed.
Lemma same_outside_refl a len m : same_outside a len m m.
Proof. by intros x _. Qed.
Lemma same_outside_trans a len m1 m2 m3 :
  same_outside a len m1 m2 -> same_outside a len m2 m3 -> same_outside a len m1 m3.
Proof. intros H1 H2 x Hx. by rewrite H2, H1. Qed.
Lemma same_outside_weaken a len b n m m' :
  same_outside b n m m' -> a <= b -> b + n <= a + len -> same_outside a len m m'.
Proof. intros H ?? x Hx. apply H. lia. Qed.
Lemma put_same_within a len n m b v :
  a <= b -> b + Z.of_nat n <= a + len -> same_outside a len m (put n m b v).
Proof. intros. eapply same_outside_weaken; [apply put_same_outside|lia..]. Qed.

(** ** The layout *)

Lemma mode_entry_at i : 0 <= i < 0x10000 -> mode_entry i = 0x210 + 16 * i.
Proof.
  intros Hi. unfold mode_entry, MODE_LIST_MODES, MODE_ENTRY_SIZE. word_lia.
Qed.
Lemma color_matrix_at k r c :
  0 <= k < 256 -> 0 <= r < 3 -> 0 <= c < 4 ->
  color_matrix k r c = 0xa10 + 48 * k + 16 * r + 4 * c.
Proof. intros. unfold color_matrix, COLOR_MATRICES, COLOR_MATRIX_SIZE. word_lia. Qed.

End DisplayPage.
