(* ===== verification/GuestDisplay.v ===== *)
(** * GuestDisplay: the guest's side of a display port
    (src/crates/reims-vgpu-core/src/display/guest_display.rs, display/guest_display/settings.rs)

    The state, the page it shares with the guest, what it copies into the page, the
    connect and ack machine, the client and the pause. An operation runs alone under the
    guest display's lock: the guest's own stores to the page come between operations.
    The kernel task is the interface class [Kernel]; the client's core is what the guest
    display reads of it. The log lines are not modelled. *)

From S2P Require Import Prelude Num MemoryKinds DisplayKinds DeviceKinds GuestRecords GuestPtr.
From S2P Require Import Floats DisplayPage.
Open Scope Z_scope.

Module GuestDisplay.
Import DisplayKinds DeviceKinds DisplayPage.

Definition FIELD_1C_INIT : Z := 1024.
Definition INTERRUPT_PRESENT : Z := 2.
Definition INTERRUPT_CONNECT : Z := 4.
Definition INTERRUPT_DISCONNECT : Z := 8.
Definition INTERRUPT_UPDATE : Z := 12.
Definition GLYPH_LIMIT : Z := 256.
Definition CURSOR_HANDLER_SHOW : Z := 1.
Definition CURSOR_HANDLER_MOVE : Z := 2.

(** ** The data *)

(** A display mode: its size, its rate (an [f64]'s bits) and its flags. *)
Record DisplayMode := MkDisplayMode {
  width : Z;
  height : Z;
  refresh_rate_in_hz : Z;
  supports_edr : bool;
  supports_10bpc : bool;
}.

(** What the guest display reads of its client's core. An [f64] of a size and an [f32] of
    the colour space or a luminance are their bits, a name its UTF-8 bytes. *)
Record Core := MkCore {
  serial_num : Z;
  size_in_millimeters : Z * Z;
  red_primary : Z * Z;
  green_primary : Z * Z;
  blue_primary : Z * Z;
  white_point : Z * Z;
  origin : Z * Z;
  scale_factor : Z;
  min_nits : Z;
  max_nits : Z;
  max_sdr_nits : Z;
  config_epoch : Z;
  connection_type : Z;
  name : option (list byte);
  display_uuid : option (list byte);
  queue : bool;
  cursor_glyph_handler : bool;
  cursor_glyph_image_maker : bool;
  cursor_show_handler : bool;
  cursor_move_handler : bool;
  new_frame_event_handler : bool;
  core_protection_options : Z;
}.

(** What a guest display asks of the rest, in order. A block runs later, on the client's
    queue; its answer there is [run_block]'s. *)
Inductive Block : Type :=
| ShowBlock (show : Z)
| MoveBlock
| GlyphBlock (width height : Z) (rgba : list byte) (image : option (list Z)) (hot_spot : Z * Z)
| SleepBlock (asleep : Z).
Inductive Call : Type :=
| Poke (port : Z)
| Dispatch (b : Block)
| KernelTask
| ReadProfile (virtual_offset length : Z)
| CopyGlyph (virtual_offset length : Z)
| MakeImage (width height : Z)
| PreparedBacking (surface : Z)
| MappedSurface (surface : Z)
| NewView (format : Z)
| NewDescriptor (format width height : Z)
| NewTexture (format width height : Z)
| SpaceDirty
| PresentFrame (texture : bool) (format requirements : Z) (gamma : Z * Z * Z * Z)
    (matrix : option Z)
| SignalCurrentFrame
| UpdateResponsiveness
| Handler (b : Block).

(** *** The state *)

Record State := MkState {
  memory : GuestPtr.memory;
  page : Z;
  port : Z;
  device : bool;
  mode_list : option (list DisplayMode);
  asleep : Z;
  guest_color_space_dirty : bool;
  paused : bool;
  will_restore : bool;
  did_restore : bool;
  compositor_supports_live_resize : bool;
  guest_color_space : option (list byte);
  client : option Z;
  core : option Core;
  calls : list Call;
}.

Definition with_memory (m : GuestPtr.memory) (s : State) : State :=
  MkState m (page s) (port s) (device s) (mode_list s) (asleep s) (guest_color_space_dirty
    s) (paused s) (will_restore s) (did_restore s) (compositor_supports_live_resize s)
    (guest_color_space s) (client s) (core s) (calls s).
Definition with_modes (l : option (list DisplayMode)) (s : State) : State :=
  MkState (memory s) (page s) (port s) (device s) l (asleep s) (guest_color_space_dirty s)
    (paused s) (will_restore s) (did_restore s) (compositor_supports_live_resize s)
    (guest_color_space s) (client s) (core s) (calls s).
Definition with_asleep (v : Z) (s : State) : State :=
  MkState (memory s) (page s) (port s) (device s) (mode_list s) v (guest_color_space_dirty
    s) (paused s) (will_restore s) (did_restore s) (compositor_supports_live_resize s)
    (guest_color_space s) (client s) (core s) (calls s).
Definition with_space_dirty (b : bool) (s : State) : State :=
  MkState (memory s) (page s) (port s) (device s) (mode_list s) (asleep s) b (paused s)
    (will_restore s) (did_restore s) (compositor_supports_live_resize s) (guest_color_space
    s) (client s) (core s) (calls s).
Definition with_paused (b : bool) (s : State) : State :=
  MkState (memory s) (page s) (port s) (device s) (mode_list s) (asleep s)
    (guest_color_space_dirty s) b (will_restore s) (did_restore s)
    (compositor_supports_live_resize s) (guest_color_space s) (client s) (core s) (calls s).
Definition with_will_restore (b : bool) (s : State) : State :=
  MkState (memory s) (page s) (port s) (device s) (mode_list s) (asleep s)
    (guest_color_space_dirty s) (paused s) b (did_restore s)
    (compositor_supports_live_resize s) (guest_color_space s) (client s) (core s) (calls s).
Definition with_did_restore (b : bool) (s : State) : State :=
  MkState (memory s) (page s) (port s) (device s) (mode_list s) (asleep s)
    (guest_color_space_dirty s) (paused s) (will_restore s) b
    (compositor_supports_live_resize s) (guest_color_space s) (client s) (core s) (calls s).
Definition with_live_resize (b : bool) (s : State) : State :=
  MkState (memory s) (page s) (port s) (device s) (mode_list s) (asleep s)
    (guest_color_space_dirty s) (paused s) (will_restore s) (did_restore s) b
    (guest_color_space s) (client s) (core s) (calls s).
Definition with_space (d : option (list byte)) (s : State) : State :=
  MkState (memory s) (page s) (port s) (device s) (mode_list s) (asleep s)
    (guest_color_space_dirty s) (paused s) (will_restore s) (did_restore s)
    (compositor_supports_live_resize s) d (client s) (core s) (calls s).
Definition with_client (c : option Z) (k : option Core) (s : State) : State :=
  MkState (memory s) (page s) (port s) (device s) (mode_list s) (asleep s)
    (guest_color_space_dirty s) (paused s) (will_restore s) (did_restore s)
    (compositor_supports_live_resize s) (guest_color_space s) c k (calls s).
Definition with_core (k : option Core) (s : State) : State :=
  MkState (memory s) (page s) (port s) (device s) (mode_list s) (asleep s)
    (guest_color_space_dirty s) (paused s) (will_restore s) (did_restore s)
    (compositor_supports_live_resize s) (guest_color_space s) (client s) k (calls s).
Definition with_calls (cs : list Call) (s : State) : State :=
  MkState (memory s) (page s) (port s) (device s) (mode_list s) (asleep s)
    (guest_color_space_dirty s) (paused s) (will_restore s) (did_restore s)
    (compositor_supports_live_resize s) (guest_color_space s) (client s) (core s) cs.

(** A raise of the guest display's own, or of a part it calls. *)
Inductive Raise (R : Type) : Type := Own (k : GuestDisplayRaise) | OfPart (e : R).
Arguments Own {R} k.
Arguments OfPart {R} e.

(** What the guest display asks of the device and its kernel task, each answer after the
    calls before. *)
Class Kernel (R : Type) := {
  get_kernel_task : Memory.OnFault -> list Call -> outcome R ddeath unit;
  data_from_virtual_offset :
    Memory.OnFault -> Z -> Z -> list Call -> outcome R ddeath (option (list byte));
  copy_from_virtual_offset : Z -> Z -> list Call -> outcome R ddeath (list byte);
  enable_protected_content : bool;
}.

Section GuestDisplay.
Context {R : Type} `{Kernel R} {target : GuestRecords.Target}.
Local Abbreviation M := (Run State (Raise R) ddeath).

Definition fatal {A} (k : GuestDisplayDeath) : M A := die (OfGuestDisplay k).
Definition require_that (b : bool) (k : GuestDisplayDeath) : M unit :=
  if b then mret tt else fatal k.
Definition tell (c : Call) : M unit := modify (fun s => with_calls (calls s ++ [c]) s).
(** A part's answer after the calls before. *)
Definition part {A} (c : Call) (m : list Call -> outcome R ddeath A) : M A := fun s =>
  match m (calls s) with
  | Ret a => Ret (a, with_calls (calls s ++ [c]) s)
  | Raised e => Raised (OfPart e, with_calls (calls s ++ [c]) s)
  | Died d => Died d
  end.

(** ** The page *)

(** An access of the mapped page, whatever the pause ([raw_page]). *)
Definition read_page (n : nat) (off : Z) : M Z := fun s =>
  match GuestPtr.read_n (R := Empty_set) n (memory s) (page s) off (OfGuestDisplay NullPage) with
  | Ret v => Ret (v, s)
  | Raised e => match e with end
  | Died d => Died d
  end.
Definition write_page (n : nat) (off v : Z) : M unit := fun s =>
  match GuestPtr.write_n (R := Empty_set) (OfGuestDisplay NullPage) false n (memory s) (page s)
    off v (OfGuestDisplay NullPage) with
  | Ret m => Ret (tt, with_memory m s)
  | Raised e => match e with end
  | Died d => Died d
  end.
Definition r8 := read_page 1.
Definition r16 := read_page 2.
Definition r32 := read_page 4.
Definition r64 := read_page 8.
Definition w8 := write_page 1.
Definition w16 := write_page 2.
Definition w32 := write_page 4.
Definition w64 := write_page 8.
Definition load (off : Z) : M Z := fun s =>
  match GuestPtr.load_seqcst_u32 (R := Empty_set) (memory s) (page s) off
    (OfGuestDisplay NullPage) with
  | Ret v => Ret (v, s)
  | Raised e => match e with end
  | Died d => Died d
  end.
Definition fetch_or (off v : Z) : M unit := fun s =>
  match GuestPtr.fetch_or_u32 (R := Empty_set) (OfGuestDisplay NullPage) false (memory s) (page s)
    off v (OfGuestDisplay NullPage) with
  | Ret (_, m) => Ret (tt, with_memory m s)
  | Raised e => match e with end
  | Died d => Died d
  end.
Definition bump32 (off : Z) : M unit := v ← r32 off; w32 off (add32 v 1).
Definition bump64 (off : Z) : M unit := v ← r64 off; w64 off (add64 v 1).

(** The check every access through [page] makes first. *)
Definition checked : M unit :=
  paused ← asks paused; require_that (negb paused) PageWhilePaused.
Definition assert_running : M unit :=
  paused ← asks paused; require_that (negb paused) CommandWhilePaused.

(** The access to a colour matrix, inside a page that holds it. *)
Definition color_matrix_access (matrix row col width : Z) : M unit :=
  match GuestRecords.arch with
  | GuestRecords.X86_64 =>
      require_that (color_matrix_in_page matrix row col width) ColorMatrixOutsidePage
  | GuestRecords.AArch64 => mret tt
  end.

Definition ONE_F32 : Z := 0x3f800000.

(** What [new] writes of the page it mapped. *)
Definition init_page : M unit :=
  _ ← checked;
  port ← asks port;
  _ ← w16 PORT (Num.low_u16 port);
  _ ← w32 FIELD_1C FIELD_1C_INIT;
  w ← r8 COLOR_MATRIX_WRITE_INDEX;
  _ ← color_matrix_access w 0 0 4;
  _ ← w32 (color_matrix w 0 0) ONE_F32;
  _ ← color_matrix_access w 1 1 4;
  _ ← w32 (color_matrix w 1 1) ONE_F32;
  _ ← color_matrix_access w 2 2 4;
  _ ← w32 (color_matrix w 2 2) ONE_F32;
  w8 COLOR_MATRIX_DIRTY 1.

(** [new] over the address the device mapped the page at (0 where it could not). *)
Definition new (m : GuestPtr.memory) (port va : Z) : outcome (Raise R) ddeath State :=
  if va =? 0 then Raised (Own MapPage)
  else
    match init_page (MkState m va port true None 0 false false false false false None None None [])
    with
    | Ret (_, s) => Ret s
    | Raised (e, _) => Raised e
    | Died d => Died d
    end.

(** ** The settings and the modes *)

(** A field the syncs write only where it differs. *)
Inductive Field : Type :=
| F8 (off v : Z)
| F16 (off v : Z)
| F32 (off v : Z)
| F64 (off v : Z)
| FFloat (off v : Z)
| FBit (off mask : Z) (set : bool)
| FText (off : Z) (text : list byte) (n : nat).

(** [strncmp] of the page against [s] over [n] bytes, not equal: up to the first
    difference or a NUL both share. *)
Fixpoint strncmp_differs (off : Z) (s : list byte) (n : nat) : M bool :=
  match n with
  | O => mret false
  | S n =>
      a ← r8 off;
      let b := Z_of_byte (default x00 (head s)) in
      if negb (a =? b) then mret true
      else if a =? 0 then mret false
      else strncmp_differs (add64 off 1) (tail s) n
  end.
(** [strncpy]: up to the first NUL, then zeros. *)
Fixpoint strncpy (off : Z) (s : list byte) (ended : bool) (n : nat) : M unit :=
  match n with
  | O => mret tt
  | S n =>
      let b := if ended then x00 else default x00 (head s) in
      _ ← w8 off (Z_of_byte b);
      strncpy (add64 off 1) (tail s) (ended || bool_decide (b = x00)) n
  end.

(** A string and a NUL in [n] zeroed bytes; zeros alone for none or a longer one. *)
Definition c_string (n : nat) (s : option (list byte)) : list byte :=
  match s with
  | Some s => if (length s <? n)%nat then s ++ replicate (n - length s) x00 else replicate n x00
  | None => replicate n x00
  end.

(** Where the page differs from the field, stores it; answers whether it did. *)
Definition sync_field (f : Field) : M bool :=
  match f with
  | F8 off v => x ← r8 off; if x =? v then mret false else _ ← w8 off v; mret true
  | F16 off v => x ← r16 off; if x =? v then mret false else _ ← w16 off v; mret true
  | F32 off v => x ← r32 off; if x =? v then mret false else _ ← w32 off v; mret true
  | F64 off v => x ← r64 off; if x =? v then mret false else _ ← w64 off v; mret true
  | FFloat off v =>
      x ← r32 off; if Floats.eq_f32 x v then mret false else _ ← w32 off v; mret true
  | FBit off mask set =>
      x ← r8 off;
      if Bool.eqb (negb (Z.land x mask =? 0)) set then mret false
      else
        b ← r8 off;
        _ ← w8 off (if set then Z.lor b mask else Z.land b (255 - mask));
        mret true
  | FText off text n =>
      differs ← strncmp_differs off text n;
      if differs : bool then _ ← strncpy off text false n; mret true else mret false
  end.
Fixpoint sync_fields (fs : list Field) (changed : bool) : M bool :=
  match fs with
  | [] => mret changed
  | f :: fs => b ← sync_field f; sync_fields fs (changed || b)
  end.

Definition round_field (off from : Z) : M unit :=
  f ← r32 from; w16 off (Floats.round_u16 f).

(** The fields of the settings, before and after the two rounded sizes. *)
Definition size_fields (c : Core) : list Field := [
  F32 SERIAL_NUM (serial_num c);
  FFloat WIDTH_IN_MILLIMETERS (Floats.to_f32 (size_in_millimeters c).1);
  FFloat HEIGHT_IN_MILLIMETERS (Floats.to_f32 (size_in_millimeters c).2)].
Definition glyph_limit (c : Core) : Z :=
  if queue c && cursor_glyph_handler c then GLYPH_LIMIT else 0.
Definition cursor_handlers (c : Core) : Z :=
  Z.lor (if queue c && cursor_show_handler c then CURSOR_HANDLER_SHOW else 0)
    (if queue c && cursor_move_handler c then CURSOR_HANDLER_MOVE else 0).
Definition settings_fields (c : Core) : list Field := [
  FFloat COLOR_SPACE (red_primary c).1; FFloat (COLOR_SPACE + 4) (red_primary c).2;
  FFloat (COLOR_SPACE + 8) (green_primary c).1; FFloat (COLOR_SPACE + 12) (green_primary c).2;
  FFloat (COLOR_SPACE + 16) (blue_primary c).1; FFloat (COLOR_SPACE + 20) (blue_primary c).2;
  FFloat (COLOR_SPACE + 24) (white_point c).1; FFloat (COLOR_SPACE + 28) (white_point c).2;
  F16 ORIGIN (origin c).1; F16 (ORIGIN + 2) (origin c).2;
  F8 SCALE_FACTOR (scale_factor c);
  FFloat MIN_NITS (min_nits c); FFloat MAX_NITS (max_nits c);
  FFloat MAX_SDR_NITS (max_sdr_nits c);
  F64 CONFIG_EPOCH (config_epoch c);
  F32 CONNECTION_TYPE (connection_type c);
  FText NAME (c_string 14 (name c)) 14;
  FText DISPLAY_UUID (c_string 40 (display_uuid c)) 39;
  F16 CURSOR_GLYPH_MAX_WIDTH (glyph_limit c); F16 CURSOR_GLYPH_MAX_HEIGHT (glyph_limit c);
  F32 CURSOR_HANDLERS (cursor_handlers c)].

Definition sync_settings (client : option Core) : M bool :=
  match client with
  | None => fatal SettingsWithoutClient
  | Some c =>
      _ ← assert_running;
      _ ← checked;
      changed ← sync_fields (size_fields c) false;
      _ ← round_field ROUNDED_WIDTH_IN_MILLIMETERS WIDTH_IN_MILLIMETERS;
      _ ← round_field ROUNDED_HEIGHT_IN_MILLIMETERS HEIGHT_IN_MILLIMETERS;
      sync_fields (settings_fields c) changed
  end.

(** The fields of the entry of a mode, and of the modes from entry [i]. *)
Definition mode_fields (i : Z) (mode : DisplayMode) : list Field :=
  let e := mode_entry i in [
  F16 (add64 e MODE_WIDTH) (width mode);
  F16 (add64 e MODE_HEIGHT) (height mode);
  F32 (add64 e MODE_REFRESH_RATE) (Floats.refresh_16_16 (refresh_rate_in_hz mode));
  FBit (add64 e MODE_FLAGS) MODE_FLAG_SUPPORTS_10BPC (supports_10bpc mode);
  FBit (add64 e MODE_FLAGS) MODE_FLAG_SUPPORTS_EDR (supports_edr mode)].
Fixpoint modes_fields (i : Z) (modes : list DisplayMode) : list Field :=
  match modes with
  | [] => []
  | mode :: modes => mode_fields i mode ++ modes_fields (i + 1) modes
  end.

Definition sync_mode_list : M bool :=
  list_ ← asks mode_list;
  match list_ with
  | None => fatal NoModeList
  | Some list_ =>
      _ ← assert_running;
      _ ← checked;
      count ← r16 MODE_LIST_COUNT;
      _ ← require_that (count <=? MAX_MODES) ModeCountTooLarge;
      let modes := take (Z.to_nat MAX_MODES) list_ in
      changed ← sync_field (F16 MODE_LIST_COUNT (Z.of_nat (length modes)));
      changed ← sync_fields (modes_fields 0 modes) changed;
      _ ← modify (with_modes None);
      mret changed
  end.

(** ** The protection options and the colour space *)

Definition store_protection_options (options : Z) : M unit :=
  alive ← asks device;
  _ ← require_that alive ProtectionWithoutDevice;
  w64 PROTECTION_OPTIONS (if enable_protected_content then options else 0).
Definition set_protection_options (options : Z) : M unit := store_protection_options options.
Definition protection_options : M Z := r64 PROTECTION_OPTIONS.

Definition compositor_parameters (config_epoch : Z) (origin : Z * Z) (scale_factor : Z) : M unit :=
  assert_running.

(** The kernel task, where the device is alive. *)
Definition kernel_task (on : Memory.OnFault) : M bool :=
  alive ← asks device;
  if alive : bool then _ ← part KernelTask (get_kernel_task on); mret true else mret false.

Definition update_guest_color_space_locked (on : Memory.OnFault) : M unit :=
  _ ← modify (with_space_dirty true);
  _ ← modify (with_space None);
  length ← r32 GUEST_ICC_PROFILE_LENGTH;
  if length =? 0 then mret tt
  else
    task ← kernel_task on;
    data ← (if task : bool then
              off ← r64 GUEST_ICC_PROFILE_VIRTUAL_OFFSET;
              n ← r32 GUEST_ICC_PROFILE_LENGTH;
              part (ReadProfile off n) (data_from_virtual_offset on off n)
            else mret None);
    modify (with_space data).

Definition set_guest_icc_profile_length (length virtual_offset : Z) : M unit :=
  _ ← w64 GUEST_ICC_PROFILE_VIRTUAL_OFFSET virtual_offset;
  _ ← w32 GUEST_ICC_PROFILE_LENGTH length;
  update_guest_color_space_locked Memory.Return.

(** ** The connect and ack machine *)

Definition is_some {A} (o : option A) : bool := match o with Some _ => true | None => false end.

Definition poke : M unit :=
  alive ← asks device;
  port ← asks port;
  if alive : bool then tell (Poke port) else mret tt.

(** The state 0: with a client and modes, the settings, the modes, the options and the
    colour space go into the page, and an ack is expected. *)
Definition disconnected (on : Memory.OnFault) (client : option Core) : M (Z * Z) :=
  modes ← asks mode_list;
  out ←
    (match client, modes with
     | Some c, Some _ =>
         _ ← sync_settings (Some c);
         _ ← sync_mode_list;
         _ ← store_protection_options (core_protection_options c);
         _ ← update_guest_color_space_locked on;
         _ ← checked;
         _ ← bump32 EXPECTED_ACK;
         _ ← w8 ACK_PENDING 1;
         mret (1, INTERRUPT_CONNECT)
     | _, _ => mret (0, 0)
     end);
  _ ← modify (with_did_restore false);
  mret out.

(** Any other state but 1: an update where there is one, then a disconnect where there is
    no client or no mode left. *)
Definition updating (client : option Core) (state : Z) : M (Z * Z) :=
  did_restore ← asks did_restore;
  count ← r16 MODE_LIST_COUNT;
  modes ← asks mode_list;
  match client with
  | Some c =>
      if is_some modes || (did_restore && negb (count =? 0)) ||
        (negb (state =? 2) && negb (count =? 0))
      then
        settings_changed ← sync_settings (Some c);
        modes_changed ← (if is_some modes then sync_mode_list else mret false);
        if settings_changed || modes_changed || (negb (state =? 2) && negb (count =? 0)) then
          _ ← checked;
          _ ← bump32 EXPECTED_ACK;
          _ ← w8 ACK_PENDING 1;
          mret (1, INTERRUPT_UPDATE)
        else mret (state, 0)
      else mret (state, 0)
  | None => mret (state, 0)
  end.
Definition connected (client : option Core) (state : Z) : M (Z * Z) :=
  out ← updating client state;
  _ ← checked;
  count ← r16 MODE_LIST_COUNT;
  out ←
    (if negb (is_some client) || (count =? 0) then
       _ ← w16 MODE_LIST_COUNT 0; mret (0, INTERRUPT_DISCONNECT)
     else mret out);
  _ ← modify (with_did_restore false);
  mret out.

(** The state read again where the ack was taken; [None] where one is still pending. *)
Fixpoint machine_loop (fuel : nat) (on : Memory.OnFault) (client : option Core)
    : M (option (Z * Z)) :=
  match fuel with
  | O => die OutOfFuel
  | S fuel =>
      _ ← checked;
      state ← r32 STATE;
      if state =? 0 then out ← disconnected on client; mret (Some out)
      else if state =? 1 then
        pending ← r8 ACK_PENDING;
        if pending =? 1 then _ ← w32 STATE state; mret None
        else _ ← w32 STATE 2; machine_loop fuel on client
      else out ← connected client state; mret (Some out)
  end.

(** Twice round where nobody else stores the state. *)
Definition MACHINE_FUEL : nat := 2.

Definition state_machine (on : Memory.OnFault) (client : option Core) : M unit :=
  paused ← asks paused;
  will_restore ← asks will_restore;
  if paused || will_restore then mret tt
  else
    out ← machine_loop MACHINE_FUEL on client;
    match out with
    | None => mret tt
    | Some (state, interrupt) =>
        _ ← checked;
        _ ← (if interrupt =? 0 then mret tt
             else
               enabled ← load ENABLED_INTERRUPTS;
               _ ← fetch_or RAISED_INTERRUPTS interrupt;
               if Z.land enabled interrupt =? 0 then mret tt else poke);
        w32 STATE state
    end.

(** ** The operations *)

(** [core_of] is the client's core as the device finds it, none for a device gone. *)
Definition set_client (on : Memory.OnFault) (new_client : option Z) (core_of : option Core)
    : M unit :=
  alive ← asks device;
  old ← asks client;
  _ ← require_that (match old, new_client with Some _, Some _ => false | _, _ => true end)
    ClientAlreadySet;
  let k := match new_client with Some _ => if alive : bool then core_of else None | None => None end in
  _ ← modify (with_client new_client k);
  keep ← asks core;
  state_machine on keep.

Definition set_mode_list (on : Memory.OnFault) (list_ : list DisplayMode) : M unit :=
  _ ← modify (with_modes (Some list_));
  keep ← asks core;
  state_machine on keep.

Definition ack (value : Z) : M unit :=
  _ ← assert_running;
  _ ← checked;
  pending ← r8 ACK_PENDING;
  if Z.land pending 1 =? 0 then raise (Own AckNothingPending)
  else
    expected ← r32 EXPECTED_ACK;
    if negb (value =? expected) then raise (Own AckUnexpected)
    else
      _ ← w32 LAST_ACK value;
      _ ← w8 ACK_PENDING 0;
      keep ← asks core;
      state_machine Memory.Return keep.

Definition pause : M unit :=
  paused ← asks paused;
  _ ← require_that (negb paused) PauseTwice;
  modify (with_paused true).
Definition unpause : M unit :=
  paused ← asks paused;
  _ ← require_that paused UnpauseRunning;
  _ ← modify (with_paused false);
  keep ← asks core;
  state_machine Memory.Die keep.
Definition begin_restore : M unit :=
  will_restore ← asks will_restore;
  _ ← require_that (negb will_restore) WillRestoreTwice;
  modify (with_will_restore true).

(** ** The page's rules *)

(** Where a mapped page lies: the accesses of its fields never fault. *)
Definition page_ok (s : State) : Prop :=
  GuestPtr.ZERO_REGION_END <= page s /\ page s mod 16 = 0 /\ page s + 0x4000 < M64.
Definition fld (n : nat) (s : State) (off : Z) : Z := get n (memory s) (page s + off).
Definition stored (n : nat) (off v : Z) (s : State) : State :=
  with_memory (put n (memory s) (page s + off) v) s.

(** A field stored, and the fields apart from it. *)
Definition clear (n : nat) (off : Z) (n' : nat) (off' : Z) : bool :=
  (off' + Z.of_nat n' <=? off) || (off + Z.of_nat n <=? off').
Lemma fld_stored n off v s : 0 <= v < 256 ^ Z.of_nat n -> fld n (stored n off v s) off = v.
Proof. apply get_put. Qed.
Lemma fld_stored_ne n n' off off' v s :
  clear n off n' off' = true -> fld n' (stored n off v s) off' = fld n' s off'.
Proof.
  unfold clear, fld, stored. cbn [memory page with_memory]. intros Hc. apply get_put_ne.
  apply orb_prop in Hc as [Hl|Hl]; to_props; lia.
Qed.
Lemma stored_within p a len n off v s m :
  page s = p -> (a <=? off) && (off + Z.of_nat n <=? a + len) = true ->
  same_outside (p + a) len m (memory s) -> same_outside (p + a) len m (memory (stored n off v s)).
Proof.
  intros <- Hw Hs. to_props. eapply same_outside_trans; [exact Hs|]. apply put_same_within; lia.
Qed.

Lemma check_page {D} s off len (d : D) :
  page_ok s -> 0 <= off -> 0 <= len -> off + len <= 0x4000 ->
  GuestPtr.check (R := Empty_set) (page s) off len d = Ret (page s + off).
Proof.
  unfold page_ok, GuestPtr.ZERO_REGION_END. intros (?&?&?) ???. apply GuestPtr.check_ok;
    unfold GuestPtr.ZERO_REGION_END; lia.
Qed.
Lemma twp_read n off Q X s :
  page_ok s -> 0 <= off -> off + Z.of_nat n <= 0x4000 ->
  Q (fld n s off) s -> twp (read_page n off) Q X s.
Proof.
  intros Hp ?? HQ. unfold twp, read_page, GuestPtr.read_n. by rewrite check_page by (lia || done).
Qed.
Lemma twp_write n off v Q X s :
  page_ok s -> 0 <= off -> off + Z.of_nat n <= 0x4000 ->
  Q tt (stored n off v s) -> twp (write_page n off v) Q X s.
Proof.
  intros Hp ?? HQ. unfold twp, write_page, GuestPtr.write_n. cbn. by rewrite check_page by (lia || done).
Qed.
Lemma atomic_page {D} s off (d : D) :
  page_ok s -> 0 <= off -> off mod 4 = 0 -> off + 4 <= 0x4000 ->
  GuestPtr.atomic_address (R := Empty_set) (page s) off d = Ret (page s + off).
Proof.
  intros Hp ???. unfold GuestPtr.atomic_address. rewrite check_page by (lia || done). cbn.
  assert (GuestPtr.aligned (page s + off) 4 = true) as ->; [|done].
  unfold GuestPtr.aligned. change (sub64 4 1) with (2 ^ 2 - 1). rewrite land_mask by lia.
  apply Z.eqb_eq. destruct Hp as (_&Hm&_). change (2 ^ 2) with 4.
  Z.to_euclidean_division_equations; lia.
Qed.
Lemma twp_load off Q X s :
  page_ok s -> 0 <= off -> off mod 4 = 0 -> off + 4 <= 0x4000 ->
  Q (fld 4 s off) s -> twp (load off) Q X s.
Proof.
  intros Hp ??? HQ. unfold twp, load, GuestPtr.load_seqcst_u32.
  by rewrite atomic_page by (lia || done).
Qed.
Lemma twp_fetch_or off v Q X s :
  page_ok s -> 0 <= off -> off mod 4 = 0 -> off + 4 <= 0x4000 ->
  Q tt (stored 4 off (Z.lor (fld 4 s off) v) s) -> twp (fetch_or off v) Q X s.
Proof.
  intros Hp ??? HQ. unfold twp, fetch_or, GuestPtr.fetch_or_u32. cbn.
  by rewrite atomic_page by (lia || done).
Qed.
Lemma twp_require (b : bool) k Q X s : b = true -> Q tt s -> twp (require_that b k) Q X s.
Proof. by intros ->. Qed.
Lemma twp_checked Q X s : paused s = false -> Q tt s -> twp checked Q X s.
Proof. intros Hp HQ. unfold checked. twp_go. by apply twp_require; [rewrite Hp|]. Qed.
Lemma twp_running Q X s : paused s = false -> Q tt s -> twp assert_running Q X s.
Proof. intros Hp HQ. unfold assert_running. twp_go. by apply twp_require; [rewrite Hp|]. Qed.

(** ** The fields *)

(** The text [strncmp] compares and [strncpy] stores. *)
Fixpoint text_differs (page text : list byte) : bool :=
  match page with
  | [] => false
  | a :: page =>
      let b := default x00 (head text) in
      if negb (Z_of_byte a =? Z_of_byte b) then true
      else if Z_of_byte a =? 0 then false else text_differs page (tail text)
  end.
Fixpoint padded (text : list byte) (ended : bool) (n : nat) : list byte :=
  match n with
  | O => []
  | S n =>
      let b := if ended then x00 else default x00 (head text) in
      b :: padded (tail text) (ended || bool_decide (b = x00)) n
  end.

Fixpoint copied (m : GuestPtr.memory) (a : Z) (bs : list byte) : GuestPtr.memory :=
  match bs with
  | [] => m
  | b :: bs => copied (put 1 m a (Z_of_byte b)) (a + 1) bs
  end.

(** Where a field lies, whether a page differs from it, and the page with it. *)
Definition field_off (f : Field) : Z :=
  match f with
  | F8 off _ | F16 off _ | F32 off _ | F64 off _ | FFloat off _ | FBit off _ _ | FText off _ _ =>
      off
  end.
Definition field_len (f : Field) : nat :=
  match f with
  | F8 _ _ | FBit _ _ _ => 1
  | F16 _ _ => 2
  | F32 _ _ | FFloat _ _ => 4
  | F64 _ _ => 8
  | FText _ _ n => n
  end.
Definition differs (base : Z) (f : Field) (m : GuestPtr.memory) : bool :=
  let x := get (field_len f) m (base + field_off f) in
  match f with
  | F8 _ v | F16 _ v | F32 _ v | F64 _ v => negb (x =? v)
  | FFloat _ v => negb (Floats.eq_f32 x v)
  | FBit _ mask set => negb (Bool.eqb (negb (Z.land x mask =? 0)) set)
  | FText off text n => text_differs (GuestPtr.bytes_at m (base + off) n) text
  end.
Definition applied (base : Z) (f : Field) (m : GuestPtr.memory) : GuestPtr.memory :=
  match f with
  | F8 off v => put 1 m (base + off) v
  | F16 off v => put 2 m (base + off) v
  | F32 off v | FFloat off v => put 4 m (base + off) v
  | F64 off v => put 8 m (base + off) v
  | FBit off mask set =>
      let b := get 1 m (base + off) in
      put 1 m (base + off) (if set then Z.lor b mask else Z.land b (255 - mask))
  | FText off text n => copied m (base + off) (padded text false n)
  end.
Definition synced_field (base : Z) (f : Field) (m : GuestPtr.memory) : GuestPtr.memory :=
  if differs base f m then applied base f m else m.
Definition synced (base : Z) (fs : list Field) (m : GuestPtr.memory) : GuestPtr.memory :=
  fold_left (fun m f => synced_field base f m) fs m.
#[global] Strategy 100 [synced].

Lemma length_padded text ended n : length (padded text ended n) = n.
Proof. revert text ended. induction n; intros; cbn; by f_equal. Qed.

Lemma get_1 m a : get 1 m a = Z_of_byte (m a).
Proof. unfold get. rewrite GuestPtr.bytes_at_S. unfold GuestPtr.bytes_at. cbn [seq map of_le_bytes]. lia. Qed.
Lemma Z_of_byte_eqb a b : (Z_of_byte a =? Z_of_byte b) = bool_decide (a = b).
Proof.
  destruct (Z.eqb_spec (Z_of_byte a) (Z_of_byte b)) as [E|E]; symmetry.
  - apply bool_decide_eq_true. rewrite <- (byte_of_Z_of_byte a), E. apply byte_of_Z_of_byte.
  - apply bool_decide_eq_false. by intros ->.
Qed.

Lemma twp_strncmp n off text Q X s :
  page_ok s -> 0 <= off -> off + Z.of_nat n <= 0x4000 ->
  Q (text_differs (GuestPtr.bytes_at (memory s) (page s + off) n) text) s ->
  twp (strncmp_differs off text n) Q X s.
Proof.
  intros Hp. revert off text. induction n as [|n IH]; intros off text Ho Hn HQ; [done|].
  cbn [strncmp_differs]. rewrite twp_bind. apply twp_read; [done|lia..|]. unfold fld.
  rewrite get_1. rewrite GuestPtr.bytes_at_S in HQ. cbn [text_differs] in HQ.
  destruct (_ =? _); cbn [negb] in *; [|done]. destruct (_ =? 0); [done|].
  rewrite add64_small by (unfold M64; lia). apply IH; [lia..|].
  by rewrite Z.add_assoc.
Qed.
Lemma twp_strncpy n off text ended Q X s :
  page_ok s -> 0 <= off -> off + Z.of_nat n <= 0x4000 ->
  Q tt (with_memory (copied (memory s) (page s + off) (padded text ended n)) s) ->
  twp (strncpy off text ended n) Q X s.
Proof.
  revert off text ended s. induction n as [|n IH]; intros off text ended s Hp Ho Hn HQ.
  - unfold twp. cbn. by destruct s.
  - cbn [strncpy]. rewrite twp_bind. apply twp_write; [done|lia..|].
    rewrite add64_small by (unfold M64; lia). apply IH; [done|lia..|].
    cbn [padded copied] in HQ. unfold stored. cbn [memory page with_memory].
    by rewrite Z.add_assoc.
Qed.

Lemma with_memory_same s : with_memory (memory s) s = s.
Proof. by destruct s. Qed.
Lemma with_modes_same l s : mode_list s = l -> with_modes l s = s.
Proof. intros <-. by destruct s. Qed.
Lemma with_memory_twice m m' s : with_memory m (with_memory m' s) = with_memory m s.
Proof. done. Qed.
Lemma memory_with_memory m s : memory (with_memory m s) = m.
Proof. done. Qed.
Lemma page_with_memory m s : page (with_memory m s) = page s.
Proof. done. Qed.

Lemma twp_sync_field f Q X s :
  page_ok s -> 0 <= field_off f -> field_off f + Z.of_nat (field_len f) <= 0x4000 ->
  Q (differs (page s) f (memory s)) (with_memory (synced_field (page s) f (memory s)) s) ->
  twp (sync_field f) Q X s.
Proof.
  intros Hp Ho Hl. unfold synced_field, differs.
  destruct f as [off v|off v|off v|off v|off v|off mask b|off text n]; cbn [sync_field field_off field_len applied] in *;
    rewrite twp_bind.
  1-5: unfold r8, r16, r32, r64, w8, w16, w32, w64; intros HQ; (apply twp_read; [done|lia..|]);
    unfold fld; destruct (_ =? _) || destruct (Floats.eq_f32 _ _); cbn [negb] in *;
    [by rewrite twp_ret, <- (with_memory_same s)|];
    rewrite twp_bind; (apply twp_write; [done|lia..|]); by rewrite twp_ret.
  - unfold r8, w8. intros HQ. apply twp_read; [done|lia..|]. unfold fld.
    destruct (Bool.eqb _ _); cbn [negb] in *; [by rewrite twp_ret, <- (with_memory_same s)|].
    rewrite twp_bind. apply twp_read; [done|lia..|]. rewrite twp_bind.
    apply twp_write; [done|lia..|]. by rewrite twp_ret.
  - intros HQ. apply twp_strncmp; [done|lia..|]. destruct (text_differs _ _).
    + rewrite twp_bind. apply twp_strncpy; [done|lia..|]. by rewrite twp_ret.
    + by rewrite twp_ret, <- (with_memory_same s).
Qed.

Lemma copied_same_outside m a bs : same_outside a (Z.of_nat (length bs)) m (copied m a bs).
Proof.
  revert m a. induction bs as [|b bs IH]; intros m a; [by intros x _|]. cbn [copied length].
  apply (same_outside_trans _ _ _ (put 1 m a (Z_of_byte b))); [apply put_same_within; lia|].
  eapply same_outside_weaken; [apply IH|lia..].
Qed.
Lemma copied_bytes m a bs : GuestPtr.bytes_at (copied m a bs) a (length bs) = bs.
Proof.
  revert m a. induction bs as [|b bs IH]; intros m a; [done|]. cbn [copied length].
  rewrite GuestPtr.bytes_at_S, IH. f_equal. rewrite (copied_same_outside _ (a + 1) bs a) by lia.
  unfold put. cbn [le_bytes]. unfold GuestPtr.store_at.
  destruct (Z.leb_spec a a), (Z.ltb_spec a (a + Z.of_nat (length [byte_of_Z (Z_of_byte b)])));
    cbn in *; try lia. rewrite Z.sub_diag. cbn. apply byte_of_Z_of_byte.
Qed.
Lemma text_differs_padded text n : text_differs (padded text false n) text = false.
Proof.
  revert text. induction n as [|n IH]; intros text; [done|]. cbn [padded text_differs].
  rewrite Z.eqb_refl. cbn [negb]. destruct (Z.eqb_spec (Z_of_byte (default x00 (head text))) 0) as [|E];
    [done|]. rewrite bool_decide_false; [apply IH|]. intros E'. by rewrite E' in E.
Qed.

(** The values a field can hold; the one value that never agrees. *)
Definition field_ok (f : Field) : Prop :=
  match f with
  | F8 _ v => u8 v
  | F16 _ v => u16 v
  | F32 _ v | FFloat _ v => u32 v
  | F64 _ v => u64 v
  | FBit _ mask _ => mask = 1 \/ mask = 2
  | FText _ _ _ => True
  end.
Definition is_nan (f : Field) : bool :=
  match f with FFloat _ v => Floats.is_nan_f32 v | _ => false end.

Lemma applied_same_outside base f m :
  same_outside (base + field_off f) (Z.of_nat (field_len f)) m (applied base f m).
Proof.
  destruct f; cbn [field_off field_len applied]; try apply put_same_outside.
  pose proof (copied_same_outside m (base + off) (padded text false n)) as Hc.
  by rewrite length_padded in Hc.
Qed.

(** The two flag bits of a mode, set or cleared: each keeps the other. *)
Lemma flag_bits x mask (set : bool) :
  u8 x -> mask = 1 \/ mask = 2 ->
  let y := if set then Z.lor x mask else Z.land x (255 - mask) in
  u8 y /\ negb (Z.land y mask =? 0) = set /\
  negb (Z.land y (3 - mask) =? 0) = negb (Z.land x (3 - mask) =? 0).
Proof.
  intros Hx Hm. cbn zeta.
  assert (holds_from (fun x => forallb (fun mask => forallb (fun set =>
    let y := if set : bool then Z.lor x mask else Z.land x (255 - mask) in
    (0 <=? y) && (y <? 256) && Bool.eqb (negb (Z.land y mask =? 0)) set &&
    Bool.eqb (negb (Z.land y (3 - mask) =? 0)) (negb (Z.land x (3 - mask) =? 0)))
    [true; false]) [1; 2]) 256 0 = true) as Hall by (by vm_compute).
  pose proof (holds_from_all _ _ _ Hall x ltac:(lia)) as H1. cbn beta in H1.
  pose proof (proj1 (List.forallb_forall _ _) H1 mask) as H2.
  specialize (H2 ltac:(cbn; destruct Hm; auto)). pose proof (proj1 (List.forallb_forall _ _) H2 set) as H3.
  specialize (H3 ltac:(destruct set; cbn; auto)). cbn zeta in H3. clear -H3.
  apply andb_prop in H3 as [H3 Hc%Bool.eqb_prop]. apply andb_prop in H3 as [H3 Hb%Bool.eqb_prop].
  to_props. split_and!; done || lia.
Qed.

Lemma differs_applied base f m : field_ok f -> differs base f (applied base f m) = is_nan f.
Proof.
  destruct f as [off v|off v|off v|off v|off v|off mask set|off text n];
    cbn [field_ok differs applied is_nan field_off field_len]; intros Hv.
  1-4: rewrite get_put by (rewrite ?M32_val, ?M64_val in *; cbn; lia); by rewrite Z.eqb_refl.
  - rewrite get_put by (rewrite ?M32_val in *; cbn; lia). rewrite Floats.eq_f32_refl.
    apply negb_involutive.
  - pose proof (get_range 1 m (base + off)) as Hx.
    destruct (flag_bits (get 1 m (base + off)) mask set Hx Hv) as (Hy&Hs&_).
    rewrite get_put by exact Hy. rewrite Hs. by destruct set.
  - pose proof (copied_bytes m (base + off) (padded text false n)) as Hc.
    rewrite length_padded in Hc. rewrite Hc. apply text_differs_padded.
Qed.

(** Two fields that keep out of each other's way. *)
Definition apart (f g : Field) : bool :=
  (field_off f + Z.of_nat (field_len f) <=? field_off g) ||
  (field_off g + Z.of_nat (field_len g) <=? field_off f) ||
  match f, g with
  | FBit off mask _, FBit off' mask' _ => (off =? off') && (mask' =? 3 - mask)
  | _, _ => false
  end.
Lemma apart_differs base f g m :
  field_ok f -> apart f g = true -> differs base g (applied base f m) = differs base g m.
Proof.
  intros Hf Ha. unfold apart in Ha. apply orb_prop in Ha as [Ha|Ha].
  - assert (forall n, (n <= field_len g)%nat ->
      get n (applied base f m) (base + field_off g) = get n m (base + field_off g) /\
      GuestPtr.bytes_at (applied base f m) (base + field_off g) n =
        GuestPtr.bytes_at m (base + field_off g) n) as He.
    { intros n Hn. assert (GuestPtr.bytes_at (applied base f m) (base + field_off g) n =
        GuestPtr.bytes_at m (base + field_off g) n) as E;
        [|split; [unfold get; by rewrite E|done]].
      apply GuestPtr.bytes_at_ext. intros x Hx. apply applied_same_outside.
      apply orb_prop in Ha as [Ha|Ha]; to_props; lia. }
    destruct g; cbn [field_off field_len differs] in *;
      first [by rewrite (proj1 (He _ (le_n _)))|by rewrite (proj2 (He _ (le_n _)))].
  - destruct f as [| | | | |off mask set|], g as [| | | | |off' mask' set'|]; try done. to_props.
    cbn [differs applied field_off field_len]. subst off'.
    pose proof (get_range 1 m (base + off)) as Hx.
    destruct (flag_bits (get 1 m (base + off)) mask set Hx Hf) as (Hy&_&Hs).
    rewrite get_put by exact Hy. subst mask'. by rewrite Hs.
Qed.

Lemma is_nan_differs base f m : is_nan f = true -> differs base f m = true.
Proof.
  destruct f; cbn [is_nan differs]; try done. unfold Floats.is_nan_f32, Floats.eq_f32.
  destruct (Floats.f32 v); try done. intros _. unfold SpecFloat.SFeqb, SpecFloat.SFcompare.
  by destruct (Floats.f32 _).
Qed.
Lemma differs_synced_field base f m :
  field_ok f -> differs base f (synced_field base f m) = is_nan f.
Proof.
  intros Hf. unfold synced_field. destruct (differs base f m) eqn:E; [by apply differs_applied|].
  destruct (is_nan f) eqn:En; [|done]. by rewrite (is_nan_differs base f m En) in E.
Qed.
Lemma fields_apart_sym f g : apart f g = apart g f.
Proof.
  unfold apart. f_equal; [apply orb_comm|].
  destruct f, g; try done. rewrite Z.eqb_sym. f_equal.
  apply eq_true_iff_eq. rewrite !Z.eqb_eq. lia.
Qed.
Lemma apart_synced_field base f g m :
  field_ok f -> apart f g = true -> differs base g (synced_field base f m) = differs base g m.
Proof. intros. unfold synced_field. destruct (differs base f m); [by apply apart_differs|done]. Qed.

Fixpoint all_apart (fs : list Field) : bool :=
  match fs with
  | [] => true
  | f :: fs => forallb (apart f) fs && all_apart fs
  end.
Definition within (a len : Z) (f : Field) : Prop :=
  a <= field_off f /\ field_off f + Z.of_nat (field_len f) <= a + len.

Lemma apart_synced base f fs m :
  Forall field_ok fs -> forallb (apart f) fs = true ->
  differs base f (synced base fs m) = differs base f m.
Proof.
  revert m. induction fs as [|g fs IH]; intros m Hok Ha; [done|].
  apply andb_prop in Ha as [Ha Has]. inversion_clear Hok. cbn [synced fold_left].
  etrans; [by apply IH|]. apply apart_synced_field; [done|]. by rewrite fields_apart_sym.
Qed.
(** The page after a sync: every field that is no NaN agrees with it. *)
Lemma synced_differs base fs m :
  Forall field_ok fs -> all_apart fs = true ->
  Forall (fun f => differs base f (synced base fs m) = is_nan f) fs.
Proof.
  revert m. induction fs as [|f fs IH]; intros m Hok Ha; [constructor|].
  apply andb_prop in Ha as [Ha Has]. inversion_clear Hok. constructor.
  - cbn [synced fold_left]. etrans; [by apply apart_synced|]. by apply differs_synced_field.
  - by apply (IH (synced_field base f m)).
Qed.
Lemma synced_same_outside base a len fs m :
  Forall (within a len) fs -> same_outside (base + a) len m (synced base fs m).
Proof.
  revert m. induction fs as [|f fs IH]; intros m Hw; [apply same_outside_refl|]. inversion_clear Hw as [|?? [Ha Hl] Hw'].
  apply (same_outside_trans _ _ _ (synced_field base f m)); [|by apply IH].
  unfold synced_field. destruct (differs base f m); [|by apply same_outside_refl].
  eapply same_outside_weaken; [apply applied_same_outside|lia..].
Qed.

Lemma twp_sync_fields a len fs changed Q X s :
  page_ok s -> Forall (within a len) fs -> 0 <= a -> a + len <= 0x4000 ->
  Forall field_ok fs -> all_apart fs = true ->
  Q (changed || existsb (fun f => differs (page s) f (memory s)) fs)
    (with_memory (synced (page s) fs (memory s)) s) ->
  twp (sync_fields fs changed) Q X s.
Proof.
  intros Hp Hw Ha Hl. revert changed s Hp. induction fs as [|f fs IH]; intros changed s Hp Hok Hap HQ.
  - cbn [sync_fields existsb] in *. rewrite twp_ret. rewrite orb_false_r in HQ. by destruct s.
  - cbn [sync_fields]. inversion_clear Hw as [|?? [Hfa Hfl] Hw']. inversion_clear Hok.
    apply andb_prop in Hap as [Hap Haps]. rewrite twp_bind.
    apply twp_sync_field; [done|lia..|]. apply IH; try done. cbn [memory page with_memory].
    cbn [existsb] in HQ. rewrite orb_assoc in HQ.
    assert (existsb (fun f0 => differs (page s) f0 (synced_field (page s) f (memory s))) fs =
        existsb (fun f0 => differs (page s) f0 (memory s)) fs) as ->; [|exact HQ].
    clear -Hap H0. induction fs as [|g fs IH]; [done|]. cbn [existsb forallb] in *.
    apply andb_prop in Hap as [Hg Hgs]. by rewrite IH, apart_synced_field.
Qed.
(** A sync of what already agrees stores nothing. *)
Lemma synced_agreed base fs m :
  existsb (fun f => differs base f m) fs = false -> synced base fs m = m.
Proof.
  revert m. induction fs as [|f fs IH]; intros m Hd; [done|]. cbn [existsb] in Hd.
  apply orb_false_elim in Hd as [Hf Hfs]. cbn [synced fold_left].
  unfold synced_field at 2. rewrite Hf. by apply IH.
Qed.

Definition cross (fs gs : list Field) : bool := forallb (fun f => forallb (apart f) gs) fs.

Lemma existsb_differs base gs m m' :
  Forall (fun g => differs base g m' = differs base g m) gs ->
  existsb (fun g => differs base g m') gs = existsb (fun g => differs base g m) gs.
Proof. induction 1 as [|g gs Hg _ IH]; [done|]. cbn [existsb]. by rewrite Hg, IH. Qed.
Lemma differs_applied_apart base f gs m :
  field_ok f -> forallb (apart f) gs = true ->
  Forall (fun g => differs base g (applied base f m) = differs base g m) gs.
Proof.
  intros Hf Ha. apply list.Forall_forall. intros g Hg. apply apart_differs; [done|].
  apply (proj1 (List.forallb_forall _ _) Ha). by apply list_elem_of_In.
Qed.
Lemma differs_synced_apart base fs gs m :
  Forall field_ok fs -> cross fs gs = true ->
  Forall (fun g => differs base g (synced base fs m) = differs base g m) gs.
Proof.
  intros Hf Hc. apply list.Forall_forall. intros g Hg. apply apart_synced; [done|].
  apply List.forallb_forall. intros f Hin. rewrite fields_apart_sym.
  pose proof (proj1 (List.forallb_forall _ _) Hc f Hin) as Ha.
  apply (proj1 (List.forallb_forall _ _) Ha). by apply list_elem_of_In.
Qed.
(** A field the sync keeps out of. *)
Lemma get_synced n base off fs m :
  forallb (fun f => (off + Z.of_nat n <=? field_off f) ||
    (field_off f + Z.of_nat (field_len f) <=? off)) fs = true ->
  get n (synced base fs m) (base + off) = get n m (base + off).
Proof.
  revert m. induction fs as [|f fs IH]; intros m Ha; [done|].
  apply andb_prop in Ha as [Ha Has]. cbn [synced fold_left].
  etrans; [by apply (IH (synced_field base f m))|]. unfold synced_field.
  destruct (differs base f m); [|done].
  apply (get_same_outside n _ _ _ _ _ (applied_same_outside base f m)).
  apply orb_prop in Ha as [Ha|Ha]; to_props; lia.
Qed.

(** ** The settings *)

Definition rounded_fields (m : GuestPtr.memory) (base : Z) : list Field := [
  F16 ROUNDED_WIDTH_IN_MILLIMETERS
    (Floats.round_u16 (get 4 m (base + WIDTH_IN_MILLIMETERS)));
  F16 ROUNDED_HEIGHT_IN_MILLIMETERS
    (Floats.round_u16 (get 4 m (base + HEIGHT_IN_MILLIMETERS)))].
Definition all_settings (c : Core) : list Field := size_fields c ++ settings_fields c.

Definition rounded (base : Z) (m : GuestPtr.memory) : GuestPtr.memory :=
  let m := put 2 m (base + ROUNDED_WIDTH_IN_MILLIMETERS)
    (Floats.round_u16 (get 4 m (base + WIDTH_IN_MILLIMETERS))) in
  put 2 m (base + ROUNDED_HEIGHT_IN_MILLIMETERS)
    (Floats.round_u16 (get 4 m (base + HEIGHT_IN_MILLIMETERS))).
(** The page with the settings of a client. *)
Definition settled (c : Core) (base : Z) (m : GuestPtr.memory) : GuestPtr.memory :=
  synced base (settings_fields c) (rounded base (synced base (size_fields c) m)).
Arguments settled : simpl never.

(** The values a display's settings have. *)
Definition core_ok (c : Core) : Prop :=
  Forall field_ok (all_settings c) /\ u64 (core_protection_options c).
Definition agrees (c : Core) (base : Z) (m : GuestPtr.memory) : Prop :=
  Forall (fun f => differs base f m = is_nan f) (all_settings c) /\
  get 2 m (base + ROUNDED_WIDTH_IN_MILLIMETERS) =
    Floats.round_u16 (get 4 m (base + WIDTH_IN_MILLIMETERS)) /\
  get 2 m (base + ROUNDED_HEIGHT_IN_MILLIMETERS) =
    Floats.round_u16 (get 4 m (base + HEIGHT_IN_MILLIMETERS)).

Lemma round_u16_range f : u16 (Floats.round_u16 f).
Proof. unfold Floats.round_u16, Num.low_u16. apply Z.mod_pos_bound. lia. Qed.

Lemma settings_apart c m base :
  all_apart (size_fields c) = true /\ all_apart (settings_fields c) = true /\
  cross (size_fields c) (settings_fields c) = true /\
  cross (rounded_fields m base) (all_settings c) = true.
Proof. by split_and!. Qed.
Lemma within_all a len fs :
  forallb (fun f => (a <=? field_off f) && (field_off f + Z.of_nat (field_len f) <=? a + len)) fs
    = true -> Forall (within a len) fs.
Proof.
  intros Hf. apply list.Forall_forall. intros f Hin%list_elem_of_In.
  pose proof (proj1 (List.forallb_forall _ _) Hf f Hin) as Hw. cbn beta in Hw. to_props. done.
Qed.
Lemma settings_within c :
  Forall (within 0 0xa9b) (size_fields c) /\ Forall (within 0 0xa9b) (settings_fields c).
Proof. split; by apply within_all. Qed.

Lemma agrees_settled c base m : core_ok c -> agrees c base (settled c base m).
Proof.
  intros [Hok _]. unfold all_settings in Hok. apply Forall_app in Hok as [Hs Ht].
  destruct (settings_apart c m base) as (As&At&Ac&_). unfold agrees, settled, rounded, all_settings. cbn zeta.
  set (m1 := synced base (size_fields c) m).
  set (w := Floats.round_u16 (get 4 m1 _)). set (m2 := put 2 m1 _ w).
  set (h := Floats.round_u16 (get 4 m2 _)). set (m3 := put 2 m2 _ h).
  assert (u16 w) as Hw by apply round_u16_range. assert (u16 h) as Hh by apply round_u16_range.
  split_and!.
  - apply Forall_app. split; [|by apply synced_differs].
    pose proof (synced_differs base (size_fields c) m Hs As) as H0. fold m1 in H0.
    pose proof (differs_applied_apart base (F16 ROUNDED_WIDTH_IN_MILLIMETERS w) (size_fields c) m1
      Hw ltac:(done)) as H1.
    pose proof (differs_applied_apart base (F16 ROUNDED_HEIGHT_IN_MILLIMETERS h) (size_fields c) m2
      Hh ltac:(done)) as H2.
    assert (cross (settings_fields c) (size_fields c) = true) as Ac' by done.
    pose proof (differs_synced_apart base (settings_fields c) (size_fields c) m3 Ht Ac') as H3.
    rewrite list.Forall_forall in *. intros f Hf. rewrite H3 by done.
    etrans; [by apply H2|]. etrans; [by apply H1|]. by apply H0.
  - rewrite !get_synced by done. unfold m3.
    rewrite (get_put_ne 2 2), (get_put_ne 2 4) by (unfold WIDTH_IN_MILLIMETERS,
      ROUNDED_WIDTH_IN_MILLIMETERS, ROUNDED_HEIGHT_IN_MILLIMETERS; lia).
    unfold m2. rewrite get_put by done.
    by rewrite (get_put_ne 2 4) by (unfold WIDTH_IN_MILLIMETERS, ROUNDED_WIDTH_IN_MILLIMETERS; lia).
  - rewrite !get_synced by done. unfold m3. rewrite get_put by done.
    by rewrite (get_put_ne 2 4) by (unfold HEIGHT_IN_MILLIMETERS, ROUNDED_HEIGHT_IN_MILLIMETERS; lia).
Qed.

Lemma Forall_existsb {A} (P Q : A -> bool) l :
  Forall (fun x => P x = Q x) l -> existsb P l = existsb Q l.
Proof. induction 1 as [|x l Hx _ IH]; [done|]. cbn [existsb]. by rewrite Hx, IH. Qed.

Lemma differs_rounded c base m :
  Forall (fun g => differs base g (rounded base m) = differs base g m) (settings_fields c).
Proof.
  unfold rounded. cbn zeta. set (w := Floats.round_u16 _). set (m2 := put 2 m _ w).
  set (h := Floats.round_u16 _).
  pose proof (differs_applied_apart base (F16 ROUNDED_WIDTH_IN_MILLIMETERS w)
    (settings_fields c) m (round_u16_range _) eq_refl) as H2.
  pose proof (differs_applied_apart base (F16 ROUNDED_HEIGHT_IN_MILLIMETERS h)
    (settings_fields c) m2 (round_u16_range _) eq_refl) as H3.
  rewrite list.Forall_forall in *. intros g Hg.
  etrans; [exact (H3 g Hg)|]. exact (H2 g Hg).
Qed.
Lemma twp_rounded {A} (k : M A) Q X s :
  page_ok s -> twp k Q X (with_memory (rounded (page s) (memory s)) s) ->
  twp (_ ← round_field ROUNDED_WIDTH_IN_MILLIMETERS WIDTH_IN_MILLIMETERS;
       _ ← round_field ROUNDED_HEIGHT_IN_MILLIMETERS HEIGHT_IN_MILLIMETERS; k) Q X s.
Proof.
  intros Hp HQ. unfold round_field. twp_go. apply twp_read; [done..|]. twp_go.
  apply twp_write; [done..|]. twp_go. apply twp_read; [done..|]. by apply twp_write.
Qed.
Lemma settled_answer c base m :
  core_ok c ->
  existsb (fun f => differs base f m) (size_fields c) ||
  existsb (fun f => differs base f (rounded base (synced base (size_fields c) m)))
    (settings_fields c) = existsb (fun f => differs base f m) (all_settings c).
Proof.
  intros [Hok _]. unfold all_settings in *. apply Forall_app in Hok as [Hs Ht]. rewrite existsb_app.
  f_equal. apply Forall_existsb. destruct (settings_apart c m base) as (_&_&Ac&_).
  pose proof (differs_rounded c base (synced base (size_fields c) m)) as H1.
  pose proof (differs_synced_apart base (size_fields c) (settings_fields c) m Hs Ac) as H2.
  rewrite list.Forall_forall in *. intros g Hg. by rewrite H1, H2.
Qed.

Lemma twp_sync_settings c Q X s :
  page_ok s -> paused s = false -> core_ok c ->
  Q (existsb (fun f => differs (page s) f (memory s)) (all_settings c))
    (with_memory (settled c (page s) (memory s)) s) ->
  twp (sync_settings (Some c)) Q X s.
Proof.
  intros Hp Hr Hc HQ. rewrite <- settled_answer in HQ by done. destruct Hc as [Hok _].
  apply Forall_app in Hok as [Hs Ht].
  destruct (settings_apart c (memory s) (page s)) as (As&At&_&_). destruct (settings_within c) as [Ws Wt].
  cbn [sync_settings]. twp_go. apply twp_running; [done|]. twp_go. apply twp_checked; [done|].
  rewrite twp_bind. apply (twp_sync_fields 0 0xa9b); [done..|]. cbn [orb].
  apply twp_rounded; [exact Hp|].
  apply (twp_sync_fields 0 0xa9b); [exact Hp|exact Wt|lia|lia|exact Ht|exact At|].
  rewrite !page_with_memory, !memory_with_memory, !with_memory_twice.
  exact HQ.
Qed.

(** A field the settings keep out of. *)
Lemma get_settled n c base off m :
  forallb (fun f => (off + Z.of_nat n <=? field_off f) ||
    (field_off f + Z.of_nat (field_len f) <=? off))
    (all_settings c ++ rounded_fields m base) = true ->
  get n (settled c base m) (base + off) = get n m (base + off).
Proof.
  intros Ha. rewrite forallb_app in Ha. apply andb_prop in Ha as [Ha Hr].
  unfold all_settings in Ha. rewrite forallb_app in Ha. apply andb_prop in Ha as [Hs Ht].
  cbn [rounded_fields forallb field_off field_len] in Hr.
  apply andb_prop in Hr as [Hw [Hh _]%andb_prop]. rewrite orb_true_iff, !Z.leb_le in Hw, Hh.
  unfold settled, rounded. rewrite get_synced by done.
  rewrite !get_put_ne by lia. by apply get_synced.
Qed.

(** The fields of a mode list lie in their entries, apart from each other and from the
    settings. *)
Lemma mode_fields_within i mode :
  0 <= i < 128 -> Forall (within (0x210 + 16 * i) 16) (mode_fields i mode) /\
  all_apart (mode_fields i mode) = true.
Proof.
  intros Hi. unfold mode_fields, MODE_WIDTH, MODE_HEIGHT, MODE_REFRESH_RATE, MODE_FLAGS.
  rewrite mode_entry_at, !add64_small by (unfold M64; lia). split.
  - repeat first [apply List.Forall_nil|apply List.Forall_cons; [unfold within; cbn [field_off field_len]; lia|]].
  - cbn. unfold apart. cbn [field_off field_len].
    repeat match goal with |- context [?a + Z.of_nat ?n <=? ?b] =>
      first [rewrite (proj2 (Z.leb_le (a + Z.of_nat n) b)) by (cbn; lia)
            |rewrite (proj2 (Z.leb_gt (a + Z.of_nat n) b)) by (cbn; lia)] end.
    cbn. by rewrite Z.eqb_refl.
Qed.

Lemma all_apart_app fs gs :
  all_apart fs = true -> all_apart gs = true -> cross fs gs = true -> all_apart (fs ++ gs) = true.
Proof.
  induction fs as [|f fs IH]; [done|]. cbn. intros Hf Hg Hc.
  apply andb_prop in Hf as [Hf Hfs]. apply andb_prop in Hc as [Hc Hcs].
  by rewrite forallb_app, Hf, Hc, IH.
Qed.
Lemma cross_regions a la b lb fs gs :
  Forall (within a la) fs -> Forall (within b lb) gs -> a + la <= b \/ b + lb <= a ->
  cross fs gs = true.
Proof.
  intros Hf Hg Hab. apply List.forallb_forall. intros f Hin%list_elem_of_In.
  apply List.forallb_forall. intros g Hin'%list_elem_of_In. rewrite list.Forall_forall in *.
  destruct (Hf f Hin), (Hg g Hin'). unfold apart.
  destruct (Z.leb_spec (field_off f + Z.of_nat (field_len f)) (field_off g)); [done|].
  destruct (Z.leb_spec (field_off g + Z.of_nat (field_len g)) (field_off f)); [done|]. lia.
Qed.
Lemma Forall_within a l b k fs :
  Forall (within b k) fs -> a <= b -> b + k <= a + l -> Forall (within a l) fs.
Proof. intros Hf ??. eapply list.Forall_impl; [exact Hf|]. unfold within. lia. Qed.

Lemma modes_fields_within i modes :
  0 <= i -> i + Z.of_nat (length modes) <= 128 ->
  Forall (within (0x210 + 16 * i) (16 * Z.of_nat (length modes))) (modes_fields i modes) /\
  all_apart (modes_fields i modes) = true.
Proof.
  revert i. induction modes as [|mode modes IH]; intros i Hi Hn; [done|]. cbn [modes_fields length] in *.
  destruct (mode_fields_within i mode) as [Hm Ha]; [lia|]. destruct (IH (i + 1)) as [Hms Has]; [lia..|].
  split.
  - apply Forall_app. split; (eapply Forall_within; [eassumption|lia..]).
  - apply all_apart_app; [done..|]. eapply cross_regions; [exact Hm|exact Hms|lia].
Qed.

Definition mode_ok (mode : DisplayMode) : Prop := u16 (width mode) /\ u16 (height mode).
Lemma modes_fields_ok i modes : Forall mode_ok modes -> Forall field_ok (modes_fields i modes).
Proof.
  intros Hm. revert i. induction Hm as [|mode modes [Hw Hh] _ IH]; intros i; [constructor|].
  cbn [modes_fields]. apply Forall_app. split; [|apply IH]. unfold mode_fields.
  repeat first [apply List.Forall_nil|apply List.Forall_cons]; cbn [field_ok]; auto.
  apply Floats.refresh_16_16_range.
Qed.

(** The fields of a list of modes: their count, then the entries. *)
Definition list_fields (list_ : list DisplayMode) : list Field :=
  let modes := take (Z.to_nat MAX_MODES) list_ in
  F16 MODE_LIST_COUNT (Z.of_nat (length modes)) :: modes_fields 0 modes.
Definition listed (list_ : list DisplayMode) (base : Z) (m : GuestPtr.memory) : GuestPtr.memory :=
  synced base (list_fields list_) m.
Arguments listed : simpl never.
Definition list_count (list_ : list DisplayMode) : Z := Z.min 128 (Z.of_nat (length list_)).

Lemma list_fields_ok list_ :
  Forall mode_ok list_ ->
  Forall (within 0x208 0x808) (list_fields list_) /\ Forall field_ok (list_fields list_) /\
  all_apart (list_fields list_) = true.
Proof.
  intros Hok. unfold list_fields, MODE_LIST_COUNT, MAX_MODES. change (Z.to_nat 128) with 128%nat.
  set (modes := take 128 list_). assert (length modes <= 128)%nat as Hn
    by (unfold modes; rewrite length_take; lia).
  destruct (modes_fields_within 0 modes) as [Hw Ha]; [lia..|].
  assert (Forall mode_ok modes) as Hm by (by apply Forall_take).
  assert (Forall (within 0x208 2) [F16 520 (Z.of_nat (length modes))]) as Hc
    by (apply List.Forall_cons; [unfold within; cbn; lia|constructor]).
  split_and!.
  - apply List.Forall_cons; [unfold within; cbn; lia|].
    eapply Forall_within; [exact Hw|lia..].
  - apply List.Forall_cons; [cbn; lia|]. by apply modes_fields_ok.
  - cbn [all_apart]. rewrite Ha, andb_true_r.
    pose proof (cross_regions 0x208 2 _ _ _ _ Hc Hw ltac:(lia)) as Hx. cbn [cross forallb] in Hx. by rewrite andb_true_r in Hx.
Qed.

Lemma twp_sync_mode_list list_ Q X s :
  page_ok s -> paused s = false -> mode_list s = Some list_ -> Forall mode_ok list_ ->
  fld 2 s MODE_LIST_COUNT <= MAX_MODES ->
  Q (existsb (fun f => differs (page s) f (memory s)) (list_fields list_))
    (with_modes None (with_memory (listed list_ (page s) (memory s)) s)) ->
  twp sync_mode_list Q X s.
Proof.
  intros Hp Hr Hl Hok Hc HQ. destruct (list_fields_ok list_ Hok) as (Hw&Hf&Ha).
  unfold sync_mode_list. twp_go. rewrite Hl. twp_go. apply twp_running; [done|]. twp_go.
  apply twp_checked; [done|]. twp_go. apply twp_read; [done..|]. twp_go.
  apply twp_require; [by apply Z.leb_le|].
  set (modes := take (Z.to_nat MAX_MODES) list_).
  pose proof (twp_sync_fields 0x208 0x808 (F16 MODE_LIST_COUNT (Z.of_nat (length modes))
    :: modes_fields 0 modes) false (fun b s => Q b (with_modes None s)) X s Hp Hw
    ltac:(lia) ltac:(lia) Hf Ha HQ) as Hs.
  cbn [sync_fields] in Hs. rewrite twp_bind in Hs |- *.
  eapply twp_mono; [|by intros|exact Hs]. cbn beta. intros b s1 H1. by rewrite twp_bind.
Qed.
Lemma get_listed n list_ base off m :
  Forall mode_ok list_ -> off + Z.of_nat n <= 0x208 \/ 0xa10 <= off ->
  get n (listed list_ base m) (base + off) = get n m (base + off).
Proof.
  intros Hok Ho. destruct (list_fields_ok list_ Hok) as (Hw&_&_).
  apply (get_same_outside n _ _ (base + 0x208) 0x808); [by apply synced_same_outside|lia].
Qed.
Lemma count_listed list_ base m :
  Forall mode_ok list_ -> get 2 (listed list_ base m) (base + MODE_LIST_COUNT) = list_count list_.
Proof.
  intros Hok. destruct (list_fields_ok list_ Hok) as (_&Hf&Ha).
  pose proof (synced_differs base (list_fields list_) m Hf Ha) as Hd. fold (listed list_ base m) in Hd.
  unfold list_fields in Hd. apply List.Forall_inv in Hd. cbn [differs is_nan field_len field_off] in Hd.
  apply negb_false_iff, Z.eqb_eq in Hd. rewrite Hd. unfold list_count, MAX_MODES.
  rewrite length_take. lia.
Qed.

(** What two memories share on the [len] bytes from [a]. *)
Definition same_on (a len : Z) (m m' : GuestPtr.memory) : Prop :=
  forall x, a <= x < a + len -> m' x = m x.
Definition clear_of (a len : Z) (fs : list Field) : bool :=
  forallb (fun f => (field_off f + Z.of_nat (field_len f) <=? a) || (a + len <=? field_off f)) fs.

Lemma synced_same_on base a len fs m :
  clear_of a len fs = true -> same_on (base + a) len m (synced base fs m).
Proof.
  revert m. induction fs as [|f fs IH]; intros m Hc x Hx; [done|].
  apply andb_prop in Hc as [Hc Hcs]. cbn [synced fold_left].
  etrans; [by apply (IH (synced_field base f m))|]. unfold synced_field.
  destruct (differs base f m); [|done]. apply applied_same_outside.
  apply orb_prop in Hc as [Hc|Hc]; to_props; lia.
Qed.
Lemma rounded_same_on base a len m :
  0x18 <= a -> same_on (base + a) len m (rounded base m).
Proof.
  intros Ha x Hx. unfold rounded. cbn zeta.
  rewrite (put_same_outside 2), (put_same_outside 2); [done|..];
    unfold ROUNDED_WIDTH_IN_MILLIMETERS, ROUNDED_HEIGHT_IN_MILLIMETERS; lia.
Qed.
Lemma settled_same_on c base m : same_on (base + 0x7c) 0x9f8 m (settled c base m).
Proof.
  intros x Hx. unfold settled.
  rewrite (synced_same_on base 0x7c 0x9f8 (settings_fields c)) by done.
  rewrite (rounded_same_on base 0x7c 0x9f8) by lia.
  by rewrite (synced_same_on base 0x7c 0x9f8 (size_fields c)) by done.
Qed.
Lemma differs_same_on base a len fs m m' :
  Forall (within a len) fs -> same_on (base + a) len m m' ->
  existsb (fun g => differs base g m') fs = existsb (fun g => differs base g m) fs.
Proof.
  intros Hw Hs. apply Forall_existsb. eapply list.Forall_impl; [exact Hw|]. intros g [Ha Hl].
  assert (forall n, (n <= field_len g)%nat -> GuestPtr.bytes_at m' (base + field_off g) n
    = GuestPtr.bytes_at m (base + field_off g) n) as Hb.
  { intros n Hn. apply GuestPtr.bytes_at_ext. intros x Hx. apply Hs. lia. }
  unfold differs, get.
  destruct g; cbn [field_off field_len] in *; by rewrite (Hb _ (le_n _)).
Qed.

(** ** The machine as an abstract one *)

(** The words of the page the machine moves. *)
Record View := MkView { v_state : Z; v_pending : Z; v_expected : Z; v_count : Z }.
Definition view (s : State) : View :=
  MkView (fld 4 s STATE) (fld 1 s ACK_PENDING) (fld 4 s EXPECTED_ACK) (fld 2 s MODE_LIST_COUNT).

(** What it sees when it runs: a client, a mode list and its length, whether the page
    differs from the client's settings and from the list, a restore done. *)
Record Event := MkEvent {
  e_client : bool;
  e_modes : option Z;
  e_settings : bool;
  e_list : bool;
  e_restored : bool;
}.
Definition event (client : option Core) (s : State) : Event :=
  MkEvent (match client with Some _ => true | None => false end)
    (list_count <$> mode_list s)
    (match client with
     | Some c => existsb (fun f => differs (page s) f (memory s)) (all_settings c)
     | None => false
     end)
    (match mode_list s with
     | Some l => existsb (fun f => differs (page s) f (memory s)) (list_fields l)
     | None => false
     end)
    (did_restore s).

Lemma event_client client s : e_client (event client s) = is_some client.
Proof. by destruct client. Qed.
Lemma event_modes client s : is_some (e_modes (event client s)) = is_some (mode_list s).
Proof. unfold event. cbn [e_modes]. by destruct (mode_list s). Qed.

(** The guest is told of modes it has to acknowledge. *)
Definition announced (count : Z) (v : View) : View := MkView 1 1 (add32 (v_expected v) 1) count.

(** The update of a connected guest display: its words, and whether it announces. *)
Definition update (e : Event) (state : Z) (v : View) : View * bool :=
  let some_left := negb (v_count v =? 0) in
  let resend := negb (state =? 2) && some_left in
  let due := e_client e && (is_some (e_modes e) || e_restored e && some_left || resend) in
  let changed := due && (e_settings e || is_some (e_modes e) && e_list e || resend) in
  let count := if due then default (v_count v) (e_modes e) else v_count v in
  (if changed then announced count v else MkView state (v_pending v) (v_expected v) count, changed).
Lemma update_state e state v :
  v_state (update e state v).1 = if (update e state v).2 then 1 else state.
Proof. unfold update. cbn [fst snd]. by destruct (_ && (_ || _)). Qed.
(** One run: the page's words after it, the interrupt it raises. *)
Definition handshake (e : Event) (v : View) : View * Z :=
  if v_state v =? 0 then
    match e_modes e with
    | Some count => if e_client e then (announced count v, INTERRUPT_CONNECT) else (v, 0)
    | None => (v, 0)
    end
  else if (v_state v =? 1) && (v_pending v =? 1) then (v, 0)
  else
    let '(v', changed) := update e (if v_state v =? 1 then 2 else v_state v) v in
    if negb (e_client e) || (v_count v' =? 0) then
      (MkView 0 (v_pending v') (v_expected v') 0, INTERRUPT_DISCONNECT)
    else (v', if changed then INTERRUPT_UPDATE else 0).
(** Whether the run takes the mode list. *)
Definition takes_modes (e : Event) (v : View) : bool :=
  e_client e && is_some (e_modes e) && negb ((v_state v =? 1) && (v_pending v =? 1)).

(** ** Its refinement *)

(** The device's parts answer or raise, and never end the process. *)
Definition kernel_answers (on : Memory.OnFault) : Prop :=
  (forall h, match get_kernel_task on h with Died _ => False | _ => True end) /\
  (forall a n h, match data_from_virtual_offset on a n h with Died _ => False | _ => True end).

Definition not_poke (c : Call) : Prop := match c with Poke _ => False | _ => True end.
(** What a run leaves as it was, whatever the page. *)
Record kept (s s' : State) : Prop := {
  kept_page : page s' = page s;
  kept_port : port s' = port s;
  kept_device : device s' = device s;
  kept_asleep : asleep s' = asleep s;
  kept_paused : paused s' = paused s;
  kept_will : will_restore s' = will_restore s;
  kept_resize : compositor_supports_live_resize s' = compositor_supports_live_resize s;
  kept_client : client s' = client s;
  kept_core : core s' = core s;
  kept_calls : exists cs, calls s' = calls s ++ cs /\ Forall not_poke cs;
}.
#[export] Instance kept_refl : Reflexive kept.
Proof. intros s. split; try done. exists []. by rewrite app_nil_r. Qed.
#[export] Instance kept_trans : Transitive kept.
Proof.
  intros a b c [] []. split; try congruence. destruct kept_calls0 as (cs&Hc&Hf), kept_calls1 as (ds&Hd&Hg).
  exists (cs ++ ds). rewrite Hd, Hc, app_assoc. split; [done|]. by apply Forall_app.
Qed.
Lemma kept_memory m s : kept s (with_memory m s).
Proof. split; try done. exists []. by rewrite app_nil_r. Qed.
Lemma kept_modes l s : kept s (with_modes l s).
Proof. split; try done. exists []. by rewrite app_nil_r. Qed.
Lemma kept_restore b s : kept s (with_did_restore b s).
Proof. split; try done. exists []. by rewrite app_nil_r. Qed.
Lemma kept_page_ok s s' : kept s s' -> page_ok s -> page_ok s'.
Proof. unfold page_ok. intros []. by rewrite kept_page0. Qed.

Lemma twp_part {A} c (m : list Call -> outcome R ddeath A) Q (X : Raise R -> State -> Prop) s :
  (match m (calls s) with Died _ => False | _ => True end) ->
  (forall a, Q a (with_calls (calls s ++ [c]) s)) ->
  (forall e, X e (with_calls (calls s ++ [c]) s)) -> twp (part c m) Q X s.
Proof. intros Hd HQ HX. unfold twp, part. by destruct (m (calls s)). Qed.
Lemma kept_call c s : not_poke c -> kept s (with_calls (calls s ++ [c]) s).
Proof. intros Hc. split; try done. exists [c]. split; [done|]. by apply List.Forall_cons. Qed.

(** The colour space: what it takes is the guest display's, the page stays as it is. *)
Definition space_taken (s s' : State) : Prop :=
  kept s s' /\ memory s' = memory s /\ mode_list s' = mode_list s /\ did_restore s' = did_restore s.
Lemma twp_update_space on Q (X : Raise R -> State -> Prop) s :
  page_ok s -> kernel_answers on ->
  (forall s', space_taken s s' -> Q tt s') -> (forall e s', space_taken s s' -> X e s') ->
  twp (update_guest_color_space_locked on) Q X s.
Proof.
  intros Hp [Hk Hd] HQ HX. unfold update_guest_color_space_locked. twp_go.
  apply twp_read; [done..|].
  assert (forall cs, Forall not_poke cs -> forall data,
    space_taken s (with_space data (with_calls (calls s ++ cs) (with_space None
      (with_space_dirty true s))))) as Ht.
  { intros cs Hcs data. split_and!; try done. split; try done. by exists cs. }
  specialize (Ht []) as Ht0. rewrite app_nil_r in Ht0.
  destruct (_ =? 0).
  { rewrite twp_ret. apply HQ. exact (Ht0 (List.Forall_nil _) None). }
  unfold kernel_task. twp_go. destruct (device _).
  - twp_go. apply twp_part; [apply Hk|intros _|intros e; apply HX; apply (Ht [KernelTask]);
      by apply List.Forall_cons]. twp_go.
    apply twp_read; [done..|]. twp_go. apply twp_read; [done..|].
    apply twp_part; [apply Hd|intros data|intros e]; cbn [calls with_calls];
      rewrite <- app_assoc; [apply HQ|apply HX]; apply (Ht [KernelTask; ReadProfile _ _]);
      repeat apply List.Forall_cons; done.
  - twp_go. apply HQ. exact (Ht0 (List.Forall_nil _) None).
Qed.

(** A guest display the machine can run on. *)
Record ready (client : option Core) (s : State) : Prop := {
  ready_page : page_ok s;
  ready_running : paused s = false;
  ready_core : match client with Some c => core_ok c /\ device s = true | None => True end;
  ready_modes : match mode_list s with Some l => Forall mode_ok l | None => True end;
}.
(** The count of the page, where the run writes the modes over it. *)
Definition counted (client : option Core) (s : State) : Prop :=
  takes_modes (event client s) (view s) = true -> fld 2 s MODE_LIST_COUNT <= MAX_MODES.
Lemma takes_modes_running client s :
  fld 4 s STATE <> 1 ->
  takes_modes (event client s) (view s) = is_some client && is_some (mode_list s).
Proof.
  intros H1. unfold takes_modes. change (v_state (view s)) with (fld 4 s STATE).
  by rewrite (proj2 (Z.eqb_neq _ _) H1), andb_true_r, event_client, event_modes.
Qed.

(** A run that ends with [out], up to the interrupt and the state it is about to store. *)
Record ran (e : Event) (s : State) (out : Z * Z) (s' : State) : Prop := {
  ran_out : out = (v_state (handshake e (view s)).1, (handshake e (view s)).2);
  ran_pending : fld 1 s' ACK_PENDING = v_pending (handshake e (view s)).1;
  ran_expected : fld 4 s' EXPECTED_ACK = v_expected (handshake e (view s)).1;
  ran_count : fld 2 s' MODE_LIST_COUNT = v_count (handshake e (view s)).1;
  ran_kept : kept s s';
  ran_modes : mode_list s' = if takes_modes e (view s) then None else mode_list s;
  ran_restore : did_restore s' = false;
  ran_raised : fld 4 s' RAISED_INTERRUPTS = fld 4 s RAISED_INTERRUPTS;
  ran_enabled : fld 4 s' ENABLED_INTERRUPTS = fld 4 s ENABLED_INTERRUPTS;
  ran_last : fld 4 s' LAST_ACK = fld 4 s LAST_ACK;
}.
(** A raise on the way: no ack is expected, nothing is announced. *)
Definition stopped (s s' : State) : Prop :=
  kept s s' /\ fld 4 s STATE = 0 /\ fld 4 s' STATE = 0 /\
  fld 1 s' ACK_PENDING = fld 1 s ACK_PENDING /\
  fld 4 s' EXPECTED_ACK = fld 4 s EXPECTED_ACK /\ fld 4 s' RAISED_INTERRUPTS = fld 4 s RAISED_INTERRUPTS.

Ltac offs := unfold STATE, ACK_PENDING, EXPECTED_ACK, MODE_LIST_COUNT, RAISED_INTERRUPTS,
  ENABLED_INTERRUPTS, LAST_ACK, PROTECTION_OPTIONS in *; lia.
Ltac fld_simp := unfold fld, stored;
  cbn [memory page with_memory with_modes with_did_restore];
  repeat first
    [ rewrite get_put by first [done|apply add32_range|lia]
    | rewrite get_put_ne by offs
    | rewrite get_settled by done
    | rewrite count_listed by done
    | rewrite get_listed by (done || offs) ].

Lemma twp_announce (out : Z * Z) Q X s :
  page_ok s -> paused s = false ->
  Q out (stored 1 ACK_PENDING 1 (stored 4 EXPECTED_ACK (add32 (fld 4 s EXPECTED_ACK) 1) s)) ->
  twp (_ ← checked; _ ← bump32 EXPECTED_ACK; _ ← w8 ACK_PENDING 1; mret out) Q X s.
Proof.
  intros Hp Hr HQ. twp_go. apply twp_checked; [done|]. unfold bump32. twp_go.
  apply twp_read; [done..|]. twp_go. apply twp_write; [done..|]. twp_go. by apply twp_write.
Qed.
Lemma kept_stored n off v s : kept s (stored n off v s).
Proof. apply kept_memory. Qed.

Lemma twp_disconnected on client Q (X : Raise R -> State -> Prop) s :
  ready client s -> counted client s -> kernel_answers on -> fld 4 s STATE = 0 ->
  (forall out s', ran (event client s) s out s' -> Q out s') ->
  (forall e s', stopped s s' -> X e s') ->
  twp (disconnected on client) Q X s.
Proof.
  intros [Hp Hr Hc Hm] Hn Hk Hz HQ HX. unfold counted in Hn.
  rewrite takes_modes_running in Hn by (by rewrite Hz). unfold disconnected. twp_go.
  assert (forall out, mode_list s = None \/ client = None -> out = (0, 0) ->
    Q out (with_did_restore false s)) as Hstay.
  { intros out Hno ->. apply HQ.
    assert (handshake (event client s) (view s) = (view s, 0) /\
      takes_modes (event client s) (view s) = false) as [Hh Ht].
    { unfold handshake, takes_modes. cbn [v_state view]. rewrite Hz. cbn [Z.eqb].
      unfold event. cbn [e_modes e_client].
      destruct Hno as [->| ->]; [by destruct client|]. by destruct (mode_list s). }
    split; rewrite ?Hh, ?Ht; try done. { cbn [view v_state fst snd]. by rewrite Hz. }
    apply kept_restore. }
  destruct client as [c|]; [|by apply Hstay; auto].
  destruct (mode_list s) as [l|] eqn:El; [|by apply Hstay; auto].
  destruct Hc as [Hc Hd]. twp_go. apply twp_sync_settings; [done..|]. twp_go.
  apply (twp_sync_mode_list l); [done..| |].
  { unfold fld. rewrite memory_with_memory, page_with_memory, get_settled by done. by apply Hn. }
  twp_go. unfold store_protection_options. twp_go. apply twp_require; [done|]. twp_go.
  apply twp_write; [done..|]. twp_go.
  match goal with |- twp (update_guest_color_space_locked on) _ _ ?s3 => set (s3' := s3) end.
  assert (kept s s3') as K3.
  { etrans; [|apply kept_stored]. etrans; [|apply kept_modes]. etrans; apply kept_memory. }
  set (opt := if enable_protected_content then _ else _) in s3'.
  assert (memory s3' = put 8 (listed l (page s) (settled c (page s) (memory s)))
    (page s + PROTECTION_OPTIONS) opt) as E3 by done.
  apply twp_update_space; [by eapply kept_page_ok|done|intros s4 (K4&M4&L4&_)|intros e s4 (K4&M4&_)].
  - assert (kept s s4) as K by by etrans. pose proof (kept_page _ _ K) as P4.
    apply twp_announce; [by eapply kept_page_ok|by rewrite (kept_paused _ _ K)|].
    twp_go. apply HQ. fold (fld 4 s4 EXPECTED_ACK).
    assert (fld 4 s4 EXPECTED_ACK = fld 4 s EXPECTED_ACK) as EE.
    { unfold fld. rewrite M4, P4, E3. by fld_simp. }
    assert (handshake (event (Some c) s) (view s) = (announced (list_count l) (view s),
      INTERRUPT_CONNECT) /\ takes_modes (event (Some c) s) (view s) = true) as [Hh Ht].
    { unfold handshake, takes_modes, event. cbn [v_state view e_modes e_client]. rewrite Hz, El.
      by split. }
    split; rewrite ?Hh, ?Ht; cbn [fst snd announced v_state v_pending v_expected v_count view];
      try done.
    + by fld_simp.
    + rewrite EE. by fld_simp.
    + fld_simp. rewrite M4, P4, E3. by fld_simp.
    + etrans; [exact K|]. etrans; [|apply kept_restore]. etrans; apply kept_stored.
    + fld_simp. rewrite M4, P4, E3. by fld_simp.
    + fld_simp. rewrite M4, P4, E3. by fld_simp.
    + fld_simp. rewrite M4, P4, E3. by fld_simp.
  - apply HX. assert (kept s s4) as K by by etrans. pose proof (kept_page _ _ K) as P4.
    split; [done|]. split; [exact Hz|]. rewrite <- Hz. unfold fld. rewrite M4, P4, E3.
    split_and!; by fld_simp.
Qed.

(** The middle of a run from a connected state, up to the disconnect. *)
Record updated (e : Event) (s s' : State) (v : View) : Prop := {
  upd_pending : fld 1 s' ACK_PENDING = v_pending v;
  upd_expected : fld 4 s' EXPECTED_ACK = v_expected v;
  upd_count : fld 2 s' MODE_LIST_COUNT = v_count v;
  upd_kept : kept s s';
  upd_modes : mode_list s' = if e_client e then None else mode_list s;
  upd_raised : fld 4 s' RAISED_INTERRUPTS = fld 4 s RAISED_INTERRUPTS;
  upd_enabled : fld 4 s' ENABLED_INTERRUPTS = fld 4 s ENABLED_INTERRUPTS;
  upd_last : fld 4 s' LAST_ACK = fld 4 s LAST_ACK;
}.

Lemma list_differs_settled c l base m :
  Forall mode_ok l ->
  existsb (fun f => differs base f (settled c base m)) (list_fields l)
  = existsb (fun f => differs base f m) (list_fields l).
Proof.
  intros Hok. destruct (list_fields_ok l Hok) as (Hw&_&_). apply (differs_same_on base 0x208 0x808); [done|].
  intros x Hx. apply settled_same_on. lia.
Qed.

(** The sync of the settings and, where there are any, of the modes. *)
Definition sync_both (c : Core) : M bool :=
  modes ← asks mode_list;
  settings_changed ← sync_settings (Some c);
  modes_changed ← (if is_some modes then sync_mode_list else mret false);
  mret (settings_changed || modes_changed).
Definition both (c : Core) (l : option (list DisplayMode)) (base : Z) (m : GuestPtr.memory) :=
  match l with
  | Some l => listed l base (settled c base m)
  | None => settled c base m
  end.
Lemma twp_sync_both {A} (k : bool -> M A) c Q X s :
  ready (Some c) s -> counted (Some c) s -> fld 4 s STATE <> 1 ->
  twp (k (e_settings (event (Some c) s) || is_some (mode_list s) && e_list (event (Some c) s))) Q X
    (with_modes None (with_memory (both c (mode_list s) (page s) (memory s)) s)) ->
  twp (settings_changed ← sync_settings (Some c);
       modes_changed ← (if is_some (mode_list s) then sync_mode_list else mret false);
       k (settings_changed || modes_changed)) Q X s.
Proof.
  intros [Hp Hr [Hc _] Hm] Hn H1 HQ. unfold counted in Hn. rewrite takes_modes_running in Hn by done.
  twp_go. apply twp_sync_settings; [done..|]. twp_go.
  unfold event in HQ. cbn [e_settings e_list] in HQ. destruct (mode_list s) as [l|] eqn:El; cbn [is_some both andb] in *.
  - twp_go. apply (twp_sync_mode_list l); [done..| |].
    { fld_simp. by apply Hn. }
    rewrite page_with_memory, memory_with_memory, list_differs_settled, with_memory_twice by done.
    exact HQ.
  - twp_go. rewrite with_modes_same in HQ by exact El. exact HQ.
Qed.
Lemma get_both n c l base off m :
  match l with Some l => Forall mode_ok l | None => True end ->
  off + Z.of_nat n <= 0x208 \/ 0xa10 <= off ->
  forallb (fun f => (off + Z.of_nat n <=? field_off f) ||
    (field_off f + Z.of_nat (field_len f) <=? off)) (all_settings c ++ rounded_fields m base) = true ->
  get n (both c l base m) (base + off) = get n m (base + off).
Proof.
  intros Hl Ho Hf. unfold both. destruct l; [rewrite get_listed by done|]; by apply get_settled.
Qed.

Lemma twp_updating client state Q (X : Raise R -> State -> Prop) s :
  ready client s -> counted client s -> fld 4 s STATE <> 1 ->
  (let '(v, changed) := update (event client s) state (view s) in
   forall s', updated (event client s) s s' v ->
     Q (if changed then (1, INTERRUPT_UPDATE) else (state, 0)) s') ->
  twp (updating client state) Q X s.
Proof.
  intros Hs Hn H1 HQ. pose proof Hs as [Hp Hr Hc Hm]. unfold updating. twp_go. apply twp_read; [done..|].
  twp_go. unfold update in HQ. cbn [view v_count] in HQ.
  pose proof (event_client client s) as Ec. pose proof (event_modes client s) as Em.
  assert (default (fld 2 s MODE_LIST_COUNT) (e_modes (event client s)) =
    default (fld 2 s MODE_LIST_COUNT) (list_count <$> mode_list s)) as Ed by done.
  assert (e_restored (event client s) = did_restore s) as Er by done.
  rewrite Ec, Em, Ed, Er in HQ. clear Ed Er.
  destruct client as [c|]; cbn [is_some andb] in *.
  2: { rewrite twp_ret. apply HQ. split; try done. }
  destruct (is_some (mode_list s) || _ || _) eqn:Edue; cbn [andb] in HQ.
  2: { rewrite twp_ret. apply HQ. split; try done.
       apply orb_false_elim in Edue as [[Edue _]%orb_false_elim _]. rewrite Ec. by destruct (mode_list s). }
  clear Edue. set (resend := negb (state =? 2) && _) in *.
  apply (twp_sync_both (fun b : bool => if b || resend then _ else _)); [done..|].
  set (s1 := with_modes None _).
  assert (kept s s1) as K by (etrans; [apply kept_memory|apply kept_modes]).
  assert (memory s1 = both c (mode_list s) (page s) (memory s)) as M1 by done.
  assert (page s1 = page s) as P1 by done.
  assert (fld 2 s1 MODE_LIST_COUNT =
    default (fld 2 s MODE_LIST_COUNT) (list_count <$> mode_list s)) as E1.
  { unfold fld at 1. rewrite M1, P1. unfold both.
    destruct (mode_list s); cbn [default fmap option_fmap option_map]; by fld_simp. }
  assert (forall n off, off + Z.of_nat n <= 0x208 \/ 0xa10 <= off ->
    forallb (fun f => (off + Z.of_nat n <=? field_off f) ||
      (field_off f + Z.of_nat (field_len f) <=? off))
      (all_settings c ++ rounded_fields (memory s) (page s)) = true ->
    fld n s1 off = fld n s off) as Ef.
  { intros n off Ho Hf. unfold fld. rewrite M1, P1. by apply get_both. }
  destruct (_ || resend).
  - apply twp_announce; [done..|]. apply HQ. rewrite (Ef 4%nat) by (done || offs).
    split; cbn [announced v_pending v_expected v_count]; try done.
    + by fld_simp.
    + by fld_simp.
    + rewrite <- E1. by fld_simp.
    + etrans; [exact K|]. etrans; apply kept_stored.
    + rewrite <- (Ef 4%nat RAISED_INTERRUPTS) by (done || offs). by fld_simp.
    + rewrite <- (Ef 4%nat ENABLED_INTERRUPTS) by (done || offs). by fld_simp.
    + rewrite <- (Ef 4%nat LAST_ACK) by (done || offs). by fld_simp.
  - rewrite twp_ret. apply HQ. split; cbn [v_pending v_expected v_count view]; try done;
      apply Ef; first [done|offs].
Qed.

Lemma twp_connected client Q (X : Raise R -> State -> Prop) s :
  ready client s -> counted client s -> fld 4 s STATE <> 0 -> fld 4 s STATE <> 1 ->
  (forall out s', ran (event client s) s out s' -> Q out s') ->
  twp (connected client (fld 4 s STATE)) Q X s.
Proof.
  intros Hs Hn H0 H1 HQ. pose proof Hs as [Hp Hr _ _]. unfold connected. twp_go.
  apply twp_updating; [done..|]. destruct (update _ _ _) as [v changed] eqn:Eu.
  assert (handshake (event client s) (view s) =
    if negb (is_some client) || (v_count v =? 0)
    then (MkView 0 (v_pending v) (v_expected v) 0, INTERRUPT_DISCONNECT)
    else (v, if changed then INTERRUPT_UPDATE else 0)) as Eh.
  { unfold handshake. change (v_state (view s)) with (fld 4 s STATE).
    rewrite (proj2 (Z.eqb_neq _ _) H0), (proj2 (Z.eqb_neq _ _) H1). cbn [andb]. rewrite Eu.
    by destruct client. }
  assert (takes_modes (event client s) (view s) = is_some client && is_some (mode_list s)) as Et.
  { by apply takes_modes_running. }
  assert (v_state v = if changed then 1 else fld 4 s STATE) as Ev.
  { pose proof (update_state (event client s) (fld 4 s STATE) (view s)) as Hu. by rewrite Eu in Hu. }
  intros s1 [Pp Pe Pc Pk Pm Pr Pn Pl]. twp_go. apply twp_checked; [by rewrite (kept_paused _ _ Pk)|].
  assert (page_ok s1) as Hp1 by (by eapply kept_page_ok). twp_go. apply twp_read; [done..|]. twp_go.
  rewrite Pc. assert (mode_list s1 = if takes_modes (event client s) (view s) then None else mode_list s)
    as Pm' by (rewrite Et, Pm, event_client; by destruct (is_some client), (mode_list s)).
  destruct (negb (is_some client) || (v_count v =? 0)) eqn:Ed.
  - twp_go. apply twp_write; [done..|]. twp_go. apply HQ.
    split; rewrite ?Eh; cbn [fst snd v_state v_pending v_expected v_count]; try done.
    + rewrite <- Pp. by fld_simp.
    + rewrite <- Pe. by fld_simp.
    + by fld_simp.
    + etrans; [exact Pk|]. etrans; [apply kept_stored|apply kept_restore].
    + rewrite <- Pr. by fld_simp.
    + rewrite <- Pn. by fld_simp.
    + rewrite <- Pl. by fld_simp.
  - twp_go. apply HQ. split; rewrite ?Eh; cbn [fst snd]; try done.
    + rewrite Ev. by destruct changed.
    + etrans; [exact Pk|apply kept_restore].
Qed.

Lemma differs_stored fs n off v s :
  Forall (within 0 0xa9b) fs -> 0xa9b <= off ->
  existsb (fun g => differs (page s) g (memory (stored n off v s))) fs
  = existsb (fun g => differs (page s) g (memory s)) fs.
Proof.
  intros Hw Ho. apply (differs_same_on (page s) 0 0xa9b); [done|]. intros x Hx. unfold stored.
  rewrite memory_with_memory. apply put_same_outside. lia.
Qed.
Lemma event_stored client n off v s :
  match mode_list s with Some l => Forall mode_ok l | None => True end -> 0xa9b <= off ->
  event client (stored n off v s) = event client s.
Proof.
  intros Hm Ho. unfold event. change (mode_list (stored n off v s)) with (mode_list s).
  change (did_restore (stored n off v s)) with (did_restore s).
  change (page (stored n off v s)) with (page s). f_equal.
  - destruct client as [c|]; [|done]. destruct (settings_within c) as [Hs Ht].
    apply differs_stored; [by apply Forall_app|done].
  - destruct (mode_list s) as [l|]; [|done]. destruct (list_fields_ok l Hm) as (Hw&_&_).
    apply differs_stored; [|done]. eapply Forall_within; [exact Hw|lia..].
Qed.

Lemma handshake_acked e v :
  v_state v = 1 -> v_pending v <> 1 ->
  handshake e (MkView 2 (v_pending v) (v_expected v) (v_count v)) = handshake e v /\
  takes_modes e (MkView 2 (v_pending v) (v_expected v) (v_count v)) = takes_modes e v.
Proof.
  intros Hs Hp. unfold handshake, takes_modes, update. cbn [v_state v_pending v_expected v_count].
  rewrite Hs, (proj2 (Z.eqb_neq _ _) Hp). by split.
Qed.

(** The whole loop: nothing while an ack is pending, else a run. *)
Lemma twp_machine_loop on client Q (X : Raise R -> State -> Prop) s :
  ready client s -> counted client s -> kernel_answers on ->
  (fld 4 s STATE = 1 -> fld 1 s ACK_PENDING = 1 -> Q None (stored 4 STATE 1 s)) ->
  ((v_state (view s) =? 1) && (v_pending (view s) =? 1) = false ->
    forall out s', ran (event client s) s out s' -> Q (Some out) s') ->
  (forall e s', stopped s s' -> X e s') ->
  twp (machine_loop MACHINE_FUEL on client) Q X s.
Proof.
  intros Hs Hn Hk HN HQ HX. pose proof Hs as [Hp Hr Hc Hm]. unfold MACHINE_FUEL. cbn [machine_loop].
  twp_go. apply twp_checked; [done|]. twp_go. apply twp_read; [done..|]. twp_go.
  cbn [view v_state v_pending] in HQ.
  destruct (Z.eqb_spec (fld 4 s STATE) 0) as [H0|H0].
  { rewrite twp_bind. apply twp_disconnected; [done..| |done]. intros out s' Hran. rewrite twp_ret.
    apply HQ; [by rewrite H0|done]. }
  destruct (Z.eqb_spec (fld 4 s STATE) 1) as [H1|H1]; cycle 1.
  { rewrite twp_bind. apply twp_connected; [done..|]. intros out s' Hran. rewrite twp_ret. by apply HQ. }
  twp_go. apply twp_read; [done..|]. twp_go. destruct (Z.eqb_spec (fld 1 s ACK_PENDING) 1) as [Ha|Ha].
  { twp_go. apply twp_write; [done..|]. rewrite twp_ret, H1. by apply HN. }
  rewrite twp_bind. apply twp_write; [done..|]. set (s1 := stored 4 STATE 2 s).
  assert (fld 4 s1 STATE = 2) as E2 by (unfold s1; by fld_simp).
  assert (fld 2 s1 MODE_LIST_COUNT = fld 2 s MODE_LIST_COUNT) as Ec by (unfold s1; by fld_simp).
  assert (fld 1 s1 ACK_PENDING = fld 1 s ACK_PENDING) as Ep by (unfold s1; by fld_simp).
  assert (fld 4 s1 EXPECTED_ACK = fld 4 s EXPECTED_ACK) as Ee by (unfold s1; by fld_simp).
  assert (ready client s1) as Hs1 by by split.
  assert (event client s1 = event client s) as Eev by (by apply event_stored; [|by vm_compute]).
  assert (view s1 = MkView 2 (v_pending (view s)) (v_expected (view s)) (v_count (view s))) as Ev
    by (unfold view; cbn [v_pending v_expected v_count]; by rewrite E2, Ep, Ee, Ec).
  destruct (handshake_acked (event client s) (view s) H1 Ha) as [Eh Et].
  assert (counted client s1) as Hn1 by (unfold counted; by rewrite Eev, Ev, Et, Ec).
  twp_go. apply twp_checked; [done|]. twp_go. apply twp_read; [done..|]. twp_go. rewrite E2.
  change (2 =? 0) with false. change (2 =? 1) with false. twp_go. rewrite <- E2 at 1. apply twp_connected; [done|done|by rewrite E2..|].
  intros out s' [Ro Rp Re Rc Rk Rm Rr Rra Ren Rl]. rewrite twp_ret. apply HQ; [done|].
  rewrite Eev, Ev, Eh in Ro, Rp, Re, Rc. rewrite Eev, Ev, Et in Rm.
  assert (kept s s1) as K1 by apply kept_stored.
  split; try done; [by etrans| | |]; [rewrite Rra|rewrite Ren|rewrite Rl]; unfold s1; by fld_simp.
Qed.

(** One run of the machine, as the abstract one has it. *)
Record runs (k : option Core) (s s' : State) : Prop := {
  runs_view : view s' = (handshake (event k s) (view s)).1;
  runs_raised : fld 4 s' RAISED_INTERRUPTS
    = Z.lor (fld 4 s RAISED_INTERRUPTS) (handshake (event k s) (view s)).2;
  runs_enabled : fld 4 s' ENABLED_INTERRUPTS = fld 4 s ENABLED_INTERRUPTS;
  runs_last : fld 4 s' LAST_ACK = fld 4 s LAST_ACK;
  runs_modes : mode_list s' =
    if takes_modes (event k s) (view s) then None else mode_list s;
  runs_restore : did_restore s' =
    if (v_state (view s) =? 1) && (v_pending (view s) =? 1) then did_restore s else false;
  runs_page : page s' = page s;
  runs_paused : paused s' = paused s;
  runs_will : will_restore s' = will_restore s;
  runs_device : device s' = device s;
  runs_client : client s' = client s /\ core s' = core s;
  runs_calls : exists cs, Forall not_poke cs /\ calls s' = calls s ++ cs ++
    (if negb (Z.land (fld 4 s ENABLED_INTERRUPTS) (handshake (event k s) (view s)).2 =? 0)
        && device s then [Poke (port s)] else []);
}.

Lemma handshake_range e v :
  u32 (v_state v) -> u32 (v_state (handshake e v).1) /\
  In (handshake e v).2 [0; INTERRUPT_CONNECT; INTERRUPT_DISCONNECT; INTERRUPT_UPDATE].
Proof.
  intros Hv. unfold handshake. rewrite M32_val in *.
  destruct (v_state v =? 0); [|destruct ((v_state v =? 1) && _); [cbn; split; [done|auto]|]].
  - destruct (e_modes e); [destruct (e_client e)|]; cbn; split; auto; lia.
  - pose proof (update_state e (if v_state v =? 1 then 2 else v_state v) v) as Hu.
    destruct (update _ _ _) as [v' changed]. cbn [fst snd] in Hu.
    destruct (_ || _); [cbn; split; [lia|auto]|]. cbn [fst snd]. rewrite Hu.
    destruct changed; cbn; (split; [|auto]); [lia|by destruct (v_state v =? 1)].
Qed.

Definition pokes (irq : Z) (s : State) : list Call :=
  if negb (Z.land (fld 4 s ENABLED_INTERRUPTS) irq =? 0) && device s then [Poke (port s)] else [].
Lemma with_calls_same s : with_calls (calls s) s = s.
Proof. by destruct s. Qed.
Lemma twp_interrupt irq Q (X : Raise R -> State -> Prop) s :
  page_ok s -> u32 irq ->
  (forall m, same_outside (page s + RAISED_INTERRUPTS) 4 (memory s) m ->
    get 4 m (page s + RAISED_INTERRUPTS) = Z.lor (fld 4 s RAISED_INTERRUPTS) irq ->
    Q tt (with_calls (calls s ++ pokes irq s) (with_memory m s))) ->
  twp (if irq =? 0 then mret tt
       else enabled ← load ENABLED_INTERRUPTS; _ ← fetch_or RAISED_INTERRUPTS irq;
            if Z.land enabled irq =? 0 then mret tt else poke) Q X s.
Proof.
  intros Hp Hi HQ. unfold pokes in HQ. destruct (Z.eqb_spec irq 0) as [->|Hz].
  - rewrite twp_ret. rewrite Z.land_0_r in HQ. cbn [negb Z.eqb andb] in HQ.
    specialize (HQ (memory s) (same_outside_refl _ _ _) ltac:(by rewrite Z.lor_0_r)).
    by rewrite app_nil_r, with_memory_same, with_calls_same in HQ.
  - twp_go. apply twp_load; [done..|]. twp_go. apply twp_fetch_or; [done..|].
    unfold stored. set (m := put 4 _ _ _).
    specialize (HQ m (put_same_outside 4 _ _ _)). unfold m in HQ at 1.
    rewrite get_put in HQ by (apply lor_u32; [apply (get_range 4)|done]). specialize (HQ eq_refl).
    destruct (Z.land _ irq =? 0); cbn [negb andb] in HQ.
    + rewrite twp_ret. rewrite app_nil_r in HQ. exact HQ.
    + unfold poke. twp_go. change (device (with_memory m s)) with (device s).
      destruct (device s); [unfold tell; rewrite twp_modify; exact HQ|].
      rewrite twp_ret. rewrite app_nil_r in HQ. exact HQ.
Qed.

Lemma twp_state_machine on k s :
  ready k s -> counted k s -> will_restore s = false -> kernel_answers on ->
  twp (state_machine on k) (fun _ s' => runs k s s') (fun _ s' => stopped s s') s.
Proof.
  intros Hs Hn Hw Hk. pose proof Hs as [Hp Hr _ _]. unfold state_machine. twp_go. rewrite Hr, Hw. cbn [orb].
  rewrite twp_bind. apply twp_machine_loop; [done..| | |done].
  - intros H1 Ha. rewrite twp_ret.
    assert (handshake (event k s) (view s) = (view s, 0) /\ takes_modes (event k s) (view s) = false)
      as [Eh Et].
    { unfold handshake, takes_modes. cbn [view v_state v_pending]. rewrite H1, Ha. cbn.
      by rewrite andb_false_r. }
    split; rewrite ?Eh, ?Et; cbn [fst snd]; try done.
    + unfold view. rewrite H1. f_equal; by fld_simp.
    + rewrite Z.lor_0_r. by fld_simp.
    + by fld_simp.
    + by fld_simp.
    + cbn [view v_state v_pending]. by rewrite H1, Ha.
    + exists []. rewrite Z.land_0_r. by rewrite app_nil_r.
  - intros Hnot out s1 [-> Rp Re Rc Rk Rm Rr Rra Ren Rl].
    destruct (handshake_range (event k s) (view s)) as [Hst Hirq];
      [apply (get_range 4)|].
    set (v := (handshake (event k s) (view s)).1) in *.
    set (irq := (handshake (event k s) (view s)).2) in *.
    assert (page_ok s1) as Hp1 by (by eapply kept_page_ok).
    twp_go. apply twp_checked; [by rewrite (kept_paused _ _ Rk)|].
    rewrite twp_bind. apply twp_interrupt; [done| |].
    { clear -Hirq. cbn in Hirq. rewrite M32_val. unfold INTERRUPT_CONNECT, INTERRUPT_DISCONNECT,
        INTERRUPT_UPDATE in Hirq. lia. }
    intros m Hm Em. apply twp_write; [exact Hp1|done..|]. destruct Rk.
    assert (forall n off, off + Z.of_nat n <= 0x100 \/ 0x104 <= off ->
      get n m (page s1 + off) = fld n s1 off) as Ef.
    { intros n off Ho. apply (get_same_outside n _ _ _ _ _ Hm). unfold RAISED_INTERRUPTS. lia. }
    assert (forall n off, off + Z.of_nat n <= STATE \/ STATE + 4 <= off ->
      fld n (stored 4 STATE (v_state v) (with_calls (calls s1 ++ pokes irq s1) (with_memory m s1))) off
      = get n m (page s1 + off)) as Es.
    { intros n off Ho. unfold fld, stored. cbn [memory page with_memory with_calls].
      rewrite get_put_ne by lia. done. }
    split; fold irq v; try done.
    + unfold view. rewrite (Es 1%nat ACK_PENDING), (Es 4%nat EXPECTED_ACK), (Es 2%nat MODE_LIST_COUNT)
        by offs. rewrite !Ef by offs. rewrite Rp, Re, Rc.
      assert (fld 4 (stored 4 STATE (v_state v) (with_calls (calls s1 ++ pokes irq s1)
        (with_memory m s1))) STATE = v_state v) as ->; [|by destruct v].
      unfold fld, stored. cbn [memory page with_memory with_calls]. by apply get_put.
    + rewrite Es by offs. by rewrite Em, Rra.
    + rewrite Es, Ef by offs. exact Ren.
    + rewrite Es, Ef by offs. exact Rl.
    + cbn [view v_state v_pending] in Hnot |- *. rewrite Hnot. exact Rr.
    + destruct kept_calls0 as (cs&Hcs&Hf). exists cs. split; [done|].
      unfold pokes. cbn [calls stored with_memory with_calls].
      rewrite Hcs, Ren, kept_device0, kept_port0. by rewrite app_assoc.
Qed.

(** A step that answers one way is a rewriting rule. *)
Lemma twp_Ret {A} (m : M A) a s s1 :
  twp m (fun x s' => x = a /\ s' = s1) (fun _ _ => False) s -> m s = Ret (a, s1).
Proof. unfold twp. destruct (m s) as [[x s']|[]|]; [by intros [-> ->]|done..]. Qed.
Lemma bind_Ret {A B} (m : M A) (k : A -> M B) a s s1 :
  m s = Ret (a, s1) -> (m ≫= k) s = k a s1.
Proof. intros Hm. by rewrite run_step, Hm. Qed.
Lemma bind_Died {A B} (m : M A) (k : A -> M B) d s : m s = Died d -> (m ≫= k) s = Died d.
Proof. intros Hm. by rewrite run_step, Hm. Qed.

(** A run that has the modes to write over more of them than the page has room for. *)
Definition overcounted (k : option Core) (s : State) : bool :=
  takes_modes (event k s) (view s) && (MAX_MODES <? fld 2 s MODE_LIST_COUNT).
Lemma overcounted_counted k s : overcounted k s = false -> counted k s.
Proof. unfold overcounted, counted. intros Ho Ht. rewrite Ht in Ho. cbn [andb] in Ho. by apply Z.ltb_ge in Ho. Qed.
Definition too_many {A} : outcome (Raise R * State) ddeath A := Died (OfGuestDisplay ModeCountTooLarge).

Lemma sync_mode_list_dies l s :
  page_ok s -> paused s = false -> mode_list s = Some l -> MAX_MODES < fld 2 s MODE_LIST_COUNT ->
  sync_mode_list s = too_many.
Proof.
  intros Hp Hr Hl Hn. unfold sync_mode_list.
  rewrite (bind_Ret _ _ (Some l) s s) by (apply twp_Ret; by rewrite twp_asks).
  rewrite (bind_Ret _ _ tt s s) by (apply twp_Ret; by apply twp_running).
  rewrite (bind_Ret _ _ tt s s) by (apply twp_Ret; by apply twp_checked).
  rewrite (bind_Ret _ _ (fld 2 s MODE_LIST_COUNT) s s) by (apply twp_Ret; by apply twp_read).
  apply bind_Died. by rewrite (proj2 (Z.leb_gt _ _) Hn).
Qed.
(** The two syncs, in either state, die at the second. *)
Lemma syncs_die {A} c l (k : bool -> bool -> M A) s :
  ready (Some c) s -> mode_list s = Some l -> MAX_MODES < fld 2 s MODE_LIST_COUNT ->
  (x ← sync_settings (Some c); y ← sync_mode_list; k x y) s = too_many.
Proof.
  intros [Hp Hr [Hc _] _] Hl Hn.
  set (s1 := with_memory (settled c (page s) (memory s)) s).
  erewrite (bind_Ret _ _ _ s s1) by (apply twp_Ret; by apply twp_sync_settings).
  apply bind_Died, (sync_mode_list_dies l); [done..|]. unfold s1. by fld_simp.
Qed.
Lemma disconnected_dies on c l s :
  ready (Some c) s -> mode_list s = Some l -> MAX_MODES < fld 2 s MODE_LIST_COUNT ->
  disconnected on (Some c) s = too_many.
Proof.
  intros Hs Hl Hn. unfold disconnected.
  rewrite (bind_Ret _ _ (Some l) s s) by (apply twp_Ret; by rewrite twp_asks).
  by apply bind_Died, (syncs_die c l (fun _ _ => _)).
Qed.
Lemma connected_dies c l state s :
  ready (Some c) s -> mode_list s = Some l -> MAX_MODES < fld 2 s MODE_LIST_COUNT ->
  connected (Some c) state s = too_many.
Proof.
  intros Hs Hl Hn. pose proof Hs as [Hp _ _ _]. unfold connected, updating. apply bind_Died.
  rewrite (bind_Ret _ _ (did_restore s) s s) by (apply twp_Ret; by rewrite twp_asks).
  rewrite (bind_Ret _ _ (fld 2 s MODE_LIST_COUNT) s s) by (apply twp_Ret; by apply twp_read).
  rewrite (bind_Ret _ _ (Some l) s s) by (apply twp_Ret; by rewrite twp_asks).
  cbn [is_some orb]. by apply (syncs_die c l (fun x y => _)).
Qed.
Lemma machine_loop_dies on c l s :
  ready (Some c) s -> mode_list s = Some l -> MAX_MODES < fld 2 s MODE_LIST_COUNT ->
  (v_state (view s) =? 1) && (v_pending (view s) =? 1) = false ->
  machine_loop MACHINE_FUEL on (Some c) s = too_many.
Proof.
  intros Hs Hl Hn Hw. pose proof Hs as [Hp Hr Hc Hm]. unfold MACHINE_FUEL. cbn [machine_loop].
  rewrite (bind_Ret _ _ tt s s) by (apply twp_Ret; by apply twp_checked).
  rewrite (bind_Ret _ _ (fld 4 s STATE) s s) by (apply twp_Ret; by apply twp_read).
  cbn [view v_state v_pending] in Hw.
  destruct (fld 4 s STATE =? 0); [by apply bind_Died, (disconnected_dies _ _ l)|].
  destruct (fld 4 s STATE =? 1); [|by apply bind_Died, (connected_dies _ l)].
  rewrite (bind_Ret _ _ (fld 1 s ACK_PENDING) s s) by (apply twp_Ret; by apply twp_read).
  cbn [andb] in Hw. rewrite Hw. set (s1 := stored 4 STATE 2 s).
  rewrite (bind_Ret _ _ tt s s1) by (apply twp_Ret; by apply twp_write).
  assert (fld 4 s1 STATE = 2) as E2 by (unfold s1; by fld_simp).
  rewrite (bind_Ret _ _ tt s1 s1) by (apply twp_Ret; by apply twp_checked).
  rewrite (bind_Ret _ _ (fld 4 s1 STATE) s1 s1) by (apply twp_Ret; by apply twp_read).
  rewrite E2. apply bind_Died, (connected_dies _ l); [by split|done|]. unfold s1. by fld_simp.
Qed.
Lemma state_machine_dies on k s :
  ready k s -> will_restore s = false -> overcounted k s = true -> state_machine on k s = too_many.
Proof.
  intros Hs Hw Ho. pose proof Hs as [_ Hr _ _]. unfold overcounted, takes_modes in Ho.
  rewrite event_client, event_modes in Ho. apply andb_prop in Ho as [Ho Hn%Z.ltb_lt].
  apply andb_prop in Ho as [Ho Hno%negb_true_iff].
  destruct k as [c|]; [|done]. destruct (mode_list s) as [l|] eqn:Hl; [|done].
  unfold state_machine.
  rewrite (bind_Ret _ _ (paused s) s s) by (apply twp_Ret; by rewrite twp_asks).
  rewrite (bind_Ret _ _ (will_restore s) s s) by (apply twp_Ret; by rewrite twp_asks).
  rewrite Hr, Hw. by apply bind_Died, (machine_loop_dies on c l).
Qed.

(** One run, whatever the page counts. *)
Lemma state_machine_ends on k s :
  ready k s -> will_restore s = false -> kernel_answers on ->
  if overcounted k s then state_machine on k s = too_many
  else match state_machine on k s with
  | Ret (_, s') => runs k s s'
  | Raised (_, s') => stopped s s'
  | Died _ => False
  end.
Proof.
  intros Hs Hw Hk. destruct (overcounted k s) eqn:Ho; [by apply state_machine_dies|].
  pose proof (twp_state_machine on k s Hs (overcounted_counted _ _ Ho) Hw Hk) as Ht. unfold twp in Ht.
  by destruct (state_machine on k s) as [[]|[]|].
Qed.

(** C9: the connect and ack machine is the abstract one. The conditions of a run: the guest
    display's page lies in memory, it is neither paused nor waiting for a restore, its client,
    if it has one, has settings in range and the device behind it, its modes are in range, and
    the parts it asks (the kernel task, the colour profile) answer or raise. Where the run
    takes the mode list and the guest has written a mode count above 128 the process ends with
    [ModeCountTooLarge], and that is the one way it ends it. Any other run ends, twice round
    at most: it moves the page's state, pending byte, expected ack and mode count as
    [handshake] says of what it sees, sets the interrupt's bits and pokes the device exactly
    when the guest enabled one of them, takes the mode list when it uses it, and leaves the
    guest's last ack and its enabled interrupts alone; or it raises, which only the colour
    space of a new connection does, and leaves the guest display disconnected and the acks
    and the interrupts as they were. *)
Theorem state_machine_refines on k s :
  ready k s -> will_restore s = false -> kernel_answers on ->
  if takes_modes (event k s) (view s) && (MAX_MODES <? v_count (view s))
  then state_machine on k s = Died (OfGuestDisplay ModeCountTooLarge)
  else match state_machine on k s with
  | Ret (_, s') => runs k s s'
  | Raised (_, s') => stopped s s'
  | Died _ => False
  end.
Proof. intros. by apply state_machine_ends. Qed.

(** ** The acks *)

(** The guest display with an ack taken. *)
Definition acked (v : Z) (s : State) : State := stored 1 ACK_PENDING 0 (stored 4 LAST_ACK v s).
Lemma acked_ready k v s : ready k s -> ready k (acked v s).
Proof. by intros []. Qed.
Lemma acked_view v s : view (acked v s) =
  MkView (fld 4 s STATE) 0 (fld 4 s EXPECTED_ACK) (fld 2 s MODE_LIST_COUNT).
Proof. unfold view, acked. f_equal; by fld_simp. Qed.
Lemma ack_step v s :
  page_ok s -> paused s = false ->
  ack v s =
    if Z.land (fld 1 s ACK_PENDING) 1 =? 0 then Raised (Own AckNothingPending, s)
    else if negb (v =? fld 4 s EXPECTED_ACK) then Raised (Own AckUnexpected, s)
    else state_machine Memory.Return (core s) (acked v s).
Proof.
  intros Hp Hr. unfold ack.
  rewrite (bind_Ret _ _ tt s s) by (apply twp_Ret; by apply twp_running).
  rewrite (bind_Ret _ _ tt s s) by (apply twp_Ret; by apply twp_checked).
  rewrite (bind_Ret _ _ (fld 1 s ACK_PENDING) s s) by (apply twp_Ret; by apply twp_read).
  destruct (_ =? 0); [done|].
  rewrite (bind_Ret _ _ (fld 4 s EXPECTED_ACK) s s) by (apply twp_Ret; by apply twp_read).
  destruct (negb _); [done|].
  rewrite (bind_Ret _ _ tt s (stored 4 LAST_ACK v s)) by (apply twp_Ret; by apply twp_write).
  rewrite (bind_Ret _ _ tt _ (acked v s)) by (apply twp_Ret; by apply twp_write).
  rewrite (bind_Ret _ _ (core s) _ (acked v s)); [done|]. apply twp_Ret. by rewrite twp_asks.
Qed.

(** What is pending after a run that began with nothing pending. *)
Lemma handshake_pending e v :
  v_pending v = 0 ->
  let v' := (handshake e v).1 in
  v_pending v' = 0 /\ v_expected v' = v_expected v \/
  v_pending v' = 1 /\ v_expected v' = add32 (v_expected v) 1 /\
    (v_state v' = 1 \/ v_state v' = 0 /\ v_count v' = 0).
Proof.
  intros Hp. unfold handshake, update. rewrite Hp, andb_false_r. cbn zeta.
  destruct (v_state v =? 0).
  - destruct (e_modes e), (e_client e); cbn; auto 6.
  - destruct (_ && (_ || _)); destruct (_ || _); cbn; auto 6.
Qed.

(** An ack is taken where one is pending and the value is the one expected, else the
    page stays as it is. An ack taken is the guest's last one, and the machine runs from
    a page that expects none: the only ack pending after it is a new one, for the value
    after the guest's. A run that takes modes over a count above 128 ends the process. *)
Theorem ack_answers v s :
  ready (core s) s -> will_restore s = false -> kernel_answers Memory.Return ->
  match ack v s with
  | Ret (_, s') =>
      Z.land (fld 1 s ACK_PENDING) 1 <> 0 /\ fld 4 s EXPECTED_ACK = v /\
      fld 4 s' LAST_ACK = v /\ runs (core s) (acked v s) s' /\
      (fld 1 s' ACK_PENDING = 0 /\ fld 4 s' EXPECTED_ACK = v \/
       fld 1 s' ACK_PENDING = 1 /\ fld 4 s' EXPECTED_ACK = add32 v 1 /\
         (fld 4 s' STATE = 1 \/ fld 4 s' STATE = 0 /\ fld 2 s' MODE_LIST_COUNT = 0))
  | Raised (e, s') =>
      s' = s /\ e = Own AckNothingPending /\ Z.land (fld 1 s ACK_PENDING) 1 = 0 \/
      s' = s /\ e = Own AckUnexpected /\ fld 4 s EXPECTED_ACK <> v \/
      fld 4 s STATE = 0 /\ stopped (acked v s) s'
  | Died d => d = OfGuestDisplay ModeCountTooLarge /\ overcounted (core s) (acked v s) = true
  end.
Proof.
  intros Hs Hw Hk. pose proof Hs as [Hp Hr _ _]. rewrite ack_step by done.
  destruct (Z.eqb_spec (Z.land (fld 1 s ACK_PENDING) 1) 0) as [H0|H0]; [left; auto|].
  destruct (Z.eqb_spec v (fld 4 s EXPECTED_ACK)) as [Hv|Hv]; cbn [negb]; [|right; left; auto].
  pose proof (state_machine_ends Memory.Return _ _ (acked_ready _ v s Hs) Hw Hk) as Hm.
  destruct (overcounted _ _) eqn:Ho; [by rewrite Hm|].
  destruct (state_machine _ _ _) as [[[] s']|[e s']|]; [|right; right|done].
  - pose proof (handshake_pending (event (core s) (acked v s)) (view (acked v s))
      ltac:(by rewrite acked_view)) as Hh. cbv zeta in Hh.
    pose proof (runs_view _ _ _ Hm) as Hview. rewrite <- Hview, acked_view in Hh.
    cbn [v_state v_pending v_expected v_count view] in Hh. rewrite <- Hv in Hh.
    split_and!; try (done || exact Hm). rewrite (runs_last _ _ _ Hm). unfold acked. fld_simp. apply get_put.
    rewrite Hv. apply (get_range 4).
  - split; [|exact Hm]. pose proof (proj1 (proj2 Hm)) as Hz. rewrite <- Hz. unfold acked.
    by fld_simp.
Qed.

Lemma handshake_connects e v n :
  v_state v = 0 -> e_client e = true -> e_modes e = Some n ->
  handshake e v = (announced n v, INTERRUPT_CONNECT) /\ takes_modes e v = true.
Proof. intros Hs Hc Hm. unfold handshake, takes_modes. by rewrite Hs, Hc, Hm. Qed.
Lemma handshake_completes e v :
  v_state v = 1 -> v_pending v = 0 -> v_count v <> 0 -> e_client e = true -> e_modes e = None ->
  e_restored e = false -> handshake e v = (MkView 2 0 (v_expected v) (v_count v), 0).
Proof.
  intros Hs Hp Hn Hc Hm Hr. unfold handshake, update. rewrite Hs, Hp, Hc, Hm, Hr. cbn.
  by rewrite (proj2 (Z.eqb_neq _ _) Hn).
Qed.

(** C17: a connection. A guest display that is disconnected, neither paused nor waiting for a
    restore, with a client whose settings are in range, on a page in memory and a device whose
    parts answer or raise, is given a list of modes, not empty and in range. Where the guest
    has written a mode count above 128 the process ends with [ModeCountTooLarge]. Else
    [set_mode_list] either raises, and the guest display is still disconnected, its acks and
    interrupts as they were; or it answers, and the modes are announced: it expects an ack,
    has raised the connect interrupt and holds the modes' count. The guest's ack of the value
    the page expects then completes the connection: the guest display is connected, expects
    nothing, and raises nothing more. *)
Theorem connect_then_ack on c l s :
  ready (Some c) s -> will_restore s = false -> (forall on, kernel_answers on) ->
  core s = Some c -> fld 4 s STATE = 0 -> Forall mode_ok l -> l <> [] ->
  if MAX_MODES <? fld 2 s MODE_LIST_COUNT
  then set_mode_list on l s = Died (OfGuestDisplay ModeCountTooLarge)
  else match set_mode_list on l s with
  | Ret (_, s1) =>
      view s1 = MkView 1 1 (add32 (fld 4 s EXPECTED_ACK) 1) (list_count l) /\
      fld 4 s1 RAISED_INTERRUPTS = Z.lor (fld 4 s RAISED_INTERRUPTS) INTERRUPT_CONNECT /\
      mode_list s1 = None /\
      exists s2, ack (fld 4 s1 EXPECTED_ACK) s1 = Ret (tt, s2) /\
        view s2 = MkView 2 0 (fld 4 s1 EXPECTED_ACK) (list_count l) /\
        fld 4 s2 LAST_ACK = fld 4 s1 EXPECTED_ACK /\
        fld 4 s2 RAISED_INTERRUPTS = fld 4 s1 RAISED_INTERRUPTS
  | Raised (_, s1) => stopped (with_modes (Some l) s) s1
  | Died _ => False
  end.
Proof.
  intros [Hp Hr Hc _] Hw Hk Hcore Hz Hl Hne.
  assert (ready (Some c) (with_modes (Some l) s)) as Hs by by split.
  pose proof (state_machine_ends on (Some c) _ Hs Hw (Hk on)) as Hm.
  assert (overcounted (Some c) (with_modes (Some l) s) = (MAX_MODES <? fld 2 s MODE_LIST_COUNT))
    as Ho by (unfold overcounted; rewrite takes_modes_running by (change (fld 4 s STATE <> 1); by rewrite Hz); done).
  rewrite Ho in Hm.
  assert (set_mode_list on l s = state_machine on (Some c) (with_modes (Some l) s)) as ->
    by (rewrite <- Hcore; unfold set_mode_list; by rewrite !run_step).
  destruct (_ <? _); [exact Hm|].
  destruct (state_machine _ _ _) as [[[] s1]|[]|]; [|done..].
  destruct Hm as [Ev Er _ _ Em Ed Ep Epa Ew Ede [_ Ec] _].
  destruct (handshake_connects (event (Some c) (with_modes (Some l) s)) (view (with_modes (Some l) s))
    (list_count l) Hz eq_refl eq_refl) as [Eh Et].
  rewrite Eh in Ev, Er. rewrite Et in Em. cbn [fst snd] in Ev, Er.
  change (fld 4 s STATE) with (v_state (view (with_modes (Some l) s))) in Hz.
  rewrite Hz in Ed. cbn [Z.eqb andb] in Ed.
  split_and!; [exact Ev|exact Er|exact Em|].
  assert (0 < list_count l <= 128) as Hcount.
  { unfold list_count. destruct l; [done|]. cbn [length]. lia. }
  assert (page_ok s1) as Hp1 by (unfold page_ok; rewrite Ep; exact Hp).
  pose proof (f_equal v_state Ev) as E1. pose proof (f_equal v_pending Ev) as E2.
  pose proof (f_equal v_count Ev) as E3. cbn [view announced v_state v_pending v_count] in E1, E2, E3.
  rewrite ack_step by (exact Hp1 || by rewrite Epa). rewrite E2, Z.eqb_refl. cbn [Z.land Pos.land Z.eqb negb].
  assert (core s1 = Some c) as Ec1 by by rewrite Ec. rewrite Ec1.
  set (v := fld 4 s1 EXPECTED_ACK).
  assert (ready (Some c) s1) as Hs1.
  { split; [exact Hp1|by rewrite Epa|by rewrite Ede|by rewrite Em]. }
  assert (counted (Some c) (acked v s1)) as Hn1.
  { intros _. change (fld 2 (acked v s1) MODE_LIST_COUNT) with (v_count (view (acked v s1))).
    rewrite acked_view. cbn [v_count]. rewrite E3. unfold MAX_MODES. lia. }
  pose proof (twp_state_machine Memory.Return _ _ (acked_ready _ v _ Hs1) Hn1 (eq_trans Ew Hw)
    (Hk Memory.Return)) as Hm2.
  unfold twp in Hm2. destruct (state_machine _ _ _) as [[[] s2]|[e s2]|]; [|exfalso|done].
  - exists s2. split; [done|]. destruct Hm2 as [Ev2 Er2 _ El2 _ _ _ _ _ _ _ _].
    rewrite (handshake_completes _ (view (acked v s1))) in Ev2, Er2 by
      (rewrite ?acked_view; cbn [v_state v_pending v_count event e_client e_modes e_restored];
       first [done|by rewrite E3; lia|exact Ed|by change (mode_list (acked v s1)) with (mode_list s1); rewrite Em]).
    rewrite acked_view in Ev2. cbn [fst snd v_expected v_count] in Ev2, Er2. rewrite E3 in Ev2.
    split; [exact Ev2|]. rewrite El2, Er2, Z.lor_0_r. unfold acked. split.
    + fld_simp. apply get_put. apply (get_range 4).
    + by fld_simp.
  - pose proof (proj1 (proj2 Hm2)) as Hz2.
    assert (fld 4 (acked v s1) STATE = fld 4 s1 STATE) as E by (unfold acked; by fld_simp).
    rewrite E, E1 in Hz2. done.
Qed.

Lemma settled_same_outside c base m : same_outside base 0xa9b m (settled c base m).
Proof.
  destruct (settings_within c) as [Hs Ht]. unfold settled, rounded. cbn zeta. intros x Hx.
  rewrite (synced_same_outside base 0 0xa9b _ _ Ht), !put_same_outside,
    (synced_same_outside base 0 0xa9b _ _ Hs) by
    (unfold ROUNDED_WIDTH_IN_MILLIMETERS, ROUNDED_HEIGHT_IN_MILLIMETERS; lia).
  done.
Qed.

(** The sync of the settings of a client. It answers whether the page differed from
    them, and the page agrees with them after it: each field holds the client's value
    and the rounded sizes are the sizes' own. A second sync finds a difference only where
    a value is a NaN, which never equals what the page holds. Nothing but the settings is
    written: the interrupts, the modes, the colour matrices' fields, the cursor's, the
    acks and the state stay. *)
Theorem settings_synced c s :
  page_ok s -> paused s = false -> core_ok c ->
  exists s', sync_settings (Some c) s =
      Ret (existsb (fun f => differs (page s) f (memory s)) (all_settings c), s') /\
    agrees c (page s) (memory s') /\ s' = with_memory (memory s') s /\
    same_on (page s + 0x7c) 0x9f8 (memory s) (memory s') /\
    same_outside (page s) 0xa9b (memory s) (memory s') /\
    (exists s'', sync_settings (Some c) s' = Ret (existsb is_nan (all_settings c), s'')).
Proof.
  intros Hp Hr Hc. exists (with_memory (settled c (page s) (memory s)) s).
  pose proof (agrees_settled c (page s) (memory s) Hc) as Ha.
  split; [apply twp_Ret; by apply twp_sync_settings|]. rewrite memory_with_memory.
  split; [exact Ha|]. split; [done|]. split; [apply settled_same_on|].
  split; [apply settled_same_outside|]. eexists. apply twp_Ret.
  apply twp_sync_settings; [exact Hp|exact Hr|exact Hc|]. rewrite page_with_memory, memory_with_memory.
  split; [|reflexivity]. apply Forall_existsb. exact (proj1 Ha).
Qed.
End GuestDisplay.

(** ** Witnesses *)

(** A device whose kernel task has an empty colour profile; a display of 600 by 340
    millimetres named "D", with a cursor handler. *)
#[local] Instance sample_kernel : Kernel Empty_set := {|
  get_kernel_task _ _ := Ret tt;
  data_from_virtual_offset _ _ _ _ := Ret (Some []);
  copy_from_virtual_offset _ _ _ := Ret [];
  enable_protected_content := false;
|}.
#[local] Instance sample_target : GuestRecords.Target := GuestRecords.AArch64.
Definition sample_core : Core := {|
  serial_num := 7;
  size_in_millimeters := (0x4082c00000000000, 0x4075400000000000);
  red_primary := (0x3f23d70a, 0x3ea8f5c3);
  green_primary := (0x3e99999a, 0x3f19999a);
  blue_primary := (0x3e19999a, 0x3d75c28f);
  white_point := (0x3ea01a37, 0x3ea872b0);
  origin := (0, 0);
  scale_factor := 2;
  min_nits := 0;
  max_nits := 0x43fa0000;
  max_sdr_nits := 0x43fa0000;
  config_epoch := 3;
  connection_type := 1;
  name := Some [x44];
  display_uuid := None;
  queue := true;
  cursor_glyph_handler := true;
  cursor_glyph_image_maker := false;
  cursor_show_handler := true;
  cursor_move_handler := false;
  new_frame_event_handler := true;
  core_protection_options := 0;
|}.
Definition sample_mode : DisplayMode := MkDisplayMode 1920 1080 0x404e000000000000 false true.
Definition sample_state (l : option (list DisplayMode)) : State :=
  MkState (fun _ => x00) 0x100000000 0 true l 0 false false false false false None (Some 1)
    (Some sample_core) [].

Lemma sample_core_ok : core_ok sample_core.
Proof.
  split; [|done]. repeat apply List.Forall_cons; try apply List.Forall_nil; vm_compute; try done;
    split; done.
Qed.
Lemma sample_ready l : match l with Some l => Forall mode_ok l | None => True end ->
  ready (Some sample_core) (sample_state l).
Proof.
  intros Hl. split; [|done|split; [apply sample_core_ok|done]|exact Hl].
  split_and!; by vm_compute.
Qed.
Lemma sample_modes_ok : Forall mode_ok [sample_mode].
Proof. by repeat constructor. Qed.
Lemma sample_answers on : kernel_answers on.
Proof. by split. Qed.
#[local] Opaque sample_core sample_state.

Definition ends {A} (m : outcome (Raise Empty_set * State) ddeath (A * State)) : bool :=
  match m with Ret _ => true | _ => false end.
Definition raises {A} (m : outcome (Raise Empty_set * State) ddeath (A * State)) : bool :=
  match m with Raised _ => true | _ => false end.

(** The guest wrote a mode count of 129. *)
Definition sample_over : State := stored 2 MODE_LIST_COUNT 129 (sample_state (Some [sample_mode])).
Lemma sample_over_ready : ready (Some sample_core) sample_over.
Proof. by destruct (sample_ready (Some [sample_mode]) sample_modes_ok). Qed.
#[local] Opaque sample_over.

(** A connection: the guest display announces its one mode; over 129 modes the process ends. *)
Lemma state_machine_refines_witness :
  state_machine Memory.Return (Some sample_core) sample_over
    = Died (OfGuestDisplay ModeCountTooLarge) /\
  exists s', state_machine Memory.Return (Some sample_core) (sample_state (Some [sample_mode]))
      = Ret (tt, s') /\ view s' = MkView 1 1 1 1 /\
    fld 4 s' RAISED_INTERRUPTS = INTERRUPT_CONNECT /\ mode_list s' = None.
Proof.
  split.
  { pose proof (state_machine_refines Memory.Return (Some sample_core) sample_over
      sample_over_ready ltac:(by vm_compute) (sample_answers _)) as H.
    assert (takes_modes (event (Some sample_core) sample_over) (view sample_over) &&
      (MAX_MODES <? v_count (view sample_over)) = true) as Eo by by vm_compute. by rewrite Eo in H. }
  set (s := sample_state (Some [sample_mode])).
  pose proof (state_machine_refines Memory.Return (Some sample_core) s
    (sample_ready (Some [sample_mode]) sample_modes_ok) eq_refl (sample_answers _)) as H.
  assert (takes_modes (event (Some sample_core) s) (view s) && (MAX_MODES <? v_count (view s)) = false)
    as Eo by by vm_compute. rewrite Eo in H.
  assert (ends (state_machine Memory.Return (Some sample_core) s) = true) as E by by vm_compute.
  destruct (state_machine _ _ s) as [[[] s']|[]|]; [|done..]. exists s'. split; [done|].
  destruct H as [-> -> _ _ -> _ _ _ _ _ _ _]. split_and!; by vm_compute.
Defined.

(** A wrong ack: the guest display expects number 1. *)
Definition sample_announced : State :=
  match state_machine Memory.Return (Some sample_core) (sample_state (Some [sample_mode])) with
  | Ret (_, s) => s
  | _ => sample_state None
  end.
Lemma sample_announced_ready : ready (core sample_announced) sample_announced.
Proof.
  assert (core sample_announced = Some sample_core) as -> by by vm_compute.
  assert (page sample_announced = 0x100000000) as Ep by by vm_compute.
  split; [unfold page_ok; rewrite Ep; split_and!; by vm_compute|by vm_compute| |].
  - split; [apply sample_core_ok|by vm_compute].
  - assert (mode_list sample_announced = None) as -> by by vm_compute. done.
Qed.
#[local] Opaque sample_announced.
Lemma ack_answers_witness :
  (exists e s', ack 2 sample_announced = Raised (e, s') /\ e = Own AckUnexpected) /\
  (exists s', ack 1 sample_announced = Ret (tt, s') /\ fld 4 s' LAST_ACK = 1).
Proof.
  pose proof (fun v => ack_answers v sample_announced sample_announced_ready
    ltac:(by vm_compute) (sample_answers _)) as H. split.
  - specialize (H 2). assert (raises (ack 2 sample_announced) = true) as E by by vm_compute.
    destruct (ack 2 _) as [[]|[e s']|]; [done| |done]. exists e, s'. split; [done|].
    destruct H as [(_&_&Ha)|[(_&He&_)|(Hz&_)]]; [exfalso; revert Ha; by vm_compute|done|].
    exfalso; revert Hz; by vm_compute.
  - specialize (H 1). assert (ends (ack 1 sample_announced) = true) as E by by vm_compute.
    destruct (ack 1 _) as [[[] s']|[]|]; [|done..]. exists s'. split; [done|]. apply H.
Defined.

Lemma connect_then_ack_witness :
  exists s1 s2, set_mode_list Memory.Return [sample_mode] (sample_state None) = Ret (tt, s1) /\
    ack (fld 4 s1 EXPECTED_ACK) s1 = Ret (tt, s2) /\ fld 4 s2 STATE = 2.
Proof.
  set (s := sample_state None).
  pose proof (connect_then_ack Memory.Return sample_core [sample_mode] s (sample_ready None I)
    eq_refl sample_answers eq_refl ltac:(by vm_compute) sample_modes_ok ltac:(done)) as H.
  assert (MAX_MODES <? fld 2 s MODE_LIST_COUNT = false) as Eo by by vm_compute. rewrite Eo in H.
  assert (ends (set_mode_list Memory.Return [sample_mode] s) = true) as E by by vm_compute.
  destruct (set_mode_list _ _ s) as [[[] s1]|[]|]; [|done..].
  destruct H as (_&_&_&s2&Ha&Hv&_). exists s1, s2. split_and!; [done|done|].
  exact (f_equal v_state Hv).
Defined.

(** The settings of a page of zeros: it differs the first time, and agrees the second. *)
Lemma settings_synced_witness :
  exists s' s'', sync_settings (R := Empty_set) (Some sample_core) (sample_state None) = Ret (true, s') /\
    sync_settings (R := Empty_set) (Some sample_core) s' = Ret (false, s'').
Proof.
  set (s := sample_state None). destruct (sample_ready None I) as [Hp _ [Hc _] _].
  destruct (settings_synced (R := Empty_set) sample_core s Hp eq_refl Hc) as (s'&E1&_&_&_&_&s''&E2).
  exists s', s''. rewrite E1, E2. split; repeat f_equal; by vm_compute.
Defined.
End GuestDisplay.
