(* ===== verification/GuestCursor.v ===== *)
(** * GuestCursor: the guest's cursor
    (src/crates/reims-vgpu-core/src/display/guest_display/cursor.rs)

    The glyph the guest draws, checked, copied and handed to the host, the show byte, the
    doorbell and the position. A block handed to the client's queue is recorded, and
    [run_block] is what it does when it runs. The host's image for a glyph is the interface
    class [Images]: no image, one with no buffer, or one whose buffer has the glyph's
    [width * height] words. *)

From S2P Require Import Prelude Num MemoryKinds DisplayKinds DeviceKinds GuestRecords GuestPtr.
From S2P Require Import Floats DisplayPage GuestDisplay.
Open Scope Z_scope.

Module GuestCursor.
Import DisplayKinds DeviceKinds DisplayPage GuestDisplay.

(** Fields after stores, and stores within a part of the page. *)
Ltac page_fields :=
  repeat match goal with
    | H : 0 <= ?v < _ |- context [fld ?n (stored ?n ?off ?v ?s) ?off] => rewrite (fld_stored n off v s H)
    | |- context [fld ?n (stored ?k ?off ?v ?s) ?at_] =>
        rewrite (fld_stored_ne k n off at_ v s) by reflexivity
    end; try reflexivity.
Ltac stores_within :=
  repeat (apply stored_within; [reflexivity|reflexivity|]); try apply same_outside_refl.

Record CursorGlyphArgs := MkGlyph {
  virtual_offset : Z;
  mapped_length : Z;
  stride : Z;
  glyph_width : Z;
  glyph_height : Z;
  hot_spot_x : Z;
  hot_spot_y : Z;
  sum : Z;
}.

(** The largest local task. *)
Definition MAX_LOCAL_TASK_LENGTH : Z := 0x800000000.

(** The maker's answer: no image, or one with or without a buffer. *)
Class Images := { make_image : Z -> Z -> list Call -> option bool }.

(** ** The copy of a glyph *)

(** The word at [at_] of a block of [n] bytes that starts with [guest] and is zero after it;
    0 where it leaves the block. *)
Definition pixel_at (guest : list byte) (n at_ : Z) : Z :=
  if at_ + 4 <=? n then
    of_le_bytes (map (fun i => default x00 (guest !! Z.to_nat (at_ + i))) [0; 1; 2; 3])
  else 0.

(** Bytes 0 and 2 swapped. *)
Definition swapped (pixel : Z) : Z :=
  Z.lor (Z.lor (Z.land pixel 0xff00ff00) (shl32 (Z.land pixel 0xff) 16))
    (Z.land (Z.shiftr pixel 16) 0xff).

(** The loops over a row's pixels, and over the rows: the sum and the words written. *)
Fixpoint copy_row (guest : list byte) (n row x : Z) (count : nat) (acc : Z * list Z) : Z * list Z :=
  match count with
  | O => acc
  | S count =>
      let at_ := add64 row (mul64 x 4) in
      let pixel := pixel_at guest n at_ in
      copy_row guest n row (x + 1) count (add32 acc.1 pixel, acc.2 ++ [swapped pixel])
  end.
Fixpoint copy_rows (guest : list byte) (n stride width y : Z) (count : nat) (acc : Z * list Z)
    : Z * list Z :=
  match count with
  | O => acc
  | S count =>
      let row := mul64 y stride in
      copy_rows guest n stride width (y + 1) count
        (copy_row guest n row 0 (Z.to_nat width) acc)
  end.

Section GuestCursor.
Context {R : Type} `{Kernel R} `{Images} {target : GuestRecords.Target}.
Local Abbreviation M := (Run State (Raise R) ddeath).

(** The swap of the rows, and the sum's check. *)
Definition swap_glyph (args : CursorGlyphArgs) (guest : list byte) : M (list Z) :=
  let '(host_sum, out) :=
    copy_rows guest (mapped_length args) (stride args) (glyph_width args) 0
      (Z.to_nat (glyph_height args)) (0, []) in
  if negb (sum args =? 0) && negb (sum args =? host_sum) then raise (Own CursorCorrupt)
  else mret out.

(** The words of the glyph, in a buffer of the glyph's size. [task] is whether there is a
    kernel task. *)
Definition copy_guest_glyph (task : bool) (args : CursorGlyphArgs) : M (list Z) :=
  if MAX_LOCAL_TASK_LENGTH <? mapped_length args then raise (Own CursorBuffer)
  else
    guest ← (if task then
               part (CopyGlyph (virtual_offset args) (mapped_length args))
                 (copy_from_virtual_offset (virtual_offset args) (mapped_length args))
             else mret []);
    swap_glyph args guest.

(** ** The glyph *)

Definition dispatch (c : Core) (b : Block) : M unit :=
  _ ← require_that (queue c) QueueGone;
  tell (Dispatch b).

(** The image's words, or the bytes of a bitmap. *)
Definition hand_glyph (c : Core) (task : bool) (args : CursorGlyphArgs) : M unit :=
  let w := glyph_width args in
  let h := glyph_height args in
  let hot_spot := (hot_spot_x args, hot_spot_y args) in
  if cursor_glyph_handler c && cursor_glyph_image_maker c then
    before ← asks calls;
    _ ← tell (MakeImage w h);
    match make_image w h before with
    | None => raise (Own CursorImage)
    | Some buffer =>
        _ ← require_that buffer GlyphBufferNull;
        words ← copy_guest_glyph task args;
        dispatch c (GlyphBlock w h [] (Some words) hot_spot)
    end
  else if cursor_glyph_handler c then
    words ← copy_guest_glyph task args;
    dispatch c (GlyphBlock w h (concat (map (le_bytes 4) words)) None hot_spot)
  else fatal GlyphHandlerRaced.

Definition glyph_checks (args : CursorGlyphArgs) : bool :=
  let w := glyph_width args in
  let h := glyph_height args in
  if (w =? 0) || (GLYPH_LIMIT <? w) || (h =? 0) || (GLYPH_LIMIT <? h) then false
  else
    let product := sub64 h 1 * stride args in
    let needed := product mod M64 + mul64 w 4 in
    if (M64 <=? product) || (M64 <=? needed) then false
    else negb (mapped_length args <? needed mod M64).

Definition record_glyph (args : CursorGlyphArgs) : M unit :=
  _ ← checked;
  _ ← w64 CURSOR_GLYPH_VIRTUAL_OFFSET (virtual_offset args);
  _ ← w64 CURSOR_GLYPH_MAPPED_LENGTH (mapped_length args);
  _ ← w64 CURSOR_GLYPH_STRIDE (stride args);
  _ ← w32 FIELD_F18 0;
  _ ← w32 CURSOR_GLYPH_SUM (sum args);
  _ ← w16 CURSOR_GLYPH_WIDTH (glyph_width args);
  _ ← w16 CURSOR_GLYPH_HEIGHT (glyph_height args);
  _ ← w16 CURSOR_GLYPH_HOT_SPOT_X (hot_spot_x args);
  w16 CURSOR_GLYPH_HOT_SPOT_Y (hot_spot_y args).

Definition cursor_glyph_locked (client : option Core) (args : CursorGlyphArgs) : M unit :=
  _ ← assert_running;
  if negb (glyph_checks args) then raise (Own CursorParameters)
  else
    task ← kernel_task Memory.Return;
    _ ← (match client with
         | Some c =>
             if queue c && cursor_glyph_handler c then hand_glyph c task args else mret tt
         | None => mret tt
         end);
    record_glyph args.
Definition cursor_glyph (args : CursorGlyphArgs) : M unit :=
  keep ← asks core; cursor_glyph_locked keep args.

(** ** The show byte, the doorbell and the position *)

Definition cursor_show_locked (client : option Core) (show : Z) : M unit :=
  _ ← assert_running;
  _ ← (match client with
       | Some c =>
           if queue c && cursor_show_handler c then dispatch c (ShowBlock show) else mret tt
       | None => mret tt
       end);
  _ ← checked;
  w8 CURSOR_SHOW show.
Definition cursor_show (show : Z) : M unit :=
  keep ← asks core; cursor_show_locked keep show.

(** The doorbell's three parts. *)
Definition ring_show (c : Core) : M unit :=
  if cursor_show_handler c then
    _ ← checked;
    show ← r8 GUEST_CURSOR_SHOW;
    _ ← checked;
    last ← r8 CURSOR_SHOW;
    if show =? last then mret tt
    else
      _ ← checked;
      _ ← w8 CURSOR_SHOW show;
      dispatch c (ShowBlock show)
  else mret tt.
Definition ring_move (c : Core) : M unit :=
  if cursor_move_handler c then dispatch c MoveBlock else mret tt.
Definition ring_resize : M unit :=
  latched ← asks compositor_supports_live_resize;
  if latched : bool then mret tt
  else
    _ ← checked;
    b ← r8 COMPOSITOR_SUPPORTS_LIVE_RESIZE;
    if b =? 0 then mret tt
    else
      _ ← modify (with_live_resize true);
      tell UpdateResponsiveness.
Definition doorbell : M unit :=
  _ ← assert_running;
  keep ← asks core;
  match keep with
  | Some c =>
      if queue c then
        _ ← ring_show c;
        _ ← ring_move c;
        ring_resize
      else mret tt
  | None => mret tt
  end.

Definition cursor_position : M (Z * Z) :=
  _ ← checked;
  position ← load CURSOR_POSITION;
  mret (Num.low_u16 position, Num.low_u16 (Z.shiftr position 16)).

(** ** The blocks *)

(** What a block does when it runs: the client is the one of then. *)
Definition run_block (b : Block) : M unit :=
  client ← asks core;
  let handled (h : Core -> bool) (gone : GuestDisplayDeath) :=
    match client with
    | Some c => if h c then tell (Handler b) else fatal gone
    | None => fatal gone
    end in
  match b with
  | ShowBlock _ => handled cursor_show_handler ShowHandlerGone
  | MoveBlock => handled cursor_move_handler MoveHandlerGone
  | GlyphBlock _ _ _ _ _ => handled cursor_glyph_handler GlyphHandlerGone
  | SleepBlock asleep =>
      if asleep =? 1 then mret tt
      else
        match client with
        | Some c => if new_frame_event_handler c then tell SignalCurrentFrame else mret tt
        | None => mret tt
        end
  end.

(** ** The copy's result *)

(** The words of a row and of the glyph, in order. *)
Definition row_pixels (guest : list byte) (n row : Z) (xs : list Z) : list Z :=
  map (fun x => pixel_at guest n (add64 row (mul64 x 4))) xs.
Definition pixel_rows (guest : list byte) (args : CursorGlyphArgs) : list (list Z) :=
  map (fun y => row_pixels guest (mapped_length args) (mul64 y (stride args))
    (seqZ 0 (glyph_width args))) (seqZ 0 (glyph_height args)).
Definition glyph_pixels (guest : list byte) (args : CursorGlyphArgs) : list Z :=
  concat (pixel_rows guest args).

Lemma copy_row_pixels guest n row x k acc :
  copy_row guest n row x k acc =
    (fold_left add32 (row_pixels guest n row (seqZ x (Z.of_nat k))) acc.1,
     acc.2 ++ map swapped (row_pixels guest n row (seqZ x (Z.of_nat k)))).
Proof.
  revert x acc. induction k as [|k IH]; intros x [total out].
  - cbn. by rewrite app_nil_r.
  - cbn [copy_row]. rewrite IH, (seqZ_cons x) by lia.
    replace (Z.pred (Z.of_nat (S k))) with (Z.of_nat k) by lia. cbn. by rewrite <- app_assoc.
Qed.
Lemma copy_rows_pixels guest n stride w y k acc :
  0 <= w ->
  let words := concat (map (fun y => row_pixels guest n (mul64 y stride) (seqZ 0 w))
    (seqZ y (Z.of_nat k))) in
  copy_rows guest n stride w y k acc = (fold_left add32 words acc.1, acc.2 ++ map swapped words).
Proof.
  intros Hw. cbn zeta. revert y acc. induction k as [|k IH]; intros y [total out].
  - cbn. by rewrite app_nil_r.
  - cbn [copy_rows]. rewrite copy_row_pixels, IH, (seqZ_cons y) by lia.
    replace (Z.pred (Z.of_nat (S k))) with (Z.of_nat k) by lia. rewrite Z2Nat.id by done. cbn.
    by rewrite fold_left_app, map_app, <- app_assoc.
Qed.
Lemma copy_is_pixels guest args :
  0 <= glyph_width args -> 0 <= glyph_height args ->
  copy_rows guest (mapped_length args) (stride args) (glyph_width args) 0
    (Z.to_nat (glyph_height args)) (0, []) =
  (fold_left add32 (glyph_pixels guest args) 0, map swapped (glyph_pixels guest args)).
Proof. intros. rewrite copy_rows_pixels, Z2Nat.id by done. done. Qed.

(** The values a guest can give, and a glyph that fits its mapping. *)
Record args_ok (args : CursorGlyphArgs) : Prop := {
  ok_offset : u64 (virtual_offset args);
  ok_length : u64 (mapped_length args);
  ok_stride : u64 (stride args);
  ok_width : u16 (glyph_width args);
  ok_height : u16 (glyph_height args);
  ok_hot_x : u16 (hot_spot_x args);
  ok_hot_y : u16 (hot_spot_y args);
  ok_sum : u32 (sum args);
}.
Record fits (args : CursorGlyphArgs) : Prop := {
  fits_width : 1 <= glyph_width args <= GLYPH_LIMIT;
  fits_height : 1 <= glyph_height args <= GLYPH_LIMIT;
  fits_mapping :
    (glyph_height args - 1) * stride args + 4 * glyph_width args <= mapped_length args;
}.

Lemma glyph_checks_fits args : args_ok args -> glyph_checks args = true <-> fits args.
Proof.
  intros [_ Hl Hs Hw Hh _ _ _]. unfold glyph_checks, GLYPH_LIMIT.
  destruct (_ || _) eqn:E.
  { split; [done|]. intros [? ? _]. unfold GLYPH_LIMIT in *. rewrite !orb_true_iff in E.
    rewrite !Z.eqb_eq, !Z.ltb_lt in E. lia. }
  to_props. assert (sub64 (glyph_height args) 1 = glyph_height args - 1) as -> by word_lia.
  assert (mul64 (glyph_width args) 4 = 4 * glyph_width args) as -> by word_lia. cbn zeta.
  set (product := (glyph_height args - 1) * stride args).
  assert (0 <= product) as Hp by (unfold product; nia).
  destruct (Z.leb_spec M64 product) as [Ho|Ho]; cbn [orb].
  { split; [done|]. intros [_ _ Hf]. fold product in Hf. lia. }
  rewrite (Z.mod_small product) by lia.
  destruct (Z.leb_spec M64 (product + 4 * glyph_width args)) as [Ho2|Ho2].
  { split; [done|]. intros [_ _ Hf]. fold product in Hf. lia. }
  rewrite Z.mod_small by lia. rewrite negb_true_iff, Z.ltb_ge. split.
  - intros Hf. split; unfold GLYPH_LIMIT; [lia..|exact Hf].
  - by intros [_ _ Hf].
Qed.

(** *** The words *)

(** The bits of a little-endian integer are those of its bytes. *)
Lemma of_le_bytes_testbit bs i :
  0 <= i -> Z.testbit (of_le_bytes bs) i =
    Z.testbit (Z_of_byte (nth (Z.to_nat (i / 8)) bs x00)) (i mod 8).
Proof.
  revert i. induction bs as [|b bs IH]; intros i Hi.
  { cbn [of_le_bytes]. rewrite Z.testbit_0_l. destruct (Z.to_nat (i / 8)); cbn [nth];
      change (Z_of_byte x00) with 0; by rewrite Z.testbit_0_l. }
  cbn [of_le_bytes]. pose proof (Z_of_byte_range b) as Hb. destruct (Z.ltb_spec i 8) as [H8|H8].
  - rewrite Z.div_small, Z.mod_small by lia. cbn [Z.to_nat nth].
    change (Z.to_nat 0) with 0%nat. rewrite <- (Z.mod_pow2_bits_low _ 8) by lia. f_equal.
    change (2 ^ 8) with 256. cbn [nth]. generalize (of_le_bytes bs). intros z.
    Z.to_euclidean_division_equations; lia.
  - replace (Z.to_nat (i / 8)) with (S (Z.to_nat ((i - 8) / 8))) by
      (rewrite <- Z2Nat.inj_succ by (apply Z.div_pos; lia); f_equal;
       Z.to_euclidean_division_equations; lia).
    cbn [nth]. replace (i mod 8) with ((i - 8) mod 8) by (Z.to_euclidean_division_equations; lia).
    rewrite <- IH by lia. replace i with (i - 8 + 8) at 1 by lia.
    rewrite <- Z.div_pow2_bits by lia. f_equal. change (2 ^ 8) with 256.
    Z.to_euclidean_division_equations; lia.
Qed.
Ltac bit_cases i a :=
  assert (In i (seqZ a 16)) as Hin by (apply list_elem_of_In, elem_of_seqZ; lia);
  revert Hin; cbn; intros Hin;
  repeat (destruct Hin as [<-|Hin];
    [cbn; by rewrite ?andb_true_r, ?andb_false_r, ?orb_false_r|]); destruct Hin.
(** The swap of a pixel: BGRA in, RGBA out. *)
Lemma swapped_bytes b g r a : swapped (of_le_bytes [b; g; r; a]) = of_le_bytes [r; g; b; a].
Proof.
  set (p := of_le_bytes [b; g; r; a]).
  assert (u32 p) as Hp by apply (of_le_bytes_range [b; g; r; a]).
  pose proof (of_le_bytes_range [r; g; b; a]) as Hq. change (u32 (of_le_bytes [r; g; b; a])) in Hq.
  assert (shl32 (Z.land p 0xff) 16 = Z.shiftl (Z.land p 0xff) 16) as Es.
  { unfold shl32, Prelude.w32. change (16 mod 32) with 16. apply Z.mod_small.
    pose proof (land_mask p 8) as E. change (2 ^ 8 - 1) with 0xff in E. rewrite E by lia.
    rewrite Z.shiftl_mul_pow2 by lia. rewrite M32_val. change (2 ^ 8) with 256. change (2 ^ 16) with 65536.
    Z.to_euclidean_division_equations; lia. }
  unfold swapped. rewrite Es. apply Z.bits_inj'. intros i Hi.
  rewrite !Z.lor_spec, !Z.land_spec, Z.shiftr_spec by lia. destruct (Z.ltb_spec i 32) as [H32|H32].
  - rewrite Z.shiftl_spec by lia. rewrite (of_le_bytes_testbit [r; g; b; a]) by lia. unfold p.
    rewrite (of_le_bytes_testbit _ i), (of_le_bytes_testbit _ (i + 16)) by lia.
    destruct (Z.leb_spec 16 i) as [H16|H16].
    + rewrite Z.land_spec, (of_le_bytes_testbit _ (i - 16)) by lia.
      bit_cases i 16.
    + rewrite (Z.testbit_neg_r _ (i - 16)) by lia.
      bit_cases i 0.
  - rewrite (u32_high _ i Hq), (u32_high _ i Hp), (u32_high _ (i + 16) Hp) by lia.
    rewrite Z.shiftl_spec, Z.land_spec by lia.
    rewrite !andb_false_l. cbn [orb]. rewrite orb_false_r. change 0xff with (Z.ones 8).
    rewrite (Z.testbit_ones_nonneg 8) by lia. destruct (Z.ltb_spec (i - 16) 8); [lia|]. by rewrite andb_false_r.
Qed.

Lemma pixel_at_bytes guest n a :
  0 <= a -> a + 4 <= n -> pixel_at guest n a =
    of_le_bytes (map (fun i => default x00 (guest !! Z.to_nat (a + i))) [0; 1; 2; 3]).
Proof. intros ??. unfold pixel_at. by rewrite (proj2 (Z.leb_le _ _)) by lia. Qed.
Lemma pixel_at_range guest n a : u32 (pixel_at guest n a).
Proof.
  unfold pixel_at. destruct (_ <=? _); [|rewrite M32_val; lia].
  pose proof (of_le_bytes_range (map (fun i => default x00 (guest !! Z.to_nat (a + i))) [0; 1; 2; 3])) as H1.
  exact H1.
Qed.
(** The bytes a pixel is made of: the glyph's, the first and the third swapped. *)
Definition rgba_at (guest : list byte) (a : Z) : list byte :=
  map (fun i => default x00 (guest !! Z.to_nat (a + i))) [2; 1; 0; 3].
Lemma swapped_pixel guest n a :
  0 <= a -> a + 4 <= n ->
  u32 (swapped (pixel_at guest n a)) /\ le_bytes 4 (swapped (pixel_at guest n a)) = rgba_at guest a.
Proof.
  intros. rewrite pixel_at_bytes by lia. cbn [map]. rewrite swapped_bytes.
  split; [apply (of_le_bytes_range [_; _; _; _])|]. exact (le_bytes_of_le_bytes [_; _; _; _]).
Qed.

Lemma concat_lookup {A} (ls : list (list A)) w i j l x :
  Forall (fun l => length l = w) ls -> ls !! i = Some l -> l !! j = Some x ->
  concat ls !! (i * w + j)%nat = Some x.
Proof.
  intros Hw. revert i. induction Hw as [|l' ls Hl _ IH]; intros i Hi Hj; [done|].
  destruct i as [|i]; cbn [concat].
  - injection Hi as ->. rewrite lookup_app_l; [done|]. by apply lookup_lt_Some in Hj.
  - rewrite lookup_app_r by lia. rewrite <- (IH i) by done. f_equal. lia.
Qed.
Lemma length_concat_same {A} (ls : list (list A)) w :
  Forall (fun l => length l = w) ls -> length (concat ls) = (length ls * w)%nat.
Proof. induction 1 as [|l ls Hl _ IH]; [done|]. cbn. rewrite length_app, IH. lia. Qed.

(** The place of a pixel in the mapping: inside it, where the glyph fits. *)
Lemma pixel_place args x y :
  args_ok args -> fits args -> 0 <= y < glyph_height args -> 0 <= x < glyph_width args ->
  add64 (mul64 y (stride args)) (mul64 x 4) = y * stride args + 4 * x /\
  0 <= y * stride args + 4 * x /\ y * stride args + 4 * x + 4 <= mapped_length args.
Proof.
  intros [_ Hl Hs _ _ _ _ _] [[_ Hw] [_ Hh] Hm] Hy Hx. unfold GLYPH_LIMIT in *.
  assert (0 <= y * stride args <= (glyph_height args - 1) * stride args) as Hr by nia.
  split; [|lia]. rewrite (Z.mul_comm 4). unfold add64, mul64, Prelude.w64. rewrite M64_val in *.
  rewrite (Z.mod_small (y * stride args)) by lia. rewrite (Z.mod_small (x * 4)) by lia.
  apply Z.mod_small. lia.
Qed.
Lemma pixel_rows_width guest args :
  Forall (fun l => length l = Z.to_nat (glyph_width args)) (pixel_rows guest args).
Proof.
  apply List.Forall_map, list.Forall_forall. intros y _. unfold row_pixels.
  by rewrite List.length_map, length_seqZ.
Qed.
Lemma length_glyph_pixels guest args :
  length (glyph_pixels guest args) = (Z.to_nat (glyph_height args) * Z.to_nat (glyph_width args))%nat.
Proof.
  unfold glyph_pixels. rewrite (length_concat_same _ _ (pixel_rows_width guest args)).
  unfold pixel_rows. by rewrite List.length_map, length_seqZ.
Qed.
Lemma glyph_pixel guest args x y :
  args_ok args -> fits args -> 0 <= y < glyph_height args -> 0 <= x < glyph_width args ->
  glyph_pixels guest args !! Z.to_nat (y * glyph_width args + x) =
    Some (pixel_at guest (mapped_length args) (y * stride args + 4 * x)).
Proof.
  intros Ha Hf Hy Hx. destruct (pixel_place args x y Ha Hf Hy Hx) as (Ep&_&_).
  replace (Z.to_nat (y * glyph_width args + x)) with
    (Z.to_nat y * Z.to_nat (glyph_width args) + Z.to_nat x)%nat by lia.
  eapply concat_lookup; [apply pixel_rows_width| |].
  - unfold pixel_rows. rewrite list_lookup_fmap, lookup_seqZ_lt by lia. done.
  - unfold row_pixels. rewrite list_lookup_fmap, lookup_seqZ_lt by lia. cbn.
    rewrite !Z2Nat.id by lia. rewrite ?Z.add_0_l. by rewrite Ep.
Qed.

(** The copy of a glyph that fits. The words written are the glyph's [width * height];
    the one of pixel (x, y) holds the guest's bytes at [y * stride + 4 * x], all inside the
    mapping, in RGBA order. *)
Theorem glyph_copied guest args x y :
  args_ok args -> fits args -> 0 <= y < glyph_height args -> 0 <= x < glyph_width args ->
  let words := (copy_rows guest (mapped_length args) (stride args) (glyph_width args) 0
    (Z.to_nat (glyph_height args)) (0, [])).2 in
  Z.of_nat (length words) = glyph_width args * glyph_height args /\
  y * stride args + 4 * x + 4 <= mapped_length args /\
  exists word, words !! Z.to_nat (y * glyph_width args + x) = Some word /\ u32 word /\
    le_bytes 4 word = rgba_at guest (y * stride args + 4 * x).
Proof.
  intros Ha Hf Hy Hx. cbn zeta. rewrite copy_is_pixels by lia. cbn [snd].
  destruct (pixel_place args x y Ha Hf Hy Hx) as (_&Hp0&Hp1).
  rewrite List.length_map, length_glyph_pixels. split; [lia|]. split; [exact Hp1|].
  rewrite list_lookup_fmap, glyph_pixel by done. eexists. split; [reflexivity|].
  apply swapped_pixel; [exact Hp0|lia].
Qed.

(** ** The glyph, all or nothing *)

(** The device's parts and the host answer or raise, and an image has a buffer. *)
Definition glyph_answers (args : CursorGlyphArgs) : Prop :=
  (forall h, match get_kernel_task Memory.Return h with Died _ => False | _ => True end) /\
  (forall h, match copy_from_virtual_offset (virtual_offset args) (mapped_length args) h with
             | Died _ => False | _ => True end) /\
  (forall h, make_image (glyph_width args) (glyph_height args) h <> Some false).

(** The page's record of a glyph. *)
Record recorded (args : CursorGlyphArgs) (s : State) : Prop := {
  rec_offset : fld 8 s CURSOR_GLYPH_VIRTUAL_OFFSET = virtual_offset args;
  rec_length : fld 8 s CURSOR_GLYPH_MAPPED_LENGTH = mapped_length args;
  rec_stride : fld 8 s CURSOR_GLYPH_STRIDE = stride args;
  rec_width : fld 2 s CURSOR_GLYPH_WIDTH = glyph_width args;
  rec_height : fld 2 s CURSOR_GLYPH_HEIGHT = glyph_height args;
  rec_hot_x : fld 2 s CURSOR_GLYPH_HOT_SPOT_X = hot_spot_x args;
  rec_hot_y : fld 2 s CURSOR_GLYPH_HOT_SPOT_Y = hot_spot_y args;
  rec_sum : fld 4 s CURSOR_GLYPH_SUM = sum args;
}.
Definition glyph_stored (args : CursorGlyphArgs) (s : State) : State :=
  stored 2 CURSOR_GLYPH_HOT_SPOT_Y (hot_spot_y args)
    (stored 2 CURSOR_GLYPH_HOT_SPOT_X (hot_spot_x args)
    (stored 2 CURSOR_GLYPH_HEIGHT (glyph_height args)
    (stored 2 CURSOR_GLYPH_WIDTH (glyph_width args)
    (stored 4 CURSOR_GLYPH_SUM (sum args)
    (stored 4 FIELD_F18 0
    (stored 8 CURSOR_GLYPH_STRIDE (stride args)
    (stored 8 CURSOR_GLYPH_MAPPED_LENGTH (mapped_length args)
    (stored 8 CURSOR_GLYPH_VIRTUAL_OFFSET (virtual_offset args) s)))))))).
Lemma recorded_stored args s : args_ok args -> recorded args (glyph_stored args s).
Proof.
  intros []. unfold glyph_stored. split; page_fields.
Qed.
Lemma glyph_stored_outside args s :
  same_outside (page s + 0xf00) 0x2a (memory s) (memory (glyph_stored args s)).
Proof. unfold glyph_stored. stores_within. Qed.
Lemma twp_record_glyph args Q X s :
  page_ok s -> paused s = false -> Q tt (glyph_stored args s) -> twp (record_glyph args) Q X s.
Proof.
  intros Hp Hr HQ. unfold record_glyph. twp_go. apply twp_checked; [done|].
  repeat (twp_go; apply twp_write; [done..|]). exact HQ.
Qed.

Definition not_dispatch (c : Call) : Prop := match c with Dispatch _ => False | _ => True end.
(** More asked of the rest, with nothing dispatched. *)
Definition asked (s s' : State) : Prop :=
  exists cs, Forall not_dispatch cs /\ s' = with_calls (calls s ++ cs) s.
Lemma asked_refl s : asked s s.
Proof. exists []. split; [done|]. rewrite app_nil_r. by destruct s. Qed.
Lemma asked_call c s s' : not_dispatch c -> asked s s' -> asked s (with_calls (calls s' ++ [c]) s').
Proof.
  intros Hc (cs&Hcs&->). exists (cs ++ [c]). split; [by apply Forall_app; split; [|constructor]|].
  cbn [calls with_calls]. by rewrite app_assoc.
Qed.
(** What the client's queue is given of a glyph read as [guest]. *)
Definition handed (c : Core) (args : CursorGlyphArgs) (guest : list byte) : Block :=
  let words := map swapped (glyph_pixels guest args) in
  GlyphBlock (glyph_width args) (glyph_height args)
    (if cursor_glyph_image_maker c then [] else concat (map (le_bytes 4) words))
    (if cursor_glyph_image_maker c then Some words else None)
    (hot_spot_x args, hot_spot_y args).
Definition sum_agrees (args : CursorGlyphArgs) (guest : list byte) : Prop :=
  sum args = 0 \/ sum args = fold_left add32 (glyph_pixels guest args) 0.

Lemma twp_copy_glyph s0 task args Q (X : Raise R -> State -> Prop) s :
  args_ok args -> glyph_answers args -> asked s0 s ->
  (forall guest s', asked s0 s' -> sum_agrees args guest ->
    Q (map swapped (glyph_pixels guest args)) s') ->
  (forall e s', asked s0 s' -> X e s') ->
  twp (copy_guest_glyph task args) Q X s.
Proof.
  intros Ha (_&Hk&_) Hs HQ HX. pose proof (ok_width _ Ha) as Hw. pose proof (ok_height _ Ha) as Hh.
  assert (forall guest s', asked s0 s' ->
    twp (swap_glyph args guest) Q X s') as Hr.
  { intros guest s' Hs'. unfold swap_glyph. rewrite copy_is_pixels by lia.
    destruct (Z.eqb_spec (sum args) 0) as [E|E], (Z.eqb_spec (sum args)
      (fold_left add32 (glyph_pixels guest args) 0)) as [E'|E']; cbn [negb andb];
      rewrite ?twp_raise, ?twp_ret; first [apply HX|apply HQ]; try done; [by left|by left|by right]. }
  unfold copy_guest_glyph. destruct (_ <? _); [by rewrite twp_raise; apply HX|]. twp_go.
  destruct task; twp_go; [|by apply Hr].
  apply twp_part; [apply Hk|intros guest|intros e]; [apply Hr|apply HX]; by apply asked_call.
Qed.

Lemma twp_dispatch c b Q (X : Raise R -> State -> Prop) s :
  queue c = true -> Q tt (with_calls (calls s ++ [Dispatch b]) s) -> twp (dispatch c b) Q X s.
Proof. intros Hq HQ. unfold dispatch. twp_go. apply twp_require; [done|]. exact HQ. Qed.
Lemma twp_hand_glyph s0 c task args Q (X : Raise R -> State -> Prop) s :
  args_ok args -> glyph_answers args -> asked s0 s ->
  queue c = true -> cursor_glyph_handler c = true ->
  (forall guest s', asked s0 s' -> sum_agrees args guest ->
    Q tt (with_calls (calls s' ++ [Dispatch (handed c args guest)]) s')) ->
  (forall e s', asked s0 s' -> X e s') ->
  twp (hand_glyph c task args) Q X s.
Proof.
  intros Ha Hk Hs Hq Hh HQ HX. unfold hand_glyph. rewrite Hh. unfold handed in HQ.
  destruct (cursor_glyph_image_maker c); cbn [andb]; twp_go.
  - unfold tell at 1. twp_go. pose proof (proj2 (proj2 Hk) (calls s)) as Hi.
    destruct (make_image _ _ _) as [[|]|]; [|done|rewrite twp_raise; by apply HX, asked_call].
    twp_go. apply twp_require; [done|]. twp_go.
    apply (twp_copy_glyph s0); [done..|by apply asked_call| |done].
    intros guest s' Hs' Hsum. apply twp_dispatch; [done|]. by apply HQ.
  - apply (twp_copy_glyph s0); [done..| |done].
    intros guest s' Hs' Hsum. apply twp_dispatch; [done|]. by apply HQ.
Qed.
Lemma twp_kernel_task (s0 : State) Q (X : Raise R -> State -> Prop) s :
  (forall h, match get_kernel_task Memory.Return h with Died _ => False | _ => True end) ->
  asked s0 s -> (forall b s', asked s0 s' -> Q b s') -> (forall e s', asked s0 s' -> X e s') ->
  twp (kernel_task Memory.Return) Q X s.
Proof.
  intros Hk Hs HQ HX. unfold kernel_task. twp_go. destruct (device s); twp_go; [|by apply HQ].
  apply twp_part; [apply Hk|intros _|intros e]; [apply HQ|apply HX]; by apply asked_call.
Qed.

(** The block a client with a queue and a handler is handed. *)
Definition dispatched (args : CursorGlyphArgs) (client : option Core) (guest : list byte)
    : list Call :=
  match client with
  | Some c => if queue c && cursor_glyph_handler c then [Dispatch (handed c args guest)] else []
  | None => []
  end.
Definition glyph_taken (args : CursorGlyphArgs) (s s' : State) : Prop :=
  exists guest cs, Forall not_dispatch cs /\
    (dispatched args (core s) guest = [] \/ sum_agrees args guest) /\
    s' = glyph_stored args (with_calls (calls s ++ cs ++ dispatched args (core s) guest) s).
Definition glyph_refused (args : CursorGlyphArgs) (s : State) (e : Raise R) (s' : State) : Prop :=
  asked s s' /\ (fits args \/ e = Own CursorParameters /\ s' = s).
Lemma twp_cursor_glyph args s :
  page_ok s -> paused s = false -> args_ok args -> glyph_answers args ->
  twp (cursor_glyph_locked (core s) args)
    (fun _ s' => fits args /\ glyph_taken args s s') (glyph_refused args s) s.
Proof.
  intros Hp Hr Ha Hk. unfold cursor_glyph_locked. twp_go. apply twp_running; [done|]. twp_go.
  pose proof (glyph_checks_fits args Ha) as Hf. destruct (glyph_checks args); cbn [negb]; cycle 1.
  { rewrite twp_raise. split; [apply asked_refl|by right]. }
  assert (fits args) as Hfit by by apply Hf. clear Hf. twp_go.
  assert (forall e s', asked s s' -> glyph_refused args s e s') as HX by (split; auto).
  apply (twp_kernel_task s); [apply Hk|apply asked_refl| |done]. intros task s1 Hs1. twp_go.
  assert (forall guest cs, Forall not_dispatch cs ->
    dispatched args (core s) guest = [] \/ sum_agrees args guest ->
    twp (record_glyph args) (fun _ s' => fits args /\ glyph_taken args s s')
      (glyph_refused args s) (with_calls (calls s ++ cs ++ dispatched args (core s) guest) s)) as Hd.
  { intros guest cs Hcs Hsum. apply twp_record_glyph; [exact Hp|exact Hr|].
    split; [done|]. by exists guest, cs. }
  assert (dispatched args (core s) [] = [] -> twp (record_glyph args)
    (fun _ s' => fits args /\ glyph_taken args s s') (glyph_refused args s) s1) as Hno.
  { intros E. destruct Hs1 as (cs&Hcs&->). specialize (Hd [] cs Hcs (or_introl E)).
    by rewrite E, app_nil_r in Hd. }
  unfold dispatched in Hno, Hd. destruct (core s) as [c|]; [|by twp_go; apply Hno].
  destruct (queue c && cursor_glyph_handler c) eqn:E; [|by twp_go; apply Hno].
  apply andb_prop in E as [Eq Eh]. apply (twp_hand_glyph s); [done..| |done].
  intros guest s2 (cs&Hcs&->) Hsum. specialize (Hd guest cs Hcs (or_intror Hsum)).
  cbn [calls with_calls]. by rewrite <- app_assoc.
Qed.

(** C37: a cursor glyph is all or nothing. A glyph that does not fit its mapping, or that is
    over 256 pixels a side, is refused with nothing asked. Any raise leaves the page as it
    was and dispatches nothing. A glyph taken fits, is recorded in the page's glyph record
    and nowhere else, and goes once to the queue of a client with a handler, as the copy of
    bytes whose sum is the guest's where the guest gave one. *)
Theorem cursor_glyph_all_or_nothing args s :
  page_ok s -> paused s = false -> args_ok args -> glyph_answers args ->
  match cursor_glyph args s with
  | Ret (_, s') =>
      fits args /\ recorded args s' /\
      same_outside (page s + 0xf00) 0x2a (memory s) (memory s') /\
      exists guest cs, Forall not_dispatch cs /\
        calls s' = calls s ++ cs ++ dispatched args (core s) guest /\
        (dispatched args (core s) guest = [] \/ sum_agrees args guest)
  | Raised (e, s') =>
      memory s' = memory s /\ (exists cs, Forall not_dispatch cs /\ calls s' = calls s ++ cs) /\
      (fits args \/ e = Own CursorParameters /\ s' = s)
  | Died _ => False
  end.
Proof.
  intros Hp Hr Ha Hk. pose proof (twp_cursor_glyph args s Hp Hr Ha Hk) as Ht.
  assert (cursor_glyph args s = cursor_glyph_locked (core s) args s) as ->
    by (unfold cursor_glyph; by rewrite run_step).
  unfold twp in Ht. destruct (cursor_glyph_locked _ args s) as [[[] s']|[e s']|]; [|split_and!|done].
  - destruct Ht as (Hf&guest&cs&Hcs&Hsum&->).
    split_and!; [done|by apply recorded_stored|apply (glyph_stored_outside args (with_calls _ s))|].
    by exists guest, cs.
  - by destruct Ht as [(cs&_&->) _].
  - destruct Ht as [(cs&Hcs&->) _]. by exists cs.
  - apply Ht.
Qed.

(** ** The doorbell *)

(** What a doorbell sees: a changed show byte, and the live-resize byte set first. *)
Definition show_changed (c : Core) (s : State) : bool :=
  cursor_show_handler c && negb (fld 1 s GUEST_CURSOR_SHOW =? fld 1 s CURSOR_SHOW).
Definition resize_set (s : State) : bool :=
  negb (compositor_supports_live_resize s) &&
  negb (fld 1 s COMPOSITOR_SUPPORTS_LIVE_RESIZE =? 0).
Definition rung_calls (c : Core) (s : State) : list Call :=
  (if show_changed c s then [Dispatch (ShowBlock (fld 1 s GUEST_CURSOR_SHOW))] else []) ++
  (if cursor_move_handler c then [Dispatch MoveBlock] else []) ++
  (if resize_set s then [UpdateResponsiveness] else []).
Definition rung (c : Core) (s : State) : State :=
  let s1 := if show_changed c s then stored 1 CURSOR_SHOW (fld 1 s GUEST_CURSOR_SHOW) s else s in
  with_live_resize (compositor_supports_live_resize s || resize_set s)
    (with_calls (calls s ++ rung_calls c s) s1).
Lemma state_same s b cs :
  compositor_supports_live_resize s = b -> calls s = cs -> with_live_resize b (with_calls cs s) = s.
Proof. intros <- <-. by destruct s. Qed.

Lemma twp_ring_show c Q (X : Raise R -> State -> Prop) s :
  page_ok s -> paused s = false -> queue c = true ->
  Q tt (if show_changed c s
        then with_calls (calls s ++ [Dispatch (ShowBlock (fld 1 s GUEST_CURSOR_SHOW))])
          (stored 1 CURSOR_SHOW (fld 1 s GUEST_CURSOR_SHOW) s)
        else s) ->
  twp (ring_show c) Q X s.
Proof.
  intros Hp Hr Hq HQ. unfold ring_show, show_changed in *. destruct (cursor_show_handler c);
    cbn [andb] in HQ; [|by rewrite twp_ret].
  twp_go. apply twp_checked; [done|]. twp_go. apply twp_read; [done..|]. twp_go.
  apply twp_checked; [done|]. twp_go. apply twp_read; [done..|].
  destruct (_ =? _); cbn [negb] in HQ; [by rewrite twp_ret|]. twp_go. apply twp_checked; [done|]. twp_go.
  apply twp_write; [done..|]. by apply twp_dispatch.
Qed.
Lemma twp_ring_move c Q (X : Raise R -> State -> Prop) s :
  queue c = true ->
  Q tt (with_calls (calls s ++ if cursor_move_handler c then [Dispatch MoveBlock] else []) s) ->
  twp (ring_move c) Q X s.
Proof.
  intros Hq HQ. unfold ring_move. destruct (cursor_move_handler c); [by apply twp_dispatch|].
  rewrite twp_ret. rewrite app_nil_r in HQ. by destruct s.
Qed.
Lemma twp_ring_resize Q (X : Raise R -> State -> Prop) s :
  page_ok s -> paused s = false ->
  Q tt (with_live_resize (compositor_supports_live_resize s || resize_set s)
    (with_calls (calls s ++ if resize_set s then [UpdateResponsiveness] else []) s)) ->
  twp ring_resize Q X s.
Proof.
  intros Hp Hr HQ. unfold ring_resize, resize_set in *. twp_go.
  destruct (compositor_supports_live_resize s) eqn:El; cbn [orb andb negb] in *.
  { rewrite twp_ret. rewrite app_nil_r in HQ. by rewrite state_same in HQ. }
  twp_go. apply twp_checked; [done|]. twp_go. apply twp_read; [done..|].
  destruct (_ =? 0); cbn [negb] in *.
  { rewrite twp_ret. rewrite app_nil_r in HQ. by rewrite state_same in HQ. }
  twp_go. unfold tell. by rewrite twp_modify.
Qed.
Lemma doorbell_is c s :
  page_ok s -> paused s = false -> core s = Some c -> queue c = true ->
  doorbell s = Ret (tt, rung c s).
Proof.
  intros Hp Hr Hc Hq. apply twp_Ret. unfold doorbell. twp_go. apply twp_running; [done|]. twp_go.
  rewrite Hc, Hq. twp_go. apply twp_ring_show; [done..|]. twp_go. apply twp_ring_move; [done|].
  set (s1 := if show_changed c s then _ else s).
  assert (fld 1 s1 COMPOSITOR_SUPPORTS_LIVE_RESIZE = fld 1 s COMPOSITOR_SUPPORTS_LIVE_RESIZE) as Eb.
  { unfold s1. destruct (show_changed c s); [|done].
    exact (fld_stored_ne 1 1 CURSOR_SHOW COMPOSITOR_SUPPORTS_LIVE_RESIZE _ s eq_refl). }
  assert (page_ok s1 /\ paused s1 = false /\
    compositor_supports_live_resize s1 = compositor_supports_live_resize s) as (Hp1&Hr1&El)
    by (unfold s1; by destruct (show_changed c s)).
  apply twp_ring_resize; [exact Hp1|exact Hr1|]. split; [done|].
  set (s2 := with_calls _ s1).
  assert (resize_set s2 = resize_set s) as ->.
  { unfold resize_set. change (compositor_supports_live_resize s2) with
      (compositor_supports_live_resize s1). rewrite El.
    change (fld 1 s2 COMPOSITOR_SUPPORTS_LIVE_RESIZE) with
      (fld 1 s1 COMPOSITOR_SUPPORTS_LIVE_RESIZE). by rewrite Eb. }
  unfold rung, rung_calls. subst s2. cbn [calls with_calls compositor_supports_live_resize]. rewrite El.
  unfold s1. destruct (show_changed c s); cbn [calls with_calls stored with_memory app];
    by rewrite <- !app_assoc.
Qed.

(** The doorbell of a client with a queue. It hands the host the guest's show byte
    exactly where it changed and there is a handler, every move, and the live-resize byte
    the first time it is set, in that order; it writes nothing but the page's show byte.
    The show byte of the page is then the guest's: rung again with nothing changed, the
    doorbell hands on the move alone. *)
Theorem doorbell_settles c s :
  page_ok s -> paused s = false -> core s = Some c -> queue c = true ->
  exists s', doorbell s = Ret (tt, s') /\
    calls s' = calls s ++
      (if cursor_show_handler c && negb (fld 1 s GUEST_CURSOR_SHOW =? fld 1 s CURSOR_SHOW)
       then [Dispatch (ShowBlock (fld 1 s GUEST_CURSOR_SHOW))] else []) ++
      (if cursor_move_handler c then [Dispatch MoveBlock] else []) ++
      (if resize_set s then [UpdateResponsiveness] else []) /\
    compositor_supports_live_resize s' = compositor_supports_live_resize s || resize_set s /\
    (cursor_show_handler c = true -> fld 1 s' CURSOR_SHOW = fld 1 s GUEST_CURSOR_SHOW) /\
    same_outside (page s + CURSOR_SHOW) 1 (memory s) (memory s') /\
    exists s'', doorbell s' = Ret (tt, s'') /\
      calls s'' = calls s' ++ if cursor_move_handler c then [Dispatch MoveBlock] else [].
Proof.
  intros Hp Hr Hc Hq. pose proof (doorbell_is c s Hp Hr Hc Hq) as E1. exists (rung c s).
  assert (page_ok (rung c s) /\ paused (rung c s) = false /\ core (rung c s) = Some c) as (Hp'&Hr'&Hc')
    by (unfold rung; by destruct (show_changed c s)).
  pose proof (doorbell_is c _ Hp' Hr' Hc' Hq) as E2.
  assert (forall n off, fld n (rung c s) off = if show_changed c s
    then fld n (stored 1 CURSOR_SHOW (fld 1 s GUEST_CURSOR_SHOW) s) off else fld n s off) as Ef
    by (intros n off; unfold rung; by destruct (show_changed c s)).
  pose proof (get_range 1 (memory s) (page s + GUEST_CURSOR_SHOW)) as Hg. fold (fld 1 s GUEST_CURSOR_SHOW) in Hg.
  assert (fld 1 (rung c s) GUEST_CURSOR_SHOW = fld 1 s GUEST_CURSOR_SHOW) as Eg.
  { rewrite Ef, fld_stored_ne by reflexivity. by destruct (show_changed c s). }
  assert (cursor_show_handler c = true -> fld 1 (rung c s) CURSOR_SHOW = fld 1 s GUEST_CURSOR_SHOW) as Es.
  { intros Hh. rewrite Ef, fld_stored by exact Hg. unfold show_changed. rewrite Hh.
    destruct (Z.eqb_spec (fld 1 s GUEST_CURSOR_SHOW) (fld 1 s CURSOR_SHOW)); cbn [negb andb]; congruence. }
  split_and!; try done.
  - unfold rung. destruct (show_changed c s); [|apply same_outside_refl].
    apply (stored_within (page s) CURSOR_SHOW 1 1 CURSOR_SHOW); [done..|apply same_outside_refl].
  - eexists. split; [exact E2|]. cbn [calls with_live_resize with_calls rung].
    assert (show_changed c (rung c s) = false) as Esc.
    { unfold show_changed. destruct (cursor_show_handler c); [|done]. by rewrite Es, Eg, Z.eqb_refl. }
    assert (resize_set (rung c s) = false) as Er.
    { unfold resize_set at 1. rewrite Ef, fld_stored_ne by reflexivity.
      change (compositor_supports_live_resize (rung c s)) with
        (compositor_supports_live_resize s || resize_set s). unfold resize_set.
      destruct (show_changed c s), (compositor_supports_live_resize s),
        (fld 1 s COMPOSITOR_SUPPORTS_LIVE_RESIZE =? 0); done. }
    unfold rung_calls at 2. rewrite Esc, Er, app_nil_r. done.
Qed.
End GuestCursor.

(** ** Witnesses *)

(** A kernel task that holds a glyph of one row of two pixels; a host that makes images. *)
#[local] Instance sample_kernel : Kernel Empty_set := {|
  get_kernel_task _ _ := Ret tt;
  data_from_virtual_offset _ _ _ _ := Ret None;
  copy_from_virtual_offset _ _ _ := Ret [x01; x02; x03; x04; x05; x06; x07; x08];
  enable_protected_content := false;
|}.
#[local] Instance sample_images : Images := {| make_image _ _ _ := Some true |}.
#[local] Instance sample_target : GuestRecords.Target := GuestRecords.AArch64.
Definition sample_glyph : CursorGlyphArgs := MkGlyph 0x1000 8 8 2 1 1 0 0.
(** A mapping four bytes short. *)
Definition short_glyph : CursorGlyphArgs := MkGlyph 0x1000 4 8 2 1 1 0 0.

Lemma sample_glyph_ok : args_ok sample_glyph /\ args_ok short_glyph.
Proof. split; split; split; vm_compute; done. Qed.
Lemma sample_glyph_fits : fits sample_glyph.
Proof. split; vm_compute; done. Qed.

Lemma glyph_copied_witness :
  exists word, (copy_rows [x01; x02; x03; x04; x05; x06; x07; x08] 8 8 2 0 1 (0, [])).2 !! 1%nat
    = Some word /\ le_bytes 4 word = [x07; x06; x05; x08].
Proof.
  destruct (glyph_copied [x01; x02; x03; x04; x05; x06; x07; x08] sample_glyph 1 0
    (proj1 sample_glyph_ok) sample_glyph_fits) as (_&_&word&E&_&Eb); [by vm_compute..|].
  exists word. split; [exact E|]. rewrite Eb. by vm_compute.
Defined.

Definition sample_page : State := sample_state (Some [sample_mode]).
Lemma sample_page_ok : page_ok sample_page /\ paused sample_page = false.
Proof. repeat split; by vm_compute. Qed.
Lemma sample_glyph_answers args : glyph_answers args.
Proof. by split. Qed.
#[local] Opaque sample_page.

(** The glyph taken, and the one whose mapping is short refused. *)
Lemma cursor_glyph_all_or_nothing_witness :
  (exists s', cursor_glyph sample_glyph sample_page = Ret (tt, s') /\
     fld 2 s' CURSOR_GLYPH_WIDTH = 2) /\
  (exists e s', cursor_glyph short_glyph sample_page = Raised (e, s') /\ e = Own CursorParameters).
Proof.
  pose proof (fun args Ha => cursor_glyph_all_or_nothing args sample_page (proj1 sample_page_ok)
    (proj2 sample_page_ok) Ha (sample_glyph_answers args)) as H. split.
  - specialize (H sample_glyph (proj1 sample_glyph_ok)).
    assert (ends (cursor_glyph sample_glyph sample_page) = true) as E by by vm_compute.
    destruct (cursor_glyph _ _) as [[[] s']|[]|]; [|done..]. exists s'. split; [done|].
    exact (rec_width _ _ (proj1 (proj2 H))).
  - specialize (H short_glyph (proj2 sample_glyph_ok)).
    assert (ends (cursor_glyph short_glyph sample_page) = false) as E by by vm_compute.
    destruct (cursor_glyph _ _) as [|[e s']|]; [done| |done]. exists e, s'. split; [done|].
    destruct H as (_&_&[Hf|[He _]]); [|exact He]. exfalso. destruct Hf as [_ _ Hm]. revert Hm. by vm_compute.
Defined.

(** A page whose guest shows its cursor: the doorbell hands the byte on. *)
Definition sample_shown : State := stored 1 GUEST_CURSOR_SHOW 1 sample_page.
Lemma doorbell_settles_witness :
  exists s', doorbell (R := Empty_set) sample_shown = Ret (tt, s') /\
    calls s' = [Dispatch (ShowBlock 1)] /\ fld 1 s' CURSOR_SHOW = 1.
Proof.
  destruct (doorbell_settles (R := Empty_set) sample_core sample_shown (proj1 sample_page_ok)
    (proj2 sample_page_ok) ltac:(by vm_compute) ltac:(by vm_compute)) as (s'&E&Ec&_&Es&_).
  exists s'. split; [exact E|]. rewrite Ec, Es; split_and?; by vm_compute.
Defined.
End GuestCursor.
