(* ===== verification/Presents.v ===== *)
(** * Presents: the guest's frames
    (src/crates/reims-vgpu-core/src/display/guest_display/present.rs and the end of a restore
    in display/guest_display.rs)

    The presents of a backing and of a mapped surface, the gamma table's record, the colour
    matrices, the properties, sleep, and the end of a restore, which presents again. The
    kernel task's backings, the mapper's surfaces, the textures and the display's own
    present are the interface class [Frames]. A present's completion is [completion]: run
    at once where nobody presents, else when the display's frame is done. Pools, holders
    and what they release are not modelled. *)

From S2P Require Import Prelude Num MemoryKinds DisplayKinds DeviceKinds GuestRecords GuestPtr.
From S2P Require Import Floats DisplayPage GuestDisplay GuestCursor.
Open Scope Z_scope.

Module Presents.
Import DisplayKinds DeviceKinds DisplayPage GuestDisplay.

Definition FOURCC_BGRA : Z := 0x42475241.
Definition FOURCC_RGBA : Z := 0x52474241.
Definition FOURCC_RGHA : Z := 0x52476841.
Definition MTL_PIXEL_FORMAT_RGBA8_UNORM : Z := 70.
Definition MTL_PIXEL_FORMAT_BGRA8_UNORM : Z := 80.
Definition MTL_PIXEL_FORMAT_RGBA16_FLOAT : Z := 115.
Definition GAMMA_ENTRY_LIMIT : Z := 1024.
Definition COLOR_MATRIX_WORDS : Z := 12.

Record GammaTableArgs := MkGamma {
  gamma_offset : Z;
  gamma_length : Z;
  entry_count : Z;
  gamma_sum : Z;
}.

(** An IOSurface as the presents read it; a resource: a backing with its IOSurface and its
    textures, or another kind. *)
Record Surface := MkSurface {
  pixel_format : Z;
  surface_width : Z;
  surface_height : Z;
  bytes_per_element : Z;
  requirements : Z;
}.
Inductive Resource : Type :=
| Backing (io : option Surface) (textures : list Z)
| Other.

(** The kernel task's backings, the mapper's surfaces, the textures and the display's
    present, each answer after the calls before. *)
Class Frames (R : Type) := {
  prepared_backing_for_id : Z -> list Call -> outcome R ddeath (option Resource);
  mapped_surface : Z -> list Call -> option Surface;
  new_texture_view : Z -> Z -> list Call -> outcome R ddeath bool;
  texture_2d_descriptor : Z -> Z -> Z -> list Call -> outcome R ddeath unit;
  new_texture_on_surface : Surface -> list Call -> outcome R ddeath bool;
  present_frame : Call -> list Call -> outcome R ddeath unit;
}.

(** The client, where it presents. *)
Definition presenting (client : option Core) : option Core :=
  match client with
  | Some c => if queue c && new_frame_event_handler c then Some c else None
  | None => None
  end.

Section Presents.
Context {R : Type} `{Kernel R} `{Frames R} `{GuestCursor.Images} {target : GuestRecords.Target}.
Local Abbreviation M := (Run State (Raise R) ddeath).

Definition completion : M unit :=
  _ ← checked;
  _ ← fetch_or RAISED_INTERRUPTS INTERRUPT_PRESENT;
  _ ← checked;
  enabled ← load ENABLED_INTERRUPTS;
  if Z.land enabled INTERRUPT_PRESENT =? 0 then mret tt else poke.

(** ** The gamma table and the colour matrices *)

Definition store_gamma_table (gamma : GammaTableArgs) : M unit :=
  _ ← assert_running;
  let length := mul64 (entry_count gamma) 4 in
  if (GAMMA_ENTRY_LIMIT <? entry_count gamma) || (gamma_length gamma <? length) then
    raise (Own GammaTable)
  else
    _ ← checked;
    _ ← w64 GAMMA_TABLE_VIRTUAL_OFFSET (gamma_offset gamma);
    _ ← w64 GAMMA_TABLE_MAPPED_LENGTH (gamma_length gamma);
    _ ← w32 GAMMA_TABLE_ENTRY_COUNT (entry_count gamma);
    w32 GAMMA_TABLE_SUM (gamma_sum gamma).

(** The index of the matrix to present: a dirty one flips the two indices. *)
Definition flip_matrices : M unit :=
  w ← r8 COLOR_MATRIX_WRITE_INDEX;
  _ ← w8 COLOR_MATRIX_READ_INDEX w;
  _ ← w8 COLOR_MATRIX_WRITE_INDEX (if w =? 0 then 1 else 0);
  w8 COLOR_MATRIX_DIRTY 0.
Definition take_index : M (option Z) :=
  index ← r8 COLOR_MATRIX_READ_INDEX;
  _ ← w8 COLOR_MATRIX_FORCE_READ 0;
  mret (Some index).
Definition take_dirty_color_matrix : M (option Z) :=
  _ ← assert_running;
  _ ← checked;
  force ← r8 COLOR_MATRIX_FORCE_READ;
  if force =? 0 then
    dirty ← r8 COLOR_MATRIX_DIRTY;
    if dirty =? 0 then mret None
    else _ ← flip_matrices; take_index
  else take_index.

(** A matrix of the page as the display reads it: one float, or a pair with one load. *)
Definition matrix_at (index row col : Z) : M Z :=
  _ ← color_matrix_access index row col 4;
  r32 (color_matrix index row col).
Definition matrix_pair (index row col : Z) : M (Z * Z) :=
  _ ← color_matrix_access index row col 8;
  v ← r64 (color_matrix index row col);
  mret (Num.low_u32 v, Num.low_u32 (Z.shiftr v 32)).

(** ** The presents *)

Definition with_gamma (gamma : GammaTableArgs) : M unit :=
  if entry_count gamma =? 0 then mret tt else store_gamma_table gamma.
(** The frame to the client: the matrix is taken before the call. *)
Definition hand_frame (texture : bool) (io : Surface) (gamma : GammaTableArgs) : M unit :=
  matrix ← take_dirty_color_matrix;
  let call := PresentFrame texture (pixel_format io) (requirements io)
    (gamma_offset gamma, gamma_length gamma, entry_count gamma, gamma_sum gamma) matrix in
  _ ← part call (present_frame call);
  asleep ← asks asleep;
  if Z.land asleep 1 =? 0 then tell SignalCurrentFrame else mret tt.

(** The format of a backing's view, 0 where it is not presentable. *)
Definition view_format (io : Surface) : Z :=
  let f := if pixel_format io =? FOURCC_BGRA then MTL_PIXEL_FORMAT_BGRA8_UNORM else 0 in
  if pixel_format io =? FOURCC_RGBA then MTL_PIXEL_FORMAT_RGBA8_UNORM else f.

(** The IOSurface and the first texture a backing presents. *)
Definition backing_surface (backing : option Resource) : M (Surface * Z) :=
  match backing with
  | None => fatal PresentWithoutSurface
  | Some Other => raise (Own NotABacking)
  | Some (Backing _ []) => raise (Own BackingWithoutTexture)
  | Some (Backing None (_ :: _)) => fatal PresentWithoutSurface
  | Some (Backing (Some io) (t :: _)) => mret (io, t)
  end.

Definition present_surface_held (client : option Core) (surface : Z) (gamma : GammaTableArgs)
    : M unit :=
  task ← kernel_task Memory.Return;
  _ ← require_that task PresentWithoutKernelTask;
  backing ← part (PreparedBacking surface) (prepared_backing_for_id surface);
  '(io, texture) ← backing_surface backing;
  if view_format io =? 0 then raise (Own PixelFormat)
  else
    _ ← checked;
    a ← r64 PROTECTION_OPTIONS;
    b ← r64 PROTECTION_OPTIONS;
    if negb (Z.lor a (requirements io) =? b) then raise (Own ProtectionRequirements)
    else
      view ← part (NewView (view_format io)) (new_texture_view texture (view_format io));
      _ ← with_gamma gamma;
      match presenting client with
      | Some _ => hand_frame view io gamma
      | None => completion
      end.

Definition present_surface_locked (client : option Core) (surface : Z) (gamma : GammaTableArgs)
    : M unit :=
  _ ← assert_running;
  _ ← present_surface_held client surface gamma;
  _ ← checked;
  _ ← bump64 PRESENT_COUNT;
  _ ← checked;
  _ ← w32 PRESENTED_SURFACE surface;
  _ ← checked;
  w32 FIELD_FA4 0.
Definition present_surface (surface : Z) (gamma : GammaTableArgs) : M unit :=
  keep ← asks core; present_surface_locked keep surface gamma.

(** The format and the bytes per pixel of a mapped present. *)
Definition mapped_pixel_format (format : Z) : M (option (Z * Z)) :=
  if format =? FOURCC_BGRA then mret (Some (MTL_PIXEL_FORMAT_BGRA8_UNORM, 4))
  else if format =? FOURCC_RGBA then mret (Some (MTL_PIXEL_FORMAT_RGBA8_UNORM, 4))
  else if format =? FOURCC_RGHA then
    alive ← asks device;
    _ ← require_that alive RghaWithoutDevice;
    mret (Some (MTL_PIXEL_FORMAT_RGBA16_FLOAT, 8))
  else mret None.

(** The colour space's dirt goes to the client with the frame. *)
Definition hand_space : M unit :=
  dirty ← asks guest_color_space_dirty;
  if dirty : bool then _ ← modify (with_space_dirty false); tell SpaceDirty else mret tt.

Definition present_mapped_retained (client : option Core) (io_surface : option Surface)
    (gamma : GammaTableArgs) : M unit :=
  match io_surface with
  | None => raise (Own MappingId)
  | Some io =>
      format ← mapped_pixel_format (pixel_format io);
      match format with
      | None => raise (Own PixelFormat)
      | Some (mtl_format, bytes) =>
          if negb (bytes_per_element io =? bytes) then raise (Own BytesPerPixel)
          else
            let w := surface_width io in
            let h := surface_height io in
            _ ← part (NewDescriptor mtl_format w h) (texture_2d_descriptor mtl_format w h);
            alive ← asks device;
            texture ← (if alive : bool
                       then part (NewTexture mtl_format w h) (new_texture_on_surface io)
                       else mret false);
            _ ← require_that texture MappedTextureRefused;
            _ ← with_gamma gamma;
            match presenting client with
            | Some _ => _ ← hand_space; hand_frame true io gamma
            | None => completion
            end
      end
  end.
Definition presented_mapped_surface (surface : Z) : M unit :=
  _ ← checked;
  _ ← bump64 PRESENT_COUNT;
  _ ← checked;
  _ ← w64 PRESENTED_MAPPING_ID surface;
  _ ← checked;
  w32 FIELD_FA4 0.
(** The mapper's surface, none for a device gone. *)
Definition retain_surface (surface : Z) : M (option Surface) :=
  alive ← asks device;
  if alive : bool then
    before ← asks calls;
    _ ← tell (MappedSurface surface);
    mret (mapped_surface surface before)
  else mret None.
Definition present_mapped_surface_locked (client : option Core) (surface : Z)
    (gamma : GammaTableArgs) : M unit :=
  _ ← assert_running;
  task ← kernel_task Memory.Return;
  if negb task then raise (Own NoKernelTask)
  else
    io ← retain_surface surface;
    _ ← present_mapped_retained client io gamma;
    presented_mapped_surface surface.
Definition present_mapped_surface (surface : Z) (gamma : GammaTableArgs) : M unit :=
  keep ← asks core; present_mapped_surface_locked keep surface gamma.

(** ** The properties and sleep *)

Definition copy_page (off : Z) (src : list byte) : M unit := fun s =>
  match GuestPtr.copy_from (R := Empty_set) (OfGuestDisplay NullPage) false (memory s) (page s)
    off src (OfGuestDisplay NullPage) with
  | Ret m => Ret (tt, with_memory m s)
  | Raised e => match e with end
  | Died d => Died d
  end.
(** A property's words, as bytes. *)
Definition set_property (property : Z) (value : list byte) (count : Z) : M unit :=
  _ ← assert_running;
  if property =? 0 then
    _ ← checked;
    if negb (count =? COLOR_MATRIX_WORDS) then raise (Own PropertyWordCount)
    else
      w ← r8 COLOR_MATRIX_WRITE_INDEX;
      _ ← color_matrix_access w 0 0 COLOR_MATRIX_SIZE;
      _ ← copy_page (color_matrix w 0 0) (take (Z.to_nat COLOR_MATRIX_SIZE) value);
      w8 COLOR_MATRIX_DIRTY 1
  else raise (Own UnknownProperty).

Definition sleep_state_locked (client : option Core) (v : Z) : M unit :=
  _ ← assert_running;
  _ ← (match client with
       | Some c => if queue c then GuestCursor.dispatch c (SleepBlock v) else mret tt
       | None => mret tt
       end);
  _ ← modify (with_asleep v);
  _ ← checked;
  w8 ASLEEP v.
Definition sleep_state (v : Z) : M unit := keep ← asks core; sleep_state_locked keep v.

(** ** The end of a restore *)

(** The page's glyph record, and its show byte, where it has a glyph. *)
Definition page_glyph : M GuestCursor.CursorGlyphArgs :=
  _ ← checked;
  offset ← r64 CURSOR_GLYPH_VIRTUAL_OFFSET;
  length ← r64 CURSOR_GLYPH_MAPPED_LENGTH;
  stride ← r64 CURSOR_GLYPH_STRIDE;
  width ← r16 CURSOR_GLYPH_WIDTH;
  height ← r16 CURSOR_GLYPH_HEIGHT;
  hot_x ← r16 CURSOR_GLYPH_HOT_SPOT_X;
  hot_y ← r16 CURSOR_GLYPH_HOT_SPOT_Y;
  sum ← r32 CURSOR_GLYPH_SUM;
  mret (GuestCursor.MkGlyph offset length stride width height hot_x hot_y sum).
Definition restore_glyph (client : option Core) : M unit :=
  _ ← checked;
  length ← r64 CURSOR_GLYPH_MAPPED_LENGTH;
  if length =? 0 then mret tt
  else
    args ← page_glyph;
    _ ← GuestCursor.cursor_glyph_locked client args;
    _ ← checked;
    show ← r8 CURSOR_SHOW;
    GuestCursor.cursor_show_locked client show.

(** The page's last present again, or its sleep. *)
Definition page_gamma : M GammaTableArgs :=
  offset ← r64 GAMMA_TABLE_VIRTUAL_OFFSET;
  length ← r64 GAMMA_TABLE_MAPPED_LENGTH;
  count ← r32 GAMMA_TABLE_ENTRY_COUNT;
  sum ← r32 GAMMA_TABLE_SUM;
  mret (MkGamma offset length count sum).
Definition was_presenting : M bool :=
  _ ← checked;
  count ← r64 PRESENT_COUNT;
  if count =? 0 then mret false
  else
    _ ← checked;
    asleep ← r8 ASLEEP;
    mret (Z.land asleep 1 =? 0).
Definition restore_present (client : option Core) : M unit :=
  presented ← was_presenting;
  if presented : bool then
    _ ← checked;
    surface ← r64 PRESENTED_MAPPING_ID;
    gamma ← page_gamma;
    present_mapped_surface_locked client surface gamma
  else
    _ ← checked;
    asleep ← r8 ASLEEP;
    if asleep =? 1 then
      _ ← checked;
      asleep ← r8 ASLEEP;
      sleep_state_locked client asleep
    else mret tt.

(** A raise on the way is logged and the rest skipped. *)
Definition landed (m : M unit) : M unit := fun s =>
  match m s with
  | Raised (_, s') => Ret (tt, s')
  | r => r
  end.
Definition finish_restore : M unit :=
  will_restore ← asks will_restore;
  _ ← require_that will_restore FinishRestoreUnexpected;
  _ ← modify (with_will_restore false);
  _ ← modify (with_did_restore true);
  _ ← assert_running;
  client ← asks core;
  landed (
    _ ← restore_glyph client;
    _ ← checked;
    _ ← w8 COLOR_MATRIX_FORCE_READ 1;
    _ ← restore_present client;
    state_machine Memory.Return client).

(** ** The colour matrices *)

Lemma copy_page_is off src s :
  page_ok s -> 0 <= off -> off + Z.of_nat (length src) <= 0x4000 ->
  exists m, copy_page off src s = Ret (tt, with_memory m s) /\
    forall x, m x = GuestPtr.store_at (memory s) (page s + off) src x.
Proof.
  intros Hp Ho Hl. unfold copy_page, GuestPtr.copy_from, GuestPtr.stop_if_task_ended.
  cbv iota. rewrite bind_ret_l. destruct src as [|b src].
  { exists (memory s). rewrite with_memory_same. split; [done|]. intros x.
    by rewrite GuestPtr.store_at_out by (cbn [length]; lia). }
  rewrite check_page, bind_ret_l by (done || lia). eexists. split; [reflexivity|]. intros x.
  destruct Hp as (Hz&_&Hp). unfold GuestPtr.ZERO_REGION_END in Hz.
  rewrite GuestPtr.copy_from_loop_store by lia. by rewrite Z.add_0_r.
Qed.

(** The page with the two indices flipped, and a matrix taken. *)
Definition flipped (s : State) : State :=
  let w := fld 1 s COLOR_MATRIX_WRITE_INDEX in
  stored 1 COLOR_MATRIX_DIRTY 0
    (stored 1 COLOR_MATRIX_WRITE_INDEX (if w =? 0 then 1 else 0)
      (stored 1 COLOR_MATRIX_READ_INDEX w s)).
Definition matrix_index (s : State) : option Z :=
  if fld 1 s COLOR_MATRIX_FORCE_READ =? 0 then
    if fld 1 s COLOR_MATRIX_DIRTY =? 0 then None else Some (fld 1 s COLOR_MATRIX_WRITE_INDEX)
  else Some (fld 1 s COLOR_MATRIX_READ_INDEX).
Definition matrix_taken (s : State) : State :=
  if fld 1 s COLOR_MATRIX_FORCE_READ =? 0 then
    if fld 1 s COLOR_MATRIX_DIRTY =? 0 then s else stored 1 COLOR_MATRIX_FORCE_READ 0 (flipped s)
  else stored 1 COLOR_MATRIX_FORCE_READ 0 s.
Lemma twp_take_matrix Q (X : Raise R -> State -> Prop) s :
  page_ok s -> paused s = false -> Q (matrix_index s) (matrix_taken s) ->
  twp take_dirty_color_matrix Q X s.
Proof.
  intros Hp Hr HQ. unfold take_dirty_color_matrix, take_index, flip_matrices, matrix_index,
    matrix_taken in *.
  twp_go. apply twp_running; [done|]. twp_go. apply twp_checked; [done|]. twp_go.
  apply twp_read; [done..|].
  destruct (fld 1 s COLOR_MATRIX_FORCE_READ =? 0); twp_go; (apply twp_read; [done..|]).
  - destruct (_ =? 0); [by rewrite twp_ret|]. twp_go.
    apply twp_read; [done..|]. do 3 (twp_go; apply twp_write; [done..|]). twp_go.
    apply twp_read; [done..|]. twp_go. apply twp_write; [done..|]. rewrite twp_ret.
    assert (fld 1 (flipped s) COLOR_MATRIX_READ_INDEX = fld 1 s COLOR_MATRIX_WRITE_INDEX) as E.
    { unfold flipped. rewrite !fld_stored_ne by reflexivity. apply fld_stored, (get_range 1). }
    change (Q (Some (fld 1 (flipped s) COLOR_MATRIX_READ_INDEX))
      (stored 1 COLOR_MATRIX_FORCE_READ 0 (flipped s))). by rewrite E.
  - twp_go. apply twp_write; [done..|]. by rewrite twp_ret.
Qed.

Lemma color_matrix_start k : 0 <= k < 256 -> color_matrix k 0 0 = 0xa10 + 48 * k.
Proof. intros. rewrite color_matrix_at by lia. lia. Qed.
(** A colour matrix property, at the guest's write index. *)
Lemma set_property_is value s :
  page_ok s -> paused s = false -> length value = 48%nat ->
  fld 1 s COLOR_MATRIX_WRITE_INDEX <= 1 ->
  exists m, set_property 0 value 12 s = Ret (tt, stored 1 COLOR_MATRIX_DIRTY 1 (with_memory m s)) /\
    forall x, m x = GuestPtr.store_at (memory s)
      (page s + color_matrix (fld 1 s COLOR_MATRIX_WRITE_INDEX) 0 0) value x.
Proof.
  intros Hp Hr Hl Hw. pose proof (get_range 1 (memory s) (page s + COLOR_MATRIX_WRITE_INDEX)) as Hw0.
  fold (fld 1 s COLOR_MATRIX_WRITE_INDEX) in Hw0.
  set (w := fld 1 s COLOR_MATRIX_WRITE_INDEX) in *.
  pose proof (color_matrix_start w ltac:(lia)) as Ec.
  destruct (copy_page_is (color_matrix w 0 0) value s Hp) as (m&Em&Hm); [lia..|].
  exists m. split; [|exact Hm]. apply twp_Ret. unfold set_property. twp_go.
  apply twp_running; [done|]. change (0 =? 0) with true. twp_go. apply twp_checked; [done|].
  change (negb (12 =? COLOR_MATRIX_WORDS)) with false. twp_go. apply twp_read; [done..|].
  fold w. twp_go.
  assert (forall P, P tt s -> twp (color_matrix_access w 0 0 COLOR_MATRIX_SIZE) P
    (fun (_ : Raise R) _ => False) s) as Ha.
  { intros P HP. unfold color_matrix_access. destruct GuestRecords.arch eqn:Et; [|by rewrite twp_ret].
    apply twp_require; [|exact HP]. unfold color_matrix_in_page, PAGE_LENGTH, checked_add64.
    destruct GuestRecords.page_size as (_&Hz&_). rewrite Ec. unfold COLOR_MATRIX_SIZE.
    destruct (Z.ltb_spec (0xa10 + 48 * w + 48) M64) as [|Ho]; [apply Z.leb_le; lia|].
    rewrite M64_val in Ho. lia. }
  apply Ha. twp_go. replace (take (Z.to_nat COLOR_MATRIX_SIZE) value) with value
    by (symmetry; apply take_ge; rewrite Hl; done).
  unfold twp at 1. rewrite Em. by apply twp_write.
Qed.

(** The matrix a present took is safe from the guest's next one. With two matrices in
    use, a dirty one is presented once: the present takes the index the guest wrote, the
    guest's index becomes the other, and the next colour matrix property writes its 48
    bytes there, marks it dirty and leaves the one presented as it was. *)
Theorem presented_matrix_kept value s :
  page_ok s -> paused s = false -> length value = 48%nat ->
  fld 1 s COLOR_MATRIX_FORCE_READ = 0 -> fld 1 s COLOR_MATRIX_DIRTY <> 0 ->
  fld 1 s COLOR_MATRIX_WRITE_INDEX <= 1 ->
  let i := fld 1 s COLOR_MATRIX_WRITE_INDEX in
  exists s1 s2,
    take_dirty_color_matrix s = Ret (Some i, s1) /\
    fld 1 s1 COLOR_MATRIX_READ_INDEX = i /\ fld 1 s1 COLOR_MATRIX_WRITE_INDEX = 1 - i /\
    take_dirty_color_matrix s1 = Ret (None, s1) /\
    set_property 0 value 12 s1 = Ret (tt, s2) /\ fld 1 s2 COLOR_MATRIX_DIRTY = 1 /\
    GuestPtr.bytes_at (memory s2) (page s + color_matrix (1 - i) 0 0) 48 = value /\
    GuestPtr.bytes_at (memory s2) (page s + color_matrix i 0 0) 48 =
      GuestPtr.bytes_at (memory s) (page s + color_matrix i 0 0) 48.
Proof.
  intros Hp Hr Hl Hf Hd Hw. cbn zeta. set (i := fld 1 s COLOR_MATRIX_WRITE_INDEX) in *.
  pose proof (get_range 1 (memory s) (page s + COLOR_MATRIX_WRITE_INDEX)) as Hi0.
  fold (fld 1 s COLOR_MATRIX_WRITE_INDEX) in Hi0. fold i in Hi0. change (256 ^ Z.of_nat 1) with 256 in Hi0.
  set (s1 := matrix_taken s).
  assert (matrix_index s = Some i /\ s1 = stored 1 COLOR_MATRIX_FORCE_READ 0 (flipped s)) as [Em E1].
  { unfold s1, matrix_index, matrix_taken. rewrite Hf, (proj2 (Z.eqb_neq _ _) Hd). done. }
  assert (take_dirty_color_matrix s = Ret (Some i, s1)) as Et1
    by (apply twp_Ret; apply twp_take_matrix; by rewrite ?Em).
  assert (page_ok s1 /\ paused s1 = false /\ page s1 = page s) as (Hp1&Hr1&Ep1) by by rewrite E1.
  assert ((if i =? 0 then 1 else 0) = 1 - i) as Eo by (destruct (Z.eqb_spec i 0); lia).
  assert (fld 1 s1 COLOR_MATRIX_READ_INDEX = i /\ fld 1 s1 COLOR_MATRIX_WRITE_INDEX = 1 - i /\
    fld 1 s1 COLOR_MATRIX_FORCE_READ = 0 /\ fld 1 s1 COLOR_MATRIX_DIRTY = 0) as (Er&Ew&Ef&Ed).
  { rewrite E1. unfold flipped. fold i. cbv zeta. rewrite Eo. assert (0 <= 0 < 256) as Hz by done.
    assert (0 <= 1 - i < 256) by lia. split_and!; GuestCursor.page_fields. }
  destruct (set_property_is value s1 Hp1 Hr1 Hl) as (m&E2&Hm); [by rewrite Ew; lia|].
  exists s1. eexists. split; [exact Et1|]. split; [exact Er|]. split; [exact Ew|]. split.
  { apply twp_Ret. apply twp_take_matrix; [done..|]. unfold matrix_index, matrix_taken.
    by rewrite Ef, Ed. }
  split; [exact E2|]. split; [by apply fld_stored|]. rewrite Ew, Ep1 in Hm.
  pose proof (color_matrix_start i ltac:(lia)) as Ei.
  pose proof (color_matrix_start (1 - i) ltac:(lia)) as Ej.
  assert (forall x, page s + 0xa10 <= x < page s + 0xa10 + 96 ->
    memory (stored 1 COLOR_MATRIX_DIRTY 1 (with_memory m s1)) x = m x) as Hout.
  { intros x Hx. unfold stored. rewrite memory_with_memory, page_with_memory, Ep1.
    apply put_same_outside. unfold COLOR_MATRIX_DIRTY. lia. }
  split.
  - etrans; [|apply (GuestPtr.bytes_at_store (memory s1) (page s + color_matrix (1 - i) 0 0) value)].
    rewrite Hl. apply GuestPtr.bytes_at_ext. intros x Hx. rewrite Hout by lia. apply Hm.
  - apply GuestPtr.bytes_at_ext. intros x Hx. rewrite Hout, Hm by lia.
    rewrite GuestPtr.store_at_out by (rewrite Hl; lia). rewrite E1. unfold flipped, stored.
    cbn [memory page with_memory]. rewrite !put_same_outside; [done|..];
      unfold COLOR_MATRIX_READ_INDEX, COLOR_MATRIX_WRITE_INDEX, COLOR_MATRIX_DIRTY,
        COLOR_MATRIX_FORCE_READ; lia.
Qed.

(** ** What a present may touch *)

Definition is_frame (c : Call) : bool :=
  match c with PresentFrame _ _ _ _ _ => true | _ => false end.
Definition frames_of (cs : list Call) : list Call := List.filter is_frame cs.
(** Apart from the interrupts raised, the colour matrices' bytes and the gamma record. *)
Definition untouched (n : nat) (off : Z) : bool :=
  clear 4 RAISED_INTERRUPTS n off && clear 4 COLOR_MATRIX_READ_INDEX n off &&
  clear 24 GAMMA_TABLE_VIRTUAL_OFFSET n off.
(** The steps of a present that hands the display [fs]. *)
Record presents (fs : list Call) (s s' : State) : Prop := {
  pr_page : page s' = page s;
  pr_paused : paused s' = paused s;
  pr_device : device s' = device s;
  pr_core : core s' = core s;
  pr_asleep : asleep s' = asleep s;
  pr_modes : mode_list s' = mode_list s;
  pr_will : will_restore s' = will_restore s;
  pr_did : did_restore s' = did_restore s;
  pr_fields : forall n off, untouched n off = true -> fld n s' off = fld n s off;
  pr_calls : exists cs, calls s' = calls s ++ cs /\ frames_of cs = fs;
}.
Lemma presents_refl s : presents [] s s.
Proof. split; try done. exists []. by rewrite app_nil_r. Qed.
Lemma presents_app fs gs s s1 s2 : presents fs s s1 -> presents gs s1 s2 -> presents (fs ++ gs) s s2.
Proof.
  intros [] []. split; try congruence.
  - intros n off Hu. by rewrite pr_fields1, pr_fields0.
  - destruct pr_calls0 as (cs&Hc&Hf), pr_calls1 as (ds&Hd&Hg). exists (cs ++ ds).
    rewrite Hd, Hc, app_assoc. split; [done|]. unfold frames_of in *.
    by rewrite List.filter_app, Hf, Hg.
Qed.
Lemma presents_call c s s1 :
  presents [] s s1 -> presents (frames_of [c]) s (with_calls (calls s1 ++ [c]) s1).
Proof.
  intros Hs. apply (presents_app [] _ _ _ _ Hs). split; try done. by exists [c].
Qed.
Lemma presents_stored fs n off v s s1 :
  (forall k at_, untouched k at_ = true -> clear n off k at_ = true) ->
  presents fs s s1 -> presents fs s (stored n off v s1).
Proof.
  intros Hc Hs. rewrite <- (app_nil_r fs). apply (presents_app fs [] _ _ _ Hs).
  split; try done; [|exists []; by rewrite app_nil_r]. intros k at_ Hu. apply fld_stored_ne. by apply Hc.
Qed.
Ltac within_present :=
  repeat (apply presents_stored; [
    intros k at_; unfold untouched, clear, RAISED_INTERRUPTS, COLOR_MATRIX_READ_INDEX,
      COLOR_MATRIX_WRITE_INDEX, COLOR_MATRIX_FORCE_READ, COLOR_MATRIX_DIRTY,
      GAMMA_TABLE_VIRTUAL_OFFSET, GAMMA_TABLE_MAPPED_LENGTH, GAMMA_TABLE_ENTRY_COUNT,
      GAMMA_TABLE_SUM; rewrite !andb_true_iff, !orb_true_iff, !Z.leb_le; lia|]).

Lemma twp_store_gamma gamma Q (X : Raise R -> State -> Prop) s :
  page_ok s -> paused s = false ->
  (entry_count gamma <= GAMMA_ENTRY_LIMIT -> mul64 (entry_count gamma) 4 <= gamma_length gamma ->
    Q tt (stored 4 GAMMA_TABLE_SUM (gamma_sum gamma)
      (stored 4 GAMMA_TABLE_ENTRY_COUNT (entry_count gamma)
      (stored 8 GAMMA_TABLE_MAPPED_LENGTH (gamma_length gamma)
      (stored 8 GAMMA_TABLE_VIRTUAL_OFFSET (gamma_offset gamma) s))))) ->
  (GAMMA_ENTRY_LIMIT < entry_count gamma \/ gamma_length gamma < mul64 (entry_count gamma) 4 ->
    X (Own GammaTable) s) ->
  twp (store_gamma_table gamma) Q X s.
Proof.
  intros Hp Hr HQ HX. unfold store_gamma_table. twp_go. apply twp_running; [done|]. twp_go.
  destruct (_ || _) eqn:E.
  - rewrite twp_raise. apply HX. rewrite orb_true_iff, !Z.ltb_lt in E. done.
  - to_props. twp_go. apply twp_checked; [done|]. do 3 (twp_go; apply twp_write; [done..|]).
    twp_go. apply twp_write; [done..|]. by apply HQ.
Qed.
Lemma twp_with_gamma fs gamma s0 Q (X : Raise R -> State -> Prop) s :
  page_ok s -> paused s = false -> presents fs s0 s ->
  (forall s', presents fs s0 s' -> Q tt s') -> (forall e s', presents fs s0 s' -> X e s') ->
  twp (with_gamma gamma) Q X s.
Proof.
  intros Hp Hr Hs HQ HX. unfold with_gamma. destruct (_ =? 0); [by rewrite twp_ret; apply HQ|].
  apply twp_store_gamma; [done..|intros _ _; apply HQ; by within_present|intros _; by apply HX].
Qed.

(** ** The presents *)

Definition frame_of (io : Surface) (gamma : GammaTableArgs) (texture : bool) (matrix : option Z)
    : Call :=
  PresentFrame texture (pixel_format io) (requirements io)
    (gamma_offset gamma, gamma_length gamma, entry_count gamma, gamma_sum gamma) matrix.

(** The device's parts, the textures and the display answer or raise. *)
Record frames_answer : Prop := {
  answers_task : forall h, match get_kernel_task Memory.Return h with Died _ => False | _ => True end;
  answers_backing : forall id h,
    match prepared_backing_for_id id h with
    | Died _ | Ret None | Ret (Some (Backing None (_ :: _))) => False
    | _ => True
    end;
  answers_view : forall t f h, match new_texture_view t f h with Died _ => False | _ => True end;
  answers_descriptor : forall f w k h,
    match texture_2d_descriptor f w k h with Died _ => False | _ => True end;
  answers_texture : forall io h,
    match new_texture_on_surface io h with Died _ | Ret false => False | _ => True end;
  answers_frame : forall c h, match present_frame c h with Died _ => False | _ => True end;
}.

Lemma presents_page_ok fs s s' : presents fs s s' -> page_ok s -> page_ok s'.
Proof. unfold page_ok. intros []. by rewrite pr_page0. Qed.
Lemma presents_taken fs s s1 : presents fs s s1 -> presents fs s (matrix_taken s1).
Proof.
  intros Hs. unfold matrix_taken, flipped. cbv zeta.
  destruct (_ =? 0); [destruct (_ =? 0); [done|]|]; by within_present.
Qed.

Lemma twp_part_eq {A} s0 fs c (m : list Call -> outcome R ddeath A) Q
    (X : Raise R -> State -> Prop) s :
  presents fs s0 s -> (match m (calls s) with Died _ => False | _ => True end) ->
  (forall a s', m (calls s) = Ret a -> presents (fs ++ frames_of [c]) s0 s' -> Q a s') ->
  (forall e s', presents (fs ++ frames_of [c]) s0 s' -> X e s') -> twp (part c m) Q X s.
Proof.
  intros Hs Hd HQ HX.
  assert (presents (fs ++ frames_of [c]) s0 (with_calls (calls s ++ [c]) s)) as Hc.
  { apply (presents_app _ _ _ _ _ Hs). split; try done. by exists [c]. }
  unfold twp, part. destruct (m (calls s)); [by apply HQ|by apply HX|done].
Qed.

Section Steps.
Context (Hk : frames_answer) (s0 : State) (Hp0 : page_ok s0) (Hr0 : paused s0 = false).

Lemma step_page fs s : presents fs s0 s -> page_ok s /\ paused s = false.
Proof. intros Hs. split; [by eapply presents_page_ok|]. by rewrite (pr_paused _ _ _ Hs). Qed.

Lemma twp_hand_frame texture io gamma Q (X : Raise R -> State -> Prop) s :
  presents [] s0 s ->
  (forall matrix s', presents [frame_of io gamma texture matrix] s0 s' -> Q tt s') ->
  (forall e matrix s', presents [frame_of io gamma texture matrix] s0 s' -> X e s') ->
  twp (hand_frame texture io gamma) Q X s.
Proof.
  intros Hs HQ HX. destruct (step_page _ _ Hs) as [Hp Hr]. unfold hand_frame. twp_go.
  apply twp_take_matrix; [done..|]. twp_go.
  pose proof (presents_taken _ _ _ Hs) as Ht. fold (frame_of io gamma texture (matrix_index s)).
  pose proof (presents_call (frame_of io gamma texture (matrix_index s)) _ _ Ht) as Hc.
  apply twp_part; [apply Hk|intros _|intros e; by apply (HX e) in Hc]. twp_go.
  destruct (_ =? 0); [|rewrite twp_ret; by apply HQ in Hc]. unfold tell. rewrite twp_modify.
  apply (HQ (matrix_index s)). apply (presents_app _ [] _ _ _ Hc).
  split; try done. by exists [SignalCurrentFrame].
Qed.
Lemma twp_completion fs Q (X : Raise R -> State -> Prop) s :
  presents fs s0 s ->
  (forall s', presents fs s0 s' ->
    fld 4 s' RAISED_INTERRUPTS = Z.lor (fld 4 s RAISED_INTERRUPTS) INTERRUPT_PRESENT -> Q tt s') ->
  twp completion Q X s.
Proof.
  intros Hs HQ. destruct (step_page _ _ Hs) as [Hp Hr]. unfold completion. twp_go.
  apply twp_checked; [done|]. twp_go. apply twp_fetch_or; [done..|]. twp_go.
  apply twp_checked; [done|]. twp_go. apply twp_load; [done..|].
  set (s1 := stored _ _ _ s). assert (presents fs s0 s1) as Hs1 by (unfold s1; by within_present).
  assert (fld 4 s1 RAISED_INTERRUPTS = Z.lor (fld 4 s RAISED_INTERRUPTS) INTERRUPT_PRESENT) as E1.
  { apply fld_stored, lor_u32; [apply (get_range 4)|done]. }
  destruct (_ =? 0); [rewrite twp_ret; by apply HQ|]. unfold poke. twp_go.
  destruct (device s1); [|rewrite twp_ret; by apply HQ]. unfold tell. rewrite twp_modify.
  apply HQ; [|exact E1]. rewrite <- (app_nil_r fs).
  apply (presents_app fs [] _ _ _ Hs1). split; try done. by exists [Poke (port s1)].
Qed.
Lemma twp_task fs Q (X : Raise R -> State -> Prop) s :
  presents fs s0 s -> (forall s', presents fs s0 s' -> Q (device s0) s') ->
  (forall e s', presents fs s0 s' -> X e s') -> twp (kernel_task Memory.Return) Q X s.
Proof.
  intros Hs HQ HX. unfold kernel_task. twp_go. rewrite (pr_device _ _ _ Hs).
  destruct (device s0); twp_go; [|by apply HQ].
  assert (presents fs s0 (with_calls (calls s ++ [KernelTask]) s)) as Hc.
  { rewrite <- (app_nil_r fs). apply (presents_app fs [] _ _ _ Hs). split; try done. by exists [KernelTask]. }
  apply twp_part; [apply Hk|intros _; twp_go; by apply HQ|intros e; by apply HX].
Qed.

(** What a present shows: one frame of a surface and its texture that are [ok] where a client
    presents, and else the present interrupt at once. A raise shows at most such a frame. *)
Definition shown (ok : Surface -> bool -> Prop) (client : option Core) (gamma : GammaTableArgs)
    (s s' : State) : Prop :=
  exists io texture, ok io texture /\
    match presenting client with
    | Some _ => exists matrix, presents [frame_of io gamma texture matrix] s s'
    | None => presents [] s s' /\
        Z.land (fld 4 s' RAISED_INTERRUPTS) INTERRUPT_PRESENT = INTERRUPT_PRESENT
    end.
Definition unshown (ok : Surface -> bool -> Prop) (gamma : GammaTableArgs) (s s' : State) : Prop :=
  presents [] s s' \/
  exists io texture matrix, ok io texture /\ presents [frame_of io gamma texture matrix] s s'.

(** The end of both presents: the gamma table, then the frame or the completion. *)
Lemma twp_shown_frame (ok : Surface -> bool -> Prop) client gamma texture io c Q
    (X : Raise R -> State -> Prop) s :
  ok io texture -> presenting client = Some c -> presents [] s0 s ->
  (forall s', shown ok client gamma s0 s' -> Q tt s') ->
  (forall e s', unshown ok gamma s0 s' -> X e s') ->
  twp (hand_frame texture io gamma) Q X s.
Proof.
  intros Hok Hc Hs HQ HX. unfold shown in HQ. rewrite Hc in HQ. apply twp_hand_frame; [done| |].
  - intros matrix s' Hs'. apply HQ. exists io, texture. split; [done|]. by exists matrix.
  - intros e matrix s' Hs'. apply HX. right. by exists io, texture, matrix.
Qed.
Lemma twp_show (ok : Surface -> bool -> Prop) client gamma io texture (frame : M unit) Q
    (X : Raise R -> State -> Prop) s :
  ok io texture -> presents [] s0 s ->
  (forall c s, presenting client = Some c -> presents [] s0 s -> twp frame Q X s) ->
  (forall s', shown ok client gamma s0 s' -> Q tt s') ->
  (forall e s', unshown ok gamma s0 s' -> X e s') ->
  twp (_ ← with_gamma gamma;
       match presenting client with
       | Some _ => frame
       | None => completion
       end) Q X s.
Proof.
  intros Hok Hs Hb HQ HX. destruct (step_page _ _ Hs) as [Hp Hr]. twp_go.
  apply (twp_with_gamma [] gamma s0); [done..| |intros e s' Hs'; apply HX; by left].
  intros s1 Hs1. unfold shown in HQ. destruct (presenting client) as [c|]; [by apply (Hb c)|].
  apply (twp_completion []); [done|]. intros s' Hs' E. apply HQ. exists io, texture. split; [done|].
  split; [done|]. rewrite E, Z.land_lor_distr_l, Z.land_diag. apply Z.bits_inj'. intros i Hi.
  rewrite Z.lor_spec, Z.land_spec. by destruct (Z.testbit (fld 4 s1 _) i), (Z.testbit INTERRUPT_PRESENT i).
Qed.

(** The surface of the backing [surface] as the kernel task has it prepared, in a presentable
    format, its protection allowed by the page, and the view in that format of the backing's
    first texture. *)
Definition presentable (s : State) (surface : Z) (io : Surface) (view : bool) : Prop :=
  view_format io <> 0 /\
  Z.lor (fld 8 s PROTECTION_OPTIONS) (requirements io) = fld 8 s PROTECTION_OPTIONS /\
  exists texture textures cs ds,
    prepared_backing_for_id surface (calls s ++ cs)
      = Ret (Some (Backing (Some io) (texture :: textures))) /\
    new_texture_view texture (view_format io) (calls s ++ ds) = Ret view.
Lemma twp_present_surface_held client surface gamma Q (X : Raise R -> State -> Prop) :
  device s0 = true ->
  (forall s', shown (presentable s0 surface) client gamma s0 s' -> Q tt s') ->
  (forall e s', unshown (presentable s0 surface) gamma s0 s' -> X e s') ->
  twp (present_surface_held client surface gamma) Q X s0.
Proof.
  intros Hd HQ HX. unfold present_surface_held. twp_go.
  assert (forall e s', presents [] s0 s' -> X e s') as HX0 by (intros; apply HX; by left).
  apply (twp_task []); [apply presents_refl| |done]. intros s1 Hs1. twp_go.
  apply twp_require; [exact Hd|]. twp_go.
  pose proof (answers_backing Hk surface (calls s1)) as Hb.
  apply (twp_part_eq s0 []); [done| | |by intros e s' Hs'; apply HX0].
  { revert Hb. by destruct (prepared_backing_for_id surface (calls s1)) as [[[[io|] [|??]|]|]|?|?]. }
  intros b s2 Eb Hs3.
  rewrite Eb in Hb. twp_go. unfold backing_surface.
  destruct b as [[[io|] [|texture textures]|]|]; rewrite ?twp_raise; try done; try by apply HX0.
  twp_go. destruct (Z.eqb_spec (view_format io) 0) as [|Hf]; [rewrite twp_raise; by apply HX0|].
  destruct (step_page _ _ Hs3) as [Hp Hr]. twp_go. apply twp_checked; [done|]. twp_go.
  apply twp_read; [done..|]. twp_go. apply twp_read; [done..|].
  rewrite (pr_fields _ _ _ Hs3) by reflexivity.
  destruct (Z.eqb_spec (Z.lor (fld 8 s0 PROTECTION_OPTIONS) (requirements io))
    (fld 8 s0 PROTECTION_OPTIONS)) as [Ho|]; cbn [negb]; [|rewrite twp_raise; by apply HX0].
  twp_go. apply (twp_part_eq s0 []); [done|apply Hk|intros view s4 Ev Hs4|intros e s' Hs'; by apply HX0].
  assert (presentable s0 surface io view) as Hok.
  { destruct (pr_calls _ _ _ Hs1) as (cs&Ecs&_), (pr_calls _ _ _ Hs3) as (ds&Eds&_).
    split; [done|]. split; [done|]. exists texture, textures, cs, ds. by rewrite <- Ecs, <- Eds. }
  apply (twp_show (presentable s0 surface) client gamma io view); [done|done| |done|done].
  intros c s Hc Hs. by apply (twp_shown_frame (presentable s0 surface) client gamma view io c).
Qed.

(** A mapped surface with its format's bytes per pixel. *)
Definition mappable (io : Surface) : Prop :=
  (pixel_format io = FOURCC_BGRA \/ pixel_format io = FOURCC_RGBA) /\ bytes_per_element io = 4 \/
  pixel_format io = FOURCC_RGHA /\ bytes_per_element io = 8.
(** The surface the mapper has under the id, shown by a texture made of it. *)
Definition mapped_under (s : State) (surface : Z) (io : Surface) (texture : bool) : Prop :=
  mappable io /\ texture = true /\ exists cs, mapped_surface surface (calls s ++ cs) = Some io.
Lemma twp_mapped_format io Q (X : Raise R -> State -> Prop) s :
  device s = true ->
  (forall f b, (bytes_per_element io = b -> mappable io) -> Q (Some (f, b)) s) -> Q None s ->
  twp (mapped_pixel_format (pixel_format io)) Q X s.
Proof.
  intros Hd HQ HN. unfold mapped_pixel_format, mappable in *.
  destruct (Z.eqb_spec (pixel_format io) FOURCC_BGRA); [rewrite twp_ret; apply HQ; auto|].
  destruct (Z.eqb_spec (pixel_format io) FOURCC_RGBA); [rewrite twp_ret; apply HQ; auto|].
  destruct (Z.eqb_spec (pixel_format io) FOURCC_RGHA); [|by rewrite twp_ret].
  twp_go. apply twp_require; [done|]. twp_go. apply HQ; auto.
Qed.
Lemma twp_hand_space Q (X : Raise R -> State -> Prop) s :
  presents [] s0 s -> (forall s', presents [] s0 s' -> Q tt s') -> twp hand_space Q X s.
Proof.
  intros Hs HQ. unfold hand_space. twp_go. destruct (guest_color_space_dirty s);
    [|rewrite twp_ret; by apply HQ]. twp_go. unfold tell. rewrite twp_modify.
  apply HQ. apply (presents_app [] [] _ _ _ Hs). split; try done. by exists [SpaceDirty].
Qed.
Lemma twp_present_mapped_retained client surface io gamma Q (X : Raise R -> State -> Prop) s :
  device s0 = true -> presents [] s0 s ->
  (forall io', io = Some io' -> exists cs, mapped_surface surface (calls s0 ++ cs) = Some io') ->
  (forall s', shown (mapped_under s0 surface) client gamma s0 s' -> Q tt s') ->
  (forall e s', unshown (mapped_under s0 surface) gamma s0 s' -> X e s') ->
  twp (present_mapped_retained client io gamma) Q X s.
Proof.
  intros Hd Hs Hsf HQ HX. unfold present_mapped_retained.
  assert (forall e s', presents [] s0 s' -> X e s') as HX0 by (intros; apply HX; by left).
  destruct io as [io|]; [|rewrite twp_raise; by apply HX0]. twp_go.
  apply twp_mapped_format; [by rewrite (pr_device _ _ _ Hs)| |rewrite twp_raise; by apply HX0].
  intros f b Hm. destruct (Z.eqb_spec (bytes_per_element io) b) as [Hb|]; cbn [negb];
    [|rewrite twp_raise; by apply HX0]. twp_go.
  apply (twp_part_eq s0 []); [done|apply Hk| |by intros e s' Hs'; apply HX0].
  intros _ s1 _ Hs1. twp_go. rewrite (pr_device _ _ _ Hs1), Hd. cbn [frames_of List.filter is_frame app] in Hs1.
  pose proof (answers_texture Hk io (calls s1)) as Ht.
  apply (twp_part_eq s0 []); [done| | |by intros e s' Hs'; apply HX0].
  { revert Ht. by destruct (new_texture_on_surface io (calls s1)) as [[|]| |]. }
  intros t s2 Et Hs2. rewrite Et in Ht. destruct t; [|done]. twp_go. apply twp_require; [done|].
  assert (mapped_under s0 surface io true) as Hok by (split_and!; [by apply Hm|done|by apply Hsf]).
  apply (twp_show (mapped_under s0 surface) client gamma io true); [done|done| |done|done].
  intros c s3 Hc Hs3. twp_go. apply twp_hand_space; [done|]. intros s4 Hs4.
  by apply (twp_shown_frame (mapped_under s0 surface) client gamma true io c).
Qed.
Lemma twp_retain surface Q (X : Raise R -> State -> Prop) s :
  presents [] s0 s ->
  (forall io s', presents [] s0 s' ->
    (forall io', io = Some io' -> exists cs, mapped_surface surface (calls s0 ++ cs) = Some io') ->
    Q io s') ->
  twp (retain_surface surface) Q X s.
Proof.
  intros Hs HQ. unfold retain_surface. twp_go. destruct (device s); [|rewrite twp_ret; by apply HQ].
  twp_go. unfold tell. twp_go. apply HQ; [by apply (presents_call (MappedSurface surface))|].
  intros io' Eio. destruct (pr_calls _ _ _ Hs) as (cs&Ecs&_). exists cs. by rewrite <- Ecs.
Qed.

(** The page with a present counted. *)
Definition counted (n : nat) (id surface : Z) (s : State) : State :=
  stored 4 FIELD_FA4 0 (stored n id surface
    (stored 8 PRESENT_COUNT (add64 (fld 8 s PRESENT_COUNT) 1) s)).
Lemma twp_counted n id surface Q (X : Raise R -> State -> Prop) s :
  presents [] s0 s \/ page_ok s /\ paused s = false ->
  0 <= id -> id + Z.of_nat n <= 0x4000 -> Q tt (counted n id surface s) ->
  twp (_ ← checked; _ ← bump64 PRESENT_COUNT; _ ← checked; _ ← write_page n id surface;
       _ ← checked; w32 FIELD_FA4 0) Q X s.
Proof.
  intros Hs Hi Hn HQ. assert (page_ok s /\ paused s = false) as [Hp Hr]
    by (destruct Hs as [Hs|]; [by eapply step_page|done]).
  twp_go. apply twp_checked; [done|]. unfold bump64. twp_go. apply twp_read; [done..|]. twp_go.
  apply twp_write; [done..|]. twp_go. apply twp_checked; [done|]. twp_go. apply twp_write; [done..|].
  twp_go. apply twp_checked; [done|]. by apply twp_write.
Qed.
End Steps.

Lemma shown_page ok client gamma s s' :
  shown ok client gamma s s' -> exists fs, presents fs s s'.
Proof. intros (io&t&_&Hs). destruct (presenting client); [destruct Hs as (m&Hs)|destruct Hs]; eauto. Qed.
Lemma unshown_fields ok gamma s s' n off :
  unshown ok gamma s s' -> untouched n off = true -> fld n s' off = fld n s off.
Proof. intros [Hs|(io&t&m&_&Hs)]; apply Hs. Qed.
Lemma shown_fields ok client gamma s s' n off :
  shown ok client gamma s s' -> untouched n off = true -> fld n s' off = fld n s off.
Proof. intros (fs&Hs)%shown_page. apply Hs. Qed.

(** C36: a present of a backing, on a page that is there, while the display is not paused, its
    device lives, and the parts answer or raise and never answer without a surface
    ([frames_answer]; else the process can end). A present that returns handed the display
    exactly one frame, of the surface of the backing that the kernel task prepares under the
    command's id, in a format it presents, whose protection the page's options allow, with the
    view in that format of the backing's first texture, or, with no display that presents,
    raised the present interrupt at once; and it counted one present of that id in the page. A
    present that raises counts none; and neither touches anything of the page but the
    interrupts raised, the colour matrices' bytes, the gamma record and the present's own
    words. *)
Theorem present_surface_presents surface gamma s :
  page_ok s -> paused s = false -> device s = true -> frames_answer -> u32 surface ->
  match present_surface surface gamma s with
  | Ret (_, s') =>
      (exists s1, shown (presentable s surface) (core s) gamma s s1 /\
        s' = counted 4 PRESENTED_SURFACE surface s1) /\
      fld 8 s' PRESENT_COUNT = add64 (fld 8 s PRESENT_COUNT) 1 /\
      fld 4 s' PRESENTED_SURFACE = surface
  | Raised (_, s') =>
      unshown (presentable s surface) gamma s s' /\
      fld 8 s' PRESENT_COUNT = fld 8 s PRESENT_COUNT /\
      fld 4 s' PRESENTED_SURFACE = fld 4 s PRESENTED_SURFACE
  | Died _ => False
  end.
Proof.
  intros Hp Hr Hd Hk Hu.
  assert (twp (present_surface surface gamma)
    (fun _ s' => exists s1, shown (presentable s surface) (core s) gamma s s1 /\
      s' = counted 4 PRESENTED_SURFACE surface s1)
    (fun _ s' => unshown (presentable s surface) gamma s s') s) as Ht.
  { unfold present_surface, present_surface_locked. twp_go. apply twp_running; [done|]. rewrite twp_bind.
    apply (twp_present_surface_held Hk s Hp Hr); [done| |done]. intros s1 Hs1.
    destruct (shown_page _ _ _ _ _ Hs1) as (fs&Hf).
    apply (twp_counted s Hp Hr 4); [right; by eapply step_page|done..|]. by exists s1. }
  unfold twp in Ht. destruct (present_surface surface gamma s) as [[[] s']|[e s']|]; [|split_and!|done].
  - split; [exact Ht|]. destruct Ht as (s1&Hs1&->). unfold counted.
    assert (0 <= 0 < M32) as Hz by done.
    pose proof (add64_range (fld 8 s1 PRESENT_COUNT) 1) as Hc.
    split; GuestCursor.page_fields. by rewrite (shown_fields _ _ _ _ _ _ _ Hs1) by reflexivity.
  - exact Ht.
  - by apply (unshown_fields _ _ _ _ _ _ Ht).
  - by apply (unshown_fields _ _ _ _ _ _ Ht).
Qed.

Lemma twp_present_mapped client surface gamma s :
  page_ok s -> paused s = false -> device s = true -> frames_answer ->
  twp (present_mapped_surface_locked client surface gamma)
    (fun _ s' => exists s1, shown (mapped_under s surface) client gamma s s1 /\
      s' = counted 8 PRESENTED_MAPPING_ID surface s1)
    (fun _ s' => unshown (mapped_under s surface) gamma s s') s.
Proof.
  intros Hp Hr Hd Hk. unfold present_mapped_surface_locked. twp_go. apply twp_running; [done|]. twp_go.
  assert (forall s' : State, presents [] s s' -> unshown (mapped_under s surface) gamma s s') as HX by (by left).
  apply (twp_task Hk s []); [apply presents_refl| |by intros _]. intros s1 Hs1. rewrite Hd. cbn [negb]. twp_go.
  apply (twp_retain s); [done|]. intros io s2 Hs2 Hio. rewrite twp_bind.
  apply (twp_present_mapped_retained Hk s Hp Hr client surface); [done|done|done| |done]. intros s3 Hs3.
  destruct (shown_page _ _ _ _ _ Hs3) as (fs&Hf).
  unfold presented_mapped_surface. apply (twp_counted s Hp Hr 8); [right; by eapply step_page|done..|]. by exists s3.
Qed.

(** A present of a mapped surface, likewise: one frame, of the surface the mapper has
    under the id, in a format of the mapped presents and with that format's bytes per pixel,
    or the present interrupt at once, and one present counted under the mapping id; a raise
    counts none. *)
Theorem present_mapped_surface_presents surface gamma s :
  page_ok s -> paused s = false -> device s = true -> frames_answer -> u64 surface ->
  match present_mapped_surface surface gamma s with
  | Ret (_, s') =>
      (exists s1, shown (mapped_under s surface) (core s) gamma s s1 /\
        s' = counted 8 PRESENTED_MAPPING_ID surface s1) /\
      fld 8 s' PRESENT_COUNT = add64 (fld 8 s PRESENT_COUNT) 1 /\
      fld 8 s' PRESENTED_MAPPING_ID = surface
  | Raised (_, s') =>
      unshown (mapped_under s surface) gamma s s' /\
      fld 8 s' PRESENT_COUNT = fld 8 s PRESENT_COUNT /\
      fld 8 s' PRESENTED_MAPPING_ID = fld 8 s PRESENTED_MAPPING_ID
  | Died _ => False
  end.
Proof.
  intros Hp Hr Hd Hk Hu. pose proof (twp_present_mapped (core s) surface gamma s Hp Hr Hd Hk) as Ht.
  assert (present_mapped_surface surface gamma s =
    present_mapped_surface_locked (core s) surface gamma s) as ->
    by (unfold present_mapped_surface; by rewrite run_step).
  unfold twp in Ht. destruct (present_mapped_surface_locked _ _ _ _) as [[[] s']|[e s']|];
    [|split_and!|done].
  - split; [exact Ht|]. destruct Ht as (s1&Hs1&->). unfold counted.
    assert (0 <= 0 < M32) as Hz by done.
    pose proof (add64_range (fld 8 s1 PRESENT_COUNT) 1) as Hc.
    split; GuestCursor.page_fields. by rewrite (shown_fields _ _ _ _ _ _ _ Hs1) by reflexivity.
  - exact Ht.
  - by apply (unshown_fields _ _ _ _ _ _ Ht).
  - by apply (unshown_fields _ _ _ _ _ _ Ht).
Qed.

(** The gamma record. A table of more than 1024 entries, or longer than its mapping, is
    refused and the page keeps its record; else the record is the guest's table, within its
    mapping: what the display copies later of [4 * entry_count] bytes per channel fits. *)
Theorem gamma_stored gamma s :
  page_ok s -> paused s = false -> u64 (gamma_offset gamma) -> u64 (gamma_length gamma) ->
  u32 (entry_count gamma) -> u32 (gamma_sum gamma) ->
  match store_gamma_table gamma s with
  | Ret (_, s') =>
      entry_count gamma <= 1024 /\ 4 * entry_count gamma <= gamma_length gamma /\
      fld 8 s' GAMMA_TABLE_VIRTUAL_OFFSET = gamma_offset gamma /\
      fld 8 s' GAMMA_TABLE_MAPPED_LENGTH = gamma_length gamma /\
      fld 4 s' GAMMA_TABLE_ENTRY_COUNT = entry_count gamma /\
      fld 4 s' GAMMA_TABLE_SUM = gamma_sum gamma /\
      same_outside (page s + GAMMA_TABLE_VIRTUAL_OFFSET) 24 (memory s) (memory s')
  | Raised (e, s') =>
      s' = s /\ e = Own GammaTable /\
      (1024 < entry_count gamma \/ gamma_length gamma < 4 * entry_count gamma)
  | Died _ => False
  end.
Proof.
  intros Hp Hr Ho Hl Hc Hs.
  assert (mul64 (entry_count gamma) 4 = 4 * entry_count gamma) as Em by word_lia.
  assert (twp (store_gamma_table gamma) (fun _ s' => entry_count gamma <= 1024 /\
      4 * entry_count gamma <= gamma_length gamma /\
      s' = stored 4 GAMMA_TABLE_SUM (gamma_sum gamma)
        (stored 4 GAMMA_TABLE_ENTRY_COUNT (entry_count gamma)
        (stored 8 GAMMA_TABLE_MAPPED_LENGTH (gamma_length gamma)
        (stored 8 GAMMA_TABLE_VIRTUAL_OFFSET (gamma_offset gamma) s))))
    (fun (e : Raise R) s' => s' = s /\ e = Own GammaTable /\
      (1024 < entry_count gamma \/ gamma_length gamma < 4 * entry_count gamma)) s) as Ht.
  { apply twp_store_gamma; rewrite ?Em; [done..|by intros|by intros]. }
  unfold twp in Ht. destruct (store_gamma_table gamma s) as [[[] s']|[e s']|]; [|done..].
  destruct Ht as (H1024&Hfit&->). split_and!; [done|done|GuestCursor.page_fields..|].
  by GuestCursor.stores_within.
Qed.

(** ** The end of a restore *)

(** What the replay of a page leaves: the machine's words and what it runs on. *)
Record replayed (s s' : State) : Prop := {
  rp_page : page s' = page s;
  rp_paused : paused s' = paused s;
  rp_device : device s' = device s;
  rp_core : core s' = core s;
  rp_modes : mode_list s' = mode_list s;
  rp_will : will_restore s' = will_restore s;
  rp_did : did_restore s' = did_restore s;
  rp_view : view s' = view s;
}.
#[export] Instance replayed_refl : Reflexive replayed.
Proof. by intros s. Qed.
#[export] Instance replayed_trans : Transitive replayed.
Proof. intros a b c [] []. split; congruence. Qed.
Lemma presents_replayed fs s s' : presents fs s s' -> replayed s s'.
Proof. intros []. split; try done. unfold view. by rewrite !pr_fields0 by reflexivity. Qed.
(** The fields the machine does not move. *)
Definition off_view (n : nat) (off : Z) : bool :=
  clear n off 4 STATE && clear n off 1 ACK_PENDING && clear n off 4 EXPECTED_ACK &&
  clear n off 2 MODE_LIST_COUNT.
Lemma replayed_stored n off v s s' :
  off_view n off = true -> replayed s s' -> replayed s (stored n off v s').
Proof.
  intros Ho Hs. etrans; [exact Hs|]. split; try done. unfold off_view in Ho.
  apply andb_prop in Ho as [[[H1' H2']%andb_prop H3']%andb_prop H4']. unfold view.
  by rewrite !fld_stored_ne by done.
Qed.
Lemma replayed_calls cs s s' : replayed s s' -> replayed s (with_calls cs s').
Proof. intros []. by split. Qed.
Lemma replayed_page s s' :
  page_ok s -> paused s = false -> replayed s s' -> page_ok s' /\ paused s' = false.
Proof. intros Hp Hr []. unfold page_ok. by rewrite rp_page0, rp_paused0. Qed.

Section Restore.
Context (Hk : frames_answer) (Hg : forall args, GuestCursor.glyph_answers args).
Context (s0 : State) (Hp0 : page_ok s0) (Hr0 : paused s0 = false) (Hd0 : device s0 = true).

Lemma twp_page_glyph (Q : GuestCursor.CursorGlyphArgs -> State -> Prop) (X : Raise R -> State -> Prop) s :
  page_ok s -> paused s = false -> (forall args, GuestCursor.args_ok args -> Q args s) ->
  twp page_glyph Q X s.
Proof.
  intros Hp Hr HQ. unfold page_glyph. twp_go. apply twp_checked; [done|].
  do 8 (twp_go; apply twp_read; [done..|]). rewrite twp_ret. apply HQ.
  split; cbn; first [apply (get_range 8)|apply (get_range 4)|apply (get_range 2)].
Qed.
Lemma twp_show_again v Q (X : Raise R -> State -> Prop) s :
  replayed s0 s -> (forall s', replayed s0 s' -> Q tt s') ->
  twp (GuestCursor.cursor_show_locked (core s) v) Q X s.
Proof.
  intros Hs HQ. destruct (replayed_page _ _ Hp0 Hr0 Hs) as [Hp Hr].
  unfold GuestCursor.cursor_show_locked. twp_go. apply twp_running; [done|].
  assert (forall s1, replayed s0 s1 -> page_ok s1 -> paused s1 = false ->
    twp (_ ← checked; w8 CURSOR_SHOW v) Q X s1) as Hstore.
  { intros s1 Hs1 Hp1 Hr1. twp_go. apply twp_checked; [done|]. twp_go. apply twp_write; [done..|].
    apply HQ. by apply replayed_stored. }
  destruct (core s) as [c|]; [destruct (queue c && cursor_show_handler c) eqn:E|].
  - apply andb_prop in E as [Eq _]. rewrite twp_bind. apply GuestCursor.twp_dispatch; [done|].
    apply Hstore; [by apply replayed_calls|done..].
  - rewrite twp_bind, twp_ret. by apply Hstore.
  - rewrite twp_bind, twp_ret. by apply Hstore.
Qed.
Lemma twp_restore_glyph Q (X : Raise R -> State -> Prop) s :
  replayed s0 s -> (forall s', replayed s0 s' -> Q tt s') ->
  (forall e s', replayed s0 s' -> X e s') -> twp (restore_glyph (core s)) Q X s.
Proof.
  intros Hs HQ HX. destruct (replayed_page _ _ Hp0 Hr0 Hs) as [Hp Hr]. unfold restore_glyph.
  twp_go. apply twp_checked; [done|]. twp_go. apply twp_read; [done..|].
  destruct (_ =? 0); [rewrite twp_ret; by apply HQ|]. twp_go. apply twp_page_glyph; [done..|].
  intros args Ha. twp_go. eapply twp_mono; [| |by apply GuestCursor.twp_cursor_glyph].
  - intros _ s1 [_ (guest&cs&_&_&->)]. unfold GuestCursor.glyph_stored.
    set (s1 := with_calls _ s). assert (replayed s0 s1) as Hs1 by by apply replayed_calls.
    match goal with |- twp _ _ _ ?s2 => set (s2' := s2) end.
    assert (replayed s0 s2') as Hs2 by (unfold s2'; repeat (apply replayed_stored; [reflexivity|]); done).
    destruct (replayed_page _ _ Hp0 Hr0 Hs2) as [Hp2 Hr2]. twp_go.
    apply twp_checked; [done|]. twp_go. apply twp_read; [done..|].
    change (core s) with (core s2'). by apply twp_show_again.
  - intros e s1 [(cs&_&->) _]. apply HX. by apply replayed_calls.
Qed.

Lemma twp_sleep_state client v Q (X : Raise R -> State -> Prop) s :
  replayed s0 s -> (forall s', replayed s0 s' -> Q tt s') -> twp (sleep_state_locked client v) Q X s.
Proof.
  intros Hs HQ. destruct (replayed_page _ _ Hp0 Hr0 Hs) as [Hp Hr].
  unfold sleep_state_locked. twp_go. apply twp_running; [done|].
  assert (forall s1, replayed s0 s1 -> page_ok s1 -> paused s1 = false ->
    twp (_ ← modify (with_asleep v); _ ← checked; w8 ASLEEP v) Q X s1) as Hstore.
  { intros s1 Hs1 Hp1 Hr1. twp_go. apply twp_checked; [done|]. twp_go. apply twp_write; [done..|].
    apply HQ. apply replayed_stored; [done|]. by destruct Hs1. }
  destruct client as [c|]; [destruct (queue c) eqn:Eq|].
  - rewrite twp_bind. apply GuestCursor.twp_dispatch; [done|].
    apply Hstore; [by apply replayed_calls|done..].
  - rewrite twp_bind, twp_ret. by apply Hstore.
  - rewrite twp_bind, twp_ret. by apply Hstore.
Qed.
Lemma replayed_counted n id surface s s' :
  off_view n id = true -> replayed s s' -> replayed s (counted n id surface s').
Proof. intros Ho Hs. unfold counted. by repeat (apply replayed_stored; [done|]). Qed.
Lemma twp_restore_present client Q (X : Raise R -> State -> Prop) s :
  replayed s0 s -> (forall s', replayed s0 s' -> Q tt s') ->
  (forall e s', replayed s0 s' -> X e s') -> twp (restore_present client) Q X s.
Proof.
  intros Hs HQ HX. destruct (replayed_page _ _ Hp0 Hr0 Hs) as [Hp Hr].
  assert (twp (_ ← checked; asleep ← r8 ASLEEP;
    if asleep =? 1 then _ ← checked; asleep ← r8 ASLEEP; sleep_state_locked client asleep
    else mret tt) Q X s) as Hsleep.
  { twp_go. apply twp_checked; [done|]. twp_go. apply twp_read; [done..|].
    destruct (_ =? 1); [|rewrite twp_ret; by apply HQ]. twp_go. apply twp_checked; [done|]. twp_go.
    apply twp_read; [done..|]. by apply twp_sleep_state. }
  unfold restore_present, was_presenting. twp_go. apply twp_checked; [done|]. twp_go.
  apply twp_read; [done..|]. destruct (_ =? 0); [by rewrite twp_ret|]. twp_go.
  apply twp_checked; [done|]. twp_go. apply twp_read; [done..|]. rewrite twp_ret.
  destruct (_ =? 0); [|exact Hsleep]. clear Hsleep. twp_go. apply twp_checked; [done|]. twp_go.
  apply twp_read; [done..|]. unfold page_gamma. do 4 (twp_go; apply twp_read; [done..|]). twp_go.
  eapply twp_mono; [| |apply twp_present_mapped; [done|done|by rewrite (rp_device _ _ Hs)|exact Hk]].
  - intros [] s' (s1&Hs1&->). apply HQ. apply replayed_counted; [done|].
    destruct (shown_page _ _ _ _ _ Hs1) as (fs&Hf). etrans; [exact Hs|]. by eapply presents_replayed.
  - intros e s' [Hu|(io&t&m&_&Hu)]; apply HX; (etrans; [exact Hs|]); by eapply presents_replayed.
Qed.
End Restore.

Lemma twp_landed m Q (X : Raise R -> State -> Prop) s :
  twp m Q (fun _ s' => Q tt s') s -> twp (landed m) Q X s.
Proof. unfold twp, landed. by destruct (m s) as [[[] s']|[e s']|]. Qed.

(** The end of a restore, the guest's mode count being at most 128. It never raises: a raise of what it replays is logged and the
    rest skipped. The restore is over either way. The replay of the page's glyph, show byte,
    last present or sleep leaves the connect and ack machine's words alone; then the machine
    runs once, with the restore done, so that a page whose settings changed over the
    restore is announced; and where something raised, the guest expects no ack it was not
    expecting. *)
Theorem finish_restore_runs s :
  will_restore s = true -> ready (core s) s -> device s = true ->
  frames_answer -> (forall args, GuestCursor.glyph_answers args) ->
  kernel_answers Memory.Return -> fld 2 s MODE_LIST_COUNT <= MAX_MODES ->
  match finish_restore s with
  | Ret (_, s') =>
      will_restore s' = false /\
      ((exists s1, did_restore s1 = true /\ core s1 = core s /\ mode_list s1 = mode_list s /\
          view s1 = view s /\ runs (core s) s1 s') \/
       (fld 4 s' STATE = fld 4 s STATE /\ fld 1 s' ACK_PENDING = fld 1 s ACK_PENDING /\
        fld 4 s' EXPECTED_ACK = fld 4 s EXPECTED_ACK))
  | Raised _ => False
  | Died _ => False
  end.
Proof.
  intros Hw [Hp Hr Hc Hm] Hd Hk Hg Hka Hn. set (s0 := with_did_restore true (with_will_restore false s)).
  set (same := fun s' : State => fld 4 s' STATE = fld 4 s STATE /\
    fld 1 s' ACK_PENDING = fld 1 s ACK_PENDING /\ fld 4 s' EXPECTED_ACK = fld 4 s EXPECTED_ACK).
  assert (forall s', replayed s0 s' -> will_restore s' = false /\ same s') as Hsame.
  { intros s' [? ? ? ? ? ? ? Hv]. split; [done|]. unfold view in Hv. injection Hv as ? ? ? ?. by split_and!. }
  set (Q := fun s' => will_restore s' = false /\
    ((exists s1, did_restore s1 = true /\ core s1 = core s /\ mode_list s1 = mode_list s /\
      view s1 = view s /\ runs (core s) s1 s') \/ same s')).
  assert (twp (_ ← restore_glyph (core s);
    _ ← checked;
    _ ← w8 COLOR_MATRIX_FORCE_READ 1;
    _ ← restore_present (core s);
    state_machine Memory.Return (core s)) (fun _ => Q) (fun _ => Q) s0) as Ht.
  { rewrite twp_bind. apply (twp_restore_glyph Hg s0 Hp Hr) with (s := s0); [done| |];
      [|intros e s' Hs'; destruct (Hsame _ Hs'); split; auto].
    intros s1 Hs1. destruct (replayed_page s0 s1 Hp Hr Hs1) as [Hp1 Hr1].
    twp_go. apply twp_checked; [done|]. twp_go. apply twp_write; [done..|]. rewrite twp_bind.
    assert (replayed s0 (stored 1 COLOR_MATRIX_FORCE_READ 1 s1)) as Hs2 by by apply replayed_stored.
    apply (twp_restore_present Hk s0 Hp Hr Hd); [done| |];
      [|intros e s' Hs'; destruct (Hsame _ Hs'); split; auto].
    intros s3 Hs3. destruct (replayed_page s0 s3 Hp Hr Hs3) as [Hp3 Hr3]. destruct (Hsame _ Hs3) as [Hw3 Hv3].
    destruct Hs3 as [Epg _ Edv Eco Emo Ewi Edi Evi].
    eapply twp_mono; [| |apply (twp_state_machine Memory.Return (core s) s3)]; [| | | |done|done].
    - intros u s' Hrun. split; [by rewrite (runs_will _ _ _ Hrun)|]. left. exists s3.
      split_and!; try done.
    - intros e s' (Hkeep&Hz&Hz'&Ha&He&_). split; [by rewrite (kept_will _ _ Hkeep)|]. right.
      destruct Hv3 as (E1&E2&E3). split_and!; congruence.
    - split; [done..|by rewrite Edv|by rewrite Emo].
    - intros _. pose proof (f_equal v_count Evi) as Ev. cbn [v_count view] in Ev. by rewrite Ev. }
  assert (twp finish_restore (fun _ => Q) (fun _ _ => False) s) as Hall.
  { unfold finish_restore. twp_go. apply twp_require; [done|]. twp_go. apply twp_running; [done|].
    twp_go. by apply twp_landed. }
  unfold twp in Hall. by destruct (finish_restore s) as [[[] s']|[]|].
Qed.
End Presents.

(** ** Witnesses *)

(** A BGRA surface of 2 by 2 pixels, the backing of every id and mapped under every one. *)
Definition sample_surface : Surface := MkSurface FOURCC_BGRA 2 2 4 0.
#[local] Instance sample_kernel : Kernel Empty_set := {|
  get_kernel_task _ _ := Ret tt;
  data_from_virtual_offset _ _ _ _ := Ret None;
  copy_from_virtual_offset _ _ _ := Ret [];
  enable_protected_content := false;
|}.
#[local] Instance sample_frames : Frames Empty_set := {|
  prepared_backing_for_id _ _ := Ret (Some (Backing (Some sample_surface) [0]));
  mapped_surface _ _ := Some sample_surface;
  new_texture_view _ _ _ := Ret true;
  texture_2d_descriptor _ _ _ _ := Ret tt;
  new_texture_on_surface _ _ := Ret true;
  present_frame _ _ := Ret tt;
|}.
#[local] Instance sample_images : GuestCursor.Images := {| GuestCursor.make_image _ _ _ := None |}.
#[local] Instance sample_target : GuestRecords.Target := GuestRecords.X86_64.
Definition sample_gamma : GammaTableArgs := MkGamma 0x2000 0x1000 2 0.
Definition sample_page : State := sample_state None.
(** A page whose guest wrote a matrix, and one a restore is about to replay. *)
Definition sample_dirty : State := stored 1 COLOR_MATRIX_DIRTY 1 sample_page.
Definition sample_restoring : State := with_will_restore true sample_page.

Lemma sample_answer : frames_answer.
Proof. by split. Qed.
Lemma frames_page_ok : page_ok sample_page /\ paused sample_page = false /\ device sample_page = true.
Proof. repeat split; by vm_compute. Qed.
Lemma sample_restoring_ready : ready (core sample_restoring) sample_restoring.
Proof.
  destruct (sample_ready None I) as [Hp Hr Hc Hm]. split; [exact Hp|exact Hr|exact Hc|exact Hm].
Qed.
Lemma frames_glyph_answers args : GuestCursor.glyph_answers args.
Proof. by split. Qed.
#[local] Opaque sample_page.

Lemma presented_matrix_kept_witness :
  exists s1 s2, take_dirty_color_matrix (R := Empty_set) sample_dirty = Ret (Some 0, s1) /\
    fld 1 s1 COLOR_MATRIX_WRITE_INDEX = 1 /\
    set_property (R := Empty_set) 0 (replicate 48 x07) 12 s1 = Ret (tt, s2).
Proof.
  destruct (presented_matrix_kept (R := Empty_set) (replicate 48 x07) sample_dirty
    (proj1 frames_page_ok) (proj1 (proj2 frames_page_ok)) ltac:(done) ltac:(by vm_compute)
    ltac:(by vm_compute) ltac:(by vm_compute)) as (s1&s2&E1&_&Ew&_&E2&_).
  assert (fld 1 sample_dirty COLOR_MATRIX_WRITE_INDEX = 0) as E0 by by vm_compute.
  rewrite E0 in E1, Ew. by exists s1, s2.
Defined.

Lemma present_surface_presents_witness :
  exists s', present_surface 9 sample_gamma sample_page = Ret (tt, s') /\
    fld 8 s' PRESENT_COUNT = 1 /\ fld 4 s' PRESENTED_SURFACE = 9.
Proof.
  destruct frames_page_ok as (Hp&Hr&Hd).
  pose proof (present_surface_presents 9 sample_gamma sample_page Hp Hr Hd sample_answer
    ltac:(by vm_compute)) as H.
  assert (ends (present_surface 9 sample_gamma sample_page) = true) as E by by vm_compute.
  destruct (present_surface _ _ _) as [[[] s']|[]|]; [|done..]. exists s'. split; [done|].
  destruct H as (_&->&->). split; by vm_compute.
Defined.

Lemma present_mapped_surface_presents_witness :
  exists s', present_mapped_surface 9 sample_gamma sample_page = Ret (tt, s') /\
    fld 8 s' PRESENT_COUNT = 1 /\ fld 8 s' PRESENTED_MAPPING_ID = 9.
Proof.
  destruct frames_page_ok as (Hp&Hr&Hd).
  pose proof (present_mapped_surface_presents 9 sample_gamma sample_page Hp Hr Hd sample_answer
    ltac:(by vm_compute)) as H.
  assert (ends (present_mapped_surface 9 sample_gamma sample_page) = true) as E by by vm_compute.
  destruct (present_mapped_surface _ _ _) as [[[] s']|[]|]; [|done..]. exists s'. split; [done|].
  destruct H as (_&->&->). split; by vm_compute.
Defined.

(** A table of two entries taken; one of 1025 refused. *)
Lemma gamma_stored_witness :
  (exists s', store_gamma_table (R := Empty_set) sample_gamma sample_page = Ret (tt, s') /\
     fld 4 s' GAMMA_TABLE_ENTRY_COUNT = 2) /\
  (exists s', store_gamma_table (R := Empty_set) (MkGamma 0 0x4000 1025 0) sample_page
     = Raised (Own GammaTable, s') /\ s' = sample_page).
Proof.
  destruct frames_page_ok as (Hp&Hr&_). split.
  - pose proof (gamma_stored (R := Empty_set) sample_gamma sample_page Hp Hr ltac:(by vm_compute)
      ltac:(by vm_compute) ltac:(by vm_compute) ltac:(by vm_compute)) as H.
    assert (ends (store_gamma_table sample_gamma sample_page) = true) as E by by vm_compute.
    destruct (store_gamma_table _ _) as [[[] s']|[]|]; [|done..]. exists s'. split; [done|]. apply H.
  - pose proof (gamma_stored (R := Empty_set) (MkGamma 0 0x4000 1025 0) sample_page Hp Hr
      ltac:(by vm_compute) ltac:(by vm_compute) ltac:(by vm_compute) ltac:(by vm_compute)) as H.
    assert (ends (store_gamma_table (MkGamma 0 0x4000 1025 0) sample_page) = false) as E by by vm_compute.
    destruct (store_gamma_table _ _) as [|[e s']|]; [done| |done]. exists s'.
    destruct H as (->&->&_). done.
Defined.

Lemma finish_restore_runs_witness :
  exists s', finish_restore sample_restoring = Ret (tt, s') /\ will_restore s' = false.
Proof.
  pose proof (finish_restore_runs sample_restoring eq_refl sample_restoring_ready
    (proj2 (proj2 frames_page_ok)) sample_answer frames_glyph_answers
    (conj (fun _ => I) (fun _ _ _ => I)) ltac:(by vm_compute)) as H.
  destruct (finish_restore sample_restoring) as [[[] s']|[]|]; [|done..]. exists s'.
  split; [done|]. exact (proj1 H).
Defined.
End Presents.
