(* ===== verification/Efi.v ===== *)
(** * Efi: the EFI display, the firmware's framebuffer in guest memory
    (src/crates/reims-vgpu-core/src/display/efi.rs)

    The registers, the framebuffer's task, the task and mode rebuilds, the presents and
    what the device asks of the display. The device, its Metal device, the host and the
    port-0 display are the interface class [Host]: each answer is one after the calls
    before. An operation runs alone; a [sync] onto the present queue runs its block on
    the caller's thread, so the block's place is the flag [on_present_queue]. The source
    of presents, the timer's clock and the log lines are not modelled: a merge into the
    source and a timer's start are calls. *)

From S2P Require Import Prelude Num MemoryKinds DisplayKinds DeviceKinds GuestRecords.
Open Scope Z_scope.

Module Efi.
Import DisplayKinds DeviceKinds.

Definition MTL_PIXEL_FORMAT_BGRA8_UNORM : Z := 80.
Definition MTL_TEXTURE_USAGE_SHADER_READ : Z := 1.
Definition IOSURFACE_PIXEL_FORMAT_BGRA : Z := 0x42475241.
Definition MAX_FRAMEBUFFER_LENGTH : Z := 0x4000000.
Definition FRAMEBUFFER_DEPTH : Z := 32.
Definition PRESENT_INTERVAL_MS : Z := 100.

(** ** The state *)

Record Registers := MkRegisters {
  start_page : Z;
  length : Z;
  depth : Z;
  mode : Z;
  stride : Z;
}.

(** A host task (0 for none) and its base. *)
Record TaskInfo := MkInfo {
  task : Z;
  base_address : Z;
}.
Record FramebufferTask := MkTask {
  info : TaskInfo;
  ready : bool;
}.
Definition no_task : FramebufferTask := MkTask (MkInfo 0 0) false.

(** A mapping and its address in the host. *)
Record Mapping := MkMapping {
  mapping_id : Z;
  virtual_address : Z;
}.

(** What the EFI display asks of the rest, in order. *)
Inductive Call : Type :=
| CreateTask (size : Z)
| DestroyTask (task : Z)
| MapFramebuffer (info : TaskInfo) (address length : Z)
| Unmap (m : Mapping)
| NewBuffer (address length : Z)
| NewTexture (buffer width height row : Z)
| ReleaseTexture (texture : Z)
| AddTraceRange (address length : Z)
| RemoveTraceRange (range : Z)
| MergeSource
| StartTimer
| CancelTimer
| PresentFrame (display texture : Z).

Record State := MkState {
  device : bool;
  display : option Z;
  mode_select : Z;
  regs : Registers;
  width : Z;
  height : Z;
  fb_task : FramebufferTask;
  mapping : option Mapping;
  texture : option Z;
  mapped_length : Z;
  total_size : Z;
  timer : bool;
  trace_range : option Z;
  on_present_queue : bool;
  calls : list Call;
}.

Definition with_display (d : option Z) (s : State) : State :=
  MkState (device s) d (mode_select s) (regs s) (width s) (height s) (fb_task s) (mapping s)
    (texture s) (mapped_length s) (total_size s) (timer s) (trace_range s) (on_present_queue s)
    (calls s).
Definition with_select (v : Z) (s : State) : State :=
  MkState (device s) (display s) v (regs s) (width s) (height s) (fb_task s) (mapping s)
    (texture s) (mapped_length s) (total_size s) (timer s) (trace_range s) (on_present_queue s)
    (calls s).
Definition with_regs (r : Registers) (s : State) : State :=
  MkState (device s) (display s) (mode_select s) r (width s) (height s) (fb_task s) (mapping s)
    (texture s) (mapped_length s) (total_size s) (timer s) (trace_range s) (on_present_queue s)
    (calls s).
Definition with_size (w h : Z) (s : State) : State :=
  MkState (device s) (display s) (mode_select s) (regs s) w h (fb_task s) (mapping s)
    (texture s) (mapped_length s) (total_size s) (timer s) (trace_range s) (on_present_queue s)
    (calls s).
Definition with_task (t : FramebufferTask) (s : State) : State :=
  MkState (device s) (display s) (mode_select s) (regs s) (width s) (height s) t (mapping s)
    (texture s) (mapped_length s) (total_size s) (timer s) (trace_range s) (on_present_queue s)
    (calls s).
Definition with_mapping (m : option Mapping) (s : State) : State :=
  MkState (device s) (display s) (mode_select s) (regs s) (width s) (height s) (fb_task s) m
    (texture s) (mapped_length s) (total_size s) (timer s) (trace_range s) (on_present_queue s)
    (calls s).
Definition with_texture (t : option Z) (s : State) : State :=
  MkState (device s) (display s) (mode_select s) (regs s) (width s) (height s) (fb_task s)
    (mapping s) t (mapped_length s) (total_size s) (timer s) (trace_range s) (on_present_queue s)
    (calls s).
Definition with_mapped (len total : Z) (s : State) : State :=
  MkState (device s) (display s) (mode_select s) (regs s) (width s) (height s) (fb_task s)
    (mapping s) (texture s) len total (timer s) (trace_range s) (on_present_queue s) (calls s).
Definition with_timer (b : bool) (s : State) : State :=
  MkState (device s) (display s) (mode_select s) (regs s) (width s) (height s) (fb_task s)
    (mapping s) (texture s) (mapped_length s) (total_size s) b (trace_range s)
    (on_present_queue s) (calls s).
Definition with_trace_range (r : option Z) (s : State) : State :=
  MkState (device s) (display s) (mode_select s) (regs s) (width s) (height s) (fb_task s)
    (mapping s) (texture s) (mapped_length s) (total_size s) (timer s) r (on_present_queue s)
    (calls s).
Definition with_queue (b : bool) (s : State) : State :=
  MkState (device s) (display s) (mode_select s) (regs s) (width s) (height s) (fb_task s)
    (mapping s) (texture s) (mapped_length s) (total_size s) (timer s) (trace_range s) b (calls s).
Definition with_calls (cs : list Call) (s : State) : State :=
  MkState (device s) (display s) (mode_select s) (regs s) (width s) (height s) (fb_task s)
    (mapping s) (texture s) (mapped_length s) (total_size s) (timer s) (trace_range s)
    (on_present_queue s) cs.

(** [new] of a device: the state zero. *)
Definition new : State :=
  MkState true None 0 (MkRegisters 0 0 0 0 0) 0 0 no_task None None 0 0 false None false [].

(** ** The rest *)

(** What the device, its Metal device, the host and the displays answer after the calls
    before. A raise of Metal's or a present's has died at its site: no handler is live. *)
Class Host := {
  create_task : Z -> TaskInfo -> list Call -> outcome Empty_set ddeath (bool * TaskInfo);
  destroy_task_of : TaskInfo -> list Call -> outcome Empty_set ddeath unit;
  new_task_mapping :
    TaskInfo -> Z -> Z -> list Call -> outcome Empty_set ddeath (option Mapping);
  new_buffer : Z -> Z -> list Call -> outcome Empty_set ddeath (option Z);
  new_texture : Z -> Z -> Z -> Z -> list Call -> outcome Empty_set ddeath (option Z);
  (** 0 for no range, and for a host without the block. *)
  add_trace_range : Z -> Z -> list Call -> Z;
  min_linear_alignment : Z;
  max_texture_width : Z;
  max_texture_height : Z;
  (** The modes' sizes of a display that lives; none for one whose last release began. *)
  loaded_modes : Z -> list Call -> option (list (Z * Z));
  present_frame : Z -> Z -> list Call -> outcome Empty_set ddeath unit;
}.

Section Efi.
Context {P : Host} {target : GuestRecords.Target}.
Local Abbreviation M := (Run State Empty_set ddeath).

Definition PAGE_SHIFT : Z := GuestRecords.APV_PAGE_SHIFT.
Definition PAGE_MASK : Z := sub32 (Num.bit32 PAGE_SHIFT) 1.

Definition tell (c : Call) : M unit := modify (fun s => with_calls (calls s ++ [c]) s).
Definition ask {A} (c : Call) (m : list Call -> outcome Empty_set ddeath A) : M A := fun s =>
  match m (calls s) with
  | Ret a => Ret (a, with_calls (calls s ++ [c]) s)
  | Raised e => match e with end
  | Died d => Died d
  end.
(** A block run on the present queue, on this thread. *)
Definition sync (m : M unit) : M unit :=
  was ← asks on_present_queue;
  _ ← modify (with_queue true);
  _ ← m;
  modify (with_queue was).

Definition assert_on_present_queue : M unit :=
  b ← asks on_present_queue;
  if b : bool then mret tt else die (OfDisplay EfiOffPresentQueue).

(** ** The task and the presents *)

Definition destroy_task : M unit :=
  t ← asks fb_task;
  alive ← asks device;
  if alive : bool then
    _ ← ask (DestroyTask (task (info t))) (destroy_task_of (info t));
    modify (fun s => with_task (MkTask (MkInfo 0 (base_address (info (fb_task s))))
      (ready (fb_task s))) s)
  else mret tt.

(** The trace range goes first, then the timer. *)
Definition cancel_presents : M unit :=
  _ ← assert_on_present_queue;
  range ← asks trace_range;
  _ ← (match range with
       | Some r =>
           alive ← asks device;
           _ ← (if alive : bool then tell (RemoveTraceRange r) else mret tt);
           modify (with_trace_range None)
       | None => mret tt
       end);
  t ← asks timer;
  _ ← modify (with_timer false);
  if t : bool then tell CancelTimer else mret tt.

(** The texture, then the mapping; the mapped length stays. *)
Definition stop_presenting : M unit :=
  _ ← assert_on_present_queue;
  _ ← cancel_presents;
  t ← asks texture;
  _ ← modify (with_texture None);
  _ ← (match t with Some t => tell (ReleaseTexture t) | None => mret tt end);
  m ← asks mapping;
  _ ← modify (with_mapping None);
  match m with Some m => tell (Unmap m) | None => mret tt end.

Definition teardown : M unit := sync (_ ← stop_presenting; destroy_task).

Definition rebuild_task : M unit :=
  t ← asks fb_task;
  _ ← (if ready t then destroy_task else mret tt);
  r ← asks regs;
  if (start_page r =? 0) || (length r =? 0) then mret tt
  else if negb (Z.land (length r) PAGE_MASK =? 0) then mret tt
  else if MAX_FRAMEBUFFER_LENGTH <? length r then mret tt
  else
    t ← asks fb_task;
    alive ← asks device;
    made ← (if alive : bool then ask (CreateTask (length r)) (create_task (length r) (info t))
            else mret (false, info t));
    modify (with_task (MkTask made.2 made.1)).

(** ** The mode *)

Definition get_stride_alignment (s : State) : Z :=
  if device s then Num.low_u32 min_linear_alignment else 0.

(** Traced presents where the host takes the range, timed ones where it answers none. *)
Definition schedule_presents : M unit :=
  s ← asks id;
  let address := shl64 (start_page (regs s)) PAGE_SHIFT in
  range ← (if device s then
             ask (AddTraceRange address (total_size s))
               (fun cs => Ret (add_trace_range address (total_size s) cs))
           else mret 0);
  if negb (range =? 0) then
    _ ← modify (with_trace_range (Some range));
    tell MergeSource
  else
    _ ← modify (with_trace_range None);
    _ ← tell StartTimer;
    modify (with_timer true).

(** The texture over a no-copy buffer of the mapping. *)
Definition make_texture (m : Mapping) (w h total row : Z) : M unit :=
  alive ← asks device;
  buffer ← (if alive : bool then
              ask (NewBuffer (virtual_address m) total) (new_buffer (virtual_address m) total)
            else mret None);
  t ← (match buffer with
       | Some b => ask (NewTexture b w h row) (new_texture b w h row)
       | None => mret None
       end);
  modify (with_texture t).

Definition rebuild_mode : M unit :=
  _ ← sync stop_presenting;
  w ← asks width;
  r ← asks regs;
  if M32 <=? w * 4 then mret tt
  else
    let minimum_stride := w * 4 in
    let row := if negb (stride r =? 0) then stride r else minimum_stride in
    alignment ← asks get_stride_alignment;
    let stride_valid := (minimum_stride <=? row) && (Num.rem0 row alignment =? 0) in
    t ← asks fb_task;
    if negb (ready t) || (mode r =? 0) || negb (depth r =? FRAMEBUFFER_DEPTH) || negb stride_valid
    then mret tt
    else
      let address := shl64 (start_page r) PAGE_SHIFT in
      alive ← asks device;
      made ← (if alive : bool then
                ask (MapFramebuffer (info t) address (length r))
                  (new_task_mapping (info t) address (length r))
              else mret None);
      _ ← modify (with_mapping made);
      match made with
      | None =>
          _ ← destroy_task;
          modify (fun s => with_task (MkTask (info (fb_task s)) false) s)
      | Some m =>
          h ← asks height;
          let product := h * row in
          _ ← modify (with_mapped (length r) (w32 product));
          if (M32 <=? product) || (length r <? w32 product) then mret tt
          else
            let total := Z.land (add32 (w32 product) PAGE_MASK) (not32 PAGE_MASK) in
            _ ← modify (with_mapped (length r) total);
            _ ← make_texture m w h total row;
            schedule_presents
      end.

(** ** A present *)

(** The source's or the timer's handler, on the present queue. *)
Definition present : M unit :=
  _ ← assert_on_present_queue;
  s ← asks id;
  match display s with
  | Some d =>
      match loaded_modes d (calls s) with
      | Some _ =>
          match texture s with
          | Some t => ask (PresentFrame d t) (present_frame d t)
          | None => mret tt
          end
      | None => stop_presenting
      end
  | None => stop_presenting
  end.

(** ** The registers *)

Definition set_display (d : option Z) : M unit :=
  _ ← modify (with_display d);
  modify (with_select 0).
Definition set_mode_select (v : Z) : M unit := modify (with_select v).

(** The bound display's modes, none without one that lives. *)
Definition bound_modes (s : State) : option (list (Z * Z)) :=
  d ← display s; loaded_modes d (calls s).
Definition get_mode_count (s : State) : Z :=
  match bound_modes s with
  | Some modes => Num.low_u32 (Z.of_nat (List.length modes))
  | None => 0
  end.
Definition get_mode_value (s : State) : Z :=
  match default [] (bound_modes s) !! Z.to_nat (mode_select s) with
  | Some size => Z.lor size.1 (shl32 size.2 16)
  | None => M32 - 1
  end.

Definition set_framebuffer_start (v : Z) : M unit :=
  _ ← modify (fun s => with_regs (MkRegisters v (length (regs s)) (depth (regs s))
        (mode (regs s)) (stride (regs s))) s);
  _ ← rebuild_task;
  rebuild_mode.
Definition set_framebuffer_length (v : Z) : M unit :=
  _ ← modify (fun s => with_regs (MkRegisters (start_page (regs s)) v (depth (regs s))
        (mode (regs s)) (stride (regs s))) s);
  _ ← rebuild_task;
  rebuild_mode.
Definition set_framebuffer_depth (v : Z) : M unit :=
  _ ← modify (fun s => with_regs (MkRegisters (start_page (regs s)) (length (regs s)) v
        (mode (regs s)) (stride (regs s))) s);
  rebuild_mode.
Definition set_framebuffer_mode (v : Z) : M unit :=
  let w := Z.land v 0xffff in
  let h := shr32 v 16 in
  _ ← modify (fun s => with_size w h (with_regs (MkRegisters (start_page (regs s))
        (length (regs s)) (depth (regs s)) v (stride (regs s))) s));
  alive ← asks device;
  let max_width := if alive : bool then max_texture_width else 0 in
  let max_height := if alive : bool then max_texture_height else 0 in
  _ ← (if (max_width <? w) || (max_height <? h) then modify (with_size 0 0) else mret tt);
  rebuild_mode.
Definition set_framebuffer_stride (v : Z) : M unit :=
  _ ← modify (fun s => with_regs (MkRegisters (start_page (regs s)) (length (regs s))
        (depth (regs s)) (mode (regs s)) v) s);
  rebuild_mode.

(** The end: the mapping, then the texture (no timer: one holds the EFI display). *)
Definition drop_ : M unit :=
  m ← asks mapping;
  _ ← modify (with_mapping None);
  _ ← (match m with Some m => tell (Unmap m) | None => mret tt end);
  t ← asks texture;
  _ ← modify (with_texture None);
  _ ← (match t with Some t => tell (ReleaseTexture t) | None => mret tt end);
  modify (with_timer false).
End Efi.

(** ** The rules of the presents *)

Definition is_some {A} (o : option A) : bool := match o with Some _ => true | None => false end.
Definition presenting (s : State) : bool := timer s || is_some (trace_range s).

(** The timers started and not cancelled, and the ranges the host took and was not asked
    to remove: each range taken is merged into the source at once. *)
Fixpoint timers_open (cs : list Call) : Z :=
  match cs with
  | [] => 0
  | StartTimer :: cs => 1 + timers_open cs
  | CancelTimer :: cs => timers_open cs - 1
  | _ :: cs => timers_open cs
  end.
Fixpoint ranges_open (cs : list Call) : Z :=
  match cs with
  | [] => 0
  | MergeSource :: cs => 1 + ranges_open cs
  | RemoveTraceRange _ :: cs => ranges_open cs - 1
  | _ :: cs => ranges_open cs
  end.

(** One source of presents at most, over a framebuffer that is mapped; no texture over one
    that is not; what the host was asked for is what the state holds. *)
Record ok (s : State) : Prop := {
  ok_device : device s = true;
  ok_one : timer s = true -> trace_range s = None;
  ok_mapped : presenting s = true \/ texture s <> None -> mapping s <> None;
  ok_timers : timers_open (calls s) = Z.b2z (timer s);
  ok_ranges : ranges_open (calls s) = Z.b2z (is_some (trace_range s));
  ok_sizes : 0 <= width s /\ 0 <= height s /\ 0 <= stride (regs s);
}.

(** The row of the framebuffer, and when the mode rebuild maps it and when it presents it. *)
Definition row (s : State) : Z :=
  if stride (regs s) =? 0 then width s * 4 else stride (regs s).
Definition rows_length (s : State) : Z := height s * row s.

Section Rules.
Context {P : Host} {target : GuestRecords.Target}.

Definition maps (s : State) : bool :=
  (width s * 4 <? M32) && ready (fb_task s) && negb (mode (regs s) =? 0) &&
  (depth (regs s) =? FRAMEBUFFER_DEPTH) && (width s * 4 <=? row s) &&
  (Num.rem0 (row s) (get_stride_alignment s) =? 0).
Definition fits (s : State) : bool :=
  (rows_length s <? M32) && (rows_length s <=? length (regs s)).
Definition page_rounded (v : Z) : Z := Z.land (add32 v PAGE_MASK) (not32 PAGE_MASK).
End Rules.

(** The device, the host and the displays die of their own deaths alone. *)
Definition elsewhere (d : ddeath) : Prop := d <> OfDisplay EfiOffPresentQueue.
Definition dies_elsewhere {A} (o : outcome Empty_set ddeath A) : Prop :=
  match o with Died d => elsewhere d | _ => True end.
Class HostLaws `{Host} : Prop := {
  create_elsewhere n i cs : dies_elsewhere (create_task n i cs);
  destroy_elsewhere i cs : dies_elsewhere (destroy_task_of i cs);
  mapping_elsewhere i a n cs : dies_elsewhere (new_task_mapping i a n cs);
  buffer_elsewhere a n cs : dies_elsewhere (new_buffer a n cs);
  texture_elsewhere b w h r cs : dies_elsewhere (new_texture b w h r cs);
  frame_elsewhere d t cs : dies_elsewhere (present_frame d t cs);
}.

(** ** Page rounding at 32 bits *)

Lemma land_not32_mask x k : 0 <= k <= 32 -> u32 x ->
  Z.land x (not32 (2 ^ k - 1)) = x - x mod 2 ^ k.
Proof.
  intros Hk Hx. rewrite <- land_not64_mask; [|lia|word_unfold; lia].
  assert (forall y, Z.land x (y mod M32) = Z.land x y) as Hlow.
  { intros y. change M32 with (2 ^ 32). rewrite <- Z.land_ones, (Z.land_comm y), Z.land_assoc by lia.
    by rewrite Z.land_ones, Z.mod_small by (lia || exact Hx). }
  rewrite <- (Hlow (not64 _)). f_equal. unfold not64, not32.
  assert (0 < 2 ^ k <= M32) by (split; [lia|]; change M32 with (2 ^ 32); apply Z.pow_le_mono_r; lia).
  replace (M64 - 1 - (2 ^ k - 1)) with (M32 - 1 - (2 ^ k - 1) + (M32 - 1) * M32)
    by (rewrite M64_val, M32_val; lia).
  rewrite Z.mod_add, Z.mod_small; rewrite ?M32_val in *; lia.
Qed.

Lemma timers_app cs cs' : timers_open (cs ++ cs') = timers_open cs + timers_open cs'.
Proof. induction cs as [|[] cs IH]; simpl; lia. Qed.
Lemma ranges_app cs cs' : ranges_open (cs ++ cs') = ranges_open cs + ranges_open cs'.
Proof. induction cs as [|[] cs IH]; simpl; lia. Qed.

(** What the presents leave alone: the registers and the setup. *)
Record setup (s s' : State) : Prop := {
  su_device : device s' = device s;
  su_display : display s' = display s;
  su_select : mode_select s' = mode_select s;
  su_regs : regs s' = regs s;
  su_width : width s' = width s;
  su_height : height s' = height s;
}.
Lemma setup_refl s : setup s s.
Proof. done. Qed.
Lemma setup_trans s1 s2 s3 : setup s1 s2 -> setup s2 s3 -> setup s1 s3.
Proof. intros [] []. split; congruence. Qed.

(** Nothing presented and nothing held. *)
Definition idle (s : State) : Prop :=
  timer s = false /\ trace_range s = None /\ texture s = None /\ mapping s = None.

Section Presents.
Context {P : Host} {HL : HostLaws} {target : GuestRecords.Target}.
Local Abbreviation M := (Run State Empty_set ddeath).
Implicit Types (s : State).

Lemma xwp_ask {A} c (m : list Call -> outcome Empty_set ddeath A) Q X s :
  dies_elsewhere (m (calls s)) ->
  (forall a, m (calls s) = Ret a -> Q a (with_calls (calls s ++ [c]) s)) ->
  xwp (ask c m : M A) Q X elsewhere s.
Proof. unfold xwp, ask, dies_elsewhere. intros Hm HQ. destruct (m (calls s)) as [a|[]|d]; auto. Qed.

Lemma stop_presenting_spec s : ok s -> on_present_queue s = true ->
  xwp stop_presenting (fun _ s' => ok s' /\ setup s s' /\ idle s' /\ fb_task s' = fb_task s /\
      on_present_queue s' = true)
    (fun _ _ => False) elsewhere s.
Proof.
  intros [Hd H1 Hm Ht Hr Hz] Hq. destruct s as [dv dp ms rg w h fb mp tx ml ts tm tr oq cs].
  simpl in *. subst dv oq.
  unfold stop_presenting, cancel_presents, assert_on_present_queue, tell. xwp_go. simpl.
  destruct tr as [r|]; xwp_go; destruct tm; simpl in *; xwp_go; try by discriminate H1.
  all: destruct tx as [tx|]; xwp_go; destruct mp as [m|]; xwp_go; simpl.
  all: split_and!; try done; split; try done; simpl.
  all: rewrite ?timers_app, ?ranges_app, ?Ht, ?Hr; simpl; try lia.
  all: by intros [H0|H0].
Qed.

Lemma sync_spec (m : M unit) Q X s :
  xwp m (fun _ s' => Q tt (with_queue (on_present_queue s) s')) X elsewhere (with_queue true s) ->
  xwp (sync m) Q X elsewhere s.
Proof. intros H. unfold sync. xwp_go. exact H. Qed.

Lemma ok_queue b s : ok s -> ok (with_queue b s).
Proof. by intros []. Qed.

(** A stop on the present queue. *)
Lemma stopped s X : ok s ->
  xwp (sync stop_presenting) (fun _ s' => ok s' /\ setup s s' /\ idle s' /\ fb_task s' = fb_task s /\
      on_present_queue s' = on_present_queue s) X elsewhere s.
Proof.
  intros W. apply sync_spec.
  pose proof (stop_presenting_spec (with_queue true s) (ok_queue true s W) eq_refl) as Hs.
  eapply xwp_mono; [| | |exact Hs]; [|done|done].
  intros [] s' (W'&[]&I&Hf&_). split_and!; [by apply ok_queue|by split|exact I|exact Hf|done].
Qed.

(** A call that is no start and no end of a present. *)
Definition quiet (c : Call) : Prop := timers_open [c] = 0 /\ ranges_open [c] = 0.
Lemma ok_call c s : quiet c -> ok s -> ok (with_calls (calls s ++ [c]) s).
Proof.
  intros [Ht Hr] []. split; try done; simpl; rewrite ?timers_app, ?ranges_app; lia.
Qed.
Lemma ok_with_task t s : ok s -> ok (with_task t s).
Proof. by intros []. Qed.
Lemma ok_with_regs r s : 0 <= stride r -> ok s -> ok (with_regs r s).
Proof. intros Hr [Hd H1 Hm Ht Hrs (Hw&Hh&Hs)]. by split. Qed.
Lemma ok_with_size w h s : 0 <= w -> 0 <= h -> ok s -> ok (with_size w h s).
Proof. intros Hw' Hh' [Hd H1 Hm Ht Hr (Hw&Hh&Hs)]. by split. Qed.
Lemma ok_with_mapped n t s : ok s -> ok (with_mapped n t s).
Proof. by intros []. Qed.

Lemma destroy_task_spec s X : ok s ->
  xwp destroy_task (fun _ s' => ok s' /\ setup s s' /\ s' = with_calls (calls s')
      (with_task (MkTask (MkInfo 0 (base_address (info (fb_task s)))) (ready (fb_task s))) s))
    X elsewhere s.
Proof.
  intros W. unfold destroy_task. xwp_go. rewrite (ok_device s W).
  xwp_go. apply xwp_ask; [apply destroy_elsewhere|]. intros [] _. xwp_go.
  split_and!; [by apply ok_with_task, ok_call|done|done].
Qed.

Lemma rebuild_task_spec s X : ok s ->
  xwp rebuild_task (fun _ s' => ok s' /\ setup s s' /\ on_present_queue s' = on_present_queue s /\
      mapping s' = mapping s) X elsewhere s.
Proof.
  intros W. unfold rebuild_task. xwp_go.
  assert (forall s1, ok s1 -> setup s s1 -> on_present_queue s1 = on_present_queue s ->
    mapping s1 = mapping s ->
    xwp (r ← asks regs;
      if (start_page r =? 0) || (length r =? 0) then mret tt
      else if negb (Z.land (length r) PAGE_MASK =? 0) then mret tt
      else if MAX_FRAMEBUFFER_LENGTH <? length r then mret tt
      else
        t ← asks fb_task;
        alive ← asks device;
        made ← (if alive : bool then ask (CreateTask (length r)) (create_task (length r) (info t))
                else mret (false, info t));
        modify (with_task (MkTask made.2 made.1)) : M unit)
      (fun _ s' => ok s' /\ setup s s' /\ on_present_queue s' = on_present_queue s /\
        mapping s' = mapping s) X elsewhere s1) as Hrest.
  { intros s1 W1 S1 Q1 M1. xwp_go. repeat (case_if; xwp_go; [done|]).
    rewrite (ok_device s1 W1). xwp_go. apply xwp_ask; [apply create_elsewhere|].
    intros made _. xwp_go. split_and!; [by apply ok_with_task, ok_call| |done|done].
    eapply setup_trans; [exact S1|done]. }
  destruct (ready (fb_task s)); xwp_go.
  - eapply xwp_mono; [| | |by apply destroy_task_spec]; [|intros ? ? H0; exact H0|done].
    intros [] s1 (W1&S1&E1). specialize (Hrest s1). xwp_go.
    generalize (Hrest W1 S1 ltac:(by rewrite E1) ltac:(by rewrite E1)). by xwp_go.
  - generalize (Hrest s W (setup_refl s) eq_refl eq_refl). by xwp_go.
Qed.

(** *** The mode rebuild *)

(** Presents over a mapped framebuffer, with nothing presented before. *)
Lemma schedule_presents_spec s X : ok s -> presenting s = false -> mapping s <> None ->
  xwp schedule_presents (fun _ s' => ok s' /\ presenting s' = true /\
      s' = with_timer (timer s') (with_trace_range (trace_range s') (with_calls (calls s') s)) /\
      exists cs, calls s' = calls s ++ cs) X elsewhere s.
Proof.
  intros [Hd H1 Hm Ht Hr Hz] Hno Hmap. destruct s as [dv dp ms rg w h fb mp tx ml ts tm tr oq cs].
  simpl in *. subst dv. unfold presenting in Hno. simpl in Hno.
  destruct tm, tr; try done. simpl in Ht, Hr. unfold schedule_presents, tell. xwp_go. simpl.
  apply xwp_ask; [done|]. intros range _. xwp_go.
  destruct (range =? 0); xwp_go; simpl.
  all: split_and!; [|done|done|simpl; eexists; by rewrite <- ?app_assoc].
  all: split; try done; simpl; rewrite ?timers_app, ?ranges_app; simpl; lia.
Qed.

Lemma make_texture_spec m w h total r s X : ok s -> mapping s = Some m ->
  xwp (make_texture m w h total r) (fun _ s' => ok s' /\
      s' = with_texture (texture s') (with_calls (calls s') s) /\
      exists cs, calls s' = calls s ++ NewBuffer (virtual_address m) total :: cs) X elsewhere s.
Proof.
  intros W Hm. unfold make_texture. xwp_go. rewrite (ok_device s W). xwp_go.
  assert (forall t s1, ok s1 -> mapping s1 = Some m -> ok (with_texture t s1)) as Hok.
  { intros t s1 [] Hm1. split; try done. intros _. simpl. by rewrite Hm1. }
  apply xwp_ask; [apply buffer_elsewhere|]. intros [b|] _; xwp_go.
  - apply xwp_ask; [apply texture_elsewhere|]. intros t _. xwp_go. split_and!.
    + apply Hok; [|done]. apply ok_call; [done|]. by apply ok_call.
    + done.
    + simpl. eexists. by rewrite <- app_assoc.
  - split_and!; [apply Hok; [by apply ok_call|done]|done|by eexists].
Qed.

(** What the mode rebuild leaves. *)
Definition rebuilt s s' : Prop :=
  ok s' /\ setup s s' /\ on_present_queue s' = on_present_queue s /\
  if maps s then
    match mapping s' with
    | None => presenting s' = false /\ ready (fb_task s') = false
    | Some m =>
        mapped_length s' = length (regs s) /\ presenting s' = fits s /\
        (fits s = true -> total_size s' = page_rounded (rows_length s) /\
          exists cs cs', calls s' = cs ++ NewBuffer (virtual_address m) (total_size s') :: cs')
    end
  else idle s' /\ fb_task s' = fb_task s.

Lemma map_framebuffer_spec s X : ok s -> presenting s = false -> texture s = None ->
  mapping s = None -> ready (fb_task s) = true ->
  xwp (alive ← asks device;
       made ← (if alive : bool then
                 ask (MapFramebuffer (info (fb_task s)) (shl64 (start_page (regs s)) PAGE_SHIFT)
                     (length (regs s)))
                   (new_task_mapping (info (fb_task s)) (shl64 (start_page (regs s)) PAGE_SHIFT)
                     (length (regs s)))
               else mret None);
       _ ← modify (with_mapping made);
       match made with
       | None =>
           _ ← destroy_task;
           modify (fun s => with_task (MkTask (info (fb_task s)) false) s)
       | Some m =>
           h ← asks height;
           let product := h * row s in
           _ ← modify (with_mapped (length (regs s)) (w32 product));
           if (M32 <=? product) || (length (regs s) <? w32 product) then mret tt
           else
             let total := Z.land (add32 (w32 product) PAGE_MASK) (not32 PAGE_MASK) in
             _ ← modify (with_mapped (length (regs s)) total);
             _ ← make_texture m (width s) h total (row s);
             schedule_presents
       end : M unit)
    (fun _ s' => ok s' /\ setup s s' /\ on_present_queue s' = on_present_queue s /\
      match mapping s' with
      | None => presenting s' = false /\ ready (fb_task s') = false
      | Some m =>
          mapped_length s' = length (regs s) /\ presenting s' = fits s /\
          (fits s = true -> total_size s' = page_rounded (rows_length s) /\
            exists cs cs', calls s' = cs ++ NewBuffer (virtual_address m) (total_size s') :: cs')
      end) X elsewhere s.
Proof.
  intros W Hno Htx Hmap Hready. xwp_go. rewrite (ok_device s W). xwp_go.
  apply xwp_ask; [apply mapping_elsewhere|]. intros made _. xwp_go.
  set (c := MapFramebuffer _ _ _). set (s1 := with_mapping made _).
  assert (ok s1) as W1.
  { destruct (ok_call c s ltac:(done) W) as [Hd H1 Hm Ht Hr Hz]. split; try done.
    unfold presenting in *. simpl in *. rewrite Hno, Htx. by intros [?|?]. }
  assert (setup s s1) as S1 by done.
  destruct made as [m|]; xwp_go.
  2: { eapply xwp_mono; [| | |by apply destroy_task_spec]; [|intros ? ? H0; exact H0|done].
       intros [] s2 (W2&S2&E2). xwp_go. split_and!; [by apply ok_with_task| |by rewrite E2|].
       - eapply setup_trans; [exact S1|]. by destruct S2; split.
       - rewrite E2. simpl. unfold presenting in *. simpl. by rewrite Hno. }
  change (height s1) with (height s). fold (rows_length s).
  destruct (ok_sizes s W) as (Hw&Hh&Hst).
  assert (0 <= rows_length s) as Hrows.
  { unfold rows_length, row. apply Z.mul_nonneg_nonneg; [done|]. case_if; lia. }
  assert ((M32 <=? rows_length s) || (length (regs s) <? w32 (rows_length s)) = negb (fits s))
    as ->.
  { unfold fits. destruct (Z.leb_spec M32 (rows_length s)); simpl.
    - by rewrite (proj2 (Z.ltb_ge (rows_length s) M32)).
    - rewrite (proj2 (Z.ltb_lt (rows_length s) M32)), w32_small, Z.ltb_antisym by lia. done. }
  destruct (fits s) eqn:Ef; simpl; xwp_go.
  2: { split_and!; [by apply ok_with_mapped|done..]. }
  assert (w32 (rows_length s) = rows_length s) as Ew.
  { unfold fits in Ef. to_props. apply w32_small. lia. }
  rewrite Ew. fold (page_rounded (rows_length s)).
  set (s2 := with_mapped (length (regs s)) (page_rounded (rows_length s)) _).
  eapply xwp_mono; [| | |apply (make_texture_spec m _ _ _ _ s2)]; [|intros ? ? H0; exact H0|done| |done].
  2: { by apply ok_with_mapped, ok_with_mapped. }
  intros [] s3 (W3&E3&cs3&C3).
  eapply xwp_mono; [| | |apply (schedule_presents_spec s3)]; [|intros ? ? H0; exact H0|done|done| |].
  - intros [] s4 (W4&P4&E4&cs4&C4). split_and!; [done| |by rewrite E4, E3|].
    + rewrite E4, E3. done.
    + assert (mapping s4 = Some m) as -> by (by rewrite E4, E3).
      split_and!; [by rewrite E4, E3|done|]. intros _.
      assert (total_size s4 = page_rounded (rows_length s)) as -> by (by rewrite E4, E3).
      split; [done|]. exists (calls s2), (cs3 ++ cs4). rewrite C4, C3, <- app_assoc. done.
  - rewrite E3. unfold presenting in *. simpl. done.
  - by rewrite E3.
Qed.

Lemma rebuild_mode_spec s X : ok s -> xwp rebuild_mode (fun _ => rebuilt s) X elsewhere s.
Proof.
  intros W. unfold rebuild_mode, rebuilt. xwp_go.
  eapply xwp_mono; [| | |by apply stopped]; [|intros ? ? H0; exact H0|done].
  intros [] s1 (W1&S1&(I1&I2&I3&I4)&F1&Q1). xwp_go.
  assert (idle s1) as I by done.
  destruct S1 as [Sd Sp Ss Sr Sw Sh]. unfold maps. rewrite Sw, Sr.
  destruct (Z.leb_spec M32 (width s * 4)) as [Hbig|Hsmall]; xwp_go.
  { rewrite (proj2 (Z.ltb_ge _ _) Hbig). simpl. split_and!; done. }
  rewrite (proj2 (Z.ltb_lt _ _) Hsmall), F1. simpl.
  assert ((if negb (stride (regs s) =? 0) then stride (regs s) else width s * 4) = row s) as ->.
  { unfold row. by destruct (stride (regs s) =? 0). }
  assert (get_stride_alignment s1 = get_stride_alignment s) as ->.
  { unfold get_stride_alignment. by rewrite Sd. }
  set (b := ready (fb_task s) && negb (mode (regs s) =? 0) && (depth (regs s) =? FRAMEBUFFER_DEPTH)
    && (width s * 4 <=? row s) && (Num.rem0 (row s) (get_stride_alignment s) =? 0)).
  assert (negb (ready (fb_task s)) || (mode (regs s) =? 0) || negb (depth (regs s) =? FRAMEBUFFER_DEPTH)
    || negb ((width s * 4 <=? row s) && (Num.rem0 (row s) (get_stride_alignment s) =? 0)) = negb b)
    as ->.
  { unfold b. destruct (ready _), (mode _ =? 0), (depth _ =? _), (_ <=? _), (_ =? _); done. }
  destruct b eqn:Eb; simpl; xwp_go; [|by split_and!].
  assert (row s1 = row s) as Erow by (unfold row; by rewrite Sr, Sw).
  assert (fits s1 = fits s /\ rows_length s1 = rows_length s) as [Efits Erows].
  { unfold fits, rows_length. by rewrite Erow, Sh, Sr. }
  pose proof (map_framebuffer_spec s1 X W1) as Hmap.
  rewrite F1, Sr, Sw, Erow, Efits, Erows in Hmap.
  eapply xwp_mono in Hmap; [revert Hmap; by xwp_go|..].
  - intros [] s' (W'&S'&Q'&Hv). split_and!; [done| |congruence|exact Hv].
    eapply setup_trans; [|exact S']. by split.
  - intros ? ? H0; exact H0.
  - done.
  - unfold presenting. by rewrite I1, I2.
  - done.
  - done.
  - unfold b in Eb. by to_props.
Qed.

(** *** The operations *)

Lemma rebuild_both s Q X : ok s -> on_present_queue s = false ->
  (forall s', ok s' -> on_present_queue s' = false -> Q tt s') ->
  xwp (_ ← rebuild_task; rebuild_mode : M unit) Q X elsewhere s.
Proof.
  intros W Hq HQ. xwp_go. eapply xwp_mono; [| | |by apply rebuild_task_spec];
    [|intros ? ? H0; exact H0|done].
  intros [] s1 (W1&S1&Q1&_). eapply xwp_mono; [| | |by apply rebuild_mode_spec];
    [|intros ? ? H0; exact H0|done].
  intros [] s2 (W2&_&Q2&_). apply HQ; [done|congruence].
Qed.
Lemma rebuild_mode_only s Q X : ok s -> on_present_queue s = false ->
  (forall s', ok s' -> on_present_queue s' = false -> Q tt s') ->
  xwp (rebuild_mode : M unit) Q X elsewhere s.
Proof.
  intros W Hq HQ. eapply xwp_mono; [| | |by apply rebuild_mode_spec];
    [|intros ? ? H0; exact H0|done].
  intros [] s2 (W2&_&Q2&_). apply HQ; [done|congruence].
Qed.

(** A present: the frame of the texture to the bound display, or, with no display that
    lives, no presentation. *)
Definition presented s s' : Prop :=
  match bound_modes s, display s, texture s with
  | Some _, Some d, Some t => s' = with_calls (calls s ++ [PresentFrame d t]) s
  | Some _, _, _ => s' = s
  | None, _, _ => idle s'
  end.
Lemma present_spec s X : ok s -> on_present_queue s = true ->
  xwp present (fun _ s' => ok s' /\ on_present_queue s' = true /\ presented s s') X elsewhere s.
Proof.
  intros W Hq. assert (xwp stop_presenting (fun _ s' => ok s' /\ on_present_queue s' = true /\
    idle s') X elsewhere s) as Hstop.
  { eapply xwp_mono; [| | |by apply stop_presenting_spec]; [|done|done].
    intros [] s' (?&_&?&_&?). done. }
  unfold present, assert_on_present_queue, presented, bound_modes. xwp_go. rewrite Hq. xwp_go.
  unfold id. destruct (display s) as [d|]; [|exact Hstop]. cbn [mbind option_bind].
  destruct (loaded_modes d (calls s)); [|exact Hstop].
  destruct (texture s) as [t|]; xwp_go; [|by rewrite Hq].
  apply xwp_ask; [apply frame_elsewhere|]. intros [] _. split_and!; [by apply ok_call|done..].
Qed.
Lemma teardown_op s Q X : ok s -> on_present_queue s = false ->
  (forall s', ok s' -> on_present_queue s' = false -> idle s' -> Q tt s') ->
  xwp (teardown : M unit) Q X elsewhere s.
Proof.
  intros W Hq HQ. apply sync_spec. xwp_go.
  eapply xwp_mono; [| | |apply stop_presenting_spec; [by apply ok_queue|done]]; [|done|done].
  intros [] s1 (W1&S1&I1&F1&Q1).
  eapply xwp_mono; [| | |by apply destroy_task_spec]; [|intros ? ? H0; exact H0|done].
  intros [] s2 (W2&S2&E2). apply HQ; [by apply ok_queue|done|]. rewrite E2. exact I1.
Qed.
End Presents.

(** What the device, the present queue and the host make of the EFI display. *)
Inductive Op : Type :=
| SetStart (v : Z)
| SetLength (v : Z)
| SetDepth (v : Z)
| SetMode (v : Z)
| SetStride (v : Z)
| SelectMode (v : Z)
| BindDisplay (d : option Z)
| Present
| Teardown.
Definition op_ok (o : Op) : Prop :=
  match o with
  | SetStart v | SetLength v | SetDepth v | SetMode v | SetStride v | SelectMode v => u32 v
  | _ => True
  end.

Section Ops.
Context {P : Host} {target : GuestRecords.Target}.
Local Abbreviation M := (Run State Empty_set ddeath).

Definition run_op (o : Op) : M unit :=
  match o with
  | SetStart v => set_framebuffer_start v
  | SetLength v => set_framebuffer_length v
  | SetDepth v => set_framebuffer_depth v
  | SetMode v => set_framebuffer_mode v
  | SetStride v => set_framebuffer_stride v
  | SelectMode v => set_mode_select v
  | BindDisplay d => set_display d
  | Present => sync present
  | Teardown => teardown
  end.
Fixpoint run_ops (os : list Op) : M unit :=
  match os with [] => mret tt | o :: os => _ ← run_op o; run_ops os end.
End Ops.

Section Safety.
Context {P : Host} {HL : HostLaws} {target : GuestRecords.Target}.
Local Abbreviation M := (Run State Empty_set ddeath).
Implicit Types (s : State).

Definition settled s : Prop := ok s /\ on_present_queue s = false.

Lemma run_op_spec o s : settled s -> op_ok o ->
  xwp (run_op o) (fun _ => settled) (fun _ _ => False) elsewhere s.
Proof.
  intros [W Hq] Ho. destruct (ok_sizes s W) as (Hw&Hh&Hs).
  assert (forall s', ok s' -> on_present_queue s' = false -> settled s') as Hend by done.
  destruct o as [v|v|v|v|v|v|d| |]; cbn [run_op].
  - unfold set_framebuffer_start. rewrite xwp_bind, xwp_modify.
    apply rebuild_both; [by apply ok_with_regs|done|done].
  - unfold set_framebuffer_length. rewrite xwp_bind, xwp_modify.
    apply rebuild_both; [by apply ok_with_regs|done|done].
  - unfold set_framebuffer_depth. rewrite xwp_bind, xwp_modify.
    apply rebuild_mode_only; [by apply ok_with_regs|done|done].
  - unfold set_framebuffer_mode. xwp_go.
    assert (0 <= Z.land v 0xffff) by (apply Z.land_nonneg; lia).
    assert (0 <= shr32 v 16) by (apply Z.shiftr_nonneg; simpl in Ho; lia).
    set (s1 := with_size _ _ _).
    assert (ok s1) by (apply ok_with_size; [done..|]; by apply ok_with_regs).
    destruct (_ || _); xwp_go; apply rebuild_mode_only; try done. by apply ok_with_size.
  - unfold set_framebuffer_stride. rewrite xwp_bind, xwp_modify.
    apply rebuild_mode_only; [|done|done]. apply ok_with_regs; [simpl in *; lia|done].
  - unfold set_mode_select. xwp_go. split; [|done]. by destruct W.
  - unfold set_display. xwp_go. split; [|done]. by destruct W.
  - apply sync_spec. eapply xwp_mono; [| | |apply present_spec; [by apply ok_queue|done]];
      [|intros ? ? H0; exact H0|done].
    intros [] s' (W'&_). split; [by apply ok_queue|exact Hq].
  - apply teardown_op; [done..|]. by intros s' W' Q' _.
Qed.

Lemma new_settled : settled new.
Proof. split; [|done]. by split; try done; intros [?|?]. Qed.

Lemma xwp_run_ops os : Forall op_ok os -> forall s, settled s ->
  xwp (run_ops os) (fun _ => settled) (fun _ _ => False) elsewhere s.
Proof.
  induction 1 as [|o os Ho _ IH]; intros s Hs; cbn [run_ops]; xwp_go; [done|].
  eapply xwp_mono; [| | |by apply run_op_spec]; [|done|done]. intros [] s' Hs'. by apply IH.
Qed.

Lemma after_settled (m : M unit) :
  xwp m (fun _ => settled) (fun _ _ => False) elsewhere new ->
  settled (match m new with Ret (_, s) => s | _ => new end).
Proof. unfold xwp. destruct (m new) as [[[] s]|[]|d]; [done|done|]. intros _. apply new_settled. Qed.

(** C11: whatever registers the guest writes, displays come and go and presents run, the
    EFI display has one source of presents at most, a trace range or a timer, only over a
    mapped framebuffer; no texture outlives the mapping; every timer started and every
    range the host took but the one held is cancelled or removed; and nothing stops a
    presentation off the present queue. *)
Theorem efi_presents_safe os : Forall op_ok os ->
  match run_ops os new with
  | Ret (_, s) => settled s
  | Raised _ => False
  | Died d => elsewhere d
  end.
Proof.
  intros Hos. pose proof (xwp_run_ops os Hos new new_settled) as H. unfold xwp in H.
  by destruct (run_ops os new) as [[[] s]|[]|d].
Qed.

(** A mode rebuild presents exactly where the registers name a framebuffer the task maps
    and whose rows fit the length; with a page-aligned length, the buffer over the mapping
    holds every row and ends inside it. *)
Theorem rebuild_mode_presents s : settled s ->
  match rebuild_mode s with
  | Ret (_, s') => rebuilt s s' /\
      (presenting s' = true -> length (regs s) <= MAX_FRAMEBUFFER_LENGTH ->
       Z.land (length (regs s)) PAGE_MASK = 0 ->
       maps s = true /\ mapping s' <> None /\
       width s * 4 <= row s /\ rows_length s <= total_size s' <= mapped_length s')
  | Raised _ => False
  | Died d => elsewhere d
  end.
Proof.
  intros [W Hq]. pose proof (rebuild_mode_spec s (fun _ _ => False) W) as H. unfold xwp in H.
  destruct (rebuild_mode s) as [[[] s']|[]|d]; [|done|done]. split; [done|].
  destruct H as (W'&_&_&H). intros Hp Hmax Hal. destruct (maps s) eqn:Em.
  2: { destruct H as [(H1&H2&_) _]. unfold presenting in Hp. by rewrite H1, H2 in Hp. }
  destruct (mapping s') as [m|] eqn:Emap; [|destruct H; congruence].
  destruct H as (Hlen&Hfit&Htot). rewrite Hp in Hfit. destruct (Htot (eq_sym Hfit)) as [-> _].
  split_and!; [done|done|unfold maps in Em; by to_props| |]; rewrite ?Hlen.
  all: destruct (ok_sizes s W) as (Hw&Hh&Hst).
  all: assert (0 <= rows_length s) as Hrows by
    (unfold rows_length, row; apply Z.mul_nonneg_nonneg; [done|]; case_if; lia).
  all: symmetry in Hfit; unfold fits in Hfit; to_props.
  all: assert (PAGE_MASK = 2 ^ PAGE_SHIFT - 1 /\ 0 < 2 ^ PAGE_SHIFT <= 16384 /\ 0 <= PAGE_SHIFT <= 32)
    as (EM&EP&ES) by (unfold PAGE_MASK, PAGE_SHIFT, GuestRecords.APV_PAGE_SHIFT;
      destruct GuestRecords.arch; vm_compute; intuition congruence).
  all: rewrite EM, land_mask in Hal by lia.
  all: unfold page_rounded, MAX_FRAMEBUFFER_LENGTH in *; rewrite EM.
  all: rewrite add32_small by (rewrite M32_val; lia).
  all: rewrite land_not32_mask by (rewrite ?M32_val; lia).
  all: set (p := 2 ^ PAGE_SHIFT) in *; set (n := rows_length s) in *;
    set (len := length (regs s)) in *.
  all: pose proof (Z.div_mod (n + (p - 1)) p ltac:(lia)) as Hdm;
    pose proof (Z.mod_pos_bound (n + (p - 1)) p ltac:(lia)) as Hb.
  { lia. }
  pose proof (Z.div_mod len p ltac:(lia)) as Hl. rewrite Hal in Hl.
  assert ((n + (p - 1)) / p < len / p + 1) as Hq' by (apply Z.div_lt_upper_bound; lia).
  nia.
Qed.
End Safety.

(** ** A host that takes every range *)

#[local] Instance sample_target : GuestRecords.Target := GuestRecords.AArch64.
#[local] Instance sample_host : Host := {
  create_task n i _ := Ret (true, MkInfo 9 0x200000000);
  destroy_task_of _ _ := Ret tt;
  new_task_mapping i _ _ _ := Ret (Some (MkMapping 5 (base_address i)));
  new_buffer _ _ _ := Ret (Some 6);
  new_texture _ _ _ _ _ := Ret (Some 7);
  add_trace_range _ _ cs := if (List.length cs <? 20)%nat then 0 else 8;
  min_linear_alignment := 256;
  max_texture_width := 16384;
  max_texture_height := 16384;
  loaded_modes d _ := if d =? 1 then Some [(640, 480); (800, 600)] else None;
  present_frame _ _ _ := Ret tt;
}.
#[local] Instance sample_laws : HostLaws.
Proof. by split. Qed.

(** 640 by 480 at 32 bits, presented. *)
Definition sample_ops : list Op := [BindDisplay (Some 1); SetStart 4; SetLength 0x200000;
  SetDepth 32; SetMode (640 + 480 * 65536); Present].
Definition sample_state : State :=
  match run_ops sample_ops new with Ret (_, s) => s | _ => new end.
Lemma sample_settled : settled sample_state.
Proof.
  apply (after_settled (run_ops sample_ops)), xwp_run_ops; [|exact new_settled].
  repeat constructor; by vm_compute.
Qed.
Example sample_presents :
  calls sample_state = [CreateTask 0x200000; MapFramebuffer (MkInfo 9 0x200000000) 0x10000 0x200000;
    NewBuffer 0x200000000 0x12c000; NewTexture 6 640 480 2560; AddTraceRange 0x10000 0x12c000;
    StartTimer; PresentFrame 1 7] /\
  get_mode_count sample_state = 2 /\ get_mode_value sample_state = 640 + 480 * 65536.
Proof. by vm_compute. Qed.
Lemma efi_presents_safe_witness :
  match run_ops sample_ops new with
  | Ret (_, s) => settled s
  | Raised _ => False
  | Died d => elsewhere d
  end.
Proof. apply (efi_presents_safe sample_ops). repeat constructor; by vm_compute. Defined.
Lemma rebuild_mode_presents_witness :
  match rebuild_mode sample_state with
  | Ret (_, s') => rebuilt sample_state s' /\
      (presenting s' = true -> length (regs sample_state) <= MAX_FRAMEBUFFER_LENGTH ->
       Z.land (length (regs sample_state)) PAGE_MASK = 0 ->
       maps sample_state = true /\ mapping s' <> None /\
       width sample_state * 4 <= row sample_state /\
       rows_length sample_state <= total_size s' <= mapped_length s')
  | Raised _ => False
  | Died d => elsewhere d
  end.
Proof. apply (rebuild_mode_presents sample_state sample_settled). Defined.
End Efi.
