(* ===== verification/Displays.v ===== *)
(** * Displays: the device's display ports and its EFI display
    (src/crates/reims-vgpu-core/src/device/displays.rs, device/config.rs)

    The ports over their parts: the guest displays, the displays' cores and the EFI
    display are the interface class [Parts], over a world of their own that holds the
    guest's memory; [PartsLaws] is what the ports count on. An operation runs alone
    under the displays lock, so a store is published when it is made. A display is the
    identity of the host's reference to it. The root node and the run state are the
    device's, given to the operations that read them. Log lines are not modelled. *)

From S2P Require Import Prelude Num MemoryKinds DisplayKinds DeviceKinds GuestPtr.
From stdpp Require Import relations.
Open Scope Z_scope.

Module Displays.
Import DisplayKinds DeviceKinds.

Definition ROOT_DISPLAY_WORDS : Z := 0x240.
Definition MAX_DISPLAY_PORT_COUNT : Z := 8.

(** ** The parts *)

(** What the ports ask of the guest displays ([G]), the displays' cores and the EFI
    displays ([X]), over their world [V]; [R] is what they raise. A display and a core
    are identities; a client comes with its core, which the registry knows. *)
Class Parts (V G X R : Type) := {
  memory_of : V -> GuestPtr.memory;
  store_memory : GuestPtr.memory -> V -> V;
  new_guest_display : Z -> Z -> V -> outcome (R * V) ddeath (G * V);
  gd_port : G -> Z;
  gd_client : G -> V -> option Z;
  gd_set_client : Memory.OnFault -> G -> option Z -> option Z -> V -> outcome (R * V) ddeath V;
  gd_will_restore : G -> V -> outcome (R * V) ddeath V;
  gd_release : G -> V -> outcome (R * V) ddeath V;
  core_alive : Z -> V -> bool;
  core_guest_display : Z -> V -> option G;
  core_set_guest_display :
    Memory.OnFault -> Z -> option G -> V -> outcome (R * V) ddeath V;
  display_alive : Z -> V -> bool;
  efi_new : V -> outcome (R * V) ddeath (X * V);
  efi_set_display : X -> option Z -> V -> outcome (R * V) ddeath V;
  efi_teardown : X -> V -> outcome (R * V) ddeath V;
}.

(** ** The state *)

Record EfiRegisters := MkEfi {
  enabled : Z;
  start : Z;
  length_ : Z;
  depth : Z;
  mode : Z;
  stride : Z;
}.
Definition efi_zero : EfiRegisters := MkEfi 0 0 0 0 0 0.
Definition with_enabled (v : Z) (e : EfiRegisters) : EfiRegisters :=
  MkEfi v (start e) (length_ e) (depth e) (mode e) (stride e).

(** A display registered and its core ([DisplayEntry]). *)
Record DisplayEntry := MkEntry {
  entry_display : Z;
  entry_core : Z;
}.

Record State (V G X : Type) := MkState {
  port_count : Z;
  display_port_busy_mask : Z;
  guest_display : list (option G);
  display_client : list (option Z);
  efi_display : option X;
  efi : EfiRegisters;
  display_cores : list DisplayEntry;
  world : V;
}.
Arguments MkState {V G X}.
Arguments port_count {V G X}. Arguments display_port_busy_mask {V G X}.
Arguments guest_display {V G X}. Arguments display_client {V G X}.
Arguments efi_display {V G X}. Arguments efi {V G X}. Arguments display_cores {V G X}.
Arguments world {V G X}.

Section State.
Context {V G X : Type}.
Implicit Types (s : State V G X).
Definition with_busy (b : Z) s : State V G X :=
  MkState (port_count s) b (guest_display s) (display_client s) (efi_display s) (efi s)
    (display_cores s) (world s).
Definition with_guest_displays (l : list (option G)) s : State V G X :=
  MkState (port_count s) (display_port_busy_mask s) l (display_client s) (efi_display s) (efi s)
    (display_cores s) (world s).
Definition with_clients (l : list (option Z)) s : State V G X :=
  MkState (port_count s) (display_port_busy_mask s) (guest_display s) l (efi_display s) (efi s)
    (display_cores s) (world s).
Definition with_efi_display (x : option X) s : State V G X :=
  MkState (port_count s) (display_port_busy_mask s) (guest_display s) (display_client s) x (efi s)
    (display_cores s) (world s).
Definition with_efi (e : EfiRegisters) s : State V G X :=
  MkState (port_count s) (display_port_busy_mask s) (guest_display s) (display_client s)
    (efi_display s) e (display_cores s) (world s).
Definition with_cores (l : list DisplayEntry) s : State V G X :=
  MkState (port_count s) (display_port_busy_mask s) (guest_display s) (display_client s)
    (efi_display s) (efi s) l (world s).
Definition with_world (v : V) s : State V G X :=
  MkState (port_count s) (display_port_busy_mask s) (guest_display s) (display_client s)
    (efi_display s) (efi s) (display_cores s) v.

(** A new device's ports. *)
Definition new (count : Z) (v : V) : State V G X :=
  MkState count 0 (replicate 8 None) (replicate 8 None) None efi_zero [] v.
End State.

(** A raise of the ports' own, or of a part. *)
Inductive Raise (R : Type) : Type := Own (k : PortsRaise) | OfPart (e : R).
Arguments Own {R} k.
Arguments OfPart {R} e.

(** The port's bit in the busy mask, and the offset of its word in the root node. *)
Definition port_bit (port : Z) : Z := Num.sign_extend_32 (Num.bit32 (Num.low_u32 port)).
Definition display_word_offset (port : Z) : Z := mul64 (add64 ROOT_DISPLAY_WORDS port) 4.

(** ** The operations *)

Section Displays.
Context {V G X R : Type} `{P : Parts V G X R}.
Local Abbreviation M := (Run (State V G X) (Raise R) ddeath).
Implicit Types (s : State V G X).

Definition fatal {A} (k : PortsDeath) : M A := die (OfPorts k).
Definition require_that (b : bool) (k : PortsDeath) : M unit := if b then mret tt else fatal k.

(** A part's operation in the ports' state. *)
Definition part {A} (m : V -> outcome (R * V) ddeath (A * V)) : M A := fun s =>
  match m (world s) with
  | Ret (a, v) => Ret (a, with_world v s)
  | Raised (e, v) => Raised (OfPart e, with_world v s)
  | Died d => Died d
  end.
Definition part_ (m : V -> outcome (R * V) ddeath V) : M unit :=
  part (fun v => v ← m v; Ret (tt, v)).
(** A raise no handler takes, and one a handler of the caller's ends. *)
Definition or_die {A} (m : M A) : M A := fun s =>
  match m s with Raised _ => Died UnhandledDisplay | r => r end.
Definition landed (m : M unit) : M unit := fun s =>
  match m s with Raised (_, s) => Ret (tt, s) | r => r end.

(** *** The slots and the registry *)

Definition guest_display_at (port : Z) s : option G := mjoin (guest_display s !! Z.to_nat port).
Definition client_at (port : Z) s : option Z := mjoin (display_client s !! Z.to_nat port).
Definition set_client_at (port : Z) (client : option Z) : M unit :=
  modify (fun s => with_clients (<[Z.to_nat port := client]> (display_client s)) s).
Definition set_guest_display_at (port : Z) (g : option G) : M unit :=
  modify (fun s => with_guest_displays (<[Z.to_nat port := g]> (guest_display s)) s).
Definition has_guest_display (port : Z) s : bool :=
  match guest_display_at port s with Some _ => true | None => false end.

Definition register_display (display core : Z) : M unit :=
  modify (fun s => with_cores (display_cores s ++ [MkEntry display core]) s).
Definition deregister_display (core : Z) : M unit :=
  modify (fun s => with_cores (filter (fun e => entry_core e ≠ core) (display_cores s)) s).
Definition find_entry (display : Z) (l : list DisplayEntry) : option DisplayEntry :=
  snd <$> list_find (fun e => entry_display e = display) l.
Definition display_core (display : Z) s : option Z :=
  e ← find_entry display (display_cores s);
  if core_alive (entry_core e) (world s) then Some (entry_core e) else None.

Definition same_client (a b : option Z) : bool :=
  match a, b with
  | None, None => true
  | Some a, Some b => a =? b
  | _, _ => false
  end.

(** *** Attach and detach *)

Definition attach_display (display port : Z) : M bool :=
  count ← asks port_count;
  if count <=? port then mret false
  else
    busy ← asks display_port_busy_mask;
    let attached := Z.land busy (port_bit port) =? 0 in
    _ ← (if attached then
      _ ← modify (with_busy (Z.lor busy (port_bit port)));
      guest_display ← asks (guest_display_at port);
      match guest_display with
      | Some g =>
          own ← asks (display_core display);
          _ ← or_die (part_ (gd_set_client Memory.Die g (Some display) own));
          core ← asks (display_core display);
          match core with
          | Some core => or_die (part_ (core_set_guest_display Memory.Die core (Some g)))
          | None => mret tt
          end
      | None =>
          parked ← asks (client_at port);
          _ ← require_that (match parked with None => true | Some _ => false end) ParkedOnFreePort;
          set_client_at port (Some display)
      end
    else mret tt);
    mret attached.

Definition detach_display (display port : Z) : M unit :=
  count ← asks port_count;
  _ ← require_that (port <? count) DetachOutOfRange;
  busy ← asks display_port_busy_mask;
  _ ← require_that (negb (Z.land busy (port_bit port) =? 0)) DetachNotClaimed;
  guest_display ← asks (guest_display_at port);
  _ ← (match guest_display with
    | Some g =>
        client ← asks (fun s => gd_client g (world s));
        _ ← require_that (same_client client (Some display)) DetachOtherGuestDisplayClient;
        or_die (part_ (gd_set_client Memory.Die g None None))
    | None =>
        parked ← asks (client_at port);
        _ ← require_that
          (match parked with None => true | Some _ => same_client parked (Some display) end)
          DetachOtherParkedClient;
        core ← asks (display_core display);
        nil ← asks (fun s =>
          match core with
          | None => true
          | Some core =>
              match core_guest_display core (world s) with None => true | Some _ => false end
          end);
        _ ← require_that nil DetachParkedWithGuestDisplay;
        set_client_at port None
    end);
  efi ← asks efi_display;
  _ ← (match efi with
       | Some efi =>
           if port =? 0 then or_die (part_ (efi_set_display efi None)) else mret tt
       | None => mret tt
       end);
  busy ← asks display_port_busy_mask;
  modify (with_busy (Z.land busy (not64 (port_bit port)))).

(** *** The state page *)

(** A store in the root node; no isolated task's stop reaches the ports. *)
Definition write_root (root off v : Z) : M unit := part_ (fun w =>
  m ← GuestPtr.write_u32 (OfPorts RootWordNull) false (memory_of w) root off v
        (OfPorts RootWordNull);
  Ret (store_memory m w)).

(** A client's core takes the guest display. *)
Definition core_set (on : Memory.OnFault) (core : option Z) (g : option G) : M unit :=
  match core with
  | Some core => part_ (core_set_guest_display on core g)
  | None => mret tt
  end.

(** A parked client handed to the port's new guest display. *)
Definition hand_parked (port : Z) (g : G) : M unit :=
  parked ← asks (client_at port);
  match parked with
  | Some client =>
      core ← asks (display_core client);
      _ ← core_set Memory.Return core (Some g);
      own ← asks (display_core client);
      _ ← part_ (gd_set_client Memory.Return g (Some client) own);
      set_client_at port None
  | None => mret tt
  end.

(** A page for a port with no guest display. *)
Definition new_page (root_node : option Z) (page port : Z) (restoring : bool) : M (option G) :=
  taken ← asks (guest_display_at port);
  match taken with
  | Some _ => raise (Own PortInUse)
  | None =>
      g ← part (new_guest_display port page);
      _ ← (if restoring then part_ (gd_will_restore g)
           else
             match root_node with
             | None => raise (Own NoRootNode)
             | Some root_node => write_root root_node (display_word_offset port) page
             end);
      _ ← hand_parked port g;
      mret (Some g)
  end.

(** The port's word in the root node cleared, only while running. *)
Definition clear_root (root_node : option Z) (running : bool) (port : Z) : M unit :=
  match root_node with
  | Some root_node =>
      if running then write_root root_node (display_word_offset port) 0 else mret tt
  | None => mret tt
  end.

(** Page 0. *)
Definition no_page (root_node : option Z) (running : bool) (port : Z) : M (option G) :=
  guest_display ← asks (guest_display_at port);
  match guest_display with
  | None => raise (Own PortNotInUse)
  | Some g =>
      client ← asks (fun s => gd_client g (world s));
      _ ← part_ (gd_set_client Memory.Return g None None);
      core ← asks (fun s => c ← client; display_core c s);
      _ ← core_set Memory.Return core None;
      parked ← asks (client_at port);
      _ ← require_that (match parked with None => true | Some _ => false end)
        ParkedBesideGuestDisplay;
      _ ← set_client_at port client;
      _ ← set_guest_display_at port None;
      _ ← or_die (part_ (gd_release g));
      _ ← clear_root root_node running port;
      mret None
  end.

Definition set_shared_display_state_page_locked (root_node : option Z) (running : bool)
    (page port : Z) (restoring : bool) : M unit :=
  guest_display ← (if negb (page =? 0) then new_page root_node page port restoring
                   else no_page root_node running port);
  set_guest_display_at port guest_display.

Definition set_shared_display_state_page (root_node : option Z) (running : bool)
    (page port : Z) (restoring : bool) : M unit :=
  count ← asks port_count;
  if count <=? port then raise (Own PortOutOfRange)
  else set_shared_display_state_page_locked root_node running page port restoring.

(** *** The lookups *)

Definition get_guest_display_at_port (port : Z) : M G :=
  count ← asks port_count;
  if count <=? port then raise (Own PortOutOfRange)
  else
    guest_display ← asks (guest_display_at port);
    match guest_display with
    | None => raise (Own PortNotInUse)
    | Some g => mret g
    end.

Definition get_display_at_port (port : Z) s : option Z :=
  if port_count s <=? port then None
  else
    let display :=
      match client_at port s with
      | Some d => Some d
      | None => g ← guest_display_at port s; gd_client g (world s)
      end in
    d ← display; if display_alive d (world s) then Some d else None.

(** *** The teardown and the EFI display *)

Fixpoint teardown_ports (root_node : option Z) (running : bool) (n : nat) (port : Z) : M unit :=
  match n with
  | O => mret tt
  | S n =>
      shown ← asks (has_guest_display port);
      _ ← (if shown : bool
           then landed (set_shared_display_state_page root_node running 0 port false)
           else mret tt);
      teardown_ports root_node running n (port + 1)
  end.
Definition teardown_displays (root_node : option Z) (running : bool) : M unit :=
  count ← asks port_count;
  teardown_ports root_node running (Z.to_nat count) 0.

Definition set_efi_display (enabled : Z) : M unit :=
  if negb (enabled =? 0) then
    old ← asks efi_display;
    _ ← (match old with
         | Some _ => mret tt
         | None =>
             efi ← or_die (part efi_new);
             _ ← modify (with_efi_display (Some efi));
             client ← asks (client_at 0);
             dying ← asks (fun s =>
               match client with Some c => negb (display_alive c (world s)) | None => false end);
             _ ← (if dying : bool then fatal EfiBindDeallocating else mret tt);
             or_die (part_ (efi_set_display efi client))
         end);
    modify (fun s => with_efi (with_enabled enabled (efi s)) s)
  else
    efi ← asks efi_display;
    _ ← (match efi with Some efi => or_die (part_ (efi_teardown efi)) | None => mret tt end);
    _ ← modify (with_efi_display None);
    modify (with_efi efi_zero).
End Displays.

(** ** What the ports count on *)

Section Laws.
Context {V G X R : Type} `{P : Parts V G X R}.

(** A death that is not the ports' own. *)
Definition foreign (d : ddeath) : Prop := forall k, d <> OfPorts k.

(** What a part leaves: [Q] of an answer, [E] of a raise, no death of the ports'. *)
Definition answers (o : outcome (R * V) ddeath V) (Q E : V -> Prop) : Prop :=
  match o with Ret v => Q v | Raised (_, v) => E v | Died d => foreign d end.

Definition same_clients (v v' : V) : Prop := forall g : G, gd_client g v' = gd_client g v.
Definition other_clients (port : Z) (v v' : V) : Prop :=
  forall g : G, gd_port g <> port -> gd_client g v' = gd_client g v.
Definition client_set (g : G) (c : option Z) (v v' : V) : Prop :=
  gd_client g v' = c /\ other_clients (gd_port g) v v'.
End Laws.

(** A guest display is made on its port with no client; its client changes only where
    the ports set it, also when the state machine raises past the store; a client taken
    away raises nothing, and neither does a core that lets its guest display go. *)
Class PartsLaws (V G X R : Type) `{P : Parts V G X R} : Prop := {
  law_memory m v : memory_of (store_memory m v) = m;
  law_store m v : same_clients v (store_memory m v);
  law_new port page v :
    match new_guest_display port page v with
    | Ret (g, v') => gd_port g = port /\ client_set g None v v'
    | Raised (_, v') => same_clients v v'
    | Died d => foreign d
    end;
  law_set_client on g c core v :
    answers (gd_set_client on g c core v) (client_set g c v)
      (fun v' => c <> None /\ client_set g c v v');
  law_will_restore g v : answers (gd_will_restore g v) (same_clients v) (fun _ => False);
  law_release g v : answers (gd_release g v) (other_clients (gd_port g) v) (fun _ => False);
  law_core on core g v :
    answers (core_set_guest_display on core g v) (same_clients v)
      (fun v' => g <> None /\ same_clients v v');
  law_efi_new v :
    match efi_new v with
    | Ret (_, v') => same_clients v v'
    | Raised (_, v') => same_clients v v'
    | Died d => foreign d
    end;
  law_efi_set x c v : answers (efi_set_display x c v) (same_clients v) (same_clients v);
  law_efi_teardown x v : answers (efi_teardown x v) (same_clients v) (same_clients v);
}.

(** ** A port's abstract state *)

Inductive Port (G : Type) : Type :=
| Free
| Parked (d : Z)
| Shown (g : G)
| Claimed (g : G) (d : Z).
Arguments Free {G}.
Arguments Parked {G} d.
Arguments Shown {G} g.
Arguments Claimed {G} g d.

(** The abstract operations: what an attach, a detach, a page and page 0 make of a port,
    where they apply. *)
Definition attached {G} (d : Z) (p : Port G) : option (Port G) :=
  match p with
  | Free => Some (Parked d)
  | Shown g => Some (Claimed g d)
  | _ => None
  end.
Definition detached {G} (p : Port G) : Port G :=
  match p with Claimed g _ => Shown g | Shown g => Shown g | _ => Free end.
Definition paged {G} (g : G) (p : Port G) : option (Port G) :=
  match p with
  | Free => Some (Shown g)
  | Parked d => Some (Claimed g d)
  | _ => None
  end.
Definition unpaged {G} (p : Port G) : Port G :=
  match p with Claimed _ d => Parked d | Shown _ => Free | p => p end.
Definition claimed {G} (p : Port G) : bool :=
  match p with Parked _ | Claimed _ _ => true | _ => false end.
Definition shown {G} (p : Port G) : bool :=
  match p with Shown _ | Claimed _ _ => true | _ => false end.
Definition client_of {G} (p : Port G) : option Z :=
  match p with Parked d | Claimed _ d => Some d | _ => None end.

Section Invariant.
Context {V G X R : Type} `{P : Parts V G X R}.
Implicit Types (s : State V G X).

(** The state of a port. *)
Definition view s (port : Z) : Port G :=
  match guest_display_at port s with
  | Some g => match gd_client g (world s) with None => Shown g | Some d => Claimed g d end
  | None => match client_at port s with None => Free | Some d => Parked d end
  end.

(** A guest display is in its own port's slot, with nothing parked beside it. *)
Definition port_ok s (port : Z) : Prop :=
  forall g, guest_display_at port s = Some g -> gd_port g = port /\ client_at port s = None.

(** The busy mask has the bit of each port a display claims, and no other. *)
Record well_formed s : Prop := {
  wf_count : 0 < port_count s <= MAX_DISPLAY_PORT_COUNT;
  wf_slots : length (guest_display s) = 8%nat;
  wf_parks : length (display_client s) = 8%nat;
  wf_busy : forall port, 0 <= port ->
    Z.testbit (display_port_busy_mask s) port = claimed (view s port);
  wf_past : forall port, port_count s <= port -> view s port = Free;
  wf_ok : forall port, 0 <= port -> port_ok s port;
}.
End Invariant.

(** ** Bits and slots *)

Lemma port_bit_pow port : 0 <= port < 8 -> port_bit port = 2 ^ port.
Proof.
  intros Hp. assert (port = 0 \/ port = 1 \/ port = 2 \/ port = 3 \/ port = 4 \/ port = 5
    \/ port = 6 \/ port = 7) as Hc by lia.
  by destruct Hc as [->|[->|[->|[->|[->|[->|[->| ->]]]]]]].
Qed.

Lemma port_bit_free b port : 0 <= port < 8 ->
  (Z.land b (port_bit port) =? 0) = negb (Z.testbit b port).
Proof.
  intros Hp. rewrite port_bit_pow by done. rewrite Z.land_comm.
  destruct (Z.testbit b port) eqn:E; simpl.
  - apply Z.eqb_neq. intros H0. apply (f_equal (fun z => Z.testbit z port)) in H0.
    rewrite Z.land_spec, Z.pow2_bits_true, E, Z.bits_0 in H0 by lia. done.
  - apply Z.eqb_eq, Z.bits_inj'. intros i Hi. rewrite Z.land_spec, Z.bits_0.
    destruct (decide (i = port)) as [->|Hne]; [by rewrite E, andb_false_r|].
    by rewrite Z.pow2_bits_false by lia.
Qed.

Lemma set_port_bit b port i : 0 <= port < 8 ->
  Z.testbit (Z.lor b (port_bit port)) i = (i =? port) || Z.testbit b i.
Proof.
  intros Hp. rewrite port_bit_pow, Z.lor_spec, Z.pow2_bits_eqb, (Z.eqb_sym port) by lia.
  by rewrite orb_comm.
Qed.

Lemma clear_port_bit b port i : 0 <= port < 8 -> 0 <= i ->
  (8 <= i -> Z.testbit b i = false) ->
  Z.testbit (Z.land b (not64 (port_bit port))) i = negb (i =? port) && Z.testbit b i.
Proof.
  intros Hp Hi Hhigh. rewrite Z.land_spec.
  destruct (decide (8 <= i)) as [H8|H8]; [by rewrite (Hhigh H8), andb_false_r|].
  rewrite port_bit_pow by done. rewrite andb_comm. f_equal. rewrite Z.eqb_sym.
  assert (forallb (fun p => forallb (fun i => eqb (Z.testbit (not64 (2 ^ Z.of_nat p)) (Z.of_nat i))
    (negb (Z.of_nat p =? Z.of_nat i))) (seq 0 8)) (seq 0 8) = true) as Hall by reflexivity.
  rewrite forallb_forall in Hall. specialize (Hall (Z.to_nat port)).
  rewrite in_seq in Hall. specialize (Hall ltac:(lia)).
  rewrite forallb_forall in Hall. specialize (Hall (Z.to_nat i)).
  rewrite in_seq in Hall. specialize (Hall ltac:(lia)).
  by rewrite !Z2Nat.id, eqb_true_iff in Hall by lia.
Qed.

Lemma slot_insert {A} (l : list (option A)) port q c : 0 <= port < 8 -> 0 <= q ->
  length l = 8%nat ->
  mjoin (<[Z.to_nat port := c]> l !! Z.to_nat q) = if q =? port then c else mjoin (l !! Z.to_nat q).
Proof.
  intros Hp Hq Hl. destruct (Z.eqb_spec q port) as [->|Hne].
  - by rewrite list_lookup_insert_eq by lia.
  - by rewrite list_lookup_insert_ne by lia.
Qed.

Section Ports.
Context {V G X R : Type} `{P : Parts V G X R}.
Implicit Types (s : State V G X).
Local Abbreviation M := (Run (State V G X) (Raise R) ddeath).

(** ** What an operation on one port leaves of the others *)

Record touches (port : Z) s s' : Prop := {
  t_count : port_count s' = port_count s;
  t_slots : length (guest_display s') = length (guest_display s);
  t_parks : length (display_client s') = length (display_client s);
  t_other : forall q, 0 <= q -> q <> port ->
    guest_display_at q s' = guest_display_at q s /\ client_at q s' = client_at q s;
  t_world : other_clients port (world s) (world s');
}.

Lemma other_refl port v : other_clients port v v.
Proof. by intros g Hg. Qed.
Lemma other_trans port v1 v2 v3 :
  other_clients port v1 v2 -> other_clients port v2 v3 -> other_clients port v1 v3.
Proof. intros H1 H2 g Hg. by rewrite H2, H1. Qed.
Lemma same_other port v v' : same_clients v v' -> other_clients port v v'.
Proof. intros H g _. apply H. Qed.
Lemma same_trans v1 v2 v3 : same_clients v1 v2 -> same_clients v2 v3 -> same_clients v1 v3.
Proof. intros H1 H2 g. by rewrite H2, H1. Qed.

Lemma touch_refl port s : touches port s s.
Proof. split; try done. Qed.
Lemma touch_trans port s1 s2 s3 :
  touches port s1 s2 -> touches port s2 s3 -> touches port s1 s3.
Proof.
  intros [C1 S1 K1 O1 W1] [C2 S2 K2 O2 W2]. split; [congruence..| |].
  - intros q Hq Hne. destruct (O1 q Hq Hne) as [<- <-]. by apply O2.
  - by eapply other_trans.
Qed.
Lemma touch_busy port b s : touches port s (with_busy b s).
Proof. split; try done. Qed.
Lemma touch_world port v s : other_clients port (world s) v -> touches port s (with_world v s).
Proof. intros H. by split. Qed.
Lemma touch_client port c s : 0 <= port ->
  touches port s (with_clients (<[Z.to_nat port := c]> (display_client s)) s).
Proof.
  intros Hp. split; try done; simpl.
  - by rewrite length_insert.
  - intros q Hq Hne. split; [done|]. unfold client_at. simpl.
    by rewrite list_lookup_insert_ne by lia.
Qed.
Lemma touch_guest_display port g s : 0 <= port ->
  touches port s (with_guest_displays (<[Z.to_nat port := g]> (guest_display s)) s).
Proof.
  intros Hp. split; try done; simpl.
  - by rewrite length_insert.
  - intros q Hq Hne. split; [|done]. unfold guest_display_at. simpl.
    by rewrite list_lookup_insert_ne by lia.
Qed.

Lemma view_touched port s s' q : touches port s s' -> 0 <= q -> q <> port -> port_ok s q ->
  view s' q = view s q.
Proof.
  intros T Hq Hne Hok. unfold view. destruct (t_other _ _ _ T q Hq Hne) as [-> ->].
  destruct (guest_display_at q s) as [g|] eqn:E; [|done].
  rewrite (t_world _ _ _ T g); [done|]. destruct (Hok g E) as [-> _]. done.
Qed.

Lemma wf_touched port s s' : well_formed s -> 0 <= port < port_count s -> touches port s s' ->
  port_ok s' port ->
  (forall i, 0 <= i -> Z.testbit (display_port_busy_mask s') i
    = if i =? port then claimed (view s' port) else Z.testbit (display_port_busy_mask s) i) ->
  well_formed s'.
Proof.
  intros [Hc Hs Hk Hb Hpast Hok] Hp T Hok' Hb'.
  assert (forall q, 0 <= q -> q <> port -> view s' q = view s q) as Hv.
  { intros q Hq Hne. eapply view_touched; eauto. }
  split.
  - by rewrite (t_count _ _ _ T).
  - by rewrite (t_slots _ _ _ T).
  - by rewrite (t_parks _ _ _ T).
  - intros q Hq. rewrite Hb' by done. destruct (Z.eqb_spec q port) as [->|Hne]; [done|].
    rewrite Hv by done. by apply Hb.
  - rewrite (t_count _ _ _ T). intros q Hq. rewrite Hv by lia. by apply Hpast.
  - intros q Hq. destruct (decide (q = port)) as [->|Hne]; [done|].
    unfold port_ok. destruct (t_other _ _ _ T q Hq Hne) as [-> ->]. by apply Hok.
Qed.

(** ** The parts' operations *)

Lemma xwp_part_eq (m : V -> outcome (R * V) ddeath V) (Q : unit -> State V G X -> Prop)
    (X' : Raise R -> State V G X -> Prop) K s :
  xwp (part_ m : M unit) Q X' K s
  = match m (world s) with
    | Ret v => Q tt (with_world v s)
    | Raised (e, v) => X' (OfPart e) (with_world v s)
    | Died d => K d
    end.
Proof. unfold xwp, part_, part. cbv beta. by destruct (m (world s)) as [v|[e v]|d]. Qed.
Lemma xwp_part_ (m : V -> outcome (R * V) ddeath V) Q X' K s QV EV :
  answers (m (world s)) QV EV ->
  (forall v, QV v -> Q tt (with_world v s)) ->
  (forall e v, EV v -> X' (OfPart e) (with_world v s)) ->
  (forall d, foreign d -> K d) ->
  xwp (part_ m : M unit) Q X' K s.
Proof.
  rewrite xwp_part_eq. intros Ha HQ HX HK.
  destruct (m (world s)) as [v|[e v]|d]; simpl in *; eauto.
Qed.
Lemma xwp_part {A} (m : V -> outcome (R * V) ddeath (A * V)) Q X' K s :
  xwp (part m : M A) Q X' K s
  = match m (world s) with
    | Ret (a, v) => Q a (with_world v s)
    | Raised (e, v) => X' (OfPart e) (with_world v s)
    | Died d => K d
    end.
Proof. unfold xwp, part. by destruct (m (world s)) as [[]|[]|]. Qed.
Lemma xwp_or_die {A} (m : M A) Q X' K s : K UnhandledDisplay ->
  xwp m Q (fun _ _ => True) K s -> xwp (or_die m) Q X' K s.
Proof. unfold xwp, or_die. by destruct (m s) as [[a s']|[]|]. Qed.
Lemma xwp_landed (m : M unit) Q X' K s :
  xwp m Q (fun _ => Q tt) K s -> xwp (landed m) Q X' K s.
Proof. unfold xwp, landed. destruct (m s) as [[[] s']|[]|]; done. Qed.
Lemma xwp_require (b : bool) k (Q : unit -> State V G X -> Prop)
    (X' : Raise R -> State V G X -> Prop) K s :
  xwp (require_that b k : M unit) Q X' K s = if b then Q tt s else K (OfPorts k).
Proof. by destruct b. Qed.
Lemma xwp_set_guest_display port g (Q : unit -> State V G X -> Prop)
    (X' : Raise R -> State V G X -> Prop) K s :
  xwp (set_guest_display_at port g : M unit) Q X' K s
  = Q tt (with_guest_displays (<[Z.to_nat port := g]> (guest_display s)) s).
Proof. done. Qed.
Lemma foreign_unhandled : foreign UnhandledDisplay.
Proof. done. Qed.
End Ports.

(** ** Each operation on its port *)

Section Operations.
Context {V G X R : Type} `{P : Parts V G X R} `{L : !PartsLaws V G X R}.
Implicit Types (s : State V G X).
Local Abbreviation M := (Run (State V G X) (Raise R) ddeath).

Lemma xwp_set_client on g c core Q X' K s :
  (forall v, client_set g c (world s) v -> Q tt (with_world v s)) ->
  (c <> None -> forall e v, client_set g c (world s) v -> X' (OfPart e) (with_world v s)) ->
  (forall d, foreign d -> K d) ->
  xwp (part_ (gd_set_client on g c core) : M unit) Q X' K s.
Proof.
  intros HQ HX HK. eapply xwp_part_; [apply law_set_client|done| |done].
  intros e v [Hc H]. by apply HX.
Qed.
Lemma xwp_core_set on core g Q X' K s :
  Q tt s ->
  (forall v, same_clients (world s) v -> Q tt (with_world v s)) ->
  (g <> None -> forall e v, same_clients (world s) v -> X' (OfPart e) (with_world v s)) ->
  (forall d, foreign d -> K d) ->
  xwp (core_set on core g : M unit) Q X' K s.
Proof.
  intros Hs HQ HX HK. destruct core as [core|]; simpl; [|done].
  eapply xwp_part_; [apply law_core|done| |done].
  intros e v [Hc H]. by apply HX.
Qed.

Lemma view_at_client s port : view s port
  = match guest_display_at port s with
    | Some g => match gd_client g (world s) with None => Shown g | Some d => Claimed g d end
    | None => match client_at port s with None => Free | Some d => Parked d end
    end.
Proof. done. Qed.

Lemma client_at_set port c s : 0 <= port < 8 -> length (display_client s) = 8%nat ->
  client_at port (with_clients (<[Z.to_nat port := c]> (display_client s)) s) = c.
Proof.
  intros Hp Hl. unfold client_at. simpl. rewrite slot_insert by (done || lia). by rewrite Z.eqb_refl.
Qed.
Lemma guest_display_at_set port g s : 0 <= port < 8 -> length (guest_display s) = 8%nat ->
  guest_display_at port (with_guest_displays (<[Z.to_nat port := g]> (guest_display s)) s) = g.
Proof.
  intros Hp Hl. unfold guest_display_at. simpl. rewrite slot_insert by (done || lia).
  by rewrite Z.eqb_refl.
Qed.

Lemma attach_spec d port s : well_formed s -> 0 <= port ->
  xwp (attach_display d port)
    (fun b s' => well_formed s' /\ touches port s s' /\
       if b : bool then attached d (view s port) = Some (view s' port)
       else s' = s /\ (port_count s <= port \/ claimed (view s port) = true))
    (fun _ _ => False) foreign s.
Proof.
  intros W Hp. pose proof (wf_count s W) as Hc. unfold MAX_DISPLAY_PORT_COUNT in Hc.
  unfold attach_display. xwp_go. case_if; xwp_go; [eauto using touch_refl|].
  rewrite port_bit_free, (wf_busy s W) by lia.
  destruct (claimed (view s port)) eqn:Hcl; simpl; xwp_go; [eauto using touch_refl|].
  set (s1 := with_busy _ s).
  assert (touches port s s1) as T1 by apply touch_busy.
  assert (forall i, 0 <= i -> Z.testbit (display_port_busy_mask s1) i
    = if i =? port then true else Z.testbit (display_port_busy_mask s) i) as Hb.
  { intros i Hi. simpl. rewrite set_port_bit by lia. by destruct (i =? port). }
  change (guest_display_at port s1) with (guest_display_at port s).
  destruct (guest_display_at port s) as [g|] eqn:Eg.
  - destruct (wf_ok s W port Hp g Eg) as [Hport Hnone].
    assert (forall v, client_set g (Some d) (world s) v ->
      well_formed (with_world v s1) /\ touches port s (with_world v s1) /\
      attached d (view s port) = Some (view (with_world v s1) port)) as Hend.
    { intros v [Hd Ho]. rewrite Hport in Ho.
      assert (touches port s (with_world v s1)) as T.
      { eapply touch_trans; [done|]. by apply touch_world. }
      assert (view (with_world v s1) port = Claimed g d) as Hv.
      { rewrite view_at_client. change (guest_display_at port (with_world v s1))
          with (guest_display_at port s). rewrite Eg. simpl. by rewrite Hd. }
      split; [|split; [done|]].
      - apply (wf_touched port s); [done|lia|done| |].
        + intros g' Hg'. change (guest_display_at port (with_world v s1))
            with (guest_display_at port s) in Hg'. simplify_eq. done.
        + intros i Hi. rewrite Hv. by apply Hb.
      - rewrite Hv. rewrite view_at_client, Eg in *. by destruct (gd_client g (world s)). }
    xwp_go. apply xwp_or_die; [done|]. apply xwp_set_client; [|done..].
    intros v Hv. xwp_go. destruct (display_core d (with_world v s1)) as [core|]; xwp_go.
    + apply xwp_or_die; [done|].
      apply (xwp_core_set Memory.Die (Some core)); [by apply Hend| |done..].
      intros v' Hv'. xwp_go. apply (Hend v').
      destruct Hv as [H1 H2]. split; [by rewrite (Hv' g)|].
      eapply other_trans; [exact H2|]. by apply same_other.
    + by apply Hend.
  - assert (client_at port s = None) as Hn.
    { rewrite view_at_client, Eg in Hcl. by destruct (client_at port s). }
    xwp_go. rewrite xwp_require. change (client_at port s1) with (client_at port s).
    rewrite Hn. unfold set_client_at. xwp_go.
    set (s2 := with_clients _ s1).
    assert (client_at port s2 = Some d) as Hd2.
    { apply client_at_set; [lia|]. apply (wf_parks s W). }
    assert (touches port s s2) as T.
    { eapply touch_trans; [done|]. apply touch_client. done. }
    assert (view s2 port = Parked d) as Hv.
    { rewrite view_at_client. change (guest_display_at port s2) with (guest_display_at port s).
      by rewrite Eg, Hd2. }
    split; [|split; [done|]].
    + apply (wf_touched port s); [done|lia|done| |].
      * intros g'. change (guest_display_at port s2) with (guest_display_at port s).
        by rewrite Eg.
      * intros i Hi. rewrite Hv. by apply Hb.
    + rewrite Hv. by rewrite view_at_client, Eg, Hn.
Qed.

(** The death a detach of [d] ends in, if it does. *)
Definition detach_death (d port : Z) s : option PortsDeath :=
  if port_count s <=? port then Some DetachOutOfRange
  else match view s port with
    | Claimed _ d' => if d' =? d then None else Some DetachOtherGuestDisplayClient
    | Parked d' =>
        if d' =? d then
          match core ← display_core d s; core_guest_display core (world s) with
          | Some _ => Some DetachParkedWithGuestDisplay
          | None => None
          end
        else Some DetachOtherParkedClient
    | _ => Some DetachNotClaimed
    end.

(** What the detach leaves once the client is gone: the EFI display unbound, the bit
    cleared. *)
Lemma detach_rest (port : Z) s s1 Q : well_formed s -> 0 <= port < port_count s ->
  touches port s s1 -> display_port_busy_mask s1 = display_port_busy_mask s ->
  (forall s', touches port s s' -> well_formed s' -> view s' port = view s1 port -> Q s') ->
  claimed (view s1 port) = false -> port_ok s1 port ->
  xwp (efi ← asks efi_display;
       _ ← (match efi with
            | Some efi => if port =? 0 then or_die (part_ (efi_set_display efi None)) else mret tt
            | None => mret tt
            end);
       busy ← asks display_port_busy_mask;
       modify (with_busy (Z.land busy (not64 (port_bit port)))) : M unit)
    (fun _ => Q) (fun _ _ => False) foreign s1.
Proof.
  intros W Hp T Hb HQ Hcl Hok. pose proof (wf_count s W) as Hc.
  unfold MAX_DISPLAY_PORT_COUNT in Hc.
  assert (forall v, same_clients (world s1) v ->
    Q (with_busy (Z.land (display_port_busy_mask s) (not64 (port_bit port))) (with_world v s1)))
    as Hend.
  { intros v Hv. set (s' := with_busy _ _).
    assert (touches port s s') as T'.
    { eapply touch_trans; [exact T|]. eapply touch_trans; [|apply touch_busy].
      by apply touch_world, same_other. }
    assert (view s' port = view s1 port) as Hview.
    { rewrite !view_at_client. change (guest_display_at port s') with (guest_display_at port s1).
      change (client_at port s') with (client_at port s1).
      change (world s') with v. destruct (guest_display_at port s1) as [g|]; [|done].
      by rewrite (Hv g). }
    apply HQ; [done| |done]. apply (wf_touched port s); [done|lia|done|done|].
    intros i Hi. rewrite Hview, Hcl. simpl. rewrite clear_port_bit.
    - by destruct (i =? port).
    - lia.
    - done.
    - intros H8. rewrite (wf_busy s W) by lia. by rewrite (wf_past s W) by lia. }
  assert (Q (with_busy (Z.land (display_port_busy_mask s) (not64 (port_bit port))) s1)) as Hnone.
  { specialize (Hend (world s1) ltac:(done)). by destruct s1. }
  xwp_go. destruct (efi_display s1) as [x|]; [|xwp_go; by rewrite Hb].
  case_if; xwp_go; [|by rewrite Hb].
  apply xwp_or_die; [done|]. eapply xwp_part_; [apply law_efi_set| |done..].
  intros v Hv. xwp_go. simpl. rewrite Hb. by apply Hend.
Qed.

Lemma detach_spec d port s : well_formed s -> 0 <= port ->
  xwp (detach_display d port)
    (fun _ s' => well_formed s' /\ touches port s s' /\
       detach_death d port s = None /\ view s' port = detached (view s port))
    (fun _ _ => False)
    (fun e => foreign e \/ exists k, detach_death d port s = Some k /\ e = OfPorts k) s.
Proof.
  intros W Hp. pose proof (wf_count s W) as Hc. unfold MAX_DISPLAY_PORT_COUNT in Hc.
  unfold detach_display, detach_death. xwp_go. rewrite xwp_require.
  case_if; [|case_if; [eauto|lia]]. destruct (Z.leb_spec (port_count s) port); [lia|].
  xwp_go. rewrite xwp_require, port_bit_free, negb_involutive, (wf_busy s W) by lia.
  destruct (view s port) as [|d'|g|g d'] eqn:Ev; simpl; [by eauto| |by eauto|];
    rewrite view_at_client in Ev; xwp_go.
  - destruct (guest_display_at port s) as [g|] eqn:Eg; [by destruct (gd_client g (world s))|].
    destruct (client_at port s) as [c|] eqn:Ecl; [|done]. simplify_eq. xwp_go.
    rewrite xwp_require, Ecl. simpl. destruct (Z.eqb_spec d' d) as [->|Hne]; [|by right; eauto].
    xwp_go. rewrite xwp_require.
    destruct (display_core d s) as [core|]; simpl;
      [destruct (core_guest_display core (world s)); [by right; eauto|]|].
    all: unfold set_client_at; rewrite xwp_modify; set (s1 := with_clients _ s).
    all: assert (client_at port s1 = None) as Hd1 by (apply client_at_set; [lia|apply (wf_parks s W)]).
    all: assert (view s1 port = Free) as Hv1 by
      (rewrite view_at_client; change (guest_display_at port s1) with (guest_display_at port s);
       by rewrite Eg, Hd1).
    all: eapply xwp_mono; [| |intros ? ?; left; eassumption|
      apply (detach_rest port s s1 (fun s' => well_formed s' /\ touches port s s'
        /\ view s' port = Free)); [done|lia|by apply touch_client|done| |by rewrite Hv1|]];
      [intros [] s' (?&?&?); by split_and!|done|intros s' T' W' E'; by rewrite E'|].
    all: intros g; change (guest_display_at port s1) with (guest_display_at port s); by rewrite Eg.
  - destruct (guest_display_at port s) as [g'|] eqn:Eg; [|by destruct (client_at port s)].
    destruct (gd_client g' (world s)) as [d''|] eqn:Ecl; [|done]. simplify_eq.
    xwp_go. rewrite xwp_require. simpl. rewrite Ecl. simpl.
    destruct (Z.eqb_spec d' d) as [->|Hne]; [|by right; eauto].
    destruct (wf_ok s W port Hp g Eg) as [Hport Hnone].
    apply xwp_or_die; [by left|]. apply xwp_set_client; [|done|by left].
    intros v [Hv Ho]. rewrite Hport in Ho. set (s1 := with_world v s).
    assert (view s1 port = Shown g) as Hv1.
    { rewrite view_at_client. change (guest_display_at port s1) with (guest_display_at port s).
      rewrite Eg. change (world s1) with v. by rewrite Hv. }
    eapply xwp_mono; [| |intros ? ?; left; eassumption|
      apply (detach_rest port s s1 (fun s' => well_formed s' /\ touches port s s'
        /\ view s' port = Shown g)); [done|lia|by apply touch_world|done| |by rewrite Hv1|]];
      [intros [] s' (?&?&?); by split_and!|done|intros s' T' W' E'; by rewrite E'|].
    apply (wf_ok s W port Hp).
Qed.

(** *** The state page *)

Lemma wf_world port v s : well_formed s -> 0 <= port < port_count s ->
  other_clients port (world s) v -> guest_display_at port s = None ->
  well_formed (with_world v s) /\ touches port s (with_world v s) /\
  view (with_world v s) port = view s port.
Proof.
  intros W Hp Ho Hn. pose proof (touch_world port v s Ho) as T.
  assert (view (with_world v s) port = view s port) as Hv.
  { rewrite !view_at_client. change (guest_display_at port (with_world v s))
      with (guest_display_at port s). by rewrite Hn. }
  split; [|done]. apply (wf_touched port s); [done|lia|done| |].
  - apply (wf_ok s W). lia.
  - intros i Hi. rewrite Hv. simpl. rewrite (wf_busy s W) by done.
    by destruct (Z.eqb_spec i port) as [->|].
Qed.

(** A guest display put in a free slot, its client the one that was parked. *)
Lemma slot_filled port g v s s' : well_formed s -> 0 <= port < port_count s ->
  guest_display_at port s = None -> gd_port g = port ->
  touches port s s' -> display_port_busy_mask s' = display_port_busy_mask s ->
  world s' = v -> gd_client g v = client_at port s ->
  guest_display_at port s' = Some g -> client_at port s' = None ->
  well_formed s' /\ touches port s s' /\ paged g (view s port) = Some (view s' port).
Proof.
  intros W Hp Hn Hg T Hb Hw Hc Hg' Hc'.
  assert (paged g (view s port) = Some (view s' port)) as Hv.
  { rewrite !view_at_client, Hn, Hg', Hw, Hc. by destruct (client_at port s). }
  split; [|done]. apply (wf_touched port s); [done|lia|done| |].
  - intros g' E. rewrite Hg' in E. by simplify_eq.
  - intros i Hi. rewrite Hb, (wf_busy s W) by done.
    destruct (Z.eqb_spec i port) as [->|]; [|done].
    destruct (view s port) eqn:E; simpl in Hv; simplify_eq; rewrite <- Hv; done.
Qed.

Lemma xwp_write_root root off v Q X' K s :
  (forall m, GuestPtr.write_u32 (R:=R * V) (OfPorts RootWordNull) false (memory_of (world s))
     root off v (OfPorts RootWordNull) = Ret m -> Q tt (with_world (store_memory m (world s)) s)) ->
  K (OfPorts RootWordNull) ->
  xwp (write_root root off v : M unit) Q X' K s.
Proof.
  intros HQ HK. unfold write_root, part_, part, xwp. cbv beta.
  destruct (GuestPtr.write_u32 (OfPorts RootWordNull) false (memory_of (world s)) root off v
    (OfPorts RootWordNull)) as [m|e|d] eqn:E; simpl; [by apply HQ| |].
  - unfold GuestPtr.write_u32, GuestPtr.write_n, GuestPtr.check in E. simpl in E.
    by destruct (_ || _).
  - unfold GuestPtr.write_u32, GuestPtr.write_n, GuestPtr.check in E. simpl in E.
    destruct (_ || _); simpl in E; [by injection E as <-|done].
Qed.

(** The deaths a page change ends in: a part's, or a store in a root node that cannot be
    written. *)
Definition page_dies (root_node : option Z) (e : ddeath) : Prop :=
  foreign e \/ root_node <> None /\ e = OfPorts RootWordNull.

(** The handover of the parked client to the new guest display, and the slot. *)
Lemma handover_spec port g v s (K : ddeath -> Prop) : well_formed s -> 0 <= port < port_count s ->
  guest_display_at port s = None -> gd_port g = port ->
  client_set g None (world s) v -> (forall e, foreign e -> K e) ->
  xwp (_ ← hand_parked port g; set_guest_display_at port (Some g) : M unit)
    (fun _ s' => well_formed s' /\ touches port s s' /\ paged g (view s port) = Some (view s' port))
    (fun e s' => well_formed s' /\ touches port s s' /\ view s' port = view s port /\
       exists r, e = OfPart r)
    K (with_world v s).
Proof.
  intros W Hp Hn Hg [Hc Ho] HK. rewrite Hg in Ho.
  pose proof (wf_count s W) as Hcount. unfold MAX_DISPLAY_PORT_COUNT in Hcount.
  assert (forall v' r, other_clients port (world s) v' ->
    well_formed (with_world v' s) /\ touches port s (with_world v' s) /\
    view (with_world v' s) port = view s port /\ exists r', (OfPart r : Raise R) = OfPart r') as HX.
  { intros v' r Hv'. destruct (wf_world port v' s) as (?&?&?); [done..|]. eauto. }
  unfold set_guest_display_at, hand_parked, set_client_at. xwp_go.
  change (client_at port (with_world v s)) with (client_at port s).
  destruct (client_at port s) as [client|] eqn:Ecl; xwp_go.
  - assert (forall v2, same_clients v v2 ->
      xwp (own ← asks (display_core client);
           _ ← part_ (gd_set_client Memory.Return g (Some client) own);
           modify (fun s => with_clients (<[Z.to_nat port:=None]> (display_client s)) s) : M unit)
        (fun _ s0 => let s' := with_guest_displays
             (<[Z.to_nat port:=Some g]> (guest_display s0)) s0 in
           well_formed s' /\ touches port s s' /\ paged g (view s port) = Some (view s' port))
        (fun e s' => well_formed s' /\ touches port s s' /\ view s' port = view s port /\
           exists r, e = OfPart r) K (with_world v2 s)) as Hset.
    { intros v2 Hv2. xwp_go. apply xwp_set_client; [| |done].
      - intros v3 [Hc3 Ho3]. xwp_go. rewrite Hg in Ho3.
        set (s' := with_guest_displays _ _).
        assert (touches port s (with_world v3 s)) as T1.
        { apply touch_world. eapply other_trans; [exact Ho|]. eapply other_trans; [|exact Ho3].
          by apply same_other. }
        apply (slot_filled port g v3); try done.
        + eapply touch_trans; [exact T1|].
          eapply touch_trans; [apply (touch_client port None (with_world v3 s)); lia|].
          apply touch_guest_display. lia.
        + by rewrite Hc3, Ecl.
        + apply guest_display_at_set; [lia|]. apply (wf_slots s W).
        + apply (client_at_set port None (with_world v3 s)); [lia|]. apply (wf_parks s W).
      - intros _ e v3 [Hc3 Ho3]. rewrite Hg in Ho3. apply HX.
        eapply other_trans; [exact Ho|]. eapply other_trans; [|exact Ho3].
        by apply same_other. }
    eapply xwp_core_set; [by apply (Hset v)| | |done].
    + intros v2 Hv2. by apply (Hset v2).
    + intros _ e v2 Hv2. apply HX. eapply other_trans; [exact Ho|]. by apply same_other.
  - set (s' := with_guest_displays _ _). apply (slot_filled port g v); try done.
    + eapply touch_trans; [by apply (touch_world port v)|]. apply touch_guest_display. lia.
    + by rewrite Hc, Ecl.
    + apply (guest_display_at_set port _ (with_world v s)); [lia|]. apply (wf_slots s W).
Qed.

(** When a page raises: the port is out of range, it has a guest display, there is no
    root node, or the guest display's making or handover raises. *)
Definition page_raise (root_node : option Z) (port : Z) (restoring : bool) s (e : Raise R)
    : Prop :=
  match e with
  | Own PortOutOfRange => port_count s <= port
  | Own PortInUse => shown (view s port) = true
  | Own NoRootNode => root_node = None /\ restoring = false
  | Own PortNotInUse => False
  | OfPart _ => shown (view s port) = false
  end.

Lemma page_spec root_node running page port restoring s :
  well_formed s -> 0 <= port -> page <> 0 ->
  xwp (set_shared_display_state_page root_node running page port restoring)
    (fun _ s' => well_formed s' /\ touches port s s' /\
       exists g, gd_port g = port /\ paged g (view s port) = Some (view s' port))
    (fun e s' => well_formed s' /\ touches port s s' /\ view s' port = view s port /\
       page_raise root_node port restoring s e)
    (page_dies root_node) s.
Proof.
  intros W Hp Hpage. unfold set_shared_display_state_page. xwp_go.
  case_if; xwp_go; [eauto using touch_refl|].
  unfold set_shared_display_state_page_locked. rewrite (proj2 (Z.eqb_neq page 0) Hpage).
  change (negb false) with true. cbv iota. unfold new_page. xwp_go.
  destruct (guest_display_at port s) as [g0|] eqn:E0; xwp_go.
  { split; [done|]. split; [apply touch_refl|]. split; [done|].
    unfold page_raise. rewrite view_at_client, E0. by destruct (gd_client g0 (world s)). }
  assert (shown (view s port) = false) as Hsh.
  { rewrite view_at_client, E0. by destruct (client_at port s). }
  assert (forall (e : Raise R) v, other_clients port (world s) v ->
    well_formed (with_world v s) /\ touches port s (with_world v s) /\
    view (with_world v s) port = view s port /\ (page_raise root_node port restoring s e <->
      match e with
      | Own NoRootNode => root_node = None /\ restoring = false
      | OfPart _ => True
      | _ => False
      end)) as HX.
  { intros e v Hv. destruct (wf_world port v s) as (?&?&?); [done|lia|done..|].
    split_and!; try done. destruct e as [[]|]; unfold page_raise; try done.
    - split; [lia|done].
    - split; [congruence|done]. }
  rewrite xwp_part. pose proof (law_new port page (world s)) as Hnew.
  destruct (new_guest_display port page (world s)) as [[g v]|[e v]|d].
  - destruct Hnew as [Hg Hc].
    assert (forall v', same_clients v v' -> xwp
      (_ ← hand_parked port g; set_guest_display_at port (Some g) : M unit)
      (fun _ s' => well_formed s' /\ touches port s s' /\
         exists g, gd_port g = port /\ paged g (view s port) = Some (view s' port))
      (fun e s' => well_formed s' /\ touches port s s' /\ view s' port = view s port /\
       page_raise root_node port restoring s e) (page_dies root_node) (with_world v' s)) as Hhand.
    { intros v' Hv'. eapply xwp_mono; [| |intros d Hd; exact Hd|apply (handover_spec port g v' s);
        [done|lia|done|done| |by left]].
      - intros [] s' (?&?&?). eauto.
      - intros e s' (?&?&?&r&->). eauto.
      - destruct Hc as [Hc Ho]. split; [by rewrite (Hv' g)|].
        eapply other_trans; [exact Ho|]. by apply same_other. }
    assert (forall v', same_clients v v' -> other_clients port (world s) v') as Hoth.
    { intros v' Hv'. destruct Hc as [_ Ho]. rewrite Hg in Ho.
      eapply other_trans; [exact Ho|]. by apply same_other. }
    destruct restoring; xwp_go.
    + eapply xwp_part_; [apply law_will_restore| |done|by left].
      intros v' Hv'. apply Hhand in Hv'. revert Hv'. by xwp_go.
    + destruct root_node as [root_node|]; xwp_go.
      * apply xwp_write_root; [|by right]. intros m _.
        pose proof (Hhand _ (law_store m v)) as H0. revert H0. by xwp_go.
      * destruct (HX (Own NoRootNode) v) as (?&?&?&Hx); [by apply Hoth|]. split_and!; done.
  - destruct (HX (OfPart e) v) as (?&?&?&Hx); [by apply same_other|]. split_and!; try done.
  - by left.
Qed.

(** What page 0 leaves: the port's client parked, no guest display, the root word
    cleared while running. *)
Definition zeroed (root_node : option Z) (running : bool) (port : Z) s s' : Prop :=
  well_formed s' /\ touches port s s' /\ shown (view s port) = true /\
  view s' port = unpaged (view s port) /\
  forall root, root_node = Some root -> running = true ->
    GuestPtr.read_u32 (R:=R) (memory_of (world s')) root (display_word_offset port)
      (OfPorts RootWordNull) = Ret 0.

(** The state with the client parked and the slot empty. *)
Definition parked_state (port : Z) (client : option Z) (v : V) s : State V G X :=
  with_guest_displays (<[Z.to_nat port := None]> (guest_display s))
    (with_clients (<[Z.to_nat port := client]> (display_client s)) (with_world v s)).

Lemma parked_state_ok port g v s : well_formed s -> 0 <= port < port_count s ->
  guest_display_at port s = Some g -> other_clients port (world s) v ->
  let s' := parked_state port (gd_client g (world s)) v s in
  well_formed s' /\ touches port s s' /\ view s' port = unpaged (view s port).
Proof.
  intros W Hp Eg Hv s'. pose proof (wf_count s W) as Hc. unfold MAX_DISPLAY_PORT_COUNT in Hc.
  assert (touches port s s') as T.
  { eapply touch_trans; [by apply (touch_world port v)|].
    eapply touch_trans; [apply (touch_client port (gd_client g (world s)) (with_world v s)); lia|].
    apply (touch_guest_display port None (with_clients
      (<[Z.to_nat port := gd_client g (world s)]> (display_client s)) (with_world v s))). lia. }
  assert (guest_display_at port s' = None) as Hg0.
  { apply (guest_display_at_set port None (with_clients
      (<[Z.to_nat port := gd_client g (world s)]> (display_client s)) (with_world v s))); [lia|].
    apply (wf_slots s W). }
  assert (view s' port = unpaged (view s port)) as Hv'.
  { rewrite (view_at_client s'), Hg0.
    assert (client_at port s' = gd_client g (world s)) as ->.
    { apply (client_at_set port _ (with_world v s)); [lia|]. apply (wf_parks s W). }
    rewrite view_at_client, Eg. by destruct (gd_client g (world s)). }
  split; [|done]. apply (wf_touched port s); [done|lia|done|by intros g'; rewrite Hg0|].
  intros i Hi. simpl. rewrite (wf_busy s W), Hv' by done.
  destruct (Z.eqb_spec i port) as [->|]; [|done]. by destruct (view s port).
Qed.

Lemma parked_state_again port client v s : 
  with_guest_displays (<[Z.to_nat port := None]> (guest_display (parked_state port client v s)))
    (parked_state port client v s) = parked_state port client v s.
Proof. unfold parked_state, with_guest_displays. simpl. by rewrite list_insert_insert_eq. Qed.

(** A word stored in guest memory reads back. *)
Lemma read_written m m' root off v : u32 v ->
  GuestPtr.write_u32 (R:=R * V) (OfPorts RootWordNull) false m root off v (OfPorts RootWordNull)
    = Ret m' ->
  GuestPtr.read_u32 (R:=R) m' root off (OfPorts RootWordNull) = Ret v.
Proof. apply GuestPtr.read_u32_written. Qed.

(** The root word cleared. *)
Lemma clear_root_spec root_node running port Q X' s :
  (forall v, same_clients (world s) v ->
    (forall root, root_node = Some root -> running = true ->
      GuestPtr.read_u32 (R:=R) (memory_of v) root (display_word_offset port)
        (OfPorts RootWordNull) = Ret 0) ->
    Q tt (with_world v s)) ->
  xwp (clear_root root_node running port : M unit) Q X' (page_dies root_node) s.
Proof.
  intros HQ. unfold clear_root. assert (root_node = None \/ running = false -> Q tt s) as Hno.
  { intros Hroot. specialize (HQ (world s) ltac:(done)). destruct s. apply HQ.
    intros root -> ->. by destruct Hroot. }
  destruct root_node as [root|]; xwp_go; [|by apply Hno; left].
  destruct running; xwp_go; [|by apply Hno; right].
  apply xwp_write_root; [|by right]. intros m Hm. apply HQ; [apply law_store|].
  intros root' [= <-] _. rewrite law_memory. by apply (read_written _ _ _ _ 0) in Hm.
Qed.

(** The rest of page 0 once the guest display and its client's core let each other go. *)
Lemma parks_client root_node running port g v s X' : well_formed s -> 0 <= port < port_count s ->
  guest_display_at port s = Some g -> other_clients port (world s) v ->
  xwp (parked ← asks (client_at port);
       _ ← require_that (match parked with None => true | Some _ => false end)
             ParkedBesideGuestDisplay;
       _ ← set_client_at port (gd_client g (world s));
       _ ← set_guest_display_at port None;
       _ ← or_die (part_ (gd_release g));
       _ ← clear_root root_node running port;
       mret None : M (option G))
    (fun a => xwp (set_guest_display_at port a)
      (fun _ => zeroed root_node running port s) X' (page_dies root_node))
    X' (page_dies root_node) (with_world v s).
Proof.
  intros W Hp Eg Hv. destruct (wf_ok s W port ltac:(lia) g Eg) as [Hg Hn].
  xwp_go. rewrite xwp_require. change (client_at port (with_world v s)) with (client_at port s).
  rewrite Hn. unfold set_client_at. xwp_go. rewrite xwp_set_guest_display. xwp_go.
  apply xwp_or_die; [by left|]. eapply xwp_part_; [apply law_release| |done|by left].
  intros v2 Hv2. rewrite Hg in Hv2. xwp_go. apply clear_root_spec. intros v3 Hv3 Hroot.
  xwp_go. rewrite xwp_set_guest_display.
  change (with_world v3 _) with (parked_state port (gd_client g (world s)) v3 s).
  rewrite parked_state_again. destruct (parked_state_ok port g v3 s) as (?&?&?); [done..| |].
  { eapply other_trans; [exact Hv|]. eapply other_trans; [exact Hv2|]. by apply same_other. }
  split_and!; try done. rewrite view_at_client, Eg. by destruct (gd_client g (world s)).
Qed.

(** Page 0: a port with no guest display raises; nothing else does. *)
Lemma page_zero_spec root_node running port restoring s :
  well_formed s -> 0 <= port ->
  xwp (set_shared_display_state_page root_node running 0 port restoring)
    (fun _ => zeroed root_node running port s)
    (fun e s' => s' = s /\ (port_count s <= port /\ e = Own PortOutOfRange \/
       port < port_count s /\ shown (view s port) = false /\ e = Own PortNotInUse))
    (page_dies root_node) s.
Proof.
  intros W Hp. unfold set_shared_display_state_page. xwp_go. case_if; xwp_go; [eauto|].
  unfold set_shared_display_state_page_locked. change (negb (0 =? 0)) with false. cbv iota.
  unfold no_page. xwp_go.
  destruct (guest_display_at port s) as [g|] eqn:Eg; xwp_go.
  2: { split; [done|]. right. rewrite view_at_client, Eg. by destruct (client_at port s). }
  destruct (wf_ok s W port Hp g Eg) as [Hg Hn].
  apply xwp_set_client; [|done|by left]. intros v [Hc1 Ho]. rewrite Hg in Ho. xwp_go.
  apply xwp_core_set; [| |done|by left].
  - by apply parks_client.
  - intros v2 Hv2. change (with_world v2 (with_world v s)) with (with_world v2 s).
    apply parks_client; [done|done|done|].
    eapply other_trans; [exact Ho|]. by apply same_other.
Qed.

(** *** The teardown and the EFI display *)

Lemma unpaged_unshown (p : Port G) : shown p = false -> unpaged p = p.
Proof. by destruct p. Qed.
Lemma unpaged_idemp (p : Port G) : unpaged (unpaged p) = unpaged p.
Proof. by destruct p. Qed.

Lemma shown_at s port : has_guest_display port s = shown (view s port).
Proof.
  unfold has_guest_display. rewrite view_at_client.
  destruct (guest_display_at port s) as [g|].
  - by destruct (gd_client g (world s)).
  - by destruct (client_at port s).
Qed.

Lemma teardown_ports_spec root_node running n : forall port s, well_formed s -> 0 <= port ->
  port + Z.of_nat n <= port_count s ->
  xwp (teardown_ports root_node running n port)
    (fun _ s' => well_formed s' /\ port_count s' = port_count s /\ forall q, 0 <= q ->
       view s' q = if (port <=? q) && (q <? port + Z.of_nat n) then unpaged (view s q)
                   else view s q)
    (fun _ _ => False) (page_dies root_node) s.
Proof.
  induction n as [|n IH]; intros port s W Hp Hn; cbn [teardown_ports]; xwp_go.
  { split_and!; [done..|]. intros q Hq. destruct (_ && _) eqn:E; [|done]. to_props. lia. }
  rewrite shown_at.
  assert (forall s1, well_formed s1 -> touches port s s1 -> view s1 port = unpaged (view s port) ->
    xwp (teardown_ports root_node running n (port + 1))
      (fun _ s' => well_formed s' /\ port_count s' = port_count s /\ forall q, 0 <= q ->
         view s' q = if (port <=? q) && (q <? port + Z.of_nat (S n)) then unpaged (view s q)
                     else view s q)
      (fun _ _ => False) (page_dies root_node) s1) as Hnext.
  { intros s1 W1 T1 Hv1. eapply xwp_mono; [| | |apply IH]; [|done|done|done|lia|rewrite (t_count _ _ _ T1); lia].
    - intros [] s' (W'&Hcount&Hview). rewrite (t_count _ _ _ T1) in Hcount.
      split_and!; [done..|]. intros q Hq. rewrite Hview by done.
      destruct (decide (q = port)) as [->|Hne].
      + rewrite Hv1. rewrite (proj2 (Z.leb_gt (port + 1) port)), Z.leb_refl by lia. simpl.
        by rewrite (proj2 (Z.ltb_lt port (port + Z.of_nat (S n)))) by lia.
      + rewrite (view_touched port s s1) by (done || apply (wf_ok s W); lia).
        replace (port + 1 <=? q) with (port <=? q); [|apply Bool.eq_iff_eq_true; lia].
        by replace (port + 1 + Z.of_nat n) with (port + Z.of_nat (S n)) by lia. }
  destruct (shown (view s port)) eqn:Esh; xwp_go.
  - apply xwp_landed. eapply xwp_mono; [| | |by apply page_zero_spec]; [| |done].
    + intros [] s1 (W1&T1&_&Hv1&_). by apply Hnext.
    + intros e s1 (->&[[? _]|(_&Hsh&_)]); [lia|congruence].
  - apply Hnext; [done|apply touch_refl|by rewrite unpaged_unshown].
Qed.

Lemma teardown_spec root_node running s : well_formed s ->
  xwp (teardown_displays root_node running)
    (fun _ s' => well_formed s' /\ forall port, 0 <= port ->
       view s' port = unpaged (view s port))
    (fun _ _ => False) (page_dies root_node) s.
Proof.
  intros W. pose proof (wf_count s W). unfold teardown_displays. xwp_go.
  eapply xwp_mono; [| | |apply teardown_ports_spec; [done|lia|lia]]; [|done|done].
  intros [] s' (W'&_&Hv). split; [done|]. intros port Hp. rewrite Hv by done.
  destruct (_ && _) eqn:E; [done|]. rewrite (wf_past s W); [done|].
  apply andb_false_iff in E as [E|E]; to_props; lia.
Qed.

(** A store outside the ports' slots and the parts' clients. *)
Lemma same_ports s s' : well_formed s -> port_count s' = port_count s ->
  display_port_busy_mask s' = display_port_busy_mask s -> guest_display s' = guest_display s ->
  display_client s' = display_client s -> same_clients (world s) (world s') ->
  well_formed s' /\ forall port, view s' port = view s port.
Proof.
  intros W Hc Hb Hg Hk Hw.
  assert (forall port, view s' port = view s port) as Hv.
  { intros port. unfold view, guest_display_at, client_at. rewrite Hg, Hk.
    destruct (mjoin _) as [g|]; [|done]. by rewrite (Hw g). }
  split; [|done]. destruct W as [W1 W2 W3 W4 W5 W6]. split; [congruence..| | |].
  - intros port Hp. by rewrite Hb, Hv, W4.
  - intros port Hp. rewrite Hv. apply W5. lia.
  - intros port Hp. unfold port_ok, guest_display_at, client_at. rewrite Hg, Hk. by apply W6.
Qed.

(** What an EFI write leaves of the ports, and of the EFI display and its registers: the
    first that is not zero makes the EFI display and binds it to port 0's parked client. *)
Definition efi_written (v : Z) s s' : Prop :=
  (well_formed s' /\ forall port, view s' port = view s port) /\
  if v =? 0 then efi s' = efi_zero /\ efi_display s' = None
  else efi s' = with_enabled v (efi s) /\
    match efi_display s with
    | Some x => efi_display s' = Some x /\ world s' = world s
    | None => exists x v1, efi_new (world s) = Ret (x, v1) /\ efi_display s' = Some x /\
        efi_set_display x (match view s 0 with Parked d => Some d | _ => None end) v1
          = Ret (world s')
    end.

Lemma set_efi_display_spec v s : well_formed s ->
  xwp (set_efi_display v) (fun _ => efi_written v s) (fun _ _ => False)
    (fun e => foreign e \/ e = OfPorts EfiBindDeallocating /\ efi_display s = None /\ v <> 0 /\
       exists c v1 x, client_of (view s 0) = Some c /\
         efi_new (world s) = Ret (x, v1) /\ display_alive c v1 = false) s.
Proof.
  intros W. unfold set_efi_display, efi_written. case_if; xwp_go.
  - rewrite (proj2 (Z.eqb_neq v 0) Hif). destruct (efi_display s) as [x|] eqn:Ex; xwp_go; [by split; [apply same_ports|]|].
    apply xwp_or_die; [by left|]. rewrite xwp_part. pose proof (law_efi_new (world s)) as Hnew.
    destruct (efi_new (world s)) as [[x v1]|[e v1]|d]; [|done|by left]. xwp_go.
    set (s1 := with_efi_display _ _). change (client_at 0 s1) with (client_at 0 s).
    assert (client_at 0 s = match view s 0 with Parked d => Some d | _ => None end) as Hc0.
    { rewrite view_at_client. destruct (guest_display_at 0 s) as [g|] eqn:Eg.
      - destruct (wf_ok s W 0 ltac:(done) g Eg) as [_ ->]. by destruct (gd_client g (world s)).
      - by destruct (client_at 0 s). }
    assert (forall c, c = client_at 0 s ->
      xwp (_ ← or_die (part_ (efi_set_display x c));
           modify (fun s => with_efi (with_enabled v (efi s)) s) : M unit)
        (fun _ s' => (well_formed s' /\ forall port, view s' port = view s port) /\
          efi s' = with_enabled v (efi s) /\
          exists x' v1', Ret (x, v1) = Ret (x', v1') :> outcome (R * V) ddeath (X * V) /\
            efi_display s' = Some x' /\
            efi_set_display x' (match view s 0 with Parked d => Some d | _ => None end) v1'
              = Ret (world s'))
        (fun _ _ => False)
        (fun e => foreign e \/ e = OfPorts EfiBindDeallocating /\ None = None :> option X /\ v <> 0 /\
           exists c v1' x', client_of (view s 0) = Some c /\
             Ret (x, v1) = Ret (x', v1') :> outcome (R * V) ddeath (X * V) /\
             display_alive c v1' = false) s1) as Hbind.
    { intros c ->. xwp_go. apply xwp_or_die; [by left|]. rewrite xwp_part_eq. simpl (world s1).
      pose proof (law_efi_set x (client_at 0 s) v1) as Hl.
      destruct (efi_set_display x (client_at 0 s) v1) as [v2|[e v2]|d] eqn:E; [|done|by left].
      xwp_go. split; [|split; [done|]].
      - apply same_ports; try done. by eapply same_trans.
      - exists x, v1. split_and!; [done..|]. by rewrite <- Hc0, E. }
    destruct (client_at 0 s) as [c|] eqn:Ecl; [destruct (display_alive c (world s1)) eqn:Eal|];
      xwp_go.
    + specialize (Hbind _ eq_refl). revert Hbind. by xwp_go.
    + right. split_and!; [done|done|lia|]. exists c, v1, x. split_and!; [|done|done].
      by destruct (view s 0); simplify_eq.
    + specialize (Hbind _ eq_refl). revert Hbind. by xwp_go.
  - subst v. simpl. destruct (efi_display s) as [x|] eqn:Ex; xwp_go.
    + apply xwp_or_die; [by left|]. eapply xwp_part_; [apply law_efi_teardown| |done|by left].
      intros v1 Hv1. xwp_go. split; [by apply same_ports|done].
    + split; [by apply same_ports|done].
Qed.
End Operations.

(** ** The operations as steps *)

(** An operation's name and answer: an attach that claims or refuses, a detach, a page or
    page 0 that is set or raises, the teardown, and what leaves the ports alone. *)
Inductive Op : Type :=
| Attach (display port : Z) (claims : bool)
| Detach (display port : Z)
| Page (port : Z) (raises : bool)
| PageZero (port : Z) (raises : bool)
| Teardown
| SetEfi
| Registry.

(** What the specification lets an operation make of a port. *)
Definition allowed {V G X R} `{Parts V G X R} (op : Op) (port : Z) (v v' : Port G) : Prop :=
  match op with
  | Attach d p true => if port =? p then attached d v = Some v' else v' = v
  | Detach d p => if port =? p then client_of v = Some d /\ v' = detached v else v' = v
  | Page p false =>
      if port =? p then exists g, gd_port g = p /\ paged g v = Some v' else v' = v
  | PageZero p false => if port =? p then shown v = true /\ v' = unpaged v else v' = v
  | Teardown => v' = unpaged v
  | Attach _ _ false | Page _ true | PageZero _ true | SetEfi | Registry => v' = v
  end.

Section Steps.
Context {V G X R : Type} `{P : Parts V G X R}.
Implicit Types (s : State V G X).

Inductive step : Op -> State V G X -> State V G X -> Prop :=
| step_attach d port b s s' : 0 <= port -> attach_display d port s = Ret (b, s') ->
    step (Attach d port b) s s'
| step_detach d port s s' : 0 <= port -> detach_display d port s = Ret (tt, s') ->
    step (Detach d port) s s'
| step_page root_node running page port restoring s s' : 0 <= port -> page <> 0 ->
    set_shared_display_state_page root_node running page port restoring s = Ret (tt, s') ->
    step (Page port false) s s'
| step_page_raised root_node running page port restoring e s s' : 0 <= port -> page <> 0 ->
    set_shared_display_state_page root_node running page port restoring s = Raised (e, s') ->
    step (Page port true) s s'
| step_zero root_node running port restoring s s' : 0 <= port ->
    set_shared_display_state_page root_node running 0 port restoring s = Ret (tt, s') ->
    step (PageZero port false) s s'
| step_zero_raised root_node running port restoring e s s' : 0 <= port ->
    set_shared_display_state_page root_node running 0 port restoring s = Raised (e, s') ->
    step (PageZero port true) s s'
| step_teardown root_node running s s' :
    teardown_displays root_node running s = Ret (tt, s') -> step Teardown s s'
| step_efi v s s' : set_efi_display v s = Ret (tt, s') -> step SetEfi s s'
| step_register d core s s' : (register_display d core : Run _ (Raise R) ddeath unit) s = Ret (tt, s') -> step Registry s s'
| step_deregister core s s' : (deregister_display core : Run _ (Raise R) ddeath unit) s = Ret (tt, s') -> step Registry s s'.

(** Any number of operations. *)
Definition reaches s s' : Prop := rtc (fun s s' => exists op, step op s s') s s'.
End Steps.

Section StepProofs.
Context {V G X R : Type} `{P : Parts V G X R} `{L : !PartsLaws V G X R}.
Implicit Types (s : State V G X).

Lemma elsewhere port s s' q : well_formed s -> touches port s s' -> 0 <= q ->
  (q =? port) = false -> view s' q = view s q.
Proof.
  intros W T Hq Hne%Z.eqb_neq. eapply view_touched; eauto. by apply (wf_ok s W).
Qed.
(** An operation on one port: [F] of that port, every other as it was. *)
Lemma on_port port s s' (F : Port G -> Port G -> Prop) : well_formed s -> touches port s s' ->
  F (view s port) (view s' port) -> forall q, 0 <= q ->
  if q =? port then F (view s q) (view s' q) else view s' q = view s q.
Proof.
  intros W T HF q Hq. destruct (q =? port) eqn:E; [|by eapply elsewhere].
  by apply Z.eqb_eq in E as ->.
Qed.
Lemma unchanged port s s' : well_formed s -> touches port s s' -> view s' port = view s port ->
  forall q, 0 <= q -> view s' q = view s q.
Proof.
  intros W T Hv q Hq. destruct (q =? port) eqn:E; [|by eapply elsewhere].
  by apply Z.eqb_eq in E as ->.
Qed.

Lemma detach_death_None d port s : detach_death d port s = None ->
  client_of (view s port) = Some d.
Proof.
  unfold detach_death. case_if; [done|]. destruct (view s port) as [|d'|g|g d']; try done; simpl.
  all: by destruct (Z.eqb_spec d' d) as [->|].
Qed.

Lemma ports_step_refines op s s' : well_formed s -> step op s s' ->
  well_formed s' /\ forall port, 0 <= port -> allowed op port (view s port) (view s' port).
Proof.
  intros W Hst. destruct Hst as [d p b s s' Hp Hr|d p s s' Hp Hr|r run pg p res s s' Hp Hpg Hr
    |r run pg p res e s s' Hp Hpg Hr|r run p res s s' Hp Hr|r run p res e s s' Hp Hr
    |r run s s' Hr|v s s' Hr|d core s s' Hr|core s s' Hr].
  - pose proof (attach_spec d p s W Hp) as H. unfold xwp in H. rewrite Hr in H.
    destruct H as (W'&T&H). split; [done|]. destruct b; simpl.
    + by apply (on_port p s s' (fun v v' => attached d v = Some v')).
    + by destruct H as [-> _].
  - pose proof (detach_spec d p s W Hp) as H. unfold xwp in H. rewrite Hr in H.
    destruct H as (W'&T&Hd&Hv). split; [done|].
    apply (on_port p s s' (fun v v' => client_of v = Some d /\ v' = detached v)); [done..|].
    split; [by apply detach_death_None in Hd|done].
  - pose proof (page_spec r run pg p res s W Hp Hpg) as H. unfold xwp in H. rewrite Hr in H.
    destruct H as (W'&T&Hv). split; [done|].
    by apply (on_port p s s' (fun v v' => exists g, gd_port g = p /\ paged g v = Some v')).
  - pose proof (page_spec r run pg p res s W Hp Hpg) as H. unfold xwp in H. rewrite Hr in H.
    destruct H as (W'&T&Hv&_). split; [done|]. by eapply unchanged.
  - pose proof (page_zero_spec r run p res s W Hp) as H. unfold xwp in H. rewrite Hr in H.
    destruct H as (W'&T&Hs&Hv&_). split; [done|].
    by apply (on_port p s s' (fun v v' => shown v = true /\ v' = unpaged v)).
  - pose proof (page_zero_spec r run p res s W Hp) as H. unfold xwp in H. rewrite Hr in H.
    by destruct H as [-> _].
  - pose proof (teardown_spec r run s W) as H. unfold xwp in H. by rewrite Hr in H.
  - pose proof (set_efi_display_spec v s W) as H. unfold xwp in H. rewrite Hr in H.
    destruct H as [[W' Hv] _]. split; [done|]. intros port _. apply Hv.
  - injection Hr as <-. destruct (same_ports s (with_cores (display_cores s ++ [MkEntry d core]) s))
      as [W' Hv]; [done..|]. split; [done|]. intros port _. apply Hv.
  - injection Hr as <-. destruct (same_ports s (with_cores
      (filter (fun e => entry_core e ≠ core) (display_cores s)) s)) as [W' Hv]; [done..|].
    split; [done|]. intros port _. apply Hv.
Qed.

Lemma new_free count v port : view (new count v : State V G X) port = Free.
Proof.
  unfold view, guest_display_at, client_at, new. simpl guest_display. simpl display_client.
  assert (forall A (n : nat), mjoin (replicate 8 (@None A) !! n) = None) as Hrep.
  { intros A n. do 8 (destruct n as [|n]; [done|]). done. }
  by rewrite !Hrep.
Qed.
Lemma new_well_formed count v : 0 < count <= MAX_DISPLAY_PORT_COUNT ->
  well_formed (new count v : State V G X).
Proof.
  intros Hc. split; try done.
  - intros port Hp. rewrite new_free. apply Z.bits_0.
  - intros port _. apply new_free.
  - intros port _ g Hg. pose proof (new_free count v port) as H. rewrite view_at_client in H.
    rewrite Hg in H. by destruct (gd_client g _).
Qed.

Lemma reaches_well_formed s s' : well_formed s -> reaches s s' -> well_formed s'.
Proof.
  intros W Hr. induction Hr as [s|s1 s2 s3 [op Hop] _ IH]; [done|].
  apply IH. by apply ports_step_refines in Hop as [].
Qed.

(** C4: every operation on the display ports does to each port exactly what the port's
    specification says: an attach parks the display on a free port or makes it the client
    of the port's guest display, a page takes the parked client over, page 0 and the
    teardown park it again, and a refused or raising operation changes no port. *)
Theorem display_ports_refine op s s' : well_formed s -> step op s s' ->
  well_formed s' /\ forall port, 0 <= port -> allowed op port (view s port) (view s' port).
Proof. apply ports_step_refines. Qed.

(** From a new device on, the busy mask has exactly the bits of the ports a display
    claims, no slot past the port count is used, no client is parked beside a guest
    display; and neither of the two asserts that say so is ever reached. *)
Theorem display_ports_safe count v s : 0 < count <= MAX_DISPLAY_PORT_COUNT ->
  reaches (new count v) s ->
  well_formed s /\
  forall display port root_node running page restoring, 0 <= port ->
    attach_display display port s <> Died (OfPorts ParkedOnFreePort) /\
    set_shared_display_state_page root_node running page port restoring s
      <> Died (OfPorts ParkedBesideGuestDisplay).
Proof.
  intros Hc Hr. assert (well_formed s) as W.
  { eapply reaches_well_formed; [|done]. by apply new_well_formed. }
  split; [done|]. intros d port r run pg res Hp. split; intros Hd.
  - pose proof (attach_spec d port s W Hp) as H. unfold xwp in H. rewrite Hd in H. by eapply H.
  - destruct (decide (pg = 0)) as [->|Hpg].
    + pose proof (page_zero_spec r run port res s W Hp) as H. unfold xwp in H. rewrite Hd in H.
      destruct H as [H|[_ H]]; [by eapply H|done].
    + pose proof (page_spec r run pg port res s W Hp Hpg) as H. unfold xwp in H. rewrite Hd in H.
      destruct H as [H|[_ H]]; [by eapply H|done].
Qed.

(** A page set on a port and then page 0 leave every port as it was, its client
    included, and the port's word in the root node zero; page 0 raises nothing then. *)
Theorem page_then_zero root_node running page port restoring s s1 :
  well_formed s -> 0 <= port -> page <> 0 ->
  set_shared_display_state_page root_node running page port restoring s = Ret (tt, s1) ->
  match set_shared_display_state_page root_node running 0 port false s1 with
  | Ret (_, s2) => (forall q, 0 <= q -> view s2 q = view s q) /\
      (forall root, root_node = Some root -> running = true ->
        GuestPtr.read_u32 (R:=R) (memory_of (world s2)) root (display_word_offset port)
          (OfPorts RootWordNull) = Ret 0)
  | Raised _ => False
  | Died d => page_dies root_node d
  end.
Proof.
  intros W Hp Hpg Hr. pose proof (page_spec root_node running page port restoring s W Hp Hpg) as H.
  unfold xwp in H. rewrite Hr in H. destruct H as (W1&T1&g&Hg&Hv1).
  pose proof (page_zero_spec root_node running port false s1 W1 Hp) as H. unfold xwp in H.
  destruct (set_shared_display_state_page root_node running 0 port false s1) as [[[] s2]|[e s2]|d];
    [|destruct H as (->&[[H _]|(_&Hs&_)])|done].
  - destruct H as (W2&T2&Hs&Hv2&Hroot). split; [|done]. eapply unchanged; [done| |].
    + by eapply touch_trans.
    + rewrite Hv2. by destruct (view s port); simplify_eq/=; rewrite <- Hv1.
  - assert (view s1 port = Free) as Hf by (by apply (wf_past s1 W1)).
    rewrite Hf in Hv1. by destruct (view s port).
  - by destruct (view s port); simplify_eq/=; rewrite <- Hv1 in Hs.
Qed.

(** The teardown leaves no port with a guest display, parks every client a guest
    display had and keeps the parked ones; it raises nothing. *)
Theorem teardown_parks_clients root_node running s : well_formed s ->
  match teardown_displays root_node running s with
  | Ret (_, s') => well_formed s' /\ forall port, 0 <= port ->
      guest_display_at port s' = None /\ client_at port s' = client_of (view s port)
  | Raised _ => False
  | Died d => page_dies root_node d
  end.
Proof.
  intros W. pose proof (teardown_spec root_node running s W) as H. unfold xwp in H.
  destruct (teardown_displays root_node running s) as [[[] s']|[]|d]; [|done..].
  destruct H as [W' Hv]. split; [done|]. intros port Hp. specialize (Hv port Hp).
  rewrite (view_at_client s') in Hv. destruct (guest_display_at port s') as [g|].
  - by destruct (gd_client g (world s')), (view s port).
  - split; [done|]. by destruct (client_at port s'), (view s port); simplify_eq/=.
Qed.

(** A first EFI enable makes the EFI display and binds it to port 0's parked client,
    a later one only stores the value, and zero drops the EFI display and zeroes every
    register; no port changes. The one death of the ports' is a client whose last release
    has begun. *)
Theorem set_efi_display_binds v s : well_formed s ->
  match set_efi_display v s with
  | Ret (_, s') => efi_written v s s'
  | Raised _ => False
  | Died d => foreign d \/ d = OfPorts EfiBindDeallocating /\ efi_display s = None /\ v <> 0 /\
      exists c v1 x, client_of (view s 0) = Some c /\
        efi_new (world s) = Ret (x, v1) /\ display_alive c v1 = false
  end.
Proof.
  intros W. pose proof (set_efi_display_spec v s W) as H. unfold xwp in H.
  destruct (set_efi_display v s) as [[[] s']|[]|d]; done.
Qed.
End StepProofs.

(** ** A world the laws hold in *)

(** The guest's memory, the client of each port's guest display and the guest display of
    each core, one guest display a port. *)
Record Toy := MkToy {
  toy_memory : GuestPtr.memory;
  toy_clients : Z -> option Z;
  toy_shows : Z -> option Z;
}.
Definition upd {A} (f : Z -> A) (k : Z) (a : A) : Z -> A := fun x => if x =? k then a else f x.
#[local] Instance toy_parts : Parts Toy Z unit unit := {
  memory_of := toy_memory;
  store_memory m v := MkToy m (toy_clients v) (toy_shows v);
  new_guest_display port page v :=
    if page =? 0xff then Raised (tt, v)
    else Ret (port, MkToy (toy_memory v) (upd (toy_clients v) port None) (toy_shows v));
  gd_port g := g;
  gd_client g v := toy_clients v g;
  gd_set_client _ g c _ v :=
    Ret (MkToy (toy_memory v) (upd (toy_clients v) g c) (toy_shows v));
  gd_will_restore _ v := Ret v;
  gd_release _ v := Ret v;
  core_alive _ _ := true;
  core_guest_display core v := toy_shows v core;
  core_set_guest_display _ core g v :=
    Ret (MkToy (toy_memory v) (toy_clients v) (upd (toy_shows v) core g));
  display_alive _ _ := true;
  efi_new v := Ret (tt, v);
  efi_set_display _ _ v := Ret v;
  efi_teardown _ v := Ret v;
}.
#[local] Instance toy_laws : PartsLaws Toy Z unit unit.
Proof.
  assert (forall v g c, client_set g c v
    (MkToy (toy_memory v) (upd (toy_clients v) g c) (toy_shows v))) as Hset.
  { intros v g c. split; simpl; unfold upd; [by rewrite Z.eqb_refl|].
    intros g' Hg'. simpl in *. by rewrite (proj2 (Z.eqb_neq g' g)). }
  split; try done; simpl.
  - intros port page v. by destruct (page =? 0xff).
  - intros. apply Hset.
Qed.

Definition toy_memory0 : GuestPtr.memory := fun _ => x00.
Definition toy0 : State Toy Z unit := new 2 (MkToy toy_memory0 (fun _ => None) (fun _ => None)).
Definition toy_root : option Z := Some 0x100000000.
(** Display 7, whose core is 70, parked on port 1; the same after a page on the port. *)
Definition the {A} (d : A) (o : outcome (Raise unit * State Toy Z unit) ddeath A) : A :=
  match o with Ret a => a | _ => d end.
Definition toy1 : State Toy Z unit :=
  snd (the (false, toy0) ((_ ← register_display 7 70; attach_display 7 1) toy0)).
Definition toy2 : State Toy Z unit :=
  snd (the (tt, toy1) (set_shared_display_state_page toy_root true 5 1 false toy1)).

Lemma toy1_reached : reaches toy0 toy1.
Proof.
  eapply rtc_l; [exists Registry; by apply (step_register 7 70)|].
  apply rtc_once. exists (Attach 7 1 true). by apply step_attach.
Qed.
Lemma toy1_well_formed : well_formed toy1.
Proof. eapply reaches_well_formed; [|apply toy1_reached]. by apply new_well_formed. Qed.
Lemma toy2_step : set_shared_display_state_page toy_root true 5 1 false toy1 = Ret (tt, toy2).
Proof. reflexivity. Qed.

Lemma display_ports_refine_witness :
  well_formed toy2 /\ forall port, 0 <= port ->
    allowed (Page 1 false) port (view toy1 port) (view toy2 port).
Proof.
  apply (display_ports_refine (Page 1 false) toy1 toy2 toy1_well_formed).
  by apply (step_page toy_root true 5 1 false).
Defined.
Lemma display_ports_safe_witness :
  well_formed toy1 /\
  forall display port root_node running page restoring, 0 <= port ->
    attach_display display port toy1 <> Died (OfPorts ParkedOnFreePort) /\
    set_shared_display_state_page root_node running page port restoring toy1
      <> Died (OfPorts ParkedBesideGuestDisplay).
Proof. apply (display_ports_safe 2 _ toy1 ltac:(done) toy1_reached). Defined.
Lemma page_then_zero_witness :
  match set_shared_display_state_page toy_root true 0 1 false toy2 with
  | Ret (_, s2) => (forall q, 0 <= q -> view s2 q = view toy1 q) /\
      (forall root, toy_root = Some root -> true = true ->
        GuestPtr.read_u32 (R:=unit) (memory_of (world s2)) root (display_word_offset 1)
          (OfPorts RootWordNull) = Ret 0)
  | Raised _ => False
  | Died d => page_dies toy_root d
  end.
Proof. by apply (page_then_zero toy_root true 5 1 false toy1 toy2 toy1_well_formed). Defined.
Lemma teardown_parks_clients_witness :
  match teardown_displays toy_root true toy1 with
  | Ret (_, s') => well_formed s' /\ forall port, 0 <= port ->
      guest_display_at port s' = None /\ client_at port s' = client_of (view toy1 port)
  | Raised _ => False
  | Died d => page_dies toy_root d
  end.
Proof. apply (teardown_parks_clients toy_root true toy1 toy1_well_formed). Defined.
Lemma set_efi_display_binds_witness :
  match set_efi_display 3 toy1 with
  | Ret (_, s') => efi_written 3 toy1 s'
  | Raised _ => False
  | Died d => foreign d \/ d = OfPorts EfiBindDeallocating /\ efi_display toy1 = None /\ 3 <> 0 /\
      exists c v1 x, client_of (view toy1 0) = Some c /\
        efi_new (world toy1) = Ret (x, v1) /\ display_alive c v1 = false
  end.
Proof. apply (set_efi_display_binds 3 toy1 toy1_well_formed). Defined.
Example toy_pages :
  map (view toy1) [0; 1; 2] = [Free; Parked 7; Free] /\
  map (view toy2) [0; 1; 2] = [Free; Claimed 1 7; Free] /\
  display_port_busy_mask toy2 = 2.
Proof. by vm_compute. Qed.
End Displays.
