(* ===== verification/DisplayCores.v ===== *)
(** * DisplayCores: the guest displays and the displays' cores behind the display ports
    (src/crates/reims-vgpu-core/src/display.rs, display/guest_display.rs)

    What a display's core does with its guest display and its modes, over a world that
    holds the guest's memory, the guest displays, the cores and the EFI displays; that
    world is a [Displays.Parts], and keeps the laws the ports count on. A guest display
    is its port and a number no other has. Mapping the page is the device's, a
    parameter. The wait for the frames in flight is not modelled: it ends by itself. *)

From S2P Require Import Prelude Num MemoryKinds DisplayKinds DeviceKinds GuestRecords GuestPtr.
From S2P Require Import DisplayPage GuestDisplay Displays Efi.
From stdpp Require Import relations.
Open Scope Z_scope.

Module DisplayCores.
Import DisplayKinds DeviceKinds.

(** A guest display's reference. *)
Definition Ref : Type := Z * Z.

(** ** The state *)

(** A display's core: what a guest display reads of it, the modes set last, its guest
    display, whether it holds a frame, and its mode-list responsiveness. *)
Record DisplayCore := MkDisplayCore {
  described : GuestDisplay.Core;
  mode_list : option (list GuestDisplay.DisplayMode);
  guest_display : option Ref;
  has_current_frame : bool;
  mode_list_responsiveness : Z;
}.
Definition with_modes (l : option (list GuestDisplay.DisplayMode)) (c : DisplayCore) : DisplayCore :=
  MkDisplayCore (described c) l (guest_display c) (has_current_frame c)
    (mode_list_responsiveness c).
Definition with_guest_display (g : option Ref) (c : DisplayCore) : DisplayCore :=
  MkDisplayCore (described c) (mode_list c) g false (mode_list_responsiveness c).
Definition with_responsiveness (v : Z) (c : DisplayCore) : DisplayCore :=
  MkDisplayCore (described c) (mode_list c) (guest_display c) (has_current_frame c) v.

Record World := MkWorld {
  memory : GuestPtr.memory;
  state_of : Ref -> GuestDisplay.State;
  alive : Ref -> bool;
  next : Z;
  core_of : Z -> DisplayCore;
  core_alive : Z -> bool;
  display_alive : Z -> bool;
  efi_of : Z -> Efi.State;
}.

Definition upd {K A} `{EqDecision K} (f : K -> A) (k : K) (a : A) : K -> A :=
  fun x => if decide (x = k) then a else f x.

Definition with_memory (m : GuestPtr.memory) (w : World) : World :=
  MkWorld m (state_of w) (alive w) (next w) (core_of w) (core_alive w) (display_alive w) (efi_of w).
(** A guest display's state with the memory it leaves. *)
Definition with_state (g : Ref) (s : GuestDisplay.State) (w : World) : World :=
  MkWorld (GuestDisplay.memory s) (upd (state_of w) g s) (alive w) (next w) (core_of w)
    (core_alive w) (display_alive w) (efi_of w).
Definition with_made (g : Ref) (w : World) : World :=
  MkWorld (memory w) (state_of w) (upd (alive w) g true) (next w + 1) (core_of w) (core_alive w)
    (display_alive w) (efi_of w).
Definition with_released (g : Ref) (w : World) : World :=
  MkWorld (memory w) (state_of w) (upd (alive w) g false) (next w) (core_of w) (core_alive w)
    (display_alive w) (efi_of w).
Definition with_core (k : Z) (c : DisplayCore) (w : World) : World :=
  MkWorld (memory w) (state_of w) (alive w) (next w) (upd (core_of w) k c) (core_alive w)
    (display_alive w) (efi_of w).
Definition with_efi (x : Z) (e : Efi.State) (w : World) : World :=
  MkWorld (memory w) (state_of w) (alive w) (next w) (core_of w) (core_alive w) (display_alive w)
    (upd (efi_of w) x e).
Definition with_next (w : World) : World :=
  MkWorld (memory w) (state_of w) (alive w) (next w + 1) (core_of w) (core_alive w)
    (display_alive w) (efi_of w).

(** ** The operations *)

Section Cores.
Context {R : Type} `{K : GuestDisplay.Kernel R} `{E : Efi.Host} {target : GuestRecords.Target}.
(** The address the device maps a page at for a guest display, 0 where it cannot. *)
Context (map_page : Z -> World -> outcome R ddeath Z).
Local Abbreviation result A := (outcome (GuestDisplay.Raise R * World) ddeath A).

(** An operation of a guest display's. *)
Definition on_guest_display {A} (g : Ref)
    (m : Run GuestDisplay.State (GuestDisplay.Raise R) ddeath A) (w : World) : result (A * World) :=
  match m (GuestDisplay.with_memory (memory w) (state_of w g)) with
  | Ret (a, s) => Ret (a, with_state g s w)
  | Raised (e, s) => Raised (e, with_state g s w)
  | Died d => Died d
  end.
Definition on_guest_display_ (g : Ref)
    (m : Run GuestDisplay.State (GuestDisplay.Raise R) ddeath unit) (w : World) : result World :=
  r ← on_guest_display g m w; Ret r.2.

Definition new_guest_display (port page : Z) (w : World) : result (Ref * World) :=
  match map_page page w with
  | Raised e => Raised (GuestDisplay.OfPart e, w)
  | Died d => Died d
  | Ret va =>
      match GuestDisplay.new (memory w) port va with
      | Ret s => let g := (port, next w) in Ret (g, with_made g (with_state g s w))
      | Raised e => Raised (e, w)
      | Died d => Died d
      end
  end.

(** The client's core is the one the device finds. *)
Definition set_client (on : Memory.OnFault) (g : Ref) (client core : option Z) (w : World)
    : result World :=
  on_guest_display_ g
    (GuestDisplay.set_client on client ((fun k => described (core_of w k)) <$> core)) w.

Definition will_restore (g : Ref) (w : World) : result World :=
  on_guest_display_ g GuestDisplay.begin_restore w.

(** *** A display's core *)

(** 0 with no guest display, 1 with one, 2 with one that live-resizes. *)
Definition responsiveness (g : option Ref) (w : World) : Z :=
  match g with
  | None => 0
  | Some g =>
      if alive w g && GuestDisplay.compositor_supports_live_resize (state_of w g) then 2 else 1
  end.
Definition signal_responsiveness_with (k : Z) (g : option Ref) (w : World) : World :=
  with_core k (with_responsiveness (responsiveness g w) (core_of w k)) w.
Definition signal_responsiveness (k : Z) (w : World) : World :=
  signal_responsiveness_with k (guest_display (core_of w k)) w.
Definition update_responsiveness (k : Z) (w : World) : World := signal_responsiveness k w.

(** A guest display that lives is handed the modes. *)
Definition hand_modes (on : Memory.OnFault) (g : option Ref)
    (modes : option (list GuestDisplay.DisplayMode)) (w : World) : result World :=
  match g, modes with
  | Some g, Some modes =>
      if alive w g then on_guest_display_ g (GuestDisplay.set_mode_list on modes) w else Ret w
  | _, _ => Ret w
  end.

Definition set_guest_display (on : Memory.OnFault) (k : Z) (g : option Ref) (w : World)
    : result World :=
  let c := core_of w k in
  if Bool.eqb (GuestDisplay.is_some g) (GuestDisplay.is_some (guest_display c))
  then Died (OfDisplay GuestDisplaySwapUnbalanced)
  else
    w ← hand_modes on g (mode_list c) (with_core k (with_guest_display g c) w);
    Ret (signal_responsiveness_with k g w).

Definition set_mode_list (k : Z) (modes : list GuestDisplay.DisplayMode) (w : World)
    : result World :=
  match modes with
  | [] => Ret w
  | _ =>
      let c := core_of w k in
      hand_modes Memory.Die (guest_display c) (Some modes) (with_core k (with_modes (Some modes) c) w)
  end.
Definition modes (k : Z) (w : World) : list GuestDisplay.DisplayMode :=
  default [] (mode_list (core_of w k)).

(** *** The EFI displays *)

Definition efi_new (w : World) : result (Z * World) :=
  Ret (next w, with_next (with_efi (next w) Efi.new w)).
Definition on_efi (x : Z) (m : Run Efi.State Empty_set ddeath unit) (w : World) : result World :=
  match m (efi_of w x) with
  | Ret (_, e) => Ret (with_efi x e w)
  | Raised (e, _) => match e with end
  | Died d => Died d
  end.

(** ** The parts of the display ports *)

Definition display_parts : Displays.Parts World Ref Z (GuestDisplay.Raise R) := {|
  Displays.memory_of := memory;
  Displays.store_memory := with_memory;
  Displays.new_guest_display := new_guest_display;
  Displays.gd_port g := g.1;
  Displays.gd_client g w := GuestDisplay.client (state_of w g);
  Displays.gd_set_client := set_client;
  Displays.gd_will_restore := will_restore;
  Displays.gd_release g w := Ret (with_released g w);
  Displays.core_alive k w := core_alive w k;
  Displays.core_guest_display k w := guest_display (core_of w k);
  Displays.core_set_guest_display := set_guest_display;
  Displays.display_alive d w := display_alive w d;
  Displays.efi_new := efi_new;
  Displays.efi_set_display x d := on_efi x (Efi.set_display d);
  Displays.efi_teardown x := on_efi x Efi.teardown;
|}.
End Cores.

(** ** What an operation of a guest display's leaves of its client *)

Section Keeps.
Context {R : Type}.
Local Abbreviation M := (Run GuestDisplay.State (GuestDisplay.Raise R) ddeath).

(** The client stays, no death is the ports', and a raise only where [b] allows it. *)
Definition keeps {A} (b : bool) (m : M A) : Prop := forall s,
  xwp m (fun _ s' => GuestDisplay.client s' = GuestDisplay.client s)
    (fun _ s' => b = true /\ GuestDisplay.client s' = GuestDisplay.client s) Displays.foreign s.

Lemma keeps_ret {A} b (a : A) : keeps b (mret a : M A).
Proof. done. Qed.
Lemma keeps_bind {A B} b (m : M A) (f : A -> M B) :
  keeps b m -> (forall a, keeps b (f a)) -> keeps b (a ← m; f a).
Proof.
  intros Hm Hf s. rewrite xwp_bind. eapply xwp_mono; [| | |apply Hm]; [|done|done].
  intros a s1 H1. eapply xwp_mono; [| | |apply Hf]; [..|done]; simpl.
  - intros a' s' H2. by rewrite H2.
  - intros e s' [Hb H2]. by rewrite H2.
Qed.
Lemma keeps_asks {A} b (f : GuestDisplay.State -> A) : keeps b (asks f : M A).
Proof. done. Qed.
Lemma keeps_modify b f : (forall s, GuestDisplay.client (f s) = GuestDisplay.client s) ->
  keeps b (modify f : M unit).
Proof. intros H s. apply H. Qed.
Lemma keeps_die {A} b d : Displays.foreign d -> keeps b (die d : M A).
Proof. by intros H s. Qed.
Lemma keeps_fatal {A} b k : keeps b (GuestDisplay.fatal k : M A).
Proof. by apply keeps_die. Qed.
Lemma keeps_require b (c : bool) k : keeps b (GuestDisplay.require_that c k : M unit).
Proof. destruct c; [apply keeps_ret|apply keeps_fatal]. Qed.
Lemma keeps_weaken {A} (m : M A) b : keeps false m -> keeps b m.
Proof.
  intros H s. eapply xwp_mono; [| | |apply H]; [done| |done]. by intros e s' [? ?].
Qed.
Lemma read_or_null n m a off :
  match GuestPtr.read_n (R := Empty_set) n m a off (OfGuestDisplay NullPage) with
  | Ret _ => True | Raised _ => False | Died d => Displays.foreign d end.
Proof. unfold GuestPtr.read_n, GuestPtr.check. by destruct (_ || _). Qed.
Lemma keeps_read b n off : keeps b (GuestDisplay.read_page n off : M Z).
Proof.
  intros s. unfold xwp, GuestDisplay.read_page.
  pose proof (read_or_null n (GuestDisplay.memory s) (GuestDisplay.page s) off) as H.
  by destruct (GuestPtr.read_n _ _ _ _ _) as [v|[]|d].
Qed.
Lemma keeps_write b n off v : keeps b (GuestDisplay.write_page n off v : M unit).
Proof.
  intros s. unfold xwp, GuestDisplay.write_page, GuestPtr.write_n, GuestPtr.stop_if_task_ended,
    GuestPtr.check. rewrite bind_ret_l. by destruct (_ || _).
Qed.
Lemma keeps_r8 b off : keeps b (GuestDisplay.r8 off : M Z).
Proof. apply keeps_read. Qed.
Lemma keeps_w8 b off v : keeps b (GuestDisplay.w8 off v : M unit).
Proof. apply keeps_write. Qed.
Lemma keeps_r16 b off : keeps b (GuestDisplay.r16 off : M Z).
Proof. apply keeps_read. Qed.
Lemma keeps_w16 b off v : keeps b (GuestDisplay.w16 off v : M unit).
Proof. apply keeps_write. Qed.
Lemma keeps_r32 b off : keeps b (GuestDisplay.r32 off : M Z).
Proof. apply keeps_read. Qed.
Lemma keeps_w32 b off v : keeps b (GuestDisplay.w32 off v : M unit).
Proof. apply keeps_write. Qed.
Lemma keeps_r64 b off : keeps b (GuestDisplay.r64 off : M Z).
Proof. apply keeps_read. Qed.
Lemma keeps_w64 b off v : keeps b (GuestDisplay.w64 off v : M unit).
Proof. apply keeps_write. Qed.
Lemma keeps_load b off : keeps b (GuestDisplay.load off : M Z).
Proof.
  intros s. unfold xwp, GuestDisplay.load, GuestPtr.load_seqcst_u32, GuestPtr.atomic_address,
    GuestPtr.check. destruct (_ || _); [done|]. rewrite bind_ret_l.
  destruct (GuestPtr.aligned _ _); [done|]. by destruct (negb _).
Qed.
Lemma keeps_fetch_or b off v : keeps b (GuestDisplay.fetch_or off v : M unit).
Proof.
  intros s. unfold xwp, GuestDisplay.fetch_or, GuestPtr.fetch_or_u32, GuestPtr.atomic_address,
    GuestPtr.stop_if_task_ended, GuestPtr.check. rewrite bind_ret_l.
  destruct (_ || _); [done|]. rewrite bind_ret_l.
  destruct (GuestPtr.aligned _ _); [done|]. by destruct (negb _).
Qed.
Lemma keeps_part {A} c (m : list GuestDisplay.Call -> outcome R ddeath A) :
  (forall cs, match m cs with Died d => Displays.foreign d | _ => True end) ->
  keeps true (GuestDisplay.part c m : M A).
Proof.
  intros H s. unfold xwp, GuestDisplay.part. specialize (H (GuestDisplay.calls s)).
  by destruct (m _).
Qed.
End Keeps.
#[export] Hint Resolve keeps_ret keeps_asks keeps_fatal keeps_require keeps_r8 keeps_w8 keeps_r16 keeps_w16 keeps_r32 keeps_w32 keeps_r64 keeps_w64
  keeps_load keeps_fetch_or : keeps.

(** Walks through an operation. *)
Ltac keeps_step :=
  match goal with
  | |- keeps _ (mbind _ _) => apply keeps_bind; [|intros ?]
  | |- keeps _ (if ?c then _ else _) => destruct c
  | |- keeps _ (match ?o with _ => _ end) => destruct o
  | |- keeps _ (modify _) => by apply keeps_modify
  | |- keeps _ (die _) => by apply keeps_die
  | |- keeps _ _ => solve [eauto with keeps]
  end.
Ltac keeps_go := cbn zeta; repeat (cbn beta iota; keeps_step).

Section Machine.
Context {R : Type} `{K : GuestDisplay.Kernel R} {target : GuestRecords.Target}.
Local Abbreviation M := (Run GuestDisplay.State (GuestDisplay.Raise R) ddeath).

(** The kernel task dies of its own deaths alone. *)
Class KernelLaws : Prop := {
  task_foreign on cs : match GuestDisplay.get_kernel_task on cs with
    | Died d => Displays.foreign d | _ => True end;
  data_foreign on a n cs : match GuestDisplay.data_from_virtual_offset on a n cs with
    | Died d => Displays.foreign d | _ => True end;
}.

Lemma keeps_checked b : keeps b (GuestDisplay.checked : M unit).
Proof. unfold GuestDisplay.checked. keeps_go. Qed.
Lemma keeps_running b : keeps b (GuestDisplay.assert_running : M unit).
Proof. unfold GuestDisplay.assert_running. keeps_go. Qed.
Lemma keeps_differs b n : forall off s, keeps b (GuestDisplay.strncmp_differs off s n : M bool).
Proof. induction n as [|n IH]; intros off s; simpl; keeps_go. Qed.
Lemma keeps_strncpy b n : forall off s e, keeps b (GuestDisplay.strncpy off s e n : M unit).
Proof. induction n as [|n IH]; intros off s e; simpl; keeps_go. Qed.
#[local] Hint Resolve keeps_checked keeps_running keeps_differs keeps_strncpy : keeps.
Lemma keeps_sync_field b f : keeps b (GuestDisplay.sync_field f : M bool).
Proof. destruct f; cbn [GuestDisplay.sync_field]; keeps_go. Qed.
#[local] Hint Resolve keeps_sync_field : keeps.
Lemma keeps_sync_fields b fs : forall c, keeps b (GuestDisplay.sync_fields fs c : M bool).
Proof. induction fs as [|f fs IH]; intros c; simpl; keeps_go. Qed.
#[local] Hint Resolve keeps_sync_fields : keeps.
Lemma keeps_settings b c : keeps b (GuestDisplay.sync_settings c : M bool).
Proof. unfold GuestDisplay.sync_settings, GuestDisplay.round_field. keeps_go. Qed.
Lemma keeps_modes b : keeps b (GuestDisplay.sync_mode_list : M bool).
Proof. unfold GuestDisplay.sync_mode_list. keeps_go. Qed.
Lemma keeps_options b o : keeps b (GuestDisplay.store_protection_options o : M unit).
Proof. unfold GuestDisplay.store_protection_options. keeps_go. Qed.
Lemma keeps_poke b : keeps b (GuestDisplay.poke : M unit).
Proof. unfold GuestDisplay.poke, GuestDisplay.tell. keeps_go. Qed.
#[local] Hint Resolve keeps_settings keeps_modes keeps_options keeps_poke : keeps.
Lemma keeps_color_space (KL : KernelLaws) on :
  keeps true (GuestDisplay.update_guest_color_space_locked on : M unit).
Proof.
  unfold GuestDisplay.update_guest_color_space_locked, GuestDisplay.kernel_task. keeps_go.
  - apply keeps_part, task_foreign.
  - apply keeps_part, data_foreign.
Qed.
#[local] Hint Resolve keeps_color_space : keeps.
Lemma keeps_disconnected (KL : KernelLaws) on c :
  keeps (GuestDisplay.is_some c) (GuestDisplay.disconnected on c : M (Z * Z)).
Proof.
  unfold GuestDisplay.disconnected, GuestDisplay.bump32. destruct c as [c|]; cbn [GuestDisplay.is_some]; keeps_go.
Qed.
Lemma keeps_connected b c n : keeps b (GuestDisplay.connected c n : M (Z * Z)).
Proof.
  unfold GuestDisplay.connected, GuestDisplay.updating, GuestDisplay.bump32. keeps_go.
Qed.
#[local] Hint Resolve keeps_disconnected keeps_connected : keeps.
Lemma keeps_loop (KL : KernelLaws) n on c :
  keeps (GuestDisplay.is_some c) (GuestDisplay.machine_loop n on c : M (option (Z * Z))).
Proof. induction n as [|n IH]; simpl; keeps_go. Qed.
#[local] Hint Resolve keeps_loop : keeps.
(** The state machine of no client raises nothing. *)
Lemma keeps_machine (KL : KernelLaws) on c :
  keeps (GuestDisplay.is_some c) (GuestDisplay.state_machine on c : M unit).
Proof. unfold GuestDisplay.state_machine. keeps_go. Qed.
Lemma keeps_set_mode_list (KL : KernelLaws) on l :
  keeps true (GuestDisplay.set_mode_list on l : M unit).
Proof.
  unfold GuestDisplay.set_mode_list. apply keeps_bind; [by apply keeps_modify|intros _].
  apply keeps_bind; [apply keeps_asks|intros [c|]].
  - exact (keeps_machine KL on (Some c)).
  - apply keeps_weaken. exact (keeps_machine KL on None).
Qed.
Lemma keeps_begin_restore b : keeps b (GuestDisplay.begin_restore : M unit).
Proof. unfold GuestDisplay.begin_restore. keeps_go. Qed.
End Machine.

(** ** The laws the ports count on *)

Section Laws.
Context {R : Type} `{K : GuestDisplay.Kernel R} `{E : Efi.Host} {target : GuestRecords.Target}.
Context (map_page : Z -> World -> outcome R ddeath Z).
Local Abbreviation M := (Run GuestDisplay.State (GuestDisplay.Raise R) ddeath).
#[local] Existing Instance display_parts.
#[local] Instance parts : Displays.Parts World Ref Z (GuestDisplay.Raise R) :=
  display_parts map_page.

(** The kernel task, the device's mapping of a page and its end of a task die of their own
    deaths alone, never of the ports'. *)
Class WorldLaws : Prop := {
  kernel_laws :: KernelLaws;
  map_foreign page w : match map_page page w with Died d => Displays.foreign d | _ => True end;
  end_foreign i cs : match Efi.destroy_task_of i cs with
    | Died d => Displays.foreign d | _ => True end;
}.
Context {WL : WorldLaws}.
Implicit Types (w : World).

Lemma upd_eq {A B} `{EqDecision A} (f : A -> B) k b : upd f k b k = b.
Proof. unfold upd. by destruct (decide (k = k)). Qed.
Lemma upd_ne {A B} `{EqDecision A} (f : A -> B) k b x : x <> k -> upd f k b x = f x.
Proof. intros Hne. unfold upd. by destruct (decide (x = k)). Qed.

Lemma client_with_state g s w c : GuestDisplay.client s = c ->
  Displays.client_set g c w (with_state g s w).
Proof.
  intros Hc. split; simpl; [by rewrite upd_eq|]. intros g' Hg'. simpl in *.
  rewrite upd_ne; [done|]. by intros ->.
Qed.
Lemma same_with_state g s w : GuestDisplay.client s = GuestDisplay.client (state_of w g) ->
  Displays.same_clients w (with_state g s w).
Proof.
  intros Hc g'. simpl. destruct (decide (g' = g)) as [->|Hne]; [by rewrite upd_eq|].
  by rewrite upd_ne.
Qed.

(** An operation of a guest display's that keeps its client. *)
Lemma kept b (m : M unit) g w : keeps b m ->
  Displays.answers (on_guest_display_ g m w) (Displays.same_clients w)
    (fun w' => b = true /\ Displays.same_clients w w').
Proof.
  intros Hm. unfold on_guest_display_, on_guest_display.
  specialize (Hm (GuestDisplay.with_memory (memory w) (state_of w g))). unfold xwp in Hm.
  destruct (m _) as [[[] s]|[e s]|d]; simpl; [by apply same_with_state| |done].
  destruct Hm as [Hb Hc]. split; [done|]. by apply same_with_state.
Qed.

Lemma set_client_keeps on c k s :
  xwp (GuestDisplay.set_client on c k : M unit) (fun _ s' => GuestDisplay.client s' = c)
    (fun _ s' => c <> None /\ GuestDisplay.client s' = c) Displays.foreign s.
Proof.
  unfold GuestDisplay.set_client. xwp_go. eapply xwp_mono; [| | |apply (keeps_require false)];
    [|by intros ? ? []|done].
  intros [] s1 _. xwp_go.
  set (k' := match c with Some _ => _ | None => _ end).
  eapply xwp_mono; [| | |apply (keeps_machine kernel_laws on k')]; [done| |done].
  intros e s' [Hk Hc]. split; [|done]. intros ->. done.
Qed.

Lemma set_client_law on g c core w :
  Displays.answers (set_client on g c core w) (Displays.client_set g c w)
    (fun w' => c <> None /\ Displays.client_set g c w w').
Proof.
  unfold set_client, on_guest_display_, on_guest_display.
  set (k := fmap _ core). pose proof (set_client_keeps on c k
    (GuestDisplay.with_memory (memory w) (state_of w g))) as H. unfold xwp in H.
  destruct (GuestDisplay.set_client on c k _) as [[[] s]|[e s]|d]; simpl;
    [by apply client_with_state| |done].
  destruct H as [Hc H]. split; [done|]. by apply client_with_state.
Qed.

Lemma keeps_init b : keeps b (GuestDisplay.init_page : M unit).
Proof.
  unfold GuestDisplay.init_page, GuestDisplay.color_matrix_access. keeps_go;
    apply keeps_checked || idtac.
Qed.
Lemma new_law port page w :
  match new_guest_display map_page port page w with
  | Ret (g, w') => g.1 = port /\ Displays.client_set g None w w'
  | Raised (_, w') => Displays.same_clients w w'
  | Died d => Displays.foreign d
  end.
Proof.
  unfold new_guest_display. pose proof (map_foreign page w) as Hm.
  destruct (map_page page w) as [va|e|d]; [|done..]. unfold GuestDisplay.new.
  destruct (va =? 0); [done|].
  pose proof (keeps_init false (GuestDisplay.MkState (memory w) va port true None 0 false false false
    false false None None None [])) as H. unfold xwp in H.
  destruct (GuestDisplay.init_page _) as [[[] s]|[e s]|d]; [|by destruct H|done].
  split; [done|]. exact (client_with_state (port, next w) s w None H).
Qed.

Lemma hand_modes_law on g l w :
  Displays.answers (hand_modes on g l w) (Displays.same_clients w)
    (fun w' => g <> None /\ Displays.same_clients w w').
Proof.
  unfold hand_modes. destruct g as [g|]; [|done]. destruct l as [l|]; [|done].
  destruct (alive w g); [|done].
  pose proof (kept true _ g w (keeps_set_mode_list kernel_laws on l)) as H.
  unfold Displays.answers in *. by destruct (on_guest_display_ _ _ _) as [w'|[e w']|d];
    [|destruct H|].
Qed.
Lemma core_law on k g w :
  Displays.answers (set_guest_display on k g w) (Displays.same_clients w)
    (fun w' => g <> None /\ Displays.same_clients w w').
Proof.
  unfold set_guest_display. destruct (Bool.eqb _ _); [done|].
  set (w1 := with_core k _ w).
  pose proof (hand_modes_law on g (mode_list (core_of w k)) w1) as H. unfold Displays.answers in *.
  by destruct (hand_modes on g (mode_list (core_of w k)) w1) as [w'|[e w']|d].
Qed.

(** An operation of the EFI display's that dies of no death of the ports'. *)
Definition lives {A} (m : Run Efi.State Empty_set ddeath A) : Prop :=
  forall s, xwp m (fun _ _ => True) (fun _ _ => True) Displays.foreign s.
Lemma lives_bind {A B} (m : Run Efi.State Empty_set ddeath A) (f : A -> Run Efi.State Empty_set ddeath B) :
  lives m -> (forall a, lives (f a)) -> lives (a ← m; f a).
Proof.
  intros Hm Hf s. rewrite xwp_bind. eapply xwp_mono; [| | |apply Hm]; [|done|done].
  intros a s1 _. apply Hf.
Qed.
Lemma lives_ask {A} c (m : list Efi.Call -> outcome Empty_set ddeath A) :
  (forall cs, match m cs with Died d => Displays.foreign d | _ => True end) -> lives (Efi.ask c m).
Proof.
  intros H s. unfold xwp, Efi.ask. specialize (H (Efi.calls s)).
  by destruct (m (Efi.calls s)) as [|[]|].
Qed.
Lemma teardown_law x w :
  Displays.answers (on_efi (R:=R) x Efi.teardown w) (Displays.same_clients w) (Displays.same_clients w).
Proof.
  assert (forall s, xwp Efi.teardown (fun _ _ => True) (fun _ _ => True) Displays.foreign s) as H.
  { change (lives Efi.teardown).
    unfold Efi.teardown, Efi.sync, Efi.stop_presenting, Efi.cancel_presents,
      Efi.assert_on_present_queue, Efi.destroy_task, Efi.tell.
    repeat match goal with
      | |- lives (mbind _ _) => apply lives_bind; [|intros ?]
      | |- lives (match ?o with _ => _ end) => destruct o
      | |- lives (Efi.ask _ _) => apply lives_ask, end_foreign
      | |- _ => done
      end. }
  unfold on_efi. specialize (H (efi_of w x)). unfold xwp in H.
  by destruct (Efi.teardown (efi_of w x)) as [[[] e]|[[] e]|d].
Qed.

Lemma world_laws : Displays.PartsLaws World Ref Z (GuestDisplay.Raise R).
Proof.
  split; try done.
  - intros port page w. apply new_law.
  - intros on g c core w. apply set_client_law.
  - intros g w. pose proof (kept false _ g w (keeps_begin_restore false)) as H. simpl.
    unfold Displays.answers, will_restore in *.
    by destruct (on_guest_display_ _ _ _) as [w'|[e w']|d]; [|destruct H|].
  - intros on k g w. apply core_law.
  - intros x w. apply teardown_law.
Qed.

(** *** What the page leaves of a client's core *)

(** The cores and their lives as they were. *)
Definition same_cores w w' : Prop := core_of w' = core_of w /\ core_alive w' = core_alive w.
Lemma same_cores_refl w : same_cores w w.
Proof. done. Qed.
Lemma same_cores_trans w1 w2 w3 : same_cores w1 w2 -> same_cores w2 w3 -> same_cores w1 w3.
Proof. intros [] []. split; congruence. Qed.

Definition cores_kept (o : outcome (GuestDisplay.Raise R * World) ddeath World) w : Prop :=
  match o with Ret w' => same_cores w w' | _ => True end.
Lemma on_guest_display_cores g (m : M unit) w : cores_kept (on_guest_display_ g m w) w.
Proof.
  unfold on_guest_display_, on_guest_display. by destruct (m _) as [[[] s]|[e s]|d].
Qed.

(** A core that takes a guest display shows it. *)
Lemma set_guest_display_shows on k g w :
  match set_guest_display on k g w with
  | Ret w' => core_alive w' = core_alive w /\ guest_display (core_of w' k) = g /\
      has_current_frame (core_of w' k) = false /\
      (g = None -> mode_list_responsiveness (core_of w' k) = 0) /\
      (g <> None -> mode_list_responsiveness (core_of w' k) = 1 \/
        mode_list_responsiveness (core_of w' k) = 2)
  | _ => True
  end.
Proof.
  unfold set_guest_display. destruct (Bool.eqb _ _); [done|].
  set (w1 := with_core k (with_guest_display g (core_of w k)) w).
  assert (cores_kept (hand_modes on g (mode_list (core_of w k)) w1) w1) as H.
  { unfold hand_modes. destruct g as [g|]; [|done]. destruct (mode_list _); [|done].
    destruct (alive w1 g); [|done]. apply on_guest_display_cores. }
  destruct (hand_modes on g (mode_list (core_of w k)) w1) as [w2|[e w2]|d]; simpl; [|done..].
  destruct H as [Hc Ha]. unfold signal_responsiveness_with. simpl. rewrite upd_eq, Hc, Ha. simpl.
  rewrite upd_eq. simpl. split_and!; [done..| |].
  - by intros ->.
  - intros Hg. destruct g as [g|]; [|done]. simpl. destruct (_ && _); tauto.
Qed.

Local Abbreviation State := (Displays.State World Ref Z).
Implicit Types (s : State).

(** The cores of a state, a client's core and what it shows. *)
Lemma display_core_same d s s' : Displays.display_cores s' = Displays.display_cores s ->
  core_alive (Displays.world s') = core_alive (Displays.world s) ->
  Displays.display_core d s' = Displays.display_core d s.
Proof. intros H1 H2. unfold Displays.display_core. rewrite H1. simpl. by rewrite H2. Qed.

(** A display and its core show each other's guest display. *)
Definition shows (k : Z) (g : option Ref) s : Prop :=
  let c := core_of (Displays.world s) k in
  guest_display c = g /\ has_current_frame c = false /\
  (g = None -> mode_list_responsiveness c = 0) /\
  (g <> None -> mode_list_responsiveness c = 1 \/ mode_list_responsiveness c = 2).

Lemma part_cores (m : World -> outcome (GuestDisplay.Raise R * World) ddeath World)
    (Q : unit -> State -> Prop) X' s :
  (forall w, cores_kept (m w) w) ->
  (forall w, same_cores (Displays.world s) w -> Q tt (Displays.with_world w s)) ->
  (forall e s', X' e s') ->
  xwp (Displays.part_ m : Run State (Displays.Raise (GuestDisplay.Raise R)) ddeath unit)
    Q X' (fun _ => True) s.
Proof.
  intros Hm HQ HX. rewrite Displays.xwp_part_eq. specialize (Hm (Displays.world s)).
  destruct (m (Displays.world s)) as [w|[e w]|d]; [by apply HQ|apply HX|done].
Qed.

(** A page that hands over the parked client of a core: the core shows the new guest
    display of the port. *)
Lemma hand_parked_shows port g d k s : Displays.client_at port s = Some d ->
  Displays.display_core d s = Some k ->
  xwp (Displays.hand_parked port g :
      Run State (Displays.Raise (GuestDisplay.Raise R)) ddeath unit)
    (fun _ => shows k (Some g)) (fun _ _ => True) (fun _ => True) s.
Proof.
  intros Hd Hk. unfold Displays.hand_parked, Displays.set_client_at. xwp_go. rewrite Hd. xwp_go.
  rewrite Hk. unfold Displays.core_set. rewrite Displays.xwp_part_eq. simpl.
  pose proof (set_guest_display_shows Memory.Return k (Some g) (Displays.world s)) as H.
  destruct (set_guest_display Memory.Return k (Some g) (Displays.world s)) as [w|[e w]|dd];
    [|done..].
  destruct H as (Ha&Hg&Hf&Hn&Hr). xwp_go. apply part_cores; [|intros w' [Hc' Ha']|done].
  - intros w'. apply on_guest_display_cores.
  - xwp_go. unfold shows. simpl in *. rewrite Hc'. by split_and!.
Qed.

Lemma new_page_shows root_node page port restoring d k s :
  Displays.client_at port s = Some d -> Displays.display_core d s = Some k ->
  xwp (Displays.new_page root_node page port restoring :
      Run State (Displays.Raise (GuestDisplay.Raise R)) ddeath (option Ref))
    (fun a s' => exists g, a = Some g /\ shows k (Some g) s')
    (fun _ _ => True) (fun _ => True) s.
Proof.
  intros Hd Hk. unfold Displays.new_page. xwp_go.
  destruct (Displays.guest_display_at port s); xwp_go; [done|].
  rewrite Displays.xwp_part. simpl Displays.new_guest_display.
  assert (match new_guest_display map_page port page (Displays.world s) with
    | Ret (_, w) => same_cores (Displays.world s) w | _ => True end) as Hn.
  { unfold new_guest_display. destruct (map_page _ _); [|done..].
    by destruct (GuestDisplay.new _ _ _). }
  destruct (new_guest_display map_page port page (Displays.world s)) as [[g w]|[e w]|dd]; [|done..].
  destruct Hn as [Hc Ha].
  assert (forall w', same_cores w w' -> xwp (_ ← Displays.hand_parked port g; mret (Some g) :
      Run State (Displays.Raise (GuestDisplay.Raise R)) ddeath (option Ref))
    (fun a s' => exists g, a = Some g /\ shows k (Some g) s')
    (fun _ _ => True) (fun _ => True) (Displays.with_world w' s)) as Hhand.
  { intros w' [Hc' Ha']. rewrite xwp_bind.
    eapply xwp_mono; [| | |apply (hand_parked_shows port g d k)]; [|done|done|done|].
    - intros [] s' Hs'. xwp_go. eauto.
    - rewrite <- Hk. apply display_core_same; [done|]. simpl. congruence. }
  destruct restoring; xwp_go.
  - apply part_cores; [|intros w' Hw'|done].
    + intros w'. apply on_guest_display_cores.
    + generalize (Hhand w' Hw'). by xwp_go.
  - destruct root_node as [root|]; xwp_go; [|done].
    unfold Displays.write_root. apply part_cores; [|intros w' Hw'|done].
    + intros w'. simpl. by destruct (GuestPtr.write_u32 _ _ _ _ _ _ _).
    + generalize (Hhand w' Hw'). by xwp_go.
Qed.

(** A page set on a port a display is parked on makes it the client of the port's new
    guest display, and the display's core shows that guest display, has dropped the frame it
    held and answers the host that its modes are heard. *)
Theorem page_links_display root_node running page port restoring d k s s' :
  Displays.well_formed s -> 0 <= port -> page <> 0 ->
  Displays.view s port = Displays.Parked d -> Displays.display_core d s = Some k ->
  Displays.set_shared_display_state_page root_node running page port restoring s = Ret (tt, s') ->
  exists g, Displays.gd_port g = port /\ Displays.view s' port = Displays.Claimed g d /\
    shows k (Some g) s'.
Proof.
  intros W Hp Hpg Hv Hk Hr. assert (Displays.PartsLaws World Ref Z (GuestDisplay.Raise R)) as PL
    by exact world_laws.
  pose proof (Displays.page_spec root_node running page port restoring s W Hp Hpg) as H.
  unfold xwp in H. rewrite Hr in H. destruct H as (W'&T&g&Hg&Hpaged).
  rewrite Hv in Hpaged. injection Hpaged as Hv'.
  assert (Displays.client_at port s = Some d) as Hd.
  { unfold Displays.view in Hv. destruct (Displays.guest_display_at port s) as [g0|].
    - by destruct (Displays.gd_client g0 _).
    - by destruct (Displays.client_at port s); simplify_eq. }
  exists g. split_and!; [done|done|].
  assert (exists g', Displays.guest_display_at port s' = Some g' /\ shows k (Some g') s')
    as (g'&Hg'&Hs).
  { revert Hr. unfold Displays.set_shared_display_state_page.
    destruct (Z.leb_spec (Displays.port_count s) port) as [Hle|Hlt].
    { rewrite run_step. simpl. rewrite (proj2 (Z.leb_le _ _) Hle). done. }
    rewrite run_step. simpl. rewrite (proj2 (Z.leb_gt _ _) Hlt).
    unfold Displays.set_shared_display_state_page_locked.
    rewrite (proj2 (Z.eqb_neq page 0) Hpg). simpl negb. cbv iota. rewrite run_step.
    pose proof (new_page_shows root_node page port restoring d k s Hd Hk) as H. unfold xwp in H.
    destruct (Displays.new_page root_node page port restoring s) as [[a s1]|[e s1]|dd]; [|done..].
    destruct H as (g1&->&Hs1). unfold Displays.set_guest_display_at, modify. intros [= <-].
    exists g1. split; [|exact Hs1]. apply Displays.guest_display_at_set.
    - pose proof (Displays.wf_count s W). unfold Displays.MAX_DISPLAY_PORT_COUNT in *. lia.
    - pose proof (Displays.wf_slots _ W') as Hl. simpl in Hl. by rewrite length_insert in Hl. }
  unfold Displays.view in Hv'. rewrite Hg' in Hv'.
  by destruct (Displays.gd_client g' (Displays.world s')); simplify_eq.
Qed.

(** Page 0 on a port whose guest display has a client: the client's core lets it go. *)
Lemma no_page_shows root_node running port g d k s :
  Displays.guest_display_at port s = Some g -> Displays.gd_client g (Displays.world s) = Some d ->
  Displays.display_core d s = Some k ->
  xwp (Displays.no_page root_node running port :
      Run State (Displays.Raise (GuestDisplay.Raise R)) ddeath (option Ref))
    (fun a s' => a = None /\ shows k None s') (fun _ _ => True) (fun _ => True) s.
Proof.
  intros Hg Hd Hk. unfold Displays.no_page. xwp_go. rewrite Hg. xwp_go. rewrite Hd.
  apply part_cores; [|intros w1 [Hc1 Ha1]|done].
  { intros w. apply on_guest_display_cores. }
  xwp_go. cbn [mbind option_bind].
  rewrite (display_core_same d s), Hk by (try done; simpl; congruence).
  unfold Displays.core_set. rewrite Displays.xwp_part_eq. simpl Displays.core_set_guest_display.
  pose proof (set_guest_display_shows Memory.Return k None (Displays.world (Displays.with_world w1 s)))
    as H.
  destruct (set_guest_display Memory.Return k None _) as [w2|[e w2]|dd]; [|done..].
  destruct H as (Ha&Hs). xwp_go. rewrite Displays.xwp_require.
  destruct (Displays.client_at port _); [done|]. unfold Displays.set_client_at, Displays.set_guest_display_at. xwp_go.
  apply Displays.xwp_or_die; [done|]. rewrite Displays.xwp_part_eq. simpl Displays.gd_release.
  xwp_go. unfold Displays.clear_root.
  assert (forall w3, core_of w3 = core_of w2 -> forall s3, shows k None
    (Displays.with_world w3 s3)) as Hend.
  { intros w3 Hc3 s3. unfold shows. simpl. by rewrite Hc3. }
  destruct root_node as [root|]; xwp_go; [|split; [done|by apply Hend]].
  destruct running; xwp_go; [|split; [done|by apply Hend]].
  unfold Displays.write_root. apply part_cores; [|intros w3 [Hc3 _]|done].
  - intros w'. simpl. by destruct (GuestPtr.write_u32 _ _ _ _ _ _ _).
  - xwp_go. split; [done|]. by apply Hend.
Qed.

(** Page 0 on a port whose guest display has a client parks the client, and its core
    shows no guest display, has dropped the frame it held and answers the host that its
    modes are not heard. *)
Theorem zero_unlinks_display root_node running port restoring g d k s s' :
  Displays.well_formed s -> 0 <= port ->
  Displays.view s port = Displays.Claimed g d -> Displays.display_core d s = Some k ->
  Displays.set_shared_display_state_page root_node running 0 port restoring s = Ret (tt, s') ->
  Displays.view s' port = Displays.Parked d /\ shows k None s'.
Proof.
  intros W Hp Hv Hk Hr. assert (Displays.PartsLaws World Ref Z (GuestDisplay.Raise R)) as PL
    by exact world_laws.
  pose proof (Displays.page_zero_spec root_node running port restoring s W Hp) as H.
  unfold xwp in H. rewrite Hr in H. destruct H as (W'&T&_&Hv'&_). rewrite Hv in Hv'.
  split; [done|].
  assert (Displays.guest_display_at port s = Some g /\
    Displays.gd_client g (Displays.world s) = Some d) as [Hg Hd].
  { unfold Displays.view in Hv. destruct (Displays.guest_display_at port s) as [g0|].
    - by destruct (Displays.gd_client g0 _) eqn:Ec; simplify_eq.
    - by destruct (Displays.client_at port s). }
  revert Hr. unfold Displays.set_shared_display_state_page. rewrite run_step. simpl.
  destruct (Z.leb_spec (Displays.port_count s) port) as [Hle|Hlt]; [done|].
  unfold Displays.set_shared_display_state_page_locked. simpl negb. cbv iota. rewrite run_step.
  pose proof (no_page_shows root_node running port g d k s Hg Hd Hk) as H. unfold xwp in H.
  destruct (Displays.no_page root_node running port s) as [[a s1]|[e s1]|dd]; [|done..].
  destruct H as (->&Hs1). unfold Displays.set_guest_display_at, modify. intros [= <-]. exact Hs1.
Qed.

(** C10: the guest displays and the displays' cores, as they are modelled, keep every law the
    display ports count on: a client is set where the ports set it and nowhere else, a state
    machine without a client raises nothing, and no part dies a death of the ports'. *)
Theorem world_is_lawful : Displays.PartsLaws World Ref Z (GuestDisplay.Raise R).
Proof. exact world_laws. Qed.
End Laws.

(** ** A device of two ports *)

#[local] Instance sample_kernel : GuestDisplay.Kernel Empty_set := {|
  GuestDisplay.get_kernel_task _ _ := Ret tt;
  GuestDisplay.data_from_virtual_offset _ _ _ _ := Ret (Some []);
  GuestDisplay.copy_from_virtual_offset _ _ _ := Ret [];
  GuestDisplay.enable_protected_content := false;
|}.
#[local] Instance sample_target : GuestRecords.Target := GuestRecords.AArch64.
#[local] Instance sample_efi : Efi.Host := {|
  Efi.create_task n i _ := Ret (true, i);
  Efi.destroy_task_of _ _ := Ret tt;
  Efi.new_task_mapping _ _ _ _ := Ret None;
  Efi.new_buffer _ _ _ := Ret None;
  Efi.new_texture _ _ _ _ _ := Ret None;
  Efi.add_trace_range _ _ _ := 0;
  Efi.min_linear_alignment := 256;
  Efi.max_texture_width := 16384;
  Efi.max_texture_height := 16384;
  Efi.loaded_modes _ _ := None;
  Efi.present_frame _ _ _ := Ret tt;
|}.
(** Page [p] is mapped at the [p]th 64 KiB past 8 GiB. *)
Definition sample_map (page : Z) (_ : World) : outcome Empty_set ddeath Z :=
  Ret (0x200000000 + page * 0x10000).
#[local] Instance sample_world_laws : WorldLaws sample_map.
Proof. split; [by split|done..]. Qed.

(** Display 7 of core 70, with one mode; nothing else. *)
Definition sample_core_of (k : Z) : DisplayCore :=
  MkDisplayCore GuestDisplay.sample_core
    (if k =? 70 then Some [GuestDisplay.sample_mode] else None) None true 0.
Definition no_guest_display : GuestDisplay.State := GuestDisplay.sample_state None.
Definition sample_world : World :=
  MkWorld (fun _ => x00) (fun _ => no_guest_display) (fun _ => false) 0 sample_core_of
    (fun k => k =? 70) (fun d => d =? 7) (fun _ => Efi.new).
#[local] Instance sample_parts : Displays.Parts World Ref Z (GuestDisplay.Raise Empty_set) :=
  display_parts sample_map.
Definition sample0 : Displays.State World Ref Z := Displays.new 2 sample_world.
Definition run {A} (m : Run (Displays.State World Ref Z)
    (Displays.Raise (GuestDisplay.Raise Empty_set)) ddeath A) (s : Displays.State World Ref Z)
    : Displays.State World Ref Z :=
  match m s with Ret (_, s') => s' | _ => s end.
Definition parked : Displays.State World Ref Z :=
  run (_ ← Displays.register_display 7 70; Displays.attach_display 7 1) sample0.
Definition the_root : option Z := Some 0x100000000.
Definition linked : Displays.State World Ref Z :=
  run (Displays.set_shared_display_state_page the_root true 5 1 false) parked.

(** The page handed over: the guest display announced the mode (state 1, an ack pending,
    the connect interrupt raised), and the root node names the page. *)
Example linked_connects :
  Displays.view linked 1 = Displays.Claimed (1, 0) 7 /\
  GuestDisplay.fld 4 (state_of (Displays.world linked) (1, 0)) DisplayPage.STATE = 1 /\
  GuestDisplay.fld 1 (state_of (Displays.world linked) (1, 0)) DisplayPage.ACK_PENDING = 1 /\
  GuestDisplay.fld 2 (state_of (Displays.world linked) (1, 0)) DisplayPage.MODE_LIST_COUNT = 1 /\
  GuestDisplay.fld 4 (state_of (Displays.world linked) (1, 0)) DisplayPage.RAISED_INTERRUPTS = 4 /\
  GuestPtr.read_u32 (R:=Empty_set) (memory (Displays.world linked)) 0x100000000
    (Displays.display_word_offset 1) OutOfFuel = Ret 5.
Proof. by vm_compute. Qed.

Definition answered (m : Run (Displays.State World Ref Z)
    (Displays.Raise (GuestDisplay.Raise Empty_set)) ddeath unit) (s : Displays.State World Ref Z)
    : bool :=
  match m s with Ret _ => true | _ => false end.
Lemma run_answered m s : answered m s = true -> m s = Ret (tt, run m s).
Proof. unfold answered, run. by destruct (m s) as [[[] s']| |]. Qed.

Lemma parked_well_formed : Displays.well_formed parked.
Proof.
  assert (Displays.PartsLaws World Ref Z (GuestDisplay.Raise Empty_set)) as PL
    by exact (world_laws sample_map).
  apply (Displays.reaches_well_formed sample0); [by apply Displays.new_well_formed|].
  eapply rtc_l; [exists Displays.Registry; by apply (Displays.step_register 7 70)|].
  apply rtc_once. exists (Displays.Attach 7 1 true). by apply Displays.step_attach.
Qed.
Lemma linked_answers :
  Displays.set_shared_display_state_page the_root true 5 1 false parked = Ret (tt, linked).
Proof. apply run_answered. by vm_compute. Qed.
Lemma linked_well_formed : Displays.well_formed linked.
Proof.
  assert (Displays.PartsLaws World Ref Z (GuestDisplay.Raise Empty_set)) as PL
    by exact (world_laws sample_map).
  eapply Displays.ports_step_refines; [exact parked_well_formed|].
  apply (Displays.step_page the_root true 5 1 false); [done..|]. exact linked_answers.
Qed.

Lemma page_links_display_witness :
  exists g, Displays.gd_port g = 1 /\ Displays.view linked 1 = Displays.Claimed g 7 /\
    shows 70 (Some g) linked.
Proof.
  apply (page_links_display sample_map the_root true 5 1 false 7 70 parked linked
    parked_well_formed); [lia|lia|by vm_compute|by vm_compute|exact linked_answers].
Defined.
Lemma zero_unlinks_display_witness :
  let zero := Displays.set_shared_display_state_page the_root true 0 1 false in
  Displays.view (run zero linked) 1 = Displays.Parked 7 /\ shows 70 None (run zero linked).
Proof.
  apply (zero_unlinks_display sample_map the_root true 1 false (1, 0) 7 70 linked _
    linked_well_formed); [lia|by vm_compute|by vm_compute|].
  apply run_answered. by vm_compute.
Defined.
Lemma world_is_lawful_witness : Displays.PartsLaws World Ref Z (GuestDisplay.Raise Empty_set).
Proof. exact (world_is_lawful sample_map). Defined.
End DisplayCores.
