(* ===== verification/Mmio.v ===== *)
(** * Mmio: the register window of the device
    (src/crates/reims-vgpu-core/src/device/mmio.rs, device.rs)

    The decode of an offset and every register's read and write, over the device
    ([Device]) whose world is the display ports' state ([Displays]). A host's access has
    no handler: a raise that reaches it ends the process. The locks, the trace of the
    doorbells and the log lines are not modelled. *)

From S2P Require Import Prelude Num MemoryKinds DisplayKinds DeviceKinds GuestRecords.
From S2P Require Import GuestPtr MemoryMap Waits RootTask Device Features Displays.
Open Scope Z_scope.

Module Mmio.
Import DisplayKinds DeviceKinds.

Definition MMIO_BASE : Z := 0x1000.

Definition register_index (offset : Z) : Z :=
  Num.low_u16 (shr64 (sub64 offset MMIO_BASE) 2).

(** ** The registers *)

Inductive Register : Type :=
| FifoEnable | FifoLength | FifoWritten | FifoRead | FifoStart | InterruptDisplay
| InterruptStamp | RootPage | WakeFifo | ResumeFifo | ResumeChildFifo | InterruptFault
| FifoBasePage | BinaryVersion | TraceMarker | FifoFaultOffset | EfiEnable | EfiModeCount
| EfiModeSelect | EfiModeValue | EfiStart | EfiLength | EfiDepth | EfiMode | DisplayDoorbell
| EfiStrideAlignment | EfiStride | DisplayPortCount | DisplayPortConnectionTypes.

(** The index of a register ([Register as u16]). *)
Definition index_of (r : Register) : Z :=
  match r with
  | FifoEnable => 0x00 | FifoLength => 0x01 | FifoWritten => 0x02 | FifoRead => 0x03
  | FifoStart => 0x04 | InterruptDisplay => 0x05 | InterruptStamp => 0x06 | RootPage => 0x07
  | WakeFifo => 0x08 | ResumeFifo => 0x09 | ResumeChildFifo => 0x0a | InterruptFault => 0x0b
  | FifoBasePage => 0x0c | BinaryVersion => 0x0d | TraceMarker => 0x0e | FifoFaultOffset => 0x0f
  | EfiEnable => 0x80 | EfiModeCount => 0x81 | EfiModeSelect => 0x82 | EfiModeValue => 0x83
  | EfiStart => 0x84 | EfiLength => 0x85 | EfiDepth => 0x86 | EfiMode => 0x87
  | DisplayDoorbell => 0x88 | EfiStrideAlignment => 0x89 | EfiStride => 0x8a
  | DisplayPortCount => 0x8b | DisplayPortConnectionTypes => 0x8d
  end.

Definition decode (index : Z) : option Register :=
  match index with
  | 0x00 => Some FifoEnable
  | 0x01 => Some FifoLength
  | 0x02 => Some FifoWritten
  | 0x03 => Some FifoRead
  | 0x04 => Some FifoStart
  | 0x05 => Some InterruptDisplay
  | 0x06 => Some InterruptStamp
  | 0x07 => Some RootPage
  | 0x08 => Some WakeFifo
  | 0x09 => Some ResumeFifo
  | 0x0a => Some ResumeChildFifo
  | 0x0b => Some InterruptFault
  | 0x0c => Some FifoBasePage
  | 0x0d => Some BinaryVersion
  | 0x0e => Some TraceMarker
  | 0x0f => Some FifoFaultOffset
  | 0x80 => Some EfiEnable
  | 0x81 => Some EfiModeCount
  | 0x82 => Some EfiModeSelect
  | 0x83 => Some EfiModeValue
  | 0x84 => Some EfiStart
  | 0x85 => Some EfiLength
  | 0x86 => Some EfiDepth
  | 0x87 => Some EfiMode
  | 0x88 => Some DisplayDoorbell
  | 0x89 => Some EfiStrideAlignment
  | 0x8a => Some EfiStride
  | 0x8b => Some DisplayPortCount
  | 0x8d => Some DisplayPortConnectionTypes
  | _ => None
  end.

(** ** The parts *)

(** What the registers ask of a guest display and of the EFI display. *)
Class PortOps (V G X R : Type) := {
  gd_doorbell : G -> V -> outcome (R * V) ddeath V;
  efi_mode_select : X -> Z -> V -> outcome (R * V) ddeath V;
  efi_mode_count : X -> V -> Z;
  efi_mode_value : X -> V -> Z;
  efi_stride_alignment : X -> V -> Z;
  efi_framebuffer_start : X -> Z -> V -> outcome (R * V) ddeath V;
  efi_framebuffer_length : X -> Z -> V -> outcome (R * V) ddeath V;
  efi_framebuffer_depth : X -> Z -> V -> outcome (R * V) ddeath V;
  efi_framebuffer_mode : X -> Z -> V -> outcome (R * V) ddeath V;
  efi_framebuffer_stride : X -> Z -> V -> outcome (R * V) ddeath V;
}.

(** How an access ends the process. *)
Inductive death : Type :=
| OfDevice (d : ddeath)
| OfGuest (k : Features.GuestDeath).

Record State (W F : Type) := MkState {
  dev : Device.State W F;
  binary_version : Z;
  display_port_connection_types : Z;
  feature_level : Z;
}.
Arguments MkState {W F}.
Arguments dev {W F}. Arguments binary_version {W F}.
Arguments display_port_connection_types {W F}. Arguments feature_level {W F}.

Section State.
Context {W F : Type}.
Definition with_dev (d : Device.State W F) (s : State W F) : State W F :=
  MkState d (binary_version s) (display_port_connection_types s) (feature_level s).
Definition with_version (v : Z) (s : State W F) : State W F :=
  MkState (dev s) v (display_port_connection_types s) (feature_level s).
Definition ports (s : State W F) : W := Device.world (dev s).
Definition with_ports (w : W) (s : State W F) : State W F :=
  with_dev (Device.with_world w (dev s)) s.
End State.

Section Mmio.
Context {V G X R F T P : Type}.
Context `{PT : Displays.Parts V G X R} `{PO : PortOps V G X R}.
Local Abbreviation W := (Displays.State V G X).
Context `{DC : Device.Clients W F T P} {target : GuestRecords.Target}.
Context (blocks : RootTask.HostBlocks).
Context (answers : list MemoryMap.VmCall -> MemoryMap.VmCall -> bool)
        (allocates : list MemoryMap.VmCall -> Z -> option Z).
Local Abbreviation M := (Run (State W F) Empty_set death).

(** An operation of the device's, and one of the ports', in the host's call. *)
Definition device {A} (m : Run (Device.State W F) (Device.Raise P) ddeath A) : M A := fun s =>
  match Device.or_die m (dev s) with
  | Ret (a, d) => Ret (a, with_dev d s)
  | Raised _ => Died (OfDevice UnhandledTask)
  | Died d => Died (OfDevice d)
  end.
Definition displays {A} (m : Run W (Displays.Raise R) ddeath A) : M A := fun s =>
  match m (ports s) with
  | Ret (a, w) => Ret (a, with_ports w s)
  | Raised _ => Died (OfDevice UnhandledDisplay)
  | Died d => Died (OfDevice d)
  end.

(** ** What the registers do *)

Definition multiple (s : State W F) : bool :=
  GuestRecords.supports_multiple_displays (Device.features (dev s)).
Definition guest_display_port_count (s : State W F) : Z :=
  let count := Displays.port_count (ports s) in
  if negb (multiple s) then Z.b2z (negb (count =? 0)) else count.
Definition guest_display_port_connection_types (s : State W F) : Z :=
  if multiple s then display_port_connection_types s
  else Z.land (display_port_connection_types s) 3.

(** Negotiated, stored, the features for it stored, and EFI off where they have none. *)
Definition set_binary_version (requested : Z) : M unit :=
  level ← asks feature_level;
  match Features.set_binary_version requested level with
  | Died k => die (OfGuest k)
  | Raised e => match e with end
  | Ret None => mret tt
  | Ret (Some stored) =>
      _ ← modify (with_version stored);
      let features := Features.features_for_version stored in
      _ ← modify (fun s => with_dev (Device.with_features features (dev s)) s);
      if negb (GuestRecords.efi_display features) then displays (Displays.set_efi_display 0)
      else mret tt
  end.

(** The doorbell under its own handler. *)
Definition ring_display_doorbell_at_port (port : Z) : M unit :=
  displays (Displays.landed (
    g ← Displays.get_guest_display_at_port port;
    Displays.part_ (gd_doorbell g))).

(** A value forwarded to the EFI display, if there is one. *)
Definition to_efi (f : X -> V -> outcome (R * V) ddeath V)
    : Run W (Displays.Raise R) ddeath unit :=
  efi ← asks Displays.efi_display;
  match efi with Some x => Displays.part_ (f x) | None => mret tt end.
Definition of_efi (f : X -> V -> Z) (s : State W F) : Z :=
  match Displays.efi_display (ports s) with
  | Some x => f x (Displays.world (ports s))
  | None => 0
  end.
Definition store_efi (f : Displays.EfiRegisters -> Displays.EfiRegisters)
    : Run W (Displays.Raise R) ddeath unit :=
  modify (fun d => Displays.with_efi (f (Displays.efi d)) d).

Definition set_efi_mode_select (v : Z) : M unit :=
  displays (to_efi (fun x => efi_mode_select x v)).
Definition get_efi_mode_count (s : State W F) : Z := of_efi efi_mode_count s.
Definition get_efi_mode_value (s : State W F) : Z := of_efi efi_mode_value s.
Definition get_efi_stride_alignment (s : State W F) : Z := of_efi efi_stride_alignment s.
Definition set_efi_framebuffer_start (v : Z) : M unit := displays (
  _ ← to_efi (fun x => efi_framebuffer_start x v);
  store_efi (fun e => Displays.MkEfi (Displays.enabled e) v (Displays.length_ e) (Displays.depth e)
    (Displays.mode e) (Displays.stride e))).
Definition set_efi_framebuffer_length (v : Z) : M unit := displays (
  _ ← to_efi (fun x => efi_framebuffer_length x v);
  store_efi (fun e => Displays.MkEfi (Displays.enabled e) (Displays.start e) v (Displays.depth e)
    (Displays.mode e) (Displays.stride e))).
Definition set_efi_framebuffer_depth (v : Z) : M unit := displays (
  _ ← to_efi (fun x => efi_framebuffer_depth x v);
  store_efi (fun e => Displays.MkEfi (Displays.enabled e) (Displays.start e) (Displays.length_ e) v
    (Displays.mode e) (Displays.stride e))).
Definition set_efi_framebuffer_mode (v : Z) : M unit := displays (
  _ ← to_efi (fun x => efi_framebuffer_mode x v);
  store_efi (fun e => Displays.MkEfi (Displays.enabled e) (Displays.start e) (Displays.length_ e)
    (Displays.depth e) v (Displays.stride e))).
Definition set_efi_framebuffer_stride (v : Z) : M unit := displays (
  _ ← to_efi (fun x => efi_framebuffer_stride x v);
  store_efi (fun e => Displays.MkEfi (Displays.enabled e) (Displays.start e) (Displays.length_ e)
    (Displays.depth e) (Displays.mode e) v)).

(** ** Reads and writes *)

(** The interrupt words swapped for 0. *)
Definition swap_display : M Z :=
  v ← asks (fun s => Device.interrupt_display (Device.irqs (dev s)));
  _ ← device (Device.update_irqs (Device.with_display 0));
  mret v.
Definition swap_stamp : M Z :=
  v ← asks (fun s => Device.interrupt_stamp (Device.irqs (dev s)));
  _ ← device (Device.update_irqs (Device.with_stamp 0));
  mret v.
Definition efi_register (f : Displays.EfiRegisters -> Z) : M Z :=
  asks (fun s => f (Displays.efi (ports s))).

Definition mmio_read_register (index : Z) : M Z :=
  match decode index with
  | None => mret 0
  | Some register =>
      match register with
      | FifoEnable => asks (fun s => Device.enabled (Device.root (dev s)))
      | FifoRead => asks (fun s =>
          match Device.root_fifo (Device.root (dev s)) with
          | Some fifo => default 0 (Device.root_read fifo (ports s))
          | None => 0
          end)
      | InterruptDisplay => swap_display
      | InterruptStamp => swap_stamp
      | RootPage => asks (fun s => RootTask.root_page_number (Device.rt (dev s)))
      | InterruptFault => asks (fun s => Device.read_interrupt_fault (dev s))
      | BinaryVersion => asks (fun s => w32 (binary_version s))
      | FifoFaultOffset => asks (fun s => Device.fifo_fault_offset (dev s))
      | EfiEnable => efi_register Displays.enabled
      | EfiModeCount => asks get_efi_mode_count
      | EfiModeValue => asks get_efi_mode_value
      | EfiStart => efi_register Displays.start
      | EfiLength => efi_register Displays.length_
      | EfiDepth => efi_register Displays.depth
      | EfiMode => efi_register Displays.mode
      | EfiStrideAlignment => asks get_efi_stride_alignment
      | EfiStride => efi_register Displays.stride
      | DisplayPortCount => asks guest_display_port_count
      | DisplayPortConnectionTypes => asks guest_display_port_connection_types
      | FifoLength | FifoWritten | FifoStart | WakeFifo | ResumeFifo | ResumeChildFifo
      | FifoBasePage | TraceMarker | EfiModeSelect | DisplayDoorbell => mret 0
      end
  end.

Definition mmio_write_register (index value : Z) : M unit :=
  match decode index with
  | None => mret tt
  | Some register =>
      match register with
      | FifoEnable =>
          enabled ← asks (fun s => Device.enabled (Device.root (dev s)));
          if value =? enabled then mret tt
          else if negb (value =? 0) then device (Device.enable_fifo blocks answers allocates)
          else device (Device.teardown_fifos blocks)
      | FifoLength => device (Device.set_fifo_length value)
      | FifoWritten => device (Device.set_fifo_written value)
      | FifoStart => device (Device.set_fifo_start value)
      | RootPage => device (Device.set_root_page blocks answers allocates value)
      | WakeFifo => device (Device.wake_fifo value)
      | ResumeFifo => device (Device.resume_fifo blocks)
      | ResumeChildFifo => device (Device.resume_child_fifo blocks value)
      | FifoBasePage => device (Device.set_fifo_base_page value)
      | BinaryVersion => set_binary_version value
      | TraceMarker => mret tt
      | EfiEnable => displays (Displays.set_efi_display value)
      | EfiModeSelect => set_efi_mode_select value
      | EfiStart => set_efi_framebuffer_start value
      | EfiLength => set_efi_framebuffer_length value
      | EfiDepth => set_efi_framebuffer_depth value
      | EfiMode => set_efi_framebuffer_mode value
      | DisplayDoorbell => ring_display_doorbell_at_port value
      | EfiStride => set_efi_framebuffer_stride value
      | FifoRead | InterruptDisplay | InterruptStamp | InterruptFault | FifoFaultOffset
      | EfiModeCount | EfiModeValue | EfiStrideAlignment | DisplayPortCount
      | DisplayPortConnectionTypes => mret tt
      end
  end.

Definition mmio_read (offset : Z) : M Z := mmio_read_register (register_index offset).
Definition mmio_write (offset value : Z) : M unit :=
  mmio_write_register (register_index offset) value.
End Mmio.

(** ** The window *)

Lemma register_index_eq offset : u64 offset ->
  register_index offset = (offset - MMIO_BASE) mod 0x40000 / 4.
Proof.
  intros Ho. unfold register_index, Num.low_u16, sub64, shr64, MMIO_BASE, w64.
  change (2 mod 64) with 2. rewrite Z.shiftr_div_pow2 by lia. change (2 ^ 2) with 4.
  rewrite M64_val. Z.to_euclidean_division_equations. lia.
Qed.

Lemma decode_index index r : decode index = Some r <-> index = index_of r.
Proof.
  split; [|by intros ->; destruct r].
  unfold decode. repeat case_match; intros [= <-]; done.
Qed.

(** The window decodes the offset's word past 0x1000, aliased every 0x40000 bytes and
    rounded down, to the register of that index; nothing below 0x1000 is a register. *)
Theorem register_window offset : u64 offset ->
  register_index (add64 offset 0x40000) = register_index offset /\
  register_index (offset - offset mod 4) = register_index offset /\
  (forall r, decode (register_index offset) = Some r <->
    (offset - MMIO_BASE) mod 0x40000 / 4 = index_of r) /\
  (offset < MMIO_BASE -> decode (register_index offset) = None).
Proof.
  intros Ho. split_and!.
  - rewrite !register_index_eq by (done || apply add64_range). unfold add64, w64, MMIO_BASE.
    rewrite M64_val. word_unfold. Z.to_euclidean_division_equations. lia.
  - rewrite !register_index_eq by (word_unfold; Z.to_euclidean_division_equations; lia).
    unfold MMIO_BASE. word_unfold. Z.to_euclidean_division_equations. lia.
  - intros r. by rewrite decode_index, register_index_eq.
  - intros Hlow. destruct (decode (register_index offset)) as [r|] eqn:E; [|done].
    apply decode_index in E. rewrite register_index_eq in E by done.
    assert (index_of r <= 0x8d) by (by destruct r). unfold MMIO_BASE in *.
    exfalso. Z.to_euclidean_division_equations. lia.
Qed.

Section Accesses.
Context {V G X R F T P : Type}.
Context `{PT : Displays.Parts V G X R} `{PO : PortOps V G X R}.
Local Abbreviation W := (Displays.State V G X).
Context `{DC : Device.Clients W F T P} {target : GuestRecords.Target}.
Context (blocks : RootTask.HostBlocks).
Context (answers : list MemoryMap.VmCall -> MemoryMap.VmCall -> bool)
        (allocates : list MemoryMap.VmCall -> Z -> option Z).
Local Abbreviation M := (Run (State W F) Empty_set death).
Implicit Types (s : State W F).

(** *** Reads *)

(** What a read of the register at [index] clears. *)
Definition cleared (index : Z) s : State W F :=
  match decode index with
  | Some InterruptDisplay =>
      with_dev (Device.with_irqs (Device.with_display 0 (Device.irqs (dev s))) (dev s)) s
  | Some InterruptStamp =>
      with_dev (Device.with_irqs (Device.with_stamp 0 (Device.irqs (dev s))) (dev s)) s
  | _ => s
  end.
(** The write-only registers, and the read-only ones. *)
Definition write_only (r : Register) : bool :=
  match r with
  | FifoLength | FifoWritten | FifoStart | WakeFifo | ResumeFifo | ResumeChildFifo
  | FifoBasePage | TraceMarker | EfiModeSelect | DisplayDoorbell => true
  | _ => false
  end.
Definition read_only (r : Register) : bool :=
  match r with
  | FifoRead | InterruptDisplay | InterruptStamp | InterruptFault | FifoFaultOffset
  | EfiModeCount | EfiModeValue | EfiStrideAlignment | DisplayPortCount
  | DisplayPortConnectionTypes => true
  | _ => false
  end.

(** A read answers at every offset and changes nothing but the interrupt word it reads,
    which it clears: read again, that word is 0. A write-only register and an index with no
    register read 0. *)
Theorem mmio_read_effects offset s :
  exists v, mmio_read offset s = Ret (v, cleared (register_index offset) s) /\
    match decode (register_index offset) with
    | None => v = 0
    | Some r =>
        (write_only r = true -> v = 0) /\
        (r = InterruptDisplay \/ r = InterruptStamp ->
          mmio_read offset (cleared (register_index offset) s)
            = Ret (0, cleared (register_index offset) s))
    end.
Proof.
  unfold mmio_read, mmio_read_register, cleared.
  destruct (decode (register_index offset)) as [r|] eqn:E; [|by eexists].
  destruct r; eexists; (split; [reflexivity|split; [done|intros [?|?]; done]]).
Qed.

(** *** Writes *)

Lemma device_wp {A} (m : Run (Device.State W F) (Device.Raise P) ddeath A) s Q :
  wp m (fun a d => Q a (with_dev d s)) (fun _ => True) (dev s) ->
  wp (device m : M A) Q (fun _ => True) s.
Proof.
  unfold wp, device, Device.or_die. by destruct (m (dev s)) as [[a d]|[[k|p] d]|d].
Qed.
Lemma displays_wp {A} (m : Run W (Displays.Raise R) ddeath A) s Q :
  wp m (fun a w => Q a (with_ports w s)) (fun _ => True) (ports s) ->
  wp (displays m : M A) Q (fun _ => True) s.
Proof. unfold wp, displays. by destruct (m (ports s)) as [[a w]|[e w]|d]. Qed.

(** The last step of an operation. *)
Lemma wp_skip {S E D A B} (m : Run S E D A) (f : A -> Run S E D B) (Q : B -> S -> Prop) (x : S) :
  (forall a y, wp (f a) Q (fun _ => True) y) -> wp (a ← m; f a) Q (fun _ => True) x.
Proof. intros HQ. rewrite wp_bind. unfold wp at 1. by destruct (m x) as [[a y]|[e y]|d]; [apply HQ|..]. Qed.
Lemma wp_last {S E D A} (m : Run S E D A) (f : S -> S) (Q : unit -> S -> Prop) (x : S) :
  (forall y, Q tt (f y)) -> wp (_ ← m; modify f) Q (fun _ => True) x.
Proof. intros HQ. apply wp_skip. intros a y. apply HQ. Qed.

Definition page_reads (v : Z) s : Prop := RootTask.root_page_number (Device.rt (dev s)) = v.
Lemma set_root_page_reads v s :
  wp (device (Device.set_root_page blocks answers allocates v) : M unit)
    (fun _ => page_reads v) (fun _ => True) s.
Proof.
  apply device_wp. unfold Device.set_root_page.
  do 4 (apply wp_skip; intros ? ?). unfold wp, Device.in_task, modify. done.
Qed.
Lemma set_efi_display_reads v s :
  wp (displays (Displays.set_efi_display v) : M unit)
    (fun _ s' => Displays.enabled (Displays.efi (ports s')) = v) (fun _ => True) s.
Proof.
  apply displays_wp. unfold Displays.set_efi_display. destruct (Z.eqb_spec v 0) as [->|Hv]; simpl.
  - do 3 (apply wp_skip; intros ? ?). done.
  - do 2 (apply wp_skip; intros ? ?). done.
Qed.
Lemma store_efi_reads f g (v : Z) s : (forall e, g (f e) = v) ->
  forall fwd : X -> V -> outcome (R * V) ddeath V,
  wp (displays (_ ← to_efi fwd; store_efi f) : M unit)
    (fun _ s' => g (Displays.efi (ports s')) = v) (fun _ => True) s.
Proof. intros Hg fwd. apply displays_wp, wp_last. intros w. apply Hg. Qed.

(** The register [reg] reads [v] after the write that answers. *)
Ltac reads_back reg v :=
  match goal with Hw : ?set ?s = Ret (tt, ?s') |- _ =>
    let H := fresh in
    assert (wp set (fun _ s' => reg (Displays.efi (ports s')) = v) (fun _ => True) s) as H
      by (by apply store_efi_reads);
    unfold wp in H; rewrite Hw in H; unfold efi_register, asks; rewrite H
  end.

(** The registers that read back what was written. *)
Definition stored (r : Register) : bool :=
  match r with
  | RootPage | EfiEnable | EfiStart | EfiLength | EfiDepth | EfiMode | EfiStride => true
  | _ => false
  end.

(** C18: a write of the root page, of the EFI enable or of an EFI framebuffer register reads
    back at the same offset, whether or not there is an EFI display. *)
Theorem mmio_write_reads_back offset r v s s' :
  decode (register_index offset) = Some r -> stored r = true ->
  mmio_write blocks answers allocates offset v s = Ret (tt, s') ->
  mmio_read offset s' = Ret (v, s').
Proof.
  intros Hr Hst. unfold mmio_write, mmio_write_register, mmio_read, mmio_read_register. rewrite Hr.
  destruct r; try done; intros Hw.
  - pose proof (set_root_page_reads v s) as H. unfold wp in H. rewrite Hw in H.
    unfold asks. by rewrite H.
  - pose proof (set_efi_display_reads v s) as H. unfold wp in H. rewrite Hw in H.
    unfold efi_register, asks. by rewrite H.
  - by reads_back Displays.start v.
  - by reads_back Displays.length_ v.
  - by reads_back Displays.depth v.
  - by reads_back Displays.mode v.
  - by reads_back Displays.stride v.
Qed.
(** A write to a register that only reads, or to no register, changes nothing, whatever
    the value. *)
Theorem mmio_write_ignored offset v s :
  match decode (register_index offset) with Some r => read_only r = true | None => True end ->
  mmio_write blocks answers allocates offset v s = Ret (tt, s).
Proof.
  intros Hr. unfold mmio_write, mmio_write_register.
  destruct (decode (register_index offset)) as [r|]; [|done]. by destruct r.
Qed.

(** *** The version *)

Lemma set_efi_zero_off s :
  wp (displays (Displays.set_efi_display 0) : M unit)
    (fun _ s' => s' = with_ports (ports s') s /\ Displays.efi_display (ports s') = None /\
       Displays.efi (ports s') = Displays.efi_zero) (fun _ => True) s.
Proof.
  apply displays_wp. unfold Displays.set_efi_display. simpl.
  do 2 (apply wp_skip; intros ? ?). done.
Qed.

(** C19: a version the negotiation refuses changes nothing; any other is stored as it was
    negotiated, the device has exactly its features, a version without an EFI display turns
    EFI off and zeroes its registers, and one without several displays reads one port at
    most. *)
Theorem version_negotiated requested s s' :
  set_binary_version requested s = Ret (tt, s') ->
  match Features.set_binary_version requested (feature_level s) with
  | Ret None => s' = s
  | Ret (Some stored) =>
      let features := Features.features_for_version stored in
      binary_version s' = stored /\ Device.features (dev s') = features /\
      (GuestRecords.efi_display features = false ->
        Displays.efi_display (ports s') = None /\ Displays.efi (ports s') = Displays.efi_zero) /\
      (GuestRecords.supports_multiple_displays features = false ->
        guest_display_port_count s' <= 1 /\ 0 <= guest_display_port_connection_types s' <= 3)
  | _ => False
  end.
Proof.
  unfold set_binary_version. rewrite run_step. unfold asks at 1. cbv beta iota.
  destruct (Features.set_binary_version requested (feature_level s)) as [[stored|]|e|d] eqn:Ef;
    [|by intros [= <-]|done..].
  set (features := Features.features_for_version stored).
  set (s2 := with_dev (Device.with_features features (dev (with_version stored s)))
    (with_version stored s)).
  assert (forall s', binary_version s' = stored -> Device.features (dev s') = features ->
    GuestRecords.supports_multiple_displays features = false ->
    guest_display_port_count s' <= 1 /\ 0 <= guest_display_port_connection_types s' <= 3) as Hports.
  { intros s3 _ Hfe Hm. unfold guest_display_port_count, guest_display_port_connection_types, multiple.
    rewrite Hfe, Hm. simpl. split; [by destruct (_ =? 0)|].
    change 3 with (2 ^ 2 - 1). rewrite land_mask by lia.
    pose proof (Z.mod_pos_bound (display_port_connection_types s3) (2 ^ 2) ltac:(lia)). lia. }
  rewrite !run_step. unfold modify at 1. cbv beta iota. rewrite run_step. unfold modify at 1.
  cbv beta iota. fold features. change (with_dev _ _) with s2.
  destruct (GuestRecords.efi_display features) eqn:Ee; simpl negb; cbv iota.
  - intros [= <-]. split_and!; [done..|]. by apply Hports.
  - intros Hr. change (displays (Displays.set_efi_display 0) s2 = Ret (tt, s')) in Hr.
    pose proof (set_efi_zero_off s2) as H. unfold wp in H. rewrite Hr in H.
    destruct H as (E&Hx&Hz).
    assert (binary_version s' = stored /\ Device.features (dev s') = features) as [E1 E2]
      by (by rewrite E). split_and!; try done. by apply Hports.
Qed.
End Accesses.

(** ** A device without FIFOs *)

#[local] Existing Instance Displays.toy_parts.
#[local] Instance sample_ops : PortOps Displays.Toy Z unit unit := {
  gd_doorbell _ v := Ret v;
  efi_mode_select _ _ v := Ret v;
  efi_mode_count _ _ := 1;
  efi_mode_value _ _ := 640 + 480 * 65536;
  efi_stride_alignment _ _ := 256;
  efi_framebuffer_start _ _ v := Ret v;
  efi_framebuffer_length _ _ v := Ret v;
  efi_framebuffer_depth _ _ v := Ret v;
  efi_framebuffer_mode _ _ v := Ret v;
  efi_framebuffer_stride _ _ v := Ret v;
}.
Local Abbreviation Ports := (Displays.State Displays.Toy Z unit).
#[local] Instance sample_clients : Device.Clients Ports unit Empty_set Empty_set := {
  Device.memory_of w := Displays.memory_of (Displays.world w);
  Device.store_memory m w := Displays.with_world (Displays.store_memory m (Displays.world w)) w;
  Device.try_new_root_on _ _ _ w := Ret (Some tt, w);
  Device.new_child_on _ _ _ w := Ret (Some tt, w);
  Device.fifo_start _ w := Ret w;
  Device.fifo_stop _ w := Ret ([], w);
  Device.fifo_drain _ w := Ret ([], w);
  Device.fifo_resume _ w := Ret ([], w);
  Device.fifo_poke _ w := Ret w;
  Device.set_root_written _ _ w := Ret w;
  Device.stamp_index _ _ := 0;
  Device.fault_offset _ _ := Device.NOT_FAULTED;
  Device.root_read _ _ := Some 0;
  Device.tasks _ := [];
  Device.fifo_deleted _ _ w := Ret w;
  Device.teardown_tasks w := Ret w;
  (** The ports' own teardown. *)
  Device.teardown_displays root running w :=
    match Displays.teardown_displays root running w with
    | Ret (_, w) => Ret w
    | Raised _ => Died UnhandledDisplay
    | Died d => Died d
    end;
  Device.take_report_budget w := (false, w);
  Device.report_stamp_wait_timeout w := Ret w;
}.

#[local] Instance sample_target : GuestRecords.Target := GuestRecords.AArch64.

(** A device the guest has not written, with display 7 parked on port 1, at feature
    level 4. *)
Definition sample : State Ports unit :=
  MkState (Device.MkState
    (RootTask.MkState 0 0 0 0 (Some RootTask.fresh) None RootTask.Running [] [])
    (Device.MkRootNode None None) (Device.MkRootFifo 0 0 0 0 None None None)
    (replicate 64 None) Waits.new_waiting_info 0 (Device.MkInterrupts 0 0 0) false
    GuestRecords.sample_features Displays.toy1) 0 7 4.
Local Abbreviation yes := (fun _ _ => true).
Local Abbreviation none := (fun _ _ => None).
Local Abbreviation write := (mmio_write RootTask.sample_blocks yes none).
Definition answered (m : Run (State Ports unit) Empty_set death unit) (s : State Ports unit)
    : bool :=
  match m s with Ret _ => true | _ => false end.
Definition after (m : Run (State Ports unit) Empty_set death unit) (s : State Ports unit)
    : State Ports unit :=
  match m s with Ret (_, s') => s' | _ => s end.
Lemma answered_after m s : answered m s = true -> m s = Ret (tt, after m s).
Proof. unfold answered, after. by destruct (m s) as [[[] s']| |]. Qed.

Lemma register_window_witness :
  register_index (add64 0x41034 0x40000) = 0x0d /\ register_index 0x41037 = 0x0d /\
  decode (register_index 0x41034) = Some BinaryVersion.
Proof.
  pose proof (register_window 0x41034 ltac:(by vm_compute)) as (H&_&Hr&_).
  pose proof (register_window 0x41037 ltac:(by vm_compute)) as (_&H2&_&_).
  split; [rewrite H; by vm_compute|]. split; [rewrite <- H2; by vm_compute|].
  apply Hr. by vm_compute.
Defined.
(** The root page. *)
Lemma mmio_write_reads_back_witness :
  mmio_read 0x101c (after (write 0x101c 5) sample) = Ret (5, after (write 0x101c 5) sample).
Proof.
  apply (mmio_write_reads_back RootTask.sample_blocks yes none 0x101c RootPage 5 sample);
    [by vm_compute..|]. apply answered_after. by vm_compute.
Defined.
(** The display interrupt word. *)
Lemma mmio_write_ignored_witness : write 0x1014 9 sample = Ret (tt, sample).
Proof. apply mmio_write_ignored. by vm_compute. Defined.
(** Version 2, without EFI and with one display, on a device whose EFI display is on. *)
Definition efi_on : State Ports unit := after (write 0x1200 1) sample.
Lemma version_negotiated_witness :
  is_Some (Displays.efi_display (ports efi_on)) /\
  let s' := after (set_binary_version 2) efi_on in
  binary_version s' = 2 /\ Displays.efi_display (ports s') = None.
Proof.
  split; [vm_compute; by eexists|]. intros s'.
  assert (set_binary_version 2 efi_on = Ret (tt, s')) as E
    by (apply answered_after; by vm_compute).
  pose proof (version_negotiated 2 efi_on s' E) as H.
  assert (Features.set_binary_version 2 (feature_level efi_on) = Ret (Some 2)) as Ev
    by (by vm_compute).
  rewrite Ev in H. destruct H as (Hb&_&He&_). split; [exact Hb|]. apply He. by vm_compute.
Defined.
End Mmio.
