(* ===== verification/Fifo.v ===== *)
(** * Fifo: the FIFO and its thread (src/crates/reims-vgpu-core/src/fifo.rs,
    fifo/thread.rs)

    The FIFO over its ring ([Ring]) and its stamp queue ([Stamps]): its making,
    its registers, its faults and resumes, its start, stop and drain, and one
    turn of the thread's loop: read a header, frame the command, read its
    barriers and payload, wait, advance, push its stamp and run it. The device's
    barrier wait and the command handlers are the interface [FifoClients]. A turn
    that sleeps (for ring bytes, or for room for its stamp) says so. *)

From S2P Require Import Prelude Num MemoryKinds FifoKinds GuestPtr GuestRecords MemoryMap.
From S2P Require Import Stamps Ring Wire.
Import GuestPtr.

Module Fifo.
Import FifoDeath.

Definition ROOT_STAMP_INDEX : Z := 0.

(** The FIFO; [f_event] (the shared event) and its locks are not modelled. *)
Record Fifo := MkFifo {
  f_ring : Ring.Ring;
  f_stamps : Stamps.QueueState;
  f_last_pending : Z;
  f_running : bool;
  f_quiesced : bool;
  f_ring_length : Z;
  f_command_offset : Z;
  f_mapping : option MemoryMap.Mapping;
  f_kept : list MemoryMap.Mapping;
}.

(** What the FIFO calls on its device. *)
Inductive DeviceCall : Type :=
| SignalStamp (stamp_index value : Z)
| SignalFaultInFifo.

(** The host's memory, the FIFO and the calls made so far. *)
Record World := MkWorld { mem : memory; fifo : Fifo; calls : list DeviceCall }.

Definition with_ring (f : Fifo) (g : Ring.Ring) : Fifo :=
  MkFifo g (f_stamps f) (f_last_pending f) (f_running f) (f_quiesced f) (f_ring_length f)
    (f_command_offset f) (f_mapping f) (f_kept f).
Definition with_stamps (f : Fifo) (q : Stamps.QueueState) : Fifo :=
  MkFifo (f_ring f) q (f_last_pending f) (f_running f) (f_quiesced f) (f_ring_length f)
    (f_command_offset f) (f_mapping f) (f_kept f).
Definition with_last_pending (f : Fifo) (v : Z) : Fifo :=
  MkFifo (f_ring f) (f_stamps f) v (f_running f) (f_quiesced f) (f_ring_length f)
    (f_command_offset f) (f_mapping f) (f_kept f).
Definition with_running (f : Fifo) (b : bool) : Fifo :=
  MkFifo (f_ring f) (f_stamps f) (f_last_pending f) b (f_quiesced f) (f_ring_length f)
    (f_command_offset f) (f_mapping f) (f_kept f).
Definition with_quiesced (f : Fifo) (b : bool) : Fifo :=
  MkFifo (f_ring f) (f_stamps f) (f_last_pending f) (f_running f) b (f_ring_length f)
    (f_command_offset f) (f_mapping f) (f_kept f).
Definition with_command_offset (f : Fifo) (o : Z) : Fifo :=
  MkFifo (f_ring f) (f_stamps f) (f_last_pending f) (f_running f) (f_quiesced f)
    (f_ring_length f) o (f_mapping f) (f_kept f).
Definition with_mapped (f : Fifo) (c : Ring.ChildRing) (len : Z)
    (mapping : option MemoryMap.Mapping) (kept : list MemoryMap.Mapping) : Fifo :=
  MkFifo (Ring.Child c) (f_stamps f) (f_last_pending f) (f_running f) (f_quiesced f) len
    (f_command_offset f) mapping kept.

(** ** Making a FIFO *)

Definition build (last_pending : Z) (g : Ring.Ring) (ring_length : Z) : Fifo :=
  MkFifo g Stamps.new last_pending false false ring_length 0 None [].

Definition init_root (length base start_offset last_pending : Z) : Fifo * bool :=
  let refused := length <=? start_offset in
  let '(ring_base, ring_length) :=
    if refused then (0, 0) else (offset base start_offset, sub32 length start_offset) in
  let fifo := build last_pending
    (Ring.Root (Ring.root_new start_offset ring_base
       (if refused then 0 else Ring.NO_FAULT_OFFSET))) ring_length in
  if refused then (fifo, false) else (fifo, true).

Definition try_new_root_on (length base start_offset last_pending : Z) : option Fifo :=
  match init_root length base start_offset last_pending with
  | (fifo, true) => Some fifo
  | (_, false) => None
  end.

Section Ops.
(** How a store on the thread of an isolated task that has ended stops it, and
    whether it has. *)
Context (stopped : FifoDeathKind) (task_ended : bool).

(** [max_fifo_count]: the device's features, [None] for a gone device. *)
Definition new_child_on (m : memory) (node : Z) (restoring : bool) (last_pending : Z)
    (max_fifo_count : option Z) : Ring.fres (memory * option Fifo) :=
  stamp_index ← read_u16 m node Ring.NODE_STAMP_INDEX NodeNull;
  '(m, c) ← Ring.init_from_node stopped task_ended m (Ring.child_new node stamp_index) restoring;
  match max_fifo_count with
  | None => Died DeviceGone
  | Some count =>
      if count <=? stamp_index then Ret (m, None)
      else Ret (m, Some (build last_pending (Ring.Child c) 0))
  end.

Definition is_root_fifo (f : Fifo) : bool :=
  match f_ring f with Ring.Root _ => true | Ring.Child _ => false end.

Definition f_stamp_index (f : Fifo) : Z :=
  match f_ring f with Ring.Root _ => ROOT_STAMP_INDEX | Ring.Child c => Ring.stamp_index c end.

(** ** The root's registers *)

Definition root_written (f : Fifo) : option Z :=
  match f_ring f with Ring.Root r => Some (Ring.written r) | Ring.Child _ => None end.
Definition root_read (f : Fifo) : option Z :=
  match f_ring f with Ring.Root r => Some (Ring.read r) | Ring.Child _ => None end.
Definition root_start_offset (f : Fifo) : option Z :=
  match f_ring f with Ring.Root r => Some (Ring.start_offset r) | Ring.Child _ => None end.
Definition set_root_written (f : Fifo) (written : Z) : Fifo :=
  match f_ring f with
  | Ring.Root r => with_ring f (Ring.Root (Ring.set_written r written))
  | Ring.Child _ => f
  end.
Definition set_root_read (f : Fifo) (read : Z) : Fifo :=
  match f_ring f with
  | Ring.Root r => with_ring f (Ring.Root (Ring.set_read r read (f_ring_length f)))
  | Ring.Child _ => f
  end.

(** ** The stamps, through the queue's sink *)

(** One call of the sink ([FifoSink]): a signal goes to the device, a fault is
    stored in the ring (a child's in its node) and goes to the device. *)
Definition sink (w : World) (e : Stamps.Event) : Ring.fres World :=
  match e with
  | Stamps.Signal v =>
      Ret (MkWorld (mem w) (fifo w) (calls w ++ [SignalStamp (f_stamp_index (fifo w)) v]))
  | Stamps.Fault off =>
      '(m, g) ← Ring.set_fault_offset stopped task_ended (mem w) (f_ring (fifo w)) off;
      Ret (MkWorld m (with_ring (fifo w) g) (calls w ++ [SignalFaultInFifo]))
  | Stamps.HeadNotFaulted | Stamps.WakeRoom | Stamps.WakeDrained => Ret w
  end.

Fixpoint sink_all (w : World) (evs : list Stamps.Event) : Ring.fres World :=
  match evs with
  | [] => Ret w
  | e :: evs => w ← sink w e; sink_all w evs
  end.

Definition of_queue (w : World) (r : Stamps.queue_result) : Ring.fres World :=
  '(q, evs) ← r;
  sink_all (MkWorld (mem w) (with_stamps (fifo w) q) (calls w)) evs.

Definition fault_at_offset (w : World) (offset stamp_value : Z) : Ring.fres World :=
  of_queue w (Stamps.fault_stamp (f_stamps (fifo w)) stamp_value offset).
Definition fault_at_stamp_value (w : World) (stamp_value : Z) : Ring.fres World :=
  fault_at_offset w (f_command_offset (fifo w)) stamp_value.
Definition signal_stamp_value (w : World) (stamp_value : Z) : Ring.fres World :=
  of_queue w (Stamps.signal_stamp (f_stamps (fifo w)) stamp_value).

(** [None] while the queue has no room. *)
Definition push (w : World) (stamp_value command_id : Z) : option World :=
  match Stamps.push_stamp (f_stamps (fifo w)) stamp_value command_id with
  | None => None
  | Some (q, last) =>
      Some (MkWorld (mem w) (with_last_pending (with_stamps (fifo w) q) last) (calls w))
  end.

Definition set_fault_offset (w : World) (off : Z) : Ring.fres World :=
  '(m, g) ← Ring.set_fault_offset stopped task_ended (mem w) (f_ring (fifo w)) off;
  Ret (MkWorld m (with_ring (fifo w) g) (calls w)).

Definition resume (w : World) : Ring.fres World :=
  w ← set_fault_offset w Ring.NO_FAULT_OFFSET;
  of_queue w (Ret (Stamps.resume_from_fault (f_stamps (fifo w)))).

(** ** Start, stop, quiesce, drain *)

Section Start.
Context {target : GuestRecords.Target} {device : Ring.DeviceMappings}.

Definition map_ring (device_lives : bool) (w : World) : Ring.fres (World * bool) :=
  match f_ring (fifo w) with
  | Ring.Root _ => Ret (w, true)
  | Ring.Child c =>
      let f := fifo w in
      '(m, s, mapped) ← Ring.map_child_ring device_lives (mem w)
        (Ring.MkChildState c (f_ring_length f) (f_mapping f) (f_kept f));
      Ret (MkWorld m (with_mapped f (Ring.ring s) (Ring.ring_length s) (Ring.mapping s)
             (Ring.kept s)) (calls w), mapped)
  end.

(** The thread is spawned between the flags and the node's running mark. *)
Definition start (device_lives : bool) (w : World) : Ring.fres (World * bool) :=
  '(w, mapped) ← map_ring device_lives w;
  if negb mapped then Ret (w, false)
  else
    let f := with_quiesced (fifo w) false in
    let f := with_stamps f (Stamps.clear_quiesced (f_stamps f)) in
    let f := with_running f true in
    m ← match f_ring f with
        | Ring.Child c => Ring.set_running stopped task_ended (mem w) c true
        | Ring.Root _ => Ret (mem w)
        end;
    Ret (MkWorld m f (calls w), true).

Definition unmap_ring (w : World) : World :=
  match f_ring (fifo w) with
  | Ring.Root _ => w
  | Ring.Child c =>
      let f := fifo w in
      let '(m, s) := Ring.unmap_ring (mem w)
        (Ring.MkChildState c (f_ring_length f) (f_mapping f) (f_kept f)) in
      MkWorld m (with_mapped f (Ring.ring s) (Ring.ring_length s) (Ring.mapping s)
        (Ring.kept s)) (calls w)
  end.

(** The loop's end: the unconsumed command rewound, a child's ring unmapped. *)
Definition run_end (w : World) : World :=
  let w := MkWorld (mem w) (with_ring (fifo w) (Ring.rewind (f_ring (fifo w)))) (calls w) in
  let w := unmap_ring w in
  MkWorld (mem w) (with_running (fifo w) false) (calls w).
End Start.

Definition quiesce (w : World) : Ring.fres World :=
  let w := MkWorld (mem w) (with_quiesced (fifo w) true) (calls w) in
  of_queue w (Ret (Stamps.quiesce (f_stamps (fifo w)))).

Definition stop (w : World) : Ring.fres World :=
  m ← match f_ring (fifo w) with
      | Ring.Child c => Ring.set_running stopped task_ended (mem w) c false
      | Ring.Root _ => Ret (mem w)
      end;
  quiesce (MkWorld m (fifo w) (calls w)).

(** Once the thread has left: [false] while a stamp is pending and the drain
    waits. *)
Definition drain (w : World) : Ring.fres (World * bool) :=
  _ ← fatal_unless (f_quiesced (fifo w)) DrainUnquiesced;
  '(q, evs, returned) ← Stamps.drain (f_stamps (fifo w));
  w ← sink_all (MkWorld (mem w) (with_stamps (fifo w) q) (calls w)) evs;
  Ret (w, returned).

(** ** Framing *)

Inductive Framing : Type :=
| Skip
| FrameFault
| Read (barrier_count barrier_len payload_len : Z).

Definition frame (command : Wire.FifoCommand) (ring_length : Z) : Framing :=
  let length := Wire.clength command in
  if (length <? Wire.HEADER_LEN) || (ring_length <? length) then Skip
  else
    let barrier_count := Wire.barrier_count command in
    let barrier_bytes := mul64 barrier_count Wire.STAMP_WAIT_LEN in
    let '(payload_len, underflow) :=
      overflowing_sub64 (sub64 length Wire.HEADER_LEN) barrier_bytes in
    if underflow : bool then FrameFault
    else if Wire.MAX_BARRIERS <? barrier_count then FrameFault
    else Read barrier_count barrier_bytes payload_len.

(** ** One turn of the thread's loop *)

(** The device's barrier wait ([None]: it raised) and the command's handler. *)
Class FifoClients := {
  wait_stamps : Wire.Records Wire.StampWait -> World -> option bool;
  dispatch : Wire.FifoCommand -> list byte -> World -> Ring.fres World;
}.

(** How a turn ends: the loop's next turn, the loop's end, or asleep, with the
    world as it sleeps. *)
Inductive Turn : Type := Next | Stop | Asleep.

Section Loop.
Context {clients : FifoClients}.

(** [None]: the wait raised. *)
Definition wait_barriers (device_lives : bool) (barriers : Wire.Records Wire.StampWait)
    (w : World) : option bool :=
  if device_lives
  then ok ← wait_stamps barriers w; Some (ok && negb (f_quiesced (fifo w)))
  else Some false.

Definition latch_offset (w : World) : World :=
  MkWorld (mem w)
    (with_command_offset (fifo w) (Ring.latch_offset (f_ring (fifo w)))) (calls w).

Definition read_ring (w : World) (n : Z) : Ring.fres (World * list byte * Ring.Filled) :=
  '(g, bs, e) ← Ring.read_bytes (mem w) (f_ring_length (fifo w)) (f_quiesced (fifo w))
    (f_ring (fifo w)) n;
  Ret (MkWorld (mem w) (with_ring (fifo w) g) (calls w), bs, e).

Definition advance (w : World) : Ring.fres World :=
  '(m, g) ← Ring.advance stopped task_ended (mem w) (f_ring (fifo w));
  Ret (MkWorld m (with_ring (fifo w) g) (calls w)).

(** Pushes the command's stamp and goes on, or sleeps until there is room. *)
Definition push_then (w : World) (c : Wire.FifoCommand)
    (k : World -> Ring.fres World) : Ring.fres (World * Turn) :=
  match push w (Wire.cstamp c) (Wire.command_id c) with
  | None => Ret (w, Asleep)
  | Some w => w ← k w; Ret (w, Next)
  end.

(** What a read that did not fill its buffer does to the turn. *)
Definition unfilled (e : Ring.Filled) (quiet : Turn) : Turn :=
  match e with Ring.Quiesced => quiet | _ => Asleep end.

(** The command once its barriers and payload are read. *)
Definition run_command (device_lives : bool) (w : World) (c : Wire.FifoCommand)
    (barrier_count : Z) (list_ body : list byte) : Ring.fres (World * Turn) :=
  let waited :=
    if barrier_count =? 0 then Some true
    else wait_barriers device_lives
           (default Wire.empty (Wire.records_new list_ barrier_count)) w in
  match waited with
  | Some false => Ret (w, Stop)
  | None =>
      w ← advance w;
      push_then w c (fun w => fault_at_stamp_value w (Wire.cstamp c))
  | Some true =>
      w ← advance w;
      push_then w c (dispatch c body)
  end.

(** The loop's body, on a FIFO that is not quiesced; [ring_length] is the length
    the thread read when it started. *)
Definition turn (device_lives : bool) (ring_length : Z) (w : World)
    : Ring.fres (World * Turn) :=
  let w := latch_offset w in
  '(w, header, e) ← read_ring w Wire.COMMAND_HEADER_SIZE;
  match e with
  | Ring.Full =>
      let c := Wire.command_of_bytes header in
      match frame c ring_length with
      | Skip => Ret (w, Next)
      | FrameFault => push_then w c (fun w => fault_at_stamp_value w (Wire.cstamp c))
      | Read barrier_count barrier_len payload_len =>
          '(w, barriers, e) ← (if barrier_count =? 0 then Ret (w, [], Ring.Full)
                               else read_ring w barrier_len);
          match e with
          | Ring.Full =>
              '(w, body, e) ← read_ring w payload_len;
              match e with
              | Ring.Full => run_command device_lives w c barrier_count barriers body
              | _ => Ret (w, unfilled e Next)
              end
          | _ => Ret (w, unfilled e Stop)
          end
      end
  | _ => Ret (w, unfilled e Next)
  end.
End Loop.
End Ops.

(** ** Framing decided *)

Lemma frame_value c ring_length :
  Wire.command_ok c ->
  let L := Wire.clength c in
  let n := Wire.barrier_count c in
  frame c ring_length =
  if (L <? 12) || (ring_length <? L) then Skip
  else if (L <? 12 + 8 * n) || (64 <? n) then FrameFault
  else Read n (8 * n) (L - 12 - 8 * n).
Proof.
  intros (_ & Hn & HL & _) L n. unfold frame, Wire.HEADER_LEN, Wire.STAMP_WAIT_LEN, Wire.MAX_BARRIERS.
  fold L n. pose proof M64_val. pose proof M32_val. case_if; [done|].
  rewrite (mul64_small n 8), (sub64_small L 12) by (subst L n; lia).
  unfold overflowing_sub64. replace (n * 8) with (8 * n) by lia.
  replace (L - 12 <? 8 * n) with (L <? 12 + 8 * n)
    by (destruct (Z.ltb_spec L (12 + 8 * n)), (Z.ltb_spec (L - 12) (8 * n)); done || lia).
  destruct (L <? 12 + 8 * n) eqn:E; [done|]. cbn [orb]. case_if; [done|].
  to_props. rewrite sub64_small by (subst L n; lia). done.
Qed.

(** ** Reading a command *)

Definition ring_base (g : Ring.Ring) : Z :=
  match g with Ring.Root r => Ring.r_base r | Ring.Child c => Ring.c_base c end.

(** The guest has written [n] more bytes (to the root, anything at all), the
    child's node saying [w]. *)
Definition supplied (m : memory) (w : Z) (g : Ring.Ring) (n : Z) : Prop :=
  match g with
  | Ring.Root r => Ring.r_written r <> Ring.r_read r
  | Ring.Child c => Ring.node_written m w c /\ n <= sub32 w (Ring.c_read_count c)
  end.

(** [g'] is [g] with [n] bytes read. *)
Definition moved (len : Z) (g : Ring.Ring) (n : Z) (g' : Ring.Ring) : Prop :=
  match g, g' with
  | Ring.Root r, Ring.Root r' =>
      r' = Ring.root_at r (Ring.ring_next len (Ring.r_read_offset r) n)
             (add32 (Ring.r_pending_advance r) n)
  | Ring.Child c, Ring.Child c' =>
      exists cache, c' = Ring.child_at c (Ring.ring_next len (Ring.c_read_offset c) n)
        (add32 (Ring.c_read_count c) n) cache
  | _, _ => False
  end.

Definition ring_data (m : memory) (len : Z) (g : Ring.Ring) (n : Z) : list byte :=
  Ring.ring_bytes m (ring_base g) len (Ring.latch_offset g) (Z.to_nat n).

Lemma child_supply w c n :
  n <= sub32 w (Ring.c_read_count c) -> n <= Ring.child_available w c n.
Proof. intros H. unfold Ring.child_available. case_if; lia. Qed.

Lemma read_full m w len g n :
  Ring.readable g len -> 0 <= n -> supplied m w g n ->
  exists g', Ring.read_bytes m len false g n = Ret (g', ring_data m len g n, Ring.Full) /\
    moved len g n g'.
Proof.
  intros Hr Hn Hs. destruct g as [r|c]; cbn [Ring.read_bytes].
  - rewrite Ring.read_root_full by done. eexists. split; [reflexivity|]. done.
  - destruct Hs as [Hw Hs]. pose proof (child_supply w c n Hs) as Ha.
    rewrite (Ring.read_child_any m len w c n) by done.
    rewrite (proj2 (Z.leb_le n _) Ha), Z.min_l by lia.
    eexists. split; [reflexivity|]. by eexists.
Qed.

Lemma moved_readable len g n g' : Ring.readable g len -> moved len g n g' -> Ring.readable g' len.
Proof.
  destruct g as [r|c], g' as [r'|c']; try done; cbn [moved Ring.readable].
  - intros (Hok & Hp & Hw & Hr) ->. cbn. split; [by apply Ring.readable_wrap|].
    split; [apply add32_range|done].
  - intros (Hok & Hp) [cache ->]. cbn. split; [by apply Ring.readable_wrap|apply add32_range].
Qed.

Lemma moved_supplied m w len g n k g' :
  0 <= n -> 0 <= k -> supplied m w g (n + k) -> moved len g n g' -> supplied m w g' k.
Proof.
  intros Hn Hk. destruct g as [r|c], g' as [r'|c']; try done; cbn [moved supplied].
  - by intros Hs ->.
  - intros [Hw Hs] [cache ->]. split; [done|].
    cbn [Ring.child_at Ring.c_read_count]. rewrite sub32_add by lia. lia.
Qed.

Lemma moved_trans len g n k g1 g2 :
  moved len g n g1 -> moved len g1 k g2 -> moved len g (n + k) g2.
Proof.
  assert (forall o, Ring.ring_next len (Ring.ring_next len o n) k = Ring.ring_next len o (n + k)) as Ho.
  { intros o. unfold Ring.ring_next. rewrite Zplus_mod_idemp_l. f_equal. lia. }
  destruct g as [r|c], g1 as [r1|c1], g2 as [r2|c2]; try done; cbn [moved].
  - intros -> ->. cbn [Ring.root_at Ring.r_read_offset Ring.r_pending_advance].
    unfold Ring.root_at. cbn. by rewrite Ho, add32_add.
  - intros [ca ->] [cb ->]. exists cb. cbn [Ring.child_at Ring.c_read_offset Ring.c_read_count].
    unfold Ring.child_at. cbn. by rewrite Ho, add32_add.
Qed.

Lemma moved_base len g n g' : moved len g n g' -> ring_base g' = ring_base g.
Proof. destruct g, g'; try done; cbn; [by intros ->|by intros [? ->]]. Qed.

Lemma moved_cursor len g n g' :
  moved len g n g' -> Ring.latch_offset g' = Ring.ring_next len (Ring.latch_offset g) n.
Proof. destruct g, g'; try done; cbn; [by intros ->|by intros [? ->]]. Qed.

Lemma moved_rewind len g n g' :
  moved len g n g' -> Ring.committed g ->
  Ring.latch_offset (Ring.rewind g') = Ring.latch_offset g /\ Ring.committed (Ring.rewind g').
Proof.
  destruct g, g'; try done; cbn; [intros -> [? ?]|intros [? ->] [? ?]]; cbn; done.
Qed.

(** What follows the first [n] bytes is what the moved ring holds. *)
Lemma moved_data m len g n k g' :
  0 <= n -> 0 <= k -> moved len g n g' ->
  ring_data m len g (n + k) = ring_data m len g n ++ ring_data m len g' k.
Proof.
  intros Hn Hk Hm. unfold ring_data. rewrite (moved_base _ _ _ _ Hm), (moved_cursor _ _ _ _ Hm).
  rewrite (Ring.ring_bytes_split _ _ _ _ n (n + k)) by lia. f_equal.
  replace (n + k - n) with k by lia. apply Ring.ring_bytes_mod.
  unfold Ring.ring_next. by rewrite Zmod_mod.
Qed.

Lemma length_ring_data m len g n : 0 <= n -> Z.of_nat (length (ring_data m len g n)) = n.
Proof. intros Hn. unfold ring_data. rewrite Ring.length_ring_bytes. lia. Qed.

Section Turns.
Context {clients : FifoClients} (stopped : FifoDeathKind) (task_ended : bool).

(** The ring's next bytes are a whole command the thread accepts: its header, its
    barriers and its payload, in a ring it may read. *)
Record fetched (m : memory) (nw : Z) (f : Fifo) (c : Wire.FifoCommand)
    (barriers body : list byte) : Prop := {
  fe_live : f_quiesced f = false;
  fe_readable : Ring.readable (f_ring f) (f_ring_length f);
  fe_supplied : supplied m nw (f_ring f) (Wire.clength c);
  fe_ok : Wire.command_ok c;
  fe_data : ring_data m (f_ring_length f) (f_ring f) (Wire.clength c) =
    Wire.command_bytes c ++ barriers ++ body;
  fe_barriers : Z.of_nat (length barriers) = 8 * Wire.barrier_count c;
  fe_count : Wire.barrier_count c <= 64;
  fe_length : Wire.clength c <= f_ring_length f;
}.

(** The FIFO once the command is read. *)
Definition after_read (f : Fifo) (g : Ring.Ring) : Fifo :=
  with_ring (with_command_offset f (Ring.latch_offset (f_ring f))) g.

Lemma length_command_bytes c : length (Wire.command_bytes c) = 12%nat.
Proof. unfold Wire.command_bytes. by rewrite !length_app, !length_le_bytes. Qed.

Lemma fetched_lengths m nw f c barriers body :
  fetched m nw f c barriers body ->
  Wire.clength c = 12 + Z.of_nat (length barriers) + Z.of_nat (length body).
Proof.
  intros [_ _ _ Hok Hd _ _ _]. destruct Hok as (_ & _ & HL & _).
  pose proof (length_ring_data m (f_ring_length f) (f_ring f) (Wire.clength c) ltac:(lia)) as Hl.
  rewrite Hd, !length_app, length_command_bytes in Hl. lia.
Qed.

(** One part of a command: a full read of its bytes, the rest still to come. *)
Lemma read_part m nw f cl n k xs ys :
  f_quiesced f = false -> Ring.readable (f_ring f) (f_ring_length f) -> 0 <= n -> 0 <= k ->
  supplied m nw (f_ring f) (n + k) ->
  ring_data m (f_ring_length f) (f_ring f) (n + k) = xs ++ ys -> Z.of_nat (length xs) = n ->
  exists g', moved (f_ring_length f) (f_ring f) n g' /\
    read_ring (MkWorld m f cl) n = Ret (MkWorld m (with_ring f g') cl, xs, Ring.Full) /\
    Ring.readable g' (f_ring_length f) /\ supplied m nw g' k /\
    ring_data m (f_ring_length f) g' k = ys.
Proof.
  intros Hq Hr Hn Hk Hs Hd Hxs.
  assert (supplied m nw (f_ring f) n) as Hs'.
  { destruct (f_ring f); [exact Hs|]. destruct Hs. split; [done|lia]. }
  destruct (read_full m nw _ _ n Hr Hn Hs') as (g' & Hg & Hm). exists g'.
  rewrite (moved_data m _ _ n k g') in Hd by done.
  apply app_inj_1 in Hd as [Hx Hy].
  2: { pose proof (length_ring_data m (f_ring_length f) (f_ring f) n Hn). lia. }
  split_and!; [done| |exact (moved_readable _ _ _ _ Hr Hm)
    |exact (moved_supplied m nw _ _ n k g' Hn Hk Hs Hm)|done].
  unfold read_ring. cbn [mem fifo calls]. by rewrite Hq, Hg, Hx.
Qed.

(** Reading the three parts of a command is reading the command. *)
Lemma turn_reads lives m nw f cl c barriers body :
  fetched m nw f c barriers body ->
  exists g', moved (f_ring_length f) (f_ring f) (Wire.clength c) g' /\
    turn stopped task_ended lives (f_ring_length f) (MkWorld m f cl) =
    run_command stopped task_ended lives (MkWorld m (after_read f g') cl) c
      (Wire.barrier_count c) barriers body.
Proof.
  intros Hf. pose proof (fetched_lengths _ _ _ _ _ _ Hf) as HL.
  destruct Hf as [Hq Hr Hs Hok Hd Hb Hn Hlen].
  set (len := f_ring_length f) in *. set (L := Wire.clength c) in *.
  set (n := Wire.barrier_count c) in *. set (p := Z.of_nat (length body)) in *.
  set (f1 := with_command_offset f (Ring.latch_offset (f_ring f))).
  assert (0 <= n) as Hn0 by (destruct Hok as (_ & ? & _); subst n; lia).
  replace L with (12 + (8 * n + p)) in Hs, Hd by lia.
  destruct (read_part m nw f1 cl 12 (8 * n + p) _ _ Hq Hr ltac:(lia) ltac:(lia) Hs Hd)
    as (g1 & Hm1 & Hr1 & Hrd1 & Hs1 & Hd1); [by rewrite length_command_bytes|].
  unfold turn, latch_offset. cbn [mem fifo calls]. fold f1.
  change Wire.COMMAND_HEADER_SIZE with 12. rewrite Hr1. cbn [mbind outcome_bind].
  rewrite Wire.command_roundtrip, frame_value by done. fold L n.
  rewrite (proj2 (Z.ltb_ge L 12)), (proj2 (Z.ltb_ge len L)), (proj2 (Z.ltb_ge L (12 + 8 * n))),
    (proj2 (Z.ltb_ge 64 n)) by lia. cbn [orb].
  assert (exists g2, moved len (f_ring f) (12 + 8 * n) g2 /\
    (if n =? 0 then Ret (MkWorld m (with_ring f1 g1) cl, [], Ring.Full)
     else read_ring (MkWorld m (with_ring f1 g1) cl) (8 * n)) =
    Ret (MkWorld m (with_ring f1 g2) cl, barriers, Ring.Full) /\
    Ring.readable g2 len /\ supplied m nw g2 p /\ ring_data m len g2 p = body)
    as (g2 & Hm2 & -> & Hrd2 & Hs2 & Hd2).
  { destruct (Z.eqb_spec n 0) as [Hz|Hz].
    - exists g1. rewrite Hz in *. destruct barriers; [|cbn in Hb; lia]. done.
    - destruct (read_part m nw (with_ring f1 g1) cl (8 * n) p barriers body Hq Hrd1
        ltac:(lia) ltac:(lia) Hs1 Hd1 ltac:(lia)) as (g2 & Hm2 & Hr2 & Hrest).
      exists g2. split; [exact (moved_trans _ _ _ _ _ _ Hm1 Hm2)|]. by rewrite Hr2. }
  cbn [mbind outcome_bind].
  replace p with (p + 0) in Hs2, Hd2 by lia. rewrite <- (app_nil_r body) in Hd2.
  destruct (read_part m nw (with_ring f1 g2) cl p 0 body [] Hq Hrd2 ltac:(lia) ltac:(lia)
    Hs2 Hd2 eq_refl) as (g3 & Hm3 & Hr3 & _).
  replace (L - 12 - 8 * n) with p by lia. rewrite Hr3. cbn [mbind outcome_bind].
  exists g3. split; [|done]. replace L with (12 + 8 * n + p) by lia.
  exact (moved_trans _ _ _ _ _ _ Hm2 Hm3).
Qed.

(** What an advance of a ring with [n] bytes read since the last one does. *)
Definition published (m : memory) (g : Ring.Ring) (n : Z) (m2 : memory) (g2 : Ring.Ring) : Prop :=
  match g, g2 with
  | Ring.Root r, Ring.Root r2 => m2 = m /\ Ring.r_read r2 = add32 (Ring.r_read r) n
  | Ring.Child c, Ring.Child c2 =>
      Ring.node c2 = Ring.node c /\ Ring.c_read_count c2 = add32 (Ring.c_read_count c) n /\
      load_seqcst_u32 (R:=Empty_set) m2 (Ring.node c) Ring.NODE_READ_COUNT NodeNull =
        Ret (add32 (Ring.c_read_count c) n)
  | _, _ => False
  end.

Lemma advance_moved m len g n g' m2 g2 :
  Ring.committed g -> moved len g n g' ->
  Ring.advance stopped task_ended m g' = Ret (m2, g2) ->
  Ring.committed g2 /\ Ring.latch_offset g2 = Ring.ring_next len (Ring.latch_offset g) n /\
  published m g n m2 g2.
Proof.
  intros Hc Hm. destruct g as [r|c], g' as [r'|c']; try done; cbn [moved] in Hm.
  - subst r'. destruct Hc as [_ Hp]. intros [= <- <-]. split_and!; try done.
    cbn [Ring.r_read Ring.r_pending_advance Ring.root_at]. rewrite Hp.
    unfold add32, w32. by rewrite Zplus_mod_idemp_r.
  - destruct Hm as [cache ->]. cbn [Ring.advance Ring.child_at Ring.node Ring.c_read_count].
    intros H. inv_bind H. injection H as <- <-.
    apply Ring.store_load_seqcst in Hm as [Hld _]; [|apply add32_range]. done.
Qed.

(** The barriers a turn waits for, and whether the wait lets the command run. *)
Definition barriers_met (lives : bool) (m : memory) (f : Fifo) (cl : list DeviceCall)
    (c : Wire.FifoCommand) (barriers : list byte) (answer : option bool) : Prop :=
  forall g', moved (f_ring_length f) (f_ring f) (Wire.clength c) g' ->
    (if Wire.barrier_count c =? 0 then Some true
     else wait_barriers lives (Wire.MkRecords barriers (Wire.barrier_count c))
            (MkWorld m (after_read f g') cl)) = answer.

Lemma barrier_records m nw f c barriers body :
  fetched m nw f c barriers body ->
  Wire.records_new (T:=Wire.StampWait) barriers (Wire.barrier_count c) =
  Some (Wire.MkRecords barriers (Wire.barrier_count c)).
Proof.
  intros [_ _ _ Hok _ Hb Hn _]. destruct Hok as (_ & Hc & _).
  unfold Wire.records_new. change (Wire.stride (T:=Wire.StampWait)) with 8.
  rewrite mul64_small by (rewrite M64_val; lia).
  by rewrite (proj2 (Z.ltb_ge _ _)) by lia.
Qed.

(** C40: the thread runs a command. When the ring's next bytes are a whole command
    the thread accepts, its barriers are met and its stamp has room, one turn
    latches the command's offset, reads it, publishes exactly its length to the
    guest, pushes its stamp, and runs its handler on exactly its payload, in a
    world where the cursor is at the command after it. *)
Theorem turn_runs_command lives m nw f cl c barriers body q last :
  fetched m nw f c barriers body -> Ring.committed (f_ring f) ->
  barriers_met lives m f cl c barriers (Some true) ->
  Stamps.push_stamp (f_stamps f) (Wire.cstamp c) (Wire.command_id c) = Some (q, last) ->
  exists g', moved (f_ring_length f) (f_ring f) (Wire.clength c) g' /\
    forall m2 g2, Ring.advance stopped task_ended m g' = Ret (m2, g2) ->
      let f2 := with_last_pending (with_stamps (after_read f g2) q) (Wire.cstamp c) in
      turn stopped task_ended lives (f_ring_length f) (MkWorld m f cl) =
        (w ← dispatch c body (MkWorld m2 f2 cl); Ret (w, Next)) /\
      f_command_offset f2 = Ring.latch_offset (f_ring f) /\
      Ring.committed g2 /\
      Ring.latch_offset g2 =
        (Ring.latch_offset (f_ring f) + Wire.clength c) mod f_ring_length f /\
      published m (f_ring f) (Wire.clength c) m2 g2.
Proof.
  intros Hf Hc Hmet Hpush.
  destruct (turn_reads lives m nw f cl c barriers body Hf) as (g' & Hm & Ht).
  exists g'. split; [done|]. intros m2 g2 Hadv f2.
  destruct (advance_moved m _ _ _ _ m2 g2 Hc Hm Hadv) as (H1 & H2 & H3).
  split_and!; try done. rewrite Ht. unfold run_command.
  rewrite (barrier_records m nw f c barriers body Hf).
  specialize (Hmet g' Hm). unfold default, id. rewrite Hmet.
  unfold advance, push_then, push. cbn [mem fifo calls f_ring after_read with_ring].
  rewrite Hadv. cbn [mbind outcome_bind mem fifo calls f_stamps with_ring with_command_offset].
  change (f_stamps (after_read f g')) with (f_stamps f). rewrite Hpush.
  assert (last = Wire.cstamp c) as ->.
  { unfold Stamps.push_stamp in Hpush. case_if; [done|]. by injection Hpush as _ <-. }
  done.
Qed.

(** A command whose barriers are not met is read again. The turn ends the
    loop with nothing published, nothing pushed and no memory written, and the
    rewind at the loop's end puts the cursor back at the command. *)
Theorem turn_unmet_barrier lives m nw f cl c barriers body :
  fetched m nw f c barriers body -> Ring.committed (f_ring f) ->
  barriers_met lives m f cl c barriers (Some false) ->
  exists g', turn stopped task_ended lives (f_ring_length f) (MkWorld m f cl) =
      Ret (MkWorld m (after_read f g') cl, Stop) /\
    Ring.latch_offset (Ring.rewind g') = Ring.latch_offset (f_ring f) /\
    Ring.committed (Ring.rewind g').
Proof.
  intros Hf Hc Hmet.
  destruct (turn_reads lives m nw f cl c barriers body Hf) as (g' & Hm & Ht).
  exists g'. split; [|by eapply moved_rewind]. rewrite Ht. unfold run_command.
  rewrite (barrier_records m nw f c barriers body Hf).
  specialize (Hmet g' Hm). unfold default, id. by rewrite Hmet.
Qed.
End Turns.

(** How a header is framed. The three answers are decided by the length and
    the barrier count alone, and a command that is read has at most 64 barriers
    (512 bytes of them), a payload shorter than the ring, and parts that add up
    to its length: both of the thread's buffers hold what it reads. *)
Theorem frame_decides c ring_length :
  Wire.command_ok c ->
  let L := Wire.clength c in
  let n := Wire.barrier_count c in
  (frame c ring_length = Skip <-> L < 12 \/ ring_length < L) /\
  (frame c ring_length = FrameFault <-> 12 <= L <= ring_length /\ (L < 12 + 8 * n \/ 64 < n)) /\
  (forall bc bl pl, frame c ring_length = Read bc bl pl <->
     12 <= L <= ring_length /\ n <= 64 /\ bc = n /\ bl = 8 * n /\ 0 <= pl /\ 12 + bl + pl = L) /\
  (forall bc bl pl, frame c ring_length = Read bc bl pl ->
     0 <= bl <= Wire.BARRIER_BYTES_MAX /\ 0 <= pl < ring_length).
Proof.
  intros Hok L n. rewrite frame_value by done. fold L n.
  destruct Hok as (_ & Hn & HL & _). fold n in Hn. fold L in HL.
  unfold Wire.BARRIER_BYTES_MAX.
  destruct (Z.ltb_spec L 12), (Z.ltb_spec ring_length L), (Z.ltb_spec L (12 + 8 * n)),
    (Z.ltb_spec 64 n); cbn [orb];
    (split_and!; [split; (done || lia)|split; (done || lia)| |]);
    intros bc bl pl; try (split; [done|lia]); try (intros Hx; discriminate);
    try (split; [intros [= <- <- <-]; lia|intros ?; f_equal; lia]);
    intros [= <- <- <-]; lia.
Qed.

(** A root FIFO over [length] bytes of the root page, its ring from
    [start_offset]: refused exactly when the ring would be empty; otherwise its
    ring is the bytes from [start_offset] to [length], nothing read, nothing
    pending and no fault. *)
Theorem new_root_spec length base start_offset last_pending :
  u32 length -> u32 start_offset -> ZERO_REGION_END <= base -> base + length < M64 ->
  (try_new_root_on length base start_offset last_pending = None <-> length <= start_offset) /\
  forall f, try_new_root_on length base start_offset last_pending = Some f ->
    f_ring_length f = length - start_offset /\ ring_base (f_ring f) = base + start_offset /\
    Ring.readable (f_ring f) (f_ring_length f) /\ Ring.committed (f_ring f) /\
    Ring.latch_offset (f_ring f) = 0 /\ Ring.fault_offset (f_ring f) = Ring.NO_FAULT_OFFSET /\
    Stamps.wf (f_stamps f) /\ Stamps.pending (f_stamps f) = [].
Proof.
  intros Hl Hs Hb Hbl. unfold try_new_root_on, init_root.
  pose proof M32_val. pose proof M64_val. unfold ZERO_REGION_END in *.
  destruct (Z.leb_spec length start_offset); split; try (split; (done || lia)); try done.
  intros f [= <-]. cbn [build f_ring f_ring_length f_stamps ring_base Ring.root_new Ring.r_base].
  assert (sub32 length start_offset = length - start_offset) as -> by (apply sub32_small; lia).
  assert (offset base start_offset = base + start_offset) as ->
    by (unfold offset; apply add64_small; lia).
  split_and!; try done; try apply Stamps.wf_new.
  cbn [Ring.readable Ring.root_new Ring.r_base Ring.r_read_offset Ring.r_pending_advance
    Ring.r_written Ring.r_read].
  split; [|done]. split; unfold ZERO_REGION_END; lia.
Qed.

(** ** A fault and its resume *)

Lemma first_found v p l :
  Stamps.stamp_value p = v ->
  List.find (fun p => Stamps.stamp_value p =? v) (p :: l) = Some p.
Proof. intros Hv. cbn. by rewrite (proj2 (Z.eqb_eq _ v)). Qed.

Lemma fault_head q v off p l :
  Stamps.wf q -> Stamps.pending q = p :: l -> Stamps.stamp_value p = v ->
  Stamps.signaled p = false -> Stamps.faulted p = false ->
  Stamps.latched q = false -> Stamps.quiesced q = false -> off < 2 ^ 31 ->
  exists q1, Stamps.fault_stamp q v off = Ret (q1, [Stamps.Fault (off mod 2 ^ 30)]) /\
    Stamps.wf q1 /\ Stamps.quiesced q1 = false /\
    Stamps.pending q1 = Stamps.set_offset (Stamps.set_faulted p true) off :: l.
Proof.
  intros Hwf Hp Hv Hs Hf Hl Hq Ho.
  set (g := fun p => Stamps.set_offset (Stamps.set_faulted p true) off).
  pose proof (Stamps.mark_tail_spec q v g FaultSignalled FaultTwice Hwf
    (Stamps.slot_ok_faulted off)) as Hm.
  rewrite Hp, first_found, Hs, Hf in Hm by done. destruct Hm as (q1 & evs & Hret & Hwf1 & Habs).
  unfold Stamps.Spec.mark_and_pump, Stamps.abs in Habs.
  cbn [Stamps.Spec.items Stamps.Spec.latch Stamps.Spec.quiet] in Habs.
  rewrite Hp, Hl, Hq in Habs. cbn [Stamps.Spec.mark] in Habs.
  rewrite (proj2 (Z.eqb_eq _ v) Hv) in Habs. unfold Stamps.Spec.spec_pump in Habs.
  cbn [Stamps.Spec.items Stamps.Spec.latch Stamps.Spec.quiet Stamps.Spec.split_done] in Habs.
  assert (Stamps.faulted (g p) = true /\ Stamps.signaled (g p) = false) as [Hgf Hgs].
  { unfold g. rewrite Stamps.faulted_set_offset, Stamps.faulted_set_faulted,
      Stamps.signaled_set_offset, Stamps.signaled_set_faulted. done. }
  unfold Stamps.Spec.done in Habs. rewrite Hgf, Hgs in Habs.
  cbn [orb andb Stamps.Spec.report negb] in Habs. rewrite Hgf in Habs.
  cbn [andb negb] in Habs. unfold g in Habs at 2. rewrite Stamps.offset_set_offset in Habs.
  injection Habs as Hp1 Hl1 Hq1 <-. exists q1. split_and!; try done.
  unfold Stamps.fault_stamp. rewrite Stamps.pending_count_0, Hp by done.
  rewrite (proj2 (Z.ltb_lt off 0x80000000)) by lia. exact Hret.
Qed.

Lemma resume_head q p l a b :
  Stamps.wf q -> Stamps.pending q = p :: l -> Stamps.faulted p = true ->
  Stamps.quiesced q = false ->
  Stamps.Spec.split_done false l = (a, b) -> Stamps.Spec.report false b = None ->
  exists q2, Stamps.resume_from_fault q =
      (q2, [Stamps.Signal (Stamps.last_value (Stamps.stamp_value p) a); Stamps.WakeRoom] ++
           match b with [] => [Stamps.WakeDrained] | _ => [] end) /\
    Stamps.pending q2 = b.
Proof.
  intros Hwf Hp Hf Hq Hsplit Hrep. pose proof (Stamps.resume_refines q Hwf) as Hr.
  destruct (Stamps.resume_from_fault q) as [q2 evs]. destruct Hr as [_ Hr].
  unfold Stamps.Spec.resume, Stamps.abs in Hr. cbn [Stamps.Spec.items Stamps.Spec.quiet] in Hr.
  rewrite Hp, Hf, Hq in Hr. unfold Stamps.Spec.spec_pump in Hr.
  cbn [Stamps.Spec.items Stamps.Spec.latch Stamps.Spec.quiet Stamps.Spec.split_done] in Hr.
  unfold Stamps.Spec.done in Hr. rewrite Stamps.signaled_set_signaled in Hr. cbn [orb] in Hr.
  rewrite Hsplit, Hrep in Hr. cbn [app] in Hr. injection Hr as Hp2 _ _ <-.
  exists q2. split; [|done]. f_equal. unfold Stamps.Spec.published.
  set (p' := Stamps.set_signaled _ true).
  destruct (list.last (p' :: a)) as [x|] eqn:E; [|by apply last_None in E].
  assert (Stamps.last_value 0 (p' :: a) = Stamps.stamp_value x) as Hx
    by (unfold Stamps.last_value; by rewrite E).
  rewrite Stamps.last_value_cons in Hx. by rewrite <- Hx.
Qed.

Section Faults.
Context (stopped : FifoDeathKind) (task_ended : bool).

(** The root's ring with its fault offset set. *)
Definition faulted_ring (r : Ring.RootRing) (off : Z) : Ring.Ring :=
  Ring.Root (Ring.MkRootRing (Ring.start_offset r) (Ring.r_base r) (Ring.r_read_offset r)
    (Ring.r_last_read_offset r) (Ring.r_written r) (Ring.r_read r) (Ring.r_pending_advance r) off).

(** A fault of the root's head command and the resume of it. The fault is
    reported at once: the low 30 bits of its offset are in the ring's fault
    register, the device is told, nothing is published and the stamp stays
    pending. The resume clears the register and publishes the stamp, with the
    completed stamps right behind it, as one signal of the last of them. *)
Theorem fault_then_resume m f cl r v off p l a b :
  f_ring f = Ring.Root r -> Stamps.wf (f_stamps f) ->
  Stamps.pending (f_stamps f) = p :: l -> Stamps.stamp_value p = v ->
  Stamps.signaled p = false -> Stamps.faulted p = false ->
  Stamps.latched (f_stamps f) = false -> Stamps.quiesced (f_stamps f) = false ->
  0 <= off < 2 ^ 31 ->
  Stamps.Spec.split_done false l = (a, b) -> Stamps.Spec.report false b = None ->
  exists q1 q2,
    fault_at_offset stopped task_ended (MkWorld m f cl) off v =
      Ret (MkWorld m (with_ring (with_stamps f q1) (faulted_ring r (off mod 2 ^ 30)))
             (cl ++ [SignalFaultInFifo])) /\
    map Stamps.stamp_value (Stamps.pending q1) = v :: map Stamps.stamp_value l /\
    resume stopped task_ended
      (MkWorld m (with_ring (with_stamps f q1) (faulted_ring r (off mod 2 ^ 30)))
         (cl ++ [SignalFaultInFifo])) =
      Ret (MkWorld m (with_ring (with_stamps f q2) (faulted_ring r Ring.NO_FAULT_OFFSET))
             (cl ++ [SignalFaultInFifo;
                     SignalStamp ROOT_STAMP_INDEX (Stamps.last_value v a)])) /\
    Stamps.pending q2 = b.
Proof.
  intros Hring Hwf Hp Hv Hs Hf Hl Hq Ho Hsplit Hrep.
  destruct (fault_head _ v off p l Hwf Hp Hv Hs Hf Hl Hq ltac:(lia))
    as (q1 & Hfault & Hwf1 & Hq1 & Hp1).
  destruct (resume_head q1 _ l a b Hwf1 Hp1) as (q2 & Hres & Hp2); try done.
  { by rewrite Stamps.faulted_set_offset, Stamps.faulted_set_faulted. }
  cbn [Stamps.stamp_value Stamps.set_offset Stamps.set_faulted Stamps.with_flags] in Hres.
  rewrite Hv in Hres. exists q1, q2. split_and!; [| | |done].
  - unfold fault_at_offset, of_queue. cbn [mem fifo calls]. rewrite Hfault.
    cbn. by rewrite Hring.
  - rewrite Hp1. cbn. by rewrite Hv.
  - change (resume stopped task_ended _) with (of_queue stopped task_ended
      (MkWorld m (with_ring (with_stamps f q1) (faulted_ring r Ring.NO_FAULT_OFFSET))
        (cl ++ [SignalFaultInFifo])) (Ret (Stamps.resume_from_fault q1))).
    rewrite Hres. unfold of_queue. cbn [mbind outcome_bind mem fifo calls].
    by destruct b; cbn; rewrite <- app_assoc.
Qed.
End Faults.

(** ** Witnesses: a command of 24 bytes with one barrier, from byte 56 of a ring of
    64, so that its header wraps. *)

Definition sample_command : Wire.FifoCommand := Wire.MkFifoCommand 30 1 24 9.
Definition sample_barriers : list byte := le_bytes 4 1 ++ le_bytes 4 2.
Definition sample_body : list byte := le_bytes 4 77.
Definition sample_data : list byte :=
  Wire.command_bytes sample_command ++ sample_barriers ++ sample_body.
Definition sample_mem : memory := fun a =>
  default x00 (sample_data !! Z.to_nat ((a - 0x200000000 - 56) mod 64)).
Definition sample_ring : Ring.RootRing :=
  Ring.MkRootRing 0 0x200000000 56 56 100 56 0 Ring.NO_FAULT_OFFSET.
Definition sample_fifo : Fifo :=
  MkFifo (Ring.Root sample_ring) Stamps.new 0 true false 64 0 None [].

(** Clients whose waits answer [ok] and whose handlers do nothing. *)
Definition sample_clients (ok : bool) : FifoClients := {|
  wait_stamps _ _ := Some ok;
  dispatch _ _ w := Ret w;
|}.

Lemma sample_fetched : fetched sample_mem 0 sample_fifo sample_command sample_barriers sample_body.
Proof.
  split; try done.
Qed.

Lemma turn_runs_command_witness :
  let f := sample_fifo in
  exists q last, Stamps.push_stamp (f_stamps f) 9 30 = Some (q, last) /\
  exists g' g2, Ring.advance NodeNull false sample_mem g' = Ret (sample_mem, g2) /\
    turn (clients:=sample_clients true) NodeNull false true 64 (MkWorld sample_mem f []) =
      Ret (MkWorld sample_mem
             (with_last_pending (with_stamps (after_read f g2) q) 9) [], Next) /\
    Ring.latch_offset g2 = 16.
Proof.
  destruct (Stamps.push_stamp (f_stamps sample_fifo) 9 30) as [[q last]|] eqn:Eq;
    [|vm_compute in Eq; discriminate].
  exists q, last. split; [exact Eq|].
  destruct (turn_runs_command (clients:=sample_clients true) NodeNull false true sample_mem 0
    sample_fifo [] sample_command sample_barriers sample_body q last sample_fetched)
    as (g' & Hm & H); [done| |exact Eq|].
  { intros g' _. reflexivity. }
  destruct g' as [r|c]; [|destruct Hm]. cbn [Ring.advance] in H.
  specialize (H _ _ eq_refl). destruct H as (Ht & _ & _ & Hl & _).
  eexists (Ring.Root r), _. split; [reflexivity|]. split; [exact Ht|].
  rewrite Hl. vm_compute. reflexivity.
Defined.

Lemma turn_unmet_barrier_witness :
  exists g', turn (clients:=sample_clients false) NodeNull false true 64
      (MkWorld sample_mem sample_fifo []) =
      Ret (MkWorld sample_mem (after_read sample_fifo g') [], Stop) /\
    Ring.latch_offset (Ring.rewind g') = 56.
Proof.
  destruct (turn_unmet_barrier (clients:=sample_clients false) NodeNull false true sample_mem 0
    sample_fifo [] sample_command sample_barriers sample_body sample_fetched) as (g' & H1 & H2 & _).
  - done.
  - intros g' _. reflexivity.
  - exists g'. split; [exact H1|exact H2].
Defined.

Lemma frame_decides_witness :
  Wire.command_ok sample_command /\ frame sample_command 64 = Read 1 8 4.
Proof.
  assert (Wire.command_ok sample_command) as Hok by (repeat split; vm_compute; congruence).
  split; [exact Hok|].
  destruct (frame_decides sample_command 64 Hok) as (_ & _ & H & _).
  apply H. vm_compute. repeat split; congruence.
Defined.

Lemma new_root_spec_witness :
  try_new_root_on 0x1000 0x200000000 0x1000 0 = None /\
  exists f, try_new_root_on 0x1000 0x200000000 0x40 0 = Some f /\ f_ring_length f = 0xfc0.
Proof.
  split.
  - apply (new_root_spec 0x1000 0x200000000 0x1000 0); vm_compute; try split; congruence.
  - eexists. split; [reflexivity|].
    destruct (new_root_spec 0x1000 0x200000000 0x40 0) as [_ H];
      [vm_compute; try split; congruence..|].
    destruct (H _ eq_refl) as (Hl & _). rewrite Hl. reflexivity.
Defined.

(** Two stamps pending, 7 before 8; 8 is signalled. *)
Definition sample_faulting : Fifo :=
  MkFifo (Ring.Root sample_ring) (Stamps.sample_state [Stamps.OpPush 7 1; Stamps.OpPush 8 2;
    Stamps.OpSignal 8]) 0 true false 64 0 None [].

Lemma sample_faulting_wf : Stamps.wf (f_stamps sample_faulting).
Proof.
  unfold sample_faulting, Stamps.sample_state. cbn [f_stamps].
  destruct (Stamps.exec_all _ Stamps.new) as [[st evs]|] eqn:E; [|apply Stamps.wf_new].
  eapply Stamps.run_wf; [by apply Stamps.exec_all_run|apply Stamps.wf_new].
Qed.

Lemma fault_then_resume_witness :
  exists q1 q2,
    fault_at_offset NodeNull false (MkWorld sample_mem sample_faulting []) (2 ^ 30 + 5) 7 =
      Ret (MkWorld sample_mem (with_ring (with_stamps sample_faulting q1)
             (faulted_ring sample_ring 5)) [SignalFaultInFifo]) /\
    resume NodeNull false (MkWorld sample_mem (with_ring (with_stamps sample_faulting q1)
             (faulted_ring sample_ring 5)) [SignalFaultInFifo]) =
      Ret (MkWorld sample_mem (with_ring (with_stamps sample_faulting q2)
             (faulted_ring sample_ring Ring.NO_FAULT_OFFSET))
             [SignalFaultInFifo; SignalStamp ROOT_STAMP_INDEX 8]).
Proof.
  destruct (fault_then_resume NodeNull false sample_mem sample_faulting [] sample_ring 7
    (2 ^ 30 + 5) (Stamps.MkPendingStamp 7 1 0) [Stamps.MkPendingStamp 8 2 1]
    [Stamps.MkPendingStamp 8 2 1] []) as (q1 & q2 & H1 & _ & H2 & _).
  - reflexivity.
  - exact sample_faulting_wf.
  - vm_compute. reflexivity.
  - reflexivity.
  - reflexivity.
  - reflexivity.
  - vm_compute. reflexivity.
  - vm_compute. reflexivity.
  - split; reflexivity || (vm_compute; congruence).
  - reflexivity.
  - reflexivity.
  - exists q1, q2. split; [exact H1|exact H2].
Defined.

End Fifo.
