(* ===== verification/Commands.v ===== *)
(** * Commands: the opcode table and the handlers
    (src/crates/reims-vgpu-core/src/fifo/commands.rs and fifo/commands/)

    A handler reads its payload, checks it, asks the device, the tasks and the
    guest displays, and settles its stamp: signals it, faults it, or hands a task
    a completion. A handler's run is the trace of what it asks and how
    it settles; what a client answers (it did, it refused, it raised, before or after
    it handed its completion on) is the parameter [answer]. A task, a guest display or a record list is named by what
    the handler looked it up or read it with. Pools, holders and log lines are
    not modelled. *)

From S2P Require Import Prelude Num FifoKinds GuestRecords Wire.
Import Wire.

Module Commands.
Import FifoDeath.

(** ** The opcode table *)

Inductive Opcode : Type :=
| Debug | DisplaySetSharedStatePage | DisplayAck | DisplayCursorGlyph | DisplayCursorShow
| DisplayTransaction2 | DisplayTransaction3 | DisplaySwapMapping | DisplaySleepState
| DisplaySetProperties | DisplayCompositorParameters | DisplaySetGuestIccProfile | Nop
| Deprecated | DeleteTask | UnmapMemory | DeleteResource | DeleteObject | DefineChildFifo
| DeleteChildFifo | SetObjectList | InvalidateResources | SynchronizeResources
| DeleteIoSurfaceBacking2 | ExecIndirect2 | DefineTask2 | MapMemory2 | GetDeviceInfo
| GetComputeInfo | ReplacePhysical | Delay | SynchronizeAndDiscardResources
| DiscardResources | HeapTextureSizeAndAlign | DeleteSharedTextureBacking
| ResetRasterizationRateMap | ExecIndirect3 | SetObjectAndPlacementList | InfoIndirect.

Definition from_id (id : Z) : option Opcode :=
  match id with
  | 0 => Some Debug
  | 1 => Some DisplaySetSharedStatePage
  | 2 => Some DisplayAck
  | 4 => Some DisplayCursorGlyph
  | 5 => Some DisplayCursorShow
  | 6 => Some DisplayTransaction2
  | 7 => Some DisplayTransaction3
  | 8 => Some DisplaySwapMapping
  | 9 => Some DisplaySleepState
  | 10 => Some DisplaySetProperties
  | 11 => Some DisplayCompositorParameters
  | 12 => Some DisplaySetGuestIccProfile
  | 30 => Some Nop
  | 3 | 31 | 33 | 35 | 36 | 38 | 39 | 41 | 42 | 43 | 44 | 45 | 46 | 47 | 50 => Some Deprecated
  | 32 => Some DeleteTask
  | 34 => Some UnmapMemory
  | 37 => Some DeleteResource
  | 40 => Some DeleteObject
  | 48 => Some DefineChildFifo
  | 49 => Some DeleteChildFifo
  | 51 => Some SetObjectList
  | 52 => Some InvalidateResources
  | 53 => Some SynchronizeResources
  | 54 => Some DeleteIoSurfaceBacking2
  | 55 => Some ExecIndirect2
  | 56 => Some DefineTask2
  | 57 => Some MapMemory2
  | 58 => Some GetDeviceInfo
  | 59 => Some GetComputeInfo
  | 60 => Some ReplacePhysical
  | 61 => Some Delay
  | 62 => Some SynchronizeAndDiscardResources
  | 63 => Some DiscardResources
  | 64 => Some HeapTextureSizeAndAlign
  | 65 => Some DeleteSharedTextureBacking
  | 66 => Some ResetRasterizationRateMap
  | 67 => Some ExecIndirect3
  | 68 => Some SetObjectAndPlacementList
  | 69 => Some InfoIndirect
  | _ => None
  end.

(** ** What a handler asks *)

(** A record of [n] bytes in a payload. *)
Definition Raw (n : nat) : Type := list byte.
#[global] Instance raw_record n : WireRecord (Raw n) := {|
  stride_nat := n; encode bs := bs; decode bs := bs;
|}.

Inductive TaskRef : Type := AnyTask (id : Z) | UserTask (id : Z) | KernelTask.
Inductive ExecKind : Type := Exec2 | Exec3 | Info.

Record GlyphArgs := MkGlyphArgs {
  g_virtual_offset : Z; g_mapped_length : Z; g_stride : Z; g_width : Z; g_height : Z;
  g_hot_spot_x : Z; g_hot_spot_y : Z; g_sum : Z;
}.
Record GammaArgs := MkGammaArgs {
  t_virtual_offset : Z; t_mapped_length : Z; t_entry_count : Z; t_sum : Z;
}.
Definition no_gamma : GammaArgs := MkGammaArgs 0 0 0 0.

Inductive Request : Type :=
(* lookups *)
| LookupTask (t : TaskRef)
| LookupDisplay (port : Z)
(* the device *)
| CreateFifo (index : Z)
| DeleteFifo (index : Z)
| GetInfo (a b c : Z)
| DeleteTaskId (id : Z)
| CreateTaskId (id depth root : Z)
| SetSharedPage (page port : Z)
(* a guest display *)
| Ack (port value : Z)
| CursorGlyph (port : Z) (args : GlyphArgs)
| CursorShow (port shown : Z)
| PresentSurface (port surface : Z) (gamma : GammaArgs)
| PresentMapped (port offset : Z) (gamma : GammaArgs)
| SetProperty (port property : Z) (words : Records (Raw 4))
| SleepState (port state : Z)
| Compositor (port offset x y flag : Z)
| IccProfile (port length offset : Z)
(* a task, with the command's completion *)
| Unmap (t : TaskRef) (offset length : Z)
| Map_ (t : TaskRef) (offset length : Z)
| DeleteRes (t : TaskRef) (resource : Z)
| DeleteObj (t : TaskRef) (data : list byte)
| ObjectList (t : TaskRef) (offset count placement_offset placement_count : Z)
| Invalidate (t : TaskRef) (records : Records (Raw 8))
| Synchronize (t : TaskRef) (records : Records (Raw 4)) (discard : bool)
| Discard (t : TaskRef) (records : Records (Raw 4))
| DeleteBacking (surface : Z)
| ComputeInfo (t : TaskRef) (a b c d : Z)
| ReplacePhys (t : TaskRef) (resource : Z)
| HeapSize (t : TaskRef) (descriptor : list byte) (a b : Z)
| ResetRateMap (t : TaskRef) (resource : Z)
| Exec2Call (t : TaskRef) (resources : Records (Raw 24)) (buffers : Records (Raw 16))
| Exec3Call (info : bool) (t : TaskRef) (resources : Records (Raw 8)) (buffers : Records (Raw 16)).

(** Whether the request carries the command's completion. *)
Definition hands (r : Request) : bool :=
  match r with
  | Unmap _ _ _ | Map_ _ _ _ | DeleteRes _ _ | DeleteObj _ _ | ObjectList _ _ _ _ _
  | Invalidate _ _ | Synchronize _ _ _ | Discard _ _ | DeleteBacking _
  | ComputeInfo _ _ _ _ _ | ReplacePhys _ _ | HeapSize _ _ _ _ | ResetRateMap _ _
  | Exec2Call _ _ _ | Exec3Call _ _ _ _ => true
  | _ => false
  end.

(** ** A handler's run *)

(** A raise says whether the call had handed its completion on when it came: a task's
    synchronize can still raise after its paging buffer took the completion. *)
Inductive Reply : Type := Yes | No | Raises (handed : bool).

Inductive Event : Type :=
| Asked (r : Request) (reply : Reply)
| Signalled
| Faulted.

(** A raise of the handler's own, or one out of a client; the ends of the
    process: a gone device, a raise no handler takes, or (the model's) a loop out
    of fuel. *)
Inductive CmdRaise : Type := Own (k : FifoRaiseKind) | Clients.
Inductive CmdDeath : Type := Gone | Uncaught | Fuel.

Inductive hresult (A : Type) : Type :=
| Good (a : A)
| Thrown (r : CmdRaise)
| Dead (d : CmdDeath).
Arguments Good {A} a.
Arguments Thrown {A} r.
Arguments Dead {A} d.

Definition M (A : Type) : Type := list Event -> list Event * hresult A.
#[global] Instance M_ret : MRet M := fun A a tr => (tr, Good a).
#[global] Instance M_bind : MBind M := fun A B f m tr =>
  match m tr with
  | (tr, Good a) => f a tr
  | (tr, Thrown r) => (tr, Thrown r)
  | (tr, Dead d) => (tr, Dead d)
  end.
Definition throw {A} (k : FifoRaiseKind) : M A := fun tr => (tr, Thrown (Own k)).
Definition die {A} (d : CmdDeath) : M A := fun tr => (tr, Dead d).
Definition emit (e : Event) : M unit := fun tr => (tr ++ [e], Good tt).

(** ** Lengths *)

Definition mul_add_overflows (a b c : Z) : Z * bool :=
  let exact := add64 (mul64 a b) c in (Num.low_u32 exact, M32 - 1 <? exact).
Definition add3_overflows (a b c : Z) : Z * bool :=
  let exact := add64 (add64 a b) c in (Num.low_u32 exact, M32 - 1 <? exact).
Definition overflowing_add32 (a b : Z) : Z * bool := (add32 a b, M32 <=? a + b).
Definition overflowing_mul32 (a b : Z) : Z * bool := (mul32 a b, M32 <=? a * b).

Section Handlers.
Context {target : GuestRecords.Target}.
(** The device's features as the command reads them, whether the device still has
    an owner, whether the FIFO is the root, and what the clients answer. *)
Context (features : GuestRecords.GuestFeatures) (device_lives is_root : bool)
  (answer : list Event -> Request -> Reply).

Definition call (r : Request) : M bool := fun tr =>
  let reply := answer tr r in
  (tr ++ [Asked r reply],
   match reply with Yes => Good true | No => Good false | Raises _ => Thrown Clients end).

Definition device : M unit := if device_lives then mret tt else die Gone.
Definition ask (r : Request) : M unit := _ ← call r; mret tt.
(** A request through the device. *)
Definition ask_device (r : Request) : M bool := _ ← device; call r.
Definition read_features : M GuestRecords.GuestFeatures := _ ← device; mret features.

Definition check_size_of (size expected : Z) : M unit :=
  if size <? expected then throw CommandLength else mret tt.
Definition check_size (p : list byte) (expected : Z) : M unit :=
  check_size_of (Z.of_nat (length p)) expected.
Definition gate (supported : bool) : M unit :=
  if supported then mret tt else throw Unsupported.

Definition task (id : Z) : M TaskRef := _ ← ask_device (LookupTask (AnyTask id)); mret (AnyTask id).
Definition user_task (id : Z) : M TaskRef :=
  _ ← ask_device (LookupTask (UserTask id)); mret (UserTask id).
Definition kernel_task : M TaskRef := _ ← ask_device (LookupTask KernelTask); mret KernelTask.
Definition guest_display (port : Z) : M Z := _ ← ask_device (LookupDisplay port); mret port.

Definition signal : M unit := emit Signalled.

(** The F class: a raise faults the stamp; [None] then. *)
Definition f_class {A} (body : M A) : M (option A) := fun tr =>
  match body tr with
  | (tr, Good a) => (tr, Good (Some a))
  | (tr, Thrown _) => (tr ++ [Faulted], Good None)
  | (tr, Dead d) => (tr, Dead d)
  end.
Definition run_f (body : M unit) : M unit := _ ← f_class body; mret tt.

(** The S class: the stamp is signalled whatever happened. *)
Definition s_class (body : M unit) : M unit := fun tr =>
  match body tr with
  | (tr, Dead d) => (tr, Dead d)
  | (tr, _) => signal tr
  end.

(** ** The debug, no-op, delay, child FIFO and device info commands *)

Definition invalid : M unit := emit Faulted.
Definition deprecated : M unit := emit Faulted.

Definition debug (p : list byte) : M unit := run_f (_ ← check_size p 1; signal).
Definition nop : M unit := signal.
(** The stamp is never completed. *)
Definition delay (p : list byte) : M unit := run_f (check_size p 8).

Definition define_child_fifo (p : list byte) : M unit := run_f (
  if negb is_root then throw NotRoot
  else
    _ ← check_size p 4;
    made ← ask_device (CreateFifo (p_u32 p 0));
    if negb made then throw CreateChild else signal).
Definition delete_child_fifo (p : list byte) : M unit := run_f (
  if negb is_root then throw NotRoot
  else
    _ ← check_size p 4;
    deleted ← ask_device (DeleteFifo (p_u32 p 0));
    if negb deleted then throw DeleteChild else signal).
Definition get_device_info (p : list byte) : M unit := run_f (
  _ ← check_size p 12;
  _ ← ask_device (GetInfo (p_u32 p 0) (p_u32 p 4) (p_u32 p 8));
  signal).

(** ** The task commands *)

Definition delete_task (p : list byte) : M unit := run_f (
  _ ← check_size p 4;
  deleted ← ask_device (DeleteTaskId (p_u32 p 0));
  if negb deleted then throw FifoDeath.DeleteTask else signal).
Definition unmap_memory (p : list byte) : M unit := run_f (
  _ ← check_size p 20;
  t ← task (p_u32 p 0);
  ask (Unmap t (p_u64 p 4) (p_u64 p 12))).
Definition delete_resource (p : list byte) : M unit := run_f (
  _ ← check_size p 8;
  t ← task (p_u32 p 0);
  ask (DeleteRes t (p_u32 p 4))).
Definition delete_object (p : list byte) : M unit := run_f (
  _ ← check_size p 12;
  let declared := p_u32 p 8 in
  let '(length, overflow) := overflowing_add32 declared 4 in
  if (overflow : bool) then throw Overflow
  else
    _ ← check_size p length;
    t ← task (p_u32 p 0);
    ask (DeleteObj t (tail p 4))).
Definition set_object_list (p : list byte) : M unit := run_f (
  _ ← check_size p 12;
  t ← task (p_u32 p 0);
  ask (ObjectList t (shl64 (p_u32 p 4) GuestRecords.APV_PAGE_SHIFT) (p_u32 p 8) 0 0)).

(** A resource list's header, then [count * record + 8] bytes; the count. *)
Definition check_resource_list (p : list byte) (record : Z) : M Z :=
  _ ← check_size p 8;
  let count := p_u32 p 4 in
  let '(length, overflow) := mul_add_overflows count record 8 in
  if (overflow : bool) then throw Overflow
  else
    _ ← check_size p length;
    mret count.

Definition invalidate_resources (p : list byte) : M unit := run_f (
  n ← check_resource_list p 8;
  t ← task (p_u32 p 0);
  ask (Invalidate t (payload_records p 8 n))).
Definition synchronize_resources (p : list byte) : M unit := run_f (
  n ← check_resource_list p 4;
  t ← task (p_u32 p 0);
  ask (Synchronize t (payload_records p 8 n) false)).
Definition delete_iosurface_backing (p : list byte) : M unit := run_f (
  _ ← check_size p 8;
  if negb (p_u32 p 4 =? 0) then throw KernelOnly
  else
    _ ← kernel_task;
    ask (DeleteBacking (p_u32 p 0))).
Definition define_task (p : list byte) : M unit := run_f (
  _ ← check_size p 16;
  _ ← ask_device (CreateTaskId (shr64 (p_u32 p 0) 1) (p_u32 p 12) (p_u64 p 4));
  signal).
Definition map_memory (p : list byte) : M unit := run_f (
  _ ← check_size p 20;
  t ← task (p_u32 p 0);
  ask (Map_ t (p_u64 p 4) (p_u64 p 12))).
Definition get_compute_info (p : list byte) : M unit := run_f (
  _ ← check_size p 24;
  t ← user_task (p_u32 p 0);
  ask (ComputeInfo t (p_u32 p 4) (p_u32 p 8) (p_u32 p 12) (p_u64 p 16))).
Definition replace_physical (p : list byte) : M unit := run_f (
  _ ← check_size p 8;
  t ← task (p_u32 p 0);
  ask (ReplacePhys t (p_u32 p 4))).
Definition synchronize_and_discard_resources (p : list byte) : M unit := run_f (
  f ← read_features;
  _ ← gate (GuestRecords.synchronize_and_discard_resources f);
  n ← check_resource_list p 4;
  t ← task (p_u32 p 0);
  ask (Synchronize t (payload_records p 8 n) true)).
Definition discard_resources (p : list byte) : M unit := run_f (
  f ← read_features;
  _ ← gate (GuestRecords.discard_resources f);
  n ← check_resource_list p 4;
  t ← task (p_u32 p 0);
  ask (Discard t (payload_records p 8 n))).

(** [bytes.get(from..to)], or nothing. *)
Definition bytes_between (p : list byte) (from to : Z) : list byte :=
  if (from <=? to) && (to <=? Z.of_nat (length p))
  then take (Z.to_nat (to - from)) (drop (Z.to_nat from) p) else [].

Definition heap_texture_size_and_align (p : list byte) : M unit := run_f (
  f ← read_features;
  _ ← gate (GuestRecords.metal_heaps f);
  _ ← check_size p 24;
  let payload_length := p_u32 p 20 in
  let '(length, overflow) := overflowing_add32 payload_length 24 in
  if (overflow : bool) then throw Overflow
  else
    _ ← check_size p length;
    let serialized := bytes_between p 24 length in
    t ← user_task (p_u32 p 0);
    ask (HeapSize t serialized (p_u64 p 4) (p_u64 p 12))).
Definition delete_shared_texture_backing (p : list byte) : M unit := run_f (
  _ ← check_size p 4;
  t ← kernel_task;
  ask (DeleteRes t (p_u32 p 0))).
(** The size before the feature here. *)
Definition reset_rasterization_rate_map (p : list byte) : M unit := run_f (
  _ ← check_size p 8;
  f ← read_features;
  _ ← gate (GuestRecords.supports_variable_rasterization_rate_maps f);
  t ← user_task (p_u32 p 0);
  ask (ResetRateMap t (p_u32 p 4))).
Definition set_object_and_placement_list (p : list byte) : M unit := run_f (
  f ← read_features;
  _ ← gate (GuestRecords.supports_argument_buffers f);
  _ ← check_size p 28;
  t ← task (p_u32 p 0);
  ask (ObjectList t (p_u64 p 4) (p_u32 p 20) (p_u64 p 12) (p_u32 p 24))).

(** ** The exec-indirect and info-indirect commands *)

Definition exec_record (k : ExecKind) : Z := match k with Exec2 => 24 | _ => 8 end.

(** The length the two counts ask for, or [None] where it does not fit 32 bits. *)
Definition exec_length (record resource_count cmd_buffer_count : Z) : option Z :=
  let '(resources_length, overflow) := overflowing_mul32 resource_count record in
  if (overflow : bool) then None
  else
    let '(cmd_buffers_length, overflow) := overflowing_mul32 cmd_buffer_count 16 in
    if (overflow : bool) then None
    else
      let '(length, overflow) := add3_overflows 12 resources_length cmd_buffers_length in
      if (overflow : bool) then None else Some length.

Definition prologue (k : ExecKind) (p : list byte) : M (TaskRef * Z * Z) :=
  supported ← match k with
    | Exec2 => mret true
    | Exec3 => f ← read_features; mret (GuestRecords.supports_cmd_exec_indirect3 f)
    | Info => f ← read_features; mret (GuestRecords.supports_info_indirect f)
    end;
  _ ← gate supported;
  _ ← check_size p 12;
  let task_id := p_u32 p 0 in
  if task_id =? 0 then throw NotKernel
  else
    let resource_count := p_u32 p 4 in
    let cmd_buffer_count := p_u32 p 8 in
    match exec_length (exec_record k) resource_count cmd_buffer_count with
    | None => throw Overflow
    | Some length =>
        _ ← check_size p length;
        t ← user_task task_id;
        mret (t, resource_count, cmd_buffer_count)
    end.

(** The resources after the record, the command buffers after them. *)
Definition resource_records (n : nat) (p : list byte) (resource_count : Z) : Records (Raw n) :=
  payload_records p HEADER_LEN resource_count.
Definition buffer_records (p : list byte) (resource_count cmd_buffer_count record : Z)
    : Records (Raw 16) :=
  payload_records p (add64 HEADER_LEN (mul32 resource_count record)) cmd_buffer_count.

(** The task's call, outside any handler: its raise ends the process. *)
Definition unhandled (r : Request) : M unit := fun tr =>
  match ask r tr with
  | (tr, Thrown _) => (tr, Dead Uncaught)
  | res => res
  end.

Definition exec_indirect (k : ExecKind) (p : list byte) : M unit :=
  ready ← f_class (prologue k p);
  match ready with
  | None => mret tt
  | Some (t, rc, cbc) =>
      let buffers := buffer_records p rc cbc (exec_record k) in
      unhandled (match k with
        | Exec2 => Exec2Call t (resource_records 24 p rc) buffers
        | Exec3 => Exec3Call false t (resource_records 8 p rc) buffers
        | Info => Exec3Call true t (resource_records 8 p rc) buffers
        end)
  end.
Definition exec_indirect2 : list byte -> M unit := exec_indirect Exec2.
Definition exec_indirect3 : list byte -> M unit := exec_indirect Exec3.
Definition info_indirect : list byte -> M unit := exec_indirect Info.

(** ** The display commands *)

Definition kernel_only (named : Z) : M unit :=
  if negb (named =? 0) then throw KernelOnly else mret tt.

Definition set_shared_state_page (p : list byte) : M unit := run_f (
  _ ← check_size p 8;
  _ ← ask_device (SetSharedPage (p_u32 p 4) (p_u32 p 0));
  signal).
Definition ack (p : list byte) : M unit := run_f (
  _ ← check_size p 8;
  display ← guest_display (p_u32 p 0);
  _ ← ask (Ack display (p_u32 p 4));
  signal).
(** The lookup before the task check. *)
Definition cursor_glyph (p : list byte) : M unit := run_f (
  _ ← check_size p 44;
  display ← guest_display (p_u32 p 0);
  _ ← kernel_only (p_u32 p 4);
  _ ← ask (CursorGlyph display
    (MkGlyphArgs (p_u64 p 8) (p_u64 p 16) (p_u64 p 24) (p_u16 p 32) (p_u16 p 34)
      (p_u16 p 36) (p_u16 p 38) (p_u32 p 40)));
  signal).
Definition cursor_show (p : list byte) : M unit := run_f (
  _ ← check_size p 8;
  display ← guest_display (p_u32 p 0);
  _ ← ask (CursorShow display (p_u8 p 4));
  signal).
Definition transaction2 (p : list byte) : M unit := run_f (
  _ ← check_size p 12;
  display ← guest_display (p_u32 p 0);
  _ ← kernel_only (p_u32 p 8);
  _ ← ask (PresentSurface display (p_u32 p 4) no_gamma);
  signal).
(** The task check before the lookup. *)
Definition transaction3 (p : list byte) : M unit := s_class (
  _ ← check_size p 36;
  _ ← kernel_only (p_u32 p 4);
  display ← guest_display (p_u32 p 0);
  ask (PresentSurface display (p_u32 p 8)
    (MkGammaArgs (p_u64 p 12) (p_u64 p 20) (p_u32 p 28) (p_u32 p 32)))).
Definition swap_mapping (p : list byte) : M unit := s_class (
  f ← read_features;
  _ ← gate (GuestRecords.display_mapper_surface f);
  _ ← check_size p 40;
  _ ← kernel_only (p_u32 p 4);
  display ← guest_display (p_u32 p 0);
  ask (PresentMapped display (p_u64 p 8)
    (MkGammaArgs (p_u64 p 16) (p_u64 p 24) (p_u32 p 32) (p_u32 p 36)))).

(** [size] is what the properties consumed leave of the payload, [cursor] where the
    next property's record starts. *)
Fixpoint property_loop (fuel : nat) (p : list byte) (display size cursor index : Z) : M unit :=
  match fuel with
  | O => die Fuel
  | S fuel =>
      if p_u32 p 4 <=? index then mret tt
      else
        let record := tail p cursor in
        _ ← check_size_of size 8;
        let property := p_u32 record 0 in
        let word_count := p_u32 record 4 in
        let '(length, overflow) := mul_add_overflows word_count 4 8 in
        if (overflow : bool) then throw Overflow
        else
          _ ← check_size_of size length;
          _ ← ask (SetProperty display (i32_of_u32 property)
                 (payload_records record 8 word_count));
          property_loop fuel p display (sub64 size length) (add64 cursor length)
            (add32 index 1)
  end.
Definition set_properties (p : list byte) : M unit := s_class (
  f ← read_features;
  _ ← gate (GuestRecords.display_set_properties f);
  _ ← check_size p 8;
  let size := sub64 (Z.of_nat (length p)) 8 in
  display ← guest_display (p_u32 p 0);
  property_loop (S (length p)) p display size 8 0).

Definition sleep_state (p : list byte) : M unit := run_f (
  f ← read_features;
  _ ← gate (GuestRecords.display_sleep f);
  _ ← check_size p 8;
  display ← guest_display (p_u32 p 0);
  _ ← ask (SleepState display (p_u8 p 4));
  signal).
Definition compositor_parameters (p : list byte) : M unit := run_f (
  f ← read_features;
  _ ← gate (GuestRecords.supports_display_compositor_parameters f);
  _ ← check_size p 20;
  display ← guest_display (p_u32 p 0);
  _ ← ask (Compositor display (p_u64 p 8) (p_u16 p 4) (p_u16 p 6) (p_u8 p 16));
  signal).
(** The length check before the lookup. *)
Definition set_guest_icc_profile (p : list byte) : M unit := s_class (
  f ← read_features;
  _ ← gate (GuestRecords.supports_display_set_guest_icc_profile f);
  _ ← check_size p 24;
  let length := p_u32 p 4 in
  let mapped_length := p_u64 p 16 in
  if mapped_length <? length then throw Overflow
  else
    display ← guest_display (p_u32 p 0);
    ask (IccProfile display length (p_u64 p 8))).

(** ** The dispatch *)

Definition handler (op : Opcode) : option (list byte -> M unit) :=
  match op with
  | Deprecated => None
  | Debug => Some debug
  | DisplaySetSharedStatePage => Some set_shared_state_page
  | DisplayAck => Some ack
  | DisplayCursorGlyph => Some cursor_glyph
  | DisplayCursorShow => Some cursor_show
  | DisplayTransaction2 => Some transaction2
  | DisplayTransaction3 => Some transaction3
  | DisplaySwapMapping => Some swap_mapping
  | DisplaySleepState => Some sleep_state
  | DisplaySetProperties => Some set_properties
  | DisplayCompositorParameters => Some compositor_parameters
  | DisplaySetGuestIccProfile => Some set_guest_icc_profile
  | Nop => Some (fun _ => nop)
  | DeleteTask => Some delete_task
  | UnmapMemory => Some unmap_memory
  | DeleteResource => Some delete_resource
  | DeleteObject => Some delete_object
  | DefineChildFifo => Some define_child_fifo
  | DeleteChildFifo => Some delete_child_fifo
  | SetObjectList => Some set_object_list
  | InvalidateResources => Some invalidate_resources
  | SynchronizeResources => Some synchronize_resources
  | DeleteIoSurfaceBacking2 => Some delete_iosurface_backing
  | ExecIndirect2 => Some exec_indirect2
  | DefineTask2 => Some define_task
  | MapMemory2 => Some map_memory
  | GetDeviceInfo => Some get_device_info
  | GetComputeInfo => Some get_compute_info
  | ReplacePhysical => Some replace_physical
  | Delay => Some delay
  | SynchronizeAndDiscardResources => Some synchronize_and_discard_resources
  | DiscardResources => Some discard_resources
  | HeapTextureSizeAndAlign => Some heap_texture_size_and_align
  | DeleteSharedTextureBacking => Some delete_shared_texture_backing
  | ResetRasterizationRateMap => Some reset_rasterization_rate_map
  | ExecIndirect3 => Some exec_indirect3
  | SetObjectAndPlacementList => Some set_object_and_placement_list
  | InfoIndirect => Some info_indirect
  end.

Definition dispatch (id : Z) (p : list byte) : M unit :=
  match from_id id with
  | None => invalid
  | Some op =>
      match handler op with
      | Some h => h p
      | None => deprecated
      end
  end.
End Handlers.

(** ** Settling: a stamp is signalled or faulted, or its completion handed on

    A request that carries the completion has handed it on once it is answered, and, where
    it raised, if it had by then. *)

Definition settles (e : Event) : nat :=
  match e with
  | Signalled | Faulted => 1
  | Asked r (Raises handed) => if hands r && handed then 1 else 0
  | Asked r _ => if hands r then 1 else 0
  end.
Definition settled (tr : list Event) : nat := sum_list_with settles tr.

Lemma settled_app tr1 tr2 : settled (tr1 ++ tr2) = (settled tr1 + settled tr2)%nat.
Proof. apply sum_list_with_app. Qed.

(** The run's last request handed its completion on and raised after. *)
Definition late_raise (tr : list Event) (end_ : list Event) : Prop :=
  exists tr' r, tr = tr' ++ Asked r (Raises true) :: end_ /\ hands r = true /\ settled tr' = 0%nat.

Lemma late_raise_app tr1 tr2 end_ :
  settled tr1 = 0%nat -> late_raise tr2 end_ -> late_raise (tr1 ++ tr2) end_.
Proof.
  intros H1 (tr' & r & -> & Hr & H2). exists (tr1 ++ tr'), r.
  by rewrite <- app_assoc, settled_app, H1, H2.
Qed.

Lemma late_raise_end tr e : late_raise tr [] -> late_raise (tr ++ [e]) [e].
Proof. intros (tr' & r & -> & Hr & H). exists tr', r. by rewrite <- app_assoc. Qed.

Lemma length_at_n n p off : 0 <= off -> length (at_n n p off) = n.
Proof.
  intros H. unfold at_n. destruct (_ && _) eqn:E; [|apply length_replicate].
  apply andb_prop in E as [_ E%Z.leb_le]. rewrite length_take, length_drop. lia.
Qed.
Lemma p_u32_range p off : 0 <= off -> u32 (p_u32 p off).
Proof. intros H. apply of_le_bytes_u32, length_at_n, H. Qed.

Lemma mul_add_exact a b c length :
  u32 a -> 0 <= b <= 24 -> 0 <= c <= 24 -> mul_add_overflows a b c = (length, false) ->
  length = a * b + c /\ a * b + c < M32.
Proof.
  intros Ha Hb Hc H. unfold mul_add_overflows in H.
  rewrite mul64_small, add64_small in H by (rewrite M32_val, M64_val in *; nia).
  injection H as <- H%Z.ltb_ge. unfold Num.low_u32. rewrite w32_small by nia.
  split; [done|lia].
Qed.

Lemma sub64_le a b : 0 <= b <= a -> 0 <= sub64 a b <= a - b.
Proof.
  intros H. pose proof (sub64_range a b). split; [lia|].
  unfold sub64, w64. apply Z.mod_le; [lia|done].
Qed.

Section Settling.
Context {target : GuestRecords.Target} (features : GuestRecords.GuestFeatures)
  (device_lives is_root : bool) (answer : list Event -> Request -> Reply).

(** A run to its end settles [k] times; a raise comes before anything is settled, or out of
    the call that was to settle; only a gone device ends the process. *)
Definition ends {A} (k : nat) (m : M A) : Prop := forall tr, exists new,
  fst (m tr) = tr ++ new /\
  match snd (m tr) with
  | Good _ => settled new = k
  | Thrown _ => settled new = 0%nat \/ (k = 1%nat /\ late_raise new [])
  | Dead d => d = Gone /\ device_lives = false
  end.

Lemma ends_ret {A} (a : A) : ends 0 (mret a).
Proof. intros tr. exists []. by rewrite app_nil_r. Qed.
Lemma ends_throw {A} k r : ends k (throw (A:=A) r).
Proof. intros tr. exists []. rewrite app_nil_r. split; [done|by left]. Qed.
Lemma ends_emit e : ends (settles e) (emit e).
Proof. intros tr. exists [e]. split; [done|]. cbn. lia. Qed.
Lemma ends_bind {A B} k (m : M A) (f : A -> M B) :
  ends 0 m -> (forall a, ends k (f a)) -> ends k (m ≫= f).
Proof.
  intros Hm Hf tr. destruct (Hm tr) as (new & Htr & Hres).
  unfold mbind, M_bind. destruct (m tr) as [tr1 [a|r|d]]; cbn [fst snd] in *; subst tr1.
  - destruct (Hf a (tr ++ new)) as (new' & -> & H). exists (new ++ new').
    rewrite app_assoc. split; [done|]. destruct (snd _); rewrite ?settled_app; [lia| |done].
    destruct H as [H|[-> H]]; [left; lia|right]. split; [done|by apply late_raise_app].
  - exists new. split; [done|]. destruct Hres as [?|[? _]]; [by left|lia].
  - by exists new.
Qed.
Lemma ends_size {B} k size n (f : unit -> M B) :
  (n <= size -> ends k (f tt)) -> ends k (check_size_of size n ≫= f).
Proof.
  intros Hf tr. unfold check_size_of. destruct (Z.ltb_spec size n).
  - exists []. rewrite app_nil_r. split; [done|by left].
  - by apply Hf.
Qed.
Lemma ends_device k {B} (f : unit -> M B) :
  ends k (f tt) -> ends k (device device_lives ≫= f).
Proof.
  intros Hf. unfold device. destruct device_lives eqn:E; [exact Hf|].
  intros tr. exists []. by rewrite app_nil_r.
Qed.
Lemma ends_call r : hands r = false -> ends 0 (call answer r).
Proof.
  intros Hr tr. exists [Asked r (answer tr r)]. split; [done|]. unfold call. cbn [snd].
  destruct (answer tr r); cbn; rewrite ?Hr; auto.
Qed.
Lemma ends_ask r : hands r = false -> ends 0 (ask answer r).
Proof. intros Hr. apply ends_bind; [by apply ends_call|]. intros. apply ends_ret. Qed.
Lemma ends_hand r : hands r = true -> ends 1 (ask answer r).
Proof.
  intros Hr tr. exists [Asked r (answer tr r)]. unfold ask, call, mbind, M_bind.
  split; [by destruct (answer tr r)|].
  destruct (answer tr r) as [| |[]]; cbn; rewrite ?Hr; [done..| |by left].
  right. split; [done|]. by exists [], r.
Qed.
Lemma ends_ask_device r : hands r = false -> ends 0 (ask_device device_lives answer r).
Proof. intros Hr. apply ends_device. by apply ends_call. Qed.
Lemma ends_features : ends 0 (read_features features device_lives).
Proof. apply ends_device, ends_ret. Qed.
Lemma ends_gate b : ends 0 (gate b).
Proof. destruct b; [apply ends_ret|apply ends_throw]. Qed.
Lemma ends_kernel_only z : ends 0 (kernel_only z).
Proof. unfold kernel_only. destruct (negb _); [apply ends_throw|apply ends_ret]. Qed.

(** A handler's whole run: nothing is raised out of it, and it settles once, or its task's
    call raised after it handed the completion on and the stamp is faulted too. *)
Definition closes (m : M unit) : Prop := forall tr, exists new,
  fst (m tr) = tr ++ new /\
  match snd (m tr) with
  | Good _ => settled new = 1%nat \/ late_raise new [Faulted]
  | Thrown _ => False
  | Dead d => d = Gone /\ device_lives = false
  end.

Lemma closes_run_f body : ends 1 body -> closes (run_f body).
Proof.
  intros Hb tr. destruct (Hb tr) as (new & Htr & Hres).
  unfold run_f, f_class, mbind, M_bind. destruct (body tr) as [tr1 [a|r|d]]; cbn in *; subst tr1.
  - exists new. auto.
  - exists (new ++ [Faulted]). rewrite app_assoc, settled_app. split; [done|].
    destruct Hres as [->|[_ H]]; [by left|right; by apply late_raise_end].
  - by exists new.
Qed.
Lemma closes_s_class body : ends 0 body -> closes (s_class body).
Proof.
  intros Hb tr. destruct (Hb tr) as (new & Htr & Hres).
  unfold s_class. destruct (body tr) as [tr1 [a|r|d]]; cbn in *; subst tr1.
  1: exists (new ++ [Signalled]); rewrite app_assoc, settled_app, Hres; auto.
  1: destruct Hres as [Hres|[? _]]; [|done].
  1: exists (new ++ [Signalled]); rewrite app_assoc, settled_app, Hres; auto.
  by exists new.
Qed.
Lemma closes_emit e : settles e = 1%nat -> closes (emit e).
Proof. intros He tr. exists [e]. split; [done|]. left. cbn. lia. Qed.

Lemma ends_signal : ends 1 signal.
Proof. apply (ends_emit Signalled). Qed.

Ltac head_of m := lazymatch m with ?f _ => head_of f | _ => m end.
(** One step of a handler's body. *)
Ltac ends_step :=
  cbv beta zeta;
  lazymatch goal with
  | |- ends _ (check_size_of _ _ ≫= _) => apply ends_size; intros ?
  | |- ends _ (check_size _ _ ≫= _) => apply ends_size; intros ?
  | |- ends _ (_ ≫= _) => apply ends_bind; [|intros ?]
  | |- closes (run_f _) => apply closes_run_f
  | |- closes (s_class _) => apply closes_s_class
  | |- closes (emit _) => apply closes_emit; reflexivity
  | |- closes ?m => let h := head_of m in unfold h
  | |- ends _ signal => apply ends_signal
  | |- ends _ (mret _) => apply ends_ret
  | |- ends _ (throw _) => apply ends_throw
  | |- ends _ (gate _) => apply ends_gate
  | |- ends _ (kernel_only _) => apply ends_kernel_only
  | |- ends _ (read_features _ _) => apply ends_features
  | |- ends _ (property_loop _ _ _ _ _ _ _) => fail
  | |- ends _ (ask_device _ _ _) => apply ends_ask_device; reflexivity
  | |- ends 1 (ask _ _) => apply ends_hand; reflexivity
  | |- ends 0 (ask _ _) => apply ends_ask; reflexivity
  | |- ends _ (if ?b then _ else _) => destruct b eqn:?
  | |- ends _ (let '(_, _) := ?e in _) => destruct e eqn:?
  | |- ends _ (match ?e with Some _ => _ | None => _ end) => destruct e eqn:?
  | |- ends _ (match ?e with Exec2 => _ | _ => _ end) => destruct e eqn:?
  | |- ends _ ?m => let h := head_of m in unfold h
  end.

(** The property loop ends: each property takes at least 8 of the bytes left. *)
Lemma ends_property_loop fuel p display : forall size cursor index,
  0 <= size < 8 * Z.of_nat fuel ->
  ends 0 (property_loop answer fuel p display size cursor index).
Proof.
  induction fuel as [|fuel IH]; intros size cursor index Hsize; [lia|].
  cbn [property_loop]. ends_step; [ends_step|]. do 3 ends_step; [ends_step|].
  do 2 ends_step; [ends_step|]. apply IH.
  destruct (mul_add_exact (p_u32 (tail p cursor) 4) 4 8 z) as [-> _];
    try done; try lia.
  { by apply p_u32_range. }
  pose proof (p_u32_range (tail p cursor) 4 ltac:(lia)).
  pose proof (sub64_le size (p_u32 (tail p cursor) 4 * 4 + 8)). lia.
Qed.

(** The handlers that run wholly in the F or the S class, but for the delay. *)
Definition plain (op : Opcode) : bool :=
  match op with
  | Delay | ExecIndirect2 | ExecIndirect3 | InfoIndirect => false
  | _ => true
  end.

Lemma handler_closes op h p :
  handler features device_lives is_root answer op = Some h -> plain op = true -> closes (h p).
Proof.
  intros Hh Hop. destruct op; try discriminate Hop; cbn [handler] in Hh;
    (discriminate Hh || injection Hh as <-);
    try (repeat ends_step; fail).
  repeat ends_step. apply ends_property_loop.
  pose proof (sub64_le (Z.of_nat (length p)) 8). lia.
Qed.

Lemma prologue_ends k p : ends 0 (prologue features device_lives answer k p).
Proof. destruct k; repeat ends_step. Qed.

Lemma exec_closes k p tr :
  exists new, fst (exec_indirect features device_lives answer k p tr) = tr ++ new /\
    match snd (exec_indirect features device_lives answer k p tr) with
    | Good _ => settled new = 1%nat
    | Thrown _ => False
    | Dead Gone => device_lives = false
    | Dead Uncaught => exists new' r handed, new = new' ++ [Asked r (Raises handed)] /\
        hands r = true /\ settled new' = 0%nat
    | Dead Fuel => False
    end.
Proof.
  destruct (prologue_ends k p tr) as (new & Htr & Hres).
  unfold exec_indirect, f_class, mbind, M_bind.
  destruct (prologue _ _ _ k p tr) as [tr1 [[[t rc] cbc]|r|d]]; cbn [fst snd] in *; subst tr1.
  - unfold unhandled, ask, call, mbind, M_bind.
    set (r := match k with Exec2 => _ | _ => _ end).
    assert (hands r = true) as Hr by (by destruct k).
    exists (new ++ [Asked r (answer (tr ++ new) r)]). rewrite app_assoc, settled_app, Hres.
    destruct (answer (tr ++ new) r); cbn; rewrite ?Hr; eauto 8.
  - destruct Hres as [Hres|[? _]]; [|done].
    exists (new ++ [Faulted]). rewrite app_assoc, settled_app, Hres. done.
  - exists new. split; [done|]. by destruct Hres as [-> Hl].
Qed.
End Settling.

Lemma from_id_singles id op :
  from_id id = Some op ->
  match op with
  | Delay => id = 61 | ExecIndirect2 => id = 55 | ExecIndirect3 => id = 67
  | InfoIndirect => id = 69 | _ => id <> 61
  end.
Proof.
  intros H. unfold from_id in H. repeat case_match; simplify_eq; try done; discriminate.
Qed.

(** C3: every command settles its stamp. Whatever the opcode, the payload and the clients'
    answers, a command's run ends, and a run to its end signalled the stamp, faulted it or
    handed a task its completion exactly once among the three, with two exceptions: a delay
    whose payload is whole leaves the stamp pending, and a task's call that raises after it
    handed the completion on has the stamp faulted as well, and nothing after. No raise
    leaves a command: the process ends where the device is gone or a raise comes out of a
    task's exec call, which is under no handler. *)
Theorem dispatch_settles {target : GuestRecords.Target} features device_lives is_root answer id p :
  let run := dispatch features device_lives is_root answer id p [] in
  match snd run with
  | Good _ =>
      settled (fst run) = (if (id =? 61) && (8 <=? Z.of_nat (length p)) then 0%nat else 1%nat) \/
      exists tr r, fst run = tr ++ [Asked r (Raises true); Faulted] /\ hands r = true /\
        settled tr = 0%nat
  | Thrown _ => False
  | Dead Gone => device_lives = false
  | Dead Uncaught =>
      (id = 55 \/ id = 67 \/ id = 69) /\
      exists tr r handed, fst run = tr ++ [Asked r (Raises handed)] /\ hands r = true /\
        settled tr = 0%nat
  | Dead Fuel => False
  end.
Proof.
  cbv zeta. unfold dispatch. destruct (from_id id) as [op|] eqn:Hid.
  2: { destruct (Z.eqb_spec id 61) as [->|]; [discriminate|by left]. }
  pose proof (from_id_singles id op Hid) as Hs.
  destruct (plain op) eqn:Hp.
  - assert (id <> 61) as Hn by (by destruct op; subst).
    rewrite (proj2 (Z.eqb_neq _ _) Hn). cbn [andb].
    destruct (handler _ _ _ _ op) as [h|] eqn:Hh; [|by left].
    destruct (handler_closes _ _ _ _ op h p Hh Hp []) as (new & Htr & Hres).
    rewrite Htr. destruct (snd _) as [| |d]; [done..|]. by destruct Hres as [-> ->].
  - assert (forall k, (id = 55 \/ id = 67 \/ id = 69) ->
      let run := exec_indirect features device_lives answer k p [] in
      match snd run with
      | Good _ =>
          settled (fst run) = (if (id =? 61) && (8 <=? Z.of_nat (length p)) then 0%nat else 1%nat) \/
          exists tr r, fst run = tr ++ [Asked r (Raises true); Faulted] /\ hands r = true /\
            settled tr = 0%nat
      | Thrown _ => False | Dead Gone => device_lives = false
      | Dead Uncaught => (id = 55 \/ id = 67 \/ id = 69) /\
          exists tr r handed, fst run = tr ++ [Asked r (Raises handed)] /\ hands r = true /\
            settled tr = 0%nat
      | Dead Fuel => False
      end) as Hexec.
    { intros k Hk run. subst run.
      destruct (exec_closes features device_lives answer k p []) as (new & -> & Hres).
      rewrite (proj2 (Z.eqb_neq _ _)) by lia. cbn [andb app].
      destruct (snd _) as [| |[]]; cbn iota; [by left|done..| |done]. split; [done|].
      destruct Hres as (new' & r & handed & -> & Hr & Hs'). eauto 8. }
    destruct op; try discriminate Hp; subst id; cbn [handler].
    all: try (apply Hexec; by auto).
    unfold delay, run_f, f_class, check_size, check_size_of, mbind, M_bind.
    rewrite (Z.leb_antisym _ 8). destruct (_ <? 8); by left.
Qed.

(** ** What the exec commands hand the task *)

Lemma exec_length_spec record rc bc :
  u32 rc -> u32 bc -> 0 <= record <= 24 ->
  exec_length record rc bc =
  if 12 + rc * record + bc * 16 <? M32 then Some (12 + rc * record + bc * 16) else None.
Proof.
  intros Hrc Hbc Hrec. unfold exec_length, overflowing_mul32, add3_overflows.
  assert (0 <= rc * record) by nia. unfold mul32.
  destruct (Z.leb_spec M32 (rc * record)).
  { destruct (Z.ltb_spec (12 + rc * record + bc * 16) M32); [lia|done]. }
  destruct (Z.leb_spec M32 (bc * 16)).
  { destruct (Z.ltb_spec (12 + rc * record + bc * 16) M32); [lia|done]. }
  rewrite (w32_small (rc * record)), (w32_small (bc * 16)) by lia.
  pose proof M32_val. pose proof M64_val.
  rewrite (add64_small 12), (add64_small (12 + _)) by lia.
  destruct (Z.ltb_spec (M32 - 1) (12 + rc * record + bc * 16)),
    (Z.ltb_spec (12 + rc * record + bc * 16) M32); try lia; [done|].
  unfold Num.low_u32. by rewrite w32_small by lia.
Qed.

(** A record list that fits is handed whole. *)
Lemma payload_records_whole {T} `{WireRecord T} p off n :
  0 <= off -> 0 <= n -> off + n * stride (T:=T) <= Z.of_nat (length p) -> n * stride (T:=T) < M64 ->
  payload_records (T:=T) p off n = MkRecords (drop (Z.to_nat off) p) n.
Proof.
  intros Hoff Hn Hfit Hm. unfold payload_records, tail, records_new, stride in *.
  rewrite (proj2 (Z.leb_le _ _)) by nia.
  rewrite mul64_small by lia. rewrite length_drop, (proj2 (Z.ltb_ge _ _)) by lia. done.
Qed.

Definition exec_supported (f : GuestRecords.GuestFeatures) (k : ExecKind) : bool :=
  match k with
  | Exec2 => true
  | Exec3 => GuestRecords.supports_cmd_exec_indirect3 f
  | Info => GuestRecords.supports_info_indirect f
  end.
Definition exec_call (k : ExecKind) (t : TaskRef) (p : list byte) (rc bc : Z) : Request :=
  let buffers := MkRecords (drop (Z.to_nat (12 + rc * exec_record k)) p) bc in
  match k with
  | Exec2 => Exec2Call t (MkRecords (drop 12 p) rc) buffers
  | Exec3 => Exec3Call false t (MkRecords (drop 12 p) rc) buffers
  | Info => Exec3Call true t (MkRecords (drop 12 p) rc) buffers
  end.

Lemma prologue_run features answer k p tr :
  exec_supported features k = true -> (forall tr r, answer tr r = Yes) ->
  let len := Z.of_nat (length p) in
  let need := 12 + p_u32 p 4 * exec_record k + p_u32 p 8 * 16 in
  let t := UserTask (p_u32 p 0) in
  let res := prologue features true answer k p tr in
  if (12 <=? len) && negb (p_u32 p 0 =? 0) && (need <? M32) && (need <=? len)
  then res = (tr ++ [Asked (LookupTask t) Yes], Good (t, p_u32 p 4, p_u32 p 8))
  else exists r, res = (tr, Thrown r).
Proof.
  intros Hk Hans len need t res.
  assert (res = (_ ← check_size p 12; if p_u32 p 0 =? 0 then throw NotKernel
    else match exec_length (exec_record k) (p_u32 p 4) (p_u32 p 8) with
      | None => throw Overflow
      | Some length =>
          _ ← check_size p length; t ← user_task true answer (p_u32 p 0);
          mret (t, p_u32 p 4, p_u32 p 8)
      end) tr) as ->.
  { subst res. unfold prologue, read_features, gate, mbind, M_bind.
    destruct k; cbn in *; by rewrite ?Hk. }
  rewrite exec_length_spec by (by apply p_u32_range || by destruct k). fold need.
  unfold mbind, M_bind, check_size, check_size_of. fold len.
  destruct (Z.ltb_spec len 12), (Z.leb_spec 12 len); try lia; [by eexists|]. cbn [andb mret M_ret].
  destruct (p_u32 p 0 =? 0); [by eexists|]. cbn [andb negb].
  destruct (need <? M32); [|by eexists]. cbn [andb].
  destruct (Z.ltb_spec len need), (Z.leb_spec need len); try lia; [by eexists|].
  unfold user_task, ask_device, call, device, mbind, M_bind, mret, M_ret. by rewrite Hans.
Qed.

(** An exec command hands the task what its header declares. Where the device
    supports the command and no client raises, the task is the user task named and
    it gets the declared number of resources from byte 12 and of command buffers
    right after them, all within the payload; a header cut short, the kernel task,
    counts whose length does not fit 32 bits and a payload shorter than that length
    fault the stamp before anything is looked up. *)
Theorem exec_hands_declared features answer k p :
  exec_supported features k = true -> (forall tr r, answer tr r = Yes) ->
  let len := Z.of_nat (length p) in
  let rc := p_u32 p 4 in
  let bc := p_u32 p 8 in
  let need := 12 + rc * exec_record k + bc * 16 in
  let t := UserTask (p_u32 p 0) in
  exec_indirect features true answer k p [] =
  if (12 <=? len) && negb (p_u32 p 0 =? 0) && (need <? M32) && (need <=? len)
  then ([Asked (LookupTask t) Yes; Asked (exec_call k t p rc bc) Yes], Good tt)
  else ([Faulted], Good tt).
Proof.
  intros Hk Hans len rc bc need t.
  assert (u32 rc /\ u32 bc) as [Hrc Hbc] by (split; by apply p_u32_range).
  assert (0 <= exec_record k <= 24) as Hrec by (by destruct k).
  unfold exec_indirect, f_class, mbind, M_bind.
  pose proof (prologue_run features answer k p [] Hk Hans) as Hpro. cbv zeta in Hpro.
  fold len rc bc need t in Hpro. destruct (_ && _) eqn:Hok.
  2: { by destruct Hpro as [r ->]. }
  rewrite Hpro. unfold unhandled, ask, call, mbind, M_bind.
  to_props. pose proof M64_val. pose proof M32_val. subst need len.
  assert (forall n, Z.of_nat n = exec_record k ->
    resource_records n p rc = MkRecords (drop 12 p) rc) as Hres.
  { intros n Hn. apply payload_records_whole; unfold stride, HEADER_LEN;
      cbn [stride_nat raw_record]; rewrite ?Hn; lia. }
  assert (buffer_records p rc bc (exec_record k)
    = MkRecords (drop (Z.to_nat (12 + rc * exec_record k)) p) bc) as ->.
  { unfold buffer_records, mul32, HEADER_LEN. rewrite w32_small, add64_small by lia.
    apply payload_records_whole; unfold stride; cbn [stride_nat raw_record]; lia. }
  rewrite Hans. destruct k; cbn [exec_call exec_record]; by rewrite Hres.
Qed.

Lemma exec_hands_declared_witness :
  let p := le_bytes 4 5 ++ le_bytes 4 1 ++ le_bytes 4 1 ++ replicate 40 x07 in
  exec_indirect GuestRecords.sample_features true (fun _ _ => Yes) Exec2 p [] =
  ([Asked (LookupTask (UserTask 5)) Yes;
    Asked (Exec2Call (UserTask 5) (MkRecords (replicate 40 x07) 1)
      (MkRecords (replicate 16 x07) 1)) Yes], Good tt).
Proof.
  intros p.
  exact (exec_hands_declared GuestRecords.sample_features (fun _ _ => Yes) Exec2 p
    eq_refl (fun _ _ => eq_refl)).
Defined.

(** ** The display properties *)

Definition property_bytes (pr : Z * list Z) : list byte :=
  le_bytes 4 pr.1 ++ le_bytes 4 (Z.of_nat (length pr.2)) ++ concat (map (le_bytes 4) pr.2).
Definition properties_bytes (l : list (Z * list Z)) : list byte := concat (map property_bytes l).
Definition property_ok (pr : Z * list Z) : Prop :=
  u32 pr.1 /\ 8 + 4 * Z.of_nat (length pr.2) < M32.

Lemma length_words ws : length (concat (map (le_bytes 4) ws)) = (4 * length ws)%nat.
Proof.
  induction ws as [|w ws IH]; [done|]. cbn [map concat length].
  rewrite length_app, IH, length_le_bytes. lia.
Qed.

Lemma length_property_bytes pr : length (property_bytes pr) = (8 + 4 * length pr.2)%nat.
Proof. unfold property_bytes. rewrite !length_app, !length_le_bytes, length_words. lia. Qed.

Lemma p_u32_at a v tl off :
  off = Z.of_nat (length a) -> off + 4 < M64 -> u32 v -> p_u32 (a ++ le_bytes 4 v ++ tl) off = v.
Proof.
  intros -> Hoff Hv. unfold p_u32, at_n.
  rewrite (proj2 (Z.ltb_lt _ _)) by exact Hoff.
  rewrite (proj2 (Z.leb_le _ _)) by (rewrite !length_app, length_le_bytes; lia). cbn [andb].
  rewrite Nat2Z.id, drop_app_length, take_app_le by apply length_le_bytes.
  by apply of_le_bytes_4.
Qed.

(** What a client that does all it is asked is asked for the properties. *)
Fixpoint asked_properties (display : Z) (l : list (Z * list Z)) (rest : list byte) : list Event :=
  match l with
  | [] => []
  | pr :: l =>
      Asked (SetProperty display (i32_of_u32 pr.1)
        (MkRecords (concat (map (le_bytes 4) pr.2) ++ properties_bytes l ++ rest)
          (Z.of_nat (length pr.2)))) Yes :: asked_properties display l rest
  end.

Lemma property_record pr ws tl :
  property_ok (pr, ws) ->
  let record := property_bytes (pr, ws) ++ tl in
  let wc := Z.of_nat (length ws) in
  p_u32 record 0 = pr /\ p_u32 record 4 = wc /\
  payload_records (T:=Raw 4) record 8 wc = MkRecords (concat (map (le_bytes 4) ws) ++ tl) wc.
Proof.
  intros [Hpr Hws] record wc. cbn [fst snd] in *. pose proof M32_val. pose proof M64_val.
  assert (record = le_bytes 4 pr ++ le_bytes 4 wc ++ concat (map (le_bytes 4) ws) ++ tl) as Hr.
  { subst record. unfold property_bytes. cbn [fst snd]. by rewrite <- !app_assoc. }
  split_and!.
  - rewrite Hr. apply (p_u32_at []); [done|lia|done].
  - rewrite Hr. apply p_u32_at; rewrite ?length_le_bytes; lia.
  - rewrite payload_records_whole; unfold stride; cbn [stride_nat raw_record]; try lia.
    + reflexivity.
    + subst record. rewrite length_app, length_property_bytes. cbn [snd]. lia.
Qed.

Lemma property_loop_applies answer display p rest :
  (forall tr r, answer tr r = Yes) -> Z.of_nat (length p) < M64 -> u32 (p_u32 p 4) ->
  forall l pre fuel size index tr,
  p = pre ++ properties_bytes l ++ rest -> Forall property_ok l ->
  (length l < fuel)%nat -> size = Z.of_nat (length (properties_bytes l ++ rest)) ->
  0 <= index -> index + Z.of_nat (length l) = p_u32 p 4 ->
  property_loop answer fuel p display size (Z.of_nat (length pre)) index tr =
  (tr ++ asked_properties display l rest, Good tt).
Proof.
  intros Hans Hlen Hcount. induction l as [|[pr ws] l IH];
    intros pre fuel size index tr Hp Hok Hfuel Hsize Hi Hn;
    (destruct fuel as [|fuel]; [cbn in Hfuel; lia|]); cbn [property_loop].
  { cbn [length] in Hn. rewrite (proj2 (Z.leb_le _ _)) by lia. cbn. by rewrite app_nil_r. }
  apply list.Forall_cons in Hok as [[Hpr Hws] Hok]. cbn [fst snd length] in *.
  change (properties_bytes ((pr, ws) :: l)) with (property_bytes (pr, ws) ++ properties_bytes l) in *.
  pose proof (length_property_bytes (pr, ws)) as Hlp. cbn [snd] in Hlp.
  set (wc := Z.of_nat (length ws)) in *.
  pose proof M32_val. pose proof M64_val.
  assert (Z.of_nat (length p) = Z.of_nat (length pre) + size) as Hsum
    by (rewrite Hp, Hsize, !length_app; lia).
  rewrite !length_app in Hsize.
  assert (tail p (Z.of_nat (length pre)) = property_bytes (pr, ws) ++ properties_bytes l ++ rest)
    as ->.
  { unfold tail. rewrite (proj2 (Z.leb_le _ _)) by lia. rewrite Hp.
    rewrite Nat2Z.id, drop_app_length. by rewrite <- app_assoc. }
  destruct (property_record pr ws (properties_bytes l ++ rest)) as (-> & -> & ->); [done..|].
  fold wc. rewrite (proj2 (Z.leb_gt _ _)) by lia.
  assert (mul_add_overflows wc 4 8 = (wc * 4 + 8, false)) as ->.
  { unfold mul_add_overflows. rewrite mul64_small, add64_small by lia.
    unfold Num.low_u32. rewrite w32_small by lia. f_equal. by apply Z.ltb_ge; lia. }
  unfold check_size_of, ask, call, mbind, M_bind.
  rewrite !(proj2 (Z.ltb_ge _ _)) by lia.
  cbn [mret M_ret]. rewrite Hans. cbn [mret M_ret].
  rewrite sub64_small, add64_small, add32_small by lia.
  replace (Z.of_nat (length pre) + (wc * 4 + 8))
    with (Z.of_nat (length (pre ++ property_bytes (pr, ws)))) by (rewrite length_app; lia).
  rewrite (IH (pre ++ property_bytes (pr, ws))); try done; try lia.
  - cbn [asked_properties fst snd]. by rewrite <- app_assoc.
  - by rewrite Hp, <- !app_assoc.
  - rewrite length_app. lia.
Qed.

(** A display's properties are all set, in the guest's order. A payload that
    declares the properties it holds has each of them, with its own words, set on
    the display of the port it names, one after the other and nothing else, and
    then the stamp is signalled; what follows the last property is left alone. *)
Theorem set_properties_applies features answer port l rest :
  GuestRecords.display_set_properties features = true ->
  (forall tr r, answer tr r = Yes) ->
  u32 port -> u32 (Z.of_nat (length l)) -> Forall property_ok l ->
  let p := le_bytes 4 port ++ le_bytes 4 (Z.of_nat (length l)) ++ properties_bytes l ++ rest in
  Z.of_nat (length p) < M64 ->
  set_properties features true answer p [] =
  (Asked (LookupDisplay port) Yes :: asked_properties port l rest ++ [Signalled], Good tt).
Proof.
  intros Hf Hans Hport Hl Hok p Hlen. pose proof M64_val.
  assert (p_u32 p 0 = port) as Hp0 by (apply (p_u32_at []); [done|lia|done]).
  assert (p_u32 p 4 = Z.of_nat (length l)) as Hp4 by (apply p_u32_at; [done|lia|done]).
  assert (Z.of_nat (length p) = 8 + Z.of_nat (length (properties_bytes l ++ rest))) as Hsum
    by (subst p; rewrite 2!length_app, !length_le_bytes; lia).
  assert (length l <= length (properties_bytes l))%nat as Hle.
  { clear. induction l as [|pr l IH]; [done|]. unfold properties_bytes in *.
    cbn [map concat length]. rewrite length_app, length_property_bytes. lia. }
  unfold set_properties, s_class, read_features, device, gate, check_size, check_size_of,
    guest_display, ask_device, call, mbind, M_bind, mret, M_ret.
  rewrite Hf, (proj2 (Z.ltb_ge _ _)) by lia. cbn beta iota.
  unfold call, device, mret, M_ret. rewrite Hans, Hp0. cbn beta iota.
  pose proof (property_loop_applies answer port p rest Hans Hlen) as Hloop.
  rewrite Hp4 in Hloop. specialize (Hloop Hl l (le_bytes 4 port ++ le_bytes 4 (Z.of_nat (length l)))).
  rewrite (length_app (le_bytes 4 port)), !length_le_bytes in Hloop.
  change (Z.of_nat (4 + 4)) with 8 in Hloop. rewrite Hloop.
  - done.
  - subst p. by rewrite <- app_assoc.
  - done.
  - rewrite length_app in Hsum. lia.
  - rewrite sub64_small by lia. lia.
  - done.
  - done.
Qed.

Lemma set_properties_applies_witness :
  let p := le_bytes 4 3 ++ le_bytes 4 2 ++ properties_bytes [(7, [1; 2]); (9, [])] ++ [x07] in
  set_properties GuestRecords.sample_features true (fun _ _ => Yes) p [] =
  ([Asked (LookupDisplay 3) Yes;
    Asked (SetProperty 3 7 (MkRecords
      (le_bytes 4 1 ++ le_bytes 4 2 ++ properties_bytes [(9, [])] ++ [x07]) 2)) Yes;
    Asked (SetProperty 3 9 (MkRecords [x07] 0)) Yes; Signalled], Good tt).
Proof.
  apply (set_properties_applies GuestRecords.sample_features (fun _ _ => Yes) 3
    [(7, [1; 2]); (9, [])] [x07]); try done.
  repeat constructor; cbn; lia.
Defined.

End Commands.
