(* ===== verification/Walk.v ===== *)
(** * Walk: an exec's segments and their records
    (src/crates/reims-vgpu-core/src/deserializer.rs, deserializer/walk.rs, decoder.rs)

    The record loop the decoders share and the walk of the segments over [Cursor]: a
    segment's header, its envelope, the decoder it goes through and the decoder carried
    into the next. The decoders a walk made are a list, and a decoder the walk carries
    is its place in it, as the source shares one reference. What the four decoders do
    to their state and the world is the interface [DecoderOps]; its laws are
    [DecoderLaws]. The holders of released values and the log are not modelled. *)

From S2P Require Import Prelude Num MemoryKinds GuestPtr Cursor.

Module Walk.

Inductive ObjectKind : Type :=
| ComputePipeline
| RenderPipeline
| Buffer
| Texture
| SamplerState
| DepthStencilState
| Fence
| Heap
| RateMap
| Icb.

(** The deserializer's raises; the blit, compute and render decoders' own are [Encoder]. *)
Inductive RaiseKind (R : Type) : Type :=
| SegmentLength
| ContinuationType
| ContinuationMissing
| EncoderType
| MissingObject (kind : ObjectKind)
| RecordUnderflow
| RecordOverrun
| UnrecognizedCommand
| RateMapRecordShort
| RateMapImmutable
| RateMapLayer
| RateMapSamples
| ReplyCursor
| ReplyWrite
| BufferStorageMode
| BufferLength
| BufferAlignment
| CoordinateRead
| UniqueIdentifierType
| Encoder (r : R).

(** A raise through the deserializer: its own, memory's, or one of the platform's sends. *)
Inductive Raise (R P : Type) : Type :=
| Own (k : RaiseKind R)
| OfMemory (k : Memory.RaiseKind)
| OfPlatform (p : P).

Inductive DeathKind : Type :=
| NullSegment
| SampleStorage
| RateMapLayerCount
| DeserializerGone
| NilTextureDescriptor
| OfMemoryDeath (d : Memory.mdeath)
| WalkOutOfFuel.

#[global] Arguments SegmentLength {R}.
#[global] Arguments ContinuationType {R}.
#[global] Arguments ContinuationMissing {R}.
#[global] Arguments EncoderType {R}.
#[global] Arguments MissingObject {R} kind.
#[global] Arguments RecordUnderflow {R}.
#[global] Arguments RecordOverrun {R}.
#[global] Arguments UnrecognizedCommand {R}.
#[global] Arguments RateMapRecordShort {R}.
#[global] Arguments RateMapImmutable {R}.
#[global] Arguments RateMapLayer {R}.
#[global] Arguments RateMapSamples {R}.
#[global] Arguments ReplyCursor {R}.
#[global] Arguments ReplyWrite {R}.
#[global] Arguments BufferStorageMode {R}.
#[global] Arguments BufferLength {R}.
#[global] Arguments BufferAlignment {R}.
#[global] Arguments CoordinateRead {R}.
#[global] Arguments UniqueIdentifierType {R}.
#[global] Arguments Encoder {R} r.
#[global] Arguments Own {R P} k.
#[global] Arguments OfMemory {R P} k.
#[global] Arguments OfPlatform {R P} p.

(** ** Headers *)

Record SegmentHeader := MkSegmentHeader {
  slength : Z;
  sencoder_type : Z;
  continues_previous : Z;
  continued_by_next : Z;
  sunknown07 : Z;
}.
Record CmdHeader := MkCmdHeader { command_id : Z; rec_length : Z }.

(** A field at [at_] of [n] bytes of a record read whole. *)
Definition field (bs : list byte) (at_ n : nat) : Z := of_le_bytes (take n (drop at_ bs)).

Definition decode_segment_header (bs : list byte) : SegmentHeader :=
  MkSegmentHeader (field bs 0 4) (field bs 4 1) (field bs 5 1) (field bs 6 1) (field bs 7 1).
Definition decode_cmd_header (bs : list byte) : CmdHeader :=
  MkCmdHeader (field bs 0 4) (field bs 4 4).
Definition encode_cmd_header (h : CmdHeader) : list byte :=
  le_bytes 4 (command_id h) ++ le_bytes 4 (rec_length h).

Definition ENVELOPE : Z := 5.
Definition RECORD_HEADER_SIZE : Z := 8.
Definition DESERIALIZER_VERSION : Z := 8.

(** ** The record loop *)

Section Records.
Context {R P : Type}.
Local Abbreviation raised := (Raise R P).

(** A cursor's refused operation as the raise [r]; its deaths are memory's. *)
Definition or_raise {A} (r : raised) (m : Cursor.cres A) : outcome raised DeathKind A :=
  match m with
  | Ret a => Ret a
  | Raised _ => Raised r
  | Died d => Died (OfMemoryDeath d)
  end.

Definition next_record (m : GuestPtr.memory) (segment : Cursor.Cursor)
    : outcome raised DeathKind (option (CmdHeader * Cursor.Cursor * Cursor.Cursor)) :=
  if Cursor.remaining segment <? RECORD_HEADER_SIZE then Ret None
  else
    '(segment, bs) ← or_raise (OfMemory Memory.CursorReadFailed)
      (Cursor.read m segment RECORD_HEADER_SIZE);
    let header := decode_cmd_header bs in
    if rec_length header <? RECORD_HEADER_SIZE then Raised (Own RecordUnderflow)
    else
      '(segment, record) ← or_raise (Own RecordOverrun)
        (Cursor.sub_cursor segment (rec_length header - RECORD_HEADER_SIZE));
      Ret (Some (header, record, segment)).

(** A decoder's [while let] loop over its segment. *)
Context {S : Type} (mem_of : S -> GuestPtr.memory)
  (handle : CmdHeader -> Cursor.Cursor -> S -> outcome (raised * S) DeathKind S).

Fixpoint record_loop (fuel : nat) (segment : Cursor.Cursor) (s : S)
    : outcome (raised * S) DeathKind S :=
  match fuel with
  | O => Died WalkOutOfFuel
  | Datatypes.S fuel =>
      next ← leaving s (next_record (mem_of s) segment);
      match next with
      | None => Ret s
      | Some (header, record, segment) =>
          s ← handle header record s;
          record_loop fuel segment s
      end
  end.
(** Every turn but the last moves at least a header on. *)
Definition records_of (segment : Cursor.Cursor) (s : S) : outcome (raised * S) DeathKind S :=
  record_loop (Datatypes.S (Z.to_nat (Cursor.remaining segment / RECORD_HEADER_SIZE))) segment s.
End Records.

(** ** The decoders and the walk *)

(** What the walk asks of a decoder [D], a command buffer [B] and the world [W]. *)
Class DecoderOps (D B W R P : Type) := {
  mem_of : W -> GuestPtr.memory;
  for_segment : Z -> option B -> W -> outcome (Raise R P * W) DeathKind (D * W);
  encoder_type : D -> Z;
  decode : D -> SegmentHeader -> Cursor.Cursor -> W
    -> outcome (Raise R P * (D * W)) DeathKind (D * W);
  fault : D -> W -> outcome (Raise R P * (D * W)) DeathKind (D * W);
  set_protection_options : B -> Z -> W -> outcome (Raise R P * W) DeathKind W;
}.

(** [for_segment] knows the types 0, 1, 2 and 4 and makes a decoder of the type asked
    for; decoding and faulting keep the type. *)
Class DecoderLaws (D B W R P : Type) `{DecoderOps D B W R P} := {
  for_segment_type t b w d w' : for_segment t b w = Ret (d, w') -> encoder_type d = t;
  for_segment_unknown t b w :
    t ∉ [0; 1; 2; 4] -> for_segment t b w = Raised (Own EncoderType, w);
  decode_type d h c w d' w' : decode d h c w = Ret (d', w') -> encoder_type d' = encoder_type d;
}.

Section Segments.
Context {D B W R P : Type} `{DecoderOps D B W R P}.
Context (command_buffer : option B).

(** A walk under way: the decoders made, oldest first, the one carried, and the world. *)
Record State := MkState { made : list D; carried : option nat; world : W }.
Definition with_carried (st : State) (c : option nat) : State := MkState (made st) c (world st).
Definition with_world (st : State) (w : W) : State := MkState (made st) (carried st) w.
Definition with_decoder (st : State) (i : nat) (dw : D * W) : State :=
  MkState (<[i := dw.1]> (made st)) (carried st) dw.2.

Local Abbreviation res := (outcome (Raise R P * State) DeathKind).

Definition carried_decoder (st : State) : option D := carried st ≫= fun i => made st !! i.

(** The decoder of a segment: the carried one, or a fresh one, as its place in [made]. *)
Definition decoder_for (header : SegmentHeader) (st : State) : res (nat * State) :=
  if negb (continues_previous header =? 0) then
    let carried_type := from_option encoder_type 0 (carried_decoder st) in
    if negb (sencoder_type header =? carried_type) then Raised (Own ContinuationType, st)
    else match carried st with
         | None => Raised (Own ContinuationMissing, st)
         | Some i => Ret (i, st)
         end
  else match carried st with
       | Some i => Ret (i, st)
       | None =>
           match for_segment (sencoder_type header) command_buffer (world st) with
           | Ret (d, w) => Ret (length (made st), MkState (made st ++ [d]) (carried st) w)
           | Raised (r, w) => Raised (r, with_world st w)
           | Died k => Died k
           end
       end.

(** A segment through its decoder, which is carried on when the next segment continues it. *)
Definition run_decoder (header : SegmentHeader) (segment : Cursor.Cursor) (st : State)
    : res State :=
  '(i, st) ← decoder_for header st;
  match made st !! i with
  | None => Died DeserializerGone
  | Some d =>
      match decode d header segment (world st) with
      | Ret dw =>
          Ret (with_carried (with_decoder st i dw)
                 (if continued_by_next header =? 0 then None else Some i))
      | Raised (r, dw) => Raised (r, with_decoder st i dw)
      | Died k => Died k
      end
  end.

(** A failed read inside an envelope ends the segment, the carried decoder let go. *)
Definition decode_segment (header : SegmentHeader) (segment : Cursor.Cursor) (st : State)
    : res State :=
  if sencoder_type header =? ENVELOPE then
    match Cursor.read (mem_of (world st)) segment 8 with
    | Died d => Died (OfMemoryDeath d)
    | Raised _ => Ret (with_carried st None)
    | Ret (segment, options) =>
        let protected :=
          match command_buffer with
          | Some b => set_protection_options b (of_le_bytes options) (world st)
          | None => Ret (world st)
          end in
        match protected with
        | Died k => Died k
        | Raised (r, w) => Raised (r, with_world st w)
        | Ret w =>
            let st := with_world st w in
            match Cursor.read (mem_of (world st)) segment 8 with
            | Died d => Died (OfMemoryDeath d)
            | Raised _ => Ret (with_carried st None)
            | Ret (segment, inner) => run_decoder (decode_segment_header inner) segment st
            end
        end
    end
  else run_decoder header segment st.

(** The slots in turn: what is left in them, and the walk's state. *)
Fixpoint walk_slots (slots : list (option Cursor.Cursor)) (st : State)
    : outcome (Raise R P * (list (option Cursor.Cursor) * State)) DeathKind
        (list (option Cursor.Cursor) * State) :=
  let keep slot m :=
    match m with
    | Ret (slots, st) => Ret (slot :: slots, st)
    | Raised (r, (slots, st)) => Raised (r, (slot :: slots, st))
    | Died k => Died k
    end in
  match slots with
  | [] => Ret ([], st)
  | None :: _ => Died NullSegment
  | Some segment :: slots =>
      match Cursor.read (mem_of (world st)) segment 8 with
      | Died d => Died (OfMemoryDeath d)
      | Raised _ => keep (Some segment) (walk_slots slots st)
      | Ret (segment, bs) =>
          let header := decode_segment_header bs in
          match Cursor.truncate_to segment (slength header) with
          | Died d => Died (OfMemoryDeath d)
          | Raised _ => Raised (Own SegmentLength, (Some segment :: slots, st))
          | Ret segment =>
              match decode_segment header segment st with
              | Died k => Died k
              | Raised (r, st) => Raised (r, (None :: slots, st))
              | Ret st => keep None (walk_slots slots st)
              end
          end
      end
  end.

(** After a raise the carried decoder is faulted, and a raise of the fault goes on instead. *)
Definition fault_carried (r : Raise R P) (st : State) : outcome (Raise R P * State) DeathKind Empty_set :=
  match carried st with
  | None => Raised (r, st)
  | Some i =>
      match made st !! i with
      | None => Died DeserializerGone
      | Some d =>
          match fault d (world st) with
          | Ret dw => Raised (r, with_decoder st i dw)
          | Raised (r', dw) => Raised (r', with_decoder st i dw)
          | Died k => Died k
          end
      end
  end.

Definition decode_segments (slots : list (option Cursor.Cursor)) (w : W)
    : outcome (Raise R P * (list (option Cursor.Cursor) * State)) DeathKind
        (list (option Cursor.Cursor) * State) :=
  match walk_slots slots (MkState [] None w) with
  | Ret v => Ret v
  | Died k => Died k
  | Raised (r, (slots, st)) =>
      match fault_carried r st with
      | Ret e => match e : Empty_set with end
      | Raised (r, st) => Raised (r, (slots, st))
      | Died k => Died k
      end
  end.
End Segments.

(** ** The bytes of a segment *)

(** The bytes a cursor may still read. *)
Definition bytes_of (m : GuestPtr.memory) (c : Cursor.Cursor) : list byte := map m (Cursor.rest c).

Lemma field_at bs at_ n k bs1 bs2 :
  bs = bs1 ++ le_bytes n k ++ bs2 -> length bs1 = at_ -> field bs at_ n = k mod 256 ^ Z.of_nat n.
Proof.
  intros -> <-. unfold field. rewrite drop_app_length, take_app_length'.
  - apply of_le_bytes_le_bytes.
  - by rewrite length_le_bytes.
Qed.

Lemma decode_encode_cmd h :
  u32 (command_id h) -> u32 (rec_length h) -> decode_cmd_header (encode_cmd_header h) = h.
Proof.
  intros H1 H2. destruct h as [id n]. cbn [command_id rec_length] in *.
  unfold decode_cmd_header, encode_cmd_header. cbn [command_id rec_length].
  rewrite (field_at _ 0 4 id [] (le_bytes 4 n)) by done.
  rewrite (field_at _ 4 4 n (le_bytes 4 id) []) by (by rewrite ?app_nil_r).
  change (256 ^ Z.of_nat 4) with M32. by rewrite !Z.mod_small.
Qed.

Section NextRecord.
Context {R P : Type} (m : GuestPtr.memory).
Local Abbreviation next := (next_record (R := R) (P := P) m).

Lemma remaining_rest c : Cursor.wf c -> Cursor.remaining c = Z.of_nat (length (Cursor.rest c)).
Proof.
  intros Hw. pose proof (Cursor.length_rest _ Hw). destruct Hw as [_ _ ? ? _].
  unfold Cursor.remaining. rewrite sub64_small; lia.
Qed.

(** A record in front: its header and [n] payload bytes. *)
Lemma next_record_found c id payload tail :
  Cursor.wf c -> u32 id -> 8 + Z.of_nat (length payload) < M32 ->
  bytes_of m c = encode_cmd_header (MkCmdHeader id (8 + Z.of_nat (length payload))) ++ payload ++ tail ->
  exists record c', next c
    = Ret (Some (MkCmdHeader id (8 + Z.of_nat (length payload)), record, c')) /\
    Cursor.wf record /\ Cursor.wf c' /\
    bytes_of m record = payload /\ bytes_of m c' = tail /\
    Cursor.rest record = take (length payload) (drop 8 (Cursor.rest c)) /\
    Cursor.rest c' = drop (8 + length payload) (Cursor.rest c).
Proof.
  intros Hw Hid Hlen Hb. set (h := MkCmdHeader id _) in *. pose proof M64_val. pose proof M32_val.
  assert (length (encode_cmd_header h) = 8%nat) as Hh
    by (unfold encode_cmd_header; by rewrite length_app, !length_le_bytes).
  pose proof (f_equal length Hb) as Hl. unfold bytes_of in Hl.
  rewrite length_map, !length_app, Hh in Hl.
  unfold next_record. rewrite remaining_rest by done. unfold RECORD_HEADER_SIZE.
  rewrite (proj2 (Z.ltb_ge _ 8)) by lia.
  unfold Cursor.read. destruct (Cursor.read_bytes_rest m c 8 Hw) as (c1 & -> & Hw1 & Hr1); [lia|].
  assert (map m (take (Z.to_nat 8) (Cursor.rest c)) = encode_cmd_header h) as ->.
  { change (Z.to_nat 8) with 8%nat. rewrite <- firstn_map. change (map m (Cursor.rest c)) with (bytes_of m c).
    by rewrite Hb, <- Hh, take_app_length. }
  cbn [or_raise mbind outcome_bind]. rewrite decode_encode_cmd by (cbn; lia). cbn [rec_length h].
  rewrite (proj2 (Z.ltb_ge _ 8)) by lia.
  replace (8 + Z.of_nat (length payload) - 8) with (Z.of_nat (length payload)) by lia.
  change (Z.to_nat 8) with 8%nat in Hr1.
  pose proof (Cursor.sub_cursor_spec c1 (Z.of_nat (length payload)) Hw1 ltac:(lia)) as Hsub.
  rewrite Hr1, length_drop, (proj2 (Z.leb_le _ _)), Nat2Z.id in Hsub by lia.
  destruct Hsub as (c' & record & -> & Hw' & Hwr & Hrr & Hrc). cbn [or_raise mbind outcome_bind].
  exists record, c'. split; [done|]. split; [done|]. split; [done|].
  assert (map m (drop 8 (Cursor.rest c)) = payload ++ tail) as Hp.
  { rewrite <- skipn_map. change (map m (Cursor.rest c)) with (bytes_of m c).
    by rewrite Hb, <- Hh, drop_app_length. }
  split_and!.
  - unfold bytes_of. by rewrite Hrr, <- firstn_map, Hp, take_app_length.
  - unfold bytes_of. by rewrite Hrc, <- skipn_map, Hp, drop_app_length.
  - done.
  - by rewrite Hrc, drop_drop.
Qed.

Lemma next_record_moves m' c h r c1 r' c2 :
  next c = Ret (Some (h, r, c1)) -> next_record (R := R) (P := P) m' c = Ret (Some (h, r', c2)) ->
  r = r' /\ c1 = c2.
Proof.
  unfold next_record, Cursor.read. destruct (Cursor.remaining c <? _); [done|].
  destruct (Cursor.read_bytes m c _) as [[d1 b1]| |] eqn:E1; [|done..].
  destruct (Cursor.read_bytes m' c _) as [[d2 b2]| |] eqn:E2; [|done..].
  rewrite <- (Cursor.read_bytes_moves _ _ _ _ _ _ _ _ E1 E2). cbn [or_raise mbind outcome_bind].
  destruct (_ <? _); [done|].
  destruct (Cursor.sub_cursor d1 _) as [[e1 s1]| |] eqn:F1; [|done..]. cbn [or_raise mbind outcome_bind].
  intros [= <- <- <-]. destruct (_ <? _); [done|].
  destruct (Cursor.sub_cursor d1 (rec_length (decode_cmd_header b2) - _))
    as [[e2 s2]| |] eqn:F2; [|done..]. cbn [or_raise mbind outcome_bind].
  intros [= _ Hlen <- <-]. cbn [rec_length decode_cmd_header] in F1, F2.
  rewrite Hlen, F1 in F2. by injection F2 as <- <-.
Qed.

Lemma next_record_end c : Cursor.wf c -> (length (Cursor.rest c) < 8)%nat -> next c = Ret None.
Proof.
  intros Hw Hl. unfold next_record. rewrite remaining_rest by done. unfold RECORD_HEADER_SIZE.
  by rewrite (proj2 (Z.ltb_lt _ 8)) by lia.
Qed.
End NextRecord.

(** ** A segment of whole records *)

(** A record as the guest lays it out: its id and its payload. *)
Definition record_header (r : Z * list byte) : CmdHeader :=
  MkCmdHeader r.1 (8 + Z.of_nat (length r.2)).
Definition encode_record (r : Z * list byte) : list byte := encode_cmd_header (record_header r) ++ r.2.
Definition record_ok (r : Z * list byte) : Prop :=
  u32 r.1 /\ 8 + Z.of_nat (length r.2) < M32.

(** Why a segment's bytes hold no further record: too few for a header, or a header
    whose length is below its own or past the end. *)
Inductive ending {R : Type} : list byte -> option (RaiseKind R) -> Prop :=
| end_short tail : (length tail < 8)%nat -> ending tail None
| end_underflow h tail :
    u32 (command_id h) -> u32 (rec_length h) -> rec_length h < 8 ->
    ending (encode_cmd_header h ++ tail) (Some RecordUnderflow)
| end_overrun h tail :
    u32 (command_id h) -> u32 (rec_length h) -> 8 + Z.of_nat (length tail) < rec_length h ->
    ending (encode_cmd_header h ++ tail) (Some RecordOverrun).

Lemma length_cmd_header h : length (encode_cmd_header h) = 8%nat.
Proof. unfold encode_cmd_header. by rewrite length_app, !length_le_bytes. Qed.

Lemma encode_decode_cmd bs :
  length bs = 8%nat -> encode_cmd_header (decode_cmd_header bs) = bs /\
  u32 (command_id (decode_cmd_header bs)) /\ u32 (rec_length (decode_cmd_header bs)).
Proof.
  intros Hl. unfold encode_cmd_header, decode_cmd_header, field. cbn [command_id rec_length].
  assert (length (take 4 (drop 0 bs)) = 4%nat) as H0 by (rewrite length_take, length_drop; lia).
  assert (length (take 4 (drop 4 bs)) = 4%nat) as H4 by (rewrite length_take, length_drop; lia).
  split; [|split; by apply of_le_bytes_u32].
  pose proof (le_bytes_of_le_bytes (take 4 (drop 0 bs))) as E0. rewrite H0 in E0.
  pose proof (le_bytes_of_le_bytes (take 4 (drop 4 bs))) as E4. rewrite H4 in E4.
  rewrite E0, E4, drop_0, (take_ge (drop 4 bs)) by (rewrite length_drop; lia). apply take_drop.
Qed.

(** Any bytes are records, then an ending. *)
Lemma records_total {R} bs : exists records tail e,
  bs = concat (map encode_record records) ++ tail /\ Forall record_ok records /\
  ending (R := R) tail e.
Proof.
  remember (length bs) as n eqn:Hn. revert bs Hn.
  induction n as [n IH] using (well_founded_induction Nat.lt_wf_0). intros bs ->.
  destruct (decide (length bs < 8)%nat) as [Hs|Hs]; [exists [], bs, None; split_and!; by try constructor|].
  set (h := decode_cmd_header (take 8 bs)).
  destruct (encode_decode_cmd (take 8 bs)) as (Hh & Hid & Hlen); [rewrite length_take; lia|].
  fold h in Hh, Hid, Hlen.
  assert (bs = encode_cmd_header h ++ drop 8 bs) as Hbs by (by rewrite Hh, take_drop).
  destruct (Z.lt_ge_cases (rec_length h) 8) as [Hu|Hge].
  { exists [], bs, (Some RecordUnderflow). split_and!; [done|constructor|].
    rewrite Hbs. by constructor. }
  destruct (Z.lt_ge_cases (8 + Z.of_nat (length (drop 8 bs))) (rec_length h)) as [Ho|Hfit].
  { exists [], bs, (Some RecordOverrun). split_and!; [done|constructor|].
    rewrite Hbs. by constructor. }
  set (k := Z.to_nat (rec_length h - 8)). rewrite length_drop in Hfit.
  destruct (IH (length (drop k (drop 8 bs)))) with (bs := drop k (drop 8 bs))
    as (records & tail & e & Hrest & Hok & He); [rewrite !length_drop; lia|done|].
  exists ((command_id h, take k (drop 8 bs)) :: records), tail, e. split_and!; [|constructor; [|done]|done].
  - cbn [map concat]. unfold encode_record at 1, record_header. cbn [fst snd].
    rewrite length_take, length_drop.
    replace (8 + Z.of_nat (k `min` (length bs - 8))) with (rec_length h) by lia.
    replace (MkCmdHeader (command_id h) (rec_length h)) with h by (by destruct h).
    rewrite <- !app_assoc, <- Hrest, take_drop. done.
  - split; cbn [fst snd]; [done|]. rewrite length_take, length_drop. lia.
Qed.

Lemma next_record_ending {R P} (m : GuestPtr.memory) c e :
  Cursor.wf c -> ending (R := R) (bytes_of m c) e ->
  next_record (R := R) (P := P) m c
  = match e with None => Ret None | Some k => Raised (Own k) end.
Proof.
  intros Hw He. remember (bytes_of m c) as bs eqn:Hb.
  destruct He as [tail Hs|h tail Hid Hlen Hu|h tail Hid Hlen Ho].
  { apply next_record_end; [done|]. rewrite Hb in Hs. unfold bytes_of in Hs. by rewrite length_map in Hs. }
  all: pose proof (f_equal length Hb) as Hl; unfold bytes_of in Hl;
    rewrite length_map, length_app, length_cmd_header in Hl;
    unfold next_record; rewrite remaining_rest by done; unfold RECORD_HEADER_SIZE;
    rewrite (proj2 (Z.ltb_ge _ 8)) by lia; unfold Cursor.read;
    destruct (Cursor.read_bytes_rest m c 8 Hw) as (c1 & -> & Hw1 & Hr1); [lia|];
    (assert (map m (take (Z.to_nat 8) (Cursor.rest c)) = encode_cmd_header h) as ->
      by (change (Z.to_nat 8) with 8%nat; rewrite <- firstn_map; change (map m (Cursor.rest c)) with (bytes_of m c);
          by rewrite <- Hb, <- (length_cmd_header h), take_app_length));
    cbn [or_raise mbind outcome_bind]; rewrite decode_encode_cmd by done.
  - by rewrite (proj2 (Z.ltb_lt _ 8)) by done.
  - rewrite (proj2 (Z.ltb_ge _ 8)) by lia. pose proof M64_val. pose proof M32_val.
    pose proof (Cursor.sub_cursor_spec c1 (rec_length h - 8) Hw1 ltac:(lia)) as Hsub.
    change (Z.to_nat 8) with 8%nat in Hr1.
    rewrite Hr1, length_drop, (proj2 (Z.leb_gt _ _)) in Hsub by lia. by rewrite Hsub.
Qed.

Section Loop.
Context {R P S : Type} (mem_of : S -> GuestPtr.memory)
  (handle : CmdHeader -> Cursor.Cursor -> S -> outcome (Raise R P * S) DeathKind S).

(** The records handled in turn, the first raise or death ending it. *)
Fixpoint handle_all (records : list (CmdHeader * Cursor.Cursor)) (s : S)
    : outcome (Raise R P * S) DeathKind S :=
  match records with
  | [] => Ret s
  | (h, c) :: records => s ← handle h c s; handle_all records s
  end.

(** The cursor of each record: its payload's place in the segment. *)
Inductive laid_out (m : GuestPtr.memory) : list Z -> list (Z * list byte)
    -> list (CmdHeader * Cursor.Cursor) -> Prop :=
| laid_end xs : laid_out m xs [] []
| laid_record xs r rs c cs :
    Cursor.wf c -> bytes_of m c = r.2 ->
    Cursor.rest c = take (length r.2) (drop 8 xs) ->
    laid_out m (drop (8 + length r.2) xs) rs cs ->
    laid_out m xs (r :: rs) ((record_header r, c) :: cs).

(** The handler leaves the segment's bytes as they are. *)
Definition keeps_bytes (xs : list Z) : Prop :=
  forall h c s s', handle h c s = Ret s' -> forall a, a ∈ xs -> mem_of s' a = mem_of s a.

Lemma bytes_of_same m m' c :
  (forall a, a ∈ Cursor.rest c -> m' a = m a) -> bytes_of m' c = bytes_of m c.
Proof. intros Hm. apply map_ext_in. intros a Ha. apply Hm. by apply list_elem_of_In. Qed.

(** What the loop does once its records are handled. *)
Definition ended (e : option (RaiseKind R)) (s : S) : outcome (Raise R P * S) DeathKind S :=
  match e with None => Ret s | Some k => Raised (Own k, s) end.

Lemma record_loop_handles xs m tail e records :
  keeps_bytes xs -> Forall record_ok records -> ending tail e -> forall c,
  Cursor.wf c -> Cursor.rest c ⊆ xs -> bytes_of m c = concat (map encode_record records) ++ tail ->
  exists cs, laid_out m (Cursor.rest c) records cs /\
    forall fuel s, (forall a, a ∈ xs -> mem_of s a = m a) -> (length records < fuel)%nat ->
      record_loop mem_of handle fuel c s = (s ← handle_all cs s; ended e s).
Proof.
  intros Hkeep Hok He. induction records as [|[id payload] records IH]; intros c Hw Hxs Hb.
  - exists []. split; [constructor|]. intros [|fuel] s Hm Hf; cbn [length] in Hf; [lia|].
    cbn [record_loop]. rewrite (next_record_ending _ _ e).
    + by destruct e.
    + done.
    + cbn in Hb. rewrite <- Hb in He. erewrite bytes_of_same; [exact He|]. intros a Ha. by apply Hm, Hxs.
  - apply list.Forall_cons in Hok as [[Hid Hlen] Hok]. cbn [fst snd] in *.
    cbn [map concat] in Hb. unfold encode_record at 1 in Hb. rewrite <- !app_assoc in Hb.
    destruct (next_record_found (R := R) (P := P) m c id payload _ Hw Hid Hlen Hb) as
      (record & c' & Hnext & Hwr & Hw' & Hbr & Hbc & Hrr & Hrc).
    destruct (IH Hok c' Hw') as (cs & Hcs & Hrun); [by rewrite Hrc, subseteq_drop|done|].
    exists ((record_header (id, payload), record) :: cs). split.
    { constructor; [done..|]. cbn [snd]. by rewrite <- Hrc. }
    intros [|fuel] s Hm Hf; cbn [length] in Hf; [lia|]. cbn [record_loop].
    assert (bytes_of (mem_of s) c = bytes_of m c) as Hsame
      by (apply bytes_of_same; intros a Ha; by apply Hm, Hxs).
    rewrite <- Hsame in Hb.
    destruct (next_record_found (R := R) (P := P) (mem_of s) c id payload _ Hw Hid Hlen Hb) as
      (record' & c2 & Hnext' & _).
    destruct (next_record_moves _ _ _ _ _ _ _ _ Hnext Hnext') as [<- <-]. rewrite Hnext'.
    cbn [leaving mbind outcome_bind handle_all].
    change (MkCmdHeader id (8 + Z.of_nat (length payload))) with (record_header (id, payload)).
    destruct (handle (record_header (id, payload)) record s) as [s'|r|k] eqn:E; [|done..].
    cbn [mbind outcome_bind]. apply Hrun; [|lia]. intros a Ha. by rewrite (Hkeep _ _ _ _ E a Ha), Hm.
Qed.

Lemma records_bytes records : (8 * length records <= length (concat (map encode_record records)))%nat.
Proof.
  induction records as [|r records IH]; [done|]. cbn [map concat length].
  rewrite length_app. unfold encode_record at 1. rewrite length_app, length_cmd_header. lia.
Qed.

(** A decoder's loop over any segment. Whatever bytes a well-formed cursor has left, they
    are whole records and one of the three endings, and the loop hands the records to the
    decoder in order, each under a cursor over exactly its payload's place, until one
    raises; then it stops at the ending: fewer than a header's bytes are left unread, a
    length below the header's is an underflow and one past the end an overrun, both
    raised before dispatch. The loop's fuel is enough for every segment. *)
Theorem records_of_dispatches c s :
  Cursor.wf c -> keeps_bytes (Cursor.rest c) ->
  exists records tail e cs,
    bytes_of (mem_of s) c = concat (map encode_record records) ++ tail /\
    Forall record_ok records /\ ending tail e /\
    laid_out (mem_of s) (Cursor.rest c) records cs /\
    records_of mem_of handle c s = (s ← handle_all cs s; ended e s).
Proof.
  intros Hw Hkeep. destruct (records_total (R := R) (bytes_of (mem_of s) c)) as (records & tail & e & Hb & Hok & He).
  destruct (record_loop_handles _ _ _ _ _ Hkeep Hok He c Hw (reflexivity _) Hb) as (cs & Hcs & Hrun).
  exists records, tail, e, cs. split_and!; try done. unfold records_of. apply Hrun; [done|].
  apply (f_equal length) in Hb. unfold bytes_of in Hb. rewrite length_map, length_app in Hb.
  pose proof (records_bytes records). rewrite remaining_rest by done. unfold RECORD_HEADER_SIZE.
  pose proof (Z.div_le_lower_bound (Z.of_nat (length (Cursor.rest c))) 8 (Z.of_nat (length records))).
  lia.
Qed.
End Loop.

(** One record of id 0x1c2 and a 3-byte tail; the handler logs the ids. *)
Definition sample_segment : Cursor.Cursor := Cursor.from_ranges [Cursor.MkRange 0x200000000 15].
Definition sample_memory : GuestPtr.memory :=
  GuestPtr.store_at (fun _ => x00) 0x200000000 (encode_record (0x1c2, [x01; x02; x03; x04])).

Lemma sample_segment_wf : Cursor.wf sample_segment.
Proof.
  apply Cursor.from_ranges_rest. split; [|done|done].
  repeat constructor; cbn; unfold GuestPtr.ZERO_REGION_END, M64; lia.
Qed.

Lemma records_of_dispatches_witness :
  let handle h (_ : Cursor.Cursor) (s : list Z) : outcome (Raise Empty_set Empty_set * list Z) DeathKind (list Z)
    := Ret (s ++ [command_id h]) in
  exists records tail e cs,
    bytes_of sample_memory sample_segment = concat (map encode_record records) ++ tail /\
    Forall record_ok records /\ ending tail e /\
    laid_out sample_memory (Cursor.rest sample_segment) records cs /\
    records_of (fun _ => sample_memory) handle sample_segment []
    = (s ← handle_all handle cs []; ended e s).
Proof.
  intros handle.
  apply (records_of_dispatches (fun _ => sample_memory) handle sample_segment []);
    [apply sample_segment_wf|]. intros h c s s' _ a _. reflexivity.
Defined.

(** ** Chains of segments

    A segment that neither continues the one before nor is continued is a chain of its
    own; a continued one and its continuations are a chain. The reference decodes each
    chain with one decoder of its first segment's type. *)

Section Chains.
Context {D B W R P : Type} `{DecoderLaws D B W R P} (command_buffer : option B).
Local Abbreviation res := (outcome (Raise R P * W) DeathKind).

(** A segment: its header and the cursor its decoder is given. *)
Definition Segment : Type := SegmentHeader * Cursor.Cursor.

(** The segments after a chain's first: a raise faults the decoder, and a raise of the
    fault goes on instead. *)
Fixpoint decode_rest (d : D) (segments : list Segment) (w : W) : res (D * W) :=
  match segments with
  | [] => Ret (d, w)
  | (h, c) :: segments =>
      match decode d h c w with
      | Ret (d, w) => decode_rest d segments w
      | Died k => Died k
      | Raised (r, (d, w)) =>
          match fault d w with
          | Ret (_, w) => Raised (r, w)
          | Raised (r', (_, w)) => Raised (r', w)
          | Died k => Died k
          end
      end
  end.

Definition decode_chain (chain : Segment * list Segment) (w : W) : res (D * W) :=
  let '((h, c), segments) := chain in
  '(d, w) ← for_segment (sencoder_type h) command_buffer w;
  match decode d h c w with
  | Ret (d, w) => decode_rest d segments w
  | Died k => Died k
  | Raised (r, (_, w)) => Raised (r, w)
  end.

Fixpoint decode_chains (chains : list (Segment * list Segment)) (w : W) : res (list D * W) :=
  match chains with
  | [] => Ret ([], w)
  | chain :: chains =>
      '(d, w) ← decode_chain chain w;
      '(ds, w) ← decode_chains chains w;
      Ret (d :: ds, w)
  end.

(** The flags of a chain's continuations: of its type, and only the last not continued. *)
Fixpoint continues (type : Z) (segments : list Segment) : Prop :=
  match segments with
  | [] => False
  | [(h, _)] => continues_previous h <> 0 /\ sencoder_type h = type /\ continued_by_next h = 0
  | (h, _) :: segments =>
      continues_previous h <> 0 /\ sencoder_type h = type /\ continued_by_next h <> 0 /\
      continues type segments
  end.
Definition chained (chain : Segment * list Segment) : Prop :=
  let '((h, _), segments) := chain in
  sencoder_type h <> ENVELOPE /\ continues_previous h = 0 /\
  match segments with
  | [] => continued_by_next h = 0
  | _ => continued_by_next h <> 0 /\ continues (sencoder_type h) segments
  end.

(** The slot [c] holds the segment [s] in memory [m]: its header reads as [s]'s and its
    length applies. *)
Definition opens (m : GuestPtr.memory) (c : Cursor.Cursor) (s : Segment) : Prop :=
  exists c1 bs, Cursor.read m c 8 = Ret (c1, bs) /\ decode_segment_header bs = s.1 /\
    Cursor.truncate_to c1 (slength s.1) = Ret s.2.

Definition segments_of (chain : Segment * list Segment) : list Segment := chain.1 :: chain.2.

(** ** The walk of whole chains *)

Context (I : W -> Prop).
Hypothesis (Hfor : forall t w d w', I w -> for_segment t command_buffer w = Ret (d, w') -> I w')
  (Hdec : forall d h c w d' w', I w -> decode d h c w = Ret (d', w') -> I w').

(** What a walk comes to, its slots left aside. *)
Definition result
    (m : outcome (Raise R P * (list (option Cursor.Cursor) * State (D:=D) (W:=W))) DeathKind
           (list (option Cursor.Cursor) * State (D:=D) (W:=W))) : res (list D * W) :=
  match m with
  | Ret (_, st) => Ret (made st, world st)
  | Died k => Died k
  | Raised (r, (_, st)) =>
      match fault_carried r st with
      | Ret e => match e : Empty_set with end
      | Raised (r, st) => Raised (r, world st)
      | Died k => Died k
      end
  end.

Lemma lookup_last (pre : list D) d : (pre ++ [d]) !! length pre = Some d.
Proof. by rewrite list_lookup_middle. Qed.
Lemma insert_last (pre : list D) d d' : <[length pre := d']> (pre ++ [d]) = pre ++ [d'].
Proof. rewrite insert_app_r_alt by lia. by rewrite Nat.sub_diag. Qed.

Definition carried_on (h : SegmentHeader) (i : nat) : option nat :=
  if continued_by_next h =? 0 then None else Some i.

Lemma decode_segment_carried pre d h c w :
  sencoder_type h <> ENVELOPE -> continues_previous h <> 0 -> sencoder_type h = encoder_type d ->
  decode_segment command_buffer h c (MkState (pre ++ [d]) (Some (length pre)) w)
  = match decode d h c w with
    | Ret (d', w') => Ret (MkState (pre ++ [d']) (carried_on h (length pre)) w')
    | Raised (r, (d', w')) => Raised (r, MkState (pre ++ [d']) (Some (length pre)) w')
    | Died k => Died k
    end.
Proof.
  intros He Hc Ht. unfold decode_segment, run_decoder, decoder_for, carried_decoder.
  rewrite (proj2 (Z.eqb_neq _ _) He), (proj2 (Z.eqb_neq _ _) Hc).
  cbn [carried made world negb mbind option_bind]. rewrite lookup_last. cbn [from_option].
  rewrite (proj2 (Z.eqb_eq _ _) Ht). cbn [negb mbind outcome_bind carried made world].
  rewrite lookup_last. destruct (decode d h c w) as [[d' w']|[r [d' w']]|k]; [|by unfold with_decoder; cbn; rewrite insert_last|done].
  unfold with_carried, with_decoder. cbn. by rewrite insert_last.
Qed.

Lemma decode_segment_fresh pre h c w :
  sencoder_type h <> ENVELOPE -> continues_previous h = 0 ->
  decode_segment command_buffer h c (MkState pre None w)
  = match for_segment (sencoder_type h) command_buffer w with
    | Raised (r, w) => Raised (r, MkState pre None w)
    | Died k => Died k
    | Ret (d, w) =>
        match decode d h c w with
        | Ret (d', w') => Ret (MkState (pre ++ [d']) (carried_on h (length pre)) w')
        | Raised (r, (d', w')) => Raised (r, MkState (pre ++ [d']) None w')
        | Died k => Died k
        end
    end.
Proof.
  intros He Hc. unfold decode_segment, run_decoder, decoder_for.
  rewrite (proj2 (Z.eqb_neq _ _) He), (proj2 (Z.eqb_eq _ _) Hc). cbn [negb carried world made].
  destruct (for_segment _ _ w) as [[d w1]|[r w1]|k]; [|done..].
  cbn [mbind outcome_bind made world]. rewrite lookup_last.
  destruct (decode d h c w1) as [[d' w']|[r [d' w']]|k]; [|by unfold with_decoder; cbn; rewrite insert_last|done].
  unfold with_carried, with_decoder. cbn. by rewrite insert_last.
Qed.

(** A segment that opens, then the rest of the walk. *)
Lemma walk_opened c s slots st :
  opens (mem_of (world st)) c s ->
  result (walk_slots command_buffer (Some c :: slots) st)
  = match decode_segment command_buffer s.1 s.2 st with
    | Died k => Died k
    | Raised (r, st) => result (Raised (r, (None :: slots, st)))
    | Ret st => result (walk_slots command_buffer slots st)
    end.
Proof.
  intros (c1 & bs & Hr & Hh & Ht). cbn [walk_slots]. rewrite Hr, Hh, Ht.
  destruct (decode_segment _ _ _ _) as [st'|[r st']|k]; [|done..].
  by destruct (walk_slots command_buffer slots st') as [[? ?]|[? [? ?]]|?].
Qed.

Definition open_in (c : Cursor.Cursor) (s : Segment) : Prop := forall w, I w -> opens (mem_of w) c s.

Lemma walk_rest segments : forall cs slots pre d w,
  Forall2 open_in cs segments -> continues (encoder_type d) segments ->
  encoder_type d <> ENVELOPE -> I w ->
  result (walk_slots command_buffer (map Some cs ++ slots) (MkState (pre ++ [d]) (Some (length pre)) w))
  = match decode_rest d segments w with
    | Ret (d', w') => result (walk_slots command_buffer slots (MkState (pre ++ [d']) None w'))
    | Raised (r, w') => Raised (r, w')
    | Died k => Died k
    end.
Proof.
  induction segments as [|[h c] segments IH]; intros cs slots pre d w Hcs Hco He Hw; [done|].
  inversion Hcs as [|c0 ? cs' ? Hopen Hcs']; subst. cbn [map app decode_rest].
  rewrite (walk_opened c0 (h, c)) by (by apply Hopen). cbn [fst snd].
  assert (continues_previous h <> 0 /\ sencoder_type h = encoder_type d) as [Hcp Ht]
    by (destruct segments; cbn in Hco; destruct_and!; done).
  rewrite decode_segment_carried by (congruence || done).
  destruct (decode d h c w) as [[d' w']|[r [d' w']]|k] eqn:E; [| |done].
  - pose proof (decode_type _ _ _ _ _ _ E) as Ht'. unfold carried_on.
    destruct segments as [|s segments].
    + destruct Hco as (_ & _ & ->). inversion Hcs'. by subst.
    + destruct Hco as (_ & _ & Hn & Hco). rewrite (proj2 (Z.eqb_neq _ _) Hn).
      apply IH; [done|by rewrite Ht'|by rewrite Ht'|by eapply Hdec].
  - cbn [result fault_carried carried made world]. rewrite lookup_last.
    by destruct (fault d' w') as [[? ?]|[? [? ?]]|?].
Qed.

Lemma decode_rest_keeps segments : forall d w d' w', I w -> decode_rest d segments w = Ret (d', w') -> I w'.
Proof.
  induction segments as [|[h c] segments IH]; intros d w d' w' Hw; cbn [decode_rest].
  - by intros [= <- <-].
  - destruct (decode d h c w) as [[d1 w1]|[r [d1 w1]]|k] eqn:E; [|by destruct (fault d1 w1) as [[? ?]|[? [? ?]]|?]|done].
    apply IH. by eapply Hdec.
Qed.

Lemma walk_chains chains : forall css pre w,
  Forall2 (fun cs chain => Forall2 open_in cs (segments_of chain)) css chains ->
  Forall chained chains -> I w ->
  result (walk_slots command_buffer (map Some (concat css)) (MkState pre None w))
  = ('(ds, w) ← decode_chains chains w; Ret (pre ++ ds, w)).
Proof.
  induction chains as [|[[h c] segments] chains IH]; intros css pre w Hcss Hch Hw.
  { inversion Hcss; subst. cbn. by rewrite app_nil_r. }
  inversion Hcss as [|cs ? css' ? Hcs Hcss']; subst. apply list.Forall_cons in Hch as [(He & Hcp & Hco) Hch].
  inversion Hcs as [|c0 ? cs' ? Hopen Hcs']; subst. cbn [concat]. rewrite map_app.
  cbn [map app decode_chains decode_chain]. rewrite (walk_opened c0 (h, c)) by (by apply Hopen).
  cbn [fst snd]. rewrite decode_segment_fresh by done.
  destruct (for_segment _ _ w) as [[d w1]|[r w1]|k] eqn:E; [|done..]. cbn [mbind outcome_bind].
  destruct (decode d h c w1) as [[d2 w2]|[r [d2 w2]]|k] eqn:E2; [|done..].
  assert (I w2) as Hw2 by (eapply Hdec; [|done]; by eapply Hfor).
  pose proof (for_segment_type _ _ _ _ _ E) as Ht. pose proof (decode_type _ _ _ _ _ _ E2) as Ht2.
  assert (forall d' w', I w' ->
    result (walk_slots command_buffer (map Some (concat css')) (MkState (pre ++ [d']) None w'))
    = ('(ds, w) ← ('(ds, w) ← decode_chains chains w'; Ret (d' :: ds, w)); Ret (pre ++ ds, w))) as Hnext.
  { intros d' w' Hw'. rewrite IH by done. destruct (decode_chains chains w') as [[ds w3]| |]; [|done..].
    cbn [mbind outcome_bind]. by rewrite <- app_assoc. }
  unfold carried_on. destruct segments as [|s segments].
  - rewrite Hco. cbn [Z.eqb decode_rest mbind outcome_bind]. inversion Hcs'; subst. cbn [map app].
    by apply Hnext.
  - destruct Hco as [Hn Hco]. rewrite (proj2 (Z.eqb_neq _ _) Hn).
    rewrite (walk_rest (s :: segments)) by (done || congruence).
    destruct (decode_rest d2 (s :: segments) w2) as [[d' w']|[r w']|k] eqn:Er; [|done..].
    cbn [mbind outcome_bind]. apply Hnext. by eapply decode_rest_keeps.
Qed.
End Chains.

(** C5: a walk of chains of segments decodes each chain with one decoder made for its first
    segment's type, in order, and hands the decoders back in the order made. A raise ends
    the walk with the world the decoders left, and a raise in a continuation faults the
    decoder first, the fault's own raise going on instead. [I] is what keeps the
    segments' headers readable while the decoders run. *)
Theorem decode_segments_chains {D B W R P : Type} `{DecoderLaws D B W R P}
    (command_buffer : option B) (I : W -> Prop)
    (chains : list (Segment * list Segment)) (css : list (list Cursor.Cursor)) (w : W) :
  (forall t w d w', I w -> for_segment t command_buffer w = Ret (d, w') -> I w') ->
  (forall d h c w d' w', I w -> decode d h c w = Ret (d', w') -> I w') ->
  Forall2 (fun cs chain => Forall2 (open_in I) cs (segments_of chain)) css chains ->
  Forall chained chains -> I w ->
  match decode_segments command_buffer (map Some (concat css)) w with
  | Ret (_, st) => Ret (made st, world st)
  | Raised (r, (_, st)) => Raised (r, world st)
  | Died k => Died k
  end = decode_chains command_buffer chains w.
Proof.
  intros Hfor Hdec Hcss Hch Hw.
  pose proof (walk_chains command_buffer I Hfor Hdec chains css [] w Hcss Hch Hw) as Hres.
  unfold decode_segments. transitivity (result (walk_slots command_buffer (map Some (concat css)) (MkState [] None w))).
  - destruct (walk_slots _ _ _) as [[? ?]|[r [? st]]|?]; [done| |done]. cbn [result].
    by destruct (fault_carried r st) as [[]|[? ?]|?].
  - rewrite Hres. by destruct (decode_chains command_buffer chains w) as [[? ?]| |].
Qed.

(** Decoders that log the types they are asked for and the segments they decode. *)
Section Logged.
Context (m : GuestPtr.memory).

Definition logging : DecoderOps Z Empty_set (list Z) Empty_set Empty_set := {|
  mem_of _ := m;
  for_segment t _ w := if decide (t ∈ [0; 1; 2; 4]) then Ret (t, w) else Raised (Own EncoderType, w);
  encoder_type d := d;
  decode d h _ w := Ret (d, w ++ [slength h]);
  fault d w := Ret (d, w);
  set_protection_options _ _ w := Ret w;
|}.

Definition logging_laws : @DecoderLaws _ _ _ _ _ logging.
Proof.
  split.
  - intros t b w d w'. cbn. destruct (decide _); [congruence|done].
  - intros t b w Ht. cbn. by rewrite decide_False.
  - intros d h c w d' w'. cbn. congruence.
Defined.
End Logged.

(** Two blit segments, the second continuing the first. *)
Definition segment_memory : GuestPtr.memory :=
  GuestPtr.store_at (fun _ => x00) 0x200000000
    [x08; x00; x00; x00; x02; x00; x01; x00; x08; x00; x00; x00; x02; x01; x00; x00].

Lemma decode_segments_chains_witness :
  match @decode_segments _ _ _ _ _ (logging segment_memory) None
          (map Some [Cursor.from_pointer 0x200000000 8; Cursor.from_pointer 0x200000008 8]) [] with
  | Ret (_, st) => Ret (made st, world st)
  | Raised (r, (_, st)) => Raised (r, world st)
  | Died k => Died k
  end = Ret ([2], [8; 8]).
Proof.
  set (c1 := Cursor.from_pointer 0x200000000 8). set (c2 := Cursor.from_pointer 0x200000008 8).
  set (h1 := MkSegmentHeader 8 2 0 1 0). set (h2 := MkSegmentHeader 8 2 1 0 0).
  pose proof (@decode_segments_chains _ _ _ _ _ _ (logging_laws segment_memory) None (fun _ => True)
    [((h1, Cursor.MkCursor (Cursor.ranges c1) 2 0 8 8), [(h2, Cursor.MkCursor (Cursor.ranges c2) 2 0 8 8)])]
    [[c1; c2]] []) as H.
  apply H; clear H; try done.
  - repeat constructor; intros w _; eexists _, _; (split; [reflexivity|split; reflexivity]).
  - repeat constructor; done.
Defined.

End Walk.
