(* ===== verification/Info.v ===== *)
(** * Info: the info decoder
    (src/crates/reims-vgpu-core/src/deserializer/info.rs, deserializer.rs, records.rs)

    The guest's queries about host objects, each answered by a reply written into a
    guest buffer when its record is decoded. The host objects, their getters and the
    delegate that looks them up are the interface [InfoPlatform] over the decoder's
    world; a record and a reply are their bytes. A coordinate is the pair of its
    fields' bit patterns, since the decoder never computes with it. *)

From S2P Require Import Prelude Num MemoryKinds GuestPtr Cursor Walk.
Import Walk.

Module Info.

(** The decoder's steps, over its world. *)
Abbreviation M W R P := (Run W (Raise R P) DeathKind).
Definition unless {W R P} (c : bool) (k : RaiseKind R) : M W R P unit :=
  if c then mret tt else raise (Own k).

(** ** Records *)

(** The 16-byte queries: a reference, then the reply's buffer and offset. *)
Record CmdQuery := MkQuery {
  object_reference : Z;
  reply_buffer_reference : Z;
  reply_buffer_offset : Z;
}.
Definition decode_query (bs : list byte) : CmdQuery :=
  MkQuery (field bs 0 4) (field bs 4 4) (field bs 8 8).

Definition MTL_STORAGE_MODE_SHARED : Z := 0.
Definition OBJECT_TYPE_TEXTURE : Z := 1.
Definition OBJECT_TYPE_ICB : Z := 5.
Definition OBJECT_TYPE_RENDER_PIPELINE : Z := 9.
Definition OBJECT_TYPE_COMPUTE_PIPELINE : Z := 10.

(** The replies' bytes, padding included. *)
Definition ReplyComputePipelineStateInfo (threads width memory icbs : Z) : list byte :=
  le_bytes 8 threads ++ le_bytes 8 width ++ le_bytes 8 memory ++ le_bytes 1 icbs ++ [x00; x00; x00].
Definition ReplyRenderPipelineStateInfo (threads sample tile icbs : Z) : list byte :=
  le_bytes 4 threads ++ le_bytes 4 sample ++ le_bytes 1 tile ++ le_bytes 1 icbs ++ [x00; x00].
Definition ReplyHeapTextureSizeAndAlign (size align : Z) : list byte :=
  le_bytes 8 size ++ le_bytes 8 align.
Definition ReplyHostObjectInfo (gpu_resource_id resource_index : Z) : list byte :=
  le_bytes 8 gpu_resource_id ++ le_bytes 8 resource_index.
Definition ReplyBufferHostResourceInfo (gpu_address : Z) : list byte := le_bytes 8 gpu_address.
Definition ReplyUniqueIdentifierDeprecated (identifier : Z) : list byte := le_bytes 8 identifier.
Definition ReplyPipelineStateImageBlockMemoryLength (length : Z) : list byte := le_bytes 4 length.
Definition ReplyRasterizationRateMapInfo (size align width height : Z) : list byte :=
  le_bytes 8 size ++ le_bytes 8 align ++ le_bytes 2 width ++ le_bytes 2 height.
Definition Cmd2DSize16 (width height : Z) : list byte := le_bytes 2 width ++ le_bytes 2 height.
Definition Coordinate2DRecord (c : Z * Z) : list byte := le_bytes 4 c.1 ++ le_bytes 4 c.2.
Definition decode_coordinate (bs : list byte) : Z * Z := (field bs 0 4, field bs 4 4).

(** ** The platform *)

(** The getters that answer a number, and those that answer a flag. *)
Inductive Getter : Type :=
| MaxTotalThreadsPerThreadgroup
| ThreadExecutionWidth
| StaticThreadgroupMemoryLength
| ImageblockSampleLength
| UniqueIdentifier
| GuestUniqueIdentifier
| GpuAddress
| GpuResourceId
| ResourceIndex
| StorageMode
| Length
| LayerCount.
Inductive Flag : Type := SupportIndirectCommandBuffers | ThreadgroupSizeMatchesTileSize.

Class InfoPlatform (W Obj T R P : Type) := {
  memory_of : W -> GuestPtr.memory;
  store_memory : GuestPtr.memory -> W -> W;
  lookup : ObjectKind -> Z -> M W R P (option Obj);
  new_memory_cursor_for_buffer : Z -> M W R P (option Cursor.Cursor);
  texture_descriptor_for_descriptor : list byte -> M W R P (option T);
  texture_descriptor_for_descriptor2 : list byte -> M W R P (option T);
  (* the task's device, if it has one *)
  device_size_and_align : option (T -> M W R P (Z * Z));
  getter : Getter -> Obj -> W -> Z * W;
  flag : Flag -> Obj -> W -> bool * W;
  parameter_buffer_size_and_align : Obj -> W -> (Z * Z) * W;
  physical_granularity : Obj -> W -> (Z * Z) * W;
  imageblock_memory_length : Obj -> Z * Z * Z -> M W R P Z;
  physical_size : Obj -> Z -> M W R P (Z * Z);
  screen_to_physical : Obj -> Z * Z -> Z -> M W R P (Z * Z);
  physical_to_screen : Obj -> Z * Z -> Z -> M W R P (Z * Z);
  copy_parameter_data : Obj -> Obj -> Z -> M W R P unit;
  depth_stencil_gpu_resource_id : Obj -> M W R P Z;
  depth_stencil_resource_index : Obj -> M W R P Z;
}.

Section Decoder.
Context {W Obj T R P : Type} `{InfoPlatform W Obj T R P}.
(** Whether the thread's isolated task has ended, and how a write then stops it. *)
Context (stopped : Memory.mdeath) (task_ended : bool).
Local Abbreviation M := (M W R P).

Definition ask (g : Getter) (o : Obj) : M Z := fun w => Ret (getter g o w).
Definition ask_flag (f : Flag) (o : Obj) : M Z :=
  fun w => let '(b, w) := flag f o w in Ret (Z.b2z b, w).

(** An operation of a cursor, its refusal the raise [r]. *)
Definition cursor_op {A} (r : Raise R P) (m : GuestPtr.memory -> Cursor.cres A) : M A := fun w =>
  a ← leaving w (or_raise r (m (memory_of w))); Ret (a, w).

(** [read_or_raise] of a record of [n] bytes. *)
Definition read_record (c : Cursor.Cursor) (n : Z) : M (list byte) :=
  '(_, bs) ← cursor_op (OfMemory Memory.CursorReadFailed) (fun m => Cursor.read m c n); mret bs.

Definition required {A} (found : option A) (kind : ObjectKind) : M A :=
  match found with Some o => mret o | None => raise (Own (MissingObject kind)) end.
Definition require (kind : ObjectKind) (reference : Z) : M Obj :=
  found ← lookup kind reference; required found kind.

Definition write_reply (writer : Cursor.Cursor) (reply : list byte) : M Cursor.Cursor := fun w =>
  '(writer, m) ← leaving w (or_raise (Own ReplyWrite)
    (Cursor.write stopped task_ended (memory_of w) writer reply));
  Ret (writer, store_memory m w).

(** The reply cursor, moved on; [advance] clamps and answers nothing. *)
Definition reply_cursor (buffer_reference offset : Z) : M Cursor.Cursor :=
  found ← new_memory_cursor_for_buffer buffer_reference;
  match found with
  | None => raise (Own ReplyCursor)
  | Some writer => cursor_op (Own ReplyCursor) (fun _ => Cursor.advance writer offset)
  end.

(** ** The queries *)

(** A 16-byte query about an object: the record, the object, the reply's cursor, the
    answer and its write. *)
Definition query (kind : ObjectKind) (answer : Obj -> M (list byte)) (c : Cursor.Cursor) : M unit :=
  bs ← read_record c 0x10;
  let command := decode_query bs in
  o ← require kind (object_reference command);
  writer ← reply_cursor (reply_buffer_reference command) (reply_buffer_offset command);
  reply ← answer o;
  _ ← write_reply writer reply; mret tt.

Definition host_object_reply (o : Obj) : M (list byte) :=
  id ← ask GpuResourceId o; index ← ask ResourceIndex o; mret (ReplyHostObjectInfo id index).

Definition compute_pipeline_state_info : Cursor.Cursor -> M unit :=
  query ComputePipeline (fun o =>
    threads ← ask MaxTotalThreadsPerThreadgroup o;
    width ← ask ThreadExecutionWidth o;
    memory ← ask StaticThreadgroupMemoryLength o;
    icbs ← ask_flag SupportIndirectCommandBuffers o;
    mret (ReplyComputePipelineStateInfo (Num.low_u32 threads) (Num.low_u32 width)
            (Num.low_u32 memory) icbs)).

Definition render_pipeline_state_info : Cursor.Cursor -> M unit :=
  query RenderPipeline (fun o =>
    threads ← ask MaxTotalThreadsPerThreadgroup o;
    sample ← ask ImageblockSampleLength o;
    tile ← ask_flag ThreadgroupSizeMatchesTileSize o;
    icbs ← ask_flag SupportIndirectCommandBuffers o;
    mret (ReplyRenderPipelineStateInfo (Num.low_u32 threads) (Num.low_u32 sample) tile icbs)).

Definition buffer_gpu_address : Cursor.Cursor -> M unit :=
  query Buffer (fun o => a ← ask GpuAddress o; mret (ReplyBufferHostResourceInfo a)).
Definition heap_gpu_address : Cursor.Cursor -> M unit :=
  query Heap (fun o => a ← ask GpuAddress o; mret (ReplyBufferHostResourceInfo a)).
Definition texture_host_info : Cursor.Cursor -> M unit := query Texture host_object_reply.
Definition sampler_state_host_info : Cursor.Cursor -> M unit := query SamplerState host_object_reply.
Definition icb_host_info : Cursor.Cursor -> M unit := query Icb host_object_reply.
Definition render_pipeline_host_info : Cursor.Cursor -> M unit :=
  query RenderPipeline host_object_reply.
Definition compute_pipeline_host_info : Cursor.Cursor -> M unit :=
  query ComputePipeline host_object_reply.
Definition depth_stencil_host_info : Cursor.Cursor -> M unit :=
  query DepthStencilState (fun o =>
    id ← depth_stencil_gpu_resource_id o; index ← depth_stencil_resource_index o;
    mret (ReplyHostObjectInfo id index)).

(** The image block queries: a reference, three 64-bit dimensions, the reply's place. *)
Definition image_block_memory_length (kind : ObjectKind) (c : Cursor.Cursor) : M unit :=
  bs ← read_record c 0x28;
  o ← require kind (field bs 0 4);
  writer ← reply_cursor (field bs 28 4) (field bs 32 8);
  length ← imageblock_memory_length o (field bs 4 8, field bs 12 8, field bs 20 8);
  _ ← write_reply writer (ReplyPipelineStateImageBlockMemoryLength (Num.low_u32 length)); mret tt.
Definition render_pipeline_image_block_memory_length : Cursor.Cursor -> M unit :=
  image_block_memory_length RenderPipeline.
Definition compute_pipeline_image_block_memory_length : Cursor.Cursor -> M unit :=
  image_block_memory_length ComputePipeline.

(** The reply cursor is asked for before the type is checked. *)
Definition unique_identifier (c : Cursor.Cursor) : M unit :=
  bs ← read_record c 0x14;
  let reference := field bs 0 4 in
  let object_type := field bs 4 4 in
  writer ← reply_cursor (field bs 8 4) (field bs 12 8);
  identifier ←
    (if object_type =? OBJECT_TYPE_TEXTURE then
       o ← require Texture reference; ask UniqueIdentifier o
     else if object_type =? OBJECT_TYPE_ICB then
       o ← require Icb reference; ask UniqueIdentifier o
     else if object_type =? OBJECT_TYPE_RENDER_PIPELINE then
       o ← require RenderPipeline reference; ask GuestUniqueIdentifier o
     else if object_type =? OBJECT_TYPE_COMPUTE_PIPELINE then
       o ← require ComputePipeline reference; ask GuestUniqueIdentifier o
     else raise (Own UniqueIdentifierType));
  _ ← write_reply writer (ReplyUniqueIdentifierDeprecated identifier); mret tt.

(** The heap texture queries: [size] descriptor bytes, [pad] more, the reply's place. A
    task with no device answers zeros. *)
Definition heap_texture_query (descriptor_for : list byte -> M (option T)) (size pad : nat)
    (c : Cursor.Cursor) : M unit :=
  bs ← read_record c (Z.of_nat (size + pad + 12));
  found ← descriptor_for (take size bs);
  match found with
  | None => die NilTextureDescriptor
  | Some descriptor =>
      writer ← reply_cursor (field bs (size + pad) 4) (field bs (size + pad + 4) 8);
      s ← match device_size_and_align with Some f => f descriptor | None => mret (0, 0) end;
      _ ← write_reply writer (ReplyHeapTextureSizeAndAlign s.1 s.2); mret tt
  end.
Definition heap_texture_size_and_align : Cursor.Cursor -> M unit :=
  heap_texture_query texture_descriptor_for_descriptor 32 0.
Definition heap_texture_size_and_align2 : Cursor.Cursor -> M unit :=
  heap_texture_query texture_descriptor_for_descriptor2 39 1.

(** ** The rate-map queries *)

Fixpoint rate_map_layers (fuel : nat) (rate_map : Obj) (writer : Cursor.Cursor) (layer : Z) : M unit :=
  match fuel with
  | O => die WalkOutOfFuel
  | S fuel =>
      count ← ask LayerCount rate_map;
      if layer <? count then
        size ← physical_size rate_map layer;
        writer ← write_reply writer (Cmd2DSize16 (Num.low_u16 size.1) (Num.low_u16 size.2));
        rate_map_layers fuel rate_map writer (add64 layer 1)
      else mret tt
  end.

Definition rate_map_info (fuel : nat) (c : Cursor.Cursor) : M unit :=
  bs ← read_record c 0x18;
  rate_map ← require RateMap (field bs 0 4);
  writer ← reply_cursor (field bs 4 4) (field bs 8 8);
  s ← (fun w => Ret (parameter_buffer_size_and_align rate_map w));
  granularity ← (fun w => Ret (physical_granularity rate_map w));
  writer ← write_reply writer (ReplyRasterizationRateMapInfo s.1 s.2
    (Num.low_u16 granularity.1) (Num.low_u16 granularity.2));
  rate_map_layers fuel rate_map writer 0.

Definition check_buffer (buffer : Obj) (offset size : Z) : M unit :=
  mode ← ask StorageMode buffer;
  _ ← unless (mode =? MTL_STORAGE_MODE_SHARED) BufferStorageMode;
  match checked_add64 offset size with
  | None => _ ← ask Length buffer; raise (Own BufferLength)
  | Some end_ =>
      length ← ask Length buffer;
      if end_ <=? length then mret tt
      else _ ← ask Length buffer; raise (Own BufferLength)
  end.

(** No reply: the copy is the answer. *)
Definition copy_rate_map_parameter_buffer (c : Cursor.Cursor) : M unit :=
  bs ← read_record c 0x10;
  let offset := field bs 8 8 in
  rate_map ← require RateMap (field bs 0 4);
  buffer ← require Buffer (field bs 4 4);
  s ← (fun w => Ret (parameter_buffer_size_and_align rate_map w));
  _ ← check_buffer buffer offset s.1;
  _ ← unless (Z.land offset (sub64 s.2 1) =? 0) BufferAlignment;
  copy_parameter_data rate_map buffer offset.

Definition map_coordinates (mapped : Obj -> Z * Z -> Z -> M (Z * Z)) (c : Cursor.Cursor) : M unit :=
  bs ← read_record c 0x1c;
  rate_map ← require RateMap (field bs 0 4);
  writer ← reply_cursor (field bs 4 4) (field bs 8 8);
  p ← mapped rate_map (field bs 20 4, field bs 24 4) (field bs 16 4);
  _ ← write_reply writer (Coordinate2DRecord p); mret tt.
Definition map_screen_to_physical : Cursor.Cursor -> M unit := map_coordinates screen_to_physical.
Definition map_physical_to_screen : Cursor.Cursor -> M unit := map_coordinates physical_to_screen.

(** Each coordinate is replaced by its mapping before the next is read. *)
Fixpoint map_multiple (n : nat) (rate_map : Obj) (layer : Z) (reader writer : Cursor.Cursor) : M unit :=
  match n with
  | O => mret tt
  | S n =>
      '(reader, bs) ← cursor_op (Own CoordinateRead) (fun m => Cursor.read m reader 8);
      screen ← physical_to_screen rate_map (decode_coordinate bs) layer;
      writer ← write_reply writer (Coordinate2DRecord screen);
      map_multiple n rate_map layer reader writer
  end.

Definition map_physical_to_screen_multiple (c : Cursor.Cursor) : M unit :=
  bs ← read_record c 0x20;
  rate_map ← require RateMap (field bs 0 4);
  writer ← reply_cursor (field bs 4 4) (field bs 8 8);
  map_multiple (Z.to_nat (field bs 28 4)) rate_map (field bs 24 4) writer writer.

(** ** The decoder *)

(** The dispatch; [fuel] bounds the layers a rate map answers for. *)
Definition handle (fuel : nat) (h : CmdHeader) (c : Cursor.Cursor) : M unit :=
  let id := command_id h in
  if id =? 450 then compute_pipeline_state_info c
  else if id =? 451 then heap_texture_size_and_align c
  else if id =? 452 then rate_map_info fuel c
  else if id =? 453 then copy_rate_map_parameter_buffer c
  else if id =? 454 then map_screen_to_physical c
  else if id =? 455 then map_physical_to_screen c
  else if id =? 456 then map_physical_to_screen_multiple c
  else if id =? 457 then render_pipeline_state_info c
  else if id =? 458 then render_pipeline_image_block_memory_length c
  else if id =? 459 then compute_pipeline_image_block_memory_length c
  else if id =? 460 then unique_identifier c
  else if id =? 461 then buffer_gpu_address c
  else if id =? 462 then texture_host_info c
  else if id =? 463 then heap_gpu_address c
  else if id =? 464 then sampler_state_host_info c
  else if id =? 465 then icb_host_info c
  else if id =? 466 then render_pipeline_host_info c
  else if id =? 467 then compute_pipeline_host_info c
  else if id =? 468 then depth_stencil_host_info c
  else if id =? 469 then heap_texture_size_and_align2 c
  else raise (Own UnrecognizedCommand).

Definition decode (fuel : nat) (segment : Cursor.Cursor) (w : W)
    : outcome (Raise R P * W) DeathKind W :=
  records_of memory_of (fun h c w => '(_, w) ← handle fuel h c w; Ret w) segment w.
End Decoder.

(** ** Replies *)

(** What a host memory keeps is what was stored. *)
Class InfoLaws (W Obj T R P : Type) `{InfoPlatform W Obj T R P} := {
  memory_stored m w : memory_of (store_memory m w) = m;
}.

Section Replies.
Context {W Obj T R P : Type} `{InfoLaws W Obj T R P} (stopped : Memory.mdeath).
Local Abbreviation M := (M W R P).

Lemma read_record_bytes (c : Cursor.Cursor) n (w : W) :
  Cursor.wf c -> 0 <= n <= Z.of_nat (length (Cursor.rest c)) ->
  read_record c n w = Ret (take (Z.to_nat n) (bytes_of (memory_of w) c), w).
Proof.
  intros Hw Hn. unfold read_record, cursor_op. rewrite run_step.
  destruct (Cursor.read_bytes_rest (memory_of w) c n Hw Hn) as (c' & Hr & _).
  unfold Cursor.read. rewrite Hr. cbn [or_raise leaving mbind outcome_bind].
  by rewrite <- firstn_map.
Qed.

Lemma reply_cursor_at ref offset writer (w w1 : W) :
  new_memory_cursor_for_buffer ref w = Ret (Some writer, w1) -> Cursor.wf writer -> u64 offset ->
  exists c, reply_cursor ref offset w = Ret (c, w1) /\ Cursor.wf c /\
    Cursor.rest c = drop (Z.to_nat offset) (Cursor.rest writer).
Proof.
  intros Hn Hw Ho. destruct (Cursor.advance_rest writer offset Hw Ho) as (c & Hc & Hwc & Hrc & _).
  exists c. split; [|done]. unfold reply_cursor. rewrite !run_step. rewrite Hn.
  unfold cursor_op. rewrite Hc. done.
Qed.

(** A reply that fits lands at the cursor; one that does not is refused, unwritten. *)
Lemma write_reply_fits writer reply (w : W) :
  Cursor.wf writer -> (length reply <= length (Cursor.rest writer))%nat ->
  exists writer' w', write_reply stopped false writer reply w = Ret (writer', w') /\
    Cursor.wf writer' /\ Cursor.rest writer' = drop (length reply) (Cursor.rest writer) /\
    (exists m', w' = store_memory m' w) /\
    forall x, memory_of w' x
      = Cursor.scatter (memory_of w) (take (length reply) (Cursor.rest writer)) reply x.
Proof.
  intros Hw Hl. destruct (Cursor.write_bytes_rest stopped (memory_of w) writer reply Hw Hl)
    as (c' & m' & Hwr & Hw' & Hr' & Hm').
  exists c', (store_memory m' w). unfold write_reply, Cursor.write. rewrite Hwr.
  split; [done|]. split; [done|]. split; [done|]. split; [by exists m'|].
  intros x. by rewrite memory_stored.
Qed.

Lemma write_reply_past writer reply (w : W) :
  Cursor.wf writer -> Z.of_nat (length reply) < M64 ->
  (length (Cursor.rest writer) < length reply)%nat ->
  write_reply stopped false writer reply w = Raised (Own ReplyWrite, w).
Proof.
  intros Hw Hn Hl. unfold write_reply, Cursor.write.
  by rewrite Cursor.write_bytes_short.
Qed.

(** The 16-byte queries: the kind of object each names and its answer. *)
Definition query_of (id : Z) : option (ObjectKind * (Obj -> M (list byte))) :=
  if id =? 461 then Some (Buffer, fun o => a ← ask GpuAddress o; mret (le_bytes 8 a))
  else if id =? 463 then Some (Heap, fun o => a ← ask GpuAddress o; mret (le_bytes 8 a))
  else if id =? 462 then Some (Texture, host_object_reply)
  else if id =? 464 then Some (SamplerState, host_object_reply)
  else if id =? 465 then Some (Icb, host_object_reply)
  else if id =? 466 then Some (RenderPipeline, host_object_reply)
  else if id =? 467 then Some (ComputePipeline, host_object_reply)
  else if id =? 468 then Some (DepthStencilState, fun o =>
    id ← depth_stencil_gpu_resource_id o; index ← depth_stencil_resource_index o;
    mret (le_bytes 8 id ++ le_bytes 8 index))
  else if id =? 450 then Some (ComputePipeline, fun o =>
    threads ← ask MaxTotalThreadsPerThreadgroup o; width ← ask ThreadExecutionWidth o;
    memory ← ask StaticThreadgroupMemoryLength o; icbs ← ask_flag SupportIndirectCommandBuffers o;
    mret (le_bytes 8 (w32 threads) ++ le_bytes 8 (w32 width) ++ le_bytes 8 (w32 memory)
            ++ le_bytes 1 icbs ++ [x00; x00; x00]))
  else if id =? 457 then Some (RenderPipeline, fun o =>
    threads ← ask MaxTotalThreadsPerThreadgroup o; sample ← ask ImageblockSampleLength o;
    tile ← ask_flag ThreadgroupSizeMatchesTileSize o; icbs ← ask_flag SupportIndirectCommandBuffers o;
    mret (le_bytes 4 (w32 threads) ++ le_bytes 4 (w32 sample) ++ le_bytes 1 tile
            ++ le_bytes 1 icbs ++ [x00; x00]))
  else None.

Lemma handle_query fuel h c kind answer :
  query_of (command_id h) = Some (kind, answer) ->
  handle stopped false fuel h c = query stopped false kind answer c.
Proof.
  intros Hq. unfold handle. unfold query_of in Hq.
  repeat match type of Hq with
  | (if ?b then _ else _) = _ =>
      destruct b eqn:E;
      [apply Z.eqb_eq in E; rewrite ?E; injection Hq as <- <-; reflexivity|clear E]
  end; discriminate Hq.
Qed.

(** A query about an object, in full. With a whole record, an unnamed object raises and
    leaves the world as the lookup left it. Otherwise the reply cursor is made, the
    getters are asked in the source's order, and the reply's bytes, the counts cut to 32
    bits, land at the guest's offset into the reply buffer and change no other byte, when
    they fit there; when they do not, the query raises with nothing written. *)
Theorem query_replies fuel h c kind answer (w w1 : W) (found : option Obj) :
  query_of (command_id h) = Some (kind, answer) ->
  Cursor.wf c -> (16 <= length (Cursor.rest c))%nat ->
  let command := decode_query (take 16 (bytes_of (memory_of w) c)) in
  lookup kind (object_reference command) w = Ret (found, w1) ->
  match found with
  | None => handle stopped false fuel h c w = Raised (Own (MissingObject kind), w1)
  | Some o =>
      forall writer w2 reply w3,
      new_memory_cursor_for_buffer (reply_buffer_reference command) w1 = Ret (Some writer, w2) ->
      Cursor.wf writer -> answer o w2 = Ret (reply, w3) -> Z.of_nat (length reply) < M64 ->
      let place := take (length reply)
        (drop (Z.to_nat (reply_buffer_offset command)) (Cursor.rest writer)) in
      if (length reply <=? length place)%nat
      then exists w4, handle stopped false fuel h c w = Ret (tt, w4) /\
             forall x, memory_of w4 x = Cursor.scatter (memory_of w3) place reply x
      else handle stopped false fuel h c w = Raised (Own ReplyWrite, w3)
  end.
Proof.
  intros Hq Hw Hl command Hlook. rewrite (handle_query _ _ _ _ _ Hq). unfold query.
  assert (query stopped false kind answer c w
    = (fun w => '(o, w) ← required found kind w;
         '(writer, w) ← reply_cursor (reply_buffer_reference command) (reply_buffer_offset command) w;
         '(reply, w) ← answer o w;
         '(_, w) ← write_reply stopped false writer reply w; Ret (tt, w)) w1) as Heq.
  { unfold query. rewrite run_step, read_record_bytes by (done || lia).
    change (Z.to_nat 16) with 16%nat. fold command. unfold require. rewrite run_step, run_step, Hlook.
    destruct found as [o|]; cbn [required]; [|done]. cbn [mret run_ret mbind outcome_bind].
    rewrite run_step. destruct (reply_cursor _ _ w1) as [[wr w2]| |]; [|done..]. cbn [mbind outcome_bind].
    rewrite run_step. destruct (answer o w2) as [[r w3]| |]; [|done..]. cbn [mbind outcome_bind].
    rewrite run_step. by destruct (write_reply _ _ _ _ w3) as [[? ?]| |]. }
  unfold query in Heq. rewrite Heq. clear Heq. destruct found as [o|]; [|done].
  intros writer w2 reply w3 Hn Hww Ha Hr. cbn [required mret run_ret mbind outcome_bind].
  assert (u64 (reply_buffer_offset command)) as Ho.
  { unfold command, decode_query. cbn [reply_buffer_offset]. unfold field.
    pose proof (of_le_bytes_range (take 8 (drop 8 (take 16 (bytes_of (memory_of w) c))))) as Hb.
    unfold bytes_of in *. rewrite length_take, length_drop, length_take, length_map in Hb.
    replace (8 `min` (16 `min` length (Cursor.rest c) - 8))%nat with 8%nat in Hb by lia.
    change (256 ^ Z.of_nat 8) with M64 in Hb. done. }
  destruct (reply_cursor_at _ _ writer w1 w2 Hn Hww Ho) as (c' & -> & Hwc & Hrc).
  cbn [mbind outcome_bind]. rewrite Ha. cbn [mbind outcome_bind].
  rewrite <- Hrc, length_take. destruct (Nat.leb_spec (length reply) (length reply `min` length (Cursor.rest c'))).
  - destruct (write_reply_fits c' reply w3 Hwc ltac:(lia)) as (? & w4 & -> & _ & _ & _ & Hm).
    exists w4. by split.
  - by rewrite write_reply_past by (done || lia).
Qed.

(** ** Mapping in place *)

(** The [n] coordinates at the addresses [xs]. *)
Fixpoint coordinates (m : GuestPtr.memory) (n : nat) (xs : list Z) : list (Z * Z) :=
  match n with
  | O => []
  | S n => decode_coordinate (map m (take 8 xs)) :: coordinates m n (drop 8 xs)
  end.

Lemma coordinates_same m m' n : forall xs,
  (forall x, x ∈ xs -> m' x = m x) -> coordinates m' n xs = coordinates m n xs.
Proof.
  induction n as [|n IH]; intros xs Hm; [done|]. cbn [coordinates]. f_equal.
  - f_equal. apply map_ext_in. intros x Hx. apply Hm. apply list_elem_of_In in Hx.
    by apply (subseteq_take 8).
  - apply IH. intros x Hx. apply Hm. by apply (subseteq_drop 8).
Qed.

Lemma length_coordinate c : length (Coordinate2DRecord c) = 8%nat.
Proof. unfold Coordinate2DRecord. by rewrite length_app, !length_le_bytes. Qed.

(** What a first write at [take k xs] leaves of the rest. *)
Lemma scatter_rest (m m' : GuestPtr.memory) k xs bs :
  NoDup xs -> (forall x, m' x = Cursor.scatter m (take k xs) bs x) ->
  forall x, x ∈ drop k xs -> m' x = m x.
Proof.
  intros Hnd Hm x Hx. rewrite Hm. apply Cursor.scatter_out. intros Hx'.
  rewrite <- (take_drop k xs) in Hnd. apply list.NoDup_app in Hnd as (_ & Hd & _). by apply (Hd x).
Qed.

(** One write, then the rest: the two scatters are one. *)
Lemma scatter_then (m m1 m2 : GuestPtr.memory) k j xs bs1 bs2 :
  (k <= length xs)%nat -> length bs1 = k ->
  (forall x, m1 x = Cursor.scatter m (take k xs) bs1 x) ->
  (forall x, m2 x = Cursor.scatter m1 (take j (drop k xs)) bs2 x) ->
  forall x, m2 x = Cursor.scatter m (take (k + j) xs) (bs1 ++ bs2) x.
Proof.
  intros Hk Hl H1 H2 x. rewrite H2, (Cursor.scatter_ext _ _ _ _ _ H1).
  rewrite <- Cursor.scatter_app by (rewrite length_take; lia). by rewrite take_take_drop.
Qed.

Lemma map_multiple_in_place rate_map layer f :
  (forall p w, physical_to_screen rate_map p layer w = Ret (f p, w)) ->
  forall n reader writer w,
  Cursor.wf reader -> Cursor.wf writer -> Cursor.rest reader = Cursor.rest writer ->
  NoDup (Cursor.rest writer) -> (8 * n <= length (Cursor.rest writer))%nat ->
  exists w', map_multiple stopped false n rate_map layer reader writer w = Ret (tt, w') /\
    forall x, memory_of w' x
      = Cursor.scatter (memory_of w) (take (8 * n) (Cursor.rest writer))
          (concat (map (fun p => Coordinate2DRecord (f p))
                     (coordinates (memory_of w) n (Cursor.rest writer)))) x.
Proof.
  intros Hf. induction n as [|n IH]; intros reader writer w Hr Hw Hrw Hnd Hl.
  { exists w. split; [done|]. intros x. by rewrite Nat.mul_0_r. }
  cbn [map_multiple]. set (xs := Cursor.rest writer) in *.
  destruct (Cursor.read_bytes_rest (memory_of w) reader 8 Hr) as (reader' & Hread & Hr' & Hrr');
    [rewrite Hrw; lia|].
  rewrite run_step. unfold cursor_op at 1, Cursor.read. rewrite Hread.
  cbn [or_raise leaving mbind outcome_bind]. rewrite run_step, Hf, run_step.
  change (Z.to_nat 8) with 8%nat. rewrite Hrw. fold xs.
  set (p := decode_coordinate (map (memory_of w) (take 8 xs))).
  destruct (write_reply_fits writer (Coordinate2DRecord (f p)) w Hw) as (writer' & w1 & Hwrite & Hw' & Hwr' & _ & Hm1);
    [rewrite length_coordinate; fold xs; lia|].
  rewrite Hwrite. rewrite length_coordinate in Hwr', Hm1. fold xs in Hwr', Hm1.
  destruct (IH reader' writer' w1 Hr' Hw') as (w2 & Hrun & Hm2).
  { rewrite Hrr', Hwr', Hrw. done. }
  { rewrite Hwr'. rewrite <- (take_drop 8 xs) in Hnd. by apply list.NoDup_app in Hnd as (_ & _ & ?). }
  { rewrite Hwr', length_drop. lia. }
  exists w2. split; [done|]. rewrite Hwr' in Hm2.
  rewrite (coordinates_same _ _ _ _ (scatter_rest _ _ _ _ _ Hnd Hm1)) in Hm2.
  cbn [coordinates map concat]. fold p. replace (8 * S n)%nat with (8 + 8 * n)%nat by lia.
  apply (scatter_then _ (memory_of w1) _ 8 (8 * n) xs); [lia|apply length_coordinate|done|done].
Qed.

(** Coordinates stored one after another read back, their fields cut to 32 bits. *)
Lemma coordinates_scattered (f : Z * Z -> Z * Z) (m' : GuestPtr.memory) n : forall ps m xs,
  length ps = n -> NoDup xs -> (8 * n <= length xs)%nat ->
  (forall x, m' x = Cursor.scatter m (take (8 * n) xs)
                      (concat (map (fun p => Coordinate2DRecord (f p)) ps)) x) ->
  coordinates m' n xs = map (fun p => ((f p).1 mod M32, (f p).2 mod M32)) ps.
Proof.
  induction n as [|n IH]; intros [|p ps] m xs Hps Hnd Hl Hm; cbn [length] in Hps; try lia; [done|].
  cbn [coordinates map concat] in *.
  replace (8 * S n)%nat with (8 + 8 * n)%nat in * by lia.
  assert (forall x, m' x = Cursor.scatter (Cursor.scatter m (take 8 xs) (Coordinate2DRecord (f p)))
    (take (8 * n) (drop 8 xs)) (concat (map (fun p => Coordinate2DRecord (f p)) ps)) x) as Hm'.
  { intros x. rewrite Hm, <- take_take_drop.
    by rewrite Cursor.scatter_app by (rewrite length_take, length_coordinate; lia). }
  pose proof Hnd as Hnd'. rewrite <- (take_drop 8 xs) in Hnd'. apply list.NoDup_app in Hnd' as (Hn8 & Hdis & Hnd8).
  f_equal.
  - assert (map m' (take 8 xs) = Coordinate2DRecord (f p)) as ->.
    { transitivity (map (Cursor.scatter m (take 8 xs) (Coordinate2DRecord (f p))) (take 8 xs)).
      - apply map_ext_in. intros x Hx. apply list_elem_of_In in Hx. rewrite Hm'.
        apply Cursor.scatter_out. intros Hx'. apply (Hdis x Hx). by apply (subseteq_take (8 * n)).
      - apply Cursor.scatter_in; [done|]. rewrite length_take, length_coordinate. lia. }
    unfold decode_coordinate, Coordinate2DRecord.
    rewrite (field_at _ 0 4 (f p).1 [] (le_bytes 4 (f p).2)) by done.
    rewrite (field_at _ 4 4 (f p).2 (le_bytes 4 (f p).1) []) by (by rewrite ?app_nil_r). done.
  - apply (IH ps (Cursor.scatter m (take 8 xs) (Coordinate2DRecord (f p))) _ ltac:(lia) Hnd8);
      [rewrite length_drop; lia|exact Hm'].
Qed.

(** Mapping many coordinates in place. The reader is a copy of the reply cursor, so each
    coordinate is overwritten by its mapping before the next is read; over reply memory
    whose ranges do not overlap that is the plain map of the coordinates that were
    there, every one of them once, and no other byte changes. *)
Theorem map_multiple_maps rate_map layer f n writer w :
  (forall p w, physical_to_screen rate_map p layer w = Ret (f p, w)) ->
  Cursor.wf writer -> NoDup (Cursor.rest writer) -> (8 * n <= length (Cursor.rest writer))%nat ->
  exists w', map_multiple stopped false n rate_map layer writer writer w = Ret (tt, w') /\
    coordinates (memory_of w') n (Cursor.rest writer)
      = map (fun p => ((f p).1 mod M32, (f p).2 mod M32))
          (coordinates (memory_of w) n (Cursor.rest writer)) /\
    forall x, x ∉ take (8 * n) (Cursor.rest writer) -> memory_of w' x = memory_of w x.
Proof.
  intros Hf Hw Hnd Hl.
  destruct (map_multiple_in_place rate_map layer f Hf n writer writer w Hw Hw eq_refl Hnd Hl)
    as (w' & Hrun & Hm).
  exists w'. split; [done|]. split; [|intros x Hx; rewrite Hm; by apply Cursor.scatter_out].
  set (ps := coordinates (memory_of w) n (Cursor.rest writer)) in *.
  assert (length ps = n) as Hps.
  { unfold ps. generalize (Cursor.rest writer). clear. induction n as [|n IH]; intros xs; cbn; auto. }
  by apply (coordinates_scattered f _ n ps (memory_of w)).
Qed.

(** ** A rate map's layers *)

Definition layer_reply (size : Z -> Z * Z) (i : nat) : list byte :=
  Cmd2DSize16 (Num.low_u16 (size (Z.of_nat i)).1) (Num.low_u16 (size (Z.of_nat i)).2).
Lemma length_layer_reply size i : length (layer_reply size i) = 4%nat.
Proof. unfold layer_reply, Cmd2DSize16. by rewrite length_app, !length_le_bytes. Qed.

(** A rate map's layers are asked for and written one by one, each size cut to 16 bits. As
    many as fit the reply buffer are written; when the map has more, the query raises and
    the replies already written stay. The loop takes one turn per layer. *)
Theorem rate_map_layers_partial rate_map size count k : forall fuel writer layer w,
  (forall w, getter LayerCount rate_map w = (Z.of_nat count, w)) ->
  (forall i w, physical_size rate_map i w = Ret (size i, w)) ->
  Z.of_nat count < M64 -> Cursor.wf writer -> (layer + k = count)%nat -> (k < fuel)%nat ->
  let fitting := Nat.min k (length (Cursor.rest writer) / 4) in
  exists w',
    rate_map_layers stopped false fuel rate_map writer (Z.of_nat layer) w
    = (if (k <=? length (Cursor.rest writer) / 4)%nat then Ret (tt, w')
       else Raised (Own ReplyWrite, w')) /\
    forall x, memory_of w' x
      = Cursor.scatter (memory_of w) (take (4 * fitting) (Cursor.rest writer))
          (concat (map (layer_reply size) (seq layer fitting))) x.
Proof.
  induction k as [|k IH]; intros [|fuel] writer layer w Hc Hs Hm Hw Hk Hf fitting; try lia;
    cbn [rate_map_layers]; rewrite run_step; unfold ask; rewrite Hc.
  { rewrite (proj2 (Z.ltb_ge _ _)) by lia. exists w. split; [done|]. intros x. done. }
  rewrite (proj2 (Z.ltb_lt _ _)) by lia. rewrite run_step, Hs, run_step.
  fold (layer_reply size layer). set (xs := Cursor.rest writer) in *.
  destruct (Nat.lt_ge_cases (length xs) 4) as [Hshort|Hfits].
  { assert (length xs / 4 = 0)%nat as Hz by (by apply Nat.div_small).
    rewrite write_reply_past by (done || (rewrite length_layer_reply; (done || lia))).
    exists w. unfold fitting. rewrite Hz, Nat.min_0_r. split; [done|]. intros x. done. }
  destruct (write_reply_fits writer (layer_reply size layer) w Hw) as (writer' & w1 & -> & Hw' & Hr' & _ & Hm1);
    [by rewrite length_layer_reply|].
  rewrite length_layer_reply in Hr', Hm1. fold xs in Hr', Hm1.
  rewrite add64_small by lia. replace (Z.of_nat layer + 1) with (Z.of_nat (S layer)) by lia.
  destruct (IH fuel writer' (S layer) w1 Hc Hs Hm Hw' ltac:(lia) ltac:(lia)) as (w2 & Hrun & Hm2).
  assert (length xs / 4 = S (length (Cursor.rest writer') / 4))%nat as Hdiv.
  { rewrite Hr', length_drop. replace (length xs) with (length xs - 4 + 1 * 4)%nat at 1 by lia.
    rewrite Nat.div_add by lia. lia. }
  exists w2. unfold fitting. rewrite Hdiv, Hrun. split; [done|].
  rewrite Hr' in Hm2 |- *. cbn [Nat.min seq map concat].
  set (j := Nat.min k _) in *. replace (4 * S j)%nat with (4 + 4 * j)%nat by lia.
  apply (scatter_then _ (memory_of w1) _ 4 (4 * j) xs); [lia|apply length_layer_reply|done|done].
Qed.
End Replies.

(** ** A small platform: one object under every reference but 0, its getters answering 7, one
    64-byte reply buffer, and a rate map of two layers that shifts coordinates by one *)

Definition small : InfoPlatform GuestPtr.memory unit unit Empty_set Empty_set := {|
  memory_of w := w;
  store_memory m _ := m;
  lookup _ r w := Ret (if r =? 0 then None else Some tt, w);
  new_memory_cursor_for_buffer _ w := Ret (Some (Cursor.from_pointer 0x300000000 64), w);
  texture_descriptor_for_descriptor _ w := Ret (Some tt, w);
  texture_descriptor_for_descriptor2 _ w := Ret (Some tt, w);
  device_size_and_align := None;
  getter g _ w := (match g with LayerCount => 2 | _ => 7 end, w);
  flag _ _ w := (true, w);
  parameter_buffer_size_and_align _ w := ((16, 4), w);
  physical_granularity _ w := ((1, 1), w);
  imageblock_memory_length _ _ w := Ret (7, w);
  physical_size _ _ w := Ret ((640, 480), w);
  screen_to_physical _ p _ w := Ret (p, w);
  physical_to_screen _ p _ w := Ret ((p.1 + 1, p.2 + 1), w);
  copy_parameter_data _ _ _ w := Ret (tt, w);
  depth_stencil_gpu_resource_id _ w := Ret (7, w);
  depth_stencil_resource_index _ w := Ret (7, w);
|}.
Definition small_laws : @InfoLaws _ _ _ _ _ small.
Proof. by split. Defined.

(** A buffer query in guest memory, its reply at offset 8. *)
Definition query_memory : GuestPtr.memory :=
  GuestPtr.store_at (fun _ => x00) 0x200000000
    [x01; x00; x00; x00; x02; x00; x00; x00; x08; x00; x00; x00; x00; x00; x00; x00].

Definition one_range (a n : Z) : Cursor.Cursor := Cursor.from_ranges [Cursor.MkRange a n].
Lemma one_range_wf a n :
  0 <= n -> GuestPtr.ZERO_REGION_END <= a -> a + n < M64 ->
  Cursor.wf (one_range a n) /\ Cursor.rest (one_range a n) = seqZ a n.
Proof.
  intros Hn Ha Hm. unfold GuestPtr.ZERO_REGION_END in Ha.
  assert (Cursor.ranges_ok [Cursor.MkRange a n]) as Hr.
  { split; [|cbn; lia|done]. constructor; [|constructor].
    split; [done|]. unfold GuestPtr.ZERO_REGION_END. cbn. lia. }
  destruct (Cursor.from_ranges_rest _ Hr) as [Hw Hrest]. split; [done|].
  unfold one_range. rewrite Hrest. cbn. by rewrite app_nil_r.
Qed.

Lemma pointer_wf a n :
  0 <= n -> GuestPtr.ZERO_REGION_END <= a -> a + n < M64 ->
  Cursor.wf (Cursor.from_pointer a n) /\ length (Cursor.rest (Cursor.from_pointer a n)) = Z.to_nat n.
Proof.
  intros Hn Ha Hm. unfold GuestPtr.ZERO_REGION_END in Ha.
  assert (Cursor.ranges_ok [Cursor.MkRange 0 0; Cursor.MkRange a n]) as Hr.
  { split; [|cbn; lia|done]. repeat constructor; cbn; unfold GuestPtr.ZERO_REGION_END; lia. }
  destruct (Cursor.from_ranges_rest _ Hr) as [Hw Hrest].
  assert (Cursor.from_ranges [Cursor.MkRange 0 0; Cursor.MkRange a n] = Cursor.from_pointer a n) as E.
  { unfold Cursor.from_ranges, Cursor.from_pointer. f_equal. cbn. unfold overflowing_add64.
    change (add64 0 0) with 0. rewrite (proj2 (Z.leb_gt M64 (0 + n))) by lia.
    rewrite add64_small by lia. done. }
  rewrite <- E. split; [done|]. rewrite Hrest. cbn. rewrite app_nil_r. apply length_seqZ.
Qed.

Lemma query_replies_witness :
  exists w4, @handle _ _ _ _ _ small Memory.OutOfFuel false 0 (MkCmdHeader 461 24)
    (one_range 0x200000000 16) query_memory = Ret (tt, w4).
Proof.
  destruct (one_range_wf 0x200000000 16) as [Hw Hr]; [done..|].
  destruct (pointer_wf 0x300000000 64) as [Hwp Hlp]; [done..|].
  pose proof (@query_replies _ _ _ _ _ _ small_laws Memory.OutOfFuel 0 (MkCmdHeader 461 24)
    (one_range 0x200000000 16) Buffer _ query_memory query_memory (Some tt) eq_refl Hw
    ltac:(rewrite Hr; done) eq_refl (Cursor.from_pointer 0x300000000 64) query_memory
    (le_bytes 8 7) query_memory eq_refl Hwp eq_refl ltac:(done)) as H.
  cbn zeta in H. rewrite length_take, length_drop, Hlp in H.
  destruct H as (w4 & H & _). by exists w4.
Defined.

Lemma map_multiple_maps_witness :
  exists w', @map_multiple _ _ _ _ _ small Memory.OutOfFuel false 3 tt 0
    (one_range 0x300000000 24) (one_range 0x300000000 24) (fun _ => x00) = Ret (tt, w') /\
    coordinates w' 3 (seqZ 0x300000000 24) = [(1, 1); (1, 1); (1, 1)].
Proof.
  destruct (one_range_wf 0x300000000 24) as [Hw Hr]; [done..|].
  destruct (@map_multiple_maps _ _ _ _ _ _ small_laws Memory.OutOfFuel tt 0
    (fun p => (p.1 + 1, p.2 + 1)) 3 (one_range 0x300000000 24) (fun _ => x00)) as (w' & Hrun & Hmap & _).
  - done.
  - exact Hw.
  - rewrite Hr. apply NoDup_seqZ.
  - rewrite Hr. done.
  - exists w'. split; [exact Hrun|]. rewrite Hr in Hmap.
    transitivity (map (fun p : Z * Z => ((p.1 + 1) mod M32, (p.2 + 1) mod M32))
      (coordinates (fun _ => x00) 3 (seqZ 0x300000000 24))); [exact Hmap|reflexivity].
Defined.

(** Two layers, room for one. *)
Lemma rate_map_layers_partial_witness :
  exists w', @rate_map_layers _ _ _ _ _ small Memory.OutOfFuel false 3 tt
    (one_range 0x300000000 7) 0 (fun _ => x00) = Raised (Own ReplyWrite, w').
Proof.
  destruct (one_range_wf 0x300000000 7) as [Hw Hr]; [done..|].
  destruct (@rate_map_layers_partial _ _ _ _ _ _ small_laws Memory.OutOfFuel tt (fun _ => (640, 480))
    2 2 3 (one_range 0x300000000 7) 0 (fun _ => x00)) as (w' & Hrun & _);
    [done|done|done|exact Hw|done|lia|].
  rewrite Hr in Hrun. exists w'. exact Hrun.
Defined.

End Info.
