(* ===== verification/Collections.v ===== *)
(** * Collections: the maps named by the order they give
    (src/crates/reims-vgpu-core/src/collections/bucket_order.rs, list_order.rs, lookup.rs)

    A map of the Standard Library's is a [gmap]. What is modelled beside the lookups is
    the order of a walk: [BucketOrderMap] goes in ascending key order, drop by drop, and
    [ListOrderMap] in its table's order, of which nothing is known but that it is a walk
    of the map. *)

From S2P Require Import Prelude.
From stdpp Require Import gmap sorting.
Open Scope Z_scope.

(** ** Keys in order *)

Section Order.
Context {V : Type}.
Implicit Types (m : gmap Z V) (l : list (Z * V)).

Definition key_le (a b : Z * V) : Prop := a.1 <= b.1.
#[global] Instance key_le_dec : RelDecision key_le.
Proof. intros a b. unfold key_le. apply _. Defined.
#[global] Instance key_le_total : Total key_le.
Proof. intros a b. unfold key_le. lia. Qed.
#[global] Instance key_le_trans : Transitive key_le.
Proof. intros a b c. unfold key_le. lia. Qed.

Definition ascending (l : list (Z * V)) : Prop := StronglySorted (fun a b => a.1 < b.1) l.

(** A map's entries in ascending key order. *)
Definition entries m : list (Z * V) := merge_sort key_le (map_to_list m).

Lemma entries_perm m : entries m ≡ₚ map_to_list m.
Proof. apply merge_sort_Permutation. Qed.
Lemma entries_elem m k v : (k, v) ∈ entries m <-> m !! k = Some v.
Proof. rewrite entries_perm. apply elem_of_map_to_list. Qed.
Lemma entries_keys m : NoDup (entries m).*1.
Proof. rewrite entries_perm. apply NoDup_fst_map_to_list. Qed.

Lemma le_nodup_ascending l : StronglySorted key_le l -> NoDup l.*1 -> ascending l.
Proof.
  induction 1 as [|a l Hs IH Ha]; simpl; [constructor|]. intros [Hn Hd]%NoDup_cons.
  constructor; [by apply IH|]. apply Forall_forall. intros b Hb.
  rewrite Forall_forall in Ha. specialize (Ha b Hb). unfold key_le in Ha.
  assert (a.1 <> b.1); [|lia]. intros E. apply Hn. rewrite E. by apply list_elem_of_fmap_2.
Qed.
Lemma entries_ascending m : ascending (entries m).
Proof.
  apply le_nodup_ascending; [|apply entries_keys].
  apply StronglySorted_merge_sort; apply _.
Qed.

(** Two lists in order with the same entries are the same list. *)
Lemma ascending_unique l1 l2 : ascending l1 -> ascending l2 -> l1 ≡ₚ l2 -> l1 = l2.
Proof.
  revert l2. induction l1 as [|a l1 IH]; intros [|b l2] H1 H2 Hp;
    [done|by apply Permutation_nil_cons in Hp|by apply Permutation_sym, Permutation_nil_cons in Hp|].
  apply StronglySorted_inv in H1 as [Hs1 Ha], H2 as [Hs2 Hb].
  rewrite Forall_forall in Ha, Hb.
  assert (a = b) as ->.
  { assert (a ∈ b :: l2) as H by (rewrite <- Hp; left).
    assert (b ∈ a :: l1) as H' by (rewrite Hp; left).
    apply elem_of_cons in H as [?|H%Hb], H' as [?|H'%Ha]; try done. lia. }
  f_equal. apply IH; [done..|]. by apply Permutation_cons_inv in Hp.
Qed.
End Order.

(** ** BucketOrderMap *)

Module BucketOrderMap.
Section Map.
Context {V : Type}.
Definition t : Type := gmap Z V.
Implicit Types (m : t) (v : V).

Definition new : t := ∅.
Definition get m (key : Z) : option V := m !! key.
Definition insert m (key : Z) v : option V * t := (m !! key, <[key := v]> m).
Definition remove m (key : Z) : option V * t := (m !! key, delete key m).
Definition values m : list V := (entries m).*2.
Definition drain m : list V * t := (values m, ∅).
Definition len m : nat := size m.
Definition is_empty m : bool := bool_decide (m = ∅).

(** The entry of the lowest key, taken out ([pop_first] of a [BTreeMap]). *)
Definition pop_first m : option ((Z * V) * t) :=
  match entries m with
  | [] => None
  | e :: _ => Some (e, delete e.1 m)
  end.
(** The values in the order the end drops them. *)
Fixpoint drop_loop (fuel : nat) m : list V :=
  match fuel with
  | O => []
  | S fuel =>
      match pop_first m with
      | None => []
      | Some (e, m) => e.2 :: drop_loop fuel m
      end
  end.
Definition drop_ m : list V := drop_loop (len m) m.

Lemma entries_delete m e l : entries m = e :: l -> entries (delete e.1 m) = l.
Proof.
  intros E. pose proof (entries_ascending m) as Hs. pose proof (entries_keys m) as Hd.
  rewrite E in Hs, Hd. apply StronglySorted_inv in Hs as [Hs _].
  apply ascending_unique; [apply entries_ascending|done|].
  assert (m !! e.1 = Some e.2) as He by (apply entries_elem; rewrite E; destruct e; left).
  assert (map_to_list m ≡ₚ e :: map_to_list (delete e.1 m)) as Hm
    by (symmetry; destruct e; by apply map_to_list_delete).
  rewrite entries_perm. rewrite <- entries_perm, E in Hm. by apply Permutation_cons_inv in Hm.
Qed.

Lemma len_entries m : len m = length (entries m).
Proof. unfold len. rewrite (Permutation_length (entries_perm m)), length_map_to_list. done. Qed.

Lemma drop_loop_values fuel m : (len m <= fuel)%nat -> drop_loop fuel m = values m.
Proof.
  unfold values. revert m. induction fuel as [|fuel IH]; intros m Hf.
  - rewrite len_entries in Hf. destruct (entries m); [done|simpl in Hf; lia].
  - simpl. unfold pop_first. destruct (entries m) as [|e l] eqn:E; [done|].
    simpl. f_equal. rewrite len_entries, E in Hf. simpl in Hf.
    rewrite IH; [by rewrite (entries_delete m e l)|].
    rewrite len_entries, (entries_delete m e l) by done. lia.
Qed.

(** The keys of [values], one each, in ascending order; what the end drops one at a time is
    what a drain answers, in the same order, and an insertion puts its value where its key
    goes, whatever the order of the insertions was. *)
Theorem bucket_order m :
  (exists ks, length ks = length (values m) /\ StronglySorted Z.lt ks /\
     forall k v, get m k = Some v <-> (k, v) ∈ zip ks (values m)) /\
  drop_ m = values m /\ drain m = (drop_ m, new) /\ len m = length (values m).
Proof.
  split.
  { exists (entries m).*1. unfold values. rewrite !length_fmap. split; [done|]. split.
    - pose proof (entries_ascending m) as Hs. induction Hs as [|a l _ IH Ha]; [constructor|].
      simpl. constructor; [done|]. by apply Forall_fmap.
    - intros k v. rewrite zip_fst_snd. symmetry. apply entries_elem. }
  assert (drop_ m = values m) as Hd by by apply drop_loop_values.
  split; [done|]. split; [unfold drain; by rewrite Hd|].
  unfold values. by rewrite length_fmap, len_entries.
Qed.
End Map.
Arguments t : clear implicits.
End BucketOrderMap.

(** ** ListOrderMap *)

Module ListOrderMap.
Section Map.
Context {V : Type}.
Definition t : Type := gmap Z V.
(** The order of the hash table, a function of the keys and of their history. *)
Context (walk : t -> list (Z * V)) (walk_perm : forall m, walk m ≡ₚ map_to_list m).
Implicit Types (m : t) (v : V).

Definition new : t := ∅.
Definition get m (key : Z) : option V := m !! key.
(** [inr]: the value comes back. *)
Definition try_insert m (key : Z) v : (unit + V) * t :=
  match m !! key with
  | Some _ => (inr v, m)
  | None => (inl tt, <[key := v]> m)
  end.
Definition remove m (key : Z) : option V * t := (m !! key, delete key m).
Definition drain m : list V * t := ((walk m).*2, ∅).
Definition iter m : list (Z * V) := walk m.
Definition is_empty m : bool := bool_decide (m = ∅).

(** A present key keeps its value; an absent one gets it, and a removal then gives it back
    and leaves the map as it was; a drain gives every value once. *)
Theorem list_order m k v :
  (forall w, get m k = Some w -> try_insert m k v = (inr v, m)) /\
  (get m k = None -> exists m', try_insert m k v = (inl tt, m') /\ get m' k = Some v /\
     (forall j, j <> k -> get m' j = get m j) /\ remove m' k = (Some v, m)) /\
  (forall j w, get m j = Some w <-> (j, w) ∈ iter m) /\ NoDup (iter m).*1 /\
  (drain m).1 ≡ₚ (map_to_list m).*2 /\ (drain m).2 = new.
Proof using walk_perm.
  unfold get, try_insert, remove, drain, iter. split_and!.
  - by intros w ->.
  - intros Hk. rewrite Hk. eexists. split; [done|]. split_and!.
    + apply lookup_insert_eq.
    + intros j Hj. by apply lookup_insert_ne.
    + f_equal; [apply lookup_insert_eq|by apply delete_insert_id].
  - intros j w. rewrite walk_perm. symmetry. apply elem_of_map_to_list.
  - rewrite walk_perm. apply NoDup_fst_map_to_list.
  - simpl. by rewrite walk_perm.
  - done.
Qed.
End Map.
End ListOrderMap.

(** ** LookupMap *)

Module LookupMap.
Section Map.
Context {K V : Type} `{Countable K}.
Definition t : Type := gmap K V.
Implicit Types (m : t).
Definition new : t := ∅.
Definition get m (key : K) : option V := m !! key.
Definition contains_key m (key : K) : bool := bool_decide (is_Some (m !! key)).
(** [get_mut]: the value changed in place. *)
Definition update m (key : K) (f : V -> V) : t := alter f key m.
Definition insert m (key : K) (v : V) : option V * t := (m !! key, <[key := v]> m).
Definition remove m (key : K) : option V * t := (m !! key, delete key m).
Definition clear m : t := ∅.
Definition len m : nat := size m.
Definition is_empty m : bool := bool_decide (m = ∅).

(** The index of an absent key panics. *)
Definition index m (key : K) : outcome Empty_set unit V :=
  match m !! key with Some v => Ret v | None => Died tt end.
Lemma index_contains m key : contains_key m key = true <-> exists v, index m key = Ret v.
Proof.
  unfold contains_key, index. rewrite bool_decide_eq_true. split.
  - intros [v ->]. by eexists.
  - intros [v Hv]. destruct (m !! key); [by eexists|done].
Qed.
End Map.
End LookupMap.
