(* ===== verification/SurfaceDescriptor.v ===== *)
(** * SurfaceDescriptor: the descriptors of the IOSurface host device
    (src/crates/reims-vgpu-core/src/iosurface/descriptor.rs, iosurface.rs)

    The guest's descriptor of a surface in its two forms as bytes and as records, the
    first form's upgrade to the second, and the properties an IOSurface is made with. A
    descriptor's bytes are read at the offsets its [repr(C)] gives. A fixed array of the
    source is the list of its elements. Log lines are not modelled. *)

From S2P Require Import Prelude Num MemoryKinds.
From stdpp Require Import strings.
Open Scope Z_scope.

Module SurfaceDescriptor.

(** ** Deaths *)

Inductive DeathKind : Type :=
| RingPeek | RingRead | StatusStore | TableRead | DescriptorRead | MappedBitSet
| MappedBitClear | PageTableRead | PatternWrite | PageIndex | NoInterrupt | FreedInterrupt
| UnrecognizedSelector.
#[global] Instance DeathKind_eq_dec : EqDecision DeathKind.
Proof. solve_decision. Defined.

Definition id (k : DeathKind) : string :=
  match k with
  | RingPeek => "iosurface.ring.peek"
  | RingRead => "iosurface.ring.read"
  | StatusStore => "iosurface.ring.status_store"
  | TableRead => "iosurface.table.read"
  | DescriptorRead => "iosurface.descriptor.read"
  | MappedBitSet => "iosurface.descriptor.mapped_set"
  | MappedBitClear => "iosurface.descriptor.mapped_clear"
  | PageTableRead => "iosurface.walk.read"
  | PatternWrite => "iosurface.test.write"
  | PageIndex => "iosurface.table.page_index"
  | NoInterrupt => "iosurface.interrupt.nil"
  | FreedInterrupt => "iosurface.interrupt.freed"
  | UnrecognizedSelector => "iosurface.descriptor.unrecognized_selector"
  end.

Definition class (k : DeathKind) : Death.DeathKind :=
  match k with
  | PageIndex => Death.OutOfBounds
  | NoInterrupt => Death.NilBlock
  | UnrecognizedSelector => Death.UncaughtObjc
  | _ => Death.NullDeref
  end.

(** ** Entries and forms *)

(** [IoSurfaceDescriptorPageTableEntry], its word. *)
Definition MAPPED : Z := 2.
Definition valid (e : Z) : bool := negb (Z.land e 1 =? 0).
Definition is_table (e : Z) : bool := negb (Z.land e 2 =? 0).
Definition address (e page_shift : Z) : Z := shl64 (shr32 e 2) page_shift.

Inductive Form : Type := First | Second.
#[global] Instance Form_eq_dec : EqDecision Form.
Proof. solve_decision. Defined.
Definition form_of (enable : Z) : Form := if negb (Z.land enable 1 =? 0) then Second else First.
Definition form_size (f : Form) : Z := match f with First => 0x200 | Second => 0x400 end.

(** ** The records *)

Record IoSurfaceDevicePlaneDescriptor := MkPlane {
  pl_field_00 : Z; pl_field_04 : Z; pl_offset : Z; pl_base : Z; pl_size : Z; pl_word14 : Z;
  pl_word18 : Z; pl_bytes_per_row : Z; pl_bytes_per_element : Z; pl_field_22 : Z;
  pl_compression_footprint : Z; pl_address_format : Z; pl_compression_type : Z;
  pl_component_count : Z; pl_left : Z; pl_top : Z; pl_right : Z; pl_bottom : Z;
  pl_component_bit_depths : list Z; pl_component_bit_offsets : list Z;
  pl_component_names : list Z; pl_component_types : list Z; pl_component_ranges : list Z;
}.
Record IoSurfaceDeviceBaseDescriptor := MkBase {
  b_word0 : Z; b_pixel_format : Z; b_offset : Z; b_field_0c : Z; b_alloc_size : Z;
  b_word14 : Z; b_word18 : Z; b_bytes_per_row : Z; b_bytes_per_element : Z; b_field_22 : Z;
  b_plane_count : Z; b_address_format : Z; b_compression_type : Z; b_bits27 : Z;
  b_left : Z; b_top : Z; b_right : Z; b_bottom : Z; b_field_2c : Z; b_field_30 : list Z;
}.
Record IoSurfaceDeviceDescriptor := MkDescriptor {
  d_base : IoSurfaceDeviceBaseDescriptor;
  d_planes : list IoSurfaceDevicePlaneDescriptor;
}.

Record IoSurfaceDevicePlaneDescriptor2 := MkPlane2 {
  pl2_field_00 : list Z; pl2_offset : Z; pl2_base : Z; pl2_size : Z; pl2_width : Z;
  pl2_height : Z; pl2_bytes_per_row : Z; pl2_bytes_per_element : Z; pl2_element_width : Z;
  pl2_element_height : Z; pl2_compression_footprint : Z; pl2_address_format : Z;
  pl2_compression_type : Z; pl2_component_count : Z; pl2_left : Z; pl2_top : Z;
  pl2_right : Z; pl2_bottom : Z; pl2_component_bit_depths : list Z;
  pl2_component_bit_offsets : list Z; pl2_component_names : list Z;
  pl2_component_types : list Z; pl2_component_ranges : list Z; pl2_field_64 : list Z;
}.
Record IoSurfaceDeviceBaseDescriptor2 := MkBase2 {
  b2_word0 : Z; b2_pixel_format : Z; b2_offset : Z; b2_field_10 : Z; b2_alloc_size : Z;
  b2_width : Z; b2_height : Z; b2_bytes_per_row : Z; b2_bytes_per_element : Z;
  b2_field_3a : Z; b2_element_width : Z; b2_element_height : Z; b2_plane_count : Z;
  b2_address_format : Z; b2_compression_type : Z; b2_bits41 : Z; b2_field_42 : list Z;
  b2_left : Z; b2_top : Z; b2_right : Z; b2_bottom : Z; b2_field_54 : Z;
  b2_protection_options : Z; b2_field_60 : list Z;
}.
Record IoSurfaceDeviceDescriptor2 := MkDescriptor2 {
  d2_base : IoSurfaceDeviceBaseDescriptor2;
  d2_planes : list IoSurfaceDevicePlaneDescriptor2;
}.

Definition read_only (b : IoSurfaceDeviceBaseDescriptor2) : bool :=
  negb (Z.land (b2_bits41 b) 1 =? 0).
Definition host_only (b : IoSurfaceDeviceBaseDescriptor2) : bool :=
  negb (Z.land (b2_bits41 b) 2 =? 0).

(** [default()]. *)
Definition zero_plane2 : IoSurfaceDevicePlaneDescriptor2 :=
  MkPlane2 [0; 0] 0 0 0 0 0 0 0 0 0 0 0 0 0 0 0 0 0 (replicate 4 0) (replicate 4 0)
    (replicate 4 0) (replicate 4 0) (replicate 4 0) (replicate 7 0).
Definition zero_base2 : IoSurfaceDeviceBaseDescriptor2 :=
  MkBase2 0 0 0 0 0 0 0 0 0 0 0 0 0 0 0 0 [0; 0] 0 0 0 0 0 0 (replicate 8 0).
Definition zero_descriptor2 : IoSurfaceDeviceDescriptor2 :=
  MkDescriptor2 zero_base2 (replicate 7 zero_plane2).

(** ** The bytes *)

(** The [n]-byte word at [off], and [count] of them. *)
Definition word (n : nat) (off : nat) (bs : list byte) : Z :=
  of_le_bytes (take n (drop off bs)).
Definition words (n count off : nat) (bs : list byte) : list Z :=
  map (fun i => word n (off + i * n) bs) (seq 0 count).

Definition plane_of (bs : list byte) : IoSurfaceDevicePlaneDescriptor :=
  MkPlane (word 4 0x00 bs) (word 4 0x04 bs) (word 4 0x08 bs) (word 4 0x0c bs) (word 4 0x10 bs)
    (word 4 0x14 bs) (word 4 0x18 bs) (word 4 0x1c bs) (word 2 0x20 bs) (word 2 0x22 bs)
    (word 1 0x24 bs) (word 1 0x25 bs) (word 1 0x26 bs) (word 1 0x27 bs) (word 1 0x28 bs)
    (word 1 0x29 bs) (word 1 0x2a bs) (word 1 0x2b bs) (words 1 4 0x2c bs) (words 1 4 0x30 bs)
    (words 1 4 0x34 bs) (words 1 4 0x38 bs) (words 1 4 0x3c bs).
Definition base_of (bs : list byte) : IoSurfaceDeviceBaseDescriptor :=
  MkBase (word 4 0x00 bs) (word 4 0x04 bs) (word 4 0x08 bs) (word 4 0x0c bs) (word 4 0x10 bs)
    (word 4 0x14 bs) (word 4 0x18 bs) (word 4 0x1c bs) (word 2 0x20 bs) (word 2 0x22 bs)
    (word 1 0x24 bs) (word 1 0x25 bs) (word 1 0x26 bs) (word 1 0x27 bs) (word 1 0x28 bs)
    (word 1 0x29 bs) (word 1 0x2a bs) (word 1 0x2b bs) (word 4 0x2c bs) (words 1 16 0x30 bs).
Definition descriptor_of (bs : list byte) : IoSurfaceDeviceDescriptor :=
  MkDescriptor (base_of bs)
    (map (fun i => plane_of (drop (0x40 + i * 0x40) bs)) (seq 0 7)).

Definition plane2_of (bs : list byte) : IoSurfaceDevicePlaneDescriptor2 :=
  MkPlane2 (words 4 2 0x00 bs) (word 8 0x08 bs) (word 8 0x10 bs) (word 8 0x18 bs)
    (word 8 0x20 bs) (word 8 0x28 bs) (word 8 0x30 bs) (word 2 0x38 bs) (word 1 0x3a bs)
    (word 1 0x3b bs) (word 1 0x3c bs) (word 1 0x3d bs) (word 1 0x3e bs) (word 1 0x3f bs)
    (word 4 0x40 bs) (word 4 0x44 bs) (word 4 0x48 bs) (word 4 0x4c bs) (words 1 4 0x50 bs)
    (words 1 4 0x54 bs) (words 1 4 0x58 bs) (words 1 4 0x5c bs) (words 1 4 0x60 bs)
    (words 4 7 0x64 bs).
Definition base2_of (bs : list byte) : IoSurfaceDeviceBaseDescriptor2 :=
  MkBase2 (word 4 0x00 bs) (word 4 0x04 bs) (word 8 0x08 bs) (word 8 0x10 bs) (word 8 0x18 bs)
    (word 8 0x20 bs) (word 8 0x28 bs) (word 8 0x30 bs) (word 2 0x38 bs) (word 2 0x3a bs)
    (word 1 0x3c bs) (word 1 0x3d bs) (word 1 0x3e bs) (word 1 0x3f bs) (word 1 0x40 bs)
    (word 1 0x41 bs) (words 1 2 0x42 bs) (word 4 0x44 bs) (word 4 0x48 bs) (word 4 0x4c bs)
    (word 4 0x50 bs) (word 4 0x54 bs) (word 8 0x58 bs) (words 4 8 0x60 bs).
Definition descriptor2_of (bs : list byte) : IoSurfaceDeviceDescriptor2 :=
  MkDescriptor2 (base2_of bs)
    (map (fun i => plane2_of (drop (0x80 + i * 0x80) bs)) (seq 0 7)).

(** ** The layout

    Each struct's fields in the order it declares them: the width of an element in bytes and
    the count of elements, and the values of a record. *)

Definition Schema : Type := list (nat * nat).
Definition plane_schema : Schema :=
  replicate 8 (4%nat, 1%nat) ++ replicate 2 (2%nat, 1%nat) ++ replicate 8 (1%nat, 1%nat) ++ replicate 5 (1%nat, 4%nat).
Definition base_schema : Schema :=
  replicate 8 (4%nat, 1%nat) ++ replicate 2 (2%nat, 1%nat) ++ replicate 8 (1%nat, 1%nat) ++ [(4%nat, 1%nat); (1%nat, 16%nat)].
Definition plane2_schema : Schema :=
  (4%nat, 2%nat) :: replicate 6 (8%nat, 1%nat) ++ (2%nat, 1%nat) :: replicate 6 (1%nat, 1%nat) ++ replicate 4 (4%nat, 1%nat) ++
  replicate 5 (1%nat, 4%nat) ++ [(4%nat, 7%nat)].
Definition base2_schema : Schema :=
  replicate 2 (4%nat, 1%nat) ++ replicate 6 (8%nat, 1%nat) ++ replicate 2 (2%nat, 1%nat) ++ replicate 6 (1%nat, 1%nat) ++
  (1%nat, 2%nat) :: replicate 5 (4%nat, 1%nat) ++ [(8%nat, 1%nat); (4%nat, 8%nat)].

Definition plane_fields (p : IoSurfaceDevicePlaneDescriptor) : list (nat * list Z) :=
  [(4%nat, [pl_field_00 p]); (4%nat, [pl_field_04 p]); (4%nat, [pl_offset p]); (4%nat, [pl_base p]);
   (4%nat, [pl_size p]); (4%nat, [pl_word14 p]); (4%nat, [pl_word18 p]); (4%nat, [pl_bytes_per_row p]);
   (2%nat, [pl_bytes_per_element p]); (2%nat, [pl_field_22 p]); (1%nat, [pl_compression_footprint p]);
   (1%nat, [pl_address_format p]); (1%nat, [pl_compression_type p]); (1%nat, [pl_component_count p]);
   (1%nat, [pl_left p]); (1%nat, [pl_top p]); (1%nat, [pl_right p]); (1%nat, [pl_bottom p]);
   (1%nat, pl_component_bit_depths p); (1%nat, pl_component_bit_offsets p); (1%nat, pl_component_names p);
   (1%nat, pl_component_types p); (1%nat, pl_component_ranges p)].
Definition base_fields (b : IoSurfaceDeviceBaseDescriptor) : list (nat * list Z) :=
  [(4%nat, [b_word0 b]); (4%nat, [b_pixel_format b]); (4%nat, [b_offset b]); (4%nat, [b_field_0c b]);
   (4%nat, [b_alloc_size b]); (4%nat, [b_word14 b]); (4%nat, [b_word18 b]); (4%nat, [b_bytes_per_row b]);
   (2%nat, [b_bytes_per_element b]); (2%nat, [b_field_22 b]); (1%nat, [b_plane_count b]);
   (1%nat, [b_address_format b]); (1%nat, [b_compression_type b]); (1%nat, [b_bits27 b]);
   (1%nat, [b_left b]); (1%nat, [b_top b]); (1%nat, [b_right b]); (1%nat, [b_bottom b]);
   (4%nat, [b_field_2c b]); (1%nat, b_field_30 b)].
Definition plane2_fields (p : IoSurfaceDevicePlaneDescriptor2) : list (nat * list Z) :=
  [(4%nat, pl2_field_00 p); (8%nat, [pl2_offset p]); (8%nat, [pl2_base p]); (8%nat, [pl2_size p]);
   (8%nat, [pl2_width p]); (8%nat, [pl2_height p]); (8%nat, [pl2_bytes_per_row p]);
   (2%nat, [pl2_bytes_per_element p]); (1%nat, [pl2_element_width p]); (1%nat, [pl2_element_height p]);
   (1%nat, [pl2_compression_footprint p]); (1%nat, [pl2_address_format p]);
   (1%nat, [pl2_compression_type p]); (1%nat, [pl2_component_count p]); (4%nat, [pl2_left p]);
   (4%nat, [pl2_top p]); (4%nat, [pl2_right p]); (4%nat, [pl2_bottom p]);
   (1%nat, pl2_component_bit_depths p); (1%nat, pl2_component_bit_offsets p);
   (1%nat, pl2_component_names p); (1%nat, pl2_component_types p); (1%nat, pl2_component_ranges p);
   (4%nat, pl2_field_64 p)].
Definition base2_fields (b : IoSurfaceDeviceBaseDescriptor2) : list (nat * list Z) :=
  [(4%nat, [b2_word0 b]); (4%nat, [b2_pixel_format b]); (8%nat, [b2_offset b]); (8%nat, [b2_field_10 b]);
   (8%nat, [b2_alloc_size b]); (8%nat, [b2_width b]); (8%nat, [b2_height b]);
   (8%nat, [b2_bytes_per_row b]); (2%nat, [b2_bytes_per_element b]); (2%nat, [b2_field_3a b]);
   (1%nat, [b2_element_width b]); (1%nat, [b2_element_height b]); (1%nat, [b2_plane_count b]);
   (1%nat, [b2_address_format b]); (1%nat, [b2_compression_type b]); (1%nat, [b2_bits41 b]);
   (1%nat, b2_field_42 b); (4%nat, [b2_left b]); (4%nat, [b2_top b]); (4%nat, [b2_right b]);
   (4%nat, [b2_bottom b]); (4%nat, [b2_field_54 b]); (8%nat, [b2_protection_options b]);
   (4%nat, b2_field_60 b)].

(** The bytes of a record's fields one after the other. *)
Definition put_field (f : nat * list Z) : list byte := concat (map (le_bytes f.1) f.2).
Definition put (fs : list (nat * list Z)) : list byte := concat (map put_field fs).
Definition descriptor_bytes (d : IoSurfaceDeviceDescriptor) : list byte :=
  put (base_fields (d_base d)) ++ concat (map (fun p => put (plane_fields p)) (d_planes d)).
Definition descriptor2_bytes (d : IoSurfaceDeviceDescriptor2) : list byte :=
  put (base2_fields (d2_base d)) ++ concat (map (fun p => put (plane2_fields p)) (d2_planes d)).

(** [repr(C)] puts no padding: every field falls on a multiple of its element's width. *)
Fixpoint packed (off : nat) (sch : Schema) : bool :=
  match sch with
  | [] => true
  | (n, c) :: sch => (off mod n =? 0)%nat && packed (off + n * c) sch
  end.
Definition total (sch : Schema) : nat := sum_list_with (fun f => (f.1 * f.2)%nat) sch.

(** Fields of the schema's widths and counts, their values in range. *)
Definition in_width (n : nat) (v : Z) : Prop := 0 <= v < 256 ^ Z.of_nat n.
Definition fits : Schema -> list (nat * list Z) -> Prop := Forall2 (fun f v =>
  v.1 = f.1 /\ List.length v.2 = f.2 /\ Forall (in_width f.1) v.2).
Definition fits1 (d : IoSurfaceDeviceDescriptor) : Prop :=
  fits base_schema (base_fields (d_base d)) /\ List.length (d_planes d) = 7%nat /\
  Forall (fun p => fits plane_schema (plane_fields p)) (d_planes d).
Definition fits2 (d : IoSurfaceDeviceDescriptor2) : Prop :=
  fits base2_schema (base2_fields (d2_base d)) /\ List.length (d2_planes d) = 7%nat /\
  Forall (fun p => fits plane2_schema (plane2_fields p)) (d2_planes d).

(** ** The upgrade *)

(** [1 << (v & 31)] for a byte with bit 7 set: the shift is of the whole byte. *)
Definition element_dimension (value : Z) : Z :=
  if negb (Z.land value 0x80 =? 0) then Num.bit32 value else value.

Definition upgrade_base (from : IoSurfaceDeviceBaseDescriptor) : IoSurfaceDeviceBaseDescriptor2 :=
  {| b2_word0 := b_word0 from;
     b2_pixel_format := b_pixel_format from;
     b2_offset := b_offset from;
     b2_field_10 := b_field_0c from;
     b2_alloc_size := b_alloc_size from;
     b2_element_width := Num.low_u8 (b_word14 from);
     b2_element_height := Num.low_u8 (b_word18 from);
     b2_bytes_per_row := b_bytes_per_row from;
     b2_bytes_per_element := b_bytes_per_element from;
     b2_field_3a := 0;
     b2_width := shr32 (b_word14 from) 8;
     b2_height := shr32 (b_word18 from) 8;
     b2_plane_count := b_plane_count from;
     b2_address_format := b_address_format from;
     b2_compression_type := b_compression_type from;
     b2_bits41 := Z.land (b_bits27 from) 1;
     b2_field_42 := [0; 0];
     b2_left := b_left from;
     b2_top := b_top from;
     b2_right := b_right from;
     b2_bottom := b_bottom from;
     b2_field_54 := b_field_2c from;
     b2_protection_options := 0;
     b2_field_60 := replicate 8 0 |}.
Definition upgrade_plane (to : IoSurfaceDevicePlaneDescriptor2)
    (from : IoSurfaceDevicePlaneDescriptor) : IoSurfaceDevicePlaneDescriptor2 :=
  {| pl2_field_00 := [pl_field_00 from; pl_field_04 from];
     pl2_offset := pl_offset from;
     pl2_base := pl_base from;
     pl2_size := pl_size from;
     pl2_element_width := Num.low_u8 (pl_word14 from);
     pl2_element_height := Num.low_u8 (pl_word18 from);
     pl2_bytes_per_row := pl_bytes_per_row from;
     pl2_bytes_per_element := pl_bytes_per_element from;
     pl2_width := shr32 (pl_word14 from) 8;
     pl2_height := shr32 (pl_word18 from) 8;
     pl2_compression_footprint := pl_compression_footprint from;
     pl2_address_format := pl_address_format from;
     pl2_compression_type := pl_compression_type from;
     pl2_component_count := pl_component_count from;
     pl2_left := pl_left from;
     pl2_top := pl_top from;
     pl2_right := pl_right from;
     pl2_bottom := pl_bottom from;
     pl2_component_bit_depths := pl_component_bit_depths from;
     pl2_component_bit_offsets := pl_component_bit_offsets from;
     pl2_component_names := pl_component_names from;
     pl2_component_types := pl_component_types from;
     pl2_component_ranges := pl_component_ranges from;
     (** Left as it was. *)
     pl2_field_64 := pl2_field_64 to |}.
Definition upgrade_descriptor (descriptor : IoSurfaceDeviceDescriptor2)
    (original : IoSurfaceDeviceDescriptor) : IoSurfaceDeviceDescriptor2 :=
  MkDescriptor2 (upgrade_base (d_base original))
    (zip_with upgrade_plane (d2_planes descriptor) (d_planes original)).

(** ** The properties of the IOSurface *)

Definition MAX_PLANES : Z := 7.
Definition MAX_COMPONENTS : Z := 4.
Definition CLIENT_DIRECTION_READ_ONLY : Z := 2.

Record SurfaceComponentSpec := MkComponent {
  bit_depth : Z; bit_offset : Z; name : Z; type_ : Z; range : Z;
}.
Record SurfacePlaneSpec := MkPlaneSpec {
  ps_base : Z; ps_offset : Z; ps_width : Z; ps_height : Z; ps_size : Z; ps_bytes_per_row : Z;
  ps_bytes_per_element : Z; ps_element_width : Z; ps_element_height : Z;
  ps_compression_footprint : Z; ps_address_format : Z; ps_compression_type : Z;
  ps_left : Z; ps_top : Z; ps_right : Z; ps_bottom : Z;
  ps_components : list SurfaceComponentSpec;
}.
Record SurfaceSpec := MkSpec {
  planes : option (list SurfacePlaneSpec);
  pixel_format : Z; offset : Z; alloc_size : Z; width : Z; height : Z; bytes_per_element : Z;
  bytes_per_row : Z; element_width : Z; element_height : Z; address_format : Z;
  compression_type : Z; left_ : Z; top : Z; right_ : Z; bottom : Z; protection_options : Z;
  client_direction : option Z;
  (** Each a host address and a length. *)
  client_address_ranges : option (list (Z * Z));
}.

(** The arrays read together, as far as the shortest goes. *)
Fixpoint components (depths offsets names types ranges : list Z) : list SurfaceComponentSpec :=
  match depths, offsets, names, types, ranges with
  | d :: ds, o :: os, n :: ns, t :: ts, r :: rs => MkComponent d o n t r :: components ds os ns ts rs
  | _, _, _, _, _ => []
  end.

Definition plane_spec (plane : IoSurfaceDevicePlaneDescriptor2) : option SurfacePlaneSpec :=
  if MAX_COMPONENTS <? pl2_component_count plane then None
  else Some {|
    ps_base := pl2_base plane;
    ps_offset := pl2_offset plane;
    ps_width := pl2_width plane;
    ps_height := pl2_height plane;
    ps_size := pl2_size plane;
    ps_bytes_per_row := pl2_bytes_per_row plane;
    ps_bytes_per_element := pl2_bytes_per_element plane;
    ps_element_width := element_dimension (pl2_element_width plane);
    ps_element_height := element_dimension (pl2_element_height plane);
    ps_compression_footprint := pl2_compression_footprint plane;
    ps_address_format := pl2_address_format plane;
    ps_compression_type := pl2_compression_type plane;
    ps_left := pl2_left plane;
    ps_top := pl2_top plane;
    ps_right := pl2_right plane;
    ps_bottom := pl2_bottom plane;
    ps_components := take (Z.to_nat (pl2_component_count plane))
      (components (pl2_component_bit_depths plane) (pl2_component_bit_offsets plane)
        (pl2_component_names plane) (pl2_component_types plane) (pl2_component_ranges plane)) |}.

Definition plane_specs (descriptor : IoSurfaceDeviceDescriptor2)
    : option (list SurfacePlaneSpec) :=
  mapM plane_spec (take (Z.to_nat (b2_plane_count (d2_base descriptor))) (d2_planes descriptor)).

(** A mapping id's host state. *)
Record SurfaceSlot := MkSlot {
  slot_pages : list Z;
  slot_page_count : Z;
  slot_base_offset : Z;
  slot_surface : option Z;
  slot_read_only : bool;
  slot_host_only : bool;
}.
Definition empty_slot : SurfaceSlot := MkSlot [] 0 0 None false false.
Definition with_base_offset (v : Z) (s : SurfaceSlot) : SurfaceSlot :=
  MkSlot (slot_pages s) (slot_page_count s) v (slot_surface s) (slot_read_only s)
    (slot_host_only s).

(** The plane list: none for no planes, a refusal past seven or where a plane's is refused. *)
Definition spec_planes (descriptor : IoSurfaceDeviceDescriptor2)
    : option (option (list SurfacePlaneSpec)) :=
  let count := b2_plane_count (d2_base descriptor) in
  if count =? 0 then Some None
  else if MAX_PLANES <? count then None
  else match plane_specs descriptor with Some planes => Some (Some planes) | None => None end.

(** With the page size of the virtual machine; the slot it leaves has the base offset. *)
Definition surface_spec (page : Z) (descriptor : IoSurfaceDeviceDescriptor2) (slot : SurfaceSlot)
    : option SurfaceSpec * SurfaceSlot :=
  let base := d2_base descriptor in
  match spec_planes descriptor with
  | None => (None, slot)
  | Some planes =>
      (Some {|
        planes := planes;
        pixel_format := b2_pixel_format base;
        offset := b2_offset base;
        alloc_size := b2_alloc_size base;
        width := b2_width base;
        height := b2_height base;
        bytes_per_element := b2_bytes_per_element base;
        bytes_per_row := b2_bytes_per_row base;
        element_width := element_dimension (b2_element_width base);
        element_height := element_dimension (b2_element_height base);
        address_format := b2_address_format base;
        compression_type := b2_compression_type base;
        left_ := b2_left base;
        top := b2_top base;
        right_ := b2_right base;
        bottom := b2_bottom base;
        protection_options := b2_protection_options base;
        client_direction :=
          if slot_read_only slot then Some CLIENT_DIRECTION_READ_ONLY else None;
        client_address_ranges :=
          if slot_host_only slot then None
          else Some (map (fun a => (a, page))
            (take (Z.to_nat (slot_page_count slot)) (slot_pages slot))) |},
       with_base_offset (b2_offset base) slot)
  end.

(** ** What the bytes can hold *)

Definition bytes4 (l : list Z) : Prop := List.length l = 4%nat /\ Forall (fun x => u8 x) l.
Record typed_plane2 (p : IoSurfaceDevicePlaneDescriptor2) : Prop := {
  tp_words : u64 (pl2_offset p) /\ u64 (pl2_base p) /\ u64 (pl2_size p) /\ u64 (pl2_width p) /\
    u64 (pl2_height p) /\ u64 (pl2_bytes_per_row p) /\ u16 (pl2_bytes_per_element p);
  tp_bytes : u8 (pl2_element_width p) /\ u8 (pl2_element_height p) /\
    u8 (pl2_compression_footprint p) /\ u8 (pl2_address_format p) /\
    u8 (pl2_compression_type p) /\ u8 (pl2_component_count p);
  tp_extended : u32 (pl2_left p) /\ u32 (pl2_top p) /\ u32 (pl2_right p) /\ u32 (pl2_bottom p);
  tp_components : bytes4 (pl2_component_bit_depths p) /\ bytes4 (pl2_component_bit_offsets p) /\
    bytes4 (pl2_component_names p) /\ bytes4 (pl2_component_types p) /\
    bytes4 (pl2_component_ranges p);
}.
Record typed_base2 (b : IoSurfaceDeviceBaseDescriptor2) : Prop := {
  tb_head : u32 (b2_word0 b) /\ u32 (b2_pixel_format b);
  tb_words : u64 (b2_offset b) /\ u64 (b2_alloc_size b) /\ u64 (b2_width b) /\ u64 (b2_height b) /\
    u64 (b2_bytes_per_row b) /\ u16 (b2_bytes_per_element b) /\ u64 (b2_protection_options b);
  tb_bytes : u8 (b2_element_width b) /\ u8 (b2_element_height b) /\ u8 (b2_plane_count b) /\
    u8 (b2_address_format b) /\ u8 (b2_compression_type b) /\ u8 (b2_bits41 b);
  tb_extended : u32 (b2_left b) /\ u32 (b2_top b) /\ u32 (b2_right b) /\ u32 (b2_bottom b);
}.
Definition typed (d : IoSurfaceDeviceDescriptor2) : Prop :=
  typed_base2 (d2_base d) /\ List.length (d2_planes d) = 7%nat /\ Forall typed_plane2 (d2_planes d).

Lemma word_range n off bs : 0 <= word n off bs < 256 ^ Z.of_nat n.
Proof.
  unfold word. pose proof (of_le_bytes_range (take n (drop off bs))) as [H0 H].
  split; [done|]. eapply Z.lt_le_trans; [exact H|]. apply Z.pow_le_mono_r; [lia|].
  rewrite length_take. lia.
Qed.
Lemma word8_range off bs : u64 (word 8 off bs).
Proof. exact (word_range 8 off bs). Qed.
Lemma word4_range off bs : u32 (word 4 off bs).
Proof. exact (word_range 4 off bs). Qed.
Lemma word2_range off bs : u16 (word 2 off bs).
Proof. exact (word_range 2 off bs). Qed.
Lemma word1_range off bs : u8 (word 1 off bs).
Proof. exact (word_range 1 off bs). Qed.
Lemma words_bytes4 off bs : bytes4 (words 1 4 off bs).
Proof.
  split; [done|]. unfold words. apply Forall_fmap, Forall_true. intros i. apply word1_range.
Qed.
Lemma word4_u64 off bs : u64 (word 4 off bs).
Proof. pose proof (word4_range off bs). rewrite M32_val, M64_val in *. lia. Qed.
Lemma word1_u32 off bs : u32 (word 1 off bs).
Proof. pose proof (word1_range off bs). rewrite M32_val. lia. Qed.
Lemma low_u8_range x : u8 (Num.low_u8 x).
Proof. unfold Num.low_u8. apply Z.mod_pos_bound. lia. Qed.
Lemma high24 off bs : 0 <= shr32 (word 4 off bs) 8 < 2 ^ 24.
Proof.
  pose proof (word4_range off bs) as H. rewrite M32_val in H. unfold shr32.
  change (8 mod 32) with 8. rewrite Z.shiftr_div_pow2 by lia. change (2 ^ 8) with 256.
  split; [apply Z.div_pos; lia|]. apply Z.div_lt_upper_bound; lia.
Qed.
Lemma high24_u64 off bs : u64 (shr32 (word 4 off bs) 8).
Proof. pose proof (high24 off bs). rewrite M64_val. lia. Qed.
Lemma land1_u8 x : u8 (Z.land x 1).
Proof.
  change 1 with (2 ^ 1 - 1). rewrite land_mask by lia.
  pose proof (Z.mod_pos_bound x (2 ^ 1) ltac:(lia)). lia.
Qed.
Create HintDb descriptor discriminated.
#[local] Hint Resolve word8_range word4_range word2_range word1_range words_bytes4 word4_u64
  word1_u32 low_u8_range high24_u64 land1_u8 : descriptor.
#[local] Hint Extern 1 (u64 0) => by vm_compute : descriptor.

Ltac typed_go := repeat first [solve [auto with descriptor] | split].

Lemma typed_plane2_of bs : typed_plane2 (plane2_of bs).
Proof. split; simpl; typed_go. Qed.
Lemma typed_upgrade_plane to bs : typed_plane2 (upgrade_plane to (plane_of bs)).
Proof. split; simpl; typed_go. Qed.
Lemma typed_base2_of bs : typed_base2 (base2_of bs).
Proof. split; simpl; typed_go. Qed.
Lemma typed_upgrade_base bs : typed_base2 (upgrade_base (base_of bs)).
Proof. split; simpl; typed_go. Qed.

Definition upgraded (bs : list byte) : IoSurfaceDeviceDescriptor2 :=
  upgrade_descriptor zero_descriptor2 (descriptor_of bs).

Lemma typed_descriptor2_of bs : typed (descriptor2_of bs).
Proof.
  split; [apply typed_base2_of|]. split; [done|]. apply Forall_fmap, Forall_true.
  intros i. apply typed_plane2_of.
Qed.
Lemma typed_upgraded bs : typed (upgraded bs).
Proof.
  split; [apply typed_upgrade_base|]. split; [done|].
  repeat (apply Forall_cons; split; [apply typed_upgrade_plane|]). constructor.
Qed.

(** *** Reading back a layout *)

(** The fields of the schema read one after the other from [off]. *)
Fixpoint get (sch : Schema) (off : nat) (bs : list byte) : list (nat * list Z) :=
  match sch with
  | [] => []
  | (n, c) :: sch => (n, words n c off bs) :: get sch (off + n * c) bs
  end.

Lemma words_S n c off bs : words n (S c) off bs = word n off bs :: words n c (off + n) bs.
Proof.
  unfold words. cbn [seq map]. rewrite Nat.mul_0_l, Nat.add_0_r. f_equal.
  rewrite <- seq_shift, map_map. apply map_ext. intros i. f_equal. lia.
Qed.
Lemma put_words n c : forall off bs, (off + n * c <= List.length bs)%nat ->
  put_field (n, words n c off bs) = take (n * c) (drop off bs).
Proof.
  unfold put_field. cbn [fst snd]. induction c as [|c IH]; intros off bs Hl.
  { by rewrite Nat.mul_0_r. }
  rewrite words_S. cbn [map concat]. rewrite IH by lia. unfold word.
  assert (List.length (take n (drop off bs)) = n) as Hn by (rewrite length_take, length_drop; lia).
  pose proof (le_bytes_of_le_bytes (take n (drop off bs))) as E. rewrite Hn in E. rewrite E.
  replace (n * S c)%nat with (n + n * c)%nat by lia.
  by rewrite <- drop_drop, take_take_drop.
Qed.
Lemma put_get sch : forall off bs, (off + total sch <= List.length bs)%nat ->
  put (get sch off bs) = take (total sch) (drop off bs).
Proof.
  unfold put, total. induction sch as [|[n c] sch IH]; intros off bs Hl; [done|].
  cbn [get map concat sum_list_with fst snd] in *. rewrite put_words, IH by lia.
  by rewrite <- drop_drop, take_take_drop.
Qed.
Lemma fits_get sch : forall off bs, fits sch (get sch off bs).
Proof.
  induction sch as [|[n c] sch IH]; intros off bs; constructor; [|apply IH]. cbn [fst snd].
  split; [done|]. split; [unfold words; by rewrite length_map, length_seq|].
  apply Forall_fmap, Forall_true. intros i. apply word_range.
Qed.
Lemma word_put n v pre post : in_width n v -> word n (List.length pre) (pre ++ le_bytes n v ++ post) = v.
Proof.
  intros Hv. unfold word. rewrite drop_app_length, take_app_le by (by rewrite length_le_bytes).
  rewrite take_ge by (by rewrite length_le_bytes). rewrite of_le_bytes_le_bytes. by apply Z.mod_small.
Qed.
Lemma words_put n vs : Forall (in_width n) vs -> forall pre post,
  words n (List.length vs) (List.length pre) (pre ++ put_field (n, vs) ++ post) = vs.
Proof.
  unfold put_field. cbn [fst snd]. induction 1 as [|v vs Hv _ IH]; intros pre post; [done|].
  cbn [List.length map concat]. rewrite words_S, <- app_assoc, word_put by done. f_equal.
  specialize (IH (pre ++ le_bytes n v) post). rewrite length_app, length_le_bytes, <- app_assoc in IH.
  exact IH.
Qed.
Lemma fields_put sch fs : fits sch fs -> forall pre post,
  get sch (List.length pre) (pre ++ put fs ++ post) = fs.
Proof.
  unfold put. induction 1 as [|[n c] [n' vs] sch fs (En&El&Hvs) _ IH]; intros pre post; [done|].
  cbn [fst snd] in *. subst n' c. cbn [get map concat]. rewrite <- app_assoc, words_put by done.
  f_equal. specialize (IH (pre ++ put_field (n, vs)) post).
  rewrite length_app, <- app_assoc in IH.
  assert (List.length (put_field (n, vs)) = n * List.length vs)%nat as El.
  { unfold put_field. cbn [fst snd]. clear. induction vs as [|v vs IH]; [cbn; lia|].
    cbn [map concat List.length]. rewrite length_app, length_le_bytes, IH. lia. }
  by rewrite El in IH.
Qed.
Lemma length_put sch fs : fits sch fs -> List.length (put fs) = total sch.
Proof.
  unfold put, total. induction 1 as [|[n c] [n' vs] sch fs (En&El&_) _ IH]; [done|].
  cbn [fst snd] in *. subst n' c. cbn [map concat sum_list_with fst snd]. rewrite length_app, IH. f_equal.
  unfold put_field. cbn [fst snd]. clear. induction vs as [|v vs IH]; [cbn; lia|].
  cbn [map concat List.length]. rewrite length_app, length_le_bytes, IH. lia.
Qed.

(** *** The four structs *)

Lemma plane_read bs : plane_fields (plane_of bs) = get plane_schema 0 bs.
Proof. reflexivity. Qed.
Lemma base_read bs : base_fields (base_of bs) = get base_schema 0 bs.
Proof. reflexivity. Qed.
Lemma plane2_read bs : plane2_fields (plane2_of bs) = get plane2_schema 0 bs.
Proof. reflexivity. Qed.
Lemma base2_read bs : base2_fields (base2_of bs) = get base2_schema 0 bs.
Proof. reflexivity. Qed.
#[local] Instance plane_fields_inj : Inj (=) (=) plane_fields.
Proof. intros [] [] H. injection H. intros. by subst. Qed.
#[local] Instance base_fields_inj : Inj (=) (=) base_fields.
Proof. intros [] [] H. injection H. intros. by subst. Qed.
#[local] Instance plane2_fields_inj : Inj (=) (=) plane2_fields.
Proof. intros [] [] H. injection H. intros. by subst. Qed.
#[local] Instance base2_fields_inj : Inj (=) (=) base2_fields.
Proof. intros [] [] H. injection H. intros. by subst. Qed.

Section Struct.
(** A struct of [sch], its record's fields and its reader. *)
Context {A : Type} (sch : Schema) (fields : A -> list (nat * list Z)) (read : list byte -> A).
Context `{!Inj (=) (=) fields}.
Hypothesis (Hread : forall bs, fields (read bs) = get sch 0 bs).

Lemma read_put a post : fits sch (fields a) -> read (put (fields a) ++ post) = a.
Proof. intros Hf. apply (inj fields). rewrite Hread. exact (fields_put sch _ Hf [] post). Qed.
Lemma put_read bs : (total sch <= List.length bs)%nat -> put (fields (read bs)) = take (total sch) bs.
Proof. intros Hl. rewrite Hread. by rewrite put_get, drop_0 by lia. Qed.
Lemma read_fits bs : fits sch (fields (read bs)).
Proof. rewrite Hread. apply fits_get. Qed.

(** Several of them after [off] bytes. *)
Lemma put_array n : forall off bs, (off + n * total sch <= List.length bs)%nat ->
  concat (map (fun a => put (fields a)) (map (fun i => read (drop (off + i * total sch) bs)) (seq 0 n)))
  = take (n * total sch) (drop off bs).
Proof.
  induction n as [|n IH]; intros off bs Hl; [done|]. cbn [seq map concat].
  rewrite Nat.mul_0_l, Nat.add_0_r, put_read by (rewrite length_drop; lia).
  assert (map (fun i => read (drop (off + i * total sch) bs)) (seq 1 n)
    = map (fun i => read (drop (off + total sch + i * total sch) bs)) (seq 0 n)) as ->.
  { rewrite <- seq_shift, map_map. apply map_ext. intros i. do 2 f_equal. lia. }
  cbn [Nat.mul].
  rewrite IH by lia. by rewrite <- drop_drop, take_take_drop.
Qed.
Lemma read_array l : Forall (fun a => fits sch (fields a)) l -> forall pre,
  map (fun i => read (drop (List.length pre + i * total sch)
    (pre ++ concat (map (fun a => put (fields a)) l)))) (seq 0 (List.length l)) = l.
Proof.
  induction 1 as [|a l Ha _ IH]; intros pre; [done|]. cbn [List.length seq map concat].
  rewrite Nat.mul_0_l, Nat.add_0_r, drop_app_length, read_put by done. f_equal.
  rewrite <- seq_shift, map_map. specialize (IH (pre ++ put (fields a))).
  rewrite length_app, (length_put sch), <- app_assoc in IH by done. etrans; [|exact IH].
  apply map_ext. intros i. do 2 f_equal. lia.
Qed.
End Struct.

Lemma descriptor2_read bs : List.length bs = 0x400%nat -> descriptor2_bytes (descriptor2_of bs) = bs.
Proof.
  intros Hl. unfold descriptor2_bytes, descriptor2_of. cbn [d2_base d2_planes].
  rewrite (put_read base2_schema) by (apply base2_read || (rewrite Hl; vm_compute; lia)).
  pose proof (put_array plane2_schema plane2_fields plane2_of plane2_read 7 0x80 bs) as Hp.
  change (total plane2_schema) with 0x80%nat in Hp. rewrite Hp by (rewrite Hl; lia).
  change (total base2_schema) with 0x80%nat. rewrite (take_ge (drop _ _)) by (rewrite length_drop, Hl; lia).
  apply take_drop.
Qed.
Lemma descriptor_read bs : List.length bs = 0x200%nat -> descriptor_bytes (descriptor_of bs) = bs.
Proof.
  intros Hl. unfold descriptor_bytes, descriptor_of. cbn [d_base d_planes].
  rewrite (put_read base_schema) by (apply base_read || (rewrite Hl; vm_compute; lia)).
  pose proof (put_array plane_schema plane_fields plane_of plane_read 7 0x40 bs) as Hp.
  change (total plane_schema) with 0x40%nat in Hp. rewrite Hp by (rewrite Hl; lia).
  change (total base_schema) with 0x40%nat. rewrite (take_ge (drop _ _)) by (rewrite length_drop, Hl; lia).
  apply take_drop.
Qed.
Lemma descriptor2_put d : fits2 d -> descriptor2_of (descriptor2_bytes d) = d.
Proof.
  destruct d as [b ps]. intros (Hb&Hl&Hps). cbn [d2_base d2_planes] in *.
  unfold descriptor2_of, descriptor2_bytes. cbn [d2_base d2_planes].
  rewrite (read_put base2_schema base2_fields base2_of base2_read) by done. f_equal.
  pose proof (read_array plane2_schema plane2_fields plane2_of plane2_read ps Hps (put (base2_fields b))) as H.
  rewrite (length_put base2_schema) in H by done. by rewrite Hl in H.
Qed.
Lemma descriptor_put d : fits1 d -> descriptor_of (descriptor_bytes d) = d.
Proof.
  destruct d as [b ps]. intros (Hb&Hl&Hps). cbn [d_base d_planes] in *.
  unfold descriptor_of, descriptor_bytes. cbn [d_base d_planes].
  rewrite (read_put base_schema base_fields base_of base_read) by done. f_equal.
  pose proof (read_array plane_schema plane_fields plane_of plane_read ps Hps (put (base_fields b))) as H.
  rewrite (length_put base_schema) in H by done. by rewrite Hl in H.
Qed.
Lemma fits2_read bs : fits2 (descriptor2_of bs).
Proof.
  split; [exact (read_fits base2_schema base2_fields base2_of base2_read _)|]. split; [done|].
  apply Forall_fmap, Forall_true. intros i. exact (read_fits plane2_schema plane2_fields plane2_of plane2_read _).
Qed.
Lemma fits1_read bs : fits1 (descriptor_of bs).
Proof.
  split; [exact (read_fits base_schema base_fields base_of base_read _)|]. split; [done|].
  apply Forall_fmap, Forall_true. intros i. exact (read_fits plane_schema plane_fields plane_of plane_read _).
Qed.

(** C25: a descriptor is read in the layout its struct has. In either form, the four structs are
    packed as declared, the bytes of a descriptor of the form's size read give a record of fields
    in their widths whose fields, written one after the other in the order declared, are those
    bytes again; and the bytes of any record of fields in their widths read back as that record.
    No field of either form is read elsewhere, in another width or twice. *)
Theorem descriptors_read_back :
  packed 0 base_schema && packed 0 plane_schema && packed 0 base2_schema && packed 0 plane2_schema
    = true /\
  (forall bs, List.length bs = Z.to_nat (form_size First) ->
    fits1 (descriptor_of bs) /\ descriptor_bytes (descriptor_of bs) = bs) /\
  (forall bs, List.length bs = Z.to_nat (form_size Second) ->
    fits2 (descriptor2_of bs) /\ descriptor2_bytes (descriptor2_of bs) = bs) /\
  (forall d, fits1 d -> descriptor_of (descriptor_bytes d) = d) /\
  (forall d, fits2 d -> descriptor2_of (descriptor2_bytes d) = d).
Proof.
  split_and!; [reflexivity| | |exact descriptor_put|exact descriptor2_put].
  - intros bs Hl. split; [apply fits1_read|by apply descriptor_read].
  - intros bs Hl. split; [apply fits2_read|by apply descriptor2_read].
Qed.
Lemma descriptors_read_back_witness :
  let bs := concat (replicate 0x80 [x01; x02; x03; x04]) in
  descriptor_bytes (descriptor_of bs) = bs /\ b_bytes_per_element (d_base (descriptor_of bs)) = 0x201.
Proof.
  intros bs. destruct descriptors_read_back as (_&H&_).
  split; [exact (proj2 (H bs eq_refl))|reflexivity].
Defined.

(** A descriptor read in the first form has sizes below 2^24, is never host-only and asks for no
    protection. *)
Lemma upgraded_small bs :
  host_only (d2_base (upgraded bs)) = false /\ b2_protection_options (d2_base (upgraded bs)) = 0 /\
  0 <= b2_width (d2_base (upgraded bs)) < 2 ^ 24 /\
  0 <= b2_height (d2_base (upgraded bs)) < 2 ^ 24 /\
  Forall (fun p => 0 <= pl2_width p < 2 ^ 24 /\ 0 <= pl2_height p < 2 ^ 24)
    (d2_planes (upgraded bs)).
Proof.
  split; [|split; [done|split; [apply high24|split; [apply high24|]]]].
  - unfold host_only. simpl. change 2 with (2 ^ 1). rewrite negb_false_iff, Z.eqb_eq.
    apply Z.bits_inj'. intros i Hi. rewrite !Z.land_spec, Z.bits_0.
    destruct (Z.eq_dec i 0) as [->|]; [by rewrite (Z.pow2_bits_false 1 0), andb_false_r by lia|].
    change 1 with (2 ^ 0) at 1. by rewrite (Z.pow2_bits_false 0 i), andb_false_r by lia.
  - repeat (apply Forall_cons; split; [split; apply high24|]). constructor.
Qed.

(** ** What is refused *)

Lemma plane_spec_refused p : plane_spec p = None <-> MAX_COMPONENTS < pl2_component_count p.
Proof. unfold plane_spec. case_if; split; intros; (done || lia). Qed.
Lemma components_length n ds os ns ts rs :
  List.length ds = n -> List.length os = n -> List.length ns = n -> List.length ts = n ->
  List.length rs = n -> List.length (components ds os ns ts rs) = n.
Proof.
  revert ds os ns ts rs. induction n as [|n IH];
    intros [|] [|] [|] [|] [|]; simpl; try done. intros. f_equal. apply IH; lia.
Qed.
Lemma plane_spec_components p s : typed_plane2 p -> plane_spec p = Some s ->
  Z.of_nat (List.length (ps_components s)) = pl2_component_count p.
Proof.
  intros T. unfold plane_spec. case_if; [done|]. intros [= <-]. simpl.
  destruct (tp_components p T) as ([? _]&[? _]&[? _]&[? _]&[? _]).
  destruct (tp_bytes p T) as (_&_&_&_&_&?).
  rewrite length_take, (components_length 4) by done. unfold MAX_COMPONENTS in *. lia.
Qed.

(** The planes named, and no other. *)
Definition named_planes (d : IoSurfaceDeviceDescriptor2) : list IoSurfaceDevicePlaneDescriptor2 :=
  take (Z.to_nat (b2_plane_count (d2_base d))) (d2_planes d).

(** C26: the properties are refused exactly for more than seven planes or for a named plane of
    more than four components, and then the slot is as it was; otherwise they list each named
    plane with as many components as it names, and one page-long range for each page of a
    guest-backed surface, and the slot has the base offset. *)
Theorem surface_spec_refusals page d slot : typed d ->
  match surface_spec page d slot with
  | (None, slot') =>
      slot' = slot /\ (MAX_PLANES < b2_plane_count (d2_base d) \/
        Exists (fun p => MAX_COMPONENTS < pl2_component_count p) (named_planes d))
  | (Some spec, slot') =>
      b2_plane_count (d2_base d) <= MAX_PLANES /\
      Forall (fun p => pl2_component_count p <= MAX_COMPONENTS) (named_planes d) /\
      Forall2 (fun p s => Z.of_nat (List.length (ps_components s)) = pl2_component_count p)
        (named_planes d) (default [] (planes spec)) /\
      client_address_ranges spec =
        (if slot_host_only slot then None
         else Some (map (fun a => (a, page)) (take (Z.to_nat (slot_page_count slot)) (slot_pages slot)))) /\
      slot' = with_base_offset (b2_offset (d2_base d)) slot
  end.
Proof.
  intros (Tb&Hl&Tp). unfold surface_spec, spec_planes, named_planes, plane_specs.
  destruct (tb_bytes _ Tb) as (_&_&Hc&_). revert Hc Tp Hl.
  generalize (b2_plane_count (d2_base d)) (d2_planes d). intros n ps Hn Tp Hl.
  assert (Forall typed_plane2 (take (Z.to_nat n) ps)) as Ht by by apply Forall_take.
  case_if; [subst n; simpl; split_and!; [done|constructor..|done|done]|].
  case_if; [split; [done|by left]|].
  destruct (mapM plane_spec (take (Z.to_nat n) ps)) as [l|] eqn:E.
  - apply mapM_Some_1 in E. split_and!; [lia| | |done|done].
    + eapply Forall2_Forall_l; [exact E|]. apply Forall_true. intros s p Hs.
      destruct (Z.le_gt_cases (pl2_component_count p) MAX_COMPONENTS) as [|Hg]; [done|].
      apply plane_spec_refused in Hg. by rewrite Hg in Hs.
    + simpl. clear -E Ht. induction E; [constructor|]. apply Forall_cons in Ht as [? ?].
      constructor; [by apply plane_spec_components|by apply IHE].
  - split; [done|]. right. apply mapM_None_1 in E. eapply Exists_impl; [exact E|].
    intros p Hp. by apply plane_spec_refused.
Qed.

(** An element dimension is its byte, or a power of two below 2^32. *)
Lemma element_dimension_bounds v : u8 v ->
  element_dimension v = v /\ v < 0x80 \/
  0x80 <= v /\ element_dimension v = 2 ^ (v mod 32).
Proof.
  intros Hv. unfold element_dimension, Num.bit32, shl32.
  assert (Z.land v 0x80 = if 0x80 <=? v then 0x80 else 0) as ->.
  { assert (forall n : nat, (n < 256)%nat ->
      Z.land (Z.of_nat n) 0x80 = if 0x80 <=? Z.of_nat n then 0x80 else 0) as H.
    { intros n Hn. do 256 (destruct n as [|n]; [reflexivity|]). lia. }
    specialize (H (Z.to_nat v) ltac:(lia)). by rewrite Z2Nat.id in H by lia. }
  destruct (Z.leb_spec 0x80 v); simpl; [right|left; split; [done|lia]]. split; [done|].
  rewrite Z.shiftl_1_l, w32_small; [done|]. split; [lia|].
  apply Z.pow_lt_mono_r; [lia|lia|]. pose proof (Z.mod_pos_bound v 32). lia.
Qed.

(** A slot of two pages, a descriptor of one plane of three components. *)
Definition sample_descriptor : IoSurfaceDeviceDescriptor2 :=
  descriptor2_of (replicate 0x3e x00 ++ [x01] ++ replicate 0x80 x00 ++ [x03] ++ replicate 0x340 x00).
Definition sample_slot : SurfaceSlot := MkSlot [0x100004000; 0x100008000] 2 0 None true false.
Lemma surface_spec_refusals_witness :
  typed sample_descriptor /\
  (default [] (client_address_ranges
    (default (MkSpec None 0 0 0 0 0 0 0 0 0 0 0 0 0 0 0 0 None None)
      (surface_spec 0x4000 sample_descriptor sample_slot).1)))
    = [(0x100004000, 0x4000); (0x100008000, 0x4000)].
Proof.
  assert (typed sample_descriptor) as T by apply typed_descriptor2_of.
  pose proof (surface_spec_refusals 0x4000 sample_descriptor sample_slot T) as H.
  split; [exact T|]. destruct (surface_spec 0x4000 sample_descriptor sample_slot) as [[spec|] s].
  - destruct H as (_&_&_&Hr&_). simpl. rewrite Hr. reflexivity.
  - destruct H as [_ [H|H]]; [vm_compute in H; done|].
    exfalso. apply Exists_cons in H as [H|H%Exists_nil]; [by vm_compute in H|done].
Defined.
End SurfaceDescriptor.
