(* ===== verification/SurfaceWalk.v ===== *)
(** * SurfaceWalk: the page walk of a guest-backed surface
    (src/crates/reims-vgpu-core/src/iosurface/walk.rs; the statuses of iosurface/ring.rs)

    The host address of each guest page of a surface, through the page table its
    descriptor roots: one level for a table page of entries or less, two above. Guest
    memory is read as it is when the walk begins: the guest's writes during a walk are
    not modelled. Log lines are not modelled. *)

From S2P Require Import Prelude Num MemoryKinds GuestRecords GuestPtr MemoryMap SurfaceDescriptor.
Open Scope Z_scope.

Module SurfaceWalk.
Import SurfaceDescriptor.

(** A command's status. *)
Inductive IoReturn : Type := Success | NoMemory | BadArgument | Unsupported | Busy.
#[global] Instance IoReturn_eq_dec : EqDecision IoReturn.
Proof. solve_decision. Defined.
Definition code (r : IoReturn) : Z :=
  match r with
  | Success => 0
  | NoMemory => i32_of_u32 0xe00002bd
  | BadArgument => i32_of_u32 0xe00002c2
  | Unsupported => i32_of_u32 0xe00002c7
  | Busy => i32_of_u32 0xe00002d5
  end.

(** How the device ends the process: its own deaths, the memory map's, and the model's own for
    a loop out of fuel. *)
Inductive sdeath : Type :=
| OfSurface (k : DeathKind)
| OfMap (d : Memory.mdeath)
| OutOfFuel.

(** An entry of the descriptor table or of a page table. *)
Definition TABLE_ENTRY_SIZE : Z := 4.

Section Walk.
(** The device's memory map (none after its teardown), guest memory, the virtual
    machine's page size and shift. *)
Context (memory_map : option MemoryMap.MemoryMap) (mem : GuestPtr.memory) (page shift : Z).
Local Abbreviation M := (Run SurfaceSlot IoReturn sdeath).

Definition virtual_address_for_physical (physical length : Z) : Z :=
  match memory_map with
  | Some m => MemoryMap.virtual_address_for_physical m physical length
  | None => 0
  end.

(** The entry [i] of the table at [base]. *)
Definition read_entry (base i : Z) : outcome IoReturn sdeath Z :=
  GuestPtr.read_u32 mem base (mul64 i TABLE_ENTRY_SIZE) (OfSurface PageTableRead).
Definition at_slot {A} (m : outcome IoReturn sdeath A) : M A := fun s =>
  match m with
  | Ret a => Ret (a, s)
  | Raised e => Raised (e, s)
  | Died d => Died d
  end.
Definition set_page (i host : Z) (s : SurfaceSlot) : SurfaceSlot :=
  MkSlot (<[Z.to_nat i := host]> (slot_pages s)) (slot_page_count s) (slot_base_offset s)
    (slot_surface s) (slot_read_only s) (slot_host_only s).

(** The entries of one table from [j], [n] of them, into the pages from [mapped]; [bad] is
    what one that does not name a page answers. *)
Fixpoint walk_entries (table : Z) (bad : IoReturn) (n : nat) (j mapped : Z) : M unit :=
  match n with
  | O => mret tt
  | S n =>
      entry ← at_slot (read_entry table j);
      if negb (valid entry) || is_table entry then raise bad
      else
        let host_page := virtual_address_for_physical (address entry shift) page in
        if host_page =? 0 then raise NoMemory
        else
          _ ← modify (set_page mapped host_page);
          walk_entries table bad n (j + 1) (add64 mapped 1)
  end.

(** The root's entries from [i], [n] of them. *)
Fixpoint walk_tables (root entries_per_page : Z) (n : nat) (i remaining mapped : Z) : M unit :=
  match n with
  | O => mret tt
  | S n =>
      entry ← at_slot (read_entry root i);
      if negb (valid entry) || negb (is_table entry) then raise BadArgument
      else
        let table := virtual_address_for_physical (address entry shift) page in
        if table =? 0 then raise NoMemory
        else
          let count := Z.min remaining entries_per_page in
          _ ← walk_entries table NoMemory (Z.to_nat count) 0 mapped;
          walk_tables root entries_per_page n (i + 1) (sub64 remaining count)
            (add64 mapped count)
  end.
Definition walk_two_levels (root table_count page_count entries_per_page : Z) : M unit :=
  walk_tables root entries_per_page (Z.to_nat table_count) 0 page_count 0.

Definition walk (descriptor : IoSurfaceDeviceDescriptor2) (page_count : Z) : M unit :=
  let root := virtual_address_for_physical
    (address (b2_word0 (d2_base descriptor)) shift) page in
  if root =? 0 then raise NoMemory
  else
    let entries_per_page := page / TABLE_ENTRY_SIZE in
    if mul64 entries_per_page entries_per_page <? page_count then raise NoMemory
    else
      let table_count :=
        Num.div0 (sub64 (add64 page_count entries_per_page) 1) entries_per_page in
      if entries_per_page <? table_count then raise NoMemory
      else
        _ ← modify (fun s => MkSlot (replicate (Z.to_nat page_count) 0) page_count
          (slot_base_offset s) (slot_surface s) (read_only (d2_base descriptor)) false);
        if 1 <? table_count then
          walk_two_levels root table_count page_count entries_per_page
        else walk_entries root BadArgument (Z.to_nat page_count) 0 0.

(** ** The reference: each page looked up on its own *)

Definition lookup_entry (table i : Z) (bad : IoReturn) : outcome IoReturn sdeath Z :=
  entry ← read_entry table i;
  if negb (valid entry) || is_table entry then Raised bad
  else
    let host_page := virtual_address_for_physical (address entry shift) page in
    if host_page =? 0 then Raised NoMemory else Ret host_page.

(** Page [k] of a surface of [n] pages. *)
Definition lookup_page (root n k : Z) : outcome IoReturn sdeath Z :=
  let per := page / TABLE_ENTRY_SIZE in
  if n <=? per then lookup_entry root k BadArgument
  else
    entry ← read_entry root (k / per);
    if negb (valid entry) || negb (is_table entry) then Raised BadArgument
    else
      let table := virtual_address_for_physical (address entry shift) page in
      if table =? 0 then Raised NoMemory else lookup_entry table (k mod per) NoMemory.

Fixpoint lookups (look : Z -> outcome IoReturn sdeath Z) (n : nat) (k : Z)
    : outcome IoReturn sdeath (list Z) :=
  match n with
  | O => Ret []
  | S n => h ← look k; hs ← lookups look n (k + 1); Ret (h :: hs)
  end.
End Walk.

(** ** The walk is the lookups *)

Section Spec.
Context (memory_map : option MemoryMap.MemoryMap) (mem : GuestPtr.memory) (page shift : Z).
Local Abbreviation M := (Run SurfaceSlot IoReturn sdeath).
Local Abbreviation lookups := (lookups).
Implicit Types (s : SurfaceSlot) (look : Z -> outcome IoReturn sdeath Z).

Definition with_pages (ps : list Z) s : SurfaceSlot :=
  MkSlot ps (slot_page_count s) (slot_base_offset s) (slot_surface s) (slot_read_only s)
    (slot_host_only s).

(** [m] fills [n] pages from [at_] with [found], and ends as it does. *)
Definition fills (m : M unit) (at_ : Z) (n : nat) (found : outcome IoReturn sdeath (list Z))
    : Prop :=
  forall s front rest, Z.of_nat (length front) = at_ -> slot_pages s = front ++ rest ->
  (n <= length rest)%nat ->
  match found with
  | Ret hs => length hs = n /\ m s = Ret (tt, with_pages (front ++ hs ++ drop n rest) s)
  | Raised e => exists ps, m s = Raised (e, with_pages ps s)
  | Died d => m s = Died d
  end.

Lemma with_pages_id s : with_pages (slot_pages s) s = s.
Proof. by destruct s. Qed.
Lemma raised_here {A} s (e : IoReturn) :
  exists ps, (Raised (e, s) : outcome (IoReturn * SurfaceSlot) sdeath A) = Raised (e, with_pages ps s).
Proof. exists (slot_pages s). by rewrite with_pages_id. Qed.
Lemma lookups_length look n : forall k hs, lookups look n k = Ret hs -> length hs = n.
Proof.
  induction n as [|n IH]; intros k hs; simpl; [by intros [= <-]|].
  intros H. inv_bind H. injection H as <-. simpl. f_equal. by eapply IH.
Qed.
Lemma lookups_app look n1 n2 : forall k,
  lookups look (n1 + n2) k =
  (hs1 ← lookups look n1 k; hs2 ← lookups look n2 (k + Z.of_nat n1); Ret (hs1 ++ hs2)).
Proof.
  induction n1 as [|n1 IH]; intros k; simpl.
  - rewrite Z.add_0_r. by destruct (lookups look n2 k).
  - destruct (look k); simpl; [|done..]. rewrite IH.
    replace (k + Z.of_nat (S n1)) with (k + 1 + Z.of_nat n1) by lia.
    destruct (lookups look n1 (k + 1)); simpl; [|done..]. by destruct (lookups look n2 _).
Qed.
Lemma lookups_ext look look' n : forall k k',
  (forall i, 0 <= i < Z.of_nat n -> look (k + i) = look' (k' + i)) ->
  lookups look n k = lookups look' n k'.
Proof.
  induction n as [|n IH]; intros k k' H; simpl; [done|].
  rewrite <- (Z.add_0_r k) at 1. rewrite <- (Z.add_0_r k') at 1. rewrite (H 0) by lia.
  rewrite (IH (k + 1) (k' + 1)); [done|]. intros i Hi.
  rewrite <- !Z.add_assoc. apply H. lia.
Qed.

Lemma fills_nil at_ : fills (mret tt) at_ 0 (Ret []).
Proof. intros s front rest _ Hp _. simpl. by rewrite drop_0, <- Hp, with_pages_id. Qed.

(** Two stretches, one after the other. *)
Lemma fills_app m1 m2 at_ n1 n2 f1 f2 :
  fills m1 at_ n1 f1 -> fills m2 (at_ + Z.of_nat n1) n2 f2 ->
  fills (_ ← m1; m2) at_ (n1 + n2) (hs1 ← f1; hs2 ← f2; Ret (hs1 ++ hs2)).
Proof.
  intros H1 H2 s front rest Hf Hp Hn. specialize (H1 s front rest Hf Hp ltac:(lia)).
  rewrite run_step. destruct f1 as [hs1|e|d]; simpl.
  2: { destruct H1 as [ps H1]. exists ps. by rewrite H1. }
  2: { by rewrite H1. }
  destruct H1 as [Hl H1]. rewrite H1.
  specialize (H2 (with_pages (front ++ hs1 ++ drop n1 rest) s) (front ++ hs1) (drop n1 rest)).
  rewrite length_app, length_drop in H2. specialize (H2 ltac:(lia)).
  simpl in H2. rewrite (app_assoc front) in H2 at 1. specialize (H2 eq_refl ltac:(lia)).
  destruct f2 as [hs2|e|d]; simpl.
  - destruct H2 as [Hl2 H2]. split; [rewrite length_app; lia|]. rewrite H2, drop_drop.
    unfold with_pages. simpl. by rewrite <- !app_assoc.
  - destruct H2 as [ps H2]. exists ps. by rewrite H2.
  - by rewrite H2.
Qed.

Local Abbreviation entry_of := (lookup_entry memory_map mem page shift).
Local Abbreviation host_of := (virtual_address_for_physical memory_map).
Local Abbreviation entries := (walk_entries memory_map mem page shift).
Local Abbreviation tables := (walk_tables memory_map mem page shift).

Lemma entries_step table bad n j mapped s :
  entries table bad (S n) j mapped s =
  match entry_of table j bad with
  | Ret h => entries table bad n (j + 1) (add64 mapped 1) (set_page mapped h s)
  | Raised e => Raised (e, s)
  | Died d => Died d
  end.
Proof.
  simpl. rewrite run_step. unfold at_slot at 1, lookup_entry.
  destruct (read_entry mem table j) as [entry|e|d]; simpl; [|done..].
  destruct (negb (valid entry) || is_table entry); [done|]. by destruct (_ =? 0).
Qed.
Lemma entries_fill table bad n : forall j mapped,
  0 <= mapped -> mapped + Z.of_nat n < M64 ->
  fills (entries table bad n j mapped) mapped n
    (lookups (fun k => entry_of table k bad) n j).
Proof.
  induction n as [|n IH]; intros j mapped H0 Hm; [apply fills_nil|].
  intros s front rest Hf Hp Hn. simpl lookups. rewrite entries_step.
  destruct (entry_of table j bad) as [host|e|d]; simpl; [|apply raised_here|done].
  destruct rest as [|r rest]; [simpl in Hn; lia|].
  assert (slot_pages (set_page mapped host s) = (front ++ [host]) ++ rest) as Hp'.
  { simpl. rewrite Hp, insert_at' by lia. by rewrite <- app_assoc. }
  rewrite (add64_small mapped 1) by lia.
  specialize (IH (j + 1) (mapped + 1) ltac:(lia) ltac:(lia) (set_page mapped host s)
    (front ++ [host]) rest ltac:(rewrite length_app; simpl; lia) Hp' ltac:(simpl in Hn; lia)).
  destruct (lookups _ n (j + 1)) as [hs|e|d]; simpl.
  - destruct IH as [Hl IH]. split; [by rewrite Hl|]. rewrite IH. unfold with_pages. simpl.
    by rewrite <- app_assoc.
  - destruct IH as [ps IH]. exists ps. by rewrite IH.
  - done.
Qed.

(** Page [k] of a surface of two levels. *)
Definition two_level (root per k : Z) : outcome IoReturn sdeath Z :=
  entry ← read_entry mem root (k / per);
  if negb (valid entry) || negb (is_table entry) then Raised BadArgument
  else
    let table := host_of (address entry shift) page in
    if table =? 0 then Raised NoMemory else entry_of table (k mod per) NoMemory.

Lemma tables_fill root per n : 0 < per -> forall i remaining,
  0 <= i -> 0 <= remaining -> remaining <= Z.of_nat n * per -> (Z.of_nat n - 1) * per < remaining ->
  i * per + remaining < M64 ->
  fills (tables root per n i remaining (i * per)) (i * per) (Z.to_nat remaining)
    (lookups (two_level root per) (Z.to_nat remaining) (i * per)).
Proof.
  intros Hper. induction n as [|n IH]; intros i remaining Hi Hr Hle Hlt Hm.
  { assert (remaining = 0) as -> by lia. apply fills_nil. }
  set (count := Z.min remaining per).
  assert (0 < count <= remaining) as Hc by nia.
  assert (forall j, 0 <= j < count -> two_level root per (i * per + j) =
    (entry ← read_entry mem root i;
     if negb (valid entry) || negb (is_table entry) then Raised BadArgument
     else
       let table := host_of (address entry shift) page in
       if table =? 0 then Raised NoMemory else entry_of table j NoMemory)) as Hlook.
  { intros j Hj. unfold two_level. rewrite Z.add_comm, Z.div_add, Z.mod_add by lia.
    by rewrite Z.div_small, Z.mod_small, Z.add_0_l by lia. }
  assert (Z.to_nat remaining = Z.to_nat count + Z.to_nat (remaining - count))%nat as Hsplit by lia.
  assert (exists c, Z.to_nat remaining = S c) as [c Hsc] by (exists (Z.to_nat (remaining - 1)); lia).
  simpl walk_tables. fold count.
  assert (forall (e : IoReturn + sdeath),
    two_level root per (i * per) = match e with inl e => Raised e | inr d => Died d end ->
    fills (fun s => match e with inl e => Raised (e, s) | inr d => Died d end) (i * per)
      (Z.to_nat remaining) (lookups (two_level root per) (Z.to_nat remaining) (i * per))) as Hbad.
  { intros e He s front rest _ _ _. rewrite Hsc. simpl. rewrite He.
    destruct e as [e|d]; simpl; [|done]. apply raised_here. }
  specialize (Hlook 0 ltac:(lia)) as H0. rewrite Z.add_0_r in H0.
  intros s front rest Hf Hp Hn. rewrite run_step. unfold at_slot.
  destruct (read_entry mem root i) as [entry|e|d] eqn:Er.
  2: { exact (Hbad (inl e) H0 s front rest Hf Hp Hn). }
  2: { exact (Hbad (inr d) H0 s front rest Hf Hp Hn). }
  simpl in Hlook, H0. destruct (negb (valid entry) || negb (is_table entry)).
  { exact (Hbad (inl BadArgument) H0 s front rest Hf Hp Hn). }
  simpl. set (table := host_of _ _) in *. destruct (table =? 0).
  { exact (Hbad (inl NoMemory) H0 s front rest Hf Hp Hn). }
  revert s front rest Hf Hp Hn.
  rewrite (sub64_small remaining count) by lia. rewrite (add64_small (i * per) count) by lia.
  rewrite Hsplit, lookups_app.
  rewrite (lookups_ext (two_level root per) (fun k => entry_of table k NoMemory)
    (Z.to_nat count) (i * per) 0).
  2: { intros j Hj. rewrite Hlook by lia. by rewrite Z.add_0_l. }
  apply fills_app; [apply entries_fill; lia|]. rewrite !Z2Nat.id by lia.
  destruct (Z.le_gt_cases remaining per) as [Hs|Hb].
  - assert (remaining - count = 0) as -> by lia. assert (n = 0)%nat as -> by nia. apply fills_nil.
  - assert (count = per) as -> by lia. replace (i * per + per) with ((i + 1) * per) by lia.
    apply IH; lia.
Qed.

(** A surface's slot filled with [hs]. *)
Definition filled (b : IoSurfaceDeviceBaseDescriptor2) (page_count : Z) (hs : list Z) s
    : SurfaceSlot :=
  MkSlot hs page_count (slot_base_offset s) (slot_surface s) (read_only b) false.

Lemma filled_fills (m : M unit) b (n : nat) found s :
  fills m 0 n found ->
  match found with
  | Ret hs => length hs = n /\
      m (filled b (Z.of_nat n) (replicate n 0) s) = Ret (tt, filled b (Z.of_nat n) hs s)
  | Raised e => exists hs,
      m (filled b (Z.of_nat n) (replicate n 0) s) = Raised (e, filled b (Z.of_nat n) hs s)
  | Died d => m (filled b (Z.of_nat n) (replicate n 0) s) = Died d
  end.
Proof.
  intros H. specialize (H (filled b (Z.of_nat n) (replicate n 0) s) [] (replicate n 0)
    eq_refl eq_refl ltac:(by rewrite length_replicate)).
  destruct found as [hs|e|d]; [|done..]. destruct H as [Hl H]. split; [done|].
  rewrite H, drop_replicate, Nat.sub_diag. by rewrite app_nil_r.
Qed.

(** How a walk ends, by its pages' lookups. *)
Definition walk_ends (descriptor : IoSurfaceDeviceDescriptor2) (page_count : Z) s
    (walked : outcome (IoReturn * SurfaceSlot) sdeath (unit * SurfaceSlot)) : Prop :=
  let b := d2_base descriptor in
  let root := host_of (address (b2_word0 b) shift) page in
  let per := page / TABLE_ENTRY_SIZE in
  if (root =? 0) || (per * per <? page_count) then walked = Raised (NoMemory, s)
  else
    match lookups (lookup_page memory_map mem page shift root page_count)
        (Z.to_nat page_count) 0 with
    | Ret hs => length hs = Z.to_nat page_count /\ walked = Ret (tt, filled b page_count hs s)
    | Raised e => exists hs, walked = Raised (e, filled b page_count hs s)
    | Died d => walked = Died d
    end.

Lemma walk_as_lookups descriptor page_count s :
  page = 2 ^ shift -> 2 <= shift <= 31 -> u64 page_count ->
  walk_ends descriptor page_count s (walk memory_map mem page shift descriptor page_count s).
Proof.
  intros Hpage Hshift Hn. unfold walk_ends, walk. set (b := d2_base descriptor).
  set (root := host_of _ _). set (per := page / TABLE_ENTRY_SIZE).
  assert (0 < per /\ per * per < 2 ^ 60) as [Hper Hsq].
  { assert (per = 2 ^ (shift - 2)) as ->
      by (unfold per, TABLE_ENTRY_SIZE; rewrite Hpage, Z.pow_sub_r by lia; done).
    rewrite <- Z.pow_add_r by lia. split; [apply Z.pow_pos_nonneg; lia|].
    apply Z.pow_lt_mono_r; lia. }
  destruct (root =? 0); [done|]. rewrite orb_false_l, (mul64_small per per) by (rewrite M64_val; nia).
  destruct (Z.ltb_spec (per * per) page_count) as [|Hfit]; [done|].
  rewrite (add64_small page_count per) by (rewrite M64_val; nia).
  rewrite (sub64_small (page_count + per) 1) by (rewrite M64_val; nia).
  unfold Num.div0. destruct (Z.eqb_spec per 0); [lia|].
  set (tc := (page_count + per - 1) / per).
  assert (page_count <= tc * per < page_count + per) as Htc.
  { unfold tc. pose proof (Z.div_mod (page_count + per - 1) per ltac:(lia)) as Hd.
    pose proof (Z.mod_pos_bound (page_count + per - 1) per ltac:(lia)). nia. }
  assert (0 <= tc <= per) as Htc2 by nia.
  destruct (Z.ltb_spec per tc); [lia|].
  rewrite run_step. unfold modify. cbv beta iota. fold b.
  change (MkSlot _ _ _ _ _ _) with (filled b page_count (replicate (Z.to_nat page_count) 0) s).
  set (np := Z.to_nat page_count) in *. assert (page_count = Z.of_nat np) as En by (unfold np; lia).
  rewrite !En. apply filled_fills. rewrite <- En. destruct (Z.ltb_spec 1 tc) as [Htwo|Hone].
  - rewrite (lookups_ext _ (two_level root per) np 0 (0 * per)).
    2: { intros i _. unfold lookup_page. fold per.
         destruct (Z.leb_spec page_count per); [nia|]. done. }
    apply (tables_fill root per (Z.to_nat tc) Hper 0 page_count); rewrite ?Z2Nat.id, ?M64_val by lia; nia.
  - rewrite (lookups_ext _ (fun k => entry_of root k BadArgument) np 0 0).
    2: { intros i _. unfold lookup_page. fold per.
         destruct (Z.leb_spec page_count per); [done|nia]. }
    apply entries_fill; [lia|]. rewrite <- En. lia.
Qed.

(** C24: a walk is refused where the root is not in guest memory or the pages are more than two
    levels of tables hold, and changes nothing then. Otherwise it ends as the lookups of its
    pages, each on its own, end in page order: with every page's host address, or with the
    status (or the death) of the first that has none. *)
Theorem surface_walk_is_lookup descriptor page_count s :
  page = 2 ^ shift -> 2 <= shift <= 31 -> u64 page_count ->
  walk_ends descriptor page_count s (walk memory_map mem page shift descriptor page_count s).
Proof. apply walk_as_lookups. Qed.
(** A walk that ends well has filled every page. *)
Lemma walk_Ret descriptor page_count s s' :
  page = 2 ^ shift -> 2 <= shift <= 31 -> u64 page_count ->
  walk memory_map mem page shift descriptor page_count s = Ret (tt, s') ->
  exists hs, length hs = Z.to_nat page_count /\ s' = filled (d2_base descriptor) page_count hs s.
Proof.
  intros Hp Hs Hn Hw. pose proof (walk_as_lookups descriptor page_count s Hp Hs Hn) as H.
  rewrite Hw in H. unfold walk_ends in H. destruct (_ || _); [done|].
  destruct (lookups _ _ _) as [hs|e|d]; [|by destruct H|done].
  destruct H as [Hl [= ->]]. by exists hs.
Qed.
Lemma read_entry_alive t i d : read_entry mem t i = Died d -> d <> OutOfFuel.
Proof.
  unfold read_entry, GuestPtr.read_u32, GuestPtr.read_n, GuestPtr.check. by case_if; intros [= <-].
Qed.
Lemma lookup_alive root n k d :
  lookup_page memory_map mem page shift root n k = Died d -> d <> OutOfFuel.
Proof.
  assert (forall t i bad, entry_of t i bad = Died d -> d <> OutOfFuel) as He.
  { intros t i bad. unfold lookup_entry. destruct (read_entry mem t i) as [e|e|d'] eqn:E; simpl.
    - destruct (_ || _); [done|]. by destruct (_ =? 0).
    - done.
    - intros [= ->]. by eapply read_entry_alive. }
  unfold lookup_page. case_if; [apply He|].
  destruct (read_entry mem root _) as [e|e|d'] eqn:E; simpl.
  - destruct (_ || _); [done|]. destruct (_ =? 0); [done|]. apply He.
  - done.
  - intros [= ->]. by eapply read_entry_alive.
Qed.
Lemma lookup_status root n k e :
  lookup_page memory_map mem page shift root n k = Raised e -> e <> Success.
Proof.
  assert (forall t i e, read_entry mem t i = Raised e -> False) as Hr.
  { intros t i e0. unfold read_entry, GuestPtr.read_u32, GuestPtr.read_n, GuestPtr.check.
    by case_if. }
  assert (forall t i bad, bad <> Success -> entry_of t i bad = Raised e -> e <> Success) as He.
  { intros t i bad Hb. unfold lookup_entry. destruct (read_entry mem t i) as [w|w|d'] eqn:E; simpl.
    - destruct (_ || _); [by intros [= <-]|]. destruct (_ =? 0); [by intros [= <-]|done].
    - by destruct (Hr _ _ _ E).
    - done. }
  unfold lookup_page. case_if; [by apply He|].
  destruct (read_entry mem root _) as [w|w|d'] eqn:E; simpl.
  - destruct (_ || _); [by intros [= <-]|]. destruct (_ =? 0); [by intros [= <-]|]. by apply He.
  - by destruct (Hr _ _ _ E).
  - done.
Qed.
Lemma lookups_status root n count k e :
  lookups (lookup_page memory_map mem page shift root count) n k = Raised e -> e <> Success.
Proof.
  revert k. induction n as [|n IH]; intros k; simpl; [done|].
  destruct (lookup_page _ _ _ _ _ _ k) as [h|e'|d] eqn:E; simpl.
  - destruct (lookups _ n (k + 1)) as [hs|e'|d] eqn:En; simpl; [done| |done].
    intros [= ->]. by eapply IH.
  - intros [= ->]. by eapply lookup_status.
  - done.
Qed.
Lemma walk_Died descriptor page_count s d :
  page = 2 ^ shift -> 2 <= shift <= 31 -> u64 page_count ->
  walk memory_map mem page shift descriptor page_count s = Died d -> d <> OutOfFuel.
Proof.
  intros Hp Hs Hn Hw. pose proof (walk_as_lookups descriptor page_count s Hp Hs Hn) as H.
  rewrite Hw in H. unfold walk_ends in H. destruct (_ || _); [done|].
  destruct (lookups _ _ _) as [hs|e|d'] eqn:E; [by destruct H|by destruct H|]. injection H as ->.
  revert E. generalize (Z.to_nat page_count) 0. intros n. induction n as [|n IH]; intros k; simpl; [done|].
  destruct (lookup_page _ _ _ _ _ _ k) as [h|e|d1] eqn:El; simpl.
  - destruct (lookups _ n (k + 1)) as [hs|e|d2] eqn:En; simpl; [done..|].
    intros [= ->]. by eapply IH.
  - done.
  - intros [= ->]. by eapply lookup_alive.
Qed.
(** One that does not leaves the reference as it was. *)
Lemma walk_Raised descriptor page_count s e s' :
  page = 2 ^ shift -> 2 <= shift <= 31 -> u64 page_count ->
  walk memory_map mem page shift descriptor page_count s = Raised (e, s') ->
  slot_surface s' = slot_surface s /\ e <> Success.
Proof.
  intros Hp Hs Hn Hw. pose proof (walk_as_lookups descriptor page_count s Hp Hs Hn) as H.
  rewrite Hw in H. unfold walk_ends in H. destruct (_ || _); [by injection H as -> ->|].
  destruct (lookups _ _ _) as [hs|e'|d] eqn:E; [by destruct H| |done].
  destruct H as [hs [= -> ->]]. split; [done|]. by eapply lookups_status.
Qed.
End Spec.

(** ** A surface of two pages *)

(** Guest address [x] at host address 2^32 + [x]; page 1 a table that names pages 2 and 3. *)
Definition sample_map : MemoryMap.MemoryMap :=
  [MemoryMap.MkMapRange 0 0x100000000 0x100000000 0x100000000].
Definition sample_memory : GuestPtr.memory :=
  GuestPtr.store_at (fun _ => x00) 0x100004000 (le_bytes 4 9 ++ le_bytes 4 13).
(** A descriptor whose root is page 1. *)
Definition sample_rooted : IoSurfaceDeviceDescriptor2 := descriptor2_of (le_bytes 4 5).

Lemma surface_walk_is_lookup_witness :
  walk (Some sample_map) sample_memory 0x4000 14 sample_rooted 2 empty_slot
    = Ret (tt, MkSlot [0x100008000; 0x10000c000] 2 0 None false false) /\
  exists hs, walk (Some sample_map) sample_memory 0x4000 14 sample_rooted 3 empty_slot
    = Raised (BadArgument, MkSlot hs 3 0 None false false).
Proof.
  split.
  - exact (proj2 (surface_walk_is_lookup (Some sample_map) sample_memory 0x4000 14 sample_rooted 2
      empty_slot eq_refl ltac:(lia) ltac:(by vm_compute))).
  - exact (surface_walk_is_lookup (Some sample_map) sample_memory 0x4000 14 sample_rooted 3
      empty_slot eq_refl ltac:(lia) ltac:(by vm_compute)).
Defined.
End SurfaceWalk.
