(* ===== verification/Surfaces.v ===== *)
(** * Surfaces: the IOSurface host device
    (src/crates/reims-vgpu-core/src/iosurface/table.rs, regs.rs, ring.rs, device.rs)

    The six registers, the command ring, the descriptor table with its cached pages, one
    slot per mapping id with the three commands, and the teardown, over the device's memory
    map ([MemoryMap]) and guest memory. IOSurfaces and the host's interrupt block are the
    class [Surfaces]: what they answer is a function of the calls before. The queue runs one
    thing at a time, so each register write, each turn of the ring and the teardown is one
    step; a block of the host's that calls back into the device during a step is not
    modelled. Log lines are not modelled, but for the one that reads the guest's memory. *)

From S2P Require Import Prelude Num MemoryKinds GuestRecords GuestPtr MemoryMap.
From S2P Require Import SurfaceDescriptor SurfaceWalk.
Open Scope Z_scope.

Module Surfaces.
Import SurfaceDescriptor SurfaceWalk.

Definition MAPPING_ID_COUNT : Z := 8192.
Definition PAGE_SLOTS : nat := 4096.
Definition HOST_ONLY_LIMIT : Z := 0x40000000.
Definition RING_COMMAND_SIZE : Z := 16.

Definition REG_RING_BASE : Z := 0x1000.
Definition REG_RING_SIZE : Z := 0x1008.
Definition REG_DESCRIPTOR_BASE : Z := 0x1010.
Definition REG_RING_WR_COUNTER : Z := 0x1018.
Definition REG_RING_RD_COUNTER : Z := 0x1020.
Definition REG_FEATURES : Z := 0x1028.
Definition REG_DESC_ENABLE : Z := 0x1030.

(** ** The state *)

Record Registers := MkRegisters {
  ring_base : Z;
  ring_size : Z;
  descriptor_base : Z;
  ring_wr_counter : Z;
  ring_rd_counter : Z;
  desc_enable : Z;
}.
Record QueueState := MkQueue {
  table_len : Z;
  descriptors_per_page : Z;
  ring : option Z;
  host_only_bytes : Z;
  slots : list SurfaceSlot;
  table : option Z;
  pages : list (option Z);
}.
Record Mappings := MkMappings {
  memory_map : option MemoryMap.MemoryMap;
  m_ring : option MemoryMap.Mapping;
  m_table : option MemoryMap.Mapping;
  m_pages : list (option MemoryMap.Mapping);
  unmapped : list (Z * Z);
}.
Inductive Interrupt : Type := Nil | Held | Released.

(** What the device asks of the IOSurfaces, of the doorbell and of the host, in order. *)
Inductive Call : Type :=
| CreateSurface (spec : SurfaceSpec)
| RetainSurface (surface : Z)
| ReleaseSurface (surface : Z)
| LockSurface (surface : Z)
| UnlockSurface (surface : Z)
| MergeDoorbell
| ReleaseDoorbell
| RaiseInterrupt (line : Z).

Class Surfaces := {
  (** [IOSurfaceCreate]: a reference, or a refusal. *)
  create_surface : SurfaceSpec -> list Call -> option Z;
  retain_count : Z -> list Call -> Z;
  surface_size : Z -> list Call -> Z;
  surface_base : Z -> list Call -> Z;
  (** Whether the host still holds the block the teardown released. *)
  block_alive : list Call -> bool;
  (** Whether the debug lines are enabled. *)
  debug_enabled : bool;
}.

Record State := MkState {
  regs : Registers;
  queue : QueueState;
  maps : Mappings;
  interrupt : Interrupt;
  doorbell : bool;
  memory : GuestPtr.memory;
  vm_calls : list MemoryMap.VmCall;
  calls : list Call;
}.

Definition with_regs (r : Registers) (s : State) : State :=
  MkState r (queue s) (maps s) (interrupt s) (doorbell s) (memory s) (vm_calls s) (calls s).
Definition with_queue (q : QueueState) (s : State) : State :=
  MkState (regs s) q (maps s) (interrupt s) (doorbell s) (memory s) (vm_calls s) (calls s).
Definition with_maps (m : Mappings) (s : State) : State :=
  MkState (regs s) (queue s) m (interrupt s) (doorbell s) (memory s) (vm_calls s) (calls s).
Definition with_interrupt (i : Interrupt) (s : State) : State :=
  MkState (regs s) (queue s) (maps s) i (doorbell s) (memory s) (vm_calls s) (calls s).
Definition with_doorbell (b : bool) (s : State) : State :=
  MkState (regs s) (queue s) (maps s) (interrupt s) b (memory s) (vm_calls s) (calls s).
Definition with_memory (m : GuestPtr.memory) (s : State) : State :=
  MkState (regs s) (queue s) (maps s) (interrupt s) (doorbell s) m (vm_calls s) (calls s).
Definition with_vm_calls (c : list MemoryMap.VmCall) (s : State) : State :=
  MkState (regs s) (queue s) (maps s) (interrupt s) (doorbell s) (memory s) c (calls s).
Definition with_calls (c : list Call) (s : State) : State :=
  MkState (regs s) (queue s) (maps s) (interrupt s) (doorbell s) (memory s) (vm_calls s) c.

Definition upd_regs (f : Registers -> Registers) (s : State) : State := with_regs (f (regs s)) s.
Definition upd_queue (f : QueueState -> QueueState) (s : State) : State :=
  with_queue (f (queue s)) s.
Definition upd_maps (f : Mappings -> Mappings) (s : State) : State := with_maps (f (maps s)) s.

Definition with_ring_base (v : Z) (r : Registers) : Registers :=
  MkRegisters v (ring_size r) (descriptor_base r) (ring_wr_counter r) (ring_rd_counter r)
    (desc_enable r).
Definition with_ring_size (v : Z) (r : Registers) : Registers :=
  MkRegisters (ring_base r) v (descriptor_base r) (ring_wr_counter r) (ring_rd_counter r)
    (desc_enable r).
Definition with_descriptor_base (v : Z) (r : Registers) : Registers :=
  MkRegisters (ring_base r) (ring_size r) v (ring_wr_counter r) (ring_rd_counter r)
    (desc_enable r).
Definition with_wr_counter (v : Z) (r : Registers) : Registers :=
  MkRegisters (ring_base r) (ring_size r) (descriptor_base r) v (ring_rd_counter r)
    (desc_enable r).
Definition with_rd_counter (v : Z) (r : Registers) : Registers :=
  MkRegisters (ring_base r) (ring_size r) (descriptor_base r) (ring_wr_counter r) v
    (desc_enable r).
Definition with_desc_enable (v : Z) (r : Registers) : Registers :=
  MkRegisters (ring_base r) (ring_size r) (descriptor_base r) (ring_wr_counter r)
    (ring_rd_counter r) v.

Definition with_per_page (v : Z) (q : QueueState) : QueueState :=
  MkQueue (table_len q) v (ring q) (host_only_bytes q) (slots q) (table q) (pages q).
Definition with_ring (v : option Z) (q : QueueState) : QueueState :=
  MkQueue (table_len q) (descriptors_per_page q) v (host_only_bytes q) (slots q) (table q) (pages q).
Definition with_host_only (v : Z) (q : QueueState) : QueueState :=
  MkQueue (table_len q) (descriptors_per_page q) (ring q) v (slots q) (table q) (pages q).
Definition with_slots (v : list SurfaceSlot) (q : QueueState) : QueueState :=
  MkQueue (table_len q) (descriptors_per_page q) (ring q) (host_only_bytes q) v (table q) (pages q).
Definition with_table (v : option Z) (q : QueueState) : QueueState :=
  MkQueue (table_len q) (descriptors_per_page q) (ring q) (host_only_bytes q) (slots q) v (pages q).
Definition with_pages (v : list (option Z)) (q : QueueState) : QueueState :=
  MkQueue (table_len q) (descriptors_per_page q) (ring q) (host_only_bytes q) (slots q) (table q) v.

Definition with_m_ring (v : option MemoryMap.Mapping) (m : Mappings) : Mappings :=
  MkMappings (memory_map m) v (m_table m) (m_pages m) (unmapped m).
Definition with_m_table (v : option MemoryMap.Mapping) (m : Mappings) : Mappings :=
  MkMappings (memory_map m) (m_ring m) v (m_pages m) (unmapped m).
Definition with_m_pages (v : list (option MemoryMap.Mapping)) (m : Mappings) : Mappings :=
  MkMappings (memory_map m) (m_ring m) (m_table m) v (unmapped m).

Definition is_some {A} (o : option A) : bool := match o with Some _ => true | None => false end.

(** [SurfaceSlot]'s reference and pages. *)
Definition with_surface (v : option Z) (s : SurfaceSlot) : SurfaceSlot :=
  MkSlot (slot_pages s) (slot_page_count s) (slot_base_offset s) v (slot_read_only s)
    (slot_host_only s).
Definition cleared_pages (s : SurfaceSlot) : SurfaceSlot :=
  MkSlot [] (slot_page_count s) (slot_base_offset s) (slot_surface s) (slot_read_only s)
    (slot_host_only s).

Section Device.
Context {P : Surfaces} {target : GuestRecords.Target}.
(** What the platform's virtual machine answers of a mapping call, its page size and shift. *)
Context (answers : list MemoryMap.VmCall -> MemoryMap.VmCall -> bool)
        (allocates : list MemoryMap.VmCall -> Z -> option Z).
Context (page shift : Z).
(** An early return of a status is a raise of it. *)
Local Abbreviation M := (Run State IoReturn sdeath).

Definition tell (c : Call) : M unit := modify (fun s => with_calls (calls s ++ [c]) s).
Definition fatal {A} (k : DeathKind) : M A := die (OfSurface k).
(** The status a step returned early or at its end. *)
Definition caught (m : M IoReturn) : M IoReturn := fun s =>
  match m s with
  | Ret a => Ret a
  | Raised (status, s) => Ret (status, s)
  | Died d => Died d
  end.

(** A new device over [map]. *)
Definition new_over (map : MemoryMap.MemoryMap) (block : bool) (mem : GuestPtr.memory)
    (vm : list MemoryMap.VmCall) : State :=
  MkState (MkRegisters 0 0 0 0 0 0)
    (MkQueue (page / TABLE_ENTRY_SIZE) (page / form_size First) None 0
      (replicate (Z.to_nat MAPPING_ID_COUNT) empty_slot) None (replicate PAGE_SLOTS None))
    (MkMappings (Some map) None None (replicate PAGE_SLOTS None) [])
    (if block then Held else Nil) true mem vm [].

(** Why a device is refused. *)
Inductive IoSurfaceRefusal : Type := NoMemoryMap | RefusedMap.
Definition new (descriptor : option MemoryMap.MemoryMapDescriptor) (block : bool)
    (mem : GuestPtr.memory) (vm : list MemoryMap.VmCall) : IoSurfaceRefusal + State :=
  match descriptor with
  | None => inl NoMemoryMap
  | Some d =>
      match MemoryMap.map_new d with
      | None => inl RefusedMap
      | Some map => inr (new_over map block mem vm)
      end
  end.

(** ** Mappings and accesses *)

(** The memory map's, in a step. *)
Definition mapping_call
    (m : MemoryMap.MemoryMap -> list MemoryMap.VmCall ->
      Memory.mres (list MemoryMap.VmCall * option MemoryMap.Mapping))
    : M (option MemoryMap.Mapping) := fun s =>
  match memory_map (maps s) with
  | None => Ret (None, s)
  | Some map =>
      match m map (vm_calls s) with
      | Ret (vm, r) => Ret (r, with_vm_calls vm s)
      | Raised k => Died (OfMap (Memory.Unhandled k))
      | Died d => Died (OfMap d)
      end
  end.
Definition new_contiguous_mapping (address length : Z) : M (option MemoryMap.Mapping) :=
  mapping_call (fun m vm => MemoryMap.new_contiguous_mapping answers allocates m vm address length 0).
(** A mapping's last release. *)
Definition drop_mapping (m : option MemoryMap.Mapping) : M unit :=
  match m with
  | None => mret tt
  | Some m =>
      modify (fun s => with_vm_calls (vm_calls s ++ concat (map (fun r =>
        match r with
        | MemoryMap.ReleaseVm address length => [MemoryMap.VmDeallocate address length]
        | _ => []
        end) (MemoryMap.mapping_drop true m))) s)
  end.

Definition saturating_add (a b : Z) : Z := if a + b <? M64 then a + b else M64 - 1.
Definition is_unmapped (at_ len : Z) (m : Mappings) : bool :=
  let start := at_ in
  let end_ := saturating_add start len in
  existsb (fun r => (r.1 <? end_) && (start <? saturating_add r.1 r.2)) (unmapped m).
Definition mapped_access {A} (at_ len : Z) (kind : DeathKind) (access : M A) : M A :=
  gone ← asks (fun s => is_unmapped at_ len (maps s));
  if gone : bool then fatal kind else access.

Definition lift {A} (m : GuestPtr.memory -> outcome IoReturn sdeath A) : M A := fun s =>
  match m (memory s) with
  | Ret a => Ret (a, s)
  | Raised e => Raised (e, s)
  | Died d => Died d
  end.
Definition store (m : GuestPtr.memory -> outcome IoReturn sdeath GuestPtr.memory) : M unit :=
  mem ← lift m; modify (with_memory mem).
Definition read_u32 (self off : Z) (k : DeathKind) : M Z :=
  lift (fun m => GuestPtr.read_u32 m self off (OfSurface k)).
Definition write_u32 (self off v : Z) (k : DeathKind) : M unit :=
  store (fun m => GuestPtr.write_u32 (OfSurface k) false m self off v (OfSurface k)).
Definition copy_to (self len : Z) (k : DeathKind) : M (list byte) :=
  lift (fun m => GuestPtr.copy_to m self 0 len (OfSurface k)).

(** ** The slots *)

Definition slot_at (id : Z) (s : State) : SurfaceSlot :=
  default empty_slot (slots (queue s) !! Z.to_nat id).
Definition set_slot (id : Z) (v : SurfaceSlot) : M unit :=
  modify (upd_queue (fun q => with_slots (<[Z.to_nat id := v]> (slots q)) q)).
Definition current_form (s : State) : Form := form_of (desc_enable (regs s)).

(** Cached, or read from the descriptor table and mapped. *)
Definition descriptor_page (page_index : Z) : M Z :=
  cached ← asks (fun s => pages (queue s) !! Z.to_nat page_index);
  match cached with
  | None => fatal PageIndex
  | Some (Some page) => mret page
  | Some None =>
      table ← asks (fun s => default 0 (table (queue s)));
      let at_ := GuestPtr.offset table (mul64 page_index TABLE_ENTRY_SIZE) in
      entry ← mapped_access at_ TABLE_ENTRY_SIZE TableRead (read_u32 at_ 0 TableRead);
      if negb (valid entry) then raise NoMemory
      else
        mapping ← new_contiguous_mapping (address entry shift) page;
        match mapping with
        | None => raise NoMemory
        | Some mapping =>
            (** A mapping found there is kept for good. *)
            _ ← modify (upd_maps (fun m =>
              with_m_pages (<[Z.to_nat page_index := Some mapping]> (m_pages m)) m));
            _ ← modify (upd_queue (fun q =>
              with_pages (<[Z.to_nat page_index := Some (MemoryMap.m_address mapping)]>
                (pages q)) q));
            mret (MemoryMap.m_address mapping)
        end
  end.

(** The descriptor [within] the page, in the current form. *)
Definition read_descriptor (page within : Z) : M IoSurfaceDeviceDescriptor2 :=
  form ← asks current_form;
  let at_ := GuestPtr.offset page (mul64 within (form_size form)) in
  bytes ← mapped_access at_ (form_size form) DescriptorRead
    (copy_to at_ (form_size form) DescriptorRead);
  mret (match form with
        | Second => descriptor2_of bytes
        | First => upgrade_descriptor zero_descriptor2 (descriptor_of bytes)
        end).

(** The IOSurface of a slot that has its pages. *)
Definition create (descriptor : IoSurfaceDeviceDescriptor2) (slot : SurfaceSlot)
    : M (IoReturn * SurfaceSlot) :=
  match surface_spec page descriptor slot with
  | (None, slot) => mret (NoMemory, slot)
  | (Some spec, slot) =>
      surface ← asks (fun s => create_surface spec (calls s));
      _ ← tell (CreateSurface spec);
      mret (if is_some surface then Success else BadArgument, with_surface surface slot)
  end.

Definition walked (descriptor : IoSurfaceDeviceDescriptor2) (page_count : Z) (slot : SurfaceSlot)
    : M (option IoReturn * SurfaceSlot) := fun s =>
  match walk (memory_map (maps s)) (memory s) page shift descriptor page_count slot with
  | Ret (_, slot) => Ret ((None, slot), s)
  | Raised (status, slot) => Ret ((Some status, slot), s)
  | Died d => Died d
  end.

Definition make_surface (descriptor : IoSurfaceDeviceDescriptor2) (slot : SurfaceSlot)
    : M (IoReturn * SurfaceSlot) :=
  let base := d2_base descriptor in
  if negb (valid (b2_word0 base)) then mret (BadArgument, slot)
  else
    let page_count := shr64 (Num.align_up_wrapping (b2_alloc_size base) page) shift in
    if host_only base then
      let slot := MkSlot [] page_count (slot_base_offset slot) (slot_surface slot) false true in
      bytes ← asks (fun s => host_only_bytes (queue s));
      if HOST_ONLY_LIMIT <? add64 bytes (mul64 page_count page) then mret (NoMemory, slot)
      else create descriptor slot
    else
      r ← walked descriptor page_count slot;
      match r with
      | (Some status, slot) => mret (status, slot)
      | (None, slot) => create descriptor slot
      end.

Definition refused_id (mapping_id : Z) : bool :=
  (mapping_id =? 0) || (MAPPING_ID_COUNT <=? mapping_id).

(** Ors, or clears, the descriptor's mapped bit. *)
Definition change_word (at_ : Z) (k : DeathKind) (f : Z -> Z) : M unit :=
  mapped_access at_ 4 k (word ← read_u32 at_ 0 k; write_u32 at_ 0 (f word) k).

Definition map (mapping_id : Z) : M IoReturn := caught (
  if refused_id mapping_id then raise BadArgument
  else
    held ← asks (slot_at mapping_id);
    if is_some (slot_surface held) then raise Success
    else
      _ ← set_slot mapping_id empty_slot;
      per ← asks (fun s => descriptors_per_page (queue s));
      let page_index := Num.div0 mapping_id per in
      let within := Num.rem0 mapping_id per in
      len ← asks (fun s => table_len (queue s));
      if len <=? page_index then raise BadArgument
      else
        page_ ← descriptor_page page_index;
        descriptor ← read_descriptor page_ within;
        r ← make_surface descriptor empty_slot;
        let '(status, slot) := r in
        form ← asks current_form;
        let made := bool_decide (status = Success) in
        _ ← (if made && slot_host_only slot then
               modify (upd_queue (fun q => with_host_only
                 (add64 (host_only_bytes q) (mul64 (slot_page_count slot) page)) q))
             else mret tt);
        _ ← set_slot mapping_id (if made then slot else cleared_pages slot);
        _ ← (if made then
               change_word (GuestPtr.offset page_ (mul64 within (form_size form))) MappedBitSet
                 (fun word => Z.lor word MAPPED)
             else mret tt);
        mret status).

Definition unmap (mapping_id : Z) : M IoReturn := caught (
  if refused_id mapping_id then raise BadArgument
  else
    slot ← asks (slot_at mapping_id);
    match slot_surface slot with
    | None => raise Success
    | Some surface =>
        count ← asks (fun s => retain_count surface (calls s));
        if negb (count =? 1) then raise Busy
        else
          per ← asks (fun s => descriptors_per_page (queue s));
          let page_index := Num.div0 mapping_id per in
          len ← asks (fun s => table_len (queue s));
          if len <=? page_index then raise BadArgument
          else
            cached ← asks (fun s => pages (queue s) !! Z.to_nat page_index);
            match cached with
            | None => fatal PageIndex
            | Some None => raise BadArgument
            | Some (Some page_) =>
                let within := Num.rem0 mapping_id per in
                form ← asks current_form;
                _ ← change_word (GuestPtr.offset page_ (mul64 within (form_size form)))
                  MappedBitClear (fun word => Z.land word (not32 MAPPED));
                _ ← tell (ReleaseSurface surface);
                _ ← (if slot_host_only slot then
                       modify (upd_queue (fun q => with_host_only
                         (sub64 (host_only_bytes q) (mul64 (slot_page_count slot) page)) q))
                     else mret tt);
                _ ← set_slot mapping_id (cleared_pages (with_surface None slot));
                mret Success
            end
    end).

(** The words [i] on of the allocation, [n] of them, each its own offset. *)
Fixpoint write_pattern (start : Z) (n : nat) (i : Z) : M unit :=
  match n with
  | O => mret tt
  | S n =>
      let at_ := mul64 i 8 in
      _ ← store (fun m =>
        GuestPtr.write_u64 (OfSurface PatternWrite) false m start at_ at_ (OfSurface PatternWrite));
      write_pattern start n (i + 1)
  end.
Definition test_pattern (mapping_id : Z) : M IoReturn := caught (
  if refused_id mapping_id then raise BadArgument
  else
    slot ← asks (slot_at mapping_id);
    match slot_surface slot with
    | None => raise BadArgument
    | Some surface =>
        _ ← tell (LockSurface surface);
        size ← asks (fun s => surface_size surface (calls s));
        base ← asks (fun s => surface_base surface (calls s));
        let start := GuestPtr.offset base (sub64 0 (slot_base_offset slot)) in
        _ ← write_pattern start (Z.to_nat (size / 8)) 0;
        _ ← tell (UnlockSurface surface);
        mret Success
    end).

(** Every slot's reference released: the slots, the bytes of host-only surfaces left and the
    surfaces, in slot order. *)
Fixpoint release_slots (l : list SurfaceSlot) (bytes : Z) : list SurfaceSlot * Z * list Z :=
  match l with
  | [] => ([], bytes, [])
  | slot :: l =>
      match slot_surface slot with
      | None => let '(l, bytes, ids) := release_slots l bytes in (slot :: l, bytes, ids)
      | Some surface =>
          let bytes := if slot_host_only slot
            then sub64 bytes (mul64 (slot_page_count slot) page) else bytes in
          let '(l, bytes, ids) := release_slots l bytes in
          (cleared_pages (with_surface None slot) :: l, bytes, surface :: ids)
      end
  end.
Definition teardown_surfaces : M unit :=
  q ← asks queue;
  let '(l, bytes, ids) := release_slots (slots q) (host_only_bytes q) in
  _ ← modify (fun s => with_calls (calls s ++ List.map ReleaseSurface ids) s);
  modify (upd_queue (fun q => with_host_only bytes (with_slots l q))).

(** ** The registers *)

Definition second_form_holds_every_id : bool :=
  let entries := page / TABLE_ENTRY_SIZE in
  let per_page := page / form_size Second in
  MAPPING_ID_COUNT <=? Z.min (entries * per_page) (M64 - 1).
Definition features_offered : Z := Z.b2z second_form_holds_every_id.

Definition mmio_read (offset : Z) (s : State) : Z :=
  let r := regs s in
  match offset with
  | 0x1000 => ring_base r
  | 0x1008 => ring_size r
  | 0x1010 => descriptor_base r
  | 0x1018 => ring_wr_counter r
  | 0x1020 => ring_rd_counter r
  | 0x1028 => features_offered
  | 0x1030 => desc_enable r
  | _ => M64 - 1
  end.

Definition set_ring_base (base : Z) : M unit :=
  r ← asks (fun s => ring (queue s));
  _ ← (if is_some r then
         old ← asks (fun s => m_ring (maps s));
         _ ← drop_mapping old;
         _ ← modify (upd_maps (with_m_ring None));
         modify (upd_queue (with_ring None))
       else mret tt);
  modify (upd_regs (with_ring_base base)).

Definition set_ring_size (size : Z) : M unit :=
  base ← asks (fun s => ring_base (regs s));
  if (size =? 0) || (base =? 0) then mret tt
  else
    _ ← modify (upd_regs (with_ring_size size));
    let '(length, overflow) := overflowing_mul64 size RING_COMMAND_SIZE in
    if overflow : bool then mret tt
    else
      mapping ← mapping_call (fun m vm =>
        MemoryMap.new_range_mapping answers allocates m vm [MemoryMap.MkPhysRange base length]
          length 0);
      (** The mapping replaced is kept for good. *)
      _ ← modify (upd_maps (with_m_ring mapping));
      match mapping with
      | None => mret tt
      | Some m =>
          let ring := MemoryMap.m_address m in
          _ ← modify (upd_queue (with_ring (Some ring)));
          if debug_enabled then
            _ ← mapped_access ring 4 RingPeek (read_u32 ring 0 RingPeek);
            mret tt
          else mret tt
      end.

(** The cached pages among the first [count], and their mappings' releases. *)
Fixpoint drop_pages (count : nat) (ps : list (option Z)) (ms : list (option MemoryMap.Mapping))
    : list (option Z) * list (option MemoryMap.Mapping) * list (option MemoryMap.Mapping) :=
  match count, ps, ms with
  | S count, p :: ps, m :: ms =>
      let '(ps, ms, dropped) := drop_pages count ps ms in
      if is_some p then (None :: ps, None :: ms, m :: dropped) else (p :: ps, m :: ms, dropped)
  | _, _, _ => (ps, ms, [])
  end.
Fixpoint drop_mappings (ms : list (option MemoryMap.Mapping)) : M unit :=
  match ms with
  | [] => mret tt
  | m :: ms => _ ← drop_mapping m; drop_mappings ms
  end.

Definition set_descriptor_base (base : Z) : M unit :=
  _ ← teardown_surfaces;
  t ← asks (fun s => table (queue s));
  _ ← (if is_some t then
         old ← asks (fun s => m_table (maps s));
         _ ← drop_mapping old;
         _ ← modify (upd_maps (with_m_table None));
         modify (upd_queue (with_table None))
       else mret tt);
  s ← asks (fun s => s);
  let '(ps, ms, dropped) := drop_pages (Z.to_nat (table_len (queue s))) (pages (queue s))
    (m_pages (maps s)) in
  _ ← drop_mappings dropped;
  _ ← modify (upd_maps (with_m_pages ms));
  _ ← modify (upd_queue (with_pages ps));
  _ ← modify (upd_regs (with_descriptor_base base));
  if negb (base =? 0) then
    mapping ← new_contiguous_mapping base page;
    _ ← modify (upd_maps (with_m_table mapping));
    modify (upd_queue (with_table (MemoryMap.m_address <$> mapping)))
  else mret tt.

Definition set_descriptor_enable (enable : Z) : M unit :=
  _ ← modify (upd_regs (with_desc_enable (Z.land enable 1)));
  _ ← set_descriptor_base 0;
  form ← asks current_form;
  modify (upd_queue (with_per_page (page / form_size form))).

Definition mmio_write (offset value : Z) : M unit :=
  match offset with
  | 0x1000 => set_ring_base value
  | 0x1008 => set_ring_size value
  | 0x1010 => set_descriptor_base value
  | 0x1018 =>
      _ ← modify (upd_regs (with_wr_counter value));
      bell ← asks doorbell;
      if bell : bool then tell MergeDoorbell else mret tt
  | 0x1020 =>
      no_ring ← asks (fun s => negb (is_some (ring (queue s))));
      if no_ring : bool then modify (upd_regs (with_rd_counter value)) else mret tt
  | 0x1030 => set_descriptor_enable value
  | _ => mret tt
  end.

(** ** The ring *)

Inductive Command : Type := CMap | CUnmap | CTest.
Definition command_of (command : Z) : option Command :=
  match command with 1 => Some CMap | 2 => Some CUnmap | 3 => Some CTest | _ => None end.
Definition run_command (command mapping_id : Z) : M IoReturn :=
  match command_of command with
  | Some CMap => map mapping_id
  | Some CUnmap => unmap mapping_id
  | Some CTest => test_pattern mapping_id
  | None => mret Unsupported
  end.

Definition raise_interrupt : M unit :=
  i ← asks interrupt;
  match i with
  | Held => tell (RaiseInterrupt 0)
  | Released =>
      alive ← asks (fun s => block_alive (calls s));
      if alive : bool then tell (RaiseInterrupt 0) else fatal FreedInterrupt
  | Nil => fatal NoInterrupt
  end.

(** One command: its read, its work and its status, then the counter and the interrupt. *)
Definition turn : M unit :=
  r ← asks regs;
  base ← asks (fun s => default 0 (ring (queue s)));
  let slot := GuestPtr.offset base
    (mul64 (Num.rem0 (ring_rd_counter r) (ring_size r)) RING_COMMAND_SIZE) in
  words ← mapped_access slot 8 RingRead
    (lift (fun m => GuestPtr.read_u32_pair m slot 0 (OfSurface RingRead)));
  status ← run_command words.1 words.2;
  let at_ := GuestPtr.offset slot 8 in
  _ ← mapped_access at_ 4 StatusStore (write_u32 at_ 0 (u32_of_i32 (code status)) StatusStore);
  _ ← modify (upd_regs (fun r => with_rd_counter (add64 (ring_rd_counter r) 1) r));
  raise_interrupt.

Fixpoint run_turns (fuel : nat) : M unit :=
  r ← asks regs;
  if ring_rd_counter r <? ring_wr_counter r then
    match fuel with
    | O => die OutOfFuel
    | S fuel => _ ← turn; run_turns fuel
    end
  else mret tt.

(** The doorbell's handler. As many turns as the counters are apart: a command leaves them be. *)
Definition run_ring : M unit :=
  s ← asks (fun s => s);
  if (ring_base (regs s) =? 0) || (ring_size (regs s) =? 0) then mret tt
  else if negb (is_some (ring (queue s))) || negb (is_some (table (queue s))) then mret tt
  else run_turns (Z.to_nat (ring_wr_counter (regs s) - ring_rd_counter (regs s))).

(** ** The device's other calls *)

Definition retain_surface_with_mapping_id (mapping_id : Z) : M (option Z) :=
  if refused_id mapping_id then mret None
  else
    slot ← asks (slot_at mapping_id);
    match slot_surface slot with
    | None => mret None
    | Some surface => _ ← tell (RetainSurface surface); mret (Some surface)
    end.

(** The teardown's release of one mapping. *)
Definition release (m : option MemoryMap.Mapping) : M unit :=
  match m with
  | None => mret tt
  | Some mapping =>
      _ ← modify (upd_maps (fun m => MkMappings (memory_map m) (m_ring m) (m_table m) (m_pages m)
        (unmapped m ++ [(MemoryMap.m_address mapping, MemoryMap.m_length mapping)])));
      drop_mapping (Some mapping)
  end.
Fixpoint release_each (ms : list (option MemoryMap.Mapping)) : M unit :=
  match ms with
  | [] => mret tt
  | m :: ms => _ ← release m; release_each ms
  end.
(** The ring, table and page pointers stay set. *)
Definition tear_down : M unit :=
  m ← asks maps;
  _ ← (if is_some (memory_map m) then
         _ ← modify (upd_maps (fun m => MkMappings (memory_map m) None None
           (List.map (fun _ => None) (m_pages m)) (unmapped m)));
         _ ← release (m_ring m);
         _ ← release (m_table m);
         release_each (m_pages m)
       else mret tt);
  _ ← modify (upd_maps (fun m => MkMappings None (m_ring m) (m_table m) (m_pages m) (unmapped m)));
  _ ← modify (fun s => with_interrupt (match interrupt s with Held => Released | i => i end) s);
  bell ← asks doorbell;
  _ ← modify (with_doorbell false);
  if bell : bool then tell ReleaseDoorbell else mret tt.
End Device.
End Surfaces.
