(* ===== verification/SurfaceFacts.v ===== *)
(** * SurfaceFacts: what the IOSurface device keeps and does
    (the device of [Surfaces], src/crates/reims-vgpu-core/src/iosurface/)

    The well-formedness that every register write, turn of the ring, retain, teardown and write
    of the guest's keeps; the limit on host-only memory; the ring run to its end; a map undone
    by its unmap; and the faults after the teardown. The properties end the file, each with a
    run of a device with one host-only surface. *)

From S2P Require Import Prelude Num MemoryKinds GuestRecords GuestPtr MemoryMap.
From S2P Require Import SurfaceDescriptor SurfaceWalk Surfaces.
From stdpp Require Import relations.
Open Scope Z_scope.

Module SurfaceFacts.
Import SurfaceDescriptor SurfaceWalk Surfaces.

(** ** What every step keeps *)

(** A slot's bytes of host-only memory, and all the slots'. *)
Definition bytes_of (page : Z) (s : SurfaceSlot) : Z :=
  if is_some (slot_surface s) && slot_host_only s then slot_page_count s * page else 0.
Definition total (page : Z) (l : list SurfaceSlot) : Z :=
  fold_right (fun s n => bytes_of page s + n) 0 l.

(** How many interrupts the device raised. *)
Fixpoint raised (cs : list Call) : nat :=
  match cs with
  | [] => 0
  | RaiseInterrupt _ :: cs => S (raised cs)
  | _ :: cs => raised cs
  end.

Lemma total_insert page l : forall i old new, l !! i = Some old ->
  total page (<[i := new]> l) = total page l - bytes_of page old + bytes_of page new.
Proof.
  induction l as [|s l IH]; intros [|i] old new H; simpl in *; [done..| |].
  - injection H as ->. lia.
  - rewrite (IH i old) by done. lia.
Qed.
Lemma total_replicate page n : total page (replicate n empty_slot) = 0.
Proof. induction n; simpl; [done|]. by rewrite IHn. Qed.

Section Facts.
Context {P : Surfaces} {target : GuestRecords.Target}.
Context (answers : list MemoryMap.VmCall -> MemoryMap.VmCall -> bool)
        (allocates : list MemoryMap.VmCall -> Z -> option Z).
Context (page shift : Z) (page_shift : page = 2 ^ shift) (shift_range : 12 <= shift <= 16).
Local Abbreviation M := (Run State IoReturn sdeath).

Lemma page_range : 4096 <= page <= 65536.
Proof using page_shift shift_range.
  rewrite page_shift. split.
  - change 4096 with (2 ^ 12). apply Z.pow_le_mono_r; lia.
  - change 65536 with (2 ^ 16). apply Z.pow_le_mono_r; lia.
Qed.

(** No loop of the model's runs out. *)
Definition alive (d : sdeath) : Prop := d <> OutOfFuel.

(** A surface's slot: as many pages as it counts, or none for a host-only one. *)
Definition slot_ok (s : SurfaceSlot) : Prop :=
  match slot_surface s with
  | None => slot_pages s = []
  | Some _ =>
      0 <= slot_page_count s /\ slot_page_count s * page < M64 /\
      (if slot_host_only s then slot_pages s = []
       else Z.of_nat (length (slot_pages s)) = slot_page_count s)
  end.

(** The platform refuses an IOSurface of 2^63 bytes or more. *)
Definition creates_bounded : Prop := forall spec cs surface,
  create_surface spec cs = Some surface -> alloc_size spec < 2 ^ 63.

(** The pointers of the table and of the cached pages, and the mappings behind them: while the
    device has its memory map, each other's; after the teardown, pointers into what it
    unmapped. *)
Definition backed (p : option Z) (m : option MemoryMap.Mapping) : Prop :=
  p = MemoryMap.m_address <$> m /\ forall x, m = Some x -> MemoryMap.m_length x = page.
Definition stale (ranges : list (Z * Z)) (p : option Z) (m : option MemoryMap.Mapping) : Prop :=
  m = None /\ forall a, p = Some a -> (a, page) ∈ ranges.
Definition behind (m : Mappings) (p : option Z) (x : option MemoryMap.Mapping) : Prop :=
  match memory_map m with Some _ => backed p x | None => stale (unmapped m) p x end.

Record device_ok (enable : Z) (q : QueueState) (m : Mappings) : Prop := {
  ok_slots : length (slots q) = Z.to_nat MAPPING_ID_COUNT /\ Forall slot_ok (slots q);
  ok_bytes : host_only_bytes q = total page (slots q) mod M64;
  ok_limit : creates_bounded -> total page (slots q) <= HOST_ONLY_LIMIT;
  ok_table_len : table_len q = page / TABLE_ENTRY_SIZE;
  ok_per_page : descriptors_per_page q = page / form_size (form_of enable);
  ok_pages : length (pages q) = PAGE_SLOTS /\ length (m_pages m) = PAGE_SLOTS;
  ok_table : behind m (table q) (m_table m);
  ok_cached : Forall2 (behind m) (pages q) (m_pages m);
  ok_ring : memory_map m = None -> m_ring m = None;
}.
Definition ok (s : State) : Prop := device_ok (desc_enable (regs s)) (queue s) (maps s).

(** What an operation keeps, whether it returns or answers a status early. *)
Definition keeps {A} (I : State -> Prop) (m : M A) : Prop :=
  forall s, I s -> xwp m (fun _ s' => I s') (fun _ s' => I s') alive s.
(** The registers, the queue's state and the mappings are as they were. *)
Definition same (s s' : State) : Prop :=
  regs s' = regs s /\ queue s' = queue s /\ maps s' = maps s.
Definition quiet {A} (m : M A) : Prop :=
  forall s, xwp m (fun _ s' => same s s') (fun _ s' => same s s') alive s.

Lemma same_refl s : same s s.
Proof. done. Qed.
Lemma same_then s1 s2 s3 : same s1 s2 -> same s2 s3 -> same s1 s3.
Proof. intros (E1&E2&E3) (F1&F2&F3). unfold same. by rewrite F1, F2, F3. Qed.
Lemma same_ok s s' : same s s' -> ok s -> ok s'.
Proof. intros (E1&E2&E3). unfold ok. by rewrite E1, E2, E3. Qed.
Lemma quiet_keeps {A} (m : M A) : quiet m -> keeps ok m.
Proof.
  intros H s Hs. eapply xwp_mono; [| | |apply H]; [| |done].
  - intros ? s' Hs'. by apply (same_ok s).
  - intros ? s' Hs'. by apply (same_ok s).
Qed.
Lemma bind_keeps {A B} I (m : M A) (f : A -> M B) :
  keeps I m -> (forall a, keeps I (f a)) -> keeps I (a ← m; f a).
Proof.
  intros Hm Hf s Hs. rewrite xwp_bind. eapply xwp_mono; [| | |apply (Hm s Hs)]; [|done|done].
  intros a s' Hs'. by apply Hf.
Qed.
Lemma ret_keeps {A} I (a : A) : keeps I (mret a : M A).
Proof. by intros s Hs. Qed.
Lemma keeps_raise {A} I e : keeps I (raise e : M A).
Proof. by intros s Hs. Qed.
Lemma asks_keeps {A} I (f : State -> A) : keeps I (asks f : M A).
Proof. by intros s Hs. Qed.
Lemma fatal_keeps {A} I k : keeps I (fatal k : M A).
Proof. by intros s Hs. Qed.
Lemma modify_keeps I f : (forall s, I s -> I (f s)) -> keeps I (modify f : M unit).
Proof. intros H s Hs. by apply H. Qed.
Lemma keeps_caught I (m : M IoReturn) : keeps I m -> keeps I (caught m).
Proof.
  intros H s Hs. specialize (H s Hs). unfold xwp, caught in *. by destruct (m s) as [[]|[]|].
Qed.
(** A test on the state, known in what follows. *)
Lemma keeps_know {A B} I (f : State -> A) (g : A -> M B) :
  (forall s, I s -> xwp (g (f s)) (fun _ s' => I s') (fun _ s' => I s') alive s) ->
  keeps I (a ← asks f; g a).
Proof. intros H s Hs. rewrite xwp_bind, xwp_asks. by apply H. Qed.

Lemma quiet_bind {A B} (m : M A) (f : A -> M B) :
  quiet m -> (forall a, quiet (f a)) -> quiet (a ← m; f a).
Proof.
  intros Hm Hf s. rewrite xwp_bind. eapply xwp_mono; [| | |apply (Hm s)]; [|done|done].
  intros a s' Hs'. eapply xwp_mono; [| | |apply (Hf a s')]; [| |done].
  - intros ? s2 H2. exact (same_then _ _ _ Hs' H2).
  - intros ? s2 H2. exact (same_then _ _ _ Hs' H2).
Qed.
Lemma quiet_ret {A} (a : A) : quiet (mret a : M A).
Proof. done. Qed.
Lemma quiet_raise {A} e : quiet (raise e : M A).
Proof. done. Qed.
Lemma quiet_asks {A} (f : State -> A) : quiet (asks f : M A).
Proof. done. Qed.
Lemma quiet_fatal {A} k : quiet (fatal k : M A).
Proof. done. Qed.
Lemma quiet_tell c : quiet (tell c).
Proof. done. Qed.
Lemma quiet_modify f : (forall s, same s (f s)) -> quiet (modify f : M unit).
Proof. intros H s. apply H. Qed.
Lemma quiet_access {A} a n k (m : M A) : quiet m -> quiet (mapped_access a n k m).
Proof.
  intros H. unfold mapped_access. apply quiet_bind; [apply quiet_asks|].
  intros []; [apply quiet_fatal|exact H].
Qed.
Lemma quiet_drop m : quiet (drop_mapping m).
Proof. destruct m; [|apply quiet_ret]. by apply quiet_modify. Qed.

Lemma check_alive b o n k r :
  GuestPtr.check (R := r) b o n (OfSurface k) = Died OutOfFuel -> False.
Proof. unfold GuestPtr.check. by case_if. Qed.
Lemma quiet_lift {A} (m : GuestPtr.memory -> outcome IoReturn sdeath A) :
  (forall mem, m mem <> Died OutOfFuel) -> quiet (lift m).
Proof.
  intros H s. unfold xwp, lift. specialize (H (memory s)).
  destruct (m (memory s)) as [a|e|d]; [done..|]. intros ->. done.
Qed.
Lemma quiet_store m : (forall mem, m mem <> Died OutOfFuel) -> quiet (store m).
Proof.
  intros H. unfold store. apply quiet_bind; [by apply quiet_lift|]. intros mem. by apply quiet_modify.
Qed.
Lemma read_n_alive n m a o k : GuestPtr.read_n (R := IoReturn) n m a o (OfSurface k) <> Died OutOfFuel.
Proof. unfold GuestPtr.read_n, GuestPtr.check. by case_if. Qed.
Lemma write_n_alive n m a o v k :
  GuestPtr.write_n (R := IoReturn) (OfSurface k) false n m a o v (OfSurface k) <> Died OutOfFuel.
Proof. unfold GuestPtr.write_n, GuestPtr.stop_if_task_ended, GuestPtr.check. simpl. by case_if. Qed.
Lemma quiet_read a o k : quiet (read_u32 a o k).
Proof. apply quiet_lift. intros mem. apply read_n_alive. Qed.
Lemma quiet_write a o v k : quiet (write_u32 a o v k).
Proof. apply quiet_store. intros mem. apply write_n_alive. Qed.
Lemma quiet_copy a n k : quiet (copy_to a n k).
Proof.
  apply quiet_lift. intros mem. unfold GuestPtr.copy_to, GuestPtr.check. case_if; [done|].
  by case_if.
Qed.
Lemma quiet_change a k f : quiet (change_word a k f).
Proof.
  unfold change_word. apply quiet_access, quiet_bind; [apply quiet_read|intros w; apply quiet_write].
Qed.

(** *** Mappings *)

Lemma new_range_result map vm reqs n ro vm' r :
  MemoryMap.new_range_mapping answers allocates map vm reqs n ro = Ret (vm', r) ->
  forall x, r = Some x -> MemoryMap.m_length x = n /\
    allocates vm n = Some (MemoryMap.m_address x) /\ MemoryMap.m_teardown x = MemoryMap.TVm.
Proof.
  unfold MemoryMap.new_range_mapping, fatal_unless. destruct (n mod _ =? 0); [|by intros [=]].
  rewrite bind_ret_l. destruct (allocates vm n) as [a|] eqn:Ea; [|by intros [= <- <-]].
  destruct (MemoryMap.map_requests _ _ _ _ _ _ _) as [c [m|]]; [|by intros [= <- <-]].
  destruct (negb _); [by intros [= <- <-]|]. simpl. by intros [= <- <-] x [= <-].
Qed.
Lemma contiguous_spec a n s :
  xwp (new_contiguous_mapping answers allocates a n)
    (fun r s' => same s s' /\ (forall x, r = Some x -> MemoryMap.m_length x = n) /\
       (memory_map (maps s) = None -> r = None))
    (fun _ _ => False) alive s.
Proof.
  unfold xwp, new_contiguous_mapping, mapping_call. destruct (memory_map (maps s)) as [map|] eqn:E;
    [|by split; [|split; [intros|]]].
  unfold MemoryMap.new_contiguous_mapping.
  destruct (MemoryMap.new_range_mapping _ _ _ _ _ _ _) as [[vm r]|k|d] eqn:Em; [|done..].
  split; [done|]. split; [|done]. intros x Hx. by destruct (new_range_result _ _ _ _ _ _ _ Em x Hx).
Qed.

(** *** The descriptor pages *)

(** [id]'s slot has no surface. *)
Definition free (id : Z) (s : State) : Prop :=
  ok s /\ slots (queue s) !! Z.to_nat id = Some empty_slot.
Lemma same_free id s s' : same s s' -> free id s -> free id s'.
Proof.
  intros Hs [Ho Hf]. split; [by apply (same_ok s)|]. by destruct Hs as (_&->&_).
Qed.
Lemma quiet_free {A} id (m : M A) : quiet m -> keeps (free id) m.
Proof.
  intros Hm s Hs. eapply xwp_mono; [| | |apply Hm]; [| |done].
  - intros ? s' Hs'. by apply (same_free id s).
  - intros ? s' Hs'. by apply (same_free id s).
Qed.

Lemma cache_ok r q m i mapping : device_ok r q m -> pages q !! i = Some None ->
  MemoryMap.m_length mapping = page -> memory_map m <> None ->
  device_ok r (with_pages (<[i := Some (MemoryMap.m_address mapping)]> (pages q)) q)
    (with_m_pages (<[i := Some mapping]> (m_pages m)) m).
Proof.
  intros [] Hi Hl Hm. split; simpl; try done.
  - by rewrite !length_insert.
  - apply Forall2_insert; [done|]. unfold behind in *. simpl.
    destruct (memory_map m); [|done]. split; [done|]. by intros x [= <-].
Qed.
Lemma keeps_descriptor_page id i :
  keeps (free id) (descriptor_page answers allocates page shift i).
Proof using page_shift shift_range.
  intros s [Hs Hf]. unfold descriptor_page. rewrite xwp_bind, xwp_asks.
  destruct (pages (queue s) !! Z.to_nat i) as [[a|]|] eqn:Ei; [done| |done].
  rewrite xwp_bind, xwp_asks, xwp_bind.
  eapply xwp_mono; [| | |apply (quiet_access _ _ _ _ (quiet_read _ _ _))]; [|
    intros e s1 H1; by apply (same_free id s)|done].
  - intros entry s1 H1. destruct (negb (valid entry)).
    { by apply (same_free id s). }
    rewrite xwp_bind. eapply xwp_mono; [| | |apply contiguous_spec]; [|done|done].
    intros r s2 (H2&Hl&Hn). pose proof (same_then _ _ _ H1 H2) as H3.
    destruct H1 as (A1&A2&A3), H3 as (E1&E2&E3).
    destruct r as [mapping|].
    2: { by apply (same_free id s). }
    specialize (Hl mapping eq_refl). xwp_go. unfold free, ok. simpl. rewrite E1, E2, E3. split; [|done].
    apply cache_ok; [done..|]. intros Hm. rewrite A3 in Hn. by specialize (Hn Hm).
Qed.

(** *** Making a surface *)

Lemma page_count_fits n : u64 n ->
  let count := shr64 (Num.align_up_wrapping n page) shift in
  0 <= count /\ u64 count /\ count * page < M64 /\ count * page <= n + page.
Proof using page_shift shift_range.
  intros Hn count. pose proof page_range as Hp. unfold count, shr64.
  rewrite page_shift, Num.align_up_pow2 by lia. rewrite <- page_shift.
  rewrite (Z.mod_small shift 64), Z.shiftr_div_pow2 by lia. rewrite <- page_shift.
  set (x := w64 (n + (page - 1))).
  assert (0 <= x <= n + page /\ x < M64) as Hx.
  { pose proof (w64_range (n + (page - 1))). fold x in H. split; [|lia].
    split; [lia|]. unfold x, w64. pose proof (Z.mod_le (n + (page - 1)) M64). rewrite M64_val in *. lia. }
  pose proof (Z.div_mod x page ltac:(lia)) as Hd. pose proof (Z.mod_pos_bound x page ltac:(lia)).
  replace (x - x mod page) with (x / page * page) by lia. rewrite Z.div_mul by lia.
  pose proof (Z.div_pos x page ltac:(lia) ltac:(lia)). nia.
Qed.

Lemma surface_spec_cases d slot :
  match surface_spec page d slot with
  | (None, slot') => slot' = slot
  | (Some spec, slot') => alloc_size spec = b2_alloc_size (d2_base d) /\
      slot' = with_base_offset (b2_offset (d2_base d)) slot
  end.
Proof. unfold surface_spec. by destruct (spec_planes d). Qed.

(** What [make_surface] answers: a surface with its pages, or a slot without one. *)
Definition made (q : QueueState) (r : IoReturn * SurfaceSlot) : Prop :=
  if bool_decide (r.1 = Success) then
    is_some (slot_surface r.2) = true /\ slot_ok r.2 /\
    (slot_host_only r.2 = true ->
      add64 (host_only_bytes q) (mul64 (slot_page_count r.2) page) <= HOST_ONLY_LIMIT /\
      (creates_bounded -> slot_page_count r.2 * page < 2 ^ 63 + page))
  else slot_surface r.2 = None.

Lemma create_made d slot s : typed d -> slot_surface slot = None ->
  0 <= slot_page_count slot -> slot_page_count slot * page < M64 ->
  slot_page_count slot * page <= b2_alloc_size (d2_base d) + page ->
  (if slot_host_only slot then slot_pages slot = [] /\
     add64 (host_only_bytes (queue s)) (mul64 (slot_page_count slot) page) <= HOST_ONLY_LIMIT
   else Z.of_nat (length (slot_pages slot)) = slot_page_count slot) ->
  xwp (create page d slot) (fun r s' => same s s' /\ made (queue s) r) (fun _ _ => False) alive s.
Proof.
  intros T Hn H0 Hp Ha Hs. unfold create. pose proof (surface_spec_cases d slot) as Hc.
  destruct (surface_spec page d slot) as [[spec|] slot']; [|by subst slot'].
  destruct Hc as [Ea ->]. xwp_go. split; [done|]. unfold made. simpl.
  destruct (create_surface spec (calls s)) as [sf|] eqn:Es; simpl; [|done].
  split; [done|]. unfold slot_ok. simpl.
  split; [split; [done|split; [done|]]; destruct (slot_host_only slot); [apply Hs|done]|].
  intros Hh. rewrite Hh in Hs. split; [apply Hs|]. intros B. specialize (B _ _ _ Es).
  rewrite Ea in B. lia.
Qed.

Lemma make_surface_made d s : typed d ->
  xwp (make_surface page shift d empty_slot) (fun r s' => same s s' /\ made (queue s) r)
    (fun _ _ => False) alive s.
Proof using page_shift shift_range.
  intros T. unfold make_surface. destruct (negb (valid _)); [done|].
  pose proof (tb_words _ (proj1 T)) as (_&Ha&_).
  destruct (page_count_fits (b2_alloc_size (d2_base d)) Ha) as (H0&Hu&Hfit&Hle).
  set (count := shr64 _ _) in *. destruct (host_only _).
  - xwp_go. destruct (Z.ltb_spec HOST_ONLY_LIMIT
      (add64 (host_only_bytes (queue s)) (mul64 count page))) as [|Hl]; [done|].
    by apply create_made.
  - rewrite xwp_bind. unfold walked. unfold xwp at 1.
    destruct (walk _ _ page shift d count empty_slot) as [[[] slot]|[e slot]|k] eqn:Ew.
    + apply walk_Ret in Ew as (hs&Hl&->); [|done|lia|done]. apply create_made; try done.
      simpl. rewrite Hl. lia.
    + xwp_go. split; [done|]. unfold made. simpl.
      apply walk_Raised in Ew as [Ew He]; [|done|lia|done]. by rewrite bool_decide_false.
    + by eapply walk_Died; [..|exact Ew]; [|lia|].
Qed.

(** *** The slots' bytes *)

Lemma slot_put r q m id old new bytes : device_ok r q m -> slots q !! Z.to_nat id = Some old ->
  slot_ok new -> bytes = (host_only_bytes q - bytes_of page old + bytes_of page new) mod M64 ->
  (creates_bounded -> total page (slots q) - bytes_of page old + bytes_of page new <= HOST_ONLY_LIMIT) ->
  device_ok r (with_slots (<[Z.to_nat id := new]> (slots q)) (with_host_only bytes q)) m.
Proof.
  intros [[Hl Ho] Hb Hlim ?????? ] Hi Hn -> Hlim'. split; simpl; try done.
  - split; [by rewrite length_insert|by apply Forall_insert].
  - rewrite (total_insert page (slots q) _ old new Hi), Hb.
    rewrite <- Zplus_mod_idemp_l, Zminus_mod_idemp_l, Zplus_mod_idemp_l. done.
  - intros B. rewrite (total_insert page (slots q) _ old new Hi). by apply Hlim'.
Qed.
Lemma bytes_nonneg l : Forall slot_ok l -> 0 <= total page l.
Proof using page_shift shift_range.
  pose proof page_range. induction 1 as [|s l Hs _ IH]; simpl; [done|].
  assert (0 <= bytes_of page s); [|lia]. unfold bytes_of, slot_ok in *.
  destruct (slot_surface s); simpl; [|done]. destruct (slot_host_only s); lia.
Qed.
Lemma limit_small : HOST_ONLY_LIMIT < M64.
Proof. by vm_compute. Qed.
(** Within the limit the bytes counted are the bytes there are. *)
Lemma bytes_exact r q m : device_ok r q m -> creates_bounded ->
  host_only_bytes q = total page (slots q).
Proof using page_shift shift_range.
  intros H B. rewrite (ok_bytes _ _ _ H). apply Z.mod_small.
  pose proof (bytes_nonneg _ (proj2 (ok_slots _ _ _ H))). pose proof (ok_limit _ _ _ H B).
  pose proof limit_small. lia.
Qed.

(** An id's slot is there. *)
Lemma slot_there r q m id : device_ok r q m -> refused_id id = false -> 0 <= id ->
  exists s, slots q !! Z.to_nat id = Some s.
Proof.
  intros H Hr H0. apply lookup_lt_is_Some. rewrite (proj1 (ok_slots _ _ _ H)).
  unfold refused_id in Hr. to_props. unfold MAPPING_ID_COUNT in *. lia.
Qed.

(** A slot in place of one with as many bytes. *)
Lemma slot_same s id old new : ok s -> slots (queue s) !! Z.to_nat id = Some old -> slot_ok new ->
  bytes_of page new = bytes_of page old ->
  ok (upd_queue (fun q => with_slots (<[Z.to_nat id := new]> (slots q)) q) s).
Proof.
  intros Ho Hi Hn Hb.
  assert (device_ok (desc_enable (regs s)) (with_slots (<[Z.to_nat id := new]> (slots (queue s)))
    (with_host_only (host_only_bytes (queue s)) (queue s))) (maps s)) as Hd; [|exact Hd].
  apply (slot_put _ _ _ id old new); [done..| |].
  - rewrite Hb, Z.sub_add, (ok_bytes _ _ _ Ho). by rewrite Zmod_mod.
  - intros B. rewrite Hb, Z.sub_add. by apply (ok_limit _ _ _ Ho).
Qed.

(** The slot of a map that made a surface. *)
Lemma put_made s id slot status : free id s -> made (queue s) (status, slot) ->
  status = Success ->
  ok (upd_queue (fun q => with_slots (<[Z.to_nat id := slot]> (slots q)) q)
    (if slot_host_only slot then
       upd_queue (fun q => with_host_only
         (add64 (host_only_bytes q) (mul64 (slot_page_count slot) page)) q) s
     else s)).
Proof using page_shift shift_range.
  intros [Ho Hf] Hm ->. unfold made in Hm. simpl in Hm. destruct Hm as (Hs&Hok&Hh).
  destruct (slot_surface slot) as [sf|] eqn:Es; [|done].
  assert (bytes_of page empty_slot = 0) as He by done.
  pose proof Hok as Hok'. unfold slot_ok in Hok'. rewrite Es in Hok'. destruct Hok' as (H0&Hfit&_).
  pose proof page_range. pose proof (ok_bytes _ _ _ Ho) as Hb.
  assert (bytes_of page slot = if slot_host_only slot then slot_page_count slot * page else 0) as Hbs
    by (unfold bytes_of; by rewrite Es).
  destruct (slot_host_only slot) eqn:Eh.
  - destruct (Hh eq_refl) as [Hlim Hbig]. unfold ok. simpl.
    apply (slot_put _ _ _ id empty_slot slot); [done..| |].
    + rewrite Hbs, He, Z.sub_0_r, mul64_small by nia. done.
    + intros B. rewrite He, Hbs. specialize (Hbig B). rewrite mul64_small in Hlim by nia.
      pose proof (bytes_exact _ _ _ Ho B) as Hx. pose proof (ok_limit _ _ _ Ho B) as Hl.
      pose proof (bytes_nonneg _ (proj2 (ok_slots _ _ _ Ho))).
      rewrite Hx, add64_small in Hlim; [lia|]. unfold HOST_ONLY_LIMIT in *. rewrite M64_val. lia.
  - eapply slot_same; [done..|]. by rewrite Hbs, He.
Qed.
Lemma put_none s id slot : free id s -> slot_surface slot = None ->
  ok (upd_queue (fun q => with_slots (<[Z.to_nat id := cleared_pages slot]> (slots q)) q) s).
Proof.
  intros [Ho Hf] Hs. eapply slot_same; [done..| |].
  - unfold slot_ok. simpl. by rewrite Hs.
  - unfold bytes_of. simpl. by rewrite Hs.
Qed.
Lemma put_empty s id : ok s -> slot_surface (slot_at id s) = None ->
  is_Some (slots (queue s) !! Z.to_nat id) ->
  free id (upd_queue (fun q => with_slots (<[Z.to_nat id := empty_slot]> (slots q)) q) s).
Proof.
  intros Ho Hn [old Hi]. unfold slot_at in Hn. rewrite Hi in Hn. simpl in Hn. split.
  - eapply slot_same; [done..|]. unfold bytes_of. by rewrite Hn.
  - simpl. rewrite list_lookup_insert_eq; [done|]. by eapply lookup_lt_Some.
Qed.

(** *** The commands *)

(** From [I], an end in [J]. *)
Definition leads {A} (I J : State -> Prop) (m : M A) : Prop :=
  forall s, I s -> xwp m (fun _ s' => J s') (fun _ s' => J s') alive s.
Lemma leads_bind {A B} (I J : State -> Prop) (m : M A) (f : A -> M B) :
  (forall s, I s -> J s) -> keeps I m -> (forall a, leads I J (f a)) -> leads I J (a ← m; f a).
Proof.
  intros HIJ Hm Hf s Hs. rewrite xwp_bind. eapply xwp_mono; [| | |apply (Hm s Hs)]; [| |done].
  - intros a s' Hs'. by apply Hf.
  - intros e s' Hs'. by apply HIJ.
Qed.
Lemma free_ok id s : free id s -> ok s.
Proof. by intros []. Qed.

Lemma read_descriptor_typed p w s :
  xwp (read_descriptor p w) (fun d s' => same s s' /\ typed d) (fun _ s' => same s s') alive s.
Proof.
  unfold read_descriptor. rewrite xwp_bind, xwp_asks, xwp_bind.
  eapply xwp_mono; [| | |apply (quiet_access _ _ _ _ (quiet_copy _ _ _))]; [|done|done].
  intros bs s' Hs'. split; [done|]. destruct (current_form s).
  - apply typed_upgraded.
  - apply typed_descriptor2_of.
Qed.

(** The end of a map: the slot's bytes, the slot and the mapped bit. *)
Lemma map_end id r at_ s : free id s -> made (queue s) r ->
  xwp (let '(status, slot) := r in
       let made := bool_decide (status = Success) in
       _ ← (if made && slot_host_only slot then
              modify (upd_queue (fun q => with_host_only
                (add64 (host_only_bytes q) (mul64 (slot_page_count slot) page)) q))
            else mret tt);
       _ ← set_slot id (if made then slot else cleared_pages slot);
       _ ← (if made then change_word at_ MappedBitSet (fun word => Z.lor word MAPPED) else mret tt);
       mret status : M IoReturn)
    (fun _ s' => ok s') (fun _ s' => ok s') alive s.
Proof using page_shift shift_range.
  intros Hf Hm. destruct r as [status slot]. cbv beta iota zeta. destruct (bool_decide (status = Success)) eqn:Eb.
  - apply bool_decide_eq_true in Eb. pose proof (put_made s id slot status Hf Hm Eb) as Ho.
    rewrite andb_true_l.
    assert (xwp (_ ← change_word at_ MappedBitSet (fun word => Z.lor word MAPPED); mret status : M IoReturn)
      (fun _ s' => ok s') (fun _ s' => ok s') alive
      (upd_queue (fun q => with_slots (<[Z.to_nat id := slot]> (slots q)) q)
        (if slot_host_only slot then
           upd_queue (fun q => with_host_only
             (add64 (host_only_bytes q) (mul64 (slot_page_count slot) page)) q) s
         else s))) as H.
    { apply (bind_keeps ok); [apply quiet_keeps, quiet_change|intros []; apply ret_keeps|done]. }
    destruct (slot_host_only slot); rewrite xwp_bind; exact H.
  - rewrite andb_false_l. xwp_go. unfold set_slot. xwp_go. apply put_none; [done|].
    unfold made in Hm. simpl in Hm. by rewrite Eb in Hm.
Qed.

Lemma keeps_map id : 0 <= id -> keeps ok (map answers allocates page shift id).
Proof using page_shift shift_range.
  intros H0. unfold map. apply keeps_caught. destruct (refused_id id) eqn:Er; [apply keeps_raise|].
  apply keeps_know. intros s Hs. destruct (slot_surface (slot_at id s)) eqn:Ef; [done|].
  simpl is_some. cbv iota. rewrite xwp_bind. unfold set_slot at 1. rewrite xwp_modify.
  pose proof (put_empty s id Hs Ef (slot_there _ _ _ id Hs Er H0)) as Hf. revert Hf.
  generalize (upd_queue (fun q => with_slots (<[Z.to_nat id := empty_slot]> (slots q)) q) s).
  clear s Hs Ef.
  apply (leads_bind (free id) ok); [apply free_ok|apply asks_keeps|intros per].
  apply (leads_bind (free id) ok); [apply free_ok|apply asks_keeps|intros len].
  destruct (len <=? _); [by intros s [Hs _]|].
  apply (leads_bind (free id) ok); [apply free_ok|apply keeps_descriptor_page|intros page_].
  intros s Hf. rewrite xwp_bind. eapply xwp_mono; [| | |apply read_descriptor_typed]; [| |done].
  2: { intros e s' Hs'. apply (same_ok s); [done|]. by apply (free_ok id). }
  intros d s1 [H1 T]. rewrite xwp_bind. eapply xwp_mono; [| | |apply (make_surface_made d s1 T)];
    [|done|done].
  intros [status slot] s2 [H2 Hm]. cbv beta iota. rewrite xwp_bind, xwp_asks.
  assert (same s s2) as H12 by by eapply same_then.
  assert (made (queue s2) (status, slot)) as Hm2 by (destruct H2 as (_&->&_); exact Hm).
  apply (map_end id (status, slot)); [by apply (same_free id s)|done].
Qed.

(** The slot of an unmap that released its surface. *)
Lemma put_unmapped s id slot sf : ok s -> slots (queue s) !! Z.to_nat id = Some slot ->
  slot_surface slot = Some sf ->
  ok (upd_queue (fun q => with_slots
      (<[Z.to_nat id := cleared_pages (with_surface None slot)]> (slots q)) q)
    (if slot_host_only slot then
       upd_queue (fun q => with_host_only
         (sub64 (host_only_bytes q) (mul64 (slot_page_count slot) page)) q) s
     else s)).
Proof using page_shift shift_range.
  intros Ho Hi Es. set (new := cleared_pages (with_surface None slot)).
  assert (bytes_of page new = 0) as Hn by done. assert (slot_ok new) as Hnok by done.
  pose proof (proj2 (ok_slots _ _ _ Ho)) as Hall.
  pose proof (proj1 (Forall_lookup _ _) Hall _ _ Hi) as Hok.
  assert (bytes_of page slot = if slot_host_only slot then slot_page_count slot * page else 0) as Hb
    by (unfold bytes_of; by rewrite Es).
  unfold slot_ok in Hok. rewrite Es in Hok. destruct Hok as (H0&Hfit&_). pose proof page_range.
  destruct (slot_host_only slot) eqn:Eh.
  - unfold ok. simpl. apply (slot_put _ _ _ id slot new); [done..| |].
    + rewrite Hb, Hn, Z.add_0_r, mul64_small by nia. done.
    + intros B. rewrite Hb, Hn. pose proof (ok_limit _ _ _ Ho B). nia.
  - eapply slot_same; [done..|]. by rewrite Hb, Hn.
Qed.

Lemma keeps_unmap id : 0 <= id -> keeps ok (unmap page id).
Proof using page_shift shift_range.
  intros H0. unfold unmap. apply keeps_caught. destruct (refused_id id) eqn:Er; [apply keeps_raise|].
  apply keeps_know. intros s Hs. destruct (slot_surface (slot_at id s)) as [sf|] eqn:Ef; [|done].
  destruct (slot_there _ _ _ id Hs Er H0) as [slot Hi]. unfold slot_at in *. rewrite Hi in *.
  simpl in Ef |- *. rewrite xwp_bind, xwp_asks. destruct (negb _); [done|].
  xwp_go. destruct (_ <=? _); [done|]. xwp_go.
  destruct (pages (queue s) !! _) as [[p|]|]; [|done..]. xwp_go.
  eapply xwp_mono; [| | |apply quiet_change]; [| |done].
  2: { intros e s' Hs'. by apply (same_ok s). }
  intros [] s1 H1. assert (ok s1) as Ho1 by by apply (same_ok s).
  assert (slots (queue s1) !! Z.to_nat id = Some slot) as Hi1 by (by destruct H1 as (_&->&_)).
  unfold tell, set_slot. xwp_go. 
  pose proof (put_unmapped (with_calls (calls s1 ++ [ReleaseSurface sf]) s1) id slot sf Ho1 Hi1 Ef) as H.
  destruct (slot_host_only slot); xwp_go; exact H.
Qed.

Lemma quiet_pattern start n : forall i, quiet (write_pattern start n i).
Proof.
  induction n as [|n IH]; intros i; simpl; [apply quiet_ret|].
  apply quiet_bind; [|intros []; apply IH]. apply quiet_store. intros mem. apply write_n_alive.
Qed.
Lemma keeps_test id : keeps ok (test_pattern id).
Proof.
  unfold test_pattern. apply keeps_caught, quiet_keeps. destruct (refused_id id); [apply quiet_raise|].
  apply quiet_bind; [apply quiet_asks|]. intros slot. destruct (slot_surface slot) as [sf|];
    [|apply quiet_raise].
  repeat first [apply quiet_bind; [|intros ?] | apply quiet_pattern | apply quiet_tell
    | apply quiet_asks | apply quiet_ret].
Qed.

Lemma keeps_command c id : 0 <= id -> keeps ok (run_command answers allocates page shift c id).
Proof using page_shift shift_range.
  intros H0. unfold run_command. destruct (command_of c) as [[]|].
  - by apply keeps_map.
  - by apply keeps_unmap.
  - apply keeps_test.
  - apply ret_keeps.
Qed.

(** *** The registers *)

(** What the registers' writes keep: the queue's state and the mappings in the form [e], with
    the enable register at [d]. *)
Definition okd (e d : Z) (s : State) : Prop :=
  device_ok e (queue s) (maps s) /\ desc_enable (regs s) = d.
Lemma ok_okd s : ok s -> okd (desc_enable (regs s)) (desc_enable (regs s)) s.
Proof. done. Qed.
Lemma same_okd e d s s' : same s s' -> okd e d s -> okd e d s'.
Proof. intros (E1&E2&E3). unfold okd. by rewrite E1, E2, E3. Qed.
Lemma quiet_okd {A} e d (m : M A) : quiet m -> keeps (okd e d) m.
Proof.
  intros Hm s Hs. eapply xwp_mono; [| | |apply Hm]; [| |done].
  - intros ? s' Hs'. by apply (same_okd e d s).
  - intros ? s' Hs'. by apply (same_okd e d s).
Qed.

Lemma release_slots_spec l : forall bytes T l' bytes' ids,
  release_slots page l bytes = (l', bytes', ids) -> Forall slot_ok l ->
  bytes = (T + total page l) mod M64 ->
  bytes' = T mod M64 /\ total page l' = 0 /\ Forall slot_ok l' /\ length l' = length l.
Proof using page_shift shift_range.
  pose proof page_range as Hp.
  induction l as [|s l IH]; intros bytes T l' bytes' ids; simpl.
  - intros [= <- <- <-] _ ->. by rewrite Z.add_0_r.
  - intros H [Hs Hl]%Forall_cons Hb. unfold bytes_of in Hb. destruct (slot_surface s) as [sf|] eqn:Es.
    + destruct (release_slots page l _) as [[l1 b1] i1] eqn:E. injection H as <- <- <-.
      destruct (IH _ T _ _ _ E Hl) as (H1&H2&H3&H4).
      * unfold slot_ok in Hs. rewrite Es in Hs. destruct Hs as (?&?&_). simpl in Hb.
        destruct (slot_host_only s); [|by rewrite Z.add_0_l in Hb].
        rewrite Hb, mul64_small by nia. unfold sub64, w64. rewrite Zminus_mod_idemp_l. f_equal. lia.
      * split_and!; [done| |by constructor|by simpl; rewrite H4]. simpl. unfold bytes_of. simpl. lia.
    + destruct (release_slots page l bytes) as [[l1 b1] i1] eqn:E. injection H as <- <- <-.
      destruct (IH _ T _ _ _ E Hl) as (H1&H2&H3&H4); [by rewrite Hb|].
      split_and!; [done| |by constructor|by simpl; rewrite H4]. simpl. unfold bytes_of. rewrite Es. simpl. lia.
Qed.
Lemma behind_none m : behind m None None.
Proof. unfold behind. destruct (memory_map m); by split. Qed.
Lemma drop_pages_spec m n : forall ps ms ps' ms' dropped,
  drop_pages n ps ms = (ps', ms', dropped) -> Forall2 (behind m) ps ms ->
  Forall2 (behind m) ps' ms' /\ length ps' = length ps /\ length ms' = length ms.
Proof.
  pose proof (behind_none m) as Hnone. induction n as [|n IH]; intros ps ms ps' ms' dropped; simpl; [by intros [= <- <- <-]|].
  intros H F. destruct F as [|p x ps ms Hp F]; [by injection H as <- <- <-|].
  destruct (drop_pages n ps ms) as [[ps1 ms1] d1] eqn:E. destruct (IH _ _ _ _ _ E F) as (H1&H2&H3).
  destruct (is_some p); injection H as <- <- <-; simpl; (split; [by constructor|by rewrite H2, H3]).
Qed.
Lemma quiet_drops ms : quiet (drop_mappings ms).
Proof.
  induction ms as [|m ms IH]; simpl; [apply quiet_ret|]. apply quiet_bind; [apply quiet_drop|by intros []].
Qed.

(** [keeps] of a run that answers no status early. *)
Definition calm {A} (I : State -> Prop) (m : M A) : Prop :=
  forall s, I s -> xwp m (fun _ s' => I s') (fun _ _ => False) alive s.
Lemma calm_keeps {A} I (m : M A) : calm I m -> keeps I m.
Proof. intros H s Hs. by eapply xwp_mono; [| | |apply (H s Hs)]. Qed.
Lemma calm_bind {A B} I (m : M A) (f : A -> M B) :
  calm I m -> (forall a, calm I (f a)) -> calm I (a ← m; f a).
Proof.
  intros Hm Hf s Hs. rewrite xwp_bind. eapply xwp_mono; [| | |apply (Hm s Hs)]; [|done|done].
  intros a s' Hs'. by apply Hf.
Qed.
Lemma calm_ret {A} I (a : A) : calm I (mret a : M A).
Proof. by intros s Hs. Qed.
Lemma calm_asks {A} I (f : State -> A) : calm I (asks f : M A).
Proof. by intros s Hs. Qed.
Lemma calm_modify I f : (forall s, I s -> I (f s)) -> calm I (modify f : M unit).
Proof. intros H s Hs. by apply H. Qed.
Lemma calm_know {A B} I (f : State -> A) (g : A -> M B) :
  (forall s, I s -> xwp (g (f s)) (fun _ s' => I s') (fun _ _ => False) alive s) ->
  calm I (a ← asks f; g a).
Proof. intros H s Hs. rewrite xwp_bind, xwp_asks. by apply H. Qed.
Lemma calm_drop e d m : calm (okd e d) (drop_mapping m).
Proof. destruct m; [|apply calm_ret]. by apply calm_modify. Qed.
Lemma calm_drops e d ms : calm (okd e d) (drop_mappings ms).
Proof.
  induction ms as [|m ms IH]; simpl; [apply calm_ret|].
  apply calm_bind; [apply calm_drop|by intros []].
Qed.

Lemma calm_ring_base e d v : calm (okd e d) (set_ring_base v).
Proof.
  unfold set_ring_base. apply calm_bind; [apply calm_asks|intros r]. apply calm_bind.
  - destruct (is_some r); [|apply calm_ret]. apply calm_bind; [apply calm_asks|intros old].
    apply calm_bind; [apply calm_drop|intros []]. intros s [[] Hd]. by xwp_go.
  - intros []. by apply calm_modify.
Qed.
Lemma okd_ring e d v w s : (memory_map (maps s) = None -> v = None) -> okd e d s ->
  okd e d (upd_queue (with_ring w) (upd_maps (with_m_ring v) s)) /\
  okd e d (upd_maps (with_m_ring v) s).
Proof. intros Hv [[] Hd]. by split. Qed.
Lemma keeps_ring_size v : keeps ok (set_ring_size answers allocates v).
Proof.
  intros s Hs. unfold set_ring_size. xwp_go. destruct (_ || _); [done|]. xwp_go.
  destruct (overflowing_mul64 v RING_COMMAND_SIZE) as [n []]; [done|]. rewrite xwp_bind.
  unfold mapping_call. unfold xwp at 1. simpl.
  set (s1 := upd_regs (with_ring_size v) s).
  assert (ok s1) as H1 by done.
  change (memory_map (maps s)) with (memory_map (maps s1)). change (vm_calls s) with (vm_calls s1).
  change (ring_base (regs s)) with (ring_base (regs s1)).
  clearbody s1. clear Hs.
  assert (forall r c, (memory_map (maps s1) = None -> r = None) ->
    xwp (_ ← modify (upd_maps (with_m_ring r));
      match r with
      | None => mret tt
      | Some m =>
          let ring := MemoryMap.m_address m in
          _ ← modify (upd_queue (with_ring (Some ring)));
          if debug_enabled then
            _ ← mapped_access ring 4 RingPeek (read_u32 ring 0 RingPeek); mret tt
          else mret tt
      end : M unit) (fun _ s' => ok s') (fun _ s' => ok s') alive (with_vm_calls c s1)) as H.
  { intros r c Hr. destruct (okd_ring _ _ r (MemoryMap.m_address <$> r) _ Hr (ok_okd _ H1)) as [H2 H3].
    xwp_go. destruct r as [m|]; [|exact (proj1 H3)]. xwp_go. destruct debug_enabled; [|exact (proj1 H2)].
    apply (bind_keeps ok); [apply quiet_keeps, quiet_access, quiet_read|intros ?; apply ret_keeps|].
    exact (proj1 H2). }
  destruct (memory_map (maps s1)) as [map|] eqn:Em.
  - destruct (MemoryMap.new_range_mapping _ _ _ _ _ _ _) as [[vm r]|k|k]; [|done..]. by apply H.
  - specialize (H None (vm_calls s1) (fun _ => eq_refl)). destruct s1. exact H.
Qed.

Lemma calm_teardown e d : calm (okd e d) (teardown_surfaces page).
Proof using page_shift shift_range.
  intros s [Ho Hd]. unfold teardown_surfaces. xwp_go.
  destruct (release_slots page (slots (queue s)) (host_only_bytes (queue s))) as [[l b] ids] eqn:E.
  destruct (release_slots_spec _ _ 0 _ _ _ E) as (H1&H2&H3&H4);
    [apply (ok_slots _ _ _ Ho)|by rewrite (ok_bytes _ _ _ Ho)|].
  xwp_go. split; [|done]. simpl. destruct Ho. split; simpl; try done.
  - rewrite H4. by split; [apply ok_slots0|].
  - by rewrite H1, H2.
  - intros _. rewrite H2. by vm_compute.
Qed.
Lemma calm_descriptor_base e d v : calm (okd e d) (set_descriptor_base answers allocates page v).
Proof using page_shift shift_range.
  unfold set_descriptor_base. apply calm_bind; [apply calm_teardown|intros []].
  apply calm_bind; [apply calm_asks|intros t]. apply calm_bind; [destruct (is_some t)|intros []].
  - apply calm_bind; [apply calm_asks|intros old].
    apply calm_bind; [apply calm_drop|intros []]. intros s [[] Hd]. xwp_go. split; [|done].
    split; simpl; try done. apply behind_none.
  - apply calm_ret.
  - apply calm_know. intros s Hs.
    destruct (drop_pages _ (pages (queue s)) (m_pages (maps s))) as [[ps ms] dropped] eqn:E.
    destruct (drop_pages_spec _ _ _ _ _ _ _ E (ok_cached _ _ _ (proj1 Hs))) as (H1&H2&H3).
    assert (length ps = PAGE_SLOTS /\ length ms = PAGE_SLOTS) as Hlen
      by (rewrite H2, H3; apply (ok_pages _ _ _ (proj1 Hs))).
    rewrite xwp_bind. clear E H2 H3.
    assert (calm (fun s' => okd e d s' /\ maps s' = maps s) (drop_mappings dropped)) as Hc.
    { clear. induction dropped as [|m ms IH]; simpl; [apply calm_ret|].
      apply calm_bind; [|by intros []]. destruct m; [by apply calm_modify|apply calm_ret]. }
    eapply xwp_mono; [| | |apply (Hc s); by split]; [|done|done].
    intros [] s1 [[[] Hd] Hm]. xwp_go.
    set (s2 := upd_regs _ _).
    assert (okd e d s2) as H2.
    { split; [|done]. split; simpl; try done. by rewrite Hm. }
    clearbody s2. destruct (v =? 0); [exact H2|]. simpl.
    rewrite xwp_bind. eapply xwp_mono; [| | |apply contiguous_spec]; [|done|done].
    intros r s3 (H3&Hl&Hn). pose proof (same_okd _ _ _ _ H3 H2) as [[] Hd3]. xwp_go.
    split; [|done]. split; simpl; try done. destruct H3 as (_&_&E3). rewrite <- E3 in Hn.
    unfold behind in *. simpl. destruct (memory_map (maps s3)).
    + by split.
    + rewrite (Hn eq_refl). by split.
Qed.
Lemma keeps_descriptor_enable v : keeps ok (set_descriptor_enable answers allocates page v).
Proof using page_shift shift_range.
  intros s Hs. unfold set_descriptor_enable. xwp_go.
  eapply xwp_mono; [| | |apply (calm_descriptor_base (desc_enable (regs s)) (Z.land v 1))];
    [|done|done|done].
  intros [] s1 [[] Hd]. xwp_go. unfold current_form. by split.
Qed.

Lemma calm_ok {A} (m : M A) : (forall e d, calm (okd e d) m) -> keeps ok m.
Proof.
  intros H s Hs. specialize (H _ _ s (ok_okd s Hs)).
  eapply xwp_mono; [| | |exact H]; [|done|done]. intros ? s' [H1 H2]. unfold ok. by rewrite H2.
Qed.
Lemma write_keeps off v : keeps ok (mmio_write answers allocates page off v).
Proof using page_shift shift_range.
  assert (forall o : Z, keeps ok (mret tt : M unit)) as Hr by (intros _; apply ret_keeps).
  destruct (decide (off = 0x1000)) as [->|N1]; [apply calm_ok; intros e d; apply calm_ring_base|].
  destruct (decide (off = 0x1008)) as [->|N2]; [apply keeps_ring_size|].
  destruct (decide (off = 0x1010)) as [->|N3]; [apply calm_ok; intros e d; apply calm_descriptor_base|].
  destruct (decide (off = 0x1018)) as [->|N4].
  { unfold mmio_write. apply bind_keeps; [by apply modify_keeps|intros []].
    apply bind_keeps; [apply asks_keeps|intros []]; [by apply modify_keeps|apply ret_keeps]. }
  destruct (decide (off = 0x1020)) as [->|N5].
  { unfold mmio_write. apply bind_keeps; [apply asks_keeps|intros []];
      [by apply modify_keeps|apply ret_keeps]. }
  destruct (decide (off = 0x1030)) as [->|N6]; [apply keeps_descriptor_enable|].
  intros s Hs. assert (mmio_write answers allocates page off v = mret tt) as ->; [|done].
  clear -N1 N2 N3 N4 N5 N6. unfold mmio_write. repeat (case_match; try done).
Qed.

(** *** The ring's turns *)

(** What a command leaves be: the registers, the interrupt's block and the interrupts raised. *)
Definition seen (v : Registers * Interrupt * nat) (s : State) : Prop :=
  (regs s, interrupt s, raised (calls s)) = v.
Lemma raised_app cs cs' : raised (cs ++ cs') = (raised cs + raised cs')%nat.
Proof. induction cs as [|[] cs IH]; simpl; by rewrite ?IH. Qed.
Lemma seen_lift {A} v (m : GuestPtr.memory -> outcome IoReturn sdeath A) :
  (forall mem, m mem <> Died OutOfFuel) -> keeps (seen v) (lift m).
Proof.
  intros H s Hs. unfold xwp, lift. specialize (H (memory s)).
  destruct (m (memory s)) as [a|e|d]; [done..|]. intros ->. done.
Qed.
Lemma seen_store v m : (forall mem, m mem <> Died OutOfFuel) -> keeps (seen v) (store m).
Proof.
  intros H. apply bind_keeps; [by apply seen_lift|]. intros mem. by apply modify_keeps.
Qed.
Lemma seen_access {A} v a n k (m : M A) : keeps (seen v) m -> keeps (seen v) (mapped_access a n k m).
Proof. intros H. apply bind_keeps; [apply asks_keeps|]. intros []; [apply fatal_keeps|exact H]. Qed.
Lemma seen_read v a o k : keeps (seen v) (read_u32 a o k).
Proof. apply seen_lift. intros mem. apply read_n_alive. Qed.
Lemma seen_write v a o x k : keeps (seen v) (write_u32 a o x k).
Proof. apply seen_store. intros mem. apply write_n_alive. Qed.
Lemma seen_copy v a n k : keeps (seen v) (copy_to a n k).
Proof.
  apply seen_lift. intros mem. unfold GuestPtr.copy_to, GuestPtr.check. case_if; [done|]. by case_if.
Qed.
Lemma seen_change v a k f : keeps (seen v) (change_word a k f).
Proof. apply seen_access, bind_keeps; [apply seen_read|intros w; apply seen_write]. Qed.
Lemma seen_tell v c : raised [c] = 0%nat -> keeps (seen v) (tell c).
Proof.
  intros Hc. apply modify_keeps. intros s <-. unfold seen. simpl. by rewrite raised_app, Hc, Nat.add_0_r.
Qed.
Lemma seen_contiguous v a n : keeps (seen v) (new_contiguous_mapping answers allocates a n).
Proof.
  intros s Hs. unfold xwp, new_contiguous_mapping, mapping_call.
  destruct (memory_map (maps s)) as [map|]; [|done].
  unfold MemoryMap.new_contiguous_mapping.
  by destruct (MemoryMap.new_range_mapping _ _ _ _ _ _ _) as [[vm r]|k|d].
Qed.
Lemma seen_pattern v start n : forall i, keeps (seen v) (write_pattern start n i).
Proof.
  induction n as [|n IH]; intros i; simpl; [apply ret_keeps|].
  apply bind_keeps; [|intros []; apply IH]. apply seen_store. intros mem. apply write_n_alive.
Qed.
Lemma seen_walked v d n slot s : u64 n -> seen v s ->
  xwp (walked page shift d n slot) (fun _ s' => seen v s') (fun _ s' => seen v s') alive s.
Proof using page_shift shift_range.
  intros Hn Hs. unfold walked, xwp.
  destruct (walk _ _ page shift d n slot) as [[[] sl]|[e sl]|k] eqn:E; [done..|].
  by eapply walk_Died; [..|exact E]; [|lia|].
Qed.

Ltac seen_step := first
  [ apply ret_keeps | apply keeps_raise | apply asks_keeps | apply fatal_keeps | apply seen_change
  | apply seen_access | apply seen_read | apply seen_write | apply seen_copy
  | (apply seen_tell; reflexivity) | apply seen_contiguous | apply seen_pattern
  | (apply modify_keeps; by intros) | apply keeps_caught | apply bind_keeps; [|intros ?] ].
Ltac seen_go := repeat (seen_step || case_match).

Lemma seen_create v d slot : keeps (seen v) (create page d slot).
Proof.
  unfold create. destruct (surface_spec page d slot) as [[spec|] sl]; [|apply ret_keeps]. seen_go.
Qed.
Lemma seen_make v d slot : typed d -> keeps (seen v) (make_surface page shift d slot).
Proof using page_shift shift_range.
  intros T. unfold make_surface. destruct (negb (valid _)); [apply ret_keeps|].
  pose proof (tb_words _ (proj1 T)) as (_&Ha&_).
  destruct (page_count_fits (b2_alloc_size (d2_base d)) Ha) as (_&Hu&_).
  destruct (host_only _); [seen_go; apply seen_create|].
  intros s Hs. rewrite xwp_bind. eapply xwp_mono; [| | |by apply seen_walked]; [|done|done].
  intros [[st|] sl] s' Hs'; [done|]. by apply seen_create.
Qed.
Lemma seen_command v c id : keeps (seen v) (run_command answers allocates page shift c id).
Proof using page_shift shift_range.
  unfold run_command. destruct (command_of c) as [[]|]; [| |unfold test_pattern; seen_go|apply ret_keeps].
  - unfold map. apply keeps_caught. destruct (refused_id id); [apply keeps_raise|].
    apply bind_keeps; [apply asks_keeps|intros held]. destruct (is_some _); [apply keeps_raise|].
    unfold set_slot, descriptor_page. do 3 (apply bind_keeps; [seen_go|intros ?]).
    destruct (_ <=? _); [apply keeps_raise|]. apply bind_keeps; [seen_go|intros p].
    intros s Hs. rewrite xwp_bind. unfold read_descriptor. rewrite xwp_bind, xwp_asks, xwp_bind.
    eapply xwp_mono; [| | |apply (seen_access v); [apply seen_copy|exact Hs]]; [|done|done].
    intros bs s1 H1. rewrite xwp_ret. rewrite xwp_bind.
    eapply xwp_mono; [| | |apply (seen_make v); [|exact H1]]; [|done|done|].
    + intros [st sl] s2 H2. revert s2 H2. change (keeps (seen v) (form ← asks current_form;
        _ ← (if bool_decide (st = Success) && slot_host_only sl then
               modify (upd_queue (fun q => with_host_only
                 (add64 (host_only_bytes q) (mul64 (slot_page_count sl) page)) q))
             else mret tt);
        _ ← modify (upd_queue (fun q => with_slots
          (<[Z.to_nat id := if bool_decide (st = Success) then sl else cleared_pages sl]> (slots q)) q));
        _ ← (if bool_decide (st = Success) then
               change_word (GuestPtr.offset p (mul64 (Num.rem0 id a0) (form_size form))) MappedBitSet
                 (fun word => Z.lor word MAPPED)
             else mret tt);
        mret st : M IoReturn)). seen_go.
    + destruct (current_form s); [apply typed_upgraded|apply typed_descriptor2_of].
  - unfold unmap, set_slot. seen_go.
Qed.

Lemma xwp_both {A} (m : M A) Q X Q' X' s :
  xwp m Q X alive s -> xwp m Q' X' alive s ->
  xwp m (fun a s' => Q a s' /\ Q' a s') (fun e s' => X e s' /\ X' e s') alive s.
Proof. unfold xwp. by destruct (m s) as [[]|[]|]. Qed.
Lemma command_calm c id s (Q : IoReturn -> State -> Prop) X :
  xwp (run_command answers allocates page shift c id) Q X alive s ->
  xwp (run_command answers allocates page shift c id) Q (fun _ _ => False) alive s.
Proof.
  assert (forall m : M IoReturn, xwp (caught m) Q X alive s ->
    xwp (caught m) Q (fun _ _ => False) alive s) as Hc.
  { intros m. unfold xwp, caught. by destruct (m s) as [[]|[]|]. }
  unfold run_command. destruct (command_of c) as [[]|]; [apply Hc..|done].
Qed.
(** An access the device checks for itself, of guest memory as it is. *)
Lemma access_calm {A} a n k (m : GuestPtr.memory -> outcome IoReturn sdeath A)
    (Q : A -> State -> Prop) s :
  (forall mem r, m mem = r -> match r with
    | Ret x => Q x s
    | Raised _ => False
    | Died d => alive d
    end) -> xwp (mapped_access a n k (lift m)) Q (fun _ _ => False) alive s.
Proof.
  intros H. unfold mapped_access. rewrite xwp_bind, xwp_asks.
  destruct (is_unmapped a n (maps s)); [done|]. unfold xwp, lift. specialize (H (memory s) _ eq_refl).
  by destruct (m (memory s)).
Qed.

(** The counters are 64-bit. *)
Definition counted (s : State) : Prop :=
  u64 (ring_rd_counter (regs s)) /\ u64 (ring_wr_counter (regs s)).

Lemma turn_spec s r i n : ok s -> seen (r, i, n) s ->
  xwp (turn answers allocates page shift)
    (fun _ s' => ok s' /\
       seen (with_rd_counter (add64 (ring_rd_counter r) 1) r, i, S n) s')
    (fun _ _ => False) alive s.
Proof using page_shift shift_range.
  intros Ho Hs. unfold turn. rewrite xwp_bind, xwp_asks, xwp_bind, xwp_asks. cbv zeta.
  set (slot := GuestPtr.offset (default 0 (ring (queue s))) _). rewrite xwp_bind. apply access_calm.
  intros mem o <-. unfold GuestPtr.read_u32_pair, GuestPtr.check.
  destruct (_ || _); [done|]. rewrite bind_ret_l. cbn [fst snd].
  set (w1 := of_le_bytes (GuestPtr.bytes_at mem (add64 slot 0) 4)).
  set (w2 := of_le_bytes (GuestPtr.bytes_at mem (add64 slot 0 + 4) 4)).
  assert (0 <= w2) as H2 by apply of_le_bytes_range.
  rewrite xwp_bind. apply command_calm with (X := fun _ s' => ok s' /\ seen (r, i, n) s').
  eapply xwp_mono; [| | |apply (xwp_both _ _ _ _ _ _ (keeps_command w1 w2 H2 s Ho)
    (seen_command (r, i, n) w1 w2 s Hs))]; [|done|done].
  intros st s1 [Ho1 Hs1]. cbv zeta. rewrite xwp_bind. unfold mapped_access.
  rewrite xwp_bind, xwp_asks. destruct (is_unmapped _ _ _); [done|].
  unfold write_u32, store. rewrite xwp_bind. unfold lift, xwp at 1.
  destruct (GuestPtr.write_u32 _ _ _ _ _ _ _) as [mem'|e|d] eqn:E.
  - rewrite xwp_modify, xwp_bind, xwp_modify. injection Hs1 as Hr Hi Hn.
    unfold raise_interrupt. rewrite xwp_bind, xwp_asks. simpl. rewrite Hi.
    assert (forall s', regs s' = regs s1 -> ok s' -> interrupt s' = i -> raised (calls s') = n ->
      xwp (tell (RaiseInterrupt 0))
        (fun _ s' => ok s' /\ seen (with_rd_counter (add64 (ring_rd_counter r) 1) r, i, S n) s')
        (fun _ _ => False) alive
        (upd_regs (fun r => with_rd_counter (add64 (ring_rd_counter r) 1) r) s')) as Ht.
    { intros s' E1 H' E2 E3. unfold tell. rewrite xwp_modify. split; [exact H'|].
      unfold seen. simpl. rewrite raised_app, E1, E2, E3, Hr. simpl. by rewrite Nat.add_1_r. }
    destruct i; [done|by apply Ht|]. rewrite xwp_bind, xwp_asks. simpl.
    destruct (block_alive _); [by apply Ht|done].
  - revert E. unfold GuestPtr.write_u32, GuestPtr.write_n, GuestPtr.check. simpl. by case_if.
  - intros ->. by eapply (write_n_alive 4).
Qed.

Lemma run_turns_spec fuel : forall s r i n, ok s -> seen (r, i, n) s ->
  u64 (ring_rd_counter r) -> u64 (ring_wr_counter r) ->
  (Z.to_nat (ring_wr_counter r - ring_rd_counter r) <= fuel)%nat ->
  xwp (run_turns answers allocates page shift fuel)
    (fun _ s' => ok s' /\
       seen (with_rd_counter (Z.max (ring_rd_counter r) (ring_wr_counter r)) r, i,
         (n + Z.to_nat (ring_wr_counter r - ring_rd_counter r))%nat) s')
    (fun _ _ => False) alive s.
Proof using page_shift shift_range.
  induction fuel as [|fuel IH]; intros s r i n Ho Hs Hrd Hwr Hf; simpl;
    rewrite xwp_bind, xwp_asks; pose proof Hs as [= Hr Hi Hn]; rewrite Hr;
    destruct (Z.ltb_spec (ring_rd_counter r) (ring_wr_counter r)) as [Hl|Hl]; try lia.
  1,3: split; [done|]; rewrite Z.max_l by lia;
    replace (Z.to_nat _) with 0%nat by lia; rewrite Nat.add_0_r; unfold seen;
    rewrite Hr, Hi, Hn; by destruct r.
  rewrite xwp_bind. eapply xwp_mono; [| | |apply (turn_spec s r i n Ho Hs)]; [|done|done].
  intros [] s1 [Ho1 Hs1]. rewrite add64_small in Hs1 by lia.
  eapply xwp_mono; [| | |apply (IH s1 _ i _ Ho1 Hs1)]; simpl; [|done|done|lia..].
  intros _ s2 [Ho2 Hs2]. split; [done|]. unfold seen in *. rewrite Hs2. simpl. f_equal; [f_equal|lia].
  destruct r. unfold with_rd_counter. simpl. f_equal. simpl in *. lia.
Qed.

Lemma run_ring_spec s : ok s -> counted s ->
  xwp (run_ring answers allocates page shift)
    (fun _ s' => ok s' /\
       if (ring_base (regs s) =? 0) || (ring_size (regs s) =? 0)
          || negb (is_some (ring (queue s))) || negb (is_some (table (queue s)))
       then s' = s
       else seen (with_rd_counter (Z.max (ring_rd_counter (regs s)) (ring_wr_counter (regs s)))
              (regs s), interrupt s,
            (raised (calls s) + Z.to_nat (ring_wr_counter (regs s) - ring_rd_counter (regs s)))%nat) s')
    (fun _ _ => False) alive s.
Proof using page_shift shift_range.
  intros Ho [Hrd Hwr]. unfold run_ring. rewrite xwp_bind, xwp_asks. cbv zeta beta.
  destruct (_ || _) eqn:E1; [done|]. rewrite orb_false_l.
  destruct (negb _ || negb _) eqn:E2; [done|].
  by apply run_turns_spec.
Qed.

(** *** The teardown *)

Definition range_of (m : option MemoryMap.Mapping) : list (Z * Z) :=
  match m with
  | Some x => [(MemoryMap.m_address x, MemoryMap.m_length x)]
  | None => []
  end.
Definition gone (l : list (Z * Z)) (m : Mappings) : Mappings :=
  MkMappings (memory_map m) (m_ring m) (m_table m) (m_pages m) (unmapped m ++ l).
(** Nothing but the mappings, the virtual machine's calls and the calls to the host differ. *)
Definition with_ranges (l : list (Z * Z)) (s s' : State) : Prop :=
  regs s' = regs s /\ queue s' = queue s /\ maps s' = gone l (maps s).
Lemma release_spec m s :
  xwp (release m) (fun _ s' => with_ranges (range_of m) s s') (fun _ _ => False) alive s.
Proof.
  destruct m as [x|]; [done|]. unfold release. xwp_go. unfold with_ranges, gone. simpl.
  rewrite app_nil_r. by destruct (maps s).
Qed.
Lemma with_ranges_trans l l' s s1 s2 : with_ranges l s s1 -> with_ranges l' s1 s2 ->
  with_ranges (l ++ l') s s2.
Proof.
  intros (E1&E2&E3) (F1&F2&F3). unfold with_ranges. rewrite F1, F2, F3, E1, E2, E3.
  unfold gone. simpl. by rewrite app_assoc.
Qed.
Lemma release_each_spec ms : forall s,
  xwp (release_each ms) (fun _ s' => with_ranges (concat (List.map range_of ms)) s s')
    (fun _ _ => False) alive s.
Proof.
  induction ms as [|m ms IH]; intros s; simpl.
  - unfold with_ranges, gone. rewrite xwp_ret, app_nil_r. by destruct (maps s).
  - rewrite xwp_bind. eapply xwp_mono; [| | |apply release_spec]; [|done|done].
    intros [] s1 H1. eapply xwp_mono; [| | |apply (IH s1)]; [|done|done].
    intros ? s2 H2. by eapply with_ranges_trans.
Qed.

Lemma backed_stale l p m : backed p m -> range_of m ⊆ l -> stale l p None.
Proof.
  intros [-> Hl] Hs. split; [done|]. intros a Ha. destruct m as [x|]; [|done].
  injection Ha as <-. rewrite <- (Hl x eq_refl). apply Hs. by apply list_elem_of_singleton.
Qed.
Lemma backed_stale_all ps ms : Forall2 backed ps ms -> forall l,
  concat (List.map range_of ms) ⊆ l ->
  Forall2 (stale l) ps (List.map (fun _ : option MemoryMap.Mapping => None) ms).
Proof.
  induction 1 as [|p m ps ms Hp _ IH]; intros l Hl; simpl; [constructor|].
  simpl in Hl. constructor.
  - apply (backed_stale l p m Hp). set_solver.
  - apply IH. set_solver.
Qed.

Lemma tear_down_spec s : ok s ->
  xwp tear_down (fun _ s' => ok s' /\ regs s' = regs s /\ memory_map (maps s') = None)
    (fun _ _ => False) alive s.
Proof using page_shift shift_range.
  intros Ho. unfold tear_down. rewrite xwp_bind, xwp_asks.
  match goal with |- xwp (_ ≫= ?f) _ _ _ _ => set (tail := f) end. rewrite xwp_bind.
  assert (forall s1, regs s1 = regs s -> queue s1 = queue s ->
    behind (MkMappings None (m_ring (maps s1)) (m_table (maps s1)) (m_pages (maps s1))
      (unmapped (maps s1))) (table (queue s)) (m_table (maps s1)) ->
    Forall2 (behind (MkMappings None (m_ring (maps s1)) (m_table (maps s1)) (m_pages (maps s1))
      (unmapped (maps s1)))) (pages (queue s)) (m_pages (maps s1)) ->
    m_ring (maps s1) = None ->
    xwp (tail tt) (fun _ s' => ok s' /\ regs s' = regs s /\ memory_map (maps s') = None)
      (fun _ _ => False) alive s1) as Ht.
  { intros s1 E1 E2 B1 B2 B3. unfold tail. xwp_go.
    assert (forall s', regs s' = regs s1 -> queue s' = queue s1 ->
      maps s' = MkMappings None (m_ring (maps s1)) (m_table (maps s1)) (m_pages (maps s1))
        (unmapped (maps s1)) -> ok s' /\ regs s' = regs s /\ memory_map (maps s') = None) as H.
    { intros s' F1 F2 F3. rewrite F1, E1, F3. split; [|done]. unfold ok. rewrite F1, F2, F3, E1, E2.
      destruct Ho. split; simpl; try done. split; [apply ok_pages0|].
      rewrite <- (Forall2_length _ _ _ B2). apply ok_pages0. }
    simpl. destruct (doorbell s1); [|by apply H]. unfold tell. rewrite xwp_modify. by apply H. }
  clearbody tail. destruct Ho. unfold behind in *.
  destruct (memory_map (maps s)) as [map|] eqn:Em; simpl.
  - rewrite xwp_bind, xwp_modify, xwp_bind.
    eapply xwp_mono; [| | |apply release_spec]; [|done|done]. intros [] s1 H1.
    rewrite xwp_bind. eapply xwp_mono; [| | |apply release_spec]; [|done|done]. intros [] s2 H2.
    pose proof (with_ranges_trans _ _ _ _ _ H1 H2) as H12. clear H1 H2.
    eapply xwp_mono; [| | |apply release_each_spec]; [|done|done]. intros [] s3 H3.
    pose proof (with_ranges_trans _ _ _ _ _ H12 H3) as (E1&E2&E3). clear H12 H3.
    apply Ht; [exact E1|exact E2|rewrite E3; simpl..|by rewrite E3].
    + apply (backed_stale _ _ (m_table (maps s))); [done|]. set_solver.
    + apply backed_stale_all; [done|]. set_solver.
  - apply Ht; [done..|by apply ok_ring0].
Qed.

(** *** Reachable states *)

(** What may come next: a register's write, the doorbell's handler or one turn of it, a surface
    retained for the display, the teardown, and the guest's own writes. *)
Inductive step : State -> State -> Prop :=
| StepWrite off v s s' : u64 v ->
    mmio_write answers allocates page off v s = Ret (tt, s') -> step s s'
| StepRing s s' : run_ring answers allocates page shift s = Ret (tt, s') -> step s s'
| StepTurn s s' : ring_rd_counter (regs s) < ring_wr_counter (regs s) ->
    turn answers allocates page shift s = Ret (tt, s') -> step s s'
| StepRetain id s o s' : retain_surface_with_mapping_id id s = Ret (o, s') -> step s s'
| StepTear s s' : tear_down s = Ret (tt, s') -> step s s'
| StepGuest mem s : step s (with_memory mem s).

Lemma xwp_Ret {A} (m : M A) Q X K s a s' : xwp m Q X K s -> m s = Ret (a, s') -> Q a s'.
Proof. unfold xwp. intros H E. by rewrite E in H. Qed.

Lemma behind_fresh map vm n :
  Forall2 (behind (MkMappings map None None vm [])) (replicate n None) (replicate n None).
Proof. induction n; simpl; constructor; [apply behind_none|done]. Qed.
Lemma new_over_ok map block mem vm : ok (new_over page map block mem vm).
Proof using page_shift shift_range.
  unfold ok, new_over. cbn [regs queue maps desc_enable].
  split; cbn [slots host_only_bytes pages m_pages table m_table memory_map m_ring]; try done.
  - split; [by rewrite length_replicate|]. by apply Forall_replicate.
  - apply behind_fresh.
Qed.

Lemma counted_drop m : keeps counted (drop_mapping m).
Proof. destruct m; [by apply modify_keeps|apply ret_keeps]. Qed.
Lemma counted_drops ms : keeps counted (drop_mappings ms).
Proof.
  induction ms as [|m ms IH]; simpl; [apply ret_keeps|].
  apply bind_keeps; [apply counted_drop|by intros []].
Qed.
Lemma counted_call m : keeps counted (mapping_call m).
Proof.
  intros s Hs. unfold xwp, mapping_call. destruct (memory_map (maps s)) as [map|]; [|done].
  by destruct (m map (vm_calls s)) as [[vm r]|k|d].
Qed.
Lemma quiet_counted {A} (m : M A) : quiet m -> keeps counted m.
Proof.
  intros H s Hs. eapply xwp_mono; [| | |apply H]; [| |done];
    intros ? s' (E&_&_); unfold counted; by rewrite E.
Qed.
Lemma counted_teardown : keeps counted (teardown_surfaces page).
Proof.
  unfold teardown_surfaces. apply bind_keeps; [apply asks_keeps|intros q].
  destruct (release_slots _ _ _) as [[l b] ids]. apply bind_keeps; [by apply modify_keeps|intros []].
  by apply modify_keeps.
Qed.
Ltac counted_go := repeat (first
  [ apply ret_keeps | apply asks_keeps | apply counted_drop | apply counted_drops | apply counted_call
  | apply counted_teardown | (apply modify_keeps; by intros)
  | (apply quiet_counted, quiet_access, quiet_read) | apply bind_keeps; [|intros ?] ] || case_match).
Lemma counted_descriptor_base v : keeps counted (set_descriptor_base answers allocates page v).
Proof. unfold set_descriptor_base, new_contiguous_mapping. counted_go. Qed.
Lemma counted_write off v : u64 v -> keeps counted (mmio_write answers allocates page off v).
Proof.
  intros Hv. assert (keeps counted (modify (upd_regs (with_wr_counter v)))) as Hw.
  { apply modify_keeps. by intros s [H _]. }
  assert (keeps counted (modify (upd_regs (with_rd_counter v)))) as Hr.
  { apply modify_keeps. by intros s [_ H]. }
  unfold mmio_write, set_ring_base, set_ring_size, set_descriptor_enable.
  repeat (case_match; try apply ret_keeps).
  all: repeat (first [ apply counted_descriptor_base | exact Hw | exact Hr
    | apply (modify_keeps counted (with_calls _)); by intros ] || counted_go).
Qed.

Lemma quiet_retain id : quiet (retain_surface_with_mapping_id id).
Proof.
  unfold retain_surface_with_mapping_id. destruct (refused_id id); [apply quiet_ret|].
  apply quiet_bind; [apply quiet_asks|]. intros slot.
  destruct (slot_surface slot); [|apply quiet_ret].
  apply quiet_bind; [apply quiet_tell|intros []; apply quiet_ret].
Qed.

(** What every reachable state is. *)
Definition well_formed (s : State) : Prop := ok s /\ counted s.
Lemma step_keeps s s' : step s s' -> well_formed s -> well_formed s'.
Proof using page_shift shift_range.
  intros H [Ho Hc]. destruct H as [off v s s' Hv H|s s' H|s s' Hl H|id s o s' H|s s' H|mem s].
  - split; [exact (xwp_Ret _ _ _ _ _ _ _ (write_keeps off v s Ho) H)|].
    exact (xwp_Ret _ _ _ _ _ _ _ (counted_write off v Hv s Hc) H).
  - destruct (xwp_Ret _ _ _ _ _ _ _ (run_ring_spec s Ho Hc) H) as [Ho' Hs]. split; [done|].
    revert Hs. case_if; [by intros ->|]. intros [= Er _ _]. unfold counted. rewrite Er. simpl.
    destruct Hc. lia.
  - destruct (xwp_Ret _ _ _ _ _ _ _ (turn_spec s _ _ _ Ho eq_refl) H) as [Ho' [= Er _ _]].
    split; [done|]. unfold counted. rewrite Er. simpl. split; [apply w64_range|apply Hc].
  - pose proof (xwp_Ret _ _ _ _ _ _ _ (quiet_retain id s) H) as Hs. split; [by apply (same_ok s)|].
    unfold counted. by destruct Hs as (->&_).
  - destruct (xwp_Ret _ _ _ _ _ _ _ (tear_down_spec s Ho) H) as (Ho'&Er&_). split; [done|].
    unfold counted. by rewrite Er.
  - done.
Qed.
Lemma reached map block mem vm s : rtc step (new_over page map block mem vm) s -> well_formed s.
Proof using page_shift shift_range.
  intros H. assert (well_formed (new_over page map block mem vm)) as H0.
  { split; [apply new_over_ok|]. by split. }
  revert H0. induction H as [|x y z Hs _ IH]; [done|]. intros H0. apply IH. by eapply step_keeps.
Qed.

(** *** A map's end *)

(** [s'] differs from [s] by the descriptor pages cached, at most; the page at [i] is [p]. *)
Definition paged (i p : Z) (s s' : State) : Prop :=
  regs s' = regs s /\ unmapped (maps s') = unmapped (maps s) /\ memory s' = memory s /\
  calls s' = calls s /\ slots (queue s') = slots (queue s) /\
  host_only_bytes (queue s') = host_only_bytes (queue s) /\
  table_len (queue s') = table_len (queue s) /\
  descriptors_per_page (queue s') = descriptors_per_page (queue s) /\
  pages (queue s') !! Z.to_nat i = Some (Some p).
Lemma contiguous_memory a n s :
  xwp (new_contiguous_mapping answers allocates a n)
    (fun _ s' => same s s' /\ memory s' = memory s /\ calls s' = calls s)
    (fun _ _ => False) alive s.
Proof.
  unfold xwp, new_contiguous_mapping, mapping_call. destruct (memory_map (maps s)) as [map|]; [|done].
  unfold MemoryMap.new_contiguous_mapping.
  by destruct (MemoryMap.new_range_mapping _ _ _ _ _ _ _) as [[vm r]|k|d].
Qed.
(** A read leaves the whole state be. *)
Lemma read_access a n k k' o s :
  xwp (mapped_access a n k (read_u32 a o k')) (fun _ s' => s' = s) (fun _ _ => False) alive s.
Proof.
  apply access_calm. intros mem r <-. unfold GuestPtr.read_u32, GuestPtr.read_n, GuestPtr.check.
  by case_if.
Qed.
Lemma descriptor_page_spec i s :
  xwp (descriptor_page answers allocates page shift i) (fun p s' => paged i p s s')
    (fun e _ => e <> Success) alive s.
Proof.
  unfold descriptor_page. rewrite xwp_bind, xwp_asks.
  destruct (pages (queue s) !! Z.to_nat i) as [[p|]|] eqn:E; [by split_and!| |done].
  xwp_go. eapply xwp_mono; [| | |apply read_access]; [|done|done]. intros entry s1 ->.
  destruct (negb (valid entry)); [done|]. rewrite xwp_bind.
  eapply xwp_mono; [| | |apply contiguous_memory]; [|done|done].
  intros [m|] s1 ((H1&H2&H3)&H4&H5); [|done]. xwp_go. unfold paged. simpl. rewrite H1, H2, H3.
  split_and!; try done. apply list_lookup_insert_eq. by eapply lookup_lt_Some.
Qed.
Lemma read_descriptor_same p w s :
  xwp (read_descriptor p w) (fun d s' => s' = s /\ typed d) (fun _ _ => False) alive s.
Proof.
  unfold read_descriptor. rewrite xwp_bind, xwp_asks, xwp_bind.
  eapply xwp_mono; [| | |apply (access_calm _ _ _ _ (fun _ s' => s' = s))]; [|done|done|].
  - intros bs s' ->. split; [done|]. destruct (current_form s);
      [apply typed_upgraded|apply typed_descriptor2_of].
  - intros mem r <-. unfold GuestPtr.copy_to, GuestPtr.check. case_if; [done|]. by case_if.
Qed.

(** [make_surface] touches neither guest memory nor anything but the host. *)
Lemma create_memory d slot s : xwp (create page d slot)
  (fun _ s' => memory s' = memory s) (fun _ _ => False) alive s.
Proof. unfold create. by destruct (surface_spec page d slot) as [[spec|] sl]. Qed.
Lemma make_memory d s : typed d ->
  xwp (make_surface page shift d empty_slot) (fun _ s' => memory s' = memory s)
    (fun _ _ => False) alive s.
Proof using page_shift shift_range.
  intros T. unfold make_surface. destruct (negb (valid _)); [done|].
  pose proof (tb_words _ (proj1 T)) as (_&Ha&_).
  destruct (page_count_fits (b2_alloc_size (d2_base d)) Ha) as (_&Hu&_).
  set (count := shr64 _ _) in *. destruct (host_only _).
  - xwp_go. destruct (_ <? _); [done|]. apply create_memory.
  - rewrite xwp_bind. unfold walked. unfold xwp at 1.
    destruct (walk _ _ page shift d count empty_slot) as [[[] slot]|[e slot]|k] eqn:Ew.
    + apply create_memory.
    + done.
    + by eapply walk_Died; [..|exact Ew]; [|lia|].
Qed.

(** A word's change, and where the word may be changed. *)
Definition changeable (at_ : Z) (s : State) : Prop :=
  is_unmapped at_ 4 (maps s) = false /\ GuestPtr.ZERO_REGION_END <= add64 at_ 0 /\
  add64 at_ 0 + 4 < M64.
Definition word_at (at_ : Z) (s : State) : Z :=
  of_le_bytes (GuestPtr.bytes_at (memory s) (add64 at_ 0) 4).
Definition changed (at_ v : Z) (s : State) : State :=
  with_memory (GuestPtr.store_at (memory s) (add64 at_ 0) (le_bytes 4 v)) s.
Lemma check_at at_ k : GuestPtr.ZERO_REGION_END <= add64 at_ 0 -> add64 at_ 0 + 4 < M64 ->
  GuestPtr.check (R := IoReturn) at_ 0 (Z.of_nat 4) (OfSurface k) = Ret (add64 at_ 0).
Proof.
  intros H1 H2. unfold GuestPtr.check. change (Z.of_nat 4) with 4.
  destruct (Z.ltb_spec (add64 at_ 0) GuestPtr.ZERO_REGION_END); [lia|].
  by destruct (Z.leb_spec M64 (add64 at_ 0 + 4)); [lia|].
Qed.
Lemma change_word_spec at_ k f s :
  xwp (change_word at_ k f)
    (fun _ s' => changeable at_ s /\ s' = changed at_ (f (word_at at_ s)) s)
    (fun _ _ => False) (fun d => alive d /\ d = OfSurface k) s.
Proof.
  unfold change_word, mapped_access. rewrite xwp_bind, xwp_asks.
  destruct (is_unmapped at_ 4 (maps s)) eqn:Eu; [done|]. rewrite xwp_bind.
  unfold read_u32, lift, xwp at 1, GuestPtr.read_u32, GuestPtr.read_n.
  destruct (GuestPtr.check (R := IoReturn) at_ 0 (Z.of_nat 4) (OfSurface k)) as [a|e|d] eqn:Ec;
    [|by revert Ec; unfold GuestPtr.check; case_if|revert Ec; unfold GuestPtr.check; case_if; [|done];
      by intros [= <-]].
  rewrite bind_ret_l. pose proof Ec as (->&H1&H2)%GuestPtr.check_Ret.
  unfold write_u32, store. rewrite xwp_bind. unfold lift, xwp at 1, GuestPtr.write_u32, GuestPtr.write_n.
  unfold GuestPtr.stop_if_task_ended. rewrite bind_ret_l, Ec, bind_ret_l. done.
Qed.
Lemma change_word_runs at_ k f s : changeable at_ s ->
  change_word at_ k f s = Ret (tt, changed at_ (f (word_at at_ s)) s).
Proof.
  intros (Hu&H1&H2). unfold change_word, mapped_access. rewrite run_step. unfold asks. rewrite Hu.
  rewrite run_step. unfold read_u32, lift, GuestPtr.read_u32, GuestPtr.read_n.
  rewrite check_at by done. rewrite bind_ret_l. unfold write_u32, store. rewrite run_step.
  unfold lift, GuestPtr.write_u32, GuestPtr.write_n, GuestPtr.stop_if_task_ended.
  rewrite bind_ret_l, check_at by done. done.
Qed.

(** Where the descriptor of [id] lies in the page [p]. *)
Definition descriptor_at (id p : Z) (s : State) : Z :=
  GuestPtr.offset p (mul64 (Num.rem0 id (descriptors_per_page (queue s)))
    (form_size (current_form s))).
(** What a map that succeeds leaves: [id]'s slot [sl] has the surface [sf]. *)
Record mapped (id p : Z) (sl : SurfaceSlot) (sf : Z) (s s' : State) : Prop := {
  mapped_surface : slot_surface sl = Some sf;
  mapped_slots : slots (queue s') = <[Z.to_nat id := sl]> (slots (queue s));
  mapped_page : pages (queue s') !! Z.to_nat (Num.div0 id (descriptors_per_page (queue s)))
    = Some (Some p);
  mapped_index : (table_len (queue s) <=? Num.div0 id (descriptors_per_page (queue s))) = false;
  mapped_regs : regs s' = regs s;
  mapped_table : table_len (queue s') = table_len (queue s);
  mapped_per : descriptors_per_page (queue s') = descriptors_per_page (queue s);
  mapped_bytes : host_only_bytes (queue s') =
    if slot_host_only sl
    then add64 (host_only_bytes (queue s)) (mul64 (slot_page_count sl) page)
    else host_only_bytes (queue s);
  mapped_word : changeable (descriptor_at id p s) s';
  mapped_memory : memory s' = memory (changed (descriptor_at id p s)
    (Z.lor (word_at (descriptor_at id p s) s) MAPPED) s);
}.

Lemma xwp_caught (m : M IoReturn) (Q : IoReturn -> State -> Prop) K s :
  xwp m Q Q K s -> xwp (caught m) Q (fun _ _ => False) K s.
Proof. unfold xwp, caught. by destruct (m s) as [[]|[]|]. Qed.
Lemma map_spec id s : slot_surface (slot_at id s) = None ->
  slots (queue s) !! Z.to_nat id <> None ->
  xwp (map answers allocates page shift id)
    (fun status s' => status = Success -> exists p sl sf, mapped id p sl sf s s')
    (fun _ _ => False) alive s.
Proof using page_shift shift_range.
  intros Hn Hi. unfold map. apply xwp_caught. destruct (refused_id id) eqn:Er; [done|].
  rewrite xwp_bind, xwp_asks, Hn. simpl is_some. cbv iota. rewrite xwp_bind. unfold set_slot at 1.
  rewrite xwp_modify. set (s0 := upd_queue _ s). rewrite xwp_bind, xwp_asks, xwp_bind, xwp_asks.
  cbv zeta. change (descriptors_per_page (queue s0)) with (descriptors_per_page (queue s)).
  change (table_len (queue s0)) with (table_len (queue s)).
  destruct (_ <=? _) eqn:Ei; [done|]. rewrite xwp_bind.
  eapply xwp_mono; [| | |apply descriptor_page_spec]; [|by intros e s1 H1 ?|done].
  intros p s1 H1. rewrite xwp_bind.
  eapply xwp_mono; [| | |apply read_descriptor_same]; [|done|done]. intros d s2 [-> T].
  rewrite xwp_bind. eapply xwp_mono; [| | |apply (xwp_both _ _ _ _ _ _ (make_surface_made d s1 T)
    (make_memory d s1 T))]; [|by intros e s2 []|done].
  intros [status sl] s2 [[H2 Hm] Hmem]. cbv beta iota. rewrite xwp_bind, xwp_asks.
  destruct (bool_decide (status = Success)) eqn:Eb.
  2: { apply bool_decide_eq_false in Eb. simpl. rewrite xwp_bind, xwp_ret, xwp_bind. unfold set_slot.
       by rewrite xwp_modify, xwp_bind, xwp_ret, xwp_ret. }
  unfold made in Hm. simpl in Hm. rewrite Eb in Hm. destruct Hm as (Hs&_&_).
  destruct (slot_surface sl) as [sf|] eqn:Es; [|done].
  destruct H1 as (R1&R2&R3&_&R5&R6&R7&R8&R9), H2 as (Q1&Q2&Q3).
  assert (forall s3, regs s3 = regs s2 -> maps s3 = maps s2 -> memory s3 = memory s2 ->
    slots (queue s3) = slots (queue s2) -> table_len (queue s3) = table_len (queue s2) ->
    descriptors_per_page (queue s3) = descriptors_per_page (queue s2) ->
    pages (queue s3) = pages (queue s2) -> host_only_bytes (queue s3) =
      (if slot_host_only sl then add64 (host_only_bytes (queue s2)) (mul64 (slot_page_count sl) page)
       else host_only_bytes (queue s2)) ->
    xwp (_ ← set_slot id sl;
         _ ← change_word (GuestPtr.offset p (mul64 (Num.rem0 id (descriptors_per_page (queue s)))
             (form_size (current_form s2)))) MappedBitSet (fun word => Z.lor word MAPPED);
         mret status : M IoReturn)
      (fun status s' => status = Success -> exists p sl sf, mapped id p sl sf s s')
      (fun status s' => status = Success -> exists p sl sf, mapped id p sl sf s s') alive s3) as H.
  { intros s3 E1 E2 E3 E4 E5 E6 E7 E8. rewrite xwp_bind. unfold set_slot. rewrite xwp_modify.
    assert (GuestPtr.offset p (mul64 (Num.rem0 id (descriptors_per_page (queue s)))
      (form_size (current_form s2))) = descriptor_at id p s) as ->.
    { unfold descriptor_at, current_form. by rewrite Q1, R1. }
    rewrite xwp_bind. eapply xwp_mono; [| | |apply change_word_spec]; [|done|by intros k []].
    intros [] s4 [Hc ->]. rewrite xwp_ret. intros _. exists p, sl, sf. split; simpl; try done.
    - rewrite E4, Q2, R5. simpl. by rewrite list_insert_insert_eq.
    - by rewrite E7, Q2, R9.
    - by rewrite E1, Q1, R1.
    - by rewrite E5, Q2, R7.
    - by rewrite E6, Q2, R8.
    - by rewrite E8, Q2, R6.
    - unfold word_at. simpl. by rewrite E3, Hmem, R3. }
  simpl andb. destruct (slot_host_only sl); rewrite xwp_bind; by apply H.
Qed.

Lemma guest_same mem s : same s (with_memory mem s).
Proof. done. Qed.
Lemma word_at_u32 at_ s : u32 (word_at at_ s).
Proof. apply of_le_bytes_u32, GuestPtr.length_bytes_at. Qed.
Lemma word_at_changed at_ v s : u32 v -> word_at at_ (changed at_ v s) = v.
Proof.
  intros Hv. pose proof (GuestPtr.bytes_at_store (memory s) (add64 at_ 0) (le_bytes 4 v)) as H.
  rewrite length_le_bytes in H. unfold word_at, changed. cbn [memory with_memory]. rewrite H.
  by apply of_le_bytes_4.
Qed.
Lemma land_mapped w : Z.land (Z.lor w MAPPED) (not32 MAPPED) = Z.land w (not32 MAPPED).
Proof.
  rewrite Z.land_lor_distr_l. replace (Z.land MAPPED (not32 MAPPED)) with 0 by (vm_compute; reflexivity).
  apply Z.lor_0_r.
Qed.
Lemma sub_add64 h x : u64 h -> sub64 (add64 h x) x = h.
Proof.
  intros Hh. unfold sub64, add64, w64. rewrite Zminus_mod_idemp_l, Z.add_simpl_r. by apply Z.mod_small.
Qed.

(** The unmap of a slot whose descriptor's word may be changed. *)
Lemma unmap_runs id slot sf p s : refused_id id = false ->
  slots (queue s) !! Z.to_nat id = Some slot -> slot_surface slot = Some sf ->
  retain_count sf (calls s) = 1 ->
  (table_len (queue s) <=? Num.div0 id (descriptors_per_page (queue s))) = false ->
  pages (queue s) !! Z.to_nat (Num.div0 id (descriptors_per_page (queue s))) = Some (Some p) ->
  changeable (descriptor_at id p s) s ->
  let s1 := with_calls (calls s ++ [ReleaseSurface sf]) (changed (descriptor_at id p s)
    (Z.land (word_at (descriptor_at id p s) s) (not32 MAPPED)) s) in
  unmap page id s = Ret (Success,
    upd_queue (fun q => with_slots (<[Z.to_nat id := cleared_pages (with_surface None slot)]> (slots q)) q)
      (if slot_host_only slot then
         upd_queue (fun q => with_host_only
           (sub64 (host_only_bytes q) (mul64 (slot_page_count slot) page)) q) s1
       else s1)).
Proof.
  intros Hr Hi Es Hc Ht Hp Hw s1. unfold unmap, caught, asks, slot_at. rewrite Hr, run_step, Hi.
  change (default empty_slot (Some slot)) with slot. rewrite Es, run_step, Hc. cbn [negb Z.eqb Pos.eqb].
  repeat (rewrite run_step; cbv beta iota zeta). rewrite Ht, run_step. cbv beta iota. rewrite Hp.
  repeat (rewrite run_step; cbv beta iota zeta).
  change (GuestPtr.offset p _) with (descriptor_at id p s). rewrite change_word_runs by done.
  unfold tell, modify. repeat (rewrite run_step; cbv beta iota zeta). by destruct (slot_host_only slot).
Qed.

(** *** After the teardown *)

(** The mappings torn down end within the address space. *)
Definition unmapped_fit (m : Mappings) : Prop :=
  forall a n, (a, n) ∈ unmapped m -> 0 <= a /\ a + n < M64.
Lemma stale_unmapped m a at_ len : unmapped_fit m -> (a, page) ∈ unmapped m ->
  0 <= len -> a <= at_ -> at_ + len <= a + page -> 0 < len -> is_unmapped at_ len m = true.
Proof.
  intros Hf Hin H0 H1 H2 H3. unfold is_unmapped. apply existsb_exists. exists (a, page).
  split; [by apply list_elem_of_In|]. destruct (Hf a page Hin) as [Ha Hb].
  unfold saturating_add. simpl. apply andb_true_iff. split.
  - apply Z.ltb_lt. case_if; to_props; lia.
  - apply Z.ltb_lt. case_if; to_props; lia.
Qed.
Lemma entry_unmapped m a i n size : unmapped_fit m -> (a, page) ∈ unmapped m ->
  0 < size -> 0 <= i < n -> n = page / size ->
  is_unmapped (GuestPtr.offset a (mul64 i size)) size m = true /\
  (4 <= size -> is_unmapped (GuestPtr.offset a (mul64 i size)) 4 m = true).
Proof using page_shift shift_range.
  intros Hf Hin Hs Hi ->. destruct (Hf a page Hin) as [Ha Hb]. pose proof page_range as Hp.
  pose proof (Z.mul_div_le page size Hs) as Hd.
  assert (0 <= i * size /\ i * size + size <= page) as [H1 H2] by nia.
  unfold GuestPtr.offset. rewrite mul64_small by (rewrite M64_val in *; lia).
  rewrite add64_small by lia. split; [|intros H4]; apply (stale_unmapped m a); done || lia.
Qed.
Lemma access_unmapped {A} a n k (m : M A) Q X (K : sdeath -> Prop) s :
  is_unmapped a n (maps s) = true -> K (OfSurface k) -> xwp (mapped_access a n k m) Q X K s.
Proof. intros H HK. unfold mapped_access. by rewrite xwp_bind, xwp_asks, H. Qed.

(** How a map, and an unmap, of a torn-down device's end the process. *)
Definition faulted (d : sdeath) : Prop :=
  d = OfSurface TableRead \/ d = OfSurface DescriptorRead \/ d = OfSurface MappedBitClear.
(** Neither the guest's memory nor the host was touched. *)
Definition untouched (s s' : State) : Prop := memory s' = memory s /\ calls s' = calls s.

Lemma index_bounds e q m id : device_ok e q m -> refused_id id = false -> 0 <= id ->
  let per := descriptors_per_page q in
  0 < per /\ 0 <= Num.div0 id per < Z.of_nat PAGE_SLOTS /\ 0 <= Num.rem0 id per < per.
Proof using page_shift shift_range.
  intros [] Hr H0 per. pose proof page_range as Hp.
  assert (4 <= per) as H4.
  { unfold per. rewrite ok_per_page0. apply Z.div_le_lower_bound; destruct (form_of e); simpl; lia. }
  split; [lia|]. unfold refused_id, MAPPING_ID_COUNT in Hr. to_props.
  split; [|by apply Num.rem0_lt; lia]. unfold Num.div0. case_if; to_props; [lia|].
  split; [by apply Z.div_pos; lia|].
  assert (Z.of_nat PAGE_SLOTS = 4096) as -> by (vm_compute; reflexivity).
  apply Z.div_lt_upper_bound; lia.
Qed.
Lemma cached_torn s i : ok s -> memory_map (maps s) = None -> 0 <= i < Z.of_nat PAGE_SLOTS ->
  exists p, pages (queue s) !! Z.to_nat i = Some p /\
    forall a, p = Some a -> (a, page) ∈ unmapped (maps s).
Proof.
  intros Ho Hm Hi. destruct (lookup_lt_is_Some_2 (pages (queue s)) (Z.to_nat i)) as [p Hp].
  { rewrite (proj1 (ok_pages _ _ _ Ho)). lia. }
  exists p. split; [done|]. pose proof (ok_cached _ _ _ Ho) as F.
  destruct (Forall2_lookup_l _ _ _ _ _ F Hp) as (x&_&Hx). unfold behind in Hx. rewrite Hm in Hx.
  apply Hx.
Qed.
Lemma table_torn s : ok s -> memory_map (maps s) = None ->
  forall a, table (queue s) = Some a -> (a, page) ∈ unmapped (maps s).
Proof. intros Ho Hm. pose proof (ok_table _ _ _ Ho) as H. unfold behind in H. rewrite Hm in H. apply H. Qed.
(** The null table: the first page of the address space is never mapped. *)
Lemma null_table i n s : 0 <= i < page -> n = 4 ->
  xwp (mapped_access (GuestPtr.offset 0 (mul64 i TABLE_ENTRY_SIZE)) n TableRead
      (read_u32 (GuestPtr.offset 0 (mul64 i TABLE_ENTRY_SIZE)) 0 TableRead))
    (fun _ _ => False) (fun _ _ => False) faulted s.
Proof using page_shift shift_range.
  intros Hi ->. pose proof page_range as Hp. unfold mapped_access. rewrite xwp_bind, xwp_asks.
  destruct (is_unmapped _ _ _); [by left|]. unfold xwp, read_u32, lift, GuestPtr.read_u32, GuestPtr.read_n.
  unfold GuestPtr.check, GuestPtr.offset, TABLE_ENTRY_SIZE.
  rewrite mul64_small by (rewrite M64_val; lia). rewrite (add64_small 0), Z.add_0_l by (rewrite M64_val; lia).
  rewrite add64_small, Z.add_0_r by (rewrite M64_val; lia).
  rewrite (proj2 (Z.ltb_lt _ _)) by (unfold GuestPtr.ZERO_REGION_END; lia). by left.
Qed.

Lemma descriptor_page_torn i s : ok s -> memory_map (maps s) = None -> unmapped_fit (maps s) ->
  0 <= i < Z.of_nat PAGE_SLOTS -> i < table_len (queue s) ->
  xwp (descriptor_page answers allocates page shift i)
    (fun p s' => s' = s /\ (p, page) ∈ unmapped (maps s)) (fun _ _ => False) faulted s.
Proof using page_shift shift_range.
  intros Ho Hm Hf Hi Ht. unfold descriptor_page. rewrite xwp_bind, xwp_asks.
  destruct (cached_torn s i Ho Hm Hi) as (p&Hp&Ha). rewrite Hp.
  destruct p as [p|]; [split; [done|by apply Ha]|].
  rewrite xwp_bind, xwp_asks. cbv zeta. rewrite xwp_bind. pose proof page_range as Hr.
  rewrite (ok_table_len _ _ _ Ho) in Ht.
  destruct (table (queue s)) as [a|] eqn:Et; simpl.
  - apply access_unmapped; [|by left].
    apply (entry_unmapped (maps s) a i (page / TABLE_ENTRY_SIZE)); try done; try lia.
    by apply (table_torn s).
  - eapply xwp_mono; [| | |apply (null_table i 4 s)]; [done|done|done| |done].
    unfold TABLE_ENTRY_SIZE in Ht. pose proof (Z.mul_div_le page 4). lia.
Qed.
Lemma map_torn id s : ok s -> memory_map (maps s) = None -> unmapped_fit (maps s) -> 0 <= id ->
  slot_surface (slot_at id s) = None ->
  xwp (map answers allocates page shift id)
    (fun status s' => status = BadArgument /\ untouched s s') (fun _ _ => False) faulted s.
Proof using page_shift shift_range.
  intros Ho Hm Hf H0 Hn. unfold map. apply xwp_caught. destruct (refused_id id) eqn:Er; [done|].
  rewrite xwp_bind, xwp_asks, Hn. simpl is_some. cbv iota. rewrite xwp_bind. unfold set_slot at 1.
  rewrite xwp_modify. pose proof (put_empty s id Ho Hn (slot_there _ _ _ id Ho Er H0)) as [Ho1 _].
  set (s1 := upd_queue _ s) in *.
  rewrite xwp_bind, xwp_asks, xwp_bind, xwp_asks. cbv zeta.
  destruct (index_bounds _ _ _ id Ho1 Er H0) as (Hper&Hidx&Hrem).
  destruct (_ <=? _) eqn:El; [done|]. to_props. rewrite xwp_bind.
  eapply xwp_mono; [| | |apply (descriptor_page_torn _ s1 Ho1)]; [|done|done|done..].
  intros p s2 [-> Hp]. rewrite xwp_bind. unfold read_descriptor at 1. rewrite xwp_bind, xwp_asks.
  cbv zeta. rewrite xwp_bind. apply access_unmapped; [|by right; left].
  apply (entry_unmapped (maps s1) p _ (descriptors_per_page (queue s1))); try done.
  - by destruct (current_form s1).
  - apply (ok_per_page _ _ _ Ho1).
Qed.
Lemma unmap_torn id s : ok s -> memory_map (maps s) = None -> unmapped_fit (maps s) -> 0 <= id ->
  xwp (unmap page id)
    (fun status s' => (status = Success -> slot_surface (slot_at id s) = None) /\ s' = s)
    (fun _ _ => False) faulted s.
Proof using page_shift shift_range.
  intros Ho Hm Hf H0. unfold unmap. apply xwp_caught. destruct (refused_id id) eqn:Er; [done|].
  rewrite xwp_bind, xwp_asks. destruct (slot_surface (slot_at id s)) as [sf|]; [|done].
  rewrite xwp_bind, xwp_asks. destruct (negb _); [done|].
  rewrite xwp_bind, xwp_asks, xwp_bind, xwp_asks. destruct (_ <=? _); [done|].
  rewrite xwp_bind, xwp_asks. destruct (index_bounds _ _ _ id Ho Er H0) as (Hper&Hidx&Hrem).
  destruct (cached_torn s _ Ho Hm Hidx) as (p&Hp&Ha). rewrite Hp. destruct p as [p|]; [|done].
  rewrite xwp_bind, xwp_asks. cbv zeta. rewrite xwp_bind. unfold change_word.
  apply access_unmapped; [|by right; right].
  apply (entry_unmapped (maps s) p _ (descriptors_per_page (queue s))); try done.
  - by apply Ha.
  - by destruct (current_form s).
  - apply (ok_per_page _ _ _ Ho).
  - by destruct (current_form s).
Qed.

(** ** The properties *)

(** C21: every reachable state of the device is well formed: 8192 slots, each with the pages it
    counts; the host-only bytes their total modulo 2^64; the divisors of the current form; each
    cached page and the table backed by its mapping, or after the teardown a pointer into what
    was unmapped; the counters 64-bit. *)
Theorem surfaces_well_formed map block mem vm s :
  rtc step (new_over page map block mem vm) s -> well_formed s.
Proof using page_shift shift_range. apply reached. Qed.

(** C23: while the platform refuses surfaces of 2^63 bytes or more, no sequence of the guest's
    makes the device hold more than its limit of host-only memory, and the bytes it counts are
    the bytes its slots hold. *)
Theorem host_only_bounded map block mem vm s : creates_bounded ->
  rtc step (new_over page map block mem vm) s ->
  host_only_bytes (queue s) = total page (slots (queue s)) /\
  0 <= total page (slots (queue s)) <= HOST_ONLY_LIMIT.
Proof using page_shift shift_range.
  intros B H. destruct (reached _ _ _ _ _ H) as [Ho _]. split; [by apply (bytes_exact _ _ _ Ho)|].
  split; [apply (bytes_nonneg _ (proj2 (ok_slots _ _ _ Ho)))|by apply (ok_limit _ _ _ Ho)].
Qed.

(** C20: a doorbell over a ring and a table runs the ring to its end: unless the process dies of
    an access or of the host's block, it returns, no status left over, with the read counter at
    the write counter (or where it was, past it) and one interrupt for each command run. *)
Theorem ring_runs map block mem vm s :
  rtc step (new_over page map block mem vm) s ->
  ring_base (regs s) <> 0 -> ring_size (regs s) <> 0 ->
  is_Some (ring (queue s)) -> is_Some (table (queue s)) ->
  xwp (run_ring answers allocates page shift)
    (fun _ s' =>
       regs s' = with_rd_counter (Z.max (ring_rd_counter (regs s)) (ring_wr_counter (regs s)))
         (regs s) /\
       raised (calls s') = (raised (calls s)
         + Z.to_nat (ring_wr_counter (regs s) - ring_rd_counter (regs s)))%nat)
    (fun _ _ => False) (fun d => d <> OutOfFuel) s.
Proof using page_shift shift_range.
  intros H Hb Hs [r Hr] [t Ht]. destruct (reached _ _ _ _ _ H) as [Ho Hc].
  eapply xwp_mono; [| | |apply (run_ring_spec s Ho Hc)]; [|done|done].
  intros _ s' [_ Hs']. rewrite (proj2 (Z.eqb_neq _ _) Hb), (proj2 (Z.eqb_neq _ _) Hs), Hr, Ht in Hs'.
  injection Hs' as Er _ En. by split.
Qed.

(** The descriptor of [id] in its page at [p]: descriptors of the current form's size, a page
    full of them to a page. *)
Lemma descriptor_address id p s : ok s -> refused_id id = false -> 0 <= id ->
  let size := form_size (form_of (desc_enable (regs s))) in
  let per := page / size in
  Num.div0 id (descriptors_per_page (queue s)) = id / per /\
  descriptor_at id p s = w64 (p + id mod per * size).
Proof using page_shift shift_range.
  intros Ho Hr H0 size per. destruct (index_bounds _ _ _ id Ho Hr H0) as (Hper&_&_).
  rewrite (ok_per_page _ _ _ Ho) in Hper. fold size per in Hper.
  unfold descriptor_at, GuestPtr.offset, Num.div0, Num.rem0, current_form.
  rewrite (ok_per_page _ _ _ Ho). fold size per.
  rewrite (proj2 (Z.eqb_neq _ _)) by lia. split; [done|].
  unfold add64. rewrite mul64_small; [done|].
  pose proof page_range. pose proof M64_val. pose proof (Z.mod_pos_bound id per Hper).
  assert (0 < size) by (unfold size; by destruct (form_of _)).
  assert (per * size <= page) by (unfold per; rewrite Z.mul_comm; apply Z.mul_div_le; lia). nia.
Qed.

(** C22: a map that makes a surface is undone by the unmap that finds it otherwise unreferenced.
    The map sets the mapped bit of the first word of the id's own descriptor, which lies at its
    index in the page its id falls in, pages being filled with descriptors of the current form's
    size. After the unmap the slot is empty again, the host-only bytes are what they were, the
    host was asked to release that surface, and the word is the guest's but for that bit; the
    rest of guest memory and the other slots are as they were. *)
Theorem map_then_unmap id s s1 : well_formed s -> 0 <= id ->
  slot_surface (slot_at id s) = None ->
  map answers allocates page shift id s = Ret (Success, s1) ->
  let size := form_size (form_of (desc_enable (regs s))) in
  let per := page / size in
  exists surface p, slot_surface (slot_at id s1) = Some surface /\
    pages (queue s1) !! Z.to_nat (id / per) = Some (Some p) /\
    let at_ := w64 (p + id mod per * size) in
    word_at at_ s1 = Z.lor (word_at at_ s) MAPPED /\
    (retain_count surface (calls s1) = 1 -> exists s2,
       unmap page id s1 = Ret (Success, s2) /\
       slot_surface (slot_at id s2) = None /\
       (forall i, i <> Z.to_nat id -> slots (queue s2) !! i = slots (queue s) !! i) /\
       host_only_bytes (queue s2) = host_only_bytes (queue s) /\
       calls s2 = calls s1 ++ [ReleaseSurface surface] /\
       word_at at_ s2 = Z.land (word_at at_ s) (not32 MAPPED) /\
       (forall x, x < at_ \/ at_ + 4 <= x -> memory s2 x = memory s x)).
Proof using page_shift shift_range.
  intros [Ho _] H0 Hn Hmap.
  assert (refused_id id = false) as Hr.
  { destruct (refused_id id) eqn:Er; [|done]. revert Hmap. unfold map, caught. by rewrite Er. }
  destruct (slot_there _ _ _ id Ho Hr H0) as [old Hi].
  assert (slots (queue s) !! Z.to_nat id <> None) as Hi' by by rewrite Hi.
  destruct (xwp_Ret _ _ _ _ _ _ _ (map_spec id s Hn Hi') Hmap eq_refl) as (p&sl&sf&[]).
  assert (slots (queue s1) !! Z.to_nat id = Some sl) as Hi1.
  { rewrite mapped_slots0. apply list_lookup_insert_eq. by eapply lookup_lt_Some. }
  assert (descriptor_at id p s1 = descriptor_at id p s) as Hat.
  { unfold descriptor_at, current_form. by rewrite mapped_per0, mapped_regs0. }
  intros size per. destruct (descriptor_address id p s Ho Hr H0) as [Hdiv Hadr].
  fold size per in Hdiv, Hadr.
  exists sf, p. unfold slot_at. rewrite Hi1. split; [done|]. split; [by rewrite <- Hdiv|].
  cbv zeta. rewrite <- Hadr.
  rewrite <- Hat in mapped_word0.
  set (a := descriptor_at id p s) in *. pose proof (word_at_u32 a s) as Hw.
  assert (u32 (Z.lor (word_at a s) MAPPED)) as Hor by by apply lor_u32.
  assert (word_at a s1 = Z.lor (word_at a s) MAPPED) as Hw1.
  { unfold word_at at 1. rewrite mapped_memory0. by apply word_at_changed. }
  split; [exact Hw1|]. intros Hc. eexists. split.
  { apply (unmap_runs id sl sf p); try done; by rewrite mapped_per0, ?mapped_table0. }
  rewrite Hat, Hw1, land_mapped.
  assert (add64 a 0 = a) as Ha0.
  { rewrite add64_small by (rewrite Z.add_0_r; unfold a, descriptor_at, GuestPtr.offset; apply add64_range).
    lia. }
  assert (u64 (host_only_bytes (queue s))) as Hh
    by (rewrite (ok_bytes _ _ _ Ho); apply w64_range).
  assert (slots (queue s1) = <[Z.to_nat id := sl]> (slots (queue s))) as Hsl by done.
  assert (forall s2, memory s2 = memory (changed a (Z.land (word_at a s) (not32 MAPPED)) s1) ->
    word_at a s2 = Z.land (word_at a s) (not32 MAPPED) /\
    (forall x, x < a \/ a + 4 <= x -> memory s2 x = memory s x)) as Hmem.
  { intros s2 E. split.
    - unfold word_at at 1. rewrite E. apply word_at_changed. by apply land_u32.
    - intros x Hx. rewrite E. unfold changed. cbn [memory with_memory]. rewrite <- Ha0 in Hx.
      rewrite GuestPtr.store_at_out by (rewrite length_le_bytes; lia).
      rewrite mapped_memory0. unfold changed. cbn [memory with_memory].
      by rewrite GuestPtr.store_at_out by (rewrite length_le_bytes; lia). }
  destruct (slot_host_only sl); simpl; rewrite Hsl, list_insert_insert_eq, list_lookup_insert_eq
    by (by eapply lookup_lt_Some); (split; [done|]);
    (split; [intros i Hne; by rewrite list_lookup_insert_ne by congruence|]); rewrite mapped_bytes0.
  - split; [by apply sub_add64|]. split; [done|]. by apply Hmem.
  - split; [done|]. split; [done|]. by apply Hmem.
Qed.

(** Once the device is torn down, a map of an empty slot answers that the id is bad, or ends
    the process at the table or at the descriptor, and an unmap ends it there or leaves
    everything be: neither reads or writes guest memory through what was unmapped, and no
    surface is made or released. *)
Theorem torn_down_faults map_ block mem vm s0 s id :
  rtc step (new_over page map_ block mem vm) s0 -> tear_down s0 = Ret (tt, s) ->
  unmapped_fit (maps s) -> 0 <= id ->
  (slot_surface (slot_at id s) = None ->
   xwp (map answers allocates page shift id)
     (fun status s' => status = BadArgument /\ untouched s s') (fun _ _ => False) faulted s) /\
  xwp (unmap page id)
    (fun status s' => (status = Success -> slot_surface (slot_at id s) = None) /\ s' = s)
    (fun _ _ => False) faulted s.
Proof using page_shift shift_range.
  intros H Ht Hf H0. destruct (reached _ _ _ _ _ H) as [Ho _].
  destruct (xwp_Ret _ _ _ _ _ _ _ (tear_down_spec s0 Ho) Ht) as (Ho'&_&Hm).
  split; [intros Hn; by apply map_torn|by apply unmap_torn].
Qed.
End Facts.

(** ** A device with one host-only surface *)

#[local] Instance sample_host : Surfaces := {
  create_surface spec cs :=
    if alloc_size spec <? 2 ^ 63 then Some (Z.of_nat (length cs)) else None;
  retain_count _ _ := 1;
  surface_size _ _ := 16;
  surface_base _ _ := 0x600000000;
  block_alive _ := true;
  debug_enabled := true;
}.
#[local] Instance sample_target : GuestRecords.Target := GuestRecords.AArch64.
Definition sample_answers (_ : list MemoryMap.VmCall) (_ : MemoryMap.VmCall) : bool := true.
(** Each allocation at an address of its own. *)
Definition sample_allocates (calls : list MemoryMap.VmCall) (_ : Z) : option Z :=
  Some (0x500000000 + 0x100000 * Z.of_nat (length calls)).
(** The table's page at 0x500000000: entry 0 names a page. The ring's, then that page's. *)
Definition sample_memory : GuestPtr.memory :=
  GuestPtr.store_at (GuestPtr.store_at (GuestPtr.store_at (GuestPtr.store_at (fun _ => x00)
    0x500000000 (le_bytes 4 5))
    0x500300000 (le_bytes 4 1 ++ le_bytes 4 1 ++ le_bytes 8 0 ++ le_bytes 4 2 ++ le_bytes 4 1))
    (0x500600000 + 0x400) (le_bytes 4 1))
    (0x500600000 + 0x418) (le_bytes 8 0x5000 ++ replicate 33 x00 ++ [x02]).
Definition sample_fresh : State :=
  new_over 0x4000 SurfaceWalk.sample_map true sample_memory [].
Fixpoint sample_run (ops : list (Z * Z)) (s : State) : option State :=
  match ops with
  | [] => Some s
  | (off, v) :: ops =>
      if (0 <=? v) && (v <? M64) then
        match mmio_write sample_answers sample_allocates 0x4000 off v s with
        | Ret (_, s) => sample_run ops s
        | _ => None
        end
      else None
  end.
(** The second form, the table, the ring and two commands: a map of 1 and its unmap. *)
Definition sample_ops : list (Z * Z) :=
  [(REG_DESC_ENABLE, 1); (REG_DESCRIPTOR_BASE, 0x8000); (REG_RING_BASE, 0x10000);
   (REG_RING_SIZE, 0x400); (REG_RING_WR_COUNTER, 2)].
Definition sample_ready : State := default sample_fresh (sample_run sample_ops sample_fresh).
Definition sample_turned : option State :=
  match turn sample_answers sample_allocates 0x4000 14 sample_ready with
  | Ret (_, s) => Some s
  | _ => None
  end.
Definition sample_mapped : State := default sample_ready sample_turned.
Definition sample_torn : State :=
  match tear_down sample_ready with Ret (_, s) => s | _ => sample_ready end.
Local Abbreviation sample_step := (step sample_answers sample_allocates 0x4000 14).

Lemma sample_run_reaches ops : forall s s', sample_run ops s = Some s' -> rtc sample_step s s'.
Proof.
  induction ops as [|[off v] ops IH]; intros s s'; simpl; [by intros [= ->]|].
  destruct (_ && _) eqn:E; [|done]. apply andb_true_iff in E as [E1 E2]. to_props.
  destruct (mmio_write _ _ _ off v s) as [[[] s1]| |] eqn:Em; [|done..]. intros H.
  eapply rtc_l; [by eapply (StepWrite _ _ _ _ off v)|by apply IH].
Qed.
(** What a computation that returns returns. *)
Definition returns (A : Type) (r : outcome (IoReturn * State) sdeath A) : bool :=
  match r with Ret _ => true | _ => false end.
Lemma sample_ops_run : is_some (sample_run sample_ops sample_fresh) = true.
Proof. vm_compute. reflexivity. Qed.
Lemma sample_ready_reached : rtc sample_step sample_fresh sample_ready.
Proof.
  apply (sample_run_reaches sample_ops). unfold sample_ready. pose proof sample_ops_run as H.
  revert H. generalize (sample_run sample_ops sample_fresh). by intros [].
Qed.
Lemma sample_turn_returns :
  returns _ (turn sample_answers sample_allocates 0x4000 14 sample_ready) = true.
Proof. vm_compute. reflexivity. Qed.
Lemma sample_turned_is : turn sample_answers sample_allocates 0x4000 14 sample_ready
  = Ret (tt, sample_mapped).
Proof.
  pose proof sample_turn_returns as H. unfold sample_mapped, sample_turned. revert H.
  generalize (turn sample_answers sample_allocates 0x4000 14 sample_ready). by intros [[[] s]| |].
Qed.
Lemma sample_mapped_reached : rtc sample_step sample_fresh sample_mapped.
Proof.
  eapply rtc_r; [apply sample_ready_reached|]. apply StepTurn; [by vm_compute|apply sample_turned_is].
Qed.
Lemma sample_torn_returns : returns _ (tear_down sample_ready) = true.
Proof. vm_compute. reflexivity. Qed.
Lemma sample_torn_is : tear_down sample_ready = Ret (tt, sample_torn).
Proof.
  pose proof sample_torn_returns as H. unfold sample_torn. revert H. generalize (tear_down sample_ready).
  by intros [[[] s]| |].
Qed.
Definition succeeds (r : outcome (IoReturn * State) sdeath (IoReturn * State)) : bool :=
  match r with Ret (Success, _) => true | _ => false end.
Lemma sample_map_succeeds :
  succeeds (map sample_answers sample_allocates 0x4000 14 1 sample_ready) = true.
Proof. vm_compute. reflexivity. Qed.
Lemma sample_map_is : exists s1,
  map sample_answers sample_allocates 0x4000 14 1 sample_ready = Ret (Success, s1).
Proof.
  pose proof sample_map_succeeds as H. revert H.
  generalize (map sample_answers sample_allocates 0x4000 14 1 sample_ready).
  intros [[[] s]| |]; try done. by exists s.
Qed.
Lemma sample_bounded : creates_bounded.
Proof. intros spec cs sf. simpl. case_if; [|done]. intros _. by to_props. Qed.

Lemma surfaces_well_formed_witness : well_formed 0x4000 sample_mapped.
Proof.
  exact (surfaces_well_formed sample_answers sample_allocates 0x4000 14 eq_refl ltac:(lia)
    SurfaceWalk.sample_map true sample_memory [] _ sample_mapped_reached).
Defined.
Lemma host_only_bounded_witness :
  host_only_bytes (queue sample_mapped) = 0x8000 /\
  total 0x4000 (slots (queue sample_mapped)) = 0x8000 /\
  0 <= total 0x4000 (slots (queue sample_mapped)) <= HOST_ONLY_LIMIT.
Proof.
  destruct (host_only_bounded sample_answers sample_allocates 0x4000 14 eq_refl ltac:(lia)
    SurfaceWalk.sample_map true sample_memory [] _ sample_bounded sample_mapped_reached) as [E H].
  assert (host_only_bytes (queue sample_mapped) = 0x8000) as Hb by (vm_compute; reflexivity).
  split; [exact Hb|]. split; [by rewrite <- E|exact H].
Defined.
Lemma ring_runs_witness :
  xwp (run_ring sample_answers sample_allocates 0x4000 14)
    (fun _ s' => regs s' = with_rd_counter 2 (regs sample_ready) /\ raised (calls s') = 2%nat)
    (fun _ _ => False) (fun d => d <> OutOfFuel) sample_ready.
Proof.
  assert (ring_rd_counter (regs sample_ready) = 0 /\ ring_wr_counter (regs sample_ready) = 2 /\
    raised (calls sample_ready) = 0%nat) as (E1&E2&E3) by (split_and!; vm_compute; reflexivity).
  pose proof (ring_runs sample_answers sample_allocates 0x4000 14 eq_refl ltac:(lia)
    SurfaceWalk.sample_map true sample_memory [] _ sample_ready_reached ltac:(by vm_compute) ltac:(by vm_compute)
    ltac:(eexists; vm_compute; reflexivity) ltac:(eexists; vm_compute; reflexivity)) as H.
  rewrite E1, E2, E3 in H. exact H.
Defined.
Lemma map_then_unmap_witness : exists s1 surface,
  map sample_answers sample_allocates 0x4000 14 1 sample_ready = Ret (Success, s1) /\
  exists s2, unmap 0x4000 1 s1 = Ret (Success, s2) /\
    host_only_bytes (queue s2) = host_only_bytes (queue sample_ready) /\
    calls s2 = calls s1 ++ [ReleaseSurface surface].
Proof.
  destruct sample_map_is as [s1 Hm].
  destruct (map_then_unmap sample_answers sample_allocates 0x4000 14 eq_refl ltac:(lia)
    1 sample_ready s1 (reached sample_answers sample_allocates 0x4000 14 eq_refl ltac:(lia)
      SurfaceWalk.sample_map true sample_memory [] _ sample_ready_reached) ltac:(lia) ltac:(by vm_compute) Hm) as (sf&p&_&_&_&H).
  destruct (H eq_refl) as (s2&Hu&_&_&Hb&Hc&_). exists s1, sf. split; [exact Hm|].
  exists s2. split; [exact Hu|]. by split.
Defined.
Lemma sample_torn_unmapped :
  unmapped (maps sample_torn) = [(0x500300000, 0x4000); (0x500000000, 0x4000)].
Proof. vm_compute. reflexivity. Qed.
Lemma sample_torn_fits : unmapped_fit (maps sample_torn).
Proof.
  unfold unmapped_fit. rewrite sample_torn_unmapped.
  intros a n [[= -> ->]|[[= -> ->]|[]%elem_of_nil]%elem_of_cons]%elem_of_cons; by vm_compute.
Qed.
Lemma sample_torn_empty : slot_surface (slot_at 1 sample_torn) = None.
Proof. vm_compute. reflexivity. Qed.
Lemma torn_down_faults_witness :
  tear_down sample_ready = Ret (tt, sample_torn) /\
  unmapped (maps sample_torn) = [(0x500300000, 0x4000); (0x500000000, 0x4000)] /\
  xwp (map sample_answers sample_allocates 0x4000 14 1)
    (fun status s' => status = BadArgument /\ untouched sample_torn s') (fun _ _ => False) faulted
    sample_torn.
Proof.
  split; [exact sample_torn_is|]. split; [exact sample_torn_unmapped|].
  exact (proj1 (torn_down_faults sample_answers sample_allocates 0x4000 14 eq_refl ltac:(lia)
    SurfaceWalk.sample_map true sample_memory [] sample_ready sample_torn 1 sample_ready_reached
    sample_torn_is sample_torn_fits ltac:(lia)) sample_torn_empty).
Defined.
End SurfaceFacts.
