(* ===== verification/DeviceInfo.v ===== *)
(** * DeviceInfo: the device info a guest and its host exchange
    (src/crates/reims-vgpu-core/src/guest/abi/device_info.rs, platform/caps.rs)

    The writer of the host's pairs, in their fixed order under the guest's bounds; the reader of
    a list; the check of a guest's list against the host's; and a guest's request. What the
    device answered of itself is a record read once ([DeviceCaps]): an answer that raised is
    kept as the raise, and raises again where the writer asks it. Log lines are not modelled. *)

From S2P Require Import Prelude Num MemoryKinds GuestRecords SuspendBlob Features.
From stdpp Require Import gmap.
Open Scope Z_scope.

Module DeviceInfo.
Import SuspendBlob.

Definition MTL_GPU_FAMILY_APPLE5 : Z := 1005.
Definition MTL_GPU_FAMILY_APPLE6 : Z := 1006.
Definition MTL_GPU_FAMILY_APPLE7 : Z := 1007.
Definition MTL_GPU_FAMILY_APPLE8 : Z := 1008.
Definition MTL_GPU_FAMILY_APPLE9 : Z := 1009.
Definition DESERIALIZER_VERSION : Z := 8.
Definition SAMPLE_COUNTS : list Z := [1; 2; 4; 8].
Definition HOST_INFO_PAIRS : Z := 46.
Definition HOST_INFO_MAX_KEY : Z := 45.
Definition KEY_SLOTS : nat := 45.

(** ** What the device answered: the answers read once *)

Record Limits := MkLimits {
  device_linear_texture_alignment_bytes : Z;
  iosurface_read_only_texture_alignment_bytes : Z;
  iosurface_texture_alignment_bytes : Z;
  linear_texture_alignment_bytes : Z;
  max_compute_buffers : Z;
  max_compute_local_memory_sizes : Z;
  max_compute_samplers : Z;
  max_compute_textures : Z;
  max_compute_threadgroup_memory : Z;
  max_compute_threadgroup_memory_alignment_bytes : Z;
  max_fragment_buffers : Z;
  max_fragment_samplers : Z;
  max_fragment_textures : Z;
  max_predicated_nesting_depth : Z;
  max_rasterization_rate_layer_count : Z;
  max_texture_height_2d : Z;
  max_texture_layers : Z;
  max_texture_width_2d : Z;
  max_threadgroup_memory_length : Z;
  max_tile_buffers : Z;
  max_tile_samplers : Z;
  max_tile_textures : Z;
  max_total_compute_threads_per_threadgroup : Z;
  max_vertex_buffers : Z;
  max_vertex_samplers : Z;
  max_vertex_textures : Z;
  max_viewport_count : Z;
}.
Record Flags := MkFlags {
  are_raster_order_groups_supported : bool;
  is_depth24_stencil8_pixel_format_supported : bool;
  is_framebuffer_read_supported : bool;
  is_large_mrt_supported : bool;
  is_rgb10a2_gamma_supported : bool;
  supports_buffer_with_address_ranges : bool;
  flag_buffer_with_iosurface : bool;
  flag_command_buffer_jump : bool;
  supports_compute_compressed_texture_write : bool;
  supports_conditional_load_store : bool;
  flag_dynamic_attribute_stride : bool;
  supports_extended_xr10_formats : bool;
  supports_float16_bcubic_filtering : bool;
  supports_heap_with_address_ranges : bool;
  supports_image_blocks : bool;
  supports_memory_order_atomics : bool;
  supports_native_hardware_fp16 : bool;
  supports_non_square_tile_shaders : bool;
  flag_programmable_sample_positions : bool;
  supports_resource_detach_backing : bool;
  supports_shared_texture_handles : bool;
  supports_simd_reduction : bool;
  supports_simd_shuffle_and_fill : bool;
  supports_texture_2d_multisample_array : bool;
  supports_tile_shaders : bool;
}.
(** A query's answer, or the raise it was kept as. *)
Definition kept (E A : Type) : Type := (E + A)%type.
Record DeviceCaps (E : Type) := MkCaps {
  gpu_core_count : option Z;
  max_threads_per_threadgroup : Z * Z * Z;
  max_vertex_amplification_count : Z;
  limits : Limits;
  flags : Flags;
  sample_counts : list (kept E bool);
  primitive_types : list (kept E bool);
  (** Apple 5 to Apple 10, then -1009. *)
  families : list (kept E bool);
  write_rounding_modes : list (kept E bool);
  (** The alignment of the size and alignment asked. *)
  heap_buffer_page_private : kept E Z;
}.
Arguments MkCaps {E}. Arguments gpu_core_count {E}. Arguments max_threads_per_threadgroup {E}.
Arguments max_vertex_amplification_count {E}. Arguments limits {E}. Arguments flags {E}.
Arguments sample_counts {E}. Arguments primitive_types {E}. Arguments families {E}.
Arguments write_rounding_modes {E}. Arguments heap_buffer_page_private {E}.

Record DeviceInfoSnapshot := MkSnapshot {
  features : GuestRecords.GuestFeatures;
  device_feature_level : Z;
  supports_argument_buffers : bool;
  guest_device_info_max_key : Z;
  supports_buffer_with_iosurface : bool;
  snapshot_shared_textures : bool;
  supports_large_user_tasks : bool;
  supports_large_kernel_tasks : bool;
  supports_range_buffer : bool;
  supports_shared_memory_heap : bool;
}.

Definition feature_level_above (feature_level level : Z) : bool :=
  (feature_level =? 0) || (level <? feature_level).

(** ** The writer *)

(** How it ends the process: an unread key, or a raise with no handler. *)
Inductive death (E : Type) : Type := Unread (k : Features.GuestDeath) | Thrown (e : E).
Arguments Unread {E}. Arguments Thrown {E}.

Section Writer.
Context {E : Type} (on : Memory.OnFault) (caps : DeviceCaps E) (snapshot : DeviceInfoSnapshot).
Context (max_key max_count : Z).
(** The pairs written so far, in order. *)
Local Abbreviation M := (Run (list KeyValuePair) E (death E)).

Definition asked {A} (k : kept E A) : M A :=
  match k with
  | inr v => mret v
  | inl e => match on with Memory.Die => die (Thrown e) | Memory.Return => raise e end
  end.
Definition fits (key : Z) (w : list KeyValuePair) : bool :=
  (key <? max_key) && (Z.of_nat (length w) <? max_count).
(** The value is computed only where the pair fits. *)
Definition put (key : Z) (value : M Z) : M unit :=
  room ← asks (fits key);
  if room : bool then
    v ← value;
    modify (fun w => w ++ [MkKeyValuePair key v])
  else mret tt.
Definition put_ (key value : Z) : M unit := put key (mret value).
Definition when (b : bool) (m : M unit) : M unit := if b then m else mret tt.

(** The largest count answered yes, every count asked. *)
Fixpoint ask_counts (l : list (Z * kept E bool)) (best : Z) : M Z :=
  match l with
  | [] => mret best
  | (count, k) :: l => yes ← asked k; ask_counts l (if yes : bool then Num.low_u32 count else best)
  end.
(** The bits of the answers, from bit [t]. *)
Fixpoint ask_bits (l : list (kept E bool)) (t bits : Z) : M Z :=
  match l with
  | [] => mret bits
  | k :: l => yes ← asked k; ask_bits l (t + 1) (if yes : bool then Z.lor bits (shl32 1 t) else bits)
  end.
(** The first family answered yes. *)
Fixpoint ask_family (l : list (Z * kept E bool)) : M Z :=
  match l with
  | [] => mret MTL_GPU_FAMILY_APPLE5
  | (family, k) :: l => yes ← asked k; if yes : bool then mret family else ask_family l
  end.
(** The bits of the families answered yes, every family asked. *)
Fixpoint ask_families (l : list (kept E bool * Z)) (bits : Z) : M Z :=
  match l with
  | [] => mret bits
  | (k, bit) :: l => yes ← asked k; ask_families l (if yes : bool then Z.lor bits bit else bits)
  end.
(** The answer of the query at position [i] of those asked. *)
Definition nth_kept (l : list (kept E bool)) (i : nat) : kept E bool := default (inr false) (l !! i).
Definition bit (b : bool) (v : Z) : Z := if b then v else 0.

Definition write_device_info : M unit :=
  let f := features snapshot in
  let li := limits caps in
  let fl := flags caps in
  let level1 := feature_level_above (device_feature_level snapshot) 1 in
  let level2 := feature_level_above (device_feature_level snapshot) 2 in
  let level3 := feature_level_above (device_feature_level snapshot) 3 in
  let family i := nth_kept (families caps) i in
  let '(width, height, depth) := max_threads_per_threadgroup caps in
  sample_count ← ask_counts (zip SAMPLE_COUNTS (sample_counts caps)) 1;
  _ ← put_ 1 sample_count;
  _ ← put_ 2 (Z.b2z (is_depth24_stencil8_pixel_format_supported fl));
  _ ← put_ 3 (Num.low_u32 width);
  _ ← put_ 4 (Num.low_u32 height);
  _ ← put_ 5 (Num.low_u32 depth);
  _ ← put_ 6 (Num.low_u32 (max_threadgroup_memory_length li));
  _ ← put_ 7 (Z.b2z (is_framebuffer_read_supported fl));
  _ ← put_ 8 (Z.b2z (is_rgb10a2_gamma_supported fl));
  _ ← put_ 9 (Z.b2z (supports_native_hardware_fp16 fl));
  _ ← put_ 10 DESERIALIZER_VERSION;
  _ ← put 11 (ask_bits (primitive_types caps) 0 0);
  _ ← put_ 12 (Z.b2z (GuestRecords.dual_plane_textures f));
  _ ← put_ 13 (Num.low_u32 (linear_texture_alignment_bytes li));
  _ ← when (GuestRecords.metal_heaps f) (
    _ ← put_ 14 1;
    align ← asked (heap_buffer_page_private caps);
    _ ← put_ 15 (Num.low_u32 align);
    put_ 16 1);
  _ ← when (supports_buffer_with_iosurface snapshot && GuestRecords.buffer_from_io_surface f)
    (put_ 17 1);
  _ ← put_ 18 (if level2 then 0x20007 else if level1 then 0x20006 else 0x20002);
  _ ← when level1 (
    _ ← when (snapshot_shared_textures snapshot && GuestRecords.supports_shared_textures f)
      (put_ 19 1);
    _ ← put_ 20 (Num.low_u32 (max_vertex_amplification_count caps));
    _ ← when (GuestRecords.supports_programmable_sample_positions f)
      (put_ 21 (Z.b2z (flag_programmable_sample_positions fl)));
    let rate_layers := max_rasterization_rate_layer_count li in
    _ ← when (negb (rate_layers =? 0)) (put_ 22 (Num.low_u32 rate_layers));
    _ ← when (GuestRecords.supports_tile_shaders_image_blocks f) (
      _ ← put_ 23 (Z.b2z (supports_tile_shaders fl && supports_non_square_tile_shaders fl));
      _ ← put_ 24 (Z.b2z (supports_image_blocks fl));
      _ ← put_ 25 (Z.b2z (are_raster_order_groups_supported fl));
      _ ← put_ 26 (Z.b2z (supports_memory_order_atomics fl));
      put_ 27 (Z.b2z (is_large_mrt_supported fl)));
    let stride := bit (GuestRecords.supports_dynamic_attribute_stride f
      && flag_dynamic_attribute_stride fl) 2 in
    apple5 ← asked (family 0%nat);
    put_ 28 (Z.lor (Z.lor stride (Z.b2z apple5))
      (bit (supports_texture_2d_multisample_array fl) 4)));
  _ ← when level2 (
    _ ← put_ 33 (foldl Z.lor (Z.b2z (supports_large_user_tasks snapshot)) [
      bit (supports_large_kernel_tasks snapshot) 2;
      bit (flag_command_buffer_jump fl) 4;
      bit (supports_range_buffer snapshot) 8;
      bit (supports_shared_memory_heap snapshot) 0x10;
      bit (supports_argument_buffers snapshot) 0x20;
      bit (supports_simd_reduction fl) 0x40;
      bit (supports_float16_bcubic_filtering fl) 0x80;
      bit (supports_simd_shuffle_and_fill fl) 0x100;
      bit (supports_conditional_load_store fl) 0x200;
      bit (supports_compute_compressed_texture_write fl) 0x400;
      bit (snapshot_shared_textures snapshot) 0x800]);
    _ ← when (GuestRecords.supports_command_buffer_jump f)
      (put_ 36 (Num.low_u32 (max_predicated_nesting_depth li)));
    _ ← put_ 29 (Num.low_u32 (max_total_compute_threads_per_threadgroup li));
    _ ← put_ 30 (Num.low_u32 (max_compute_local_memory_sizes li));
    _ ← put_ 31 (Num.low_u32 (max_compute_threadgroup_memory li));
    _ ← put_ 32 (Num.low_u32 (max_compute_threadgroup_memory_alignment_bytes li));
    _ ← (match gpu_core_count caps with
         | Some cores => put_ 34 (Num.low_u32 cores)
         | None => mret tt
         end);
    mode1 ← asked (nth_kept (write_rounding_modes caps) 0);
    mode2 ← asked (nth_kept (write_rounding_modes caps) 1);
    _ ← put_ 41 (Z.lor (Z.lor 1 (bit mode1 2)) (bit mode2 4));
    _ ← put_ 35 (Num.low_u32 (max_texture_layers li));
    put 37 (ask_family [(MTL_GPU_FAMILY_APPLE9, family 4%nat); (MTL_GPU_FAMILY_APPLE8, family 3%nat);
      (MTL_GPU_FAMILY_APPLE7, family 2%nat); (MTL_GPU_FAMILY_APPLE6, family 1%nat)]));
  _ ← when level3 (
    bits ← ask_families [(family 0%nat, 1); (family 1%nat, 2); (family 2%nat, 4);
      (family 3%nat, 8); (family 4%nat, 0x10); (family 6%nat, 0x20); (family 5%nat, 0x40)] 0;
    let argument_buffers := supports_argument_buffers snapshot in
    _ ← put_ 42 (Z.lor (Z.b2z argument_buffers) (bit argument_buffers 2));
    put_ 44 bits);
  _ ← put_ 40 (Num.low_u32 (device_linear_texture_alignment_bytes li));
  put_ 0 0.
End Writer.

(** ** The reader *)

(** A list read back: each key's value and whether the list defined it. *)
Record DeviceInfo := MkInfo { values : list Z; present : list bool }.
Definition info_value (key : Z) (i : DeviceInfo) : Z := default 0 (values i !! Z.to_nat key).
Definition info_present (key : Z) (i : DeviceInfo) : bool :=
  default false (present i !! Z.to_nat key).
Definition no_info : DeviceInfo := MkInfo (replicate KEY_SLOTS 0) (replicate KEY_SLOTS false).
Definition define (k v : Z) (i : DeviceInfo) : DeviceInfo :=
  MkInfo (<[Z.to_nat k := v]> (values i)) (<[Z.to_nat k := true]> (present i)).

Section Reader.
Context {E : Type}.
Local Abbreviation out := (outcome E (death E)).
Fixpoint read_loop (pairs : list KeyValuePair) (i : DeviceInfo) : out DeviceInfo :=
  match pairs with
  | [] => Ret i
  | p :: pairs =>
      if key p =? 0 then Ret i
      else if negb (key p =? 43) && (Z.to_nat (key p) <? KEY_SLOTS)%nat
      then read_loop pairs (define (key p) (value p) i)
      else Died (Unread Features.UnknownInfoKey)
  end.
Definition read_device_info (pairs : list KeyValuePair) : out DeviceInfo :=
  read_loop pairs no_info.

(** ** The check *)

Definition SPECIAL_KEYS : list Z := [11; 13; 15; 28; 32; 33; 40; 41; 42].
Definition OPTIONAL_KEYS : list Z := [40].
Definition DEFINED_KEYS : list Z :=
  [1; 2; 3; 4; 5; 6; 7; 8; 9; 10; 11; 12; 13; 14; 15; 16; 17; 18; 19; 20; 21; 22; 23; 24; 25; 26;
   27; 28; 29; 30; 31; 32; 33; 34; 35; 36; 37; 38; 39; 40; 41; 42; 44].
Definition VALUE_KEYS : list Z :=
  [1; 2; 3; 4; 5; 6; 7; 8; 9; 10; 11; 12; 13; 14; 15; 16; 17; 18; 19; 20; 21; 22; 23; 24; 25; 26;
   27; 29; 30; 31; 32; 34; 35; 36; 37; 38; 39; 40; 41].
Definition contains (l : list Z) (k : Z) : bool := existsb (Z.eqb k) l.

Section Check.
Context (host guest : DeviceInfo).
Definition undefined (k : Z) : bool :=
  info_present k guest && negb (info_present k host) && negb (contains OPTIONAL_KEYS k).
Definition short (k : Z) : bool :=
  info_present k guest && negb (contains SPECIAL_KEYS k)
    && (info_value k host <? info_value k guest).
Definition lacks_flags (k mask : Z) : bool :=
  info_present k guest
    && negb (Z.land (Z.land (info_value k guest) (not32 (info_value k host))) mask =? 0).
Definition over_aligned (k : Z) : bool :=
  info_present k guest && (info_value k guest <? info_value k host).
(** The checks in their order; the first that fails refuses. *)
Definition host_provides : bool :=
  if existsb undefined DEFINED_KEYS then false
  else if existsb short VALUE_KEYS then false
  else if lacks_flags 11 0x3ff then false
  else if over_aligned 13 then false
  else if over_aligned 15 then false
  else if lacks_flags 28 (M32 - 1) then false
  else if lacks_flags 33 (M32 - 1) then false
  else if over_aligned 32 then false
  else if info_present 40 guest && info_present 40 host && (info_value 40 guest <? info_value 40 host)
  then false
  else if info_present 41 guest && negb (info_present 41 host) then false
  else if info_present 41 guest
    && negb (Z.land (info_value 41 guest) (not32 (info_value 41 host)) =? 0) then false
  else if lacks_flags 42 (M32 - 1) then false
  else true.
End Check.

(** The host's list in its array of pairs, zero past what was written. *)
Definition in_array (w : list KeyValuePair) : list KeyValuePair :=
  take (Z.to_nat HOST_INFO_PAIRS)
    (w ++ replicate (Z.to_nat HOST_INFO_PAIRS - length w) (MkKeyValuePair 0 0)).
Definition check_capabilities (caps : DeviceCaps E) (snapshot : DeviceInfoSnapshot)
    (guest_pairs : list KeyValuePair) : out bool :=
  match write_device_info Memory.Die caps snapshot HOST_INFO_MAX_KEY HOST_INFO_PAIRS [] with
  | Raised (e, _) => Raised e
  | Died d => Died d
  | Ret (_, w) =>
      host ← read_device_info (in_array w);
      guest ← read_device_info guest_pairs;
      Ret (host_provides host guest)
  end.
End Reader.

(** ** A guest's request (opcode 58) *)

Definition DEVICE_INFO_MAPPING_LENGTH `{GuestRecords.Target} : Z := GuestRecords.APV_PAGE_SIZE.
Section Request.
Context {St E D Mapping : Type} `{GuestRecords.Target}.
Context (new_contiguous_mapping : Z -> Z -> Run St E D (option Mapping)).
Context (write : Mapping -> Z -> Z -> Run St E D unit).
Context (drop_mapping keep_forever : Mapping -> Run St E D unit).
Context (store_max_key : Z -> Run St E D unit) (not_mapped : E).
(** A raise of [m]'s goes on after [last]. *)
Definition on_raise (m last : Run St E D unit) : Run St E D unit := fun s =>
  match m s with
  | Raised (e, s) =>
      match last s with
      | Ret (_, s) => Raised (e, s)
      | Raised e => Raised e
      | Died d => Died d
      end
  | r => r
  end.
(** A raise of the writer's leaves the page mapped and the key as it was. *)
Definition get_device_info (max_key max_count destination_page : Z) : Run St E D unit :=
  mapping ← new_contiguous_mapping destination_page DEVICE_INFO_MAPPING_LENGTH;
  match mapping with
  | None => raise not_mapped
  | Some mapping =>
      _ ← on_raise (write mapping max_key max_count) (keep_forever mapping);
      _ ← drop_mapping mapping;
      store_max_key max_key
  end.
End Request.

(** ** The pairs written *)

(** What was kept of a query that answered. *)
Definition answer {E A} (d : A) (k : kept E A) : A := match k with inr a => a | inl _ => d end.
Definition answered {E A} (k : kept E A) : Prop := exists a, k = inr a.
(** A device no query of which raised. *)
Record quiet_caps {E} (c : DeviceCaps E) : Prop := {
  quiet_counts : Forall answered (sample_counts c);
  quiet_types : Forall answered (primitive_types c);
  quiet_families : Forall answered (families c);
  quiet_modes : Forall answered (write_rounding_modes c);
  quiet_heap : answered (heap_buffer_page_private c);
}.

Section Pairs.
Context {E : Type} (caps : DeviceCaps E) (snapshot : DeviceInfoSnapshot).

Definition given (b : bool) (l : list (Z * Z)) : list (Z * Z) := if b then l else [].
Definition yes (l : list (kept E bool)) (i : nat) : bool := answer false (nth_kept l i).
Definition sample_count : Z :=
  foldl (fun best p => if answer false p.2 : bool then Num.low_u32 p.1 else best) 1
    (zip SAMPLE_COUNTS (sample_counts caps)).
Fixpoint bits_of (l : list (kept E bool)) (t bits : Z) : Z :=
  match l with
  | [] => bits
  | k :: l => bits_of l (t + 1) (if answer false k then Z.lor bits (shl32 1 t) else bits)
  end.
Definition best_family : Z :=
  let y := yes (families caps) in
  if y 4%nat then MTL_GPU_FAMILY_APPLE9 else if y 3%nat then MTL_GPU_FAMILY_APPLE8
  else if y 2%nat then MTL_GPU_FAMILY_APPLE7 else if y 1%nat then MTL_GPU_FAMILY_APPLE6
  else MTL_GPU_FAMILY_APPLE5.
Definition family_bits : Z :=
  let y := yes (families caps) in
  foldl (fun bits p => if y p.1 : bool then Z.lor bits p.2 else bits) 0
    [(0%nat, 1); (1%nat, 2); (2%nat, 4); (3%nat, 8); (4%nat, 0x10); (6%nat, 0x20); (5%nat, 0x40)].

(** Every pair the host has for a guest that knows every key, in the order written. *)
Definition info_pairs : list (Z * Z) :=
  let f := features snapshot in
  let li := limits caps in
  let fl := flags caps in
  let level n := feature_level_above (device_feature_level snapshot) n in
  let '(width, height, depth) := max_threads_per_threadgroup caps in
  [(1, sample_count);
   (2, Z.b2z (is_depth24_stencil8_pixel_format_supported fl));
   (3, Num.low_u32 width); (4, Num.low_u32 height); (5, Num.low_u32 depth);
   (6, Num.low_u32 (max_threadgroup_memory_length li));
   (7, Z.b2z (is_framebuffer_read_supported fl));
   (8, Z.b2z (is_rgb10a2_gamma_supported fl));
   (9, Z.b2z (supports_native_hardware_fp16 fl));
   (10, DESERIALIZER_VERSION);
   (11, bits_of (primitive_types caps) 0 0);
   (12, Z.b2z (GuestRecords.dual_plane_textures f));
   (13, Num.low_u32 (linear_texture_alignment_bytes li))]
  ++ given (GuestRecords.metal_heaps f)
       [(14, 1); (15, Num.low_u32 (answer 0 (heap_buffer_page_private caps))); (16, 1)]
  ++ given (supports_buffer_with_iosurface snapshot && GuestRecords.buffer_from_io_surface f)
       [(17, 1)]
  ++ [(18, if level 2 then 0x20007 else if level 1 then 0x20006 else 0x20002)]
  ++ given (level 1) (
       given (snapshot_shared_textures snapshot && GuestRecords.supports_shared_textures f) [(19, 1)]
       ++ [(20, Num.low_u32 (max_vertex_amplification_count caps))]
       ++ given (GuestRecords.supports_programmable_sample_positions f)
            [(21, Z.b2z (flag_programmable_sample_positions fl))]
       ++ given (negb (max_rasterization_rate_layer_count li =? 0))
            [(22, Num.low_u32 (max_rasterization_rate_layer_count li))]
       ++ given (GuestRecords.supports_tile_shaders_image_blocks f)
            [(23, Z.b2z (supports_tile_shaders fl && supports_non_square_tile_shaders fl));
             (24, Z.b2z (supports_image_blocks fl));
             (25, Z.b2z (are_raster_order_groups_supported fl));
             (26, Z.b2z (supports_memory_order_atomics fl));
             (27, Z.b2z (is_large_mrt_supported fl))]
       ++ [(28, Z.lor (Z.lor (bit (GuestRecords.supports_dynamic_attribute_stride f
              && flag_dynamic_attribute_stride fl) 2) (Z.b2z (yes (families caps) 0)))
            (bit (supports_texture_2d_multisample_array fl) 4))])
  ++ given (level 2) (
       [(33, foldl Z.lor (Z.b2z (supports_large_user_tasks snapshot)) [
          bit (supports_large_kernel_tasks snapshot) 2;
          bit (flag_command_buffer_jump fl) 4;
          bit (supports_range_buffer snapshot) 8;
          bit (supports_shared_memory_heap snapshot) 0x10;
          bit (supports_argument_buffers snapshot) 0x20;
          bit (supports_simd_reduction fl) 0x40;
          bit (supports_float16_bcubic_filtering fl) 0x80;
          bit (supports_simd_shuffle_and_fill fl) 0x100;
          bit (supports_conditional_load_store fl) 0x200;
          bit (supports_compute_compressed_texture_write fl) 0x400;
          bit (snapshot_shared_textures snapshot) 0x800])]
       ++ given (GuestRecords.supports_command_buffer_jump f)
            [(36, Num.low_u32 (max_predicated_nesting_depth li))]
       ++ [(29, Num.low_u32 (max_total_compute_threads_per_threadgroup li));
           (30, Num.low_u32 (max_compute_local_memory_sizes li));
           (31, Num.low_u32 (max_compute_threadgroup_memory li));
           (32, Num.low_u32 (max_compute_threadgroup_memory_alignment_bytes li))]
       ++ match gpu_core_count caps with Some cores => [(34, Num.low_u32 cores)] | None => [] end
       ++ [(41, Z.lor (Z.lor 1 (bit (yes (write_rounding_modes caps) 0) 2))
              (bit (yes (write_rounding_modes caps) 1) 4));
           (35, Num.low_u32 (max_texture_layers li));
           (37, best_family)])
  ++ given (level 3) [(42, Z.lor (Z.b2z (supports_argument_buffers snapshot))
                         (bit (supports_argument_buffers snapshot) 2)); (44, family_bits)]
  ++ [(40, Num.low_u32 (device_linear_texture_alignment_bytes li))].
(** And the terminator. *)
Definition host_pairs : list (Z * Z) := info_pairs ++ [(0, 0)].

Context (on : Memory.OnFault) (max_key max_count : Z).
Local Abbreviation M := (Run (list KeyValuePair) E (death E)).
Definition pair_of (p : Z * Z) : KeyValuePair := MkKeyValuePair p.1 p.2.
(** What a guest that knows keys below [max_key] and has room for [max_count] pairs gets. *)
Definition told (l : list (Z * Z)) : list KeyValuePair :=
  pair_of <$> take (Z.to_nat max_count) (filter (fun p => p.1 < max_key) l).

(** [m] writes [l] after what was written. *)
Definition writes {A} (m : M A) (l : list (Z * Z)) (a : A) : Prop :=
  forall before, m (told before) = Ret (a, told (before ++ l)).
Lemma writes_bind {A B} (m : M A) (f : A -> M B) l1 l2 a b :
  writes m l1 a -> writes (f a) l2 b -> writes (a ← m; f a) (l1 ++ l2) b.
Proof. intros Hm Hf before. rewrite run_step, Hm. rewrite app_assoc. apply Hf. Qed.
Lemma writes_ret {A} (a : A) : writes (mret a) [] a.
Proof. intros before. by rewrite app_nil_r. Qed.
Lemma writes_then {B} (m : M unit) (f : M B) l1 l2 b :
  writes m l1 tt -> writes f l2 b -> writes (_ ← m; f) (l1 ++ l2) b.
Proof. apply (writes_bind m (fun _ => f)). Qed.
Lemma writes_asked {A} (d : A) (k : kept E A) : answered k -> writes (asked on k) [] (answer d k).
Proof. intros [a ->]. apply writes_ret. Qed.

Lemma told_fits key v before :
  told (before ++ [(key, v)]) =
    if fits max_key max_count key (told before)
    then told before ++ [MkKeyValuePair key v] else told before.
Proof.
  unfold told, fits. rewrite list.filter_app, list.filter_cons, list.filter_nil. simpl.
  rewrite length_fmap, length_take. destruct (decide (key < max_key)) as [Hk|Hk].
  - rewrite (proj2 (Z.ltb_lt _ _) Hk). simpl.
    set (l := filter _ before).
    destruct (Z.ltb_spec (Z.of_nat (Z.to_nat max_count `min` length l)) max_count).
    + rewrite !take_ge by (rewrite ?length_app; simpl; lia). by rewrite fmap_app.
    + by rewrite take_app_le by lia.
  - rewrite (proj2 (Z.ltb_ge _ _)) by lia. simpl. by rewrite app_nil_r.
Qed.
Lemma writes_put key m v : writes m [] v -> writes (put max_key max_count key m) [(key, v)] tt.
Proof.
  intros Hm before. unfold put. rewrite run_step. unfold asks. rewrite told_fits.
  destruct (fits _ _ key (told before)); [|done]. rewrite run_step, Hm, app_nil_r. done.
Qed.
Lemma writes_put_ key v : writes (put_ max_key max_count key v) [(key, v)] tt.
Proof. apply writes_put, writes_ret. Qed.
Lemma writes_when b m l : (b = true -> writes m l tt) -> writes (when b m) (given b l) tt.
Proof. intros H. destruct b; [by apply H|apply writes_ret]. Qed.

Lemma answered_nth l i : Forall answered l -> answered (nth_kept (E := E) l i).
Proof.
  intros Hl. unfold nth_kept. destruct (l !! i) as [k|] eqn:Ek; [|by exists false].
  by eapply Forall_lookup_1.
Qed.
Lemma writes_counts l : Forall (fun p => answered p.2) l -> forall best,
  writes (ask_counts on l best) []
    (foldl (fun best p => if answer false p.2 : bool then Num.low_u32 p.1 else best) best l).
Proof.
  induction 1 as [|[n k] l Hk _ IH]; intros best; cbn [ask_counts foldl]; [apply writes_ret|].
  apply (writes_bind _ _ [] [] (answer false k)); [by apply writes_asked|apply IH].
Qed.
Lemma writes_bits l : Forall answered l -> forall t bits,
  writes (ask_bits on l t bits) [] (bits_of l t bits).
Proof.
  induction 1 as [|k l Hk _ IH]; intros t bits; cbn [ask_bits bits_of]; [apply writes_ret|].
  apply (writes_bind _ _ [] [] (answer false k)); [by apply writes_asked|apply IH].
Qed.
Lemma writes_family l : Forall (fun p => answered p.2) l ->
  writes (ask_family on l) [] (foldr (fun p r => if answer false p.2 : bool then p.1 else r)
    MTL_GPU_FAMILY_APPLE5 l).
Proof.
  induction 1 as [|[n k] l Hk _ IH]; cbn [ask_family foldr]; [apply writes_ret|].
  apply (writes_bind _ _ [] [] (answer false k)); [by apply writes_asked|]. simpl.
  destruct (answer false k); [apply writes_ret|apply IH].
Qed.
Lemma writes_families l : Forall (fun p => answered p.1) l -> forall bits,
  writes (ask_families on l bits) []
    (foldl (fun bits p => if answer false p.1 : bool then Z.lor bits p.2 else bits) bits l).
Proof.
  induction 1 as [|[k n] l Hk _ IH]; intros bits; cbn [ask_families foldl]; [apply writes_ret|].
  apply (writes_bind _ _ [] [] (answer false k)); [by apply writes_asked|apply IH].
Qed.
Lemma zip_answered (l : list (kept E bool)) : Forall answered l -> forall ns,
  Forall (fun p : Z * kept E bool => answered p.2) (zip ns l).
Proof. induction 1; intros [|n ns]; constructor; auto. Qed.

Lemma writes_eq {A} (m : M A) l l' a : writes m l a -> l = l' -> writes m l' a.
Proof. by intros H <-. Qed.
Lemma writes_cores :
  writes (match gpu_core_count caps with
          | Some cores => put_ max_key max_count 34 (Num.low_u32 cores)
          | None => mret tt
          end : M unit)
    match gpu_core_count caps with Some cores => [(34, Num.low_u32 cores)] | None => [] end tt.
Proof. destruct (gpu_core_count caps); [apply writes_put_|apply writes_ret]. Qed.

Lemma writes_info : quiet_caps caps ->
  writes (write_device_info on caps snapshot max_key max_count) host_pairs tt.
Proof.
  intros [Hc Ht Hf Hm Hh]. unfold write_device_info, host_pairs, info_pairs.
  destruct (max_threads_per_threadgroup caps) as [[width height] depth].
  eapply writes_eq.
  - eapply writes_bind; [apply writes_counts, zip_answered, Hc|].
    do 10 (eapply writes_then; [apply writes_put_|]).
    eapply writes_then; [apply writes_put, writes_bits, Ht|].
    do 2 (eapply writes_then; [apply writes_put_|]).
    eapply writes_then; [apply writes_when; intros _|].
    { eapply writes_then; [apply writes_put_|].
      eapply writes_bind; [by apply (writes_asked 0)|].
      eapply writes_then; [apply writes_put_|apply writes_put_]. }
    eapply writes_then; [apply writes_when; intros _; apply writes_put_|].
    eapply writes_then; [apply writes_put_|].
    eapply writes_then; [apply writes_when; intros _|].
    { eapply writes_then; [apply writes_when; intros _; apply writes_put_|].
      eapply writes_then; [apply writes_put_|].
      do 2 (eapply writes_then; [apply writes_when; intros _; apply writes_put_|]).
      eapply writes_then; [apply writes_when; intros _|].
      { do 4 (eapply writes_then; [apply writes_put_|]). apply writes_put_. }
      eapply writes_bind; [by apply (writes_asked false), answered_nth|apply writes_put_]. }
    eapply writes_then; [apply writes_when; intros _|].
    { eapply writes_then; [apply writes_put_|].
      eapply writes_then; [apply writes_when; intros _; apply writes_put_|].
      do 4 (eapply writes_then; [apply writes_put_|]).
      eapply writes_then; [apply writes_cores|].
      do 2 (eapply writes_bind; [by apply (writes_asked false), answered_nth|]).
      do 2 (eapply writes_then; [apply writes_put_|]).
      apply writes_put, writes_family. repeat constructor; by apply answered_nth. }
    eapply writes_then; [apply writes_when; intros _|].
    { eapply writes_bind; [apply writes_families; repeat constructor; by apply answered_nth|].
      eapply writes_then; [apply writes_put_|apply writes_put_]. }
    eapply writes_then; [apply writes_put_|apply writes_put_].
  - by rewrite <- !app_assoc.
Qed.
End Pairs.

(** ** The keys and values of the host's pairs *)

(** Every key the host may write, in the order it writes them. *)
Definition host_keys : list Z :=
  [1; 2; 3; 4; 5; 6; 7; 8; 9; 10; 11; 12; 13; 14; 15; 16; 17; 18; 19; 20; 21; 22; 23; 24; 25; 26;
   27; 28; 33; 36; 29; 30; 31; 32; 34; 41; 35; 37; 42; 44; 40].

Section Keys.
Context {E : Type} (caps : DeviceCaps E) (snapshot : DeviceInfoSnapshot).

Lemma given_sublist b (l : list (Z * Z)) ks : l.*1 `sublist_of` ks -> (given b l).*1 `sublist_of` ks.
Proof. intros H. destruct b; [done|]. apply sublist_nil_l. Qed.
Lemma keys_app (l1 l2 : list (Z * Z)) k1 k2 : l1.*1 `sublist_of` k1 -> l2.*1 `sublist_of` k2 ->
  (l1 ++ l2).*1 `sublist_of` k1 ++ k2.
Proof. intros H1 H2. rewrite fmap_app. by apply sublist_app. Qed.
Lemma info_keys : (info_pairs caps snapshot).*1 `sublist_of` host_keys.
Proof.
  unfold info_pairs. destruct (max_threads_per_threadgroup caps) as [[w h] d].
  change host_keys with ([1; 2; 3; 4; 5; 6; 7; 8; 9; 10; 11; 12; 13] ++ [14; 15; 16] ++ [17] ++ [18]
    ++ ([19] ++ [20] ++ [21] ++ [22] ++ [23; 24; 25; 26; 27] ++ [28])
    ++ ([33] ++ [36] ++ [29; 30; 31; 32] ++ [34] ++ [41; 35; 37]) ++ [42; 44] ++ [40]).
  repeat first [apply keys_app | apply given_sublist | reflexivity].
  destruct (gpu_core_count caps); [done|apply sublist_nil_l].
Qed.

Definition word_values (l : list (Z * Z)) : Prop := Forall (fun p : Z * Z => u32 p.2) l.
Lemma b2z_word b : u32 (Z.b2z b).
Proof. by destruct b. Qed.
Lemma bit_u32 b v : u32 v -> u32 (bit b v).
Proof. by destruct b. Qed.
Lemma low_u32_u32 x : u32 (Num.low_u32 x).
Proof. apply w32_range. Qed.
Lemma bits_u32 (l : list (kept E bool)) : forall t bits, u32 bits -> u32 (bits_of l t bits).
Proof.
  induction l as [|k l IH]; intros t bits Hb; [done|]. cbn [bits_of]. apply IH.
  destruct (answer false k); [|done]. apply lor_u32; [done|apply w32_range].
Qed.
Lemma counts_u32 (l : list (Z * kept E bool)) : forall best, u32 best ->
  u32 (foldl (fun best p => if answer false p.2 : bool then Num.low_u32 p.1 else best) best l).
Proof.
  induction l as [|p l IH]; intros best Hb; [done|]. cbn [foldl]. apply IH.
  destruct (answer false p.2); [apply low_u32_u32|done].
Qed.
Lemma given_values b l : word_values l -> word_values (given b l).
Proof. by destruct b; [|constructor]. Qed.
Lemma family_bits_u32 : u32 (family_bits caps).
Proof. unfold family_bits. simpl. by repeat case_match. Qed.
Lemma best_family_u32 : u32 (best_family caps).
Proof. unfold best_family. by repeat case_match. Qed.
Lemma info_values : word_values (info_pairs caps snapshot).
Proof.
  unfold info_pairs. destruct (max_threads_per_threadgroup caps) as [[w h] d]. unfold word_values.
  repeat first [apply Forall_app_2 | apply given_values | apply Forall_cons_2 | apply Forall_nil_2];
    simpl; try apply b2z_word; try apply low_u32_u32; try done.
  - apply counts_u32. done.
  - by apply bits_u32.
  - by repeat case_match.
  - repeat apply lor_u32; try apply b2z_word; by apply bit_u32.
  - repeat apply lor_u32; try apply b2z_word; by apply bit_u32.
  - destruct (gpu_core_count caps); repeat constructor; apply low_u32_u32.
  - repeat apply lor_u32; try done; by apply bit_u32.
  - apply best_family_u32.
  - apply lor_u32; [apply b2z_word|by apply bit_u32].
  - apply family_bits_u32.
Qed.
End Keys.

(** ** What the check asks of each key *)

(** [i] holds the values [f]. *)
Record holds (i : DeviceInfo) (f : Z -> option Z) : Prop := {
  holds_lengths : length (values i) = KEY_SLOTS /\ length (present i) = KEY_SLOTS;
  holds_value : forall k, 0 <= k -> match f k with
    | Some v => info_present k i = true /\ info_value k i = v
    | None => info_present k i = false
    end;
}.
(** A guest's value [v] for [k] is met by a host that has [h]. *)
Definition satisfied (k : Z) (h : option Z) (v : Z) : bool :=
  match h with
  | None => k =? 40
  | Some h =>
      if k =? 11 then Z.land (Z.land v (not32 h)) 0x3ff =? 0
      else if contains [13; 15; 32; 40] k then h <=? v
      else if contains [28; 33; 42] k then Z.land (Z.land v (not32 h)) (M32 - 1) =? 0
      else if k =? 41 then Z.land v (not32 h) =? 0
      else if k =? 44 then true
      else v <=? h
  end.

Lemma existsb_none {A} (f : A -> bool) l : existsb f l = false <-> Forall (fun x => f x = false) l.
Proof.
  induction l as [|x l IH]; simpl; [by split|]. rewrite orb_false_iff, IH, Forall_cons. done.
Qed.
Lemma passes (b c : bool) : (if b then false else c) = true <-> b = false /\ c = true.
Proof. destruct b; naive_solver. Qed.

Section ByKey.
Context (host guest : DeviceInfo) (h g : Z -> option Z).
Context (Hh : holds host h) (Hg : holds guest g).

Lemma undefined_is k : 0 <= k -> undefined host guest k = false <->
  forall v, g k = Some v -> h k <> None \/ k = 40.
Proof using Hh Hg.
  intros Hk. unfold undefined. pose proof (holds_value _ _ Hh k Hk) as H1.
  pose proof (holds_value _ _ Hg k Hk) as H2.
  destruct (g k) as [v|]; [|rewrite H2; naive_solver]. destruct H2 as [-> _]. simpl.
  destruct (h k) as [w|]; [destruct H1 as [-> _]; naive_solver|]. rewrite H1. simpl.
  rewrite orb_false_r. destruct (Z.eqb_spec k 40); naive_solver.
Qed.
Lemma short_is k : 0 <= k -> contains SPECIAL_KEYS k = false -> (g k <> None -> h k <> None) ->
  short host guest k = false <-> forall v, g k = Some v -> v <= default 0 (h k).
Proof using Hh Hg.
  intros Hk Hs Hn. unfold short. pose proof (holds_value _ _ Hh k Hk) as H1.
  pose proof (holds_value _ _ Hg k Hk) as H2. rewrite Hs. simpl.
  destruct (g k) as [v|]; [|rewrite H2; naive_solver]. destruct H2 as [-> ->]. simpl.
  destruct (h k) as [w|]; [|by destruct Hn]. destruct H1 as [_ ->]. simpl. rewrite Z.ltb_ge. naive_solver.
Qed.
Lemma lacks_is k mask : 0 <= k -> (g k <> None -> h k <> None) ->
  lacks_flags host guest k mask = false <->
  forall v, g k = Some v -> Z.land (Z.land v (not32 (default 0 (h k)))) mask = 0.
Proof using Hh Hg.
  intros Hk Hn. unfold lacks_flags. pose proof (holds_value _ _ Hh k Hk) as H1.
  pose proof (holds_value _ _ Hg k Hk) as H2.
  destruct (g k) as [v|]; [|rewrite H2; naive_solver]. destruct H2 as [-> ->]. simpl.
  destruct (h k) as [w|]; [|by destruct Hn]. destruct H1 as [_ ->]. simpl.
  rewrite negb_false_iff, Z.eqb_eq. naive_solver.
Qed.
Lemma over_is k : 0 <= k -> (g k <> None -> h k <> None) ->
  over_aligned host guest k = false <-> forall v, g k = Some v -> default 0 (h k) <= v.
Proof using Hh Hg.
  intros Hk Hn. unfold over_aligned. pose proof (holds_value _ _ Hh k Hk) as H1.
  pose proof (holds_value _ _ Hg k Hk) as H2.
  destruct (g k) as [v|]; [|rewrite H2; naive_solver]. destruct H2 as [-> ->]. simpl.
  destruct (h k) as [w|]; [|by destruct Hn]. destruct H1 as [_ ->]. simpl. rewrite Z.ltb_ge. naive_solver.
Qed.

(** A key checked by value alone. *)
Definition plain (k : Z) : bool :=
  contains VALUE_KEYS k && negb (contains [11; 13; 15; 28; 32; 33; 40; 41; 42; 44] k).
Lemma plain_satisfied k w v : plain k = true -> satisfied k (Some w) v = (v <=? w).
Proof using.
  unfold plain, satisfied. intros [_ Hn]%andb_true_iff. apply negb_true_iff in Hn. simpl in Hn.
  rewrite !orb_false_iff in Hn. destruct Hn as (H11&H13&H15&H28&H32&H33&H40&H41&H42&H44&_).
  simpl. by rewrite H11, H13, H15, H28, H32, H33, H40, H41, H42, H44.
Qed.
Lemma plain_value k : plain k = true -> k ∈ VALUE_KEYS /\ contains SPECIAL_KEYS k = false /\ 0 <= k.
Proof using.
  intros [Hv Hn]%andb_true_iff. apply negb_true_iff in Hn. split; [|split].
  - unfold contains in Hv. apply existsb_exists in Hv as (x&Hx&->%Z.eqb_eq). by apply list_elem_of_In.
  - simpl in *. rewrite !orb_false_iff in Hn |- *. naive_solver.
  - unfold contains in Hv. apply existsb_exists in Hv as (x&Hx&->%Z.eqb_eq).
    apply list_elem_of_In in Hx. clear Hn. revert x Hx. apply list.Forall_forall. by repeat constructor.
Qed.
Lemma defined_cases k : k ∈ DEFINED_KEYS ->
  plain k = true \/ k ∈ [11; 13; 15; 28; 32; 33; 40; 41; 42; 44].
Proof using.
  revert k. apply list.Forall_forall.
  assert (Forall (fun k => plain k || contains [11; 13; 15; 28; 32; 33; 40; 41; 42; 44] k = true)
    DEFINED_KEYS) as H by (repeat constructor).
  eapply list.Forall_impl; [exact H|]. intros k [Hk|Hk]%orb_true_iff; [by left|right].
  apply existsb_exists in Hk as (x&Hx&->%Z.eqb_eq). by apply list_elem_of_In.
Qed.

Lemma defined_nonneg k : k ∈ DEFINED_KEYS -> 0 <= k.
Proof using. revert k. apply list.Forall_forall. by repeat constructor. Qed.
Lemma value_keys k : k ∈ VALUE_KEYS ->
  (contains SPECIAL_KEYS k = true \/ plain k = true) /\ k ∈ DEFINED_KEYS.
Proof using.
  intros Hk. split.
  - revert k Hk. apply list.Forall_forall.
    assert (Forall (fun k => contains SPECIAL_KEYS k || plain k = true) VALUE_KEYS) as H
      by (repeat constructor).
    eapply list.Forall_impl; [exact H|]. by intros k [Hk|Hk]%orb_true_iff; [left|right].
  - revert k Hk. apply list.Forall_forall.
    assert (Forall (fun k => contains DEFINED_KEYS k = true) VALUE_KEYS) as H by (repeat constructor).
    eapply list.Forall_impl; [exact H|]. intros k (x&Hx&->%Z.eqb_eq)%existsb_exists.
    by apply list_elem_of_In.
Qed.

(** The tests of the keys with one of their own, one by one. *)
Definition own_tests : Prop :=
  lacks_flags host guest 11 0x3ff = false /\ over_aligned host guest 13 = false /\
  over_aligned host guest 15 = false /\ lacks_flags host guest 28 (M32 - 1) = false /\
  lacks_flags host guest 33 (M32 - 1) = false /\ over_aligned host guest 32 = false /\
  info_present 40 guest && info_present 40 host && (info_value 40 guest <? info_value 40 host) = false /\
  info_present 41 guest && negb (info_present 41 host) = false /\
  info_present 41 guest && negb (Z.land (info_value 41 guest) (not32 (info_value 41 host)) =? 0) = false /\
  lacks_flags host guest 42 (M32 - 1) = false.
Lemma provides_tests : host_provides host guest = true <->
  (forall k, k ∈ DEFINED_KEYS -> undefined host guest k = false) /\
  (forall k, k ∈ VALUE_KEYS -> short host guest k = false) /\ own_tests.
Proof using.
  unfold host_provides, own_tests. rewrite !passes, !existsb_none, !list.Forall_forall. naive_solver.
Qed.
Definition own_keys : list Z := [11; 13; 15; 28; 32; 33; 40; 41; 42].
(** What the guest asks of [k] is met. *)
Definition met (k : Z) : Prop := forall v, g k = Some v -> satisfied k (h k) v = true.
Lemma lacks_met k mask : 0 <= k -> (g k <> None -> h k <> None) ->
  (forall w v, satisfied k (Some w) v = (Z.land (Z.land v (not32 w)) mask =? 0)) ->
  lacks_flags host guest k mask = false <-> met k.
Proof using Hh Hg.
  intros Hk Hn Hs. rewrite (lacks_is k mask Hk Hn). unfold met.
  destruct (g k) as [v|]; [|naive_solver]. destruct (h k) as [w|]; [|by destruct Hn].
  simpl. setoid_rewrite Hs. setoid_rewrite Z.eqb_eq. done.
Qed.
Lemma over_met k : 0 <= k -> (g k <> None -> h k <> None) ->
  (forall w v, satisfied k (Some w) v = (w <=? v)) -> over_aligned host guest k = false <-> met k.
Proof using Hh Hg.
  intros Hk Hn Hs. rewrite (over_is k Hk Hn). unfold met.
  destruct (g k) as [v|]; [|naive_solver]. destruct (h k) as [w|]; [|by destruct Hn].
  simpl. setoid_rewrite Hs. setoid_rewrite Z.leb_le. done.
Qed.
Lemma met_40 :
  info_present 40 guest && info_present 40 host && (info_value 40 guest <? info_value 40 host) = false
  <-> met 40.
Proof using Hh Hg.
  unfold met. pose proof (holds_value _ _ Hh 40 ltac:(lia)) as H1.
  pose proof (holds_value _ _ Hg 40 ltac:(lia)) as H2.
  destruct (g 40) as [v|]; [|rewrite H2; naive_solver]. destruct H2 as [-> ->].
  destruct (h 40) as [w|]; [destruct H1 as [-> ->]|rewrite H1; naive_solver]. simpl.
  rewrite Z.ltb_ge. split; [by intros Hle v' [= <-]; apply Z.leb_le|]. intros H. apply Z.leb_le. by apply H.
Qed.
Lemma met_41 : (g 41 <> None -> h 41 <> None) ->
  info_present 41 guest && negb (info_present 41 host) = false /\
  info_present 41 guest && negb (Z.land (info_value 41 guest) (not32 (info_value 41 host)) =? 0) = false
  <-> met 41.
Proof using Hh Hg.
  intros Hn. unfold met. pose proof (holds_value _ _ Hh 41 ltac:(lia)) as H1.
  pose proof (holds_value _ _ Hg 41 ltac:(lia)) as H2.
  destruct (g 41) as [v|]; [|rewrite H2; naive_solver]. destruct H2 as [-> ->].
  destruct (h 41) as [w|]; [destruct H1 as [-> ->]|by destruct Hn].
  change (satisfied 41 (Some w)) with (fun v => Z.land v (not32 w) =? 0). simpl.
  rewrite negb_false_iff. naive_solver.
Qed.
Lemma own_tests_are : (forall k, k ∈ own_keys -> k <> 40 -> g k <> None -> h k <> None) ->
  own_tests <-> Forall met own_keys.
Proof using Hh Hg.
  intros Hd. assert (forall k, k <> 40 -> contains own_keys k = true -> g k <> None -> h k <> None) as Hd'.
  { intros k Hne (x&Hx&->%Z.eqb_eq)%existsb_exists. apply Hd; [by apply list_elem_of_In|done]. }
  unfold own_tests, own_keys. rewrite !list.Forall_cons, list.Forall_nil.
  rewrite (lacks_met 11), (over_met 13), (over_met 15), (lacks_met 28), (lacks_met 33), (over_met 32),
    (lacks_met 42), met_40 by (done || by apply Hd').
  pose proof (met_41 (Hd' 41 ltac:(done) eq_refl)). tauto.
Qed.

Lemma provides_is : host_provides host guest = true <-> Forall met DEFINED_KEYS.
Proof using Hh Hg.
  rewrite provides_tests, list.Forall_forall.
  assert (forall k, k ∈ own_keys -> k ∈ DEFINED_KEYS) as Hown.
  { apply list.Forall_forall. repeat constructor; by apply (bool_decide_unpack _). }
  assert ((forall k, k ∈ DEFINED_KEYS -> undefined host guest k = false) ->
    forall k, k ∈ own_keys -> k <> 40 -> g k <> None -> h k <> None) as Hd.
  { intros HU k Hk Hne Hgk. destruct (g k) as [v|] eqn:Ev; [|done].
    apply Hown in Hk. by destruct (proj1 (undefined_is k (defined_nonneg k Hk)) (HU k Hk) v Ev). }
  split.
  - intros (HU&HS&HO) k Hk v Hv.
    apply (own_tests_are (Hd HU)) in HO. rewrite list.Forall_forall in HO.
    pose proof (proj1 (undefined_is k (defined_nonneg k Hk)) (HU k Hk) v Hv) as Hdef.
    destruct (defined_cases k Hk) as [Hp|Hs].
    + destruct (plain_value k Hp) as (Hval&Hsp&H0).
      destruct Hdef as [Hn| ->]; [|done]. destruct (h k) as [w|] eqn:Ew; [|done].
      rewrite plain_satisfied by done. apply Z.leb_le.
      pose proof (proj1 (short_is k H0 Hsp ltac:(by rewrite Ew)) (HS k Hval) v Hv) as H.
      by rewrite Ew in H.
    + destruct (decide (k = 44)) as [->|Hne].
      * destruct Hdef as [Hn|]; [|done]. by destruct (h 44).
      * apply HO; [|done]. revert Hs Hne. clear. unfold own_keys. set_solver.
  - intros H. assert (forall k, k ∈ DEFINED_KEYS -> undefined host guest k = false) as HU.
    { intros k Hk. apply undefined_is; [by apply defined_nonneg|]. intros v Hv.
      specialize (H k Hk v Hv). destruct (h k); [by left|]. right. by apply Z.eqb_eq. }
    split; [done|]. split.
    + intros k Hk. destruct (value_keys k Hk) as [[Hs|Hp] Hk'].
      * unfold short. by rewrite Hs, andb_false_r.
      * destruct (plain_value k Hp) as (_&Hsp&H0). apply short_is; [done|done| |].
        { intros Hgk. destruct (g k) as [v|] eqn:Ev; [|done].
          destruct (proj1 (undefined_is k H0) (HU k Hk') v Ev) as [| ->]; done. }
        intros v Hv. specialize (H k Hk' v Hv). destruct (h k) as [w|] eqn:Ew.
        { rewrite plain_satisfied in H by done. by apply Z.leb_le. }
        simpl in H. apply Z.eqb_eq in H. by subst.
    + apply (own_tests_are (Hd HU)). apply list.Forall_forall. intros k Hk. by apply H, Hown.
Qed.
End ByKey.

(** ** A list read *)

(** What a list says of [k]: the last of its pairs before the terminator. *)
Fixpoint wanted (pairs : list KeyValuePair) (k : Z) : option Z :=
  match pairs with
  | [] => None
  | p :: pairs =>
      if key p =? 0 then None
      else match wanted pairs k with
           | Some v => Some v
           | None => if key p =? k then Some (value p) else None
           end
  end.
(** Every key before the terminator has a reader. *)
Fixpoint all_read (pairs : list KeyValuePair) : bool :=
  match pairs with
  | [] => true
  | p :: pairs => (key p =? 0) || (negb (key p =? 43) && (key p <? 45) && all_read pairs)
  end.
Definition unsigned_keys (pairs : list KeyValuePair) : Prop := Forall (fun p => 0 <= key p) pairs.

Lemma holds_none : holds no_info (fun _ => None).
Proof.
  split; [done|]. intros k Hk. unfold info_present.
  change (present no_info) with (replicate KEY_SLOTS false).
  destruct (replicate KEY_SLOTS false !! _) as [b|] eqn:E; [|done].
  by apply lookup_replicate in E as [-> _].
Qed.
Lemma holds_define i f k v : holds i f -> 0 <= k < 45 ->
  holds (define k v i) (fun j => if k =? j then Some v else f j).
Proof.
  intros [[H1 H2] Hv] Hk. unfold KEY_SLOTS in *. split; [simpl; by rewrite !length_insert|].
  intros j Hj. specialize (Hv j Hj). unfold info_present, info_value, define in *. simpl.
  destruct (Z.eqb_spec k j) as [->|Hne].
  - rewrite !list_lookup_insert_eq by lia. done.
  - rewrite !list_lookup_insert_ne by lia. done.
Qed.
Lemma holds_ext i f f' : holds i f -> (forall k, 0 <= k -> f k = f' k) -> holds i f'.
Proof. intros [Hl Hv] H. split; [done|]. intros k Hk. rewrite <- H by done. by apply Hv. Qed.

Lemma read_loop_holds {E} pairs : forall i f, unsigned_keys pairs -> holds i f ->
  match read_loop (E := E) pairs i with
  | Ret i' => all_read pairs = true /\
      holds i' (fun k => match wanted pairs k with Some v => Some v | None => f k end)
  | Raised _ => False
  | Died d => all_read pairs = false /\ d = Unread Features.UnknownInfoKey
  end.
Proof.
  induction pairs as [|p pairs IH]; intros i f Hu Hi; simpl; [by split|].
  apply list.Forall_cons in Hu as [Hp Hu]. destruct (Z.eqb_spec (key p) 0) as [E0|E0]; [by split|].
  simpl. destruct (Z.eqb_spec (key p) 43) as [E43|E43]; [by split|]. simpl.
  destruct (Z.ltb_spec (key p) 45) as [Hlt|Hge].
  - rewrite (proj2 (Nat.ltb_lt _ _)) by (unfold KEY_SLOTS; lia).
    specialize (IH _ _ Hu (holds_define i f (key p) (value p) Hi ltac:(lia))).
    destruct (read_loop pairs _) as [i'|e|d]; [|done|done]. destruct IH as [Ha Hi']. split; [done|].
    eapply holds_ext; [exact Hi'|]. intros k Hk. simpl. destruct (wanted pairs k); [done|].
    by destruct (key p =? k).
  - rewrite (proj2 (Nat.ltb_ge _ _)) by (unfold KEY_SLOTS; lia). by split.
Qed.
Lemma read_spec {E} pairs : unsigned_keys pairs ->
  match read_device_info (E := E) pairs with
  | Ret i => all_read pairs = true /\ holds i (wanted pairs)
  | Raised _ => False
  | Died d => all_read pairs = false /\ d = Unread Features.UnknownInfoKey
  end.
Proof.
  intros Hu. pose proof (read_loop_holds (E := E) pairs no_info (fun _ => None) Hu holds_none) as H.
  unfold read_device_info. destruct (read_loop pairs no_info); [|done|done].
  destruct H as [Ha H]. split; [done|]. eapply holds_ext; [exact H|]. intros k _. simpl.
  by destruct (wanted pairs k).
Qed.

(** A list without duplicates, up to a terminator. *)
Lemma wanted_pairs l tail : NoDup l.*1 -> Forall (fun p : Z * Z => p.1 <> 0) l ->
  (tail = [] \/ exists w r, tail = MkKeyValuePair 0 w :: r) ->
  forall k v, wanted ((pair_of <$> l) ++ tail) k = Some v <-> (k, v) ∈ l.
Proof.
  induction l as [|[j w] l IH]; intros Hd Hn Ht k v; simpl.
  - split; [|by intros H%elem_of_nil]. by destruct Ht as [->|(w&r&->)].
  - apply list.NoDup_cons in Hd as [Hj Hd]. apply list.Forall_cons in Hn as [Hj0 Hn]. simpl in *.
    change (list_fmap _ _ pair_of l) with (pair_of <$> l).
    rewrite (proj2 (Z.eqb_neq j 0)) by done. specialize (IH Hd Hn Ht). rewrite elem_of_cons.
    destruct (wanted _ k) as [x|] eqn:Ex.
    + apply IH in Ex. split.
      * intros [= ->]. by right.
      * intros [[= -> ->]|Hv]; [|by apply IH in Hv; apply IH in Ex; congruence].
        exfalso. apply Hj. by apply (list_elem_of_fmap_2' fst _ (j, x)).
    + destruct (Z.eqb_spec j k) as [->|Hne].
      * split; [intros [= ->]; by left|]. intros [[= ->]|Hv]; [done|].
        apply IH in Hv. rewrite Hv in Ex. done.
      * split; [done|]. intros [[= -> ->]|Hv]; [done|]. apply IH in Hv. congruence.
Qed.

(** ** The properties *)

Lemma host_keys_nodup : NoDup host_keys.
Proof. apply (bool_decide_unpack _). by vm_compute. Qed.
Lemma info_keys_nodup {E} (caps : DeviceCaps E) snapshot : NoDup (info_pairs caps snapshot).*1.
Proof. eapply sublist_NoDup; [apply host_keys_nodup|apply info_keys]. Qed.
Lemma info_keys_in {E} (caps : DeviceCaps E) snapshot k v :
  (k, v) ∈ info_pairs caps snapshot -> k ∈ host_keys.
Proof.
  intros H. eapply elem_of_sublist; [|apply (info_keys caps snapshot)].
  by apply (list_elem_of_fmap_2' fst _ (k, v)).
Qed.
Lemma host_keys_range k : k ∈ host_keys -> 0 < k < 45 /\ k <> 43.
Proof. revert k. apply list.Forall_forall. by repeat constructor. Qed.
Lemma info_length {E} (caps : DeviceCaps E) snapshot : (length (info_pairs caps snapshot) <= 41)%nat.
Proof.
  pose proof (sublist_length _ _ (info_keys caps snapshot)) as H. by rewrite length_fmap in H.
Qed.
Lemma filter_kept {A} (P : A -> Prop) `{forall x, Decision (P x)} l :
  Forall P l -> filter P l = l.
Proof.
  induction 1 as [|x l Hx _ IH]; [done|]. rewrite list.filter_cons, decide_True by done. by rewrite IH.
Qed.
Lemma host_filter {E} (caps : DeviceCaps E) snapshot mk : 45 <= mk ->
  filter (fun p : Z * Z => p.1 < mk) (host_pairs caps snapshot) = host_pairs caps snapshot.
Proof.
  intros Hm. unfold host_pairs. rewrite list.filter_app. f_equal.
  - apply filter_kept. apply list.Forall_forall. intros [k v] Hk.
    apply info_keys_in, host_keys_range in Hk. simpl. lia.
  - rewrite list.filter_cons. simpl. by rewrite decide_True by lia.
Qed.

(** What the host's own list says. *)
Definition offered {E} (caps : DeviceCaps E) (snapshot : DeviceInfoSnapshot) : Z -> option Z :=
  wanted (pair_of <$> host_pairs caps snapshot).
Lemma offered_pairs {E} (caps : DeviceCaps E) snapshot k v :
  offered caps snapshot k = Some v <-> (k, v) ∈ info_pairs caps snapshot.
Proof.
  unfold offered, host_pairs. rewrite fmap_app. apply wanted_pairs.
  - apply info_keys_nodup.
  - apply list.Forall_forall. intros [j w] Hj. apply info_keys_in, host_keys_range in Hj. simpl. lia.
  - right. by eexists _, _.
Qed.

Lemma told_all {E} (caps : DeviceCaps E) snapshot :
  told HOST_INFO_MAX_KEY HOST_INFO_PAIRS (host_pairs caps snapshot) =
    pair_of <$> host_pairs caps snapshot.
Proof.
  unfold told. rewrite host_filter by done. rewrite take_ge; [done|]. unfold host_pairs.
  rewrite length_app. pose proof (info_length caps snapshot). simpl length. unfold HOST_INFO_PAIRS. lia.
Qed.
Lemma wanted_app_zero l r k : wanted (l ++ [MkKeyValuePair 0 0]) k = wanted (l ++ MkKeyValuePair 0 0 :: r) k.
Proof. induction l as [|p l IH]; simpl; [done|]. by rewrite IH. Qed.
Lemma all_read_zero l r : all_read (l ++ [MkKeyValuePair 0 0]) = all_read (l ++ MkKeyValuePair 0 0 :: r).
Proof. induction l as [|p l IH]; simpl; [done|]. by rewrite IH. Qed.
Lemma host_read {E} (caps : DeviceCaps E) snapshot : exists i,
  read_device_info (E := E) (in_array (pair_of <$> host_pairs caps snapshot)) = Ret i /\
  holds i (offered caps snapshot).
Proof.
  assert (exists r, in_array (pair_of <$> host_pairs caps snapshot) =
    (pair_of <$> info_pairs caps snapshot) ++ MkKeyValuePair 0 0 :: r /\ unsigned_keys r) as (r&Hr&Hu).
  { unfold in_array, host_pairs. rewrite fmap_app, <- app_assoc. simpl app.
    pose proof (info_length caps snapshot). rewrite take_app_ge by (rewrite length_fmap; unfold HOST_INFO_PAIRS; lia).
    assert (exists m, (Z.to_nat HOST_INFO_PAIRS - length (pair_of <$> info_pairs caps snapshot))%nat
      = S m) as [m ->].
    { rewrite length_fmap. exists (45 - length (info_pairs caps snapshot))%nat.
      unfold HOST_INFO_PAIRS. lia. }
    eexists. split; [reflexivity|]. by apply Forall_take, Forall_replicate. }
  assert (unsigned_keys (in_array (pair_of <$> host_pairs caps snapshot))) as Hall.
  { rewrite Hr. apply Forall_app_2; [|by constructor]. apply Forall_fmap, list.Forall_forall.
    intros [k v] Hk. apply info_keys_in, host_keys_range in Hk. simpl. lia. }
  pose proof (read_spec (E := E) _ Hall) as H. destruct (read_device_info _) as [i|e|d]; [|done|].
  - exists i. split; [done|]. destruct H as [_ H]. eapply holds_ext; [exact H|]. intros k _.
    rewrite Hr. unfold offered, host_pairs. rewrite fmap_app. symmetry. apply wanted_app_zero.
  - exfalso. destruct H as [H _]. revert H. rewrite Hr, <- all_read_zero.
    assert (forall l : list (Z * Z), Forall (fun p => 0 < p.1 < 45 /\ p.1 <> 43) l ->
      all_read ((pair_of <$> l) ++ [MkKeyValuePair 0 0]) = true) as Hl.
    { induction 1 as [|[k v] l [Hk Hne] _ IH]; [done|]. simpl in *.
      change (list_fmap _ _ pair_of l) with (pair_of <$> l). rewrite IH.
      rewrite (proj2 (Z.eqb_neq k 43)), (proj2 (Z.ltb_lt k 45)) by lia. by rewrite orb_true_r. }
    rewrite Hl; [done|]. apply list.Forall_forall. intros [k v] Hk. by apply info_keys_in, host_keys_range in Hk.
Qed.

Lemma written {E} on (caps : DeviceCaps E) snapshot mk mc : quiet_caps caps ->
  write_device_info on caps snapshot mk mc [] = Ret (tt, told mk mc (host_pairs caps snapshot)).
Proof.
  intros Hq. pose proof (writes_info caps snapshot on mk mc Hq []) as Hw. revert Hw.
  unfold told at 1. rewrite list.filter_nil, take_nil. done.
Qed.
Lemma check_eq {E} (caps : DeviceCaps E) snapshot guest_pairs : quiet_caps caps ->
  exists host, holds host (offered caps snapshot) /\
  check_capabilities caps snapshot guest_pairs =
    (guest ← read_device_info guest_pairs; Ret (host_provides host guest)).
Proof.
  intros Hq. destruct (host_read caps snapshot) as (i&Hr&Hi). exists i. split; [done|].
  unfold check_capabilities.
  rewrite written, told_all by done. simpl. by rewrite Hr.
Qed.

(** What is written of the host's pairs: some of them, then the terminator or nothing. *)
Lemma told_shape {E} (caps : DeviceCaps E) snapshot mk mc : exists l tail,
  told mk mc (host_pairs caps snapshot) = (pair_of <$> l) ++ tail /\
  l `sublist_of` info_pairs caps snapshot /\
  l = take (Z.to_nat mc) (filter (fun p : Z * Z => p.1 < mk) (info_pairs caps snapshot)) /\
  tail = if (0 <? mk) && (Z.of_nat (length
      (filter (fun p : Z * Z => p.1 < mk) (info_pairs caps snapshot))) <? mc)
    then [MkKeyValuePair 0 0] else [].
Proof.
  set (l := filter _ _). exists (take (Z.to_nat mc) l). eexists. split; [|split; [|split; reflexivity]].
  - unfold told, host_pairs. rewrite list.filter_app. fold l. rewrite take_app, fmap_app. f_equal.
    rewrite list.filter_cons, list.filter_nil. simpl fst. destruct (decide (0 < mk)) as [H|H].
    + rewrite (proj2 (Z.ltb_lt _ _) H). simpl andb. destruct (Z.ltb_spec (Z.of_nat (length l)) mc).
      * destruct (Z.to_nat mc - length l)%nat eqn:En; [lia|]. simpl. by rewrite take_nil.
      * replace (Z.to_nat mc - length l)%nat with 0%nat by lia. done.
    + rewrite (proj2 (Z.ltb_ge _ _)) by lia. by rewrite take_nil.
  - etrans; [apply sublist_take|]. apply sublist_filter.
Qed.

(** [and-not] of a word and itself is zero. *)
Lemma land_not32 v : u32 v -> Z.land v (not32 v) = 0.
Proof.
  intros Hv. replace (not32 v) with (Z.land (Z.lnot v) (Z.ones 32)).
  - by rewrite Z.land_assoc, Z.land_lnot_diag.
  - rewrite Z.land_ones by lia. unfold not32, Z.lnot. symmetry.
    apply (Z.mod_unique_pos _ _ (-1)); unfold M32 in *; lia.
Qed.

(** A host meets its own values. *)
Lemma own_satisfied k v : u32 v -> satisfied k (Some v) v = true.
Proof.
  intros Hv. unfold satisfied. rewrite land_not32, Z.land_0_l, Z.leb_refl by done. by repeat case_match.
Qed.

Lemma info_word {E} (caps : DeviceCaps E) snapshot k v : (k, v) ∈ info_pairs caps snapshot -> u32 v.
Proof.
  intros H. pose proof (info_values caps snapshot) as Hw. unfold word_values in Hw.
  rewrite list.Forall_forall in Hw. by apply (Hw (k, v)).
Qed.

Lemma all_read_told l tail : Forall (fun p : Z * Z => 0 < p.1 < 45 /\ p.1 <> 43) l ->
  all_read tail = true -> all_read ((pair_of <$> l) ++ tail) = true.
Proof.
  intros Hl Ht. induction Hl as [|[k v] l [Hk Hne] _ IH]; simpl in *; [done|].
  change (list_fmap _ _ pair_of l) with (pair_of <$> l). rewrite IH.
  rewrite (proj2 (Z.eqb_neq k 43)), (proj2 (Z.ltb_lt k 45)) by lia. by rewrite orb_true_r.
Qed.
Lemma sublist_keys (l l' : list (Z * Z)) : l `sublist_of` l' -> l.*1 `sublist_of` l'.*1.
Proof. induction 1; simpl; by constructor. Qed.
(** Some of the host's pairs, up to the end or a terminator, read back. *)
Definition ended (tail : list KeyValuePair) : Prop := tail = [] \/ tail = [MkKeyValuePair 0 0].
Lemma listed_read {E} (caps : DeviceCaps E) snapshot l tail :
  l `sublist_of` info_pairs caps snapshot -> ended tail ->
  let t := (pair_of <$> l) ++ tail in
  unsigned_keys t /\ all_read t = true /\
  forall k v, wanted t k = Some v -> (k, v) ∈ info_pairs caps snapshot.
Proof.
  intros Hs Ht. simpl.
  assert (Forall (fun p : Z * Z => 0 < p.1 < 45 /\ p.1 <> 43) l) as Hl.
  { apply list.Forall_forall. intros [k v] Hp. apply host_keys_range.
    apply (info_keys_in caps snapshot k v). by eapply elem_of_sublist. }
  split; [|split].
  - apply Forall_app_2; [|destruct Ht as [->| ->]; by repeat constructor].
    apply Forall_fmap. eapply list.Forall_impl; [exact Hl|]. intros [k v]. simpl. lia.
  - apply all_read_told; [done|]. by destruct Ht as [->| ->].
  - intros k v Hv. eapply elem_of_sublist; [|exact Hs].
    apply (wanted_pairs l tail); [| | |exact Hv].
    + eapply sublist_NoDup; [apply (info_keys_nodup caps snapshot)|by apply sublist_keys].
    + eapply list.Forall_impl; [exact Hl|]. intros [j w]. simpl. lia.
    + destruct Ht as [->| ->]; [by left|]. right. by eexists _, _.
Qed.
Lemma listed_accepted {E} (caps : DeviceCaps E) snapshot l tail : quiet_caps caps ->
  l `sublist_of` info_pairs caps snapshot -> ended tail ->
  check_capabilities caps snapshot ((pair_of <$> l) ++ tail) = Ret true.
Proof.
  intros Hq Hs Ht. destruct (listed_read caps snapshot l tail Hs Ht) as (Hu&Ha&Hw).
  set (t := (pair_of <$> l) ++ tail) in *. destruct (check_eq caps snapshot t Hq) as (host&Hh&->).
  pose proof (read_spec (E := E) t Hu) as H.
  destruct (read_device_info t) as [guest|e|d]; simpl; [|done|naive_solver congruence].
  destruct H as [_ Hg]. f_equal. apply (provides_is host guest _ _ Hh Hg).
  apply list.Forall_forall. intros k _ v Hv. apply Hw in Hv.
  rewrite (proj2 (offered_pairs caps snapshot k v) Hv). apply own_satisfied. by eapply info_word.
Qed.

(** A device every query of which answered, of every level. *)
Definition sample_limits : Limits := MkLimits 16 31 31 256 31 32768 31 31 32768 16 31 31 31 2 4
  31 2048 31 32768 31 31 31 1024 31 31 31 31.
Definition sample_flags : Flags := MkFlags false true true false true true false true true
  false true true false true true false true true false true true false true true false.
Definition sample_caps : DeviceCaps unit := MkCaps (Some 8) (1024, 1024, 1024) 2 sample_limits
  sample_flags [inr true; inr true; inr true; inr false] (replicate 10 (inr true))
  [inr true; inr true; inr true; inr false; inr false; inr false; inr true] [inr true; inr false]
  (inr 16384).
Definition sample_snapshot : DeviceInfoSnapshot :=
  MkSnapshot Features.initial_features 0 true 20 true true true true true true.
Lemma sample_quiet : quiet_caps sample_caps.
Proof. split; repeat constructor; by eexists. Qed.
Lemma sample_unsigned : unsigned_keys [MkKeyValuePair 1 4; MkKeyValuePair 41 1].
Proof. repeat constructor; done. Qed.

(** C35: the list written for a guest. On a device none of whose queries raised, the writer answers
    and stores, from an empty destination, exactly the pairs of the fixed order whose key the
    guest knows, cut at the guest's room: no key appears twice, no pair reaches the guest's key
    bound or exceeds its room, every value is a 32-bit word, and the zero terminator closes the
    list exactly where the guest knows key 0 and had room left after the pairs. *)
Theorem device_info_pairs {E} on (caps : DeviceCaps E) snapshot max_key max_count
    (Hquiet : quiet_caps caps) :
  exists l tail,
  write_device_info on caps snapshot max_key max_count [] = Ret (tt, (pair_of <$> l) ++ tail) /\
  l = take (Z.to_nat max_count)
        (filter (fun p : Z * Z => p.1 < max_key) (info_pairs caps snapshot)) /\
  NoDup l.*1 /\ Forall (fun p : Z * Z => 0 < p.1 < max_key /\ u32 p.2) l /\
  (0 <= max_count -> Z.of_nat (length (pair_of <$> l) + length tail) <= max_count) /\
  (tail = [MkKeyValuePair 0 0] /\ 0 < max_key /\ Z.of_nat (length l) < max_count \/
   tail = [] /\ (max_key <= 0 \/ max_count <= Z.of_nat (length l))).
Proof.
  destruct (told_shape caps snapshot max_key max_count) as (l&tail&Ht&Hs&Hl&Htail).
  exists l, tail. split; [|split; [done|split; [|split; [|split]]]].
  - rewrite written, Ht by done. done.
  - eapply sublist_NoDup; [apply (info_keys_nodup caps snapshot)|by apply sublist_keys].
  - apply list.Forall_forall. intros [k v] Hp.
    assert ((k, v) ∈ info_pairs caps snapshot) as Hi by by eapply elem_of_sublist.
    pose proof (info_word _ _ _ _ Hi). apply info_keys_in, host_keys_range in Hi.
    rewrite Hl in Hp. apply elem_of_take in Hp as (i&Hp&_). apply list_elem_of_lookup_2 in Hp.
    apply list_elem_of_filter in Hp. simpl in *. lia.
  - intros Hmc. rewrite length_fmap, Htail, Hl, length_take.
    destruct (0 <? _); [|simpl; lia]. destruct (Z.ltb_spec (Z.of_nat (length (filter (fun p : Z * Z =>
      p.1 < max_key) (info_pairs caps snapshot)))) max_count); simpl; lia.
  - rewrite Htail, Hl, length_take. set (n := length (filter _ _)).
    destruct (Z.ltb_spec 0 max_key); simpl; [|naive_solver].
    destruct (Z.ltb_spec (Z.of_nat n) max_count); [left|right]; split; [done|lia|done|right; lia].
Qed.
Lemma device_info_pairs_witness :
  quiet_caps sample_caps /\
  write_device_info Memory.Return sample_caps sample_snapshot 12 5 [] =
    Ret (tt, [MkKeyValuePair 1 4; MkKeyValuePair 2 1; MkKeyValuePair 3 1024;
      MkKeyValuePair 4 1024; MkKeyValuePair 5 1024]) /\
  exists l tail, write_device_info Memory.Return sample_caps sample_snapshot 12 5 [] =
    Ret (tt, (pair_of <$> l) ++ tail) /\ NoDup l.*1.
Proof.
  split; [exact sample_quiet|]. split; [by vm_compute|].
  destruct (device_info_pairs Memory.Return sample_caps sample_snapshot 12 5 sample_quiet)
    as (l&tail&Hw&_&Hd&_).
  exists l, tail. by split.
Defined.

(** C34: whether a host provides what a guest asks for. On a device none of whose queries raised,
    the check of a guest's list never raises: it dies exactly where a key before the list's
    terminator has no reader (43, or 45 and above), and else answers whether every key the list
    defines (the last of its duplicates) is met by the host's own list, where a key is met by its
    own rule: the flags of 11, 28, 33, 41 and 42 are among the host's (only the low ten of 11),
    the alignments 13, 15, 32 and 40 are no smaller than the host's, the families of 44 need only
    be defined, every other value is no larger than the host's, and only 40 may be left undefined. *)
Theorem check_capabilities_answers {E} (caps : DeviceCaps E) snapshot guest_pairs
    (Hquiet : quiet_caps caps) (Hunsigned : unsigned_keys guest_pairs) :
  match check_capabilities caps snapshot guest_pairs with
  | Ret provides => all_read guest_pairs = true /\
      (provides = true <-> forall k v, k ∈ DEFINED_KEYS -> wanted guest_pairs k = Some v ->
         satisfied k (offered caps snapshot k) v = true)
  | Raised _ => False
  | Died d => all_read guest_pairs = false /\ d = Unread Features.UnknownInfoKey
  end.
Proof.
  destruct (check_eq caps snapshot guest_pairs Hquiet) as (host&Hh&->).
  pose proof (read_spec (E := E) guest_pairs Hunsigned) as H.
  destruct (read_device_info guest_pairs) as [guest|e|d]; simpl; [|done|done].
  destruct H as [Ha Hg]. split; [done|].
  rewrite (provides_is host guest _ _ Hh Hg), list.Forall_forall. unfold met. naive_solver.
Qed.
Lemma check_capabilities_answers_witness :
  check_capabilities sample_caps sample_snapshot [MkKeyValuePair 1 4; MkKeyValuePair 41 1] = Ret true /\
  check_capabilities sample_caps sample_snapshot [MkKeyValuePair 1 8] = Ret false /\
  check_capabilities sample_caps sample_snapshot [MkKeyValuePair 43 8]
    = Died (Unread Features.UnknownInfoKey) /\
  match check_capabilities sample_caps sample_snapshot [MkKeyValuePair 1 4; MkKeyValuePair 41 1] with
  | Raised _ => False
  | _ => True
  end.
Proof.
  split; [by vm_compute|]. split; [by vm_compute|]. split; [by vm_compute|].
  pose proof (check_capabilities_answers sample_caps sample_snapshot _ sample_quiet sample_unsigned) as H.
  destruct (check_capabilities _ _ _); [done|exact H|done].
Defined.

(** A host accepts its own list. The list a host wrote for a guest that knows keys below any
    bound, with any room, is a list the same host's check accepts: a guest suspended and resumed
    on one host, under the same features, is not refused over its device info. *)
Theorem own_info_accepted {E} on (caps : DeviceCaps E) snapshot max_key max_count
    (Hquiet : quiet_caps caps) :
  exists w, write_device_info on caps snapshot max_key max_count [] = Ret (tt, w) /\
  check_capabilities caps snapshot w = Ret true.
Proof.
  destruct (told_shape caps snapshot max_key max_count) as (l&tail&Ht&Hs&_&Htail).
  exists ((pair_of <$> l) ++ tail). rewrite written, Ht by done. split; [done|].
  apply listed_accepted; [done..|]. rewrite Htail. unfold ended. destruct (_ && _); auto.
Qed.
Lemma own_info_accepted_witness :
  quiet_caps sample_caps /\ exists w,
  write_device_info Memory.Return sample_caps sample_snapshot 12 5 [] = Ret (tt, w) /\
  check_capabilities sample_caps sample_snapshot w = Ret true.
Proof.
  split; [exact sample_quiet|].
  exact (own_info_accepted Memory.Return sample_caps sample_snapshot 12 5 sample_quiet).
Defined.
End DeviceInfo.
