(* ===== verification/TaskTable.v ===== *)
(** * TaskTable: the device's tasks, by id
    (src/crates/reims-vgpu-core/src/device/tasks.rs)

    The table over the device of [Device]: lookups, creation, deletion and the teardown of
    every task. The device's world holds the table ([Table]); what a task is, and the launch
    of a remote one, are the interface class [Tasks]. An operation runs alone under the
    table's lock, so a part it calls leaves the table as it is ([LawfulTasks]). A reference to
    a task is counted: [clone] takes one, [release] lets one go. The log lines and the
    autorelease pool are not modelled. *)

From S2P Require Import Prelude Num MemoryKinds DeviceKinds GuestRecords GuestPtr.
From S2P Require Import Waits RootTask Device Collections.
From stdpp Require Import gmap relations sorting.
Open Scope Z_scope.

Module TaskTable.
Import DeviceKinds.

(** How the device runs a task it makes. *)
Inductive Isolation : Type :=
| Off
| On
| Followed (descriptor_base : option Z).
Definition isolates (i : Isolation) : bool :=
  match i with
  | Off => false
  | On => true
  | Followed descriptor_base =>
      match descriptor_base with Some b => negb (b =? 0) | None => false end
  end.

Definition MAX_TASKS : Z := 256.
Definition MAX_LOCAL_TASK_LENGTH : Z := 0x800000000.

(** A task as the table holds it. *)
Inductive Task (L R : Type) : Type := Local (l : L) | Remote (r : R).
Arguments Local {L R}. Arguments Remote {L R}.

(** The table in the device's world. *)
Class Table (W T : Type) := {
  table : W -> BucketOrderMap.t T;
  set_table : BucketOrderMap.t T -> W -> W;
}.

(** What the table asks of its tasks; [P] is what making a local one raises. *)
Class Tasks (W L R P : Type) := {
  (** The descriptor table base of the IOSurface device the device maps through. *)
  mapper_descriptor_base : W -> outcome Empty_set ddeath (option Z * W);
  launch : Z -> Z -> Z -> W -> outcome Empty_set ddeath (option R * W);
  new_local : Z -> Z -> Z -> W -> outcome (P * W) ddeath (option L * W);
  task_teardown : Task L R -> W -> outcome Empty_set ddeath W;
  flush_resources : Task L R -> W -> outcome (P * W) ddeath W;
  clone : Task L R -> W -> W;
  release : Task L R -> W -> outcome Empty_set ddeath W;
}.

Section TaskTable.
Context {W F L R P : Type} `{TB : Table W (Task L R)} `{TK : Tasks W L R P}.
Context `{DC : Device.Clients W F (Task L R) P} {target : GuestRecords.Target}.
(** The device's configuration: [process_isolation], [isolation_follows_guest]. *)
Context (process_isolation isolation_follows_guest : bool).
Local Abbreviation Tk := (Task L R).
Local Abbreviation M := (Run (Device.State W F) (Device.Raise P) ddeath).

Definition throw {A} (on : Memory.OnFault) (k : DeviceRaise) : M A :=
  match on with
  | Memory.Die => die (Unhandled k)
  | Memory.Return => raise (Device.Own k)
  end.
(** A task's operation that raises. *)
Definition in_new {A} (m : W -> outcome (P * W) ddeath (A * W)) : M A := fun s =>
  match m (Device.world s) with
  | Ret (a, w) => Ret (a, Device.with_world w s)
  | Raised (p, w) => Raised (Device.OfTask p, Device.with_world w s)
  | Died d => Died d
  end.

(** *** Lookups *)

Definition get_task_id (on : Memory.OnFault) (task_id : Z) : M Tk :=
  task ← asks (fun s => BucketOrderMap.get (table (Device.world s)) task_id);
  match task with
  | None => throw on InvalidTask
  | Some task => _ ← modify (fun s => Device.with_world (clone task (Device.world s)) s); mret task
  end.

Definition get_user_task_id (task_id : Z) : M Tk :=
  if task_id =? 0 then raise (Device.Own UserTaskZero)
  else get_task_id Memory.Return task_id.

Definition get_kernel_task (on : Memory.OnFault) : M L :=
  task ← get_task_id on 0;
  match task with
  | Local local => mret local
  | Remote _ =>
      match on with
      | Memory.Die => throw on KernelTaskNotLocal
      | Memory.Return => _ ← Device.client_ (release task); throw on KernelTaskNotLocal
      end
  end.

(** *** Creation *)

Definition isolation_of (task_id : Z) : M Isolation :=
  if (task_id =? 0) || negb process_isolation then mret Off
  else if isolation_follows_guest then
    base ← Device.client mapper_descriptor_base;
    mret (Followed base)
  else mret On.

Definition write_root_word (root_node task_id word : Z) : M unit :=
  Device.store_u32 root_node (mul64 task_id 4) word TaskRootWord.

(** The word written where there is a root node. *)
Definition write_word (task_id word : Z) : M unit :=
  root_node ← asks (fun s => Device.root_node (Device.node s));
  match root_node with
  | Some root_node => write_root_word root_node task_id word
  | None => mret tt
  end.

Definition new_task (isolation : Isolation) (task_root length task_id : Z) : M (option Tk) :=
  if isolates isolation then
    task ← Device.client (launch task_root length task_id);
    mret (Remote <$> task)
  else if MAX_LOCAL_TASK_LENGTH <? length then raise (Device.Own TaskTooLarge)
  else
    task ← in_new (new_local task_root length task_id);
    mret (Local <$> task).

Definition create_task_id (task_id task_root length : Z) (restoring : bool) : M unit :=
  if MAX_TASKS <=? task_id then raise (Device.Own InvalidTaskId)
  else
    isolation ← isolation_of task_id;
    there ← asks (fun s => BucketOrderMap.get (table (Device.world s)) task_id);
    match there with
    | Some _ => raise (Device.Own TaskExists)
    | None =>
        task ← new_task isolation task_root length task_id;
        match task with
        | None => raise (Device.Own TaskNotCreated)
        | Some task =>
            _ ← modify (fun s => Device.with_world (set_table
              (BucketOrderMap.insert (table (Device.world s)) task_id task).2 (Device.world s)) s);
            if restoring then mret tt else write_word task_id task_root
        end
    end.

(** *** Deletion *)

(** Whether another thread holds the root node's lock is its caller's. *)
Definition clear_word (contended : bool) (task_id : Z) : M unit :=
  root_node ← asks (fun s => Device.root_node (Device.node s));
  tearing ← asks Device.tearing_down_root;
  _ ← (match root_node with
       | Some root_node => if contended then mret tt else write_root_word root_node task_id 0
       | None => mret tt
       end);
  let cleared := if contended then tearing
    else match root_node with Some _ => true | None => false end in
  if cleared : bool then mret tt else write_word task_id 0.

Definition delete_task_id (contended : bool) (task_id : Z) : M bool :=
  if MAX_TASKS <=? task_id then raise (Device.Own InvalidTaskId)
  else
    task ← asks (fun s => BucketOrderMap.get (table (Device.world s)) task_id);
    match task with
    | None => mret false
    | Some task =>
        _ ← Device.client_ (task_teardown task);
        _ ← modify (fun s => Device.with_world (set_table
          (BucketOrderMap.remove (table (Device.world s)) task_id).2 (Device.world s)) s);
        _ ← Device.client_ (release task);
        _ ← clear_word contended task_id;
        mret true
    end.

(** *** The teardown of every task *)

(** [f] of each task in turn, in the world. *)
Fixpoint each {E} (f : Tk -> W -> outcome E ddeath W) (ts : list Tk) (w : W) : outcome E ddeath W :=
  match ts with
  | [] => Ret w
  | t :: ts => w ← f t w; each f ts w
  end.
Definition copies (ts : list Tk) (w : W) : W := foldl (fun w t => clone t w) w ts.

Definition teardown_tasks (w : W) : outcome Empty_set ddeath W :=
  let all := BucketOrderMap.values (table w) in
  let w := copies all w in
  w ← each task_teardown all w;
  let '(removed, rest) := BucketOrderMap.drain (table w) in
  let w := set_table rest w in
  w ← each release removed w;
  each release all w.

(** The device's parts, with these tasks. *)
Definition clients : Device.Clients W F Tk P := {|
  Device.memory_of := Device.memory_of;
  Device.store_memory := Device.store_memory;
  Device.try_new_root_on := Device.try_new_root_on;
  Device.new_child_on := Device.new_child_on;
  Device.fifo_start := Device.fifo_start;
  Device.fifo_stop := Device.fifo_stop;
  Device.fifo_drain := Device.fifo_drain;
  Device.fifo_resume := Device.fifo_resume;
  Device.fifo_poke := Device.fifo_poke;
  Device.set_root_written := Device.set_root_written;
  Device.stamp_index := Device.stamp_index;
  Device.fault_offset := Device.fault_offset;
  Device.root_read := Device.root_read;
  Device.tasks w := BucketOrderMap.values (table w);
  Device.fifo_deleted := Device.fifo_deleted;
  Device.teardown_tasks := teardown_tasks;
  Device.teardown_displays := Device.teardown_displays;
  Device.take_report_budget := Device.take_report_budget;
  Device.report_stamp_wait_timeout := Device.report_stamp_wait_timeout;
|}.

(** ** What the parts keep *)

(** The table's lock is held around a part, and its memory is the world's. *)
Class LawfulTasks : Prop := {
  table_set m w : table (set_table m w) = m;
  memory_set m w : Device.memory_of (set_table m w) = Device.memory_of w;
  store_keeps m w : table (Device.store_memory m w) = table w;
  memory_store m w : Device.memory_of (Device.store_memory m w) = m;
  mapper_keeps w : match mapper_descriptor_base w with Ret (_, w') => table w' = table w | _ => True end;
  launch_keeps r l i w : match launch r l i w with Ret (_, w') => table w' = table w | _ => True end;
  new_local_keeps r l i w : match new_local r l i w with
    | Ret (_, w') | Raised (_, w') => table w' = table w | _ => True end;
  teardown_keeps t w : match task_teardown t w with Ret w' => table w' = table w | _ => True end;
  release_keeps t w : match release t w with
    | Ret w' => table w' = table w /\ Device.memory_of w' = Device.memory_of w | _ => True end;
  clone_keeps t w : table (clone t w) = table w;
}.
Context {LT : LawfulTasks}.
Implicit Types (s : Device.State W F).
Definition tasks_of s : gmap Z Tk := table (Device.world s).

(** What an operation leaves beside its parts' own state. *)
Record same s s' : Prop := {
  same_tasks : tasks_of s' = tasks_of s;
  same_node : Device.node s' = Device.node s;
  same_tearing : Device.tearing_down_root s' = Device.tearing_down_root s;
}.
(** It leaves that, and raises only what [X] says. *)
Definition Keeps (X : Device.Raise P -> Prop) {A} (m : M A) : Prop := forall s,
  xwp m (fun _ => same s) (fun e s' => X e /\ same s s') (fun _ => True) s.
Notation quietly := (Keeps (fun _ => False)).

Lemma table_same_refl s : same s s.
Proof. by split. Qed.
Lemma table_same_trans s1 s2 s3 : same s1 s2 -> same s2 s3 -> same s1 s3.
Proof. intros [] []. split; congruence. Qed.
Lemma table_keeps_asks X {A} (f : Device.State W F -> A) : Keeps X (asks f).
Proof. by intros s. Qed.
Lemma table_keeps_ret X {A} (a : A) : Keeps X (mret a).
Proof. by intros s. Qed.
Lemma keeps_client X {A} (m : W -> outcome Empty_set ddeath (A * W)) :
  (forall w, match m w with Ret (_, w') => table w' = table w | _ => True end) ->
  Keeps X (Device.client m).
Proof.
  intros H s. unfold xwp, Device.client. specialize (H (Device.world s)).
  destruct (m (Device.world s)) as [[a w']|[]|]; [|done]. by split.
Qed.
Lemma table_keeps_bind X {A B} (m : M A) (f : A -> M B) :
  Keeps X m -> (forall a, Keeps X (f a)) -> Keeps X (m ≫= f).
Proof.
  intros Hm Hf s. rewrite xwp_bind. eapply xwp_mono; [| | |apply Hm]; [|done|done].
  intros a s' Hs. eapply xwp_mono; [| | |apply Hf]; [| |done].
  - intros b s2 Hs2. exact (table_same_trans _ _ _ Hs Hs2).
  - intros e s2 [He Hs2]. split; [done|exact (table_same_trans _ _ _ Hs Hs2)].
Qed.
(** What follows an operation that keeps the table. *)
Lemma keeps_then X {A B} (m : M A) (f : A -> M B) Q Xf s :
  Keeps X m -> (forall e s', X e -> same s s' -> Xf e s') ->
  (forall a s', same s s' -> xwp (f a) Q Xf (fun _ => True) s') ->
  xwp (m ≫= f) Q Xf (fun _ => True) s.
Proof.
  intros Hm HX Hf. rewrite xwp_bind. eapply xwp_mono; [| | |apply Hm]; [done| |done].
  intros e s' [He Hs]. by apply HX.
Qed.
Lemma keeps_store X base off v k : Keeps X (Device.store_u32 base off v k).
Proof.
  apply keeps_client. intros w. destruct (GuestPtr.write_u32 _ _ _ _ _ _ _) as [m|[]|]; [|done].
  apply store_keeps.
Qed.
Lemma keeps_write_word X id v : Keeps X (write_word id v).
Proof. apply table_keeps_bind; [apply table_keeps_asks|]. intros [root|]; [apply keeps_store|apply table_keeps_ret]. Qed.
Lemma keeps_isolation X id : Keeps X (isolation_of id).
Proof.
  unfold isolation_of. destruct (_ || _); [apply table_keeps_ret|].
  destruct isolation_follows_guest; [|apply table_keeps_ret].
  apply table_keeps_bind; [apply keeps_client, mapper_keeps|intros; apply table_keeps_ret].
Qed.
Lemma keeps_new_task i root length id :
  Keeps (fun e => isolates i = false /\
    (e = Device.Own TaskTooLarge /\ MAX_LOCAL_TASK_LENGTH < length \/ exists p, e = Device.OfTask p))
    (new_task i root length id).
Proof.
  unfold new_task. destruct (isolates i).
  - apply table_keeps_bind; [apply keeps_client, launch_keeps|intros; apply table_keeps_ret].
  - destruct (Z.ltb_spec MAX_LOCAL_TASK_LENGTH length).
    { intros s. split; [|apply table_same_refl]. split; [done|by left]. }
    apply table_keeps_bind; [|intros; apply table_keeps_ret].
    intros s. unfold xwp, in_new. pose proof (new_local_keeps root length id (Device.world s)) as H'.
    destruct (new_local root length id (Device.world s)) as [[? ?]|[p ?]|]; [by split| |done].
    split; [split; [done|right; by exists p]|by split].
Qed.
Lemma keeps_clear X contended id : Keeps X (clear_word contended id).
Proof.
  repeat (apply table_keeps_bind; [apply table_keeps_asks|intros ?]). apply table_keeps_bind.
  - repeat case_match; first [apply keeps_store|apply table_keeps_ret].
  - intros _. destruct (if contended then _ else _); [apply table_keeps_ret|apply keeps_write_word].
Qed.
Lemma keeps_get on id : Keeps (fun e => e = Device.Own InvalidTask) (get_task_id on id).
Proof.
  apply table_keeps_bind; [apply table_keeps_asks|]. intros [t|].
  - apply table_keeps_bind; [|intros; apply table_keeps_ret]. intros s. rewrite xwp_modify. split; [|done..].
    unfold tasks_of. apply clone_keeps.
  - by destruct on; intros s.
Qed.
Lemma keeps_release X t : Keeps X (Device.client_ (release t)).
Proof.
  apply keeps_client. intros w. pose proof (release_keeps t w). destruct (release t w); naive_solver.
Qed.
Lemma keeps_teardown X t : Keeps X (Device.client_ (task_teardown t)).
Proof.
  apply keeps_client. intros w. pose proof (teardown_keeps t w). by destruct (task_teardown t w).
Qed.

(** *** Each operation *)

(** The word of the root node for [id], where there is a root node. *)
Definition word_is s (id v : Z) : Prop := forall root,
  Device.root_node (Device.node s) = Some root ->
  GuestPtr.read_u32 (R:=Empty_set) (Device.memory_of (Device.world s)) root (mul64 id 4)
    (Fatal TaskRootWord) = Ret v.
(** A remote task is not task 0, and the device isolates. *)
Definition made (id : Z) (t : Tk) : Prop :=
  forall r, t = Remote r -> id <> 0 /\ process_isolation = true.

Lemma store_word_spec X root id v s : u32 v ->
  xwp (write_root_word root id v)
    (fun _ s' => same s s' /\ forall d, GuestPtr.read_u32 (R:=Empty_set) (D:=ddeath)
       (Device.memory_of (Device.world s')) root (mul64 id 4) d = Ret v)
    X (fun _ => True) s.
Proof.
  intros Hv. unfold write_root_word, Device.store_u32, Device.client_, Device.client, xwp.
  destruct (GuestPtr.write_u32 _ _ _ _ _ _ _) as [m|[]|] eqn:E; [|done]. simpl. split.
  - split; [|done..]. unfold tasks_of. simpl. apply store_keeps.
  - intros d. rewrite memory_store. by eapply GuestPtr.read_u32_written.
Qed.
Lemma write_word_spec X id v s : u32 v ->
  xwp (write_word id v) (fun _ s' => same s s' /\ word_is s' id v) X (fun _ => True) s.
Proof.
  intros Hv. unfold write_word. rewrite xwp_bind, xwp_asks.
  destruct (Device.root_node (Device.node s)) as [root|] eqn:Er.
  - eapply xwp_mono; [| | |by apply (store_word_spec X)]; [|done|done].
    intros _ s' [Hs Hr]. split; [done|]. intros root' H'. rewrite (same_node _ _ Hs), Er in H'. by simplify_eq.
  - rewrite xwp_ret. split; [done|]. intros root. by rewrite Er.
Qed.

Lemma isolates_made id i : id <> 0 /\ process_isolation = true \/ isolates i = false ->
  forall t : option Tk, (isolates i = true -> exists r, t = Remote <$> r) ->
  (isolates i = false -> exists l, t = Local <$> l) -> forall t', t = Some t' -> made id t'.
Proof.
  intros Hi t Ht Hf t' -> r ->. destruct Hi as [Hi|Hi]; [done|].
  destruct (Hf Hi) as [[l|] ?]; done.
Qed.
Lemma isolation_spec X id s :
  xwp (isolation_of id)
    (fun i s' => same s s' /\ (id <> 0 /\ process_isolation = true \/ isolates i = false))
    X (fun _ => True) s.
Proof.
  unfold isolation_of. destruct (Z.eqb_spec id 0); simpl; [rewrite xwp_ret; by split; [|right]|].
  destruct process_isolation; simpl; [|rewrite xwp_ret; by split; [|right]].
  destruct isolation_follows_guest; [|rewrite xwp_ret; by split; [|left]].
  apply (keeps_then (fun _ => False)); [apply keeps_client, mapper_keeps|done|].
  intros b s' Hs. rewrite xwp_ret. split; [done|by left].
Qed.
Lemma new_task_spec i root length id s :
  id <> 0 /\ process_isolation = true \/ isolates i = false ->
  xwp (new_task i root length id)
    (fun t s' => same s s' /\ forall t', t = Some t' -> made id t')
    (fun e s' => same s s' /\ isolates i = false /\
       (e = Device.Own TaskTooLarge /\ MAX_LOCAL_TASK_LENGTH < length \/
        exists p, e = Device.OfTask p)) (fun _ => True) s.
Proof.
  intros Hi. pose proof (keeps_new_task i root length id s) as H. unfold xwp in *.
  assert (forall t s', new_task i root length id s = Ret (t, s') ->
    (isolates i = true -> exists r, t = Remote <$> r) /\
    (isolates i = false -> exists l, t = Local <$> l)) as Hk.
  { intros t s' E. unfold new_task in E. destruct (isolates i).
    - rewrite run_step in E. destruct (Device.client _ s) as [[r s1]|[]|]; [|done..].
      injection E as <- _. split; [by exists r|done].
    - destruct (_ <? _); [done|]. rewrite run_step in E.
      destruct (in_new _ s) as [[l s1]|[]|]; [|done..]. injection E as <- _. split; [done|by exists l]. }
  destruct (new_task i root length id s) as [[t s']|[e s']|]; [|naive_solver|done].
  destruct (Hk t s' eq_refl) as [H1 H2]. split; [done|]. intros t'. by apply (isolates_made id i).
Qed.

(** Why a creation was refused. *)
Definition refused (id length : Z) s (e : Device.Raise P) : Prop :=
  match e with
  | Device.Own InvalidTaskId => MAX_TASKS <= id
  | Device.Own TaskExists => id < MAX_TASKS /\ is_Some (tasks_of s !! id)
  | Device.Own TaskTooLarge => id < MAX_TASKS /\ tasks_of s !! id = None /\
      MAX_LOCAL_TASK_LENGTH < length
  | Device.Own TaskNotCreated | Device.OfTask _ => id < MAX_TASKS /\ tasks_of s !! id = None
  | _ => False
  end.
Lemma create_spec id root length restoring s :
  xwp (create_task_id id root length restoring)
    (fun _ s' => id < MAX_TASKS /\ tasks_of s !! id = None /\ Device.node s' = Device.node s /\
       (exists t, tasks_of s' = <[id := t]> (tasks_of s) /\ made id t) /\
       (restoring = false -> u32 root -> word_is s' id root))
    (fun e s' => same s s' /\ refused id length s e) (fun _ => True) s.
Proof.
  unfold create_task_id. destruct (Z.leb_spec MAX_TASKS id) as [Hid|Hid].
  { rewrite xwp_raise. by split. }
  rewrite xwp_bind. eapply xwp_mono; [| | |apply (isolation_spec (fun _ _ => False) id s)];
    [|done|done]. intros i s1 [Hs1 Hi]. rewrite xwp_bind, xwp_asks.
  change (BucketOrderMap.get (table (Device.world s1)) id) with (tasks_of s1 !! id).
  rewrite (same_tasks _ _ Hs1). destruct (tasks_of s !! id) as [t|] eqn:Et.
  { rewrite xwp_raise. by split; [|split; [|exists t]]. }
  rewrite xwp_bind. eapply xwp_mono; [| | |by apply new_task_spec]; [| |done].
  2: { intros e s2 (Hs2&Hiso&He). split; [by eapply table_same_trans|].
    destruct He as [[-> Hl]|[p ->]]; by split. }
  intros [t|] s2 [Hs2 Hm]; [|rewrite xwp_raise; split; [by eapply table_same_trans|by split]].
  pose proof (table_same_trans _ _ _ Hs1 Hs2) as Hs. rewrite xwp_bind, xwp_modify.
  set (s3 := Device.with_world _ s2).
  assert (tasks_of s3 = <[id := t]> (tasks_of s)) as H3.
  { unfold s3, tasks_of. simpl. rewrite table_set. change (table (Device.world s2)) with (tasks_of s2).
    by rewrite (same_tasks _ _ Hs). }
  assert (Device.node s3 = Device.node s) as Hn by apply Hs.
  specialize (Hm t eq_refl). destruct restoring.
  { rewrite xwp_ret. split_and!; [done..|by exists t|done]. }
  destruct (decide (u32 root)) as [Hr|Hr].
  - eapply xwp_mono; [| | |by apply (write_word_spec (fun _ _ => False))]; [|done|done].
    intros _ s4 [Hs4 Hw]. split_and!; [done|done| |exists t; split; [|done]|done].
    + by rewrite (same_node _ _ Hs4).
    + by rewrite (same_tasks _ _ Hs4).
  - eapply xwp_mono; [| | |apply (keeps_write_word (fun _ => False) id root s3)];
      [|by intros ? ? [[] _]|done].
    intros a s4 Hs4. simpl in Hs4. split_and!; [done|done| |exists t; split; [|done]|by intros _ ?].
    + by rewrite (same_node _ _ Hs4).
    + by rewrite (same_tasks _ _ Hs4).
Qed.

Lemma clear_word_spec X contended id s :
  xwp (clear_word contended id)
    (fun _ s' => same s s' /\
       (contended && Device.tearing_down_root s = false -> word_is s' id 0))
    X (fun _ => True) s.
Proof.
  unfold clear_word. rewrite xwp_bind, xwp_asks, xwp_bind, xwp_asks.
  destruct contended; cbn [andb].
  - rewrite xwp_bind.
    assert (forall Q, Q tt s -> xwp (match Device.root_node (Device.node s) with
      | Some _ => mret tt | None => mret tt end : M unit) (fun u => Q u) X (fun _ => True) s) as Hskip
      by by intros Q HQ; destruct (Device.root_node _).
    apply Hskip. destruct (Device.tearing_down_root s).
    + rewrite xwp_ret. by split.
    + eapply xwp_mono; [| | |by apply (write_word_spec X)]; [|done|done]. intros _ s' [Hs Hw]. by split.
  - destruct (Device.root_node (Device.node s)) as [root|] eqn:Er.
    + rewrite xwp_bind. eapply xwp_mono; [| | |by apply (store_word_spec X)]; [|done|done].
      intros _ s' [Hs Hw]. rewrite xwp_ret. split; [done|]. intros _ r Hr.
      rewrite (same_node _ _ Hs), Er in Hr. by simplify_eq.
    + rewrite xwp_bind, xwp_ret.
      eapply xwp_mono; [| | |by apply (write_word_spec X)]; [|done|done]. intros _ s' [Hs Hw]. by split.
Qed.

Lemma delete_spec contended id s :
  xwp (delete_task_id contended id)
    (fun b s' => id < MAX_TASKS /\ Device.node s' = Device.node s /\
       if b : bool then is_Some (tasks_of s !! id) /\ tasks_of s' = delete id (tasks_of s) /\
         (contended && Device.tearing_down_root s = false -> word_is s' id 0)
       else tasks_of s !! id = None /\ s' = s)
    (fun e s' => s' = s /\ e = Device.Own InvalidTaskId /\ MAX_TASKS <= id) (fun _ => True) s.
Proof.
  unfold delete_task_id. destruct (Z.leb_spec MAX_TASKS id); [by rewrite xwp_raise|].
  rewrite xwp_bind, xwp_asks.
  change (BucketOrderMap.get (table (Device.world s)) id) with (tasks_of s !! id).
  destruct (tasks_of s !! id) as [t|] eqn:Et; [|by rewrite xwp_ret].
  apply (keeps_then (fun _ => False)); [apply keeps_teardown|done|]. intros _ s1 Hs1.
  rewrite xwp_bind, xwp_modify. set (s2 := Device.with_world _ s1).
  assert (tasks_of s2 = delete id (tasks_of s)) as H2.
  { unfold s2, tasks_of. simpl. rewrite table_set. change (table (Device.world s1)) with (tasks_of s1).
    by rewrite (same_tasks _ _ Hs1). }
  assert (Device.node s2 = Device.node s) as Hn by apply Hs1.
  assert (Device.tearing_down_root s2 = Device.tearing_down_root s) as Htd by apply Hs1.
  apply (keeps_then (fun _ => False)); [apply keeps_release|done|]. intros _ s3 Hs3.
  rewrite xwp_bind. eapply xwp_mono; [| | |apply (clear_word_spec (fun _ _ => False))]; [|done|done].
  intros _ s4 [Hs4 Hw]. rewrite xwp_ret. split_and!; [done| |by exists t| |].
  - by rewrite (same_node _ _ Hs4), (same_node _ _ Hs3).
  - by rewrite (same_tasks _ _ Hs4), (same_tasks _ _ Hs3).
  - intros Hc. apply Hw. by rewrite (same_tearing _ _ Hs3), Htd.
Qed.

Lemma get_spec on id s :
  xwp (get_task_id on id)
    (fun t s' => same s s' /\ tasks_of s !! id = Some t)
    (fun e s' => s' = s /\ e = Device.Own InvalidTask /\ on = Memory.Return /\ tasks_of s !! id = None)
    (fun d => d = Unhandled InvalidTask /\ on = Memory.Die /\ tasks_of s !! id = None) s.
Proof.
  unfold get_task_id. rewrite xwp_bind, xwp_asks.
  change (BucketOrderMap.get (table (Device.world s)) id) with (tasks_of s !! id).
  destruct (tasks_of s !! id) as [t|] eqn:Et.
  - rewrite xwp_bind, xwp_modify, xwp_ret. split; [|done]. split; [|done..].
    unfold tasks_of. apply clone_keeps.
  - by destruct on.
Qed.

(** *** The teardown *)

Lemma each_keeps {E} (f : Tk -> W -> outcome E ddeath W) :
  (forall t w, match f t w with Ret w' => table w' = table w | _ => True end) ->
  forall ts w, match each f ts w with Ret w' => table w' = table w | _ => True end.
Proof.
  intros Hf. induction ts as [|t ts IH]; intros w; [done|]. cbn [each].
  specialize (Hf t w). destruct (f t w) as [w1|e|]; cbn [mbind outcome_bind]; [|done|done].
  specialize (IH w1). destruct (each f ts w1); [congruence|done|done].
Qed.
Lemma copies_keep ts : forall w, table (copies ts w) = table w.
Proof.
  unfold copies. induction ts as [|t ts IH]; intros w; [done|]. cbn [foldl]. by rewrite IH, clone_keeps.
Qed.
Lemma release_table t w : match release t w with Ret w' => table w' = table w | _ => True end.
Proof. pose proof (release_keeps t w). destruct (release t w); naive_solver. Qed.
Lemma teardown_empties w :
  match teardown_tasks w with Ret w' => table w' = BucketOrderMap.new | _ => True end.
Proof.
  unfold teardown_tasks. set (all := BucketOrderMap.values _).
  destruct (each task_teardown all _) as [w1|[]|]; cbn [mbind outcome_bind]; [|done].
  unfold BucketOrderMap.drain.
  set (w2 := set_table _ w1). assert (table w2 = BucketOrderMap.new) as H2 by apply table_set.
  pose proof (each_keeps release release_table (BucketOrderMap.values (table w1)) w2) as Hr.
  destruct (each release _ w2) as [w3|[]|]; cbn [mbind outcome_bind]; [|done].
  pose proof (each_keeps release release_table all w3) as Hr'.
  destruct (each release all w3); congruence.
Qed.

(** *** Reachable tables *)

(** Ids below 256; task 0 in process; no task isolated where the device does not isolate. *)
Record well_formed s : Prop := {
  wf_ids id t : tasks_of s !! id = Some t -> 0 <= id < MAX_TASKS;
  wf_made id t : tasks_of s !! id = Some t -> made id t;
}.
Lemma wf_empty s : tasks_of s = ∅ -> well_formed s.
Proof. intros H. split; intros id t; rewrite H; by intros ?%lookup_empty_Some. Qed.
Lemma wf_same s s' : tasks_of s' = tasks_of s -> well_formed s -> well_formed s'.
Proof. intros H [H1 H2]. split; intros id t; rewrite H; [apply H1|apply H2]. Qed.

(** What reaches the table: the device's commands, its teardown of every task, and everything
    else the device does. *)
Inductive Op : Type :=
| GetTask (on : Memory.OnFault) (id : Z)
| GetUser (id : Z)
| GetKernel (on : Memory.OnFault)
| Create (id root length : Z) (restoring : bool)
| Delete (contended : bool) (id : Z)
| Teardown.
Definition perform (o : Op) : M unit :=
  match o with
  | GetTask on id => _ ← get_task_id on id; mret tt
  | GetUser id => _ ← get_user_task_id id; mret tt
  | GetKernel on => _ ← get_kernel_task on; mret tt
  | Create id root length restoring => create_task_id id root length restoring
  | Delete contended id => _ ← delete_task_id contended id; mret tt
  | Teardown => Device.client_ teardown_tasks
  end.
(** The ids are words. *)
Definition op_ok (o : Op) : Prop :=
  match o with Create id _ _ _ => 0 <= id | _ => True end.
Inductive step s : Device.State W F -> Prop :=
| Returns o s' : op_ok o -> perform o s = Ret (tt, s') -> step s s'
| Raises o e s' : op_ok o -> perform o s = Raised (e, s') -> step s s'
| Elsewhere s' : tasks_of s' = tasks_of s -> step s s'.

Definition left_well_formed (m : M unit) s : Prop :=
  xwp m (fun _ => well_formed) (fun _ => well_formed) (fun _ => True) s.
Lemma left_keeps {A} (m : M A) (f : A -> M unit) s :
  (forall a s', f a s' = Ret (tt, s')) -> well_formed s ->
  xwp m (fun _ s' => tasks_of s' = tasks_of s) (fun _ s' => tasks_of s' = tasks_of s) (fun _ => True) s ->
  left_well_formed (m ≫= f) s.
Proof.
  intros Hf Hw H. unfold left_well_formed. rewrite xwp_bind. eapply xwp_mono; [| | |exact H]; [| |done].
  - intros a s' Hs. unfold xwp. rewrite Hf. by apply (wf_same s).
  - intros e s' Hs. by apply (wf_same s).
Qed.
Lemma get_kernel_keeps on s : well_formed s ->
  xwp (get_kernel_task on)
    (fun l s' => tasks_of s' = tasks_of s /\ tasks_of s !! 0 = Some (Local l))
    (fun e s' => s' = s /\ e = Device.Own InvalidTask /\ on = Memory.Return /\ tasks_of s !! 0 = None)
    (fun d => d = Unhandled InvalidTask /\ on = Memory.Die /\ tasks_of s !! 0 = None) s.
Proof.
  intros Hw. unfold get_kernel_task. rewrite xwp_bind.
  eapply xwp_mono; [| | |apply get_spec]; [|done|done]. intros [l|r] s' [Hs Ht].
  - rewrite xwp_ret. split; [by apply same_tasks|done].
  - exfalso. by destruct (wf_made s Hw 0 (Remote r) Ht r eq_refl).
Qed.
Lemma perform_keeps o s : well_formed s -> op_ok o -> left_well_formed (perform o) s.
Proof.
  intros Hw Ho. destruct o as [on id|id|on|id root length restoring|contended id|]; cbn [perform].
  - apply left_keeps; [done..|]. eapply xwp_mono; [| | |apply get_spec]; [|by intros ? ? [-> _]|done].
    intros t s' [Hs _]. by apply same_tasks.
  - apply left_keeps; [done..|]. unfold get_user_task_id. destruct (id =? 0); [done|].
    eapply xwp_mono; [| | |apply get_spec]; [|by intros ? ? [-> _]|done].
    intros t s' [Hs _]. by apply same_tasks.
  - apply left_keeps; [done..|]. eapply xwp_mono; [| | |by apply get_kernel_keeps];
      [by intros ? ? [? _]|by intros ? ? [-> _]|done].
  - unfold left_well_formed. eapply xwp_mono; [| | |apply create_spec]; [| |done].
    + intros _ s' (Hid&_&_&(t&Ht&Hm)&_). split; intros j u; rewrite Ht; intros Hj.
      * destruct (decide (j = id)) as [->|Hne]; [by split|].
        rewrite lookup_insert_ne in Hj by done. by apply (wf_ids s Hw j u).
      * destruct (decide (j = id)) as [->|Hne].
        { rewrite lookup_insert_eq in Hj. by injection Hj as <-. }
        rewrite lookup_insert_ne in Hj by done. by apply (wf_made s Hw j u).
    + intros e s' [Hs _]. by apply (wf_same s); [apply same_tasks|].
  - unfold left_well_formed. rewrite xwp_bind. eapply xwp_mono; [| | |apply delete_spec]; [| |done].
    + intros b s' (_&_&Hb). rewrite xwp_ret. destruct b.
      * destruct Hb as (_&Hd&_). split; intros j u; rewrite Hd; intros [_ Hj]%lookup_delete_Some.
        { by apply (wf_ids s Hw j u). } by apply (wf_made s Hw j u).
      * by destruct Hb as [_ ->].
    + by intros e s' [-> _].
  - unfold left_well_formed, xwp, Device.client_, Device.client.
    pose proof (teardown_empties (Device.world s)) as Ht.
    destruct (teardown_tasks (Device.world s)) as [w|[]|]; [|done]. by apply wf_empty.
Qed.
Lemma table_step_keeps s s' : step s s' -> well_formed s -> well_formed s'.
Proof.
  intros Hs Hw. destruct Hs as [o s' Ho E|o e s' Ho E|s' E].
  - pose proof (perform_keeps o s Hw Ho) as H. unfold left_well_formed, xwp in H. by rewrite E in H.
  - pose proof (perform_keeps o s Hw Ho) as H. unfold left_well_formed, xwp in H. by rewrite E in H.
  - by apply (wf_same s).
Qed.
Lemma reached_keeps s s' : rtc step s s' -> well_formed s -> well_formed s'.
Proof. induction 1 as [|s s1 s' Hs _ IH]; [done|]. intros Hw. by eapply IH, table_step_keeps. Qed.

(** ** The properties *)

(** C27: the kernel task runs in process. From an empty table, after any commands, teardowns and
    whatever else the device does, every id in the table is below 256 and a task is isolated
    only where the device isolates and the task is not task 0; so a lookup of the kernel task
    answers task 0's local task, or is refused for want of a task 0: its refusal of a remote
    task 0 is never reached. *)
Theorem kernel_task_is_local s s' : tasks_of s = ∅ -> rtc step s s' ->
  (forall id t, tasks_of s' !! id = Some t -> 0 <= id < MAX_TASKS /\ made id t) /\
  forall on, match get_kernel_task on s' with
  | Ret (l, s2) => tasks_of s' !! 0 = Some (Local l) /\ tasks_of s2 = tasks_of s'
  | Raised (e, s2) => s2 = s' /\ e = Device.Own InvalidTask /\ on = Memory.Return /\
      tasks_of s' !! 0 = None
  | Died d => d = Unhandled InvalidTask /\ on = Memory.Die /\ tasks_of s' !! 0 = None
  end.
Proof.
  intros H0 Hr. assert (well_formed s') as Hw by (by eapply reached_keeps, wf_empty).
  split; [intros id t Ht; split; [by eapply wf_ids|by eapply wf_made]|].
  intros on. pose proof (get_kernel_keeps on s' Hw) as H. unfold xwp in H.
  destruct (get_kernel_task on s') as [[l s2]|[e s2]|d]; naive_solver.
Qed.

(** What a creation answers. One that returns has made a task of an absent id below 256,
    isolated only where the device isolates and the id is not 0, with every other id as it was;
    unless restoring, its word in the root node, where there is one, reads back as its root. One
    that raises leaves the table as it was: an id from 256 up, an id that is there, a local task
    above the largest, or an absent id whose task was not made. And where a local task's parts
    answer and nothing is to be written, it returns. *)
Theorem create_task_id_answers id root length restoring s :
  match create_task_id id root length restoring s with
  | Ret (_, s') => id < MAX_TASKS /\ tasks_of s !! id = None /\
      (exists t, tasks_of s' = <[id := t]> (tasks_of s) /\ made id t) /\
      (restoring = false -> u32 root -> word_is s' id root)
  | Raised (e, s') => tasks_of s' = tasks_of s /\ refused id length s e
  | Died _ => True
  end /\
  (forall l w, id = 0 \/ process_isolation = false -> id < MAX_TASKS -> tasks_of s !! id = None ->
    length <= MAX_LOCAL_TASK_LENGTH ->
    new_local root length id (Device.world s) = Ret (Some l, w) ->
    restoring = true \/ Device.root_node (Device.node s) = None ->
    exists s', create_task_id id root length restoring s = Ret (tt, s') /\
      tasks_of s' = <[id := Local l]> (tasks_of s)).
Proof.
  split.
  - pose proof (create_spec id root length restoring s) as H. unfold xwp in H.
    destruct (create_task_id id root length restoring s) as [[[] s']|[e s']|]; [naive_solver| |done].
    destruct H as [Hs He]. split; [by apply same_tasks|done].
  - intros l w Hi Hid Hn Hl Hnew Hw. unfold create_task_id.
    rewrite (proj2 (Z.leb_gt _ _) Hid), run_step. unfold isolation_of.
    replace ((id =? 0) || negb process_isolation) with true
      by (destruct Hi as [-> | ->]; [done|by rewrite orb_true_r]).
    cbn [mret run_ret]. rewrite run_step. unfold asks.
    change (BucketOrderMap.get (table (Device.world s)) id) with (tasks_of s !! id). rewrite Hn.
    rewrite run_step. unfold new_task. cbn [isolates].
    rewrite (proj2 (Z.ltb_ge _ _) Hl), run_step. unfold in_new. rewrite Hnew.
    cbn [mret run_ret fmap option_fmap option_map]. rewrite run_step. unfold modify.
    pose proof (new_local_keeps root length id (Device.world s)) as Hk. rewrite Hnew in Hk.
    set (s3 := Device.with_world _ _).
    assert (tasks_of s3 = <[id := Local l]> (tasks_of s)) as H3.
    { unfold s3, tasks_of. simpl. by rewrite table_set, Hk. }
    exists s3. split; [|done]. destruct restoring; [done|]. unfold write_word. rewrite run_step.
    unfold asks. change (Device.node s3) with (Device.node s). by destruct Hw as [| ->].
Qed.

(** C28: a deletion undoes a creation. After a creation that returned, a deletion of the id never
    raises; where it returns it found the task, the table is what it was before the creation, a
    lookup of the id raises, and the id's word in the root node, where there is one, reads zero
    unless the deletion met the root being torn down by another thread. *)
Theorem create_then_delete id root length restoring contended s s1 :
  create_task_id id root length restoring s = Ret (tt, s1) ->
  match delete_task_id contended id s1 with
  | Ret (found, s2) => found = true /\ tasks_of s2 = tasks_of s /\
      get_task_id Memory.Return id s2 = Raised (Device.Own InvalidTask, s2) /\
      (contended && Device.tearing_down_root s1 = false -> word_is s2 id 0)
  | Raised _ => False
  | Died _ => True
  end.
Proof.
  intros Hc. pose proof (create_spec id root length restoring s) as H. unfold xwp in H.
  rewrite Hc in H. destruct H as (Hid&Hn&_&(t&Ht&_)&_).
  pose proof (delete_spec contended id s1) as H. unfold xwp in H.
  destruct (delete_task_id contended id s1) as [[b s2]|[e s2]|]; [| |done].
  - destruct H as (_&_&H). rewrite Ht, lookup_insert_eq in H. destruct b; [|by destruct H].
    destruct H as (_&Hd&Hw). assert (tasks_of s2 = tasks_of s) as H2 by by rewrite Hd, delete_insert_id.
    split_and!; [done|done| |done]. unfold get_task_id. rewrite run_step. unfold asks.
    change (BucketOrderMap.get (table (Device.world s2)) id) with (tasks_of s2 !! id).
    by rewrite H2, Hn.
  - destruct H as (_&_&H). lia.
Qed.
End TaskTable.

(** ** The order of a teardown *)

(** Parts that answer and record what was asked. *)
Inductive Event : Type :=
| Cloned (t : Task Z Z)
| Torn (t : Task Z Z)
| Released (t : Task Z Z)
| Flushed (t : Task Z Z).
Record Log := MkLog {
  log_table : BucketOrderMap.t (Task Z Z);
  log_memory : GuestPtr.memory;
  log_events : list Event;
}.
Definition said (e : Event) (w : Log) : Log :=
  MkLog (log_table w) (log_memory w) (log_events w ++ [e]).
#[local] Instance log_has_table : Table Log (Task Z Z) := {
  table := log_table;
  set_table m w := MkLog m (log_memory w) (log_events w);
}.
#[local] Instance log_tasks : Tasks Log Z Z Empty_set := {
  mapper_descriptor_base w := Ret (None, w);
  launch root _ _ w := Ret (Some root, w);
  new_local root _ _ w := Ret (Some root, w);
  task_teardown t w := Ret (said (Torn t) w);
  flush_resources t w := Ret (said (Flushed t) w);
  clone t w := said (Cloned t) w;
  release t w := Ret (said (Released t) w);
}.

Lemma said_all (f : Task Z Z -> Event) ts : forall w,
  each (E := Empty_set) (fun t w => Ret (said (f t) w)) ts w =
    Ret (MkLog (log_table w) (log_memory w) (log_events w ++ (f <$> ts))).
Proof.
  induction ts as [|t ts IH]; intros w; simpl.
  - rewrite app_nil_r. by destruct w.
  - rewrite IH. simpl. by rewrite <- app_assoc.
Qed.
Lemma copies_said ts : forall w : Log, copies ts w =
  MkLog (log_table w) (log_memory w) (log_events w ++ (Cloned <$> ts)).
Proof.
  unfold copies. induction ts as [|t ts IH]; intros w; simpl.
  - rewrite app_nil_r. by destruct w.
  - rewrite IH. simpl. by rewrite <- app_assoc.
Qed.

(** C29: the teardown of every task. Where its parts answer, it returns with the table empty; it
    has torn down each task of the table once, in ascending order of their ids, between taking
    a reference to each and letting go of the table's and then of its own, in the same order:
    no reference it took is left. *)
Theorem teardown_in_order (w : Log) : exists all ids,
  teardown_tasks w = Ret (MkLog BucketOrderMap.new (log_memory w)
    (log_events w ++ (Cloned <$> all) ++ (Torn <$> all) ++ (Released <$> all) ++ (Released <$> all))) /\
  length ids = length all /\ StronglySorted Z.lt ids /\
  forall id t, log_table w !! id = Some t <-> (id, t) ∈ zip ids all.
Proof.
  destruct (BucketOrderMap.bucket_order (log_table w)) as [(ids&Hl&Hs&He) _].
  exists (BucketOrderMap.values (log_table w)), ids. split; [|done].
  unfold teardown_tasks. rewrite copies_said.
  rewrite (said_all Torn). simpl. rewrite (said_all Released). simpl.
  rewrite (said_all Released). simpl. by rewrite <- !app_assoc.
Qed.

#[local] Instance log_clients : Device.Clients Log Z (Task Z Z) Empty_set := {
  Device.memory_of := log_memory;
  Device.store_memory m w := MkLog (log_table w) m (log_events w);
  Device.try_new_root_on _ _ _ w := Ret (Some 0, w);
  Device.new_child_on _ id _ w := Ret (Some (id + 4), w);
  Device.fifo_start _ w := Ret w;
  Device.fifo_stop _ w := Ret ([], w);
  Device.fifo_drain _ w := Ret ([], w);
  Device.fifo_resume _ w := Ret ([], w);
  Device.fifo_poke _ w := Ret w;
  Device.set_root_written _ _ w := Ret w;
  Device.stamp_index f _ := f;
  Device.fault_offset _ _ := Device.NOT_FAULTED;
  Device.root_read _ _ := None;
  Device.tasks w := BucketOrderMap.values (log_table w);
  Device.fifo_deleted _ _ w := Ret w;
  Device.teardown_tasks := teardown_tasks;
  Device.teardown_displays _ _ w := Ret w;
  Device.take_report_budget w := (false, w);
  Device.report_stamp_wait_timeout w := Ret w;
}.
#[local] Instance log_lawful : LawfulTasks (W := Log) (F := Z) (L := Z) (R := Z) (P := Empty_set).
Proof. by split. Qed.

(** ** Witnesses *)

(** An isolating device with a root node at the first byte past the zero region. *)
Definition sample_world : Log := MkLog BucketOrderMap.new (fun _ => x00) [].
Definition sample_device : Device.State Log Z :=
  Device.MkState (RootTask.MkState 0 0 0 0 (Some RootTask.fresh) None RootTask.Running [] [])
    (Device.MkRootNode (Some GuestPtr.ZERO_REGION_END) None)
    (Device.MkRootFifo 0 0 0 0 None None None) (replicate 64 None)
    Waits.new_waiting_info 0 (Device.MkInterrupts 0 0 0) false GuestRecords.sample_features
    sample_world.
Definition sample_after (id root : Z) (s : Device.State Log Z) : Device.State Log Z :=
  match create_task_id true false id root 0x1000 false s with Ret (_, s') => s' | _ => s end.
Definition sample_created : Device.State Log Z := sample_after 7 77 (sample_after 0 70 sample_device).
Definition creates (id root : Z) (s : Device.State Log Z) : bool :=
  match create_task_id true false id root 0x1000 false s with Ret _ => true | _ => false end.
Lemma sample_creates id root s : creates id root s = true ->
  create_task_id true false id root 0x1000 false s = Ret (tt, sample_after id root s).
Proof. unfold creates, sample_after. by destruct (create_task_id _ _ _ _ _ _ s) as [[[] ?]|[]|]. Qed.
Lemma sample_first : creates 0 70 sample_device = true.
Proof. by vm_compute. Qed.
Lemma sample_second : creates 7 77 (sample_after 0 70 sample_device) = true.
Proof. by vm_compute. Qed.
Lemma sample_tasks_reached : rtc (step true false) sample_device sample_created.
Proof.
  eapply rtc_l; [by apply (Returns _ _ _ (Create 0 70 0x1000 false)); [|apply sample_creates, sample_first]|].
  eapply rtc_l; [|constructor].
  by apply (Returns _ _ _ (Create 7 77 0x1000 false)); [|apply sample_creates, sample_second].
Qed.
Lemma kernel_task_is_local_witness :
  rtc (step true false) sample_device sample_created /\
  tasks_of sample_created !! 7 = Some (Remote 77) /\
  match get_kernel_task Memory.Die sample_created with
  | Ret (l, s2) => tasks_of sample_created !! 0 = Some (Local l) /\ tasks_of s2 = tasks_of sample_created
  | Raised _ => False
  | Died d => d = Unhandled InvalidTask
  end.
Proof.
  split; [exact sample_tasks_reached|]. split; [by vm_compute|].
  pose proof (proj2 (kernel_task_is_local true false sample_device sample_created eq_refl
    sample_tasks_reached) Memory.Die) as H.
  revert H. generalize (get_kernel_task Memory.Die sample_created). intros [[l s2]|[e s2]|d]; [done| |].
  - by intros (_&_&?&_).
  - by intros [? _].
Defined.
Lemma create_task_id_answers_witness :
  (forall id root length restoring s,
     match create_task_id (W := Log) (F := Z) true false id root length restoring s with
     | Ret (_, s') => exists t, tasks_of s' = <[id := t]> (tasks_of s) /\ made true id t
     | Raised (e, s') => tasks_of s' = tasks_of s /\ refused id length s e
     | Died _ => True
     end) /\
  exists s', create_task_id true false 0 70 0x1000 true sample_device = Ret (tt, s') /\
    tasks_of s' = <[0 := Local 70]> (tasks_of sample_device).
Proof.
  split.
  - intros id root length restoring s.
    pose proof (proj1 (create_task_id_answers true false id root length restoring s)) as H.
    destruct (create_task_id _ _ _ _ _ _ _) as [[[] s']|[e s']|]; naive_solver.
  - apply (proj2 (create_task_id_answers true false 0 70 0x1000 true sample_device) 70 sample_world);
      [by left|done|done|done|done|by left].
Defined.
Lemma create_then_delete_witness :
  creates 7 77 (sample_after 0 70 sample_device) = true /\
  match delete_task_id false 7 sample_created with
  | Ret (found, s2) => found = true /\ tasks_of s2 = tasks_of (sample_after 0 70 sample_device)
  | Raised _ => False
  | Died _ => True
  end.
Proof.
  split; [exact sample_second|].
  pose proof (create_then_delete true false 7 77 0x1000 false false (sample_after 0 70 sample_device)
    sample_created (sample_creates 7 77 _ sample_second)) as H.
  revert H. generalize (delete_task_id false 7 sample_created).
  intros [[b s2]|[e s2]|d]; [|done|done]. by intros (?&?&_).
Defined.
End TaskTable.
