(* ===== verification/TaskKinds.v ===== *)
(** * TaskKinds: what the tasks raise and where they end the process
    (src/crates/reims-vgpu-core/src/tasks.rs, tasks/local.rs, tasks/remote.rs) *)

From S2P Require Import Prelude MemoryKinds.
From Stdlib Require Import Strings.String.
Open Scope string_scope.
Open Scope Z_scope.

Module TaskKinds.

(** What a local task raises. *)
Inductive LocalRaise : Type :=
| Range
| CopyRange
| NoPageTable
| UnalignedOffset
| UnalignedLength
| ZeroLength
| HostMap
| HostUnmap
| NoMapping
| ReadOnlyMapping
| NullAddress
| NoBuffer
| NoObjectLists
| NotBacking
| NoPipeline
| ReplyLength.

(** The dotted id. *)
Definition local_raise_id (k : LocalRaise) : string :=
  match k with
  | Range => "tasks.local.range"
  | CopyRange => "tasks.local.copy_range"
  | NoPageTable => "tasks.local.no_page_table"
  | UnalignedOffset => "tasks.local.unaligned_offset"
  | UnalignedLength => "tasks.local.unaligned_length"
  | ZeroLength => "tasks.local.zero_length"
  | HostMap => "tasks.local.host_map"
  | HostUnmap => "tasks.local.host_unmap"
  | NoMapping => "tasks.local.mapping"
  | ReadOnlyMapping => "tasks.local.read_only_mapping"
  | NullAddress => "tasks.local.null_address"
  | NoBuffer => "tasks.local.buffer"
  | NoObjectLists => "tasks.local.object_lists"
  | NotBacking => "tasks.local.backing"
  | NoPipeline => "tasks.local.pipeline"
  | ReplyLength => "tasks.local.reply_length"
  end.

(** Where a local task ends the process. *)
Inductive LocalDeath : Type :=
| NullReply
| LocalDeviceGone
| DeviceDeallocating
| NoPagingEvent
| NoFifoEvent
| NotKernelTask
| ComputePagedBacking
| NoMapperSurfaces.

(** The dotted id, and the kind of fault. *)
Definition local_death_id (k : LocalDeath) : string :=
  match k with
  | NullReply => "tasks.local.null_reply"
  | LocalDeviceGone => "tasks.local.device_gone"
  | DeviceDeallocating => "tasks.local.device_deallocating"
  | NoPagingEvent => "tasks.local.no_paging_event"
  | NoFifoEvent => "tasks.local.no_fifo_event"
  | NotKernelTask => "tasks.local.not_kernel_task"
  | ComputePagedBacking => "tasks.local.compute_paged_backing"
  | NoMapperSurfaces => "tasks.local.no_mapper_surfaces"
  end.
Definition local_death_fault (k : LocalDeath) : Death.DeathKind :=
  match k with
  | NullReply | LocalDeviceGone => Death.NullDeref
  | DeviceDeallocating => Death.Abort
  | NoPagingEvent | NoFifoEvent | NotKernelTask | ComputePagedBacking | NoMapperSurfaces =>
      Death.Assert
  end.

(** Where a remote task ends the process. *)
Inductive RemoteDeath : Type :=
| RemoteDeviceGone
| StampIndex
| TokenSignalledTwice.

(** The dotted id, and the kind of fault. *)
Definition remote_death_id (k : RemoteDeath) : string :=
  match k with
  | RemoteDeviceGone => "tasks.remote.device_gone"
  | StampIndex => "tasks.remote.stamp_index"
  | TokenSignalledTwice => "tasks.remote.token_signalled_twice"
  end.
Definition remote_death_fault (k : RemoteDeath) : Death.DeathKind :=
  match k with
  | RemoteDeviceGone => Death.NullDeref
  | StampIndex | TokenSignalledTwice => Death.Assert
  end.

(** What the tasks raise. *)
Inductive RaiseKind : Type :=
| ResourceLookup
| BufferLength
| ResourceIndex
| LocalRaised (k : LocalRaise).

(** The dotted id. *)
Definition raise_id (k : RaiseKind) : string :=
  match k with
  | ResourceLookup => "tasks.resource.lookup"
  | BufferLength => "tasks.buffer.length"
  | ResourceIndex => "tasks.resource.index"
  | LocalRaised k => local_raise_id k
  end.

(** An operation the shared core leaves to the task kinds. *)
Inductive Unsupported : Type := GetObject | UnsupportedWritableCursor | AddressRanges.

(** Where the tasks end the process. *)
Inductive DeathKind : Type :=
| TornDown
| TaskGone
| IsUnsupported (u : Unsupported)
| NullTaskRoot
| UnmappedEntry
| PlacementCopy
| ResourceRecord
| MappingSize
| LocalDied (k : LocalDeath)
| RemoteDied (k : RemoteDeath).

(** The dotted id, and the kind of fault. *)
Definition death_id (k : DeathKind) : string :=
  match k with
  | TornDown => "tasks.torn_down"
  | TaskGone => "tasks.task_gone"
  | IsUnsupported GetObject => "tasks.unsupported.get_object"
  | IsUnsupported UnsupportedWritableCursor => "tasks.unsupported.writable_cursor"
  | IsUnsupported AddressRanges => "tasks.unsupported.address_ranges"
  | NullTaskRoot => "tasks.root.null"
  | UnmappedEntry => "tasks.object_list.unmapped_entry"
  | PlacementCopy => "tasks.placement_list.copy"
  | ResourceRecord => "tasks.resource.record"
  | MappingSize => "tasks.mapping.size"
  | LocalDied k => local_death_id k
  | RemoteDied k => remote_death_id k
  end.
Definition death_fault (k : DeathKind) : Death.DeathKind :=
  match k with
  | RemoteDied k => remote_death_fault k
  | TornDown | TaskGone | NullTaskRoot | UnmappedEntry | PlacementCopy => Death.NullDeref
  | IsUnsupported _ => Death.Abort
  | ResourceRecord => Death.OutOfBounds
  | MappingSize => Death.Assert
  | LocalDied k => local_death_fault k
  end.
Definition death_site (k : DeathKind) : Death.DeathSite :=
  Death.MkDeathSite (death_fault k) (death_id k) 0.

(** A task's death: one of its own, of the memory it is made of, the end of a task's own
    thread, or one elsewhere. *)
Inductive Death (D : Type) : Type :=
| Fatal (k : DeathKind)
| Unhandled (k : RaiseKind)
| OfMemory (d : Memory.mdeath)
| Stopped
| Elsewhere (d : D).
Arguments Fatal {D}. Arguments Unhandled {D}. Arguments OfMemory {D}.
Arguments Stopped {D}. Arguments Elsewhere {D}.

(** A task's raise: one of its own, of its memory, or of the device. *)
Inductive Raise (P : Type) : Type :=
| Own (k : RaiseKind)
| RaisedMemory (k : Memory.RaiseKind)
| RaisedDevice (p : P).
Arguments Own {P}. Arguments RaisedMemory {P}. Arguments RaisedDevice {P}.

#[export] Instance LocalRaise_eq_dec : EqDecision LocalRaise.
Proof. solve_decision. Defined.
#[export] Instance RaiseKind_eq_dec : EqDecision RaiseKind.
Proof. solve_decision. Defined.

End TaskKinds.
