(* ===== verification/ObjectLists.v ===== *)
(** * ObjectLists: where a task's object list and placement list are
    (src/crates/reims-vgpu-core/src/tasks/object_lists.rs)

    The two lists of a task, as offsets in the task and as addresses in the host, over the
    class [Host]: the task that makes a list's mapping, the references to mappings, and
    guest memory as the host's addresses show it. Two host addresses may show one byte
    of the guest's ([frame]), so a store through one mapping is seen through another. The
    lists' lock is released around every call into the task, and no other thread runs
    here in between; the public lock only guards the mapping of the lists. The error texts
    of the getters are values, the log lines are not modelled. *)

From S2P Require Import Prelude Num MemoryKinds TaskKinds GuestRecords GuestPtr.
From stdpp Require Import gmultiset relations.
Open Scope Z_scope.

Module ObjectLists.
Import TaskKinds GuestRecords.

Inductive ObjectListKind : Type :=
| Legacy (object_list_mapped : bool)
| MemoryMap.

Record ListRange := MkListRange { lr_offset : Z; lr_length : Z }.

(** One list; [Ref] is a counted reference to a mapping. *)
Record List (Ref : Type) := MkList {
  mapping : option Ref;
  address : Z;
  offset : Z;
  length : Z;
  mapped_length : Z;
}.
Arguments MkList {Ref}. Arguments mapping {Ref}. Arguments address {Ref}.
Arguments offset {Ref}. Arguments length {Ref}. Arguments mapped_length {Ref}.

(** The address a task answers for its memory, with the mapping that backs it. *)
Record MappedAddress (Ref : Type) := MkMapped { ma_address : Z; ma_mapping : option Ref }.
Arguments MkMapped {Ref}. Arguments ma_address {Ref}. Arguments ma_mapping {Ref}.
Definition unmapped {Ref} (address : Z) : MappedAddress Ref := MkMapped address None.

(** What the lists ask of their task and of the host. [P] is what the task raises, [D]
    how it ends the process. *)
Class Host (W Ref P D : Type) := {
  (** Whether the weak reference to the task upgrades. *)
  task_lives : W -> bool;
  new_virtual_mapping : Z -> Z -> bool -> W -> outcome (P * W) (Death D) (option Ref * W);
  mapped_address_for_offset : Z -> Z -> bool -> W ->
    outcome (P * W) (Death D) (MappedAddress Ref * W);
  (** The end of a raise that is taken here. *)
  land : P -> W -> W;
  virtual_address : Ref -> Z;
  (** Another reference to a mapping, and the drop of one: the last unmaps. *)
  retain : Ref -> W -> W;
  release : Ref -> W -> outcome Empty_set (Death D) W;
  (** The guest's memory, and the byte of it a host address shows. *)
  ram : W -> GuestPtr.memory;
  set_ram : GuestPtr.memory -> W -> W;
  frame : W -> Z -> Z;
  (** Whether this thread is an isolated task's that has ended. *)
  task_ended : W -> bool;
}.

Definition OBJECT_ENTRY_SIZE : Z := 12.
Definition OBJECT_PLACEMENT_SIZE : Z := 16.
(** The list fields of [APVTaskRoot2], as byte offsets of the packed record. *)
Definition ROOT_OBJECT_LIST_OFFSET : Z := 8.
Definition ROOT_OBJECT_LIST_LENGTH : Z := 16.
Definition ROOT_PLACEMENT_LIST_OFFSET : Z := 28.
Definition ROOT_PLACEMENT_LIST_LENGTH : Z := 36.

(** The getters' errors. *)
Inductive EntryError : Type :=
| OutOfRange (index count : Z)
| ObjectsNotMapped
| PlacementsNotMapped.

Section OneList.
Context {Ref : Type}.
Definition list_new : List Ref := MkList None 0 0 0 0.
Definition unmap (l : List Ref) : option Ref * List Ref :=
  (mapping l, MkList None 0 (offset l) (length l) (mapped_length l)).
Definition adopt (va : Ref -> Z) (m : option Ref) (l : List Ref)
    : option Ref * bool * List Ref :=
  match m with
  | Some r => (mapping l, true, MkList m (va r) (offset l) (length l) (mapped_length l))
  | None => (mapping l, false, MkList m (address l) (offset l) (length l) (mapped_length l))
  end.
Definition with_place (off len mapped_len : Z) (l : List Ref) : List Ref :=
  MkList (mapping l) (address l) off len mapped_len.
Definition with_mapping (m : option Ref) (a : Z) (l : List Ref) : List Ref :=
  MkList m a (offset l) (length l) (mapped_length l).
End OneList.

Section ObjectLists.
Context {W Ref P D : Type} `{HO : Host W Ref P D} {target : Target}.

(** The lists, and the world they are in. *)
Record State := MkState {
  objects : List Ref;
  object_count : Z;
  placements : List Ref;
  kind : ObjectListKind;
  world : W;
}.
Definition with_objects (l : List Ref) (s : State) : State :=
  MkState l (object_count s) (placements s) (kind s) (world s).
Definition with_count (n : Z) (s : State) : State :=
  MkState (objects s) n (placements s) (kind s) (world s).
Definition with_placements (l : List Ref) (s : State) : State :=
  MkState (objects s) (object_count s) l (kind s) (world s).
Definition with_kind (k : ObjectListKind) (s : State) : State :=
  MkState (objects s) (object_count s) (placements s) k (world s).
Definition with_world (w : W) (s : State) : State :=
  MkState (objects s) (object_count s) (placements s) (kind s) w.

Local Abbreviation M := (Run State Empty_set (Death D)).

(** Whether the lists' task was made with argument buffers, and its length. *)
Context (task_length : Z) (supports_argument_buffers : bool).

Definition new (k : ObjectListKind) (w : W) : State := MkState list_new 0 list_new k w.

Definition is_legacy (s : State) : bool :=
  match kind s with Legacy _ => true | MemoryMap => false end.
Definition object_list_mapped (s : State) : bool :=
  match kind s with
  | Legacy mapped => mapped
  | MemoryMap => negb (GuestPtr.is_null (address (objects s)))
  end.
Definition placement_list_mapped (s : State) : bool :=
  match kind s with
  | Legacy _ => false
  | MemoryMap => negb (GuestPtr.is_null (address (placements s)))
  end.

(** *** The world's calls *)

Definition retain_mapping (m : option Ref) : M unit :=
  match m with
  | Some r => modify (fun s => with_world (retain r (world s)) s)
  | None => mret tt
  end.
Definition drop_mapping (m : option Ref) : M unit :=
  match m with
  | Some r => fun s =>
      match release r (world s) with
      | Ret w => Ret (tt, with_world w s)
      | Raised e => match e with end
      | Died d => Died d
      end
  | None => mret tt
  end.

(** A call into the task, its raise a value. *)
Definition calling {A} (f : W -> outcome (P * W) (Death D) (A * W)) : M (P + A) := fun s =>
  match f (world s) with
  | Ret (a, w) => Ret (inr a, with_world w s)
  | Raised (p, w) => Ret (inl p, with_world w s)
  | Died d => Died d
  end.
(** A step of the lists alone. *)
Definition step_lists {A} (f : State -> A * State) : M A := fun s => Ret (f s).

(** Guest memory as the host's addresses show it, and [bs] stored from [a]. *)
Definition view (w : W) : GuestPtr.memory := fun a => ram w (frame w a).
Definition store (a : Z) (bs : list byte) (w : W) : W :=
  set_ram (Num.mem_write (fun i => frame w (a + i)) 0 bs (ram w)) w.

(** A sized store to guest memory. *)
Definition write_n (n : nat) (self off v : Z) (k : DeathKind) : M unit := fun s =>
  _ ← GuestPtr.stop_if_task_ended Stopped (task_ended (world s));
  a ← GuestPtr.check self off (Z.of_nat n) (Fatal k);
  Ret (tt, with_world (store a (le_bytes n v) (world s)) s).
(** A bulk store. *)
Definition write_bytes (self off : Z) (bytes : list byte) (k : DeathKind) : M unit := fun s =>
  _ ← GuestPtr.stop_if_task_ended Stopped (task_ended (world s));
  match bytes with
  | [] => Ret (tt, s)
  | _ =>
      a ← GuestPtr.check self off (Z.of_nat (List.length bytes)) (Fatal k);
      Ret (tt, with_world (store a bytes (world s)) s)
  end.
Definition write_u64 := write_n 8.
Definition write_u32 := write_n 4.
(** What a load answers, the state as it was. *)
Definition load {A} (f : GuestPtr.memory -> outcome Empty_set (Death D) A) : M A := fun s =>
  match f (view (world s)) with
  | Ret a => Ret (a, s)
  | Raised e => match e with end
  | Died d => Died d
  end.

(** *** Entries *)

Definition load_object_entry (entry : Z) : M ObjectEntry :=
  high ← load (fun m => GuestPtr.read_u32 m entry 8 (Fatal UnmappedEntry));
  low ← load (fun m => GuestPtr.read_u64 m entry 0 (Fatal UnmappedEntry));
  mret (MkObjectEntry (Num.low_u32 low) (Z.lor (shl64 high 32) (shr64 low 32))).

Definition list_mapped_length (end_ off : Z) : Z :=
  sub64 (Z.land (add64 end_ APV_PAGE_MASK) (not64 APV_PAGE_MASK)) off.

Definition get_object_entry (index : Z) : M (EntryError + ObjectEntry) :=
  mapped ← asks object_list_mapped;
  if mapped : bool then
    count ← asks object_count;
    if count <=? index then mret (inl (OutOfRange index count))
    else
      at_ ← asks (fun s => address (objects s));
      e ← load_object_entry (GuestPtr.offset at_ (mul64 index OBJECT_ENTRY_SIZE));
      mret (inr e)
  else mret (inl ObjectsNotMapped).

Definition get_placement_list_entry (index : Z) : M (EntryError + option Z) :=
  mapped ← asks placement_list_mapped;
  if mapped : bool then
    count ← asks object_count;
    if count <=? index then mret (inl (OutOfRange index count))
    else
      at_ ← asks (fun s => address (placements s));
      mret (inr (Some (GuestPtr.offset at_ (mul64 index OBJECT_PLACEMENT_SIZE))))
  else
    len ← asks (fun s => length (placements s));
    if supports_argument_buffers && negb (len =? 0) then mret (inl PlacementsNotMapped)
    else mret (inr None).

(** *** Mapping and copying *)

Definition land_raise (p : P) : M unit := modify (fun s => with_world (land p (world s)) s).
Definition new_mapping (legacy : bool) (off len : Z) (writable : bool) : M (option Ref) :=
  if legacy then mret None
  else
    lives ← asks (fun s => task_lives (world s));
    if lives : bool then
      r ← calling (new_virtual_mapping off len writable);
      match r with
      | inr m => mret m
      | inl p => _ ← land_raise p; mret None
      end
    else mret None.

Definition COPY_CHUNK : Z := APV_PAGE_SIZE.

(** [num::forward_copy] with the two closures of the copy: a chunk read, then written. *)
Fixpoint copy_chunks (fuel : nat) (dst src n size done : Z) : M unit :=
  match fuel with
  | O => mret tt
  | S fuel =>
      if done <? n then
        let len := Z.min (sub64 n done) size in
        bytes ← load (fun m => GuestPtr.copy_to m src done len (Fatal PlacementCopy));
        _ ← write_bytes dst done bytes PlacementCopy;
        copy_chunks fuel dst src n size (add64 done len)
      else mret tt
  end.

Definition copy_placement_list (dst src n : Z) : M unit :=
  let size := Z.min n COPY_CHUNK in
  if size =? 0 then mret tt else copy_chunks (Z.to_nat n) dst src n size 0.

(** The lock's unmap of the object list: what it released. *)
Definition take_object_list : M (option Ref) := step_lists (fun s =>
  match kind s with
  | Legacy _ => (None, with_kind (Legacy false) s)
  | MemoryMap => let '(released, l) := unmap (objects s) in (released, with_objects l s)
  end).
Definition take_placement_list : M (option Ref) := step_lists (fun s =>
  let '(released, l) := unmap (placements s) in (released, with_placements l s)).
Definition adopt_objects (m : option Ref) : M bool :=
  '(previous, mapped) ← step_lists (fun s =>
    let '(previous, mapped, l) := adopt virtual_address m (objects s) in
    (previous, mapped, with_objects l s));
  _ ← drop_mapping previous;
  mret mapped.
Definition adopt_placements (m : option Ref) : M bool :=
  '(previous, mapped) ← step_lists (fun s =>
    let '(previous, mapped, l) := adopt virtual_address m (placements s) in
    (previous, mapped, with_placements l s));
  _ ← drop_mapping previous;
  mret mapped.

(** *** Setting the lists *)

(** The task root's list fields, the placement list's where [both]. *)
Definition write_root (ol_off ol_len pl_off pl_len : Z) (both : bool) (root : Z) : M unit :=
  _ ← write_u64 root ROOT_OBJECT_LIST_OFFSET ol_off NullTaskRoot;
  _ ← write_u32 root ROOT_OBJECT_LIST_LENGTH ol_len NullTaskRoot;
  if both then
    _ ← write_u64 root ROOT_PLACEMENT_LIST_OFFSET pl_off NullTaskRoot;
    write_u32 root ROOT_PLACEMENT_LIST_LENGTH pl_len NullTaskRoot
  else mret tt.

(** The one test that refuses the lists: the members still hold the previous offsets. *)
Definition refused (ol_off ol_len pl_off pl_len required_pl_len : Z) (s : State) : bool :=
  let '(ol_end, ol_overflow) := overflowing_add64 ol_off ol_len in
  let '(pl_end, pl_overflow) := overflowing_add64 pl_off pl_len in
  ol_overflow || pl_overflow || (task_length <=? ol_end) || (task_length <=? pl_end) ||
  negb (Z.land (offset (objects s)) APV_PAGE_MASK =? 0) ||
  negb (Z.land (offset (placements s)) APV_PAGE_MASK =? 0) ||
  (negb (pl_off =? 0) && (pl_len <? required_pl_len)).

Definition refuse (root : Z) (old_pl_mapping : option Ref) : M bool :=
  _ ← modify (fun s => with_placements (with_place 0 0 (mapped_length (placements s)) (placements s)) s);
  _ ← modify (fun s => with_objects (with_place 0 0 (mapped_length (objects s)) (objects s)) s);
  _ ← modify (with_count 0);
  released ← take_placement_list;
  _ ← drop_mapping released;
  _ ← write_root 0 0 0 0 supports_argument_buffers root;
  _ ← drop_mapping old_pl_mapping;
  mret false.

(** The end of a move: the entries are copied, or the root's fields are zeroed. *)
Definition finish_move (root pl_len old_pl_len old_pl_address : Z) (old : option Ref) : M bool :=
  new_pl_address ← asks (fun s => address (placements s));
  if (negb (old_pl_len =? 0) && GuestPtr.is_null old_pl_address) ||
     (negb (pl_len =? 0) && negb (old_pl_len =? 0) && GuestPtr.is_null new_pl_address) then
    _ ← write_root 0 0 0 0 true root;
    _ ← drop_mapping old;
    mret false
  else
    _ ← (if negb (GuestPtr.is_null old_pl_address) && negb (GuestPtr.is_null new_pl_address)
         then copy_placement_list new_pl_address old_pl_address (Z.min old_pl_len pl_len)
         else mret tt);
    _ ← drop_mapping old;
    mret true.

(** The placement list moves: [old] is the reference to its old mapping. *)
Definition move_placements (root pl_off pl_len pl_end old_pl_off old_pl_len old_pl_mapped_len : Z)
    (old : option Ref) : M bool :=
  _ ← modify (fun s => with_placements
    (with_place pl_off pl_len (list_mapped_length pl_end pl_off) (placements s)) s);
  old_pl_address ← asks (fun s => address (placements s));
  released ← take_placement_list;
  legacy ← asks is_legacy;
  '(pl_off, pl_len, pl_mapped_len) ← asks (fun s =>
    (offset (placements s), length (placements s), mapped_length (placements s)));
  _ ← drop_mapping released;
  '(old, old_pl_address) ←
    (if (match old with None => true | Some _ => false end) && negb (old_pl_off =? 0)
        && negb (old_pl_len =? 0) then
       m ← new_mapping legacy old_pl_off old_pl_mapped_len false;
       mret (m, match m with Some r => virtual_address r | None => old_pl_address end)
     else mret (old, old_pl_address));
  _ ← (if negb (pl_off =? 0) && negb (pl_len =? 0) then
         m ← new_mapping legacy pl_off pl_mapped_len true;
         _ ← adopt_placements m;
         mret tt
       else mret tt);
  finish_move root pl_len old_pl_len old_pl_address old.

Definition set_object_list (ol_off ol_len pl_off pl_len root : Z) : M bool :=
  old ← asks (fun s => mapping (placements s));
  _ ← retain_mapping old;
  released ← take_object_list;
  _ ← drop_mapping released;
  '(old_pl_off, old_pl_len, old_pl_mapped_len) ← asks (fun s =>
    (offset (placements s), length (placements s), mapped_length (placements s)));
  let count := Num.div0 ol_len OBJECT_ENTRY_SIZE in
  let required_pl_len := mul64 count OBJECT_PLACEMENT_SIZE in
  _ ← modify (with_count count);
  _ ← write_root ol_off ol_len pl_off pl_len supports_argument_buffers root;
  no ← asks (refused ol_off ol_len pl_off pl_len required_pl_len);
  if no : bool then refuse root old
  else
    let ol_end := add64 ol_off ol_len in
    let pl_end := add64 pl_off pl_len in
    _ ← modify (fun s => with_objects
      (with_place ol_off ol_len (list_mapped_length ol_end ol_off) (objects s)) s);
    if negb supports_argument_buffers then _ ← drop_mapping old; mret true
    else move_placements root pl_off pl_len pl_end old_pl_off old_pl_len old_pl_mapped_len old.

(** *** Mapping the lists on use *)

Definition map_object_list : M bool :=
  legacy ← asks is_legacy;
  if legacy : bool then
    '(off, len) ← asks (fun s => (offset (objects s), length (objects s)));
    lives ← asks (fun s => task_lives (world s));
    r ← (if lives : bool then calling (mapped_address_for_offset off len false)
         else mret (inr (unmapped 0)));
    let landed := match r with inl p => land_raise p | inr _ => mret tt end in
    k ← asks kind;
    match k with
    | MemoryMap =>
        _ ← (match r with inr a => drop_mapping (ma_mapping a) | inl _ => mret tt end);
        _ ← landed;
        mret false
    | Legacy mapped =>
        '(previous, mapped) ← (match r with
          | inr a =>
              if GuestPtr.is_null (ma_address a) then
                (* The answer goes with the mapping it holds. *)
                _ ← drop_mapping (ma_mapping a);
                mret (None, mapped)
              else
                previous ← asks (fun s => mapping (objects s));
                _ ← modify (fun s => with_objects
                  (with_mapping (ma_mapping a) (ma_address a) (objects s)) s);
                _ ← modify (with_kind (Legacy true));
                mret (previous, true)
          | inl _ => _ ← modify (with_kind (Legacy false)); mret (None, false)
          end);
        _ ← drop_mapping previous;
        _ ← landed;
        mret mapped
    end
  else
    at_ ← asks (fun s => address (objects s));
    if negb (GuestPtr.is_null at_) then mret true
    else
      '(off, len) ← asks (fun s => (offset (objects s), mapped_length (objects s)));
      m ← new_mapping false off len false;
      adopt_objects m.

Definition map_placement_list : M bool :=
  legacy ← asks is_legacy;
  '(at_, off, len, mapped_len) ← asks (fun s => (address (placements s), offset (placements s),
    length (placements s), mapped_length (placements s)));
  if legacy : bool then mret (len =? 0)
  else if negb (GuestPtr.is_null at_) || (len =? 0) then mret true
  else
    m ← new_mapping false off mapped_len true;
    adopt_placements m.

Definition is_object_list_mapped : M bool := asks object_list_mapped.
Definition is_placement_list_mapped : M bool := asks placement_list_mapped.

Definition ensure_object_list_mapped : M bool :=
  mapped ← is_object_list_mapped;
  if mapped : bool then mret true else map_object_list.
Definition ensure_placement_list_mapped : M bool :=
  mapped ← is_placement_list_mapped;
  if mapped : bool then mret true else map_placement_list.
Definition ensure_mapped : M bool :=
  mapped ← ensure_object_list_mapped;
  if mapped : bool then ensure_placement_list_mapped else mret false.

Definition unmap_object_list : M unit := released ← take_object_list; drop_mapping released.
Definition unmap_placement_list : M unit :=
  legacy ← asks is_legacy;
  if legacy : bool then mret tt else released ← take_placement_list; drop_mapping released.

Definition object_list_count : M Z := asks object_count.
Definition placement_list_length : M Z := asks (fun s => length (placements s)).
Definition object_list_range : M ListRange :=
  asks (fun s => MkListRange (offset (objects s)) (length (objects s))).
Definition placement_list_range : M ListRange :=
  asks (fun s => MkListRange (offset (placements s)) (length (placements s))).

(** The end of the lists: both mappings are released, the object list's first. *)
Definition drop_lists : M unit :=
  objects_ ← asks (fun s => mapping (objects s));
  placements_ ← asks (fun s => mapping (placements s));
  _ ← modify (fun s => with_placements (with_mapping None (address (placements s)) (placements s))
    (with_objects (with_mapping None (address (objects s)) (objects s)) s));
  _ ← drop_mapping objects_;
  drop_mapping placements_.
End ObjectLists.

(** ** What the host promises

    [held] are the references the lists have to mappings; a raise can carry some on until
    it lands. [fixed] are the host addresses no mapping of the task moves. *)

Definition opt {Ref : Type} `{Countable Ref} (m : option Ref) : gmultiset Ref :=
  match m with Some r => {[+ r +]} | None => ∅ end.

Class LawfulHost (W Ref P D : Type) `{Countable Ref} `{HO : Host W Ref P D} := {
  held : W -> gmultiset Ref;
  carried : P -> gmultiset Ref;
  mapping_length : Ref -> Z;
  fixed : Z -> Prop;
  (** A call that takes [A] and gives [B] leaves guest memory and the fixed addresses. *)
  quiet (w w' : W) : Prop :=
    ram w' = ram w /\ task_lives w' = task_lives w /\
    forall a, fixed a -> frame w' a = frame w a;
  usable (r : Ref) (len : Z) : Prop :=
    GuestPtr.ZERO_REGION_END <= virtual_address r /\ len <= mapping_length r /\
    virtual_address r + mapping_length r < M64;
  new_virtual_mapping_law off len writable w :
    match new_virtual_mapping off len writable w with
    | Ret (m, w') => held w' = held w ⊎ opt m /\ quiet w w' /\ forall r, m = Some r -> usable r len
    | Raised (p, w') => held w' = held w ⊎ carried p /\ quiet w w'
    | Died d => exists e, d = Elsewhere e
    end;
  mapped_address_law off len writable w :
    match mapped_address_for_offset off len writable w with
    | Ret (a, w') => held w' = held w ⊎ opt (ma_mapping a) /\ quiet w w'
    | Raised (p, w') => held w' = held w ⊎ carried p /\ quiet w w'
    | Died d => exists e, d = Elsewhere e
    end;
  land_law p w : carried p ⊆ held w ->
    held (land p w) = held w ∖ carried p /\ quiet w (land p w);
  retain_law r w : held (retain r w) = held w ⊎ {[+ r +]} /\ quiet w (retain r w);
  release_law r w : r ∈ held w ->
    match release r w with
    | Ret w' => held w' = held w ∖ {[+ r +]} /\ quiet w w'
    | Raised e => False
    | Died d => exists e, d = Elsewhere e
    end;
  set_ram_law m w :
    held (set_ram m w) = held w /\ ram (set_ram m w) = m /\ frame (set_ram m w) = frame w /\
    task_lives (set_ram m w) = task_lives w;
}.

Section Facts.
Context {W Ref P D : Type} `{HL : LawfulHost W Ref P D} {target : Target}.
Context (task_length : Z) (supports_argument_buffers : bool).
Implicit Types (s : State (W:=W) (Ref:=Ref)) (l : List Ref) (m : option Ref) (w : W).
Local Abbreviation St := (State (W:=W) (Ref:=Ref)).
Local Abbreviation M := (Run St Empty_set (Death D)).

(** *** The world's steps *)

Lemma quiet_refl w : quiet w w.
Proof. by repeat split. Qed.
Lemma quiet_trans w1 w2 w3 : quiet w1 w2 -> quiet w2 w3 -> quiet w1 w3.
Proof.
  intros (H1&H2&H3) (H1'&H2'&H3'). split_and!; [congruence..|].
  intros a Ha. rewrite H3' by done. by apply H3.
Qed.
Hint Resolve quiet_refl : core.

(** Where the operations may end the process: elsewhere, where an ended task's thread
    stops, and at a task root that is not there. *)
Definition root_ok (root : Z) : Prop := GuestPtr.ZERO_REGION_END <= root /\ root + 40 < M64.
Definition may_die (root_there : Prop) (d : Death D) : Prop :=
  match d with
  | Elsewhere _ | Stopped => True
  | Fatal NullTaskRoot => ~ root_there
  | _ => False
  end.

Lemma with_same_world s : with_world (world s) s = s.
Proof. by destruct s. Qed.

(** The address the task answers for a mapping of [len] bytes at [off]: 0 for none. *)
Definition address_of m : Z := match m with Some r => virtual_address r | None => 0 end.
Definition answered (legacy : bool) (off len : Z) (writable : bool) w : Z :=
  if legacy then 0
  else if task_lives w then
    match new_virtual_mapping off len writable w with
    | Ret (m, _) => address_of m
    | _ => 0
    end
  else 0.

Section Steps.
Context (there : Prop) (X : Empty_set -> St -> Prop).
Local Abbreviation K := (may_die there).

Lemma xwp_drop_mapping m (Q : unit -> St -> Prop) s :
  opt m ⊆ held (world s) ->
  (forall w', held w' = held (world s) ∖ opt m -> quiet (world s) w' -> Q tt (with_world w' s)) ->
  xwp (drop_mapping m) Q X K s.
Proof.
  intros Hm HQ. unfold drop_mapping. destruct m as [r|]; cbn [opt] in *.
  - unfold xwp. pose proof (release_law r (world s) ltac:(multiset_solver)) as Hr.
    destruct (release r (world s)) as [w'|[]|d]; [apply HQ; tauto|].
    by destruct Hr as [e ->].
  - rewrite xwp_ret. rewrite <- (with_same_world s). apply HQ; [multiset_solver|done].
Qed.

Lemma xwp_drop_none (Q : unit -> St -> Prop) s :
  xwp (drop_mapping None : M unit) Q X K s = Q tt s.
Proof. done. Qed.

Lemma xwp_retain_mapping m (Q : unit -> St -> Prop) s :
  (forall w', held w' = held (world s) ⊎ opt m -> quiet (world s) w' -> Q tt (with_world w' s)) ->
  xwp (retain_mapping m) Q X K s.
Proof.
  intros HQ. unfold retain_mapping. destruct m as [r|]; cbn [opt] in *.
  - rewrite xwp_modify. pose proof (retain_law r (world s)). apply HQ; tauto.
  - rewrite xwp_ret. rewrite <- (with_same_world s). apply HQ; [multiset_solver|done].
Qed.

Lemma xwp_new_mapping legacy off len writable (Q : option Ref -> St -> Prop) s :
  (forall m w', held w' = held (world s) ⊎ opt m -> quiet (world s) w' ->
    (legacy = true -> m = None) -> (forall r, m = Some r -> usable r len) ->
    address_of m = answered legacy off len writable (world s) -> Q m (with_world w' s)) ->
  xwp (new_mapping legacy off len writable) Q X K s.
Proof.
  intros HQ.
  assert (0 = answered legacy off len writable (world s) -> Q None (with_world (world s) s)) as Hnone
    by (intros; apply HQ; [multiset_solver|done..]).
  rewrite with_same_world in Hnone. revert HQ Hnone. unfold answered.
  unfold new_mapping. destruct legacy; [rewrite xwp_ret; intros _ H1; by apply H1|].
  rewrite xwp_bind, xwp_asks. cbv beta.
  case_match; [|rewrite xwp_ret; intros _ H1; by apply H1].
  rewrite xwp_bind. unfold xwp at 1, calling.
  pose proof (new_virtual_mapping_law off len writable (world s)) as Hn. intros HQ _.
  destruct (new_virtual_mapping off len writable (world s)) as [[m w']|[p w']|d].
  - rewrite xwp_ret. apply HQ; tauto || done.
  - destruct Hn as [Hh Hq]. unfold land_raise. rewrite xwp_bind, xwp_modify, xwp_ret.
    cbn [world with_world].
    destruct (land_law p w' ltac:(rewrite Hh; multiset_solver)) as [Hl Hq'].
    apply (HQ None (land p w')); [rewrite Hl, Hh; multiset_solver|by eapply quiet_trans|done..].
  - by destruct Hn as [e ->].
Qed.
End Steps.

(** *** Stores and what they show *)

Lemma mem_write_other da at_ bs (m : GuestPtr.memory) x :
  (forall i, at_ <= i < at_ + Z.of_nat (List.length bs) -> da i <> x) ->
  Num.mem_write da at_ bs m x = m x.
Proof.
  revert at_ m. induction bs as [|b bs IH]; intros at_ m Hx; [done|]. cbn [Num.mem_write].
  rewrite IH by (intros i Hi; apply Hx; cbn [List.length]; lia). unfold Num.upd.
  destruct (Z.eqb_spec x (da at_)) as [->|]; [|done].
  exfalso. apply (Hx at_); [cbn [List.length]; lia|done].
Qed.

Lemma mem_write_at da at_ bs (m : GuestPtr.memory) i b :
  (forall i j, at_ <= i < at_ + Z.of_nat (List.length bs) ->
    at_ <= j < at_ + Z.of_nat (List.length bs) -> da i = da j -> i = j) ->
  bs !! i = Some b -> Num.mem_write da at_ bs m (da (at_ + Z.of_nat i)) = b.
Proof.
  revert at_ m i. induction bs as [|c bs IH]; intros at_ m i Hd Hi; [done|].
  cbn [Num.mem_write List.length] in *. destruct i as [|i].
  - injection Hi as <-. rewrite mem_write_other; [unfold Num.upd; by rewrite Z.add_0_r, Z.eqb_refl|].
    intros j Hj E. rewrite Z.add_0_r in E. apply Hd in E; lia.
  - replace (at_ + Z.of_nat (Datatypes.S i)) with (at_ + 1 + Z.of_nat i) by lia.
    apply IH; [|done]. intros i' j' Hi' Hj'. apply Hd; lia.
Qed.

(** The bytes of a region are distinct bytes of the guest's memory. *)
Definition distinct (w : W) (a n : Z) : Prop :=
  forall i j, 0 <= i < n -> 0 <= j < n -> frame w (a + i) = frame w (a + j) -> i = j.

(** A step that stores to guest memory. *)
Definition stored (w w' : W) : Prop :=
  held w' = held w /\ frame w' = frame w /\ task_lives w' = task_lives w.

Lemma store_stored a bs w : stored w (store a bs w).
Proof. unfold store, stored. edestruct set_ram_law as (?&?&?&?); eauto. Qed.
Lemma stored_trans w1 w2 w3 : stored w1 w2 -> stored w2 w3 -> stored w1 w3.
Proof. intros (?&?&?) (?&?&?). repeat split; congruence. Qed.

Lemma ram_store a bs w : ram (store a bs w) = Num.mem_write (fun i => frame w (a + i)) 0 bs (ram w).
Proof. unfold store. edestruct set_ram_law as (?&?&?&?); eauto. Qed.
Lemma frame_store a bs w : frame (store a bs w) = frame w.
Proof. unfold store. edestruct set_ram_law as (?&?&?&?); eauto. Qed.

Lemma bytes_at_lookup (v : GuestPtr.memory) a n i :
  (i < n)%nat -> GuestPtr.bytes_at v a n !! i = Some (v (a + Z.of_nat i)).
Proof.
  intros Hi. unfold GuestPtr.bytes_at. rewrite list_lookup_fmap, lookup_seq_lt by done. done.
Qed.

(** A field of a region reads back what was stored to it, and a store elsewhere in the
    region leaves it. *)
Lemma field_stored w a n off bs :
  distinct w a n -> 0 <= off -> off + Z.of_nat (List.length bs) <= n ->
  GuestPtr.bytes_at (view (store (a + off) bs w)) (a + off) (List.length bs) = bs.
Proof.
  intros Hd Ho Hn. apply list_eq. intros i.
  destruct (decide (i < List.length bs)%nat) as [Hi|Hi].
  - rewrite bytes_at_lookup by done.
    destruct (lookup_lt_is_Some_2 bs i Hi) as [b Hb]. rewrite Hb. f_equal.
    unfold view. rewrite ram_store, frame_store.
    rewrite <- (mem_write_at (fun j => frame w (a + off + j)) 0 bs (ram w) i b);
      [by rewrite Z.add_0_l| |done].
    intros i' j' Hi' Hj' E. rewrite <- !Z.add_assoc in E. apply Hd in E; lia.
  - rewrite !lookup_ge_None_2; [done|lia|]. rewrite GuestPtr.length_bytes_at. lia.
Qed.

Lemma field_kept w a n off bs off' k :
  distinct w a n -> 0 <= off -> off + Z.of_nat (List.length bs) <= n ->
  0 <= off' -> off' + Z.of_nat k <= n ->
  off' + Z.of_nat k <= off \/ off + Z.of_nat (List.length bs) <= off' ->
  GuestPtr.bytes_at (view (store (a + off) bs w)) (a + off') k
  = GuestPtr.bytes_at (view w) (a + off') k.
Proof.
  intros Hd Ho Hn Ho' Hn' Hapart. apply GuestPtr.bytes_at_ext. intros x Hx.
  unfold view. rewrite ram_store, frame_store. apply mem_write_other.
  intros i Hi E. replace x with (a + (x - a)) in E by lia. rewrite <- Z.add_assoc in E.
  apply Hd in E; lia.
Qed.

(** The list fields of the task root, as the guest reads them. *)
Definition shows_objects (w : W) (root off len : Z) : Prop :=
  GuestPtr.bytes_at (view w) (root + ROOT_OBJECT_LIST_OFFSET) 8 = le_bytes 8 off /\
  GuestPtr.bytes_at (view w) (root + ROOT_OBJECT_LIST_LENGTH) 4 = le_bytes 4 len.
Definition shows_placements (w : W) (root off len : Z) : Prop :=
  GuestPtr.bytes_at (view w) (root + ROOT_PLACEMENT_LIST_OFFSET) 8 = le_bytes 8 off /\
  GuestPtr.bytes_at (view w) (root + ROOT_PLACEMENT_LIST_LENGTH) 4 = le_bytes 4 len.
Definition root_fixed (root : Z) : Prop := forall i, 0 <= i < 40 -> fixed (root + i).

Lemma bytes_quiet w w' root off k :
  root_fixed root -> quiet w w' -> 0 <= off -> off + Z.of_nat k <= 40 ->
  GuestPtr.bytes_at (view w') (root + off) k = GuestPtr.bytes_at (view w) (root + off) k.
Proof.
  intros Hf (Hr&_&Hfr) Ho Hk. apply GuestPtr.bytes_at_ext. intros x Hx. unfold view.
  rewrite Hr, Hfr; [done|]. replace x with (root + (x - root)) by lia. apply Hf. lia.
Qed.
Lemma shows_quiet w w' root a b :
  root_fixed root -> quiet w w' ->
  (shows_objects w root a b -> shows_objects w' root a b) /\
  (shows_placements w root a b -> shows_placements w' root a b).
Proof.
  intros Hf Hq. unfold shows_objects, shows_placements.
  rewrite !(bytes_quiet w w') by (done || vm_compute; congruence). done.
Qed.
Lemma distinct_quiet w w' root : root_fixed root -> quiet w w' -> distinct w root 40 -> distinct w' root 40.
Proof.
  intros Hf (_&_&Hfr) Hd i j Hi Hj. rewrite !Hfr by (by apply Hf). by apply Hd.
Qed.

(** What a write of the root's list fields leaves. *)
Definition same_placements (w w' : W) (root : Z) : Prop :=
  forall off len, shows_placements w root off len -> shows_placements w' root off len.
Definition wrote (both : bool) (a b c d root : Z) (w w' : W) : Prop :=
  stored w w' /\
  (root_ok root -> distinct w root 40 -> shows_objects w' root a b /\
    if both then shows_placements w' root c d else same_placements w w' root).

Section Writes.
Context (root : Z) (X : Empty_set -> St -> Prop).
Hypothesis Hroot : u64 root.
Local Abbreviation K := (may_die (root_ok root)).

Lemma xwp_write_n n off v (Q : unit -> St -> Prop) s :
  0 <= off -> off + Z.of_nat n <= 40 ->
  Q tt (with_world (store (add64 root off) (le_bytes n v) (world s)) s) ->
  xwp (write_n n root off v NullTaskRoot) Q X K s.
Proof.
  intros Ho Hn HQ. unfold xwp, write_n, GuestPtr.stop_if_task_ended.
  destruct (task_ended (world s)); [done|]. rewrite bind_ret_l. unfold GuestPtr.check.
  case_if; [|done]. simpl. intros [Hz Hm]. pose proof M64_val.
  apply orb_true_iff in Hif. unfold GuestPtr.ZERO_REGION_END in *.
  rewrite add64_small in Hif by lia. destruct Hif; to_props; lia.
Qed.

Lemma xwp_write_root_fields a b c d both (Q : unit -> St -> Prop) s :
  (forall w', wrote both a b c d root (world s) w' -> Q tt (with_world w' s)) ->
  xwp (write_root a b c d both root) Q X K s.
Proof.
  intros HQ. unfold write_root.
  rewrite xwp_bind. apply xwp_write_n; [by vm_compute..|].
  rewrite xwp_bind. apply xwp_write_n; [by vm_compute..|]. cbn [world with_world].
  set (w1 := store _ (le_bytes 8 a) _). set (w2 := store _ (le_bytes 4 b) _).
  assert (stored (world s) w2) as H2 by (eapply stored_trans; apply store_stored).
  assert (Hobj : root_ok root -> distinct (world s) root 40 ->
    shows_objects w2 root a b /\ same_placements (world s) w2 root).
  { intros [Hz Hm] Hd. pose proof M64_val. unfold GuestPtr.ZERO_REGION_END in *.
    assert (distinct w1 root 40) as Hd1 by (intros i j; unfold w1; rewrite frame_store; apply Hd).
    unfold w2, w1, shows_objects, same_placements, shows_placements, ROOT_OBJECT_LIST_OFFSET,
      ROOT_OBJECT_LIST_LENGTH, ROOT_PLACEMENT_LIST_OFFSET, ROOT_PLACEMENT_LIST_LENGTH in *.
    rewrite !add64_small in * by lia.
    split_and!.
    - rewrite (field_kept _ root 40) by (rewrite ?length_le_bytes; done || lia).
      apply (field_stored _ root 40 8 (le_bytes 8 a)); [done|lia|]. rewrite length_le_bytes. lia.
    - apply (field_stored _ root 40 16 (le_bytes 4 b)); [done|lia|]. rewrite length_le_bytes. lia.
    - intros off len. by rewrite !(field_kept _ root 40) by (rewrite ?length_le_bytes; done || lia). }
  destruct both.
  - rewrite xwp_bind. apply xwp_write_n; [by vm_compute..|].
    apply xwp_write_n; [by vm_compute..|]. cbn [world with_world].
    set (w3 := store _ (le_bytes 8 c) _). set (w4 := store _ (le_bytes 4 d) _).
    apply HQ. split.
    { eapply stored_trans; [exact H2|]. eapply stored_trans; apply store_stored. }
    intros Hok Hd. destruct (Hobj Hok Hd) as [[Ha Hb] _]. destruct Hok as [Hz Hm].
    pose proof M64_val. unfold GuestPtr.ZERO_REGION_END in *.
    destruct H2 as (_&Hfr&_).
    assert (distinct w2 root 40) as Hd2 by (intros i j; rewrite Hfr; apply Hd).
    assert (distinct w3 root 40) as Hd3 by (intros i j; unfold w3; rewrite frame_store; apply Hd2).
    unfold w4, w3, shows_objects, shows_placements, ROOT_OBJECT_LIST_OFFSET,
      ROOT_OBJECT_LIST_LENGTH, ROOT_PLACEMENT_LIST_OFFSET, ROOT_PLACEMENT_LIST_LENGTH in *.
    rewrite !add64_small in * by lia.
    split; split.
    + by rewrite !(field_kept _ root 40) by (rewrite ?length_le_bytes; done || lia).
    + by rewrite !(field_kept _ root 40) by (rewrite ?length_le_bytes; done || lia).
    + rewrite (field_kept _ root 40) by (rewrite ?length_le_bytes; done || lia).
      apply (field_stored _ root 40 28 (le_bytes 8 c)); [done|lia|]. rewrite length_le_bytes. lia.
    + apply (field_stored _ root 40 36 (le_bytes 4 d)); [done|lia|]. rewrite length_le_bytes. lia.
  - rewrite xwp_ret. apply HQ. split; [done|]. exact Hobj.
Qed.
End Writes.

(** *** The copy *)

Lemma mem_write_shift da at_ bs (m : GuestPtr.memory) d :
  Num.mem_write (fun i => da (d + i)) at_ bs m = Num.mem_write da (d + at_) bs m.
Proof.
  revert at_ m. induction bs as [|b bs IH]; intros at_ m; [done|]. cbn [Num.mem_write].
  by rewrite IH, Z.add_assoc.
Qed.
Lemma mem_write_ext da da' at_ bs (m : GuestPtr.memory) :
  (forall i, da i = da' i) -> Num.mem_write da at_ bs m = Num.mem_write da' at_ bs m.
Proof.
  intros He. revert at_ m. induction bs as [|b bs IH]; intros at_ m; [done|].
  cbn [Num.mem_write]. rewrite IH. by unfold Num.upd; rewrite He.
Qed.

Lemma load_mem_read w src done_ len :
  GuestPtr.bytes_at (view w) (src + done_) (Z.to_nat len)
  = Num.mem_read (fun i => frame w (src + i)) done_ len (ram w).
Proof.
  unfold GuestPtr.bytes_at, Num.mem_read, view. apply map_ext. intros i. do 2 f_equal. lia.
Qed.

Section Copy.
Context (there : Prop) (X : Empty_set -> St -> Prop) (dst src n : Z).
Hypothesis (Hn : 0 <= n < M32).
Hypothesis (Hdst : GuestPtr.ZERO_REGION_END <= dst < M64) (Hdst_end : dst + n < M64).
Hypothesis (Hsrc : GuestPtr.ZERO_REGION_END <= src < M64) (Hsrc_end : src + n < M64).

Lemma xwp_load {A} (f : GuestPtr.memory -> outcome Empty_set (Death D) A) (Q : A -> St -> Prop) s a :
  f (view (world s)) = Ret a -> Q a s -> xwp (load f) Q X (may_die there) s.
Proof. intros Hf HQ. unfold xwp, load. by rewrite Hf. Qed.

(** What a copy leaves: [copied] is guest memory after it. *)
Definition copied (copied_ram : GuestPtr.memory) (w w' : W) : Prop :=
  stored w w' /\ ram w' = copied_ram.

Lemma xwp_copy_chunks fuel size done_ (Q : unit -> St -> Prop) s :
  0 < size -> 0 <= done_ <= n + size ->
  (forall w', copied (Num.forward_copy_loop (Num.mem_read (fun i => frame (world s) (src + i)))
      (Num.mem_write (fun i => frame (world s) (dst + i))) fuel n size done_ (ram (world s)))
      (world s) w' -> Q tt (with_world w' s)) ->
  size <= n ->
  xwp (copy_chunks fuel dst src n size done_) Q X (may_die there) s.
Proof.
  revert done_ s. induction fuel as [|fuel IH]; intros done_ s Hs Hd HQ Hsn;
    cbn [copy_chunks Num.forward_copy_loop] in *.
  { rewrite xwp_ret, <- (with_same_world s). by apply HQ. }
  case_if.
  2: { rewrite xwp_ret, <- (with_same_world s). by apply HQ. }
  pose proof M64_val. pose proof M32_val. unfold GuestPtr.ZERO_REGION_END in *.
  rewrite (sub64_small n done_) in * by lia.
  set (len := Z.min (n - done_) size) in *. assert (0 < len <= n - done_) by (subst len; lia).
  rewrite xwp_bind. eapply xwp_load.
  { apply GuestPtr.copy_to_Ret; unfold GuestPtr.ZERO_REGION_END; lia. }
  rewrite load_mem_read. set (bytes := Num.mem_read _ done_ len _) in *.
  assert (Z.of_nat (List.length bytes) = len) as Hlen
    by (unfold bytes, Num.mem_read; rewrite length_map, length_seq; lia).
  assert (write_bytes dst done_ bytes PlacementCopy s
          = if task_ended (world s) then Died Stopped
            else Ret (tt, with_world (store (dst + done_) bytes (world s)) s)) as Hw.
  { unfold write_bytes, GuestPtr.stop_if_task_ended. destruct (task_ended (world s)); [done|].
    rewrite bind_ret_l. destruct bytes as [|b bytes]; [cbn [List.length] in Hlen; lia|].
    rewrite GuestPtr.check_ok by (unfold GuestPtr.ZERO_REGION_END; lia). done. }
  rewrite xwp_bind. unfold xwp at 1. rewrite Hw. destruct (task_ended (world s)); [done|].
  rewrite add64_small by lia. apply IH; [done|lia| |done].
  intros w' [Hst Hr]. cbn [world with_world] in Hst, Hr. rewrite frame_store, ram_store in Hr.
  apply (HQ w'). split; [by eapply stored_trans; [apply store_stored|]|].
  rewrite Hr. rewrite add64_small by lia. f_equal.
  rewrite (mem_write_ext _ (fun i => frame (world s) (dst + (done_ + i)))) by (intros; f_equal; lia).
  rewrite (mem_write_shift (fun i => frame (world s) (dst + i))). by rewrite Z.add_0_r.
Qed.

Lemma xwp_copy (Q : unit -> St -> Prop) s :
  (forall w', copied (Num.forward_copy (Num.mem_read (fun i => frame (world s) (src + i)))
      (Num.mem_write (fun i => frame (world s) (dst + i))) n (Z.min n COPY_CHUNK) (ram (world s)))
      (world s) w' -> Q tt (with_world w' s)) ->
  xwp (copy_placement_list dst src n) Q X (may_die there) s.
Proof.
  intros HQ. unfold copy_placement_list, Num.forward_copy in *. pose proof page_size as [_ Hp].
  case_if.
  - rewrite xwp_ret, <- (with_same_world s). by apply HQ.
  - unfold COPY_CHUNK in *. apply xwp_copy_chunks; [lia|lia|done|lia].
Qed.
End Copy.

(** *** Well-formed lists *)

Definition refs (s : St) : gmultiset Ref := opt (mapping (objects s)) ⊎ opt (mapping (placements s)).
(** The references held are the lists' own, over [A]. *)
Definition owns (A : gmultiset Ref) (s : St) : Prop := held (world s) = A ⊎ refs s.

Definition mapping_ok (l : List Ref) : Prop :=
  match mapping l with
  | Some r => address l = virtual_address r /\ usable r (mapped_length l)
  | None => address l = 0
  end.
Definition place_ok (l : List Ref) : Prop :=
  u64 (offset l) /\ u32 (length l) /\ u64 (mapped_length l) /\
  (length l = 0 \/ length l <= mapped_length l).

Record lists_ok (s : St) : Prop := {
  ok_objects : is_legacy s = false -> mapping_ok (objects s);
  ok_placements : mapping_ok (placements s);
  ok_legacy : is_legacy s = true -> mapping (placements s) = None;
  ok_count : object_count s = length (objects s) / OBJECT_ENTRY_SIZE;
  ok_object_place : place_ok (objects s);
  ok_placement_place : place_ok (placements s);
  ok_required : offset (placements s) <> 0 ->
    OBJECT_PLACEMENT_SIZE * object_count s <= length (placements s);
  ok_unsupported : supports_argument_buffers = false ->
    offset (placements s) = 0 /\ length (placements s) = 0;
}.

Hypothesis Hlength : task_length + APV_PAGE_SIZE <= M64.

Lemma list_mapped_length_ge off len :
  0 <= off -> 0 <= len -> off + len < task_length ->
  len <= list_mapped_length (off + len) off /\ u64 (list_mapped_length (off + len) off).
Proof.
  intros Ho Hl He. unfold list_mapped_length. pose proof page_size as [_ Hp].
  split; [|apply sub64_range].
  assert (APV_PAGE_MASK = APV_PAGE_SIZE - 1) as Hm
    by (rewrite page_mask; pose proof page_size as [-> _]; done).
  rewrite add64_small by (rewrite Hm; lia). rewrite land_page_start by (rewrite Hm; lia).
  rewrite Hm. assert (0 < APV_PAGE_SIZE) as Hp0 by lia.
  pose proof (Z.mod_pos_bound (off + len + (APV_PAGE_SIZE - 1)) APV_PAGE_SIZE Hp0).
  rewrite sub64_small by (rewrite M64_val in *; lia). lia.
Qed.

(** The lists a [set_object_list] refuses: an end at or past the task's, a previous offset that
    is not a page's, or a placement list too short for the objects and not at offset 0. *)
Definition rejects (ol_off ol_len pl_off pl_len : Z) (s : St) : bool :=
  (task_length <=? ol_off + ol_len) || (task_length <=? pl_off + pl_len) ||
  negb (offset (objects s) mod APV_PAGE_SIZE =? 0) ||
  negb (offset (placements s) mod APV_PAGE_SIZE =? 0) ||
  (negb (pl_off =? 0) && (pl_len <? 16 * (ol_len / 12))).

Lemma refused_false ol_off ol_len pl_off pl_len n s :
  u64 ol_off -> u32 ol_len -> u64 pl_off -> u32 pl_len ->
  refused task_length ol_off ol_len pl_off pl_len n s = false ->
  ol_off + ol_len < task_length /\ pl_off + pl_len < task_length /\
  add64 ol_off ol_len = ol_off + ol_len /\ add64 pl_off pl_len = pl_off + pl_len /\
  (pl_off <> 0 -> n <= pl_len).
Proof.
  intros H1 H2 H3 H4 Hr. unfold refused, overflowing_add64 in Hr. to_props.
  rewrite (add64_small ol_off), (add64_small pl_off) in * by lia.
  split_and!; try done. intros Hne.
  match goal with E : _ && _ = false |- _ => apply andb_false_iff in E as [E|E] end; to_props; lia.
Qed.

Lemma required_small len : u32 len ->
  Num.div0 len OBJECT_ENTRY_SIZE = len / OBJECT_ENTRY_SIZE /\
  mul64 (len / OBJECT_ENTRY_SIZE) OBJECT_PLACEMENT_SIZE
  = OBJECT_PLACEMENT_SIZE * (len / OBJECT_ENTRY_SIZE).
Proof.
  intros Hlen. unfold OBJECT_ENTRY_SIZE, OBJECT_PLACEMENT_SIZE. pose proof M32_val. pose proof M64_val.
  split; [done|]. pose proof (Z.div_le_upper_bound len 12 len). pose proof (Z.div_pos len 12).
  rewrite mul64_small; lia.
Qed.

Lemma refused_rejects ol_off ol_len pl_off pl_len s s' :
  u64 ol_off -> u32 ol_len -> u64 pl_off -> u32 pl_len ->
  offset (objects s') = offset (objects s) -> offset (placements s') = offset (placements s) ->
  refused task_length ol_off ol_len pl_off pl_len
    (mul64 (Num.div0 ol_len OBJECT_ENTRY_SIZE) OBJECT_PLACEMENT_SIZE) s'
  = rejects ol_off ol_len pl_off pl_len s.
Proof.
  intros H1 H2 H3 H4 Eo Ep. pose proof page_size as [_ Hp].
  unfold refused, rejects, overflowing_add64. rewrite !land_page_mask, Eo, Ep.
  destruct (required_small ol_len H2) as [-> ->].
  change OBJECT_ENTRY_SIZE with 12. change OBJECT_PLACEMENT_SIZE with 16.
  destruct (Z.leb_spec M64 (ol_off + ol_len)).
  { rewrite (proj2 (Z.leb_le task_length (ol_off + ol_len))) by lia. done. }
  destruct (Z.leb_spec M64 (pl_off + pl_len)).
  { rewrite (proj2 (Z.leb_le task_length (pl_off + pl_len))) by lia.
    cbn [orb]. by rewrite orb_true_r. }
  rewrite !add64_small by lia. done.
Qed.

(** The root's fields as one operation leaves them. *)
Definition shows (both : bool) (w : W) (root a b c d : Z) : Prop :=
  shows_objects w root a b /\ (both = true -> shows_placements w root c d).

Lemma wrote_shows both a b c d root w w' :
  wrote both a b c d root w w' -> root_ok root -> distinct w root 40 -> shows both w' root a b c d.
Proof. intros [_ Hw] Hok Hd. destruct (Hw Hok Hd) as [Ho Hp]. split; [done|]. by intros ->. Qed.
Lemma shows_after both w w' root a b c d :
  root_fixed root -> quiet w w' -> shows both w root a b c d -> shows both w' root a b c d.
Proof.
  intros Hf Hq [Ho Hp]. split; [by apply (shows_quiet w)|]. intros Hb. apply (shows_quiet w); auto.
Qed.
Lemma distinct_stored w w' root : stored w w' -> distinct w root 40 -> distinct w' root 40.
Proof. intros (_&Hf&_) Hd i j. rewrite Hf. apply Hd. Qed.

(** The fields of a state built step by step. *)
Ltac fields :=
  unfold with_world, with_objects, with_placements, with_count, with_kind, with_place, with_mapping,
    unmap, is_legacy in *;
  cbn [objects object_count placements kind world mapping address offset length mapped_length] in *.

Section Setting.
Context (root : Z) (A : gmultiset Ref).
Hypothesis (Hroot : u64 root) (Hfixed : root_fixed root).
Local Abbreviation K := (may_die (root_ok root)).
Local Abbreviation X := (fun (_ : Empty_set) (_ : St) => False).

Lemma refuse_spec old s :
  held (world s) = A ⊎ opt old ⊎ refs s ->
  xwp (refuse supports_argument_buffers root old) (fun ok s' =>
    ok = false /\ owns A s' /\
    objects s' = with_place 0 0 (mapped_length (objects s)) (objects s) /\
    placements s' = MkList None 0 0 0 (mapped_length (placements s)) /\
    object_count s' = 0 /\ kind s' = kind s /\
    (root_ok root -> distinct (world s) root 40 ->
      shows supports_argument_buffers (world s') root 0 0 0 0)) X K s.
Proof.
  destruct s as [[om oa oo ol oml] cnt [pm pa po pl pml] k w]. unfold refs. fields. intros Hh.
  unfold refuse, take_placement_list, step_lists. xwp_go. unfold xwp at 1. fields.
  rewrite xwp_bind. apply xwp_drop_mapping; [fields; rewrite Hh; multiset_solver|].
  intros w1 Hw1 Hq1. rewrite xwp_bind. apply xwp_write_root_fields; [done|]. intros w2 Hw2.
  rewrite xwp_bind. pose proof Hw2 as [(Hh2&_&_) _]. fields.
  apply xwp_drop_mapping; [fields; rewrite Hh2, Hw1, Hh; multiset_solver|].
  intros w3 Hw3 Hq3. rewrite xwp_ret. fields.
  split; [done|]. split.
  { unfold owns, refs. fields. rewrite Hw3, Hh2, Hw1, Hh. multiset_solver. }
  do 4 (split; [done|]). intros Hok Hd.
  apply (shows_after _ w2); [done..|]. apply (wrote_shows _ _ _ _ _ _ w1); [done..|].
  by apply (distinct_quiet w).
Qed.

(** What a moved placement list is copied to. *)
Definition entries_copied (n src dst : Z) (w w' : W) : Prop :=
  ram w' = Num.forward_copy (Num.mem_read (fun i => frame w (src + i)))
    (Num.mem_write (fun i => frame w (dst + i))) n (Z.min n COPY_CHUNK) (ram w).
Definition readable (a n : Z) : Prop :=
  a = 0 \/ (GuestPtr.ZERO_REGION_END <= a < M64 /\ a + n < M64).

(** Whether the entries to copy could not be mapped: the old list has some and is nowhere, or
    the new one is to have some and is nowhere. *)
Definition copy_fails (old_len old_address len address : Z) : Prop :=
  old_len <> 0 /\ (old_address = 0 \/ len <> 0 /\ address = 0).

Lemma finish_move_spec pl_len old_pl_len old_pl_address old s :
  u32 pl_len -> u32 old_pl_len -> readable old_pl_address old_pl_len ->
  readable (address (placements s)) pl_len -> held (world s) = A ⊎ opt old ⊎ refs s ->
  xwp (finish_move root pl_len old_pl_len old_pl_address old) (fun ok s' =>
    owns A s' /\ s' = with_world (world s') s /\
    (ok = false <-> copy_fails old_pl_len old_pl_address pl_len (address (placements s))) /\
    if ok : bool then exists w1, quiet w1 (world s') /\
      (old_pl_len = 0 \/ pl_len = 0 -> quiet (world s) w1) /\
      (old_pl_len <> 0 -> pl_len <> 0 -> entries_copied (Z.min old_pl_len pl_len) old_pl_address
        (address (placements s)) (world s) w1)
    else root_ok root -> distinct (world s) root 40 ->
      shows true (world s') root 0 0 0 0) X K s.
Proof.
  destruct s as [[om oa oo ol oml] cnt [pm pa po pl pml] k w]. unfold refs. fields.
  intros Hpl Hold Ha Hpa Hh. unfold finish_move, GuestPtr.is_null. xwp_go. fields.
  destruct (_ || _) eqn:Hfail.
  - rewrite xwp_bind. apply xwp_write_root_fields; [done|]. intros w2 Hw2. rewrite xwp_bind.
    pose proof Hw2 as [(Hh2&_&_) _]. fields.
    apply xwp_drop_mapping; [fields; rewrite Hh2, Hh; multiset_solver|].
    intros w3 Hw3 Hq3. rewrite xwp_ret. fields. split.
    { unfold owns, refs. fields. rewrite Hw3, Hh2, Hh. multiset_solver. }
    split; [done|]. split.
    { split; [intros _|done]. unfold copy_fails. apply orb_true_iff in Hfail as [E|E]; to_props; lia. }
    intros Hok Hd. apply (shows_after _ w2); [done..|]. by apply (wrote_shows _ _ _ _ _ _ w).
  - assert (~ copy_fails old_pl_len old_pl_address pl_len pa) as Hno.
    { intros [Hne Hz]. revert Hfail. rewrite (proj2 (Z.eqb_neq _ _) Hne).
      destruct Hz as [->|[Hn ->]]; [done|]. rewrite (proj2 (Z.eqb_neq _ _) Hn).
      by rewrite orb_true_r. }
    to_props. rewrite xwp_bind.
    assert (forall w1, held w1 = held w -> (old_pl_len = 0 \/ pl_len = 0 -> quiet w w1) ->
      (old_pl_len <> 0 -> pl_len <> 0 ->
        entries_copied (Z.min old_pl_len pl_len) old_pl_address pa w w1) ->
      xwp (_ ← drop_mapping old; mret true) (fun ok s' =>
        owns A s' /\ s' = MkState (MkList om oa oo ol oml) cnt (MkList pm pa po pl pml) k (world s') /\
        (ok = false <-> copy_fails old_pl_len old_pl_address pl_len pa) /\
        if ok : bool then exists w1, quiet w1 (world s') /\
          (old_pl_len = 0 \/ pl_len = 0 -> quiet w w1) /\
          (old_pl_len <> 0 -> pl_len <> 0 ->
            entries_copied (Z.min old_pl_len pl_len) old_pl_address pa w w1)
        else root_ok root -> distinct w root 40 ->
          shows true (world s') root 0 0 0 0) X K
        (MkState (MkList om oa oo ol oml) cnt (MkList pm pa po pl pml) k w1)) as Hend.
    { intros w1 Hw1 Hq Hc. rewrite xwp_bind. apply xwp_drop_mapping; [fields; rewrite Hw1, Hh; multiset_solver|].
      intros w2 Hw2 Hq2. rewrite xwp_ret. fields. split.
      { unfold owns, refs. fields. rewrite Hw2, Hw1, Hh. multiset_solver. }
      split; [done|]. split; [|by exists w1]. split; [done|]. by intros ?. }
    case_if.
    + to_props. destruct Ha as [->|[Ha Ha']]; [done|]. destruct Hpa as [->|[Hpa Hpa']]; [done|].
      apply xwp_copy; [lia..|]. fields. intros w1 [(Hh1&Hf1&Hl1) Hc].
      apply Hend; [done| |done]. intros Hz. repeat split; [|done|by rewrite Hf1].
      rewrite Hc. replace (Z.min old_pl_len pl_len) with 0 by lia.
      unfold Num.forward_copy, COPY_CHUNK. pose proof page_size as [_ Hp]. by rewrite Z.min_l by lia.
    + rewrite xwp_ret. apply Hend; [done|done|]. intros Hne1 Hne2.
      destruct (Z.eqb_spec old_pl_len 0), (Z.eqb_spec pl_len 0), (Z.eqb_spec old_pl_address 0),
        (Z.eqb_spec pa 0); done.
Qed.

Lemma usable_readable r len n : 0 <= len -> usable r len -> 0 <= n <= len \/ n = 0 ->
  readable (virtual_address r) n.
Proof. intros Hl (Hz&Hle&Hm) Hn. right. lia. Qed.

(** Where the old placement list is read from: in the mapping held, or a new one of its place. *)
Definition old_address (w : W) (s : St) (a : Z) : Prop :=
  let l := placements s in
  match mapping l with
  | Some r => a = virtual_address r
  | None =>
      if (offset l =? 0) || (length l =? 0) then a = 0
      else exists w1, quiet w w1 /\ a = answered (is_legacy s) (offset l) (mapped_length l) false w1
  end.
(** Where the new one is: in a new mapping of its place. *)
Definition new_address (w : W) (s : St) : Prop :=
  let l := placements s in
  if (offset l =? 0) || (length l =? 0) then address l = 0
  else exists w1, quiet w w1 /\
    address l = answered (is_legacy s) (offset l) (mapped_length l) true w1.

Lemma move_spec pl_off pl_len s :
  u64 pl_off -> u32 pl_len -> pl_off + pl_len < task_length ->
  mapping_ok (placements s) -> place_ok (placements s) ->
  (is_legacy s = true -> mapping (placements s) = None) ->
  held (world s) = A ⊎ opt (mapping (placements s)) ⊎ refs s ->
  xwp (move_placements root pl_off pl_len (pl_off + pl_len) (offset (placements s))
         (length (placements s)) (mapped_length (placements s)) (mapping (placements s)))
    (fun ok s' =>
      owns A s' /\ objects s' = objects s /\ object_count s' = object_count s /\ kind s' = kind s /\
      offset (placements s') = pl_off /\ length (placements s') = pl_len /\
      mapped_length (placements s') = list_mapped_length (pl_off + pl_len) pl_off /\
      mapping_ok (placements s') /\ (is_legacy s' = true -> mapping (placements s') = None) /\
      exists w0 src, quiet (world s) w0 /\ old_address (world s) s src /\
      new_address (world s) s' /\
      (ok = false <-> copy_fails (length (placements s)) src pl_len (address (placements s'))) /\
      if ok : bool then exists w1, quiet w1 (world s') /\
        (length (placements s) = 0 \/ pl_len = 0 -> quiet w0 w1) /\
        (length (placements s) <> 0 -> pl_len <> 0 ->
          entries_copied (Z.min (length (placements s)) pl_len) src (address (placements s')) w0 w1)
      else root_ok root -> distinct w0 root 40 -> shows true (world s') root 0 0 0 0) X K s.
Proof.
  destruct s as [[om oa oo ol oml] cnt [pm pa po pl pml] k w]. unfold refs, place_ok, mapping_ok. fields.
  intros Hpo Hpl Hend Hm (Ho&Hl&Hml&Hlm) Hleg Hh.
  destruct (list_mapped_length_ge pl_off pl_len) as [Hnm Hnm64]; [lia..|].
  set (nml := list_mapped_length _ _) in *.
  unfold move_placements, take_placement_list, step_lists. xwp_go. unfold xwp at 1. fields.
  rewrite xwp_bind, xwp_asks. cbv beta. rewrite xwp_bind, xwp_asks. cbv beta iota. fields.
  rewrite xwp_bind. apply xwp_drop_mapping; [fields; rewrite Hh; multiset_solver|].
  intros w1 Hw1 Hq1. fields.
  match goal with |- xwp _ ?Q _ _ _ => set (Post := Q) end.
  rewrite xwp_bind. change (list_mapped_length (pl_off + pl_len) pl_off) with nml.
  set (legacy := match k with Legacy _ => true | MemoryMap => false end) in *.
  set (new := MkList (Ref:=Ref) None 0 pl_off pl_len nml).
  (* From the old list readable to the end. *)
  assert (Hrest : forall (old : option Ref) src w2, held w2 = A ⊎ opt old ⊎ opt om -> quiet w w2 ->
    readable src pl -> old_address w (MkState (MkList om oa oo ol oml) cnt (MkList pm pa po pl pml) k w) src ->
    xwp (_ ← (if negb (pl_off =? 0) && negb (pl_len =? 0) then
                m ← new_mapping legacy pl_off nml true; _ ← adopt_placements m; mret tt
              else mret tt);
         finish_move root pl_len pl src old) Post X K
      (MkState (MkList om oa oo ol oml) cnt new k w2)).
  { intros old src w2 Hw2 Hq2 Hsrc Hsrc'. rewrite xwp_bind.
    assert (Hfinish : forall m w3, held w3 = A ⊎ opt old ⊎ opt om ⊎ opt m -> quiet w w3 ->
      (legacy = true -> m = None) -> (forall r, m = Some r -> usable r nml) ->
      (if (pl_off =? 0) || (pl_len =? 0) then address_of m = 0
       else exists w4, quiet w w4 /\ address_of m = answered legacy pl_off nml true w4) ->
      xwp (finish_move root pl_len pl src old) Post X K
        (MkState (MkList om oa oo ol oml) cnt
          (MkList m (match m with Some r => virtual_address r | None => 0 end) pl_off pl_len nml) k w3)).
    { intros m w3 Hw3 Hq3 Hlm' Hu Hm'. eapply xwp_mono;
        [| | |apply (finish_move_spec pl_len pl src old); fields]; [|done|done|done|done|done| |].
      - intros ok s' (Hown&Heq&Hiff&Hout). rewrite Heq. subst Post. fields.
        split; [unfold owns, refs in *; rewrite Heq in Hown; fields; exact Hown|].
        do 6 (split; [done|]).
        split; [destruct m; [split; [done|by apply Hu]|done]|].
        split; [done|]. exists w3, src. split; [done|]. split; [exact Hsrc'|]. split; [exact Hm'|].
        split; [exact Hiff|]. exact Hout.
      - destruct m as [r|]; [|by left]. apply (usable_readable r nml); [lia|by apply Hu|lia].
      - unfold refs. fields. rewrite Hw3. multiset_solver. }
    destruct (negb (pl_off =? 0) && negb (pl_len =? 0)) eqn:Hgive.
    - rewrite xwp_bind. apply xwp_new_mapping. intros m w3 Hw3 Hq3 Hlm' Hu Hm'. fields.
      rewrite xwp_bind. unfold adopt_placements, step_lists, adopt. rewrite xwp_bind. unfold xwp at 1.
      subst new. fields.
      assert (Hadopt : forall mapped : bool, xwp (_ ← drop_mapping None; mret mapped)
        (fun _ : bool => xwp (mret tt) (fun _ : unit => xwp (finish_move root pl_len pl src old) Post X K) X K)
        X K (MkState (MkList om oa oo ol oml) cnt
          (MkList m (match m with Some r => virtual_address r | None => 0 end) pl_off pl_len nml) k w3)).
      { intros mapped. rewrite xwp_bind. cbn [drop_mapping]. rewrite !xwp_ret.
        apply Hfinish; [rewrite Hw3, Hw2; multiset_solver|by eapply quiet_trans|done|done|].
        to_props. rewrite !(proj2 (Z.eqb_neq _ _)) by done. by exists w2. }
      destruct m as [r|]; fields; apply Hadopt.
    - rewrite xwp_ret. apply (Hfinish None w2); [rewrite Hw2; multiset_solver|done..|].
      assert ((pl_off =? 0) || (pl_len =? 0) = true) as ->; [|done].
      by destruct (pl_off =? 0), (pl_len =? 0). }
  assert (H0 : held w1 = A ⊎ opt pm ⊎ opt om) by (rewrite Hw1, Hh; multiset_solver).
  case_if.
  - to_props. destruct pm as [r|]; [done|]. rewrite xwp_bind. apply xwp_new_mapping.
    intros m w2 Hw2 Hq2 Hlm' Hu Hm'. rewrite xwp_ret. fields. cbv iota. subst pa.
    change (match m with Some r => virtual_address r | None => 0 end) with (address_of m).
    apply Hrest; [rewrite Hw2, H0; multiset_solver|by eapply quiet_trans| |].
    + destruct m as [r|]; [|by left]. apply (usable_readable r pml); [lia|by apply Hu|lia].
    + unfold old_address. fields. rewrite !(proj2 (Z.eqb_neq _ _)) by done. by exists w1.
  - rewrite xwp_ret. cbv iota. apply Hrest; [done|done| |].
    + destruct pm as [r|]; [|by left]. destruct Hm as [-> Hu].
      apply (usable_readable r pml); [lia|done|lia].
    + unfold old_address. fields. destruct pm as [r|]; [apply Hm|].
      assert ((po =? 0) || (pl =? 0) = true) as ->; [|done].
      destruct (po =? 0), (pl =? 0); done.
Qed.

(** The object list taken from its mapping, in both kinds. *)
Definition freed (s : St) : option Ref :=
  match kind s with Legacy _ => None | MemoryMap => mapping (objects s) end.
Definition taken (s : St) : St :=
  MkState (match kind s with
           | Legacy _ => objects s
           | MemoryMap => MkList None 0 (offset (objects s)) (length (objects s)) (mapped_length (objects s))
           end) (object_count s) (placements s)
    (match kind s with Legacy _ => Legacy false | MemoryMap => MemoryMap end) (world s).
Lemma xwp_take_object_list (Q : option Ref -> St -> Prop) Y K' s :
  xwp (take_object_list : M (option Ref)) Q Y K' s = Q (freed s) (taken s).
Proof. destruct s as [ob cnt pl k w]. by destruct k. Qed.

Lemma place_zero m a n : u64 n -> place_ok (MkList m a 0 0 n).
Proof. intros Hn. unfold place_ok. cbn. rewrite M32_val, M64_val in *. lia. Qed.
Lemma place_new m a o len : u64 o -> u32 len -> o + len < task_length ->
  place_ok (MkList m a o len (list_mapped_length (o + len) o)).
Proof.
  intros Ho Hl He. destruct (list_mapped_length_ge o len) as [Hm Hm']; [lia..|].
  unfold place_ok. cbn. lia.
Qed.

(** How setting the lists ends. *)
Definition set_outcome (ol_off ol_len pl_off pl_len : Z) (ok : bool) (s s' : St) : Prop :=
  let rooted both a b c d :=
    root_ok root -> distinct (world s) root 40 -> shows both (world s') root a b c d in
  let sab := supports_argument_buffers in
  if rejects ol_off ol_len pl_off pl_len s then
    ok = false /\ offset (objects s') = 0 /\ length (objects s') = 0 /\ object_count s' = 0 /\
    offset (placements s') = 0 /\ length (placements s') = 0 /\ mapping (placements s') = None /\
    rooted sab 0 0 0 0
  else
    offset (objects s') = ol_off /\ length (objects s') = ol_len /\
    object_count s' = ol_len / OBJECT_ENTRY_SIZE /\
    if sab then
      offset (placements s') = pl_off /\ length (placements s') = pl_len /\
      let old_len := length (placements s) in
      exists wr src, (root_ok root -> distinct (world s) root 40 ->
        shows true wr root ol_off ol_len pl_off pl_len) /\
      old_address wr s src /\ new_address wr s' /\
      (ok = false <-> copy_fails old_len src pl_len (address (placements s'))) /\
      if ok then
        (old_len = 0 \/ pl_len = 0 -> rooted true ol_off ol_len pl_off pl_len) /\
        (old_len <> 0 -> pl_len <> 0 -> exists w0 w1, quiet wr w0 /\
          entries_copied (Z.min old_len pl_len) src (address (placements s')) w0 w1 /\
          quiet w1 (world s'))
      else rooted true 0 0 0 0
    else ok = true /\ placements s' = placements s /\ rooted false ol_off ol_len pl_off pl_len.

Lemma set_object_list_spec ol_off ol_len pl_off pl_len s :
  u64 ol_off -> u32 ol_len -> u64 pl_off -> u32 pl_len -> owns A s -> lists_ok s ->
  xwp (set_object_list task_length supports_argument_buffers ol_off ol_len pl_off pl_len root)
    (fun ok s' => owns A s' /\ lists_ok s' /\ is_legacy s' = is_legacy s /\
      object_list_mapped s' = false /\ set_outcome ol_off ol_len pl_off pl_len ok s s') X K s.
Proof.
  intros H1 H2 H3 H4 Hown [Hob Hpl Hleg Hcount Hop Hpp Hreq Huns].
  destruct s as [[om oa oo ol oml] cnt [pm pa po pl pml] k w].
  unfold owns, refs, mapping_ok, place_ok in *. fields.
  destruct (required_small ol_len H2) as [Hdiv Hmul].
  unfold set_object_list. xwp_go. fields. apply xwp_retain_mapping. intros w1 Hw1 Hq1. fields.
  rewrite xwp_bind, xwp_take_object_list, xwp_bind. unfold freed, taken. fields.
  set (ob1 := match k with Legacy _ => MkList om oa oo ol oml | MemoryMap => MkList (Ref:=Ref) None 0 oo ol oml end).
  set (k1 := match k with Legacy _ => Legacy false | MemoryMap => MemoryMap end).
  assert (Hfree : opt (match k with Legacy _ => None | MemoryMap => om end) ⊎ opt (mapping ob1) = opt om)
    by (subst ob1; destruct k; cbn [mapping opt]; multiset_solver).
  assert (Hplace : offset ob1 = oo /\ length ob1 = ol /\ mapped_length ob1 = oml)
    by (subst ob1; by destruct k).
  set (released := match k with Legacy _ => None | MemoryMap => om end) in *.
  apply xwp_drop_mapping; [fields; rewrite Hw1, Hown; multiset_solver|].
  intros w2 Hw2 Hq2. fields.
  assert (Hh2 : held w2 = A ⊎ opt pm ⊎ opt (mapping ob1) ⊎ opt pm)
    by (rewrite Hw2, Hw1, Hown; multiset_solver).
  assert (Hq : quiet w w2) by (by eapply quiet_trans).
  clearbody released. clear w1 Hw1 Hq1 Hw2 Hq2 Hfree.
  xwp_go. fields.
  apply xwp_write_root_fields; [done|]. intros w3 Hw3. pose proof Hw3 as [(Hh3&_&_) _]. xwp_go. fields.
  assert (Hd : distinct w root 40 -> distinct w2 root 40) by (by apply distinct_quiet).
  assert (Hrej : refused task_length ol_off ol_len pl_off pl_len
      (mul64 (Num.div0 ol_len OBJECT_ENTRY_SIZE) OBJECT_PLACEMENT_SIZE)
      (MkState ob1 (Num.div0 ol_len OBJECT_ENTRY_SIZE) (MkList pm pa po pl pml) k1 w3)
    = rejects ol_off ol_len pl_off pl_len (MkState (MkList om oa oo ol oml) cnt (MkList pm pa po pl pml) k w))
    by (apply refused_rejects; fields; [done..|apply Hplace|done]).
  rewrite Hrej. unfold set_outcome.
  (* The lists left: the object list unmapped at its new place. *)
  assert (Hdead : forall (a b l : Z) n (x : List Ref) w', object_list_mapped
      (MkState (MkList (mapping ob1) (address ob1) a b l) n x k1 w') = false)
    by (subst ob1 k1; by destruct k).
  assert (Hmake : forall (a b l : Z) n (x : List Ref) w', n = b / OBJECT_ENTRY_SIZE ->
      place_ok (MkList (mapping ob1) (address ob1) a b l) -> mapping_ok x -> place_ok x ->
      (is_legacy (MkState ob1 n x k1 w') = true -> mapping x = None) ->
      (offset x <> 0 -> OBJECT_PLACEMENT_SIZE * n <= length x) ->
      (supports_argument_buffers = false -> offset x = 0 /\ length x = 0) ->
      lists_ok (MkState (MkList (mapping ob1) (address ob1) a b l) n x k1 w')).
  { intros. split; try done. subst ob1 k1. by destruct k. }
  destruct (rejects ol_off ol_len pl_off pl_len _) eqn:Hr.
  - eapply xwp_mono; [| | |apply (refuse_spec pm)]; [|done|done|].
    + intros ok [ob' cnt' pl' k' w'] (->&Hown'&Hob'&Hpl'&Hcnt'&Hk'&Hsh). fields. subst ob' pl' cnt' k'.
      split; [exact Hown'|]. split; [|split; [by subst k1; destruct k|split; [apply Hdead|]]].
      * apply Hmake; [done|apply place_zero; rewrite (proj2 (proj2 Hplace)); apply Hop|done|apply place_zero, Hpp|done|done|done].
      * split_and!; [done..|]. intros Hok Hdist. apply Hsh; [done|]. apply (distinct_stored w2); [apply Hw3|by apply Hd].
    + unfold refs. fields. rewrite Hh3, Hh2. multiset_solver.
  - destruct (refused_false _ _ _ _ _ _ H1 H2 H3 H4 Hrej) as (He1&He2&Ha1&Ha2&Hneed).
    rewrite Ha1, Ha2, Hdiv, Hmul in *.
    destruct (list_mapped_length_ge ol_off ol_len) as [Hm1 Hm2]; [lia..|].
    rewrite xwp_bind, xwp_modify. fields.
    destruct supports_argument_buffers eqn:Hsab; cbn [negb].
    + set (s1 := MkState _ _ _ _ w3).
      eapply xwp_mono; [| | |apply (move_spec pl_off pl_len s1)]; [|done|done|done|done|done|done|done| |].
      2: { subst s1. fields. by destruct k. }
      2: { subst s1. unfold refs. fields. rewrite Hh3, Hh2. multiset_solver. }
      subst s1. intros ok [ob' cnt' pl' k' w'] (Hown'&Hob'&Hcnt'&Hk'&Hpo'&Hpl'&Hml'&Hmap'&Hleg'&w0&src&Hq0&Hsrc&Hnew&Hiff&Hout).
      fields. subst ob' cnt' k'. split; [exact Hown'|].
      split; [|split; [by subst k1; destruct k|split; [apply Hdead|]]].
      * apply Hmake; [done|by apply place_new|done| |done| |done].
        -- destruct pl' as [m a o len ml]. fields. subst o len ml. by apply place_new.
        -- rewrite Hpo', Hpl'. intros Hne. by apply Hneed.
      * fields. split_and!; [done..|].
        assert (Hsh : forall w'', root_ok root -> distinct w root 40 -> quiet w3 w'' ->
            shows true w'' root ol_off ol_len pl_off pl_len).
        { intros w'' Hok Hdist Hq''. apply (shows_after _ w3); [done..|].
          apply (wrote_shows _ _ _ _ _ _ w2); [done..|by apply Hd]. }
        exists w3, src. split; [intros; by apply Hsh|]. split; [|split; [|split; [exact Hiff|]]].
        -- unfold old_address in *. cbv zeta in *. fields. subst k1. by destruct k.
        -- exact Hnew.
        -- destruct ok.
           ++ destruct Hout as (w1&Hq1&Hnone&Hcopied). split.
              ** intros Hz Hok Hdist. apply Hsh; [done..|]. eapply quiet_trans; [exact Hq0|].
                 eapply quiet_trans; [by apply Hnone|done].
              ** intros Hne1 Hne2. exists w0, w1. split; [done|]. split; [by apply Hcopied|done].
           ++ intros Hok Hdist. apply Hout; [done|].
              apply (distinct_quiet w3); [done..|]. apply (distinct_stored w2); [apply Hw3|by apply Hd].
    + rewrite xwp_bind. apply xwp_drop_mapping; [fields; rewrite Hh3, Hh2; multiset_solver|].
      intros w4 Hw4 Hq4. rewrite xwp_ret. fields. split; [rewrite Hw4, Hh3, Hh2; multiset_solver|].
      split; [|split; [by subst k1; destruct k|split; [apply Hdead|]]].
      * apply Hmake; [done|by apply place_new|done|done|by subst k1; destruct k| |done].
        intros Hne. by destruct (Huns eq_refl).
      * split_and!; [done..|]. intros Hok Hdist. apply (shows_after _ w3); [done..|].
        apply (wrote_shows _ _ _ _ _ _ w2); [done..|by apply Hd].
Qed.
End Setting.

(** *** Mapping and unmapping *)

(** What mapping and unmapping leave: the places, the count and the kind. *)
Definition same_place (l l' : List Ref) : Prop :=
  offset l' = offset l /\ length l' = length l /\ mapped_length l' = mapped_length l.
Definition same_places (s s' : St) : Prop :=
  same_place (objects s) (objects s') /\ same_place (placements s) (placements s') /\
  object_count s' = object_count s /\ is_legacy s' = is_legacy s.

Lemma same_places_refl s : same_places s s.
Proof. by repeat split. Qed.
Lemma same_places_trans s1 s2 s3 : same_places s1 s2 -> same_places s2 s3 -> same_places s1 s3.
Proof.
  intros ((?&?&?)&(?&?&?)&?&?) ((?&?&?)&(?&?&?)&?&?). repeat split; congruence.
Qed.

Lemma lists_ok_moved s s' :
  lists_ok s -> same_places s s' ->
  (is_legacy s' = false -> mapping_ok (objects s')) -> mapping_ok (placements s') ->
  (is_legacy s' = true -> mapping (placements s') = None) -> lists_ok s'.
Proof.
  intros [Hob Hpl Hleg Hcount Hop Hpp Hreq Huns] ((E1&E2&E3)&(E4&E5&E6)&E7&E8) H1 H2 H3.
  split; unfold place_ok in *; rewrite ?E1, ?E2, ?E3, ?E4, ?E5, ?E6, ?E7, ?E8 in *; done.
Qed.

Section Mapping.
Context (there : Prop) (A : gmultiset Ref).
Local Abbreviation X := (fun (_ : Empty_set) (_ : St) => False).
Local Abbreviation K := (may_die there).

(** A step that keeps the lists in order and answers as [ans] says. *)
Definition keeps_lists {B} (m : M B) (s : St) (ans : B -> St -> Prop) : Prop :=
  xwp m (fun b s' => owns A s' /\ lists_ok s' /\ same_places s s' /\ ans b s') X K s.

Lemma map_placement_list_spec s : owns A s -> lists_ok s ->
  keeps_lists map_placement_list s (fun ok s' =>
    ok = placement_list_mapped s' || (length (placements s') =? 0) /\
    objects s' = objects s /\ kind s' = kind s).
Proof.
  intros Hown Hok. pose proof Hok as [Hob Hpl Hleg Hcount Hop Hpp Hreq Huns].
  unfold keeps_lists, map_placement_list. xwp_go.
  match goal with |- xwp _ ?Q _ _ _ => set (Post := Q) end.
  assert (Hstay : forall b, b = placement_list_mapped s || (length (placements s) =? 0) -> Post b s)
    by (intros b Hb; subst Post; cbv beta; split_and!; [done|done|apply same_places_refl|done..]).
  destruct s as [[om oa oo ol oml] cnt [pm pa po pl pml] k w].
  unfold owns, refs, mapping_ok, place_ok, placement_list_mapped, GuestPtr.is_null in *. fields.
  destruct k as [mapped|]; [by rewrite xwp_ret; apply Hstay|].
  destruct (negb (pa =? 0) || (pl =? 0)) eqn:Hdone; [by rewrite xwp_ret; apply Hstay|].
  to_props. subst pa. destruct pm as [r|]; [destruct Hpl as [Ha (Hz&_)];
    unfold GuestPtr.ZERO_REGION_END in *; lia|].
  rewrite xwp_bind. apply xwp_new_mapping. intros m w1 Hw1 Hq1 _ Hu _. fields.
  unfold adopt_placements, step_lists, adopt. rewrite xwp_bind. unfold xwp at 1. fields.
  assert (Hfinal : forall b, b = match m with Some _ => true | None => false end ->
    xwp (_ ← drop_mapping None; mret b) Post X K
    (MkState (MkList om oa oo ol oml) cnt
      (MkList m (match m with Some r => virtual_address r | None => 0 end) po pl pml) MemoryMap w1)).
  { intros b ->. rewrite xwp_bind, xwp_drop_none, xwp_ret. subst Post. cbv beta. fields.
    split; [rewrite Hw1, Hown; cbn [opt]; multiset_solver|].
    split; [|split; [by repeat split|]].
    - eapply lists_ok_moved; [exact Hok|by repeat split|done| |done].
      unfold mapping_ok. cbn. destruct m as [r|]; [|done]. split; [done|by apply Hu].
    - split; [|done]. rewrite (proj2 (Z.eqb_neq pl 0)) by done. rewrite orb_false_r. destruct m as [r|]; [|done].
      destruct (Hu r eq_refl) as (Hz&_). unfold GuestPtr.ZERO_REGION_END in Hz.
      by rewrite (proj2 (Z.eqb_neq (virtual_address r) 0)) by lia. }
  destruct m as [r|]; fields; by apply Hfinal.
Qed.

Lemma xwp_calling {B} (f : W -> outcome (P * W) (Death D) (B * W)) (Q : P + B -> St -> Prop) s :
  match f (world s) with
  | Ret (a, w) => Q (inr a) (with_world w s)
  | Raised (p, w) => Q (inl p) (with_world w s)
  | Died d => may_die there d
  end -> xwp (calling f) Q X K s.
Proof. unfold xwp, calling. by destruct (f (world s)) as [[a w]|[p w]|d]. Qed.

Lemma map_object_list_spec s : owns A s -> lists_ok s ->
  keeps_lists map_object_list s (fun ok s' => ok = object_list_mapped s').
Proof.
  intros Hown Hok. pose proof Hok as [Hob Hpl Hleg Hcount Hop Hpp Hreq Huns].
  unfold keeps_lists, map_object_list. xwp_go.
  destruct s as [[om oa oo ol oml] cnt pls k w].
  unfold owns, refs, mapping_ok, place_ok, object_list_mapped, GuestPtr.is_null in *. fields.
  match goal with |- xwp _ ?Q _ _ _ => set (Post := Q) end.
  assert (Hstay : forall b m a k' w', b = match k' with Legacy b => b | MemoryMap => negb (a =? 0) end ->
    held w' = A ⊎ (opt m ⊎ opt (mapping pls)) ->
    match k' with Legacy _ => true | MemoryMap => false end
      = match k with Legacy _ => true | MemoryMap => false end ->
    (k' = MemoryMap -> mapping_ok (MkList m a oo ol oml)) ->
    Post b (MkState (MkList m a oo ol oml) cnt pls k' w')).
  { intros b m a k' w' -> Hh Hk Hm. subst Post. cbv beta. split; [done|]. split; [|by repeat split].
    eapply lists_ok_moved; [exact Hok|by repeat split| |done|].
    - intros Hl. apply Hm. by destruct k'.
    - fields. rewrite Hk. exact Hleg. }
  destruct k as [mapped|].
  - xwp_go. fields.
    assert (Hans : forall (a : MappedAddress Ref) w1, held w1 = held w ⊎ opt (ma_mapping a) ->
      xwp ('(previous, mapped) ← (if ma_address a =? 0 then
                _ ← drop_mapping (ma_mapping a); mret (None, mapped)
              else
                previous ← asks (fun s => mapping (objects s));
                _ ← modify (fun s => with_objects
                  (with_mapping (ma_mapping a) (ma_address a) (objects s)) s);
                _ ← modify (with_kind (Legacy true));
                mret (previous, true));
           _ ← drop_mapping previous; _ ← mret tt; mret mapped) Post X K
        (MkState (MkList om oa oo ol oml) cnt pls (Legacy mapped) w1)).
    { intros a w1 Hw1. rewrite xwp_bind. case_if; xwp_go; fields.
      - apply xwp_drop_mapping; [fields; rewrite Hw1, Hown; multiset_solver|].
        intros w2 Hw2 Hq2. xwp_go. rewrite xwp_drop_none. xwp_go. fields.
        apply Hstay; [done| |done|done]. rewrite Hw2, Hw1, Hown. multiset_solver.
      - apply xwp_drop_mapping; [fields; rewrite Hw1, Hown; multiset_solver|].
        intros w2 Hw2 Hq2. fields. apply Hstay; [done| |done|done].
        rewrite Hw2, Hw1, Hown. multiset_solver. }
    case_if.
    + apply xwp_calling. fields. pose proof (mapped_address_law oo ol false w) as Hlaw.
      destruct (mapped_address_for_offset oo ol false w) as [[a w1]|[p w1]|d].
      * rewrite xwp_bind, xwp_asks. cbv beta. fields. apply Hans. tauto.
      * destruct Hlaw as [Hw1 Hq1]. xwp_go. fields. xwp_go. fields. rewrite xwp_drop_none. xwp_go. fields.
        unfold land_raise. rewrite xwp_modify. fields.
        destruct (land_law p w1 ltac:(rewrite Hw1; multiset_solver)) as [Hl _].
        apply Hstay; [done| |done|done]. rewrite Hl, Hw1, Hown. multiset_solver.
      * by destruct Hlaw as [e ->].
    + rewrite xwp_ret, xwp_bind, xwp_asks. cbv beta. fields. apply (Hans (unmapped 0)).
      cbn [ma_mapping unmapped opt]. multiset_solver.
  - xwp_go. fields. destruct (oa =? 0) eqn:Ha; cbn [negb].
    + to_props. subst oa. specialize (Hob eq_refl). destruct om as [r|].
      { destruct Hob as [Ha (Hz&_)]. unfold GuestPtr.ZERO_REGION_END in Hz. lia. }
      xwp_go. fields. apply xwp_new_mapping. intros m w1 Hw1 Hq1 _ Hu _. fields.
      unfold adopt_objects, step_lists, adopt. rewrite xwp_bind. unfold xwp at 1. fields.
      destruct m as [r|]; fields; xwp_go; rewrite xwp_drop_none; xwp_go; apply Hstay; try done.
      * destruct (Hu r eq_refl) as (Hz&_). unfold GuestPtr.ZERO_REGION_END in Hz.
        by rewrite (proj2 (Z.eqb_neq (virtual_address r) 0)) by lia.
      * rewrite Hw1, Hown. cbn [opt]. multiset_solver.
      * intros _. split; [done|by apply Hu].
      * rewrite Hw1, Hown. cbn [opt]. multiset_solver.
    + rewrite xwp_ret. apply Hstay; [by rewrite Ha|done|done|intros _; exact (Hob eq_refl)].
Qed.
End Mapping.

(** *** An entry's two loads *)

(** The 12 bytes of an entry as the packed record they are. *)
Definition entry_of (bs : list byte) : ObjectEntry :=
  MkObjectEntry (of_le_bytes (take 4 bs)) (of_le_bytes (drop 4 bs)).

Lemma of_le_bytes_app (a b : list byte) :
  of_le_bytes (a ++ b) = of_le_bytes a + 256 ^ Z.of_nat (List.length a) * of_le_bytes b.
Proof.
  clear Hlength. induction a as [|x a IH]; [cbn [app of_le_bytes List.length]; rewrite Z.pow_0_r; lia|].
  cbn [app of_le_bytes List.length]. rewrite IH, Nat2Z.inj_succ, Z.pow_succ_r by lia. ring.
Qed.

Lemma lor_halves high low : u32 high -> u64 low ->
  Z.lor (shl64 high 32) (shr64 low 32) = low / 2 ^ 32 + 2 ^ 32 * high.
Proof.
  clear Hlength. intros Hh Hl. rewrite M32_val, M64_val in *. unfold shl64, shr64.
  change (32 mod 64) with 32. rewrite Z.shiftl_mul_pow2, Z.shiftr_div_pow2 by lia.
  rewrite w64_small by (rewrite M64_val; lia).
  assert (0 <= low / 2 ^ 32 < 2 ^ 32) as Hd
    by (split; [apply Z.div_pos; lia|apply Z.div_lt_upper_bound; lia]).
  assert (Z.land (high * 2 ^ 32) (low / 2 ^ 32) = 0) as Hland.
  { apply Z.bits_inj'. intros i Hi. rewrite Z.land_spec, Z.bits_0.
    destruct (Z.lt_ge_cases i 32).
    - rewrite Z.mul_pow2_bits_low by lia. done.
    - rewrite (Z.bits_above_log2 (low / 2 ^ 32)); [apply andb_false_r|lia|].
      destruct (Z.eq_dec (low / 2 ^ 32) 0) as [->|]; [simpl; lia|].
      apply Z.log2_lt_pow2; [lia|]. eapply Z.lt_le_trans; [apply Hd|].
      apply Z.pow_le_mono_r; lia. }
  rewrite <- Z.lxor_lor, <- Z.add_nocarry_lxor by done. lia.
Qed.

Lemma load_object_entry_at a s :
  GuestPtr.ZERO_REGION_END <= a -> a + 12 < M64 ->
  load_object_entry a s = Ret (entry_of (GuestPtr.bytes_at (view (world s)) a 12), s).
Proof.
  clear Hlength. intros Hz Hm. unfold GuestPtr.ZERO_REGION_END in Hz. pose proof M64_val.
  unfold load_object_entry, load. rewrite !run_step.
  unfold GuestPtr.read_u32, GuestPtr.read_u64, GuestPtr.read_n.
  rewrite GuestPtr.check_ok by (unfold GuestPtr.ZERO_REGION_END; lia). cbn [mbind outcome_bind].
  rewrite run_step.
  rewrite GuestPtr.check_ok by (unfold GuestPtr.ZERO_REGION_END; lia). cbn [mbind outcome_bind].
  rewrite Z.add_0_r. unfold mret, run_ret. do 2 f_equal. unfold entry_of.
  set (v := view (world s)).
  change 12%nat with (4 + (4 + 4))%nat. change 8%nat with (4 + 4)%nat.
  rewrite !GuestPtr.bytes_at_app.
  set (x := GuestPtr.bytes_at v a 4).
  assert (List.length x = 4%nat) as Hx by apply GuestPtr.length_bytes_at.
  rewrite take_app_length' by done. rewrite drop_app_length' by done.
  replace (a + Z.of_nat 4 + Z.of_nat 4) with (a + 8) by lia.
  set (y := GuestPtr.bytes_at v (a + Z.of_nat 4) 4). set (z := GuestPtr.bytes_at v (a + 8) 4).
  pose proof (of_le_bytes_u32 x Hx) as Hxr.
  pose proof (of_le_bytes_u32 y (GuestPtr.length_bytes_at _ _ _)) as Hyr.
  pose proof (of_le_bytes_u32 z (GuestPtr.length_bytes_at _ _ _)) as Hzr.
  rewrite !of_le_bytes_app, Hx.
  assert (List.length y = 4%nat) as Hy by apply GuestPtr.length_bytes_at. rewrite ?Hy.
  change (256 ^ Z.of_nat 4) with (2 ^ 32). rewrite M32_val in *.
  f_equal.
  - unfold Num.low_u32, w32, M32. rewrite (Z.mul_comm (2 ^ 32)), Z.mod_add, Z.mod_small by lia. done.
  - rewrite lor_halves by (rewrite ?M32_val, ?M64_val; lia).
    rewrite (Z.mul_comm (2 ^ 32) (of_le_bytes y)), Z.div_add, Z.div_small by lia. lia.
Qed.

(** *** Runs of operations *)

Inductive Op : Type :=
| SetLists (ol_off ol_len pl_off pl_len root : Z)
| MapLists
| MapObjects
| MapPlacements
| UnmapObjects
| UnmapPlacements.

Definition perform (op : Op) : M unit :=
  match op with
  | SetLists a b c d root =>
      _ ← set_object_list task_length supports_argument_buffers a b c d root; mret tt
  | MapLists => _ ← ensure_mapped; mret tt
  | MapObjects => _ ← map_object_list; mret tt
  | MapPlacements => _ ← map_placement_list; mret tt
  | UnmapObjects => unmap_object_list
  | UnmapPlacements => unmap_placement_list
  end.
Definition op_ok (op : Op) : Prop :=
  match op with
  | SetLists a b c d root => u64 a /\ u32 b /\ u64 c /\ u32 d /\ u64 root /\ root_fixed root
  | _ => True
  end.
Definition step (s s' : St) : Prop := exists op, op_ok op /\ perform op s = Ret (tt, s').

Section Runs.
Context (A : gmultiset Ref).
Local Abbreviation X := (fun (_ : Empty_set) (_ : St) => False).
Local Abbreviation K := (may_die False).

Lemma may_die_weaken (there : Prop) (d : Death D) : may_die there d -> K d.
Proof. destruct d as [[]| | | |]; cbn; tauto. Qed.

Lemma unmap_objects_spec s : owns A s -> lists_ok s ->
  keeps_lists False A unmap_object_list s (fun _ s' => object_list_mapped s' = false).
Proof.
  intros Hown Hok. pose proof Hok as [Hob Hpl Hleg _ _ _ _ _].
  unfold keeps_lists, unmap_object_list. rewrite xwp_bind, xwp_take_object_list.
  destruct s as [[om oa oo ol oml] cnt pls k w]. unfold owns, refs, freed, taken, object_list_mapped in *. fields.
  apply xwp_drop_mapping; [fields; rewrite Hown; destruct k; cbn [opt]; multiset_solver|].
  intros w1 Hw1 Hq1. fields.
  split; [rewrite Hw1, Hown; destruct k; cbn [opt mapping]; multiset_solver|].
  split; [|split; [by destruct k|by destruct k]].
  eapply lists_ok_moved; [exact Hok|by destruct k| |done|by destruct k]. intros Hl. by destruct k.
Qed.

Lemma unmap_placements_spec s : owns A s -> lists_ok s ->
  keeps_lists False A unmap_placement_list s (fun _ s' => placement_list_mapped s' = false).
Proof.
  intros Hown Hok. pose proof Hok as [Hob Hpl Hleg _ _ _ _ _].
  unfold keeps_lists, unmap_placement_list. rewrite xwp_bind, xwp_asks. cbv beta.
  destruct s as [ob cnt [pm pa po pl pml] k w]. unfold owns, refs, placement_list_mapped in *. fields.
  destruct k as [mapped|].
  { rewrite xwp_ret. by split_and!; [..|apply same_places_refl|]. }
  rewrite xwp_bind. unfold take_placement_list, step_lists, unmap, xwp at 1. fields.
  apply xwp_drop_mapping; [fields; rewrite Hown; multiset_solver|].
  intros w1 Hw1 Hq1. fields.
  split; [rewrite Hw1, Hown; cbn [opt mapping]; multiset_solver|].
  split; [|by repeat split]. by eapply lists_ok_moved; [exact Hok| | | |].
Qed.

Lemma ensure_mapped_spec s : owns A s -> lists_ok s ->
  keeps_lists False A ensure_mapped s (fun ok s' => ok = true -> object_list_mapped s' = true /\
    (placement_list_mapped s' = true \/ length (placements s') = 0)).
Proof.
  intros Hown Hok. unfold keeps_lists, ensure_mapped, ensure_object_list_mapped,
    ensure_placement_list_mapped, is_object_list_mapped, is_placement_list_mapped.
  assert (Hpl : forall s1, owns A s1 -> lists_ok s1 -> same_places s s1 -> object_list_mapped s1 = true ->
    xwp (mapped ← asks placement_list_mapped; if mapped : bool then mret true else map_placement_list)
      (fun ok s' => owns A s' /\ lists_ok s' /\ same_places s s' /\ (ok = true ->
        object_list_mapped s' = true /\
        (placement_list_mapped s' = true \/ length (placements s') = 0))) X K s1).
  { intros s1 Hown1 Hok1 Hsame Hobj. xwp_go. destruct (placement_list_mapped s1) eqn:Hm.
    - rewrite xwp_ret. by split_and!; [..|intros _; split; [done|left]].
    - eapply xwp_mono; [| | |apply (map_placement_list_spec False A s1 Hown1 Hok1)]; [|done|done].
      intros ok s' (?&?&?&->&Hob&Hk). split_and!; [done|done|by eapply same_places_trans|].
      intros Ht. split; [unfold object_list_mapped in *; by rewrite Hob, Hk|]. apply orb_true_iff in Ht as [?|?]; [by left|right; to_props; done]. }
  rewrite xwp_bind, xwp_bind, xwp_asks. cbv beta.
  destruct (object_list_mapped s) eqn:Hm.
  - rewrite xwp_ret. apply Hpl; [done|done|apply same_places_refl|done].
  - eapply xwp_mono; [| | |apply (map_object_list_spec False A s Hown Hok)]; [|done|done].
    intros ok s1 (?&?&?&->). destruct (object_list_mapped s1) eqn:Hm1; [by apply Hpl|].
    rewrite xwp_ret. by split_and!.
Qed.

Lemma perform_spec op s : op_ok op -> owns A s -> lists_ok s ->
  xwp (perform op) (fun _ s' => owns A s' /\ lists_ok s' /\ is_legacy s' = is_legacy s) X K s.
Proof.
  intros Hop Hown Hok.
  assert (Hk : forall (B : Type) (m : M B) ans, keeps_lists False A m s ans ->
    xwp m (fun _ s' => owns A s' /\ lists_ok s' /\ is_legacy s' = is_legacy s) X K s).
  { intros B m ans Hm. eapply xwp_mono; [| | |exact Hm]; [|done|done].
    intros b s' (?&?&(_&_&_&?)&_). done. }
  destruct op as [a b c d root| | | | |]; cbn [perform op_ok] in *.
  - destruct Hop as (?&?&?&?&?&?). rewrite xwp_bind.
    eapply xwp_mono; [| | |apply (set_object_list_spec root A)]; try done.
    + intros ok s' (?&?&?&_). by rewrite xwp_ret.
    + apply may_die_weaken.
  - rewrite xwp_bind. eapply xwp_mono; [| | |apply (Hk _ _ _ (ensure_mapped_spec s Hown Hok))]; [|done|done].
    intros. by rewrite xwp_ret.
  - rewrite xwp_bind.
    eapply xwp_mono; [| | |apply (Hk _ _ _ (map_object_list_spec False A s Hown Hok))]; [|done|done].
    intros. by rewrite xwp_ret.
  - rewrite xwp_bind.
    eapply xwp_mono; [| | |apply (Hk _ _ _ (map_placement_list_spec False A s Hown Hok))]; [|done|done].
    intros. by rewrite xwp_ret.
  - apply (Hk _ _ _ (unmap_objects_spec s Hown Hok)).
  - apply (Hk _ _ _ (unmap_placements_spec s Hown Hok)).
Qed.

Lemma drop_lists_spec there s : owns A s ->
  xwp (drop_lists : M unit) (fun _ s' => held (world s') = A) X (may_die there) s.
Proof.
  destruct s as [[om oa oo ol oml] cnt [pm pa po pl pml] k w]. unfold owns, refs, drop_lists. fields.
  intros Hown. xwp_go. fields. apply xwp_drop_mapping; [fields; rewrite Hown; multiset_solver|].
  intros w1 Hw1 Hq1. apply xwp_drop_mapping; [fields; rewrite Hw1, Hown; multiset_solver|].
  intros w2 Hw2 Hq2. fields. rewrite Hw2, Hw1, Hown. multiset_solver.
Qed.

Lemma steps_ok s0 s : owns A s0 -> lists_ok s0 -> rtc step s0 s ->
  owns A s /\ lists_ok s /\ is_legacy s = is_legacy s0.
Proof.
  intros H1 H2 Hr. induction Hr as [|s0 s1 s2 (op&Hop&Hs) _ IH]; [done|].
  pose proof (perform_spec op s0 Hop H1 H2) as Hp. unfold xwp in Hp. rewrite Hs in Hp.
  destruct Hp as (?&?&E). rewrite <- E. by apply IH.
Qed.
End Runs.

Lemma new_ok k w : lists_ok (new k w) /\ owns (held w) (new k w).
Proof.
  split; [|unfold owns, refs, new, list_new; fields; cbn [opt]; multiset_solver].
  split; unfold new, list_new, mapping_ok, place_ok; fields; done || lia || idtac.
  all: rewrite ?M32_val, ?M64_val; repeat split; lia || by left.
Qed.

Lemma reached_ok k w s : rtc step (new k w) s ->
  owns (held w) s /\ lists_ok s /\ is_legacy s = is_legacy (new k w : St).
Proof. destruct (new_ok k w). by apply steps_ok. Qed.
End Facts.

(** ** The properties *)

Section Properties.
Context {W Ref P D : Type} `{HL : LawfulHost W Ref P D} {target : Target}.
Local Abbreviation St := (State (W:=W) (Ref:=Ref)).

(** C31: whatever is asked of a task's object lists, and however their task refuses or raises,
    the references to mappings they hold are exactly those of their two lists, and their end
    gives back exactly those: no mapping is leaked and none released twice. *)
Theorem mappings_balanced task_length sab k (w : W) (s : St) :
  task_length + APV_PAGE_SIZE <= M64 -> rtc (step task_length sab) (new k w) s ->
  held (world s) = held w ⊎ opt (mapping (objects s)) ⊎ opt (mapping (placements s)) /\
  match drop_lists s with
  | Ret (_, s') => held (world s') = held w
  | Raised _ => False
  | Died d => may_die True d
  end.
Proof.
  intros Hl Hr. destruct (reached_ok task_length sab Hl k w s Hr) as (Hown&_&_).
  split; [rewrite Hown; unfold refs; multiset_solver|].
  pose proof (drop_lists_spec task_length Hl (held w) True s Hown) as Hd. unfold xwp in Hd.
  destruct (drop_lists s) as [[[] s']|[[] s']|d]; done.
Qed.

(** C32: for lists of the memory-map kind (the legacy kind of the blocks setup is left
    out: there the task's own address may have no mapping behind it, or not be readable),
    over every run of the operations: an entry of the object list is answered exactly when the
    list is mapped and holds it, as the packed record its two loads make of the 12 bytes there,
    and those bytes lie in the mapping the list holds. A placement entry's address is bounded
    by the object count alone; it lies in its list's mapping where the list is not at
    offset 0. *)
Theorem entries_within_lists task_length sab (w : W) (s : St) index :
  task_length + APV_PAGE_SIZE <= M64 -> rtc (step task_length sab) (new MemoryMap w) s -> 0 <= index ->
  get_object_entry index s = Ret
    ((if object_list_mapped s then
        if object_count s <=? index then inl (OutOfRange index (object_count s))
        else inr (entry_of (GuestPtr.bytes_at (view (world s)) (address (objects s) + 12 * index) 12))
      else inl ObjectsNotMapped), s) /\
  get_placement_list_entry (D:=D) sab index s = Ret
    ((if placement_list_mapped s then
        if object_count s <=? index then inl (OutOfRange index (object_count s))
        else inr (Some (add64 (address (placements s)) (16 * index)))
      else if sab && negb (length (placements s) =? 0) then inl PlacementsNotMapped
      else inr None), s) /\
  (index < object_count s ->
    (object_list_mapped s = true -> exists r, mapping (objects s) = Some r /\ r ∈ held (world s) /\
      address (objects s) = virtual_address r /\ 12 * index + 12 <= mapping_length r) /\
    (placement_list_mapped s = true -> offset (placements s) <> 0 ->
      exists r, mapping (placements s) = Some r /\ r ∈ held (world s) /\
        address (placements s) = virtual_address r /\ 16 * index + 16 <= mapping_length r)).
Proof.
  intros Hl Hr Hi. destruct (reached_ok task_length sab Hl MemoryMap w s Hr) as (Hown&Hok&Hk).
  destruct Hok as [Hob Hpl _ Hcount Hop Hpp Hreq _].
  destruct s as [[om oa oo ol oml] cnt [pm pa po pl pml] k w'].
  unfold owns, refs, mapping_ok, place_ok, is_legacy, object_list_mapped, placement_list_mapped,
    GuestPtr.is_null, new, OBJECT_ENTRY_SIZE, OBJECT_PLACEMENT_SIZE in *.
  cbn [objects object_count placements kind world mapping address offset length mapped_length] in *.
  destruct k as [|]; [done|]. specialize (Hob eq_refl). pose proof M32_val. pose proof M64_val.
  assert (0 <= cnt /\ 12 * cnt <= ol) as [Hc Hcl]
    by (subst cnt; pose proof (Z.mul_div_le ol 12); pose proof (Z.div_pos ol 12); lia).
  (* Where an address is mapped, it is its mapping's. *)
  assert (Hmapped : forall (m : option Ref) a len ml n,
      match m with Some r => a = virtual_address r /\ usable r ml | None => a = 0 end ->
      negb (a =? 0) = true -> 0 < n <= len -> len = 0 \/ len <= ml ->
      exists r, m = Some r /\ a = virtual_address r /\ n <= mapping_length r /\
        GuestPtr.ZERO_REGION_END <= a /\ a + n < M64).
  { intros m a len ml n Hm Ha Hn Hlen. destruct m as [r|]; [|by subst a].
    destruct Hm as (->&Hz&Hu&Hm). exists r. split_and!; [done|done|lia|done|lia]. }
  split_and!.
  - unfold get_object_entry. rewrite run_step. unfold asks, object_list_mapped, GuestPtr.is_null. cbn [kind objects address].
    destruct (negb (oa =? 0)) eqn:Ha; [|done]. rewrite run_step. cbn [object_count].
    destruct (Z.leb_spec cnt index) as [Hge|Hlt]; [done|]. rewrite run_step.
    cbn [objects address]. unfold GuestPtr.offset, OBJECT_ENTRY_SIZE.
    destruct (Hmapped om oa ol oml (12 * index + 12) Hob Ha) as (r&_&_&_&Hz&Hm); [lia|lia|].
    unfold GuestPtr.ZERO_REGION_END in Hz.
    rewrite (mul64_small index 12), (Z.mul_comm index), add64_small by lia.
    rewrite run_step, load_object_entry_at by (unfold GuestPtr.ZERO_REGION_END; lia). done.
  - unfold get_placement_list_entry. rewrite run_step. unfold asks, placement_list_mapped, GuestPtr.is_null.
    cbn [kind placements address].
    destruct (negb (pa =? 0)) eqn:Ha.
    + rewrite run_step. cbn [object_count].
      destruct (Z.leb_spec cnt index) as [Hge|Hlt]; [done|]. rewrite run_step.
      cbn [placements address]. unfold GuestPtr.offset, OBJECT_PLACEMENT_SIZE.
      by rewrite (mul64_small index 16), (Z.mul_comm index) by lia.
    + rewrite run_step. cbn [placements length]. by destruct (sab && negb (pl =? 0)).
  - intros Hlt. split.
    + intros Ha. destruct (Hmapped om oa ol oml (12 * index + 12) Hob Ha) as (r&->&->&?&_); [lia|lia|].
      exists r. split_and!; [done| |done|done]. rewrite Hown. cbn [opt]. multiset_solver.
    + intros Ha Ho. specialize (Hreq Ho).
      destruct (Hmapped pm pa pl pml (16 * index + 16) Hpl Ha) as (r&->&->&?&_); [lia|lia|].
      exists r. split_and!; [done| |done|done]. rewrite Hown. cbn [opt]. multiset_solver.
Qed.

(** C30: setting the lists refuses exactly the ranges the one test names, with the members and
    the root's fields zeroed. Otherwise the members take the new lists, and with argument
    buffers the entries of the old placement list are looked for in the mapping held, or in a
    new one of its place, and the new list at a new mapping of its own: the call answers no
    exactly where the old list is not empty and either it has no address or the new one is not
    empty and has none, and then the root shows zeros; else the entries, as many as both hold,
    are copied from the one to the other after the root took the new lists. It ends the
    process only elsewhere, at the end of its own task, or at a task root that is not there. *)
Theorem set_object_list_ends task_length sab k (w : W) (s : St) ol_off ol_len pl_off pl_len root :
  task_length + APV_PAGE_SIZE <= M64 -> rtc (step task_length sab) (new k w) s ->
  op_ok (SetLists ol_off ol_len pl_off pl_len root) ->
  match set_object_list task_length sab ol_off ol_len pl_off pl_len root s with
  | Ret (ok, s') => object_list_mapped s' = false /\
      set_outcome task_length sab root ol_off ol_len pl_off pl_len ok s s'
  | Raised _ => False
  | Died d => may_die (root_ok root) d
  end.
Proof.
  intros Hl Hr (?&?&?&?&?&?).
  destruct (reached_ok task_length sab Hl k w s Hr) as (Hown&Hok&_).
  pose proof (set_object_list_spec task_length sab Hl root (held w)) as Hs.
  unfold xwp in Hs.
  match goal with |- context [set_object_list ?a ?b ?c ?d ?e ?f ?g s] =>
    specialize (Hs ltac:(done) ltac:(done) c d e f s ltac:(done) ltac:(done) ltac:(done) ltac:(done) Hown Hok);
    destruct (set_object_list a b c d e f g s) as [[ok s']|[[] s']|d'] end; [|done].
  destruct Hs as (_&_&_&?&?). done.
Qed.

(** C33: the copy of the placement entries, a guest page at a time, leaves guest memory as
    libc's forward byte-by-byte copy does, also where the two lists are aliases of the same
    pages, as long as a mapping keeps the offset in the page. *)
Theorem placement_copy_is_memcpy (s : St) dst src n :
  0 <= n < M32 ->
  GuestPtr.ZERO_REGION_END <= dst < M64 -> dst + n < M64 ->
  GuestPtr.ZERO_REGION_END <= src < M64 -> src + n < M64 ->
  dst mod APV_PAGE_SIZE = 0 -> src mod APV_PAGE_SIZE = 0 ->
  (forall a, frame (world s) a mod APV_PAGE_SIZE = a mod APV_PAGE_SIZE) ->
  match copy_placement_list dst src n s with
  | Ret (_, s') => s' = with_world (world s') s /\ frame (world s') = frame (world s) /\
      ram (world s') = Num.bytewise (fun i => frame (world s) (src + i))
        (fun i => frame (world s) (dst + i)) (Z.to_nat n) 0 (ram (world s))
  | Raised _ => False
  | Died d => may_die True d
  end.
Proof.
  intros Hn Hd Hde Hs Hse Hda Hsa Hframe. pose proof page_size as [_ Hp].
  pose proof (xwp_copy True (fun _ _ => False) dst src n Hn Hd Hde Hs Hse
    (fun _ s' => s' = with_world (world s') s /\ frame (world s') = frame (world s) /\
      ram (world s') = Num.bytewise (fun i => frame (world s) (src + i))
        (fun i => frame (world s) (dst + i)) (Z.to_nat n) 0 (ram (world s))) s) as Hc.
  unfold xwp in Hc.
  destruct (copy_placement_list dst src n s) as [[[] s']|[[] s']|d]; apply Hc; clear Hc;
    intros w' [(_&Hf&_) Hr]; cbn [world with_world]; (split; [done|]; split; [done|]); rewrite Hr;
    unfold COPY_CHUNK.
  all: destruct (Z.eq_dec n 0) as [->|Hn0];
    [unfold Num.forward_copy; by rewrite Z.min_l by lia|].
  all: rewrite M32_val in *; pose proof M64_val;
    apply Num.forward_copy_bytewise; [lia|lia|].
  all: intros i j Hi Hj E; apply (f_equal (fun x => x mod APV_PAGE_SIZE)) in E;
    rewrite !Hframe in E; rewrite <- Z.add_mod_idemp_l, Hsa in E by lia;
    rewrite <- (Z.add_mod_idemp_l dst), Hda, !Z.add_0_l in E by lia;
    destruct (Z.min_spec n APV_PAGE_SIZE) as [[? ->]|[? ->]]; [|done].
  all: rewrite !Z.mod_small in E by lia; by subst.
Qed.
End Properties.

(** ** A host

    Mappings are handed out one after another; every host address shows its own byte. *)

Module Mini.
Record World := MkWorld { live : gmultiset (Z * Z); next : Z; mem : GuestPtr.memory }.

Definition map_next (len : Z) (w : World) : option (Z * Z) * World :=
  if (GuestPtr.ZERO_REGION_END <=? next w) && (next w + len <? M64)
  then (Some (next w, len), MkWorld (live w ⊎ {[+ (next w, len) +]}) (next w + 0x100000) (mem w))
  else (None, w).

#[export] Instance host : Host World (Z * Z) Empty_set Empty_set := {
  task_lives _ := true;
  new_virtual_mapping _ len _ w := Ret (map_next len w);
  mapped_address_for_offset _ len _ w :=
    let '(m, w) := map_next len w in
    Ret (MkMapped (match m with Some r => fst r | None => 0 end) m, w);
  land _ w := w;
  virtual_address := fst;
  retain r w := MkWorld (live w ⊎ {[+ r +]}) (next w) (mem w);
  release r w := Ret (MkWorld (live w ∖ {[+ r +]}) (next w) (mem w));
  ram := mem;
  set_ram m w := MkWorld (live w) (next w) m;
  frame _ a := a;
  task_ended _ := false;
}.

#[export] Instance lawful : LawfulHost World (Z * Z) Empty_set Empty_set.
Proof.
  refine {| held := live; carried := fun p : Empty_set => match p with end; mapping_length := snd;
    fixed := fun _ => True |}.
  - intros off len writable w. cbn. unfold map_next. destruct (_ && _) eqn:E; cbn.
    + to_props. split_and!; [done|done|done|done|]. intros r [= <-]. cbn. split_and!; lia.
    + split_and!; [multiset_solver|done..].
  - intros off len writable w. cbn. unfold map_next. destruct (_ && _) eqn:E; cbn.
    + by split_and!.
    + split_and!; [multiset_solver|done..].
  - intros [].
  - intros r w. by split_and!.
  - intros r w Hr. by split_and!.
  - intros m w. by split_and!.
Defined.

#[export] Instance target : Target := X86_64.
Definition start : World := MkWorld ∅ 0x200000000 (fun a => byte_of_Z a).
Definition ROOT : Z := 0x100001000.

(** The lists of a task of 1 MiB after [ops]. *)
Definition after (sab : bool) (ops : list Op) : State (W:=World) (Ref:=Z * Z) :=
  fold_left (fun s op => match perform (P:=Empty_set) (D:=Empty_set) 0x100000 sab op s with
    | Ret (_, s) => s | _ => s end) ops (new MemoryMap start).

(** The lists set twice, the second placement list copied from the first. *)
Definition set1 : Op := SetLists 0x1000 120 0x3000 160 ROOT.
Definition set2 : Op := SetLists 0x5000 60 0x7000 320 ROOT.

Lemma ops_ok : op_ok set1 /\ op_ok set2.
Proof. by split; vm_compute; repeat split. Qed.
Lemma after_reached ops : Forall op_ok ops ->
  (forall l1 op l2, ops = l1 ++ op :: l2 ->
    perform (P:=Empty_set) (D:=Empty_set) 0x100000 true op (after true l1)
    = Ret (tt, after true (l1 ++ [op]))) ->
  rtc (step (P:=Empty_set) (D:=Empty_set) 0x100000 true) (new MemoryMap start) (after true ops).
Proof.
  induction ops as [|op ops IH] using rev_ind; intros Hok Hrun; [done|].
  apply Forall_app in Hok as [Hok Hop]. eapply rtc_r.
  - apply IH; [done|]. intros l1 op' l2 ->. apply (Hrun l1 op' (l2 ++ [op])). by rewrite <- app_assoc.
  - exists op. split; [by inversion_clear Hop|]. by apply (Hrun ops op []).
Qed.
End Mini.

(** ** Witnesses *)

Import Mini.

Lemma one_page : 0x100000 + APV_PAGE_SIZE <= M64.
Proof. by vm_compute. Qed.

Local Abbreviation once := (Mini.after true [Mini.set1; MapLists]).
Lemma once_reached :
  rtc (step (P:=Empty_set) (D:=Empty_set) 0x100000 true) (new MemoryMap Mini.start) once.
Proof.
  apply Mini.after_reached; [repeat constructor; apply Mini.ops_ok|].
  intros [|op1 [|op2 l1]] op l2 [=]; subst; [vm_compute; reflexivity..|]. by destruct l1.
Qed.
Lemma once_mapped :
  object_list_mapped once = true /\ object_count once = 10 /\
  (exists r, mapping (placements once) = Some r) /\ length (placements once) = 160.
Proof. vm_compute. eauto. Qed.

Lemma entries_within_lists_witness :
  0x100000 + APV_PAGE_SIZE <= M64 /\
  get_object_entry (D:=Empty_set) 2 once = Ret
    (inr (entry_of (GuestPtr.bytes_at (view (world once)) (address (objects once) + 12 * 2) 12)), once).
Proof.
  split; [exact one_page|].
  destruct (entries_within_lists 0x100000 true Mini.start once 2 one_page once_reached
    ltac:(discriminate)) as [E _].
  rewrite E. destruct once_mapped as (->&->&_). reflexivity.
Defined.

Lemma mappings_balanced_witness :
  held (world once)
  = held Mini.start ⊎ opt (mapping (objects once)) ⊎ opt (mapping (placements once)).
Proof.
  exact (proj1 (mappings_balanced 0x100000 true MemoryMap Mini.start once one_page once_reached)).
Defined.

Lemma set_object_list_ends_witness :
  match set_object_list (D:=Empty_set) 0x100000 true 0x5000 60 0x7000 320 Mini.ROOT once with
  | Ret (ok, s') => object_list_mapped s' = false /\
      set_outcome 0x100000 true Mini.ROOT 0x5000 60 0x7000 320 ok once s'
  | Raised _ => False
  | Died d => may_die (root_ok Mini.ROOT) d
  end.
Proof.
  apply (set_object_list_ends 0x100000 true MemoryMap Mini.start once _ _ _ _ _ one_page once_reached).
  exact (proj2 Mini.ops_ok).
Defined.

Lemma placement_copy_is_memcpy_witness :
  match copy_placement_list (D:=Empty_set) 0x200100000 0x200000000 160 once with
  | Ret (_, s') => s' = with_world (world s') once /\ frame (world s') = frame (world once) /\
      ram (world s') = Num.bytewise (fun i => frame (world once) (0x200000000 + i))
        (fun i => frame (world once) (0x200100000 + i)) (Z.to_nat 160) 0 (ram (world once))
  | Raised _ => False
  | Died d => may_die True d
  end.
Proof.
  apply (placement_copy_is_memcpy once 0x200100000 0x200000000 160);
    [by vm_compute; repeat split..|by intros a].
Defined.

(** A placement list at offset 0 is not held to the length the objects need, and it is
    mapped on use: an entry below the object count can lie past its mapping. *)
Local Abbreviation past := (Mini.after true [SetLists 0x1000 12000 0 4 Mini.ROOT; MapLists]).
Example placement_past_the_list : exists r a,
  mapping (placements past) = Some r /\
  get_placement_list_entry (D:=Empty_set) true 999 past = Ret (inr (Some a), past) /\
  virtual_address r + mapping_length r < a.
Proof. do 2 eexists. vm_compute. repeat split. Qed.

End ObjectLists.
