(* ===== verification/Lifecycle.v ===== *)
(** * Lifecycle: suspend, resume, pause, stop and reset of the device
    (src/crates/reims-vgpu-core/src/device/lifecycle.rs)

    Every operation of the device's life over its parts: the registers are [Mmio]'s device over
    the display ports, the tasks [TaskTable]'s, the blob [SuspendBlob]'s and the device info
    [DeviceInfo]'s. What is asked beside of a FIFO and of a guest display is the interface class
    [Parts]. A call runs alone; the stamps a FIFO's quiesce or drain publishes go through the
    device's own signal, and waking the stamp waiters changes no state here. Pools, holders,
    locks and log lines are not modelled. *)

From S2P Require Import Prelude Num MemoryKinds DisplayKinds DeviceKinds GuestRecords GuestPtr.
From S2P Require Import SuspendBlob Features MemoryMap Waits RootTask Device Displays Mmio.
From S2P Require Import Collections DeviceInfo TaskTable.
From stdpp Require Import gmap.
Open Scope Z_scope.

Module Lifecycle.
Import DeviceKinds.
#[local] Existing Instance RootTask.RunState_eq_dec.

Definition RESUME_ERROR_INTERNAL_FAULT : Z := 0.
Definition RESUME_ERROR_INVALID_GUEST_VERSION : Z := 3.
Definition RESUME_ERROR_INCOMPATIBLE_DEVICE : Z := 4.
Definition RESUME_ERROR_INVALID_DISPLAY_PORT_COUNT : Z := 5.
Definition RESUME_BINARY_VERSION_LIMIT : Z := 0xf6.
Definition RESET_DEVICE_INFO_MAX_KEY : Z := 1.
Definition CHILD_FIFO_SLOTS : Z := 64.
Definition ROOT_TASK_WORDS : nat := 256.
Definition CHILD_NODE_FLAG : Z := 0x40e.
Definition CHILD_NODE_STRIDE : Z := 0x14.
Definition TASK_ROOT_NODE_SIZE : Z := 0x1c.
Definition TASK_ROOT_LENGTH : nat := 0x14.

(** What the device asks of its FIFOs and its guest displays beside [Device] and [Displays]; a
    quiesce answers the stamp values its pump published. *)
Class Parts (W V F G R : Type) := {
  fifo_quiesce : F -> W -> outcome Empty_set ddeath (list Z * W);
  root_written : F -> W -> option Z;
  root_start_offset : F -> W -> option Z;
  set_root_read : F -> Z -> W -> outcome Empty_set ddeath W;
  set_fault_offset : F -> Z -> W -> outcome Empty_set ddeath W;
  gd_pause : G -> V -> outcome Empty_set ddeath V;
  gd_unpause : G -> V -> outcome (R * V) ddeath V;
  gd_finish_restore : G -> V -> outcome Empty_set ddeath V;
}.

(** What the device is set up with: of its caps, what the device info takes. *)
Record Setup := MkSetup {
  argument_buffers : bool;
  buffer_with_iosurface : bool;
  shared_textures : bool;
  large_user_tasks : bool;
  large_kernel_tasks : bool;
  range_buffer : bool;
  shared_memory_heap : bool;
}.

(** The device with the registers only a suspend and a resume use. *)
Record State (W F : Type) := MkState {
  mm : Mmio.State W F;
  guest_device_info_max_key : Z;
  staged_read : Z;
  staged_written : Z;
  staged_fault : Z;
}.
Arguments MkState {W F}. Arguments mm {W F}. Arguments guest_device_info_max_key {W F}.
Arguments staged_read {W F}. Arguments staged_written {W F}. Arguments staged_fault {W F}.

Section State.
Context {W F : Type}.
Implicit Types (s : State W F).
Definition with_mm (m : Mmio.State W F) s : State W F :=
  MkState m (guest_device_info_max_key s) (staged_read s) (staged_written s) (staged_fault s).
Definition with_max_key (k : Z) s : State W F :=
  MkState (mm s) k (staged_read s) (staged_written s) (staged_fault s).
Definition with_staged (r w f : Z) s : State W F :=
  MkState (mm s) (guest_device_info_max_key s) r w f.
Definition dev s : Device.State W F := Mmio.dev (mm s).
Definition world s : W := Device.world (dev s).
Definition run_state s : RootTask.RunState := RootTask.run_state (Device.rt (dev s)).
Definition on_device (f : Device.State W F -> Device.State W F) s : State W F :=
  with_mm (Mmio.with_dev (f (dev s)) (mm s)) s.
Definition store_run_state (r : RootTask.RunState) s : State W F :=
  on_device (fun d => Device.with_rt (RootTask.with_run_state r (Device.rt d)) d) s.
End State.

(** How an operation ends the process. *)
Inductive death (E P : Type) : Type :=
| OfMmio (d : Mmio.death)
| OfInfo (d : DeviceInfo.death E)
| OfFlush (p : P).
Arguments OfMmio {E P}. Arguments OfInfo {E P}. Arguments OfFlush {E P}.

Section Lifecycle.
Context {V G X R F L Rm P E : Type}.
Local Abbreviation W := (Displays.State V G X).
Local Abbreviation Tk := (TaskTable.Task L Rm).
Context `{PT : Displays.Parts V G X R} `{PO : Mmio.PortOps V G X R}.
Context `{TB : TaskTable.Table W Tk} `{TK : TaskTable.Tasks W L Rm P}.
Variable base : Device.Clients W F Tk P.
(** The device's parts, its tasks those of the table. *)
#[local] Instance parts : Device.Clients W F Tk P := TaskTable.clients (DC := base).
Context `{LP : Parts W V F G R} {target : GuestRecords.Target}.
Context (blocks : RootTask.HostBlocks).
Context (answers : list MemoryMap.VmCall -> MemoryMap.VmCall -> bool)
        (allocates : list MemoryMap.VmCall -> Z -> option Z).
Context (process_isolation isolation_follows_guest : bool).
Context (caps : DeviceInfo.DeviceCaps E) (setup : Setup).
Local Abbreviation M := (Run (State W F) Empty_set (death E P)).

(** ** The parts' operations *)

Definition mmio {A} (m : Run (Mmio.State W F) Empty_set Mmio.death A) : M A := fun s =>
  match m (mm s) with
  | Ret (a, m) => Ret (a, with_mm m s)
  | Raised (e, _) => match e with end
  | Died d => Died (OfMmio d)
  end.
Definition device {A} (m : Run (Device.State W F) (Device.Raise P) ddeath A) : M A :=
  mmio (Mmio.device m).
Definition displays {A} (m : Run W (Displays.Raise R) ddeath A) : M A := mmio (Mmio.displays m).
(** Under a handler of its own: a raise is logged. *)
Definition handled (m : Run (Device.State W F) (Device.Raise P) ddeath unit) : M unit :=
  device (fun d => match m d with Raised (_, d) => Ret (tt, d) | r => r end).
Definition fatal {A} (k : DeviceDeath) : M A := die (OfMmio (Mmio.OfDevice (Fatal k))).
Definition require_that (b : bool) (k : DeviceDeath) : M unit := if b then mret tt else fatal k.
Definition fifo (m : W -> outcome Empty_set ddeath W) : M unit := device (Device.client_ m).
Definition optional {A} (f : A -> M unit) (o : option A) : M unit :=
  match o with Some a => f a | None => mret tt end.

(** [f] of each index from [i], [n] of them. *)
Fixpoint upto (f : Z -> M unit) (n : nat) (i : Z) : M unit :=
  match n with
  | O => mret tt
  | S n => _ ← f i; upto f n (i + 1)
  end.

Definition current_root_fifo (s : State W F) : option F := Device.root_fifo (Device.root (dev s)).
Definition current_child_fifo (index : Z) (s : State W F) : option F :=
  mjoin (Device.child_fifos (dev s) !! Z.to_nat index).
Definition current_guest_display (port : Z) (s : State W F) : option G :=
  Displays.guest_display_at port (world s).
Definition port_count (s : State W F) : Z := Displays.port_count (world s).
Definition on_root (f : F -> M unit) : M unit :=
  root ← asks current_root_fifo; optional f root.
Definition on_child (f : F -> M unit) (index : Z) : M unit :=
  child ← asks (current_child_fifo index); optional f child.
Definition each_child (f : F -> M unit) : M unit := upto (on_child f) 63 1.
Definition each_guest_display (f : G -> M unit) : M unit :=
  count ← asks port_count;
  upto (fun port => g ← asks (current_guest_display port); optional f g) (Z.to_nat count) 0.

Definition quiesce (f : F) : M unit := device (Device.publishing blocks fifo_quiesce f).
Definition drain (f : F) : M unit := device (Device.publishing blocks Device.fifo_drain f).
Definition in_gd (m : V -> outcome Empty_set ddeath V) : M unit :=
  displays (Displays.part_ (fun v =>
    match m v with Ret v => Ret v | Raised e => match e with end | Died d => Died d end)).
Definition interrupt : M unit := device (Device.interrupt blocks).
Definition start (f : F) : M unit := fifo (Device.fifo_start f).

Definition start_fifos : M unit := _ ← each_child start; on_root start.

(** ** Suspend *)

Definition will_suspend : M unit :=
  _ ← modify (store_run_state RootTask.EnteringSuspend);
  _ ← on_root quiesce;
  zero ← asks (current_child_fifo 0);
  _ ← require_that (match zero with None => true | Some _ => false end) ChildFifoInSlotZero;
  each_child quiesce.

Definition info_snapshot (s : State W F) : DeviceInfo.DeviceInfoSnapshot :=
  DeviceInfo.MkSnapshot (Device.features (dev s)) (Mmio.feature_level (mm s))
    (argument_buffers setup) (guest_device_info_max_key s) (buffer_with_iosurface setup)
    (shared_textures setup) (large_user_tasks setup) (large_kernel_tasks setup)
    (range_buffer setup) (shared_memory_heap setup).

Definition suspend_registers (s : State W F) : SuspendBlob.SuspendDeviceState :=
  let d := dev s in
  let r := Device.root d in
  let i := Device.irqs d in
  let efi := Displays.efi (world s) in
  let of_root (f : F -> option Z) := default 0 (root ← current_root_fifo s; f root) in
  SuspendBlob.MkSuspendDeviceState (RootTask.root_page_number (Device.rt d))
    (w32 (Mmio.binary_version (mm s))) (Device.base_page r) (Device.enabled r)
    (Device.flength r) (of_root (fun f => root_written f (world s)))
    (of_root (fun f => Device.root_read f (world s)))
    (of_root (fun f => root_start_offset f (world s)))
    (Device.interrupt_display i) (Device.interrupt_stamp i)
    (Z.b2z (negb (Device.interrupt_fault_mask i =? 0)))
    (Displays.enabled efi) (Displays.start efi) (Displays.length_ efi) (Displays.depth efi)
    (Displays.mode efi) (Displays.stride efi) (port_count s)
    (of_root (fun f => Some (Device.fault_offset f (world s))))
    (Mmio.display_port_connection_types (mm s)).

Definition serialize_suspend_state : M (list byte) := fun s =>
  match DeviceInfo.write_device_info Memory.Die caps (info_snapshot s)
          (u32_of_i32 (guest_device_info_max_key s)) SuspendBlob.SERIALIZED_INFO_PAIRS [] with
  | Raised (e, _) => Died (OfInfo (DeviceInfo.Thrown e))
  | Died d => Died (OfInfo d)
  | Ret (_, pairs) =>
      Ret (SuspendBlob.serialize (SuspendBlob.new (suspend_registers s)
             (guest_device_info_max_key s) (DeviceInfo.in_array pairs)), s)
  end.

(** The walk of a suspend over the tasks' copies. *)
Fixpoint flush_tasks (ts : list Tk) (w : W) : outcome P ddeath W :=
  match ts with
  | [] => Ret w
  | t :: ts =>
      match TaskTable.flush_resources t w with
      | Ret w =>
          match TaskTable.task_teardown t w with
          | Ret w => flush_tasks ts w
          | Raised e => match e with end
          | Died d => Died d
          end
      | Raised (p, _) => Raised p
      | Died d => Died d
      end
  end.
Definition suspend_tasks : M unit := fun s =>
  let all := BucketOrderMap.values (TaskTable.table (world s)) in
  match flush_tasks all (TaskTable.copies all (world s)) with
  | Raised p => Died (OfFlush p)
  | Died d => Died (OfMmio (Mmio.OfDevice d))
  | Ret w =>
      fifo (fun w =>
        w ← TaskTable.each TaskTable.release all w;
        let '(removed, rest) := BucketOrderMap.drain (TaskTable.table w) in
        TaskTable.each TaskTable.release removed (TaskTable.set_table rest w))
        (on_device (Device.with_world w) s)
  end.

Definition drop_child (index : Z) : M unit :=
  child ← asks (current_child_fifo index);
  match child with
  | Some f =>
      _ ← drain f;
      modify (on_device (fun d =>
        Device.with_children (<[Z.to_nat index := None]> (Device.child_fifos d)) d))
  | None => mret tt
  end.

Definition finish_suspend : M (list byte) :=
  now ← asks run_state;
  _ ← require_that (match now with RootTask.EnteringSuspend => true | _ => false end) SuspendNotBegun;
  _ ← modify (store_run_state RootTask.Suspended);
  _ ← upto drop_child 63 1;
  _ ← on_root drain;
  _ ← suspend_tasks;
  state ← serialize_suspend_state;
  _ ← modify (on_device (fun d =>
    Device.with_root (Device.with_stamp_memory None (Device.root d)) d));
  mapping ← asks (fun s => Device.root_fifo_mapping (Device.root (dev s)));
  _ ← modify (on_device (fun d =>
    Device.with_root (Device.with_mapping None (Device.with_fifo None (Device.root d))) d));
  _ ← device (Device.drop_mapping blocks mapping);
  _ ← each_guest_display (fun g => in_gd (gd_pause g));
  mret state.

(** ** Resume *)

(** The code stored where the caller wants one. *)
Definition code (wants : bool) (c : Z) : option Z := if wants then Some c else None.
Definition refuse (wants : bool) (c : Z) : M (bool * option Z) := mret (false, code wants c).

(** The registers of a state stored. *)
Definition store_registers (r : SuspendBlob.SuspendDeviceState) : M unit :=
  _ ← modify (on_device (fun d =>
    Device.with_rt (RootTask.with_page (SuspendBlob.root_page_number r) (Device.rt d)) d));
  _ ← modify (on_device (fun d => Device.with_root
    (Device.with_enabled (SuspendBlob.fifo_enabled r) (Device.root d)) d));
  _ ← modify (on_device (fun d => Device.with_root
    (Device.with_start (SuspendBlob.fifo_start r) (Device.with_length (SuspendBlob.fifo_length r)
      (Device.with_base_page (SuspendBlob.fifo_base_page r) (Device.root d)))) d));
  _ ← modify (with_staged (SuspendBlob.fifo_read r) (SuspendBlob.fifo_written r)
    (SuspendBlob.fifo_fault_offset r));
  _ ← modify (on_device (Device.with_irqs (Device.MkInterrupts (SuspendBlob.interrupt_display r)
    (SuspendBlob.interrupt_stamp r) 0)));
  modify (on_device (fun d => Device.with_world (Displays.with_efi (Displays.MkEfi
    (SuspendBlob.efi_enabled r) (SuspendBlob.efi_start r) (SuspendBlob.efi_length r)
    (SuspendBlob.efi_depth r) (SuspendBlob.efi_mode r) (SuspendBlob.efi_stride r))
    (Device.world d)) d)).

Definition check_suspend_device_info (state : SuspendBlob.SuspendState) : M bool := fun s =>
  match DeviceInfo.check_capabilities caps (info_snapshot s) (SuspendBlob.device_info state) with
  | Ret provides => Ret (provides, s)
  | Raised e => Died (OfInfo (DeviceInfo.Thrown e))
  | Died d => Died (OfInfo d)
  end.

(** The checks after the version, and the stores of a state none refuses. *)
Definition resume_checked (blob : SuspendBlob.SuspendState) (wants : bool) : M (bool * option Z) :=
  let r := SuspendBlob.registers blob in
  stored ← asks (fun s => Mmio.binary_version (mm s));
  if stored <? 0 then refuse wants RESUME_ERROR_INVALID_GUEST_VERSION
  else
    offered ← check_suspend_device_info blob;
    if negb offered then refuse wants RESUME_ERROR_INCOMPATIBLE_DEVICE
    else
      count ← asks port_count;
      if negb (count =? SuspendBlob.display_port_count r)
      then refuse wants RESUME_ERROR_INVALID_DISPLAY_PORT_COUNT
      else
        typed ← asks (fun s => GuestRecords.supports_display_port_connection_type
          (Device.features (dev s)));
        types ← asks (fun s => Mmio.display_port_connection_types (mm s));
        if typed && negb (types =? SuspendBlob.display_port_connection_types r)
        then refuse wants RESUME_ERROR_INTERNAL_FAULT
        else
          _ ← store_registers r;
          _ ← modify (with_max_key (SuspendBlob.device_info_max_key blob));
          mret (true, None).

(** [None]: no state; [wants]: the caller gave somewhere to store the code. *)
Definition will_resume (state : option (list byte)) (wants : bool) : M (bool * option Z) :=
  _ ← modify (store_run_state RootTask.LeavingSuspendEarly);
  match state with
  | None => refuse wants SuspendBlob.RESUME_ERROR_INVALID_CONTENT
  | Some bytes =>
      match SuspendBlob.parse bytes with
      | None => die (OfMmio (Mmio.OfDevice OutOfFuel))
      | Some (inl c) => refuse wants c
      | Some (inr blob) =>
          let version := SuspendBlob.binary_version (SuspendBlob.registers blob) in
          if RESUME_BINARY_VERSION_LIMIT <=? version
          then refuse wants RESUME_ERROR_INVALID_GUEST_VERSION
          else
            _ ← mmio (Mmio.set_binary_version version);
            resume_checked blob wants
      end
  end.

(** A word of the root node. *)
Definition root_word (width : nat) (root_node off : Z)
    : Run (Device.State W F) (Device.Raise P) ddeath Z :=
  Device.client (fun w =>
    v ← GuestPtr.read_n width (Device.memory_of w) root_node off (Fatal RootNodeFault); Ret (v, w)).
Definition read_root (width : nat) (root_node off : Z) : M Z :=
  device (root_word width root_node off).

Definition resume_root_fifo : M unit :=
  enabled ← asks (fun s => Device.enabled (Device.root (dev s)));
  if enabled =? 0 then mret tt
  else
    _ ← device (Device.create_root_fifo blocks answers allocates);
    root ← asks current_root_fifo;
    match root with
    | None => fatal ResumedRootFifoMissing
    | Some root =>
        read ← asks staged_read;
        written ← asks staged_written;
        fault ← asks staged_fault;
        _ ← fifo (set_root_read root read);
        _ ← fifo (Device.set_root_written root written);
        if negb (fault =? M32 - 1) then
          _ ← fifo (set_fault_offset root fault);
          device (Device.update_irqs (fun i =>
            Device.with_fault (Z.lor (Device.interrupt_fault_mask i) 1) i))
        else mret tt
    end.

(** The child nodes from [index], [walk] of them; the fuel is past the end of any page. *)
Definition WALK_FUEL : nat := 1024.
Definition node_flag (index : Z) : Z := add64 CHILD_NODE_FLAG (mul64 index CHILD_NODE_STRIDE).
Fixpoint resume_nodes (fuel : nat) (root_node walk index : Z) : M unit :=
  match fuel with
  | O => die (OfMmio (Mmio.OfDevice OutOfFuel))
  | S fuel =>
      if walk <=? index then mret tt
      else
        let offset := node_flag index in
        _ ← require_that (add64 offset 2 <=? GuestRecords.APV_PAGE_SIZE) ResumeWalkLeftRootPage;
        used ← read_root 2 root_node offset;
        _ ← (if negb (used =? 0) then
               _ ← device (Device.create_fifo_internal (add32 (Num.low_u32 index) 1) true); mret tt
             else mret tt);
        resume_nodes fuel root_node walk (index + 1)
  end.
(** The fault bit of the FIFO in slot [index]. *)
Definition resume_fault (index : Z) : M unit :=
  on_child (fun f =>
    fault ← asks (fun s => Device.fault_offset f (world s));
    if negb (fault =? M32 - 1) then device (Device.update_irqs (fun i =>
      Device.with_fault (Z.lor (Device.interrupt_fault_mask i) (Num.bit64 index)) i))
    else mret tt) index.
Definition resume_children (root_node : Z) : M unit :=
  max_fifo_count ← asks (fun s => Device.max_fifo_count (dev s));
  if max_fifo_count =? 1 then mret tt
  else
    _ ← resume_nodes WALK_FUEL root_node (sub32 max_fifo_count 1) 0;
    upto resume_fault (Z.to_nat (max_fifo_count - 1)) 1.

(** The length in a task's root node as it was read. *)
Definition task_length (bytes : option (list byte)) : Z :=
  let node := default (replicate (Z.to_nat TASK_ROOT_NODE_SIZE) x00) bytes in
  of_le_bytes (take 8 (drop TASK_ROOT_LENGTH node)).
(** Every task's word under a handler of its own. *)
Definition resume_task (root_node task_id : Z) : M unit :=
  let word := mul64 task_id 4 in
  handled (
    task_root ← root_word 4 root_node word;
    if task_root =? 0 then mret tt
    else
      memory ← asks (fun d => Device.memory_of (Device.world d));
      '(_, bytes) ← Device.in_task (RootTask.read_from_physical_address blocks answers allocates
        memory Memory.Return (shl64 task_root GuestRecords.APV_PAGE_SHIFT) TASK_ROOT_NODE_SIZE);
      task_root ← root_word 4 root_node word;
      TaskTable.create_task_id process_isolation isolation_follows_guest task_id task_root
        (task_length bytes) true).
Definition resume_tasks (root_node : Z) : M unit := upto (resume_task root_node) ROOT_TASK_WORDS 0.

Definition resume_display (root_node port : Z) : M unit :=
  page ← read_root 4 root_node (mul64 (add64 Displays.ROOT_DISPLAY_WORDS port) 4);
  if page =? 0 then mret tt
  else
    now ← asks run_state;
    let running := match now with RootTask.Running => true | _ => false end in
    displays (Displays.landed
      (Displays.set_shared_display_state_page (Some root_node) running page port true)).
Definition resume_displays (root_node : Z) : M unit :=
  count ← asks port_count;
  upto (resume_display root_node) (Z.to_nat count) 0.

Definition resume_efi : M unit :=
  let reg f := asks (fun s : State W F => f (Displays.efi (world s))) in
  enabled ← reg Displays.enabled;
  if enabled =? 0 then mret tt
  else
    _ ← displays (Displays.set_efi_display enabled);
    start ← reg Displays.start; _ ← mmio (Mmio.set_efi_framebuffer_start start);
    length ← reg Displays.length_; _ ← mmio (Mmio.set_efi_framebuffer_length length);
    depth ← reg Displays.depth; _ ← mmio (Mmio.set_efi_framebuffer_depth depth);
    mode ← reg Displays.mode; _ ← mmio (Mmio.set_efi_framebuffer_mode mode);
    stride ← reg Displays.stride; mmio (Mmio.set_efi_framebuffer_stride stride).

Definition did_resume : M unit :=
  _ ← modify (store_run_state RootTask.Resuming);
  _ ← resume_efi;
  page ← asks (fun s => RootTask.root_page_number (Device.rt (dev s)));
  _ ← device (Device.set_root_page blocks answers allocates page);
  root_node ← asks (fun s => Device.root_node (Device.node (dev s)));
  _ ← (match root_node with
       | Some root_node =>
           _ ← resume_root_fifo;
           _ ← resume_children root_node;
           _ ← resume_tasks root_node;
           resume_displays root_node
       | None => mret tt
       end);
  _ ← modify (store_run_state RootTask.Running);
  _ ← each_guest_display (fun g => in_gd (gd_finish_restore g));
  _ ← start_fifos;
  interrupt.

(** ** Pause, stop and reset *)

Definition pause : M unit :=
  _ ← on_root quiesce;
  _ ← on_root drain;
  _ ← each_child quiesce;
  _ ← each_child drain;
  _ ← each_guest_display (fun g => in_gd (gd_pause g));
  modify (store_run_state RootTask.Paused).

Definition unpause : M unit :=
  _ ← modify (store_run_state RootTask.Running);
  _ ← each_guest_display (fun g => displays (Displays.part_ (gd_unpause g)));
  _ ← start_fifos;
  interrupt.

Definition stop : M unit := device (Device.set_root_page blocks answers allocates 0).

Definition reset : M unit :=
  _ ← device (Device.set_root_page blocks answers allocates 0);
  _ ← mmio (Mmio.set_binary_version 0);
  _ ← displays (Displays.set_efi_display 0);
  modify (with_max_key RESET_DEVICE_INFO_MAX_KEY).

(** ** Operations of the parts alone *)

Definition in_world (w : W) (s : State W F) : State W F := on_device (Device.with_world w) s.
(** It changes nothing but the parts' own state, and raises nothing. *)
Definition worldly {A} (m : M A) : Prop :=
  forall s, wp m (fun _ s' => exists w, s' = in_world w s) (fun _ => False) s.

Lemma in_world_eta s : in_world (world s) s = s.
Proof. by destruct s as [[[] ? ? ?] ? ? ? ?]. Qed.
Lemma worldly_wp {A} (m : M A) Q Xr s :
  worldly m -> (forall a w, Q a (in_world w s)) -> wp m Q Xr s.
Proof.
  intros Hm HQ. eapply wp_mono; [| |apply Hm]; [|done]. intros a s' [w ->]. apply HQ.
Qed.
Lemma worldly_ret {A} (a : A) : worldly (mret a).
Proof. intros s. exists (world s). by rewrite in_world_eta. Qed.
Lemma worldly_asks {A} (f : State W F -> A) : worldly (asks f).
Proof. intros s. exists (world s). by rewrite in_world_eta. Qed.
Lemma worldly_bind {A B} (m : M A) (f : A -> M B) :
  worldly m -> (forall a, worldly (f a)) -> worldly (m ≫= f).
Proof.
  intros Hm Hf s. rewrite wp_bind. apply (worldly_wp m); [done|]. intros a w.
  eapply wp_mono; [| |apply Hf]; [|done]. intros b s' [w' ->]. by exists w'.
Qed.
Lemma worldly_optional {A} (f : A -> M unit) o : (forall a, worldly (f a)) -> worldly (optional f o).
Proof. intros Hf. destruct o; [apply Hf|apply worldly_ret]. Qed.
Lemma worldly_upto f n : (forall i, worldly (f i)) -> forall i, worldly (upto f n i).
Proof.
  intros Hf. induction n as [|n IH]; intros i; [apply worldly_ret|].
  apply worldly_bind; [apply Hf|done].
Qed.
Lemma worldly_device {A} (m : W -> outcome Empty_set ddeath (A * W)) : worldly (device (Device.client m)).
Proof.
  intros s. unfold wp, device, mmio, Mmio.device, Device.or_die, Device.client. fold (dev s).
  destruct (m (Device.world (dev s))) as [[a w]|[]|d]; [|done]. by exists w.
Qed.
Lemma worldly_fifo m : worldly (fifo m).
Proof. apply worldly_device. Qed.
Lemma worldly_displays {A} (m : Run W (Displays.Raise R) ddeath A) : worldly (displays m).
Proof.
  intros s. unfold wp, displays, mmio, Mmio.displays. destruct (m (Mmio.ports (mm s))) as [[a w]|[e w]|d];
    [|done|done]. by exists w.
Qed.
Lemma worldly_in_gd m : worldly (in_gd m).
Proof. apply worldly_displays. Qed.
Lemma worldly_on_root f : (forall a, worldly (f a)) -> worldly (on_root f).
Proof. intros Hf. apply worldly_bind; [apply worldly_asks|]. intros o. by apply worldly_optional. Qed.
Lemma worldly_each_child f : (forall a, worldly (f a)) -> worldly (each_child f).
Proof.
  intros Hf. apply worldly_upto. intros i. apply worldly_bind; [apply worldly_asks|].
  intros o. by apply worldly_optional.
Qed.
Lemma worldly_each_gd f : (forall a, worldly (f a)) -> worldly (each_guest_display f).
Proof.
  intros Hf. apply worldly_bind; [apply worldly_asks|]. intros n. apply worldly_upto. intros i.
  apply worldly_bind; [apply worldly_asks|]. intros o. by apply worldly_optional.
Qed.
Lemma worldly_start_fifos : worldly start_fifos.
Proof.
  apply worldly_bind; [apply worldly_each_child|intros _; apply worldly_on_root];
    intros f; apply worldly_fifo.
Qed.
Lemma worldly_suspend_tasks : worldly suspend_tasks.
Proof.
  intros s. unfold wp, suspend_tasks. set (all := BucketOrderMap.values _).
  destruct (flush_tasks all _) as [w|p|d]; [|done|done].
  eapply wp_mono; [| |apply worldly_fifo]; [|done]. intros a s' [w' ->]. by exists w'.
Qed.

(** ** The run state of the device's own operations *)

Definition run_of (d : Device.State W F) : RootTask.RunState := RootTask.run_state (Device.rt d).
Definition steady {A} (m : Run (Device.State W F) (Device.Raise P) ddeath A) : Prop := forall d,
  wp m (fun _ d' => run_of d' = run_of d) (fun d' => run_of d' = run_of d) d.

Lemma steady_bind {A B} (m : Run (Device.State W F) (Device.Raise P) ddeath A)
    (f : A -> Run (Device.State W F) (Device.Raise P) ddeath B) :
  steady m -> (forall a, steady (f a)) -> steady (m ≫= f).
Proof.
  intros Hm Hf d. rewrite wp_bind. eapply wp_mono; [| |apply Hm]; [|done]. intros a d' <-. apply Hf.
Qed.
Lemma steady_client {A} (m : W -> outcome Empty_set ddeath (A * W)) : steady (Device.client m).
Proof. intros d. unfold wp, Device.client. by destruct (m _) as [[? ?]|[]|]. Qed.
Lemma steady_task {A} (m : Run RootTask.State DeviceRaise ddeath A) :
  RootTask.silent m -> steady (Device.in_task m).
Proof.
  intros Hm d. specialize (Hm (Device.rt d)). unfold wp, Device.in_task, run_of in *.
  by destruct (m (Device.rt d)) as [[? ?]|[? ?]|].
Qed.
Lemma steady_waits m : steady (Device.in_waits m).
Proof. intros d. unfold wp, Device.in_waits. by destruct (m _) as [?|[? ?]|]. Qed.
Lemma steady_die {A} (m : Run (Device.State W F) (Device.Raise P) ddeath A) :
  steady m -> steady (Device.or_die m).
Proof.
  intros Hm d. specialize (Hm d). unfold wp, Device.or_die in *. by destruct (m d) as [[? ?]|[[] ?]|].
Qed.
Ltac steady_go :=
  repeat match goal with
    | |- steady (mbind _ _) => apply steady_bind; [|intros ?]
    | |- steady (Device.client _) => apply steady_client
    | |- steady (Device.client_ _) => apply steady_client
    | |- steady (Device.store_u32 _ _ _ _) => apply steady_client
    | |- steady (Device.in_task _) => apply steady_task
    | |- steady (Device.in_waits _) => apply steady_waits
    | |- steady (Device.or_die _) => apply steady_die
    | |- steady (match _ with _ => _ end) => case_match
    | |- steady (Device.require_that _ _) => unfold Device.require_that
    | |- steady (Device.new_contiguous_mapping _ _ _ _ _) => unfold Device.new_contiguous_mapping
    | |- steady (Device.drop_mapping _ _) => unfold Device.drop_mapping
    | |- steady (Device.store_root_mapping _ _) => unfold Device.store_root_mapping
    | |- steady (Device.update_root _) => done
    | |- steady (Device.update_irqs _) => done
    | |- steady (Device.set_slot _ _) => done
    | |- steady (Device.child_slot _) => unfold Device.child_slot
    | |- steady (Device.destroy_root_task _ _) => unfold Device.destroy_root_task
    | |- RootTask.silent (RootTask.new_contiguous_mapping _ _ _ _ _) => apply RootTask.silent_contiguous
    | |- RootTask.silent (RootTask.drop_mapping _ _) => apply RootTask.silent_drop
    | |- RootTask.silent (RootTask.ask _ _) => apply RootTask.silent_ask
    | |- RootTask.silent _ => done
    | |- steady _ => first [ assumption | intros d; exact eq_refl | done ]
    | |- _ => progress cbv zeta
    end.
Lemma steady_interrupt : steady (Device.interrupt blocks).
Proof. unfold Device.interrupt. steady_go. Qed.
Lemma steady_publishing op f : steady (Device.publishing blocks op f).
Proof.
  unfold Device.publishing. steady_go.
  match goal with |- steady (Device.signal_all _ ?i ?l) => generalize i; induction l as [|v l IH] end;
    intros i; cbn [Device.signal_all]; [by intros d|].
  apply steady_bind; [|intros []; apply IH]. unfold Device.signal_stamp. steady_go.
  all: apply steady_interrupt.
Qed.
Lemma steady_tell ts stamp : steady (Device.tell_tasks ts stamp).
Proof.
  induction ts as [|t ts IH]; [done|]. cbn [Device.tell_tasks]. apply steady_bind; [|done].
  intros d. unfold wp. by destruct (Device.fifo_deleted t stamp _) as [?|?|].
Qed.
Lemma steady_delete id : steady (Device.delete_fifo blocks id).
Proof. unfold Device.delete_fifo. steady_go. all: apply steady_tell || apply steady_publishing. Qed.
Lemma steady_children n : forall id, steady (Device.delete_children blocks n id).
Proof.
  induction n as [|n IH]; intros id; [done|]. cbn [Device.delete_children]. steady_go; [|apply IH..].
  all: try apply steady_delete. all: apply IH.
Qed.
Lemma steady_teardown_fifos : steady (Device.teardown_fifos blocks).
Proof. unfold Device.teardown_fifos. steady_go. all: apply steady_children || apply steady_publishing. Qed.
Lemma steady_teardown_root : steady (Device.teardown_root blocks).
Proof. unfold Device.teardown_root. steady_go. all: apply steady_teardown_fifos. Qed.
Lemma steady_root_page page : steady (Device.set_root_page blocks answers allocates page).
Proof.
  unfold Device.set_root_page, Device.map_root_node, Device.make_root_task. steady_go.
  all: apply steady_teardown_root.
Qed.

(** ** The version of a resume *)

Definition versioned (v : Z) (s : State W F) : State W F :=
  with_mm (Mmio.with_dev (Device.with_features (Features.features_for_version v) (dev s))
    (Mmio.with_version v (mm s))) s.
Definition negotiated (requested : Z) (s : State W F) : outcome Empty_set Features.GuestDeath (option Z) :=
  Features.set_binary_version requested (Mmio.feature_level (mm s)).
Definition has_efi (v : Z) : bool := GuestRecords.efi_display (Features.features_for_version v).

Lemma efi_off_ports (w : W) :
  match Displays.set_efi_display 0 w with
  | Ret (_, w') => Displays.port_count w' = Displays.port_count w
  | _ => True
  end.
Proof.
  unfold Displays.set_efi_display. cbn [Z.eqb negb]. rewrite run_step. unfold asks.
  rewrite run_step. destruct (Displays.efi_display w) as [x|]; [|done].
  unfold Displays.or_die, Displays.part_, Displays.part.
  destruct (Displays.efi_teardown x (Displays.world w)) as [v|[e v]|d]; [done..].
Qed.
Lemma set_version_spec requested s :
  match mmio (Mmio.set_binary_version requested) s with
  | Ret (_, s') =>
      match negotiated requested s with
      | Ret None => s' = s
      | Ret (Some v) => exists w, s' = in_world w (versioned v s) /\
          Displays.port_count w = Displays.port_count (world s)
      | _ => False
      end
  | Raised _ => False
  | Died d => (exists k, negotiated requested s = Died k) \/
      exists v, negotiated requested s = Ret (Some v) /\ has_efi v = false
  end.
Proof.
  unfold mmio, Mmio.set_binary_version, negotiated. rewrite run_step. unfold asks.
  destruct (Features.set_binary_version requested _) as [[v|]|[]|k]; [| |by left; exists k].
  - rewrite run_step. unfold modify. rewrite run_step. fold (has_efi v).
    destruct (has_efi v) eqn:Ee; cbn [negb].
    + cbn [mret run_ret]. exists (world s). by destruct s as [[[] ? ? ?] ? ? ? ?].
    + unfold Mmio.displays. match goal with |- context [Displays.set_efi_display 0 ?w0] =>
        pose proof (efi_off_ports w0) as Hp; destruct (Displays.set_efi_display 0 w0) as [[a w]|[e w]|d] end;
        [by exists w|right; by exists v|right; by exists v].
  - cbn [mret run_ret]. by destruct s.
Qed.

(** What a resume stores, read back; the fault mask is not stored. *)
Definition stored_registers (fault : Z) (s : State W F) : SuspendBlob.SuspendDeviceState :=
  let d := dev s in
  let r := Device.root d in
  let i := Device.irqs d in
  let efi := Displays.efi (world s) in
  SuspendBlob.MkSuspendDeviceState (RootTask.root_page_number (Device.rt d))
    (w32 (Mmio.binary_version (mm s))) (Device.base_page r) (Device.enabled r)
    (Device.flength r) (staged_written s) (staged_read s) (Device.fstart r)
    (Device.interrupt_display i) (Device.interrupt_stamp i) fault
    (Displays.enabled efi) (Displays.start efi) (Displays.length_ efi) (Displays.depth efi)
    (Displays.mode efi) (Displays.stride efi) (port_count s) (staged_fault s)
    (Mmio.display_port_connection_types (mm s)).

(** The stores of a resume that is not refused. *)
Definition resumed (blob : SuspendBlob.SuspendState) (s : State W F) : State W F :=
  match (_ ← store_registers (SuspendBlob.registers blob);
         modify (with_max_key (SuspendBlob.device_info_max_key blob))) s with
  | Ret (_, s') => s'
  | _ => s
  end.

(** *** The checks of a resume after its version *)

(** The code of the first check that refuses, [None] where none does. *)
Definition refusal (blob : SuspendBlob.SuspendState) (s : State W F) : option Z :=
  let r := SuspendBlob.registers blob in
  if Mmio.binary_version (mm s) <? 0 then Some RESUME_ERROR_INVALID_GUEST_VERSION
  else match DeviceInfo.check_capabilities caps (info_snapshot s) (SuspendBlob.device_info blob) with
  | Ret true =>
      if negb (port_count s =? SuspendBlob.display_port_count r)
      then Some RESUME_ERROR_INVALID_DISPLAY_PORT_COUNT
      else if GuestRecords.supports_display_port_connection_type (Device.features (dev s)) &&
              negb (Mmio.display_port_connection_types (mm s) =?
                    SuspendBlob.display_port_connection_types r)
      then Some RESUME_ERROR_INTERNAL_FAULT
      else None
  | _ => Some RESUME_ERROR_INCOMPATIBLE_DEVICE
  end.
Definition leaving_early (s : State W F) : State W F :=
  store_run_state RootTask.LeavingSuspendEarly s.

Lemma resume_checked_spec blob wants s1 :
  match resume_checked blob wants s1 with
  | Ret (answer, s') =>
      match refusal blob s1 with
      | Some c => answer = (false, code wants c) /\ s' = s1
      | None => answer = (true, None) /\ s' = resumed blob s1
      end
  | Raised _ => False
  | Died _ => refusal blob s1 = Some RESUME_ERROR_INCOMPATIBLE_DEVICE
  end.
Proof.
  unfold resume_checked. rewrite run_step. unfold asks at 1. unfold refusal.
  destruct (Mmio.binary_version (mm s1) <? 0); [done|].
  rewrite run_step. unfold check_suspend_device_info at 1.
  destruct (DeviceInfo.check_capabilities _ _ _) as [[]|e|d]; [|done..].
  cbn [negb]. rewrite run_step. unfold asks at 1.
  destruct (port_count s1 =? _); cbn [negb]; [|done].
  rewrite run_step. unfold asks at 1. rewrite run_step. unfold asks at 1.
  by destruct (_ && _).
Qed.

(** *** A blob of the device's own *)

(** The pairs the device writes for the guest, before the terminator. *)
Definition blob_pairs (s : State W F) : list (Z * Z) :=
  take (Z.to_nat SuspendBlob.SERIALIZED_INFO_PAIRS) (filter
    (fun p : Z * Z => p.1 < u32_of_i32 (guest_device_info_max_key s))
    (DeviceInfo.info_pairs caps (info_snapshot s))).
Definition blob_of (s : State W F) : SuspendBlob.SuspendState :=
  SuspendBlob.MkSuspendState (suspend_registers s) (guest_device_info_max_key s)
    (DeviceInfo.pair_of <$> blob_pairs s).

Lemma blob_pairs_sublist s : blob_pairs s `sublist_of` DeviceInfo.info_pairs caps (info_snapshot s).
Proof. etrans; [apply sublist_take|apply sublist_filter]. Qed.
Lemma blob_pairs_length s : (length (blob_pairs s) <= 41)%nat.
Proof.
  etrans; [exact (sublist_length _ _ (blob_pairs_sublist s))|apply DeviceInfo.info_length].
Qed.
Lemma blob_pair_key s p : p ∈ blob_pairs s -> p.1 ∈ DeviceInfo.host_keys /\ u32 p.2.
Proof.
  intros Hp. assert (p ∈ DeviceInfo.info_pairs caps (info_snapshot s)) as Hi
    by (by eapply elem_of_sublist; [|apply blob_pairs_sublist]).
  destruct p as [k v]. split; [by eapply DeviceInfo.info_keys_in|by eapply DeviceInfo.info_word].
Qed.

Lemma take_while_app {A} (f : A -> bool) l x r : Forall (fun y => f y = true) l -> f x = false ->
  SuspendBlob.take_while f (l ++ x :: r) = l.
Proof.
  intros Hl Hx. induction Hl as [|y l Hy _ IH]; simpl; [by rewrite Hx|]. by rewrite Hy, IH.
Qed.
Lemma array_zero ws tail : (length ws <= 41)%nat -> DeviceInfo.ended tail -> exists r,
  DeviceInfo.in_array (ws ++ tail) = ws ++ SuspendBlob.MkKeyValuePair 0 0 :: r.
Proof.
  intros Hl Ht. unfold DeviceInfo.in_array. rewrite <- app_assoc.
  rewrite take_app_ge by (unfold DeviceInfo.HOST_INFO_PAIRS; lia).
  assert (exists m, (Z.to_nat DeviceInfo.HOST_INFO_PAIRS - length ws)%nat = S m) as [m ->].
  { exists (45 - length ws)%nat. unfold DeviceInfo.HOST_INFO_PAIRS. lia. }
  destruct Ht as [->| ->]; [|by eexists].
  rewrite app_nil_r. simpl app.
  assert (exists m, (Z.to_nat DeviceInfo.HOST_INFO_PAIRS - length ws)%nat = S m) as [j ->].
  { exists (45 - length ws)%nat. unfold DeviceInfo.HOST_INFO_PAIRS. lia. }
  by eexists.
Qed.

Lemma serialize_spec s : DeviceInfo.quiet_caps caps ->
  serialize_suspend_state s = Ret (SuspendBlob.serialize (blob_of s), s).
Proof.
  intros Hq. unfold serialize_suspend_state. rewrite DeviceInfo.written by done.
  destruct (DeviceInfo.told_shape caps (info_snapshot s) (u32_of_i32 (guest_device_info_max_key s))
    SuspendBlob.SERIALIZED_INFO_PAIRS) as (l&tail&Ht&Hs&Hl&Htail).
  rewrite Ht. change (take _ _) with (blob_pairs s) in Hl. subst l.
  assert (DeviceInfo.ended tail) as He by (rewrite Htail; unfold DeviceInfo.ended; destruct (_ && _); auto).
  destruct (array_zero (DeviceInfo.pair_of <$> blob_pairs s) tail) as [r ->];
    [rewrite length_fmap; apply blob_pairs_length|done|].
  unfold SuspendBlob.new. rewrite take_while_app; [|apply Forall_fmap, list.Forall_forall|done].
  - rewrite take_ge; [done|]. rewrite length_fmap. pose proof (blob_pairs_length s).
    unfold SuspendBlob.MAX_INFO_PAIRS. lia.
  - intros p Hp. apply blob_pair_key in Hp as [Hk _]. apply DeviceInfo.host_keys_range in Hk. simpl.
    apply negb_true_iff, Z.eqb_neq. lia.
Qed.

Lemma host_key_readable k : k ∈ DeviceInfo.host_keys -> SuspendBlob.readable_info_key k = true.
Proof. revert k. apply list.Forall_forall. by repeat constructor. Qed.
Lemma blob_ok s : SuspendBlob.registers_ok (suspend_registers s) ->
  - 2 ^ 31 <= guest_device_info_max_key s < 2 ^ 31 -> SuspendBlob.state_ok (blob_of s).
Proof.
  intros Hr Hk. split; [done|]. split; [done|]. cbn [blob_of SuspendBlob.device_info]. split.
  - rewrite length_fmap. pose proof (blob_pairs_length s). unfold SuspendBlob.MAX_INFO_PAIRS. lia.
  - apply Forall_fmap, list.Forall_forall. intros p Hp. apply blob_pair_key in Hp as [Hp1 Hp2].
    pose proof (DeviceInfo.host_keys_range _ Hp1). split; [by apply host_key_readable|].
    simpl. split; [|done]. unfold M32. lia.
Qed.
Lemma blob_parses s : SuspendBlob.registers_ok (suspend_registers s) ->
  - 2 ^ 31 <= guest_device_info_max_key s < 2 ^ 31 ->
  SuspendBlob.parse (SuspendBlob.serialize (blob_of s)) = Some (inr (blob_of s)).
Proof.
  intros Hr Hk. pose proof (blob_ok s Hr Hk) as Hok. rewrite SuspendBlob.serialize_sections by apply Hok.
  apply SuspendBlob.parse_two; [done|by left].
Qed.

(** A host of the same setup, level, ports and port types. *)
Record alike (s s' : State W F) : Prop := {
  alike_level : Mmio.feature_level (mm s') = Mmio.feature_level (mm s);
  alike_ports : port_count s' = port_count s;
  alike_types : Mmio.display_port_connection_types (mm s') = Mmio.display_port_connection_types (mm s);
}.
(** The registers are words, and the version is one the guest negotiated. *)
Record suspendable (s : State W F) : Prop := {
  words : SuspendBlob.registers_ok (suspend_registers s);
  max_key_word : - 2 ^ 31 <= guest_device_info_max_key s < 2 ^ 31;
  version_range : 0 <= Mmio.binary_version (mm s) < RESUME_BINARY_VERSION_LIMIT;
  version_features :
    Device.features (dev s) = Features.features_for_version (Mmio.binary_version (mm s));
  version_settled : negotiated (Mmio.binary_version (mm s)) s = Ret (Some (Mmio.binary_version (mm s)));
}.

(** The registers stored are those saved, bar the fault. *)
Lemma stored_blob blob s1 : 
  Mmio.binary_version (mm s1) = SuspendBlob.binary_version (SuspendBlob.registers blob) ->
  u32 (SuspendBlob.binary_version (SuspendBlob.registers blob)) ->
  port_count s1 = SuspendBlob.display_port_count (SuspendBlob.registers blob) ->
  Mmio.display_port_connection_types (mm s1) =
    SuspendBlob.display_port_connection_types (SuspendBlob.registers blob) ->
  stored_registers (SuspendBlob.interrupt_fault (SuspendBlob.registers blob)) (resumed blob s1) =
    SuspendBlob.registers blob /\
  guest_device_info_max_key (resumed blob s1) = SuspendBlob.device_info_max_key blob /\
  Device.interrupt_fault_mask (Device.irqs (dev (resumed blob s1))) = 0 /\
  run_state (resumed blob s1) = run_state s1 /\
  Device.features (dev (resumed blob s1)) = Device.features (dev s1).
Proof.
  intros Hv Hu Hp Ht. destruct blob as [r k ps]. cbn [SuspendBlob.registers] in *.
  split; [|done]. unfold stored_registers. unfold port_count in Hp.
  change (Mmio.binary_version (mm (resumed (SuspendBlob.MkSuspendState r k ps) s1)))
    with (Mmio.binary_version (mm s1)).
  rewrite Hv, w32_small by done.
  change (Mmio.display_port_connection_types (mm (resumed (SuspendBlob.MkSuspendState r k ps) s1)))
    with (Mmio.display_port_connection_types (mm s1)).
  change (port_count (resumed (SuspendBlob.MkSuspendState r k ps) s1)) with (Displays.port_count (world s1)).
  rewrite Hp, Ht. by destruct r.
Qed.

(** ** What a finished suspend leaves *)

Context {LT : TaskTable.LawfulTasks (DC := base)}.
(** A guest display's pause leaves the tasks alone. *)
Context (pause_keeps : forall g (w : W),
  match gd_pause g (Displays.world w) with
  | Ret v => TaskTable.table (Displays.with_world v w) = TaskTable.table w
  | _ => True
  end).
Definition tasks_in (s : State W F) : gmap Z Tk := TaskTable.table (world s).

Lemma released_each (ts : list Tk) (w : W) :
  match TaskTable.each (E := Empty_set) TaskTable.release ts w with
  | Ret w' => TaskTable.table w' = TaskTable.table w
  | _ => True
  end.
Proof. apply TaskTable.each_keeps. apply (TaskTable.release_table (DC := base)). Qed.
Lemma suspend_tasks_spec s :
  wp suspend_tasks (fun _ s' => exists w, s' = in_world w s /\ tasks_in s' = ∅) (fun _ => False) s.
Proof.
  unfold wp, suspend_tasks. set (all := BucketOrderMap.values _).
  destruct (flush_tasks all _) as [w|p|d]; [|done|done].
  unfold fifo, device, mmio, Mmio.device, Device.or_die, Device.client_, Device.client.
  change (Device.world (Mmio.dev (mm (on_device (Device.with_world w) s)))) with w.
  pose proof (released_each all w) as Hr.
  destruct (TaskTable.each TaskTable.release all w) as [w1|[]|d]; cbn [mbind outcome_bind]; [|done].
  unfold BucketOrderMap.drain. set (w2 := TaskTable.set_table _ w1).
  pose proof (released_each (BucketOrderMap.values (TaskTable.table w1)) w2) as Hr2.
  destruct (TaskTable.each TaskTable.release _ w2) as [w3|[]|d]; cbn [mbind outcome_bind]; [|done].
  exists w3. split; [done|]. unfold tasks_in.
  change (TaskTable.table (world _)) with (TaskTable.table w3). rewrite Hr2. apply TaskTable.table_set.
Qed.

(** ** The stamps a quiesce and a drain publish *)

Definition published (s s' : State W F) : Prop := exists d,
  s' = on_device (fun _ => d) s /\ Device.published (dev s) d.
(** It raises nothing and changes nothing but the parts' own state and the stamps. *)
Definition stamping {A} (m : M A) : Prop :=
  forall s, wp m (fun _ => published s) (fun _ => False) s.

Lemma dev_published_refl s : published s s.
Proof. exists (dev s). split; [by destruct s as [[] ? ? ? ?]|apply Device.published_refl]. Qed.
Lemma dev_published_trans s s1 s2 : published s s1 -> published s1 s2 -> published s s2.
Proof.
  intros (d1&->&H1) (d2&->&H2). exists d2. split; [done|]. by eapply Device.published_trans.
Qed.
Lemma published_runs s s' : published s s' -> run_state s' = run_state s.
Proof. by intros (d&->&w&k&n&->&_). Qed.
Lemma stamping_bind {A B} (m : M A) (f : A -> M B) :
  stamping m -> (forall a, stamping (f a)) -> stamping (m ≫= f).
Proof.
  intros Hm Hf s. rewrite wp_bind. eapply wp_mono; [| |apply Hm]; [|done]. cbv beta. intros a s1 H1.
  eapply wp_mono; [| |apply Hf]; [|done]. cbv beta. intros b s2. by apply dev_published_trans.
Qed.
Lemma stamping_asks {A} (f : State W F -> A) : stamping (asks f).
Proof. intros s. apply dev_published_refl. Qed.
Lemma stamping_optional {A} (f : A -> M unit) o :
  (forall a, stamping (f a)) -> stamping (optional f o).
Proof. intros Hf. destruct o; [apply Hf|intros s; apply dev_published_refl]. Qed.
Lemma stamping_publishing op f : stamping (device (Device.publishing blocks op f)).
Proof.
  intros s. unfold wp, device, mmio, Mmio.device, Device.or_die. fold (dev s).
  pose proof (Device.publishing_wp blocks op f (dev s)) as H. unfold wp in H.
  destruct (Device.publishing blocks op f (dev s)) as [[[] d]|[? ?]|d]; [|done..]. by exists d.
Qed.
Lemma stamping_on_root op : stamping (on_root (fun f => device (Device.publishing blocks op f))).
Proof.
  apply stamping_bind; [apply stamping_asks|]. intros o. apply stamping_optional, stamping_publishing.
Qed.
Lemma stamping_each_child op :
  stamping (each_child (fun f => device (Device.publishing blocks op f))).
Proof.
  unfold each_child. generalize 63%nat 1. intros n. induction n as [|n IH]; intros i.
  { intros s. apply dev_published_refl. }
  apply stamping_bind; [|done]. apply stamping_bind; [apply stamping_asks|]. intros o.
  apply stamping_optional, stamping_publishing.
Qed.

(** The children of [s] taken out, the parts' state changed and stamps published. *)
Definition shed (c : list (option F)) (w : W) (k : Z) (s : State W F) : State W F :=
  on_device (fun d => Device.with_children c (Device.with_world w (Device.with_irqs (Device.with_stamp
    (Z.lor (Device.interrupt_stamp (Device.irqs d)) k) (Device.irqs d)) d))) s.
Lemma shed_world c w w' k s : in_world w' (shed c w k s) = shed c w' k s.
Proof. by destruct s as [[[] ? ? ?] ? ? ? ?]. Qed.
Lemma shed_published c w k s s' :
  run_state s <> RootTask.Running -> published (shed c w k s) s' -> exists w' k', s' = shed c w' k' s.
Proof.
  intros Hr (d & -> & w' & k' & n & -> & [Hn| ->]); [done|]. exists w', (Z.lor k k').
  unfold shed, on_device, Device.gained, Device.tells. cbn. rewrite Z.lor_assoc, app_nil_r.
  by destruct s as [[[[] ? ? ? ? ? ? ? ? ?] ? ? ?] ? ? ? ?].
Qed.
(** The slots from 1 below [n] are empty; the others are [c0]'s. *)
Definition emptied (n : Z) (c0 c : list (option F)) : Prop :=
  length c = length c0 /\ forall i : nat,
    c !! i = if bool_decide (1 <= Z.of_nat i < n) then (fun _ => None) <$> c0 !! i else c0 !! i.
Lemma emptied_next n c0 c : 1 <= n -> emptied n c0 c ->
  emptied (n + 1) c0 (<[Z.to_nat n := None]> c).
Proof.
  intros Hn [Hl Hc]. split; [by rewrite length_insert|]. intros i.
  destruct (decide (i = Z.to_nat n)) as [->|Hne].
  - rewrite bool_decide_eq_true_2 by lia. destruct (decide (Z.to_nat n < length c)%nat) as [Hi|Hi].
    + rewrite list_lookup_insert_eq by done.
      destruct (lookup_lt_is_Some_2 c0 (Z.to_nat n)) as [x ->]; [by rewrite <- Hl|done].
    + rewrite list_insert_ge by lia. rewrite !lookup_ge_None_2 by lia. done.
  - rewrite list_lookup_insert_ne by done. rewrite Hc.
    do 2 case_bool_decide; try done; lia.
Qed.
Lemma emptied_skip n c0 c : 1 <= n -> emptied n c0 c -> mjoin (c !! Z.to_nat n) = None ->
  emptied (n + 1) c0 c.
Proof.
  intros Hn [Hl Hc] Hm. split; [done|]. intros i. specialize (Hc i) as Hi.
  destruct (decide (i = Z.to_nat n)) as [->|Hne].
  - rewrite bool_decide_eq_true_2 by lia. rewrite bool_decide_eq_false_2 in Hi by lia.
    rewrite Hi in Hm |- *. by destruct (c0 !! Z.to_nat n) as [[]|].
  - rewrite Hi. do 2 case_bool_decide; try done; lia.
Qed.
Lemma drop_children_spec n : forall i c w k s0, 1 <= i -> run_state s0 <> RootTask.Running ->
  emptied i (Device.child_fifos (dev s0)) c ->
  wp (upto drop_child n i) (fun _ s' => exists c' w' k',
    s' = shed c' w' k' s0 /\ emptied (i + Z.of_nat n) (Device.child_fifos (dev s0)) c')
    (fun _ => False) (shed c w k s0).
Proof.
  induction n as [|n IH]; intros i c w k s0 Hi Hrun He.
  { exists c, w, k. split; [done|]. by replace (i + Z.of_nat 0) with i by lia. }
  cbn [upto]. rewrite wp_bind. unfold drop_child at 1. rewrite wp_bind, wp_asks.
  change (current_child_fifo i (shed c w k s0)) with (mjoin (c !! Z.to_nat i)).
  replace (i + Z.of_nat (S n)) with (i + 1 + Z.of_nat n) by lia.
  destruct (mjoin (c !! Z.to_nat i)) as [f|] eqn:Ef.
  - rewrite wp_bind. eapply wp_mono; [| |apply stamping_publishing]; [|done]. cbv beta.
    intros _ s1 (w1&k1&->)%shed_published; [|done]. rewrite wp_modify.
    change (on_device _ (shed c w1 k1 s0)) with (shed (<[Z.to_nat i := None]> c) w1 k1 s0).
    apply IH; [lia|done|]. by apply emptied_next.
  - apply wp_ret. apply IH; [lia|done|]. by apply emptied_skip.
Qed.

(** ** The properties *)

(** C12: a suspended device resumes on a host like it. On a device whose registers are words,
    whose version is one its guest negotiated and none of whose queries raised, the state
    serialized is never refused by a host of the same setup, feature level, ports and port
    types: it is accepted with no error code, and every register of it is stored, bar the
    fault, which is not. The one way it can end the process is in turning the EFI display off,
    for a version without one. *)
Theorem suspend_then_resume s s2 wants :
  DeviceInfo.quiet_caps caps -> suspendable s -> alike s s2 ->
  exists bytes, serialize_suspend_state s = Ret (bytes, s) /\
  match will_resume (Some bytes) wants s2 with
  | Ret (answer, s3) => answer = (true, None) /\
      stored_registers (SuspendBlob.interrupt_fault (suspend_registers s)) s3 = suspend_registers s /\
      guest_device_info_max_key s3 = guest_device_info_max_key s /\
      Device.features (dev s3) = Device.features (dev s) /\
      Device.interrupt_fault_mask (Device.irqs (dev s3)) = 0 /\
      run_state s3 = RootTask.LeavingSuspendEarly
  | Raised _ => False
  | Died _ => has_efi (Mmio.binary_version (mm s)) = false
  end.
Proof.
  intros Hq Hs Ha. exists (SuspendBlob.serialize (blob_of s)). split; [by apply serialize_spec|].
  set (v := Mmio.binary_version (mm s)).
  assert (u32 v) as Hv32 by (pose proof (version_range s Hs); unfold RESUME_BINARY_VERSION_LIMIT in *;
    unfold M32; lia).
  assert (SuspendBlob.binary_version (suspend_registers s) = v) as Hbv by (by apply w32_small).
  unfold will_resume. rewrite run_step. unfold modify at 1. fold (leaving_early s2).
  rewrite (blob_parses s (words s Hs) (max_key_word s Hs)).
  cbn [blob_of SuspendBlob.registers]. rewrite Hbv.
  rewrite (proj2 (Z.leb_gt _ _)) by apply (version_range s Hs).
  rewrite run_step. pose proof (set_version_spec v (leaving_early s2)) as Hset.
  assert (negotiated v (leaving_early s2) = Ret (Some v)) as Hn.
  { unfold negotiated. change (Mmio.feature_level (mm (leaving_early s2))) with
      (Mmio.feature_level (mm s2)). rewrite (alike_level s s2 Ha). apply (version_settled s Hs). }
  rewrite Hn in Hset.
  destruct (mmio (Mmio.set_binary_version v) (leaving_early s2)) as [[[] s1]|[]|d]; [|done|].
  2: { destruct Hset as [[k Hk]|(v'&[= <-]&He)]; [done|exact He]. }
  destruct Hset as (w&->&Hpc). set (s1 := in_world w (versioned v (leaving_early s2))).
  assert (refusal (blob_of s) s1 = None) as Hr.
  { unfold refusal. change (Mmio.binary_version (mm s1)) with v.
    rewrite (proj2 (Z.ltb_ge _ _)) by apply (version_range s Hs).
    cbn [blob_of SuspendBlob.device_info SuspendBlob.registers].
    rewrite <- (app_nil_r (DeviceInfo.pair_of <$> blob_pairs s)).
    rewrite DeviceInfo.listed_accepted; [|done| |by left].
    - change (port_count s1) with (Displays.port_count w). rewrite Hpc.
      change (Displays.port_count (world (leaving_early s2))) with (port_count s2).
      rewrite (alike_ports s s2 Ha).
      change (SuspendBlob.display_port_count (suspend_registers s)) with (port_count s).
      rewrite Z.eqb_refl. cbn [negb].
      change (Mmio.display_port_connection_types (mm s1)) with
        (Mmio.display_port_connection_types (mm s2)). rewrite (alike_types s s2 Ha).
      change (SuspendBlob.display_port_connection_types (suspend_registers s)) with
        (Mmio.display_port_connection_types (mm s)).
      by rewrite Z.eqb_refl, andb_false_r.
    - etrans; [apply blob_pairs_sublist|].
      assert (DeviceInfo.info_pairs caps (info_snapshot s) =
        DeviceInfo.info_pairs caps (info_snapshot s1)) as ->; [|done].
      unfold DeviceInfo.info_pairs, info_snapshot. cbn.
      change (Device.features (dev s1)) with (Features.features_for_version v).
      rewrite (version_features s Hs). by rewrite (alike_level s s2 Ha). }
  pose proof (resume_checked_spec (blob_of s) wants s1) as Hc. rewrite Hr in Hc.
  fold s1. destruct (resume_checked (blob_of s) wants s1) as [[answer s3]|e|d]; [|done|done].
  destruct Hc as [-> ->]. split; [done|].
  destruct (stored_blob (blob_of s) s1) as (H1&H2&H3&H4&H5).
  - symmetry. exact Hbv.
  - cbn [blob_of SuspendBlob.registers]. by rewrite Hbv.
  - change (port_count s1) with (Displays.port_count w). rewrite Hpc. apply (alike_ports s s2 Ha).
  - apply (alike_types s s2 Ha).
  - split; [exact H1|]. split; [exact H2|]. split; [|split; [exact H3|by rewrite H4]].
    rewrite H5. symmetry. apply (version_features s Hs).
Qed.

Lemma worldly_pause_all : worldly (each_guest_display (fun g => in_gd (gd_pause g))).
Proof. apply worldly_each_gd. intros g. apply worldly_in_gd. Qed.
(** The pauses leave the tasks. *)
Lemma pause_tasks n : forall i s,
  wp (upto (fun port => g ← asks (current_guest_display port);
        optional (fun g => in_gd (gd_pause g)) g) n i)
    (fun _ s' => tasks_in s' = tasks_in s) (fun _ => False) s.
Proof.
  induction n as [|n IH]; intros i s; [done|]. cbn [upto]. rewrite wp_bind, wp_bind, wp_asks.
  destruct (current_guest_display i s) as [g|]; [|apply wp_ret, IH]. cbn [optional].
  unfold wp at 1, in_gd, displays, mmio, Mmio.displays, Displays.part_, Displays.part.
  pose proof (pause_keeps g (world s)) as Hk. fold (dev s).
  change (Displays.world (Mmio.ports (mm s))) with (Displays.world (world s)).
  destruct (gd_pause g (Displays.world (world s))) as [v|[]|d]; cbn [mbind outcome_bind]; [|done].
  set (s1 := with_mm _ s). assert (tasks_in s1 = tasks_in s) as <- by exact Hk. apply IH.
Qed.

(** What a suspend keeps of [s] while it runs. *)
Record kept_by_suspend (s s' : State W F) : Prop := {
  kept_page : RootTask.root_page_number (Device.rt (dev s')) = RootTask.root_page_number (Device.rt (dev s));
  kept_node : Device.node (dev s') = Device.node (dev s);
  kept_display : Device.interrupt_display (Device.irqs (dev s')) = Device.interrupt_display (Device.irqs (dev s));
  kept_fault : Device.interrupt_fault_mask (Device.irqs (dev s')) = Device.interrupt_fault_mask (Device.irqs (dev s));
  (** The stamps the drains published are added. *)
  kept_stamps : exists k, Device.interrupt_stamp (Device.irqs (dev s'))
    = Z.lor (Device.interrupt_stamp (Device.irqs (dev s))) k;
  kept_features : Device.features (dev s') = Device.features (dev s);
  kept_version : Mmio.binary_version (mm s') = Mmio.binary_version (mm s);
  kept_key : guest_device_info_max_key s' = guest_device_info_max_key s;
  kept_enabled : Device.enabled (Device.root (dev s')) = Device.enabled (Device.root (dev s));
}.
Lemma root_task_page m : forall r, match RootTask.drop_mapping blocks m r with
  | Ret (_, r') => RootTask.root_page_number r' = RootTask.root_page_number r
  | _ => True
  end.
Proof.
  unfold RootTask.drop_mapping. induction (MemoryMap.mapping_drop true m) as [|x xs IH]; intros r; [done|].
  cbn [RootTask.release_all]. rewrite run_step.
  assert (match RootTask.release blocks x r with
    | Ret (_, r') => RootTask.root_page_number r' = RootTask.root_page_number r | _ => True end) as H.
  { destruct x; try done. unfold RootTask.release, RootTask.unmap_range. rewrite run_step. unfold asks at 1.
    destruct (RootTask.memory_map r); [done|].
    unfold RootTask.not_leaving_suspend_early, RootTask.require_that, RootTask.fatal, RootTask.tell,
      RootTask.deallocate_range.
    rewrite !run_step. unfold asks at 1. destruct (negb (bool_decide _)); [|done].
    cbn [mret run_ret]. rewrite run_step. unfold asks at 1. rewrite run_step.
    destruct (_ <? _); [|done]. cbn [mret run_ret]. rewrite run_step. unfold asks at 1.
    destruct (_ =? 0); [done|]. by destruct (negb _). }
  destruct (RootTask.release blocks x r) as [[[] r1]|[? ?]|]; [|done..]. specialize (IH r1).
  destruct (RootTask.release_all blocks xs r1) as [[? ?]|[? ?]|]; [congruence|done..].
Qed.
Lemma device_drop_spec m s :
  wp (device (Device.drop_mapping blocks m)) (fun _ s' => exists r,
    s' = on_device (Device.with_rt r) s /\
    RootTask.run_state r = RootTask.run_state (Device.rt (dev s)) /\
    RootTask.root_page_number r = RootTask.root_page_number (Device.rt (dev s))) (fun _ => False) s.
Proof.
  destruct m as [m|]; cbn [Device.drop_mapping].
  - unfold wp, device, mmio, Mmio.device, Device.or_die, Device.in_task. fold (dev s).
    pose proof (RootTask.silent_drop blocks m (Device.rt (dev s))) as Hr. unfold wp in Hr.
    pose proof (root_task_page m (Device.rt (dev s))) as Hp.
    destruct (RootTask.drop_mapping blocks m (Device.rt (dev s))) as [[[] r]|[k r]|d]; [|done..].
    by exists r.
  - exists (Device.rt (dev s)). split; [|done]. by destruct s as [[[] ? ? ?] ? ? ? ?].
Qed.

(** What [finish_suspend] leaves of [s], and the state it serialized. *)
Record suspended (s : State W F) (bytes : list byte) (s' : State W F) : Prop := {
  sus_run : run_state s' = RootTask.Suspended;
  sus_fifo : Device.root_fifo (Device.root (dev s')) = None;
  sus_mapping : Device.root_fifo_mapping (Device.root (dev s')) = None;
  sus_stamps : Device.stamp_memory (Device.root (dev s')) = None;
  sus_children i : 1 <= i < 64 -> current_child_fifo i s' = None;
  sus_zero : current_child_fifo 0 s' = current_child_fifo 0 s;
  sus_tasks : tasks_in s' = ∅;
  sus_kept : kept_by_suspend s s';
  sus_blob : exists sm, bytes = SuspendBlob.serialize (blob_of sm) /\ kept_by_suspend s sm /\
    Device.root (dev sm) = Device.root (dev s) /\ Device.irqs (dev sm) = Device.irqs (dev s') /\
    (forall i, 1 <= i < 64 -> current_child_fifo i sm = None);
}.
Lemma finish_suspend_spec s : DeviceInfo.quiet_caps caps -> run_state s = RootTask.EnteringSuspend ->
  wp finish_suspend (fun bytes s' => suspended s bytes s') (fun _ => False) s.
Proof.
  intros Hq Hrun. unfold finish_suspend. rewrite wp_bind, wp_asks, Hrun, wp_bind. cbn [require_that].
  apply wp_ret. rewrite wp_bind, wp_modify, wp_bind. set (s1 := store_run_state _ s).
  assert (s1 = shed (Device.child_fifos (dev s1)) (world s1) 0 s1) as E1.
  { unfold shed, on_device. rewrite Z.lor_0_r. by destruct s as [[[? ? ? ? ? ? [] ? ? ?] ? ? ?] ? ? ? ?]. }
  rewrite E1 at 1. eapply wp_mono; [| |apply drop_children_spec]; [|done|lia|done|].
  2: { split; [done|]. intros i. by rewrite bool_decide_eq_false_2 by lia. }
  intros _ s2 (c&w&k&->&Hc). rewrite wp_bind.
  eapply wp_mono; [| |apply stamping_on_root]; [|done]. cbv beta.
  intros _ s2 (w2&k2&->)%shed_published; [|done]. rewrite wp_bind.
  eapply wp_mono; [| |apply suspend_tasks_spec]; [|done].
  intros _ s3 (w3&->&Ht). rewrite shed_world in *. set (sm := shed c w3 k2 s1) in *.
  rewrite wp_bind. unfold wp at 1. rewrite serialize_spec by done.
  rewrite wp_bind, wp_modify, wp_bind, wp_asks, wp_bind, wp_modify, wp_bind.
  eapply wp_mono; [| |apply device_drop_spec]; [|done]. intros _ s5 (r&->&Hr&Hp).
  rewrite wp_bind. set (s5 := on_device (Device.with_rt r) _).
  pose proof (worldly_pause_all s5) as Hw. unfold wp in Hw.
  assert (wp (each_guest_display (fun g => in_gd (gd_pause g)))
    (fun _ s' => tasks_in s' = tasks_in s5) (fun _ => False) s5) as Htk.
  { unfold each_guest_display. rewrite wp_bind, wp_asks. apply pause_tasks. }
  unfold wp in Htk |- *. destruct (each_guest_display _ s5) as [[[] s6]|[? ?]|d]; [|done..].
  destruct Hw as [w6 ->]. cbn [mret run_ret].
  destruct Hc as [Hlen Hc]. change (Device.child_fifos (dev s1)) with (Device.child_fifos (dev s)) in *.
  assert (forall i, 1 <= i < 64 -> mjoin (c !! Z.to_nat i) = None) as Hnone.
  { intros i Hi. rewrite Hc. rewrite bool_decide_eq_true_2 by lia.
    by destruct (Device.child_fifos (dev s) !! _). }
  assert (forall s' : State W F, Device.irqs (dev s') = Device.irqs (dev sm) -> exists k',
    Device.interrupt_stamp (Device.irqs (dev s')) = Z.lor (Device.interrupt_stamp (Device.irqs (dev s))) k')
    as Hst by (intros s' ->; by exists k2).
  split; try done.
  - change (current_child_fifo 0 (in_world w6 s5)) with (mjoin (c !! 0%nat)). by rewrite Hc.
  - rewrite Htk. exact Ht.
  - split; try done. by apply Hst.
  - exists sm. split; [done|]. split; [split; try done; by apply Hst|]. done.
Qed.


(** Why a resume was refused with [k], from [s]. *)
Definition refused_for (state : option (list byte)) (s : State W F) (k : Z) : Prop :=
  match state with
  | None => k = SuspendBlob.RESUME_ERROR_INVALID_CONTENT
  | Some bytes =>
      match SuspendBlob.parse bytes with
      | None => False
      | Some (inl c) => k = c
      | Some (inr blob) =>
          let v := SuspendBlob.binary_version (SuspendBlob.registers blob) in
          if RESUME_BINARY_VERSION_LIMIT <=? v then k = RESUME_ERROR_INVALID_GUEST_VERSION
          else exists s1, mmio (Mmio.set_binary_version v) (leaving_early s) = Ret (tt, s1) /\
            refusal blob s1 = Some k
      end
  end.
(** What a refused resume leaves: every register but the version, its features and the parts. *)
Record unresumed (s s' : State W F) : Prop := {
  un_run : run_state s' = RootTask.LeavingSuspendEarly;
  un_page : RootTask.root_page_number (Device.rt (dev s')) = RootTask.root_page_number (Device.rt (dev s));
  un_root : Device.root (dev s') = Device.root (dev s);
  un_node : Device.node (dev s') = Device.node (dev s);
  un_irqs : Device.irqs (dev s') = Device.irqs (dev s);
  un_children : Device.child_fifos (dev s') = Device.child_fifos (dev s);
  un_key : guest_device_info_max_key s' = guest_device_info_max_key s;
  un_staged : (staged_read s', staged_written s', staged_fault s') =
    (staged_read s, staged_written s, staged_fault s);
}.
Lemma unresumed_versioned v w s : unresumed s (in_world w (versioned v (leaving_early s))).
Proof. by split. Qed.

(** C15: the refusals of a resume. A resume answers yes with no code, and then has stored the
    state's registers on a version the device holds; or it answers no, with the code of the
    first check that failed where the caller gave somewhere to store it and no code where not,
    the run state left at the early leave of a suspend and no register stored: no state, what
    the parser refused, a version from 0xf6 up, a version not held, device info the host
    lacks, another port count, other port types. *)
Theorem will_resume_refuses state wants s :
  match will_resume state wants s with
  | Ret ((true, c), s') => c = None /\ exists bytes blob s1,
      state = Some bytes /\ SuspendBlob.parse bytes = Some (inr blob) /\
      SuspendBlob.binary_version (SuspendBlob.registers blob) < RESUME_BINARY_VERSION_LIMIT /\
      mmio (Mmio.set_binary_version (SuspendBlob.binary_version (SuspendBlob.registers blob)))
        (leaving_early s) = Ret (tt, s1) /\
      0 <= Mmio.binary_version (mm s1) /\ refusal blob s1 = None /\ s' = resumed blob s1
  | Ret ((false, c), s') => unresumed s s' /\ exists k, c = code wants k /\ refused_for state s k
  | Raised _ => False
  | Died _ => exists bytes, state = Some bytes
  end.
Proof.
  unfold will_resume. rewrite run_step. unfold modify at 1. fold (leaving_early s).
  destruct state as [bytes|]; [|by split; [split|eexists]].
  destruct (SuspendBlob.parse bytes) as [[c|blob]|] eqn:Ep; [| |by exists bytes].
  { split; [by split|]. exists c. split; [done|]. simpl. by rewrite Ep. }
  set (v := SuspendBlob.binary_version (SuspendBlob.registers blob)).
  destruct (Z.leb_spec RESUME_BINARY_VERSION_LIMIT v) as [Hv|Hv].
  { split; [by split|]. eexists. split; [done|]. simpl. rewrite Ep. fold v.
    by rewrite (proj2 (Z.leb_le _ _) Hv). }
  rewrite run_step. pose proof (set_version_spec v (leaving_early s)) as Hset.
  destruct (mmio (Mmio.set_binary_version v) (leaving_early s)) as [[[] s1]|[]|d] eqn:Em;
    [|done|by exists bytes].
  assert (unresumed s s1) as Hun.
  { destruct (negotiated v (leaving_early s)) as [[v'|]|[]|]; [|by subst s1|done].
    destruct Hset as (w&->&_). apply unresumed_versioned. }
  pose proof (resume_checked_spec blob wants s1) as Hc.
  destruct (resume_checked blob wants s1) as [[[ok c] s']|e|d]; [|done|by exists bytes].
  destruct (refusal blob s1) as [k|] eqn:Er; destruct Hc as [[= -> ->] ->].
  - split; [done|]. exists k. split; [done|]. simpl. rewrite Ep. fold v.
    rewrite (proj2 (Z.leb_gt _ _) Hv). by exists s1.
  - split; [done|]. exists bytes, blob, s1. split_and!; try done.
    unfold refusal in Er. by destruct (Z.ltb_spec (Mmio.binary_version (mm s1)) 0).
Qed.

(** *** The life cycle as a machine *)

Inductive Call : Type :=
| WillSuspend
| FinishSuspend
| WillResume (state : option (list byte)) (wants : bool)
| DidResume
| Pause
| Unpause
| Stop
| Reset.
Definition perform (c : Call) : M unit :=
  match c with
  | WillSuspend => will_suspend
  | FinishSuspend => _ ← finish_suspend; mret tt
  | WillResume state wants => _ ← will_resume state wants; mret tt
  | DidResume => did_resume
  | Pause => pause
  | Unpause => unpause
  | Stop => stop
  | Reset => reset
  end.
(** The run state after a call, [None] where it ends the process. *)
Definition next (c : Call) (r : RootTask.RunState) : option RootTask.RunState :=
  match c with
  | WillSuspend => Some RootTask.EnteringSuspend
  | FinishSuspend =>
      match r with RootTask.EnteringSuspend => Some RootTask.Suspended | _ => None end
  | WillResume _ _ => Some RootTask.LeavingSuspendEarly
  | DidResume | Unpause => Some RootTask.Running
  | Pause => Some RootTask.Paused
  | Stop | Reset => Some r
  end.
Fixpoint perform_all (cs : list Call) : M unit :=
  match cs with
  | [] => mret tt
  | c :: cs => _ ← perform c; perform_all cs
  end.
Fixpoint next_all (cs : list Call) (r : RootTask.RunState) : option RootTask.RunState :=
  match cs with
  | [] => Some r
  | c :: cs => match next c r with Some r => next_all cs r | None => None end
  end.

(** Nothing raises out of an operation of the device's life. *)
Lemma wp_any {A} (m : M A) (Q : A -> State W F -> Prop) s : (forall a s', Q a s') -> wp m Q (fun _ => False) s.
Proof. intros H. unfold wp. by destruct (m s) as [[a s']|[[] ?]|]. Qed.
Lemma steady_life {A} (m : Run (Device.State W F) (Device.Raise P) ddeath A) s :
  steady m -> wp (device m) (fun _ s' => run_state s' = run_state s) (fun _ => False) s.
Proof.
  intros Hm. unfold wp, device, mmio, Mmio.device. fold (dev s).
  pose proof (steady_die m Hm (dev s)) as H. unfold wp in H.
  by destruct (Device.or_die m (dev s)) as [[a d]|[e d]|d].
Qed.
Lemma runs_worldly {A} (m : M A) s : worldly m ->
  wp m (fun _ s' => run_state s' = run_state s) (fun _ => False) s.
Proof. intros Hm. by apply worldly_wp. Qed.
(** The end of a resume and of an unpause. *)
Lemma started_runs s : wp (_ ← start_fifos; interrupt) (fun _ s' => run_state s' = run_state s)
  (fun _ => False) s.
Proof.
  rewrite wp_bind. apply worldly_wp; [apply worldly_start_fifos|]. intros _ w.
  apply (steady_life _ (in_world w s)), steady_interrupt.
Qed.
Lemma version_runs v s :
  wp (mmio (Mmio.set_binary_version v)) (fun _ s' => run_state s' = run_state s) (fun _ => False) s.
Proof.
  pose proof (set_version_spec v s) as H. unfold wp.
  destruct (mmio (Mmio.set_binary_version v) s) as [[[] s']|[[] ?]|]; [|done].
  destruct (negotiated v s) as [[v'|]|[]|]; [|by subst|done]. by destruct H as (w&->&_).
Qed.
Lemma will_suspend_runs s :
  wp will_suspend (fun _ s' => run_state s' = RootTask.EnteringSuspend) (fun _ => False) s.
Proof.
  unfold will_suspend. rewrite wp_bind, wp_modify, wp_bind.
  eapply wp_mono; [| |apply stamping_on_root]; [|done]. cbv beta. intros _ s1 H1%published_runs.
  rewrite wp_bind, wp_asks, wp_bind. unfold require_that. destruct (current_child_fifo 0 _); [done|].
  apply wp_ret. eapply wp_mono; [| |apply stamping_each_child]; [|done]. cbv beta.
  intros _ s2 H2%published_runs. by rewrite H2, H1.
Qed.
Lemma will_resume_runs state wants s :
  wp (will_resume state wants) (fun _ s' => run_state s' = RootTask.LeavingSuspendEarly)
    (fun _ => False) s.
Proof.
  unfold will_resume. rewrite wp_bind, wp_modify. destruct state as [bytes|]; [|by apply wp_ret].
  destruct (SuspendBlob.parse bytes) as [[c|blob]|]; [by apply wp_ret| |done].
  destruct (_ <=? _); [by apply wp_ret|]. rewrite wp_bind.
  eapply wp_mono; [| |apply version_runs]; [|done]. intros a s1 Hs1. simpl in Hs1. unfold wp.
  pose proof (resume_checked_spec blob wants s1) as Hc.
  destruct (resume_checked blob wants s1) as [[answer s']|[[] ?]|]; [|done].
  by destruct (refusal blob s1); destruct Hc as [_ ->].
Qed.
Lemma did_resume_runs s :
  wp did_resume (fun _ s' => run_state s' = RootTask.Running) (fun _ => False) s.
Proof.
  unfold did_resume. rewrite wp_bind, wp_modify, wp_bind. apply wp_any. intros _ s1.
  rewrite wp_bind, wp_asks, wp_bind. apply wp_any. intros _ s2.
  rewrite wp_bind, wp_asks, wp_bind. apply wp_any. intros _ s3. rewrite wp_bind, wp_modify, wp_bind.
  apply worldly_wp; [apply worldly_each_gd; intros g; apply worldly_in_gd|]. intros _ w.
  apply (started_runs (in_world w (store_run_state RootTask.Running s3))).
Qed.
Lemma pause_runs s : wp pause (fun _ s' => run_state s' = RootTask.Paused) (fun _ => False) s.
Proof.
  unfold pause. do 5 (rewrite wp_bind; apply wp_any; intros _ ?). by rewrite wp_modify.
Qed.
Lemma unpause_runs s : wp unpause (fun _ s' => run_state s' = RootTask.Running) (fun _ => False) s.
Proof.
  unfold unpause. rewrite wp_bind, wp_modify, wp_bind.
  apply worldly_wp; [apply worldly_each_gd; intros g; apply worldly_displays|]. intros _ w.
  apply (started_runs (in_world w (store_run_state RootTask.Running s))).
Qed.
Lemma reset_runs s : wp reset (fun _ s' => run_state s' = run_state s) (fun _ => False) s.
Proof.
  unfold reset. rewrite wp_bind. eapply wp_mono; [| |apply steady_life, steady_root_page]; [|done].
  intros _ s1 <-. rewrite wp_bind. eapply wp_mono; [| |apply version_runs]; [|done]. intros _ s2 <-.
  rewrite wp_bind. by apply worldly_wp; [apply worldly_displays|].
Qed.
Lemma perform_runs c s : DeviceInfo.quiet_caps caps ->
  wp (perform c) (fun _ s' => next c (run_state s) = Some (run_state s')) (fun _ => False) s.
Proof.
  intros Hq. destruct c as [| |state wants| | | | |]; cbn [perform next].
  - eapply wp_mono; [| |apply will_suspend_runs]; [|done]. by intros _ s' ->.
  - rewrite wp_bind. destruct (decide (run_state s = RootTask.EnteringSuspend)) as [E0|E0].
    + eapply wp_mono; [| |by apply finish_suspend_spec]; [|done]. intros bytes s' Hs. apply wp_ret.
      by rewrite E0, (sus_run _ _ _ Hs).
    + unfold wp, finish_suspend. rewrite run_step. unfold asks at 1. rewrite run_step.
      by destruct (run_state s).
  - rewrite wp_bind. eapply wp_mono; [| |apply will_resume_runs]; [|done].
    intros a s' Hs. apply wp_ret. by rewrite Hs.
  - eapply wp_mono; [| |apply did_resume_runs]; [|done]. by intros _ s' ->.
  - eapply wp_mono; [| |apply pause_runs]; [|done]. by intros _ s' ->.
  - eapply wp_mono; [| |apply unpause_runs]; [|done]. by intros _ s' ->.
  - eapply wp_mono; [| |apply steady_life, steady_root_page]; [|done]. by intros _ s' ->.
  - eapply wp_mono; [| |apply reset_runs]; [|done]. by intros _ s' ->.
Qed.
Lemma perform_all_runs cs : forall s, DeviceInfo.quiet_caps caps ->
  wp (perform_all cs) (fun _ s' => next_all cs (run_state s) = Some (run_state s')) (fun _ => False) s.
Proof.
  induction cs as [|c cs IH]; intros s Hq; [done|]. cbn [perform_all next_all]. rewrite wp_bind.
  eapply wp_mono; [| |by apply perform_runs]; [|done]. intros _ s1 ->. by apply IH.
Qed.

(** C13: the life cycle follows its machine. Whatever calls the host makes in whatever order, none
    raises, and where they all return the run state is the machine's: a suspend entered and
    finished, a resume begun (refused or not) and continued, paused, running again, stopped and
    reset where it was; a suspend finished that was not begun ends the process. *)
Theorem life_cycle_refines cs s : DeviceInfo.quiet_caps caps ->
  match perform_all cs s with
  | Ret (_, s') => next_all cs (run_state s) = Some (run_state s')
  | Raised _ => False
  | Died _ => True
  end /\
  (forall c, next c (run_state s) = None ->
     perform c s = Died (OfMmio (Mmio.OfDevice (Fatal SuspendNotBegun)))).
Proof.
  intros Hq. split.
  - pose proof (perform_all_runs cs s Hq) as H. unfold wp in H.
    by destruct (perform_all cs s) as [[[] s']|[[] ?]|].
  - intros c Hn. destruct c; try done. cbn [perform]. unfold finish_suspend. rewrite !run_step.
    unfold asks at 1. rewrite run_step. cbn [next] in Hn. by destruct (run_state s).
Qed.
End Lifecycle.

(** ** A device the laws hold on *)

(** The guest's memory and the tasks; a FIFO, a task and a guest display are numbers. *)
Record Mini := MkMini {
  mini_memory : GuestPtr.memory;
  mini_tasks : BucketOrderMap.t (TaskTable.Task Z Z);
}.
#[local] Instance mini_parts : Displays.Parts Mini Z unit unit := {
  Displays.memory_of := mini_memory;
  Displays.store_memory m v := MkMini m (mini_tasks v);
  Displays.new_guest_display port _ v := Ret (port, v);
  Displays.gd_port g := g;
  Displays.gd_client _ _ := None;
  Displays.gd_set_client _ _ _ _ v := Ret v;
  Displays.gd_will_restore _ v := Ret v;
  Displays.gd_release _ v := Ret v;
  Displays.core_alive _ _ := true;
  Displays.core_guest_display _ _ := None;
  Displays.core_set_guest_display _ _ _ v := Ret v;
  Displays.display_alive _ _ := true;
  Displays.efi_new v := Ret (tt, v);
  Displays.efi_set_display _ _ v := Ret v;
  Displays.efi_teardown _ v := Ret v;
}.
#[local] Instance mini_ops : Mmio.PortOps Mini Z unit unit := {
  Mmio.gd_doorbell _ v := Ret v;
  Mmio.efi_mode_select _ _ v := Ret v;
  Mmio.efi_mode_count _ _ := 1;
  Mmio.efi_mode_value _ _ := 0;
  Mmio.efi_stride_alignment _ _ := 256;
  Mmio.efi_framebuffer_start _ _ v := Ret v;
  Mmio.efi_framebuffer_length _ _ v := Ret v;
  Mmio.efi_framebuffer_depth _ _ v := Ret v;
  Mmio.efi_framebuffer_mode _ _ v := Ret v;
  Mmio.efi_framebuffer_stride _ _ v := Ret v;
}.
Local Abbreviation MiniPorts := (Displays.State Mini Z unit).
#[local] Instance mini_table : TaskTable.Table MiniPorts (TaskTable.Task Z Z) := {
  TaskTable.table w := mini_tasks (Displays.world w);
  TaskTable.set_table m w := Displays.with_world (MkMini (mini_memory (Displays.world w)) m) w;
}.
#[local] Instance mini_task_ops : TaskTable.Tasks MiniPorts Z Z Empty_set := {
  TaskTable.mapper_descriptor_base w := Ret (None, w);
  TaskTable.launch root _ _ w := Ret (Some root, w);
  TaskTable.new_local root _ _ w := Ret (Some root, w);
  TaskTable.task_teardown _ w := Ret w;
  TaskTable.flush_resources _ w := Ret w;
  TaskTable.clone _ w := w;
  TaskTable.release _ w := Ret w;
}.
Definition mini_clients : Device.Clients MiniPorts Z (TaskTable.Task Z Z) Empty_set := {|
  Device.memory_of w := mini_memory (Displays.world w);
  Device.store_memory m w := Displays.with_world (MkMini m (mini_tasks (Displays.world w))) w;
  Device.try_new_root_on _ _ _ w := Ret (Some 0, w);
  Device.new_child_on _ id _ w := Ret (Some id, w);
  Device.fifo_start _ w := Ret w;
  Device.fifo_stop _ w := Ret ([], w);
  Device.fifo_drain _ w := Ret ([], w);
  Device.fifo_resume _ w := Ret ([], w);
  Device.fifo_poke _ w := Ret w;
  Device.set_root_written _ _ w := Ret w;
  Device.stamp_index f _ := f;
  Device.fault_offset _ _ := Device.NOT_FAULTED;
  Device.root_read _ _ := Some 0x40;
  Device.tasks _ := [];
  Device.fifo_deleted _ _ w := Ret w;
  Device.teardown_tasks w := Ret w;
  Device.teardown_displays root running w :=
    match Displays.teardown_displays root running w with
    | Ret (_, w) => Ret w
    | Raised _ => Died UnhandledDisplay
    | Died d => Died d
    end;
  Device.take_report_budget w := (false, w);
  Device.report_stamp_wait_timeout w := Ret w;
|}.
#[local] Instance mini_life : Parts MiniPorts Mini Z Z unit := {
  fifo_quiesce _ w := Ret ([], w);
  root_written _ _ := Some 0x80;
  root_start_offset _ _ := Some 0x400;
  set_root_read _ _ w := Ret w;
  set_fault_offset _ _ w := Ret w;
  gd_pause _ v := Ret v;
  gd_unpause _ v := Ret v;
  gd_finish_restore _ v := Ret v;
}.
#[local] Instance mini_target : GuestRecords.Target := GuestRecords.AArch64.
Lemma mini_lawful : TaskTable.LawfulTasks (W := MiniPorts) (F := Z) (L := Z) (R := Z) (P := Empty_set)
  (DC := mini_clients).
Proof. by split. Qed.
Lemma mini_keeps (g : Z) (w : MiniPorts) :
  match gd_pause (R := unit) (F := Z) g (Displays.world w) with
  | Ret v => TaskTable.table (Displays.with_world v w) = TaskTable.table w
  | _ => True
  end.
Proof. by destruct w. Qed.

Definition sample_setup : Setup := MkSetup true false true true false true false.
Definition SAMPLE_VERSION : Z := 245.
(** A device at that version with a root FIFO, a child, two tasks and one port; its guest has
    asked for the keys below 20. *)
Definition sample_life (now : RootTask.RunState) : State MiniPorts Z :=
  MkState (Mmio.MkState (Device.MkState
    (RootTask.MkState 0 0 9 0 (Some RootTask.fresh) None now [] [])
    (Device.MkRootNode (Some GuestPtr.ZERO_REGION_END) None)
    (Device.MkRootFifo 1 3 0x8000 0x400 (Some 0) None (Some 0x200000000))
    (<[5%nat := Some 5]> (replicate 64 None)) Waits.new_waiting_info 0 (Device.MkInterrupts 1 2 4) false
    (Features.features_for_version SAMPLE_VERSION)
    (Displays.new 1 (MkMini (fun _ => x00)
      (<[3 := TaskTable.Remote 33]> (<[0 := TaskTable.Local 30]> BucketOrderMap.new)))))
    SAMPLE_VERSION 1 4) 20 0 0 0.
Definition sample_perform := perform (E := unit) mini_clients RootTask.sample_blocks
  (fun _ _ => true) (fun _ _ => None) true false DeviceInfo.sample_caps sample_setup.
Lemma sample_suspendable : suspendable (V := Mini) (G := Z) (R := unit) mini_clients (sample_life RootTask.EnteringSuspend).
Proof.
  split; [|done|done|done|by vm_compute]. repeat constructor; by vm_compute.
Qed.
Definition sample_answers : list MemoryMap.VmCall -> MemoryMap.VmCall -> bool := fun _ _ => true.
Definition sample_allocates : list MemoryMap.VmCall -> Z -> option Z := fun _ _ => None.
Lemma suspend_then_resume_witness :
  suspendable (V := Mini) (G := Z) (R := unit) mini_clients (sample_life RootTask.EnteringSuspend) /\
  exists bytes,
  serialize_suspend_state (V := Mini) (G := Z) (R := unit) mini_clients DeviceInfo.sample_caps
    sample_setup (sample_life RootTask.EnteringSuspend)
    = Ret (bytes, sample_life RootTask.EnteringSuspend) /\
  match will_resume (V := Mini) (G := Z) (R := unit) (P := Empty_set) DeviceInfo.sample_caps
          sample_setup (Some bytes) true (sample_life RootTask.Suspended) with
  | Ret (answer, s3) => answer = (true, None) /\ run_state s3 = RootTask.LeavingSuspendEarly
  | _ => False
  end.
Proof.
  split; [exact sample_suspendable|].
  destruct (suspend_then_resume (PT := mini_parts) (TK := mini_task_ops) mini_clients
    DeviceInfo.sample_caps sample_setup (sample_life RootTask.EnteringSuspend)
    (sample_life RootTask.Suspended) true DeviceInfo.sample_quiet sample_suspendable
    ltac:(by split)) as (bytes&Hb&H).
  exists bytes. split; [exact Hb|]. revert H.
  generalize (will_resume (V := Mini) (G := Z) (R := unit) (P := Empty_set) DeviceInfo.sample_caps
    sample_setup (Some bytes) true (sample_life RootTask.Suspended)).
  intros [[answer s3]|[e s3]|d]; [|done|by intros He; vm_compute in He].
  intros (Ha&_&_&_&_&Hr). by split.
Defined.


Definition sample_calls : list Call :=
  [WillSuspend; FinishSuspend; WillResume None true; Reset; Pause].
Local Abbreviation sample_all := (perform_all (PT := mini_parts) (PO := mini_ops) (TB := mini_table)
  (TK := mini_task_ops) mini_clients (LP := mini_life) (target := mini_target)
  RootTask.sample_blocks sample_answers sample_allocates true false DeviceInfo.sample_caps
  sample_setup sample_calls).
Definition all_return (s : State MiniPorts Z) : bool :=
  match sample_all s with Ret _ => true | _ => false end.
Lemma sample_all_return : all_return (sample_life RootTask.Running) = true.
Proof. by vm_compute. Qed.
Lemma life_cycle_refines_witness :
  all_return (sample_life RootTask.Running) = true /\
  match sample_all (sample_life RootTask.Running) with
  | Ret (_, s') => run_state s' = RootTask.Paused
  | Raised _ => False
  | Died _ => True
  end.
Proof.
  split; [exact sample_all_return|].
  destruct (life_cycle_refines (PT := mini_parts) (PO := mini_ops) (TB := mini_table)
    (TK := mini_task_ops) mini_clients (LP := mini_life) (target := mini_target)
    RootTask.sample_blocks sample_answers sample_allocates true false DeviceInfo.sample_caps
    sample_setup (LT := mini_lawful) mini_keeps sample_calls (sample_life RootTask.Running)
    DeviceInfo.sample_quiet) as [H _].
  revert H. generalize (sample_all (sample_life RootTask.Running)).
  intros [[[] s']|[e s']|d]; [|done|done]. intros H. cbn in H. by injection H.
Defined.
End Lifecycle.
